(* ===== verification/_CoqProject ===== *)
-Q . S2P
Prelude.v
Api.v
Watch.v
State.v
StateInv.v
StateEquiv.v
Snapshot.v
Fsm.v
Samples.v
StoreProps.v
FsmProps.v
FsmSafety.v
FsmSteps.v
FsmKeys.v
Platform.v
Placement.v
Leader.v
Orchestrator.v
Control.v
OrchestratorProps.v
Scheduler.v
SchedulerProps.v
Volumes.v
Vips.v
Jobs.v
Cron.v
Retention.v
Requests.v
Rpc.v
Deploys.v
Apps.v
Isolation.v
Net.v
Networks.v
F64.v
Routes.v
Proxy.v
ProxyProps.v
Follow.v
AgentSync.v
Health.v
Executor.v
ExecutorProps.v
Text.v
Dns.v
Listeners.v
Live.v
Autoscale.v
AutoscaleProps.v
Registry.v
RegistryProps.v
RegistryHttp.v
RegistryServed.v
Bytes.v
Tsdb.v
TsdbProps.v
AppConfig.v
AppConfigProps.v
LogStore.v
LogStoreProps.v
Notify.v
NotifyProps.v
SnapEngine.v
SnapEngineProps.v
SnapFiles.v
SnapFilesProps.v
VolumeOps.v
VolumeOpsProps.v
