(* ===== verification/Prelude.v ===== *)
(** * A verification development for Zattera

    Zattera (src/) is a self-hosted platform: a daemon per node, a Raft group that
    replicates the whole cluster state, and control loops on the Raft leader that turn
    desired state into assignments of instances to nodes.  This library models the
    replicated state, the state machine that applies commands to it, and the leader's
    control loops, and proves what makes them correct.

    ** The program and the files that model it

    The state.  internal/state holds the cluster in memory: maps of protobuf messages
    by id, secondary indexes, bounded histories, a watch hub.
    - Api.v: the messages, enums and commands of api/proto, as records and inductive
      types; a pointer to a message is an [option], [p ⇝ f] is the getter [p.GetF()],
      which returns the zero value on nil.  An enum has a constructor per value and
      one for the numbers this binary does not know.
    - State.v ([Store]): every collection of state.go, every accessor of accessors.go
      and accessors_infra.go, under the same names.  A mutator is a function on
      [Store.t]; one that can dereference nil returns an [outcome] with [Panic].
    - Watch.v: the hub of watch.go, and one subscriber against the apply path as a
      step relation.
    - Snapshot.v ([StoreSnapshot]): snapshot.go.
    - Platform.v: pkgutil/platform, pkgutil/version and ClusterVersionRange.

    The state machine.  internal/daemon/raftstore applies committed commands.
    - Fsm.v ([FSM]): Apply of a log entry, each handler of apply.go, Snapshot/Persist
      and Restore.  The protobuf codec is a parameter, [WireLib].

    The control loops.  internal/daemon/scheduler runs on the leader, reads the state
    and proposes commands through raftstore.Store.Apply.
    - Leader.v: such programs as a state monad [M] over the store and a log of the
      proposals, with early error returns and panics.  The environment [Env] decides
      the fate of each proposal (committed, leadership lost, failed, the last two
      with or without having been applied) and what other proposers commit in between.
    - Placement.v: placement.go, the choice of nodes.
    - Orchestrator.v: deployment.go, stateful.go and helpers.go, the phase machines of
      a deployment.
    - Scheduler.v ([Sched]): scheduler.go, teardown.go and drain.go, the placement
      pass, the reaping of orphans and the draining of nodes.
    - Volumes.v ([Volumes]): volumes.go, stateful volumes and their fencing leases.
    - Vips.v ([Vips]): vips.go, the addresses of services.
    - Jobs.v ([Jobs]): jobs.go, one-shot jobs and their retries.
    - Cron.v ([Cron]): cron.go, with the firing state of a leader term passed along.
    - Retention.v ([Retention]): retention.go, the pruning of releases.

    The API.  internal/daemon/api serves gRPC calls on the leader.
    - Requests.v: the request messages.
    - Rpc.v: who may call what: identities, tiers, project roles (interceptors.go,
      policy.go, rbac.go), and the chain a unary call passes.  Handlers are programs
      like the loops, that end with a value or a status code.
    - Deploys.v ([Deploys]): deploy.go and jobs.go.
    - Apps.v ([Projects], [Apps], [Domains]): projects.go, apps.go and domains.go.

    The ingress.  Control nodes stream a route table built from the state to the
    proxies of every node.
    - Networks.v ([Networks]): networks.go of the scheduler and of the agent, the
      subnets of bridge networks.
    - Routes.v ([Routes]): routes.go, the route table, and ([Delivery]) the push to a
      subscriber as a step relation against the consumer.
    - Proxy.v ([Proxy]): internal/daemon/proxy, a request from its arrival to the
      choice of an endpoint.
    - Net.v, F64.v: what they use of Go's net package and of float64.

    The nodes.  An agent on every node holds a stream to the leader, runs the containers
    it is told to, and serves the cluster's names, addresses and ports.
    - AgentSync.v ([AgentSync]): agentsync.go of internal/daemon/api, the set of
      assignments a node is sent and the way back of what it observes.
    - Health.v ([Health]): health.go of internal/daemon/agent, the probe of an instance
      and the machine that judges its results.
    - Executor.v ([Exec]): executor.go and the health manager, as programs that call
      the container engine and report.
    - Dns.v ([Dns]): internal/daemon/intdns/resolver.go with netscope.go, the names.
    - Listeners.v ([VIP], [L4]): intdns/vipproxy.go and proxy/l4.go, the addresses of
      services and the public TCP ports.
    - Live.v ([Live], [NodeHealth], [Liveness]): livestate, nodehealth and api/liveness.go,
      the streams and heartbeats of the nodes and the loop that judges them.
    - Autoscale.v ([Autoscaler], [ScaleToZero], [Serverless], [Activator]): autoscaler.go,
      scaletozero.go and serverless.go of the scheduler, api/activator.go: the count of
      replicas an environment should have, from what the nodes report.
    - Registry.v ([Blobs], [Uploads], [Manifests]): internal/daemon/registry, the store of
      image layers and manifests with its reference-counting collector; RegistryHttp.v
      ([Pull], [Http], [Ref]): its HTTP interface, the fetching from other control nodes.
    - Tsdb.v ([F32], [Tsdb]): internal/daemon/tsdb, the rings of metric samples with their file.
    - LogStore.v ([Segment], [Files], [Segmented]): internal/daemon/logstore, the files of
      log streams, as calls of the system between which a process can die.
    - Notify.v ([Metrics], [Engine], [LeaderRunner]): internal/daemon/notify, notifywiring.go and
      internal/daemon/leaderrunner, the alerts of the leader and how a loop follows leadership.
    - SnapEngine.v ([Engine], [Bucket]): internal/daemon/volumes, snapshots of volumes as chunks
      in an object store, each operation a program of calls, several of which work on one
      bucket; SnapFiles.v: chunker.go, the tar of a volume, written and extracted.
    - VolumeOps.v ([SnapshotDispatcher], [LocalServer], [SnapshotScheduler], [VolumeServer]):
      volumeops.go of the API and of the agent, snapshots.go of the scheduler, api/volumes.go:
      who takes, restores and drops snapshots, and when.
    - AppConfig.v ([GoDuration], [Config]): internal/appconfig, from zattera.toml to the
      specification of the services, with time.ParseDuration.
    - Follow.v, Text.v, Bytes.v: loops over one map that act on another, facts on text,
      words and varints as bytes.

    ** What the theorems show

    - StateInv.v, FsmProps.v, FsmKeys.v: every reachable state is well formed (ids match
      their keys, histories within their capacity, and the indexes by name are those of
      the objects, in both directions as long as no two objects shared a name); FsmKeys.v
      also shows how a deleted namesake hides a user from lookup by email.
    - StateEquiv.v, FsmProps.v: replicas that apply the same log reach equivalent
      states although each iterates over its maps in its own order, also when one
      starts from a snapshot of a state whose indexes are exact.
    - FsmSafety.v, FsmSteps.v: when a log can crash the nodes and when it cannot, that
      a request id takes effect once, and what the guarded transitions do.
    - StoreProps.v: functional behaviour of the accessors.
    - OrchestratorProps.v: the phase graph of deployments, the gate in front of a
      promotion, what a deployment may touch in each phase and what a failing or
      superseded one leaves alone, and the order of a stateful update, in which nothing
      is started before the old instance is gone; all for every environment.
    - SchedulerProps.v: what a placement pass may touch in every environment, and
      that it converges to the desired count when its proposals commit.
    - Volumes.v: a lease is never taken from another node while it is valid, so one
      assignment at a time may write a volume.
    - Vips.v: after a pass every service has an address of its own, if enough are free.
    - Jobs.v: the backoff formula, that retries end and how many attempts a job gets, and
      how an attempt goes uncounted when the write of its job fails.
    - Cron.v: at most one run per slot and leader term, and the overlap policies with the
      cancellation of the active runs before the new one.
    - Retention.v: what a sweep never deletes, and that it deletes the rest.
    - Rpc.v: no handler runs, and nothing is proposed, unless the caller has the tier
      and the project role the tables demand.
    - Isolation.v: the project, app and domain services leave every other project
      alone.  Deploys.v: the deploy and job services do not; what a deploy and a
      rollback propose, and that the rollback target is one that retention keeps.
    - Routes.v: replicas build one route table, and its HTTP routes, L4 routes, internal
      services and certificates are those of the state, none missing and none besides.
    - ProxyProps.v: a forwarded request reaches a healthy instance of the active
      release by the longest matching route, having passed every check of that route; the
      limiter's memory is bounded.
    - Networks.v: after a pass every environment on a node has a subnet of its own.
    - AgentSync.v: a set says what the state says; one flush leaves what its reports
      one by one leave, if no RUNNING follows a verdict in it.
    - Health.v: the verdict of a probe history, read off the history.
    - ExecutorProps.v: every call of a pass is justified by the set and the engine's
      listing; with the leases of the state, one instance in the cluster writes a
      volume; a start is retried three times; and ([batched_health_is_lost]) a run of
      executor, stream, state and route table in which a healthy instance is never
      routed.
    - Dns.v, Listeners.v: on the route table of a state, a name resolves to the address
      of the network's own environment only, a connection to an address reaches that
      environment's healthy instances, a public port the ones of the route it names;
      services of sibling apps are not found, against the
      documentation; the listeners refine the
      snapshots, and the name servers do not.
    - Live.v: a node is present just while its latest stream is open; every status the
      liveness loop proposes is justified by what the detectors say, with the grace that the
      loop's own start gives, which a new leader does not get ([new_leader_has_no_grace]).
    - AutoscaleProps.v: the autoscaler's visits of an environment, in passes over listings of
      the state, refine a timer, from which its cooldown and hold follow; what a scaling can
      revert; only idle environments are cooled; which loop owns one.
    - RegistryProps.v: in every state that uploads, pushes and removals reach one after
      another, what a tag needs stays stored and the rest goes, and where that ends (racing
      operations, digests in upper case); RegistryServed.v: what each route and method does,
      as a run of those operations.
    - TsdbProps.v: the rings answer what a store without bounds would, restricted to their
      window, and how far from the query their points lie; what is flushed is read back; an
      average divides by 2 to 20.
    - LogStoreProps.v: a stream answers what was written, less what its retention discards,
      also after crashes in a rotation ([crashes_lose_nothing]); and what goes wrong after a
      write that was cut off.
    - NotifyProps.v: an alarm is sent only after a condition that was never seen to fail, over
      the hold time and not sooner than its repeat interval, an event once per run of the
      loop; every pass sends what its state asks for; and how a loop can outlive its term.
    - SnapEngineProps.v: in every interleaving of snapshots, restores and collections on a
      bucket whose calls may fail, as long as no collection overlaps a snapshot, what was
      snapshot is read back until it is dropped, and a collection leaves what is live; and
      what is lost when they overlap.  SHA-256 is taken to have no collision among the chunks
      of the bucket.
    - SnapFilesProps.v: the files of a volume are restored from its snapshot, with owners,
      modes and times as far as the code keeps them; and what a restore does besides.
    - VolumeOpsProps.v: a volume in use is neither restored nor deleted, the newest snapshots
      are kept, a slot is fired once a term; and where the service falls short.
    - AppConfigProps.v: every accepted configuration is well formed, and is the same for
      every order of the map of environments.

    Control.v has the reasoning the loops share, Samples.v the objects the witnesses
    use.

    ** Conventions

    Machine integers are [Z] with their wrap-around written out ([u32], [u64], [i64]);
    a message field of an integer type holds a number of its range.  Go's [int] is 64
    bits: the counts and lengths computed with it stay far below, and are exact.
    Strings are [string], compared bytewise as in Go.  The order of [range m] over a
    map is the parameter [RangeOrder], any permutation of the map's entries; the
    theorems hold for every order, and replicas may have different ones.  A Go clone
    is the identity, as values here are immutable.  sort.Slice is an insertion sort,
    and theorems on sorted lists do not depend on the order of ties.  A method under
    the store's lock is one atomic step; a control loop reads the state once between
    two proposals, other writers being interleaved at the proposals.  Wall clock, ids
    and leadership are functions of the number of interactions so far.  Loops are
    folds over finite lists or structural recursions, without fuel but for the cascade of
    the registry's collector (Registry.v, [release]: as much as the graph has nodes, which
    RegistryProps.v proves enough) and what RegistryHttp.v calls the depth of a fetch, the
    nested indexes its deadline leaves time for.  The readers of Tsdb.v, AppConfig.v and
    LogStore.v ([decode_all], [components], [scan_from]) take the length of their input as fuel: each step consumes
    at least one character; AppConfigProps.v and LogStoreProps.v prove it enough
    ([components_fuel], [scan_fuel]), TsdbProps.v for every file that was written
    ([decode_all_encode]).

    Parameters: the protobuf codec ([WireLib], laws [WireLibOk]), timestamps
    ([TimestampLib], laws [TimestampLibOk]), cron schedules ([CronLib], law
    [CronLibOk]), token hashes ([TokenLib]), deterministic encodings and SHA-256
    ([ConfigLib]), the sealing of variables ([VaultLib]), bcrypt ([BcryptLib]), JSON and SHA-256
    of images ([RegistryLib], laws [RegistryLibOk]), decoded TOML ([TomlLib]), zstd
    ([ZstdLib], law [ZstdLibOk]), notification channels ([Senders], [Formats]), ciphers, chunking and encodings of
    snapshots ([SnapLib], laws [SnapLibOk]), archive/tar ([TarLib], law [TarLibOk]), what a
    node answers about a volume ([VolumeAgents]), the container engine
    ([ContainerRuntime]), DNS messages ([DnsLib]), the live samples
    ([LiveView], [LiveSamples]), conversions of floats outside int64 ([FloatConv]), what the host grants ([VIP.host]), map
    order, and the environment; each has a concrete instance on which the witnesses run.

    ** Not modelled

    Raft itself, transport and storage (libraries); the other services of the
    API, its streaming calls, leader forwarding and audit trail, the texts of statuses;
    TLS, mesh and builder, which are I/O around libraries; the bytes of
    connections; the parts of the agent that drive files, processes and Docker; the S3 client; the
    generated code, the CLI and tests; the goroutines that call the loops. *)
From Stdlib Require Export ZArith Lia Permutation.
From Stdlib Require OrdersEx.
From stdpp Require Export gmap strings list fin_maps sorting.

(** * Record update

    [r <| f := v |>] is the Go assignment [r.f = v] on a private copy.  A record
    type registers its eta expansion as a [Settable] instance; the setter of a
    field is then computed by abstracting that field out of the expansion. *)

Class Settable (R : Type) := eta_expand : R → R.
Class Setter {R T : Type} (proj : R → T) := set : (T → T) → R → R.
Arguments set {R T} proj {_} _ _.

Ltac solve_setter :=
  lazymatch goal with
  | |- @Setter ?R ?T ?proj =>
    let e := constr:(_ : Settable R) in
    let e := eval hnf in e in
    lazymatch eval pattern proj in e with
    | ?body _ =>
      let t := constr:(fun (f : T → T) (r : R) => body (fun r' => f (proj r')) r) in
      let t := eval cbv beta in t in
      exact t
    end
  end.

#[export] Hint Extern 1 (@Setter _ _ _) => solve_setter : typeclass_instances.

(** [get_set] reads fields of updated records in the goal, one update at a time.
    Each equation is checked on a variable record, so that nested updates of a
    large record are never compared with each other. *)
Ltac get_set :=
  repeat match goal with
  | |- context [?p (@set ?R ?T ?q ?S ?f ?r)] =>
    let E := fresh in
    first
      [ assert (∀ (g : T → T) (x : R), p (@set R T q S g x) = p x) as E
          by (intros; reflexivity); rewrite (E f r); clear E
      | assert (∀ (g : T → T) (x : R), p (@set R T q S g x) = g (p x)) as E
          by (intros; reflexivity); rewrite (E f r); clear E; cbv beta ]
  end.

(** The same in the hypotheses. *)
Ltac get_set_hyps :=
  repeat match goal with
  | H : context [?p (@set ?R ?T ?q ?S ?f ?r)] |- _ =>
    let E := fresh in
    first
      [ assert (∀ (g : T → T) (x : R), p (@set R T q S g x) = p x) as E
          by (intros; reflexivity); rewrite (E f r) in H; clear E
      | assert (∀ (g : T → T) (x : R), p (@set R T q S g x) = g (p x)) as E
          by (intros; reflexivity); rewrite (E f r) in H; clear E; cbv beta in H ]
  end.

Declare Scope go_scope.
Delimit Scope go_scope with go.
Open Scope go_scope.

Notation "r <| f := v |>" := (set f (λ _, v) r)
  (at level 1, left associativity, f at level 10, format "r  <| f  :=  v |>") : go_scope.
Notation "r <| f ::= g |>" := (set f g r)
  (at level 1, left associativity, f at level 10, format "r  <| f  ::=  g |>") : go_scope.

(** * Go values

    Every Go type has a zero value; the generated protobuf getters return it on a
    nil receiver.  A pointer to a message is an [option]; [p ⇝ f] is [p.GetF()]. *)

Class Zero (A : Type) := zero : A.

#[export] Instance zero_string : Zero string := ""%string.
#[export] Instance zero_Z : Zero Z := 0%Z.
#[export] Instance zero_bool : Zero bool := false.
#[export] Instance zero_option A : Zero (option A) := None.
#[export] Instance zero_list A : Zero (list A) := [].
#[export] Instance zero_gmap A : Zero (gmap string A) := (∅ : gmap string A).

Definition get {T A} `{Zero A} (f : T → A) (p : option T) : A :=
  match p with Some x => f x | None => zero end.

Notation "p ⇝ f" := (get f p) (at level 11, left associativity) : go_scope.

(** A Go computation that may dereference a nil pointer. *)
Inductive outcome (A : Type) : Type :=
| Ret (a : A)
| Panic.
Arguments Ret {A} _.
Arguments Panic {A}.

Definition obind {A B} (m : outcome A) (k : A → outcome B) : outcome B :=
  match m with Ret a => k a | Panic => Panic end.

#[export] Instance outcome_ret : MRet outcome := @Ret.
#[export] Instance outcome_bind : MBind outcome := λ A B k m, obind m k.

Definition is_ret {A} (m : outcome A) : Prop := ∃ a, m = Ret a.

(** * Machine integers: values are [Z], arithmetic wraps at the width. *)

Definition u32 (z : Z) : Z := (z mod 2 ^ 32)%Z.
Definition u64 (z : Z) : Z := (z mod 2 ^ 64)%Z.
Definition i64 (z : Z) : Z := ((z + 2 ^ 63) mod 2 ^ 64 - 2 ^ 63)%Z.

Definition max_int64 : Z := (2 ^ 63 - 1)%Z.
Definition in_u32 (z : Z) : Prop := (0 ≤ z < 2 ^ 32)%Z.
Definition in_i64 (z : Z) : Prop := (- 2 ^ 63 ≤ z < 2 ^ 63)%Z.

Lemma u32_small z : in_u32 z → u32 z = z.
Proof. intros [??]. by apply Z.mod_small. Qed.

Lemma u32_range z : in_u32 (u32 z).
Proof. unfold in_u32, u32. apply Z.mod_pos_bound. lia. Qed.

Lemma u64_small z : (0 ≤ z < 2 ^ 64)%Z → u64 z = z.
Proof. intros. by apply Z.mod_small. Qed.

Lemma i64_small z : in_i64 z → i64 z = z.
Proof. intros [??]. unfold i64. rewrite Z.mod_small; lia. Qed.

Lemma i64_range z : in_i64 (i64 z).
Proof.
  unfold in_i64, i64. pose proof (Z.mod_pos_bound (z + 2 ^ 63) (2 ^ 64)). lia.
Qed.

(** * Strings: Go compares strings bytewise. *)

Abbreviation str_ltb := String.ltb.

Lemma str_compare_OT s t : String.compare s t = OrdersEx.String_as_OT.compare s t.
Proof.
  reflexivity.
Qed.

Lemma str_ltb_OT s t : str_ltb s t = true ↔ OrdersEx.String_as_OT.lt s t.
Proof.
  unfold String.ltb, OrdersEx.String_as_OT.lt. rewrite str_compare_OT.
  destruct (OrdersEx.String_as_OT.compare s t); split; congruence.
Qed.

Lemma str_ltb_irrefl s : str_ltb s s = false.
Proof.
  apply not_true_is_false. rewrite str_ltb_OT.
  apply OrdersEx.String_as_OT.lt_strorder.
Qed.

Lemma str_ltb_trans s t u : str_ltb s t = true → str_ltb t u = true → str_ltb s u = true.
Proof. rewrite !str_ltb_OT. apply OrdersEx.String_as_OT.lt_strorder. Qed.

Lemma str_ltb_asym s t : str_ltb s t = true → str_ltb t s = false.
Proof.
  intros H. apply not_true_is_false. intros H'.
  pose proof (str_ltb_trans _ _ _ H H') as C. by rewrite str_ltb_irrefl in C.
Qed.

Lemma str_ltb_total s t : str_ltb s t = false → str_ltb t s = false → s = t.
Proof.
  intros H1 H2. destruct (OrdersEx.String_as_OT.compare_spec s t) as [?|H|H]; [done| |].
  - apply str_ltb_OT in H. congruence.
  - apply str_ltb_OT in H. congruence.
Qed.

Lemma str_leb_trans s t u : str_ltb t s = false → str_ltb u t = false → str_ltb u s = false.
Proof.
  intros H1 H2. apply not_true_is_false. intros H.
  destruct (str_ltb s t) eqn:E.
  - pose proof (str_ltb_trans _ _ _ H E). congruence.
  - pose proof (str_ltb_total _ _ E H1). congruence.
Qed.

Definition str_eqb (s t : string) : bool := bool_decide (s = t).

Notation "s =? t" := (str_eqb s t) (at level 70) : go_scope.

Lemma str_eqb_eq s t : (s =? t) = true ↔ s = t.
Proof. unfold str_eqb. apply bool_decide_eq_true. Qed.

Lemma str_eqb_neq s t : (s =? t) = false ↔ s ≠ t.
Proof. unfold str_eqb. apply bool_decide_eq_false. Qed.

(** * Map iteration

    The order of [for k, v := range m] is unspecified in Go: the models take it
    as a parameter, and the theorems hold for every order. *)

Class RangeOrder := range : ∀ {A : Type}, gmap string A → list (string * A).
Class RangeOrderOk (RO : RangeOrder) :=
  range_perm : ∀ {A : Type} (m : gmap string A), range m ≡ₚ map_to_list m.

(** A concrete order, for witnesses. *)
Definition canonical_range : RangeOrder := λ A m, map_to_list m.
#[export] Instance canonical_range_ok : RangeOrderOk canonical_range.
Proof. intros A m. reflexivity. Qed.

Definition reversed_range : RangeOrder := λ A m, reverse (map_to_list m).
#[export] Instance reversed_range_ok : RangeOrderOk reversed_range.
Proof. intros A m. apply reverse_Permutation. Qed.

Definition range_keys {RO : RangeOrder} (m : gset string) : list string :=
  fst <$> range (gset_to_gmap () m).
Definition range_values {RO : RangeOrder} {A} (m : gmap string A) : list A :=
  snd <$> range m.

Section range_lemmas.
Context {RO : RangeOrder} {ROk : RangeOrderOk RO}.

Lemma elem_of_range {A} (m : gmap string A) k v :
  (k, v) ∈ range m ↔ m !! k = Some v.
Proof. rewrite range_perm. apply elem_of_map_to_list. Qed.

Lemma NoDup_fst_range {A} (m : gmap string A) : NoDup (range m).*1.
Proof. rewrite range_perm. apply NoDup_fst_map_to_list. Qed.

Lemma NoDup_range {A} (m : gmap string A) : NoDup (range m).
Proof. rewrite range_perm. apply NoDup_map_to_list. Qed.

Lemma list_to_map_range {A} (m : gmap string A) : list_to_map (range m) = m.
Proof.
  symmetry. apply list_to_map_flip. symmetry. apply range_perm.
Qed.

Lemma elem_of_range_keys (m : gset string) k : k ∈ range_keys m ↔ k ∈ m.
Proof.
  unfold range_keys. rewrite list_elem_of_fmap. split.
  - intros ([k' []] & -> & Hin). apply elem_of_range, lookup_gset_to_gmap_Some in Hin.
    by destruct Hin.
  - intros Hk. exists (k, ()). split; [done|].
    apply elem_of_range, lookup_gset_to_gmap_Some. done.
Qed.

Lemma elem_of_range_values {A} (m : gmap string A) v :
  v ∈ range_values m ↔ ∃ k, m !! k = Some v.
Proof.
  unfold range_values. rewrite list_elem_of_fmap. split.
  - intros ([k v'] & -> & Hin). apply elem_of_range in Hin. eauto.
  - intros [k Hk]. exists (k, v). by rewrite elem_of_range.
Qed.
End range_lemmas.

(** * sort.Slice

    Insertion sort by a [less] function.  The library's sort is not stable, so a
    theorem about a sorted slice must not depend on the order of ties: the
    lemmas below give a permutation, a sorted result, and uniqueness when no two
    elements tie. *)

Section sort_slice.
Context {A : Type} (less : A → A → bool).

Fixpoint insert_slice (x : A) (l : list A) : list A :=
  match l with
  | [] => [x]
  | y :: l' => if less y x then y :: insert_slice x l' else x :: l
  end.

Definition sort_slice (l : list A) : list A := foldr insert_slice [] l.

Definition not_less (x y : A) : Prop := less y x = false.

Lemma insert_slice_perm x l : insert_slice x l ≡ₚ x :: l.
Proof.
  induction l as [|y l IH]; simpl; [done|].
  destruct (less y x); [|done]. rewrite IH. apply Permutation_swap.
Qed.

Lemma sort_slice_perm l : sort_slice l ≡ₚ l.
Proof.
  induction l as [|x l IH]; simpl; [done|]. by rewrite insert_slice_perm, IH.
Qed.

Hypothesis less_asym : ∀ x y, less x y = true → less y x = false.
Hypothesis not_less_trans : ∀ x y z, not_less x y → not_less y z → not_less x z.

Lemma insert_slice_sorted x l :
  StronglySorted not_less l → StronglySorted not_less (insert_slice x l).
Proof.
  induction l as [|y l IH]; intros Hs; simpl.
  { by repeat constructor. }
  apply StronglySorted_cons in Hs as [Hy Hs].
  destruct (less y x) eqn:E.
  - apply StronglySorted_cons. split; [|by apply IH].
    rewrite insert_slice_perm. constructor; [by apply less_asym|done].
  - apply StronglySorted_cons. split; [|by apply StronglySorted_cons].
    constructor; [done|]. eapply Forall_impl; [exact Hy|].
    intros z Hz. by eapply not_less_trans.
Qed.

Lemma sort_slice_sorted l : StronglySorted not_less (sort_slice l).
Proof. induction l; simpl; [constructor|by apply insert_slice_sorted]. Qed.

(** Two lists with the same elements, none of which tie, sort alike. *)
Lemma sort_slice_unique l1 l2 :
  l1 ≡ₚ l2 →
  (∀ x y, x ∈ l1 → y ∈ l1 → not_less x y → not_less y x → x = y) →
  sort_slice l1 = sort_slice l2.
Proof.
  intros Hp Hinj. apply (StronglySorted_unique_strong not_less).
  - intros x y Hx Hy. rewrite sort_slice_perm in Hx. rewrite sort_slice_perm, <- Hp in Hy.
    by apply Hinj.
  - apply sort_slice_sorted.
  - apply sort_slice_sorted.
  - by rewrite !sort_slice_perm.
Qed.
End sort_slice.

Lemma StronglySorted_weaken {A} (R1 R2 : relation A) (l : list A) :
  (∀ x y, R1 x y → R2 x y) → StronglySorted R1 l → StronglySorted R2 l.
Proof.
  intros HR. induction l as [|x l IH]; [by constructor|]. rewrite !StronglySorted_cons.
  intros [Hx Hl]. split; [|by apply IH]. eapply Forall_impl; [exact Hx|]. apply HR.
Qed.

(** Sorting by a string key. *)
Definition key_less {A} (key : A → string) (x y : A) : bool := str_ltb (key x) (key y).

Section sort_key.
Context {A : Type} (key : A → string).

Lemma key_less_asym x y : key_less key x y = true → key_less key y x = false.
Proof. apply str_ltb_asym. Qed.

Lemma key_less_trans x y z :
  not_less (key_less key) x y → not_less (key_less key) y z → not_less (key_less key) x z.
Proof. unfold not_less, key_less. apply str_leb_trans. Qed.

Lemma sort_key_sorted l : StronglySorted (not_less (key_less key)) (sort_slice (key_less key) l).
Proof. apply sort_slice_sorted; [apply key_less_asym|apply key_less_trans]. Qed.

Lemma sort_key_unique l1 l2 :
  l1 ≡ₚ l2 → NoDup (key <$> l1) →
  sort_slice (key_less key) l1 = sort_slice (key_less key) l2.
Proof.
  intros Hp Hnd. apply sort_slice_unique; [apply key_less_asym|apply key_less_trans|done|].
  intros x y [i Hx]%list_elem_of_lookup [j Hy]%list_elem_of_lookup H1 H2.
  pose proof (str_ltb_total _ _ H2 H1) as Hk.
  assert (i = j) as ->; [|congruence].
  apply (NoDup_lookup (key <$> l1) i j (key x) Hnd); rewrite list_lookup_fmap.
  - by rewrite Hx.
  - by rewrite Hy, Hk.
Qed.
End sort_key.

(** * Loops whose iterations commute *)

Lemma foldl_perm_rel {A B} (R : relation B) `{!PreOrder R} (f : B → A → B) (l k : list A) :
  (∀ x y a, R x y → R (f x a) (f y a)) →
  NoDup l → (∀ x a b, a ∈ l → b ∈ l → a ≠ b → R (f (f x a) b) (f (f x b) a)) →
  l ≡ₚ k → ∀ x, R (foldl f x l) (foldl f x k).
Proof.
  intros Hf Hnd Hcomm Hp.
  assert (∀ l x y, R x y → R (foldl f x l) (foldl f y l)) as Hfold.
  { intros l'. induction l' as [|a l' IH]; intros x y Hxy; cbn; [done|]. apply IH. by apply Hf. }
  induction Hp as [|a l k Hp IH|a b l|l m k Hp1 IH1 Hp2 IH2]; intros x; cbn.
  - reflexivity.
  - apply NoDup_cons in Hnd as [_ Hnd]. apply IH; [done|].
    intros y c d Hc Hd. apply Hcomm; by right.
  - apply NoDup_cons in Hnd as [Hab _]. apply Hfold. apply Hcomm; [left|right; left|].
    intros ->. apply Hab. left.
  - transitivity (foldl f x m); [by apply IH1|]. apply IH2; [by rewrite <- Hp1|].
    intros y a b Ha Hb. rewrite <- Hp1 in Ha, Hb. by apply Hcomm.
Qed.

Lemma foldl_invariant {A B} (P : B → Prop) (f : B → A → B) (l : list A) (x : B) :
  P x → (∀ y a, a ∈ l → P y → P (f y a)) → P (foldl f x l).
Proof.
  revert x. induction l as [|a l IH]; intros x Hx Hf; simpl; [done|].
  apply IH; [apply Hf; [left|done]|]. intros y b Hb. apply Hf. by right.
Qed.

(** A loop whose body may panic. *)
Definition ofoldl {S A} (f : S → A → outcome S) (s : S) (l : list A) : outcome S :=
  foldl (λ o a, s ← o; f s a) (Ret s) l.

Lemma foldl_panic {S A} (f : S → A → outcome S) (l : list A) :
  foldl (λ o a, s ← o; f s a) Panic l = Panic.
Proof. by induction l. Qed.

Lemma ofoldl_cons {S A} (f : S → A → outcome S) s a l :
  ofoldl f s (a :: l) = (s ← f s a; ofoldl f s l).
Proof.
  unfold ofoldl; cbn. unfold mbind, outcome_bind, obind at 1.
  destruct (f s a); cbn; [done|apply foldl_panic].
Qed.

Lemma ofoldl_invariant {S A} (P : S → Prop) (f : S → A → outcome S) l s s' :
  (∀ s a s', P s → a ∈ l → f s a = Ret s' → P s') → P s → ofoldl f s l = Ret s' → P s'.
Proof.
  revert s. induction l as [|a l IH]; intros s Hf Hs.
  - by intros [= <-].
  - rewrite ofoldl_cons. destruct (f s a) as [s1|] eqn:E; [|done]. apply IH.
    + intros ???? Hin. apply Hf; [done|by right].
    + eapply Hf; [exact Hs|left|done].
Qed.

Lemma ofoldl_total {S A} (P : S → Prop) (f : S → A → outcome S) l s :
  (∀ s a, P s → a ∈ l → ∃ s', f s a = Ret s' ∧ P s') → P s → ∃ s', ofoldl f s l = Ret s' ∧ P s'.
Proof.
  revert s. induction l as [|a l IH]; intros s Hf Hs.
  - by exists s.
  - rewrite ofoldl_cons. destruct (Hf s a Hs) as (s1 & -> & Hs1); [left|].
    apply IH; [|done]. intros ??? Hin. apply Hf; [done|by right].
Qed.

(** * Suffixes: the ring buffers keep the last [n] entries *)

Definition last_n {A} (n : nat) (l : list A) : list A := drop (length l - n) l.

Lemma length_last_n {A} n (l : list A) : length (last_n n l) = min n (length l).
Proof. unfold last_n. rewrite length_drop. lia. Qed.

Lemma last_n_all {A} n (l : list A) : length l ≤ n → last_n n l = l.
Proof. intros. unfold last_n. replace (length l - n) with 0 by lia. done. Qed.

Lemma last_n_app {A} n (l k : list A) : last_n n (last_n n l ++ k) = last_n n (l ++ k).
Proof.
  unfold last_n. rewrite !length_app, length_drop.
  destruct (decide (length l ≤ n)).
  { replace (length l - n) with 0 by lia. rewrite drop_0. f_equal. lia. }
  rewrite <- (drop_app_le l k (length l - n)) by lia. rewrite drop_drop.
  f_equal. lia.
Qed.
