(* ===== verification/Api.v ===== *)
(** The protobuf messages of the replicated state (api/proto/zattera/v1 and
    cluster/v1/fsm.proto): one enum per [Inductive], one module per message with
    its record [t].

    A singular, repeated or map field of message type is a Go pointer, so it is an
    [option]: decoding leaves an absent message nil.  An enum is open in proto3:
    the last constructor stands for a number the schema does not declare.  A double is its IEEE 754 bit pattern.  The
    well-known types Timestamp and Duration come from google.golang.org/protobuf:
    their conversions to Go times are the class [TimestampLib]. *)
From S2P Require Import Prelude.
From Stdlib Require Import Strings.Byte.

(** * Times

    A Go [time.Time] is its instant in nanoseconds since the Unix epoch, a
    [time.Duration] its nanoseconds. *)

Module Timestamp.
Record t := mk { Seconds : Z; Nanos : Z }.
End Timestamp.

Module Duration.
Record t := mk { Seconds : Z; Nanos : Z }.
End Duration.

(** The seconds of a Go time are an int64. *)
Definition time_ok (ns : Z) : Prop := (- 2 ^ 63 * 10 ^ 9 ≤ ns < 2 ^ 63 * 10 ^ 9)%Z.

(** timestamppb.New, Timestamp.AsTime and Duration.AsDuration. *)
Class TimestampLib := {
  timestamppb_New : Z → Timestamp.t;
  AsTime : option Timestamp.t → Z;
  AsDuration : option Duration.t → Z
}.

(** Their documented behaviour: New is undone by AsTime, and the conversions of a
    nil message are those of the zero message. *)
Class TimestampLibOk (TL : TimestampLib) := {
  AsTime_New : ∀ ns, time_ok ns → AsTime (Some (timestamppb_New ns)) = ns;
  AsTime_nil : AsTime None = 0%Z;
  AsDuration_nil : AsDuration None = 0%Z
}.

(** time.UnixMilli and Time.UnixMilli. *)
Definition time_UnixMilli (ms : Z) : Z := (ms * 10 ^ 6)%Z.
Definition UnixMilli (ns : Z) : Z := i64 (ns / 10 ^ 6)%Z.

Lemma UnixMilli_time ms : in_i64 ms → UnixMilli (time_UnixMilli ms) = ms.
Proof.
  intros H. unfold UnixMilli, time_UnixMilli. rewrite Z.div_mul by lia. by apply i64_small.
Qed.

Lemma time_ok_UnixMilli ms : in_i64 ms → time_ok (time_UnixMilli ms).
Proof. unfold in_i64, time_ok, time_UnixMilli. lia. Qed.

(** An instance, for witnesses. *)
#[export] Instance wellknown_times : TimestampLib := {
  timestamppb_New ns := Timestamp.mk (ns / 10 ^ 9) (ns mod 10 ^ 9);
  AsTime ts := match ts with
    | Some ts => (Timestamp.Seconds ts * 10 ^ 9 + Timestamp.Nanos ts)%Z | None => 0%Z end;
  AsDuration d := match d with
    | Some d => (Duration.Seconds d * 10 ^ 9 + Duration.Nanos d)%Z | None => 0%Z end
}.

#[export] Instance wellknown_times_ok : TimestampLibOk wellknown_times.
Proof.
  split; [|done|done]. intros ns _. simpl.
  rewrite Z.mul_comm. symmetry. apply Z.div_mod. lia.
Qed.

(** * Enums *)

Inductive Role :=
| ROLE_UNSPECIFIED
| ROLE_OWNER
| ROLE_ADMIN
| ROLE_DEVELOPER
| ROLE_VIEWER
| ROLE_OTHER (n : Z).
#[export] Instance Role_eq_dec : EqDecision Role.
Proof. solve_decision. Defined.
#[export] Instance zero_Role : Zero Role := ROLE_UNSPECIFIED.

Inductive BuildType :=
| BUILD_TYPE_UNSPECIFIED
| BUILD_TYPE_NIXPACKS
| BUILD_TYPE_DOCKERFILE
| BUILD_TYPE_IMAGE
| BUILD_TYPE_OTHER (n : Z).
#[export] Instance BuildType_eq_dec : EqDecision BuildType.
Proof. solve_decision. Defined.
#[export] Instance zero_BuildType : Zero BuildType := BUILD_TYPE_UNSPECIFIED.

Inductive Protocol :=
| PROTOCOL_UNSPECIFIED
| PROTOCOL_HTTP
| PROTOCOL_TCP
| PROTOCOL_UDP
| PROTOCOL_OTHER (n : Z).
#[export] Instance Protocol_eq_dec : EqDecision Protocol.
Proof. solve_decision. Defined.
#[export] Instance zero_Protocol : Zero Protocol := PROTOCOL_UNSPECIFIED.

Inductive HealthCheckType :=
| HEALTH_CHECK_TYPE_UNSPECIFIED
| HEALTH_CHECK_TYPE_HTTP
| HEALTH_CHECK_TYPE_TCP
| HEALTH_CHECK_TYPE_EXEC
| HEALTH_CHECK_TYPE_OTHER (n : Z).
#[export] Instance HealthCheckType_eq_dec : EqDecision HealthCheckType.
Proof. solve_decision. Defined.
#[export] Instance zero_HealthCheckType : Zero HealthCheckType := HEALTH_CHECK_TYPE_UNSPECIFIED.

Inductive ConcurrencyPolicy :=
| CONCURRENCY_POLICY_UNSPECIFIED
| CONCURRENCY_POLICY_FORBID
| CONCURRENCY_POLICY_REPLACE
| CONCURRENCY_POLICY_ALLOW
| CONCURRENCY_POLICY_OTHER (n : Z).
#[export] Instance ConcurrencyPolicy_eq_dec : EqDecision ConcurrencyPolicy.
Proof. solve_decision. Defined.
#[export] Instance zero_ConcurrencyPolicy : Zero ConcurrencyPolicy := CONCURRENCY_POLICY_UNSPECIFIED.

Inductive EnvironmentType :=
| ENVIRONMENT_TYPE_UNSPECIFIED
| ENVIRONMENT_TYPE_PRODUCTION
| ENVIRONMENT_TYPE_STAGING
| ENVIRONMENT_TYPE_PREVIEW
| ENVIRONMENT_TYPE_OTHER (n : Z).
#[export] Instance EnvironmentType_eq_dec : EqDecision EnvironmentType.
Proof. solve_decision. Defined.
#[export] Instance zero_EnvironmentType : Zero EnvironmentType := ENVIRONMENT_TYPE_UNSPECIFIED.

Inductive DeploymentPhase :=
| DEPLOYMENT_PHASE_UNSPECIFIED
| DEPLOYMENT_PHASE_PENDING
| DEPLOYMENT_PHASE_BUILDING
| DEPLOYMENT_PHASE_PLACING
| DEPLOYMENT_PHASE_STARTING
| DEPLOYMENT_PHASE_HEALTHCHECKING
| DEPLOYMENT_PHASE_PROMOTING
| DEPLOYMENT_PHASE_DRAINING_OLD
| DEPLOYMENT_PHASE_SUCCEEDED
| DEPLOYMENT_PHASE_FAILED
| DEPLOYMENT_PHASE_ROLLED_BACK
| DEPLOYMENT_PHASE_SUPERSEDED
| DEPLOYMENT_PHASE_STOPPING_OLD
| DEPLOYMENT_PHASE_OTHER (n : Z).
#[export] Instance DeploymentPhase_eq_dec : EqDecision DeploymentPhase.
Proof. solve_decision. Defined.
#[export] Instance zero_DeploymentPhase : Zero DeploymentPhase := DEPLOYMENT_PHASE_UNSPECIFIED.

Inductive BuildStatus :=
| BUILD_STATUS_UNSPECIFIED
| BUILD_STATUS_QUEUED
| BUILD_STATUS_RUNNING
| BUILD_STATUS_SUCCEEDED
| BUILD_STATUS_FAILED
| BUILD_STATUS_CANCELED
| BUILD_STATUS_OTHER (n : Z).
#[export] Instance BuildStatus_eq_dec : EqDecision BuildStatus.
Proof. solve_decision. Defined.
#[export] Instance zero_BuildStatus : Zero BuildStatus := BUILD_STATUS_UNSPECIFIED.

Inductive NodeRole :=
| NODE_ROLE_UNSPECIFIED
| NODE_ROLE_CONTROL
| NODE_ROLE_WORKER
| NODE_ROLE_OTHER (n : Z).
#[export] Instance NodeRole_eq_dec : EqDecision NodeRole.
Proof. solve_decision. Defined.
#[export] Instance zero_NodeRole : Zero NodeRole := NODE_ROLE_UNSPECIFIED.

Inductive NodeStatus :=
| NODE_STATUS_UNSPECIFIED
| NODE_STATUS_ALIVE
| NODE_STATUS_SUSPECT
| NODE_STATUS_DOWN
| NODE_STATUS_DRAINING
| NODE_STATUS_DRAINED
| NODE_STATUS_OTHER (n : Z).
#[export] Instance NodeStatus_eq_dec : EqDecision NodeStatus.
Proof. solve_decision. Defined.
#[export] Instance zero_NodeStatus : Zero NodeStatus := NODE_STATUS_UNSPECIFIED.

Inductive InstanceState :=
| INSTANCE_STATE_UNSPECIFIED
| INSTANCE_STATE_PENDING
| INSTANCE_STATE_PULLING
| INSTANCE_STATE_STARTING
| INSTANCE_STATE_RUNNING
| INSTANCE_STATE_HEALTHY
| INSTANCE_STATE_UNHEALTHY
| INSTANCE_STATE_FAILED
| INSTANCE_STATE_STOPPED
| INSTANCE_STATE_OTHER (n : Z).
#[export] Instance InstanceState_eq_dec : EqDecision InstanceState.
Proof. solve_decision. Defined.
#[export] Instance zero_InstanceState : Zero InstanceState := INSTANCE_STATE_UNSPECIFIED.

Inductive AssignmentDesired :=
| ASSIGNMENT_DESIRED_UNSPECIFIED
| ASSIGNMENT_DESIRED_RUN
| ASSIGNMENT_DESIRED_STOP
| ASSIGNMENT_DESIRED_OTHER (n : Z).
#[export] Instance AssignmentDesired_eq_dec : EqDecision AssignmentDesired.
Proof. solve_decision. Defined.
#[export] Instance zero_AssignmentDesired : Zero AssignmentDesired := ASSIGNMENT_DESIRED_UNSPECIFIED.

Inductive TokenKind :=
| TOKEN_KIND_UNSPECIFIED
| TOKEN_KIND_PERSONAL
| TOKEN_KIND_SESSION
| TOKEN_KIND_OTHER (n : Z).
#[export] Instance TokenKind_eq_dec : EqDecision TokenKind.
Proof. solve_decision. Defined.
#[export] Instance zero_TokenKind : Zero TokenKind := TOKEN_KIND_UNSPECIFIED.

Inductive CertStatus :=
| CERT_STATUS_UNSPECIFIED
| CERT_STATUS_PENDING
| CERT_STATUS_ISSUED
| CERT_STATUS_FAILED
| CERT_STATUS_OTHER (n : Z).
#[export] Instance CertStatus_eq_dec : EqDecision CertStatus.
Proof. solve_decision. Defined.
#[export] Instance zero_CertStatus : Zero CertStatus := CERT_STATUS_UNSPECIFIED.

Inductive VolumeStatus :=
| VOLUME_STATUS_UNSPECIFIED
| VOLUME_STATUS_ACTIVE
| VOLUME_STATUS_NODE_LOST
| VOLUME_STATUS_RESTORING
| VOLUME_STATUS_OTHER (n : Z).
#[export] Instance VolumeStatus_eq_dec : EqDecision VolumeStatus.
Proof. solve_decision. Defined.
#[export] Instance zero_VolumeStatus : Zero VolumeStatus := VOLUME_STATUS_UNSPECIFIED.

Inductive SnapshotStatus :=
| SNAPSHOT_STATUS_UNSPECIFIED
| SNAPSHOT_STATUS_RUNNING
| SNAPSHOT_STATUS_COMPLETE
| SNAPSHOT_STATUS_FAILED
| SNAPSHOT_STATUS_OTHER (n : Z).
#[export] Instance SnapshotStatus_eq_dec : EqDecision SnapshotStatus.
Proof. solve_decision. Defined.
#[export] Instance zero_SnapshotStatus : Zero SnapshotStatus := SNAPSHOT_STATUS_UNSPECIFIED.

Inductive JobStatus :=
| JOB_STATUS_UNSPECIFIED
| JOB_STATUS_QUEUED
| JOB_STATUS_RUNNING
| JOB_STATUS_SUCCEEDED
| JOB_STATUS_FAILED
| JOB_STATUS_RETRYING
| JOB_STATUS_CANCELED
| JOB_STATUS_OTHER (n : Z).
#[export] Instance JobStatus_eq_dec : EqDecision JobStatus.
Proof. solve_decision. Defined.
#[export] Instance zero_JobStatus : Zero JobStatus := JOB_STATUS_UNSPECIFIED.

(** * Messages *)

Module Meta.
Record t := mk {
  Id : string;
  CreatedAt : option Timestamp.t;
  UpdatedAt : option Timestamp.t
}.
#[global] Instance eta : Settable t := λ r,
  mk (Id r) (CreatedAt r) (UpdatedAt r).
End Meta.

Module Org.
Record t := mk {
  Meta : option Meta.t;
  Name : string
}.
#[global] Instance eta : Settable t := λ r,
  mk (Meta r) (Name r).
End Org.

Module PutOrg.
Record t := mk {
  Org : option Org.t
}.
#[global] Instance eta : Settable t := λ r,
  mk (Org r).
End PutOrg.

Module User.
Record t := mk {
  Meta : option Meta.t;
  Email : string;
  DisplayName : string;
  PasswordHash : string;
  OrgId : string;
  OrgRole : Role
}.
#[global] Instance eta : Settable t := λ r,
  mk (Meta r) (Email r) (DisplayName r) (PasswordHash r) (OrgId r) (OrgRole r).
End User.

Module PutUser.
Record t := mk {
  User : option User.t
}.
#[global] Instance eta : Settable t := λ r,
  mk (User r).
End PutUser.

Module DeleteByID.
Record t := mk {
  Id : string
}.
#[global] Instance eta : Settable t := λ r,
  mk (Id r).
End DeleteByID.

Module Project.
Record t := mk {
  Meta : option Meta.t;
  OrgId : string;
  Name : string
}.
#[global] Instance eta : Settable t := λ r,
  mk (Meta r) (OrgId r) (Name r).
End Project.

Module PutProject.
Record t := mk {
  Project : option Project.t
}.
#[global] Instance eta : Settable t := λ r,
  mk (Project r).
End PutProject.

Module ProjectMember.
Record t := mk {
  ProjectId : string;
  UserId : string;
  Role : Role
}.
#[global] Instance eta : Settable t := λ r,
  mk (ProjectId r) (UserId r) (Role r).
End ProjectMember.

Module PutProjectMember.
Record t := mk {
  Member : option ProjectMember.t
}.
#[global] Instance eta : Settable t := λ r,
  mk (Member r).
End PutProjectMember.

Module DeleteProjectMember.
Record t := mk {
  ProjectId : string;
  UserId : string
}.
#[global] Instance eta : Settable t := λ r,
  mk (ProjectId r) (UserId r).
End DeleteProjectMember.

Module BuildConfig.
Record t := mk {
  Type_ : BuildType;
  DockerfilePath : string;
  ContextDir : string;
  BuildArgs : gmap string string;
  Platforms : list string;
  Image : string
}.
#[global] Instance eta : Settable t := λ r,
  mk (Type_ r) (DockerfilePath r) (ContextDir r) (BuildArgs r) (Platforms r) (Image r).
End BuildConfig.

Module GitHubConfig.
Record t := mk {
  Repo : string;
  InstallationId : Z;
  WebhookSecretId : string;
  BranchEnvironments : gmap string string;
  PreviewEnvironments : bool
}.
#[global] Instance eta : Settable t := λ r,
  mk (Repo r) (InstallationId r) (WebhookSecretId r) (BranchEnvironments r) (PreviewEnvironments r).
End GitHubConfig.

Module App.
Record t := mk {
  Meta : option Meta.t;
  ProjectId : string;
  Name : string;
  Build : option BuildConfig.t;
  Github : option GitHubConfig.t
}.
#[global] Instance eta : Settable t := λ r,
  mk (Meta r) (ProjectId r) (Name r) (Build r) (Github r).
End App.

Module PutApp.
Record t := mk {
  App : option App.t
}.
#[global] Instance eta : Settable t := λ r,
  mk (App r).
End PutApp.

Module ReplicaRange.
Record t := mk {
  Min : Z;
  Max : Z
}.
#[global] Instance eta : Settable t := λ r,
  mk (Min r) (Max r).
End ReplicaRange.

Module Autoscale.
Record t := mk {
  TargetCpuPercent : Z;
  TargetMemoryPercent : Z;
  TargetRpsPerReplica : Z
}.
#[global] Instance eta : Settable t := λ r,
  mk (TargetCpuPercent r) (TargetMemoryPercent r) (TargetRpsPerReplica r).
End Autoscale.

Module ResourceLimits.
Record t := mk {
  CpuMillis : Z;
  MemoryMb : Z
}.
#[global] Instance eta : Settable t := λ r,
  mk (CpuMillis r) (MemoryMb r).
End ResourceLimits.

Module PortSpec.
Record t := mk {
  Name : string;
  ContainerPort : Z;
  Protocol : Protocol;
  PublicL4Port : Z
}.
#[global] Instance eta : Settable t := λ r,
  mk (Name r) (ContainerPort r) (Protocol r) (PublicL4Port r).
End PortSpec.

Module HealthCheck.
Record t := mk {
  Type_ : HealthCheckType;
  Path : string;
  Port : Z;
  Command : string;
  Interval : option Duration.t;
  Timeout : option Duration.t;
  GracePeriod : option Duration.t;
  UnhealthyThreshold : Z
}.
#[global] Instance eta : Settable t := λ r,
  mk (Type_ r) (Path r) (Port r) (Command r) (Interval r) (Timeout r) (GracePeriod r) (UnhealthyThreshold r).
End HealthCheck.

Module VolumeMount.
Record t := mk {
  VolumeName : string;
  MountPath : string
}.
#[global] Instance eta : Settable t := λ r,
  mk (VolumeName r) (MountPath r).
End VolumeMount.

Module CronSpec.
Record t := mk {
  Name : string;
  Schedule : string;
  Command : string;
  Concurrency : ConcurrencyPolicy;
  MaxRetries : Z
}.
#[global] Instance eta : Settable t := λ r,
  mk (Name r) (Schedule r) (Command r) (Concurrency r) (MaxRetries r).
End CronSpec.

Module RateLimit.
Record t := mk {
  RequestsPerSecond : Z;
  Burst : Z
}.
#[global] Instance eta : Settable t := λ r,
  mk (RequestsPerSecond r) (Burst r).
End RateLimit.

Module ServiceSpec.
Record t := mk {
  Replicas : option ReplicaRange.t;
  Autoscale : option Autoscale.t;
  Resources : option ResourceLimits.t;
  Ports : list (option PortSpec.t);
  Healthcheck : option HealthCheck.t;
  ScaleToZero : bool;
  MaxConcurrency : Z;
  Stateful : bool;
  Volumes : list (option VolumeMount.t);
  Cron : list (option CronSpec.t);
  StopGrace : option Duration.t;
  Command : string;
  PlacementConstraints : gmap string string;
  RateLimit : option RateLimit.t
}.
#[global] Instance eta : Settable t := λ r,
  mk (Replicas r) (Autoscale r) (Resources r) (Ports r) (Healthcheck r) (ScaleToZero r) (MaxConcurrency r) (Stateful r) (Volumes r) (Cron r) (StopGrace r) (Command r) (PlacementConstraints r) (RateLimit r).
End ServiceSpec.

Module Environment.
Record t := mk {
  Meta : option Meta.t;
  AppId : string;
  ProjectId : string;
  Name : string;
  Type_ : EnvironmentType;
  Service : option ServiceSpec.t;
  ActiveReleaseId : string;
  RouteGeneration : Z;
  PreviewPrNumber : Z;
  PreviewExpiresAt : option Timestamp.t;
  EffectiveReplicas : Z;
  IdleTimeout : option Duration.t
}.
#[global] Instance eta : Settable t := λ r,
  mk (Meta r) (AppId r) (ProjectId r) (Name r) (Type_ r) (Service r) (ActiveReleaseId r) (RouteGeneration r) (PreviewPrNumber r) (PreviewExpiresAt r) (EffectiveReplicas r) (IdleTimeout r).
End Environment.

Module PutEnvironment.
Record t := mk {
  Environment : option Environment.t
}.
#[global] Instance eta : Settable t := λ r,
  mk (Environment r).
End PutEnvironment.

Module EncryptedValue.
Record t := mk {
  Nonce : list Byte.byte;
  Ciphertext : list Byte.byte;
  KeyVersion : Z
}.
#[global] Instance eta : Settable t := λ r,
  mk (Nonce r) (Ciphertext r) (KeyVersion r).
End EncryptedValue.

Module SetEnvVars.
Record t := mk {
  EnvironmentId : string;
  Set_ : gmap string (option EncryptedValue.t);
  Unset : list string
}.
#[global] Instance eta : Settable t := λ r,
  mk (EnvironmentId r) (Set_ r) (Unset r).
End SetEnvVars.

Module ReleaseSource.
Record t := mk {
  GitSha : string;
  GitBranch : string;
  GitMessage : string;
  TarballDigest : string;
  BuildId : string
}.
#[global] Instance eta : Settable t := λ r,
  mk (GitSha r) (GitBranch r) (GitMessage r) (TarballDigest r) (BuildId r).
End ReleaseSource.

Module Release.
Record t := mk {
  Meta : option Meta.t;
  EnvironmentId : string;
  AppId : string;
  ProjectId : string;
  Version : Z;
  ImageRef : string;
  ConfigHash : string;
  Service : option ServiceSpec.t;
  Source : option ReleaseSource.t;
  CreatedByUserId : string;
  Platforms : list string
}.
#[global] Instance eta : Settable t := λ r,
  mk (Meta r) (EnvironmentId r) (AppId r) (ProjectId r) (Version r) (ImageRef r) (ConfigHash r) (Service r) (Source r) (CreatedByUserId r) (Platforms r).
End Release.

Module PutRelease.
Record t := mk {
  Release : option Release.t
}.
#[global] Instance eta : Settable t := λ r,
  mk (Release r).
End PutRelease.

Module Deployment.
Record t := mk {
  Meta : option Meta.t;
  EnvironmentId : string;
  AppId : string;
  ProjectId : string;
  ReleaseId : string;
  PreviousReleaseId : string;
  Phase : DeploymentPhase;
  Error : string;
  IsRollback : bool;
  BuildId : string;
  PromotedAt : option Timestamp.t;
  DrainDeadline : option Timestamp.t;
  CreatedByUserId : string
}.
#[global] Instance eta : Settable t := λ r,
  mk (Meta r) (EnvironmentId r) (AppId r) (ProjectId r) (ReleaseId r) (PreviousReleaseId r) (Phase r) (Error r) (IsRollback r) (BuildId r) (PromotedAt r) (DrainDeadline r) (CreatedByUserId r).
End Deployment.

Module PutDeployment.
Record t := mk {
  Deployment : option Deployment.t
}.
#[global] Instance eta : Settable t := λ r,
  mk (Deployment r).
End PutDeployment.

Module SetDeploymentPhase.
Record t := mk {
  DeploymentId : string;
  Phase : DeploymentPhase;
  Error : string;
  PromotedAt : option Timestamp.t;
  DrainDeadline : option Timestamp.t
}.
#[global] Instance eta : Settable t := λ r,
  mk (DeploymentId r) (Phase r) (Error r) (PromotedAt r) (DrainDeadline r).
End SetDeploymentPhase.

Module PromoteRelease.
Record t := mk {
  EnvironmentId : string;
  ReleaseId : string;
  DeploymentId : string
}.
#[global] Instance eta : Settable t := λ r,
  mk (EnvironmentId r) (ReleaseId r) (DeploymentId r).
End PromoteRelease.

Module Build.
Record t := mk {
  Meta : option Meta.t;
  AppId : string;
  ProjectId : string;
  EnvironmentId : string;
  Type_ : BuildType;
  Status : BuildStatus;
  NodeId : string;
  ImageRef : string;
  TarballDigest : string;
  GitSha : string;
  Error : string;
  StartedAt : option Timestamp.t;
  FinishedAt : option Timestamp.t;
  Platforms : list string
}.
#[global] Instance eta : Settable t := λ r,
  mk (Meta r) (AppId r) (ProjectId r) (EnvironmentId r) (Type_ r) (Status r) (NodeId r) (ImageRef r) (TarballDigest r) (GitSha r) (Error r) (StartedAt r) (FinishedAt r) (Platforms r).
End Build.

Module PutBuild.
Record t := mk {
  Build : option Build.t
}.
#[global] Instance eta : Settable t := λ r,
  mk (Build r).
End PutBuild.

Module Node.
Record t := mk {
  Meta : option Meta.t;
  Name : string;
  Roles : list NodeRole;
  Labels : gmap string string;
  MeshIp : string;
  WireguardPublicKey : string;
  PublicEndpoints : list string;
  Capacity : option ResourceLimits.t;
  CapacityDiskMb : Z;
  Status : NodeStatus;
  Schedulable : bool;
  Autoprovisioned : bool;
  BinaryVersion : string;
  LastHeartbeatAt : option Timestamp.t;
  OsArch : string
}.
#[global] Instance eta : Settable t := λ r,
  mk (Meta r) (Name r) (Roles r) (Labels r) (MeshIp r) (WireguardPublicKey r) (PublicEndpoints r) (Capacity r) (CapacityDiskMb r) (Status r) (Schedulable r) (Autoprovisioned r) (BinaryVersion r) (LastHeartbeatAt r) (OsArch r).
End Node.

Module PutNode.
Record t := mk {
  Node : option Node.t
}.
#[global] Instance eta : Settable t := λ r,
  mk (Node r).
End PutNode.

Module SetNodeStatus.
Record t := mk {
  NodeId : string;
  Status : NodeStatus;
  LastHeartbeatAt : option Timestamp.t;
  SchedulableSet : bool;
  Schedulable : bool
}.
#[global] Instance eta : Settable t := λ r,
  mk (NodeId r) (Status r) (LastHeartbeatAt r) (SchedulableSet r) (Schedulable r).
End SetNodeStatus.

Module JoinToken.
Record t := mk {
  Meta : option Meta.t;
  SecretHash : string;
  SingleUse : bool;
  Used : bool;
  ExpiresAt : option Timestamp.t;
  Roles : list NodeRole;
  CreatedByUserId : string
}.
#[global] Instance eta : Settable t := λ r,
  mk (Meta r) (SecretHash r) (SingleUse r) (Used r) (ExpiresAt r) (Roles r) (CreatedByUserId r).
End JoinToken.

Module PutJoinToken.
Record t := mk {
  Token : option JoinToken.t
}.
#[global] Instance eta : Settable t := λ r,
  mk (Token r).
End PutJoinToken.

Module ConsumeJoinToken.
Record t := mk {
  TokenId : string
}.
#[global] Instance eta : Settable t := λ r,
  mk (TokenId r).
End ConsumeJoinToken.

Module AssignmentObserved.
Record t := mk {
  State : InstanceState;
  ContainerId : string;
  Restarts : Z;
  ExitCode : Z;
  Message : string;
  UpdatedAt : option Timestamp.t;
  MeshPortBindings : gmap string Z
}.
#[global] Instance eta : Settable t := λ r,
  mk (State r) (ContainerId r) (Restarts r) (ExitCode r) (Message r) (UpdatedAt r) (MeshPortBindings r).
End AssignmentObserved.

Module Assignment.
Record t := mk {
  Meta : option Meta.t;
  NodeId : string;
  ProjectId : string;
  AppId : string;
  EnvironmentId : string;
  ReleaseId : string;
  DeploymentId : string;
  Desired : AssignmentDesired;
  ConfigHash : string;
  MeshPortBindings : gmap string Z;
  Observed : option AssignmentObserved.t;
  JobId : string
}.
#[global] Instance eta : Settable t := λ r,
  mk (Meta r) (NodeId r) (ProjectId r) (AppId r) (EnvironmentId r) (ReleaseId r) (DeploymentId r) (Desired r) (ConfigHash r) (MeshPortBindings r) (Observed r) (JobId r).
End Assignment.

Module PutAssignments.
Record t := mk {
  Assignments : list (option Assignment.t)
}.
#[global] Instance eta : Settable t := λ r,
  mk (Assignments r).
End PutAssignments.

Module DeleteAssignments.
Record t := mk {
  AssignmentIds : list string
}.
#[global] Instance eta : Settable t := λ r,
  mk (AssignmentIds r).
End DeleteAssignments.

Module SetAssignmentsObserved.
Record t := mk {
  NodeId : string;
  Observed : gmap string (option AssignmentObserved.t)
}.
#[global] Instance eta : Settable t := λ r,
  mk (NodeId r) (Observed r).
End SetAssignmentsObserved.

Module Token.
Record t := mk {
  Meta : option Meta.t;
  UserId : string;
  Name : string;
  SecretHash : string;
  Kind : TokenKind;
  ExpiresAt : option Timestamp.t;
  LastUsedAt : option Timestamp.t
}.
#[global] Instance eta : Settable t := λ r,
  mk (Meta r) (UserId r) (Name r) (SecretHash r) (Kind r) (ExpiresAt r) (LastUsedAt r).
End Token.

Module PutToken.
Record t := mk {
  Token : option Token.t
}.
#[global] Instance eta : Settable t := λ r,
  mk (Token r).
End PutToken.

Module TouchTokens.
Record t := mk {
  LastUsed : gmap string (option Timestamp.t)
}.
#[global] Instance eta : Settable t := λ r,
  mk (LastUsed r).
End TouchTokens.

Module ClusterKeyMaterial.
Record t := mk {
  SealedDataKey : list Byte.byte;
  Nonce : list Byte.byte;
  Argon2Salt : list Byte.byte;
  Argon2Time : Z;
  Argon2MemoryKib : Z;
  Argon2Threads : Z;
  KeyVersion : Z
}.
#[global] Instance eta : Settable t := λ r,
  mk (SealedDataKey r) (Nonce r) (Argon2Salt r) (Argon2Time r) (Argon2MemoryKib r) (Argon2Threads r) (KeyVersion r).
End ClusterKeyMaterial.

Module PutClusterKeyMaterial.
Record t := mk {
  Material : option ClusterKeyMaterial.t
}.
#[global] Instance eta : Settable t := λ r,
  mk (Material r).
End PutClusterKeyMaterial.

Module BasicAuth.
Record t := mk {
  Username : string;
  PasswordHash : string
}.
#[global] Instance eta : Settable t := λ r,
  mk (Username r) (PasswordHash r).
End BasicAuth.

Module Middleware.
Record t := mk {
  RedirectHttps : bool;
  Compress : bool;
  BasicAuth : option BasicAuth.t;
  IpAllowlist : list string;
  MaxBodyBytes : Z;
  StickySessions : bool
}.
#[global] Instance eta : Settable t := λ r,
  mk (RedirectHttps r) (Compress r) (BasicAuth r) (IpAllowlist r) (MaxBodyBytes r) (StickySessions r).
End Middleware.

Module Domain.
Record t := mk {
  Meta : option Meta.t;
  ProjectId : string;
  AppId : string;
  EnvironmentId : string;
  Hostname : string;
  PathPrefix : string;
  Middleware : option Middleware.t;
  CertStatus : CertStatus;
  ClusterSubdomain : bool;
  PortName : string
}.
#[global] Instance eta : Settable t := λ r,
  mk (Meta r) (ProjectId r) (AppId r) (EnvironmentId r) (Hostname r) (PathPrefix r) (Middleware r) (CertStatus r) (ClusterSubdomain r) (PortName r).
End Domain.

Module PutDomain.
Record t := mk {
  Domain : option Domain.t
}.
#[global] Instance eta : Settable t := λ r,
  mk (Domain r).
End PutDomain.

Module PutKV.
Record t := mk {
  Key : string;
  Value : list Byte.byte;
  ExpectedVersion : Z;
  ExpiresAt : option Timestamp.t
}.
#[global] Instance eta : Settable t := λ r,
  mk (Key r) (Value r) (ExpectedVersion r) (ExpiresAt r).
End PutKV.

Module DeleteKV.
Record t := mk {
  Key : string;
  ExpectedVersion : Z
}.
#[global] Instance eta : Settable t := λ r,
  mk (Key r) (ExpectedVersion r).
End DeleteKV.

Module DNSProviderConfig.
Record t := mk {
  Meta : option Meta.t;
  Type_ : string;
  Name : string;
  Credentials : gmap string (option EncryptedValue.t);
  Zones : list string
}.
#[global] Instance eta : Settable t := λ r,
  mk (Meta r) (Type_ r) (Name r) (Credentials r) (Zones r).
End DNSProviderConfig.

Module PutDNSProvider.
Record t := mk {
  Provider : option DNSProviderConfig.t
}.
#[global] Instance eta : Settable t := λ r,
  mk (Provider r).
End PutDNSProvider.

Module VolumeLease.
Record t := mk {
  NodeId : string;
  AssignmentId : string;
  ExpiresAt : option Timestamp.t
}.
#[global] Instance eta : Settable t := λ r,
  mk (NodeId r) (AssignmentId r) (ExpiresAt r).
End VolumeLease.

Module SnapshotPolicy.
Record t := mk {
  Schedule : string;
  PreHook : string;
  KeepLast : Z
}.
#[global] Instance eta : Settable t := λ r,
  mk (Schedule r) (PreHook r) (KeepLast r).
End SnapshotPolicy.

Module Volume.
Record t := mk {
  Meta : option Meta.t;
  ProjectId : string;
  EnvironmentId : string;
  Name : string;
  NodeId : string;
  Status : VolumeStatus;
  Lease : option VolumeLease.t;
  SnapshotPolicy : option SnapshotPolicy.t;
  SizeBytesObserved : Z
}.
#[global] Instance eta : Settable t := λ r,
  mk (Meta r) (ProjectId r) (EnvironmentId r) (Name r) (NodeId r) (Status r) (Lease r) (SnapshotPolicy r) (SizeBytesObserved r).
End Volume.

Module PutVolume.
Record t := mk {
  Volume : option Volume.t
}.
#[global] Instance eta : Settable t := λ r,
  mk (Volume r).
End PutVolume.

Module PutVolumeLease.
Record t := mk {
  VolumeId : string;
  Lease : option VolumeLease.t
}.
#[global] Instance eta : Settable t := λ r,
  mk (VolumeId r) (Lease r).
End PutVolumeLease.

Module VolumeSnapshot.
Record t := mk {
  Meta : option Meta.t;
  VolumeId : string;
  ManifestKey : string;
  LogicalSizeBytes : Z;
  UploadedBytes : Z;
  Status : SnapshotStatus;
  Error : string
}.
#[global] Instance eta : Settable t := λ r,
  mk (Meta r) (VolumeId r) (ManifestKey r) (LogicalSizeBytes r) (UploadedBytes r) (Status r) (Error r).
End VolumeSnapshot.

Module PutVolumeSnapshot.
Record t := mk {
  Snapshot : option VolumeSnapshot.t
}.
#[global] Instance eta : Settable t := λ r,
  mk (Snapshot r).
End PutVolumeSnapshot.

Module BackupConfig.
Record t := mk {
  S3Endpoint : string;
  S3Bucket : string;
  S3Prefix : string;
  S3Region : string;
  S3AccessKey : option EncryptedValue.t;
  S3SecretKey : option EncryptedValue.t;
  Schedule : string;
  Verify : bool;
  Archive : bool
}.
#[global] Instance eta : Settable t := λ r,
  mk (S3Endpoint r) (S3Bucket r) (S3Prefix r) (S3Region r) (S3AccessKey r) (S3SecretKey r) (Schedule r) (Verify r) (Archive r).
End BackupConfig.

Module PutBackupConfig.
Record t := mk {
  Config : option BackupConfig.t
}.
#[global] Instance eta : Settable t := λ r,
  mk (Config r).
End PutBackupConfig.

Module BackupRecord.
Record t := mk {
  Meta : option Meta.t;
  Kind : string;
  ManifestKey : string;
  Bytes : Z;
  Status : string;
  Error : string
}.
#[global] Instance eta : Settable t := λ r,
  mk (Meta r) (Kind r) (ManifestKey r) (Bytes r) (Status r) (Error r).
End BackupRecord.

Module PutBackupRecord.
Record t := mk {
  Record_ : option BackupRecord.t
}.
#[global] Instance eta : Settable t := λ r,
  mk (Record_ r).
End PutBackupRecord.

Module PutNetworkAllocation.
Record t := mk {
  ProjectId : string;
  EnvironmentId : string;
  NodeId : string;
  SubnetCidr : string
}.
#[global] Instance eta : Settable t := λ r,
  mk (ProjectId r) (EnvironmentId r) (NodeId r) (SubnetCidr r).
End PutNetworkAllocation.

Module PutServiceVIP.
Record t := mk {
  EnvironmentId : string;
  Vip : string
}.
#[global] Instance eta : Settable t := λ r,
  mk (EnvironmentId r) (Vip r).
End PutServiceVIP.

Module Job.
Record t := mk {
  Meta : option Meta.t;
  ProjectId : string;
  AppId : string;
  EnvironmentId : string;
  ReleaseId : string;
  Command : string;
  CronName : string;
  Status : JobStatus;
  NodeId : string;
  ExitCode : Z;
  Attempt : Z;
  MaxRetries : Z;
  Error : string;
  StartedAt : option Timestamp.t;
  FinishedAt : option Timestamp.t;
  CreatedByUserId : string
}.
#[global] Instance eta : Settable t := λ r,
  mk (Meta r) (ProjectId r) (AppId r) (EnvironmentId r) (ReleaseId r) (Command r) (CronName r) (Status r) (NodeId r) (ExitCode r) (Attempt r) (MaxRetries r) (Error r) (StartedAt r) (FinishedAt r) (CreatedByUserId r).
End Job.

Module PutJob.
Record t := mk {
  Job : option Job.t
}.
#[global] Instance eta : Settable t := λ r,
  mk (Job r).
End PutJob.

Module MetricCondition.
Record t := mk {
  Metric : string;
  Scope : string;
  Op : string;
  Threshold : Z;
  Sustained : option Duration.t
}.
#[global] Instance eta : Settable t := λ r,
  mk (Metric r) (Scope r) (Op r) (Threshold r) (Sustained r).
End MetricCondition.

Module AlertRule.
Record t := mk {
  Meta : option Meta.t;
  Name : string;
  ProjectId : string;
  Metric : option MetricCondition.t;
  EventKind : string;
  ChannelIds : list string;
  Disabled : bool
}.
#[global] Instance eta : Settable t := λ r,
  mk (Meta r) (Name r) (ProjectId r) (Metric r) (EventKind r) (ChannelIds r) (Disabled r).
End AlertRule.

Module PutAlertRule.
Record t := mk {
  Rule : option AlertRule.t
}.
#[global] Instance eta : Settable t := λ r,
  mk (Rule r).
End PutAlertRule.

Module SMTPConfig.
Record t := mk {
  Host : string;
  Port : Z;
  Username : string;
  Password : option EncryptedValue.t;
  From : string;
  Starttls : bool
}.
#[global] Instance eta : Settable t := λ r,
  mk (Host r) (Port r) (Username r) (Password r) (From r) (Starttls r).
End SMTPConfig.

Module NotificationChannel.
Record t := mk {
  Meta : option Meta.t;
  Name : string;
  Type_ : string;
  WebhookUrlPlain : string;
  WebhookSecret : option EncryptedValue.t;
  SlackWebhookUrl : option EncryptedValue.t;
  EmailTo : string;
  Smtp : option SMTPConfig.t;
  TelegramBotToken : option EncryptedValue.t;
  TelegramChatId : string
}.
#[global] Instance eta : Settable t := λ r,
  mk (Meta r) (Name r) (Type_ r) (WebhookUrlPlain r) (WebhookSecret r) (SlackWebhookUrl r) (EmailTo r) (Smtp r) (TelegramBotToken r) (TelegramChatId r).
End NotificationChannel.

Module PutNotificationChannel.
Record t := mk {
  Channel : option NotificationChannel.t
}.
#[global] Instance eta : Settable t := λ r,
  mk (Channel r).
End PutNotificationChannel.

Module Event.
Record t := mk {
  Meta : option Meta.t;
  Kind : string;
  Severity : string;
  ProjectId : string;
  AppId : string;
  EnvironmentId : string;
  NodeId : string;
  Message : string;
  Fields : gmap string string
}.
#[global] Instance eta : Settable t := λ r,
  mk (Meta r) (Kind r) (Severity r) (ProjectId r) (AppId r) (EnvironmentId r) (NodeId r) (Message r) (Fields r).
End Event.

Module AppendEvents.
Record t := mk {
  Events : list (option Event.t)
}.
#[global] Instance eta : Settable t := λ r,
  mk (Events r).
End AppendEvents.

Module AuditEntry.
Record t := mk {
  Meta : option Meta.t;
  ActorUserId : string;
  ActorTokenId : string;
  Method : string;
  ProjectId : string;
  ResourceId : string;
  Outcome : string;
  RequestSummary : string;
  RemoteAddr : string
}.
#[global] Instance eta : Settable t := λ r,
  mk (Meta r) (ActorUserId r) (ActorTokenId r) (Method r) (ProjectId r) (ResourceId r) (Outcome r) (RequestSummary r) (RemoteAddr r).
End AuditEntry.

Module AppendAudit.
Record t := mk {
  Entries : list (option AuditEntry.t)
}.
#[global] Instance eta : Settable t := λ r,
  mk (Entries r).
End AppendAudit.

Module EnvVarEntry.
Record t := mk {
  EnvironmentId : string;
  Key : string;
  Value : option EncryptedValue.t
}.
#[global] Instance eta : Settable t := λ r,
  mk (EnvironmentId r) (Key r) (Value r).
End EnvVarEntry.

Module KVEntry.
Record t := mk {
  Key : string;
  Value : list Byte.byte;
  Version : Z;
  ExpiresAt : option Timestamp.t
}.
#[global] Instance eta : Settable t := λ r,
  mk (Key r) (Value r) (Version r) (ExpiresAt r).
End KVEntry.

Module NetworkAllocation.
Record t := mk {
  ProjectId : string;
  EnvironmentId : string;
  NodeId : string;
  SubnetCidr : string
}.
#[global] Instance eta : Settable t := λ r,
  mk (ProjectId r) (EnvironmentId r) (NodeId r) (SubnetCidr r).
End NetworkAllocation.

Module ServiceVIP.
Record t := mk {
  EnvironmentId : string;
  Vip : string
}.
#[global] Instance eta : Settable t := λ r,
  mk (EnvironmentId r) (Vip r).
End ServiceVIP.

Module AppliedRequest.
Record t := mk {
  RequestId : string;
  RaftIndex : Z
}.
#[global] Instance eta : Settable t := λ r,
  mk (RequestId r) (RaftIndex r).
End AppliedRequest.

Module Snapshot.
Record t := mk {
  FsmIndex : Z;
  Org : option Org.t;
  Users : list (option User.t);
  Projects : list (option Project.t);
  ProjectMembers : list (option ProjectMember.t);
  Apps : list (option App.t);
  Environments : list (option Environment.t);
  EnvVars : list (option EnvVarEntry.t);
  Releases : list (option Release.t);
  Deployments : list (option Deployment.t);
  Builds : list (option Build.t);
  Nodes : list (option Node.t);
  JoinTokens : list (option JoinToken.t);
  Assignments : list (option Assignment.t);
  Tokens : list (option Token.t);
  ClusterKeyMaterial : option ClusterKeyMaterial.t;
  Domains : list (option Domain.t);
  Kv : list (option KVEntry.t);
  DnsProviders : list (option DNSProviderConfig.t);
  Volumes : list (option Volume.t);
  VolumeSnapshots : list (option VolumeSnapshot.t);
  BackupConfig : option BackupConfig.t;
  BackupRecords : list (option BackupRecord.t);
  NetworkAllocations : list (option NetworkAllocation.t);
  ServiceVips : list (option ServiceVIP.t);
  Jobs : list (option Job.t);
  AlertRules : list (option AlertRule.t);
  NotificationChannels : list (option NotificationChannel.t);
  Events : list (option Event.t);
  Audit : list (option AuditEntry.t);
  AppliedRequests : list (option AppliedRequest.t)
}.
#[global] Instance eta : Settable t := λ r,
  mk (FsmIndex r) (Org r) (Users r) (Projects r) (ProjectMembers r) (Apps r) (Environments r) (EnvVars r) (Releases r) (Deployments r) (Builds r) (Nodes r) (JoinTokens r) (Assignments r) (Tokens r) (ClusterKeyMaterial r) (Domains r) (Kv r) (DnsProviders r) (Volumes r) (VolumeSnapshots r) (BackupConfig r) (BackupRecords r) (NetworkAllocations r) (ServiceVips r) (Jobs r) (AlertRules r) (NotificationChannels r) (Events r) (Audit r) (AppliedRequests r).
End Snapshot.

(** The oneof of a command; the generated wrapper type of case [x] is [Command_X]. *)
Inductive Mutation :=
| Command_PutOrg (m : option PutOrg.t)
| Command_PutUser (m : option PutUser.t)
| Command_DeleteUser (m : option DeleteByID.t)
| Command_PutProject (m : option PutProject.t)
| Command_DeleteProject (m : option DeleteByID.t)
| Command_PutProjectMember (m : option PutProjectMember.t)
| Command_DeleteProjectMember (m : option DeleteProjectMember.t)
| Command_PutApp (m : option PutApp.t)
| Command_DeleteApp (m : option DeleteByID.t)
| Command_PutEnvironment (m : option PutEnvironment.t)
| Command_DeleteEnvironment (m : option DeleteByID.t)
| Command_SetEnvVars (m : option SetEnvVars.t)
| Command_PutRelease (m : option PutRelease.t)
| Command_PutDeployment (m : option PutDeployment.t)
| Command_SetDeploymentPhase (m : option SetDeploymentPhase.t)
| Command_PromoteRelease (m : option PromoteRelease.t)
| Command_PutBuild (m : option PutBuild.t)
| Command_DeleteRelease (m : option DeleteByID.t)
| Command_PutNode (m : option PutNode.t)
| Command_DeleteNode (m : option DeleteByID.t)
| Command_SetNodeStatus (m : option SetNodeStatus.t)
| Command_PutJoinToken (m : option PutJoinToken.t)
| Command_ConsumeJoinToken (m : option ConsumeJoinToken.t)
| Command_PutAssignments (m : option PutAssignments.t)
| Command_DeleteAssignments (m : option DeleteAssignments.t)
| Command_SetAssignmentsObserved (m : option SetAssignmentsObserved.t)
| Command_PutToken (m : option PutToken.t)
| Command_DeleteToken (m : option DeleteByID.t)
| Command_TouchTokens (m : option TouchTokens.t)
| Command_PutClusterKeyMaterial (m : option PutClusterKeyMaterial.t)
| Command_PutDomain (m : option PutDomain.t)
| Command_DeleteDomain (m : option DeleteByID.t)
| Command_PutKv (m : option PutKV.t)
| Command_DeleteKv (m : option DeleteKV.t)
| Command_PutDnsProvider (m : option PutDNSProvider.t)
| Command_DeleteDnsProvider (m : option DeleteByID.t)
| Command_PutVolume (m : option PutVolume.t)
| Command_DeleteVolume (m : option DeleteByID.t)
| Command_PutVolumeLease (m : option PutVolumeLease.t)
| Command_PutVolumeSnapshot (m : option PutVolumeSnapshot.t)
| Command_DeleteVolumeSnapshot (m : option DeleteByID.t)
| Command_PutBackupConfig (m : option PutBackupConfig.t)
| Command_PutBackupRecord (m : option PutBackupRecord.t)
| Command_PutNetworkAllocation (m : option PutNetworkAllocation.t)
| Command_PutServiceVip (m : option PutServiceVIP.t)
| Command_PutJob (m : option PutJob.t)
| Command_PutAlertRule (m : option PutAlertRule.t)
| Command_DeleteAlertRule (m : option DeleteByID.t)
| Command_PutNotificationChannel (m : option PutNotificationChannel.t)
| Command_DeleteNotificationChannel (m : option DeleteByID.t)
| Command_AppendEvents (m : option AppendEvents.t)
| Command_AppendAudit (m : option AppendAudit.t)
(** A mutation this binary's schema does not know. *)
| Command_Unknown.

Module Command.
Record t := mk {
  RequestId : string;
  Actor : string;
  Time : option Timestamp.t;
  Mut : option Mutation
}.
#[global] Instance eta : Settable t := λ r,
  mk (RequestId r) (Actor r) (Time r) (Mut r).
End Command.

(** Messages with a Meta (the interface withMeta of internal/state). *)
Class withMeta (A : Type) := GetMeta : A → option Meta.t.

#[export] Instance Org_withMeta : withMeta Org.t := Org.Meta.
#[export] Instance User_withMeta : withMeta User.t := User.Meta.
#[export] Instance Project_withMeta : withMeta Project.t := Project.Meta.
#[export] Instance App_withMeta : withMeta App.t := App.Meta.
#[export] Instance Environment_withMeta : withMeta Environment.t := Environment.Meta.
#[export] Instance Release_withMeta : withMeta Release.t := Release.Meta.
#[export] Instance Deployment_withMeta : withMeta Deployment.t := Deployment.Meta.
#[export] Instance Build_withMeta : withMeta Build.t := Build.Meta.
#[export] Instance Node_withMeta : withMeta Node.t := Node.Meta.
#[export] Instance JoinToken_withMeta : withMeta JoinToken.t := JoinToken.Meta.
#[export] Instance Assignment_withMeta : withMeta Assignment.t := Assignment.Meta.
#[export] Instance Token_withMeta : withMeta Token.t := Token.Meta.
#[export] Instance Domain_withMeta : withMeta Domain.t := Domain.Meta.
#[export] Instance DNSProviderConfig_withMeta : withMeta DNSProviderConfig.t := DNSProviderConfig.Meta.
#[export] Instance Volume_withMeta : withMeta Volume.t := Volume.Meta.
#[export] Instance VolumeSnapshot_withMeta : withMeta VolumeSnapshot.t := VolumeSnapshot.Meta.
#[export] Instance BackupRecord_withMeta : withMeta BackupRecord.t := BackupRecord.Meta.
#[export] Instance Job_withMeta : withMeta Job.t := Job.Meta.
#[export] Instance AlertRule_withMeta : withMeta AlertRule.t := AlertRule.Meta.
#[export] Instance NotificationChannel_withMeta : withMeta NotificationChannel.t := NotificationChannel.Meta.
#[export] Instance Event_withMeta : withMeta Event.t := Event.Meta.
#[export] Instance AuditEntry_withMeta : withMeta AuditEntry.t := AuditEntry.Meta.

(** [m.GetMeta().GetId()] of a possibly nil message. *)
Definition GetId {A} `{withMeta A} (p : option A) : string := p ⇝ GetMeta ⇝ Meta.Id.
