(* ===== verification/Watch.v ===== *)
(** The watch hub of internal/state/watch.go: coalescing, level-triggered change
    notifications.  [Hub] and [Subscription] are the data and operations;
    [WatchLoop] is the interleaving of one subscriber with the apply path, with
    the proof that no change is ever lost. *)
From S2P Require Import Prelude.

(** type Kind string *)
Abbreviation Kind := string.

Definition KindOrg : Kind := "org".
Definition KindUser : Kind := "user".
Definition KindProject : Kind := "project".
Definition KindProjectMember : Kind := "project_member".
Definition KindApp : Kind := "app".
Definition KindEnvironment : Kind := "environment".
Definition KindEnvVar : Kind := "env_var".
Definition KindRelease : Kind := "release".
Definition KindDeployment : Kind := "deployment".
Definition KindBuild : Kind := "build".
Definition KindNode : Kind := "node".
Definition KindJoinToken : Kind := "join_token".
Definition KindAssignment : Kind := "assignment".
Definition KindToken : Kind := "token".
Definition KindDomain : Kind := "domain".
Definition KindKV : Kind := "kv".
Definition KindDNSProvider : Kind := "dns_provider".
Definition KindVolume : Kind := "volume".
Definition KindVolumeSnapshot : Kind := "volume_snapshot".
Definition KindBackup : Kind := "backup".
Definition KindNetworkAlloc : Kind := "network_alloc".
Definition KindServiceVIP : Kind := "service_vip".
Definition KindJob : Kind := "job".
Definition KindAlertRule : Kind := "alert_rule".
Definition KindNotifyChannel : Kind := "notify_channel".
Definition KindEvent : Kind := "event".
Definition KindClusterKey : Kind := "cluster_key".

(** * Changes and subscriptions *)

Module Change.
Record t := mk { kind : Kind; id : string }.

#[global] Instance eq_dec : EqDecision t.
Proof. solve_decision. Defined.

#[global] Program Instance countable : Countable t :=
  inj_countable' (λ c, (kind c, id c)) (λ p, mk p.1 p.2) _.
Next Obligation. by intros []. Qed.
End Change.

Module Subscription.
Record t := mk {
  kinds : option (gset Kind);   (* nil = all kinds *)
  pending : gset Change.t;
  signal : bool;                (* the channel of capacity 1 holds a value *)
  closed : bool
}.
#[global] Instance eta : Settable t := λ r,
  mk (kinds r) (pending r) (signal r) (closed r).

Definition wants (c : Change.t) (s : t) : bool :=
  match kinds s with
  | None => true
  | Some ks => bool_decide (Change.kind c ∈ ks)
  end.

(** offer: [offer_pending] is the part under the subscription's mutex, and tells
    whether the send is attempted; [offer_signal] is the non-blocking send. *)
Definition offer_pending (c : Change.t) (s : t) : t * bool :=
  if negb (wants c s) then (s, false)
  else if closed s then (s, false)
  else (s <| pending ::= union {[c]} |>, true).

Definition offer_signal (s : t) : t := s <| signal := true |>.

Definition offer (c : Change.t) (s : t) : t :=
  let '(s, send) := offer_pending c s in
  if send then offer_signal s else s.

(** A receive on Notify(): empties the channel, or would block ([None]). *)
Definition Notify (s : t) : option t :=
  if signal s then Some (s <| signal := false |>) else None.

(** Drain returns and clears the pending set (in an unspecified order). *)
Definition Drain (s : t) : list Change.t * t :=
  (elements (pending s), s <| pending := ∅ |>).
End Subscription.

(** The hub: the registered subscriptions, by address.  A closed subscription
    leaves [subs] but its object stays reachable from its owner, in [objects]. *)
Module Hub.
Record t := mk {
  subs : gset positive;
  objects : gmap positive Subscription.t
}.
#[global] Instance eta : Settable t := λ r, mk (subs r) (objects r).

Definition newHub : t := mk ∅ ∅.

(** subscribe: no kind at all subscribes to every kind. *)
Definition subscribe (ks : list Kind) (h : t) : positive * t :=
  let sub := Subscription.mk
    (match ks with [] => None | _ => Some (list_to_set ks) end) ∅ false false in
  let addr := fresh (dom (objects h)) in
  (addr, h <| objects ::= <[addr := sub]> |> <| subs ::= union {[addr]} |>).

(** publish: offers to every registered subscription, each independently. *)
Definition publish (c : Change.t) (h : t) : t :=
  h <| objects ::= map_imap (λ addr sub,
         Some (if bool_decide (addr ∈ subs h) then Subscription.offer c sub else sub)) |>.

Definition Close (addr : positive) (h : t) : t :=
  h <| subs ::= λ ss, ss ∖ {[addr]} |>
    <| objects ::= alter (λ s, s <| Subscription.closed := true |>
                                 <| Subscription.pending := ∅ |>) addr |>.

Lemma lookup_publish c h addr :
  objects (publish c h) !! addr =
    (λ sub, if bool_decide (addr ∈ subs h) then Subscription.offer c sub else sub)
      <$> objects h !! addr.
Proof. cbn. rewrite map_lookup_imap. by destruct (objects h !! addr). Qed.

Lemma subs_publish c h : subs (publish c h) = subs h.
Proof. reflexivity. Qed.
End Hub.

Lemma offer_comm c d s :
  Subscription.offer c (Subscription.offer d s) = Subscription.offer d (Subscription.offer c s).
Proof.
  destruct s as [ks p sg cl].
  unfold Subscription.offer, Subscription.offer_pending, Subscription.wants.
  destruct ks as [ks|], cl; cbn; try done.
  1, 2: destruct (bool_decide (Change.kind c ∈ ks)) eqn:Hc, (bool_decide (Change.kind d ∈ ks)) eqn:Hd;
    cbn; rewrite ?Hc, ?Hd; cbn; try done.
  all: unfold Subscription.offer_signal, set; cbn; f_equal; set_solver.
Qed.

(** Publications commute, so their order within one apply is unobservable. *)
Lemma publish_comm c d h : Hub.publish c (Hub.publish d h) = Hub.publish d (Hub.publish c h).
Proof.
  destruct h as [ss obs]. unfold Hub.publish, set; cbn. apply (f_equal (Hub.mk ss)). apply map_eq. intros addr.
  rewrite !map_lookup_imap. destruct (obs !! addr); cbn; [|done].
  case_bool_decide; [by rewrite offer_comm|done].
Qed.

(** * One subscriber against the apply path

    The apply path publishes one change at a time (the hub mutex), in the two
    atomic parts of offer.  The subscriber waits on Notify, then drains.  [sent]
    are the changes published so far that the subscription wants, [seen] those a
    Drain has returned. *)
Module WatchLoop.
Record t := mk {
  sub : Subscription.t;
  sending : bool;                (* between offer_pending and offer_signal *)
  woken : bool;                  (* the subscriber received and has not drained *)
  sent : gset Change.t;
  seen : gset Change.t
}.
#[global] Instance eta : Settable t := λ r,
  mk (sub r) (sending r) (woken r) (sent r) (seen r).

Inductive step : t → t → Prop :=
| step_offer_pending c w sub' b :
    sending w = false →
    Subscription.offer_pending c (sub w) = (sub', b) →
    step w (w <| sub := sub' |> <| sending := b |>
              <| sent ::= λ S, if Subscription.wants c (sub w) then {[c]} ∪ S else S |>)
| step_offer_signal w :
    sending w = true →
    step w (w <| sub ::= Subscription.offer_signal |> <| sending := false |>)
| step_notify w sub' :
    woken w = false →
    Subscription.Notify (sub w) = Some sub' →
    step w (w <| sub := sub' |> <| woken := true |>)
| step_drain w out sub' :
    woken w = true →
    Subscription.Drain (sub w) = (out, sub') →
    step w (w <| sub := sub' |> <| woken := false |> <| seen ::= union (list_to_set out) |>).

Definition init (ks : option (gset Kind)) : t :=
  mk (Subscription.mk ks ∅ false false) false false ∅ ∅.

(** While the subscription is open: what was sent is delivered or pending, and a
    pending change always has a wake-up on its way. *)
Record inv (w : t) : Prop := {
  inv_open : Subscription.closed (sub w) = false;
  inv_delivery : sent w = seen w ∪ Subscription.pending (sub w);
  inv_wakeup : Subscription.pending (sub w) ≠ ∅ →
    Subscription.signal (sub w) = true ∨ sending w = true ∨ woken w = true
}.

Lemma inv_init ks : inv (init ks).
Proof. split; cbn; [done|set_solver|done]. Qed.

Lemma inv_step w w' : inv w → step w w' → inv w'.
Proof.
  intros [Hopen Hdel Hwake] Hstep.
  destruct Hstep as [c w sub' b Hs Ho|w Hs|w sub' Hw Hn|w out sub' Hw Hd].
  - unfold Subscription.offer_pending in Ho.
    destruct (Subscription.wants c (sub w)) eqn:Hc; cbn in Ho.
    + rewrite Hopen in Ho. injection Ho as <- <-.
      split; cbn; rewrite ?Hc; [done| |by auto].
      rewrite Hdel. set_solver.
    + injection Ho as <- <-. split; cbn; rewrite ?Hc; [done|done|].
      intros Hp. destruct (Hwake Hp) as [?|[?|?]]; [by auto|congruence|by auto].
  - split; cbn; [done|done|by auto].
  - unfold Subscription.Notify in Hn. destruct (Subscription.signal (sub w)); [|done].
    injection Hn as <-. split; cbn; [done|done|by auto].
  - unfold Subscription.Drain in Hd. injection Hd as <- <-.
    split; cbn; [done| |done].
    rewrite list_to_set_elements_L, Hdel. set_solver.
Qed.
End WatchLoop.

(** C39: under every interleaving of the apply path with a subscriber, a change
    the subscription wants is returned by a Drain or still pending, and when one
    is pending the subscriber has a wake-up: the signal is set, about to be set,
    or already received.  "Slow subscribers lose granularity, never correctness." *)
Theorem watch_never_loses_a_change (ks : option (gset Kind)) (w : WatchLoop.t) :
  rtc WatchLoop.step (WatchLoop.init ks) w →
  WatchLoop.sent w = WatchLoop.seen w ∪ Subscription.pending (WatchLoop.sub w)
  ∧ (Subscription.pending (WatchLoop.sub w) ≠ ∅ →
     Subscription.signal (WatchLoop.sub w) = true
     ∨ WatchLoop.sending w = true ∨ WatchLoop.woken w = true).
Proof.
  intros Hr. enough (WatchLoop.inv w) as [_ H1 H2] by done.
  refine (rtc_ind_r WatchLoop.inv _ (WatchLoop.inv_init ks) _ _ Hr).
  intros x y _ Hxy Hx. by eapply WatchLoop.inv_step.
Qed.

(** One change, between the insertion and the send. *)
Definition mid_send : WatchLoop.t :=
  WatchLoop.mk (Subscription.mk None {[Change.mk KindNode "n1"]} false false) true false
    {[Change.mk KindNode "n1"]} ∅.

Lemma mid_send_reachable : rtc WatchLoop.step (WatchLoop.init None) mid_send.
Proof.
  apply rtc_once. exact (WatchLoop.step_offer_pending (Change.mk KindNode "n1") (WatchLoop.init None)
    (Subscription.mk None {[Change.mk KindNode "n1"]} false false) true eq_refl eq_refl).
Qed.

Lemma watch_never_loses_a_change_witness :
  rtc WatchLoop.step (WatchLoop.init None) mid_send
  ∧ (Subscription.signal (WatchLoop.sub mid_send) = true
     ∨ WatchLoop.sending mid_send = true ∨ WatchLoop.woken mid_send = true).
Proof.
  split; [exact mid_send_reachable|].
  apply (proj2 (watch_never_loses_a_change None mid_send mid_send_reachable)). intros H. vm_compute in H. discriminate H.
Defined.
