(* ===== verification/State.v ===== *)
(** The replicated cluster state of internal/state: the Store with its secondary
    indexes, and every method of accessors.go and accessors_infra.go.

    A mutating method is a function from stores to stores.  Messages are values:
    the Go code clones every message that enters or leaves the store, so no
    caller holds a pointer into it, and an in-place assignment to a stored object
    is an insert of the updated one.  A stored pointer may be nil (a command whose
    message is absent); the methods that would dereference it return [Panic].
    Locks are not modelled: each method is one atomic step, as the mutex makes it. *)
From S2P Require Import Prelude Api Watch.

Notation "s +:+ t" := (String.append s t) (at level 60, right associativity) : go_scope.

Module kvEntry.
Record t := mk { value : list Byte.byte; version : Z; expiresAt : Z (* unix ms, 0 = none *) }.
End kvEntry.

Definition auditRingCap : Z := 50000.
Definition eventRingCap : Z := 10000.
Definition appliedRingCap : Z := 8192.

Module Store.
Record t := mk {
  version : Z;
  org : option Org.t;
  clusterKey : option ClusterKeyMaterial.t;
  users : gmap string (option User.t);
  usersByEmail : gmap string string;
  projects : gmap string (option Project.t);
  projectMembers : gmap string (gmap string (option ProjectMember.t));
  apps : gmap string (option App.t);
  environments : gmap string (option Environment.t);
  envVars : gmap string (gmap string (option EncryptedValue.t));
  releases : gmap string (option Release.t);
  deployments : gmap string (option Deployment.t);
  builds : gmap string (option Build.t);
  nodes : gmap string (option Node.t);
  joinTokens : gmap string (option JoinToken.t);
  assignments : gmap string (option Assignment.t);
  assignmentsByNode : gmap string (gset string);
  tokens : gmap string (option Token.t);
  tokensByHash : gmap string string;
  domains : gmap string (option Domain.t);
  domainsByHostname : gmap string (gset string);
  kv : gmap string kvEntry.t;
  dnsProviders : gmap string (option DNSProviderConfig.t);
  volumes : gmap string (option Volume.t);
  volumeSnapshots : gmap string (option VolumeSnapshot.t);
  backupConfig : option BackupConfig.t;
  backupRecords : gmap string (option BackupRecord.t);
  networkAllocs : gmap string (option NetworkAllocation.t);
  serviceVIPs : gmap string string;
  jobs : gmap string (option Job.t);
  alertRules : gmap string (option AlertRule.t);
  notifyChannels : gmap string (option NotificationChannel.t);
  events : list (option Event.t);
  audit : list (option AuditEntry.t);
  appliedRequests : list (option AppliedRequest.t);
  appliedSet : gset string;
  hub : Hub.t
}.
#[global] Instance eta : Settable t := λ r,
  mk (version r) (org r) (clusterKey r) (users r) (usersByEmail r) (projects r)
    (projectMembers r) (apps r) (environments r) (envVars r) (releases r) (deployments r)
    (builds r) (nodes r) (joinTokens r) (assignments r) (assignmentsByNode r) (tokens r)
    (tokensByHash r) (domains r) (domainsByHostname r) (kv r) (dnsProviders r) (volumes r)
    (volumeSnapshots r) (backupConfig r) (backupRecords r) (networkAllocs r) (serviceVIPs r)
    (jobs r) (alertRules r) (notifyChannels r) (events r) (audit r) (appliedRequests r)
    (appliedSet r) (hub r).

Definition New : t :=
  mk 0 None None ∅ ∅ ∅ ∅ ∅ ∅ ∅ ∅ ∅ ∅ ∅ ∅ ∅ ∅ ∅ ∅ ∅ ∅ ∅ ∅ ∅ ∅ None ∅ ∅ ∅ ∅ ∅ ∅ [] [] [] ∅ Hub.newHub.

Definition Version (s : t) : Z := version s.

Definition Watch (kinds : list Kind) (s : t) : positive * t :=
  let '(addr, h) := Hub.subscribe kinds (hub s) in (addr, s <| hub := h |>).

Definition touch (kind : Kind) (id : string) (s : t) : t :=
  s <| version ::= λ v, u64 (v + 1) |>
    <| hub ::= Hub.publish (Change.mk kind id) |>.

Definition timestampFromUnixMs `{TimestampLib} (ms : Z) : Timestamp.t :=
  timestamppb_New (time_UnixMilli ms).

Definition sortByID {A} `{withMeta A} (l : list (option A)) : list (option A) :=
  sort_slice (key_less GetId) l.

Section operations.
Context {RO : RangeOrder} {TL : TimestampLib}.


(** ** Org and cluster key *)

Definition SetOrg (o : option Org.t) (s : t) : t :=
  let s := s <| org := o |> in
  touch KindOrg (GetId o) s.

Definition Org (s : t) : option Org.t := org s.

Definition SetClusterKeyMaterial (m : option ClusterKeyMaterial.t) (s : t) : t :=
  let s := s <| clusterKey := m |> in
  touch KindClusterKey "" s.

Definition GetClusterKeyMaterial (s : t) : option ClusterKeyMaterial.t := clusterKey s.

(** ** Users *)

Definition PutUser (u : option User.t) (s : t) : t :=
  let id := GetId u in
  let s := match users s !! id with
    | Some prev => s <| usersByEmail ::= delete (prev ⇝ User.Email) |>
    | None => s
    end in
  let s := s <| users ::= <[id := u]> |> in
  let s := s <| usersByEmail ::= <[u ⇝ User.Email := id]> |> in
  touch KindUser id s.

Definition DeleteUser (id : string) (s : t) : t :=
  match users s !! id with
  | Some prev =>
    let s := s <| usersByEmail ::= delete (prev ⇝ User.Email) |> in
    let s := s <| users ::= delete id |> in
    touch KindUser id s
  | None => s
  end.

Definition User (id : string) (s : t) : option (option User.t) := users s !! id.

(** [clone(s.users[id])] is nil when the index names a missing user. *)
Definition UserByEmail (email : string) (s : t) : option (option User.t) :=
  match usersByEmail s !! email with
  | Some id => Some (default None (users s !! id))
  | None => None
  end.

Definition ListUsers (s : t) : list (option User.t) := sortByID (range_values (users s)).

(** ** Projects and members *)

Definition PutProject (x : option Project.t) (s : t) : t :=
  let id := GetId x in
  let s := s <| projects ::= <[id := x]> |> in
  touch KindProject id s.

Definition DeleteProject (id : string) (s : t) : t :=
  match projects s !! id with
  | Some _ =>
    let s := s <| projects ::= delete id |> in
    let s := s <| projectMembers ::= delete id |> in
    touch KindProject id s
  | None => s
  end.

Definition Project (id : string) (s : t) : option (option Project.t) := projects s !! id.

Definition ProjectByName (name : string) (s : t) : option (option Project.t) :=
  List.find (λ p, p ⇝ Project.Name =? name) (range_values (projects s)).

Definition ListProjects (s : t) : list (option Project.t) := sortByID (range_values (projects s)).

Definition PutProjectMember (m : option ProjectMember.t) (s : t) : t :=
  let byUser := default ∅ (projectMembers s !! (m ⇝ ProjectMember.ProjectId)) in
  let s := s <| projectMembers ::=
    <[m ⇝ ProjectMember.ProjectId := <[m ⇝ ProjectMember.UserId := m]> byUser]> |> in
  touch KindProjectMember (m ⇝ ProjectMember.ProjectId +:+ "/" +:+ m ⇝ ProjectMember.UserId) s.

Definition DeleteProjectMember (projectID userID : string) (s : t) : t :=
  match projectMembers s !! projectID with
  | Some byUser =>
    match byUser !! userID with
    | Some _ =>
      let s := s <| projectMembers ::= <[projectID := delete userID byUser]> |> in
      touch KindProjectMember (projectID +:+ "/" +:+ userID) s
    | None => s
    end
  | None => s
  end.

Definition ProjectMember (projectID userID : string) (s : t) : option (option ProjectMember.t) :=
  match projectMembers s !! projectID with
  | Some byUser => byUser !! userID
  | None => None
  end.

Definition ListProjectMembers (projectID : string) (s : t) : list (option ProjectMember.t) :=
  sort_slice (key_less (λ m, m ⇝ ProjectMember.UserId))
    (range_values (default ∅ (projectMembers s !! projectID))).

Definition ListMembershipsOfUser (userID : string) (s : t) : list (option ProjectMember.t) :=
  sort_slice (key_less (λ m, m ⇝ ProjectMember.ProjectId))
    (omap (λ byUser, byUser !! userID) (range_values (projectMembers s))).

(** ** Apps *)

Definition PutApp (x : option App.t) (s : t) : t :=
  let id := GetId x in
  let s := s <| apps ::= <[id := x]> |> in
  touch KindApp id s.

Definition DeleteApp (id : string) (s : t) : t :=
  match apps s !! id with
  | Some _ =>
    let s := s <| apps ::= delete id |> in
    touch KindApp id s
  | None => s
  end.

Definition App (id : string) (s : t) : option (option App.t) := apps s !! id.

Definition AppByName (projectID name : string) (s : t) : option (option App.t) :=
  List.find (λ a, (a ⇝ App.ProjectId =? projectID) && (a ⇝ App.Name =? name))
    (range_values (apps s)).

Definition ListApps (projectID : string) (s : t) : list (option App.t) :=
  sortByID (List.filter (λ x, (projectID =? "") || (x ⇝ App.ProjectId =? projectID)) (range_values (apps s))).

(** ** Environments and variables *)

Definition PutEnvironment (x : option Environment.t) (s : t) : t :=
  let id := GetId x in
  let s := s <| environments ::= <[id := x]> |> in
  touch KindEnvironment id s.

Definition DeleteEnvironment (id : string) (s : t) : t :=
  match environments s !! id with
  | Some _ =>
    let s := s <| environments ::= delete id |> in
    let s := s <| envVars ::= delete id |> in
    touch KindEnvironment id s
  | None => s
  end.

Definition Environment (id : string) (s : t) : option (option Environment.t) := environments s !! id.

Definition EnvironmentByName (appID name : string) (s : t) : option (option Environment.t) :=
  List.find (λ e, (e ⇝ Environment.AppId =? appID) && (e ⇝ Environment.Name =? name))
    (range_values (environments s)).

Definition ListEnvironments (projectID appID : string) (s : t) : list (option Environment.t) :=
  sortByID (List.filter (λ e,
    if negb (appID =? "") && negb (e ⇝ Environment.AppId =? appID) then false
    else if negb (projectID =? "") && negb (e ⇝ Environment.ProjectId =? projectID) then false
    else true) (range_values (environments s))).

Definition SetEnvVars (envID : string) (set_ : gmap string (option EncryptedValue.t))
    (unset : list string) (s : t) : t :=
  let vars := default ∅ (envVars s !! envID) in
  let vars := foldl (λ vars '(k, v), <[k := v]> vars) vars (range set_) in
  let vars := foldl (λ vars k, delete k vars) vars unset in
  let s := s <| envVars ::= <[envID := vars]> |> in
  touch KindEnvVar envID s.

Definition EnvVars (envID : string) (s : t) : gmap string (option EncryptedValue.t) :=
  default ∅ (envVars s !! envID).

(** ** Releases, deployments and builds *)

Definition PutRelease (x : option Release.t) (s : t) : t :=
  let id := GetId x in
  let s := s <| releases ::= <[id := x]> |> in
  touch KindRelease id s.

Definition Release (id : string) (s : t) : option (option Release.t) := releases s !! id.

(** DeleteRelease notifies even when the release is absent. *)
Definition DeleteRelease (id : string) (s : t) : t :=
  let s := s <| releases ::= delete id |> in
  touch KindRelease id s.

(** Newest version first; [sort_slice] fixes an order of equal versions that the
    library does not promise. *)
Definition release_newer (x y : option Release.t) : bool :=
  (y ⇝ Release.Version <? x ⇝ Release.Version)%Z.

Definition ListReleases (envID : string) (s : t) : list (option Release.t) :=
  sort_slice release_newer
    (List.filter (λ r, (envID =? "") || (r ⇝ Release.EnvironmentId =? envID))
      (range_values (releases s))).

Definition NextReleaseVersion (envID : string) (s : t) : Z :=
  let maxV := foldl (λ maxV r,
      if (r ⇝ Release.EnvironmentId =? envID) && (maxV <? r ⇝ Release.Version)%Z
      then r ⇝ Release.Version else maxV)
    0%Z (range_values (releases s)) in
  u64 (maxV + 1).

Definition PutDeployment (x : option Deployment.t) (s : t) : t :=
  let id := GetId x in
  let s := s <| deployments ::= <[id := x]> |> in
  touch KindDeployment id s.

Definition Deployment (id : string) (s : t) : option (option Deployment.t) := deployments s !! id.

Definition ListDeployments (envID : string) (s : t) : list (option Deployment.t) :=
  sortByID (List.filter (λ x, (envID =? "") || (x ⇝ Deployment.EnvironmentId =? envID)) (range_values (deployments s))).

Definition PutBuild (x : option Build.t) (s : t) : t :=
  let id := GetId x in
  let s := s <| builds ::= <[id := x]> |> in
  touch KindBuild id s.

Definition Build (id : string) (s : t) : option (option Build.t) := builds s !! id.

Definition ListBuilds (appID : string) (s : t) : list (option Build.t) :=
  sortByID (List.filter (λ x, (appID =? "") || (x ⇝ Build.AppId =? appID)) (range_values (builds s))).

(** ** Nodes and join tokens *)

Definition PutNode (x : option Node.t) (s : t) : t :=
  let id := GetId x in
  let s := s <| nodes ::= <[id := x]> |> in
  touch KindNode id s.

Definition DeleteNode (id : string) (s : t) : t :=
  match nodes s !! id with
  | Some _ =>
    let s := s <| nodes ::= delete id |> in
    touch KindNode id s
  | None => s
  end.

Definition Node (id : string) (s : t) : option (option Node.t) := nodes s !! id.

Definition ListNodes (s : t) : list (option Node.t) := sortByID (range_values (nodes s)).

Definition PutJoinToken (x : option JoinToken.t) (s : t) : t :=
  let id := GetId x in
  let s := s <| joinTokens ::= <[id := x]> |> in
  touch KindJoinToken id s.

Definition ListJoinTokens (s : t) : list (option JoinToken.t) := sortByID (range_values (joinTokens s)).

(** ** Assignments *)

(** [delete(m[k], id)]: a no-op when the inner map is nil. *)
Definition index_delete (k id : string) (m : gmap string (gset string)) : gmap string (gset string) :=
  alter (λ ids, ids ∖ {[id]}) k m.

(** Creates the inner map when it is missing. *)
Definition index_insert (k id : string) (m : gmap string (gset string)) : gmap string (gset string) :=
  <[k := {[id]} ∪ default ∅ (m !! k)]> m.

Definition putAssignmentLocked (a : option Assignment.t) (s : t) : t :=
  let id := GetId a in
  let s := match assignments s !! id with
    | Some prev =>
      if negb (prev ⇝ Assignment.NodeId =? a ⇝ Assignment.NodeId)
      then s <| assignmentsByNode ::= index_delete (prev ⇝ Assignment.NodeId) id |>
      else s
    | None => s
    end in
  let s := s <| assignments ::= <[id := a]> |> in
  let s := s <| assignmentsByNode ::= index_insert (a ⇝ Assignment.NodeId) id |> in
  touch KindAssignment id s.

Definition PutAssignment (a : option Assignment.t) (s : t) : t := putAssignmentLocked a s.

Definition PutAssignments (as_ : list (option Assignment.t)) (s : t) : t :=
  foldl (λ s a, putAssignmentLocked a s) s as_.

(** The body of the loop of DeleteAssignments. *)
Definition deleteAssignment (s : t) (id : string) : t :=
  match assignments s !! id with
  | Some prev =>
    let s := s <| assignmentsByNode ::= index_delete (prev ⇝ Assignment.NodeId) id |> in
    let s := s <| assignments ::= delete id |> in
    touch KindAssignment id s
  | None => s
  end.

Definition DeleteAssignments (ids : list string) (s : t) : t := foldl deleteAssignment s ids.

Definition Assignment (id : string) (s : t) : option (option Assignment.t) := assignments s !! id.

(** The state a report leaves: a RUNNING report does not downgrade HEALTHY or
    UNHEALTHY. *)
Definition merge_observed (cur : option AssignmentObserved.t) (obs : option AssignmentObserved.t) :
    option AssignmentObserved.t :=
  if decide (obs ⇝ AssignmentObserved.State = INSTANCE_STATE_RUNNING) then
    let st := cur ⇝ AssignmentObserved.State in
    if decide (st = INSTANCE_STATE_HEALTHY ∨ st = INSTANCE_STATE_UNHEALTHY)
    then (λ o, o <| AssignmentObserved.State := st |>) <$> obs
    else obs
  else obs.

(** One report of SetAssignmentObserved: [a.Observed = next] on the stored object,
    which a nil object makes panic. *)
Definition observe_assignment (a : Assignment.t) (obs : option AssignmentObserved.t) : Assignment.t :=
  let a := a <| Assignment.Observed ::= λ cur, merge_observed cur obs |> in
  if bool_decide (obs ⇝ AssignmentObserved.MeshPortBindings = ∅) then a
  else a <| Assignment.MeshPortBindings := obs ⇝ AssignmentObserved.MeshPortBindings |>.

Definition setObserved (nodeID : string) (s : t) (r : string * option AssignmentObserved.t) : outcome t :=
  let '(id, obs) := r in
  match assignments s !! id with
  | None => Ret s
  | Some a =>
    if negb (a ⇝ Assignment.NodeId =? nodeID) then Ret s
    else match a with
      | None => Panic
      | Some a =>
        let s := s <| assignments ::= <[id := Some (observe_assignment a obs)]> |> in
        Ret (touch KindAssignment id s)
      end
  end.

Definition SetAssignmentObserved (nodeID : string)
    (observed : gmap string (option AssignmentObserved.t)) (s : t) : outcome t :=
  ofoldl (setObserved nodeID) s (range observed).

Definition ListAssignmentsByNode (nodeID : string) (s : t) : list (option Assignment.t) :=
  sortByID ((λ id, default None (assignments s !! id))
    <$> range_keys (default ∅ (assignmentsByNode s !! nodeID))).

Definition ListAssignments (envID : string) (s : t) : list (option Assignment.t) :=
  sortByID (List.filter (λ x, (envID =? "") || (x ⇝ Assignment.EnvironmentId =? envID)) (range_values (assignments s))).

(** ** Tokens *)

Definition PutToken (tok : option Token.t) (s : t) : t :=
  let id := GetId tok in
  let s := match tokens s !! id with
    | Some prev => s <| tokensByHash ::= delete (prev ⇝ Token.SecretHash) |>
    | None => s
    end in
  let s := s <| tokens ::= <[id := tok]> |> in
  let s := s <| tokensByHash ::= <[tok ⇝ Token.SecretHash := id]> |> in
  touch KindToken id s.

Definition DeleteToken (id : string) (s : t) : t :=
  match tokens s !! id with
  | Some prev =>
    let s := s <| tokensByHash ::= delete (prev ⇝ Token.SecretHash) |> in
    let s := s <| tokens ::= delete id |> in
    touch KindToken id s
  | None => s
  end.

Definition TokenByHash (hash : string) (s : t) : option (option Token.t) :=
  match tokensByHash s !! hash with
  | Some id => Some (default None (tokens s !! id))
  | None => None
  end.

Definition Token (id : string) (s : t) : option (option Token.t) := tokens s !! id.

Definition ListTokens (userID : string) (s : t) : list (option Token.t) :=
  sortByID (List.filter (λ x, (userID =? "") || (x ⇝ Token.UserId =? userID)) (range_values (tokens s))).

Definition used_before (tok : Token.t) (unixMs : Z) : bool :=
  match Token.LastUsedAt tok with
  | None => true
  | Some at_ => (UnixMilli (AsTime (Some at_)) <? unixMs)%Z
  end.

(** One entry of TouchTokens; reading LastUsedAt of a nil token panics. *)
Definition touchToken (s : t) (r : string * Z) : outcome t :=
  let '(id, unixMs) := r in
  match tokens s !! id with
  | None => Ret s
  | Some None => Panic
  | Some (Some tok) =>
    if used_before tok unixMs then
      let tok := tok <| Token.LastUsedAt := Some (timestampFromUnixMs unixMs) |> in
      let s := s <| tokens ::= <[id := Some tok]> |> in
      Ret (touch KindToken id s)
    else Ret s
  end.

Definition TouchTokens (lastUsed : gmap string Z) (s : t) : outcome t :=
  ofoldl touchToken s (range lastUsed).

(** ** Domains *)

Definition indexDomain (d : option Domain.t) (s : t) : t :=
  s <| domainsByHostname ::= index_insert (d ⇝ Domain.Hostname) (GetId d) |>.

Definition unindexDomain (d : option Domain.t) (s : t) : t :=
  let host := d ⇝ Domain.Hostname in
  match domainsByHostname s !! host with
  | None => s
  | Some ids =>
    let ids := ids ∖ {[GetId d]} in
    if bool_decide (ids = ∅)
    then s <| domainsByHostname ::= delete host |>
    else s <| domainsByHostname ::= <[host := ids]> |>
  end.

Definition PutDomain (d : option Domain.t) (s : t) : t :=
  let id := GetId d in
  let s := match domains s !! id with
    | Some prev => unindexDomain prev s
    | None => s
    end in
  let s := s <| domains ::= <[id := d]> |> in
  let s := indexDomain d s in
  touch KindDomain id s.

Definition DeleteDomain (id : string) (s : t) : t :=
  match domains s !! id with
  | Some prev =>
    let s := unindexDomain prev s in
    let s := s <| domains ::= delete id |> in
    touch KindDomain id s
  | None => s
  end.

Definition Domain (id : string) (s : t) : option (option Domain.t) := domains s !! id.

(** The domains of a hostname, in iteration order of the index. *)
Definition domains_of (hostname : string) (s : t) : list (option Domain.t) :=
  (λ id, default None (domains s !! id))
    <$> range_keys (default ∅ (domainsByHostname s !! hostname)).

Definition DomainByHostname (hostname : string) (s : t) : option (option Domain.t) :=
  head (domains_of hostname s).

(** Longest path prefix first, then by id. *)
Definition domain_less (x y : option Domain.t) : bool :=
  let lx := String.length (x ⇝ Domain.PathPrefix) in
  let ly := String.length (y ⇝ Domain.PathPrefix) in
  if bool_decide (lx = ly) then str_ltb (GetId x) (GetId y) else bool_decide (ly < lx).

Definition DomainsByHostname (hostname : string) (s : t) : list (option Domain.t) :=
  sort_slice domain_less (domains_of hostname s).

Definition DomainByRoute (hostname pathPrefix : string) (s : t) : option (option Domain.t) :=
  List.find (λ d, d ⇝ Domain.PathPrefix =? pathPrefix) (domains_of hostname s).

Definition ListDomains (projectID : string) (s : t) : list (option Domain.t) :=
  sortByID (List.filter (λ x, (projectID =? "") || (x ⇝ Domain.ProjectId =? projectID)) (range_values (domains s))).

(** ** Replicated KV *)

Inductive kv_error := ErrKVConflict.

(** The new version, or the conflict; a conflict leaves the store untouched. *)
Definition PutKV (key : string) (value : list Byte.byte) (expectedVersion expiresAtUnixMs : Z)
    (s : t) : t * (Z + kv_error) :=
  let cur := default (kvEntry.mk [] 0 0) (kv s !! key) in
  if (0 <=? expectedVersion)%Z && negb (kvEntry.version cur =? expectedVersion)%Z
  then (s, inr ErrKVConflict)
  else
    let next := i64 (kvEntry.version cur + 1) in
    let s := s <| kv ::= <[key := kvEntry.mk value next expiresAtUnixMs]> |> in
    (touch KindKV key s, inl next).

Definition DeleteKV (key : string) (expectedVersion : Z) (s : t) : t * option kv_error :=
  match kv s !! key with
  | None => (s, None)
  | Some cur =>
    if (0 <=? expectedVersion)%Z && negb (kvEntry.version cur =? expectedVersion)%Z
    then (s, Some ErrKVConflict)
    else
      let s := s <| kv ::= delete key |> in
      (touch KindKV key s, None)
  end.

Definition KV (key : string) (s : t) : option (list Byte.byte * Z * Z) :=
  (λ e, (kvEntry.value e, kvEntry.version e, kvEntry.expiresAt e)) <$> kv s !! key.

Definition ListKVPrefix (prefix : string) (s : t) : list string :=
  sort_slice str_ltb (List.filter (λ k, String.prefix prefix k) (range (kv s)).*1).

(** ** DNS providers *)

Definition PutDNSProvider (x : option DNSProviderConfig.t) (s : t) : t :=
  let id := GetId x in
  let s := s <| dnsProviders ::= <[id := x]> |> in
  touch KindDNSProvider id s.

Definition DeleteDNSProvider (id : string) (s : t) : t :=
  match dnsProviders s !! id with
  | Some _ =>
    let s := s <| dnsProviders ::= delete id |> in
    touch KindDNSProvider id s
  | None => s
  end.

Definition ListDNSProviders (s : t) : list (option DNSProviderConfig.t) := sortByID (range_values (dnsProviders s)).

(** ** Volumes and snapshots *)

Definition PutVolume (x : option Volume.t) (s : t) : t :=
  let id := GetId x in
  let s := s <| volumes ::= <[id := x]> |> in
  touch KindVolume id s.

Definition DeleteVolume (id : string) (s : t) : t :=
  match volumes s !! id with
  | Some _ =>
    let s := s <| volumes ::= delete id |> in
    touch KindVolume id s
  | None => s
  end.

Definition Volume (id : string) (s : t) : option (option Volume.t) := volumes s !! id.

Definition VolumeByName (projectID envID name : string) (s : t) : option (option Volume.t) :=
  List.find (λ v, (v ⇝ Volume.ProjectId =? projectID) && (v ⇝ Volume.EnvironmentId =? envID)
      && (v ⇝ Volume.Name =? name))
    (range_values (volumes s)).

Definition ListVolumes (projectID : string) (s : t) : list (option Volume.t) :=
  sortByID (List.filter (λ x, (projectID =? "") || (x ⇝ Volume.ProjectId =? projectID)) (range_values (volumes s))).

(** Assigning the lease of a nil volume panics. *)
Definition SetVolumeLease (volumeID : string) (lease : option VolumeLease.t) (s : t) : outcome t :=
  match volumes s !! volumeID with
  | None => Ret s
  | Some None => Panic
  | Some (Some v) =>
    let s := s <| volumes ::= <[volumeID := Some (v <| Volume.Lease := lease |>)]> |> in
    Ret (touch KindVolume volumeID s)
  end.

Definition PutVolumeSnapshot (x : option VolumeSnapshot.t) (s : t) : t :=
  let id := GetId x in
  let s := s <| volumeSnapshots ::= <[id := x]> |> in
  touch KindVolumeSnapshot id s.

Definition DeleteVolumeSnapshot (id : string) (s : t) : t :=
  match volumeSnapshots s !! id with
  | Some _ =>
    let s := s <| volumeSnapshots ::= delete id |> in
    touch KindVolumeSnapshot id s
  | None => s
  end.

Definition ListVolumeSnapshots (volumeID : string) (s : t) : list (option VolumeSnapshot.t) :=
  sortByID (List.filter (λ x, (volumeID =? "") || (x ⇝ VolumeSnapshot.VolumeId =? volumeID)) (range_values (volumeSnapshots s))).

(** ** Backup *)

Definition SetBackupConfig (c : option BackupConfig.t) (s : t) : t :=
  let s := s <| backupConfig := c |> in
  touch KindBackup "config" s.

Definition GetBackupConfig (s : t) : option BackupConfig.t := backupConfig s.

Definition PutBackupRecord (x : option BackupRecord.t) (s : t) : t :=
  let id := GetId x in
  let s := s <| backupRecords ::= <[id := x]> |> in
  touch KindBackup id s.

Definition ListBackupRecords (s : t) : list (option BackupRecord.t) := sortByID (range_values (backupRecords s)).

(** ** Network allocations and service VIPs *)

Definition networkAllocKey (projectID envID nodeID : string) : string :=
  projectID +:+ "/" +:+ envID +:+ "/" +:+ nodeID.

Definition SetNetworkAllocation (projectID envID nodeID subnetCIDR : string) (s : t) : t :=
  let key := networkAllocKey projectID envID nodeID in
  let s := if subnetCIDR =? "" then s <| networkAllocs ::= delete key |>
    else s <| networkAllocs ::=
      <[key := Some (NetworkAllocation.mk projectID envID nodeID subnetCIDR)]> |> in
  touch KindNetworkAlloc key s.

Definition NetworkAllocation (projectID envID nodeID : string) (s : t) : option string :=
  (λ a, a ⇝ NetworkAllocation.SubnetCidr) <$> networkAllocs s !! networkAllocKey projectID envID nodeID.

Definition alloc_key (a : option NetworkAllocation.t) : string :=
  networkAllocKey (a ⇝ NetworkAllocation.ProjectId) (a ⇝ NetworkAllocation.EnvironmentId)
    (a ⇝ NetworkAllocation.NodeId).

Definition ListNetworkAllocations (s : t) : list (option NetworkAllocation.t) :=
  sort_slice (key_less alloc_key) (range_values (networkAllocs s)).

Definition SetServiceVIP (envID vip : string) (s : t) : t :=
  let s := if vip =? "" then s <| serviceVIPs ::= delete envID |>
    else s <| serviceVIPs ::= <[envID := vip]> |> in
  touch KindServiceVIP envID s.

Definition ServiceVIP (envID : string) (s : t) : option string := serviceVIPs s !! envID.

Definition ListServiceVIPs (s : t) : gmap string string := serviceVIPs s.

(** ** Jobs *)

Definition PutJob (x : option Job.t) (s : t) : t :=
  let id := GetId x in
  let s := s <| jobs ::= <[id := x]> |> in
  touch KindJob id s.

Definition Job (id : string) (s : t) : option (option Job.t) := jobs s !! id.

Definition ListJobs (projectID envID : string) (s : t) : list (option Job.t) :=
  sortByID (List.filter (λ j,
    if negb (projectID =? "") && negb (j ⇝ Job.ProjectId =? projectID) then false
    else if negb (envID =? "") && negb (j ⇝ Job.EnvironmentId =? envID) then false
    else true) (range_values (jobs s))).

(** ** Alerts *)

Definition PutAlertRule (x : option AlertRule.t) (s : t) : t :=
  let id := GetId x in
  let s := s <| alertRules ::= <[id := x]> |> in
  touch KindAlertRule id s.

Definition DeleteAlertRule (id : string) (s : t) : t :=
  match alertRules s !! id with
  | Some _ =>
    let s := s <| alertRules ::= delete id |> in
    touch KindAlertRule id s
  | None => s
  end.

Definition ListAlertRules (s : t) : list (option AlertRule.t) := sortByID (range_values (alertRules s)).

Definition PutNotificationChannel (x : option NotificationChannel.t) (s : t) : t :=
  let id := GetId x in
  let s := s <| notifyChannels ::= <[id := x]> |> in
  touch KindNotifyChannel id s.

Definition DeleteNotificationChannel (id : string) (s : t) : t :=
  match notifyChannels s !! id with
  | Some _ =>
    let s := s <| notifyChannels ::= delete id |> in
    touch KindNotifyChannel id s
  | None => s
  end.

Definition ListNotificationChannels (s : t) : list (option NotificationChannel.t) := sortByID (range_values (notifyChannels s)).

(** ** Event and audit rings *)

(** [if over := len(l) - cap; over > 0 { l = l[over:] }] *)
Definition ring_over {A} (cap : Z) (l : list A) : nat := Z.to_nat (Z.of_nat (length l) - cap).
Definition ring_trim {A} (cap : Z) (l : list A) : list A := drop (ring_over cap l) l.

(** The body of the loop of AppendEvents. *)
Definition appendEvent (s : t) (e : option Event.t) : t :=
  let s := s <| events ::= λ l, l ++ [e] |> in
  touch KindEvent (GetId e) s.

Definition AppendEvents (evs : list (option Event.t)) (s : t) : t :=
  let s := foldl appendEvent s evs in
  s <| events ::= ring_trim eventRingCap |>.

Definition ListEvents (limit : Z) (s : t) : list (option Event.t) :=
  let n := Z.of_nat (length (events s)) in
  let limit := if (limit <=? 0)%Z || (n <? limit)%Z then n else limit in
  drop (Z.to_nat (n - limit)) (events s).

Definition created_ms {A} `{withMeta A} (x : option A) : Z :=
  UnixMilli (AsTime (x ⇝ GetMeta ⇝ Meta.CreatedAt)).

Definition AuditSince (sinceMs : Z) (s : t) : list (option AuditEntry.t) :=
  List.filter (λ e, (sinceMs <=? created_ms e)%Z) (audit s).

Definition EventsSince (sinceMs : Z) (s : t) : list (option Event.t) :=
  List.filter (λ e, (sinceMs <=? created_ms e)%Z) (events s).

(** The backwards loop of QueryEvents and QueryAudit: [todo] is the rest of the
    ring, newest first, [k] how many more results fit. *)
Fixpoint query_loop {A} (filter : option (A → bool)) (k : nat) (todo : list A) : list A :=
  match k, todo with
  | S k', x :: todo' =>
    if match filter with None => true | Some p => p x end
    then x :: query_loop filter k' todo'
    else query_loop filter k todo'
  | _, _ => []
  end.

Definition query_limit (limit : Z) : nat := Z.to_nat (if (limit <=? 0)%Z then 100 else limit).

Definition QueryEvents (filter : option (option Event.t → bool)) (limit : Z) (s : t) :
    list (option Event.t) :=
  query_loop filter (query_limit limit) (rev (events s)).

Definition AppendAudit (entries : list (option AuditEntry.t)) (s : t) : t :=
  let s := foldl (λ s e, s <| audit ::= λ l, l ++ [e] |>) s entries in
  let s := s <| audit ::= ring_trim auditRingCap |> in
  touch KindEvent "audit" s.

Definition QueryAudit (filter : option (option AuditEntry.t → bool)) (limit : Z) (s : t) :
    list (option AuditEntry.t) :=
  query_loop filter (query_limit limit) (rev (audit s)).

(** ** Applied-request ring *)

Definition MarkApplied (requestID : string) (raftIndex : Z) (s : t) : t * bool :=
  if bool_decide (requestID ∈ appliedSet s) then (s, false)
  else
    let s := s <| appliedSet ::= union {[requestID]} |> in
    let s := s <| appliedRequests ::= λ l, l ++ [Some (AppliedRequest.mk requestID raftIndex)] |> in
    let over := ring_over appliedRingCap (appliedRequests s) in
    let old := take over (appliedRequests s) in
    let s := s <| appliedSet ::= λ S, foldl (λ S r, S ∖ {[r ⇝ AppliedRequest.RequestId]}) S old |> in
    let s := s <| appliedRequests ::= drop over |> in
    (s, true).

End operations.
End Store.
