(* ===== verification/StateInv.v ===== *)
(** The well-formedness invariant of the store: every object is stored under its
    id, the four secondary indexes agree with their collections, the histories
    respect their capacities, and the applied-request set is the set of the ring.
    Every mutating method preserves it. *)
From S2P Require Import Prelude Api Watch State.

Create HintDb store_wf.

(** * Index invariants *)

Definition keyed {A} `{withMeta A} (m : gmap string (option A)) : Prop :=
  ∀ id x, m !! id = Some x → GetId x = id.

Section index.
Context {A : Type} (key : option A → string).
Implicit Types (m : gmap string (option A)) (x : option A).

(** A unique index names an object that has the key. *)
Definition unique_index m (ix : gmap string string) : Prop :=
  ∀ k id, ix !! k = Some id → ∃ x, m !! id = Some x ∧ key x = k.

(** It is exact when, moreover, every object is found under its key. *)
Definition unique_index_exact m (ix : gmap string string) : Prop :=
  ∀ k id, ix !! k = Some id ↔ ∃ x, m !! id = Some x ∧ key x = k.

(** A set index holds exactly the ids of the objects with the key. *)
Definition set_index m (ix : gmap string (gset string)) : Prop :=
  ∀ k id, id ∈ default ∅ (ix !! k) ↔ ∃ x, m !! id = Some x ∧ key x = k.

Definition unindex_old m (id : string) (ix : gmap string string) : gmap string string :=
  match m !! id with Some prev => delete (key prev) ix | None => ix end.

Lemma unindex_old_other m ix k id id' :
  unique_index m ix → unindex_old m id ix !! k = Some id' → ix !! k = Some id' ∧ id' ≠ id.
Proof.
  unfold unindex_old. intros Hix Hk. destruct (m !! id) as [prev|] eqn:Hid.
  - apply lookup_delete_Some in Hk as [Hne Hk]. split; [done|]. intros ->.
    destruct (Hix _ _ Hk) as (x & Hx & <-). congruence.
  - split; [done|]. intros ->. destruct (Hix _ _ Hk) as (x & Hx & _). congruence.
Qed.

Lemma unique_index_put m ix id x :
  unique_index m ix → unique_index (<[id := x]> m) (<[key x := id]> (unindex_old m id ix)).
Proof.
  intros Hix k id' Hk. apply lookup_insert_Some in Hk as [[<- <-]|[Hne Hk]].
  - exists x. by rewrite lookup_insert_eq.
  - apply unindex_old_other in Hk as [Hk Hne']; [|done].
    rewrite lookup_insert_ne by done. by apply Hix.
Qed.

Lemma unique_index_delete m ix id :
  unique_index m ix → unique_index (delete id m) (unindex_old m id ix).
Proof.
  intros Hix k id' Hk. apply unindex_old_other in Hk as [Hk Hne]; [|done].
  rewrite lookup_delete_ne by done. by apply Hix.
Qed.

(** An update in place that keeps the key keeps the index. *)
Lemma unique_index_update m ix id x x' :
  m !! id = Some x → key x' = key x → unique_index m ix → unique_index (<[id := x']> m) ix.
Proof.
  intros Hid Hkey Hix k id' Hk. destruct (Hix _ _ Hk) as (y & Hy & <-).
  destruct (decide (id = id')) as [<-|Hne].
  - exists x'. rewrite lookup_insert_eq. split; [done|congruence].
  - exists y. by rewrite lookup_insert_ne.
Qed.

Lemma unique_index_put_exact m ix id x :
  (∀ id' x', m !! id' = Some x' → key x' = key x → id' = id) →
  unique_index_exact m ix →
  unique_index_exact (<[id := x]> m) (<[key x := id]> (unindex_old m id ix)).
Proof.
  intros Huniq Hix k id'. split; [apply unique_index_put; intros ??; apply Hix|].
  intros (y & Hy & <-). apply lookup_insert_Some in Hy as [[<- <-]|[Hne Hy]].
  - apply lookup_insert_eq.
  - assert (key y ≠ key x) by (intros E; apply Hne; symmetry; by eapply Huniq).
    rewrite lookup_insert_ne by done. unfold unindex_old.
    destruct (m !! id) as [prev|] eqn:Hid; [|by apply Hix; eauto].
    rewrite lookup_delete_ne; [by apply Hix; eauto|]. intros E. apply Hne.
    assert (ix !! key y = Some id) by (apply Hix; eauto).
    assert (ix !! key y = Some id') by (apply Hix; eauto). congruence.
Qed.

Lemma unique_index_delete_exact m ix id :
  unique_index_exact m ix → unique_index_exact (delete id m) (unindex_old m id ix).
Proof.
  intros Hix k id'. split; [apply unique_index_delete; intros ??; apply Hix|].
  intros (y & Hy & <-). apply lookup_delete_Some in Hy as [Hne Hy]. unfold unindex_old.
  destruct (m !! id) as [prev|] eqn:Hid; [|by apply Hix; eauto].
  rewrite lookup_delete_ne; [by apply Hix; eauto|]. intros E.
  assert (ix !! key y = Some id) by (apply Hix; eauto).
  assert (ix !! key y = Some id') by (apply Hix; eauto). congruence.
Qed.

(** ** Set indexes *)

Lemma index_delete_spec k id ix k' id' :
  id' ∈ default ∅ (Store.index_delete k id ix !! k') ↔
    id' ∈ default ∅ (ix !! k') ∧ ¬ (k = k' ∧ id = id').
Proof.
  unfold Store.index_delete. rewrite lookup_alter. case_decide as Hk; subst.
  - destruct (ix !! k'); cbn; set_solver.
  - naive_solver.
Qed.

Lemma index_insert_spec k id ix k' id' :
  id' ∈ default ∅ (Store.index_insert k id ix !! k') ↔
    id' ∈ default ∅ (ix !! k') ∨ (k = k' ∧ id = id').
Proof.
  unfold Store.index_insert. rewrite lookup_insert. case_decide as Hk; subst; cbn; set_solver.
Qed.

Lemma set_index_put m ix ix' id x :
  set_index m ix →
  (∀ k id', ¬ (k = key x ∧ id = id') →
     (id' ∈ default ∅ (ix' !! k) ↔
        id' ∈ default ∅ (ix !! k) ∧ ¬ (id = id' ∧ ∃ p, m !! id = Some p ∧ key p = k))) →
  set_index (<[id := x]> m) (Store.index_insert (key x) id ix').
Proof.
  intros Hix Hix' k id'. rewrite index_insert_spec.
  destruct (decide (k = key x ∧ id = id')) as [[-> <-]|Hne].
  { split; [|by auto]. intros _. exists x. by rewrite lookup_insert_eq. }
  rewrite (Hix' _ _ Hne), (Hix k id'), lookup_insert. case_decide as Hid; subst.
  - split; [|naive_solver]. intros [[(y & Hy & <-) Hn]|[<- _]]; [|naive_solver].
    exfalso. apply Hn. eauto.
  - naive_solver.
Qed.

Lemma set_index_delete m ix ix' id p :
  set_index m ix → m !! id = Some p →
  (∀ k id', id' ∈ default ∅ (ix' !! k) ↔
     id' ∈ default ∅ (ix !! k) ∧ ¬ (key p = k ∧ id = id')) →
  set_index (delete id m) ix'.
Proof.
  intros Hix Hp Hix' k id'. rewrite Hix', (Hix k id'), lookup_delete.
  case_decide as Hid; subst; naive_solver.
Qed.

Lemma set_index_update m ix id x x' :
  m !! id = Some x → key x' = key x → set_index m ix → set_index (<[id := x']> m) ix.
Proof.
  intros Hid Hkey Hix k id'. rewrite (Hix k id'), lookup_insert. case_decide as E; subst; naive_solver.
Qed.
End index.

(** A Go caller never stores an empty inner set in the hostname index. *)
Definition inner_nonempty (ix : gmap string (gset string)) : Prop :=
  ∀ k ids, ix !! k = Some ids → ids ≠ ∅.

Definition members_keyed (m : gmap string (gmap string (option ProjectMember.t))) : Prop :=
  ∀ p u byUser x, m !! p = Some byUser → byUser !! u = Some x →
    x ⇝ ProjectMember.ProjectId = p ∧ x ⇝ ProjectMember.UserId = u.

(** The ring and the set of applied requests agree. *)
Record applied_ok (ring : list (option AppliedRequest.t)) (ids : gset string) : Prop := {
  applied_ids : ids = list_to_set (get AppliedRequest.RequestId <$> ring);
  applied_nodup : NoDup (get AppliedRequest.RequestId <$> ring);
  applied_cap : (Z.of_nat (length ring) ≤ appliedRingCap)%Z
}.

(** * The invariant *)

Record wf (s : Store.t) : Prop := {
  wf_users : keyed (Store.users s);
  wf_projects : keyed (Store.projects s);
  wf_members : members_keyed (Store.projectMembers s);
  wf_apps : keyed (Store.apps s);
  wf_environments : keyed (Store.environments s);
  wf_releases : keyed (Store.releases s);
  wf_deployments : keyed (Store.deployments s);
  wf_builds : keyed (Store.builds s);
  wf_nodes : keyed (Store.nodes s);
  wf_joinTokens : keyed (Store.joinTokens s);
  wf_assignments : keyed (Store.assignments s);
  wf_tokens : keyed (Store.tokens s);
  wf_domains : keyed (Store.domains s);
  wf_dnsProviders : keyed (Store.dnsProviders s);
  wf_volumes : keyed (Store.volumes s);
  wf_volumeSnapshots : keyed (Store.volumeSnapshots s);
  wf_backupRecords : keyed (Store.backupRecords s);
  wf_jobs : keyed (Store.jobs s);
  wf_alertRules : keyed (Store.alertRules s);
  wf_notifyChannels : keyed (Store.notifyChannels s);
  wf_allocs : ∀ k a, Store.networkAllocs s !! k = Some a → Store.alloc_key a = k;
  wf_byEmail : unique_index (get User.Email) (Store.users s) (Store.usersByEmail s);
  wf_byHash : unique_index (get Token.SecretHash) (Store.tokens s) (Store.tokensByHash s);
  wf_byNode : set_index (get Assignment.NodeId) (Store.assignments s) (Store.assignmentsByNode s);
  wf_byHost : set_index (get Domain.Hostname) (Store.domains s) (Store.domainsByHostname s);
  wf_kv : ∀ k e, Store.kv s !! k = Some e → in_i64 (kvEntry.expiresAt e);
  wf_hosts : inner_nonempty (Store.domainsByHostname s);
  wf_events : (Z.of_nat (length (Store.events s)) ≤ eventRingCap)%Z;
  wf_audit : (Z.of_nat (length (Store.audit s)) ≤ auditRingCap)%Z;
  wf_applied : applied_ok (Store.appliedRequests s) (Store.appliedSet s)
}.

Lemma keyed_insert {A} `{withMeta A} (m : gmap string (option A)) x :
  keyed m → keyed (<[GetId x := x]> m).
Proof. intros Hm id y [[<- <-]|[_ Hy]]%lookup_insert_Some; [done|by apply Hm]. Qed.

Lemma keyed_delete {A} `{withMeta A} (m : gmap string (option A)) id :
  keyed m → keyed (delete id m).
Proof. intros Hm id' y [_ Hy]%lookup_delete_Some. by apply Hm. Qed.

Lemma keyed_update {A} `{withMeta A} (m : gmap string (option A)) id x x' :
  m !! id = Some x → GetId x' = GetId x → keyed m → keyed (<[id := x']> m).
Proof.
  intros Hx Hid Hm id' y [[<- <-]|[_ Hy]]%lookup_insert_Some; [|by apply Hm].
  rewrite Hid. by apply Hm.
Qed.

Lemma keyed_empty {A} `{withMeta A} : keyed (∅ : gmap string (option A)).
Proof. intros id x. by rewrite lookup_empty. Qed.

#[export] Hint Resolve keyed_insert keyed_delete keyed_empty : store_wf.

(** Solves the fields of [wf] an operation does not change. *)
Ltac solve_wf := intros []; unfold Store.touch; split; get_set; auto with store_wf.

Lemma wf_New : wf Store.New.
Proof.
  split; cbn; auto with store_wf; try done.
  - intros k id. rewrite !lookup_empty. cbn. set_solver.
  - intros k id. rewrite !lookup_empty. cbn. set_solver.
  - split; cbn; [done|constructor|done].
Qed.

(** * Preservation *)

Section preservation.
Context {RO : RangeOrder} {TL : TimestampLib}.
Implicit Type s : Store.t.

Lemma wf_SetOrg o s : wf s → wf (Store.SetOrg o s).
Proof. unfold Store.SetOrg. solve_wf. Qed.
Lemma wf_SetClusterKeyMaterial m s : wf s → wf (Store.SetClusterKeyMaterial m s).
Proof. unfold Store.SetClusterKeyMaterial. solve_wf. Qed.
Lemma wf_PutProject p s : wf s → wf (Store.PutProject p s).
Proof. unfold Store.PutProject. solve_wf. Qed.
Lemma wf_PutApp a s : wf s → wf (Store.PutApp a s).
Proof. unfold Store.PutApp. solve_wf. Qed.
Lemma wf_DeleteApp id s : wf s → wf (Store.DeleteApp id s).
Proof. unfold Store.DeleteApp. case_match; [|done]. solve_wf. Qed.
Lemma wf_PutEnvironment e s : wf s → wf (Store.PutEnvironment e s).
Proof. unfold Store.PutEnvironment. solve_wf. Qed.
Lemma wf_PutRelease r s : wf s → wf (Store.PutRelease r s).
Proof. unfold Store.PutRelease. solve_wf. Qed.
Lemma wf_DeleteRelease id s : wf s → wf (Store.DeleteRelease id s).
Proof. unfold Store.DeleteRelease. solve_wf. Qed.
Lemma wf_PutDeployment d s : wf s → wf (Store.PutDeployment d s).
Proof. unfold Store.PutDeployment. solve_wf. Qed.
Lemma wf_PutBuild b s : wf s → wf (Store.PutBuild b s).
Proof. unfold Store.PutBuild. solve_wf. Qed.
Lemma wf_PutNode n s : wf s → wf (Store.PutNode n s).
Proof. unfold Store.PutNode. solve_wf. Qed.
Lemma wf_DeleteNode id s : wf s → wf (Store.DeleteNode id s).
Proof. unfold Store.DeleteNode. case_match; [|done]. solve_wf. Qed.
Lemma wf_PutJoinToken tok s : wf s → wf (Store.PutJoinToken tok s).
Proof. unfold Store.PutJoinToken. solve_wf. Qed.
Lemma wf_SetEnvVars envID st un s : wf s → wf (Store.SetEnvVars envID st un s).
Proof. unfold Store.SetEnvVars. solve_wf. Qed.
Lemma wf_PutDNSProvider p s : wf s → wf (Store.PutDNSProvider p s).
Proof. unfold Store.PutDNSProvider. solve_wf. Qed.
Lemma wf_DeleteDNSProvider id s : wf s → wf (Store.DeleteDNSProvider id s).
Proof. unfold Store.DeleteDNSProvider. case_match; [|done]. solve_wf. Qed.
Lemma wf_PutVolume v s : wf s → wf (Store.PutVolume v s).
Proof. unfold Store.PutVolume. solve_wf. Qed.
Lemma wf_DeleteVolume id s : wf s → wf (Store.DeleteVolume id s).
Proof. unfold Store.DeleteVolume. case_match; [|done]. solve_wf. Qed.
Lemma wf_PutVolumeSnapshot v s : wf s → wf (Store.PutVolumeSnapshot v s).
Proof. unfold Store.PutVolumeSnapshot. solve_wf. Qed.
Lemma wf_DeleteVolumeSnapshot id s : wf s → wf (Store.DeleteVolumeSnapshot id s).
Proof. unfold Store.DeleteVolumeSnapshot. case_match; [|done]. solve_wf. Qed.
Lemma wf_SetBackupConfig c s : wf s → wf (Store.SetBackupConfig c s).
Proof. unfold Store.SetBackupConfig. solve_wf. Qed.
Lemma wf_PutBackupRecord r s : wf s → wf (Store.PutBackupRecord r s).
Proof. unfold Store.PutBackupRecord. solve_wf. Qed.
Lemma wf_SetServiceVIP e v s : wf s → wf (Store.SetServiceVIP e v s).
Proof. unfold Store.SetServiceVIP. case_match; solve_wf. Qed.
Lemma wf_PutJob j s : wf s → wf (Store.PutJob j s).
Proof. unfold Store.PutJob. solve_wf. Qed.
Lemma wf_PutAlertRule r s : wf s → wf (Store.PutAlertRule r s).
Proof. unfold Store.PutAlertRule. solve_wf. Qed.
Lemma wf_DeleteAlertRule id s : wf s → wf (Store.DeleteAlertRule id s).
Proof. unfold Store.DeleteAlertRule. case_match; [|done]. solve_wf. Qed.
Lemma wf_PutNotificationChannel c s : wf s → wf (Store.PutNotificationChannel c s).
Proof. unfold Store.PutNotificationChannel. solve_wf. Qed.
Lemma wf_DeleteNotificationChannel id s : wf s → wf (Store.DeleteNotificationChannel id s).
Proof. unfold Store.DeleteNotificationChannel. case_match; [|done]. solve_wf. Qed.
Lemma wf_DeleteEnvironment id s : wf s → wf (Store.DeleteEnvironment id s).
Proof. unfold Store.DeleteEnvironment. case_match; [|done]. solve_wf. Qed.

(** Users and tokens: the unique indexes. *)

Lemma wf_PutUser u s : wf s → wf (Store.PutUser u s).
Proof.
  intros Hs. pose proof (unique_index_put _ _ _ (GetId u) u (wf_byEmail s Hs)) as Hix.
  unfold Store.PutUser, unindex_old in *. destruct (Store.users s !! GetId u); revert Hs; solve_wf.
Qed.

Lemma wf_DeleteUser id s : wf s → wf (Store.DeleteUser id s).
Proof.
  intros Hs. pose proof (unique_index_delete _ _ _ id (wf_byEmail s Hs)) as Hix.
  unfold Store.DeleteUser, unindex_old in *. destruct (Store.users s !! id); [|done].
  revert Hs; solve_wf.
Qed.

Lemma wf_PutToken tok s : wf s → wf (Store.PutToken tok s).
Proof.
  intros Hs. pose proof (unique_index_put _ _ _ (GetId tok) tok (wf_byHash s Hs)) as Hix.
  unfold Store.PutToken, unindex_old in *. destruct (Store.tokens s !! GetId tok); revert Hs; solve_wf.
Qed.

Lemma wf_DeleteToken id s : wf s → wf (Store.DeleteToken id s).
Proof.
  intros Hs. pose proof (unique_index_delete _ _ _ id (wf_byHash s Hs)) as Hix.
  unfold Store.DeleteToken, unindex_old in *. destruct (Store.tokens s !! id); [|done].
  revert Hs; solve_wf.
Qed.

(** Projects and their members. *)

Lemma wf_DeleteProject id s : wf s → wf (Store.DeleteProject id s).
Proof.
  unfold Store.DeleteProject. destruct (Store.projects s !! id); [|done]. solve_wf.
  intros p u byUser x [_ Hp]%lookup_delete_Some. eauto.
Qed.

Lemma members_keyed_insert m p u byUser x :
  members_keyed m → (∀ u' x', byUser !! u' = Some x' → ∃ b, m !! p = Some b ∧ b !! u' = Some x') →
  x ⇝ ProjectMember.ProjectId = p → x ⇝ ProjectMember.UserId = u →
  members_keyed (<[p := <[u := x]> byUser]> m).
Proof.
  intros Hm Hold Hp Hu p' u' byUser' x' [[<- <-]|[_ Hp']]%lookup_insert_Some Hu'; [|by eauto].
  apply lookup_insert_Some in Hu' as [[<- <-]|[_ Hu']]; [done|].
  destruct (Hold _ _ Hu') as (b & ? & ?). eauto.
Qed.

Lemma wf_PutProjectMember m s : wf s → wf (Store.PutProjectMember m s).
Proof.
  unfold Store.PutProjectMember. solve_wf. apply members_keyed_insert; [done| |done|done].
  intros u' x'. destruct (Store.projectMembers s !! _); cbn; [eauto|by rewrite lookup_empty].
Qed.

Lemma wf_DeleteProjectMember p u s : wf s → wf (Store.DeleteProjectMember p u s).
Proof.
  unfold Store.DeleteProjectMember. destruct (Store.projectMembers s !! p) as [b|] eqn:Hb; [|done].
  destruct (b !! u); [|done]. solve_wf.
  intros p' u' b' x' [[<- <-]|[_ Hp']]%lookup_insert_Some Hu'; [|by eauto].
  apply lookup_delete_Some in Hu' as [_ Hu']. eauto.
Qed.

(** Assignments and domains: the set indexes. *)

Lemma assignment_index_put a s :
  set_index (get Assignment.NodeId) (Store.assignments s) (Store.assignmentsByNode s) →
  set_index (get Assignment.NodeId) (<[GetId a := a]> (Store.assignments s))
    (Store.index_insert (a ⇝ Assignment.NodeId) (GetId a)
      match Store.assignments s !! GetId a with
      | Some prev =>
        if negb (prev ⇝ Assignment.NodeId =? a ⇝ Assignment.NodeId)
        then Store.index_delete (prev ⇝ Assignment.NodeId) (GetId a) (Store.assignmentsByNode s)
        else Store.assignmentsByNode s
      | None => Store.assignmentsByNode s
      end).
Proof.
  intros Hix. apply (set_index_put _ _ _ _ _ _ Hix). intros k id' Hne.
  destruct (Store.assignments s !! GetId a) as [prev|] eqn:Hprev; [|naive_solver].
  destruct (prev ⇝ Assignment.NodeId =? a ⇝ Assignment.NodeId) eqn:E; cbn.
  - apply str_eqb_eq in E. naive_solver.
  - apply str_eqb_neq in E. rewrite index_delete_spec. naive_solver.
Qed.

Lemma wf_putAssignmentLocked a s : wf s → wf (Store.putAssignmentLocked a s).
Proof.
  intros Hs. pose proof (assignment_index_put a s (wf_byNode s Hs)) as Hix.
  unfold Store.putAssignmentLocked. destruct (Store.assignments s !! GetId a); [|revert Hs; solve_wf].
  destruct (negb _); revert Hs; solve_wf.
Qed.

Lemma wf_PutAssignments as_ s : wf s → wf (Store.PutAssignments as_ s).
Proof.
  intros Hs. apply (foldl_invariant wf); [done|]. intros. by apply wf_putAssignmentLocked.
Qed.

Lemma wf_deleteAssignment s id : wf s → wf (Store.deleteAssignment s id).
Proof.
  intros Hs. unfold Store.deleteAssignment. destruct (Store.assignments s !! id) as [prev|] eqn:Hp; [|done].
  pose proof (set_index_delete _ _ _ _ id prev (wf_byNode s Hs) Hp
    (index_delete_spec (prev ⇝ Assignment.NodeId) id (Store.assignmentsByNode s))) as Hix.
  revert Hs; solve_wf.
Qed.

Lemma wf_DeleteAssignments ids s : wf s → wf (Store.DeleteAssignments ids s).
Proof.
  intros Hs. apply (foldl_invariant wf); [done|]. intros. by apply wf_deleteAssignment.
Qed.

(** The hostname index after unindexDomain. *)
Definition unindexed (d : option Domain.t) (ix : gmap string (gset string)) :
    gmap string (gset string) :=
  match ix !! (d ⇝ Domain.Hostname) with
  | None => ix
  | Some ids =>
    if bool_decide (ids ∖ {[GetId d]} = ∅) then delete (d ⇝ Domain.Hostname) ix
    else <[d ⇝ Domain.Hostname := ids ∖ {[GetId d]}]> ix
  end.

Lemma unindexDomain_eq d s :
  Store.unindexDomain d s = s <| Store.domainsByHostname ::= unindexed d |>.
Proof.
  unfold Store.unindexDomain, unindexed, set.
  destruct (Store.domainsByHostname s !! _); [case_bool_decide|]; cbn; try done. by destruct s.
Qed.

Lemma unindexed_spec d ix k id' :
  id' ∈ default ∅ (unindexed d ix !! k) ↔
    id' ∈ default ∅ (ix !! k) ∧ ¬ (d ⇝ Domain.Hostname = k ∧ GetId d = id').
Proof.
  unfold unindexed. destruct (ix !! (d ⇝ Domain.Hostname)) as [ids|] eqn:Hh.
  - case_bool_decide as He; [rewrite lookup_delete|rewrite lookup_insert]; case_decide as E; subst;
      rewrite ?Hh; cbn; set_solver.
  - split; [|naive_solver]. intros H. split; [done|]. intros [<- _]. rewrite Hh in H. set_solver.
Qed.

Lemma unindexed_nonempty d ix : inner_nonempty ix → inner_nonempty (unindexed d ix).
Proof.
  intros Hne k ids. unfold unindexed. destruct (ix !! (d ⇝ Domain.Hostname)) as [ids'|]; [|apply Hne].
  case_bool_decide as He.
  - intros [_ H]%lookup_delete_Some. by eapply Hne.
  - intros [[_ <-]|[_ H]]%lookup_insert_Some; [done|by eapply Hne].
Qed.

Lemma index_insert_nonempty k id ix : inner_nonempty ix → inner_nonempty (Store.index_insert k id ix).
Proof.
  unfold Store.index_insert.
  intros Hne k' ids [[_ <-]|[_ H]]%lookup_insert_Some; [set_solver|by eapply Hne].
Qed.

Lemma wf_PutDomain d s : wf s → wf (Store.PutDomain d s).
Proof.
  intros Hs. unfold Store.PutDomain, Store.indexDomain.
  destruct (Store.domains s !! GetId d) as [prev|] eqn:Hp; rewrite ?unindexDomain_eq;
    revert Hs; solve_wf; try (by apply index_insert_nonempty; auto using unindexed_nonempty).
  - eapply set_index_put; [done|]. intros k id' _. rewrite unindexed_spec.
    assert (GetId prev = GetId d) as -> by auto. naive_solver.
  - eapply set_index_put; [done|]. naive_solver.
Qed.

Lemma wf_DeleteDomain id s : wf s → wf (Store.DeleteDomain id s).
Proof.
  unfold Store.DeleteDomain. destruct (Store.domains s !! id) as [prev|] eqn:Hp; [|done].
  rewrite unindexDomain_eq. solve_wf; [|by apply unindexed_nonempty].
  eapply set_index_delete; [done|done|]. intros k id'. rewrite unindexed_spec.
  assert (GetId prev = id) as -> by auto. done.
Qed.

(** KV, volumes, allocations. *)

Lemma wf_PutKV key v ev ex s : in_i64 ex → wf s → wf (Store.PutKV key v ev ex s).1.
Proof.
  intros Hex. unfold Store.PutKV. case_match; [done|]. cbn [fst]. solve_wf.
  intros k e [[<- <-]|[_ Hk]]%lookup_insert_Some; [done|eauto].
Qed.

Lemma wf_DeleteKV key ev s : wf s → wf (Store.DeleteKV key ev s).1.
Proof.
  unfold Store.DeleteKV. destruct (Store.kv s !! key); [|done]. destruct (_ && _); [done|]. cbn [fst]. solve_wf.
  intros k e [_ Hk]%lookup_delete_Some. eauto.
Qed.

Lemma wf_SetNetworkAllocation p e n c s : wf s → wf (Store.SetNetworkAllocation p e n c s).
Proof.
  unfold Store.SetNetworkAllocation. destruct (c =? ""); solve_wf.
  - intros k a [_ Ha]%lookup_delete_Some. auto.
  - intros k a [[<- <-]|[_ Ha]]%lookup_insert_Some; [done|auto].
Qed.

Lemma wf_SetVolumeLease id l s s' : wf s → Store.SetVolumeLease id l s = Ret s' → wf s'.
Proof.
  unfold Store.SetVolumeLease. destruct (Store.volumes s !! id) as [[v|]|] eqn:Hv; [| |by intros ? [= <-]].
  - intros Hs [= <-]. revert Hs; solve_wf. by eapply keyed_update.
  - done.
Qed.

Lemma observe_assignment_id a obs : GetId (Some (Store.observe_assignment a obs)) = GetId (Some a).
Proof. unfold Store.observe_assignment. by case_match. Qed.

Lemma observe_assignment_node a obs :
  Assignment.NodeId (Store.observe_assignment a obs) = Assignment.NodeId a.
Proof. unfold Store.observe_assignment. by case_match. Qed.

Lemma wf_setObserved node s r s' : wf s → Store.setObserved node s r = Ret s' → wf s'.
Proof.
  unfold Store.setObserved. destruct r as [id obs].
  destruct (Store.assignments s !! id) as [a|] eqn:Ha; [|by intros ? [= <-]].
  case_match; [by intros ? [= <-]|]. destruct a as [a|]; [|done].
  intros Hs [= <-]. revert Hs; solve_wf.
  - eapply keyed_update; [done|apply observe_assignment_id|done].
  - eapply set_index_update; [done| |done]. apply observe_assignment_node.
Qed.

Lemma wf_SetAssignmentObserved node obs s s' :
  wf s → Store.SetAssignmentObserved node obs s = Ret s' → wf s'.
Proof.
  intros Hs. apply (ofoldl_invariant wf); [|done]. intros. by eapply wf_setObserved.
Qed.

Lemma wf_touchToken s r s' : wf s → Store.touchToken s r = Ret s' → wf s'.
Proof.
  unfold Store.touchToken. destruct r as [id ms].
  destruct (Store.tokens s !! id) as [[tok|]|] eqn:Ht; [|done|by intros ? [= <-]].
  destruct (Store.used_before tok ms); [|by intros ? [= <-]].
  intros Hs [= <-]. revert Hs; solve_wf.
  - by eapply keyed_update.
  - by eapply unique_index_update.
Qed.

Lemma wf_TouchTokens lu s s' : wf s → Store.TouchTokens lu s = Ret s' → wf s'.
Proof. intros Hs. apply (ofoldl_invariant wf); [|done]. intros. by eapply wf_touchToken. Qed.

(** The rings. *)

Lemma ring_trim_last_n {A} cap (l : list A) :
  (0 ≤ cap)%Z → Store.ring_trim cap l = last_n (Z.to_nat cap) l.
Proof. intros. unfold Store.ring_trim, Store.ring_over, last_n. f_equal. lia. Qed.

Lemma length_ring_trim {A} cap (l : list A) :
  (0 ≤ cap)%Z → (Z.of_nat (length (Store.ring_trim cap l)) ≤ cap)%Z.
Proof. intros. rewrite ring_trim_last_n, length_last_n by done. lia. Qed.

Lemma events_append_loop evs s :
  Store.events (foldl Store.appendEvent s evs) = Store.events s ++ evs.
Proof.
  revert s. induction evs as [|e evs IH]; intros s; cbn [foldl]; [by rewrite app_nil_r|].
  rewrite IH. unfold Store.appendEvent, Store.touch. get_set. by rewrite <- app_assoc.
Qed.

Lemma events_AppendEvents evs s :
  Store.events (Store.AppendEvents evs s)
    = last_n (Z.to_nat eventRingCap) (Store.events s ++ evs).
Proof.
  unfold Store.AppendEvents. get_set. rewrite ring_trim_last_n by done.
  by rewrite events_append_loop.
Qed.

Lemma audit_append_loop es s :
  Store.audit (foldl (λ s e, s <| Store.audit ::= λ l, l ++ [e] |>) s es) = Store.audit s ++ es.
Proof.
  revert s. induction es as [|e es IH]; intros s; cbn [foldl]; [by rewrite app_nil_r|].
  rewrite IH. get_set. by rewrite <- app_assoc.
Qed.

Lemma audit_AppendAudit es s :
  Store.audit (Store.AppendAudit es s)
    = last_n (Z.to_nat auditRingCap) (Store.audit s ++ es).
Proof.
  unfold Store.AppendAudit, Store.touch. get_set. rewrite ring_trim_last_n by done.
  by rewrite audit_append_loop.
Qed.

Lemma wf_trim_events s :
  wf s → wf (s <| Store.events ::= Store.ring_trim eventRingCap |>).
Proof. solve_wf. by apply length_ring_trim. Qed.

Lemma wf_AppendEvents evs s : wf s → wf (Store.AppendEvents evs s).
Proof.
  intros Hs. apply wf_trim_events in Hs. unfold Store.AppendEvents.
  apply (foldl_invariant (λ s, wf (s <| Store.events ::= Store.ring_trim eventRingCap |>))); [done|].
  intros y e _ []. unfold Store.appendEvent, Store.touch; split; get_set; get_set_hyps; auto.
  by apply length_ring_trim.
Qed.

Lemma wf_AppendAudit es s : wf s → wf (Store.AppendAudit es s).
Proof.
  intros Hs. unfold Store.AppendAudit.
  assert (wf ((foldl (λ s e, s <| Store.audit ::= λ l, l ++ [e] |>) s es)
              <| Store.audit ::= Store.ring_trim auditRingCap |>)) as Hl; [|revert Hl; solve_wf].
  apply (foldl_invariant (λ s, wf (s <| Store.audit ::= Store.ring_trim auditRingCap |>))).
  - revert Hs; solve_wf. by apply length_ring_trim.
  - intros y e _ []. split; get_set; get_set_hyps; auto. by apply length_ring_trim.
Qed.

(** The applied-request ring. *)

Lemma foldl_difference {A} (f : A → string) (l : list A) (S : gset string) :
  foldl (λ S r, S ∖ {[f r]}) S l = S ∖ list_to_set (f <$> l).
Proof.
  revert S. induction l as [|a l IH]; intros S; cbn; [set_solver|]. rewrite IH. set_solver.
Qed.

Lemma list_to_set_drop n (l : list string) :
  NoDup l → (list_to_set l : gset string) ∖ list_to_set (take n l) = list_to_set (drop n l).
Proof.
  intros Hnd. rewrite <- (take_drop n l) in Hnd. apply NoDup_app in Hnd as (_ & Hdisj & _).
  assert (list_to_set l = list_to_set (take n l) ∪ list_to_set (drop n l) :> gset string) as ->.
  { by rewrite <- list_to_set_app_L, take_drop. }
  apply set_eq. intros x. rewrite elem_of_difference, elem_of_union, !elem_of_list_to_set.
  split; [naive_solver|]. intros Hx. split; [by right|]. intros Hx'. by eapply Hdisj.
Qed.

Lemma applied_ok_mark ring ids r :
  r ⇝ AppliedRequest.RequestId ∉ ids → applied_ok ring ids →
  let ring' := ring ++ [r] in
  let over := Store.ring_over appliedRingCap ring' in
  applied_ok (drop over ring')
    (foldl (λ S r, S ∖ {[r ⇝ AppliedRequest.RequestId]}) ({[r ⇝ AppliedRequest.RequestId]} ∪ ids)
       (take over ring')).
Proof.
  intros Hr [-> Hnd Hcap]; cbn.
  assert (NoDup (get AppliedRequest.RequestId <$> ring ++ [r])) as Hnd'.
  { rewrite fmap_app. apply NoDup_app. split; [done|]. split; [|apply NoDup_singleton].
    intros x Hx ->%list_elem_of_singleton. apply Hr. by apply elem_of_list_to_set. }
  rewrite foldl_difference. split.
  - rewrite fmap_take, fmap_drop, <- list_to_set_drop by done. f_equal.
    rewrite fmap_app, list_to_set_app_L. set_solver.
  - rewrite fmap_drop. rewrite <- (take_drop (Store.ring_over appliedRingCap (ring ++ [r]))) in Hnd'.
    by apply NoDup_app in Hnd' as (_ & _ & ?).
  - by apply (length_ring_trim appliedRingCap (ring ++ [r])).
Qed.

Lemma wf_MarkApplied rid ix s : wf s → wf (Store.MarkApplied rid ix s).1.
Proof.
  unfold Store.MarkApplied. case_bool_decide as Hr; [done|]. cbn [fst]. solve_wf.
  by apply (applied_ok_mark _ _ (Some (AppliedRequest.mk rid ix))).
Qed.

End preservation.

#[export] Hint Resolve wf_New wf_SetOrg wf_SetClusterKeyMaterial wf_PutProject wf_PutApp wf_DeleteApp wf_PutEnvironment wf_PutRelease wf_DeleteRelease wf_PutDeployment wf_PutBuild wf_PutNode wf_DeleteNode wf_PutJoinToken wf_SetEnvVars wf_PutDNSProvider wf_DeleteDNSProvider wf_PutVolume wf_DeleteVolume wf_PutVolumeSnapshot wf_DeleteVolumeSnapshot wf_SetBackupConfig wf_PutBackupRecord wf_SetServiceVIP wf_PutJob wf_PutAlertRule wf_DeleteAlertRule wf_PutNotificationChannel wf_DeleteNotificationChannel wf_DeleteEnvironment wf_PutUser wf_DeleteUser wf_PutToken wf_DeleteToken wf_DeleteProject wf_PutProjectMember wf_DeleteProjectMember wf_putAssignmentLocked wf_PutAssignments wf_deleteAssignment wf_DeleteAssignments wf_PutDomain wf_DeleteDomain wf_PutKV wf_DeleteKV wf_SetNetworkAllocation wf_AppendEvents wf_AppendAudit wf_MarkApplied : store_wf.
