(* ===== verification/StateEquiv.v ===== *)
(** Replica equivalence: two stores that differ only in the version counter, the
    watch hub, and inner maps that are empty in one and absent in the other.  A
    node that was restored from a snapshot is equivalent to one that was not, and
    every mutating method takes equivalent stores to equivalent stores, whatever
    the map iteration orders of the two nodes. *)
From S2P Require Import Prelude Api Watch State StateInv.

(** Nested maps that read the same. *)
Definition nested_eq {M : Type} `{Empty M} (m1 m2 : gmap string M) : Prop :=
  ∀ k, default ∅ (m1 !! k) = default ∅ (m2 !! k).

#[export] Instance nested_eq_equivalence {M} `{Empty M} : Equivalence (nested_eq (M := M)).
Proof.
  split; [by intros m k|by intros m1 m2 H12 k|]. intros m1 m2 m3 H12 H23 k. by rewrite (H12 k), H23.
Qed.

Lemma nested_eq_insert {M} `{Empty M} (m1 m2 : gmap string M) k x :
  nested_eq m1 m2 → nested_eq (<[k := x]> m1) (<[k := x]> m2).
Proof. intros Hm k'. rewrite !lookup_insert. by case_decide. Qed.

Lemma nested_eq_delete {M} `{Empty M} (m1 m2 : gmap string M) k :
  nested_eq m1 m2 → nested_eq (delete k m1) (delete k m2).
Proof. intros Hm k'. rewrite !lookup_delete. by case_decide. Qed.

Lemma nested_eq_index_delete m1 m2 k id :
  nested_eq m1 m2 → nested_eq (Store.index_delete k id m1) (Store.index_delete k id m2).
Proof.
  intros Hm k'. apply set_eq. intros x. by rewrite !index_delete_spec, (Hm k').
Qed.

Lemma nested_eq_index_insert m1 m2 k id :
  nested_eq m1 m2 → nested_eq (Store.index_insert k id m1) (Store.index_insert k id m2).
Proof.
  intros Hm k'. apply set_eq. intros x. by rewrite !index_insert_spec, (Hm k').
Qed.

Record store_equiv (s1 s2 : Store.t) : Prop := {
  eqv_org : Store.org s1 = Store.org s2;
  eqv_clusterKey : Store.clusterKey s1 = Store.clusterKey s2;
  eqv_users : Store.users s1 = Store.users s2;
  eqv_usersByEmail : Store.usersByEmail s1 = Store.usersByEmail s2;
  eqv_projects : Store.projects s1 = Store.projects s2;
  eqv_apps : Store.apps s1 = Store.apps s2;
  eqv_environments : Store.environments s1 = Store.environments s2;
  eqv_releases : Store.releases s1 = Store.releases s2;
  eqv_deployments : Store.deployments s1 = Store.deployments s2;
  eqv_builds : Store.builds s1 = Store.builds s2;
  eqv_nodes : Store.nodes s1 = Store.nodes s2;
  eqv_joinTokens : Store.joinTokens s1 = Store.joinTokens s2;
  eqv_assignments : Store.assignments s1 = Store.assignments s2;
  eqv_tokens : Store.tokens s1 = Store.tokens s2;
  eqv_tokensByHash : Store.tokensByHash s1 = Store.tokensByHash s2;
  eqv_domains : Store.domains s1 = Store.domains s2;
  eqv_domainsByHostname : Store.domainsByHostname s1 = Store.domainsByHostname s2;
  eqv_kv : Store.kv s1 = Store.kv s2;
  eqv_dnsProviders : Store.dnsProviders s1 = Store.dnsProviders s2;
  eqv_volumes : Store.volumes s1 = Store.volumes s2;
  eqv_volumeSnapshots : Store.volumeSnapshots s1 = Store.volumeSnapshots s2;
  eqv_backupConfig : Store.backupConfig s1 = Store.backupConfig s2;
  eqv_backupRecords : Store.backupRecords s1 = Store.backupRecords s2;
  eqv_networkAllocs : Store.networkAllocs s1 = Store.networkAllocs s2;
  eqv_serviceVIPs : Store.serviceVIPs s1 = Store.serviceVIPs s2;
  eqv_jobs : Store.jobs s1 = Store.jobs s2;
  eqv_alertRules : Store.alertRules s1 = Store.alertRules s2;
  eqv_notifyChannels : Store.notifyChannels s1 = Store.notifyChannels s2;
  eqv_events : Store.events s1 = Store.events s2;
  eqv_audit : Store.audit s1 = Store.audit s2;
  eqv_appliedRequests : Store.appliedRequests s1 = Store.appliedRequests s2;
  eqv_appliedSet : Store.appliedSet s1 = Store.appliedSet s2;
  eqv_projectMembers : nested_eq (Store.projectMembers s1) (Store.projectMembers s2);
  eqv_envVars : nested_eq (Store.envVars s1) (Store.envVars s2);
  eqv_assignmentsByNode : nested_eq (Store.assignmentsByNode s1) (Store.assignmentsByNode s2)
}.

#[export] Instance store_equiv_equivalence : Equivalence store_equiv.
Proof.
  split.
  - by split.
  - intros s1 s2 []. by split.
  - intros s1 s2 s3 [] []. split; etransitivity; eauto.
Qed.

#[export] Instance store_equiv_equiv : Equiv Store.t := store_equiv.

(** Rewrites the fields of the first store into those of the second. *)
Ltac rewrite_fields E :=
  rewrite ?(eqv_org _ _ E),
    ?(eqv_clusterKey _ _ E),
    ?(eqv_users _ _ E),
    ?(eqv_usersByEmail _ _ E),
    ?(eqv_projects _ _ E),
    ?(eqv_apps _ _ E),
    ?(eqv_environments _ _ E),
    ?(eqv_releases _ _ E),
    ?(eqv_deployments _ _ E),
    ?(eqv_builds _ _ E),
    ?(eqv_nodes _ _ E),
    ?(eqv_joinTokens _ _ E),
    ?(eqv_assignments _ _ E),
    ?(eqv_tokens _ _ E),
    ?(eqv_tokensByHash _ _ E),
    ?(eqv_domains _ _ E),
    ?(eqv_domainsByHostname _ _ E),
    ?(eqv_kv _ _ E),
    ?(eqv_dnsProviders _ _ E),
    ?(eqv_volumes _ _ E),
    ?(eqv_volumeSnapshots _ _ E),
    ?(eqv_backupConfig _ _ E),
    ?(eqv_backupRecords _ _ E),
    ?(eqv_networkAllocs _ _ E),
    ?(eqv_serviceVIPs _ _ E),
    ?(eqv_jobs _ _ E),
    ?(eqv_alertRules _ _ E),
    ?(eqv_notifyChannels _ _ E),
    ?(eqv_events _ _ E),
    ?(eqv_audit _ _ E),
    ?(eqv_appliedRequests _ _ E),
    ?(eqv_appliedSet _ _ E).

Ltac solve_equiv E :=
  unfold Store.touch; split; get_set; rewrite_fields E;
  first [done|apply E|auto using nested_eq_insert, nested_eq_delete, nested_eq_index_delete,
    nested_eq_index_insert, eqv_projectMembers, eqv_envVars, eqv_assignmentsByNode].

(** Outcomes of equivalent runs. *)
Definition outcome_equiv (o1 o2 : outcome Store.t) : Prop :=
  match o1, o2 with
  | Ret s1, Ret s2 => s1 ≡ s2
  | Panic, Panic => True
  | _, _ => False
  end.

Lemma touch_equiv k1 i1 k2 i2 s1 s2 : s1 ≡ s2 → Store.touch k1 i1 s1 ≡ Store.touch k2 i2 s2.
Proof. intros E. solve_equiv E. Qed.

(** ** Methods *)

Section congruence.
Context {RO1 RO2 : RangeOrder} {RO1k : RangeOrderOk RO1} {RO2k : RangeOrderOk RO2}.
Context {TL : TimestampLib}.
Implicit Type s : Store.t.

Lemma SetOrg_equiv o s1 s2 : s1 ≡ s2 → Store.SetOrg o s1 ≡ Store.SetOrg o s2.
Proof. intros E. unfold Store.SetOrg. solve_equiv E. Qed.

Lemma SetClusterKeyMaterial_equiv m s1 s2 : s1 ≡ s2 → Store.SetClusterKeyMaterial m s1 ≡ Store.SetClusterKeyMaterial m s2.
Proof. intros E. unfold Store.SetClusterKeyMaterial. solve_equiv E. Qed.

Lemma PutUser_equiv u s1 s2 : s1 ≡ s2 → Store.PutUser u s1 ≡ Store.PutUser u s2.
Proof. intros E. unfold Store.PutUser. rewrite_fields E. destruct (Store.users s2 !! GetId u); solve_equiv E. Qed.

Lemma DeleteUser_equiv id s1 s2 : s1 ≡ s2 → Store.DeleteUser id s1 ≡ Store.DeleteUser id s2.
Proof. intros E. unfold Store.DeleteUser. rewrite_fields E. destruct (Store.users s2 !! id); [|done]. solve_equiv E. Qed.

Lemma PutProject_equiv p s1 s2 : s1 ≡ s2 → Store.PutProject p s1 ≡ Store.PutProject p s2.
Proof. intros E. unfold Store.PutProject. solve_equiv E. Qed.

Lemma DeleteProject_equiv id s1 s2 : s1 ≡ s2 → Store.DeleteProject id s1 ≡ Store.DeleteProject id s2.
Proof. intros E. unfold Store.DeleteProject. rewrite_fields E. destruct (Store.projects s2 !! id); [|done]. solve_equiv E. Qed.

Lemma PutApp_equiv a s1 s2 : s1 ≡ s2 → Store.PutApp a s1 ≡ Store.PutApp a s2.
Proof. intros E. unfold Store.PutApp. solve_equiv E. Qed.

Lemma DeleteApp_equiv id s1 s2 : s1 ≡ s2 → Store.DeleteApp id s1 ≡ Store.DeleteApp id s2.
Proof. intros E. unfold Store.DeleteApp. rewrite_fields E. destruct (Store.apps s2 !! id); [|done]. solve_equiv E. Qed.

Lemma PutEnvironment_equiv e s1 s2 : s1 ≡ s2 → Store.PutEnvironment e s1 ≡ Store.PutEnvironment e s2.
Proof. intros E. unfold Store.PutEnvironment. solve_equiv E. Qed.

Lemma DeleteEnvironment_equiv id s1 s2 : s1 ≡ s2 → Store.DeleteEnvironment id s1 ≡ Store.DeleteEnvironment id s2.
Proof. intros E. unfold Store.DeleteEnvironment. rewrite_fields E. destruct (Store.environments s2 !! id); [|done]. solve_equiv E. Qed.

Lemma PutRelease_equiv r s1 s2 : s1 ≡ s2 → Store.PutRelease r s1 ≡ Store.PutRelease r s2.
Proof. intros E. unfold Store.PutRelease. solve_equiv E. Qed.

Lemma DeleteRelease_equiv id s1 s2 : s1 ≡ s2 → Store.DeleteRelease id s1 ≡ Store.DeleteRelease id s2.
Proof. intros E. unfold Store.DeleteRelease. solve_equiv E. Qed.

Lemma PutDeployment_equiv d s1 s2 : s1 ≡ s2 → Store.PutDeployment d s1 ≡ Store.PutDeployment d s2.
Proof. intros E. unfold Store.PutDeployment. solve_equiv E. Qed.

Lemma PutBuild_equiv b s1 s2 : s1 ≡ s2 → Store.PutBuild b s1 ≡ Store.PutBuild b s2.
Proof. intros E. unfold Store.PutBuild. solve_equiv E. Qed.

Lemma PutNode_equiv n s1 s2 : s1 ≡ s2 → Store.PutNode n s1 ≡ Store.PutNode n s2.
Proof. intros E. unfold Store.PutNode. solve_equiv E. Qed.

Lemma DeleteNode_equiv id s1 s2 : s1 ≡ s2 → Store.DeleteNode id s1 ≡ Store.DeleteNode id s2.
Proof. intros E. unfold Store.DeleteNode. rewrite_fields E. destruct (Store.nodes s2 !! id); [|done]. solve_equiv E. Qed.

Lemma PutJoinToken_equiv k s1 s2 : s1 ≡ s2 → Store.PutJoinToken k s1 ≡ Store.PutJoinToken k s2.
Proof. intros E. unfold Store.PutJoinToken. solve_equiv E. Qed.

Lemma PutToken_equiv k s1 s2 : s1 ≡ s2 → Store.PutToken k s1 ≡ Store.PutToken k s2.
Proof. intros E. unfold Store.PutToken. rewrite_fields E. destruct (Store.tokens s2 !! GetId k); solve_equiv E. Qed.

Lemma DeleteToken_equiv id s1 s2 : s1 ≡ s2 → Store.DeleteToken id s1 ≡ Store.DeleteToken id s2.
Proof. intros E. unfold Store.DeleteToken. rewrite_fields E. destruct (Store.tokens s2 !! id); [|done]. solve_equiv E. Qed.

Lemma PutDNSProvider_equiv p s1 s2 : s1 ≡ s2 → Store.PutDNSProvider p s1 ≡ Store.PutDNSProvider p s2.
Proof. intros E. unfold Store.PutDNSProvider. solve_equiv E. Qed.

Lemma DeleteDNSProvider_equiv id s1 s2 : s1 ≡ s2 → Store.DeleteDNSProvider id s1 ≡ Store.DeleteDNSProvider id s2.
Proof. intros E. unfold Store.DeleteDNSProvider. rewrite_fields E. destruct (Store.dnsProviders s2 !! id); [|done]. solve_equiv E. Qed.

Lemma PutVolume_equiv v s1 s2 : s1 ≡ s2 → Store.PutVolume v s1 ≡ Store.PutVolume v s2.
Proof. intros E. unfold Store.PutVolume. solve_equiv E. Qed.

Lemma DeleteVolume_equiv id s1 s2 : s1 ≡ s2 → Store.DeleteVolume id s1 ≡ Store.DeleteVolume id s2.
Proof. intros E. unfold Store.DeleteVolume. rewrite_fields E. destruct (Store.volumes s2 !! id); [|done]. solve_equiv E. Qed.

Lemma PutVolumeSnapshot_equiv v s1 s2 : s1 ≡ s2 → Store.PutVolumeSnapshot v s1 ≡ Store.PutVolumeSnapshot v s2.
Proof. intros E. unfold Store.PutVolumeSnapshot. solve_equiv E. Qed.

Lemma DeleteVolumeSnapshot_equiv id s1 s2 : s1 ≡ s2 → Store.DeleteVolumeSnapshot id s1 ≡ Store.DeleteVolumeSnapshot id s2.
Proof. intros E. unfold Store.DeleteVolumeSnapshot. rewrite_fields E. destruct (Store.volumeSnapshots s2 !! id); [|done]. solve_equiv E. Qed.

Lemma SetBackupConfig_equiv c s1 s2 : s1 ≡ s2 → Store.SetBackupConfig c s1 ≡ Store.SetBackupConfig c s2.
Proof. intros E. unfold Store.SetBackupConfig. solve_equiv E. Qed.

Lemma PutBackupRecord_equiv r s1 s2 : s1 ≡ s2 → Store.PutBackupRecord r s1 ≡ Store.PutBackupRecord r s2.
Proof. intros E. unfold Store.PutBackupRecord. solve_equiv E. Qed.

Lemma PutJob_equiv j s1 s2 : s1 ≡ s2 → Store.PutJob j s1 ≡ Store.PutJob j s2.
Proof. intros E. unfold Store.PutJob. solve_equiv E. Qed.

Lemma PutAlertRule_equiv r s1 s2 : s1 ≡ s2 → Store.PutAlertRule r s1 ≡ Store.PutAlertRule r s2.
Proof. intros E. unfold Store.PutAlertRule. solve_equiv E. Qed.

Lemma DeleteAlertRule_equiv id s1 s2 : s1 ≡ s2 → Store.DeleteAlertRule id s1 ≡ Store.DeleteAlertRule id s2.
Proof. intros E. unfold Store.DeleteAlertRule. rewrite_fields E. destruct (Store.alertRules s2 !! id); [|done]. solve_equiv E. Qed.

Lemma PutNotificationChannel_equiv c s1 s2 : s1 ≡ s2 → Store.PutNotificationChannel c s1 ≡ Store.PutNotificationChannel c s2.
Proof. intros E. unfold Store.PutNotificationChannel. solve_equiv E. Qed.

Lemma DeleteNotificationChannel_equiv id s1 s2 : s1 ≡ s2 → Store.DeleteNotificationChannel id s1 ≡ Store.DeleteNotificationChannel id s2.
Proof. intros E. unfold Store.DeleteNotificationChannel. rewrite_fields E. destruct (Store.notifyChannels s2 !! id); [|done]. solve_equiv E. Qed.

Lemma SetServiceVIP_equiv e v s1 s2 : s1 ≡ s2 → Store.SetServiceVIP e v s1 ≡ Store.SetServiceVIP e v s2.
Proof. intros E. unfold Store.SetServiceVIP. destruct (v =? ""); solve_equiv E. Qed.

Lemma SetNetworkAllocation_equiv p e n c s1 s2 :
  s1 ≡ s2 → Store.SetNetworkAllocation p e n c s1 ≡ Store.SetNetworkAllocation p e n c s2.
Proof. intros E. unfold Store.SetNetworkAllocation. destruct (c =? ""); solve_equiv E. Qed.

Lemma PutProjectMember_equiv m s1 s2 : s1 ≡ s2 → Store.PutProjectMember m s1 ≡ Store.PutProjectMember m s2.
Proof.
  intros E. unfold Store.PutProjectMember.
  rewrite (eqv_projectMembers _ _ E (m ⇝ ProjectMember.ProjectId)). solve_equiv E.
Qed.

(** DeleteProjectMember, whether the inner map is empty or absent. *)
Lemma DeleteProjectMember_eq p u s :
  Store.DeleteProjectMember p u s =
    match default ∅ (Store.projectMembers s !! p) !! u with
    | Some _ =>
      Store.touch KindProjectMember (p +:+ "/" +:+ u)
        (s <| Store.projectMembers ::=
           <[p := delete u (default ∅ (Store.projectMembers s !! p))]> |>)
    | None => s
    end.
Proof.
  unfold Store.DeleteProjectMember. destruct (Store.projectMembers s !! p); cbn; [done|].
  by rewrite lookup_empty.
Qed.

Lemma DeleteProjectMember_equiv p u s1 s2 :
  s1 ≡ s2 → Store.DeleteProjectMember p u s1 ≡ Store.DeleteProjectMember p u s2.
Proof.
  intros E. rewrite !DeleteProjectMember_eq, (eqv_projectMembers _ _ E p).
  destruct (default ∅ (Store.projectMembers s2 !! p) !! u); [|done]. solve_equiv E.
Qed.

(** The loops of SetEnvVars over the same map in two orders. *)
Lemma set_loop_spec (RO : RangeOrder) (ROk : RangeOrderOk RO) {A} (m vars : gmap string A) :
  foldl (λ vars '(k, v), <[k := v]> vars) vars (range m) = m ∪ vars.
Proof.
  assert (∀ l, NoDup l.*1 → foldl (λ vars '(k, v), <[k := v]> vars) vars l = list_to_map l ∪ vars) as Hl.
  { intros l. revert vars. induction l as [|[k v] l IH]; intros vars Hnd; cbn; [by rewrite (left_id_L ∅ _)|].
    apply NoDup_cons in Hnd as [Hk Hnd]. rewrite IH by done.
    rewrite <- insert_union_l, insert_union_r; [done|]. by apply not_elem_of_list_to_map_1. }
  rewrite Hl by apply NoDup_fst_range. by rewrite list_to_map_range.
Qed.

Lemma SetEnvVars_equiv envID st un s1 s2 :
  s1 ≡ s2 → Store.SetEnvVars (RO := RO1) envID st un s1 ≡ Store.SetEnvVars (RO := RO2) envID st un s2.
Proof.
  intros E. unfold Store.SetEnvVars. rewrite !set_loop_spec by done.
  rewrite (eqv_envVars _ _ E envID). solve_equiv E.
Qed.

(** ** Assignments *)

Lemma putAssignmentLocked_equiv a s1 s2 :
  s1 ≡ s2 → Store.putAssignmentLocked a s1 ≡ Store.putAssignmentLocked a s2.
Proof.
  intros E. unfold Store.putAssignmentLocked. rewrite_fields E.
  destruct (Store.assignments s2 !! GetId a); [destruct (negb _)|]; solve_equiv E.
Qed.

Lemma foldl_equiv {A} (f : Store.t → A → Store.t) l s1 s2 :
  (∀ s1 s2 a, s1 ≡ s2 → f s1 a ≡ f s2 a) → s1 ≡ s2 → foldl f s1 l ≡ foldl f s2 l.
Proof.
  intros Hf. revert s1 s2. induction l as [|a l IH]; intros s1 s2 E; cbn; [done|].
  apply IH. by apply Hf.
Qed.

Lemma PutAssignments_equiv as_ s1 s2 : s1 ≡ s2 → Store.PutAssignments as_ s1 ≡ Store.PutAssignments as_ s2.
Proof. apply foldl_equiv. intros. by apply putAssignmentLocked_equiv. Qed.

Lemma deleteAssignment_equiv id s1 s2 :
  s1 ≡ s2 → Store.deleteAssignment s1 id ≡ Store.deleteAssignment s2 id.
Proof.
  intros E. unfold Store.deleteAssignment. rewrite_fields E.
  destruct (Store.assignments s2 !! id); [|done]. solve_equiv E.
Qed.

Lemma DeleteAssignments_equiv ids s1 s2 :
  s1 ≡ s2 → Store.DeleteAssignments ids s1 ≡ Store.DeleteAssignments ids s2.
Proof. apply foldl_equiv. intros. by apply deleteAssignment_equiv. Qed.

Lemma setObserved_equiv node r s1 s2 :
  s1 ≡ s2 → outcome_equiv (Store.setObserved node s1 r) (Store.setObserved node s2 r).
Proof.
  intros E. unfold Store.setObserved. destruct r as [id obs]. rewrite_fields E.
  destruct (Store.assignments s2 !! id) as [a|]; [|done]. destruct (negb _); [done|].
  destruct a as [a|]; [|done]. cbn. solve_equiv E.
Qed.

Lemma touchToken_equiv r s1 s2 :
  s1 ≡ s2 → outcome_equiv (Store.touchToken s1 r) (Store.touchToken s2 r).
Proof.
  intros E. unfold Store.touchToken. destruct r as [id ms]. rewrite_fields E.
  destruct (Store.tokens s2 !! id) as [[tok|]|]; [|done|done].
  destruct (Store.used_before tok ms); [|done]. cbn. solve_equiv E.
Qed.

(** ** Reports in any order *)

#[local] Instance outcome_equiv_preorder : PreOrder outcome_equiv.
Proof.
  split.
  - intros [s|]; cbn; [reflexivity|done].
  - intros [s1|] [s2|] [s3|]; cbn; try done. by intros -> ->.
Qed.

Lemma ret_equiv s1 s2 : s1 ≡ s2 → outcome_equiv (Ret s1) (Ret s2).
Proof. done. Qed.

Lemma bind_equiv (f : Store.t → outcome Store.t) o1 o2 :
  (∀ s1 s2, s1 ≡ s2 → outcome_equiv (f s1) (f s2)) →
  outcome_equiv o1 o2 → outcome_equiv (o1 ≫= f) (o2 ≫= f).
Proof. intros Hf. destruct o1, o2; cbn; try done. apply Hf. Qed.

(** A loop over a map, started in equivalent stores, in two orders. *)
Lemma ofoldl_range_equiv {V} (f : Store.t → string * V → outcome Store.t) (m : gmap string V) s1 s2 :
  (∀ s1 s2 r, s1 ≡ s2 → outcome_equiv (f s1 r) (f s2 r)) →
  (∀ s k1 v1 k2 v2, k1 ≠ k2 →
     outcome_equiv (s' ← f s (k1, v1); f s' (k2, v2)) (s' ← f s (k2, v2); f s' (k1, v1))) →
  s1 ≡ s2 → outcome_equiv (ofoldl f s1 (range (RangeOrder := RO1) m))
                          (ofoldl f s2 (range (RangeOrder := RO2) m)).
Proof.
  intros Hf Hcomm E. unfold ofoldl.
  transitivity (foldl (λ o a, s ← o; f s a) (Ret s2) (range (RangeOrder := RO1) m)).
  - assert (outcome_equiv (Ret s1) (Ret s2)) as Ho by done. revert Ho.
    generalize (Ret s1) (Ret s2). induction (range m) as [|a l IH]; intros o1 o2 Ho; [done|].
    cbn [foldl]. apply IH. apply bind_equiv; [|done]. intros. by apply Hf.
  - apply (foldl_perm_rel outcome_equiv).
    + intros o1 o2 r. apply bind_equiv. intros. by apply Hf.
    + apply NoDup_range.
    + intros [s|] [k1 v1] [k2 v2] H1 H2 Hne; [|done]. apply Hcomm. intros ->. apply Hne.
      apply elem_of_range in H1, H2. congruence.
    + by rewrite !range_perm.
Qed.

(** What one entry does to the object it names: nothing, a write, or a panic. *)
Definition observed_upd (node : string) (cur : option (option Assignment.t))
    (obs : option AssignmentObserved.t) : outcome (option Assignment.t) :=
  match cur with
  | None => Ret None
  | Some a =>
    if negb (a ⇝ Assignment.NodeId =? node) then Ret None
    else match a with None => Panic | Some a => Ret (Some (Store.observe_assignment a obs)) end
  end.

Definition touched_upd (cur : option (option Token.t)) (ms : Z) : outcome (option Token.t) :=
  match cur with
  | None => Ret None
  | Some None => Panic
  | Some (Some tok) =>
    if Store.used_before tok ms
    then Ret (Some (tok <| Token.LastUsedAt := Some (Store.timestampFromUnixMs ms) |>))
    else Ret None
  end.

Lemma setObserved_eq node s id obs :
  Store.setObserved node s (id, obs) =
    (w ← observed_upd node (Store.assignments s !! id) obs;
     Ret match w with
         | None => s
         | Some a => Store.touch KindAssignment id (s <| Store.assignments ::= <[id := Some a]> |>)
         end).
Proof.
  unfold Store.setObserved, observed_upd. destruct (Store.assignments s !! id) as [a|]; [|done].
  destruct (negb _); [done|]. by destruct a.
Qed.

Lemma touchToken_eq s id ms :
  Store.touchToken s (id, ms) =
    (w ← touched_upd (Store.tokens s !! id) ms;
     Ret match w with
         | None => s
         | Some tok => Store.touch KindToken id (s <| Store.tokens ::= <[id := Some tok]> |>)
         end).
Proof.
  unfold Store.touchToken, touched_upd. destruct (Store.tokens s !! id) as [[tok|]|]; [|done|done].
  by destruct (Store.used_before tok ms).
Qed.

(** Entries of two different keys commute up to equivalence. *)
Ltac solve_upd_comm L E1 E2 :=
  rewrite !L, E1, E2; unfold mbind, outcome_bind; cbn [obind]; rewrite ?L;
  unfold Store.touch; get_set; rewrite ?lookup_insert_ne by done; rewrite ?E1, ?E2;
  unfold mbind, outcome_bind; cbn [obind];
  first [exact I|apply ret_equiv; split; get_set; first [reflexivity|by rewrite insert_insert_ne]].

Lemma setObserved_comm node s k1 v1 k2 v2 :
  k1 ≠ k2 →
  outcome_equiv (s' ← Store.setObserved node s (k1, v1); Store.setObserved node s' (k2, v2))
                (s' ← Store.setObserved node s (k2, v2); Store.setObserved node s' (k1, v1)).
Proof.
  intros Hne.
  destruct (observed_upd node (Store.assignments s !! k1) v1) as [[a1|]|] eqn:E1,
    (observed_upd node (Store.assignments s !! k2) v2) as [[a2|]|] eqn:E2; solve_upd_comm setObserved_eq E1 E2.
Qed.

Lemma touchToken_comm s k1 v1 k2 v2 :
  k1 ≠ k2 →
  outcome_equiv (s' ← Store.touchToken s (k1, v1); Store.touchToken s' (k2, v2))
                (s' ← Store.touchToken s (k2, v2); Store.touchToken s' (k1, v1)).
Proof.
  intros Hne.
  destruct (touched_upd (Store.tokens s !! k1) v1) as [[t1|]|] eqn:E1,
    (touched_upd (Store.tokens s !! k2) v2) as [[t2|]|] eqn:E2; solve_upd_comm touchToken_eq E1 E2.
Qed.

Lemma SetAssignmentObserved_equiv node obs s1 s2 :
  s1 ≡ s2 → outcome_equiv (Store.SetAssignmentObserved (RO := RO1) node obs s1)
                          (Store.SetAssignmentObserved (RO := RO2) node obs s2).
Proof.
  apply ofoldl_range_equiv; [intros; by apply setObserved_equiv|intros; by apply setObserved_comm].
Qed.

Lemma TouchTokens_equiv lu s1 s2 :
  s1 ≡ s2 → outcome_equiv (Store.TouchTokens (RO := RO1) lu s1) (Store.TouchTokens (RO := RO2) lu s2).
Proof.
  apply ofoldl_range_equiv; [intros; by apply touchToken_equiv|intros; by apply touchToken_comm].
Qed.

(** ** Domains, KV, volumes, rings *)

Lemma PutDomain_equiv d s1 s2 : s1 ≡ s2 → Store.PutDomain d s1 ≡ Store.PutDomain d s2.
Proof.
  intros E. unfold Store.PutDomain, Store.indexDomain. rewrite_fields E.
  destruct (Store.domains s2 !! GetId d); rewrite ?unindexDomain_eq; solve_equiv E.
Qed.

Lemma DeleteDomain_equiv id s1 s2 : s1 ≡ s2 → Store.DeleteDomain id s1 ≡ Store.DeleteDomain id s2.
Proof.
  intros E. unfold Store.DeleteDomain. rewrite_fields E.
  destruct (Store.domains s2 !! id); [|done]. rewrite !unindexDomain_eq. solve_equiv E.
Qed.

Lemma PutKV_equiv k v ev ex s1 s2 :
  s1 ≡ s2 → (Store.PutKV k v ev ex s1).1 ≡ (Store.PutKV k v ev ex s2).1
            ∧ (Store.PutKV k v ev ex s1).2 = (Store.PutKV k v ev ex s2).2.
Proof.
  intros E. unfold Store.PutKV. rewrite_fields E. destruct (_ && _); [done|].
  split; cbn [fst snd]; [solve_equiv E|done].
Qed.

Lemma DeleteKV_equiv k ev s1 s2 :
  s1 ≡ s2 → (Store.DeleteKV k ev s1).1 ≡ (Store.DeleteKV k ev s2).1
            ∧ (Store.DeleteKV k ev s1).2 = (Store.DeleteKV k ev s2).2.
Proof.
  intros E. unfold Store.DeleteKV. rewrite_fields E. destruct (Store.kv s2 !! k); [|done].
  destruct (_ && _); [done|]. split; cbn [fst snd]; [solve_equiv E|done].
Qed.

Lemma SetVolumeLease_equiv id l s1 s2 :
  s1 ≡ s2 → outcome_equiv (Store.SetVolumeLease id l s1) (Store.SetVolumeLease id l s2).
Proof.
  intros E. unfold Store.SetVolumeLease. rewrite_fields E.
  destruct (Store.volumes s2 !! id) as [[v|]|]; [|done|done]. cbn. solve_equiv E.
Qed.

Lemma AppendEvents_equiv evs s1 s2 : s1 ≡ s2 → Store.AppendEvents evs s1 ≡ Store.AppendEvents evs s2.
Proof.
  intros E. unfold Store.AppendEvents.
  assert (foldl Store.appendEvent s1 evs ≡ foldl Store.appendEvent s2 evs) as E'.
  { apply foldl_equiv; [|done]. intros t1 t2 e Et. unfold Store.appendEvent. solve_equiv Et. }
  solve_equiv E'.
Qed.

Lemma AppendAudit_equiv es s1 s2 : s1 ≡ s2 → Store.AppendAudit es s1 ≡ Store.AppendAudit es s2.
Proof.
  intros E. unfold Store.AppendAudit.
  assert (foldl (λ s e, s <| Store.audit ::= λ l, l ++ [e] |>) s1 es
          ≡ foldl (λ s e, s <| Store.audit ::= λ l, l ++ [e] |>) s2 es) as E'.
  { apply foldl_equiv; [|done]. intros t1 t2 e Et. solve_equiv Et. }
  solve_equiv E'.
Qed.

Lemma MarkApplied_equiv rid ix s1 s2 :
  s1 ≡ s2 → (Store.MarkApplied rid ix s1).1 ≡ (Store.MarkApplied rid ix s2).1
            ∧ (Store.MarkApplied rid ix s1).2 = (Store.MarkApplied rid ix s2).2.
Proof.
  intros E. unfold Store.MarkApplied. rewrite_fields E. case_bool_decide; [done|].
  split; cbn [fst snd]; [solve_equiv E|done].
Qed.

End congruence.
