(* ===== verification/Snapshot.v ===== *)
(** Snapshots of the store (internal/state/snapshot.go): [SnapshotProto] and
    [RestoreProto], and the proof that restoring a snapshot gives back a store
    equivalent to the one it was taken from. *)
From S2P Require Import Prelude Api Watch State StateInv StateEquiv.

Module StoreSnapshot.
Import Store.

(** resetLocked empties every collection, and keeps the hub and the version. *)
Definition resetLocked (s : t) : t :=
  mk (version s) None None ∅ ∅ ∅ ∅ ∅ ∅ ∅ ∅ ∅ ∅ ∅ ∅ ∅ ∅ ∅ ∅ ∅ ∅ ∅ ∅ ∅ ∅ None ∅ ∅ ∅ ∅ ∅ ∅ [] [] [] ∅
    (hub s).

Section snapshot.
Context {RO : RangeOrder} {TL : TimestampLib}.

Definition kv_entry (k : string) (e : kvEntry.t) : KVEntry.t :=
  KVEntry.mk k (kvEntry.value e) (kvEntry.version e)
    (if (kvEntry.expiresAt e =? 0)%Z then None else Some (timestampFromUnixMs (kvEntry.expiresAt e))).

Definition SnapshotProto (fsmIndex : Z) (s : t) : Snapshot.t := {|
  Snapshot.FsmIndex := fsmIndex;
  Snapshot.Org := org s;
  Snapshot.ClusterKeyMaterial := clusterKey s;
  Snapshot.Users := range_values (users s);
  Snapshot.Projects := range_values (projects s);
  Snapshot.ProjectMembers :=
    byUser ← range_values (projectMembers s); range_values byUser;
  Snapshot.Apps := range_values (apps s);
  Snapshot.Environments := range_values (environments s);
  Snapshot.EnvVars :=
    '(envID, vars) ← range (envVars s);
    '(k, v) ← range vars;
    [Some (EnvVarEntry.mk envID k v)];
  Snapshot.Releases := range_values (releases s);
  Snapshot.Deployments := range_values (deployments s);
  Snapshot.Builds := range_values (builds s);
  Snapshot.Nodes := range_values (nodes s);
  Snapshot.JoinTokens := range_values (joinTokens s);
  Snapshot.Assignments := range_values (assignments s);
  Snapshot.Tokens := range_values (tokens s);
  Snapshot.Domains := range_values (domains s);
  Snapshot.Kv := (λ '(k, e), Some (kv_entry k e)) <$> range (kv s);
  Snapshot.DnsProviders := range_values (dnsProviders s);
  Snapshot.Volumes := range_values (volumes s);
  Snapshot.VolumeSnapshots := range_values (volumeSnapshots s);
  Snapshot.BackupConfig := backupConfig s;
  Snapshot.BackupRecords := range_values (backupRecords s);
  Snapshot.NetworkAllocations := range_values (networkAllocs s);
  Snapshot.ServiceVips := (λ '(e, v), Some (ServiceVIP.mk e v)) <$> range (serviceVIPs s);
  Snapshot.Jobs := range_values (jobs s);
  Snapshot.AlertRules := range_values (alertRules s);
  Snapshot.NotificationChannels := range_values (notifyChannels s);
  Snapshot.Events := events s;
  Snapshot.Audit := audit s;
  Snapshot.AppliedRequests := appliedRequests s
|}.

(** [for _, x := range l { m[key(x)] = val(x) }] *)
Definition load {A V} (key : A → string) (val : A → V) (l : list A) (m : gmap string V) :
    gmap string V :=
  foldl (λ m x, <[key x := val x]> m) m l.

Definition load_by_id {A} `{withMeta A} (l : list (option A)) (m : gmap string (option A)) :
    gmap string (option A) := load GetId id l m.

(** The same into a map of maps, creating missing inner maps. *)
Definition load_nested {A V} (outer inner : A → string) (val : A → V) (l : list A)
    (m : gmap string (gmap string V)) : gmap string (gmap string V) :=
  foldl (λ m x, <[outer x := <[inner x := val x]> (default ∅ (m !! outer x))]> m) m l.

Definition load_index {A} (key : option A → string) `{withMeta A} (l : list (option A))
    (m : gmap string (gset string)) : gmap string (gset string) :=
  foldl (λ m x, index_insert (key x) (GetId x) m) m l.

Definition restored_kv (e : option KVEntry.t) : kvEntry.t :=
  kvEntry.mk (e ⇝ KVEntry.Value) (e ⇝ KVEntry.Version)
    (match e ⇝ KVEntry.ExpiresAt with
     | None => 0
     | Some ts => UnixMilli (AsTime (Some ts))
     end).

Definition all_kinds : list Kind :=
  [KindOrg; KindUser; KindProject; KindProjectMember; KindApp; KindEnvironment;
   KindEnvVar; KindRelease; KindDeployment; KindBuild; KindNode; KindJoinToken;
   KindAssignment; KindToken; KindDomain; KindKV; KindDNSProvider; KindVolume;
   KindVolumeSnapshot; KindBackup; KindNetworkAlloc; KindServiceVIP; KindJob;
   KindAlertRule; KindNotifyChannel; KindEvent; KindClusterKey].

(** The content RestoreProto leaves, loop by loop over the emptied store. *)
Definition restored (snap : Snapshot.t) (s0 : t) : t :=
  let s := resetLocked s0 in {|
  version := version s;
  org := match Snapshot.Org snap with Some o => Some o | None => org s end;
  clusterKey := match Snapshot.ClusterKeyMaterial snap with Some m => Some m | None => clusterKey s end;
  users := load_by_id (Snapshot.Users snap) (users s);
  usersByEmail := load (get User.Email) GetId (Snapshot.Users snap) (usersByEmail s);
  projects := load_by_id (Snapshot.Projects snap) (projects s);
  projectMembers := load_nested (get ProjectMember.ProjectId) (get ProjectMember.UserId) id
    (Snapshot.ProjectMembers snap) (projectMembers s);
  apps := load_by_id (Snapshot.Apps snap) (apps s);
  environments := load_by_id (Snapshot.Environments snap) (environments s);
  envVars := load_nested (get EnvVarEntry.EnvironmentId) (get EnvVarEntry.Key) (get EnvVarEntry.Value)
    (Snapshot.EnvVars snap) (envVars s);
  releases := load_by_id (Snapshot.Releases snap) (releases s);
  deployments := load_by_id (Snapshot.Deployments snap) (deployments s);
  builds := load_by_id (Snapshot.Builds snap) (builds s);
  nodes := load_by_id (Snapshot.Nodes snap) (nodes s);
  joinTokens := load_by_id (Snapshot.JoinTokens snap) (joinTokens s);
  assignments := load_by_id (Snapshot.Assignments snap) (assignments s);
  assignmentsByNode := load_index (get Assignment.NodeId) (Snapshot.Assignments snap) (assignmentsByNode s);
  tokens := load_by_id (Snapshot.Tokens snap) (tokens s);
  tokensByHash := load (get Token.SecretHash) GetId (Snapshot.Tokens snap) (tokensByHash s);
  domains := load_by_id (Snapshot.Domains snap) (domains s);
  domainsByHostname := load_index (get Domain.Hostname) (Snapshot.Domains snap) (domainsByHostname s);
  kv := load (get KVEntry.Key) restored_kv (Snapshot.Kv snap) (kv s);
  dnsProviders := load_by_id (Snapshot.DnsProviders snap) (dnsProviders s);
  volumes := load_by_id (Snapshot.Volumes snap) (volumes s);
  volumeSnapshots := load_by_id (Snapshot.VolumeSnapshots snap) (volumeSnapshots s);
  backupConfig := match Snapshot.BackupConfig snap with Some c => Some c | None => backupConfig s end;
  backupRecords := load_by_id (Snapshot.BackupRecords snap) (backupRecords s);
  networkAllocs := load alloc_key id (Snapshot.NetworkAllocations snap) (networkAllocs s);
  serviceVIPs := load (get ServiceVIP.EnvironmentId) (get ServiceVIP.Vip)
    (Snapshot.ServiceVips snap) (serviceVIPs s);
  jobs := load_by_id (Snapshot.Jobs snap) (jobs s);
  alertRules := load_by_id (Snapshot.AlertRules snap) (alertRules s);
  notifyChannels := load_by_id (Snapshot.NotificationChannels snap) (notifyChannels s);
  events := Snapshot.Events snap;
  audit := Snapshot.Audit snap;
  appliedRequests := Snapshot.AppliedRequests snap;
  appliedSet := foldl (λ S r, {[r ⇝ AppliedRequest.RequestId]} ∪ S) (appliedSet s)
    (Snapshot.AppliedRequests snap);
  hub := hub s
|}.

Definition RestoreProto (snap : Snapshot.t) (s : t) : t :=
  foldl (λ s k, touch k "*" s) (restored snap s) all_kinds.

End snapshot.
End StoreSnapshot.

(** * Loading a list into a map *)

Section loads.
Import StoreSnapshot.

Lemma load_spec {A V} (key : A → string) (val : A → V) l m k v :
  NoDup (key <$> l) →
  load key val l m !! k = Some v ↔
    (∃ x, x ∈ l ∧ key x = k ∧ val x = v) ∨ (k ∉ key <$> l ∧ m !! k = Some v).
Proof.
  unfold load. revert m. induction l as [|x l IH]; intros m Hnd; cbn.
  { set_solver. }
  apply NoDup_cons in Hnd as [Hx Hnd]. rewrite IH by done. rewrite lookup_insert.
  case_decide as Hk; [subst k|]; split.
  - intros [(y & Hy & Hk & Hv)|[_ [= Hv]]]; left.
    + exists y. split; [by right|done].
    + exists x. split; [left|done].
  - intros [(y & [->|Hy]%elem_of_cons & Hk & Hv)|[Hn _]].
    + right. split; [done|by rewrite Hv].
    + destruct Hx. rewrite <- Hk. by apply list_elem_of_fmap_2.
    + destruct Hn. left.
  - intros [(y & Hy & Hk' & Hv)|[Hn Hv]]; [left|right].
    + exists y. split; [by right|done].
    + split; [|done]. intros [->|?]%elem_of_cons; done.
  - intros [(y & [->|Hy]%elem_of_cons & Hk' & Hv)|[Hn Hv]].
    + done.
    + left. by exists y.
    + right. split; [|done]. intros H. apply Hn. by right.
Qed.

(** A load from a list that lists a map, by any key that is injective on it. *)
Lemma load_empty_eq {A V} (key : A → string) (val : A → V) l (m : gmap string V) :
  NoDup (key <$> l) →
  (∀ k v, m !! k = Some v ↔ ∃ x, x ∈ l ∧ key x = k ∧ val x = v) →
  load key val l ∅ = m.
Proof.
  intros Hnd Hm. apply map_eq. intros k. apply option_eq. intros v.
  rewrite load_spec, Hm by done. rewrite lookup_empty. naive_solver.
Qed.

Lemma NoDup_fmap_key {A} (key : A → string) (l : list A) :
  (∀ x y, x ∈ l → y ∈ l → key x = key y → x = y) → NoDup l → NoDup (key <$> l).
Proof. intros Hinj Hnd. apply NoDup_fmap_2_strong; [|done]. naive_solver. Qed.

Context {RO : RangeOrder} {ROk : RangeOrderOk RO}.

Lemma fmap_range_values {A} (key : A → string) (m : gmap string A) :
  (∀ k x, m !! k = Some x → key x = k) → key <$> range_values m = (range m).*1.
Proof.
  intros Hm. unfold range_values. rewrite <- list_fmap_compose.
  apply list_fmap_ext. intros i [k x] Hi. cbn. apply Hm.
  apply elem_of_range. by eapply list_elem_of_lookup_2.
Qed.

Lemma load_by_id_range {A} `{withMeta A} (m : gmap string (option A)) :
  keyed m → load_by_id (range_values m) ∅ = m.
Proof.
  intros Hm. apply load_empty_eq.
  - rewrite (fmap_range_values _ m Hm). apply NoDup_fst_range.
  - intros k v. setoid_rewrite elem_of_range_values. split.
    + intros Hk. exists v. split; [by eauto|]. split; [by apply Hm|done].
    + intros (x & [k' Hk] & <- & <-). by rewrite (Hm _ _ Hk).
Qed.

(** A unique index is rebuilt when no two objects share a key. *)
Lemma load_unique_range {A} `{withMeta A} (key : option A → string) m ix :
  keyed m → unique_index_exact key m ix → load key GetId (range_values m) ∅ = ix.
Proof.
  intros Hm Hix. apply load_empty_eq.
  - unfold range_values. rewrite <- list_fmap_compose. apply NoDup_fmap_2_strong; [|apply NoDup_range].
    intros [k1 x1] [k2 x2] H1%elem_of_range H2%elem_of_range Hk. cbn in Hk.
    assert (ix !! key x1 = Some k1) as I1 by (apply Hix; eauto).
    assert (ix !! key x1 = Some k2) as I2 by (apply Hix; eauto).
    simplify_eq. done.
  - intros k id. rewrite (Hix k id). setoid_rewrite elem_of_range_values. split.
    + intros (x & Hx & <-). exists x. split; [by eauto|]. split; [done|by apply Hm].
    + intros (x & [id' Hx] & <- & <-). exists x. by rewrite (Hm _ _ Hx).
Qed.

Lemma load_index_spec {A} `{withMeta A} (key : option A → string) l ix k id :
  id ∈ default ∅ (load_index key l ix !! k) ↔
    id ∈ default ∅ (ix !! k) ∨ ∃ x, x ∈ l ∧ key x = k ∧ GetId x = id.
Proof.
  unfold load_index. revert ix. induction l as [|x l IH]; intros ix; cbn.
  { set_solver. }
  rewrite IH, index_insert_spec. set_solver.
Qed.

Lemma load_index_nonempty {A} `{withMeta A} (key : option A → string) l ix :
  inner_nonempty ix → inner_nonempty (load_index key l ix).
Proof.
  intros Hix. apply (foldl_invariant inner_nonempty); [done|].
  intros. by apply index_insert_nonempty.
Qed.

Lemma load_index_range {A} `{withMeta A} (key : option A → string) m ix :
  keyed m → set_index key m ix → nested_eq (load_index key (range_values m) ∅) ix.
Proof.
  intros Hm Hix k. apply set_eq. intros id. rewrite load_index_spec, (Hix k id), lookup_empty.
  setoid_rewrite elem_of_range_values. split.
  - intros [?|(x & [id' Hx] & <- & <-)]; [set_solver|]. exists x. by rewrite (Hm _ _ Hx).
  - intros (x & Hx & <-). right. exists x. split; [by eauto|]. split; [done|by apply Hm].
Qed.

Lemma nested_eq_nonempty (m1 m2 : gmap string (gset string)) :
  inner_nonempty m1 → inner_nonempty m2 → nested_eq m1 m2 → m1 = m2.
Proof.
  intros H1 H2 He. apply map_eq. intros k. specialize (He k). specialize (H1 k). specialize (H2 k).
  destruct (m1 !! k), (m2 !! k); cbn in He; subst; naive_solver.
Qed.

Lemma load_nested_spec {A V} (outer inner : A → string) (val : A → V) l m p u v :
  NoDup ((λ x, (outer x, inner x)) <$> l) →
  default ∅ (load_nested outer inner val l m !! p) !! u = Some v ↔
    (∃ x, x ∈ l ∧ (outer x, inner x) = (p, u) ∧ val x = v)
    ∨ ((p, u) ∉ (λ x, (outer x, inner x)) <$> l ∧ default ∅ (m !! p) !! u = Some v).
Proof.
  unfold load_nested. revert m. induction l as [|x l IH]; intros m Hnd; cbn.
  { set_solver. }
  apply NoDup_cons in Hnd as [Hx Hnd]. rewrite IH by done.
  assert (∀ v', default ∅ (<[outer x := <[inner x := val x]> (default ∅ (m !! outer x))]> m !! p) !! u
            = Some v' ↔ (outer x, inner x) = (p, u) ∧ val x = v'
                        ∨ (outer x, inner x) ≠ (p, u) ∧ default ∅ (m !! p) !! u = Some v') as Hins.
  { intros v'. rewrite lookup_insert. case_decide as Hp; subst; cbn; [|naive_solver].
    rewrite lookup_insert_Some. naive_solver. }
  rewrite Hins. clear Hins IH. rewrite !not_elem_of_cons. setoid_rewrite elem_of_cons. split.
  - intros [(y & Hy & Hk & Hv)|[Hn [[Hk Hv]|[Hne Hv]]]].
    + left. exists y. auto.
    + left. exists x. auto.
    + right. auto.
  - intros [(y & [->|Hy] & Hk & Hv)|[[Hne Hn] Hv]].
    + right. rewrite <- Hk. auto.
    + left. exists y. auto.
    + right. auto.
Qed.
End loads.

(** * The double loops of SnapshotProto *)

Section nested_range.
Context {RO : RangeOrder} {ROk : RangeOrderOk RO}.

Definition nested_range {V} (m : gmap string (gmap string V)) : list (string * string * V) :=
  '(p, b) ← range m; (λ '(u, x), (p, u, x)) <$> range b.

Lemma elem_of_nested_range {V} (m : gmap string (gmap string V)) p u x :
  (p, u, x) ∈ nested_range m ↔ default ∅ (m !! p) !! u = Some x.
Proof.
  unfold nested_range. rewrite list_elem_of_bind. split.
  - intros ([p' b] & Hx & Hb). apply list_elem_of_fmap in Hx as ([u' x'] & ? & Hu).
    simplify_eq. apply elem_of_range in Hb. rewrite Hb. by apply elem_of_range.
  - destruct (m !! p) as [b|] eqn:Hb; cbn; [|by rewrite lookup_empty].
    intros Hu. exists (p, b). split; [|by apply elem_of_range].
    apply list_elem_of_fmap. exists (u, x). split; [done|]. by apply elem_of_range.
Qed.

Lemma NoDup_nested_range {V} (m : gmap string (gmap string V)) :
  NoDup ((λ '(p, u, x), (p, u)) <$> nested_range m).
Proof.
  apply NoDup_fmap_2_strong.
  - intros [[p1 u1] x1] [[p2 u2] x2] H1%elem_of_nested_range H2%elem_of_nested_range. naive_solver.
  - apply NoDup_bind; [| |apply NoDup_range].
    + intros [p1 b1] [p2 b2] [[p u] x] H1%elem_of_range H2%elem_of_range
        ([? ?] & [= <- _ _] & _)%list_elem_of_fmap ([? ?] & [= <- _ _] & _)%list_elem_of_fmap.
      congruence.
    + intros [p b] _. apply NoDup_fmap_2; [|apply NoDup_range]. intros [] []. naive_solver.
Qed.

Lemma load_nested_range {A V} (outer inner : A → string) (val : A → V)
    (f : string * string * V → A) (m : gmap string (gmap string V)) :
  (∀ p u x, (p, u, x) ∈ nested_range m →
     outer (f (p, u, x)) = p ∧ inner (f (p, u, x)) = u ∧ val (f (p, u, x)) = x) →
  nested_eq (StoreSnapshot.load_nested outer inner val (f <$> nested_range m) ∅) m.
Proof.
  intros Hf p. apply map_eq. intros u. apply option_eq. intros v.
  assert ((λ x, (outer x, inner x)) <$> (f <$> nested_range m)
          = (λ '(p, u, x), (p, u)) <$> nested_range m) as Hkeys.
  { rewrite <- list_fmap_compose. apply list_fmap_ext. intros i [[p' u'] x'] Hi. cbn.
    destruct (Hf p' u' x') as (-> & -> & _); [|done]. by eapply list_elem_of_lookup_2. }
  rewrite load_nested_spec by (rewrite Hkeys; apply NoDup_nested_range).
  rewrite lookup_empty; cbn. rewrite lookup_empty. rewrite <- elem_of_nested_range. split.
  - intros [(y & ([[p' u'] x'] & -> & Hin)%list_elem_of_fmap & Hk & Hv)|[_ [=]]].
    destruct (Hf _ _ _ Hin) as (E1 & E2 & E3). rewrite E1, E2 in Hk. rewrite E3 in Hv. congruence.
  - intros Hin. left. exists (f (p, u, v)). destruct (Hf _ _ _ Hin) as (-> & -> & ->).
    split; [by apply list_elem_of_fmap_2|done].
Qed.

Lemma snapshot_members_eq (m : gmap string (gmap string (option ProjectMember.t))) :
  (byUser ← range_values m; range_values byUser) = (λ '(_, _, x), x) <$> nested_range m.
Proof.
  unfold nested_range, range_values. induction (range m) as [|[p b] l IH]; cbn; [done|].
  rewrite fmap_app. f_equal; [|apply IH]. rewrite <- list_fmap_compose.
  apply list_fmap_ext. by intros ? [].
Qed.

Lemma snapshot_vars_eq (m : gmap string (gmap string (option EncryptedValue.t))) :
  ('(envID, vars) ← range m; '(k, v) ← range vars; [Some (EnvVarEntry.mk envID k v)])
  = (λ '(e, k, v), Some (EnvVarEntry.mk e k v)) <$> nested_range m.
Proof.
  unfold nested_range. induction (range m) as [|[p b] l IH]; cbn; [done|].
  rewrite fmap_app. f_equal; [|apply IH]. clear.
  induction (range b) as [|[u x] l IH]; cbn; [done|]. by f_equal.
Qed.
End nested_range.

(** * Restoring a snapshot *)

(** No two users share an email, no two tokens a hash: what the API layer checks
    before it proposes. *)
Definition unique_keys (s : Store.t) : Prop :=
  unique_index_exact (get User.Email) (Store.users s) (Store.usersByEmail s)
  ∧ unique_index_exact (get Token.SecretHash) (Store.tokens s) (Store.tokensByHash s).

Lemma touch_loop_equiv ks s : foldl (λ s k, Store.touch k "*" s) s ks ≡ s.
Proof.
  revert s. induction ks as [|k ks IH]; intros s; cbn [foldl]; [done|].
  rewrite IH. unfold Store.touch. split; get_set; done.
Qed.

Section round_trip.
Context {RO : RangeOrder} {ROk : RangeOrderOk RO}.
Context {TL : TimestampLib} {TLok : TimestampLibOk TL}.
Import StoreSnapshot.

Lemma load_kv_range (m : gmap string kvEntry.t) :
  (∀ k e, m !! k = Some e → in_i64 (kvEntry.expiresAt e)) →
  load (get KVEntry.Key) restored_kv ((λ '(k, e), Some (kv_entry k e)) <$> range m) ∅ = m.
Proof.
  intros Hm. apply load_empty_eq.
  - rewrite <- list_fmap_compose.
    rewrite (list_fmap_ext _ fst); [apply NoDup_fst_range|by intros ? []].
  - assert (∀ k e, m !! k = Some e → restored_kv (Some (kv_entry k e)) = e) as Hr.
    { intros k [v ver ex] Hk. apply Hm in Hk. cbn in Hk. unfold restored_kv, kv_entry; cbn.
      destruct (Z.eqb_spec ex 0) as [->|_]; [done|]. cbn. f_equal.
      unfold Store.timestampFromUnixMs. rewrite AsTime_New by (by apply time_ok_UnixMilli).
      by apply UnixMilli_time. }
    intros k v. split.
    + intros Hk. exists (Some (kv_entry k v)). split; [|by auto].
      apply list_elem_of_fmap. exists (k, v). split; [done|]. by apply elem_of_range.
    + intros (x & ([k' e] & -> & Hin%elem_of_range)%list_elem_of_fmap & Hk & Hv). cbn in Hk. subst k'.
      by rewrite (Hr _ _ Hin) in Hv; subst.
Qed.

Lemma load_vips_range (m : gmap string string) :
  load (get ServiceVIP.EnvironmentId) (get ServiceVIP.Vip)
    ((λ '(e, v), Some (ServiceVIP.mk e v)) <$> range m) ∅ = m.
Proof.
  apply load_empty_eq.
  - rewrite <- list_fmap_compose.
    rewrite (list_fmap_ext _ fst); [apply NoDup_fst_range|by intros ? []].
  - intros k v. split.
    + intros Hk. exists (Some (ServiceVIP.mk k v)). split; [|done].
      apply list_elem_of_fmap. exists (k, v). split; [done|]. by apply elem_of_range.
    + intros (x & ([k' v'] & -> & Hin%elem_of_range)%list_elem_of_fmap & Hk & Hv). cbn in Hk, Hv. by subst.
Qed.

Lemma load_allocs_range (m : gmap string (option NetworkAllocation.t)) :
  (∀ k a, m !! k = Some a → Store.alloc_key a = k) →
  load Store.alloc_key id (range_values m) ∅ = m.
Proof.
  intros Hm. apply load_empty_eq.
  - rewrite (fmap_range_values _ m Hm). apply NoDup_fst_range.
  - intros k v. setoid_rewrite elem_of_range_values. split.
    + intros Hk. exists v. split; [by eauto|]. split; [by apply Hm|done].
    + intros (x & [k' Hk] & <- & <-). by rewrite (Hm _ _ Hk).
Qed.

Lemma applied_set_loop (l : list (option AppliedRequest.t)) (S : gset string) :
  foldl (λ S r, {[r ⇝ AppliedRequest.RequestId]} ∪ S) S l
    = list_to_set (get AppliedRequest.RequestId <$> l) ∪ S.
Proof.
  revert S. induction l as [|r l IH]; intros S; cbn; [set_solver|]. rewrite IH. set_solver.
Qed.

Lemma restored_equiv i s s0 : wf s → unique_keys s → restored (SnapshotProto i s) s0 ≡ s.
Proof.
  intros Hs [Hemail Hhash]. destruct Hs. split; cbn;
    try (by apply load_by_id_range); try done.
  - by destruct (Store.org s).
  - by destruct (Store.clusterKey s).
  - by apply load_unique_range.
  - by apply load_unique_range.
  - apply nested_eq_nonempty; [by apply load_index_nonempty|done|by apply load_index_range].
  - by apply load_kv_range.
  - by destruct (Store.backupConfig s).
  - by apply load_allocs_range.
  - apply load_vips_range.
  - rewrite applied_set_loop, (applied_ids _ _ wf_applied). set_solver.
  - rewrite snapshot_members_eq. apply load_nested_range. intros p u x Hx%elem_of_nested_range.
    destruct (Store.projectMembers s !! p) as [b|] eqn:Hb; cbn in Hx; [|by rewrite lookup_empty in Hx].
    destruct (wf_members p u b x Hb Hx). done.
  - rewrite snapshot_vars_eq. by apply load_nested_range.
  - by apply load_index_range.
Qed.

Lemma RestoreProto_equiv snap s0 : RestoreProto snap s0 ≡ restored snap s0.
Proof. apply touch_loop_equiv. Qed.

Lemma restore_snapshot_equiv i s s0 :
  wf s → unique_keys s → RestoreProto (SnapshotProto i s) s0 ≡ s.
Proof. intros. rewrite RestoreProto_equiv. by apply restored_equiv. Qed.
End round_trip.
