(* ===== verification/Fsm.v ===== *)
(** The Raft state machine of internal/daemon/raftstore: [apply] dispatches a
    decoded command to the store, [Apply] decodes a log entry and skips a request
    id that was already applied, [Snapshot] and [Restore] carry the state through
    the protobuf encoding.

    Encoding is protobuf-generated code, the class [WireLib].  The theorems: the
    store stays well formed under every log, replicas with the same log agree
    whatever their map orders and snapshots, requests are applied at most once
    within the ring's window, and when an apply can panic. *)
From S2P Require Import Prelude Api Watch State StateInv StateEquiv Snapshot.

(** proto.Marshal and proto.Unmarshal. *)
Class WireLib := {
  bytes : Type;
  UnmarshalCommand : bytes → option Command.t;
  MarshalSnapshot : Snapshot.t → option bytes;
  UnmarshalSnapshot : bytes → option Snapshot.t
}.

(** A nil element of a repeated field, or a nil value of a map field, is encoded
    like an empty message. *)
Definition no_nil {A} (l : list (option A)) : Prop := Forall (λ x, x ≠ None) l.
Definition no_nil_values {A} (m : gmap string (option A)) : Prop := map_Forall (λ _ x, x ≠ None) m.

Definition spec_no_nil (s : option ServiceSpec.t) : Prop :=
  no_nil (s ⇝ ServiceSpec.Ports) ∧ no_nil (s ⇝ ServiceSpec.Volumes) ∧ no_nil (s ⇝ ServiceSpec.Cron).

Record snapshot_no_nil (s : Snapshot.t) : Prop := {
  nn_users : no_nil (Snapshot.Users s);
  nn_projects : no_nil (Snapshot.Projects s);
  nn_members : no_nil (Snapshot.ProjectMembers s);
  nn_apps : no_nil (Snapshot.Apps s);
  nn_envs : no_nil (Snapshot.Environments s);
  nn_vars : no_nil (Snapshot.EnvVars s);
  nn_releases : no_nil (Snapshot.Releases s);
  nn_deployments : no_nil (Snapshot.Deployments s);
  nn_builds : no_nil (Snapshot.Builds s);
  nn_nodes : no_nil (Snapshot.Nodes s);
  nn_joinTokens : no_nil (Snapshot.JoinTokens s);
  nn_assignments : no_nil (Snapshot.Assignments s);
  nn_tokens : no_nil (Snapshot.Tokens s);
  nn_domains : no_nil (Snapshot.Domains s);
  nn_kv : no_nil (Snapshot.Kv s);
  nn_dns : no_nil (Snapshot.DnsProviders s);
  nn_volumes : no_nil (Snapshot.Volumes s);
  nn_snaps : no_nil (Snapshot.VolumeSnapshots s);
  nn_records : no_nil (Snapshot.BackupRecords s);
  nn_allocs : no_nil (Snapshot.NetworkAllocations s);
  nn_vips : no_nil (Snapshot.ServiceVips s);
  nn_jobs : no_nil (Snapshot.Jobs s);
  nn_rules : no_nil (Snapshot.AlertRules s);
  nn_channels : no_nil (Snapshot.NotificationChannels s);
  nn_events : no_nil (Snapshot.Events s);
  nn_audit : no_nil (Snapshot.Audit s);
  nn_applied : no_nil (Snapshot.AppliedRequests s);
  nn_env_specs : Forall (λ e, spec_no_nil (e ⇝ Environment.Service)) (Snapshot.Environments s);
  nn_release_specs : Forall (λ r, spec_no_nil (r ⇝ Release.Service)) (Snapshot.Releases s);
  nn_credentials : Forall (λ p, no_nil_values (p ⇝ DNSProviderConfig.Credentials)) (Snapshot.DnsProviders s)
}.

(** Decoding what Marshal produced gives the message back. *)
Class WireLibOk (W : WireLib) := {
  Unmarshal_Marshal : ∀ s b, snapshot_no_nil s → MarshalSnapshot s = Some b → UnmarshalSnapshot b = Some s
}.

(** An instance, for witnesses: a message is its own encoding. *)
Definition message_wire : WireLib := {|
  bytes := Command.t + Snapshot.t;
  UnmarshalCommand b := match b with inl c => Some c | inr _ => None end;
  MarshalSnapshot s := Some (inr s);
  UnmarshalSnapshot b := match b with inl _ => None | inr s => Some s end
|}.

#[export] Instance message_wire_ok : WireLibOk message_wire.
Proof. split. by intros s b _ [= <-]. Qed.

Module FSM.

Inductive error :=
| ErrUndecodable
| ErrNoMutation (requestID : string)
| ErrUnknownMutation
| ErrDeploymentNotFound (id : string)
| ErrEnvironmentNotFound (id : string)
| ErrReleaseNotFound (id : string)
| ErrNodeNotFound (id : string)
| ErrJoinTokenUsed (id : string)
| ErrJoinTokenNotFound (id : string)
| ErrKV (e : Store.kv_error).

Module ApplyResult.
Record t := mk { Err : option error; Duplicate : bool }.
End ApplyResult.

Section apply.
Context {RO : RangeOrder} {TL : TimestampLib}.

(** What a handler returns: the store it leaves and its error. *)
Definition result : Type := outcome (Store.t * option error).

Definition done_ (s : Store.t) : result := Ret (s, None).
Definition fail_ (s : Store.t) (e : error) : result := Ret (s, Some e).
Definition lift (o : outcome Store.t) : result := s ← o; done_ s.

(** The store is only read before the last PutDeployment, so a panic in between
    leaves nothing behind. *)
Definition applySetDeploymentPhase (now : option Timestamp.t) (m : option SetDeploymentPhase.t)
    (s : Store.t) : result :=
  match Store.Deployment (m ⇝ SetDeploymentPhase.DeploymentId) s with
  | None => fail_ s (ErrDeploymentNotFound (m ⇝ SetDeploymentPhase.DeploymentId))
  | Some d =>
    (* d.GetMeta().UpdatedAt = now *)
    d ← match now with
        | None => Ret d
        | Some now =>
          match d with
          | Some d' =>
            match Deployment.Meta d' with
            | Some meta => Ret (Some (d' <| Deployment.Meta := Some (meta <| Meta.UpdatedAt := Some now |>) |>))
            | None => Panic
            end
          | None => Panic
          end
        end;
    match d with
    | None => Panic
    | Some d =>
      let d := d <| Deployment.Phase := m ⇝ SetDeploymentPhase.Phase |> in
      let d := if m ⇝ SetDeploymentPhase.Error =? "" then d
        else d <| Deployment.Error := m ⇝ SetDeploymentPhase.Error |> in
      let d := match m ⇝ SetDeploymentPhase.PromotedAt with
        | None => d | Some ts => d <| Deployment.PromotedAt := Some ts |> end in
      let d := match m ⇝ SetDeploymentPhase.DrainDeadline with
        | None => d | Some ts => d <| Deployment.DrainDeadline := Some ts |> end in
      done_ (Store.PutDeployment (Some d) s)
    end
  end.

Definition applyPromoteRelease (m : option PromoteRelease.t) (s : Store.t) : result :=
  match Store.Environment (m ⇝ PromoteRelease.EnvironmentId) s with
  | None => fail_ s (ErrEnvironmentNotFound (m ⇝ PromoteRelease.EnvironmentId))
  | Some env =>
    match Store.Release (m ⇝ PromoteRelease.ReleaseId) s with
    | None => fail_ s (ErrReleaseNotFound (m ⇝ PromoteRelease.ReleaseId))
    | Some _ =>
      match env with
      | None => Panic
      | Some env =>
        let env := env <| Environment.ActiveReleaseId := m ⇝ PromoteRelease.ReleaseId |> in
        let env := env <| Environment.RouteGeneration ::= λ g, u64 (g + 1) |> in
        done_ (Store.PutEnvironment (Some env) s)
      end
    end
  end.

Definition applySetNodeStatus (m : option SetNodeStatus.t) (s : Store.t) : result :=
  match Store.Node (m ⇝ SetNodeStatus.NodeId) s with
  | None => fail_ s (ErrNodeNotFound (m ⇝ SetNodeStatus.NodeId))
  | Some None => Panic
  | Some (Some n) =>
    let n := n <| Node.Status := m ⇝ SetNodeStatus.Status |> in
    let n := match m ⇝ SetNodeStatus.LastHeartbeatAt with
      | None => n | Some ts => n <| Node.LastHeartbeatAt := Some ts |> end in
    let n := if m ⇝ SetNodeStatus.SchedulableSet
      then n <| Node.Schedulable := m ⇝ SetNodeStatus.Schedulable |> else n in
    done_ (Store.PutNode (Some n) s)
  end.

Definition applyConsumeJoinToken (m : option ConsumeJoinToken.t) (s : Store.t) : result :=
  match List.find (λ tok, GetId tok =? m ⇝ ConsumeJoinToken.TokenId) (Store.ListJoinTokens s) with
  | None => fail_ s (ErrJoinTokenNotFound (m ⇝ ConsumeJoinToken.TokenId))
  | Some tok =>
    if tok ⇝ JoinToken.SingleUse && tok ⇝ JoinToken.Used
    then fail_ s (ErrJoinTokenUsed (m ⇝ ConsumeJoinToken.TokenId))
    else match tok with
      | None => Panic
      | Some tok => done_ (Store.PutJoinToken (Some (tok <| JoinToken.Used := true |>)) s)
      end
  end.

Definition kv_result (r : Store.t * option Store.kv_error) : result := Ret (r.1, ErrKV <$> r.2).

Definition apply (cmd : Command.t) (s : Store.t) : result :=
  match Command.Mut cmd with
  (* org / users / projects *)
  | Some (Command_PutOrg m) => done_ (Store.SetOrg (m ⇝ PutOrg.Org) s)
  | Some (Command_PutUser m) => done_ (Store.PutUser (m ⇝ PutUser.User) s)
  | Some (Command_DeleteUser m) => done_ (Store.DeleteUser (m ⇝ DeleteByID.Id) s)
  | Some (Command_PutProject m) => done_ (Store.PutProject (m ⇝ PutProject.Project) s)
  | Some (Command_DeleteProject m) => done_ (Store.DeleteProject (m ⇝ DeleteByID.Id) s)
  | Some (Command_PutProjectMember m) => done_ (Store.PutProjectMember (m ⇝ PutProjectMember.Member) s)
  | Some (Command_DeleteProjectMember m) =>
    done_ (Store.DeleteProjectMember (m ⇝ DeleteProjectMember.ProjectId) (m ⇝ DeleteProjectMember.UserId) s)
  (* apps / environments / env vars *)
  | Some (Command_PutApp m) => done_ (Store.PutApp (m ⇝ PutApp.App) s)
  | Some (Command_DeleteApp m) => done_ (Store.DeleteApp (m ⇝ DeleteByID.Id) s)
  | Some (Command_PutEnvironment m) => done_ (Store.PutEnvironment (m ⇝ PutEnvironment.Environment) s)
  | Some (Command_DeleteEnvironment m) => done_ (Store.DeleteEnvironment (m ⇝ DeleteByID.Id) s)
  | Some (Command_SetEnvVars m) =>
    done_ (Store.SetEnvVars (m ⇝ SetEnvVars.EnvironmentId) (m ⇝ SetEnvVars.Set_) (m ⇝ SetEnvVars.Unset) s)
  (* releases / deployments / builds *)
  | Some (Command_PutRelease m) => done_ (Store.PutRelease (m ⇝ PutRelease.Release) s)
  | Some (Command_DeleteRelease m) => done_ (Store.DeleteRelease (m ⇝ DeleteByID.Id) s)
  | Some (Command_PutDeployment m) => done_ (Store.PutDeployment (m ⇝ PutDeployment.Deployment) s)
  | Some (Command_SetDeploymentPhase m) => applySetDeploymentPhase (Command.Time cmd) m s
  | Some (Command_PromoteRelease m) => applyPromoteRelease m s
  | Some (Command_PutBuild m) => done_ (Store.PutBuild (m ⇝ PutBuild.Build) s)
  (* nodes / join / assignments *)
  | Some (Command_PutNode m) => done_ (Store.PutNode (m ⇝ PutNode.Node) s)
  | Some (Command_DeleteNode m) => done_ (Store.DeleteNode (m ⇝ DeleteByID.Id) s)
  | Some (Command_SetNodeStatus m) => applySetNodeStatus m s
  | Some (Command_PutJoinToken m) => done_ (Store.PutJoinToken (m ⇝ PutJoinToken.Token) s)
  | Some (Command_ConsumeJoinToken m) => applyConsumeJoinToken m s
  | Some (Command_PutAssignments m) => done_ (Store.PutAssignments (m ⇝ PutAssignments.Assignments) s)
  | Some (Command_DeleteAssignments m) =>
    done_ (Store.DeleteAssignments (m ⇝ DeleteAssignments.AssignmentIds) s)
  | Some (Command_SetAssignmentsObserved m) =>
    lift (Store.SetAssignmentObserved (m ⇝ SetAssignmentsObserved.NodeId)
            (m ⇝ SetAssignmentsObserved.Observed) s)
  (* auth *)
  | Some (Command_PutToken m) => done_ (Store.PutToken (m ⇝ PutToken.Token) s)
  | Some (Command_DeleteToken m) => done_ (Store.DeleteToken (m ⇝ DeleteByID.Id) s)
  | Some (Command_TouchTokens m) =>
    lift (Store.TouchTokens ((λ ts, UnixMilli (AsTime ts)) <$> m ⇝ TouchTokens.LastUsed) s)
  | Some (Command_PutClusterKeyMaterial m) =>
    done_ (Store.SetClusterKeyMaterial (m ⇝ PutClusterKeyMaterial.Material) s)
  (* domains / kv / dns *)
  | Some (Command_PutDomain m) => done_ (Store.PutDomain (m ⇝ PutDomain.Domain) s)
  | Some (Command_DeleteDomain m) => done_ (Store.DeleteDomain (m ⇝ DeleteByID.Id) s)
  | Some (Command_PutKv m) =>
    let exp := match m ⇝ PutKV.ExpiresAt with
      | None => 0%Z
      | Some ts => UnixMilli (AsTime (Some ts))
      end in
    let '(s', r) := Store.PutKV (m ⇝ PutKV.Key) (m ⇝ PutKV.Value) (m ⇝ PutKV.ExpectedVersion) exp s in
    kv_result (s', match r with inl _ => None | inr e => Some e end)
  | Some (Command_DeleteKv m) =>
    kv_result (Store.DeleteKV (m ⇝ DeleteKV.Key) (m ⇝ DeleteKV.ExpectedVersion) s)
  | Some (Command_PutDnsProvider m) => done_ (Store.PutDNSProvider (m ⇝ PutDNSProvider.Provider) s)
  | Some (Command_DeleteDnsProvider m) => done_ (Store.DeleteDNSProvider (m ⇝ DeleteByID.Id) s)
  (* volumes / backup / allocations *)
  | Some (Command_PutVolume m) => done_ (Store.PutVolume (m ⇝ PutVolume.Volume) s)
  | Some (Command_DeleteVolume m) => done_ (Store.DeleteVolume (m ⇝ DeleteByID.Id) s)
  | Some (Command_PutVolumeLease m) =>
    lift (Store.SetVolumeLease (m ⇝ PutVolumeLease.VolumeId) (m ⇝ PutVolumeLease.Lease) s)
  | Some (Command_PutVolumeSnapshot m) => done_ (Store.PutVolumeSnapshot (m ⇝ PutVolumeSnapshot.Snapshot) s)
  | Some (Command_DeleteVolumeSnapshot m) => done_ (Store.DeleteVolumeSnapshot (m ⇝ DeleteByID.Id) s)
  | Some (Command_PutBackupConfig m) => done_ (Store.SetBackupConfig (m ⇝ PutBackupConfig.Config) s)
  | Some (Command_PutBackupRecord m) => done_ (Store.PutBackupRecord (m ⇝ PutBackupRecord.Record_) s)
  | Some (Command_PutNetworkAllocation a) =>
    done_ (Store.SetNetworkAllocation (a ⇝ PutNetworkAllocation.ProjectId)
      (a ⇝ PutNetworkAllocation.EnvironmentId) (a ⇝ PutNetworkAllocation.NodeId)
      (a ⇝ PutNetworkAllocation.SubnetCidr) s)
  | Some (Command_PutServiceVip m) =>
    done_ (Store.SetServiceVIP (m ⇝ PutServiceVIP.EnvironmentId) (m ⇝ PutServiceVIP.Vip) s)
  (* jobs *)
  | Some (Command_PutJob m) => done_ (Store.PutJob (m ⇝ PutJob.Job) s)
  (* alerts / events / audit *)
  | Some (Command_PutAlertRule m) => done_ (Store.PutAlertRule (m ⇝ PutAlertRule.Rule) s)
  | Some (Command_DeleteAlertRule m) => done_ (Store.DeleteAlertRule (m ⇝ DeleteByID.Id) s)
  | Some (Command_PutNotificationChannel m) =>
    done_ (Store.PutNotificationChannel (m ⇝ PutNotificationChannel.Channel) s)
  | Some (Command_DeleteNotificationChannel m) =>
    done_ (Store.DeleteNotificationChannel (m ⇝ DeleteByID.Id) s)
  | Some (Command_AppendEvents m) => done_ (Store.AppendEvents (m ⇝ AppendEvents.Events) s)
  | Some (Command_AppendAudit m) => done_ (Store.AppendAudit (m ⇝ AppendAudit.Entries) s)
  | None => fail_ s (ErrNoMutation (Command.RequestId cmd))
  | Some Command_Unknown => fail_ s ErrUnknownMutation
  end.

(** Apply after decoding: skip a request id already applied, else dispatch. *)
Definition ApplyCommand (index : Z) (cmd : Command.t) (s : Store.t) : outcome (Store.t * ApplyResult.t) :=
  let rid := Command.RequestId cmd in
  let '(s, fresh) := if rid =? "" then (s, true) else Store.MarkApplied rid index s in
  if negb fresh then Ret (s, ApplyResult.mk None true)
  else
    '(s, e) ← apply cmd s;
    Ret (s, ApplyResult.mk e false).

Context {W : WireLib}.

(** Apply of one log entry: its index and its data. *)
Definition Apply (index : Z) (data : bytes) (s : Store.t) : outcome (Store.t * ApplyResult.t) :=
  match UnmarshalCommand data with
  | None => Ret (s, ApplyResult.mk (Some ErrUndecodable) false)
  | Some cmd => ApplyCommand index cmd s
  end.

(** Snapshot and Persist: the encoded state (None when encoding fails). *)
Definition Persist (s : Store.t) : option bytes := MarshalSnapshot (StoreSnapshot.SnapshotProto 0 s).

(** Restore: undecodable data leaves the store as it is. *)
Definition Restore (data : bytes) (s : Store.t) : option Store.t :=
  (λ snap, StoreSnapshot.RestoreProto snap s) <$> UnmarshalSnapshot data.

(** A node replaying a log. *)
Definition entry : Type := Z * bytes.

Fixpoint replay (log : list entry) (s : Store.t) : outcome (Store.t * list ApplyResult.t) :=
  match log with
  | [] => Ret (s, [])
  | (i, d) :: log =>
    '(s, r) ← Apply i d s;
    '(s, rs) ← replay log s;
    Ret (s, r :: rs)
  end.

End apply.
End FSM.
