(* ===== verification/Samples.v ===== *)
(** Concrete objects and commands, for the witnesses: small clusters on which the
    theorems are applied. *)
From S2P Require Import Prelude Api Watch State StateInv Snapshot Fsm.

Definition sample_meta (id : string) : option Meta.t := Some (Meta.mk id None None).

Definition sample_user (id email : string) : User.t :=
  User.mk (sample_meta id) email "" "" "org" zero.

Definition sample_token (id hash : string) : Token.t :=
  Token.mk (sample_meta id) "u1" "cli" hash TOKEN_KIND_PERSONAL None None.

Definition sample_join (id : string) : JoinToken.t :=
  JoinToken.mk (sample_meta id) "h" true false None [] "u1".

Definition sample_spec (stateful : bool) (replicas cpu mem : Z) : ServiceSpec.t :=
  ServiceSpec.mk (Some (ReplicaRange.mk replicas replicas)) None (Some (ResourceLimits.mk cpu mem)) [] None
    false 0 stateful [] [] None "" ∅ None.

Definition sample_env (id active : string) (spec : ServiceSpec.t) : Environment.t :=
  Environment.mk (sample_meta id) "app" "proj" id zero (Some spec) active 7 0 None 0 None.

Definition sample_release (id env : string) (version : Z) (spec : ServiceSpec.t) : Release.t :=
  Release.mk (sample_meta id) env "app" "proj" version "img" "cfg" (Some spec) None "u1" [].

Definition sample_deployment (id env rel prev : string) (ph : DeploymentPhase) : Deployment.t :=
  Deployment.mk (sample_meta id) env "app" "proj" rel prev ph "" false "" None None "u1".

Definition sample_node (id : string) (st : NodeStatus) (cpu mem : Z) : Node.t :=
  Node.mk (sample_meta id) id [] ∅ "" "" [] (Some (ResourceLimits.mk cpu mem)) 0 st true false "v1.2.3" None
    "linux/amd64".

Definition sample_assignment (id node env rel dep : string) (desired : AssignmentDesired) (st : InstanceState) :
    Assignment.t :=
  Assignment.mk (sample_meta id) node "proj" "app" env rel dep desired "cfg" ∅
    (Some (AssignmentObserved.mk st "" 0 0 "" None ∅)) "".

Definition sample_cmd (rid : string) (m : Mutation) : Command.t := Command.mk rid "test" None (Some m).

(** The encoding of a command, in [message_wire]. *)
Definition sample_data (cmd : Command.t) : @bytes message_wire := inl cmd.
