(* ===== verification/StoreProps.v ===== *)
(** What the store's lookups and queries return: indexed lookups agree with scans
    of the collections, lists do not depend on map order, the histories are
    windows on what was appended, KV is a compare-and-swap register, and health
    reports are merged per assignment. *)
From S2P Require Import Prelude Api Watch State StateInv StateEquiv Snapshot Fsm Samples.

(** * Lists and map orders *)

Lemma NoDup_fmap_filter {A B} (f : A → B) (p : A → bool) l :
  NoDup (f <$> l) → NoDup (f <$> List.filter p l).
Proof.
  induction l as [|x l IH]; cbn; [done|]. intros [Hx Hl]%NoDup_cons.
  destruct (p x); cbn; [|by apply IH]. apply NoDup_cons. split; [|by apply IH].
  intros (y & Hy & Hin)%list_elem_of_fmap. apply Hx. apply list_elem_of_fmap. exists y.
  split; [done|]. rewrite list_elem_of_In in *. by apply filter_In in Hin as [??].
Qed.

Lemma elem_of_Filter {A} (p : A → bool) l (x : A) : x ∈ List.filter p l ↔ x ∈ l ∧ p x = true.
Proof. rewrite !list_elem_of_In. apply filter_In. Qed.

Lemma Filter_perm {A} (p : A → bool) (l1 l2 : list A) :
  l1 ≡ₚ l2 → List.filter p l1 ≡ₚ List.filter p l2.
Proof.
  induction 1; cbn; try case_match; try done; try case_match; try done.
  - by constructor.
  - by constructor.
  - by etransitivity.
Qed.

Section scans.
Context {A : Type} `{withMeta A}.
Implicit Types (m : gmap string (option A)) (p : option A → bool).

Lemma NoDup_ids_range (RO : RangeOrder) (ROk : RangeOrderOk RO) m :
  keyed m → NoDup (GetId <$> range_values m).
Proof. intros Hm. rewrite (fmap_range_values _ _ Hm). apply NoDup_fst_range. Qed.

Lemma sortByID_unique (l1 l2 : list (option A)) :
  l1 ≡ₚ l2 → NoDup (GetId <$> l1) → Store.sortByID l1 = Store.sortByID l2.
Proof. apply sort_key_unique. Qed.

Lemma sortByID_sorted (l : list (option A)) : StronglySorted (not_less (key_less GetId)) (Store.sortByID l).
Proof. apply sort_key_sorted. Qed.

Lemma range_values_orders (RO1 RO2 : RangeOrder) (RO1k : RangeOrderOk RO1) (RO2k : RangeOrderOk RO2) {B}
    (m : gmap string B) :
  range_values (RO := RO1) m ≡ₚ range_values (RO := RO2) m.
Proof. unfold range_values. by rewrite !range_perm. Qed.

(** A filtered list sorted by id is the same for every map order. *)
Lemma sortByID_filter_orders (RO1 RO2 : RangeOrder) (RO1k : RangeOrderOk RO1) (RO2k : RangeOrderOk RO2) p m :
  keyed m →
  Store.sortByID (List.filter p (range_values (RO := RO1) m))
  = Store.sortByID (List.filter p (range_values (RO := RO2) m)).
Proof.
  intros Hm. apply sortByID_unique; [apply Filter_perm, range_values_orders; done|].
  by apply NoDup_fmap_filter, NoDup_ids_range.
Qed.

Lemma sortByID_range_orders (RO1 RO2 : RangeOrder) (RO1k : RangeOrderOk RO1) (RO2k : RangeOrderOk RO2) m :
  keyed m →
  Store.sortByID (range_values (RO := RO1) m) = Store.sortByID (range_values (RO := RO2) m).
Proof.
  intros Hm. apply sortByID_unique; [by apply range_values_orders|]. by apply NoDup_ids_range.
Qed.

(** Looking up a set of ids that a predicate characterises is filtering. *)
Lemma lookup_scan (RO : RangeOrder) (ROk : RangeOrderOk RO) m p (ids : gset string) :
  keyed m → (∀ id, id ∈ ids ↔ ∃ x, m !! id = Some x ∧ p x = true) →
  ((λ id, default None (m !! id)) <$> range_keys ids) ≡ₚ List.filter p (range_values m).
Proof.
  intros Hm Hids. apply NoDup_Permutation.
  - apply NoDup_fmap_2_strong.
    + intros i j (x & Hx & _)%elem_of_range_keys%Hids (y & Hy & _)%elem_of_range_keys%Hids.
      rewrite Hx, Hy. cbn. intros ->. rewrite <- (Hm _ _ Hx). by apply Hm.
    + apply (NoDup_fst_range (gset_to_gmap () ids)).
  - eapply (NoDup_fmap_1 GetId), NoDup_fmap_filter. by apply NoDup_ids_range.
  - intros x. rewrite elem_of_Filter, elem_of_range_values, list_elem_of_fmap. split.
    + intros (id & -> & (y & Hy & Hp)%elem_of_range_keys%Hids). rewrite Hy. eauto.
    + intros [[id Hx] Hp]. exists id. rewrite Hx. split; [done|]. apply elem_of_range_keys, Hids. eauto.
Qed.
End scans.

Section indexed.
Context {RO : RangeOrder} {ROk : RangeOrderOk RO}.

Lemma ListAssignmentsByNode_eq node s :
  wf s →
  Store.ListAssignmentsByNode node s
  = Store.sortByID (List.filter (λ a, a ⇝ Assignment.NodeId =? node) (range_values (Store.assignments s))).
Proof.
  intros []. symmetry. apply sortByID_unique; [symmetry|by apply NoDup_fmap_filter, NoDup_ids_range].
  apply lookup_scan; [done|done|]. intros id. rewrite (wf_byNode node id). by setoid_rewrite str_eqb_eq.
Qed.

Lemma domains_of_perm host s :
  wf s →
  Store.domains_of host s ≡ₚ List.filter (λ d, d ⇝ Domain.Hostname =? host) (range_values (Store.domains s)).
Proof.
  intros []. apply lookup_scan; [done|done|].
  intros id. rewrite (wf_byHost host id). by setoid_rewrite str_eqb_eq.
Qed.
End indexed.

(** Every list method returns the same list whatever the iteration order of
    Go maps, so all nodes answer alike; releases need distinct versions within
    the environment asked for, the only list whose sort can tie. *)
Theorem lists_deterministic (RO1 RO2 : RangeOrder) (RO1k : RangeOrderOk RO1) (RO2k : RangeOrderOk RO2)
    (s : Store.t) (x y : string) :
  wf s →
  Store.ListUsers (RO := RO1) s = Store.ListUsers (RO := RO2) s
  ∧ Store.ListProjects (RO := RO1) s = Store.ListProjects (RO := RO2) s
  ∧ Store.ListApps (RO := RO1) x s = Store.ListApps (RO := RO2) x s
  ∧ Store.ListEnvironments (RO := RO1) x y s = Store.ListEnvironments (RO := RO2) x y s
  ∧ Store.ListDeployments (RO := RO1) x s = Store.ListDeployments (RO := RO2) x s
  ∧ Store.ListBuilds (RO := RO1) x s = Store.ListBuilds (RO := RO2) x s
  ∧ Store.ListNodes (RO := RO1) s = Store.ListNodes (RO := RO2) s
  ∧ Store.ListJoinTokens (RO := RO1) s = Store.ListJoinTokens (RO := RO2) s
  ∧ Store.ListAssignments (RO := RO1) x s = Store.ListAssignments (RO := RO2) x s
  ∧ Store.ListAssignmentsByNode (RO := RO1) x s = Store.ListAssignmentsByNode (RO := RO2) x s
  ∧ Store.ListTokens (RO := RO1) x s = Store.ListTokens (RO := RO2) x s
  ∧ Store.ListDomains (RO := RO1) x s = Store.ListDomains (RO := RO2) x s
  ∧ Store.ListVolumes (RO := RO1) x s = Store.ListVolumes (RO := RO2) x s
  ∧ Store.ListVolumeSnapshots (RO := RO1) x s = Store.ListVolumeSnapshots (RO := RO2) x s
  ∧ Store.ListBackupRecords (RO := RO1) s = Store.ListBackupRecords (RO := RO2) s
  ∧ Store.ListNetworkAllocations (RO := RO1) s = Store.ListNetworkAllocations (RO := RO2) s
  ∧ Store.ListJobs (RO := RO1) x y s = Store.ListJobs (RO := RO2) x y s
  ∧ ((∀ id1 id2 r1 r2, Store.releases s !! id1 = Some r1 → Store.releases s !! id2 = Some r2 →
        (x = "" ∨ r1 ⇝ Release.EnvironmentId = x ∧ r2 ⇝ Release.EnvironmentId = x) →
        r1 ⇝ Release.Version = r2 ⇝ Release.Version → id1 = id2) →
     Store.ListReleases (RO := RO1) x s = Store.ListReleases (RO := RO2) x s).
Proof.
  intros Hs. pose proof Hs as []. unfold Store.ListUsers, Store.ListProjects, Store.ListApps, Store.ListEnvironments,
    Store.ListDeployments, Store.ListBuilds, Store.ListNodes, Store.ListJoinTokens, Store.ListAssignments,
    Store.ListTokens, Store.ListDomains, Store.ListVolumes, Store.ListVolumeSnapshots,
    Store.ListBackupRecords, Store.ListJobs.
  repeat split; auto using sortByID_filter_orders, sortByID_range_orders.
  - rewrite !ListAssignmentsByNode_eq by done. apply sortByID_filter_orders; [done|done|by apply Hs].
  - apply sort_key_unique; [by apply range_values_orders|].
    rewrite (fmap_range_values _ _ wf_allocs). apply NoDup_fst_range.
  - intros Hv. apply sort_slice_unique.
    + unfold Store.release_newer. intros a b. rewrite Z.ltb_lt, Z.ltb_ge. lia.
    + unfold not_less, Store.release_newer. intros a b c. rewrite !Z.ltb_ge. lia.
    + by apply Filter_perm, range_values_orders.
    + intros a b [Ha Pa]%elem_of_Filter [Hb Pb]%elem_of_Filter.
      apply elem_of_range_values in Ha as [ka Ha], Hb as [kb Hb].
      unfold not_less, Store.release_newer. rewrite !Z.ltb_ge. intros H1 H2.
      assert (ka = kb) as <-; [|congruence]. apply (Hv _ _ _ _ Ha Hb); [|lia].
      apply orb_prop in Pa as [Pa|Pa], Pb as [Pb|Pb]; apply str_eqb_eq in Pa, Pb; auto.
Qed.

(** The two indexed list queries return what a scan of the collection would:
    the assignments of a node by id, and the domains of a hostname with the
    longest path prefix first. *)
Theorem indexed_lists_scan (RO : RangeOrder) (ROk : RangeOrderOk RO) (s : Store.t) (node host : string) :
  wf s →
  Store.ListAssignmentsByNode node s
    = Store.sortByID (List.filter (λ a, a ⇝ Assignment.NodeId =? node) (range_values (Store.assignments s)))
  ∧ Store.DomainsByHostname host s ≡ₚ
      List.filter (λ d, d ⇝ Domain.Hostname =? host) (range_values (Store.domains s))
  ∧ StronglySorted (λ d1 d2, String.length (d2 ⇝ Domain.PathPrefix) ≤ String.length (d1 ⇝ Domain.PathPrefix))
      (Store.DomainsByHostname host s).
Proof.
  intros Hs. split_and!.
  - by apply ListAssignmentsByNode_eq.
  - unfold Store.DomainsByHostname. rewrite sort_slice_perm. by apply domains_of_perm.
  - eapply (StronglySorted_weaken (not_less Store.domain_less)); [|apply sort_slice_sorted].
    + intros d1 d2. unfold not_less, Store.domain_less. case_bool_decide; [lia|]. case_bool_decide; [done|lia].
    + intros d1 d2. unfold Store.domain_less. repeat case_bool_decide; try done; try lia. apply str_ltb_asym.
    + intros d1 d2 d3. unfold not_less, Store.domain_less. repeat case_bool_decide; try done; try lia. apply str_leb_trans.
Qed.

(** * Tokens *)

(** A presented hash authenticates only a stored token that has it; a token
    just put is found under its hash; rotating a token's secret invalidates the
    old hash; and a deleted token is never found again, by any hash. *)
Theorem token_authentication (s : Store.t) (tok : option Token.t) (id h : string) :
  wf s →
  (∀ t, Store.TokenByHash h s = Some t → t ⇝ Token.SecretHash = h ∧ Store.tokens s !! GetId t = Some t)
  ∧ Store.TokenByHash (tok ⇝ Token.SecretHash) (Store.PutToken tok s) = Some tok
  ∧ (∀ prev, Store.tokens s !! GetId tok = Some prev → prev ⇝ Token.SecretHash ≠ tok ⇝ Token.SecretHash →
       Store.TokenByHash (prev ⇝ Token.SecretHash) (Store.PutToken tok s) = None)
  ∧ (∀ t, Store.TokenByHash h (Store.DeleteToken id s) = Some t → GetId t ≠ id).
Proof.
  assert (∀ s' t, wf s' → Store.TokenByHash h s' = Some t →
    t ⇝ Token.SecretHash = h ∧ Store.tokens s' !! GetId t = Some t) as Hsound.
  { intros s' t [] Ht. unfold Store.TokenByHash in Ht.
    destruct (Store.tokensByHash s' !! h) as [i|] eqn:Hi; [|done]. injection Ht as <-.
    destruct (wf_byHash _ _ Hi) as (x & Hx & Hk). rewrite Hx. cbn. by rewrite (wf_tokens _ _ Hx). }
  intros Hs. split_and!; [intros t; by apply Hsound| | |].
  - unfold Store.TokenByHash, Store.PutToken, Store.touch.
    destruct (Store.tokens s !! GetId tok); get_set; by rewrite !lookup_insert_eq.
  - intros prev Hp Hne. unfold Store.TokenByHash, Store.PutToken, Store.touch. rewrite Hp. get_set.
    by rewrite lookup_insert_ne, lookup_delete_eq by done.
  - intros t Ht <-. apply Hsound in Ht as [_ Ht]; [|by apply wf_DeleteToken]. revert Ht.
    unfold Store.DeleteToken, Store.touch. destruct (Store.tokens s !! GetId t) as [p|] eqn:Hp; [|by rewrite Hp].
    get_set. by rewrite lookup_delete_eq.
Qed.

(** * KV *)

Definition kv_version (k : string) (s : Store.t) : Z := kvEntry.version (default (kvEntry.mk [] 0 0) (Store.kv s !! k)).

(** A key is a compare-and-swap register.  A put whose expected version is
    negative or current stores the value with the next version; any other put
    reports the conflict and leaves the whole store as it was.  A delete obeys the
    same rule.  No other key changes. *)
Theorem kv_compare_and_swap (s : Store.t) (k : string) (v : list Byte.byte) (ev ex : Z) :
  let r := Store.PutKV k v ev ex s in
  let d := Store.DeleteKV k ev s in
  let accepted := (ev < 0 ∨ kv_version k s = ev)%Z in
  (accepted → r.2 = inl (i64 (kv_version k s + 1))
              ∧ Store.KV k r.1 = Some (v, i64 (kv_version k s + 1), ex))
  ∧ (¬ accepted → r = (s, inr Store.ErrKVConflict))
  ∧ (accepted → d.2 = None ∧ Store.KV k d.1 = None)
  ∧ (¬ accepted → Store.kv s !! k ≠ None → d = (s, Some Store.ErrKVConflict))
  ∧ (∀ k', k' ≠ k → Store.KV k' r.1 = Store.KV k' s ∧ Store.KV k' d.1 = Store.KV k' s).
Proof.
  assert (∀ b : Z, ((0 <=? ev)%Z && negb (b =? ev)%Z) = bool_decide (¬ (ev < 0 ∨ b = ev)%Z)) as Hacc.
  { intros b. case_bool_decide; destruct (Z.leb_spec 0 ev), (Z.eqb_spec b ev); cbn; lia. }
  unfold kv_version, Store.PutKV, Store.DeleteKV, Store.KV. cbv zeta. rewrite Hacc. split_and!.
  - intros Ha. rewrite bool_decide_eq_false_2 by naive_solver. unfold Store.touch. split; [done|]. cbn [fst]. get_set.
    by rewrite lookup_insert_eq.
  - intros Ha. by rewrite bool_decide_eq_true_2.
  - destruct (Store.kv s !! k) as [e|] eqn:Hk; cbn [default from_option id]; intros Ha.
    + rewrite Hacc, bool_decide_eq_false_2 by naive_solver. unfold Store.touch. split; [done|]. cbn [fst]. get_set.
      by rewrite lookup_delete_eq.
    + cbn [fst snd]. by rewrite Hk.
  - destruct (Store.kv s !! k) as [e|] eqn:Hk; [|done]. cbn [default from_option id]. intros Ha _.
    by rewrite Hacc, bool_decide_eq_true_2.
  - intros k' Hne. split.
    + destruct (bool_decide _); [done|]. unfold Store.touch. cbn [fst]. get_set. by rewrite lookup_insert_ne.
    + destruct (Store.kv s !! k) as [e|]; [|done]. destruct (_ && _); [done|].
      unfold Store.touch. cbn [fst]. get_set. by rewrite lookup_delete_ne.
Qed.

(** * Histories *)

Definition keep {A} (filter : option (A → bool)) : A → bool :=
  match filter with None => λ _, true | Some p => p end.

Lemma query_loop_take {A} (f : option (A → bool)) n (l : list A) :
  Store.query_loop f n l = take n (List.filter (keep f) l).
Proof.
  revert n. induction l as [|x l IH]; intros [|n]; cbn; try done.
  unfold keep at 1. destruct f as [p|]; [destruct (p x)|]; cbn; by rewrite !IH.
Qed.

(** The event and audit histories are windows on everything appended: after an
    append, a query returns the newest matching entries first, at most [limit] of
    them (100 when it is not positive), out of the last 10000 events or 50000
    audit entries. *)
Theorem histories_are_windows (s : Store.t) (evs : list (option Event.t)) (aud : list (option AuditEntry.t))
    (fe : option (option Event.t → bool)) (fa : option (option AuditEntry.t → bool)) (limit : Z) :
  Store.QueryEvents fe limit (Store.AppendEvents evs s)
    = take (Store.query_limit limit) (List.filter (keep fe) (rev (last_n (Z.to_nat eventRingCap) (Store.events s ++ evs))))
  ∧ Store.QueryAudit fa limit (Store.AppendAudit aud s)
    = take (Store.query_limit limit) (List.filter (keep fa) (rev (last_n (Z.to_nat auditRingCap) (Store.audit s ++ aud)))).
Proof.
  unfold Store.QueryEvents, Store.QueryAudit. rewrite events_AppendEvents, audit_AppendAudit.
  by rewrite !query_loop_take.
Qed.

(** * Observed state of assignments *)

(** What a report leaves of one assignment. *)
Definition reported (node : string) (observed : gmap string (option AssignmentObserved.t)) (id : string)
    (a : option Assignment.t) : option Assignment.t :=
  match observed !! id, a with
  | Some obs, Some a' => if a ⇝ Assignment.NodeId =? node then Some (Store.observe_assignment a' obs) else a
  | _, _ => a
  end.

Lemma setObserved_lookup node s id obs s' :
  Store.setObserved node s (id, obs) = Ret s' →
  (∀ id', id' ≠ id → Store.assignments s' !! id' = Store.assignments s !! id')
  ∧ Store.assignments s' !! id = reported node {[id := obs]} id <$> Store.assignments s !! id.
Proof.
  rewrite setObserved_eq. unfold observed_upd, reported. rewrite lookup_singleton_eq.
  destruct (Store.assignments s !! id) as [[a|]|] eqn:Ha; cbn.
  - destruct (Assignment.NodeId a =? node) eqn:Hn; cbn; intros [= <-].
    + unfold Store.touch. get_set. split; [intros; by apply lookup_insert_ne|]. by rewrite lookup_insert_eq.
    + by rewrite Ha.
  - destruct (_ =? node); cbn; [done|]. intros [= <-]. by rewrite Ha.
  - intros [= <-]. by rewrite Ha.
Qed.

Lemma setObserved_loop node l s s' :
  NoDup l.*1 → ofoldl (Store.setObserved node) s l = Ret s' →
  ∀ id, Store.assignments s' !! id = reported node (list_to_map l) id <$> Store.assignments s !! id.
Proof.
  revert s. induction l as [|[k o] l IH]; intros s Hnd.
  - intros [= ->] id. unfold reported. cbn. by destruct (Store.assignments s' !! id).
  - rewrite ofoldl_cons. destruct (Store.setObserved node s (k, o)) as [s1|] eqn:E; [|done].
    cbn in Hnd. apply NoDup_cons in Hnd as [Hk Hnd]. intros Hl id. rewrite (IH _ Hnd Hl id).
    apply setObserved_lookup in E as [Hother Hk']. cbn. destruct (decide (id = k)) as [->|Hne].
    + rewrite Hk'. rewrite <- option_fmap_compose. apply option_fmap_ext. intros a. cbn.
      unfold reported. rewrite lookup_singleton_eq, lookup_insert_eq.
      rewrite (proj1 (not_elem_of_list_to_map l k) Hk). done.
    + rewrite Hother by done. apply option_fmap_ext. intros a. unfold reported. by rewrite lookup_insert_ne.
Qed.

Lemma observed_of_observe a obs :
  Assignment.Observed (Store.observe_assignment a obs) = Store.merge_observed (Assignment.Observed a) obs.
Proof. unfold Store.observe_assignment. by case_match. Qed.

Lemma merge_running cur obs :
  AssignmentObserved.State obs = INSTANCE_STATE_RUNNING →
  cur ⇝ AssignmentObserved.State = INSTANCE_STATE_HEALTHY
  ∨ cur ⇝ AssignmentObserved.State = INSTANCE_STATE_UNHEALTHY →
  Store.merge_observed cur (Some obs) ⇝ AssignmentObserved.State = cur ⇝ AssignmentObserved.State.
Proof.
  intros Hr Hc. unfold Store.merge_observed. cbn [get]. rewrite Hr.
  by rewrite decide_True, decide_True.
Qed.

(** A node's report updates exactly the assignments it names that are placed on
    that node, each independently of the others; and a RUNNING report never
    downgrades an assignment already HEALTHY or UNHEALTHY. *)
Theorem observed_reports (RO : RangeOrder) (ROk : RangeOrderOk RO) (s s' : Store.t) (node : string)
    (observed : gmap string (option AssignmentObserved.t)) :
  Store.SetAssignmentObserved node observed s = Ret s' →
  (∀ id, Store.assignments s' !! id = reported node observed id <$> Store.assignments s !! id)
  ∧ (∀ id a a' obs, Store.assignments s !! id = Some a → Store.assignments s' !! id = Some a' →
      observed !! id = Some obs →
      obs ⇝ AssignmentObserved.State = INSTANCE_STATE_RUNNING →
      a ⇝ Assignment.Observed ⇝ AssignmentObserved.State = INSTANCE_STATE_HEALTHY
      ∨ a ⇝ Assignment.Observed ⇝ AssignmentObserved.State = INSTANCE_STATE_UNHEALTHY →
      a' ⇝ Assignment.Observed ⇝ AssignmentObserved.State = a ⇝ Assignment.Observed ⇝ AssignmentObserved.State).
Proof.
  intros Hs. assert (∀ id, Store.assignments s' !! id = reported node observed id <$> Store.assignments s !! id) as Hr.
  { intros id. unfold Store.SetAssignmentObserved in Hs. rewrite <- (list_to_map_range observed).
    eapply setObserved_loop; [apply NoDup_fst_range|done]. }
  split; [done|]. intros id a a' obs Ha Ha' Hobs Hrun Hst. rewrite Hr, Ha in Ha'. injection Ha' as <-.
  unfold reported. rewrite Hobs. destruct a as [a|]; [|done]. destruct (_ =? node); [|done].
  destruct obs as [obs|]; [|done]. cbn in Hrun, Hst |- *.
  rewrite observed_of_observe. by apply merge_running.
Qed.

(** * Release versions *)

Section releases.
Context {RO : RangeOrder} {ROk : RangeOrderOk RO}.

Definition version_step (envID : string) (maxV : Z) (r : option Release.t) : Z :=
  if (r ⇝ Release.EnvironmentId =? envID) && (maxV <? r ⇝ Release.Version)%Z
  then r ⇝ Release.Version else maxV.

Lemma version_loop envID l v :
  (v ≤ foldl (version_step envID) v l)%Z
  ∧ (∀ r, r ∈ l → r ⇝ Release.EnvironmentId = envID → r ⇝ Release.Version ≤ foldl (version_step envID) v l)%Z
  ∧ (foldl (version_step envID) v l = v
     ∨ ∃ r, r ∈ l ∧ r ⇝ Release.EnvironmentId = envID ∧ r ⇝ Release.Version = foldl (version_step envID) v l).
Proof.
  revert v. induction l as [|x l IH]; intros v; cbn.
  { split; [lia|]. split; [set_solver|by left]. }
  destruct (IH (version_step envID v x)) as (H1 & H2 & H3).
  assert (v ≤ version_step envID v x
    ∧ (x ⇝ Release.EnvironmentId = envID → x ⇝ Release.Version ≤ version_step envID v x)
    ∧ (version_step envID v x = v ∨ x ⇝ Release.EnvironmentId = envID
         ∧ x ⇝ Release.Version = version_step envID v x))%Z as (S1 & S2 & S3).
  { unfold version_step. destruct (x ⇝ Release.EnvironmentId =? envID) eqn:E; cbn.
    - apply str_eqb_eq in E. destruct (Z.ltb_spec v (x ⇝ Release.Version)); split_and!; auto; lia.
    - apply str_eqb_neq in E. split_and!; [lia|done|by left]. }
  split; [lia|]. split.
  - intros r [->|Hr]%elem_of_cons He; [specialize (S2 He); lia|by apply H2].
  - destruct H3 as [H3|(r & Hr & He & Hv)].
    + destruct S3 as [S3|[He Hv]]; [left; congruence|right]. exists x. split; [left|]. split; congruence.
    + right. exists r. split; [by right|done].
Qed.
End releases.

Lemma elem_of_sort_slice {A} (less : A → A → bool) l (x : A) : x ∈ sort_slice less l ↔ x ∈ l.
Proof. by rewrite sort_slice_perm. Qed.

Lemma release_newer_sorted l : StronglySorted (not_less Store.release_newer) (sort_slice Store.release_newer l).
Proof.
  apply sort_slice_sorted.
  - unfold Store.release_newer. intros a b. rewrite Z.ltb_lt, Z.ltb_ge. lia.
  - unfold not_less, Store.release_newer. intros a b c. rewrite !Z.ltb_ge. lia.
Qed.

(** While versions stay below 2^64 - 1, the next version of an environment is
    larger than every version it has, by exactly one than the largest; and a new
    release put with it is the first of the environment's release list. *)
Theorem next_release_version (RO : RangeOrder) (ROk : RangeOrderOk RO) (s : Store.t) (env : string)
    (rel : option Release.t) :
  (∀ id r, Store.releases s !! id = Some r → 0 ≤ r ⇝ Release.Version < 2 ^ 64 - 1)%Z →
  let v := Store.NextReleaseVersion env s in
  (∀ id r, Store.releases s !! id = Some r → r ⇝ Release.EnvironmentId = env → r ⇝ Release.Version < v)%Z
  ∧ (v = 1 ∨ ∃ id r, Store.releases s !! id = Some r ∧ r ⇝ Release.EnvironmentId = env
                     ∧ v = r ⇝ Release.Version + 1)%Z
  ∧ (env ≠ "" → rel ⇝ Release.EnvironmentId = env → rel ⇝ Release.Version = v →
     head (Store.ListReleases env (Store.PutRelease rel s)) = Some rel).
Proof.
  intros Hb v. destruct (version_loop env (range_values (Store.releases s)) 0) as (H0 & Hmax & Hreach).
  assert (v = u64 (foldl (version_step env) 0%Z (range_values (Store.releases s)) + 1)) as Hv by done.
  assert (foldl (version_step env) 0%Z (range_values (Store.releases s)) < 2 ^ 64 - 1)%Z as Hlt.
  { destruct Hreach as [->|(r & [id Hr]%elem_of_range_values & _ & <-)]; [done|]. by apply (Hb id). }
  rewrite u64_small in Hv by lia.
  assert (∀ id r, Store.releases s !! id = Some r → r ⇝ Release.EnvironmentId = env → r ⇝ Release.Version < v)%Z as Hall.
  { intros id r Hr He. rewrite Hv. assert (r ∈ range_values (Store.releases s)) as Hin by (apply elem_of_range_values; eauto).
    specialize (Hmax r Hin He). lia. }
  split_and!; [done| |].
  - destruct Hreach as [He|(r & [id Hr]%elem_of_range_values & He & Hw)]; [left; lia|right].
    exists id, r. split; [done|]. split; [done|]. lia.
  - intros Hne Henv Hrv. unfold Store.ListReleases.
    set (l := List.filter _ _). pose proof (release_newer_sorted l) as Hs.
    assert (rel ∈ sort_slice Store.release_newer l) as Hin.
    { apply elem_of_sort_slice. unfold l. apply elem_of_Filter. rewrite elem_of_range_values. split.
      - exists (GetId rel). unfold Store.PutRelease, Store.touch. get_set. apply lookup_insert_eq.
      - rewrite (proj2 (str_eqb_eq _ _) Henv). apply orb_true_r. }
    destruct (sort_slice Store.release_newer l) as [|x k] eqn:E; [by apply elem_of_nil in Hin|]. cbn. f_equal.
    apply elem_of_cons in Hin as [->|Hin]; [done|]. apply StronglySorted_cons in Hs as [Hx _].
    rewrite Forall_forall in Hx. specialize (Hx _ Hin).
    assert (x ∈ l) as Hxl by (apply (elem_of_sort_slice Store.release_newer); rewrite E; left).
    unfold l in Hxl. apply elem_of_Filter in Hxl as [[id Hid]%elem_of_range_values Hp].
    apply orb_prop in Hp as [Hp|Hp]; apply str_eqb_eq in Hp; [done|].
    revert Hid. unfold Store.PutRelease, Store.touch. get_set.
    intros [[_ ->]|[_ Hid]]%lookup_insert_Some; [done|].
    specialize (Hall _ _ Hid Hp). unfold not_less, Store.release_newer in Hx. apply Z.ltb_ge in Hx. lia.
Qed.

(** * Witnesses *)

#[local] Existing Instance canonical_range.

Definition sample_store : Store.t :=
  Store.PutAssignments
    [Some (sample_assignment "a2" "n1" "e1" "r1" "" ASSIGNMENT_DESIRED_RUN INSTANCE_STATE_HEALTHY);
     Some (sample_assignment "a1" "n1" "e1" "r1" "" ASSIGNMENT_DESIRED_RUN INSTANCE_STATE_RUNNING)]
    (Store.PutRelease (Some (sample_release "r1" "e1" 4 (sample_spec false 1 100 100)))
    (Store.PutToken (Some (sample_token "t1" "h1"))
    (Store.PutUser (Some (sample_user "u2" "b@x"))
    (Store.PutUser (Some (sample_user "u1" "a@x")) Store.New)))).

Lemma wf_sample_store : wf sample_store.
Proof. unfold sample_store. auto 10 with store_wf. Qed.

Lemma lists_deterministic_witness :
  Store.ListUsers (RO := canonical_range) sample_store = Store.ListUsers (RO := reversed_range) sample_store
  ∧ length (Store.ListUsers (RO := reversed_range) sample_store) = 2.
Proof.
  split; [|vm_compute; reflexivity].
  exact (proj1 (lists_deterministic canonical_range reversed_range _ _ sample_store "" "" wf_sample_store)).
Defined.

Lemma indexed_lists_scan_witness :
  Store.ListAssignmentsByNode "n1" sample_store
  = Store.sortByID (List.filter (λ a, a ⇝ Assignment.NodeId =? "n1") (range_values (Store.assignments sample_store)))
  ∧ length (Store.ListAssignmentsByNode "n1" sample_store) = 2.
Proof.
  split; [|vm_compute; reflexivity].
  exact (proj1 (indexed_lists_scan canonical_range _ sample_store "n1" "" wf_sample_store)).
Defined.

Lemma token_authentication_witness :
  Store.TokenByHash "h1" sample_store = Some (Some (sample_token "t1" "h1"))
  ∧ Store.TokenByHash "h1" (Store.PutToken (Some (sample_token "t1" "h2")) sample_store) = None.
Proof.
  split; [vm_compute; reflexivity|].
  refine (proj1 (proj2 (proj2 (token_authentication sample_store (Some (sample_token "t1" "h2")) "" "" wf_sample_store)))
    (Some (sample_token "t1" "h1")) _ _); [vm_compute; reflexivity|vm_compute; discriminate].
Defined.

Definition sample_report : gmap string (option AssignmentObserved.t) :=
  {["a2" := Some (AssignmentObserved.mk INSTANCE_STATE_RUNNING "" 0 0 "" None ∅)]}.

Lemma observed_reports_witness :
  ∃ s', Store.SetAssignmentObserved "n1" sample_report sample_store = Ret s'
        ∧ Store.assignments s' !! "a1" = reported "n1" sample_report "a1" <$> Store.assignments sample_store !! "a1".
Proof.
  destruct (Store.SetAssignmentObserved "n1" sample_report sample_store) as [s'|] eqn:E; [|vm_compute in E; discriminate].
  exists s'. split; [reflexivity|].
  exact (proj1 (observed_reports canonical_range _ sample_store s' "n1" sample_report E) "a1").
Defined.

Lemma next_release_version_witness :
  Store.NextReleaseVersion "e1" sample_store = 5%Z
  ∧ (∀ id r, Store.releases sample_store !! id = Some r → r ⇝ Release.EnvironmentId = "e1" →
       r ⇝ Release.Version < Store.NextReleaseVersion "e1" sample_store)%Z.
Proof.
  split; [vm_compute; reflexivity|].
  refine (proj1 (next_release_version canonical_range _ sample_store "e1" None _)).
  intros id r Hr. change (Store.releases sample_store) with
    (<["r1" := Some (sample_release "r1" "e1" 4 (sample_spec false 1 100 100))]> (∅ : gmap string (option Release.t))) in Hr.
  apply lookup_insert_Some in Hr as [[_ <-]|[_ Hr]]; [vm_compute; split; [discriminate|reflexivity]|].
  by rewrite lookup_empty in Hr.
Defined.
