(* ===== verification/FsmProps.v ===== *)
(** Properties of the Raft state machine. *)
From S2P Require Import Prelude Api Watch State StateInv StateEquiv Snapshot Fsm Samples.

(** * Well-formedness *)

Section wf.
Context {RO : RangeOrder} {TL : TimestampLib}.

Lemma GetId_deployment_update (d d' : Deployment.t) :
  (Deployment.Meta d' ⇝ Meta.Id) = (Deployment.Meta d ⇝ Meta.Id) → GetId (Some d') = GetId (Some d).
Proof. done. Qed.

Lemma wf_apply cmd s s' e : wf s → FSM.apply cmd s = Ret (s', e) → wf s'.
Proof.
  intros Hs. unfold FSM.apply, FSM.done_, FSM.fail_. destruct (Command.Mut cmd) as [m|]; [|by intros [= <- _]].
  destruct m; try (intros [= <- _]; by auto with store_wf).
  - unfold FSM.applySetDeploymentPhase, FSM.done_, FSM.fail_.
    destruct (Store.Deployment _ s) as [d|]; [|by intros [= <- _]].
    destruct (match Command.Time cmd with None => _ | Some _ => _ end) as [[d'|]|]; cbn; [|done|done].
    intros [= <- _]. by auto with store_wf.
  - unfold FSM.applyPromoteRelease, FSM.done_, FSM.fail_.
    destruct (Store.Environment _ s) as [[env|]|]; [| |by intros [= <- _]];
      destruct (Store.Release _ s); try done; intros [= <- _]; by auto with store_wf.
  - unfold FSM.applySetNodeStatus, FSM.done_, FSM.fail_.
    destruct (Store.Node _ s) as [[n|]|]; try done; intros [= <- _]; by auto with store_wf.
  - unfold FSM.applyConsumeJoinToken, FSM.done_, FSM.fail_.
    destruct (List.find _ _) as [tok|]; [|by intros [= <- _]].
    destruct (_ && _); [by intros [= <- _]|]. destruct tok; [|done].
    intros [= <- _]. by auto with store_wf.
  - unfold FSM.lift. destruct (Store.SetAssignmentObserved _ _ s) eqn:E; cbn; [|done].
    intros [= <- _]. by eapply wf_SetAssignmentObserved.
  - unfold FSM.lift. destruct (Store.TouchTokens _ s) eqn:E; cbn; [|done].
    intros [= <- _]. by eapply wf_TouchTokens.
  - destruct (Store.PutKV _ _ _ _ s) as [s1 r] eqn:E. intros [= <- _]. cbn.
    change s1 with (s1, r).1. rewrite <- E. apply wf_PutKV; [|done].
    destruct (m ⇝ PutKV.ExpiresAt); [apply i64_range|]. unfold in_i64. lia.
  - unfold FSM.lift. destruct (Store.SetVolumeLease _ _ s) eqn:E; cbn; [|done].
    intros [= <- _]. by eapply wf_SetVolumeLease.
Qed.

Lemma wf_ApplyCommand i cmd s s' r : wf s → FSM.ApplyCommand i cmd s = Ret (s', r) → wf s'.
Proof.
  intros Hs. unfold FSM.ApplyCommand.
  destruct (if Command.RequestId cmd =? "" then _ else _) as [s1 fr] eqn:Hm.
  assert (wf s1) as Hs1.
  { destruct (Command.RequestId cmd =? ""); [by injection Hm as <- _|].
    change s1 with (s1, fr).1. rewrite <- Hm. by apply wf_MarkApplied. }
  destruct fr; cbn; [|by intros [= <- _]].
  destruct (FSM.apply cmd s1) as [[s2 e]|] eqn:Ha; cbn; [|done].
  intros [= <- _]. by eapply wf_apply.
Qed.

Context {W : WireLib}.

Lemma wf_Apply i d s s' r : wf s → FSM.Apply i d s = Ret (s', r) → wf s'.
Proof.
  intros Hs. unfold FSM.Apply. destruct (UnmarshalCommand d) as [cmd|]; [|by intros [= <- _]].
  by apply wf_ApplyCommand.
Qed.
End wf.

(** Every loop of RestoreProto respects the invariant, whatever the iteration
    order when two users share an email or two tokens a hash. *)
Section wf_restore.
Context {RO : RangeOrder} {ROk : RangeOrderOk RO}.
Context {TL : TimestampLib} {TLok : TimestampLibOk TL}.

Lemma load_sound {A V} (key : A → string) (val : A → V) l m k v :
  StoreSnapshot.load key val l m !! k = Some v →
  (∃ x, x ∈ l ∧ key x = k ∧ val x = v) ∨ m !! k = Some v.
Proof.
  unfold StoreSnapshot.load. revert m. induction l as [|x l IH]; intros m; cbn; [by right|].
  intros [(y & Hy & Hk)|Hm]%IH.
  - left. exists y. split; [by right|done].
  - apply lookup_insert_Some in Hm as [[<- <-]|[_ Hm]]; [|by right].
    left. exists x. split; [left|done].
Qed.

Lemma unique_index_load {A} `{withMeta A} (key : option A → string) m :
  keyed m → unique_index key m (StoreSnapshot.load key GetId (range_values m) ∅).
Proof.
  intros Hm k id Hk. apply load_sound in Hk as [(x & Hx & <- & <-)|Hk]; [|by rewrite lookup_empty in Hk].
  apply elem_of_range_values in Hx as [id Hx]. exists x. by rewrite (Hm _ _ Hx).
Qed.

(** The restored store, up to the two unique indexes. *)
Definition reindexed (s : Store.t) : Store.t :=
  s <| Store.usersByEmail := StoreSnapshot.load (get User.Email) GetId (range_values (Store.users s)) ∅ |>
    <| Store.tokensByHash := StoreSnapshot.load (get Token.SecretHash) GetId (range_values (Store.tokens s)) ∅ |>.

Lemma restored_reindexed i s s0 :
  wf s → StoreSnapshot.restored (StoreSnapshot.SnapshotProto i s) s0 ≡ reindexed s.
Proof.
  intros Hs. destruct Hs. unfold reindexed. split; get_set; cbn;
    try (by apply load_by_id_range); try done.
  - by destruct (Store.org s).
  - by destruct (Store.clusterKey s).
  - apply nested_eq_nonempty; [by apply load_index_nonempty|done|by apply load_index_range].
  - by apply load_kv_range.
  - by destruct (Store.backupConfig s).
  - by apply load_allocs_range.
  - apply load_vips_range.
  - rewrite applied_set_loop, (applied_ids _ _ wf_applied). set_solver.
  - rewrite snapshot_members_eq. apply load_nested_range. intros p u x Hx%elem_of_nested_range.
    destruct (Store.projectMembers s !! p) as [b|] eqn:Hb; cbn in Hx; [|by rewrite lookup_empty in Hx].
    destruct (wf_members p u b x Hb Hx). done.
  - rewrite snapshot_vars_eq. by apply load_nested_range.
  - by apply load_index_range.
Qed.

Lemma wf_reindexed s : wf s → wf (reindexed s).
Proof. unfold reindexed. solve_wf; by apply unique_index_load. Qed.

Lemma wf_equiv s1 s2 : s1 ≡ s2 → wf s1 → wf s2.
Proof.
  intros E. symmetry in E. intros []. split; rewrite_fields E; auto.
  - intros p u byUser x Hp Hu. pose proof (eqv_projectMembers _ _ E p) as Hm. rewrite Hp in Hm. cbn in Hm.
    subst byUser. destruct (Store.projectMembers s1 !! p) as [b|] eqn:Hb; cbn in Hu; [eauto|].
    by rewrite lookup_empty in Hu.
  - intros k id. rewrite (eqv_assignmentsByNode _ _ E k). apply wf_byNode.
Qed.

Lemma wf_RestoreProto i s s0 : wf s → wf (StoreSnapshot.RestoreProto (StoreSnapshot.SnapshotProto i s) s0).
Proof.
  intros Hs. apply (wf_equiv (reindexed s)); [|by apply wf_reindexed].
  by rewrite RestoreProto_equiv, restored_reindexed.
Qed.
End wf_restore.

(** The stores a node can hold: from the empty store, by applying log entries and
    by restoring snapshots that some node persisted, each with its own map orders. *)
Inductive reachable {TL : TimestampLib} {W : WireLib} : Store.t → Prop :=
| reach_new : reachable Store.New
| reach_apply {RO : RangeOrder} i d s s' r :
    reachable s → FSM.Apply i d s = Ret (s', r) → reachable s'
| reach_restore {RO : RangeOrder} {ROk : RangeOrderOk RO} s d s0 s' :
    reachable s → snapshot_no_nil (StoreSnapshot.SnapshotProto 0 s) →
    FSM.Persist s = Some d → FSM.Restore d s0 = Some s' → reachable s'.

Lemma wf_reachable {TL : TimestampLib} {TLok : TimestampLibOk TL} {W : WireLib} {Wok : WireLibOk W} s :
  reachable s → wf s.
Proof.
  induction 1 as [|RO i d s s' r _ IH Ha|RO ROk s d s0 s' _ IH Hnn Hp Hr].
  - apply wf_New.
  - by eapply wf_Apply.
  - unfold FSM.Restore in Hr. unfold FSM.Persist in Hp.
    rewrite (Unmarshal_Marshal _ _ Hnn Hp) in Hr. injection Hr as <-. by apply wf_RestoreProto.
Qed.

(** * Replicas agree *)

Section replicas.
Context {RO1 RO2 : RangeOrder} {RO1k : RangeOrderOk RO1} {RO2k : RangeOrderOk RO2}.
Context {TL : TimestampLib}.

Definition result_equiv {R} (o1 o2 : outcome (Store.t * R)) : Prop :=
  match o1, o2 with
  | Ret (s1, r1), Ret (s2, r2) => s1 ≡ s2 ∧ r1 = r2
  | Panic, Panic => True
  | _, _ => False
  end.

Lemma lift_equiv o1 o2 : outcome_equiv o1 o2 → result_equiv (FSM.lift o1) (FSM.lift o2).
Proof. destruct o1, o2; by cbn. Qed.

Lemma ListJoinTokens_orders s :
  keyed (Store.joinTokens s) →
  Store.ListJoinTokens (RO := RO1) s = Store.ListJoinTokens (RO := RO2) s.
Proof.
  intros Hk. apply sort_key_unique.
  - unfold range_values. by rewrite !range_perm.
  - rewrite (fmap_range_values _ _ Hk). apply NoDup_fst_range.
Qed.

Lemma ListJoinTokens_equiv s1 s2 :
  wf s2 → s1 ≡ s2 → Store.ListJoinTokens (RO := RO1) s1 = Store.ListJoinTokens (RO := RO2) s2.
Proof.
  intros Hs E. rewrite <- (ListJoinTokens_orders s2) by apply Hs.
  unfold Store.ListJoinTokens. by rewrite (eqv_joinTokens _ _ E).
Qed.

#[local] Hint Resolve SetOrg_equiv SetClusterKeyMaterial_equiv PutUser_equiv DeleteUser_equiv
  PutProject_equiv DeleteProject_equiv PutProjectMember_equiv DeleteProjectMember_equiv PutApp_equiv
  DeleteApp_equiv PutEnvironment_equiv DeleteEnvironment_equiv SetEnvVars_equiv PutRelease_equiv
  DeleteRelease_equiv PutDeployment_equiv PutBuild_equiv PutNode_equiv DeleteNode_equiv
  PutJoinToken_equiv PutAssignments_equiv DeleteAssignments_equiv PutToken_equiv DeleteToken_equiv
  PutDomain_equiv DeleteDomain_equiv PutDNSProvider_equiv DeleteDNSProvider_equiv PutVolume_equiv
  DeleteVolume_equiv PutVolumeSnapshot_equiv DeleteVolumeSnapshot_equiv SetBackupConfig_equiv
  PutBackupRecord_equiv SetNetworkAllocation_equiv SetServiceVIP_equiv PutJob_equiv PutAlertRule_equiv
  DeleteAlertRule_equiv PutNotificationChannel_equiv DeleteNotificationChannel_equiv
  AppendEvents_equiv AppendAudit_equiv SetAssignmentObserved_equiv TouchTokens_equiv
  SetVolumeLease_equiv lift_equiv : store_wf.

Lemma apply_equiv cmd s1 s2 :
  wf s2 → s1 ≡ s2 → result_equiv (FSM.apply (RO := RO1) cmd s1) (FSM.apply (RO := RO2) cmd s2).
Proof.
  intros Hs E. unfold FSM.apply, FSM.done_, FSM.fail_. destruct (Command.Mut cmd) as [m|]; [|done].
  destruct m; try (split; [by auto with store_wf|done]); try (by auto with store_wf).
  - unfold FSM.applySetDeploymentPhase, Store.Deployment, FSM.done_, FSM.fail_. rewrite_fields E.
    destruct (Store.deployments s2 !! (m ⇝ SetDeploymentPhase.DeploymentId)) as [d|]; [|done].
    destruct (match Command.Time cmd with None => _ | Some _ => _ end) as [[d'|]|]; cbn; [|done|done].
    split; [by auto with store_wf|done].
  - unfold FSM.applyPromoteRelease, Store.Environment, Store.Release, FSM.done_, FSM.fail_. rewrite_fields E.
    destruct (Store.environments s2 !! (m ⇝ PromoteRelease.EnvironmentId)) as [[env|]|],
      (Store.releases s2 !! (m ⇝ PromoteRelease.ReleaseId)); cbn; try done.
    split; [by auto with store_wf|done].
  - unfold FSM.applySetNodeStatus, Store.Node, FSM.done_, FSM.fail_. rewrite_fields E.
    destruct (Store.nodes s2 !! (m ⇝ SetNodeStatus.NodeId)) as [[n|]|]; cbn; try done. split; [by auto with store_wf|done].
  - unfold FSM.applyConsumeJoinToken, FSM.done_, FSM.fail_. rewrite (ListJoinTokens_equiv s1 s2) by done.
    destruct (List.find _ _) as [tok|]; [|done]. destruct (_ && _); [done|].
    destruct tok; cbn; [|done]. split; [by auto with store_wf|done].
  - unfold FSM.kv_result.
    pose proof (PutKV_equiv (m ⇝ PutKV.Key) (m ⇝ PutKV.Value) (m ⇝ PutKV.ExpectedVersion)
      (match m ⇝ PutKV.ExpiresAt with None => 0%Z | Some ts => UnixMilli (AsTime (Some ts)) end) s1 s2 E) as [H1 H2].
    destruct (Store.PutKV _ _ _ _ s1), (Store.PutKV _ _ _ _ s2); cbn in *. by subst.
  - unfold FSM.kv_result.
    pose proof (DeleteKV_equiv (m ⇝ DeleteKV.Key) (m ⇝ DeleteKV.ExpectedVersion) s1 s2 E) as [H1 H2].
    destruct (Store.DeleteKV _ _ s1), (Store.DeleteKV _ _ s2); cbn in *. by subst.
Qed.

Lemma ApplyCommand_equiv i cmd s1 s2 :
  wf s2 → s1 ≡ s2 →
  result_equiv (FSM.ApplyCommand (RO := RO1) i cmd s1) (FSM.ApplyCommand (RO := RO2) i cmd s2).
Proof.
  intros Hs E. unfold FSM.ApplyCommand.
  destruct (Command.RequestId cmd =? "").
  - cbn [negb]. pose proof (apply_equiv cmd s1 s2 Hs E) as H.
    destruct (FSM.apply (RO := RO1) cmd s1) as [[]|], (FSM.apply (RO := RO2) cmd s2) as [[]|];
      cbn in *; naive_solver.
  - pose proof (MarkApplied_equiv (Command.RequestId cmd) i s1 s2 E) as [H1 H2].
    pose proof (wf_MarkApplied (Command.RequestId cmd) i s2 Hs) as Hs2.
    destruct (Store.MarkApplied _ _ s1) as [t1 f], (Store.MarkApplied _ _ s2) as [t2 f']; cbn in *.
    subst f'. destruct f; [|done]. cbn [negb].
    pose proof (apply_equiv cmd t1 t2 Hs2 H1) as H.
    destruct (FSM.apply (RO := RO1) cmd t1) as [[]|], (FSM.apply (RO := RO2) cmd t2) as [[]|];
      cbn in *; naive_solver.
Qed.

Context {W : WireLib}.

Lemma Apply_equiv i d s1 s2 :
  wf s2 → s1 ≡ s2 → result_equiv (FSM.Apply (RO := RO1) i d s1) (FSM.Apply (RO := RO2) i d s2).
Proof.
  intros Hs E. unfold FSM.Apply. destruct (UnmarshalCommand d) as [cmd|]; [|done].
  by apply ApplyCommand_equiv.
Qed.

Lemma replay_equiv log s1 s2 :
  wf s2 → s1 ≡ s2 → result_equiv (FSM.replay (RO := RO1) log s1) (FSM.replay (RO := RO2) log s2).
Proof.
  revert s1 s2. induction log as [|[i d] log IH]; intros s1 s2 Hs E; cbn [FSM.replay]; [done|].
  pose proof (Apply_equiv i d s1 s2 Hs E) as H.
  destruct (FSM.Apply (RO := RO1) i d s1) as [[t1 r1]|] eqn:H1,
    (FSM.Apply (RO := RO2) i d s2) as [[t2 r2]|] eqn:H2; cbn in *; try done.
  destruct H as [Et ->]. assert (wf t2) as Ht by (by eapply wf_Apply).
  specialize (IH t1 t2 Ht Et).
  destruct (FSM.replay (RO := RO1) log t1) as [[]|], (FSM.replay (RO := RO2) log t2) as [[]|];
    cbn in *; naive_solver.
Qed.
End replicas.

(** C1: the state machine is deterministic.  Two nodes in equivalent states, with
    unrelated map iteration orders, that replay the same log return the same result
    for every entry and end in equivalent states (or both panic). *)
Theorem replicas_agree (RO1 RO2 : RangeOrder) (RO1k : RangeOrderOk RO1) (RO2k : RangeOrderOk RO2)
    (TL : TimestampLib) (TLok : TimestampLibOk TL) (W : WireLib) (Wok : WireLibOk W)
    (log : list FSM.entry) (s1 s2 : Store.t) :
  reachable s2 → s1 ≡ s2 →
  result_equiv (FSM.replay (RO := RO1) log s1) (FSM.replay (RO := RO2) log s2).
Proof. intros Hs. apply replay_equiv. by eapply wf_reachable. Qed.

(** C2: a node restored from another node's snapshot is equivalent to that node,
    and stays so: replaying any further log gives the same results and equivalent
    states.  It is supposed that no collection holds a nil message, which a snapshot would
    not give back, and that the indexes by email and by token hash are exact: the user or
    token that one names is the only one with that key, and every user and token is named
    (so it is where no command gives a user the email, or a token the hash, of another one;
    FsmKeys.v shows this, and a run with such commands where a restored node differs). *)
Theorem restored_replica_agrees (RO1 RO2 : RangeOrder) (RO1k : RangeOrderOk RO1)
    (RO2k : RangeOrderOk RO2) (TL : TimestampLib) (TLok : TimestampLibOk TL)
    (W : WireLib) (Wok : WireLibOk W) (log : list FSM.entry) (s s0 s' : Store.t) (d : bytes) :
  reachable s → unique_keys s →
  snapshot_no_nil (StoreSnapshot.SnapshotProto (RO := RO1) 0 s) →
  FSM.Persist (RO := RO1) s = Some d → FSM.Restore d s0 = Some s' →
  s' ≡ s ∧ result_equiv (FSM.replay (RO := RO2) log s') (FSM.replay (RO := RO1) log s).
Proof.
  intros Hs Huniq Hnn Hp Hr. apply wf_reachable in Hs.
  unfold FSM.Restore in Hr. unfold FSM.Persist in Hp.
  rewrite (Unmarshal_Marshal _ _ Hnn Hp) in Hr. injection Hr as <-.
  assert (StoreSnapshot.RestoreProto (StoreSnapshot.SnapshotProto (RO := RO1) 0 s) s0 ≡ s) as E
    by (by apply restore_snapshot_equiv).
  split; [done|]. by apply replay_equiv.
Qed.

(** * Witnesses *)

#[local] Existing Instance message_wire.
#[local] Existing Instance wellknown_times.

(** A log with a duplicate request, an undecodable entry and a failing command. *)
Definition sample_log : list FSM.entry :=
  [(1%Z, sample_data (sample_cmd "q1" (Command_PutUser (Some (PutUser.mk (Some (sample_user "u1" "a@x")))))));
   (2%Z, sample_data (sample_cmd "q1" (Command_DeleteUser (Some (DeleteByID.mk "u1")))));
   (3%Z, inr (StoreSnapshot.SnapshotProto (RO := canonical_range) 0 Store.New));
   (4%Z, sample_data (sample_cmd "q2" (Command_PutAssignments (Some (PutAssignments.mk
      [Some (sample_assignment "a2" "n1" "e1" "r1" "" ASSIGNMENT_DESIRED_RUN INSTANCE_STATE_HEALTHY);
       Some (sample_assignment "a1" "n1" "e1" "r1" "" ASSIGNMENT_DESIRED_RUN INSTANCE_STATE_RUNNING)])))));
   (5%Z, sample_data (sample_cmd "q3" (Command_PromoteRelease (Some (PromoteRelease.mk "e9" "r9" "d9")))))].

(** The store that log leaves, replayed in the canonical order. *)
Definition replayed (log : list FSM.entry) : Store.t :=
  match FSM.replay (RO := canonical_range) log Store.New with Ret (s, _) => s | Panic => Store.New end.

Lemma reachable_replay (RO : RangeOrder) log s s' rs :
  reachable s → FSM.replay log s = Ret (s', rs) → reachable s'.
Proof.
  revert s rs. induction log as [|[i d] log IH]; intros s rs Hs; cbn [FSM.replay]; [by intros [= <- _]|].
  destruct (FSM.Apply i d s) as [[s1 r1]|] eqn:Ha; unfold mbind, outcome_bind; cbn [obind]; [|done].
  destruct (FSM.replay log s1) as [[s2 rs2]|] eqn:Hl; cbn [obind]; [|done]. intros [= <- _].
  eapply IH; [|done]. by eapply reach_apply.
Qed.

Lemma reachable_replayed log : reachable (replayed log).
Proof.
  unfold replayed. destruct (FSM.replay log Store.New) as [[s rs]|] eqn:E; [|apply reach_new].
  eapply reachable_replay; [apply reach_new|done].
Qed.

Lemma replicas_agree_witness :
  result_equiv (FSM.replay (RO := reversed_range) sample_log (replayed sample_log))
               (FSM.replay (RO := canonical_range) sample_log (replayed sample_log))
  ∧ is_ret (FSM.replay (RO := reversed_range) sample_log (replayed sample_log)).
Proof.
  split; [|vm_compute; eexists; reflexivity].
  exact (replicas_agree reversed_range canonical_range _ _ wellknown_times _ message_wire _ sample_log _ _
    (reachable_replayed sample_log) (reflexivity _)).
Defined.

(** A snapshot of the store after the first entry, restored into an empty node. *)
Definition sample_snapshot : Snapshot.t :=
  StoreSnapshot.SnapshotProto (RO := canonical_range) 0 (replayed (take 1 sample_log)).

Lemma sample_snapshot_no_nil : snapshot_no_nil sample_snapshot.
Proof. split; vm_compute; repeat constructor; discriminate. Qed.

Lemma sample_unique_keys : unique_keys (replayed (take 1 sample_log)).
Proof.
  split.
  - change (Store.usersByEmail (replayed (take 1 sample_log))) with (<["a@x" := "u1"]> (∅ : gmap string string)).
    change (Store.users (replayed (take 1 sample_log))) with
      (<["u1" := Some (sample_user "u1" "a@x")]> (∅ : gmap string (option User.t))).
    intros k id. rewrite lookup_insert_Some, lookup_empty. setoid_rewrite lookup_insert_Some.
    setoid_rewrite lookup_empty. split.
    + intros [[<- <-]|[_ [=]]]. exists (Some (sample_user "u1" "a@x")). auto.
    + intros (x & [[<- <-]|[_ [=]]] & <-). auto.
  - change (Store.tokensByHash (replayed (take 1 sample_log))) with (∅ : gmap string string).
    change (Store.tokens (replayed (take 1 sample_log))) with (∅ : gmap string (option Token.t)).
    intros k id. rewrite lookup_empty. setoid_rewrite lookup_empty. naive_solver.
Qed.

Lemma restored_replica_agrees_witness :
  ∃ s', FSM.Restore (inr sample_snapshot : @bytes message_wire) Store.New = Some s' ∧ s' ≡ replayed (take 1 sample_log).
Proof.
  eexists. split; [reflexivity|].
  exact (proj1 (restored_replica_agrees canonical_range reversed_range _ _ wellknown_times _ message_wire _ sample_log
    (replayed (take 1 sample_log)) Store.New _ _ (reachable_replayed _) sample_unique_keys sample_snapshot_no_nil
    (eq_refl _) (eq_refl _))).
Defined.
