(* ===== verification/FsmSafety.v ===== *)
(** When the state machine can panic, and what its three guarded transitions do.

    The handlers dereference the object a command names, so a stored nil object is
    a crash waiting for the command that touches it.  [solid] stores hold none and
    [cmd_solid] commands put none: a log of such commands never panics.  A command
    whose object is absent decodes without error, and a two-entry log of decodable
    commands panics every node that applies it. *)
From S2P Require Import Prelude Api Watch State StateInv StateEquiv Snapshot Fsm Samples FsmProps.

Create HintDb solid.

(** * Stores without nil objects *)

Definition all_set {A} (P : option A → Prop) (m : gmap string (option A)) : Prop :=
  ∀ id x, m !! id = Some x → P x.

Definition present {A} (x : option A) : Prop := x ≠ None.

Definition deployment_ok (d : option Deployment.t) : Prop :=
  match d with Some d => present (Deployment.Meta d) | None => False end.

Record solid (s : Store.t) : Prop := {
  solid_deployments : all_set deployment_ok (Store.deployments s);
  solid_environments : all_set present (Store.environments s);
  solid_nodes : all_set present (Store.nodes s);
  solid_joinTokens : all_set present (Store.joinTokens s);
  solid_assignments : all_set present (Store.assignments s);
  solid_tokens : all_set present (Store.tokens s);
  solid_volumes : all_set present (Store.volumes s)
}.

Definition cmd_solid (cmd : Command.t) : Prop :=
  match Command.Mut cmd with
  | Some (Command_PutDeployment m) => deployment_ok (m ⇝ PutDeployment.Deployment)
  | Some (Command_PutEnvironment m) => present (m ⇝ PutEnvironment.Environment)
  | Some (Command_PutNode m) => present (m ⇝ PutNode.Node)
  | Some (Command_PutJoinToken m) => present (m ⇝ PutJoinToken.Token)
  | Some (Command_PutAssignments m) => Forall present (m ⇝ PutAssignments.Assignments)
  | Some (Command_PutToken m) => present (m ⇝ PutToken.Token)
  | Some (Command_PutVolume m) => present (m ⇝ PutVolume.Volume)
  | _ => True
  end.

Lemma all_set_insert {A} (P : option A → Prop) m id x : P x → all_set P m → all_set P (<[id := x]> m).
Proof. intros Hx Hm id' y [[_ <-]|[_ Hy]]%lookup_insert_Some; [done|by eapply Hm]. Qed.

Lemma all_set_delete {A} (P : option A → Prop) m id : all_set P m → all_set P (delete id m).
Proof. intros Hm id' y [_ Hy]%lookup_delete_Some. by eapply Hm. Qed.

Lemma all_set_empty {A} (P : option A → Prop) : all_set P ∅.
Proof. intros id x. by rewrite lookup_empty. Qed.

Lemma present_Some {A} (x : A) : present (Some x).
Proof. done. Qed.

#[export] Hint Resolve all_set_insert all_set_delete all_set_empty present_Some : solid.

(** Every operation that does not touch the seven collections, or that deletes
    from one, is covered by unfolding it. *)
Ltac solve_solid := intros []; unfold Store.touch; split; get_set; auto with solid.

Lemma solid_New : solid Store.New.
Proof. split; cbn; auto with solid. Qed.

Section preservation.
Context {RO : RangeOrder} {TL : TimestampLib}.

(** Handlers that return the store an operation leaves. *)
Lemma done_ok s : solid s → ∃ s' e, FSM.done_ s = Ret (s', e) ∧ solid s'.
Proof. unfold FSM.done_. eauto. Qed.

Lemma fail_ok s err : solid s → ∃ s' e, FSM.fail_ s err = Ret (s', e) ∧ solid s'.
Proof. unfold FSM.fail_. eauto. Qed.

Lemma lift_ok o : (∃ s', o = Ret s' ∧ solid s') → ∃ s' e, FSM.lift o = Ret (s', e) ∧ solid s'.
Proof. intros (s' & -> & Hs). exists s', None. done. Qed.

Lemma solid_putAssignmentLocked a s : present a → solid s → solid (Store.putAssignmentLocked a s).
Proof. unfold Store.putAssignmentLocked. intros Ha. case_match; [case_match|]; solve_solid. Qed.

Lemma solid_PutAssignments as_ s : Forall present as_ → solid s → solid (Store.PutAssignments as_ s).
Proof.
  rewrite Forall_forall. intros Ha Hs. apply (foldl_invariant solid); [done|].
  intros y a Hin. by apply solid_putAssignmentLocked, Ha.
Qed.

Lemma solid_DeleteAssignments ids s : solid s → solid (Store.DeleteAssignments ids s).
Proof.
  intros Hs. apply (foldl_invariant solid); [done|]. intros y a _. unfold Store.deleteAssignment.
  case_match; [solve_solid|done].
Qed.

Lemma solid_setObserved node s r :
  solid s → ∃ s', Store.setObserved node s r = Ret s' ∧ solid s'.
Proof.
  intros Hs. destruct r as [id obs]. unfold Store.setObserved.
  destruct (Store.assignments s !! id) as [a|] eqn:Ha; [|by eauto]. destruct (negb _); [by eauto|].
  destruct a as [a|]; [|by destruct (solid_assignments _ Hs _ _ Ha)]. eexists. split; [done|].
  revert Hs; solve_solid.
Qed.

Lemma solid_touchToken s r : solid s → ∃ s', Store.touchToken s r = Ret s' ∧ solid s'.
Proof.
  intros Hs. destruct r as [id ms]. unfold Store.touchToken.
  destruct (Store.tokens s !! id) as [[tok|]|] eqn:Ht; [| |by eauto].
  - destruct (Store.used_before tok ms); [|by eauto]. eexists. split; [done|]. revert Hs; solve_solid.
  - by destruct (solid_tokens _ Hs _ _ Ht).
Qed.

Lemma solid_SetVolumeLease id l s : solid s → ∃ s', Store.SetVolumeLease id l s = Ret s' ∧ solid s'.
Proof.
  intros Hs. unfold Store.SetVolumeLease. destruct (Store.volumes s !! id) as [[v|]|] eqn:Hv; [| |by eauto].
  - eexists. split; [done|]. revert Hs; solve_solid.
  - by destruct (solid_volumes _ Hs _ _ Hv).
Qed.

Lemma solid_AppendEvents evs s : solid s → solid (Store.AppendEvents evs s).
Proof.
  intros Hs. unfold Store.AppendEvents.
  assert (solid (foldl Store.appendEvent s evs)) as H; [|revert H; solve_solid].
  apply (foldl_invariant solid); [done|]. intros y e _. unfold Store.appendEvent. solve_solid.
Qed.

Lemma solid_AppendAudit es s : solid s → solid (Store.AppendAudit es s).
Proof.
  intros Hs. unfold Store.AppendAudit.
  assert (solid (foldl (λ s e, s <| Store.audit ::= λ l, l ++ [e] |>) s es)) as H; [|revert H; solve_solid].
  apply (foldl_invariant solid); [done|]. intros y e _. solve_solid.
Qed.

Lemma solid_SetDeploymentPhase now m s :
  solid s → ∃ s' e, FSM.applySetDeploymentPhase now m s = Ret (s', e) ∧ solid s'.
Proof.
  intros Hs. unfold FSM.applySetDeploymentPhase, Store.Deployment.
  destruct (Store.deployments s !! (m ⇝ SetDeploymentPhase.DeploymentId)) as [d|] eqn:Hd; [|by apply fail_ok].
  apply (solid_deployments _ Hs) in Hd as Hok. destruct d as [d|]; [|done].
  destruct (Deployment.Meta d) as [meta|] eqn:Hm; [|by cbn in Hok; rewrite Hm in Hok].
  destruct now as [now|]; unfold mbind, outcome_bind; cbn [obind]; apply done_ok; unfold Store.PutDeployment;
    revert Hs; solve_solid; apply all_set_insert; try done; cbn;
    destruct (_ =? _), (m ⇝ SetDeploymentPhase.PromotedAt), (m ⇝ SetDeploymentPhase.DrainDeadline);
    unfold set; cbn; rewrite ?Hm; done.
Qed.

Lemma solid_PromoteRelease m s :
  solid s → ∃ s' e, FSM.applyPromoteRelease m s = Ret (s', e) ∧ solid s'.
Proof.
  intros Hs. unfold FSM.applyPromoteRelease, Store.Environment, Store.Release.
  destruct (Store.environments s !! (m ⇝ PromoteRelease.EnvironmentId)) as [e|] eqn:He; [|by apply fail_ok].
  destruct (Store.releases s !! (m ⇝ PromoteRelease.ReleaseId)); [|by apply fail_ok].
  destruct e as [e|]; [|by destruct (solid_environments _ Hs _ _ He)]. apply done_ok.
  unfold Store.PutEnvironment. revert Hs; solve_solid.
Qed.

Lemma solid_SetNodeStatus m s : solid s → ∃ s' e, FSM.applySetNodeStatus m s = Ret (s', e) ∧ solid s'.
Proof.
  intros Hs. unfold FSM.applySetNodeStatus, Store.Node.
  destruct (Store.nodes s !! (m ⇝ SetNodeStatus.NodeId)) as [n|] eqn:Hn; [|by apply fail_ok].
  destruct n as [n|]; [|by destruct (solid_nodes _ Hs _ _ Hn)]. apply done_ok.
  unfold Store.PutNode. revert Hs; solve_solid.
Qed.

Lemma solid_ConsumeJoinToken {ROk : RangeOrderOk RO} m s :
  solid s → ∃ s' e, FSM.applyConsumeJoinToken m s = Ret (s', e) ∧ solid s'.
Proof.
  intros Hs. unfold FSM.applyConsumeJoinToken. destruct (List.find _ _) as [tok|] eqn:Hf; [|by apply fail_ok].
  destruct (_ && _); [by apply fail_ok|]. apply find_some in Hf as [Hf _]. rewrite <- list_elem_of_In in Hf.
  unfold Store.ListJoinTokens, Store.sortByID in Hf. rewrite sort_slice_perm in Hf.
  apply elem_of_range_values in Hf as [id Hf].
  destruct tok as [tok|]; [|by destruct (solid_joinTokens _ Hs _ _ Hf)].
  apply done_ok. unfold Store.PutJoinToken. revert Hs; solve_solid.
Qed.

Lemma solid_PutKV k v ev ex s : solid s → solid (Store.PutKV k v ev ex s).1.
Proof. unfold Store.PutKV. destruct (_ && _); [done|]. cbn [fst]. solve_solid. Qed.

Lemma solid_DeleteKV k ev s : solid s → solid (Store.DeleteKV k ev s).1.
Proof. unfold Store.DeleteKV. destruct (Store.kv s !! k); [|done]. destruct (_ && _); [done|]. cbn [fst]. solve_solid. Qed.

Lemma solid_PutDomain d s : solid s → solid (Store.PutDomain d s).
Proof.
  unfold Store.PutDomain, Store.indexDomain. destruct (Store.domains s !! GetId d);
    rewrite ?unindexDomain_eq; solve_solid.
Qed.

Lemma solid_DeleteDomain id s : solid s → solid (Store.DeleteDomain id s).
Proof.
  unfold Store.DeleteDomain. destruct (Store.domains s !! id); [|done]. rewrite unindexDomain_eq. solve_solid.
Qed.

Lemma solid_MarkApplied rid ix s : solid s → solid (Store.MarkApplied rid ix s).1.
Proof. unfold Store.MarkApplied. case_bool_decide; [done|]. cbn [fst]. solve_solid. Qed.
End preservation.

#[export] Hint Resolve solid_PutAssignments solid_DeleteAssignments solid_AppendEvents solid_AppendAudit
  solid_PutDomain solid_DeleteDomain solid_SetDeploymentPhase solid_PromoteRelease solid_SetNodeStatus
  solid_ConsumeJoinToken lift_ok done_ok fail_ok : solid.

(** The operations that are covered by their definition. *)
Create HintDb solid_ops.
#[export] Hint Unfold Store.SetOrg Store.SetClusterKeyMaterial Store.PutUser Store.DeleteUser Store.PutProject
  Store.DeleteProject Store.PutProjectMember Store.DeleteProjectMember Store.PutApp Store.DeleteApp
  Store.PutEnvironment Store.DeleteEnvironment Store.SetEnvVars Store.PutRelease Store.DeleteRelease
  Store.PutDeployment Store.PutBuild Store.PutNode Store.DeleteNode Store.PutJoinToken Store.PutToken
  Store.DeleteToken Store.PutDNSProvider Store.DeleteDNSProvider Store.PutVolume Store.DeleteVolume
  Store.PutVolumeSnapshot Store.DeleteVolumeSnapshot Store.SetBackupConfig Store.PutBackupRecord
  Store.SetNetworkAllocation Store.SetServiceVIP Store.PutJob Store.PutAlertRule Store.DeleteAlertRule
  Store.PutNotificationChannel Store.DeleteNotificationChannel : solid_ops.

(** Branches on the stored object, then the update. *)
Ltac solid_op Hs :=
  apply done_ok; autounfold with solid_ops; revert Hs;
  repeat match goal with
  | |- context [match ?x with Some _ => _ | None => _ end] =>
    lazymatch type of x with option _ => destruct x end
  | |- context [if ?b then _ else _] => destruct b
  end; first [done|solve_solid].

Section safety.
Context {RO : RangeOrder} {ROk : RangeOrderOk RO} {TL : TimestampLib}.

Lemma solid_apply cmd s :
  solid s → cmd_solid cmd → ∃ s' e, FSM.apply cmd s = Ret (s', e) ∧ solid s'.
Proof.
  intros Hs Hc. unfold FSM.apply, cmd_solid in *. destruct (Command.Mut cmd) as [m|]; [|by apply fail_ok].
  destruct m; try (by auto with solid); try (by solid_op Hs);
    try (apply lift_ok; unfold Store.SetAssignmentObserved, Store.TouchTokens;
         first [by apply solid_SetVolumeLease|apply (ofoldl_total solid); auto using solid_setObserved, solid_touchToken]).
  - cbv zeta. destruct (Store.PutKV _ _ _ _ s) as [s1 r] eqn:E. unfold FSM.kv_result. do 2 eexists. split; [done|].
    cbn [fst]. change s1 with (s1, r).1. rewrite <- E. by apply solid_PutKV.
  - unfold FSM.kv_result. do 2 eexists. split; [done|]. by apply solid_DeleteKV.
Qed.

Lemma solid_ApplyCommand i cmd s :
  solid s → cmd_solid cmd → ∃ s' r, FSM.ApplyCommand i cmd s = Ret (s', r) ∧ solid s'.
Proof.
  intros Hs Hc. unfold FSM.ApplyCommand.
  destruct (if Command.RequestId cmd =? "" then _ else _) as [s1 fr] eqn:Hm.
  assert (solid s1) as Hs1.
  { destruct (Command.RequestId cmd =? ""); [by injection Hm as <- _|].
    change s1 with (s1, fr).1. rewrite <- Hm. by apply solid_MarkApplied. }
  destruct fr; cbn [negb]; [|by eauto].
  destruct (solid_apply cmd s1 Hs1 Hc) as (s2 & e & -> & Hs2). unfold mbind, outcome_bind; cbn [obind]. eauto.
Qed.

Context {W : WireLib}.

Definition entry_solid (e : FSM.entry) : Prop :=
  ∀ cmd, UnmarshalCommand e.2 = Some cmd → cmd_solid cmd.

Lemma solid_Apply i d s :
  solid s → entry_solid (i, d) → ∃ s' r, FSM.Apply i d s = Ret (s', r) ∧ solid s'.
Proof.
  intros Hs Hd. unfold FSM.Apply. destruct (UnmarshalCommand d) as [cmd|] eqn:E; [|by eauto].
  apply solid_ApplyCommand; [done|]. by apply Hd.
Qed.

Lemma solid_replay log s :
  solid s → Forall entry_solid log → ∃ s' rs, FSM.replay log s = Ret (s', rs) ∧ length rs = length log ∧ solid s'.
Proof.
  revert s. induction log as [|[i d] log IH]; intros s Hs Hlog; cbn [FSM.replay]; [by eauto|].
  apply Forall_cons in Hlog as [Hd Hlog].
  destruct (solid_Apply i d s Hs Hd) as (s1 & r & -> & Hs1). unfold mbind, outcome_bind; cbn [obind].
  destruct (IH s1 Hs1 Hlog) as (s2 & rs & -> & Hl & Hs2). cbn [obind].
  exists s2, (r :: rs). cbn [length]. by rewrite Hl.
Qed.
End safety.

(** C40: a log whose decodable commands all carry the object they put never panics,
    from the empty store and for every map order, and returns a result for each
    entry; undecodable entries, commands
    without a mutation and mutations this binary does not know are among them. *)
Theorem solid_log_never_panics (RO : RangeOrder) (ROk : RangeOrderOk RO) (TL : TimestampLib) (W : WireLib)
    (log : list FSM.entry) :
  Forall entry_solid log →
  ∃ s rs, FSM.replay log Store.New = Ret (s, rs) ∧ length rs = length log ∧ solid s.
Proof. apply solid_replay, solid_New. Qed.

(** The opposite holds of two decodable commands: a PutVolume without a volume
    stores nil under the empty id, and a lease for the empty volume id then
    dereferences it, which panics every node that applies the log. *)
Theorem decodable_log_panics (RO : RangeOrder) (TL : TimestampLib) (W : WireLib) (d1 d2 : bytes)
    (c1 c2 : Command.t) (i j : Z) (lease : option VolumeLease.t) :
  UnmarshalCommand d1 = Some c1 → Command.Mut c1 = Some (Command_PutVolume (Some (PutVolume.mk None))) →
  UnmarshalCommand d2 = Some c2 → Command.Mut c2 = Some (Command_PutVolumeLease (Some (PutVolumeLease.mk "" lease))) →
  Command.RequestId c1 ≠ Command.RequestId c2 →
  FSM.replay [(i, d1); (j, d2)] Store.New = Panic.
Proof.
  intros H1 M1 H2 M2 Hne.
  assert (∀ rid ix s, rid ∉ Store.appliedSet s →
    (if rid =? "" then (s, true) else Store.MarkApplied rid ix s).2 = true
    ∧ Store.volumes (if rid =? "" then (s, true) else Store.MarkApplied rid ix s).1 = Store.volumes s
    ∧ Store.appliedSet (if rid =? "" then (s, true) else Store.MarkApplied rid ix s).1
        ⊆ {[rid]} ∪ Store.appliedSet s) as Hmark.
  { intros rid ix s Hr. destruct (rid =? ""); [split_and!; [done|done|set_solver]|].
    unfold Store.MarkApplied. rewrite bool_decide_eq_false_2 by done. cbn [fst snd].
    split_and!; [done|by get_set|]. get_set. rewrite foldl_difference. set_solver. }
  cbn [FSM.replay]. unfold FSM.Apply. rewrite H1, H2. unfold FSM.ApplyCommand.
  destruct (Hmark (Command.RequestId c1) i Store.New) as (F1 & V1 & S1); [set_solver|].
  destruct (if Command.RequestId c1 =? "" then _ else _) as [s1 f1]. cbn [fst snd] in F1, V1, S1. subst f1.
  set (s2 := Store.PutVolume None s1).
  assert (FSM.apply c1 s1 = Ret (s2, None)) as A1 by (unfold FSM.apply; by rewrite M1).
  cbn [negb]. rewrite A1. unfold mbind, outcome_bind. cbn [obind].
  destruct (Hmark (Command.RequestId c2) j s2) as (F2 & V2 & S2).
  { unfold s2, Store.PutVolume, Store.touch. get_set. cbn in S1. set_solver. }
  destruct (if Command.RequestId c2 =? "" then _ else _) as [s3 f3]. cbn [fst snd] in F2, V2, S2. subst f3.
  assert (FSM.apply c2 s3 = FSM.lift (Store.SetVolumeLease "" lease s3)) as A2 by (unfold FSM.apply; by rewrite M2).
  cbn [negb]. rewrite A2. unfold Store.SetVolumeLease. rewrite V2. unfold s2, Store.PutVolume, Store.touch. get_set.
  change (GetId (None : option Volume.t)) with "". by rewrite lookup_insert_eq.
Qed.

(** * Witnesses *)

Lemma sample_log_solid : Forall (entry_solid (W := message_wire)) sample_log.
Proof.
  unfold sample_log. repeat (apply Forall_cons; split; [|]); [..|constructor];
    intros cmd E; vm_compute in E; try discriminate E; injection E as <-; vm_compute;
    repeat constructor; discriminate.
Qed.

Lemma solid_log_never_panics_witness :
  ∃ s rs, FSM.replay (RO := canonical_range) (TL := wellknown_times) (W := message_wire) sample_log Store.New = Ret (s, rs)
          ∧ length rs = 5 ∧ solid s.
Proof.
  exact (solid_log_never_panics canonical_range _ wellknown_times message_wire sample_log sample_log_solid).
Defined.

Lemma decodable_log_panics_witness :
  FSM.replay (RO := canonical_range) (TL := wellknown_times) (W := message_wire)
    [(1%Z, sample_data (sample_cmd "q1" (Command_PutVolume (Some (PutVolume.mk None)))));
     (2%Z, sample_data (sample_cmd "q2" (Command_PutVolumeLease (Some (PutVolumeLease.mk "" None)))))] Store.New = Panic.
Proof.
  refine (decodable_log_panics canonical_range wellknown_times message_wire
    (sample_data (sample_cmd "q1" (Command_PutVolume (Some (PutVolume.mk None)))))
    (sample_data (sample_cmd "q2" (Command_PutVolumeLease (Some (PutVolumeLease.mk "" None)))))
    _ _ 1 2 None eq_refl eq_refl eq_refl eq_refl _).
  discriminate.
Defined.
