(* ===== verification/FsmSteps.v ===== *)
(** The steps of the state machine one by one: request ids are applied at most
    once within the window of the applied-request ring, and the guarded
    transitions (promotion, deployment phases, join tokens) do what their
    commands say and nothing else. *)
From S2P Require Import Prelude Api Watch State StateInv StateEquiv StoreProps Snapshot Fsm Samples FsmProps FsmSafety.

(** * At most once *)

Definition ring_of (s : Store.t) : list (option AppliedRequest.t) * gset string :=
  (Store.appliedRequests s, Store.appliedSet s).

Section frame.
Context {RO : RangeOrder} {TL : TimestampLib}.

Lemma ring_foldl {A} (f : Store.t → A → Store.t) l s :
  (∀ s a, ring_of (f s a) = ring_of s) → ring_of (foldl f s l) = ring_of s.
Proof. intros Hf. apply (foldl_invariant (λ s', ring_of s' = ring_of s)); [done|]. intros y a _ <-. apply Hf. Qed.

Lemma ring_ofoldl {A} (f : Store.t → A → outcome Store.t) l s s' :
  (∀ s a s', f s a = Ret s' → ring_of s' = ring_of s) → ofoldl f s l = Ret s' → ring_of s' = ring_of s.
Proof.
  intros Hf. apply (ofoldl_invariant (λ s', ring_of s' = ring_of s)); [|done].
  intros y a y' <- _. apply Hf.
Qed.

(** Branches on the state, then the updates. *)
Ltac solve_ring :=
  repeat match goal with
  | |- context [match ?x with Some _ => _ | None => _ end] =>
    lazymatch type of x with option _ => destruct x end
  | |- context [if ?b then _ else _] => destruct b
  end; unfold ring_of, Store.touch; get_set; reflexivity.

Lemma ring_PutAssignments as_ s : ring_of (Store.PutAssignments as_ s) = ring_of s.
Proof. apply ring_foldl. intros y a. unfold Store.putAssignmentLocked. solve_ring. Qed.
Lemma ring_DeleteAssignments ids s : ring_of (Store.DeleteAssignments ids s) = ring_of s.
Proof. apply ring_foldl. intros y a. unfold Store.deleteAssignment. solve_ring. Qed.
Lemma ring_PutDomain d s : ring_of (Store.PutDomain d s) = ring_of s.
Proof. unfold Store.PutDomain, Store.indexDomain. destruct (Store.domains s !! GetId d); rewrite ?unindexDomain_eq; solve_ring. Qed.
Lemma ring_DeleteDomain id s : ring_of (Store.DeleteDomain id s) = ring_of s.
Proof. unfold Store.DeleteDomain. destruct (Store.domains s !! id); rewrite ?unindexDomain_eq; solve_ring. Qed.
Lemma ring_AppendEvents evs s : ring_of (Store.AppendEvents evs s) = ring_of s.
Proof.
  unfold Store.AppendEvents. rewrite <- (ring_foldl Store.appendEvent evs s); [solve_ring|].
  intros y e. unfold Store.appendEvent. solve_ring.
Qed.
Lemma ring_AppendAudit es s : ring_of (Store.AppendAudit es s) = ring_of s.
Proof.
  unfold Store.AppendAudit.
  rewrite <- (ring_foldl (λ s e, s <| Store.audit ::= λ l, l ++ [e] |>) es s); [solve_ring|]. intros. solve_ring.
Qed.
Lemma ring_PutKV k v ev ex s : ring_of (Store.PutKV k v ev ex s).1 = ring_of s.
Proof. unfold Store.PutKV. destruct (_ && _); [done|]. cbn [fst]. solve_ring. Qed.
Lemma ring_DeleteKV k ev s : ring_of (Store.DeleteKV k ev s).1 = ring_of s.
Proof. unfold Store.DeleteKV. destruct (Store.kv s !! k); [|done]. destruct (_ && _); [done|]. cbn [fst]. solve_ring. Qed.
Lemma ring_SetAssignmentObserved node obs s s' :
  Store.SetAssignmentObserved node obs s = Ret s' → ring_of s' = ring_of s.
Proof.
  apply ring_ofoldl. intros y [id o] y'. rewrite setObserved_eq.
  destruct (observed_upd _ _ _) as [[a|]|]; cbn; [|by intros [= <-]|done]. intros [= <-]. solve_ring.
Qed.
Lemma ring_TouchTokens lu s s' : Store.TouchTokens lu s = Ret s' → ring_of s' = ring_of s.
Proof.
  apply ring_ofoldl. intros y [id o] y'. rewrite touchToken_eq.
  destruct (touched_upd _ _) as [[a|]|]; cbn; [|by intros [= <-]|done]. intros [= <-]. solve_ring.
Qed.
Lemma ring_SetVolumeLease id l s s' : Store.SetVolumeLease id l s = Ret s' → ring_of s' = ring_of s.
Proof.
  unfold Store.SetVolumeLease. destruct (Store.volumes s !! id) as [[v|]|]; [|done|by intros [= <-]].
  intros [= <-]. solve_ring.
Qed.

(** No handler touches the applied-request ring. *)
Lemma ring_apply cmd s s' e : FSM.apply cmd s = Ret (s', e) → ring_of s' = ring_of s.
Proof.
  unfold FSM.apply, FSM.done_, FSM.fail_. destruct (Command.Mut cmd) as [m|]; [|by intros [= <- _]].
  destruct m; try (intros [= <- _]; by auto using ring_PutAssignments, ring_DeleteAssignments, ring_PutDomain,
      ring_DeleteDomain, ring_AppendEvents, ring_AppendAudit);
    try (intros [= <- _]; autounfold with solid_ops; solve_ring).
  - unfold FSM.applySetDeploymentPhase, FSM.done_, FSM.fail_.
    destruct (Store.Deployment _ s) as [d|]; [|by intros [= <- _]].
    destruct (match Command.Time cmd with None => _ | Some _ => _ end) as [[d'|]|];
      unfold mbind, outcome_bind; cbn [obind]; [|done|done].
    intros [= <- _]. unfold Store.PutDeployment. unfold ring_of, Store.touch. by get_set.
  - unfold FSM.applyPromoteRelease, FSM.done_, FSM.fail_.
    destruct (Store.Environment _ s) as [[env|]|]; [| |by intros [= <- _]];
      destruct (Store.Release _ s); try done; intros [= <- _]; autounfold with solid_ops; solve_ring.
  - unfold FSM.applySetNodeStatus, FSM.done_, FSM.fail_.
    destruct (Store.Node _ s) as [[n|]|]; try done; intros [= <- _]; [|done].
    unfold Store.PutNode, ring_of, Store.touch. by get_set.
  - unfold FSM.applyConsumeJoinToken, FSM.done_, FSM.fail_.
    destruct (List.find _ _) as [tok|]; [|by intros [= <- _]].
    destruct (_ && _); [by intros [= <- _]|]. destruct tok; [|done].
    intros [= <- _]. autounfold with solid_ops. solve_ring.
  - unfold FSM.lift. destruct (Store.SetAssignmentObserved _ _ s) eqn:E; unfold mbind, outcome_bind; cbn [obind]; [|done].
    intros [= <- _]. by eapply ring_SetAssignmentObserved.
  - unfold FSM.lift. destruct (Store.TouchTokens _ s) eqn:E; unfold mbind, outcome_bind; cbn [obind]; [|done].
    intros [= <- _]. by eapply ring_TouchTokens.
  - cbv zeta. destruct (Store.PutKV _ _ _ _ s) as [s1 r] eqn:E. intros [= <- _]. cbn [fst].
    change s1 with (s1, r).1. rewrite <- E. apply ring_PutKV.
  - intros [= <- _]. apply ring_DeleteKV.
  - unfold FSM.lift. destruct (Store.SetVolumeLease _ _ s) eqn:E; unfold mbind, outcome_bind; cbn [obind]; [|done].
    intros [= <- _]. by eapply ring_SetVolumeLease.
Qed.
End frame.

(** [rid] is in the ring with at most [n] younger entries. *)
Definition remembered (n : nat) (rid : string) (s : Store.t) : Prop :=
  ∃ pre x suf, Store.appliedRequests s = pre ++ x :: suf ∧ x ⇝ AppliedRequest.RequestId = rid ∧ length suf ≤ n.

Lemma remembered_applied n rid s : wf s → remembered n rid s → rid ∈ Store.appliedSet s.
Proof.
  intros [] (pre & x & suf & E & Hx & _). rewrite (applied_ids _ _ wf_applied), E.
  apply elem_of_list_to_set, list_elem_of_fmap. exists x. split; [done|]. set_solver.
Qed.

Lemma ring_over_full s :
  wf s → let l := Store.appliedRequests s in
  ∀ y, Store.ring_over appliedRingCap (l ++ [y]) ≤ 1
       ∧ (Store.ring_over appliedRingCap (l ++ [y]) = 1 → Z.of_nat (length l) = appliedRingCap).
Proof.
  intros [] l y. pose proof (applied_cap _ _ wf_applied) as Hc. unfold Store.ring_over. rewrite length_app.
  fold l in Hc. cbn [length]. lia.
Qed.

Lemma MarkApplied_fresh rid ix s :
  rid ∉ Store.appliedSet s →
  (Store.MarkApplied rid ix s).2 = true
  ∧ let y := Some (AppliedRequest.mk rid ix) in
    let l := Store.appliedRequests s ++ [y] in
    Store.appliedRequests (Store.MarkApplied rid ix s).1 = drop (Store.ring_over appliedRingCap l) l.
Proof.
  intros Hr. unfold Store.MarkApplied. rewrite bool_decide_eq_false_2 by done. cbn [fst snd]. split; [done|]. by get_set.
Qed.

Lemma remembered_new rid ix s :
  wf s → rid ∉ Store.appliedSet s → remembered 0 rid (Store.MarkApplied rid ix s).1.
Proof.
  intros Hs Hr. destruct (MarkApplied_fresh rid ix s Hr) as [_ E]. cbv zeta in E.
  destruct (ring_over_full s Hs (Some (AppliedRequest.mk rid ix))) as [H1 H2].
  exists (drop (Store.ring_over appliedRingCap (Store.appliedRequests s ++ [Some (AppliedRequest.mk rid ix)]))
            (Store.appliedRequests s)), (Some (AppliedRequest.mk rid ix)), [].
  split; [|done]. rewrite E, drop_app_le; [done|]. unfold appliedRingCap in *. lia.
Qed.

Lemma remembered_mark n rid rid' ix s :
  wf s → (Z.of_nat n + 1 < appliedRingCap)%Z → remembered n rid s →
  remembered (n + 1) rid (Store.MarkApplied rid' ix s).1.
Proof.
  intros Hs Hn (pre & x & suf & E & Hx & Hl). destruct (decide (rid' ∈ Store.appliedSet s)) as [Hin|Hnin].
  { unfold Store.MarkApplied. rewrite bool_decide_eq_true_2 by done. exists pre, x, suf. split; [done|]. split; [done|lia]. }
  destruct (MarkApplied_fresh rid' ix s Hnin) as [_ Ea]. cbv zeta in Ea. unfold remembered. rewrite Ea.
  set (y := Some (AppliedRequest.mk rid' ix)). destruct (ring_over_full s Hs y) as [H1 H2].
  destruct (Store.ring_over appliedRingCap (Store.appliedRequests s ++ [y])) as [|[|o]] eqn:Ho; [| |lia].
  - exists pre, x, (suf ++ [y]). rewrite E, drop_0, <- app_assoc. split; [done|]. split; [done|].
    rewrite length_app. cbn. lia.
  - specialize (H2 eq_refl). rewrite E in H2 |- *. rewrite length_app in H2. cbn [length] in H2.
    destruct pre as [|p pre]; [cbn in H2; lia|]. exists pre, x, (suf ++ [y]). cbn. rewrite <- app_assoc.
    split; [done|]. split; [done|]. rewrite length_app. cbn. lia.
Qed.

Section dedup.
Context {RO : RangeOrder} {TL : TimestampLib}.

Lemma remembered_ring n rid s s' : ring_of s' = ring_of s → remembered n rid s → remembered n rid s'.
Proof. unfold ring_of, remembered. intros [= -> _]. done. Qed.

Lemma remembered_ApplyCommand n rid i cmd s s' r :
  wf s → (Z.of_nat n + 1 < appliedRingCap)%Z → remembered n rid s →
  FSM.ApplyCommand i cmd s = Ret (s', r) → remembered (n + 1) rid s'.
Proof.
  intros Hs Hn Hr. unfold FSM.ApplyCommand.
  destruct (if Command.RequestId cmd =? "" then _ else _) as [s1 fr] eqn:Hm.
  assert (remembered (n + 1) rid s1) as Hr1.
  { destruct (Command.RequestId cmd =? "").
    - injection Hm as <- _. destruct Hr as (pre & x & suf & ? & ? & ?). exists pre, x, suf. split; [done|]. split; [done|lia].
    - change s1 with (s1, fr).1. rewrite <- Hm. by apply remembered_mark. }
  destruct fr; cbn [negb]; [|by intros [= <- _]].
  destruct (FSM.apply cmd s1) as [[s2 e]|] eqn:Ha; unfold mbind, outcome_bind; cbn [obind]; [|done].
  intros [= <- _]. eapply remembered_ring; [by eapply ring_apply|done].
Qed.

Lemma applied_remembered i cmd s s' r :
  wf s → Command.RequestId cmd ≠ "" → FSM.ApplyCommand i cmd s = Ret (s', r) →
  FSM.ApplyResult.Duplicate r = false → remembered 0 (Command.RequestId cmd) s'.
Proof.
  intros Hs Hne. unfold FSM.ApplyCommand. rewrite (proj2 (str_eqb_neq _ _) Hne).
  destruct (decide (Command.RequestId cmd ∈ Store.appliedSet s)) as [Hin|Hnin].
  { unfold Store.MarkApplied. rewrite bool_decide_eq_true_2 by done. cbn. by intros [= _ <-]. }
  destruct (MarkApplied_fresh _ i s Hnin) as [Hf _]. pose proof (remembered_new _ i s Hs Hnin) as Hr.
  destruct (Store.MarkApplied _ i s) as [s1 f]. cbn [fst snd] in Hf, Hr. subst f. cbn [negb].
  destruct (FSM.apply cmd s1) as [[s2 e]|] eqn:Ha; unfold mbind, outcome_bind; cbn [obind]; [|done].
  intros [= <- _] _. eapply remembered_ring; [by eapply ring_apply|done].
Qed.

Context {W : WireLib}.

Lemma remembered_replay n rid log s s' rs :
  wf s → (Z.of_nat n + Z.of_nat (length log) < appliedRingCap)%Z → remembered n rid s →
  FSM.replay log s = Ret (s', rs) → wf s' ∧ remembered (n + length log) rid s'.
Proof.
  revert n s rs. induction log as [|[i d] log IH]; intros n s rs Hs Hn Hr; cbn [FSM.replay length].
  { intros [= <- _]. by rewrite Nat.add_0_r. }
  destruct (FSM.Apply i d s) as [[s1 r1]|] eqn:Ha; unfold mbind, outcome_bind; cbn [obind]; [|done].
  destruct (FSM.replay log s1) as [[s2 rs2]|] eqn:Hl; cbn [obind]; [|done]. intros [= <- _].
  assert (wf s1) as Hs1 by (by eapply wf_Apply). cbn [length] in Hn.
  destruct (IH (n + 1) s1 rs2) as [Hs2 Hr2]; [done|lia| |done|].
  - unfold FSM.Apply in Ha. destruct (UnmarshalCommand d).
    + eapply (remembered_ApplyCommand n); [exact Hs|lia|done|done].
    + injection Ha as <- _. destruct Hr as (pre & x & suf & ? & ? & ?). exists pre, x, suf. split; [done|]. split; [done|lia].
  - split; [done|]. by replace (n + S (length log)) with (n + 1 + length log) by lia.
Qed.
End dedup.

(** C4: a request is applied at most once within the window: once a command with
    request id [rid] has been applied, a command with the same id within the next
    8191 entries is a duplicate, changes nothing, and reports no error (also when
    the first attempt was rejected with one). *)
Theorem request_applied_at_most_once (RO : RangeOrder) (TL : TimestampLib) (W : WireLib)
    (s s1 s2 : Store.t) (i j : Z) (cmd cmd' : Command.t) (r : FSM.ApplyResult.t)
    (log : list FSM.entry) (rs : list FSM.ApplyResult.t) :
  wf s → Command.RequestId cmd ≠ "" → Command.RequestId cmd' = Command.RequestId cmd →
  FSM.ApplyCommand i cmd s = Ret (s1, r) → FSM.ApplyResult.Duplicate r = false →
  FSM.replay log s1 = Ret (s2, rs) → (Z.of_nat (length log) < 8192)%Z →
  FSM.ApplyCommand j cmd' s2 = Ret (s2, FSM.ApplyResult.mk None true).
Proof.
  intros Hs Hne Heq Ha Hd Hl Hn. assert (wf s1) as Hs1 by (by eapply wf_ApplyCommand).
  assert (remembered 0 (Command.RequestId cmd) s1) as Hr by exact (applied_remembered i cmd s s1 r Hs Hne Ha Hd).
  assert (Z.of_nat 0 + Z.of_nat (length log) < appliedRingCap)%Z as Hn' by (unfold appliedRingCap; lia).
  destruct (remembered_replay 0 _ log s1 s2 rs Hs1 Hn' Hr Hl) as [Hs2 Hr2].
  apply remembered_applied in Hr2; [|done]. unfold FSM.ApplyCommand. rewrite Heq, (proj2 (str_eqb_neq _ _) Hne).
  unfold Store.MarkApplied. by rewrite bool_decide_eq_true_2.
Qed.

(** * Guarded transitions *)

Section transitions.
Context {RO : RangeOrder} {TL : TimestampLib}.

(** A promotion of an existing release in an existing environment makes it the
    active one and advances the route generation (modulo 2^64); otherwise it is an
    error and nothing changes.  Every other environment, and the releases,
    deployments, assignments and nodes stay as they are. *)
Theorem promote_release_spec (m : option PromoteRelease.t) (s s' : Store.t) (e : option FSM.error)
    (envID relID : string) :
  wf s → envID = m ⇝ PromoteRelease.EnvironmentId → relID = m ⇝ PromoteRelease.ReleaseId →
  FSM.applyPromoteRelease m s = Ret (s', e) →
  (e = None ↔ is_Some (Store.environments s !! envID) ∧ is_Some (Store.releases s !! relID))
  ∧ (e ≠ None → s' = s)
  ∧ (e = None → ∃ env env',
       Store.environments s !! envID = Some (Some env)
       ∧ Store.environments s' !! envID = Some (Some env')
       ∧ Environment.ActiveReleaseId env' = relID
       ∧ Environment.RouteGeneration env' = u64 (Environment.RouteGeneration env + 1)
       ∧ Environment.Service env' = Environment.Service env
       ∧ Environment.EffectiveReplicas env' = Environment.EffectiveReplicas env)
  ∧ (∀ id, id ≠ envID → Store.environments s' !! id = Store.environments s !! id)
  ∧ Store.releases s' = Store.releases s ∧ Store.deployments s' = Store.deployments s
  ∧ Store.assignments s' = Store.assignments s ∧ Store.nodes s' = Store.nodes s.
Proof.
  intros Hs -> ->. unfold FSM.applyPromoteRelease, FSM.done_, FSM.fail_, Store.Environment, Store.Release.
  destruct (Store.environments s !! (m ⇝ PromoteRelease.EnvironmentId)) as [env|] eqn:He.
  2: { intros [= <- <-]. split_and!; try done. split; [done|]. by intros [[? ?] _]. }
  destruct (Store.releases s !! (m ⇝ PromoteRelease.ReleaseId)) as [rel|] eqn:Hr.
  2: { intros [= <- <-]. split_and!; try done. split; [done|]. by intros [_ [? ?]]. }
  destruct env as [env|]; [|done]. intros [= <- <-].
  set (env' := (env <| Environment.ActiveReleaseId := _ |>) <| Environment.RouteGeneration ::= _ |>).
  assert (GetId (Some env') = m ⇝ PromoteRelease.EnvironmentId) as Hid by (exact (wf_environments _ Hs _ _ He)).
  unfold Store.PutEnvironment, Store.touch. rewrite Hid. get_set. split_and!; try done.
  - intros _. exists env, env'. rewrite lookup_insert_eq. done.
  - intros id Hne. by rewrite lookup_insert_ne.
Qed.

(** A phase change of an existing deployment sets its phase, keeps its error
    and its two timestamps when the command carries none, stamps the update time
    of the command, and touches no other object; the phase of a missing deployment
    is an error that changes nothing. *)
Theorem set_deployment_phase_spec (now : option Timestamp.t) (m : option SetDeploymentPhase.t)
    (s s' : Store.t) (e : option FSM.error) (id : string) :
  wf s → id = m ⇝ SetDeploymentPhase.DeploymentId →
  FSM.applySetDeploymentPhase now m s = Ret (s', e) →
  (e = None ↔ is_Some (Store.deployments s !! id))
  ∧ (e ≠ None → s' = s)
  ∧ (e = None → ∃ d d',
       Store.deployments s !! id = Some (Some d) ∧ Store.deployments s' !! id = Some (Some d')
       ∧ Deployment.Phase d' = m ⇝ SetDeploymentPhase.Phase
       ∧ Deployment.Error d' = (if m ⇝ SetDeploymentPhase.Error =? "" then Deployment.Error d
                                else m ⇝ SetDeploymentPhase.Error)
       ∧ Deployment.PromotedAt d' = (match m ⇝ SetDeploymentPhase.PromotedAt with
           | Some ts => Some ts | None => Deployment.PromotedAt d end)
       ∧ Deployment.DrainDeadline d' = (match m ⇝ SetDeploymentPhase.DrainDeadline with
           | Some ts => Some ts | None => Deployment.DrainDeadline d end)
       ∧ (∀ ts, now = Some ts → Deployment.Meta d' ⇝ Meta.UpdatedAt = Some ts)
       ∧ Deployment.ReleaseId d' = Deployment.ReleaseId d
       ∧ Deployment.EnvironmentId d' = Deployment.EnvironmentId d)
  ∧ (∀ id', id' ≠ id → Store.deployments s' !! id' = Store.deployments s !! id')
  ∧ Store.environments s' = Store.environments s ∧ Store.releases s' = Store.releases s
  ∧ Store.assignments s' = Store.assignments s.
Proof.
  intros Hs ->. unfold FSM.applySetDeploymentPhase, FSM.done_, FSM.fail_, Store.Deployment.
  destruct (Store.deployments s !! (m ⇝ SetDeploymentPhase.DeploymentId)) as [d|] eqn:Hd.
  2: { intros [= <- <-]. split_and!; try done. }
  pose proof (wf_deployments _ Hs _ _ Hd) as Hid. revert Hid.
  destruct d as [d|]; [|by destruct now]. intros Hid.
  assert (∃ d0, (match now with
        | None => Ret (Some d)
        | Some now => match Deployment.Meta d with
          | Some meta => Ret (Some (d <| Deployment.Meta := Some (meta <| Meta.UpdatedAt := Some now |>) |>))
          | None => Panic end end) = Ret (Some d0)
      ∧ GetId (Some d0) = m ⇝ SetDeploymentPhase.DeploymentId
      ∧ (∀ ts, now = Some ts → Deployment.Meta d0 ⇝ Meta.UpdatedAt = Some ts)
      ∧ Deployment.Error d0 = Deployment.Error d ∧ Deployment.PromotedAt d0 = Deployment.PromotedAt d
      ∧ Deployment.DrainDeadline d0 = Deployment.DrainDeadline d ∧ Deployment.ReleaseId d0 = Deployment.ReleaseId d
      ∧ Deployment.EnvironmentId d0 = Deployment.EnvironmentId d
     ∨ now ≠ None ∧ Deployment.Meta d = None) as (d0 & [(E & H1 & H2 & H3 & H4 & H5 & H6 & H7)|[Hn Hm]]).
  { destruct now as [now|]; [|exists d; by left]. destruct (Deployment.Meta d) as [meta|] eqn:Hm; [|exists d; by right].
    eexists. left. split; [done|]. unfold GetId, GetMeta, Deployment_withMeta in *. cbn in *. rewrite Hm in Hid.
    split_and!; try done. }
  2: { destruct now; [|done]. by rewrite Hm. }
  rewrite E. unfold mbind, outcome_bind. cbn [obind]. intros [= <- <-].
  set (d1 := d0 <| Deployment.Phase := _ |>).
  set (d2 := if m ⇝ SetDeploymentPhase.Error =? "" then d1 else _).
  set (d3 := match m ⇝ SetDeploymentPhase.PromotedAt with None => d2 | Some ts => _ end).
  set (d4 := match m ⇝ SetDeploymentPhase.DrainDeadline with None => d3 | Some ts => _ end).
  assert (GetId (Some d4) = m ⇝ SetDeploymentPhase.DeploymentId) as Hid4.
  { unfold d4, d3, d2, d1. by destruct (_ =? _), (m ⇝ SetDeploymentPhase.PromotedAt), (m ⇝ SetDeploymentPhase.DrainDeadline). }
  unfold Store.PutDeployment, Store.touch. rewrite Hid4. get_set. split_and!; try done.
  - intros _. exists d, d4. rewrite lookup_insert_eq, <- H3, <- H4, <- H5, <- H6, <- H7.
    unfold d4, d3, d2, d1.
    by destruct (_ =? _), (m ⇝ SetDeploymentPhase.PromotedAt), (m ⇝ SetDeploymentPhase.DrainDeadline).
  - intros id' Hne. by rewrite lookup_insert_ne.
Qed.

(** A single-use join token is consumed at most once: consuming it marks it
    used and leaves the other tokens alone, and consuming it again is refused and
    changes nothing. *)
Theorem join_token_single_use (ROk : RangeOrderOk RO) (m : option ConsumeJoinToken.t) (s s' : Store.t)
    (tok : option JoinToken.t) :
  wf s → Store.joinTokens s !! (m ⇝ ConsumeJoinToken.TokenId) = Some tok →
  tok ⇝ JoinToken.SingleUse = true →
  FSM.applyConsumeJoinToken m s = Ret (s', None) →
  tok ⇝ JoinToken.Used = false
  ∧ (∀ id, id ≠ m ⇝ ConsumeJoinToken.TokenId → Store.joinTokens s' !! id = Store.joinTokens s !! id)
  ∧ FSM.applyConsumeJoinToken m s' = Ret (s', Some (FSM.ErrJoinTokenUsed (m ⇝ ConsumeJoinToken.TokenId))).
Proof.
  intros Hs Ht Hsu. set (id := m ⇝ ConsumeJoinToken.TokenId) in *.
  assert (∀ s1 t, wf s1 → Store.joinTokens s1 !! id = Some t →
    List.find (λ tok, GetId tok =? id) (Store.ListJoinTokens s1) = Some t) as Hfind.
  { intros s1 t Hs1 Ht1. destruct (List.find _ _) as [t'|] eqn:E.
    - apply find_some in E as [Hin Hk]. rewrite <- list_elem_of_In in Hin. apply str_eqb_eq in Hk.
      unfold Store.ListJoinTokens, Store.sortByID in Hin. rewrite sort_slice_perm in Hin.
      apply elem_of_range_values in Hin as [k Hin]. rewrite (wf_joinTokens _ Hs1 _ _ Hin) in Hk. congruence.
    - pose proof (find_none _ _ E t) as Hn. rewrite <- list_elem_of_In in Hn.
      unfold Store.ListJoinTokens, Store.sortByID in Hn. rewrite sort_slice_perm, elem_of_range_values in Hn.
      rewrite (proj2 (str_eqb_eq _ _) (wf_joinTokens _ Hs1 _ _ Ht1)) in Hn. by discriminate Hn; eauto. }
  unfold FSM.applyConsumeJoinToken. fold id. rewrite (Hfind s tok Hs Ht), Hsu. cbn [andb].
  destruct tok as [tok|]; [|by cbn in Hsu].
  destruct (Some tok ⇝ JoinToken.Used) eqn:Hu; [done|]. unfold FSM.done_, FSM.fail_. intros [= <-].
  set (tok' := tok <| JoinToken.Used := true |>).
  assert (GetId (Some tok') = id) as Hid by (exact (wf_joinTokens _ Hs _ _ Ht)).
  assert (Store.joinTokens (Store.PutJoinToken (Some tok') s) = <[id := Some tok']> (Store.joinTokens s)) as E.
  { unfold Store.PutJoinToken, Store.touch. get_set. by rewrite Hid. }
  split; [done|]. rewrite E. split; [intros; by apply lookup_insert_ne|].
  rewrite (Hfind _ (Some tok')); [|by apply wf_PutJoinToken|by rewrite E, lookup_insert_eq].
  cbn in Hsu |- *. by rewrite Hsu.
Qed.
End transitions.

(** * Witnesses *)

#[local] Existing Instance message_wire.
#[local] Existing Instance wellknown_times.
#[local] Existing Instance canonical_range.

(** The third request of [sample_log], then its retry after the rest of the log. *)
Definition sample_request : Command.t := sample_cmd "q0" (Command_DeleteKv (Some (DeleteKV.mk "k" 3))).

Lemma request_applied_at_most_once_witness :
  ∃ s1 r s2 rs,
    FSM.ApplyCommand 1 sample_request Store.New = Ret (s1, r)
    ∧ FSM.replay sample_log s1 = Ret (s2, rs)
    ∧ FSM.ApplyCommand 9 sample_request s2 = Ret (s2, FSM.ApplyResult.mk None true).
Proof.
  destruct (FSM.ApplyCommand 1 sample_request Store.New) as [[s1 r]|] eqn:E1; [|vm_compute in E1; discriminate].
  assert (FSM.ApplyResult.Duplicate r = false) as Hd by (vm_compute in E1; injection E1 as _ <-; reflexivity).
  destruct (FSM.replay sample_log s1) as [[s2 rs]|] eqn:E2.
  2: { vm_compute in E1. injection E1 as <- _. vm_compute in E2. discriminate. }
  exists s1, r, s2, rs. split; [reflexivity|]. split; [exact E2|].
  exact (request_applied_at_most_once canonical_range wellknown_times message_wire Store.New s1 s2 1 9
    sample_request sample_request r sample_log rs wf_New ltac:(discriminate) eq_refl E1 Hd E2 ltac:(reflexivity)).
Defined.

(** An environment serving [r1], its releases, a deployment to [r2] and a join token. *)
Definition sample_cluster : Store.t :=
  Store.PutJoinToken (Some (sample_join "j1"))
  (Store.PutDeployment (Some (sample_deployment "d1" "e1" "r2" "r1" DEPLOYMENT_PHASE_PENDING))
  (Store.PutRelease (Some (sample_release "r2" "e1" 2 (sample_spec false 1 100 100)))
  (Store.PutEnvironment (Some (sample_env "e1" "r1" (sample_spec false 1 100 100))) Store.New))).

Lemma wf_sample_cluster : wf sample_cluster.
Proof. unfold sample_cluster. auto 10 with store_wf. Qed.

Definition sample_promote : option PromoteRelease.t := Some (PromoteRelease.mk "e1" "r2" "d1").

Lemma promote_release_spec_witness :
  ∃ s', FSM.applyPromoteRelease sample_promote sample_cluster = Ret (s', None)
        ∧ Store.releases s' = Store.releases sample_cluster
        ∧ (Store.Environment "e1" s' ≫= id) ⇝ Environment.ActiveReleaseId = "r2".
Proof.
  destruct (FSM.applyPromoteRelease sample_promote sample_cluster) as [[s' e]|] eqn:E; [|vm_compute in E; discriminate].
  assert (e = None) as -> by (vm_compute in E; injection E as _ <-; reflexivity).
  exists s'. split; [reflexivity|].
  destruct (promote_release_spec sample_promote sample_cluster s' None "e1" "r2" wf_sample_cluster eq_refl eq_refl E)
    as (_ & _ & H & _ & Hr & _).
  split; [exact Hr|]. destruct (H eq_refl) as (env & env' & _ & He & Ha & _).
  unfold Store.Environment. rewrite He. exact Ha.
Defined.

Definition sample_phase : option SetDeploymentPhase.t :=
  Some (SetDeploymentPhase.mk "d1" DEPLOYMENT_PHASE_PLACING "" None None).

Lemma set_deployment_phase_spec_witness :
  ∃ s', FSM.applySetDeploymentPhase (Some (Timestamp.mk 5 0)) sample_phase sample_cluster = Ret (s', None)
        ∧ (Store.Deployment "d1" s' ≫= id) ⇝ Deployment.Phase = DEPLOYMENT_PHASE_PLACING.
Proof.
  destruct (FSM.applySetDeploymentPhase (Some (Timestamp.mk 5 0)) sample_phase sample_cluster) as [[s' e]|] eqn:E;
    [|vm_compute in E; discriminate].
  assert (e = None) as -> by (vm_compute in E; injection E as _ <-; reflexivity).
  exists s'. split; [reflexivity|].
  destruct (set_deployment_phase_spec _ sample_phase sample_cluster s' None "d1" wf_sample_cluster eq_refl E)
    as (_ & _ & H & _).
  destruct (H eq_refl) as (d & d' & _ & Hd & Hp & _). unfold Store.Deployment. rewrite Hd. exact Hp.
Defined.

Lemma join_token_single_use_witness :
  ∃ s', FSM.applyConsumeJoinToken (Some (ConsumeJoinToken.mk "j1")) sample_cluster = Ret (s', None)
        ∧ FSM.applyConsumeJoinToken (Some (ConsumeJoinToken.mk "j1")) s'
          = Ret (s', Some (FSM.ErrJoinTokenUsed "j1")).
Proof.
  destruct (FSM.applyConsumeJoinToken (Some (ConsumeJoinToken.mk "j1")) sample_cluster) as [[s' e]|] eqn:E;
    [|vm_compute in E; discriminate].
  assert (e = None) as -> by (vm_compute in E; injection E as _ <-; reflexivity).
  exists s'. split; [reflexivity|].
  exact (proj2 (proj2 (join_token_single_use canonical_range_ok (Some (ConsumeJoinToken.mk "j1")) sample_cluster s'
    (Some (sample_join "j1")) wf_sample_cluster eq_refl eq_refl E))).
Defined.
