(* ===== verification/FsmKeys.v ===== *)
(** The unique indexes of users by email and of tokens by hash.  A user put under an email that
    another one has takes its entry of the index over, and whichever of the two is changed or
    deleted then removes the entry; so too a token and its hash.  Where no command does that, the
    indexes are exact, and a restored node agrees with the one its snapshot is of (FsmProps.v). *)
From S2P Require Import Prelude Api Watch State StateInv StateEquiv Snapshot Fsm Samples FsmProps FsmSafety.

(** A command gives a user no email that another user has, a token no hash of another one. *)
Definition claims_nothing (s : Store.t) (cmd : Command.t) : Prop :=
  match Command.Mut cmd with
  | Some (Command_PutUser x) => ∀ id u, Store.users s !! id = Some u →
      u ⇝ User.Email = x ⇝ PutUser.User ⇝ User.Email → id = GetId (x ⇝ PutUser.User)
  | Some (Command_PutToken x) => ∀ id t, Store.tokens s !! id = Some t →
      t ⇝ Token.SecretHash = x ⇝ PutToken.Token ⇝ Token.SecretHash → id = GetId (x ⇝ PutToken.Token)
  | _ => True
  end.

(** The stores a node can reach without such a claim, in its log or in the one behind a
    snapshot that it restores. *)
Inductive undisputed {TL : TimestampLib} {W : WireLib} : Store.t → Prop :=
| undisputed_new : undisputed Store.New
| undisputed_apply {RO : RangeOrder} i d s s' r :
    undisputed s → (∀ cmd, UnmarshalCommand d = Some cmd → claims_nothing s cmd) →
    FSM.Apply i d s = Ret (s', r) → undisputed s'
| undisputed_restore {RO : RangeOrder} {ROk : RangeOrderOk RO} s d s0 s' :
    undisputed s → snapshot_no_nil (StoreSnapshot.SnapshotProto 0 s) →
    FSM.Persist s = Some d → FSM.Restore d s0 = Some s' → undisputed s'.

Lemma undisputed_reachable {TL : TimestampLib} {W : WireLib} s : undisputed s → reachable s.
Proof.
  induction 1 as [|RO i d s s' r _ IH _ Ha|RO ROk s d s0 s' _ IH Hnn Hp Hr];
    [apply reach_new|by eapply reach_apply|by eapply reach_restore].
Qed.

Definition keys_of (s : Store.t) := (Store.users s, Store.usersByEmail s, Store.tokens s, Store.tokensByHash s).

Lemma unique_keys_same s s' : keys_of s' = keys_of s → unique_keys s → unique_keys s'.
Proof. unfold unique_keys. by intros [= -> -> -> ->]. Qed.

Lemma unique_keys_New : unique_keys Store.New.
Proof. split; intros k id; cbn; rewrite lookup_empty; setoid_rewrite lookup_empty; naive_solver. Qed.

Lemma unique_keys_equiv s s' : s ≡ s' → unique_keys s → unique_keys s'.
Proof. intros E. unfold unique_keys. rewrite_fields E. done. Qed.

Section keys.
Context {RO : RangeOrder} {TL : TimestampLib}.

Lemma keys_foldl {X} (f : Store.t → X → Store.t) l s : (∀ s x, keys_of (f s x) = keys_of s) → keys_of (foldl f s l) = keys_of s.
Proof. intros Hf. apply (foldl_invariant (λ s', keys_of s' = keys_of s)); [done|]. intros y a _ <-. apply Hf. Qed.

Lemma keys_ofoldl {X} (f : Store.t → X → outcome Store.t) l s s' :
  (∀ s x s', f s x = Ret s' → keys_of s' = keys_of s) → ofoldl f s l = Ret s' → keys_of s' = keys_of s.
Proof. intros Hf. apply (ofoldl_invariant (λ s', keys_of s' = keys_of s)); [|done]. intros y a y' <- _. apply Hf. Qed.

Ltac solve_keys :=
  repeat match goal with
  | |- context [match ?x with Some _ => _ | None => _ end] =>
    lazymatch type of x with option _ => destruct x end
  | |- context [if ?b then _ else _] => destruct b
  end; unfold keys_of, Store.touch; get_set; reflexivity.

Lemma keys_PutAssignments as_ s : keys_of (Store.PutAssignments as_ s) = keys_of s.
Proof. apply keys_foldl. intros y a. unfold Store.putAssignmentLocked. solve_keys. Qed.
Lemma keys_DeleteAssignments ids s : keys_of (Store.DeleteAssignments ids s) = keys_of s.
Proof. apply keys_foldl. intros y a. unfold Store.deleteAssignment. solve_keys. Qed.
Lemma keys_PutDomain d s : keys_of (Store.PutDomain d s) = keys_of s.
Proof. unfold Store.PutDomain, Store.indexDomain. destruct (Store.domains s !! GetId d); rewrite ?unindexDomain_eq; solve_keys. Qed.
Lemma keys_DeleteDomain id s : keys_of (Store.DeleteDomain id s) = keys_of s.
Proof. unfold Store.DeleteDomain. destruct (Store.domains s !! id); rewrite ?unindexDomain_eq; solve_keys. Qed.
Lemma keys_AppendEvents evs s : keys_of (Store.AppendEvents evs s) = keys_of s.
Proof.
  unfold Store.AppendEvents. rewrite <- (keys_foldl Store.appendEvent evs s); [solve_keys|].
  intros y e. unfold Store.appendEvent. solve_keys.
Qed.
Lemma keys_AppendAudit es s : keys_of (Store.AppendAudit es s) = keys_of s.
Proof.
  unfold Store.AppendAudit.
  rewrite <- (keys_foldl (λ s e, s <| Store.audit ::= λ l, l ++ [e] |>) es s); [solve_keys|]. intros. solve_keys.
Qed.
Lemma keys_PutKV k v ev ex s : keys_of (Store.PutKV k v ev ex s).1 = keys_of s.
Proof. unfold Store.PutKV. destruct (_ && _); [done|]. cbn [fst]. solve_keys. Qed.
Lemma keys_DeleteKV k ev s : keys_of (Store.DeleteKV k ev s).1 = keys_of s.
Proof. unfold Store.DeleteKV. destruct (Store.kv s !! k); [|done]. destruct (_ && _); [done|]. cbn [fst]. solve_keys. Qed.
Lemma keys_SetAssignmentObserved node obs s s' :
  Store.SetAssignmentObserved node obs s = Ret s' → keys_of s' = keys_of s.
Proof.
  apply keys_ofoldl. intros y [id o] y'. rewrite setObserved_eq.
  destruct (observed_upd _ _ _) as [[a|]|]; cbn; [|by intros [= <-]|done]. intros [= <-]. solve_keys.
Qed.
Lemma keys_SetVolumeLease id l s s' : Store.SetVolumeLease id l s = Ret s' → keys_of s' = keys_of s.
Proof.
  unfold Store.SetVolumeLease. destruct (Store.volumes s !! id) as [[v|]|]; [|done|by intros [= <-]].
  intros [= <-]. solve_keys.
Qed.

(** The commands that change users and tokens. *)
Lemma unique_PutUser u s : (∀ id x, Store.users s !! id = Some x → x ⇝ User.Email = u ⇝ User.Email → id = GetId u) →
  unique_keys s → unique_keys (Store.PutUser u s).
Proof.
  intros Hc [He Hh]. pose proof (unique_index_put_exact (get User.Email) _ _ (GetId u) u Hc He) as Hp. unfold unindex_old in Hp.
  split; [|by unfold Store.PutUser; destruct (Store.users s !! GetId u); unfold Store.touch; get_set].
  unfold Store.PutUser. destruct (Store.users s !! GetId u) eqn:Hu; unfold Store.touch; get_set; rewrite ?Hu in Hp; exact Hp.
Qed.
Lemma unique_DeleteUser id s : unique_keys s → unique_keys (Store.DeleteUser id s).
Proof.
  intros [He Hh]. pose proof (unique_index_delete_exact (get User.Email) _ _ id He) as Hp. unfold unindex_old in Hp.
  unfold Store.DeleteUser. destruct (Store.users s !! id) eqn:Hu; [|done].
  split; unfold Store.touch; get_set; done.
Qed.
Lemma unique_PutToken u s : (∀ id x, Store.tokens s !! id = Some x → x ⇝ Token.SecretHash = u ⇝ Token.SecretHash → id = GetId u) →
  unique_keys s → unique_keys (Store.PutToken u s).
Proof.
  intros Hc [He Hh]. pose proof (unique_index_put_exact (get Token.SecretHash) _ _ (GetId u) u Hc Hh) as Hp. unfold unindex_old in Hp.
  split; [by unfold Store.PutToken; destruct (Store.tokens s !! GetId u); unfold Store.touch; get_set|].
  unfold Store.PutToken. destruct (Store.tokens s !! GetId u) eqn:Hu; unfold Store.touch; get_set; rewrite ?Hu in Hp; exact Hp.
Qed.
Lemma unique_DeleteToken id s : unique_keys s → unique_keys (Store.DeleteToken id s).
Proof.
  intros [He Hh]. pose proof (unique_index_delete_exact (get Token.SecretHash) _ _ id Hh) as Hp. unfold unindex_old in Hp.
  unfold Store.DeleteToken. destruct (Store.tokens s !! id) eqn:Hu; [|done].
  split; unfold Store.touch; get_set; done.
Qed.

(** An update in place that keeps the key keeps an exact index. *)
Lemma unique_index_update_exact {A} (key : option A → string) m ix id x x' :
  m !! id = Some x → key x' = key x → unique_index_exact key m ix → unique_index_exact key (<[id := x']> m) ix.
Proof.
  intros Hid Hkey Hix k id'. rewrite (Hix k id'). destruct (decide (id = id')) as [<-|Hne].
  - rewrite lookup_insert_eq, Hid. split; intros (y & [= <-] & <-); eauto.
  - by rewrite lookup_insert_ne.
Qed.
Lemma unique_TouchTokens lu s s' : unique_keys s → Store.TouchTokens lu s = Ret s' → unique_keys s'.
Proof.
  intros Hs. apply (ofoldl_invariant unique_keys); [|done]. intros y [id ms] y' [He Hh] _. unfold Store.touchToken.
  destruct (Store.tokens y !! id) as [[tok|]|] eqn:Ht; [|done|by intros [= <-]].
  destruct (Store.used_before tok ms); [|by intros [= <-]]. intros [= <-].
  split; unfold Store.touch; get_set; [done|]. by eapply unique_index_update_exact.
Qed.

Lemma unique_apply cmd s s' e : claims_nothing s cmd → unique_keys s → FSM.apply cmd s = Ret (s', e) → unique_keys s'.
Proof.
  intros Hc Hs. unfold claims_nothing in Hc. unfold FSM.apply, FSM.done_, FSM.fail_. destruct (Command.Mut cmd) as [m|]; [|by intros [= <- _]].
  destruct m; try (intros [= <- _]; by auto using unique_PutUser, unique_DeleteUser, unique_PutToken, unique_DeleteToken);
    try (intros [= <- _]; apply (unique_keys_same s); [|exact Hs]; by auto using keys_PutAssignments, keys_DeleteAssignments,
      keys_PutDomain, keys_DeleteDomain, keys_AppendEvents, keys_AppendAudit);
    try (intros [= <- _]; apply (unique_keys_same s); [|exact Hs]; autounfold with solid_ops; solve_keys).
  - unfold FSM.applySetDeploymentPhase, FSM.done_, FSM.fail_.
    destruct (Store.Deployment _ s) as [d|]; [|by intros [= <- _]].
    destruct (match Command.Time cmd with None => _ | Some _ => _ end) as [[d'|]|];
      unfold mbind, outcome_bind; cbn [obind]; [|done|done].
    intros [= <- _]. apply (unique_keys_same s); [|exact Hs]. unfold Store.PutDeployment, keys_of, Store.touch. by get_set.
  - unfold FSM.applyPromoteRelease, FSM.done_, FSM.fail_.
    destruct (Store.Environment _ s) as [[env|]|]; [| |by intros [= <- _]];
      destruct (Store.Release _ s); try done; intros [= <- _]; apply (unique_keys_same s); try exact Hs; autounfold with solid_ops; solve_keys.
  - unfold FSM.applySetNodeStatus, FSM.done_, FSM.fail_.
    destruct (Store.Node _ s) as [[n|]|]; try done; intros [= <- _]; [|done].
    apply (unique_keys_same s); [|exact Hs]. unfold Store.PutNode, keys_of, Store.touch. by get_set.
  - unfold FSM.applyConsumeJoinToken, FSM.done_, FSM.fail_.
    destruct (List.find _ _) as [tok|]; [|by intros [= <- _]].
    destruct (_ && _); [by intros [= <- _]|]. destruct tok; [|done].
    intros [= <- _]. apply (unique_keys_same s); [|exact Hs]. autounfold with solid_ops. solve_keys.
  - unfold FSM.lift. destruct (Store.SetAssignmentObserved _ _ s) eqn:E; unfold mbind, outcome_bind; cbn [obind]; [|done].
    intros [= <- _]. apply (unique_keys_same s); [|exact Hs]. by eapply keys_SetAssignmentObserved.
  - unfold FSM.lift. destruct (Store.TouchTokens _ s) eqn:E; unfold mbind, outcome_bind; cbn [obind]; [|done].
    intros [= <- _]. by eapply unique_TouchTokens.
  - cbv zeta. destruct (Store.PutKV _ _ _ _ s) as [s1 r] eqn:E. intros [= <- _]. cbn [fst].
    change s1 with (s1, r).1. rewrite <- E. apply (unique_keys_same s); [|exact Hs]. apply keys_PutKV.
  - intros [= <- _]. apply (unique_keys_same s); [|exact Hs]. apply keys_DeleteKV.
  - unfold FSM.lift. destruct (Store.SetVolumeLease _ _ s) eqn:E; unfold mbind, outcome_bind; cbn [obind]; [|done].
    intros [= <- _]. apply (unique_keys_same s); [|exact Hs]. by eapply keys_SetVolumeLease.
Qed.

Lemma keys_MarkApplied rid i s : keys_of (Store.MarkApplied rid i s).1 = keys_of s.
Proof. unfold Store.MarkApplied. case_match; [done|]. cbn [fst]. unfold keys_of, Store.touch. repeat case_match; by get_set. Qed.

Context {W : WireLib}.

Lemma unique_Apply i d s s' r : (∀ cmd, UnmarshalCommand d = Some cmd → claims_nothing s cmd) →
  unique_keys s → FSM.Apply i d s = Ret (s', r) → unique_keys s'.
Proof.
  intros Hc Hs. unfold FSM.Apply. destruct (UnmarshalCommand d) as [cmd|]; [|by intros [= <- _]].
  specialize (Hc cmd eq_refl). unfold FSM.ApplyCommand.
  destruct (if Command.RequestId cmd =? "" then _ else _) as [s1 fr] eqn:Hm.
  assert (keys_of s1 = keys_of s) as Hk.
  { destruct (Command.RequestId cmd =? ""); [by injection Hm as <- _|].
    change s1 with (s1, fr).1. rewrite <- Hm. apply keys_MarkApplied. }
  assert (claims_nothing s1 cmd) as Hc1.
  { unfold claims_nothing in *. injection Hk as -> _ -> _. exact Hc. }
  destruct fr; cbn [negb]; [|intros [= <- _]; by apply (unique_keys_same s)].
  destruct (FSM.apply cmd s1) as [[s2 e]|] eqn:Ha; unfold mbind, outcome_bind; cbn [obind]; [|done].
  intros [= <- _]. apply (unique_apply _ _ _ _ Hc1) in Ha; [done|]. by apply (unique_keys_same s).
Qed.
End keys.

Lemma undisputed_unique {TL : TimestampLib} {TLok : TimestampLibOk TL} {W : WireLib} {Wok : WireLibOk W} s :
  undisputed s → unique_keys s.
Proof.
  induction 1 as [|RO i d s s' r _ IH Hc Ha|RO ROk s d s0 s' Hs IH Hnn Hp Hr].
  - apply unique_keys_New.
  - by eapply unique_Apply.
  - unfold FSM.Restore in Hr. unfold FSM.Persist in Hp.
    rewrite (Unmarshal_Marshal _ _ Hnn Hp) in Hr. injection Hr as <-.
    apply (unique_keys_equiv s); [|done]. symmetry. apply restore_snapshot_equiv; [|done].
    by apply wf_reachable, undisputed_reachable.
Qed.

(** C3: every store a node can reach, through any log of commands (malformed ones
    included) and any snapshot of such a store, is well formed: objects are under
    their ids, the index of assignments by node and the one of domains by hostname hold
    exactly the objects with the key, the index of users by email and the one of tokens by
    hash name only objects with the key, the rings respect their capacities and the applied
    set is the applied ring.  When moreover no command gave a user an email that another one
    had then, or a token a hash, every user is found under its email and every token under
    its hash. *)
Theorem reachable_wf (TL : TimestampLib) (TLok : TimestampLibOk TL) (W : WireLib) (Wok : WireLibOk W)
    (s : Store.t) :
  (reachable s → wf s) ∧ (undisputed s → wf s ∧ unique_keys s).
Proof.
  split; [apply wf_reachable|]. intros Hs. split; [by apply wf_reachable, undisputed_reachable|by apply undisputed_unique].
Qed.

#[local] Existing Instance message_wire.
#[local] Existing Instance wellknown_times.

Lemma undisputed_replayed : undisputed (replayed (take 2 sample_log)).
Proof.
  eapply (undisputed_apply (RO := canonical_range) 2%Z (sample_data (sample_cmd "q1" (Command_DeleteUser (Some (DeleteByID.mk "u1")))))
    (replayed (take 1 sample_log))); [|by intros cmd [= <-]|vm_compute; reflexivity].
  eapply (undisputed_apply (RO := canonical_range) 1%Z (sample_data (sample_cmd "q1" (Command_PutUser (Some (PutUser.mk (Some (sample_user "u1" "a@x")))))))
    Store.New); [apply undisputed_new|intros cmd [= <-] id u; cbn; by rewrite lookup_empty|vm_compute; reflexivity].
Qed.

Lemma reachable_wf_witness :
  wf (replayed sample_log) ∧ unique_keys (replayed (take 2 sample_log)) ∧ is_Some (Store.users (replayed (take 2 sample_log)) !! "u1").
Proof.
  split; [|split; [|vm_compute; eexists; reflexivity]].
  - exact (proj1 (reachable_wf wellknown_times _ message_wire _ (replayed sample_log)) (reachable_replayed sample_log)).
  - exact (proj2 (proj2 (reachable_wf wellknown_times _ message_wire _ _) undisputed_replayed)).
Defined.

(** A user whose email was taken over by another one that is deleted: it cannot be found by its
    email any more, until its node restarts from a snapshot, and then nodes disagree. *)
Lemma a_deleted_rival_hides_a_user :
  let s := Store.DeleteUser "u2" (Store.PutUser (Some (sample_user "u2" "a@x")) (Store.PutUser (Some (sample_user "u1" "a@x")) Store.New)) in
  let s' := StoreSnapshot.RestoreProto (StoreSnapshot.SnapshotProto (RO := canonical_range) 0 s) Store.New in
  Store.UserByEmail "a@x" s = None ∧ ∃ u, Store.UserByEmail "a@x" s' = Some u ∧ GetId u = "u1".
Proof. split; [vm_compute; reflexivity|]. eexists. split; vm_compute; reflexivity. Qed.
