(* ===== verification/Platform.v ===== *)
(** Platform strings (internal/pkgutil/platform) and build versions
    (internal/pkgutil/version): parsing, normalization and comparison.

    Go's strings functions work on Unicode; the models of ToLower and TrimSpace
    are their action on ASCII, all that platform and version strings hold. *)
From S2P Require Import Prelude Api Watch State.
From Stdlib Require Import Ascii.

(** * strings *)

Definition ascii_lower (c : ascii) : ascii :=
  let n := nat_of_ascii c in if (65 <=? n) && (n <=? 90) then ascii_of_nat (n + 32) else c.

Fixpoint ToLower (s : string) : string :=
  match s with "" => "" | String c s => String (ascii_lower c) (ToLower s) end.

Definition is_space (c : ascii) : bool :=
  let n := nat_of_ascii c in (n =? 32)%nat || ((9 <=? n) && (n <=? 13)).

Fixpoint TrimLeft (s : string) : string :=
  match s with
  | String c s' => if is_space c then TrimLeft s' else s
  | "" => ""
  end.

Fixpoint TrimRight (s : string) : string :=
  match s with
  | "" => ""
  | String c s' =>
    let r := TrimRight s' in
    if is_space c then (if r =? "" then "" else String c r) else String c r
  end.

Definition TrimSpace (s : string) : string := TrimRight (TrimLeft s).

(** strings.Cut around the first separator character. *)
Fixpoint Cut (s : string) (sep : ascii) : string * string * bool :=
  match s with
  | "" => ("", "", false)
  | String c s' =>
    if Ascii.eqb c sep then ("", s', true)
    else let '(before, after, found) := Cut s' sep in (String c before, after, found)
  end.

(** strings.Split by a separator character; never empty. *)
Fixpoint Split (s : string) (sep : ascii) : list string :=
  match s with
  | "" => [""]
  | String c s' =>
    if Ascii.eqb c sep then "" :: Split s' sep
    else match Split s' sep with
         | [] => [String c ""]
         | x :: l => String c x :: l
         end
  end.

Fixpoint Join (l : list string) (sep : string) : string :=
  match l with
  | [] => ""
  | [x] => x
  | x :: l => x +:+ sep +:+ Join l sep
  end.

Definition HasPrefix (s p : string) : bool := String.prefix p s.

Definition TrimPrefix (s p : string) : string :=
  if HasPrefix s p then String.substring (String.length p) (String.length s - String.length p) s else s.

Definition TrimSuffix (s p : string) : string :=
  let k := String.length s - String.length p in
  if (String.length p <=? String.length s) && (String.substring k (String.length p) s =? p)
  then String.substring 0 k s else s.

(** * Platforms *)

Definition archAliases : gmap string string := list_to_map
  [("x86_64", "amd64"); ("x86-64", "amd64"); ("aarch64", "arm64"); ("arm64/v8", "arm64");
   ("armv7l", "arm"); ("arm/v7", "arm")].

Definition knownOS : gset string := {["linux"; "darwin"; "windows"; "freebsd"]}.

Definition knownArch : gset string :=
  {["amd64"; "arm64"; "arm"; "386"; "riscv64"; "ppc64le"; "s390x"]}.

(** Normalize; the error is left out, its text is not used. *)
Definition Normalize (s : string) : option string :=
  let p := ToLower (TrimSpace s) in
  let '(osPart, archPart, ok) := Cut p "/" in
  if negb ok || (osPart =? "") || (archPart =? "") then None
  else
    let archPart := match archAliases !! archPart with Some a => a | None => archPart end in
    if negb (bool_decide (osPart ∈ knownOS)) then None
    else if negb (bool_decide (archPart ∈ knownArch)) then None
    else Some (osPart +:+ "/" +:+ archPart).

Definition loose (s : string) : string :=
  match Normalize s with Some n => n | None => ToLower (TrimSpace s) end.

Definition Supports (nodeArch : string) (platforms : list string) : bool :=
  match platforms with
  | [] => true
  | _ => existsb (λ p, loose p =? loose nodeArch) platforms
  end.

(** * Versions *)

Module Parsed.
Record t := mk { Major : Z; Minor : Z; Patch : Z; Ahead : Z; Unknown : bool }.
End Parsed.

Definition unknown_version : Parsed.t := Parsed.mk 0 0 0 0 true.

Definition digit (c : ascii) : option Z :=
  let n := nat_of_ascii c in if (48 <=? n) && (n <=? 57) then Some (Z.of_nat n - 48)%Z else None.

(** strconv.Atoi: an optional sign, then decimal digits, within an int64. *)
Fixpoint atoi_digits (acc : Z) (s : string) : option Z :=
  match s with
  | "" => Some acc
  | String c s => match digit c with Some d => atoi_digits (acc * 10 + d) s | None => None end
  end.

Definition Atoi (s : string) : option Z :=
  let '(neg, ds) := match s with
    | String "-" ds => (true, ds)
    | String "+" ds => (false, ds)
    | _ => (false, s)
    end in
  match ds with
  | "" => None
  | _ =>
    match atoi_digits 0 ds with
    | Some n =>
      let z := if neg : bool then (- n)%Z else n in
      if bool_decide (- 2 ^ 63 ≤ z < 2 ^ 63)%Z then Some z else None
    | None => None
    end
  end.

(** The loop over the first three components. *)
Fixpoint parse_nums (i : nat) (nums : list string) (out : Parsed.t) : Parsed.t :=
  match nums with
  | [] => out
  | n :: nums =>
    if 2 <? i then out
    else match Atoi n with
      | None => unknown_version
      | Some v =>
        let out := match i with
          | 0 => Parsed.mk v (Parsed.Minor out) (Parsed.Patch out) (Parsed.Ahead out) (Parsed.Unknown out)
          | 1 => Parsed.mk (Parsed.Major out) v (Parsed.Patch out) (Parsed.Ahead out) (Parsed.Unknown out)
          | _ => Parsed.mk (Parsed.Major out) (Parsed.Minor out) v (Parsed.Ahead out) (Parsed.Unknown out)
          end in
        parse_nums (S i) nums out
      end
  end.

Definition Parse (v : string) : Parsed.t :=
  let raw := TrimPrefix (TrimSuffix (TrimSpace v) "-dirty") "v" in
  if raw =? "" then unknown_version
  else
    let parts := Split raw "-" in
    let '(core, ahead) :=
      if (3 <=? length parts) && HasPrefix (default "" (last parts)) "g" then
        match Atoi (nth (length parts - 2) parts "") with
        | Some n => (Join (take (length parts - 2) parts) "-", n)
        | None => (raw, 0%Z)
        end
      else (raw, 0%Z) in
    let core := (Cut core "-").1.1 in
    let core := (Cut core "+").1.1 in
    let nums := Split core "." in
    if nth 0 nums "" =? "" then unknown_version
    else parse_nums 0 nums (Parsed.mk 0 0 0 ahead false).

(** The comparison of the four components in turn. *)
Fixpoint compare_pairs (l : list (Z * Z)) : Z :=
  match l with
  | [] => 0
  | (x, y) :: l => if (x =? y)%Z then compare_pairs l else if (x <? y)%Z then -1 else 1
  end.

Definition Compare (a b : string) : Z * bool :=
  let pa := Parse a in
  let pb := Parse b in
  if Parsed.Unknown pa || Parsed.Unknown pb then (0%Z, false)
  else (compare_pairs [(Parsed.Major pa, Parsed.Major pb); (Parsed.Minor pa, Parsed.Minor pb);
                       (Parsed.Patch pa, Parsed.Patch pb); (Parsed.Ahead pa, Parsed.Ahead pb)], true).

Definition Older (a b : string) : bool :=
  let '(c, ok) := Compare a b in ok && (c <? 0)%Z.

(** Store.ClusterVersionRange: the loop over the nodes keeps the oldest and the
    newest comparable version. *)
Definition version_range_step (acc : string * string * bool) (n : option Node.t) : string * string * bool :=
  let '(mn, mx, anyUnknown) := acc in
  let v := n ⇝ Node.BinaryVersion in
  if Parsed.Unknown (Parse v) then (mn, mx, true)
  else
    let mn := if (mn =? "") || Older v mn then v else mn in
    let mx := if (mx =? "") || Older mx v then v else mx in
    (mn, mx, anyUnknown).

Definition ClusterVersionRange {RO : RangeOrder} (s : Store.t) : string * string * bool :=
  foldl version_range_step ("", "", false) (range_values (Store.nodes s)).

(** * The order of versions *)

Definition version_key (v : string) : list Z :=
  let p := Parse v in [Parsed.Major p; Parsed.Minor p; Parsed.Patch p; Parsed.Ahead p].

Definition known (v : string) : bool := negb (Parsed.Unknown (Parse v)).

(** Lexicographic order of lists of the same length. *)
Fixpoint lex_lt (l k : list Z) : Prop :=
  match l, k with
  | x :: l, y :: k => (x < y)%Z ∨ (x = y ∧ lex_lt l k)
  | _, _ => False
  end.

Lemma lex_lt_trans l k m : lex_lt l k → lex_lt k m → lex_lt l m.
Proof.
  revert k m. induction l as [|x l IH]; intros [|y k] [|z m]; cbn; try done.
  intros [?|[-> ?]] [?|[-> ?]]; try (left; lia). right. split; [done|]. by eapply IH.
Qed.

Lemma lex_lt_irrefl l : ¬ lex_lt l l.
Proof. induction l as [|x l IH]; cbn; [tauto|]. intros [?|[_ ?]]; [lia|by apply IH]. Qed.

Lemma lex_lt_total l k : length l = length k → lex_lt l k ∨ l = k ∨ lex_lt k l.
Proof.
  revert k. induction l as [|x l IH]; intros [|y k]; cbn; try done; [by auto|]. intros [= Hl].
  destruct (Z.lt_trichotomy x y) as [?|[->|?]]; [by auto| |by auto].
  destruct (IH k Hl) as [?|[->|?]]; auto.
Qed.

Lemma compare_pairs_neg l k :
  length l = length k → (compare_pairs (zip l k) < 0)%Z ↔ lex_lt l k.
Proof.
  revert k. induction l as [|x l IH]; intros [|y k]; cbn; try done. intros [= Hl].
  destruct (Z.eqb_spec x y) as [->|Hne].
  - rewrite IH by done. split; [by auto|]. intros [?|[_ ?]]; [lia|done].
  - destruct (Z.ltb_spec x y); split; try lia.
Qed.

Lemma Older_spec a b :
  Older a b = true ↔ known a = true ∧ known b = true ∧ lex_lt (version_key a) (version_key b).
Proof.
  unfold Older, Compare, known. destruct (Parsed.Unknown (Parse a)), (Parsed.Unknown (Parse b)); cbn [orb andb negb];
    try (split; [discriminate|intros (? & ? & ?); discriminate]).
  change [(Parsed.Major (Parse a), Parsed.Major (Parse b)); (Parsed.Minor (Parse a), Parsed.Minor (Parse b));
    (Parsed.Patch (Parse a), Parsed.Patch (Parse b)); (Parsed.Ahead (Parse a), Parsed.Ahead (Parse b))]
    with (zip (version_key a) (version_key b)).
  rewrite Z.ltb_lt, compare_pairs_neg by done. tauto.
Qed.

Lemma Older_trans a b c : Older a b = true → Older b c = true → Older a c = true.
Proof.
  rewrite !Older_spec. intros (Ha & _ & H1) (_ & Hc & H2). split_and!; [done|done|]. by eapply lex_lt_trans.
Qed.

Lemma Older_irrefl a : Older a a = false.
Proof. apply not_true_iff_false. rewrite Older_spec. intros (_ & _ & H). by eapply lex_lt_irrefl. Qed.

(** Not being older is transitive on known versions. *)
Lemma not_older_trans a b c :
  known b = true → Older b a = false → Older c b = false → Older c a = false.
Proof.
  intros Hb H1 H2. apply not_true_iff_false. rewrite Older_spec. intros (Hc & Ha & Hlt).
  destruct (lex_lt_total (version_key b) (version_key a)) as [H|[H|H]]; [done| | |].
  - assert (Older b a = true) by (by rewrite Older_spec). congruence.
  - assert (Older c b = true) by (rewrite Older_spec, H; done). congruence.
  - assert (Older c b = true) by (rewrite Older_spec; eauto using lex_lt_trans). congruence.
Qed.

(** Versions are ordered strictly and totally where they are comparable: an
    unknown version is neither older nor newer than any, two known ones are ordered
    one way or compare equal, and the order is transitive. *)
Theorem version_order (a b c : string) :
  Older a a = false
  ∧ (Older a b = true → Older b c = true → Older a c = true)
  ∧ (known a = false → Older a b = false ∧ Older b a = false)
  ∧ (known a = true → known b = true →
     Older a b = true ∧ Older b a = false
     ∨ Compare a b = (0%Z, true) ∧ Older a b = false ∧ Older b a = false
     ∨ Older a b = false ∧ Older b a = true).
Proof.
  split_and!; [apply Older_irrefl|apply Older_trans| |].
  - intros Ha. split; apply not_true_iff_false; rewrite Older_spec; intros (? & ? & _); congruence.
  - intros Ha Hb. destruct (lex_lt_total (version_key a) (version_key b)) as [H|[H|H]]; [done| | |].
    + left. split; [by rewrite Older_spec|]. apply not_true_iff_false. rewrite Older_spec. intros (_ & _ & H').
      eapply lex_lt_irrefl, lex_lt_trans; done.
    + right; left. split.
      * unfold Compare. unfold known in Ha, Hb. apply negb_true_iff in Ha as ->, Hb as ->. cbn [orb].
        unfold version_key in H. injection H as -> -> -> ->. cbn. by rewrite !Z.eqb_refl.
      * split; apply not_true_iff_false; rewrite Older_spec, H; intros (_ & _ & H'); by eapply lex_lt_irrefl.
    + right; right. split; [|by rewrite Older_spec]. apply not_true_iff_false. rewrite Older_spec. intros (_ & _ & H').
      eapply lex_lt_irrefl, lex_lt_trans; done.
Qed.

(** ** The range of a cluster *)

Definition range_inv (seen : list (option Node.t)) (acc : string * string * bool) : Prop :=
  let '(mn, mx, anyUnknown) := acc in
  (anyUnknown = true ↔ ∃ n, n ∈ seen ∧ known (n ⇝ Node.BinaryVersion) = false)
  ∧ (mn = "" ↔ mx = "")
  ∧ (mn = "" → ∀ n, n ∈ seen → known (n ⇝ Node.BinaryVersion) = false)
  ∧ (mn ≠ "" → (known mn = true ∧ ∃ n, n ∈ seen ∧ n ⇝ Node.BinaryVersion = mn)
             ∧ (known mx = true ∧ ∃ n, n ∈ seen ∧ n ⇝ Node.BinaryVersion = mx)
             ∧ ∀ n, n ∈ seen → Older (n ⇝ Node.BinaryVersion) mn = false ∧ Older mx (n ⇝ Node.BinaryVersion) = false).

Lemma unknown_older v w : known v = false → Older v w = false ∧ Older w v = false.
Proof. intros Hv. split; apply not_true_iff_false; rewrite Older_spec; intros (? & ? & _); congruence. Qed.

Lemma range_inv_step seen acc n : range_inv seen acc → range_inv (seen ++ [n]) (version_range_step acc n).
Proof.
  destruct acc as [[mn mx] u]. intros (Hu & Hemp & Hnone & Hsome). unfold version_range_step.
  set (v := n ⇝ Node.BinaryVersion).
  assert (∀ m, m ∈ seen ++ [n] ↔ m ∈ seen ∨ m = n) as Hin by (intros m; rewrite elem_of_app; set_solver).
  destruct (known v) eqn:Hv; pose proof Hv as Hv'; unfold known in Hv'; [apply negb_true_iff in Hv'|apply negb_false_iff in Hv'];
    rewrite Hv'.
  - assert (v ≠ "") as Hne by (intros E; rewrite E in Hv; vm_compute in Hv; discriminate).
    destruct (mn =? "") eqn:Hmn; [apply str_eqb_eq in Hmn|apply str_eqb_neq in Hmn].
    + assert (mx = "") as -> by tauto. subst mn. cbn [orb]. change ("" =? "") with true. cbn [orb].
      unfold range_inv. setoid_rewrite Hin. split_and!; [|done|done|].
      * rewrite Hu. split; [naive_solver|]. intros (m & [Hm| ->] & Hk); [eauto|]. unfold v in Hv. congruence.
      * intros _. split_and!; [done|by eauto|done|by eauto|]. intros m [Hm| ->]; [|split; apply Older_irrefl].
        destruct (unknown_older (m ⇝ Node.BinaryVersion) v (Hnone eq_refl m Hm)). done.
    + assert ((mx =? "") = false) as -> by (apply str_eqb_neq; tauto). cbn [orb].
      destruct (Hsome Hmn) as ([Kmn (nmn & Hnmn & Emn)] & [Kmx (nmx & Hnmx & Emx)] & Hall).
      assert ((if Older v mn then v else mn) ≠ "") as Hne' by (by destruct (Older v mn)).
      assert ((if Older mx v then v else mx) ≠ "") as Hne'' by (destruct (Older mx v); [done|tauto]).
      unfold range_inv. setoid_rewrite Hin. split_and!; [|tauto|done|].
      * rewrite Hu. split; [naive_solver|]. intros (m & [Hm| ->] & Hk); [eauto|]. unfold v in Hv. congruence.
      * intros _. split_and!.
        -- by destruct (Older v mn).
        -- destruct (Older v mn); eauto.
        -- by destruct (Older mx v).
        -- destruct (Older mx v); eauto.
        -- intros m Hm. assert (Older (m ⇝ Node.BinaryVersion) mn = false ∧ Older mx (m ⇝ Node.BinaryVersion) = false
             ∨ m = n) as Hm' by naive_solver.
           split.
           ++ destruct (Older v mn) eqn:E; destruct Hm' as [[H1 H2]| ->]; try done; try apply Older_irrefl.
              apply (not_older_trans v mn _); [done| |done]. apply not_true_iff_false. intros E'.
              pose proof (Older_trans _ _ _ E E') as C. by rewrite Older_irrefl in C.
           ++ destruct (Older mx v) eqn:E; destruct Hm' as [[H1 H2]| ->]; try done; try apply Older_irrefl.
              apply (not_older_trans _ mx v); [done|done|]. apply not_true_iff_false. intros E'.
              pose proof (Older_trans _ _ _ E E') as C. by rewrite Older_irrefl in C.
  - unfold range_inv. setoid_rewrite Hin. split_and!; [|done| |].
    + split; [|done]. intros _. exists n. auto.
    + intros Hmn m [Hm| ->]; [by apply Hnone|done].
    + intros Hmn. destruct (Hsome Hmn) as ([Kmn (nmn & Hnmn & Emn)] & [Kmx (nmx & Hnmx & Emx)] & Hall).
      split_and!; [done|by eauto|done|by eauto|]. intros m [Hm| ->]; [by apply Hall|].
      destruct (unknown_older v mn Hv), (unknown_older v mx Hv). done.
Qed.

(** The reported range brackets the cluster: no node's version is older than
    the minimum or newer than the maximum, both are versions of nodes, and a node
    whose version cannot be parsed is reported rather than taken for an old one. *)
Theorem cluster_version_range (RO : RangeOrder) (ROk : RangeOrderOk RO) (s : Store.t) :
  let '(mn, mx, anyUnknown) := ClusterVersionRange s in
  (anyUnknown = true ↔ ∃ id n, Store.nodes s !! id = Some n ∧ known (n ⇝ Node.BinaryVersion) = false)
  ∧ (∀ id n, Store.nodes s !! id = Some n → known (n ⇝ Node.BinaryVersion) = true →
       mn ≠ "" ∧ Older (n ⇝ Node.BinaryVersion) mn = false ∧ Older mx (n ⇝ Node.BinaryVersion) = false)
  ∧ (mn ≠ "" → (∃ id n, Store.nodes s !! id = Some n ∧ n ⇝ Node.BinaryVersion = mn)
             ∧ (∃ id n, Store.nodes s !! id = Some n ∧ n ⇝ Node.BinaryVersion = mx)).
Proof.
  unfold ClusterVersionRange.
  assert (∀ l seen acc, range_inv seen acc → range_inv (seen ++ l) (foldl version_range_step acc l)) as Hloop.
  { induction l as [|n l IH]; intros seen acc H; cbn; [by rewrite app_nil_r|].
    replace (seen ++ n :: l) with ((seen ++ [n]) ++ l) by (by rewrite <- app_assoc). by apply IH, range_inv_step. }
  assert (range_inv [] ("", "", false)) as H0.
  { unfold range_inv. repeat setoid_rewrite elem_of_nil. split_and!; [|tauto|tauto|tauto].
    split; [discriminate|]. intros (n & [] & _). }
  specialize (Hloop (range_values (Store.nodes s)) [] _ H0). cbn [app] in Hloop.
  destruct (foldl version_range_step _ _) as [[mn mx] u]. destruct Hloop as (Hu & Hemp & Hnone & Hsome).
  setoid_rewrite elem_of_range_values in Hu. setoid_rewrite elem_of_range_values in Hnone.
  setoid_rewrite elem_of_range_values in Hsome. split_and!.
  - rewrite Hu. split; [intros (n & [i Hn] & Hk)|intros (i & n & Hn & Hk)]; eauto.
  - intros id n Hn Hk. assert (mn ≠ "") as Hne.
    { intros E. rewrite (Hnone E n) in Hk by eauto. discriminate. }
    split; [done|]. apply (Hsome Hne). eauto.
  - intros Hne. destruct (Hsome Hne) as ([_ (n1 & [i1 H1] & E1)] & [_ (n2 & [i2 H2] & E2)] & _).
    split; [exists i1, n1|exists i2, n2]; done.
Qed.

(** Three nodes, one of an untagged build. *)
Definition versioned_node (id v : string) : option Node.t :=
  Some (Node.mk (Some (Meta.mk id None None)) id [] ∅ "" "" [] None 0 NODE_STATUS_ALIVE true false v None "").

Definition versioned : Store.t :=
  Store.PutNode (versioned_node "n1" "v1.3.0") (Store.PutNode (versioned_node "n2" "v1.2.3-4-gabc")
  (Store.PutNode (versioned_node "n3" "dev") Store.New)).

Lemma cluster_version_range_witness :
  ClusterVersionRange (RO := canonical_range) versioned = ("v1.2.3-4-gabc", "v1.3.0", true)
  ∧ Older "v1.3.0" "v1.2.3-4-gabc" = false.
Proof.
  assert (ClusterVersionRange (RO := canonical_range) versioned = ("v1.2.3-4-gabc", "v1.3.0", true)) as Hr
    by (vm_compute; reflexivity).
  pose proof (cluster_version_range canonical_range canonical_range_ok versioned) as H. rewrite Hr in H.
  split; [exact Hr|]. apply (proj1 (proj2 H) "n1" (versioned_node "n1" "v1.3.0")); vm_compute; reflexivity.
Defined.
