(* ===== verification/Placement.v ===== *)
(** Replica placement (internal/daemon/scheduler/placement.go and the label helper
    of helpers.go): [Place] filters the nodes, counts reservations and replicas,
    then picks greedily, re-scoring after each pick.

    The theorems: a picked node is eligible, nodes are not overcommitted while the
    sums stay in 32 bits (and can be when they do not), the pick stops only when
    nothing fits, and replicas are spread. *)
From stdpp Require Import pretty.
From S2P Require Import Prelude Api Watch State StateInv StoreProps Fsm Samples Platform.

Definition defaultReserveCPUMillis : Z := 100.
Definition defaultReserveMemoryMB : Z := 256.

Module resources.
Record t := mk { cpuMillis : Z; memoryMB : Z }.

(** uint32 addition wraps. *)
Definition add (r o : t) : t := mk (u32 (cpuMillis r + cpuMillis o)) (u32 (memoryMB r + memoryMB o)).
End resources.

#[export] Instance zero_resources : Zero resources.t := resources.mk 0 0.

Module scoreKey.
Record t := mk { envReplicas : Z; regionReplicas : Z; negFreeMem : Z; nodeID : string }.

Definition less (k o : t) : bool :=
  if negb (envReplicas k =? envReplicas o)%Z then (envReplicas k <? envReplicas o)%Z
  else if negb (regionReplicas k =? regionReplicas o)%Z then (regionReplicas k <? regionReplicas o)%Z
  else if negb (negFreeMem k =? negFreeMem o)%Z then (negFreeMem k <? negFreeMem o)%Z
  else str_ltb (nodeID k) (nodeID o).
End scoreKey.

(** [m[k]] of a map whose zero value is read for a missing key. *)
Definition at_key {A} `{Zero A} (m : gmap string A) (k : string) : A := default zero (m !! k).

(** [m[k] += n] *)
Definition bump (k : string) (n : Z) (m : gmap string Z) : gmap string Z := <[k := (at_key m k + n)%Z]> m.

Definition regionOf (node : option Node.t) : string := at_key (node ⇝ Node.Labels) "region".

(** freeMemory: what remains, the largest int64 when unreported. *)
Definition freeMemory (cap : option ResourceLimits.t) (cur : resources.t) : Z :=
  let m := cap ⇝ ResourceLimits.MemoryMb in
  if (m =? 0)%Z then max_int64
  else let free := (m - resources.memoryMB cur)%Z in if (free <? 0)%Z then 0 else free.

(** fits: the sums are uint32. *)
Definition fits (cur need : resources.t) (cap : option ResourceLimits.t) : bool :=
  let c := cap ⇝ ResourceLimits.CpuMillis in
  let m := cap ⇝ ResourceLimits.MemoryMb in
  if negb (c =? 0)%Z && (c <? u32 (resources.cpuMillis cur + resources.cpuMillis need))%Z then false
  else if negb (m =? 0)%Z && (m <? u32 (resources.memoryMB cur + resources.memoryMB need))%Z then false
  else true.

Definition effectiveResources (spec : option ServiceSpec.t) : resources.t :=
  let c := spec ⇝ ServiceSpec.Resources ⇝ ResourceLimits.CpuMillis in
  let m := spec ⇝ ServiceSpec.Resources ⇝ ResourceLimits.MemoryMb in
  resources.mk (if (c =? 0)%Z then defaultReserveCPUMillis else c)
    (if (m =? 0)%Z then defaultReserveMemoryMB else m).

(** What the filter makes of a node; a rejection may be worth an error. *)
Inductive verdict := Candidate | Skipped | ArchRejected | LabelRejected.

#[export] Instance verdict_eq_dec : EqDecision verdict.
Proof. solve_decision. Defined.

(** The variables of the greedy loop. *)
Module picks.
Record t := mk {
  picked : list string;
  addRes : gmap string resources.t;
  pickEnv : gmap string Z;
  pickRegion : gmap string Z
}.
End picks.

Definition no_picks : picks.t := picks.mk [] ∅ ∅ ∅.

(** What the picks are scored against. *)
Module scene.
Record t := mk {
  need : resources.t;
  reserved : gmap string resources.t;
  envByNode : gmap string Z;
  envByRegion : gmap string Z;
  cands : list (option Node.t)
}.
End scene.

Inductive place_error :=
| ErrNoArch (platforms : list string) (envID : string)
| ErrNoLabels (constraints : gmap string string) (envID : string)
| ErrShort (placed n : Z) (envID : string).

Section place.
Context {RO : RangeOrder}.

Definition labelsMatch (nodeLabels constraints : gmap string string) : bool :=
  forallb (λ '(k, v), at_key nodeLabels k =? v) (range constraints).

Definition formatConstraints (c : gmap string string) : string :=
  Join (sort_slice str_ltb ((λ '(k, v), k +:+ "=" +:+ v) <$> range c)) ",".

(** The node a stateful service with volumes must run on: that of the first of its
    volumes that exists and is placed. *)
Definition pinnedNodeID (st : Store.t) (spec : option ServiceSpec.t) (envID : string) : string :=
  if negb (spec ⇝ ServiceSpec.Stateful) || (length (spec ⇝ ServiceSpec.Volumes) =? 0)%nat then ""
  else match Store.Environment envID st with
  | None => ""
  | Some env =>
    let pins := omap (λ vm,
      v ← Store.VolumeByName (env ⇝ Environment.ProjectId) envID (vm ⇝ VolumeMount.VolumeName) st;
      if v ⇝ Volume.NodeId =? "" then None else Some (v ⇝ Volume.NodeId)) (spec ⇝ ServiceSpec.Volumes) in
    default "" (head pins)
  end.

Definition is_run (a : option Assignment.t) : bool :=
  bool_decide (a ⇝ Assignment.Desired = ASSIGNMENT_DESIRED_RUN).

(** The service of an assignment's release; nil when the release is gone. *)
Definition assignment_spec (st : Store.t) (a : option Assignment.t) : option ServiceSpec.t :=
  match Store.Release (a ⇝ Assignment.ReleaseId) st with
  | Some rel => rel ⇝ Release.Service
  | None => None
  end.

(** The body of the loop of reservationsByNode. *)
Definition reserve_step (st : Store.t) (out : gmap string resources.t) (a : option Assignment.t) :
    gmap string resources.t :=
  if negb (is_run a) then out
  else <[a ⇝ Assignment.NodeId :=
         resources.add (at_key out (a ⇝ Assignment.NodeId)) (effectiveResources (assignment_spec st a))]> out.

Definition reservationsByNode (st : Store.t) : gmap string resources.t :=
  foldl (reserve_step st) ∅ (Store.ListAssignments "" st).

(** The filter of Place, in its order. *)
Definition judge (rel : option Release.t) (pinned : string) (exclude : gmap string bool) (node : option Node.t) :
    verdict :=
  let id := GetId node in
  if at_key exclude id then Skipped
  else if negb (bool_decide (node ⇝ Node.Status = NODE_STATUS_ALIVE)) || negb (node ⇝ Node.Schedulable) then Skipped
  else if negb (Supports (node ⇝ Node.OsArch) (rel ⇝ Release.Platforms)) then ArchRejected
  else if negb (labelsMatch (node ⇝ Node.Labels)
                  (rel ⇝ Release.Service ⇝ ServiceSpec.PlacementConstraints)) then LabelRejected
  else if negb (pinned =? "") && negb (id =? pinned) then Skipped
  else Candidate.

(** Replicas of the environment per node, then per region. *)
Definition env_by_node (st : Store.t) (envID : string) : gmap string Z :=
  foldl (λ m a, if is_run a then bump (a ⇝ Assignment.NodeId) 1 m else m) ∅ (Store.ListAssignments envID st).

Definition env_by_region (st : Store.t) (byNode : gmap string Z) : gmap string Z :=
  foldl (λ m '(nodeID, c), match Store.Node nodeID st with
    | Some node => bump (regionOf node) c m
    | None => m
    end) ∅ (range byNode).

Definition current (sc : scene.t) (p : picks.t) (id : string) : resources.t :=
  resources.add (at_key (scene.reserved sc) id) (at_key (picks.addRes p) id).

Definition node_fits (sc : scene.t) (p : picks.t) (node : option Node.t) : bool :=
  fits (current sc p (GetId node)) (scene.need sc) (node ⇝ Node.Capacity).

Definition score (sc : scene.t) (p : picks.t) (node : option Node.t) : scoreKey.t :=
  let id := GetId node in
  scoreKey.mk (at_key (scene.envByNode sc) id + at_key (picks.pickEnv p) id)
    (at_key (scene.envByRegion sc) (regionOf node) + at_key (picks.pickRegion p) (regionOf node))
    (- freeMemory (node ⇝ Node.Capacity) (current sc p id)) id.

(** One candidate of the inner loop; [best] is nil until a node fits. *)
Definition better (sc : scene.t) (p : picks.t) (acc : option Node.t * scoreKey.t) (node : option Node.t) :
    option Node.t * scoreKey.t :=
  let '(best, bestKey) := acc in
  if negb (node_fits sc p node) then (best, bestKey)
  else
    let key := score sc p node in
    if bool_decide (best = None) || scoreKey.less key bestKey then (node, key) else (best, bestKey).

Definition pick_best (sc : scene.t) (p : picks.t) : option Node.t :=
  (foldl (better sc p) (None, scoreKey.mk 0 0 0 "") (scene.cands sc)).1.

Definition take_pick (sc : scene.t) (best : option Node.t) (p : picks.t) : picks.t :=
  let id := GetId best in
  picks.mk (picks.picked p ++ [id])
    (<[id := resources.add (at_key (picks.addRes p) id) (scene.need sc)]> (picks.addRes p))
    (bump id 1 (picks.pickEnv p)) (bump (regionOf best) 1 (picks.pickRegion p)).

Fixpoint pick_loop (sc : scene.t) (n : nat) (p : picks.t) : picks.t :=
  match n with
  | 0 => p
  | S n =>
    match pick_best sc p with
    | None => p
    | best => pick_loop sc n (take_pick sc best p)
    end
  end.

(** The error's text. *)
Definition place_error_string (e : place_error) : string :=
  match e with
  | ErrNoArch platforms envID =>
    "placement: no node with a supported architecture (need one of " +:+ Join platforms ", " +:+ ") for env " +:+ envID
  | ErrNoLabels c envID =>
    "placement: no node matches constraints " +:+ formatConstraints c +:+ " for env " +:+ envID
  | ErrShort placed n envID =>
    "placement: only " +:+ pretty placed +:+ " of " +:+ pretty n +:+ " replicas placeable for env " +:+ envID
      +:+ " (constraints/capacity)"
  end.

Definition candidates (st : Store.t) (rel : option Release.t) (envID : string) (exclude : gmap string bool) :
    list (option Node.t) :=
  List.filter (λ node, bool_decide (judge rel (pinnedNodeID st (rel ⇝ Release.Service) envID) exclude node = Candidate))
    (Store.ListNodes st).

Definition rejected (st : Store.t) (rel : option Release.t) (envID : string) (exclude : gmap string bool)
    (v : verdict) : bool :=
  existsb (λ node, bool_decide (judge rel (pinnedNodeID st (rel ⇝ Release.Service) envID) exclude node = v))
    (Store.ListNodes st).

Definition scene_of (st : Store.t) (rel : option Release.t) (envID : string) (exclude : gmap string bool) : scene.t :=
  let byNode := env_by_node st envID in
  scene.mk (effectiveResources (rel ⇝ Release.Service)) (reservationsByNode st) byNode (env_by_region st byNode)
    (candidates st rel envID exclude).

Definition Place (st : Store.t) (rel : option Release.t) (envID : string) (n : Z) (exclude : gmap string bool) :
    list string * option place_error :=
  if (n <=? 0)%Z then ([], None)
  else
    let sc := scene_of st rel envID exclude in
    let none := (length (scene.cands sc) =? 0)%nat in
    if none && rejected st rel envID exclude ArchRejected
    then ([], Some (ErrNoArch (rel ⇝ Release.Platforms) envID))
    else if none && rejected st rel envID exclude LabelRejected
    then ([], Some (ErrNoLabels (rel ⇝ Release.Service ⇝ ServiceSpec.PlacementConstraints) envID))
    else
      let p := pick_loop sc (Z.to_nat n) no_picks in
      if (Z.of_nat (length (picks.picked p)) <? n)%Z
      then (picks.picked p, Some (ErrShort (Z.of_nat (length (picks.picked p))) n envID))
      else (picks.picked p, None).

End place.

(** * The score is a total order *)

Lemma less_asym k o : scoreKey.less k o = true → scoreKey.less o k = false.
Proof.
  unfold scoreKey.less. rewrite (Z.eqb_sym (scoreKey.envReplicas o)), (Z.eqb_sym (scoreKey.regionReplicas o)),
    (Z.eqb_sym (scoreKey.negFreeMem o)).
  repeat match goal with |- context [(?x =? ?y)%Z] => destruct (Z.eqb_spec x y); cbn [negb] end;
    rewrite ?Z.ltb_lt, ?Z.ltb_ge; try lia. apply str_ltb_asym.
Qed.

Lemma less_not_trans k1 k2 k3 :
  scoreKey.less k2 k1 = false → scoreKey.less k3 k2 = false → scoreKey.less k3 k1 = false.
Proof.
  unfold scoreKey.less.
  repeat match goal with |- context [(?x =? ?y)%Z] => destruct (Z.eqb_spec x y); cbn [negb] end;
    rewrite ?Z.ltb_ge; try lia. apply str_leb_trans.
Qed.

Lemma not_less_env k o : scoreKey.less k o = false → (scoreKey.envReplicas o ≤ scoreKey.envReplicas k)%Z.
Proof.
  unfold scoreKey.less. destruct (Z.eqb_spec (scoreKey.envReplicas k) (scoreKey.envReplicas o)); cbn [negb]; [lia|].
  rewrite Z.ltb_ge. lia.
Qed.

(** * One pick *)

(** The best of the candidates seen so far. *)
Definition best_inv (sc : scene.t) (p : picks.t) (seen : list (option Node.t)) (acc : option Node.t * scoreKey.t) : Prop :=
  match acc with
  | (Some node, key) =>
    Some node ∈ seen ∧ node_fits sc p (Some node) = true ∧ key = score sc p (Some node)
    ∧ ∀ other, other ∈ seen → node_fits sc p other = true → scoreKey.less (score sc p other) key = false
  | (None, _) => ∀ other, other ∈ seen → node_fits sc p other = false
  end.

Lemma best_inv_step sc p seen acc node :
  best_inv sc p seen acc → best_inv sc p (seen ++ [Some node]) (better sc p acc (Some node)).
Proof.
  destruct acc as [best key]. intros H. unfold better. set (n := Some node).
  assert (∀ o, o ∈ seen ++ [n] ↔ o ∈ seen ∨ o = n) as Hin by (intros o; rewrite elem_of_app; set_solver).
  destruct (node_fits sc p n) eqn:Hf; cbn [negb].
  - destruct (bool_decide (best = None) || scoreKey.less (score sc p n) key) eqn:Hb.
    + cbn. setoid_rewrite Hin. split_and!; [by right|done|done|]. intros o [Ho| ->] Hfo.
      * destruct best as [best|]; cbn in H; [|by rewrite (H o Ho) in Hfo].
        destruct H as (_ & _ & -> & H). apply orb_prop in Hb as [Hb|Hb]; [by apply bool_decide_eq_true in Hb|].
        eapply less_not_trans; [apply less_asym; exact Hb|]. by apply H.
      * apply not_true_iff_false. intros C. pose proof (less_asym _ _ C). unfold n in *. congruence.
    + apply orb_false_elim in Hb as [Hb1 Hb2]. destruct best as [best|]; [|by apply bool_decide_eq_false in Hb1].
      cbn in *. setoid_rewrite Hin. destruct H as (H1 & H2 & H3 & H). split_and!; [by left|done|done|].
      intros o [Ho| ->] Hfo; [by apply H|done].
  - destruct best as [best|]; cbn in *; setoid_rewrite Hin.
    + destruct H as (H1 & H2 & H3 & H). split_and!; [by left|done|done|].
      intros o [Ho| ->] Hfo; [by apply H|congruence].
    + intros o [Ho| ->]; [by apply H|done].
Qed.

Lemma best_inv_loop sc p l seen acc :
  Forall (λ n, n ≠ None) l → best_inv sc p seen acc → best_inv sc p (seen ++ l) (foldl (better sc p) acc l).
Proof.
  revert seen acc. induction l as [|n l IH]; intros seen acc Hl H; cbn [foldl]; [by rewrite app_nil_r|].
  apply Forall_cons in Hl as [Hn Hl]. destruct n as [n|]; [|done].
  replace (seen ++ Some n :: l) with ((seen ++ [Some n]) ++ l) by (by rewrite <- app_assoc).
  by apply IH, best_inv_step.
Qed.

(** The pick fits and no fitting candidate scores lower; there is no pick only when
    nothing fits. *)
Lemma pick_best_spec sc p :
  Forall (λ n, n ≠ None) (scene.cands sc) →
  match pick_best sc p with
  | Some node =>
    Some node ∈ scene.cands sc ∧ node_fits sc p (Some node) = true
    ∧ ∀ other, other ∈ scene.cands sc → node_fits sc p other = true →
        scoreKey.less (score sc p other) (score sc p (Some node)) = false
  | None => ∀ other, other ∈ scene.cands sc → node_fits sc p other = false
  end.
Proof.
  intros Hc. assert (best_inv sc p [] (None, scoreKey.mk 0 0 0 "")) as H0 by (intros o Ho; by apply elem_of_nil in Ho).
  apply (best_inv_loop sc p (scene.cands sc)) in H0; [|done]. cbn [app] in H0. unfold pick_best.
  destruct (foldl _ _ _) as [[node|] key]; cbn [fst]; [|exact H0].
  destruct H0 as (H1 & H2 & -> & H3). done.
Qed.

(** * The loop *)

Definition count_of (id : string) (l : list string) : Z := Z.of_nat (length (filter (λ x, x = id) l)).

Lemma count_of_app id l k : count_of id (l ++ k) = (count_of id l + count_of id k)%Z.
Proof. unfold count_of. rewrite filter_app, length_app. lia. Qed.

Lemma count_of_one id id' : count_of id [id'] = if decide (id' = id) then 1%Z else 0%Z.
Proof. unfold count_of. rewrite filter_cons, filter_nil. by case_decide. Qed.

Lemma count_of_nonneg id l : (0 ≤ count_of id l)%Z.
Proof. unfold count_of. lia. Qed.

Lemma count_of_pos id l : id ∈ l → (0 < count_of id l)%Z.
Proof.
  intros Hin. unfold count_of. assert (id ∈ filter (λ x, x = id) l) as H by (by apply list_elem_of_filter).
  destruct (filter _ l); [by apply elem_of_nil in H|]. cbn. lia.
Qed.

Lemma count_of_le id l : (count_of id l ≤ Z.of_nat (length l))%Z.
Proof. unfold count_of. pose proof (length_filter (λ x, x = id) l). lia. Qed.

Lemma at_key_insert {A} `{Zero A} (m : gmap string A) k v k' :
  at_key (<[k := v]> m) k' = if decide (k = k') then v else at_key m k'.
Proof. unfold at_key. rewrite lookup_insert. by case_decide. Qed.

Lemma at_key_empty {A} `{Zero A} k : at_key (∅ : gmap string A) k = zero.
Proof. unfold at_key. by rewrite lookup_empty. Qed.

(** The loop's variables are functions of the list picked so far. *)
Record loop_inv (sc : scene.t) (p : picks.t) : Prop := {
  inv_env : ∀ id, at_key (picks.pickEnv p) id = count_of id (picks.picked p);
  inv_res : ∀ id, at_key (picks.addRes p) id =
    resources.mk (u32 (count_of id (picks.picked p) * resources.cpuMillis (scene.need sc)))
                 (u32 (count_of id (picks.picked p) * resources.memoryMB (scene.need sc)));
  inv_picked : ∀ id, id ∈ picks.picked p → ∃ node, Some node ∈ scene.cands sc ∧ GetId (Some node) = id
}.

Lemma loop_inv_no_picks sc : loop_inv sc no_picks.
Proof.
  split; cbn; [intros id; by rewrite at_key_empty|intros id; by rewrite at_key_empty|].
  intros id H. by apply elem_of_nil in H.
Qed.

Lemma u32_add x y : u32 (u32 x + y) = u32 (x + y).
Proof. unfold u32. by rewrite Zplus_mod_idemp_l. Qed.

Lemma loop_inv_take sc p node :
  loop_inv sc p → Some node ∈ scene.cands sc → loop_inv sc (take_pick sc (Some node) p).
Proof.
  intros [H1 H2 H3] Hin. split; cbn.
  - intros id. unfold bump. rewrite at_key_insert, count_of_app, count_of_one.
    case_decide; subst; rewrite H1; lia.
  - intros id. rewrite at_key_insert, count_of_app, count_of_one. case_decide; subst; rewrite H2.
    + unfold resources.add; cbn. rewrite !u32_add. f_equal; f_equal; lia.
    + f_equal; f_equal; lia.
  - intros id [Hid|Hid%list_elem_of_singleton]%elem_of_app; [by apply H3|]. subst. eauto.
Qed.

(** A general induction on the loop: an invariant that every possible pick keeps
    holds at the end, where either all picks were made or nothing fits. *)
Lemma pick_loop_ind (I : picks.t → Prop) sc n p :
  Forall (λ x, x ≠ None) (scene.cands sc) →
  (∀ p node, I p → length (picks.picked p) < length (picks.picked p) + n → pick_best sc p = Some node →
     I (take_pick sc (Some node) p)) →
  I p →
  let p' := pick_loop sc n p in
  I p' ∧ length (picks.picked p') ≤ length (picks.picked p) + n
  ∧ (length (picks.picked p') = length (picks.picked p) + n
     ∨ ∀ node, node ∈ scene.cands sc → node_fits sc p' node = false).
Proof.
  intros Hc. revert p. induction n as [|n IH]; intros p Hstep HI; cbn [pick_loop].
  { split; [done|]. split; [lia|left; lia]. }
  pose proof (pick_best_spec sc p Hc) as Hb. destruct (pick_best sc p) as [node|] eqn:E.
  - assert (I (take_pick sc (Some node) p)) as HI' by (apply Hstep; [done|lia|done]).
    destruct (IH (take_pick sc (Some node) p)) as (H1 & H2 & H3); [|done|].
    + intros q m Hq Hl. apply Hstep; [done|lia].
    + cbn [take_pick picks.picked] in H2, H3. rewrite length_app in H2, H3. cbn [length] in H2, H3.
      split; [done|]. split; [lia|]. destruct H3 as [H3|H3]; [left; lia|by right].
  - split; [done|]. split; [lia|]. by right.
Qed.

Section bounded.
Context (sc : scene.t) (n : nat).

Notation need := (scene.need sc).
Notation cap node f := (node ⇝ Node.Capacity ⇝ f).

Definition held (id : string) : resources.t := at_key (scene.reserved sc) id.

(** Sums of reservations that stay in 32 bits, with room for one more replica. *)
Record no_overflow : Prop := {
  no_cpu : (0 ≤ resources.cpuMillis need)%Z
    ∧ ∀ id, (0 ≤ resources.cpuMillis (held id)
             ∧ resources.cpuMillis (held id) + (Z.of_nat n + 1) * resources.cpuMillis need < 2 ^ 32)%Z;
  no_mem : (0 ≤ resources.memoryMB need)%Z
    ∧ ∀ id, (0 ≤ resources.memoryMB (held id)
             ∧ resources.memoryMB (held id) + (Z.of_nat n + 1) * resources.memoryMB need < 2 ^ 32)%Z
}.

(** A dimension is respected: unreported, or not exceeded. *)
Definition within (capacity used : Z) : Prop := capacity = 0%Z ∨ (used ≤ capacity)%Z.

Definition total (p : picks.t) (id : string) : Z := (at_key (scene.envByNode sc) id + count_of id (picks.picked p))%Z.

Definition capacity_inv (p : picks.t) : Prop :=
  ∀ node, node ∈ scene.cands sc → (0 < count_of (GetId node) (picks.picked p))%Z →
    within (cap node ResourceLimits.CpuMillis)
      (resources.cpuMillis (held (GetId node)) + count_of (GetId node) (picks.picked p) * resources.cpuMillis need)
    ∧ within (cap node ResourceLimits.MemoryMb)
      (resources.memoryMB (held (GetId node)) + count_of (GetId node) (picks.picked p) * resources.memoryMB need).

Definition spread_inv (p : picks.t) : Prop :=
  ∀ a b, a ∈ scene.cands sc → b ∈ scene.cands sc → (0 < count_of (GetId a) (picks.picked p))%Z →
    node_fits sc p b = true → (total p (GetId a) - 1 ≤ total p (GetId b))%Z.

Hypothesis Hsmall : no_overflow.

(** With small sums the wrapped arithmetic of a fit is exact. *)
Lemma fits_exact p node :
  loop_inv sc p → length (picks.picked p) ≤ n →
  let k := count_of (GetId node) (picks.picked p) in
  node_fits sc p node = true ↔
    within (cap node ResourceLimits.CpuMillis)
      (resources.cpuMillis (held (GetId node)) + (k + 1) * resources.cpuMillis need)
    ∧ within (cap node ResourceLimits.MemoryMb)
      (resources.memoryMB (held (GetId node)) + (k + 1) * resources.memoryMB need).
Proof.
  intros [_ H2 _] Hl k. destruct Hsmall as [[Hc0 Hc] [Hm0 Hm]].
  specialize (Hc (GetId node)) as [Hch Hc]. specialize (Hm (GetId node)) as [Hmh Hm].
  pose proof (count_of_nonneg (GetId node) (picks.picked p)) as Hk0.
  pose proof (count_of_le (GetId node) (picks.picked p)) as Hk1. fold k in Hk0, Hk1.
  assert (0 ≤ k * resources.cpuMillis need)%Z by nia. assert (0 ≤ k * resources.memoryMB need)%Z by nia.
  assert ((k + 1) * resources.cpuMillis need ≤ (Z.of_nat n + 1) * resources.cpuMillis need)%Z by nia.
  assert ((k + 1) * resources.memoryMB need ≤ (Z.of_nat n + 1) * resources.memoryMB need)%Z by nia.
  unfold node_fits, fits, current, resources.add. fold (held (GetId node)). rewrite H2. fold k. cbn [resources.cpuMillis resources.memoryMB].
  rewrite (u32_small (k * resources.cpuMillis need)) by (unfold in_u32; lia).
  rewrite (u32_small (k * resources.memoryMB need)) by (unfold in_u32; lia).
  rewrite !u32_add, !u32_small by (unfold in_u32; lia). unfold within.
  destruct (Z.eqb_spec (cap node ResourceLimits.CpuMillis) 0), (Z.eqb_spec (cap node ResourceLimits.MemoryMb) 0);
    cbn [negb andb]; repeat match goal with |- context [(?x <? ?y)%Z] => destruct (Z.ltb_spec x y) end; split; try done; try lia.
Qed.

Lemma within_mono c u v : (u ≤ v)%Z → within c v → within c u.
Proof. unfold within. lia. Qed.

Hypothesis Hids : ∀ a b, a ∈ scene.cands sc → b ∈ scene.cands sc → GetId a = GetId b → a = b.

Lemma capacity_inv_take p node :
  loop_inv sc p → length (picks.picked p) < n → Some node ∈ scene.cands sc → node_fits sc p (Some node) = true →
  capacity_inv p → capacity_inv (take_pick sc (Some node) p).
Proof.
  intros HI Hl Hin Hf Hcap m Hm. unfold take_pick. cbn [picks.picked]. rewrite count_of_app, count_of_one.
  case_decide as Hid.
  - intros _. rewrite (Hids _ _ Hm Hin (eq_sym Hid)). apply fits_exact in Hf; [done|done|lia].
  - rewrite Z.add_0_r. by apply Hcap.
Qed.

(** A node that fits after a pick fitted before it. *)
Lemma fits_mono p node m :
  loop_inv sc p → length (picks.picked p) < n → Some node ∈ scene.cands sc →
  node_fits sc (take_pick sc (Some node) p) m = true → node_fits sc p m = true.
Proof.
  intros HI Hl Hin Hf. destruct Hsmall as [[Hc0 _] [Hm0 _]].
  apply fits_exact in Hf as [H1 H2]; [|by apply loop_inv_take|cbn; rewrite length_app; cbn; lia].
  apply fits_exact; [done|lia|]. cbn [take_pick picks.picked] in H1, H2. rewrite count_of_app, count_of_one in H1, H2.
  split; (eapply within_mono; [|eassumption]); case_decide; nia.
Qed.

Lemma spread_inv_take p node :
  Forall (λ x, x ≠ None) (scene.cands sc) → loop_inv sc p → length (picks.picked p) < n →
  pick_best sc p = Some node → spread_inv p → spread_inv (take_pick sc (Some node) p).
Proof.
  intros Hc HI Hl Hb Hs a b Ha Hbin Hcnt Hf.
  pose proof (pick_best_spec sc p Hc) as Hspec. rewrite Hb in Hspec. destruct Hspec as (Hin & _ & Hmin).
  assert (node_fits sc p b = true) as Hf' by (by eapply fits_mono).
  assert (total p (GetId (Some node)) ≤ total p (GetId b))%Z as Hle.
  { specialize (Hmin b Hbin Hf'). apply not_less_env in Hmin. unfold score in Hmin. cbn in Hmin.
    rewrite !(inv_env _ _ HI) in Hmin. exact Hmin. }
  pose proof (count_of_nonneg (GetId b) [GetId (Some node)]) as Hb0.
  unfold total in Hle |- *. revert Hcnt. unfold take_pick. cbn [picks.picked]. rewrite !count_of_app. intros Hcnt.
  destruct (decide (GetId a = GetId (Some node))) as [E|Hne].
  - rewrite E, count_of_one, decide_True by done. lia.
  - rewrite (count_of_one (GetId a)), decide_False in Hcnt |- * by congruence. rewrite Z.add_0_r in *.
    specialize (Hs a b Ha Hbin Hcnt Hf'). unfold total in Hs. lia.
Qed.
End bounded.

(** * Place *)

Section place_props.
Context {RO : RangeOrder} {ROk : RangeOrderOk RO}.

(** What the RUN assignments of a node reserve, in one dimension, without wrapping. *)
Definition committed (f : resources.t → Z) (st : Store.t) (id : string) : Z :=
  foldl (λ acc a, if is_run a && (a ⇝ Assignment.NodeId =? id)
    then (acc + f (effectiveResources (assignment_spec st a)))%Z else acc) 0%Z (Store.ListAssignments "" st).

Lemma reservations_committed st id :
  at_key (reservationsByNode st) id
  = resources.mk (u32 (committed resources.cpuMillis st id)) (u32 (committed resources.memoryMB st id)).
Proof.
  unfold reservationsByNode, committed.
  enough (∀ l (m : gmap string resources.t) c r, at_key m id = resources.mk (u32 c) (u32 r) →
    at_key (foldl (reserve_step st) m l) id =
      resources.mk (u32 (foldl (λ acc a, if is_run a && (a ⇝ Assignment.NodeId =? id)
          then (acc + resources.cpuMillis (effectiveResources (assignment_spec st a)))%Z else acc) c l))
        (u32 (foldl (λ acc a, if is_run a && (a ⇝ Assignment.NodeId =? id)
          then (acc + resources.memoryMB (effectiveResources (assignment_spec st a)))%Z else acc) r l))) as H
    by (by apply H; rewrite at_key_empty).
  induction l as [|a l IH]; intros m c r Hm; cbn [foldl]; [done|]. apply IH. unfold reserve_step.
  destruct (is_run a); cbn [negb andb]; [|done]. rewrite at_key_insert.
  destruct (a ⇝ Assignment.NodeId =? id) eqn:E.
  - apply str_eqb_eq in E as ->. rewrite decide_True by done. rewrite Hm. unfold resources.add. cbn [resources.cpuMillis resources.memoryMB].
    by rewrite !u32_add.
  - apply str_eqb_neq in E. by rewrite decide_False.
Qed.

Lemma elem_of_ListNodes st node : node ∈ Store.ListNodes st ↔ ∃ id, Store.nodes st !! id = Some node.
Proof. unfold Store.ListNodes, Store.sortByID. rewrite sort_slice_perm. apply elem_of_range_values. Qed.

Lemma elem_of_candidates st rel envID exclude node :
  node ∈ candidates st rel envID exclude ↔
    node ∈ Store.ListNodes st ∧ judge rel (pinnedNodeID st (rel ⇝ Release.Service) envID) exclude node = Candidate.
Proof. unfold candidates. by rewrite elem_of_Filter, bool_decide_eq_true. Qed.

Lemma judge_candidate rel pinned exclude node :
  judge rel pinned exclude node = Candidate ↔
    at_key exclude (GetId node) = false
    ∧ node ⇝ Node.Status = NODE_STATUS_ALIVE ∧ node ⇝ Node.Schedulable = true
    ∧ Supports (node ⇝ Node.OsArch) (rel ⇝ Release.Platforms) = true
    ∧ (∀ k v, rel ⇝ Release.Service ⇝ ServiceSpec.PlacementConstraints !! k = Some v →
         at_key (node ⇝ Node.Labels) k = v)
    ∧ (pinned = "" ∨ GetId node = pinned).
Proof.
  assert (labelsMatch (node ⇝ Node.Labels) (rel ⇝ Release.Service ⇝ ServiceSpec.PlacementConstraints) = true ↔
    ∀ k v, rel ⇝ Release.Service ⇝ ServiceSpec.PlacementConstraints !! k = Some v →
         at_key (node ⇝ Node.Labels) k = v) as <-.
  { unfold labelsMatch. rewrite forallb_forall. split.
    - intros H k v Hk. specialize (H (k, v)). cbn in H. rewrite str_eqb_eq in H. apply H.
      rewrite <- list_elem_of_In. by apply elem_of_range.
    - intros H [k v] Hin. rewrite <- list_elem_of_In, elem_of_range in Hin. apply str_eqb_eq. by apply H. }
  unfold judge. destruct (at_key exclude (GetId node)); [naive_solver|].
  case_bool_decide as Hst; cbn [negb orb]; [|naive_solver].
  destruct (node ⇝ Node.Schedulable); cbn [negb]; [|naive_solver].
  destruct (Supports _ _); cbn [negb]; [|naive_solver].
  destruct (labelsMatch _ _); cbn [negb]; [|naive_solver].
  destruct (pinned =? "") eqn:Hp; cbn [negb andb]; [apply str_eqb_eq in Hp; naive_solver|].
  apply str_eqb_neq in Hp. destruct (GetId node =? pinned) eqn:Hi; cbn [negb].
  - apply str_eqb_eq in Hi. naive_solver.
  - apply str_eqb_neq in Hi. naive_solver.
Qed.

Lemma candidates_present st rel envID exclude : Forall (λ x, x ≠ None) (candidates st rel envID exclude).
Proof.
  apply Forall_forall. intros x [_ Hj]%elem_of_candidates ->. apply judge_candidate in Hj as (_ & Hs & _). done.
Qed.

Lemma candidates_ids st rel envID exclude a b :
  wf st → a ∈ candidates st rel envID exclude → b ∈ candidates st rel envID exclude → GetId a = GetId b → a = b.
Proof.
  intros Hst [[i Ha]%elem_of_ListNodes _]%elem_of_candidates [[j Hb]%elem_of_ListNodes _]%elem_of_candidates E.
  pose proof (wf_nodes _ Hst _ _ Ha). pose proof (wf_nodes _ Hst _ _ Hb). congruence.
Qed.

(** The picks of Place, on its non-trivial path. *)
Definition placed (st : Store.t) (rel : option Release.t) (envID : string) (n : Z) (exclude : gmap string bool) :
    picks.t :=
  pick_loop (scene_of st rel envID exclude) (Z.to_nat n) no_picks.

Lemma Place_eq st rel envID n exclude l e :
  (0 < n)%Z → Place st rel envID n exclude = (l, e) →
  l = picks.picked (placed st rel envID n exclude) ∧ (e = None ↔ Z.of_nat (length l) = n).
Proof.
  intros Hn. unfold Place, placed. destruct (Z.leb_spec n 0); [lia|].
  set (sc := scene_of st rel envID exclude).
  destruct (pick_loop_ind (λ _, True) sc (Z.to_nat n) no_picks) as (_ & Hlen & _); [apply candidates_present|done|done|].
  cbn in Hlen.
  assert ((length (scene.cands sc) =? 0)%nat = true → picks.picked (pick_loop sc (Z.to_nat n) no_picks) = []) as Hnone.
  { intros E%Nat.eqb_eq%length_zero_iff_nil. destruct (Z.to_nat n); [done|]. cbn. unfold pick_best. by rewrite E. }
  destruct (_ && rejected st rel envID exclude ArchRejected) eqn:E1.
  { apply andb_prop in E1 as [E1 _]. intros [= <- <-]. rewrite (Hnone E1). cbn. split; [done|]. split; [done|lia]. }
  destruct (_ && rejected st rel envID exclude LabelRejected) eqn:E2.
  { apply andb_prop in E2 as [E2 _]. intros [= <- <-]. rewrite (Hnone E2). cbn. split; [done|]. split; [done|lia]. }
  destruct (Z.ltb_spec (Z.of_nat (length (picks.picked (pick_loop sc (Z.to_nat n) no_picks)))) n);
    intros [= <- <-]; split; try done; split; try done; try lia.
Qed.

Lemma placed_loop_inv st rel envID n exclude :
  loop_inv (scene_of st rel envID exclude) (placed st rel envID n exclude)
  ∧ length (picks.picked (placed st rel envID n exclude)) ≤ Z.to_nat n.
Proof.
  destruct (pick_loop_ind (loop_inv (scene_of st rel envID exclude)) (scene_of st rel envID exclude) (Z.to_nat n) no_picks)
    as (H & Hlen & _); [apply candidates_present| |apply loop_inv_no_picks|done].
  intros p node HI _ Hb. pose proof (pick_best_spec (scene_of st rel envID exclude) p (candidates_present st rel envID exclude)) as Hs.
  rewrite Hb in Hs. apply loop_inv_take; [done|apply Hs].
Qed.
End place_props.

(** Placement picks only eligible nodes: alive, schedulable, not excluded, of a
    supported architecture, with every constraint's label, and for a stateful
    service the node its volume is on; at most the number asked for; and it reports
    no error exactly when it placed them all. *)
Theorem placement_sound (RO : RangeOrder) (ROk : RangeOrderOk RO) (st : Store.t) (rel : option Release.t)
    (envID : string) (n : Z) (exclude : gmap string bool) (l : list string) (e : option place_error) :
  wf st → Place st rel envID n exclude = (l, e) →
  (∀ id, id ∈ l → ∃ node, Store.nodes st !! id = Some (Some node)
    ∧ Node.Status node = NODE_STATUS_ALIVE ∧ Node.Schedulable node = true ∧ at_key exclude id = false
    ∧ Supports (Node.OsArch node) (rel ⇝ Release.Platforms) = true
    ∧ (∀ k v, rel ⇝ Release.Service ⇝ ServiceSpec.PlacementConstraints !! k = Some v → at_key (Node.Labels node) k = v)
    ∧ let pinned := pinnedNodeID st (rel ⇝ Release.Service) envID in pinned ≠ "" → id = pinned)
  ∧ (Z.of_nat (length l) ≤ Z.max 0 n)%Z
  ∧ (e = None ↔ Z.of_nat (length l) = Z.max 0 n).
Proof.
  intros Hst HP. destruct (Z.leb_spec n 0) as [Hn|Hn].
  { unfold Place in HP. rewrite (proj2 (Z.leb_le n 0) Hn) in HP. injection HP as <- <-.
    split; [intros id H; by apply elem_of_nil in H|]. cbn. split; [lia|]. split; [lia|done]. }
  destruct (Place_eq _ _ _ _ _ _ _ Hn HP) as [-> He].
  destruct (placed_loop_inv st rel envID n exclude) as [[_ _ Hpicked] Hlen].
  split; [|split; [lia|by rewrite He, Z.max_r by lia]].
  intros id (node & Hc & Hid)%Hpicked. cbn [scene_of scene.cands] in Hc.
  apply elem_of_candidates in Hc as [[i Hi]%elem_of_ListNodes Hj].
  pose proof (wf_nodes _ Hst _ _ Hi) as Hk. rewrite Hid in Hk. subst i.
  apply judge_candidate in Hj as (H1 & H2 & H3 & H4 & H5 & H6). exists node. rewrite Hid in H1, H6. cbn in H2, H3, H4, H5.
  split_and!; try done. intros pinned Hne. by destruct H6.
Qed.

(** The need of a release, and room for [n + 1] of it beside what each node has
    committed, without leaving 32 bits. *)
Definition sums_fit {RO : RangeOrder} (st : Store.t) (rel : option Release.t) (n : Z) : Prop :=
  let need := effectiveResources (rel ⇝ Release.Service) in
  ((0 ≤ resources.cpuMillis need)%Z ∧ ∀ id,
     (0 ≤ committed resources.cpuMillis st id
      ∧ committed resources.cpuMillis st id + (n + 1) * resources.cpuMillis need < 2 ^ 32)%Z)
  ∧ ((0 ≤ resources.memoryMB need)%Z ∧ ∀ id,
     (0 ≤ committed resources.memoryMB st id
      ∧ committed resources.memoryMB st id + (n + 1) * resources.memoryMB need < 2 ^ 32)%Z).

Section place_bounded.
Context {RO : RangeOrder} {ROk : RangeOrderOk RO}.
Variables (st : Store.t) (rel : option Release.t) (envID : string) (n : Z) (exclude : gmap string bool).
Hypothesis Hst : wf st.
Hypothesis Hn : (0 < n)%Z.
Hypothesis Hfit : sums_fit st rel n.

Let sc := scene_of st rel envID exclude.

Lemma held_committed id :
  held sc id = resources.mk (committed resources.cpuMillis st id) (committed resources.memoryMB st id).
Proof.
  destruct Hfit as [[Hc0 Hc] [Hm0 Hm]]. specialize (Hc id). specialize (Hm id).
  unfold held, sc, scene_of. cbn [scene.reserved]. rewrite reservations_committed.
  rewrite !u32_small by (unfold in_u32; nia). done.
Qed.

Lemma place_no_overflow : no_overflow sc (Z.to_nat n).
Proof.
  destruct Hfit as [[Hc0 Hc] [Hm0 Hm]]. unfold sc.
  split; (split; [done|]); intros id; fold sc; rewrite held_committed; cbn [resources.cpuMillis resources.memoryMB];
    [specialize (Hc id)|specialize (Hm id)]; rewrite Z2Nat.id by lia; done.
Qed.

Lemma placed_invariants :
  let p := placed st rel envID n exclude in
  (loop_inv sc p ∧ capacity_inv sc p ∧ spread_inv sc p)
  ∧ length (picks.picked p) ≤ Z.to_nat n
  ∧ (length (picks.picked p) = Z.to_nat n ∨ ∀ node, node ∈ scene.cands sc → node_fits sc p node = false).
Proof.
  intros p. pose proof (candidates_present st rel envID exclude) as Hc.
  destruct (pick_loop_ind (λ p, length (picks.picked p) ≤ Z.to_nat n →
    loop_inv sc p ∧ capacity_inv sc p ∧ spread_inv sc p) sc (Z.to_nat n) no_picks Hc) as (H & Hlen & Hfull).
  - intros q node HI _ Hb Hl. cbn in Hl. rewrite length_app in Hl. cbn in Hl.
    destruct (HI ltac:(lia)) as (H1 & H2 & H3).
    pose proof (pick_best_spec sc q Hc) as Hs. rewrite Hb in Hs. destruct Hs as (Hin & Hf & _).
    split_and!; [by apply loop_inv_take| |].
    + eapply capacity_inv_take; [apply place_no_overflow| |done|lia|done|done|done].
      intros a b. by apply candidates_ids.
    + eapply spread_inv_take; [apply place_no_overflow|done|done|lia|done|done].
  - intros _. split_and!; [apply loop_inv_no_picks| |]; intros ???; by cbn.
  - cbn in Hlen, Hfull. split; [by apply H|done].
Qed.
End place_bounded.

(** C38: while the sums of reservations stay in 32 bits, placement overcommits no
    node: with its picks added to what its RUN assignments reserve, each picked node
    stays within its reported processor and memory capacity. *)
Theorem placement_capacity (RO : RangeOrder) (ROk : RangeOrderOk RO) (st : Store.t) (rel : option Release.t)
    (envID : string) (n : Z) (exclude : gmap string bool) (l : list string) (e : option place_error) :
  wf st → (0 < n)%Z → sums_fit st rel n → Place st rel envID n exclude = (l, e) →
  ∀ id, id ∈ l → ∃ node, Store.nodes st !! id = Some (Some node)
    ∧ let need := effectiveResources (rel ⇝ Release.Service) in
      within (Node.Capacity node ⇝ ResourceLimits.CpuMillis)
        (committed resources.cpuMillis st id + count_of id l * resources.cpuMillis need)
      ∧ within (Node.Capacity node ⇝ ResourceLimits.MemoryMb)
        (committed resources.memoryMB st id + count_of id l * resources.memoryMB need).
Proof.
  intros Hst Hn Hfit HP id Hid. destruct (Place_eq _ _ _ _ _ _ _ Hn HP) as [-> _].
  destruct (placed_invariants st rel envID n exclude Hst Hn Hfit) as [(HI & Hcap & _) _].
  destruct (inv_picked _ _ HI id Hid) as (node & Hin & Hnode). exists node. split.
  - cbn [scene_of scene.cands] in Hin. apply elem_of_candidates in Hin as [[i Hi]%elem_of_ListNodes _].
    pose proof (wf_nodes _ Hst _ _ Hi) as E. congruence.
  - specialize (Hcap _ Hin). rewrite Hnode in Hcap. specialize (Hcap (count_of_pos _ _ Hid)).
    rewrite (held_committed st rel envID n exclude Hn Hfit) in Hcap. exact Hcap.
Qed.

(** Placement falls short only when it must, and spreads.  If fewer than [n]
    replicas were placed then no candidate has room for another; and a node given a
    replica ends with at most one replica of the environment more than any
    candidate that still has room. *)
Theorem placement_complete_and_spread (RO : RangeOrder) (ROk : RangeOrderOk RO) (st : Store.t) (rel : option Release.t)
    (envID : string) (n : Z) (exclude : gmap string bool) (l : list string) (e : option place_error) :
  wf st → (0 < n)%Z → sums_fit st rel n → Place st rel envID n exclude = (l, e) →
  let need := effectiveResources (rel ⇝ Release.Service) in
  let room node := let id := GetId node in
    within (node ⇝ Node.Capacity ⇝ ResourceLimits.CpuMillis)
      (committed resources.cpuMillis st id + (count_of id l + 1) * resources.cpuMillis need)
    ∧ within (node ⇝ Node.Capacity ⇝ ResourceLimits.MemoryMb)
      (committed resources.memoryMB st id + (count_of id l + 1) * resources.memoryMB need) in
  let replicas id := (at_key (env_by_node st envID) id + count_of id l)%Z in
  (e ≠ None → ∀ node, node ∈ candidates st rel envID exclude → ¬ room node)
  ∧ (∀ id node, id ∈ l → node ∈ candidates st rel envID exclude → room node →
       (replicas id ≤ replicas (GetId node) + 1)%Z).
Proof.
  intros Hst Hn Hfit HP need room replicas. destruct (Place_eq _ _ _ _ _ _ _ Hn HP) as [El He].
  destruct (placed_invariants st rel envID n exclude Hst Hn Hfit) as [(HI & _ & Hspread) [Hlen Hfull]].
  assert (∀ node, node_fits (scene_of st rel envID exclude) (placed st rel envID n exclude) node = true ↔ room node) as Hroom.
  { intros node. pose proof (fits_exact _ _ (place_no_overflow st rel envID n exclude Hn Hfit) _ node HI Hlen) as Hf.
    cbv zeta in Hf. rewrite (held_committed st rel envID n exclude Hn Hfit), <- El in Hf. exact Hf. }
  rewrite <- El in Hlen, Hfull. split.
  - intros Hne node Hin Hr. destruct Hfull as [Hfull|Hfull].
    + apply Hne, He. rewrite Hfull. lia.
    + apply Hroom in Hr. specialize (Hfull node Hin). congruence.
  - intros id node Hid Hin Hr%Hroom. rewrite El in Hid. destruct (inv_picked _ _ HI id Hid) as (a & Ha & Hida).
    specialize (Hspread (Some a) node Ha Hin). rewrite Hida in Hspread.
    specialize (Hspread (count_of_pos _ _ Hid) Hr). unfold total in Hspread. rewrite <- El in Hspread.
    unfold replicas. cbn [scene_of scene.envByNode] in Hspread. lia.
Qed.

(** Fits does not keep the sum within the capacity when it leaves 32 bits: a
    replica that needs more memory than the node has is accepted on a node that
    already runs one. *)
Theorem fits_wraps_around (have cap : Z) (need : Z) :
  (0 < cap < 2 ^ 32)%Z → (2 ^ 32 - have ≤ need < 2 ^ 32)%Z → (0 ≤ have ≤ cap)%Z →
  fits (resources.mk 0 have) (resources.mk 0 need) (Some (ResourceLimits.mk 0 cap)) = true
  ∧ (cap < have + need)%Z.
Proof.
  intros Hc Hn Hh. split; [|lia]. unfold fits. cbn.
  destruct (Z.eqb_spec cap 0); [lia|]. cbn.
  assert (u32 (have + need) = have + need - 2 ^ 32)%Z as ->.
  { unfold u32. symmetry. apply (Z.mod_unique_pos _ _ 1); lia. }
  destruct (Z.ltb_spec cap (have + need - 2 ^ 32)); [lia|done].
Qed.

(** * Witnesses *)

Definition sample_nodes : Store.t :=
  Store.PutNode (Some (sample_node "n1" NODE_STATUS_ALIVE 1000 1000))
  (Store.PutNode (Some (sample_node "n2" NODE_STATUS_ALIVE 1000 600))
  (Store.PutNode (Some (sample_node "n3" NODE_STATUS_DOWN 1000 1000)) Store.New)).

Lemma wf_sample_nodes : wf sample_nodes.
Proof. unfold sample_nodes. auto 10 with store_wf. Qed.

Definition sample_rel : option Release.t := Some (sample_release "r1" "e1" 1 (sample_spec false 1 0 256)).

Lemma sample_sums_fit n : (n = 3 ∨ n = 9)%Z → sums_fit (RO := canonical_range) sample_nodes sample_rel n.
Proof.
  intros Hn. assert (∀ f id, committed (RO := canonical_range) f sample_nodes id = 0%Z) as H by (intros; reflexivity).
  split; (split; [by vm_compute|]); intros id; rewrite H; (split; [done|]); destruct Hn as [-> | ->]; by vm_compute.
Qed.

Lemma sample_place :
  Place (RO := canonical_range) sample_nodes sample_rel "e1" 3 ∅ = (["n1"; "n2"; "n1"], None).
Proof. vm_compute. reflexivity. Qed.

Lemma placement_sound_witness :
  ∃ node, Store.nodes sample_nodes !! "n2" = Some (Some node) ∧ Node.Status node = NODE_STATUS_ALIVE.
Proof.
  destruct (placement_sound canonical_range _ sample_nodes sample_rel "e1" 3 ∅ ["n1"; "n2"; "n1"] None
    wf_sample_nodes sample_place) as [H _].
  destruct (H "n2") as (node & H1 & H2 & _); [right; left|]. exists node. split; assumption.
Defined.

Lemma placement_capacity_witness :
  ∃ node, Store.nodes sample_nodes !! "n1" = Some (Some node)
    ∧ within (Node.Capacity node ⇝ ResourceLimits.MemoryMb) (0 + count_of "n1" ["n1"; "n2"; "n1"] * 256).
Proof.
  destruct (placement_capacity canonical_range _ sample_nodes sample_rel "e1" 3 ∅ ["n1"; "n2"; "n1"] None
    wf_sample_nodes ltac:(lia) (sample_sums_fit 3 (or_introl eq_refl)) sample_place "n1") as (node & H1 & _ & H2); [left|].
  exists node. split; [assumption|exact H2].
Defined.

Lemma placement_complete_and_spread_witness :
  ∃ l e, Place (RO := canonical_range) sample_nodes sample_rel "e1" 9 ∅ = (l, Some e)
    ∧ ∀ node, node ∈ candidates (RO := canonical_range) sample_nodes sample_rel "e1" ∅ →
        ¬ (within (node ⇝ Node.Capacity ⇝ ResourceLimits.CpuMillis) (0 + (count_of (GetId node) l + 1) * 100)
           ∧ within (node ⇝ Node.Capacity ⇝ ResourceLimits.MemoryMb) (0 + (count_of (GetId node) l + 1) * 256)).
Proof.
  destruct (Place (RO := canonical_range) sample_nodes sample_rel "e1" 9 ∅) as [l [e|]] eqn:E;
    [|vm_compute in E; discriminate].
  exists l, e. split; [reflexivity|]. intros node Hn.
  exact (proj1 (placement_complete_and_spread canonical_range _ sample_nodes sample_rel "e1" 9 ∅ l (Some e)
    wf_sample_nodes ltac:(lia) (sample_sums_fit 9 (or_intror eq_refl)) E) ltac:(discriminate) node Hn).
Defined.

Lemma fits_wraps_around_witness :
  fits (resources.mk 0 256) (resources.mk 0 4294967040) (Some (ResourceLimits.mk 0 1024)) = true
  ∧ (1024 < 256 + 4294967040)%Z.
Proof. apply (fits_wraps_around 256 1024 4294967040); lia. Defined.
