(* ===== verification/Leader.v ===== *)
(** The leader's control loops as programs over the replicated store.

    A controller reads the state, then proposes commands one by one through
    raftstore.Store.Apply.  What happens to each proposal is not the controller's
    choice: it may commit (and the state machine may still reject it), be refused
    because leadership was lost, or fail, in the last two cases with or without
    having been applied; other proposers may commit in between.  [Env] is that
    environment, and [M] the programs: state passing with an early error return
    and Go's panics.  [emits_at] is the reasoning about what a program proposes,
    whatever the environment does. *)
From stdpp Require Import pretty.
From S2P Require Import Prelude Api Watch State StateInv Fsm.

(** What raft answers to a proposal. *)
Inductive reply :=
| Committed
| NotLeader (applied : bool)
| Failed (applied : bool).

Inductive leader_error := ErrNotLeader | ErrApply.

(** The environment of a controller, by the number of its interactions so far. *)
Class Env := {
  fate : nat → reply;
  others : nat → Store.t → Store.t;   (* what other proposers commit before *)
  raft_index : nat → Z;
  leads : nat → bool;                 (* raft.State() == Leader *)
  ids_New : nat → string;
  clock_Now : nat → Z                 (* nanoseconds *)
}.

Module World.
Record t := mk {
  store : Store.t;
  tick : nat;                    (* interactions so far *)
  sent : list Mutation           (* proposals so far *)
}.
End World.

(** Programs with errors of type [Err]; the controllers' are [M]. *)
Definition Prog (Err A : Type) : Type := World.t → outcome (World.t * (A + Err)).

Notation M := (Prog leader_error).

#[export] Instance M_ret {Err} : MRet (Prog Err) := λ A a w, Ret (w, inl a).
#[export] Instance M_bind {Err} : MBind (Prog Err) := λ A B k m w,
  match m w with
  | Ret (w', inl a) => k a w'
  | Ret (w', inr e) => Ret (w', inr e)
  | Panic => Panic
  end.

Definition fail {Err A} (e : Err) : Prog Err A := λ w, Ret (w, inr e).
Definition panic {Err A} : Prog Err A := λ w, Panic.

(** [*p] of a pointer that may be nil. *)
Definition deref {Err A} (p : option A) : Prog Err A := match p with Some a => mret a | None => panic end.

(** [o.store.State()], read now. *)
Definition read {Err} : Prog Err Store.t := λ w, Ret (w, inl (World.store w)).

(** [for _, x := range l { if err := f(x); err != nil { return err } }] *)
Fixpoint for_each {Err A} (l : list A) (f : A → Prog Err ()) : Prog Err () :=
  match l with
  | [] => mret ()
  | x :: l => f x;; for_each l f
  end.

(** Deferred errors: [_ = f()]. *)
Definition ignore {Err A} (m : Prog Err A) : Prog Err () := λ w,
  match m w with
  | Ret (w', _) => Ret (w', inl ())
  | Panic => Panic
  end.

Section interaction.
Context {RO : RangeOrder} {TL : TimestampLib} {E : Env}.

Definition tick_ {Err A} (f : nat → A) : Prog Err A := λ w,
  Ret (World.mk (World.store w) (S (World.tick w)) (World.sent w), inl (f (World.tick w))).

Definition New {Err} : Prog Err string := tick_ ids_New.
Definition Now {Err} : Prog Err Z := tick_ clock_Now.
Definition IsLeader {Err} : Prog Err bool := tick_ leads.

(** Store.Apply of a command of a component: the request id, actor and time are
    filled in, then the command is proposed. *)
Definition Apply (actor : string) (m : Mutation) : M () := λ w,
  let n := World.tick w in
  let cmd := Command.mk (ids_New n) actor (Some (timestamppb_New (clock_Now n))) (Some m) in
  let s := others n (World.store w) in
  let next s := World.mk s (S n) (World.sent w ++ [m]) in
  match fate n with
  | Committed =>
    match FSM.ApplyCommand (raft_index n) cmd s with
    | Ret (s, res) =>
      Ret (next s, match FSM.ApplyResult.Err res with None => inl () | Some _ => inr ErrApply end)
    | Panic => Panic
    end
  | NotLeader applied | Failed applied =>
    let e := match fate n with NotLeader _ => ErrNotLeader | _ => ErrApply end in
    if applied then
      match FSM.ApplyCommand (raft_index n) cmd s with
      | Ret (s, _) => Ret (next s, inr e)
      | Panic => Panic
      end
    else Ret (next s, inr e)
  end.

(** The apply helper of the controllers: only a lost leadership is an error, any
    other failure is logged. *)
Definition apply (actor : string) (m : Mutation) : M () := λ w,
  match Apply actor m w with
  | Ret (w', inr ErrApply) => Ret (w', inl ())
  | o => o
  end.

End interaction.

(** A sequence that ends normally ran both its parts. *)
Lemma bind_inl {Err A B} (m : Prog Err A) (k : A → Prog Err B) w w' b :
  (m ≫= k) w = Ret (w', inl b) → ∃ w1 a, m w = Ret (w1, inl a) ∧ k a w1 = Ret (w', inl b).
Proof.
  unfold mbind, M_bind. destruct (m w) as [[w1 [a|e]]|]; intros H; [eauto|discriminate|discriminate].
Qed.

Lemma ret_inl {Err A} (a b : A) w w' : (mret a : Prog Err A) w = Ret (w', inl b) → w' = w ∧ b = a.
Proof. by intros [= <- <-]. Qed.

(** * What a program proposes *)

(** Run from [w], the program appends a list of mutations that satisfies [Q]. *)
Definition logs_at {Err A} (Q : list Mutation → Prop) (m : Prog Err A) (w : World.t) : Prop :=
  ∀ w' r, m w = Ret (w', r) → ∃ ms, World.sent w' = World.sent w ++ ms ∧ Q ms.

(** Only mutations that satisfy [P]. *)
Definition emits_at {Err A} (P : Mutation → Prop) (m : Prog Err A) (w : World.t) : Prop := logs_at (Forall P) m w.

(** At most [n] mutations that satisfy [p]. *)
Definition budget {Err A} (p : Mutation → bool) (n : nat) (m : Prog Err A) : Prop :=
  ∀ w, logs_at (λ ms, length (List.filter p ms) ≤ n) m w.

Section emits.
Context {RO : RangeOrder} {TL : TimestampLib} {E : Env}.
Implicit Type P : Mutation → Prop.

Lemma logs_mono {Err A} (Q R : list Mutation → Prop) (m : Prog Err A) w :
  (∀ ms, Q ms → R ms) → logs_at Q m w → logs_at R m w.
Proof. intros HQR Hm w' r Hr. destruct (Hm _ _ Hr) as (ms & ? & ?). eauto. Qed.

Lemma emits_at_mono {Err A} P Q (m : Prog Err A) w : (∀ x, P x → Q x) → emits_at P m w → emits_at Q m w.
Proof. intros HPQ. apply logs_mono. intros ms Hms. by eapply Forall_impl. Qed.

(** Programs that propose nothing and leave the store alone. *)
Definition silent {Err A} (m : Prog Err A) : Prop :=
  ∀ w w' r, m w = Ret (w', r) → World.sent w' = World.sent w ∧ World.store w' = World.store w.

Lemma logs_silent {Err A} (Q : list Mutation → Prop) (m : Prog Err A) w : Q [] → silent m → logs_at Q m w.
Proof. intros HQ Hm w' r Hr. exists []. by rewrite app_nil_r, (proj1 (Hm _ _ _ Hr)). Qed.

Lemma silent_ret {Err A} (a : A) : silent (mret a : Prog Err A).
Proof. by intros w w' r [= <- _]. Qed.
Lemma silent_fail {Err A} (e : Err) : silent (fail (A := A) e).
Proof. by intros w w' r [= <- _]. Qed.
Lemma silent_panic {Err A} : silent (panic (Err := Err) (A := A)).
Proof. by intros w w' r. Qed.
Lemma silent_tick {Err A} (f : nat → A) : silent (tick_ (Err := Err) f).
Proof. by intros w w' r [= <- _]. Qed.
Lemma silent_read {Err} : silent (read (Err := Err)).
Proof. by intros w w' r [= <- _]. Qed.
Lemma silent_deref {Err A} (p : option A) : silent (deref (Err := Err) p).
Proof. destruct p; [apply silent_ret|apply silent_panic]. Qed.
Lemma silent_bind {Err A B} (m : Prog Err A) (k : A → Prog Err B) : silent m → (∀ a, silent (k a)) → silent (m ≫= k).
Proof.
  intros Hm Hk w w' r. unfold mbind, M_bind. destruct (m w) as [[w1 [a|e]]|] eqn:E1; [| |done].
  - intros Hr. destruct (Hk _ _ _ _ Hr) as [-> ->]. apply (Hm _ _ _ E1).
  - intros [= <- _]. by apply (Hm _ _ _ E1).
Qed.

Lemma emits_silent {Err A} P (m : Prog Err A) w : silent m → emits_at P m w.
Proof. apply logs_silent. constructor. Qed.

(** A sequence: the rest is judged from each world the first part can reach. *)
Lemma logs_bind {Err A B} (Q1 Q2 Q : list Mutation → Prop) (m : Prog Err A) (k : A → Prog Err B) w :
  (∀ l1 l2, Q1 l1 → Q2 l2 → Q (l1 ++ l2)) → (∀ l1, Q1 l1 → Q l1) →
  logs_at Q1 m w → (∀ w' a, m w = Ret (w', inl a) → logs_at Q2 (k a) w') → logs_at Q (m ≫= k) w.
Proof.
  intros HQ HQ1 Hm Hk w' r. unfold mbind, M_bind. destruct (m w) as [[w1 [a|e]]|] eqn:E1; [| |done].
  - intros Hr. destruct (Hm _ _ E1) as (ms1 & H1 & F1). destruct (Hk _ _ eq_refl _ _ Hr) as (ms2 & H2 & F2).
    exists (ms1 ++ ms2). rewrite H2, H1, app_assoc. split; [done|]. by apply HQ.
  - intros [= <- _]. destruct (Hm _ _ E1) as (ms & ? & ?). eauto.
Qed.

Lemma emits_bind {Err A B} P (m : Prog Err A) (k : A → Prog Err B) w :
  emits_at P m w → (∀ w' a, m w = Ret (w', inl a) → emits_at P (k a) w') → emits_at P (m ≫= k) w.
Proof. apply logs_bind; [|done]. intros l1 l2. apply Forall_app_2. Qed.

(** After a silent first part the log is that of the rest, over the same store. *)
Lemma logs_bind_silent {Err A B} (Q : list Mutation → Prop) (m : Prog Err A) (k : A → Prog Err B) w :
  Q [] → silent m →
  (∀ w' a, World.store w' = World.store w → m w = Ret (w', inl a) → logs_at Q (k a) w') →
  logs_at Q (m ≫= k) w.
Proof.
  intros HQ Hm Hk. apply (logs_bind (λ l, l = []) Q Q); [by intros ? l2 -> ?|by intros ? ->| |].
  - by apply logs_silent.
  - intros w' a Ha. apply Hk; [|done]. by apply (Hm _ _ _ Ha).
Qed.

(** A read returns the store of the world it runs in. *)
Lemma logs_bind_read {Err B} Q (k : Store.t → Prog Err B) w : logs_at Q (k (World.store w)) w → logs_at Q (read ≫= k) w.
Proof. intros Hk w' r. apply Hk. Qed.

Lemma emits_ignore {Err A} Q (m : Prog Err A) w : logs_at Q m w → logs_at Q (ignore m) w.
Proof.
  intros Hm w' r. unfold ignore. destruct (m w) as [[w1 o]|] eqn:E1; [|done]. intros [= <- _]. by apply (Hm _ _ E1).
Qed.

Lemma emits_for_each {Err A} P l (f : A → Prog Err ()) w :
  (∀ x w, x ∈ l → emits_at P (f x) w) → emits_at P (for_each l f) w.
Proof.
  revert w. induction l as [|x l IH]; intros w Hf; cbn [for_each]; [apply emits_silent, silent_ret|].
  apply emits_bind; [apply Hf; left|]. intros w' [] _. apply IH. intros y w2 Hy. apply Hf. by right.
Qed.

Lemma budget_bind {Err A B} p n1 n2 (m : Prog Err A) (k : A → Prog Err B) :
  budget p n1 m → (∀ a, budget p n2 (k a)) → budget p (n1 + n2) (m ≫= k).
Proof.
  intros Hm Hk w.
  apply (logs_bind (λ ms, length (List.filter p ms) ≤ n1) (λ ms, length (List.filter p ms) ≤ n2));
    [| |apply Hm|intros w' a _; apply Hk].
  - intros l1 l2. intros H1 H2. rewrite List.filter_app, length_app. lia.
  - intros l1 H1. lia.
Qed.

Lemma budget_silent {Err A} p n (m : Prog Err A) : silent m → budget p n m.
Proof. intros Hm w. apply logs_silent; [cbn; lia|done]. Qed.

Lemma budget_for_each {Err A} p l (f : A → Prog Err ()) : (∀ x, budget p 0 (f x)) → budget p 0 (for_each l f).
Proof.
  intros Hf. induction l as [|x l IH]; cbn [for_each]; [apply budget_silent, silent_ret|].
  apply (budget_bind p 0 0); [done|]. by intros [].
Qed.

Lemma sent_Apply actor m w w' r : Apply actor m w = Ret (w', r) → World.sent w' = World.sent w ++ [m].
Proof.
  unfold Apply. cbv zeta. repeat case_match; try done; by intros [= <- _].
Qed.

Lemma logs_apply Q actor m w : Q [m] → logs_at Q (apply actor m) w.
Proof.
  intros HP w' r Hr. exists [m]. split; [|done]. unfold apply in Hr.
  destruct (Apply actor m w) as [[w1 [[]|[]]]|] eqn:E1; try done; injection Hr as <- _; by eapply sent_Apply.
Qed.

Lemma logs_Apply Q actor m w : Q [m] → logs_at Q (Apply actor m) w.
Proof. intros HP w' r Hr. exists [m]. split; [|done]. by eapply sent_Apply. Qed.

Lemma emits_apply P actor m w : P m → emits_at P (apply actor m) w.
Proof. intros HP. apply logs_apply. by constructor. Qed.

Lemma emits_Apply P actor m w : P m → emits_at P (Apply actor m) w.
Proof. intros HP. apply logs_Apply. by constructor. Qed.

Lemma budget_apply p actor m : budget p (if p m then 1 else 0) (apply actor m).
Proof. intros w. apply logs_apply. cbn. by destruct (p m). Qed.

(** A swallowed failure: the program goes on after any proposal that did not reveal
    a lost leadership. *)
Lemma apply_Failed actor m w b :
  fate (World.tick w) = Failed b →
  apply actor m w = Panic
  ∨ ∃ s, apply actor m w = Ret (World.mk s (S (World.tick w)) (World.sent w ++ [m]), inl ()).
Proof.
  intros Hf. unfold apply, Apply. rewrite Hf. destruct b; [|by eauto].
  destruct (FSM.ApplyCommand _ _ _) as [[s r]|]; by eauto.
Qed.
End emits.

#[export] Hint Resolve silent_ret silent_fail silent_panic silent_tick silent_read silent_deref : silent.

(** Proves that a program proposes nothing. *)
Ltac solve_silent :=
  unfold New, Now, IsLeader;
  repeat first
    [ solve [auto with silent]
    | apply silent_bind; [|intros ?]
    | match goal with |- silent (match ?x with _ => _ end) => destruct x end ].

(** * A quiet environment: every proposal commits and nobody else proposes *)

Class Quiet (E : Env) := {
  quiet_fate : ∀ n, fate n = Committed;
  quiet_others : ∀ n s, others n s = s
}.

(** An environment for witnesses: it counts. *)
Definition quiet_env : Env := {|
  fate _ := Committed; others _ s := s; raft_index n := Z.of_nat n; leads _ := true;
  ids_New n := "id" +:+ pretty n; clock_Now n := (Z.of_nat n * 10 ^ 9)%Z
|}.

#[export] Instance quiet_env_ok : Quiet quiet_env.
Proof. by split. Qed.
