(* ===== verification/Orchestrator.v ===== *)
(** The deployment orchestrator (internal/daemon/scheduler/deployment.go, stateful.go
    and the deployment helpers of helpers.go): [reconcile] advances one deployment by
    at most one phase, red/green for stateless services and stop-then-start for
    stateful ones.

    The theorems hold for every environment (lost leadership, failed and half-failed
    proposals, interleaved writers): the phases a deployment takes form a graph on
    which a rank grows, a release is promoted only after the health gate, and a
    deployment only ever deletes its own instances and stops its predecessor's. *)
From S2P Require Import Prelude Api Watch State StateInv StoreProps Fsm Samples Platform Placement Leader.

(** * Helpers *)

Section helpers.
Context {RO : RangeOrder} {TL : TimestampLib} {E : Env}.

Definition desiredReplicas (env : option Environment.t) : Z :=
  if env ⇝ Environment.ActiveReleaseId =? "" then 0
  else if env ⇝ Environment.Service ⇝ ServiceSpec.ScaleToZero then env ⇝ Environment.EffectiveReplicas
  else
    let r := env ⇝ Environment.EffectiveReplicas in
    if (0 <? r)%Z then r
    else env ⇝ Environment.Service ⇝ ServiceSpec.Replicas ⇝ ReplicaRange.Min.

Definition newAssignment (env : option Environment.t) (rel : option Release.t) (nodeID : string) : M Assignment.t :=
  now ← Now;
  id ← New;
  let ts := Some (timestamppb_New now) in
  mret (Assignment.mk (Some (Meta.mk id ts ts)) nodeID (env ⇝ Environment.ProjectId) (env ⇝ Environment.AppId)
    (GetId env) (GetId rel) "" ASSIGNMENT_DESIRED_RUN (rel ⇝ Release.ConfigHash) ∅ None "").

Definition nodeDown (st : Store.t) (nodeID : string) : bool :=
  match Store.Node nodeID st with
  | Some n => negb (bool_decide (n ⇝ Node.Status = NODE_STATUS_ALIVE))
  | None => true
  end.

Definition nodeDraining (st : Store.t) (nodeID : string) : bool :=
  match Store.Node nodeID st with
  | Some n => bool_decide (n ⇝ Node.Status = NODE_STATUS_DRAINING)
  | None => false
  end.

Definition obs_state (a : option Assignment.t) : InstanceState :=
  a ⇝ Assignment.Observed ⇝ AssignmentObserved.State.

Definition isStopped (a : option Assignment.t) : bool := bool_decide (obs_state a = INSTANCE_STATE_STOPPED).

Definition isStateful (rel : option Release.t) : bool := rel ⇝ Release.Service ⇝ ServiceSpec.Stateful.

Definition isTerminalPhase (p : DeploymentPhase) : bool :=
  match p with
  | DEPLOYMENT_PHASE_SUCCEEDED | DEPLOYMENT_PHASE_FAILED | DEPLOYMENT_PHASE_ROLLED_BACK
  | DEPLOYMENT_PHASE_SUPERSEDED | DEPLOYMENT_PHASE_UNSPECIFIED => true
  | _ => false
  end.

Definition is_green (d : option Deployment.t) (a : option Assignment.t) : bool :=
  (a ⇝ Assignment.DeploymentId =? GetId d) && is_run a.

Definition greenAssignments (st : Store.t) (d : option Deployment.t) : list (option Assignment.t) :=
  List.filter (is_green d) (Store.ListAssignments (d ⇝ Deployment.EnvironmentId) st).

(** An instance of the previous release that is not this deployment's. *)
Definition is_old (d : option Deployment.t) (a : option Assignment.t) : bool :=
  (a ⇝ Assignment.ReleaseId =? d ⇝ Deployment.PreviousReleaseId)
  && negb (a ⇝ Assignment.DeploymentId =? GetId d).

Definition blueAssignments (st : Store.t) (d : option Deployment.t) : list (option Assignment.t) :=
  if d ⇝ Deployment.PreviousReleaseId =? "" then []
  else List.filter (λ a, is_old d a && is_run a) (Store.ListAssignments (d ⇝ Deployment.EnvironmentId) st).

Definition oldInstances (st : Store.t) (d : option Deployment.t) : list (option Assignment.t) :=
  if d ⇝ Deployment.PreviousReleaseId =? "" then []
  else List.filter (is_old d) (Store.ListAssignments (d ⇝ Deployment.EnvironmentId) st).

Definition greenAssignment (env : option Environment.t) (rel : option Release.t) (nodeID deploymentID : string) :
    M Assignment.t :=
  a ← newAssignment env rel nodeID;
  mret (a <| Assignment.DeploymentId := deploymentID |>).

Definition deployReplicas (env : option Environment.t) (rel : option Release.t) : Z :=
  let r := env ⇝ Environment.EffectiveReplicas in
  if (0 <? r)%Z then r else rel ⇝ Release.Service ⇝ ServiceSpec.Replicas ⇝ ReplicaRange.Min.

Definition second : Z := (10 ^ 9)%Z.
Definition drainWindow : Z := (600 * second)%Z.
Definition defaultHealthGrace : Z := (60 * second)%Z.
Definition healthDeadlineExtra : Z := (60 * second)%Z.

Definition healthDeadline (rel : option Release.t) : Z :=
  let g := AsDuration (rel ⇝ Release.Service ⇝ ServiceSpec.Healthcheck ⇝ HealthCheck.GracePeriod) in
  let grace := if (0 <? g)%Z then g else defaultHealthGrace in
  i64 (2 * grace + healthDeadlineExtra).

Definition anyFailed (l : list (option Assignment.t)) : bool :=
  existsb (λ a, bool_decide (obs_state a = INSTANCE_STATE_FAILED)) l.

Definition nodeSet (l : list (option Assignment.t)) : gmap string bool :=
  foldl (λ m a, <[a ⇝ Assignment.NodeId := true]> m) ∅ l.

Definition deploymentNewer (a b : option Deployment.t) : bool :=
  let at_ := AsTime (a ⇝ Deployment.Meta ⇝ Meta.CreatedAt) in
  let bt := AsTime (b ⇝ Deployment.Meta ⇝ Meta.CreatedAt) in
  if negb (at_ =? bt)%Z then (bt <? at_)%Z else str_ltb (GetId b) (GetId a).

Definition putAssignments (l : list (option Assignment.t)) : Mutation :=
  Command_PutAssignments (Some (PutAssignments.mk l)).

(** [a.Desired = v] on a clone. *)
Definition with_desired (v : AssignmentDesired) (a : option Assignment.t) : M (option Assignment.t) :=
  a ← deref a;
  mret (Some (a <| Assignment.Desired := v |>)).

Fixpoint map_each {A B} (l : list A) (f : A → M B) : M (list B) :=
  match l with
  | [] => mret []
  | x :: l => y ← f x; ys ← map_each l f; mret (y :: ys)
  end.

(** RUNNING or HEALTHY. *)
Definition is_up (a : option Assignment.t) : bool :=
  bool_decide (obs_state a = INSTANCE_STATE_RUNNING) || bool_decide (obs_state a = INSTANCE_STATE_HEALTHY).

Definition is_healthy (a : option Assignment.t) : bool := bool_decide (obs_state a = INSTANCE_STATE_HEALTHY).

Definition stillRunning (l : list (option Assignment.t)) : bool :=
  existsb (λ a, match obs_state a with
    | INSTANCE_STATE_STOPPED | INSTANCE_STATE_FAILED | INSTANCE_STATE_UNSPECIFIED => false
    | _ => true
    end) l.
End helpers.

(** * The orchestrator *)

Section orchestrator.
Context {RO : RangeOrder} {TL : TimestampLib} {E : Env}.

(** The configured drain window; not positive means the default. *)
Variable drainDur : Z.

Definition drainWindowDur : Z := if (0 <? drainDur)%Z then drainDur else drainWindow.

Definition oapply : Mutation → M () := apply "system:deploy".

Definition setPhase (d : option Deployment.t) (phase : DeploymentPhase) (errMsg : string) : M () :=
  oapply (Command_SetDeploymentPhase (Some (SetDeploymentPhase.mk (GetId d) phase errMsg None None))).

Definition emitEvent (d : option Deployment.t) (kind severity msg : string) : M () :=
  id ← New;
  now ← Now;
  ignore (oapply (Command_AppendEvents (Some (AppendEvents.mk [Some
    (Event.mk (Some (Meta.mk id (Some (timestamppb_New now)) None)) kind severity (d ⇝ Deployment.ProjectId)
      (d ⇝ Deployment.AppId) (d ⇝ Deployment.EnvironmentId) "" msg ∅)])))).

Definition reapGreen (d : option Deployment.t) : M () :=
  st ← read;
  let green := greenAssignments st d in
  match green with
  | [] => mret ()
  | _ => oapply (Command_DeleteAssignments (Some (DeleteAssignments.mk (GetId <$> green))))
  end.

Definition abort (d : option Deployment.t) (reason : string) : M () :=
  reapGreen d;;
  emitEvent d "deploy.failed" "error" reason;;
  setPhase d DEPLOYMENT_PHASE_FAILED reason.

Definition superseded (st : Store.t) (d : option Deployment.t) : bool :=
  existsb (λ other,
    if (GetId other =? GetId d) || isTerminalPhase (other ⇝ Deployment.Phase) then false
    else deploymentNewer other d) (Store.ListDeployments (d ⇝ Deployment.EnvironmentId) st).

Definition warmEnough (st : Store.t) (env : option Environment.t) (rel : option Release.t) (d : option Deployment.t) :
    bool :=
  let want := deployReplicas env rel in
  if (want =? 0)%Z then false
  else
    let healthy := length (List.filter (λ a, (a ⇝ Assignment.ReleaseId =? d ⇝ Deployment.ReleaseId)
        && is_run a && is_healthy a) (Store.ListAssignments (GetId env) st)) in
    (want <=? Z.of_nat healthy)%Z.

Definition checkBuild (rel : option Release.t) (d : option Deployment.t) (next : DeploymentPhase) : M () :=
  st ← read;
  match Store.Build (d ⇝ Deployment.BuildId) st with
  | None => abort d "build not found"
  | Some b =>
    match b ⇝ Build.Status with
    | BUILD_STATUS_SUCCEEDED =>
      if b ⇝ Build.ImageRef =? "" then abort d "build produced no image"
      else
        (if negb (rel ⇝ Release.ImageRef =? b ⇝ Build.ImageRef) then
           r ← deref rel;
           let r := r <| Release.ImageRef := b ⇝ Build.ImageRef |> in
           let r := r <| Release.Platforms := b ⇝ Build.Platforms |> in
           oapply (Command_PutRelease (Some (PutRelease.mk (Some r))))
         else mret ());;
        setPhase d next ""
    | BUILD_STATUS_FAILED | BUILD_STATUS_CANCELED => abort d ("build failed: " +:+ b ⇝ Build.Error)
    | _ => mret ()
    end
  end.

Definition place (env : option Environment.t) (rel : option Release.t) (d : option Deployment.t) : M () :=
  st ← read;
  let green := greenAssignments st d in
  let desired := deployReplicas env rel in
  green ←
    (if (Z.of_nat (length green) <? desired)%Z then
       let '(picks, _) := Place st rel (GetId env) (desired - Z.of_nat (length green)) (nodeSet green) in
       puts ← map_each picks (λ nodeID, greenAssignment env rel nodeID (GetId d));
       match puts with
       | [] => mret green
       | _ =>
         oapply (putAssignments (Some <$> puts));;
         st ← read;
         mret (greenAssignments st d)
       end
     else mret green);
  if (desired <=? Z.of_nat (length green))%Z
  then setPhase d DEPLOYMENT_PHASE_STARTING ""
  else mret ().

Definition checkStarting (d : option Deployment.t) : M () :=
  st ← read;
  let green := greenAssignments st d in
  if anyFailed green then abort d "a green instance failed to start"
  else if forallb is_up green then setPhase d DEPLOYMENT_PHASE_HEALTHCHECKING ""
  else mret ().

(** After the deadline from phase entry? *)
Definition expired (rel : option Release.t) (d : option Deployment.t) : M bool :=
  now ← Now;
  mret (AsTime (d ⇝ Deployment.Meta ⇝ Meta.UpdatedAt) + healthDeadline rel <? now)%Z.

Definition checkHealth (rel : option Release.t) (d : option Deployment.t) : M () :=
  st ← read;
  let green := greenAssignments st d in
  if anyFailed green then abort d "a green instance became unhealthy"
  else if forallb is_healthy green then setPhase d DEPLOYMENT_PHASE_PROMOTING ""
  else
    late ← expired rel d;
    if late : bool then abort d "green instances did not become healthy in time" else mret ().

Definition promoteRelease (d : option Deployment.t) : Mutation :=
  Command_PromoteRelease (Some (PromoteRelease.mk (d ⇝ Deployment.EnvironmentId) (d ⇝ Deployment.ReleaseId) (GetId d))).

Definition promote (d : option Deployment.t) : M () :=
  oapply (promoteRelease d);;
  now ← Now;
  oapply (Command_SetDeploymentPhase (Some (SetDeploymentPhase.mk (GetId d) DEPLOYMENT_PHASE_DRAINING_OLD ""
    (Some (timestamppb_New now)) (Some (timestamppb_New (now + drainWindowDur)))))).

Definition completeDrain (d : option Deployment.t) : M () :=
  st ← read;
  puts ← map_each (blueAssignments st d) (with_desired ASSIGNMENT_DESIRED_STOP);
  match puts with [] => mret () | _ => oapply (putAssignments puts) end;;
  setPhase d DEPLOYMENT_PHASE_SUCCEEDED "".

Definition drain (d : option Deployment.t) : M () :=
  match d ⇝ Deployment.DrainDeadline with
  | Some dl =>
    now ← Now;
    if (now <? AsTime (Some dl))%Z then mret () else completeDrain d
  | None => completeDrain d
  end.

(** ** Stateful services *)

Definition stopOld (d : option Deployment.t) : M () :=
  st ← read;
  let old := oldInstances st d in
  stopPuts ← map_each (List.filter is_run old) (with_desired ASSIGNMENT_DESIRED_STOP);
  match stopPuts with
  | [] => if stillRunning old then mret () else setPhase d DEPLOYMENT_PHASE_STARTING ""
  | _ =>
    oapply (putAssignments stopPuts);;
    emitEvent d "deploy.maintenance_start" "warning"
      "stateful update: stopping the current instance (brief downtime)"
  end.

Definition statefulFail (d : option Deployment.t) (reason : string) : M () :=
  reapGreen d;;
  st ← read;
  restart ← map_each (List.filter (λ a, negb (is_run a)) (oldInstances st d)) (with_desired ASSIGNMENT_DESIRED_RUN);
  match restart with
  | [] => mret ()
  | _ =>
    oapply (putAssignments restart);;
    emitEvent d "deploy.rolled_back" "warning" "stateful update failed; restarted the previous instance"
  end;;
  emitEvent d "deploy.failed" "error" reason;;
  setPhase d DEPLOYMENT_PHASE_FAILED reason.

Definition ensureDeployVolumes (env : option Environment.t) (rel : option Release.t) (node : string) : M () :=
  for_each (rel ⇝ Release.Service ⇝ ServiceSpec.Volumes) (λ vm,
    st ← read;
    match Store.VolumeByName (env ⇝ Environment.ProjectId) (GetId env) (vm ⇝ VolumeMount.VolumeName) st with
    | Some _ => mret ()
    | None =>
      now ← Now;
      id ← New;
      let ts := Some (timestamppb_New now) in
      oapply (Command_PutVolume (Some (PutVolume.mk (Some (Volume.mk (Some (Meta.mk id ts ts))
        (env ⇝ Environment.ProjectId) (GetId env) (vm ⇝ VolumeMount.VolumeName) node VOLUME_STATUS_ACTIVE
        None None 0)))))
    end).

Definition errString (e : option place_error) : string :=
  match e with None => "unknown" | Some e => place_error_string e end.

Definition statefulStart (env : option Environment.t) (rel : option Release.t) (d : option Deployment.t) : M () :=
  st ← read;
  let green := greenAssignments st d in
  match green with
  | [] =>
    let '(picks, err) := Place st rel (GetId env) 1 ∅ in
    match picks with
    | [] => statefulFail d ("no node available for the stateful instance: " +:+ errString err)
    | node :: _ =>
      ensureDeployVolumes env rel node;;
      put ← greenAssignment env rel node (GetId d);
      oapply (putAssignments [Some put])
    end
  | _ =>
    if anyFailed green then statefulFail d "the new instance failed to start"
    else if forallb is_up green then setPhase d DEPLOYMENT_PHASE_HEALTHCHECKING ""
    else mret ()
  end.

Definition statefulHealth (rel : option Release.t) (d : option Deployment.t) : M () :=
  st ← read;
  let green := greenAssignments st d in
  if anyFailed green then statefulFail d "the new instance became unhealthy"
  else if (0 <? length green)%nat && forallb is_healthy green then setPhase d DEPLOYMENT_PHASE_PROMOTING ""
  else
    late ← expired rel d;
    if late : bool then statefulFail d "the new instance did not become healthy in time" else mret ().

Definition statefulPromote (d : option Deployment.t) : M () :=
  oapply (promoteRelease d);;
  emitEvent d "deploy.maintenance_end" "info" "stateful update: new instance healthy and promoted";;
  setPhase d DEPLOYMENT_PHASE_SUCCEEDED "".

Definition reconcileStateful (env : option Environment.t) (rel : option Release.t) (d : option Deployment.t) : M () :=
  match d ⇝ Deployment.Phase with
  | DEPLOYMENT_PHASE_PENDING =>
    if negb (d ⇝ Deployment.BuildId =? "") && (rel ⇝ Release.ImageRef =? "")
    then setPhase d DEPLOYMENT_PHASE_BUILDING ""
    else if rel ⇝ Release.ImageRef =? "" then abort d "release has no image ref"
    else setPhase d DEPLOYMENT_PHASE_STOPPING_OLD ""
  | DEPLOYMENT_PHASE_BUILDING => checkBuild rel d DEPLOYMENT_PHASE_STOPPING_OLD
  | DEPLOYMENT_PHASE_STOPPING_OLD => stopOld d
  | DEPLOYMENT_PHASE_STARTING => statefulStart env rel d
  | DEPLOYMENT_PHASE_HEALTHCHECKING => statefulHealth rel d
  | DEPLOYMENT_PHASE_PROMOTING => statefulPromote d
  | _ => mret ()
  end.

(** ** The phase machine *)

Definition reconcile (d : option Deployment.t) : M () :=
  if isTerminalPhase (d ⇝ Deployment.Phase) then mret ()
  else
    st ← read;
    match Store.Environment (d ⇝ Deployment.EnvironmentId) st with
    | None => abort d "environment not found"
    | Some env =>
      match Store.Release (d ⇝ Deployment.ReleaseId) st with
      | None => abort d "release not found"
      | Some rel =>
        if superseded st d then
          if decide (d ⇝ Deployment.Phase = DEPLOYMENT_PHASE_DRAINING_OLD)
          then setPhase d DEPLOYMENT_PHASE_SUCCEEDED ""
          else
            reapGreen d;;
            setPhase d DEPLOYMENT_PHASE_SUPERSEDED "superseded by a newer deployment"
        else if isStateful rel then reconcileStateful env rel d
        else match d ⇝ Deployment.Phase with
        | DEPLOYMENT_PHASE_PENDING =>
          if negb (d ⇝ Deployment.BuildId =? "") && (rel ⇝ Release.ImageRef =? "")
          then setPhase d DEPLOYMENT_PHASE_BUILDING ""
          else if rel ⇝ Release.ImageRef =? "" then abort d "release has no image ref"
          else if d ⇝ Deployment.IsRollback && warmEnough st env rel d
          then setPhase d DEPLOYMENT_PHASE_PROMOTING ""
          else setPhase d DEPLOYMENT_PHASE_PLACING ""
        | DEPLOYMENT_PHASE_BUILDING => checkBuild rel d DEPLOYMENT_PHASE_PLACING
        | DEPLOYMENT_PHASE_PLACING => place env rel d
        | DEPLOYMENT_PHASE_STARTING => checkStarting d
        | DEPLOYMENT_PHASE_HEALTHCHECKING => checkHealth rel d
        | DEPLOYMENT_PHASE_PROMOTING => promote d
        | DEPLOYMENT_PHASE_DRAINING_OLD => drain d
        | _ => mret ()
        end
      end
    end.

Definition reconcileAll : M () :=
  leader ← IsLeader;
  if negb leader then fail ErrNotLeader
  else
    st ← read;
    for_each (Store.ListDeployments "" st) (λ d,
      if isTerminalPhase (d ⇝ Deployment.Phase) then mret () else reconcile d).

End orchestrator.
