(* ===== verification/Control.v ===== *)
(** Reasoning about the control loops: what the shared helper programs do, that no
    program leaves the well-formed states, and how a proposal acts in a quiet
    environment, where it commits and nobody else proposes. *)
From S2P Require Import Prelude Api Watch State StateInv StoreProps Fsm FsmProps FsmSteps Samples Platform Placement Leader Orchestrator.

(** * The shared helpers *)

Section helpers.
Context {RO : RangeOrder} {TL : TimestampLib} {E : Env}.

Lemma silent_map_each {A B} (l : list A) (f : A → M B) : (∀ x, silent (f x)) → silent (map_each l f).
Proof.
  intros Hf. induction l as [|x l IH]; cbn [map_each]; [apply silent_ret|].
  apply silent_bind; [apply Hf|]. intros y. apply silent_bind; [done|]. intros ys. apply silent_ret.
Qed.

Lemma silent_with_desired v a : silent (with_desired v a).
Proof. apply silent_bind; [apply silent_deref|]. intros a'. apply silent_ret. Qed.

(** Flipping stored assignments. *)
Lemma map_desired v l w w' ys :
  map_each l (with_desired v) w = Ret (w', inl ys) →
  Forall2 (λ a b, ∃ a', a = Some a' ∧ b = Some (a' <| Assignment.Desired := v |>)) l ys.
Proof.
  revert w w' ys. induction l as [|a l IH]; intros w w' ys; cbn [map_each].
  { intros [_ ->]%ret_inl. constructor. }
  intros (w1 & b & Hb & H)%bind_inl. apply bind_inl in H as (w2 & bs & Hbs & [_ ->]%ret_inl).
  unfold with_desired in Hb. apply bind_inl in Hb as (w3 & a' & Ha & [_ ->]%ret_inl).
  destruct a as [a|]; [|discriminate]. apply ret_inl in Ha as [_ ->]. constructor; [by eexists|]. eapply IH; exact Hbs.
Qed.

Lemma silent_newAssignment env rel node : silent (newAssignment env rel node).
Proof. unfold newAssignment. solve_silent. Qed.

(** The assignments newAssignment builds. *)
Definition new_replica (env : option Environment.t) (rel : option Release.t) (node : string) (a : Assignment.t) : Prop :=
  Assignment.NodeId a = node ∧ Assignment.EnvironmentId a = GetId env ∧ Assignment.ReleaseId a = GetId rel
  ∧ Assignment.Desired a = ASSIGNMENT_DESIRED_RUN ∧ Assignment.JobId a = "" ∧ Assignment.DeploymentId a = "".

Lemma map_new env rel l w w' ys :
  map_each l (newAssignment env rel) w = Ret (w', inl ys) → Forall2 (new_replica env rel) l ys.
Proof.
  revert w w' ys. induction l as [|x l IH]; intros w w' ys; cbn [map_each].
  { intros [_ ->]%ret_inl. constructor. }
  intros (w1 & b & Hb & H)%bind_inl. apply bind_inl in H as (w2 & bs & Hbs & [_ ->]%ret_inl).
  unfold newAssignment in Hb. apply bind_inl in Hb as (w4 & now & _ & Ha).
  apply bind_inl in Ha as (w5 & id & _ & [_ ->]%ret_inl). constructor; [by split_and!|]. eapply IH; exact Hbs.
Qed.
End helpers.

#[export] Hint Resolve silent_with_desired silent_newAssignment : silent.

(** * Well-formed states *)

(** Whatever the other proposers do, they do it through the state machine. *)
Class OthersOk (E : Env) := others_wf : ∀ n s, wf s → wf (others n s).

#[export] Instance quiet_others_ok E : Quiet E → OthersOk E.
Proof. intros Q n s Hs. by rewrite (quiet_others n s). Qed.

Section keeps.
Context {RO : RangeOrder} {TL : TimestampLib} {E : Env} {OK : OthersOk E}.

Definition keeps_wf {A} (m : M A) : Prop :=
  ∀ w w' r, wf (World.store w) → m w = Ret (w', r) → wf (World.store w').

Lemma keeps_silent {A} (m : M A) : silent m → keeps_wf m.
Proof. intros Hm w w' r Hw Hr. by rewrite (proj2 (Hm _ _ _ Hr)). Qed.

Lemma keeps_bind {A B} (m : M A) (k : A → M B) : keeps_wf m → (∀ a, keeps_wf (k a)) → keeps_wf (m ≫= k).
Proof.
  intros Hm Hk w w' r Hw. unfold mbind, M_bind. destruct (m w) as [[w1 [a|e]]|] eqn:E1; [| |done].
  - apply Hk. by eapply Hm.
  - intros [= <- _]. by eapply Hm.
Qed.

Lemma keeps_ignore {A} (m : M A) : keeps_wf m → keeps_wf (ignore m).
Proof.
  intros Hm w w' r Hw. unfold ignore. destruct (m w) as [[w1 o]|] eqn:E1; [|done]. intros [= <- _]. by eapply Hm.
Qed.

Lemma keeps_Apply actor m : keeps_wf (Apply actor m).
Proof.
  intros w w' r Hw. apply (others_wf (World.tick w)) in Hw. unfold Apply. cbv zeta.
  destruct (fate (World.tick w)) as [|[]|[]]; try (by intros [= <- _]);
    destruct (FSM.ApplyCommand _ _ _) as [[s1 res]|] eqn:E1; try done; intros [= <- _]; by eapply wf_ApplyCommand.
Qed.

Lemma keeps_apply actor m : keeps_wf (apply actor m).
Proof.
  intros w w' r Hw. unfold apply. pose proof (keeps_Apply actor m w) as Hk.
  destruct (Apply actor m w) as [[w1 [[]|[]]]|]; try done; intros [= <- _]; by eapply Hk.
Qed.
End keeps.

(** * Proposals in a quiet environment *)

(** The state machine has seen none of the ids to come. *)
Definition fresh_requests {E : Env} (w : World.t) : Prop :=
  ∀ n, World.tick w ≤ n → ids_New n ≠ "" ∧ ids_New n ∉ Store.appliedSet (World.store w).

(** A store after a request was marked as applied. *)
Definition marked (s s' : Store.t) : Prop :=
  ∃ ring ids, s' = s <| Store.appliedSet := ids |> <| Store.appliedRequests := ring |>.

Section quiet.
Context {RO : RangeOrder} {TL : TimestampLib} {E : Env} {Q : Quiet E}.
Context (Hids : Inj (=) (=) ids_New).

Lemma MarkApplied_marked rid ix s :
  rid ∉ Store.appliedSet s →
  (Store.MarkApplied rid ix s).2 = true ∧ marked s (Store.MarkApplied rid ix s).1
  ∧ Store.appliedSet (Store.MarkApplied rid ix s).1 ⊆ {[rid]} ∪ Store.appliedSet s.
Proof.
  intros Hr. unfold Store.MarkApplied. rewrite bool_decide_eq_false_2 by done. cbn [fst snd].
  split; [done|]. split; [eexists _, _; unfold set; cbn; reflexivity|]. get_set.
  apply (foldl_invariant (λ S, S ⊆ {[rid]} ∪ Store.appliedSet s)); [done|]. intros y a _. set_solver.
Qed.

(** A mutation that always succeeds, as [f] on the store. *)
Lemma quiet_Apply actor m (f : Store.t → Store.t) w :
  (∀ cmd s, Command.Mut cmd = Some m → FSM.apply cmd s = FSM.done_ (f s)) → fresh_requests w →
  ∃ s1, marked (World.store w) s1
    ∧ Apply actor m w = Ret (World.mk (f s1) (S (World.tick w)) (World.sent w ++ [m]), inl ())
    ∧ fresh_requests (World.mk (f s1) (S (World.tick w)) (World.sent w ++ [m])).
Proof.
  intros Hf Hw. set (n := World.tick w). destruct (Hw n) as [Hne Hnew]; [done|].
  destruct (MarkApplied_marked (ids_New n) (raft_index n) (World.store w) Hnew) as (Hm & Hmk & Hsub).
  exists (Store.MarkApplied (ids_New n) (raft_index n) (World.store w)).1. split; [done|]. split.
  - unfold Apply. cbv zeta. rewrite quiet_fate, quiet_others. fold n. unfold FSM.ApplyCommand. cbn [Command.RequestId].
    rewrite (proj2 (str_eqb_neq _ _) Hne).
    destruct (Store.MarkApplied (ids_New n) (raft_index n) (World.store w)) as [s1 b]. cbn in Hm. subst b. cbn [negb].
    rewrite Hf by done. done.
  - intros k Hk. cbn in Hk. destruct (Hw k) as [Hk1 Hk2]; [fold n; lia|]. split; [done|]. cbn [World.store].
    pose proof (ring_apply _ _ _ _ (Hf (Command.mk "" "" None (Some m))
      (Store.MarkApplied (ids_New n) (raft_index n) (World.store w)).1 eq_refl)) as [= _ ->].
    intros [Heq%elem_of_singleton|?]%Hsub%elem_of_union; [|done]. apply (inj ids_New) in Heq. lia.
Qed.

Lemma quiet_apply actor m (f : Store.t → Store.t) w :
  (∀ cmd s, Command.Mut cmd = Some m → FSM.apply cmd s = FSM.done_ (f s)) → fresh_requests w →
  ∃ s1, marked (World.store w) s1
    ∧ apply actor m w = Ret (World.mk (f s1) (S (World.tick w)) (World.sent w ++ [m]), inl ())
    ∧ fresh_requests (World.mk (f s1) (S (World.tick w)) (World.sent w ++ [m])).
Proof.
  intros Hf Hw. destruct (quiet_Apply actor m f w Hf Hw) as (s1 & Hs1 & Happ & Hfr).
  exists s1. split; [done|]. split; [|done]. unfold apply. by rewrite Happ.
Qed.
End quiet.

(** ** What an assignment write leaves alone *)

(** The collections the controllers read beside the assignments. *)
Definition frame_of (s : Store.t) :=
  (Store.environments s, Store.releases s, Store.deployments s, Store.nodes s, Store.volumes s, Store.jobs s,
   Store.serviceVIPs s, Store.networkAllocs s).

Lemma frame_marked s s' : marked s s' → frame_of s' = frame_of s ∧ Store.assignments s' = Store.assignments s.
Proof. intros (ring & ids & ->). done. Qed.

Lemma frame_PutAssignments l s :
  frame_of (Store.PutAssignments l s) = frame_of s
  ∧ Store.assignments (Store.PutAssignments l s) = foldl (λ m a, <[GetId a := a]> m) (Store.assignments s) l.
Proof.
  revert s. induction l as [|a l IH]; intros s; [done|]. cbn [Store.PutAssignments foldl].
  destruct (IH (Store.putAssignmentLocked a s)) as [H1 H2]. unfold Store.PutAssignments in H1, H2.
  rewrite H1, H2. unfold Store.putAssignmentLocked, Store.touch, frame_of.
  repeat case_match; get_set; done.
Qed.

Lemma frame_DeleteAssignments ids s :
  frame_of (Store.DeleteAssignments ids s) = frame_of s
  ∧ Store.assignments (Store.DeleteAssignments ids s) = foldl (λ m id, delete id m) (Store.assignments s) ids.
Proof.
  revert s. induction ids as [|id ids IH]; intros s; [done|]. cbn [Store.DeleteAssignments foldl].
  destruct (IH (Store.deleteAssignment s id)) as [H1 H2]. unfold Store.DeleteAssignments in H1, H2.
  rewrite H1, H2. unfold Store.deleteAssignment, Store.touch, frame_of.
  destruct (Store.assignments s !! id) eqn:Hid; get_set; [done|]. by rewrite delete_id.
Qed.

Lemma frame_AppendEvents evs s :
  frame_of (Store.AppendEvents evs s) = frame_of s
  ∧ Store.assignments (Store.AppendEvents evs s) = Store.assignments s.
Proof.
  unfold Store.AppendEvents.
  apply (foldl_invariant (λ s', frame_of (s' <| Store.events ::= Store.ring_trim eventRingCap |>) = frame_of s
    ∧ Store.assignments (s' <| Store.events ::= Store.ring_trim eventRingCap |>) = Store.assignments s)).
  - unfold frame_of. by get_set.
  - intros y e _. unfold Store.appendEvent, Store.touch, frame_of. by get_set.
Qed.
