(* ===== verification/OrchestratorProps.v ===== *)
(** What a deployment does, whatever happens to its proposals: the phase graph, the
    health gate in front of a promotion, and the assignments it may touch. *)
From S2P Require Import Prelude Api Watch State StateInv StoreProps Fsm Samples Platform Placement Leader Orchestrator Control.

(** * The phase graph *)

Inductive phase_edge : DeploymentPhase → DeploymentPhase → Prop :=
| edge_build : phase_edge DEPLOYMENT_PHASE_PENDING DEPLOYMENT_PHASE_BUILDING
| edge_place : phase_edge DEPLOYMENT_PHASE_PENDING DEPLOYMENT_PHASE_PLACING
| edge_stop : phase_edge DEPLOYMENT_PHASE_PENDING DEPLOYMENT_PHASE_STOPPING_OLD
| edge_warm : phase_edge DEPLOYMENT_PHASE_PENDING DEPLOYMENT_PHASE_PROMOTING
| edge_built_place : phase_edge DEPLOYMENT_PHASE_BUILDING DEPLOYMENT_PHASE_PLACING
| edge_built_stop : phase_edge DEPLOYMENT_PHASE_BUILDING DEPLOYMENT_PHASE_STOPPING_OLD
| edge_placed : phase_edge DEPLOYMENT_PHASE_PLACING DEPLOYMENT_PHASE_STARTING
| edge_stopped : phase_edge DEPLOYMENT_PHASE_STOPPING_OLD DEPLOYMENT_PHASE_STARTING
| edge_started : phase_edge DEPLOYMENT_PHASE_STARTING DEPLOYMENT_PHASE_HEALTHCHECKING
| edge_healthy : phase_edge DEPLOYMENT_PHASE_HEALTHCHECKING DEPLOYMENT_PHASE_PROMOTING
| edge_promoted : phase_edge DEPLOYMENT_PHASE_PROMOTING DEPLOYMENT_PHASE_DRAINING_OLD
| edge_promoted_stateful : phase_edge DEPLOYMENT_PHASE_PROMOTING DEPLOYMENT_PHASE_SUCCEEDED
| edge_drained : phase_edge DEPLOYMENT_PHASE_DRAINING_OLD DEPLOYMENT_PHASE_SUCCEEDED
| edge_fail p : isTerminalPhase p = false → phase_edge p DEPLOYMENT_PHASE_FAILED
| edge_supersede p : isTerminalPhase p = false → p ≠ DEPLOYMENT_PHASE_DRAINING_OLD →
    phase_edge p DEPLOYMENT_PHASE_SUPERSEDED.

#[export] Hint Constructors phase_edge : phases.

(** How far a phase is; a phase this binary does not know is a dead end. *)
Definition phase_rank (p : DeploymentPhase) : nat :=
  match p with
  | DEPLOYMENT_PHASE_PENDING | DEPLOYMENT_PHASE_OTHER _ => 0
  | DEPLOYMENT_PHASE_BUILDING => 1
  | DEPLOYMENT_PHASE_PLACING | DEPLOYMENT_PHASE_STOPPING_OLD => 2
  | DEPLOYMENT_PHASE_STARTING => 3
  | DEPLOYMENT_PHASE_HEALTHCHECKING => 4
  | DEPLOYMENT_PHASE_PROMOTING => 5
  | DEPLOYMENT_PHASE_DRAINING_OLD => 6
  | DEPLOYMENT_PHASE_SUCCEEDED | DEPLOYMENT_PHASE_FAILED | DEPLOYMENT_PHASE_ROLLED_BACK
  | DEPLOYMENT_PHASE_SUPERSEDED | DEPLOYMENT_PHASE_UNSPECIFIED => 7
  end.

Lemma phase_edge_rank p q : phase_edge p q → phase_rank p < phase_rank q.
Proof. destruct 1; cbn; try lia; destruct p; cbn in *; try discriminate; lia. Qed.

(** A path of phase changes. *)
Inductive phase_path : DeploymentPhase → list DeploymentPhase → Prop :=
| path_nil p : phase_path p []
| path_cons p q l : phase_edge p q → phase_path q l → phase_path p (q :: l).

Lemma phase_path_rank p l : phase_path p l → length l + phase_rank p ≤ 7.
Proof.
  induction 1 as [p|p q l Hpq _ IH]; cbn; [destruct p; cbn; lia|]. apply phase_edge_rank in Hpq. lia.
Qed.

(** * What a deployment may propose, having read the store [st] *)

Section allowed.
Context {RO : RangeOrder} {ROk : RangeOrderOk RO} {TL : TimestampLib} {E : Env}.
Variables (st : Store.t) (d : option Deployment.t).

Notation phase := (d ⇝ Deployment.Phase).

(** The gate in front of a promotion. *)
Definition gate : Prop :=
  (phase = DEPLOYMENT_PHASE_HEALTHCHECKING
   ∧ (∀ a, a ∈ greenAssignments st d → obs_state a = INSTANCE_STATE_HEALTHY)
   ∧ (∀ rel, Store.Release (d ⇝ Deployment.ReleaseId) st = Some rel → isStateful rel = true →
        greenAssignments st d ≠ []))
  ∨ (phase = DEPLOYMENT_PHASE_PENDING ∧ d ⇝ Deployment.IsRollback = true
     ∧ ∃ env rel, Store.Environment (d ⇝ Deployment.EnvironmentId) st = Some env
         ∧ Store.Release (d ⇝ Deployment.ReleaseId) st = Some rel ∧ warmEnough st env rel d = true).

(** No instance of the previous release runs or is meant to. *)
Definition old_stopped : Prop :=
  ∀ a, a ∈ oldInstances st d → is_run a = false
    ∧ (obs_state a = INSTANCE_STATE_STOPPED ∨ obs_state a = INSTANCE_STATE_FAILED
       ∨ obs_state a = INSTANCE_STATE_UNSPECIFIED).

(** Is it stop-then-start, or red/green? *)
Definition update_of (stateful : bool) : Prop :=
  ∃ env rel, Store.Environment (d ⇝ Deployment.EnvironmentId) st = Some env
    ∧ Store.Release (d ⇝ Deployment.ReleaseId) st = Some rel ∧ isStateful rel = stateful.

(** Why a deployment fails. *)
Inductive failing : Prop :=
| without_environment : Store.Environment (d ⇝ Deployment.EnvironmentId) st = None → failing
| without_release : Store.Release (d ⇝ Deployment.ReleaseId) st = None → failing
| without_image rel : Store.Release (d ⇝ Deployment.ReleaseId) st = Some rel → phase = DEPLOYMENT_PHASE_PENDING →
    rel ⇝ Release.ImageRef = "" → failing
| without_build : phase = DEPLOYMENT_PHASE_BUILDING →
    (∀ b, Store.Build (d ⇝ Deployment.BuildId) st = Some b → b ⇝ Build.Status = BUILD_STATUS_FAILED
       ∨ b ⇝ Build.Status = BUILD_STATUS_CANCELED ∨ b ⇝ Build.Status = BUILD_STATUS_SUCCEEDED ∧ b ⇝ Build.ImageRef = "") → failing
| failed_instance a : phase = DEPLOYMENT_PHASE_STARTING ∨ phase = DEPLOYMENT_PHASE_HEALTHCHECKING →
    a ∈ greenAssignments st d → obs_state a = INSTANCE_STATE_FAILED → failing
| too_late rel n : Store.Release (d ⇝ Deployment.ReleaseId) st = Some rel → phase = DEPLOYMENT_PHASE_HEALTHCHECKING →
    (AsTime (d ⇝ Deployment.Meta ⇝ Meta.UpdatedAt) + healthDeadline rel < clock_Now n)%Z → failing
| without_node env rel : Store.Environment (d ⇝ Deployment.EnvironmentId) st = Some env →
    Store.Release (d ⇝ Deployment.ReleaseId) st = Some rel → isStateful rel = true → phase = DEPLOYMENT_PHASE_STARTING →
    greenAssignments st d = [] → (Place st rel (GetId env) 1 ∅).1 = [] → failing.

(** Has its drain deadline passed, if it has one? *)
Definition drained : Prop := ∀ dl, d ⇝ Deployment.DrainDeadline = Some dl → ∃ n, (AsTime (Some dl) ≤ clock_Now n)%Z.

(** A new instance of this deployment: placed by a red/green one in PLACING, by a
    stop-then-start one in STARTING when it has none. *)
Definition own_put (a : option Assignment.t) : Prop :=
  a ⇝ Assignment.DeploymentId = GetId d ∧ is_run a = true
  ∧ (update_of false ∧ phase = DEPLOYMENT_PHASE_PLACING
     ∨ update_of true ∧ phase = DEPLOYMENT_PHASE_STARTING ∧ greenAssignments st d = []).

(** An instance of the previous release: a running one is stopped when the drain of a
    red/green deployment is over or by a stop-then-start one before it starts; one is started
    again only when a stop-then-start one fails. *)
Definition old_put (a : option Assignment.t) : Prop :=
  d ⇝ Deployment.PreviousReleaseId ≠ "" ∧ is_old d a = true
  ∧ (a ⇝ Assignment.Desired = ASSIGNMENT_DESIRED_STOP
       ∧ (∃ a0, Some a0 ∈ oldInstances st d ∧ is_run (Some a0) = true
            ∧ a = Some (a0 <| Assignment.Desired := ASSIGNMENT_DESIRED_STOP |>))
       ∧ (update_of false ∧ phase = DEPLOYMENT_PHASE_DRAINING_OLD ∧ drained
          ∨ update_of true ∧ phase = DEPLOYMENT_PHASE_STOPPING_OLD)
     ∨ a ⇝ Assignment.Desired = ASSIGNMENT_DESIRED_RUN ∧ update_of true ∧ failing
       ∧ (phase = DEPLOYMENT_PHASE_STARTING ∨ phase = DEPLOYMENT_PHASE_HEALTHCHECKING)).

(** May its own instances be deleted? *)
Definition discarded : Prop :=
  failing ∨ superseded st d = true ∧ phase ≠ DEPLOYMENT_PHASE_DRAINING_OLD.

Definition allowed (m : Mutation) : Prop :=
  match m with
  | Command_SetDeploymentPhase x =>
    x ⇝ SetDeploymentPhase.DeploymentId = GetId d ∧ phase_edge phase (x ⇝ SetDeploymentPhase.Phase)
    ∧ (x ⇝ SetDeploymentPhase.Phase = DEPLOYMENT_PHASE_PROMOTING → gate)
    ∧ (x ⇝ SetDeploymentPhase.Phase = DEPLOYMENT_PHASE_STARTING → phase = DEPLOYMENT_PHASE_STOPPING_OLD → old_stopped)
  | Command_PromoteRelease x =>
    phase = DEPLOYMENT_PHASE_PROMOTING ∧ x ⇝ PromoteRelease.EnvironmentId = d ⇝ Deployment.EnvironmentId
    ∧ x ⇝ PromoteRelease.ReleaseId = d ⇝ Deployment.ReleaseId
  | Command_PutAssignments x =>
    superseded st d = false ∧ Forall (λ a, own_put a ∨ old_put a) (x ⇝ PutAssignments.Assignments)
  | Command_DeleteAssignments x =>
    x ⇝ DeleteAssignments.AssignmentIds = GetId <$> greenAssignments st d ∧ discarded
  | Command_PutRelease _ | Command_PutVolume _ | Command_AppendEvents _ => True
  | _ => False
  end.

Implicit Types (w : World.t).

Notation ok m w := (emits_at allowed m w).

Lemma ok_setPhase q msg w :
  phase_edge phase q → q ≠ DEPLOYMENT_PHASE_PROMOTING → q ≠ DEPLOYMENT_PHASE_STARTING → ok (setPhase d q msg) w.
Proof. intros He H1 H2. apply emits_apply. cbn. tauto. Qed.

Lemma silent_ids : silent (New : M string).
Proof. apply silent_tick. Qed.

Lemma ok_emitEvent k sv msg w : ok (emitEvent d k sv msg) w.
Proof.
  apply logs_bind_silent; [constructor|apply silent_tick|]. intros w1 id _ _.
  apply logs_bind_silent; [constructor|apply silent_tick|]. intros w2 now _ _.
  by apply emits_ignore, emits_apply.
Qed.

Lemma ok_reapGreen w : discarded → World.store w = st → ok (reapGreen d) w.
Proof.
  intros Hd Hst. apply logs_bind_read. rewrite Hst. cbv zeta.
  destruct (greenAssignments st d) as [|a l] eqn:Hg; [apply emits_silent, silent_ret|].
  apply emits_apply. cbn. by rewrite Hg.
Qed.

Lemma ok_abort reason w : failing → isTerminalPhase phase = false → World.store w = st → ok (abort d reason) w.
Proof.
  intros Hf Ht Hst. apply emits_bind; [by apply ok_reapGreen; [left|]|]. intros w1 _ _.
  apply emits_bind; [apply ok_emitEvent|]. intros w2 _ _. by apply ok_setPhase; auto with phases.
Qed.

Lemma map_green env rel dep l w w' ys :
  map_each l (λ nodeID, greenAssignment env rel nodeID dep) w = Ret (w', inl ys) →
  Forall (λ a, Assignment.DeploymentId a = dep ∧ Assignment.Desired a = ASSIGNMENT_DESIRED_RUN
               ∧ Assignment.ReleaseId a = GetId rel ∧ Assignment.EnvironmentId a = GetId env) ys
  ∧ Assignment.NodeId <$> ys = l.
Proof.
  revert w w' ys. induction l as [|x l IH]; intros w w' ys; cbn [map_each].
  { intros [_ ->]%ret_inl. by split. }
  intros (w1 & b & Hb & H)%bind_inl. apply bind_inl in H as (w2 & bs & Hbs & [_ ->]%ret_inl).
  destruct (IH _ _ _ Hbs) as [H1 H2]. unfold greenAssignment, newAssignment in Hb.
  apply bind_inl in Hb as (w3 & a & Ha & [_ ->]%ret_inl). apply bind_inl in Ha as (w4 & now & _ & Ha).
  apply bind_inl in Ha as (w5 & id & _ & [_ ->]%ret_inl). cbn. split; [by constructor|]. by f_equal.
Qed.

Lemma silent_greenAssignment env rel node dep : silent (greenAssignment env rel node dep).
Proof. apply silent_bind; [apply silent_newAssignment|]. intros a. apply silent_ret. Qed.

(** ** Each arm *)

Lemma ok_checkBuild rel next w :
  phase = DEPLOYMENT_PHASE_BUILDING → next = DEPLOYMENT_PHASE_PLACING ∨ next = DEPLOYMENT_PHASE_STOPPING_OLD →
  World.store w = st → ok (checkBuild rel d next) w.
Proof.
  intros Hp Hn Hst. assert (isTerminalPhase phase = false) as Ht by (by rewrite Hp).
  apply logs_bind_read. rewrite Hst. destruct (Store.Build _ _) as [b|] eqn:Hb; [|apply ok_abort; [by apply without_build; rewrite ?Hb|done..]].
  destruct (b ⇝ Build.Status) eqn:Hs; try (by apply emits_silent, silent_ret);
    try (apply ok_abort; [apply without_build; [done|rewrite Hb; intros ? [= <-]; auto]|done..]).
  destruct (_ =? _) eqn:Hi; [apply str_eqb_eq in Hi; apply ok_abort; [apply without_build; [done|rewrite Hb; intros ? [= <-]; auto]|done..]|]. apply emits_bind.
  - destruct (negb _); [|apply emits_silent, silent_ret].
    apply logs_bind_silent; [constructor|apply silent_deref|]. intros w1 r _ _. by apply emits_apply.
  - intros w1 _ _. apply ok_setPhase; [rewrite Hp| |]; destruct Hn as [-> | ->]; auto with phases; done.
Qed.

Lemma ok_place env rel w :
  superseded st d = false → update_of false → phase = DEPLOYMENT_PHASE_PLACING → World.store w = st → ok (place env rel d) w.
Proof.
  intros Hsup Hup Hp Hst. apply logs_bind_read. apply emits_bind.
  - destruct (_ <? _)%Z; [|apply emits_silent, silent_ret].
    destruct (Place _ _ _ _ _) as [picks err].
    apply logs_bind_silent; [constructor|apply silent_map_each; intros; apply silent_greenAssignment|].
    intros w1 puts _ [Hputs _]%map_green. destruct puts as [|a puts]; [apply emits_silent, silent_ret|].
    apply emits_bind.
    + apply emits_apply. cbn [allowed putAssignments get PutAssignments.Assignments]. split; [done|].
      apply Forall_fmap. eapply Forall_impl; [exact Hputs|]. intros x (H1 & H2 & _). left. cbn. split; [done|].
      split; [|by left; split]. unfold is_run. cbn. by rewrite H2.
    + intros w2 _ _. apply emits_silent. apply silent_bind; [apply silent_read|]. intros ?. apply silent_ret.
  - intros w1 green _. destruct (_ <=? _)%Z; [|apply emits_silent, silent_ret].
    apply emits_apply. cbn. rewrite Hp. split_and!; [done|auto with phases|done|done].
Qed.

Lemma anyFailed_failing : phase = DEPLOYMENT_PHASE_STARTING ∨ phase = DEPLOYMENT_PHASE_HEALTHCHECKING →
  anyFailed (greenAssignments st d) = true → failing.
Proof.
  intros Hp (a & Ha & Hf)%existsb_exists. apply list_elem_of_In in Ha. apply bool_decide_eq_true in Hf. by eapply failed_instance.
Qed.

Lemma expired_failing rel w w' : Store.Release (d ⇝ Deployment.ReleaseId) st = Some rel → phase = DEPLOYMENT_PHASE_HEALTHCHECKING →
  expired rel d w = Ret (w', inl true) → failing.
Proof.
  intros Hrel Hp. unfold expired. intros (w1 & now & [= <- <-] & [_ Hl]%ret_inl)%bind_inl. symmetry in Hl. apply Z.ltb_lt in Hl.
  by eapply too_late.
Qed.

Lemma ok_checkStarting w :
  phase = DEPLOYMENT_PHASE_STARTING → World.store w = st → ok (checkStarting d) w.
Proof.
  intros Hp Hst. assert (isTerminalPhase phase = false) as Ht by (by rewrite Hp).
  apply logs_bind_read. rewrite Hst. cbv zeta. destruct (anyFailed _) eqn:Hf; [apply ok_abort; [apply anyFailed_failing; auto|done..]|].
  destruct (forallb _ _); [|apply emits_silent, silent_ret]. apply ok_setPhase; [rewrite Hp; auto with phases|done|done].
Qed.

Lemma silent_expired rel : silent (expired rel d).
Proof. unfold expired. solve_silent. Qed.

Lemma healthy_all l : forallb is_healthy l = true → ∀ a, a ∈ l → obs_state a = INSTANCE_STATE_HEALTHY.
Proof.
  rewrite forallb_forall. intros H a Ha. rewrite list_elem_of_In in Ha. specialize (H a Ha).
  unfold is_healthy in H. by apply bool_decide_eq_true in H.
Qed.

Lemma ok_promoting w :
  phase = DEPLOYMENT_PHASE_HEALTHCHECKING ∨ phase = DEPLOYMENT_PHASE_PENDING → gate →
  ok (setPhase d DEPLOYMENT_PHASE_PROMOTING "") w.
Proof.
  intros Hp Hg. apply emits_apply. cbn. split_and!; [done| |done|done].
  destruct Hp as [-> | ->]; auto with phases.
Qed.

Lemma ok_checkHealth rel w :
  phase = DEPLOYMENT_PHASE_HEALTHCHECKING → World.store w = st →
  Store.Release (d ⇝ Deployment.ReleaseId) st = Some rel → isStateful rel = false → ok (checkHealth rel d) w.
Proof.
  intros Hp Hst Hrel Hsf. assert (isTerminalPhase phase = false) as Ht by (by rewrite Hp).
  apply logs_bind_read. rewrite Hst. cbv zeta. destruct (anyFailed _) eqn:Hf; [apply ok_abort; [apply anyFailed_failing; auto|done..]|].
  destruct (forallb is_healthy _) eqn:Hh.
  - apply ok_promoting; [by left|]. left. split; [done|]. split; [by apply healthy_all|].
    intros rel' Hrel'. congruence.
  - apply logs_bind_silent; [constructor|apply silent_expired|]. intros w1 late Hw1 Hl.
    destruct late; [|apply emits_silent, silent_ret]. apply ok_abort; [by eapply expired_failing|done|congruence].
Qed.

Lemma ok_promote drainDur w : phase = DEPLOYMENT_PHASE_PROMOTING → ok (promote drainDur d) w.
Proof.
  intros Hp. apply emits_bind; [by apply emits_apply|]. intros w1 _ _.
  apply logs_bind_silent; [constructor|apply silent_tick|]. intros w2 now _ _.
  apply emits_apply. cbn. rewrite Hp. split_and!; [done|auto with phases|done|done].
Qed.

Lemma old_prev p : List.filter p (oldInstances st d) ≠ [] → d ⇝ Deployment.PreviousReleaseId ≠ "".
Proof. unfold oldInstances. destruct (_ =? "") eqn:Hq; [done|]. by apply str_eqb_neq in Hq. Qed.

Lemma old_all p : Forall (λ a, is_old d a = true) (List.filter p (oldInstances st d)).
Proof.
  apply Forall_forall. intros a [Ha _]%elem_of_Filter. unfold oldInstances in Ha.
  destruct (_ =? ""); [by apply elem_of_nil in Ha|]. by apply elem_of_Filter in Ha as [_ ?].
Qed.

Lemma blue_old : blueAssignments st d = List.filter is_run (oldInstances st d).
Proof.
  unfold blueAssignments, oldInstances. destruct (_ =? ""); [done|].
  induction (Store.ListAssignments _ st) as [|a l IH]; cbn; [done|].
  destruct (is_old d a); cbn; [|done]. destruct (is_run a); cbn; by rewrite IH.
Qed.

(** The running ones of the old instances are stopped, when there are any. *)
Lemma ok_stop w w' ys :
  superseded st d = false →
  update_of false ∧ phase = DEPLOYMENT_PHASE_DRAINING_OLD ∧ drained ∨ update_of true ∧ phase = DEPLOYMENT_PHASE_STOPPING_OLD →
  map_each (List.filter is_run (oldInstances st d)) (with_desired ASSIGNMENT_DESIRED_STOP) w = Ret (w', inl ys) →
  ys = [] ∨ allowed (putAssignments ys).
Proof.
  intros Hsup Hv H%map_desired. destruct ys as [|y ys]; [by left|right]. cbn [allowed putAssignments get PutAssignments.Assignments].
  split; [done|]. assert (d ⇝ Deployment.PreviousReleaseId ≠ "") as Hprev.
  { apply (old_prev is_run). intros Hnil. rewrite Hnil in H. by apply Forall2_nil_inv_l in H. }
  pose proof (old_all is_run) as Hall.
  apply Forall_forall. intros b Hb. apply (list_elem_of_lookup_1) in Hb as [i Hb].
  destruct (Forall2_lookup_r _ _ _ _ _ H Hb) as (a & Ha & a' & -> & ->). apply list_elem_of_lookup_2 in Ha.
  rewrite Forall_forall in Hall. right. split; [done|]. split; [exact (Hall _ Ha)|]. left. split; [done|].
  apply elem_of_Filter in Ha as [Ha Hr]. split; [|exact Hv]. by exists a'.
Qed.

Lemma ok_completeDrain w : superseded st d = false → update_of false → drained → phase = DEPLOYMENT_PHASE_DRAINING_OLD →
  World.store w = st → ok (completeDrain d) w.
Proof.
  intros Hsup Hup Hdr Hp Hst. apply logs_bind_read. rewrite Hst, blue_old.
  apply logs_bind_silent; [constructor|apply silent_map_each; intros; apply silent_with_desired|].
  intros w1 puts _ Hputs. apply ok_stop in Hputs; [|done|by auto].
  apply emits_bind.
  - destruct puts; [apply emits_silent, silent_ret|]. destruct Hputs as [|Hputs]; [done|]. by apply emits_apply.
  - intros w2 _ _. apply ok_setPhase; [rewrite Hp; auto with phases|done|done].
Qed.

Lemma ok_drain w : superseded st d = false → update_of false → phase = DEPLOYMENT_PHASE_DRAINING_OLD → World.store w = st → ok (drain d) w.
Proof.
  intros Hsup Hup Hp Hst. unfold drain. destruct (d ⇝ Deployment.DrainDeadline) as [dl|] eqn:Hdl; [|by apply ok_completeDrain; try done; unfold drained; rewrite Hdl].
  apply logs_bind_silent; [constructor|apply silent_tick|]. intros w1 now Hw1 [= <- <-].
  destruct (Z.ltb_spec (clock_Now (World.tick w)) (AsTime (Some dl))) as [|Hle]; [apply emits_silent, silent_ret|]. apply ok_completeDrain; try done.
  unfold drained. rewrite Hdl. intros ? [= <-]. by eexists.
Qed.

Lemma stillRunning_false l :
  stillRunning l = false → ∀ a, a ∈ l →
    obs_state a = INSTANCE_STATE_STOPPED ∨ obs_state a = INSTANCE_STATE_FAILED ∨ obs_state a = INSTANCE_STATE_UNSPECIFIED.
Proof.
  unfold stillRunning. intros H a Ha. rewrite list_elem_of_In in Ha.
  destruct (obs_state a) eqn:Hs; try tauto; exfalso; rewrite <- not_true_iff_false in H; apply H;
    apply existsb_exists; exists a; by rewrite Hs.
Qed.

Lemma ok_stopOld w : superseded st d = false → update_of true → phase = DEPLOYMENT_PHASE_STOPPING_OLD → World.store w = st → ok (stopOld d) w.
Proof.
  intros Hsup Hup Hp Hst. apply logs_bind_read. rewrite Hst. cbv zeta.
  apply logs_bind_silent; [constructor|apply silent_map_each; intros; apply silent_with_desired|].
  intros w1 puts _ Hputs. pose proof Hputs as Hlen%map_desired%Forall2_length.
  apply ok_stop in Hputs; [|done|by auto]. destruct puts as [|p puts].
  - destruct (stillRunning _) eqn:Hs; [apply emits_silent, silent_ret|].
    apply emits_apply. cbn. rewrite Hp. split_and!; [done|auto with phases|done|]. intros _ _ a Ha.
    split; [|by eapply stillRunning_false]. apply not_true_is_false. intros Hr. cbn in Hlen.
    apply length_zero_iff_nil in Hlen. apply (elem_of_nil a). rewrite <- Hlen. by apply elem_of_Filter.
  - destruct Hputs as [|Hputs]; [done|]. apply emits_bind; [by apply emits_apply|]. intros w2 _ _. apply ok_emitEvent.
Qed.

Lemma ok_events_fail reason w :
  isTerminalPhase phase = false →
  ok (emitEvent d "deploy.failed" "error" reason;; setPhase d DEPLOYMENT_PHASE_FAILED reason) w.
Proof.
  intros Ht. apply emits_bind; [apply ok_emitEvent|]. intros w2 _ _. by apply ok_setPhase; auto with phases.
Qed.
End allowed.

(** Failing a stateful update: the old instances are looked up again after the new
    one is reaped. *)
Section stateful.
Context {RO : RangeOrder} {ROk : RangeOrderOk RO} {TL : TimestampLib} {E : Env}.
Variables (st : Store.t) (d : option Deployment.t).
Notation phase := (d ⇝ Deployment.Phase).
Notation ok m w := (emits_at (allowed st d) m w).

Lemma ok_restart st' p w w' ys :
  superseded st d = false → update_of st d true → failing st d → phase = DEPLOYMENT_PHASE_STARTING ∨ phase = DEPLOYMENT_PHASE_HEALTHCHECKING →
  map_each (List.filter p (oldInstances st' d)) (with_desired ASSIGNMENT_DESIRED_RUN) w = Ret (w', inl ys) →
  ys = [] ∨ allowed st d (putAssignments ys).
Proof.
  intros Hsup Hup Hf Hp H%map_desired. destruct ys as [|y ys]; [by left|right]. cbn [allowed putAssignments get PutAssignments.Assignments].
  split; [done|]. assert (d ⇝ Deployment.PreviousReleaseId ≠ "") as Hprev.
  { apply (old_prev st' d p). intros Hnil. rewrite Hnil in H. by apply Forall2_nil_inv_l in H. }
  pose proof (old_all st' d p) as Hall. rewrite Forall_forall in Hall.
  apply Forall_forall. intros b Hb. apply (list_elem_of_lookup_1) in Hb as [i Hb].
  destruct (Forall2_lookup_r _ _ _ _ _ H Hb) as (a & Ha & a' & -> & ->). apply list_elem_of_lookup_2 in Ha.
  right. split; [done|]. split; [exact (Hall _ Ha)|]. right. by split_and!.
Qed.

(** A failing update after it has reaped the new instance. *)
Definition restarting (reason : string) : M () :=
  st ← read;
  restart ← map_each (List.filter (λ a, negb (is_run a)) (oldInstances st d)) (with_desired ASSIGNMENT_DESIRED_RUN);
  match restart with
  | [] => mret ()
  | _ =>
    oapply (putAssignments restart);;
    emitEvent d "deploy.rolled_back" "warning" "stateful update failed; restarted the previous instance"
  end;;
  emitEvent d "deploy.failed" "error" reason;;
  setPhase d DEPLOYMENT_PHASE_FAILED reason.

Lemma statefulFail_eq reason : statefulFail d reason = (reapGreen d;; restarting reason).
Proof. reflexivity. Qed.

Lemma ok_restarting reason w :
  superseded st d = false → update_of st d true → failing st d →
  phase = DEPLOYMENT_PHASE_STARTING ∨ phase = DEPLOYMENT_PHASE_HEALTHCHECKING → ok (restarting reason) w.
Proof.
  intros Hsup Hup Hf Hp. assert (isTerminalPhase phase = false) as Ht by (by destruct Hp as [-> | ->]). apply logs_bind_read.
  apply logs_bind_silent; [constructor|apply silent_map_each; intros; apply silent_with_desired|].
  intros w2 puts _ Hputs. apply ok_restart in Hputs; [|done..].
  apply emits_bind; [|intros w3 _ _; by apply ok_events_fail].
  destruct puts as [|p puts]; [apply emits_silent, silent_ret|]. destruct Hputs as [|Hputs]; [done|].
  apply emits_bind; [by apply emits_apply|]. intros w3 _ _. apply ok_emitEvent.
Qed.

Lemma ok_statefulFail reason w :
  superseded st d = false → update_of st d true → failing st d →
  phase = DEPLOYMENT_PHASE_STARTING ∨ phase = DEPLOYMENT_PHASE_HEALTHCHECKING → World.store w = st →
  ok (statefulFail d reason) w.
Proof.
  intros Hsup Hup Hf Hp Hst. rewrite statefulFail_eq.
  apply emits_bind; [by apply ok_reapGreen; [left|]|]. intros w1 _ _. by apply ok_restarting.
Qed.

(** An old instance is started again only after the new ones, if there are any, were reaped. *)
Definition restarts (m : Mutation) : Prop :=
  ∃ x a, m = Command_PutAssignments x ∧ a ∈ x ⇝ PutAssignments.Assignments ∧ is_old d a = true ∧ is_run a = true.
Definition reaped_first (ms : list Mutation) : Prop :=
  Exists restarts ms → greenAssignments st d = [] ∨ ∃ x ms', ms = Command_DeleteAssignments x :: ms'.

Lemma reaped_statefulFail reason w :
  superseded st d = false → update_of st d true → failing st d →
  phase = DEPLOYMENT_PHASE_STARTING ∨ phase = DEPLOYMENT_PHASE_HEALTHCHECKING → World.store w = st →
  logs_at reaped_first (statefulFail d reason) w.
Proof.
  intros Hsup Hup Hf Hp Hst. destruct (greenAssignments st d) as [|g l] eqn:Hg.
  { eapply logs_mono; [|by apply ok_statefulFail]. intros ms _ _. by left. }
  rewrite statefulFail_eq. apply (logs_bind (λ ms, ∃ x, ms = [Command_DeleteAssignments x]) (λ _, True)).
  - intros l1 l2 [x ->] _ _. right. by eexists _, _.
  - intros l1 [x ->] _. right. by eexists _, _.
  - unfold reapGreen. apply logs_bind_read. rewrite Hst, Hg. apply logs_apply. by eexists.
  - intros w1 _ _. eapply logs_mono; [|by apply ok_restarting]. done.
Qed.

Lemma restarts_allowed m : allowed st d m → restarts m →
  update_of st d true ∧ superseded st d = false ∧ (phase = DEPLOYMENT_PHASE_STARTING ∨ phase = DEPLOYMENT_PHASE_HEALTHCHECKING).
Proof.
  intros Hm (x & a & -> & Ha & Hold & Hrun). destruct Hm as [Hsup Hall]. rewrite Forall_forall in Hall.
  destruct (Hall a Ha) as [(Hd & _)|(_ & _ & [(Hs & _)|(_ & Hu & _ & Hp)])].
  - unfold is_old in Hold. apply andb_prop in Hold as [_ Hold]. by apply negb_true_iff, str_eqb_neq in Hold.
  - unfold is_run in Hrun. apply bool_decide_eq_true in Hrun. congruence.
  - done.
Qed.

Lemma ok_ensureDeployVolumes env rel node w : ok (ensureDeployVolumes env rel node) w.
Proof.
  apply emits_for_each. intros vm w1 _. apply logs_bind_read.
  destruct (Store.VolumeByName _ _ _ _); [apply emits_silent, silent_ret|].
  apply logs_bind_silent; [constructor|apply silent_tick|]. intros w2 now _ _.
  apply logs_bind_silent; [constructor|apply silent_tick|]. intros w3 id _ _. by apply emits_apply.
Qed.

(** The release and the environment of the deployment, of a stop-then-start update that is
    not superseded. *)
Section arms.
Variables (env : option Environment.t) (rel : option Release.t).
Hypothesis (Henv : Store.Environment (d ⇝ Deployment.EnvironmentId) st = Some env)
  (Hrel : Store.Release (d ⇝ Deployment.ReleaseId) st = Some rel) (Hsf : isStateful rel = true) (Hsup : superseded st d = false).

Lemma stateful_update : update_of st d true.
Proof using Henv Hrel Hsf. by exists env, rel. Qed.
#[local] Hint Resolve stateful_update : core.

Lemma ok_statefulStart w :
  phase = DEPLOYMENT_PHASE_STARTING → World.store w = st → ok (statefulStart env rel d) w.
Proof using Henv Hrel Hsf Hsup.
  intros Hp Hst. apply logs_bind_read. rewrite Hst. cbv zeta.
  destruct (greenAssignments st d) as [|a l] eqn:Hg.
  - destruct (Place _ _ _ _ _) as [[|node picks] err] eqn:Hpl.
    { apply ok_statefulFail; auto. eapply without_node; eauto. by rewrite Hpl. }
    apply emits_bind; [apply ok_ensureDeployVolumes|]. intros w1 _ _.
    apply logs_bind_silent; [constructor|apply silent_greenAssignment|]. intros w2 put _ Hput.
    apply emits_apply. cbn [allowed putAssignments get PutAssignments.Assignments]. split; [done|]. constructor; [|constructor].
    left. unfold greenAssignment in Hput. apply bind_inl in Hput as (w3 & b & Hb & [_ ->]%ret_inl).
    unfold newAssignment in Hb. apply bind_inl in Hb as (w4 & now & _ & Hb).
    apply bind_inl in Hb as (w5 & id & _ & [_ ->]%ret_inl). split; [done|]. split; [done|]. right. auto.
  - rewrite <- Hg. destruct (anyFailed _) eqn:Hf; [apply ok_statefulFail; auto; apply anyFailed_failing; auto|].
    destruct (forallb _ _); [|apply emits_silent, silent_ret].
    apply ok_setPhase; [rewrite Hp; auto with phases|done|done].
Qed.

Lemma ok_statefulHealth w :
  phase = DEPLOYMENT_PHASE_HEALTHCHECKING → World.store w = st → ok (statefulHealth rel d) w.
Proof using Henv Hrel Hsf Hsup.
  intros Hp Hst. apply logs_bind_read. rewrite Hst. cbv zeta.
  destruct (anyFailed _) eqn:Hf; [apply ok_statefulFail; auto; apply anyFailed_failing; auto|].
  destruct (_ && forallb is_healthy _) eqn:Hh.
  - apply andb_prop in Hh as [Hl Hh]. apply ok_promoting; [by left|]. left. split; [done|].
    split; [by apply healthy_all|]. intros _ _ _ Hnil. by rewrite Hnil in Hl.
  - apply logs_bind_silent; [constructor|apply silent_expired|]. intros w1 late Hw1 Hl.
    destruct late; [|apply emits_silent, silent_ret]. apply ok_statefulFail; auto; [by eapply expired_failing|congruence].
Qed.

Lemma reaped_vacuous (m : M ()) w : ok m w → ¬ (phase = DEPLOYMENT_PHASE_STARTING ∨ phase = DEPLOYMENT_PHASE_HEALTHCHECKING) → logs_at reaped_first m w.
Proof using.
  intros Hm Hp. eapply logs_mono; [|exact Hm]. intros ms Hall (m' & Hin & Hr)%Exists_exists. rewrite Forall_forall in Hall.
  by destruct (restarts_allowed m' (Hall _ Hin) Hr) as (_ & _ & ?).
Qed.

Lemma reaped_quiet (m : M ()) w : emits_at (λ m, ¬ restarts m) m w → logs_at reaped_first m w.
Proof using.
  intros Hm. eapply logs_mono; [|exact Hm]. intros ms Hall (m' & Hin & Hr)%Exists_exists. rewrite Forall_forall in Hall.
  by destruct (Hall _ Hin).
Qed.

Lemma reaped_statefulStart w : phase = DEPLOYMENT_PHASE_STARTING → World.store w = st → logs_at reaped_first (statefulStart env rel d) w.
Proof using Henv Hrel Hsf Hsup.
  intros Hp Hst. destruct (greenAssignments st d) as [|a l] eqn:Hg.
  { eapply logs_mono; [|by apply ok_statefulStart]. intros ms _ _. by left. }
  apply logs_bind_read. rewrite Hst. cbv zeta. rewrite Hg, <- Hg.
  destruct (anyFailed _) eqn:Hf; [apply reaped_statefulFail; auto; apply anyFailed_failing; auto|].
  apply reaped_quiet. destruct (forallb _ _); [|apply emits_silent, silent_ret]. apply emits_apply. by intros (? & ? & ? & _).
Qed.

Lemma reaped_statefulHealth w : phase = DEPLOYMENT_PHASE_HEALTHCHECKING → World.store w = st → logs_at reaped_first (statefulHealth rel d) w.
Proof using Henv Hrel Hsf Hsup.
  intros Hp Hst. apply logs_bind_read. rewrite Hst. cbv zeta.
  destruct (anyFailed _) eqn:Hf; [apply reaped_statefulFail; auto; apply anyFailed_failing; auto|].
  destruct (_ && forallb is_healthy _) eqn:Hh; [apply reaped_quiet, emits_apply; by intros (? & ? & ? & _)|].
  apply logs_bind_silent; [by intros ?%Exists_nil|apply silent_expired|]. intros w1 late Hw1 Hl.
  destruct late; [|apply reaped_quiet, emits_silent, silent_ret]. apply reaped_statefulFail; auto; [by eapply expired_failing|congruence].
Qed.
End arms.

Lemma ok_statefulPromote w : phase = DEPLOYMENT_PHASE_PROMOTING → ok (statefulPromote d) w.
Proof.
  intros Hp. apply emits_bind; [by apply emits_apply|]. intros w1 _ _.
  apply emits_bind; [apply ok_emitEvent|]. intros w2 _ _. apply ok_setPhase; [rewrite Hp; auto with phases|done|done].
Qed.

Lemma ok_reconcileStateful env rel w :
  Store.Environment (d ⇝ Deployment.EnvironmentId) st = Some env → Store.Release (d ⇝ Deployment.ReleaseId) st = Some rel →
  isStateful rel = true → superseded st d = false → World.store w = st → ok (reconcileStateful env rel d) w.
Proof.
  intros He Hr Hsf Hsup Hst. assert (update_of st d true) as Hup by (by exists env, rel).
  unfold reconcileStateful. destruct phase eqn:Hp; try (by apply emits_silent, silent_ret).
  - destruct (_ && _); [by apply ok_setPhase; rewrite ?Hp; auto with phases|].
    destruct (_ =? _) eqn:Hi; [apply str_eqb_eq in Hi; apply ok_abort; [by eapply without_image|by rewrite Hp|done]|].
    by apply ok_setPhase; rewrite ?Hp; auto with phases.
  - apply ok_checkBuild; auto.
  - by apply ok_statefulStart.
  - by apply (ok_statefulHealth env).
  - by apply ok_statefulPromote.
  - by apply ok_stopOld.
Qed.

Lemma ok_reconcile drainDur w : World.store w = st → ok (reconcile drainDur d) w.
Proof.
  intros Hst. unfold reconcile. destruct (isTerminalPhase phase) eqn:Ht; [apply emits_silent, silent_ret|].
  apply logs_bind_read. rewrite Hst.
  destruct (Store.Environment _ st) as [env|] eqn:He; [|by apply ok_abort; [apply without_environment|..]].
  destruct (Store.Release _ st) as [rel|] eqn:Hr; [|by apply ok_abort; [apply without_release|..]].
  destruct (superseded st d) eqn:Hsup.
  { case_decide as Hd; [by apply ok_setPhase; rewrite ?Hd; auto with phases|].
    apply emits_bind; [by apply ok_reapGreen; [right|]|]. intros w1 _ _. by apply ok_setPhase; auto with phases. }
  destruct (isStateful rel) eqn:Hsf; [by apply ok_reconcileStateful|]. assert (update_of st d false) as Hup by (by exists env, rel).
  destruct phase eqn:Hp; try (by apply emits_silent, silent_ret).
  - destruct (_ && _); [by apply ok_setPhase; rewrite ?Hp; auto with phases|].
    destruct (_ =? _) eqn:Hi; [apply str_eqb_eq in Hi; apply ok_abort; [by eapply without_image|by rewrite Hp|done]|].
    destruct (_ && _) eqn:Hw; [|by apply ok_setPhase; rewrite ?Hp; auto with phases].
    apply andb_prop in Hw as [Hrb Hw]. apply ok_promoting; [by right|]. right. eauto 10.
  - apply ok_checkBuild; auto.
  - by apply ok_place.
  - by apply ok_checkStarting.
  - by apply ok_checkHealth.
  - by apply ok_promote.
  - by apply ok_drain.
Qed.

Lemma reaped_reconcile drainDur w : World.store w = st → logs_at reaped_first (reconcile drainDur d) w.
Proof.
  intros Hst. pose proof (ok_reconcile drainDur w Hst) as Hok.
  destruct (Store.Environment (d ⇝ Deployment.EnvironmentId) st) as [env|] eqn:He;
    [destruct (Store.Release (d ⇝ Deployment.ReleaseId) st) as [rel|] eqn:Hr;
      [destruct (isStateful rel) eqn:Hsf; [destruct (superseded st d) eqn:Hsup|]|]|].
  2: { destruct (decide (phase = DEPLOYMENT_PHASE_STARTING)) as [Hp|Hp1]; [|destruct (decide (phase = DEPLOYMENT_PHASE_HEALTHCHECKING)) as [Hp|Hp2]];
      [| |by apply reaped_vacuous; [|intros []]];
      unfold reconcile; rewrite Hp; cbn [isTerminalPhase]; apply logs_bind_read; rewrite Hst, He, Hr, Hsup, Hsf; unfold reconcileStateful; rewrite Hp;
      [by apply reaped_statefulStart|by apply (reaped_statefulHealth env)]. }
  all: eapply logs_mono; [|exact Hok]; intros ms Hall (m' & Hin & Hrm)%Exists_exists; rewrite Forall_forall in Hall;
    destruct (restarts_allowed m' (Hall _ Hin) Hrm) as ((env' & rel' & He' & Hr' & Hsf') & Hsup' & _); congruence.
Qed.
End stateful.

(** * At most one phase per reconciliation *)

Definition is_phase (m : Mutation) : bool := match m with Command_SetDeploymentPhase _ => true | _ => false end.

Create HintDb budgets.

Section one_phase.
Context {RO : RangeOrder} {TL : TimestampLib} {E : Env}.

Lemma budget_ret {A} p n (a : A) : budget p n (mret a : M A).
Proof. apply budget_silent, silent_ret. Qed.
Lemma budget_tick {A} p n (f : nat → A) : budget p n (tick_ f : M A).
Proof. apply budget_silent, silent_tick. Qed.
Lemma budget_read p n : budget p n (read : M Store.t).
Proof. apply budget_silent, silent_read. Qed.
Lemma budget_deref {A} p n (x : option A) : budget p n (deref x : M A).
Proof. apply budget_silent, silent_deref. Qed.
Lemma budget_ignore {A} p n (m : M A) : budget p n m → budget p n (ignore m).
Proof. intros Hm w. apply emits_ignore, Hm. Qed.
Lemma budget_flip v p n l : budget p n (map_each l (with_desired v)).
Proof. apply budget_silent, silent_map_each. intros. apply silent_with_desired. Qed.
Lemma budget_greens env rel dep p n l : budget p n (map_each l (λ x, greenAssignment env rel x dep)).
Proof. apply budget_silent, silent_map_each. intros. apply silent_greenAssignment. Qed.
Lemma budget_green env rel dep p n x : budget p n (greenAssignment env rel x dep).
Proof. apply budget_silent, silent_greenAssignment. Qed.
Lemma budget_expired rel d p n : budget p n (expired rel d).
Proof. apply budget_silent, silent_expired. Qed.
Lemma budget_oapply m : is_phase m = false → budget is_phase 0 (oapply m).
Proof. intros Hm. pose proof (budget_apply is_phase "system:deploy" m) as H. by rewrite Hm in H. Qed.
Lemma budget_phase m : budget is_phase 1 (oapply m).
Proof.
  pose proof (budget_apply is_phase "system:deploy" m) as H. intros w. eapply logs_mono; [|apply H].
  cbn. intros ms. destruct (is_phase m); lia.
Qed.
Lemma budget_setPhase d q msg : budget is_phase 1 (setPhase d q msg).
Proof. apply budget_phase. Qed.

#[local] Hint Resolve budget_ret budget_tick budget_read budget_deref budget_flip budget_greens budget_green
  budget_expired budget_setPhase : budgets.

(** One step along the program: a phase change only ever comes last. *)
Ltac solve_budget :=
  unfold New, Now;
  repeat first
    [ solve [auto with budgets]
    | lazymatch goal with
      | |- budget _ 0 (oapply _) => apply budget_oapply; reflexivity
      | |- budget _ 1 (oapply _) => apply budget_phase
      | |- budget _ _ (ignore _) => apply budget_ignore
      | |- budget _ _ (match ?x with _ => _ end) => destruct x
      | |- budget _ _ (_ ≫= _) => apply (budget_bind is_phase 0); [|intros ?]
      end ].

Lemma budget_emitEvent d k sv msg : budget is_phase 0 (emitEvent d k sv msg).
Proof. unfold emitEvent. solve_budget. Qed.
Lemma budget_reapGreen d : budget is_phase 0 (reapGreen d).
Proof. unfold reapGreen. solve_budget. Qed.
Lemma budget_weaken {A} p n (m : M A) : budget p 0 m → budget p n m.
Proof. intros Hm w. eapply logs_mono; [|apply Hm]. cbn. intros ms. lia. Qed.
Lemma budget_event1 d k sv msg : budget is_phase 1 (emitEvent d k sv msg).
Proof. apply budget_weaken, budget_emitEvent. Qed.
#[local] Hint Resolve budget_emitEvent budget_reapGreen budget_event1 : budgets.
Lemma budget_abort d reason : budget is_phase 1 (abort d reason).
Proof. unfold abort. solve_budget. Qed.
Lemma budget_statefulFail d reason : budget is_phase 1 (statefulFail d reason).
Proof. unfold statefulFail. solve_budget. Qed.
Lemma budget_completeDrain d : budget is_phase 1 (completeDrain d).
Proof. unfold completeDrain. solve_budget. Qed.
Lemma budget_volumes env rel node : budget is_phase 0 (ensureDeployVolumes env rel node).
Proof. apply budget_for_each. intros vm. solve_budget. Qed.
#[local] Hint Resolve budget_abort budget_statefulFail budget_completeDrain budget_volumes : budgets.

Lemma budget_checkBuild rel d q : budget is_phase 1 (checkBuild rel d q).
Proof. unfold checkBuild. solve_budget. Qed.
Lemma budget_place env rel d : budget is_phase 1 (place env rel d).
Proof. unfold place. solve_budget. Qed.
Lemma budget_promote w d : budget is_phase 1 (promote w d).
Proof. unfold promote, promoteRelease. solve_budget. Qed.
Lemma budget_statefulStart env rel d : budget is_phase 1 (statefulStart env rel d).
Proof.
  unfold statefulStart. apply (budget_bind is_phase 0); [auto with budgets|]. intros st.
  destruct (greenAssignments st d); [|solve_budget]. destruct (Place _ _ _ _ _) as [[|] ?]; solve_budget.
Qed.
#[local] Hint Resolve budget_checkBuild budget_place budget_promote budget_statefulStart : budgets.

Lemma budget_reconcile drainDur d : budget is_phase 1 (reconcile drainDur d).
Proof.
  unfold reconcile, reconcileStateful, checkStarting, checkHealth, drain, stopOld, statefulHealth, statefulPromote,
    promoteRelease. solve_budget.
Qed.
End one_phase.

(** * The theorems *)

(** What one reconciliation proposed. *)
Lemma reconcile_proposals {RO : RangeOrder} {TL : TimestampLib} {E : Env} drainDur d w w' r :
  reconcile drainDur d w = Ret (w', r) →
  ∃ ms, World.sent w' = World.sent w ++ ms ∧ Forall (allowed (World.store w) d) ms
        ∧ length (List.filter is_phase ms) ≤ 1.
Proof.
  intros Hr. destruct (ok_reconcile (World.store w) d drainDur w eq_refl _ _ Hr) as (ms & Hs & Ha).
  destruct (budget_reconcile drainDur d w _ _ Hr) as (ms' & Hs' & Hb). exists ms. split; [done|]. split; [done|].
  rewrite Hs in Hs'. apply app_inv_head in Hs' as ->. exact Hb.
Qed.

(** C6: a reconciliation advances its deployment by at most one phase, and only
    along the phase graph, in every environment; the rank of the phase grows at each
    step, so a deployment changes phase at most seven times and cannot cycle. *)
Theorem deployment_phases (RO : RangeOrder) (TL : TimestampLib) (E : Env) (drainDur : Z)
    (d : option Deployment.t) (w w' : World.t) (r : () + leader_error) :
  reconcile drainDur d w = Ret (w', r) →
  (∃ ms, World.sent w' = World.sent w ++ ms
     ∧ length (List.filter is_phase ms) ≤ 1
     ∧ ∀ x, Command_SetDeploymentPhase x ∈ ms →
         x ⇝ SetDeploymentPhase.DeploymentId = GetId d
         ∧ phase_edge (d ⇝ Deployment.Phase) (x ⇝ SetDeploymentPhase.Phase)
         ∧ phase_rank (d ⇝ Deployment.Phase) < phase_rank (x ⇝ SetDeploymentPhase.Phase))
  ∧ (∀ l, phase_path (d ⇝ Deployment.Phase) l → length l ≤ 7).
Proof.
  intros Hr. split; [|intros l Hl%phase_path_rank; lia].
  destruct (reconcile_proposals _ _ _ _ _ Hr) as (ms & Hs & Ha & Hb). exists ms. split; [done|]. split; [done|].
  intros x Hx. rewrite Forall_forall in Ha. destruct (Ha _ Hx) as (H1 & H2 & _).
  split; [done|]. split; [done|]. by apply phase_edge_rank.
Qed.

(** C5: traffic moves only through the health gate.  A release is promoted only
    from the PROMOTING phase, and that phase is entered only when every instance of
    the deployment was HEALTHY in the state read (at least one for a stateful
    service), or for a rollback whose target is still warm. *)
Theorem promotion_is_gated (RO : RangeOrder) (TL : TimestampLib) (E : Env) (drainDur : Z)
    (d : option Deployment.t) (w w' : World.t) (r : () + leader_error) :
  reconcile drainDur d w = Ret (w', r) →
  ∃ ms, World.sent w' = World.sent w ++ ms
    ∧ (∀ x, Command_PromoteRelease x ∈ ms →
        d ⇝ Deployment.Phase = DEPLOYMENT_PHASE_PROMOTING
        ∧ x ⇝ PromoteRelease.EnvironmentId = d ⇝ Deployment.EnvironmentId
        ∧ x ⇝ PromoteRelease.ReleaseId = d ⇝ Deployment.ReleaseId)
    ∧ (∀ x, Command_SetDeploymentPhase x ∈ ms →
        x ⇝ SetDeploymentPhase.Phase = DEPLOYMENT_PHASE_PROMOTING → gate (World.store w) d).
Proof.
  intros Hr. destruct (reconcile_proposals _ _ _ _ _ Hr) as (ms & Hs & Ha & _). rewrite Forall_forall in Ha.
  exists ms. split; [done|]. split; intros x Hx; by apply Ha in Hx as H; cbn in H; tauto.
Qed.

(** C7: the blast radius of a deployment, in every environment.  The only assignments it deletes
    are its own, and only when it fails, for one of the reasons of [failing], or is superseded
    before its drain.  A superseded one writes none.  Those that it writes otherwise are new
    instances of its own, or instances of the previous release: running ones, stopped when the
    drain of a red/green deployment is over or by a stop-then-start one before it starts; or
    stopped ones, started again when a stop-then-start one fails while it starts or is checked.
    So a failing red/green deployment, and a superseded one of either kind, leaves the instances
    of other deployments alone, and neither deletes a release, an environment or a volume. *)
Theorem deployment_blast_radius (RO : RangeOrder) (TL : TimestampLib) (E : Env) (drainDur : Z)
    (d : option Deployment.t) (w w' : World.t) (r : () + leader_error) :
  reconcile drainDur d w = Ret (w', r) →
  let st := World.store w in
  ∃ ms, World.sent w' = World.sent w ++ ms
    ∧ (∀ x, Command_DeleteAssignments x ∈ ms →
        x ⇝ DeleteAssignments.AssignmentIds = GetId <$> greenAssignments st d
        ∧ (failing st d ∨ superseded st d = true ∧ d ⇝ Deployment.Phase ≠ DEPLOYMENT_PHASE_DRAINING_OLD))
    ∧ (∀ x, Command_PutAssignments x ∈ ms → superseded st d = false)
    ∧ (∀ x a, Command_PutAssignments x ∈ ms → a ∈ x ⇝ PutAssignments.Assignments →
        own_put st d a ∨ old_put st d a)
    ∧ (∀ x, Command_DeleteRelease x ∉ ms ∧ Command_DeleteEnvironment x ∉ ms ∧ Command_DeleteVolume x ∉ ms).
Proof.
  intros Hr st. destruct (reconcile_proposals _ _ _ _ _ Hr) as (ms & Hs & Ha & _). rewrite Forall_forall in Ha.
  exists ms. split; [done|]. split_and!.
  - intros x Hx. by apply Ha in Hx.
  - intros x Hx. by apply Ha in Hx as [? _].
  - intros x a Hx Hin. apply Ha in Hx as [_ Hx]. rewrite Forall_forall in Hx. by apply Hx.
  - intros x. split_and!; intros Hx; by apply Ha in Hx.
Qed.

(** C8: the single-writer barrier of stateful updates, as far as one reconciliation can keep it
    (a proposal that fails unnoticed breaks it, failed_reap_starts_two_writers).  STARTING is entered from
    STOPPING_OLD only when no instance of the previous release runs or is meant to, in the state
    read.  No phase but STARTING puts an instance of the deployment that is to run, and that
    only when the deployment has none.  An instance of the previous release is set to run again
    only when the update fails, in STARTING or HEALTHCHECKING, and when there are instances of
    the deployment, they were deleted by the first proposal of the same reconciliation. *)
Theorem stateful_stop_then_start (RO : RangeOrder) (TL : TimestampLib) (E : Env) (drainDur : Z)
    (d : option Deployment.t) (w w' : World.t) (r : () + leader_error) :
  reconcile drainDur d w = Ret (w', r) →
  let st := World.store w in
  (∀ rel, Store.Release (d ⇝ Deployment.ReleaseId) st = Some rel → isStateful rel = true) →
  ∃ ms, World.sent w' = World.sent w ++ ms
    ∧ (∀ x, d ⇝ Deployment.Phase = DEPLOYMENT_PHASE_STOPPING_OLD → Command_SetDeploymentPhase x ∈ ms →
        x ⇝ SetDeploymentPhase.Phase = DEPLOYMENT_PHASE_STARTING → old_stopped st d)
    ∧ (∀ x a, Command_PutAssignments x ∈ ms → a ∈ x ⇝ PutAssignments.Assignments → is_run a = true →
        a ⇝ Assignment.DeploymentId = GetId d
          ∧ d ⇝ Deployment.Phase = DEPLOYMENT_PHASE_STARTING ∧ greenAssignments st d = []
        ∨ is_old d a = true ∧ failing st d
          ∧ (d ⇝ Deployment.Phase = DEPLOYMENT_PHASE_STARTING ∨ d ⇝ Deployment.Phase = DEPLOYMENT_PHASE_HEALTHCHECKING)
          ∧ (greenAssignments st d = [] ∨ ∃ y ms', ms = Command_DeleteAssignments y :: ms'
               ∧ y ⇝ DeleteAssignments.AssignmentIds = GetId <$> greenAssignments st d)).
Proof.
  intros Hr st Hstateful. destruct (reconcile_proposals _ _ _ _ _ Hr) as (ms & Hs & Ha & _).
  destruct (reaped_reconcile st d drainDur w eq_refl _ _ Hr) as (ms' & Hs' & Hf). rewrite Hs in Hs'. apply app_inv_head in Hs' as <-.
  rewrite Forall_forall in Ha. exists ms. split; [done|]. split.
  - intros x Hp Hx Hq. apply Ha in Hx as (_ & _ & _ & H). by apply H.
  - intros x a Hx Hin Hrun. pose proof (Ha _ Hx) as [_ Hall]. rewrite Forall_forall in Hall.
    destruct (Hall a Hin) as [(Hd & _ & [((env & rel & _ & Hrel & Hsf) & _)|(_ & Hp & Hg)])|(_ & Hold & [(Hst & _)|(_ & _ & Hfail & Hp)])].
    + apply Hstateful in Hrel. congruence.
    + by left.
    + unfold is_run in Hrun. apply bool_decide_eq_true in Hrun. congruence.
    + right. split_and!; [done..|]. destruct Hf as [Hg|(y & ms' & ->)]; [|by left|].
      * apply Exists_exists. exists (Command_PutAssignments x). split; [done|]. by exists x, a.
      * right. exists y, ms'. split; [done|]. by destruct (Ha (Command_DeleteAssignments y) ltac:(left)).
Qed.

(** * The barrier and swallowed failures *)

(** A stateful update whose new instance failed to start: the old one is stopped. *)
Definition failing_update : Store.t :=
  Store.PutAssignments
    [Some (sample_assignment "a1" "n1" "e1" "r1" "" ASSIGNMENT_DESIRED_STOP INSTANCE_STATE_STOPPED);
     Some (sample_assignment "a2" "n1" "e1" "r2" "d1" ASSIGNMENT_DESIRED_RUN INSTANCE_STATE_FAILED)]
  (Store.PutDeployment (Some (sample_deployment "d1" "e1" "r2" "r1" DEPLOYMENT_PHASE_STARTING))
  (Store.PutRelease (Some (sample_release "r2" "e1" 2 (sample_spec true 1 100 100)))
  (Store.PutRelease (Some (sample_release "r1" "e1" 1 (sample_spec true 1 100 100)))
  (Store.PutEnvironment (Some (sample_env "e1" "r1" (sample_spec true 1 100 100))) Store.New)))).

Definition failing_deployment : option Deployment.t :=
  Some (sample_deployment "d1" "e1" "r2" "r1" DEPLOYMENT_PHASE_STARTING).

(** The first proposal times out, the others commit. *)
Definition flaky_env : Env := {|
  fate n := if (n =? 0)%nat then Failed false else Committed;
  others _ s := s; raft_index n := Z.of_nat n; leads _ := true;
  ids_New := @ids_New quiet_env; clock_Now := @clock_Now quiet_env
|}.

Definition running (env : string) (s : Store.t) : list string :=
  GetId <$> List.filter is_run (Store.ListAssignments (RO := canonical_range) env s).

(** The barrier does not survive a failed proposal: when reaping the failed new
    instance is not applied, the error is logged and the old instance is started
    beside it, so that two assignments of the stateful service are meant to run. *)
Theorem failed_reap_starts_two_writers :
  ∃ (E : Env) (w w' : World.t) (r : () + leader_error),
    reconcile (RO := canonical_range) (TL := wellknown_times) 0 failing_deployment w = Ret (w', r)
    ∧ wf (World.store w) ∧ running "e1" (World.store w) = ["a2"]
    ∧ running "e1" (World.store w') = ["a1"; "a2"].
Proof.
  exists flaky_env, (World.mk failing_update 0 []).
  destruct (reconcile (RO := canonical_range) (TL := wellknown_times) (E := flaky_env) 0 failing_deployment
    (World.mk failing_update 0 [])) as [[w' r]|] eqn:E1; [|vm_compute in E1; discriminate].
  exists w', r. split; [reflexivity|]. split; [unfold World.store, failing_update; auto 10 with store_wf|].
  split; [vm_compute; reflexivity|].
  assert (match reconcile (RO := canonical_range) (TL := wellknown_times) (E := flaky_env) 0 failing_deployment
    (World.mk failing_update 0 []) with Ret (w', _) => running "e1" (World.store w') | Panic => [] end = ["a1"; "a2"]) as H
    by (vm_compute; reflexivity).
  by rewrite E1 in H.
Qed.

(** * Witnesses *)

(** A reconciliation in a quiet environment. *)
Notation quiet_run d s :=
  (reconcile (RO := canonical_range) (TL := wellknown_times) (E := quiet_env) 0 d (World.mk s 0 [])).

Definition run_world (o : outcome (World.t * (() + leader_error))) : World.t :=
  match o with Ret (w, _) => w | Panic => World.mk Store.New 0 [] end.

(** A red/green deployment of [e1] from [r1] to [r2] in a given phase, with one
    instance of each. *)
Definition rolling_deployment (ph : DeploymentPhase) : option Deployment.t :=
  Some (sample_deployment "d1" "e1" "r2" "r1" ph).

Definition rolling (stateful : bool) (old new : option Assignment.t) (ph : DeploymentPhase) : Store.t :=
  Store.PutAssignments [old; new]
  (Store.PutDeployment (rolling_deployment ph)
  (Store.PutRelease (Some (sample_release "r2" "e1" 2 (sample_spec stateful 1 100 100)))
  (Store.PutRelease (Some (sample_release "r1" "e1" 1 (sample_spec stateful 1 100 100)))
  (Store.PutEnvironment (Some (sample_env "e1" "r1" (sample_spec stateful 1 100 100))) Store.New)))).

Definition old_run : option Assignment.t :=
  Some (sample_assignment "a1" "n1" "e1" "r1" "" ASSIGNMENT_DESIRED_RUN INSTANCE_STATE_HEALTHY).
Definition old_down : option Assignment.t :=
  Some (sample_assignment "a1" "n1" "e1" "r1" "" ASSIGNMENT_DESIRED_STOP INSTANCE_STATE_STOPPED).
Definition new_healthy : option Assignment.t :=
  Some (sample_assignment "a2" "n1" "e1" "r2" "d1" ASSIGNMENT_DESIRED_RUN INSTANCE_STATE_HEALTHY).
Definition new_failed : option Assignment.t :=
  Some (sample_assignment "a2" "n1" "e1" "r2" "d1" ASSIGNMENT_DESIRED_RUN INSTANCE_STATE_FAILED).
Definition new_stopped : option Assignment.t :=
  Some (sample_assignment "a2" "n1" "e1" "r2" "d2" ASSIGNMENT_DESIRED_STOP INSTANCE_STATE_STOPPED).

Notation promoting_run := (quiet_run (rolling_deployment DEPLOYMENT_PHASE_PROMOTING)
  (rolling false old_run new_healthy DEPLOYMENT_PHASE_PROMOTING)).
Notation health_run := (quiet_run (rolling_deployment DEPLOYMENT_PHASE_HEALTHCHECKING)
  (rolling false old_run new_healthy DEPLOYMENT_PHASE_HEALTHCHECKING)).
Notation failing_run := (quiet_run (rolling_deployment DEPLOYMENT_PHASE_STARTING)
  (rolling false old_run new_failed DEPLOYMENT_PHASE_STARTING)).
Notation stopping_run := (quiet_run (rolling_deployment DEPLOYMENT_PHASE_STOPPING_OLD)
  (rolling true old_down new_stopped DEPLOYMENT_PHASE_STOPPING_OLD)).

Definition phases_sent (w : World.t) : list DeploymentPhase :=
  omap (λ m, match m with Command_SetDeploymentPhase x => Some (x ⇝ SetDeploymentPhase.Phase) | _ => None end)
    (World.sent w).

Lemma deployment_phases_witness :
  health_run = Ret (run_world health_run, inl ())
  ∧ phases_sent (run_world health_run) = [DEPLOYMENT_PHASE_PROMOTING]
  ∧ (∀ l, phase_path DEPLOYMENT_PHASE_HEALTHCHECKING l → length l ≤ 7).
Proof.
  assert (health_run = Ret (run_world health_run, inl ())) as E1 by (vm_compute; reflexivity).
  split; [exact E1|]. split; [vm_compute; reflexivity|].
  exact (proj2 (deployment_phases canonical_range wellknown_times quiet_env 0 _ _ _ _ E1)).
Defined.

Lemma promotion_is_gated_witness :
  promoting_run = Ret (run_world promoting_run, inl ())
  ∧ phases_sent (run_world promoting_run) = [DEPLOYMENT_PHASE_DRAINING_OLD]
  ∧ ∃ ms, World.sent (run_world promoting_run) = ms
      ∧ ∀ x, Command_PromoteRelease x ∈ ms → x ⇝ PromoteRelease.ReleaseId = "r2".
Proof.
  assert (promoting_run = Ret (run_world promoting_run, inl ())) as E1 by (vm_compute; reflexivity).
  split; [exact E1|]. split; [vm_compute; reflexivity|].
  destruct (promotion_is_gated canonical_range wellknown_times quiet_env 0 _ _ _ _ E1) as (ms & Hs & H & _).
  exists ms. split; [exact Hs|]. intros x Hx. exact (proj2 (proj2 (H x Hx))).
Defined.

Lemma deployment_blast_radius_witness :
  failing_run = Ret (run_world failing_run, inl ())
  ∧ phases_sent (run_world failing_run) = [DEPLOYMENT_PHASE_FAILED]
  ∧ running "e1" (World.store (run_world failing_run)) = ["a1"]
  ∧ ∃ ms, World.sent (run_world failing_run) = ms
      ∧ ∀ x, Command_DeleteAssignments x ∈ ms → x ⇝ DeleteAssignments.AssignmentIds = ["a2"].
Proof.
  assert (failing_run = Ret (run_world failing_run, inl ())) as E1 by (vm_compute; reflexivity).
  split; [exact E1|]. split; [vm_compute; reflexivity|]. split; [vm_compute; reflexivity|].
  destruct (deployment_blast_radius canonical_range wellknown_times quiet_env 0 _ _ _ _ E1) as (ms & Hs & H & _).
  exists ms. split; [exact Hs|]. intros x Hx. rewrite (proj1 (H x Hx)). vm_compute. reflexivity.
Defined.

Lemma stateful_stop_then_start_witness :
  stopping_run = Ret (run_world stopping_run, inl ())
  ∧ phases_sent (run_world stopping_run) = [DEPLOYMENT_PHASE_STARTING]
  ∧ ∃ ms, World.sent (run_world stopping_run) = ms
      ∧ ∀ x, Command_SetDeploymentPhase x ∈ ms → x ⇝ SetDeploymentPhase.Phase = DEPLOYMENT_PHASE_STARTING →
          old_stopped (RO := canonical_range) (rolling true old_down new_stopped DEPLOYMENT_PHASE_STOPPING_OLD)
            (rolling_deployment DEPLOYMENT_PHASE_STOPPING_OLD).
Proof.
  assert (stopping_run = Ret (run_world stopping_run, inl ())) as E1 by (vm_compute; reflexivity).
  split; [exact E1|]. split; [vm_compute; reflexivity|].
  destruct (stateful_stop_then_start canonical_range wellknown_times quiet_env 0 _ _ _ _ E1) as (ms & Hs & H & _);
    [intros rel Hrel; vm_compute in Hrel; injection Hrel as <-; reflexivity|].
  exists ms. split; [exact Hs|]. intros x Hx Hq. exact (H x eq_refl Hx Hq).
Defined.
