(* ===== verification/Scheduler.v ===== *)
(** The scheduler's placement pass (internal/daemon/scheduler/scheduler.go,
    teardown.go and drain.go): [evaluateEnv] converges one environment to its replica
    count, [reconcileOrphans] reaps what lost its environment or release, and
    [reconcileDrains] empties draining nodes. *)
From stdpp Require Import pretty.
From S2P Require Import Prelude Api Watch State StateInv StoreProps Fsm FsmProps Samples Platform Placement Leader Orchestrator.

Module Sched.
Section scheduler.
Context {RO : RangeOrder} {TL : TimestampLib} {E : Env}.

Definition sapply : Mutation → M () := apply "system:scheduler".

Definition emitEvent (env : option Environment.t) (kind severity msg : string) : M () :=
  id ← New;
  now ← Now;
  ignore (sapply (Command_AppendEvents (Some (AppendEvents.mk [Some
    (Event.mk (Some (Meta.mk id (Some (timestamppb_New now)) None)) kind severity (env ⇝ Environment.ProjectId)
      (env ⇝ Environment.AppId) (GetId env) "" msg ∅)])))).

Definition deploymentOwnsEnv (st : Store.t) (env : option Environment.t) : bool :=
  existsb (λ d, negb (isTerminalPhase (d ⇝ Deployment.Phase))) (Store.ListDeployments (GetId env) st).

(** [for _, id := range stopIDs { if a, ok := st.Assignment(id); ok && ... }] *)
Definition to_stop (st : Store.t) (stopIDs : list string) : list (option Assignment.t) :=
  List.filter (λ a, negb (bool_decide (a ⇝ Assignment.Desired = ASSIGNMENT_DESIRED_STOP)))
    (omap (λ id, Store.Assignment id st) stopIDs).

Definition applyBatch (envID : string) (puts : list (option Assignment.t)) (stopIDs deleteIDs : list string) : M () :=
  st ← read;
  flips ← map_each (to_stop st stopIDs) (with_desired ASSIGNMENT_DESIRED_STOP);
  let puts := puts ++ flips in
  match puts with [] => mret () | _ => sapply (putAssignments puts) end;;
  match deleteIDs with
  | [] => mret ()
  | _ => sapply (Command_DeleteAssignments (Some (DeleteAssignments.mk deleteIDs)))
  end.

(** ** One environment *)

(** What the partition loop of evaluateEnv decides for one assignment. *)
Inductive class := Good | Stop | Delete | Leave.

Definition classify (st : Store.t) (env : option Environment.t) (rel : option Release.t) (a : option Assignment.t) :
    class :=
  let relID := env ⇝ Environment.ActiveReleaseId in
  if negb (a ⇝ Assignment.JobId =? "") then Leave
  else match a ⇝ Assignment.Desired with
  | ASSIGNMENT_DESIRED_STOP => if isStopped a then Delete else Leave
  | ASSIGNMENT_DESIRED_RUN =>
    if (relID =? "") || negb (a ⇝ Assignment.ReleaseId =? relID) then Stop
    else if nodeDown st (a ⇝ Assignment.NodeId) then
      if nodeDraining st (a ⇝ Assignment.NodeId) then Leave
      else if isStateful rel then Good
      else Delete
    else Good
  | _ => Leave
  end.

#[global] Instance class_eq_dec : EqDecision class.
Proof. solve_decision. Defined.

Definition of_class (st : Store.t) (env : option Environment.t) (rel : option Release.t) (c : class) :
    list (option Assignment.t) :=
  List.filter (λ a, bool_decide (classify st env rel a = c)) (Store.ListAssignments (GetId env) st).

(** The newest excess replicas. *)
Definition excess_of (good : list (option Assignment.t)) (desired : Z) : list (option Assignment.t) :=
  let excess := (Z.of_nat (length good) - desired)%Z in
  if (0 <? excess)%Z
  then drop (Z.to_nat (Z.of_nat (length good) - excess)) (sort_slice (key_less GetId) good)
  else [].

(** Scaling up: the new assignments. *)
Definition scale_up (st : Store.t) (env : option Environment.t) (rel : option Release.t) (missing : Z) :
    M (list Assignment.t) :=
  if (0 <? missing)%Z && negb (bool_decide (rel = None)) then
    let '(nodes, err) := Place st rel (GetId env) missing ∅ in
    puts ← map_each nodes (newAssignment env rel);
    match err with
    | Some e => emitEvent env "schedule.no_capacity" "warning" (place_error_string e)
    | None => mret ()
    end;;
    mret puts
  else mret [].

(** The release to place: none when the environment has no active one; [None] when
    the active one vanished. *)
Definition active_release (st : Store.t) (env : option Environment.t) : option (option Release.t) :=
  if env ⇝ Environment.ActiveReleaseId =? "" then Some None
  else Store.Release (env ⇝ Environment.ActiveReleaseId) st.

Definition evaluateEnv (env : option Environment.t) : M () :=
  st ← read;
  if deploymentOwnsEnv st env then mret ()
  else
    match active_release st env with
    | None => mret ()
    | Some rel =>
      let desired := desiredReplicas env in
      let good := of_class st env rel Good in
      puts ← scale_up st env rel (desired - Z.of_nat (length good));
      applyBatch (GetId env) (Some <$> puts)
        (GetId <$> of_class st env rel Stop ++ excess_of good desired)
        (GetId <$> of_class st env rel Delete)
    end.

(** ** Orphans *)

Definition isOrphan (st : Store.t) (a : option Assignment.t) : bool :=
  match Store.Environment (a ⇝ Assignment.EnvironmentId) st with
  | None => true
  | Some _ =>
    if a ⇝ Assignment.ReleaseId =? "" then false
    else match Store.Release (a ⇝ Assignment.ReleaseId) st with None => true | Some _ => false end
  end.

Definition is_stop (a : option Assignment.t) : bool :=
  bool_decide (a ⇝ Assignment.Desired = ASSIGNMENT_DESIRED_STOP).

Definition reconcileOrphans : M () :=
  st ← read;
  let orphans := List.filter (isOrphan st) (Store.ListAssignments "" st) in
  let stopIDs := GetId <$> List.filter is_run orphans in
  let deleteIDs := GetId <$> List.filter (λ a, is_stop a && isStopped a) orphans in
  match stopIDs, deleteIDs with
  | [], [] => mret ()
  | _, _ => applyBatch "orphans" [] stopIDs deleteIDs
  end.

(** ** Draining nodes *)

Definition is_replacement (a o : option Assignment.t) : bool :=
  negb (o ⇝ Assignment.NodeId =? a ⇝ Assignment.NodeId)
  && (o ⇝ Assignment.ReleaseId =? a ⇝ Assignment.ReleaseId)
  && is_run o && is_up o.

Definition replacementReady (st : Store.t) (a : option Assignment.t) : bool :=
  match Store.Environment (a ⇝ Assignment.EnvironmentId) st with
  | None => true
  | Some env =>
    let want := desiredReplicas env in
    if (want =? 0)%Z then true
    else (want <=? Z.of_nat (length (List.filter (is_replacement a)
           (Store.ListAssignments (a ⇝ Assignment.EnvironmentId) st))))%Z
  end.

Definition setNodeStatus (nodeID : string) (status : NodeStatus) : M () :=
  sapply (Command_SetNodeStatus (Some (SetNodeStatus.mk nodeID status None false false))).

Definition emitNodeEvent (nodeID kind msg : string) : M () :=
  id ← New;
  now ← Now;
  ignore (sapply (Command_AppendEvents (Some (AppendEvents.mk [Some
    (Event.mk (Some (Meta.mk id (Some (timestamppb_New now)) None)) kind "warning" "" "" "" nodeID msg ∅)])))).

(** [rel, _ := st.Release(...)]: nil when it is gone. *)
Definition release_of (st : Store.t) (a : option Assignment.t) : option Release.t :=
  default None (Store.Release (a ⇝ Assignment.ReleaseId) st).

Definition occupies (a : option Assignment.t) : bool := is_run a || (is_stop a && negb (isStopped a)).

Definition drainNode (node : option Node.t) : M () :=
  st ← read;
  let nodeID := GetId node in
  let l := Store.ListAssignmentsByNode nodeID st in
  let stateful a := is_run a && isStateful (release_of st a) in
  let stopIDs := GetId <$> List.filter (λ a, stateful a || (is_run a && replacementReady st a)) l in
  let deleteIDs := GetId <$> List.filter (λ a, is_stop a && isStopped a) l in
  applyBatch ("drain:" +:+ nodeID) [] stopIDs deleteIDs;;
  match List.filter stateful l with
  | [] => mret ()
  | stopped => emitNodeEvent nodeID "node.drain.stateful_stopped"
      ("stopped " +:+ pretty (length stopped) +:+ " stateful service(s) on the draining node (volumes are pinned here)")
  end;;
  if existsb occupies l then mret () else setNodeStatus nodeID NODE_STATUS_DRAINED.

Definition reconcileDrains : M () :=
  st ← read;
  for_each (Store.ListNodes st) (λ node,
    if negb (bool_decide (node ⇝ Node.Status = NODE_STATUS_DRAINING)) then mret () else drainNode node).

End scheduler.
End Sched.
