(* ===== verification/SchedulerProps.v ===== *)
(** What a placement pass may touch, whatever happens to its proposals, and where it
    ends when they commit: the replica count is the desired one. *)
From stdpp Require Import pretty.
From S2P Require Import Prelude Api Watch State StateInv StoreProps Fsm FsmProps FsmSteps Samples Platform Placement Leader Orchestrator Control Scheduler.

Lemma elem_of_ListAssignments {RO : RangeOrder} {ROk : RangeOrderOk RO} env st a :
  a ∈ Store.ListAssignments env st ↔
    (env = "" ∨ a ⇝ Assignment.EnvironmentId = env) ∧ ∃ id, Store.assignments st !! id = Some a.
Proof.
  unfold Store.ListAssignments, Store.sortByID. rewrite sort_slice_perm, elem_of_Filter, elem_of_range_values.
  rewrite orb_true_iff, !str_eqb_eq. naive_solver.
Qed.

(** * applyBatch *)

Section batch.
Context {RO : RangeOrder} {TL : TimestampLib} {E : Env}.

(** A stored assignment, stopped. *)
Definition stopped_copy (ids : list string) (b : option Assignment.t) : Prop :=
  GetId b ∈ ids ∧ b ⇝ Assignment.Desired = ASSIGNMENT_DESIRED_STOP.

Definition batch_ok (puts : option Assignment.t → Prop) (stops deletes : list string) (m : Mutation) : Prop :=
  match m with
  | Command_PutAssignments x => Forall (λ a, puts a ∨ stopped_copy stops a) (x ⇝ PutAssignments.Assignments)
  | Command_DeleteAssignments x => x ⇝ DeleteAssignments.AssignmentIds = deletes ∧ deletes ≠ []
  | _ => False
  end.

Lemma applyBatch_emits envID puts stops deletes w :
  wf (World.store w) → emits_at (batch_ok (λ a, a ∈ puts) stops deletes) (Sched.applyBatch envID puts stops deletes) w.
Proof.
  intros Hw. unfold Sched.applyBatch. apply logs_bind_read.
  apply logs_bind_silent; [constructor|apply silent_map_each; auto with silent|]. intros w1 flips _ Hf%map_desired.
  assert (Forall (stopped_copy stops) flips) as Hflips.
  { apply Forall_forall. intros b [i Hb]%list_elem_of_lookup. destruct (Forall2_lookup_r _ _ _ _ _ Hf Hb) as (a & Ha & a' & -> & ->).
    apply list_elem_of_lookup_2, elem_of_Filter in Ha as [Ha _]. apply list_elem_of_omap in Ha as (id & Hid & Ha).
    apply (wf_assignments _ Hw) in Ha. split; [|done]. change (GetId _) with (GetId (Some a')). by rewrite Ha. }
  apply emits_bind.
  - destruct (puts ++ flips) eqn:Hp; [apply emits_silent, silent_ret|]. rewrite <- Hp.
    apply emits_apply. cbn [batch_ok putAssignments get PutAssignments.Assignments]. apply Forall_app_2.
    + apply Forall_forall. by left.
    + eapply Forall_impl; [exact Hflips|]. by right.
  - intros w2 _ _. destruct deletes; [apply emits_silent, silent_ret|]. by apply emits_apply.
Qed.
End batch.

(** * The blast radius of one environment *)

Section evaluate.
Context {RO : RangeOrder} {TL : TimestampLib} {E : Env} {OK : OthersOk E}.
Variables (st : Store.t) (env : option Environment.t) (rel : option Release.t).

Notation good := (Sched.of_class st env rel Sched.Good).
Notation desired := (desiredReplicas env).

Definition placed_put (a : option Assignment.t) : Prop :=
  ∃ b node, a = Some b ∧ new_replica env rel node b
    ∧ node ∈ (Place st rel (GetId env) (desired - Z.of_nat (length good)) ∅).1
    ∧ (0 < desired - Z.of_nat (length good))%Z.

Definition stops : list string :=
  GetId <$> Sched.of_class st env rel Sched.Stop ++ Sched.excess_of good desired.
Definition deletes : list string := GetId <$> Sched.of_class st env rel Sched.Delete.

Definition evaluate_ok (m : Mutation) : Prop :=
  batch_ok placed_put stops deletes m ∨ ∃ x, m = Command_AppendEvents x.

Lemma emits_event env' k sv msg P w :
  (∀ x, P (Command_AppendEvents x)) → emits_at P (Sched.emitEvent env' k sv msg) w.
Proof.
  intros HP. apply logs_bind_silent; [constructor|apply silent_tick|]. intros w1 id _ _.
  apply logs_bind_silent; [constructor|apply silent_tick|]. intros w2 now _ _.
  by apply emits_ignore, emits_apply.
Qed.

Lemma keeps_event env' k sv msg : keeps_wf (Sched.emitEvent env' k sv msg).
Proof.
  apply keeps_bind; [apply keeps_silent, silent_tick|]. intros id.
  apply keeps_bind; [apply keeps_silent, silent_tick|]. intros now. apply keeps_ignore, keeps_apply.
Qed.

(** Scaling up: only events are proposed, the state stays well formed, and the result
    is what Place chose. *)
Lemma scale_up_emits missing w : emits_at evaluate_ok (Sched.scale_up st env rel missing) w.
Proof.
  unfold Sched.scale_up. destruct (_ && _); [|apply emits_silent, silent_ret].
  destruct (Place _ _ _ _ _) as [nodes err].
  apply logs_bind_silent; [constructor|apply silent_map_each; auto with silent|]. intros w1 puts _ _.
  apply emits_bind; [|intros; apply emits_silent, silent_ret].
  destruct err; [|apply emits_silent, silent_ret]. apply emits_event. right. eauto.
Qed.

Lemma keeps_scale_up missing : keeps_wf (Sched.scale_up st env rel missing).
Proof.
  unfold Sched.scale_up. destruct (_ && _); [|apply keeps_silent, silent_ret].
  destruct (Place _ _ _ _ _) as [nodes err].
  apply keeps_bind; [apply keeps_silent, silent_map_each; auto with silent|]. intros puts.
  apply keeps_bind; [|intros; apply keeps_silent, silent_ret].
  destruct err; [apply keeps_event|apply keeps_silent, silent_ret].
Qed.

Lemma scale_up_result missing w w' puts :
  Sched.scale_up st env rel missing w = Ret (w', inl puts) →
  puts = [] ∨ (0 < missing)%Z ∧ Forall2 (new_replica env rel) (Place st rel (GetId env) missing ∅).1 puts.
Proof.
  unfold Sched.scale_up. destruct (_ && _) eqn:Hm; [|by intros [_ ->]%ret_inl; left].
  apply andb_prop in Hm as [Hm%Z.ltb_lt _]. destruct (Place _ _ _ _ _) as [nodes err].
  intros (w1 & l & Hl & H)%bind_inl. apply bind_inl in H as (w2 & [] & _ & [_ ->]%ret_inl).
  right. split; [done|]. by eapply map_new.
Qed.

Lemma evaluateEnv_emits w :
  World.store w = st → Sched.active_release st env = Some rel → Sched.deploymentOwnsEnv st env = false → wf st →
  emits_at evaluate_ok (Sched.evaluateEnv env) w.
Proof.
  intros Hst Hrel Hown Hwf. unfold Sched.evaluateEnv. apply logs_bind_read. rewrite Hst, Hown, Hrel. cbv zeta.
  set (missing := (desired - Z.of_nat (length good))%Z).
  apply emits_bind; [apply scale_up_emits|]. intros w1 puts Hp.
  eapply emits_at_mono; [|apply applyBatch_emits].
  - intros m Hm. left. unfold batch_ok in *. destruct m; try done. eapply Forall_impl; [exact Hm|]. cbn.
    intros a [Ha|Ha]; [left|by right]. apply list_elem_of_fmap in Ha as (b & -> & Hb).
    destruct (scale_up_result _ _ _ _ Hp) as [->|[Hpos Hf]]; [by apply elem_of_nil in Hb|].
    apply list_elem_of_lookup in Hb as [i Hb]. destruct (Forall2_lookup_r _ _ _ _ _ Hf Hb) as (node & Hn & Hnew).
    exists b, node. split_and!; try done. by eapply list_elem_of_lookup_2.
  - eapply keeps_scale_up; [|exact Hp]. by rewrite Hst.
Qed.
End evaluate.

(** * Counting assignments *)

Section count.
Variable q : option Assignment.t → bool.
Implicit Types m : gmap string (option Assignment.t).

Definition count_if (l : list (option Assignment.t)) : nat := length (List.filter q l).
Definition count m : nat := count_if (map_to_list m).*2.

Lemma count_if_perm l1 l2 : l1 ≡ₚ l2 → count_if l1 = count_if l2.
Proof. intros Hp. unfold count_if. by rewrite (Filter_perm q l1 l2 Hp). Qed.

Lemma count_if_cons a l : count_if (a :: l) = (if q a then 1 else 0) + count_if l.
Proof. unfold count_if. cbn. by destruct (q a). Qed.

Lemma count_if_const b l : (∀ a, a ∈ l → q a = b) → count_if l = if b then length l else 0.
Proof.
  induction l as [|a l IH]; intros Hl; [by destruct b|]. rewrite count_if_cons, IH, (Hl a); [by destruct b|left|].
  intros c Hc. apply Hl. by right.
Qed.

Lemma count_insert_new m k a : m !! k = None → count (<[k := a]> m) = (if q a then 1 else 0) + count m.
Proof. intros Hk. unfold count. rewrite (count_if_perm _ _ (fmap_Permutation snd _ _ (map_to_list_insert m k a Hk))). exact (count_if_cons a _). Qed.

Lemma count_delete m k a : m !! k = Some a → count m = (if q a then 1 else 0) + count (delete k m).
Proof. intros Hk. unfold count. rewrite <- (count_if_perm _ _ (fmap_Permutation snd _ _ (map_to_list_delete m k a Hk))). exact (count_if_cons a _). Qed.

(** Writing [a] over [a0]. *)
Lemma count_insert_old m k a a0 :
  m !! k = Some a0 → (if q a0 then 1 else 0) + count (<[k := a]> m) = (if q a then 1 else 0) + count m.
Proof.
  intros Hk. rewrite <- insert_delete_eq, count_insert_new by apply lookup_delete_eq. rewrite (count_delete m k a0 Hk). lia.
Qed.

Notation put_all := (foldl (λ m a, <[GetId a := a]> m)).

Lemma lookup_put_all (l : list (option Assignment.t)) m id : id ∉ GetId <$> l → put_all m l !! id = m !! id.
Proof.
  revert m. induction l as [|a l IH]; intros m Hid; cbn; [done|]. apply not_elem_of_cons in Hid as [Hne Hid].
  rewrite IH by done. by rewrite lookup_insert_ne.
Qed.

Lemma count_put_new (l : list (option Assignment.t)) m :
  NoDup (GetId <$> l) → (∀ a, a ∈ l → m !! GetId a = None ∧ q a = true) → count (put_all m l) = length l + count m.
Proof.
  revert m. induction l as [|a l IH]; intros m Hnd Hl; cbn; [done|]. apply NoDup_cons in Hnd as [Ha Hnd].
  destruct (Hl a) as [Hm Hq]; [left|]. rewrite IH; [|done|].
  - rewrite count_insert_new, Hq by done. lia.
  - intros b Hb. split; [|by apply Hl; right]. rewrite lookup_insert_ne; [by apply Hl; right|].
    intros Heq. apply Ha. rewrite Heq. by apply list_elem_of_fmap_2.
Qed.

Lemma count_put_old (f : option Assignment.t → option Assignment.t) l m :
  (∀ a, a ∈ l → GetId (f a) = GetId a ∧ m !! GetId a = Some a ∧ q (f a) = false) → NoDup (GetId <$> l) →
  count m = count_if l + count (put_all m (f <$> l)).
Proof.
  revert m. induction l as [|a l IH]; intros m Hl Hnd; [done|]. rewrite fmap_cons; cbn [foldl]. rewrite fmap_cons in Hnd. apply NoDup_cons in Hnd as [Ha Hnd].
  destruct (Hl a) as (Hid & Hm & Hq); [left|]. rewrite count_if_cons.
  pose proof (count_insert_old m (GetId (f a)) (f a) a) as Ho. rewrite Hid, Hq in Ho. specialize (Ho Hm). cbv iota in Ho. rewrite Nat.add_0_l in Ho.
  rewrite <- Hid in Ho. rewrite <- Ho, (IH (<[GetId (f a) := f a]> m)); [|intros b Hb|done]; [by rewrite Nat.add_assoc|].
  destruct (Hl b) as (H1 & H2 & H3); [by right|]. split_and!; try done. rewrite lookup_insert_ne; [done|].
  rewrite Hid. intros Heq. apply Ha. rewrite Heq. by apply list_elem_of_fmap_2.
Qed.

Lemma count_delete_all (l : list (option Assignment.t)) m :
  (∀ a, a ∈ l → m !! GetId a = Some a ∧ q a = false) → NoDup (GetId <$> l) →
  count (foldl (λ m id, delete id m) m (GetId <$> l)) = count m.
Proof.
  revert m. induction l as [|a l IH]; intros m Hl Hnd; cbn; [done|]. apply NoDup_cons in Hnd as [Ha Hnd].
  destruct (Hl a) as [Hm Hq]; [left|]. rewrite IH; [|intros b Hb|done].
  - rewrite (count_delete m (GetId a) a Hm), Hq. done.
  - destruct (Hl b) as [H1 H2]; [by right|]. split; [|done]. rewrite lookup_delete_ne; [done|].
    intros Heq. apply Ha. rewrite Heq. by apply list_elem_of_fmap_2.
Qed.
End count.

Notation put_all := (foldl (λ m a, <[GetId a := a]> m)).

(** The assignments of an environment that satisfy [p]. *)
Definition in_env (env : string) (p : option Assignment.t → bool) (a : option Assignment.t) : bool :=
  ((env =? "") || (a ⇝ Assignment.EnvironmentId =? env)) && p a.

Lemma count_ListAssignments {RO : RangeOrder} {ROk : RangeOrderOk RO} env p s :
  length (List.filter p (Store.ListAssignments env s)) = count (in_env env p) (Store.assignments s).
Proof.
  unfold Store.ListAssignments, Store.sortByID. rewrite (Filter_perm p _ _ (sort_slice_perm _ _)).
  unfold count. rewrite (count_if_perm _ _ (range_values (Store.assignments s))).
  - unfold count_if. f_equal. induction (range_values (Store.assignments s)) as [|a l IH]; cbn; [done|].
    unfold in_env at 1. destruct ((env =? "") || _); cbn; [destruct (p a); by rewrite IH|done].
  - unfold range_values. by rewrite range_perm.
Qed.

(** * A pass in a quiet environment *)

(** The ids to come are new, as request ids and as object ids. *)
Record fresh_ids {E : Env} (w : World.t) : Prop := {
  fresh_req : fresh_requests w;
  fresh_obj : ∀ n, World.tick w ≤ n → Store.assignments (World.store w) !! ids_New n = None
}.

Section converge.
Context {RO : RangeOrder} {ROk : RangeOrderOk RO} {TL : TimestampLib} {E : Env} {Q : Quiet E}.
Context (Hids : Inj (=) (=) ids_New).

Lemma bind_run {A B} (m : M A) (k : A → M B) w w1 a : m w = Ret (w1, inl a) → (m ≫= k) w = k a w1.
Proof. intros Hm. unfold mbind, M_bind. by rewrite Hm. Qed.

Lemma fresh_requests_later w w' :
  World.store w' = World.store w → World.tick w ≤ World.tick w' → fresh_requests w → fresh_requests w'.
Proof. intros Hs Ht Hf n Hn. rewrite Hs. apply Hf. lia. Qed.

Lemma quiet_event env k sv msg w :
  fresh_ids w → ∃ w', Sched.emitEvent env k sv msg w = Ret (w', inl ()) ∧ fresh_ids w'
    ∧ Store.assignments (World.store w') = Store.assignments (World.store w)
    ∧ frame_of (World.store w') = frame_of (World.store w).
Proof.
  intros [Hr Ho]. unfold Sched.emitEvent, New, Now.
  set (w2 := World.mk (World.store w) (S (S (World.tick w))) (World.sent w)).
  assert (fresh_requests w2) as Hr2 by (eapply fresh_requests_later; [| |exact Hr]; cbn; lia || done).
  set (evs := [Some (Event.mk (Some (Meta.mk (ids_New (World.tick w))
    (Some (timestamppb_New (clock_Now (S (World.tick w))))) None)) k sv (env ⇝ Environment.ProjectId)
      (env ⇝ Environment.AppId) (GetId env) "" msg ∅)]).
  destruct (quiet_apply Hids "system:scheduler" (Command_AppendEvents (Some (AppendEvents.mk evs)))
    (Store.AppendEvents evs) w2) as (s1 & Hm & Ha & Hf); [|done|].
  { intros cmd s Hc. unfold FSM.apply. by rewrite Hc. }
  apply frame_marked in Hm as [Hm1 Hm2]. destruct (frame_AppendEvents evs s1) as [He1 He2].
  exists (World.mk (Store.AppendEvents evs s1) (S (World.tick w2)) (World.sent w2 ++ [Command_AppendEvents (Some (AppendEvents.mk evs))])).
  split; [|split; [split; [done|]|]].
  - transitivity (ignore (Sched.sapply (Command_AppendEvents (Some (AppendEvents.mk evs)))) w2); [reflexivity|].
    unfold ignore, Sched.sapply. by rewrite Ha.
  - intros n Hn. cbn [World.store World.tick] in *. rewrite He2, Hm2. apply Ho. cbn in Hn. lia.
  - cbn [World.store]. by rewrite He2, Hm2, He1, Hm1.
Qed.

(** New assignments have new ids. *)
Lemma quiet_new env rel l w :
  ∃ t ys, map_each l (newAssignment env rel) w = Ret (World.mk (World.store w) t (World.sent w), inl ys)
    ∧ World.tick w ≤ t ∧ Forall2 (new_replica env rel) l ys
    ∧ NoDup ((λ a, GetId (Some a)) <$> ys)
    ∧ ∀ a, a ∈ ys → ∃ n, World.tick w ≤ n < t ∧ GetId (Some a) = ids_New n.
Proof.
  revert w. induction l as [|x l IH]; intros w; cbn [map_each].
  { exists (World.tick w), []. destruct w. split_and!; [done|done|constructor|constructor|by intros a ?%elem_of_nil]. }
  destruct (IH (World.mk (World.store w) (S (S (World.tick w))) (World.sent w))) as (t & ys & Hrun & Ht & Hf & Hnd & Hn).
  cbn [World.tick World.store World.sent] in *.
  set (a := Assignment.mk (Some (Meta.mk (ids_New (S (World.tick w)))
      (Some (timestamppb_New (clock_Now (World.tick w)))) (Some (timestamppb_New (clock_Now (World.tick w))))))
      x (env ⇝ Environment.ProjectId) (env ⇝ Environment.AppId)
      (GetId env) (GetId rel) "" ASSIGNMENT_DESIRED_RUN (rel ⇝ Release.ConfigHash) ∅ None "").
  assert (newAssignment env rel x w = Ret (World.mk (World.store w) (S (S (World.tick w))) (World.sent w), inl a)) as Ha
    by reflexivity.
  exists t, (a :: ys). split; [|split; [lia|split; [|split]]].
  - rewrite (bind_run _ _ _ _ _ Ha). erewrite bind_run; [|exact Hrun]. reflexivity.
  - constructor; [by split_and!|done].
  - cbn. constructor; [|done]. intros (b & Hb & Hin)%list_elem_of_fmap. destruct (Hn _ Hin) as (n & ? & Hid).
    rewrite <- Hb in Hid. change (ids_New (S (World.tick w)) = ids_New n) in Hid. apply (inj ids_New) in Hid. lia.
  - intros b [->|Hb]%elem_of_cons.
    + exists (S (World.tick w)). split; [lia|done].
    + destruct (Hn _ Hb) as (n & ? & ?). exists n. split; [lia|done].
Qed.

Definition with_desired_copy (v : AssignmentDesired) (a : option Assignment.t) : option Assignment.t :=
  match a with Some x => Some (x <| Assignment.Desired := v |>) | None => None end.

Lemma desired_run v l w :
  (∀ a, a ∈ l → a ≠ None) → map_each l (with_desired v) w = Ret (w, inl (with_desired_copy v <$> l)).
Proof.
  induction l as [|a l IH]; intros Hl; cbn [map_each]; [done|].
  destruct a as [a|]; [|by destruct (Hl None); [left|]].
  erewrite bind_run by reflexivity. erewrite bind_run; [|apply IH; intros b Hb; apply Hl; by right]. done.
Qed.

(** The two proposals of a batch. *)
Lemma quiet_puts l w :
  fresh_requests w → ∃ w', (match l with [] => mret () | _ => Sched.sapply (putAssignments l) end) w = Ret (w', inl ())
    ∧ fresh_requests w' ∧ frame_of (World.store w') = frame_of (World.store w)
    ∧ Store.assignments (World.store w') = put_all (Store.assignments (World.store w)) l.
Proof.
  intros Hr. destruct l as [|a l]; [by exists w|]. set (l' := a :: l).
  destruct (quiet_apply Hids "system:scheduler" (putAssignments l') (Store.PutAssignments l') w)
    as (s1 & Hm & Ha & Hf); [|done|].
  { intros cmd s Hc. unfold FSM.apply. by rewrite Hc. }
  eexists. split; [exact Ha|]. split; [done|]. apply frame_marked in Hm as [Hm1 Hm2]. cbn [World.store].
  destruct (frame_PutAssignments l' s1) as [H1 H2]. by rewrite H1, H2, Hm1, Hm2.
Qed.

Lemma quiet_deletes ids w :
  fresh_requests w →
  ∃ w', (match ids with [] => mret () | _ => Sched.sapply (Command_DeleteAssignments (Some (DeleteAssignments.mk ids))) end) w
        = Ret (w', inl ())
    ∧ fresh_requests w' ∧ frame_of (World.store w') = frame_of (World.store w)
    ∧ Store.assignments (World.store w') = foldl (λ m id, delete id m) (Store.assignments (World.store w)) ids.
Proof.
  intros Hr. destruct ids as [|id ids]; [by exists w|]. set (l' := id :: ids).
  destruct (quiet_apply Hids "system:scheduler" (Command_DeleteAssignments (Some (DeleteAssignments.mk l')))
    (Store.DeleteAssignments l') w) as (s1 & Hm & Ha & Hf); [|done|].
  { intros cmd s Hc. unfold FSM.apply. by rewrite Hc. }
  eexists. split; [exact Ha|]. split; [done|]. apply frame_marked in Hm as [Hm1 Hm2]. cbn [World.store].
  destruct (frame_DeleteAssignments l' s1) as [H1 H2]. by rewrite H1, H2, Hm1, Hm2.
Qed.
End converge.

(** ** The assignments of a pass *)

Section pass.
Context {RO : RangeOrder} {ROk : RangeOrderOk RO}.
Variables (st : Store.t) (env : option Environment.t) (rel : option Release.t).
Hypothesis Hwf : wf st.
Hypothesis Hrel : Sched.active_release st env = Some rel.

Notation m := (Store.assignments st).
Notation good := (Sched.of_class st env rel Sched.Good).
Notation desired := (desiredReplicas env).
Notation excess := (Sched.excess_of good desired).
Notation missing := (desired - Z.of_nat (length good))%Z.

Definition is_good (s : Store.t) : option Assignment.t → bool :=
  in_env (GetId env) (λ a, bool_decide (Sched.classify s env rel a = Sched.Good)).

Lemma elem_of_class c a :
  a ∈ Sched.of_class st env rel c ↔ a ∈ Store.ListAssignments (GetId env) st ∧ Sched.classify st env rel a = c.
Proof. unfold Sched.of_class. by rewrite elem_of_Filter, bool_decide_eq_true. Qed.

Lemma class_stored c a : a ∈ Sched.of_class st env rel c → m !! GetId a = Some a.
Proof.
  intros [[_ [id Ha]]%elem_of_ListAssignments _]%elem_of_class. by rewrite (wf_assignments _ Hwf _ _ Ha).
Qed.

Lemma NoDup_class c : NoDup (GetId <$> Sched.of_class st env rel c).
Proof.
  apply NoDup_fmap_filter. unfold Store.ListAssignments, Store.sortByID. rewrite sort_slice_perm.
  apply NoDup_fmap_filter, NoDup_ids_range; [done|apply wf_assignments, Hwf].
Qed.

Lemma elem_of_excess a : a ∈ excess → a ∈ good.
Proof.
  unfold Sched.excess_of. cbv zeta. destruct (_ <? _)%Z; [|by intros ?%elem_of_nil].
  intros [i Ha]%list_elem_of_lookup. rewrite lookup_drop in Ha. by apply list_elem_of_lookup_2, elem_of_sort_slice in Ha.
Qed.

Lemma length_excess : (0 ≤ desired)%Z → Z.of_nat (length excess) = Z.max 0 (Z.of_nat (length good) - desired).
Proof.
  intros Hd. unfold Sched.excess_of. cbv zeta. destruct (Z.ltb_spec 0 (Z.of_nat (length good) - desired)); [|cbn; lia].
  rewrite length_drop, (Permutation_length (sort_slice_perm _ good)). lia.
Qed.

(** What the classes mean. *)
Lemma classify_run c a :
  Sched.classify st env rel a = c → c = Sched.Good ∨ c = Sched.Stop →
  a ⇝ Assignment.Desired = ASSIGNMENT_DESIRED_RUN ∧ a ⇝ Assignment.JobId = "".
Proof.
  unfold Sched.classify. destruct (a ⇝ Assignment.JobId =? "") eqn:Hj; [apply str_eqb_eq in Hj|]; cbn [negb];
    [|intros <- [?|?]; done].
  destruct (a ⇝ Assignment.Desired); intros H Hc; try done.
  all: repeat case_match; subst c; by destruct Hc.
Qed.

Lemma stop_or_excess a :
  a ∈ Sched.of_class st env rel Sched.Stop ++ excess →
  m !! GetId a = Some a ∧ a ⇝ Assignment.Desired = ASSIGNMENT_DESIRED_RUN ∧ a ∈ Store.ListAssignments (GetId env) st
  ∧ (Sched.classify st env rel a = Sched.Stop ∨ Sched.classify st env rel a = Sched.Good).
Proof.
  intros [Ha|Ha%elem_of_excess]%elem_of_app; pose proof (class_stored _ _ Ha) as Hm;
    apply elem_of_class in Ha as [Hl Hc]; destruct (classify_run _ _ Hc) as [Hd _]; auto.
Qed.

Lemma NoDup_stops : NoDup (stops st env rel).
Proof.
  unfold stops. rewrite fmap_app. apply NoDup_app. split; [apply NoDup_class|]. split.
  - intros id (a & -> & Ha)%list_elem_of_fmap (b & Hid & Hb)%list_elem_of_fmap.
    apply elem_of_excess in Hb. pose proof (class_stored _ _ Ha) as H1. pose proof (class_stored _ _ Hb) as H2.
    rewrite Hid, H2 in H1. injection H1 as ->. apply elem_of_class in Ha as [_ Ha], Hb as [_ Hb]. congruence.
  - unfold Sched.excess_of. cbv zeta. destruct (_ <? _)%Z; [|constructor].
    rewrite fmap_drop. eapply sublist_NoDup; [|apply sublist_drop]. rewrite sort_slice_perm. apply NoDup_class.
Qed.

(** Only stopped copies are bad. *)
Lemma stopped_not_good s a : is_good s (with_desired_copy ASSIGNMENT_DESIRED_STOP a) = false.
Proof.
  unfold is_good, in_env. apply andb_false_intro2, bool_decide_eq_false. destruct a as [a|]; [|done].
  cbn [with_desired_copy]. unfold Sched.classify. destruct (negb _); [done|].
  change (Some (a <| Assignment.Desired := ASSIGNMENT_DESIRED_STOP |>) ⇝ Assignment.Desired) with ASSIGNMENT_DESIRED_STOP.
  cbv iota. by destruct (isStopped _).
Qed.

(** The re-read of applyBatch finds what the partition saw. *)
Lemma to_stop_all s1 :
  Store.assignments s1 = m →
  Sched.to_stop s1 (stops st env rel) = Sched.of_class st env rel Sched.Stop ++ excess.
Proof.
  intros Hs. unfold stops, Sched.to_stop. set (l := _ ++ _).
  assert (∀ a, a ∈ l → m !! GetId a = Some a ∧ a ⇝ Assignment.Desired = ASSIGNMENT_DESIRED_RUN) as Hl.
  { intros a Ha. destruct (stop_or_excess a Ha) as (H1 & H2 & _). done. }
  clearbody l. induction l as [|a l IH]; [done|]. rewrite fmap_cons. cbn [omap list_omap].
  destruct (Hl a) as [Ha Hd]; [left|]. unfold Store.Assignment at 1. rewrite Hs, Ha. cbn [List.filter].
  rewrite Hd. rewrite bool_decide_eq_false_2 by done. cbn [negb]. f_equal. apply IH. intros b Hb. apply Hl. by right.
Qed.

(** The release that is placed. *)
Lemma missing_release : (0 < missing)%Z → rel ≠ None ∧ GetId rel = env ⇝ Environment.ActiveReleaseId
  ∧ env ⇝ Environment.ActiveReleaseId ≠ "".
Proof.
  intros Hm. unfold Sched.active_release in Hrel. unfold desiredReplicas in Hm.
  destruct (env ⇝ Environment.ActiveReleaseId =? "") eqn:He; [lia|]. apply str_eqb_neq in He.
  unfold Store.Release in Hrel. pose proof (wf_releases _ Hwf _ _ Hrel) as Hid.
  split; [|done]. intros ->. by rewrite <- Hid in He.
Qed.

(** What is deleted. *)
Lemma classify_delete a :
  Sched.classify st env rel a = Sched.Delete →
  a ⇝ Assignment.JobId = ""
  ∧ (a ⇝ Assignment.Desired = ASSIGNMENT_DESIRED_STOP ∧ obs_state a = INSTANCE_STATE_STOPPED
     ∨ nodeDown st (a ⇝ Assignment.NodeId) = true ∧ nodeDraining st (a ⇝ Assignment.NodeId) = false).
Proof.
  unfold Sched.classify. destruct (a ⇝ Assignment.JobId =? "") eqn:Hj; [apply str_eqb_eq in Hj|done]. cbn [negb].
  intros H. split; [done|]. revert H. destruct (a ⇝ Assignment.Desired); try done.
  - destruct (_ || _); [done|]. destruct (nodeDown _ _); [|done]. destruct (nodeDraining _ _); [done|].
    destruct (isStateful rel); [done|]. by right.
  - destruct (isStopped a) eqn:Hs; [|done]. left. split; [done|]. by apply bool_decide_eq_true in Hs.
Qed.

(** Place only picks nodes that are up. *)
Lemma placed_node_up node n : node ∈ (Place st rel (GetId env) n ∅).1 → nodeDown st node = false.
Proof.
  intros Hn. destruct (Z.leb_spec n 0) as [Hn0|Hn0].
  { unfold Place in Hn. rewrite (proj2 (Z.leb_le n 0) Hn0) in Hn. by apply elem_of_nil in Hn. }
  destruct (Place st rel (GetId env) n ∅) as [l e] eqn:HP. destruct (Place_eq _ _ _ _ _ _ _ Hn0 HP) as [-> _].
  destruct (placed_loop_inv st rel (GetId env) n ∅) as [[_ _ Hp] _].
  destruct (Hp _ Hn) as (nd & [[i Hi]%elem_of_ListNodes Hj]%elem_of_candidates & Hid').
  pose proof (wf_nodes _ Hwf _ _ Hi) as Hk. apply judge_candidate in Hj as (_ & Hal & _).
  unfold nodeDown, Store.Node. rewrite Hid' in Hk. rewrite Hk, Hi, Hal. done.
Qed.

(** A new replica on a placed node is good. *)
Lemma new_is_good node a n :
  (0 < missing)%Z → node ∈ (Place st rel (GetId env) n ∅).1 → new_replica env rel node a → is_good st (Some a) = true.
Proof.
  intros Hm Hn (H1 & H2 & H3 & H4 & H5 & _). destruct (missing_release Hm) as (_ & Hid & Hne).
  unfold is_good, in_env. cbn [get]. rewrite H2. apply andb_true_intro. split.
  { apply orb_true_intro. right. by apply str_eqb_eq. }
  apply bool_decide_eq_true. unfold Sched.classify. cbn [get]. rewrite H5, H4, H3, Hid, H1. cbn [negb].
  assert (∀ x, (x =? x) = true) as Heq by (intros x; by apply str_eqb_eq).
  rewrite (proj2 (str_eqb_neq _ _) Hne), !Heq. cbn [negb orb].
  by rewrite (placed_node_up node n Hn).
Qed.
End pass.

(** ** The pass, run *)

Section run.
Context {RO : RangeOrder} {ROk : RangeOrderOk RO} {TL : TimestampLib} {E : Env} {Q : Quiet E}.
Context (Hids : Inj (=) (=) ids_New).
Variables (env : option Environment.t) (rel : option Release.t) (w : World.t).
Hypothesis Hwf : wf (World.store w).
Hypothesis Hrel : Sched.active_release (World.store w) env = Some rel.
Hypothesis Hfresh : fresh_ids w.

Notation st := (World.store w).
Notation m := (Store.assignments st).
Notation good := (Sched.of_class st env rel Sched.Good).
Notation desired := (desiredReplicas env).
Notation missing := (desired - Z.of_nat (length good))%Z.
Notation picks := (Place st rel (GetId env) missing ∅).
Notation excess := (Sched.excess_of good desired).

Definition count_new : nat := if (0 <? missing)%Z then length picks.1 else 0.

Lemma scale_up_run :
  ∃ w1 puts, Sched.scale_up st env rel missing w = Ret (w1, inl puts)
    ∧ fresh_requests w1 ∧ Store.assignments (World.store w1) = m ∧ frame_of (World.store w1) = frame_of st
    ∧ length puts = count_new ∧ NoDup (GetId <$> (Some <$> puts))
    ∧ ∀ a, a ∈ Some <$> puts → m !! GetId a = None ∧ is_good env rel st a = true.
Proof.
  unfold Sched.scale_up, count_new. destruct (Z.ltb_spec 0 missing) as [Hm|Hm]; cbn [andb].
  2: { exists w, []. split_and!; try done; [apply Hfresh|constructor|by intros a ?%elem_of_nil]. }
  destruct (missing_release st env rel Hwf Hrel Hm) as (Hne & _). rewrite bool_decide_eq_false_2 by done. cbn [negb].
  destruct picks as [nodes err] eqn:HP.
  destruct (quiet_new Hids env rel nodes w) as (t & puts & Hrun & Ht & Hf & Hnd & Hid).
  rewrite (bind_run _ _ _ _ _ Hrun). set (w1 := World.mk st t (World.sent w)).
  assert (fresh_ids w1) as Hf1.
  { destruct Hfresh as [Hr Ho]. split; [apply (fresh_requests_later w); [done|exact Ht|exact Hr]|]. intros n Hn. apply Ho. cbn in Hn. lia. }
  assert (∃ w2, (match err with Some e => Sched.emitEvent env "schedule.no_capacity" "warning" (place_error_string e)
      | None => mret () end) w1 = Ret (w2, inl ()) ∧ fresh_ids w2
      ∧ Store.assignments (World.store w2) = m ∧ frame_of (World.store w2) = frame_of st) as (w2 & Hrun2 & Hf2 & Ha & Hfr).
  { destruct err; [exact (quiet_event Hids env _ _ _ w1 Hf1)|by exists w1]. }
  rewrite (bind_run _ _ _ _ _ Hrun2). exists w2, puts. cbn [fst]. split; [done|]. split; [apply Hf2|]. split; [done|].
  split; [done|]. split; [symmetry; by apply Forall2_length in Hf|]. split; [by rewrite <- list_fmap_compose|].
  intros a (b & -> & Hb)%list_elem_of_fmap. split.
  - destruct (Hid _ Hb) as (n & ? & ->). apply Hfresh. lia.
  - apply list_elem_of_lookup in Hb as [i Hb]. destruct (Forall2_lookup_r _ _ _ _ _ Hf Hb) as (node & Hn & Hnew).
    eapply new_is_good; [done|done|exact Hm| |exact Hnew]. rewrite HP. by eapply list_elem_of_lookup_2.
Qed.

Lemma count_stopped : (0 ≤ desired)%Z →
  Z.of_nat (count_if (is_good env rel st) (Sched.of_class st env rel Sched.Stop ++ excess))
    = Z.max 0 (Z.of_nat (length good) - desired).
Proof.
  intros Hd. rewrite <- length_excess by done. unfold count_if. rewrite List.filter_app, length_app.
  assert (∀ c a, a ∈ Sched.of_class st env rel c → is_good env rel st a = bool_decide (c = Sched.Good)) as Hc.
  { intros c a [Hl Hc]%elem_of_class. unfold is_good, in_env. rewrite Hc. apply elem_of_ListAssignments in Hl as [Hl _].
    rewrite <- !str_eqb_eq in Hl. by rewrite (proj2 (orb_true_iff _ _) Hl). }
  fold (count_if (is_good env rel st) (Sched.of_class st env rel Sched.Stop)) (count_if (is_good env rel st) excess).
  rewrite (count_if_const _ false), (count_if_const _ true); [done| |].
  - intros a Ha%elem_of_excess. by rewrite (Hc Sched.Good).
  - intros a Ha. by rewrite (Hc Sched.Stop).
Qed.

Lemma classify_frame s1 a : frame_of s1 = frame_of st → Sched.classify s1 env rel a = Sched.classify st env rel a.
Proof.
  intros [= _ _ _ Hn _ _ _ _]. unfold Sched.classify, nodeDown, nodeDraining, Store.Node. by rewrite Hn.
Qed.

Lemma evaluateEnv_run :
  Sched.deploymentOwnsEnv st env = false → (0 ≤ desired)%Z →
  ∃ w', Sched.evaluateEnv env w = Ret (w', inl ())
    ∧ Z.of_nat (length (Sched.of_class (World.store w') env rel Sched.Good))
      = if (0 <? missing)%Z then (Z.of_nat (length good) + Z.of_nat (length picks.1))%Z else desired.
Proof.
  intros Hown Hd. destruct scale_up_run as (w1 & puts & Hrun & Hf1 & Ha1 & Hfr1 & Hlen & Hnd & Hnew).
  unfold Sched.evaluateEnv. erewrite bind_run by reflexivity. rewrite Hown, Hrel. cbv zeta.
  rewrite (bind_run _ _ _ _ _ Hrun). unfold Sched.applyBatch. erewrite bind_run by reflexivity.
  fold (stops st env rel) (deletes st env rel). rewrite to_stop_all by done.
  set (l0 := Sched.of_class st env rel Sched.Stop ++ excess) in *.
  assert (∀ a, a ∈ l0 → m !! GetId a = Some a ∧ a ⇝ Assignment.Desired = ASSIGNMENT_DESIRED_RUN) as Hl0.
  { intros a Ha. destruct (stop_or_excess st env rel Hwf a Ha) as (? & ? & _). done. }
  erewrite bind_run; [|apply desired_run; intros a Ha ->; by apply Hl0 in Ha as [_ ?]]. cbv zeta.
  set (flips := with_desired_copy ASSIGNMENT_DESIRED_STOP <$> l0).
  destruct (quiet_puts Hids ((Some <$> puts) ++ flips) w1 Hf1) as (w2 & Hrun2 & Hf2 & Hfr2 & Ha2).
  rewrite (bind_run _ _ _ _ _ Hrun2).
  destruct (quiet_deletes Hids (deletes st env rel) w2 Hf2) as (w3 & Hrun3 & Hf3 & Hfr3 & Ha3).
  exists w3. split; [exact Hrun3|].
  unfold Sched.of_class at 1. rewrite count_ListAssignments.
  assert (∀ q1 q2 mm, (∀ a, q1 a = q2 a) → count q1 mm = count q2 mm) as Hext.
  { intros q1 q2 mm Hq. unfold count, count_if. f_equal. by apply List.filter_ext. }
  rewrite (Hext _ (is_good env rel st)).
  2: { intros a. unfold is_good, in_env. rewrite classify_frame by congruence. done. }
  rewrite Ha3, Ha2, Ha1, foldl_app. set (q := is_good env rel st). set (m1 := put_all m (Some <$> puts)).
  assert (count q m = length good) as Hc0 by (unfold Sched.of_class; by rewrite count_ListAssignments).
  assert (count q m1 = count_new + length good) as Hc1.
  { unfold m1. rewrite (count_put_new q _ _ Hnd), length_fmap, Hc0, Hlen; [done|]. apply Hnew. }
  assert (∀ a, m !! GetId a = Some a → m1 !! GetId a = Some a) as Hkeep.
  { intros a Ha. unfold m1. rewrite lookup_put_all; [done|]. intros (b & Hid & Hb)%list_elem_of_fmap.
    rewrite Hid in Ha. destruct (Hnew b Hb) as [Hb' _]. congruence. }
  assert (∀ a, GetId (with_desired_copy ASSIGNMENT_DESIRED_STOP a) = GetId a) as Hidc by (by intros [a|]).
  assert (count q m1 = count_if q l0 + count q (put_all m1 flips)) as Hc2.
  { apply count_put_old; [|apply (NoDup_stops st env rel Hwf)]. intros a Ha. split_and!; [apply Hidc| |apply stopped_not_good].
    apply Hkeep. by apply Hl0. }
  unfold deletes. rewrite (count_delete_all q); [|intros a Ha|apply NoDup_class, Hwf].
  - pose proof (count_stopped Hd) as Hc3. fold l0 q in Hc3. unfold count_new in *.
    destruct (Z.ltb_spec 0 missing); lia.
  - pose proof (class_stored st env rel Hwf _ _ Ha) as Hs. split.
    + rewrite lookup_put_all; [by apply Hkeep|]. intros (b & Hid & Hb)%list_elem_of_fmap.
      apply list_elem_of_fmap in Hb as (c & -> & Hc). rewrite Hidc in Hid.
      destruct (stop_or_excess st env rel Hwf c Hc) as (Hcm & _ & _ & Hcl). rewrite <- Hid, Hs in Hcm. injection Hcm as <-.
      apply elem_of_class in Ha as [_ Ha]. destruct Hcl; congruence.
    + apply elem_of_class in Ha as [_ Ha]. unfold q, is_good, in_env. rewrite Ha. apply andb_false_r.
Qed.
End run.

(** * Draining *)

Section drain.
Context {RO : RangeOrder} {ROk : RangeOrderOk RO} {TL : TimestampLib} {E : Env}.
Variables (st : Store.t) (node : option Node.t).

Definition drain_ok (m : Mutation) : Prop :=
  match m with
  | Command_PutAssignments x =>
    ∀ b, b ∈ x ⇝ PutAssignments.Assignments → b ⇝ Assignment.Desired = ASSIGNMENT_DESIRED_STOP
      ∧ ∃ a, a ∈ Store.ListAssignmentsByNode (GetId node) st ∧ GetId a = GetId b ∧ is_run a = true
          ∧ (isStateful (Sched.release_of st a) = true ∨ Sched.replacementReady st a = true)
  | Command_DeleteAssignments x =>
    ∀ id, id ∈ x ⇝ DeleteAssignments.AssignmentIds →
      ∃ a, a ∈ Store.ListAssignmentsByNode (GetId node) st ∧ GetId a = id
        ∧ a ⇝ Assignment.Desired = ASSIGNMENT_DESIRED_STOP ∧ obs_state a = INSTANCE_STATE_STOPPED
  | Command_SetNodeStatus x =>
    x ⇝ SetNodeStatus.NodeId = GetId node ∧ x ⇝ SetNodeStatus.Status = NODE_STATUS_DRAINED
    ∧ ∀ a, a ∈ Store.ListAssignmentsByNode (GetId node) st →
        a ⇝ Assignment.Desired ≠ ASSIGNMENT_DESIRED_RUN
        ∧ (a ⇝ Assignment.Desired = ASSIGNMENT_DESIRED_STOP → obs_state a = INSTANCE_STATE_STOPPED)
  | Command_AppendEvents _ => True
  | _ => False
  end.

Lemma drainNode_emits w : World.store w = st → wf st → emits_at drain_ok (Sched.drainNode node) w.
Proof.
  intros Hst Hwf. unfold Sched.drainNode. apply logs_bind_read. rewrite Hst. cbv zeta.
  set (l := Store.ListAssignmentsByNode (GetId node) st). apply emits_bind; [|intros w1 _ _; apply emits_bind].
  - eapply emits_at_mono; [|apply applyBatch_emits; by rewrite Hst]. intros m Hm. destruct m; try done; cbn in Hm |- *.
    + intros b Hb. rewrite Forall_forall in Hm. destruct (Hm b Hb) as [?%elem_of_nil|[Hid Hd]]; [done|]. split; [done|].
      apply list_elem_of_fmap in Hid as (a & Hid & [Ha Hs]%elem_of_Filter). exists a.
      apply orb_prop in Hs as [[Hr Hs]%andb_prop|[Hr Hs]%andb_prop]; auto 6.
    + destruct Hm as [-> _]. intros id (a & -> & [Ha [Hs Hst']%andb_prop]%elem_of_Filter)%list_elem_of_fmap.
      exists a. apply bool_decide_eq_true in Hs, Hst'. auto.
  - destruct (List.filter _ l); [apply emits_silent, silent_ret|].
    apply logs_bind_silent; [constructor|apply silent_tick|]. intros w2 id _ _.
    apply logs_bind_silent; [constructor|apply silent_tick|]. intros w3 now _ _. by apply emits_ignore, emits_apply.
  - intros w2 _ _. destruct (existsb Sched.occupies l) eqn:Ho; [apply emits_silent, silent_ret|].
    apply emits_apply. cbn. split; [done|]. split; [done|]. intros a Ha.
    assert (Sched.occupies a = false) as Hoc.
    { apply not_true_is_false. intros Ht. enough (existsb Sched.occupies l = true) by congruence.
      apply existsb_exists. exists a. by rewrite <- list_elem_of_In. }
    unfold Sched.occupies in Hoc. apply orb_false_elim in Hoc as [H1 H2]. apply bool_decide_eq_false in H1. split; [done|].
    intros Hd. unfold Sched.is_stop in H2. rewrite bool_decide_eq_true_2 in H2 by done. cbn in H2.
    apply negb_false_iff in H2. by apply bool_decide_eq_true in H2.
Qed.
End drain.

(** * The theorems *)

(** The blast radius of a placement pass over one environment.  It does nothing
    while a deployment owns the environment; otherwise it only creates replicas of
    the active release on alive schedulable nodes, stops replicas of this environment
    that run another release or are in excess, and deletes those that have stopped or
    whose stateless replica's node is down.  Job runs are never touched. *)
Theorem scheduler_blast_radius (RO : RangeOrder) (ROk : RangeOrderOk RO) (TL : TimestampLib) (E : Env)
    (OK : OthersOk E) (env : option Environment.t) (w w' : World.t) (r : () + leader_error) :
  wf (World.store w) → Sched.evaluateEnv env w = Ret (w', r) →
  let st := World.store w in
  let mine a := a ∈ Store.ListAssignments (GetId env) st ∧ a ⇝ Assignment.JobId = "" in
  ∃ ms, World.sent w' = World.sent w ++ ms
    ∧ (Sched.deploymentOwnsEnv st env = true → ms = [])
    ∧ (∀ x b, Command_PutAssignments x ∈ ms → b ∈ x ⇝ PutAssignments.Assignments →
        (b ⇝ Assignment.Desired = ASSIGNMENT_DESIRED_RUN ∧ b ⇝ Assignment.EnvironmentId = GetId env
         ∧ b ⇝ Assignment.ReleaseId = env ⇝ Environment.ActiveReleaseId ∧ b ⇝ Assignment.JobId = ""
         ∧ nodeDown st (b ⇝ Assignment.NodeId) = false)
        ∨ (b ⇝ Assignment.Desired = ASSIGNMENT_DESIRED_STOP
           ∧ ∃ a, mine a ∧ GetId a = GetId b ∧ a ⇝ Assignment.Desired = ASSIGNMENT_DESIRED_RUN))
    ∧ (∀ x id, Command_DeleteAssignments x ∈ ms → id ∈ x ⇝ DeleteAssignments.AssignmentIds →
        ∃ a, mine a ∧ GetId a = id
          ∧ (a ⇝ Assignment.Desired = ASSIGNMENT_DESIRED_STOP ∧ obs_state a = INSTANCE_STATE_STOPPED
             ∨ nodeDown st (a ⇝ Assignment.NodeId) = true ∧ nodeDraining st (a ⇝ Assignment.NodeId) = false))
    ∧ ∀ m, m ∈ ms → match m with
        | Command_PutAssignments _ | Command_DeleteAssignments _ | Command_AppendEvents _ => True
        | _ => False
        end.
Proof.
  intros Hwf Hrun st mine.
  destruct (Sched.deploymentOwnsEnv st env) eqn:Hown.
  { unfold Sched.evaluateEnv in Hrun. erewrite bind_run in Hrun by reflexivity. fold st in Hrun. rewrite Hown in Hrun.
    injection Hrun as <- _. exists []. rewrite app_nil_r. split_and!; try done; intros *; by intros ?%elem_of_nil. }
  destruct (Sched.active_release st env) as [rel|] eqn:Hrel.
  2: { unfold Sched.evaluateEnv in Hrun. erewrite bind_run in Hrun by reflexivity. fold st in Hrun. rewrite Hown, Hrel in Hrun.
    injection Hrun as <- _. exists []. rewrite app_nil_r. split_and!; try done; intros *; by intros ?%elem_of_nil. }
  destruct (evaluateEnv_emits st env rel w eq_refl Hrel Hown Hwf _ _ Hrun) as (ms & Hs & Hms). rewrite Forall_forall in Hms.
  exists ms. split; [done|]. split; [done|]. split_and!.
  - intros x b Hx Hb. destruct (Hms _ Hx) as [Hb'|[? ?]]; [|done]. cbn in Hb'. rewrite Forall_forall in Hb'.
    destruct (Hb' b Hb) as [(c & node & -> & Hnew & Hn & Hm)|[Hid Hd]]; [left|right].
    + pose proof (new_is_good st env rel Hwf Hrel _ _ _ Hm Hn Hnew) as Hg. unfold is_good, in_env in Hg.
      apply andb_prop in Hg as [_ Hg%bool_decide_eq_true].
      destruct Hnew as (H1 & H2 & H3 & H4 & H5 & _). destruct (missing_release st env rel Hwf Hrel Hm) as (_ & Hid & Hne).
      cbn [get]. rewrite H3, Hid. split_and!; try done. rewrite H1.
      by apply (placed_node_up st env rel Hwf node _ Hn).
    + split; [done|]. unfold stops in Hid. apply list_elem_of_fmap in Hid as (a & Hid & Ha).
      destruct (stop_or_excess st env rel Hwf a Ha) as (_ & Hr & Hl & Hc). destruct (classify_run st env rel _ a eq_refl) as [_ Hj].
      { destruct Hc as [-> | ->]; auto. }
      exists a. by split.
  - intros x id Hx Hid. destruct (Hms _ Hx) as [[Hd _]|[? ?]]; [|done]. rewrite Hd in Hid.
    apply list_elem_of_fmap in Hid as (a & -> & [Hl Hc]%elem_of_class). exists a.
    destruct (classify_delete st env rel a Hc) as (Hj & H). by split.
  - intros m Hm. destruct (Hms _ Hm) as [Hb|[x ->]]; [|done]. by destruct m.
Qed.

(** C15: a placement pass converges.  When its proposals commit, the pass over an
    environment no deployment owns ends normally with exactly the desired number of
    good replicas (of the active release, on nodes that are up, or stateful), or, when
    placement runs short, with every replica that could be placed added. *)
Theorem scheduler_converges (RO : RangeOrder) (ROk : RangeOrderOk RO) (TL : TimestampLib) (E : Env) (Q : Quiet E)
    (Hids : Inj (=) (=) ids_New) (env : option Environment.t) (rel : option Release.t) (w : World.t) :
  wf (World.store w) → fresh_ids w → Sched.deploymentOwnsEnv (World.store w) env = false →
  Sched.active_release (World.store w) env = Some rel → (0 ≤ desiredReplicas env)%Z →
  let good s := Z.of_nat (length (Sched.of_class s env rel Sched.Good)) in
  let missing := (desiredReplicas env - good (World.store w))%Z in
  let '(picks, err) := Place (World.store w) rel (GetId env) missing ∅ in
  ∃ w', Sched.evaluateEnv env w = Ret (w', inl ())
    ∧ ((missing ≤ 0)%Z → good (World.store w') = desiredReplicas env)
    ∧ ((0 < missing)%Z → good (World.store w') = (good (World.store w) + Z.of_nat (length picks))%Z)
    ∧ (err = None → good (World.store w') = desiredReplicas env).
Proof.
  intros Hwf Hf Hown Hrel Hd. cbv zeta.
  set (good s := Z.of_nat (length (Sched.of_class s env rel Sched.Good))). set (st := World.store w) in *.
  destruct (evaluateEnv_run Hids env rel w Hwf Hrel Hf Hown Hd) as (w' & Hrun & Hg). fold st in Hg.
  change (good (World.store w') = if (0 <? desiredReplicas env - good st)%Z
    then (good st + Z.of_nat (length (Place st rel (GetId env) (desiredReplicas env - good st) ∅).1))%Z
    else desiredReplicas env) in Hg. clearbody good.
  destruct (Place st rel (GetId env) (desiredReplicas env - good st) ∅) as [picks err] eqn:HP. cbn [fst] in Hg.
  exists w'. split; [done|]. destruct (Z.ltb_spec 0 (desiredReplicas env - good st)) as [Hm|Hm].
  - split; [lia|]. split; [done|]. intros He. destruct (Place_eq _ _ _ _ _ _ _ Hm HP) as [_ Hl]. apply Hl in He. lia.
  - split; [done|]. split; [lia|done].
Qed.

(** C16: draining is graceful.  On a draining node a stateless replica is stopped only
    when its environment is gone or as many other assignments of its release as
    replicas are wanted run up on other nodes (a stateful one is stopped by design);
    assignments are deleted once reported stopped; and the node is marked DRAINED only
    when nothing on it runs or is still stopping. *)
Theorem drain_is_graceful (RO : RangeOrder) (ROk : RangeOrderOk RO) (TL : TimestampLib) (E : Env)
    (node : option Node.t) (w w' : World.t) (r : () + leader_error) :
  wf (World.store w) → Sched.drainNode node w = Ret (w', r) →
  let st := World.store w in
  let here a := a ∈ Store.ListAssignmentsByNode (GetId node) st in
  ∃ ms, World.sent w' = World.sent w ++ ms
    ∧ (∀ x b, Command_PutAssignments x ∈ ms → b ∈ x ⇝ PutAssignments.Assignments →
        b ⇝ Assignment.Desired = ASSIGNMENT_DESIRED_STOP
        ∧ ∃ a, here a ∧ GetId a = GetId b ∧ is_run a = true
            ∧ (isStateful (Sched.release_of st a) = true
               ∨ ∀ env, Store.Environment (a ⇝ Assignment.EnvironmentId) st = Some env →
                   (desiredReplicas env ≤ Z.of_nat (length (List.filter (Sched.is_replacement a)
                      (Store.ListAssignments (a ⇝ Assignment.EnvironmentId) st))))%Z))
    ∧ (∀ x id, Command_DeleteAssignments x ∈ ms → id ∈ x ⇝ DeleteAssignments.AssignmentIds →
        ∃ a, here a ∧ GetId a = id ∧ a ⇝ Assignment.Desired = ASSIGNMENT_DESIRED_STOP
          ∧ obs_state a = INSTANCE_STATE_STOPPED)
    ∧ (∀ x, Command_SetNodeStatus x ∈ ms →
        x ⇝ SetNodeStatus.NodeId = GetId node ∧ x ⇝ SetNodeStatus.Status = NODE_STATUS_DRAINED
        ∧ ∀ a, here a → a ⇝ Assignment.Desired ≠ ASSIGNMENT_DESIRED_RUN
            ∧ (a ⇝ Assignment.Desired = ASSIGNMENT_DESIRED_STOP → obs_state a = INSTANCE_STATE_STOPPED)).
Proof.
  intros Hwf Hrun st here.
  destruct (drainNode_emits st node w eq_refl Hwf _ _ Hrun) as (ms & Hs & Hms). rewrite Forall_forall in Hms.
  exists ms. split; [done|]. split_and!.
  - intros x b Hx Hb. destruct (Hms _ Hx b Hb) as (Hd & a & Ha & Hid & Hr & Hw). split; [done|].
    exists a. split_and!; try done. destruct Hw as [?|Hw]; [by left|right]. intros env He.
    unfold Sched.replacementReady in Hw. rewrite He in Hw.
    destruct (Z.eqb_spec (desiredReplicas env) 0) as [->|]; [lia|]. by apply Z.leb_le.
  - intros x id Hx Hid. exact (Hms _ Hx id Hid).
  - intros x Hx. exact (Hms _ Hx).
Qed.

(** Reaping touches only orphans: the assignments it stops or deletes have lost
    their environment or their release in the state read, those it stops were to run,
    and those it deletes were reported stopped. *)
Theorem only_orphans_are_reaped (RO : RangeOrder) (ROk : RangeOrderOk RO) (TL : TimestampLib) (E : Env)
    (w w' : World.t) (r : () + leader_error) :
  wf (World.store w) → Sched.reconcileOrphans w = Ret (w', r) →
  let st := World.store w in
  let orphan a := a ∈ Store.ListAssignments "" st
    ∧ (Store.Environment (a ⇝ Assignment.EnvironmentId) st = None
       ∨ a ⇝ Assignment.ReleaseId ≠ "" ∧ Store.Release (a ⇝ Assignment.ReleaseId) st = None) in
  ∃ ms, World.sent w' = World.sent w ++ ms
    ∧ ∀ m, m ∈ ms → match m with
      | Command_PutAssignments x => ∀ b, b ∈ x ⇝ PutAssignments.Assignments →
          b ⇝ Assignment.Desired = ASSIGNMENT_DESIRED_STOP
          ∧ ∃ a, orphan a ∧ GetId a = GetId b ∧ is_run a = true
      | Command_DeleteAssignments x => ∀ id, id ∈ x ⇝ DeleteAssignments.AssignmentIds →
          ∃ a, orphan a ∧ GetId a = id ∧ Sched.is_stop a = true ∧ isStopped a = true
      | _ => False
      end.
Proof.
  intros Hwf Hrun st orphan.
  assert (∀ a, a ∈ List.filter (Sched.isOrphan st) (Store.ListAssignments "" st) → orphan a) as Ho.
  { intros a [Ha Hi]%elem_of_Filter. split; [done|]. unfold Sched.isOrphan in Hi.
    destruct (Store.Environment _ st); [|by left]. right. destruct (_ =? "") eqn:Hr; [done|]. apply str_eqb_neq in Hr.
    by destruct (Store.Release _ st). }
  set (stops := GetId <$> List.filter is_run (List.filter (Sched.isOrphan st) (Store.ListAssignments "" st))).
  set (dels := GetId <$> List.filter (λ a, Sched.is_stop a && isStopped a)
    (List.filter (Sched.isOrphan st) (Store.ListAssignments "" st))).
  assert (emits_at (batch_ok (λ a, a ∈ []) stops dels) Sched.reconcileOrphans w) as He.
  { unfold Sched.reconcileOrphans. apply logs_bind_read. fold st. cbv zeta. fold stops dels.
    destruct stops eqn:H1; [destruct dels eqn:H2; [apply emits_silent, silent_ret|]|]; by apply applyBatch_emits. }
  destruct (He _ _ Hrun) as (ms & Hs & Hms). rewrite Forall_forall in Hms. exists ms. split; [done|].
  intros m Hm. specialize (Hms m Hm). destruct m; try done; cbn in Hms.
  - intros b Hb. rewrite Forall_forall in Hms. destruct (Hms b Hb) as [?%elem_of_nil|[Hid Hd]]; [done|]. split; [done|].
    apply list_elem_of_fmap in Hid as (a & Hid & [Ha Hr]%elem_of_Filter). exists a. split_and!; try done; by apply Ho.
  - destruct Hms as [-> _]. intros id (a & -> & [Ha [H1 H2]%andb_prop]%elem_of_Filter)%list_elem_of_fmap.
    exists a. split_and!; try done; by apply Ho.
Qed.

(** * Witnesses *)

(** Environment [e1] wants two replicas of [r1]; one runs on [n1]. *)
Definition two_nodes : Store.t :=
  Store.PutAssignments
    [Some (sample_assignment "a1" "n1" "e1" "r1" "" ASSIGNMENT_DESIRED_RUN INSTANCE_STATE_HEALTHY)]
  (Store.PutNode (Some (sample_node "n2" NODE_STATUS_ALIVE 4000 4096))
  (Store.PutNode (Some (sample_node "n1" NODE_STATUS_ALIVE 4000 4096))
  (Store.PutRelease (Some (sample_release "r1" "e1" 1 (sample_spec false 2 100 100)))
  (Store.PutEnvironment (Some (sample_env "e1" "r1" (sample_spec false 2 100 100))) Store.New)))).

Definition sample_e1 : option Environment.t := Some (sample_env "e1" "r1" (sample_spec false 2 100 100)).
Definition sample_r1 : option Release.t := Some (sample_release "r1" "e1" 1 (sample_spec false 2 100 100)).

Lemma wf_two_nodes : wf two_nodes.
Proof. unfold two_nodes. auto 10 with store_wf. Qed.

Lemma quiet_ids_inj : Inj (=) (=) (@ids_New quiet_env).
Proof. intros a b H. cbn in H. apply (inj (String.append "id")) in H. by apply (inj pretty) in H. Qed.

(** Ids of the quiet environment never clash with a store that has seen none. *)
Lemma quiet_fresh s :
  Store.appliedSet s = ∅ → (∀ n : nat, Store.assignments s !! ("id" +:+ pretty n) = None) →
  @fresh_ids quiet_env (World.mk s 0 []).
Proof. intros Ha Hn. split; [intros n _; split; [done|]|intros n _; apply Hn]. cbn. rewrite Ha. apply not_elem_of_empty. Qed.

Lemma sample_fresh : @fresh_ids quiet_env (World.mk two_nodes 0 []).
Proof.
  apply quiet_fresh; [reflexivity|]. intros n. unfold two_nodes.
  rewrite (proj2 (frame_PutAssignments _ _)). cbn [foldl]. rewrite lookup_insert_ne by discriminate. reflexivity.
Qed.

Notation quiet_pass s env :=
  (Sched.evaluateEnv (RO := canonical_range) (TL := wellknown_times) (E := quiet_env) env (World.mk s 0 [])).

Lemma scheduler_blast_radius_witness :
  ∃ w', quiet_pass two_nodes sample_e1 = Ret (w', inl ())
    ∧ ∃ ms, World.sent w' = ms ∧ length ms = 1
      ∧ ∀ x id, Command_DeleteAssignments x ∈ ms → id ∈ x ⇝ DeleteAssignments.AssignmentIds → False.
Proof.
  destruct (quiet_pass two_nodes sample_e1) as [[w' r]|] eqn:E1; [|vm_compute in E1; discriminate].
  assert (r = inl () ∧ length (World.sent w') = 1) as [-> Hlen] by (vm_compute in E1; injection E1 as <- <-; done).
  destruct (scheduler_blast_radius canonical_range canonical_range_ok wellknown_times quiet_env _ sample_e1 (World.mk two_nodes 0 []) w' _
    wf_two_nodes E1) as (ms & Hs & _ & _ & Hd & _).
  exists w'. split; [reflexivity|]. exists ms. split; [exact Hs|]. split; [rewrite <- Hlen, Hs; reflexivity|].
  intros x id Hx Hid. destruct (Hd x id Hx Hid) as (a & [Ha _] & _ & Hc).
  assert (∀ a, a ∈ Store.ListAssignments (RO := canonical_range) (GetId sample_e1) two_nodes →
    a ⇝ Assignment.Desired = ASSIGNMENT_DESIRED_RUN ∧ nodeDown two_nodes (a ⇝ Assignment.NodeId) = false) as Hall.
  { apply Forall_forall. vm_compute. repeat constructor. }
  destruct (Hall a Ha) as [H1 H2]. destruct Hc as [[Hc _]|[Hc _]]; [rewrite H1 in Hc; discriminate|].
  change (World.store _) with two_nodes in Hc. rewrite H2 in Hc. discriminate.
Defined.

Lemma scheduler_converges_witness :
  ∃ w', quiet_pass two_nodes sample_e1 = Ret (w', inl ())
    ∧ Z.of_nat (length (Sched.of_class (RO := canonical_range) (World.store w') sample_e1 sample_r1 Sched.Good)) = 2%Z.
Proof.
  assert (Sched.deploymentOwnsEnv (RO := canonical_range) two_nodes sample_e1 = false) as H1 by (vm_compute; reflexivity).
  assert (Sched.active_release two_nodes sample_e1 = Some sample_r1) as H2 by (vm_compute; reflexivity).
  assert (0 ≤ desiredReplicas sample_e1)%Z as H3 by (vm_compute; discriminate).
  pose proof (scheduler_converges canonical_range canonical_range_ok wellknown_times quiet_env quiet_env_ok quiet_ids_inj
    sample_e1 sample_r1 (World.mk two_nodes 0 []) wf_two_nodes sample_fresh H1 H2 H3) as H. cbv beta zeta in H.
  assert (∃ l, Place (RO := canonical_range) (World.store (World.mk two_nodes 0 [])) sample_r1 (GetId sample_e1)
    (desiredReplicas sample_e1 - Z.of_nat (length (Sched.of_class (RO := canonical_range)
      (World.store (World.mk two_nodes 0 [])) sample_e1 sample_r1 Sched.Good))) ∅ = (l, None)) as [l HP]
    by (eexists; vm_compute; reflexivity).
  rewrite HP in H. destruct H as (w' & Hrun & _ & _ & Hg). exists w'. split; [exact Hrun|]. apply (Hg eq_refl).
Defined.

(** Node [n1] drains: [a1] has a replacement on [n2], the job has none. *)
Definition draining_node : option Node.t := Some (sample_node "n1" NODE_STATUS_DRAINING 4000 4096).

Definition job_run : option Assignment.t :=
  Some ((sample_assignment "j1" "n2" "e1" "r1" "" ASSIGNMENT_DESIRED_RUN INSTANCE_STATE_RUNNING)
    <| Assignment.JobId := "job1" |>).

Definition one_replica : Store.t :=
  Store.PutAssignments
    [Some (sample_assignment "a1" "n1" "e1" "r1" "" ASSIGNMENT_DESIRED_RUN INSTANCE_STATE_HEALTHY); job_run]
  (Store.PutNode (Some (sample_node "n2" NODE_STATUS_ALIVE 4000 4096))
  (Store.PutNode draining_node
  (Store.PutRelease (Some (sample_release "r1" "e1" 1 (sample_spec false 1 100 100)))
  (Store.PutEnvironment (Some (sample_env "e1" "r1" (sample_spec false 1 100 100))) Store.New)))).

Lemma wf_one_replica : wf one_replica.
Proof. unfold one_replica. auto 10 with store_wf. Qed.

Definition serving (s : Store.t) : list string :=
  GetId <$> List.filter (λ a, is_run a && (a ⇝ Assignment.JobId =? ""))
    (Store.ListAssignments (RO := canonical_range) "e1" s).

(** A running one-shot job counts as a replacement.  Draining a node stops the
    only replica of a service although no other replica of it exists anywhere, when a
    job of the same release runs on another node. *)
Theorem drain_counts_jobs_as_replicas :
  ∃ w', Sched.reconcileDrains (RO := canonical_range) (TL := wellknown_times) (E := quiet_env)
          (World.mk one_replica 0 []) = Ret (w', inl ())
    ∧ wf one_replica ∧ serving one_replica = ["a1"] ∧ serving (World.store w') = [].
Proof.
  destruct (Sched.reconcileDrains (RO := canonical_range) (TL := wellknown_times) (E := quiet_env)
    (World.mk one_replica 0 [])) as [[w' r]|] eqn:E1; [|vm_compute in E1; discriminate].
  assert (r = inl () ∧ serving (World.store w') = []) as [-> Hs]
    by (vm_compute in E1; injection E1 as <- <-; split; vm_compute; reflexivity).
  exists w'. split; [reflexivity|]. split; [apply wf_one_replica|]. split; [vm_compute; reflexivity|exact Hs].
Qed.

Lemma drain_is_graceful_witness :
  ∃ w', Sched.drainNode (RO := canonical_range) (TL := wellknown_times) (E := quiet_env) draining_node
          (World.mk one_replica 0 []) = Ret (w', inl ())
    ∧ ∀ x, Command_SetNodeStatus x ∉ World.sent w'.
Proof.
  destruct (Sched.drainNode (RO := canonical_range) (TL := wellknown_times) (E := quiet_env) draining_node
    (World.mk one_replica 0 [])) as [[w' r]|] eqn:E1; [|vm_compute in E1; discriminate].
  assert (r = inl ()) as -> by (vm_compute in E1; injection E1 as _ <-; reflexivity).
  exists w'. split; [reflexivity|].
  destruct (drain_is_graceful canonical_range canonical_range_ok wellknown_times quiet_env draining_node (World.mk one_replica 0 []) w' _
    wf_one_replica E1) as (ms & Hs & _ & _ & H). cbn [World.sent app] in Hs. rewrite Hs. intros x Hx.
  destruct (H x Hx) as (_ & _ & Hno).
  assert (∃ a, a ∈ Store.ListAssignmentsByNode (RO := canonical_range) "n1" one_replica
    ∧ a ⇝ Assignment.Desired = ASSIGNMENT_DESIRED_RUN) as (a & Ha & Hd)
    by (eexists; split; [vm_compute; left|reflexivity]).
  exact (proj1 (Hno a Ha) Hd).
Defined.

(** The environment of [a1] is gone. *)
Definition orphaned : Store.t := Store.DeleteEnvironment "e1" one_replica.

Lemma wf_orphaned : wf orphaned.
Proof. apply wf_DeleteEnvironment, wf_one_replica. Qed.

Lemma only_orphans_are_reaped_witness :
  ∃ w', Sched.reconcileOrphans (RO := canonical_range) (TL := wellknown_times) (E := quiet_env)
          (World.mk orphaned 0 []) = Ret (w', inl ())
    ∧ serving (World.store w') = [] ∧ length (World.sent w') = 1
    ∧ ∀ x, Command_SetNodeStatus x ∉ World.sent w'.
Proof.
  destruct (Sched.reconcileOrphans (RO := canonical_range) (TL := wellknown_times) (E := quiet_env)
    (World.mk orphaned 0 [])) as [[w' r]|] eqn:E1; [|vm_compute in E1; discriminate].
  assert (r = inl () ∧ serving (World.store w') = [] ∧ length (World.sent w') = 1) as (-> & Hv & Hl)
    by (vm_compute in E1; injection E1 as <- <-; split_and!; vm_compute; reflexivity).
  exists w'. split; [reflexivity|]. split; [exact Hv|]. split; [exact Hl|].
  destruct (only_orphans_are_reaped canonical_range canonical_range_ok wellknown_times quiet_env (World.mk orphaned 0 []) w' _ wf_orphaned E1)
    as (ms & Hs & H). cbn [World.sent app] in Hs. rewrite Hs. intros x Hx. exact (H _ Hx).
Defined.
