(* ===== verification/Volumes.v ===== *)
(** Stateful volumes (internal/daemon/scheduler/volumes.go): creating the volumes a
    stateful service declares, tracking lost nodes, and the fencing leases, which let
    one assignment at a time write a volume. *)
From stdpp Require Import pretty.
From S2P Require Import Prelude Api Watch State StateInv StoreProps Fsm FsmProps FsmSteps Samples Platform Placement.
From S2P Require Import Leader Orchestrator Control Scheduler SchedulerProps.

Module Volumes.

Definition leaseTTL : Z := (60 * second)%Z.

(** [%q] of a name without characters to escape. *)
Definition quoted (s : string) : string :=
  let q := String (Ascii.ascii_of_nat 34) "" in q +:+ s +:+ q.

Section volumes.
Context {RO : RangeOrder} {TL : TimestampLib} {E : Env}.

(** The active release when it is a stateful service with volumes. *)
Definition activeStatefulRelease (st : Store.t) (env : option Environment.t) : option Release.t :=
  if env ⇝ Environment.ActiveReleaseId =? "" then None
  else match Store.Release (env ⇝ Environment.ActiveReleaseId) st with
  | None => None
  | Some rel =>
    if negb (isStateful rel) || (length (rel ⇝ Release.Service ⇝ ServiceSpec.Volumes) =? 0)%nat then None else rel
  end.

(** One node of leastUsedVolumeNode. *)
Definition less_used (counts : gmap string Z) (acc : string * Z) (n : option Node.t) : string * Z :=
  let '(best, bestCount) := acc in
  let id := GetId n in
  if negb (bool_decide (n ⇝ Node.Status = NODE_STATUS_ALIVE)) || negb (n ⇝ Node.Schedulable) then acc
  else
    let c := at_key counts id in
    if (best =? "") || (c <? bestCount)%Z || ((c =? bestCount)%Z && str_ltb id best) then (id, c) else acc.

Definition volume_counts (st : Store.t) : gmap string Z :=
  foldl (λ m v, bump (v ⇝ Volume.NodeId) 1 m) ∅ (Store.ListVolumes "" st).

Definition leastUsedVolumeNode (st : Store.t) : string :=
  (foldl (less_used (volume_counts st)) ("", 0%Z) (Store.ListNodes st)).1.

Definition createVolume (env : option Environment.t) (name : string) : M () :=
  st ← read;
  let node := leastUsedVolumeNode st in
  if node =? "" then
    Sched.emitEvent env "volume.no_capacity" "warning" ("no schedulable node for volume " +:+ quoted name)
  else
    now ← Now;
    id ← New;
    let ts := Some (timestamppb_New now) in
    Sched.sapply (Command_PutVolume (Some (PutVolume.mk (Some (Volume.mk (Some (Meta.mk id ts ts))
      (env ⇝ Environment.ProjectId) (GetId env) name node VOLUME_STATUS_ACTIVE None None 0))))).

Definition setVolumeStatus (v : option Volume.t) (status : VolumeStatus) : M () :=
  nv ← deref v;
  meta ← deref (Volume.Meta nv);
  now ← Now;
  let nv := nv <| Volume.Status := status |> in
  let nv := nv <| Volume.Meta := Some (meta <| Meta.UpdatedAt := Some (timestamppb_New now) |>) |> in
  Sched.sapply (Command_PutVolume (Some (PutVolume.mk (Some nv)))).

Definition trackVolumeNode (env : option Environment.t) (v : option Volume.t) : M () :=
  st ← read;
  let down := nodeDown st (v ⇝ Volume.NodeId) in
  let lost := bool_decide (v ⇝ Volume.Status = VOLUME_STATUS_NODE_LOST) in
  if down && negb lost then
    setVolumeStatus v VOLUME_STATUS_NODE_LOST;;
    Sched.emitEvent env "volume.node_lost" "warning"
      ("volume " +:+ quoted (v ⇝ Volume.Name) +:+ " node " +:+ v ⇝ Volume.NodeId
         +:+ " is down; stateful service stopped until it returns")
  else if negb down && lost then
    setVolumeStatus v VOLUME_STATUS_ACTIVE;;
    Sched.emitEvent env "volume.recovered" "info"
      ("volume " +:+ quoted (v ⇝ Volume.Name) +:+ " node " +:+ v ⇝ Volume.NodeId +:+ " recovered")
  else mret ().

Definition ensureVolumes : M () :=
  st ← read;
  for_each (Store.ListEnvironments "" "" st) (λ env,
    st ← read;
    for_each (activeStatefulRelease st env ⇝ Release.Service ⇝ ServiceSpec.Volumes) (λ vm,
      st ← read;
      match Store.VolumeByName (env ⇝ Environment.ProjectId) (GetId env) (vm ⇝ VolumeMount.VolumeName) st with
      | None => createVolume env (vm ⇝ VolumeMount.VolumeName)
      | Some v => trackVolumeNode env v
      end)).

(** ** Fencing leases *)

Definition may_hold (v : option Volume.t) (a : option Assignment.t) : bool :=
  (a ⇝ Assignment.JobId =? "") && is_run a && (a ⇝ Assignment.NodeId =? v ⇝ Volume.NodeId).

Definition lower_id (holder a : option Assignment.t) : option Assignment.t :=
  if bool_decide (holder = None) || str_ltb (GetId a) (GetId holder) then a else holder.

Definition statefulHolder (st : Store.t) (v : option Volume.t) : option Assignment.t :=
  foldl (λ holder a, if may_hold v a then lower_id holder a else holder) None
    (Store.ListAssignments (v ⇝ Volume.EnvironmentId) st).

Definition leaseExpired (lease : option VolumeLease.t) (now : Z) : bool :=
  match lease, lease ⇝ VolumeLease.ExpiresAt with
  | Some _, Some exp => negb (now <? AsTime (Some exp))%Z
  | _, _ => true
  end.

Definition leaseHeldByOther (lease : option VolumeLease.t) (want : string) (now : Z) : bool :=
  if bool_decide (lease = None) || (lease ⇝ VolumeLease.NodeId =? want) then false
  else negb (leaseExpired lease now).

(** The body of reconcileLeases. *)
Definition renewLease (now : Z) (v : option Volume.t) : M () :=
  st ← read;
  if nodeDown st (v ⇝ Volume.NodeId) then mret ()
  else
    let holder := statefulHolder st v in
    if bool_decide (holder = None) then mret ()
    else if leaseHeldByOther (v ⇝ Volume.Lease) (v ⇝ Volume.NodeId) now then mret ()
    else
      Sched.sapply (Command_PutVolumeLease (Some (PutVolumeLease.mk (GetId v)
        (Some (VolumeLease.mk (v ⇝ Volume.NodeId) (GetId holder) (Some (timestamppb_New (now + leaseTTL)))))))).

Definition reconcileLeases : M () :=
  now ← Now;
  st ← read;
  for_each (Store.ListVolumes "" st) (renewLease now).

End volumes.
End Volumes.

(** * The holder of a lease *)

Section holder.
Context {RO : RangeOrder} {TL : TimestampLib} {E : Env}.

(** The least id among the candidates seen so far. *)
Definition holder_of (v : option Volume.t) (seen : list (option Assignment.t)) (h : option Assignment.t) : Prop :=
  match h with
  | None => ∀ b, b ∈ seen → Volumes.may_hold v b = false
  | Some _ => h ∈ seen ∧ Volumes.may_hold v h = true
      ∧ ∀ b, b ∈ seen → Volumes.may_hold v b = true → str_ltb (GetId b) (GetId h) = false
  end.

Lemma may_hold_some v a : Volumes.may_hold v a = true → a ≠ None.
Proof. intros H ->. unfold Volumes.may_hold, is_run in H. cbn in H. by rewrite andb_false_r in H. Qed.

Lemma holder_step v seen h a :
  holder_of v seen h → holder_of v (seen ++ [a]) (if Volumes.may_hold v a then Volumes.lower_id h a else h).
Proof.
  intros Hh. destruct (Volumes.may_hold v a) eqn:Ha.
  - pose proof (may_hold_some _ _ Ha) as Hne. unfold Volumes.lower_id. destruct h as [h|]; cbn [orb].
    + rewrite bool_decide_eq_false_2 by done. destruct Hh as (Hin & Hm & Hmin). cbn [orb].
      destruct (str_ltb (GetId a) (GetId (Some h))) eqn:Hlt.
      * destruct a as [a|]; [|done]. split; [set_solver|]. split; [done|]. intros b [Hb| ->%list_elem_of_singleton]%elem_of_app Hbm.
        -- apply not_true_is_false. intros Hba. specialize (Hmin b Hb Hbm). rewrite (str_ltb_trans _ _ _ Hba Hlt) in Hmin. done.
        -- apply str_ltb_irrefl.
      * split; [set_solver|]. split; [done|]. intros b [Hb| ->%list_elem_of_singleton]%elem_of_app Hbm; auto.
    + rewrite bool_decide_eq_true_2 by done. cbn [orb]. destruct a as [a|]; [|done]. split; [set_solver|]. split; [done|].
      intros b [Hb| ->%list_elem_of_singleton]%elem_of_app Hbm; [by rewrite Hh in Hbm|apply str_ltb_irrefl].
  - destruct h as [h|].
    + destruct Hh as (Hin & Hm & Hmin). split; [set_solver|]. split; [done|].
      intros b [Hb| ->%list_elem_of_singleton]%elem_of_app Hbm; [auto|congruence].
    + intros b [Hb| ->%list_elem_of_singleton]%elem_of_app; auto.
Qed.

Lemma holder_spec st v :
  holder_of v (Store.ListAssignments (v ⇝ Volume.EnvironmentId) st) (Volumes.statefulHolder st v).
Proof.
  unfold Volumes.statefulHolder. set (l := Store.ListAssignments _ _). set (f := λ holder a, _).
  enough (∀ l seen h, holder_of v seen h → holder_of v (seen ++ l) (foldl f h l)) as H.
  { apply (H l [] None). by intros b ?%elem_of_nil. }
  clear l. induction l as [|a l IH]; intros seen h Hh; cbn [foldl]; [by rewrite app_nil_r|].
  replace (seen ++ a :: l) with ((seen ++ [a]) ++ l) by (by rewrite <- app_assoc). apply IH, holder_step, Hh.
Qed.
End holder.

(** C17: fencing.  Renewing the lease of a volume proposes at most one lease: for the
    node the volume is on, which is up, to the running assignment of least id there,
    for sixty seconds from now; and never while another node's lease is still valid.
    So one node's lease can only follow another's after its expiry. *)
Theorem lease_fencing (RO : RangeOrder) (TL : TimestampLib) (E : Env) (now : Z) (v : option Volume.t)
    (w w' : World.t) (r : () + leader_error) :
  Volumes.renewLease now v w = Ret (w', r) →
  let st := World.store w in
  w' = w
  ∨ nodeDown st (v ⇝ Volume.NodeId) = false
    ∧ (∀ l exp, v ⇝ Volume.Lease = Some l → VolumeLease.NodeId l ≠ v ⇝ Volume.NodeId →
         VolumeLease.ExpiresAt l = Some exp → (AsTime (Some exp) ≤ now)%Z)
    ∧ ∃ a, a ∈ Store.ListAssignments (v ⇝ Volume.EnvironmentId) st ∧ Volumes.may_hold v a = true
        ∧ (∀ b, b ∈ Store.ListAssignments (v ⇝ Volume.EnvironmentId) st → Volumes.may_hold v b = true →
             str_ltb (GetId b) (GetId a) = false)
        ∧ World.sent w' = World.sent w ++ [Command_PutVolumeLease (Some (PutVolumeLease.mk (GetId v)
            (Some (VolumeLease.mk (v ⇝ Volume.NodeId) (GetId a)
              (Some (timestamppb_New (now + 60 * 10 ^ 9)))))))].
Proof.
  intros Hrun st. unfold Volumes.renewLease in Hrun. erewrite bind_run in Hrun by reflexivity. fold st in Hrun.
  destruct (nodeDown st _); [injection Hrun as <- _; by left|]. cbv zeta in Hrun.
  pose proof (holder_spec st v) as Hh. destruct (Volumes.statefulHolder st v) as [a|];
    [rewrite bool_decide_eq_false_2 in Hrun by done|injection Hrun as <- _; by left].
  destruct (Volumes.leaseHeldByOther _ _ _) eqn:Hl; [injection Hrun as <- _; by left|]. right. split; [done|]. split.
  - intros l exp Hv Hne He. unfold Volumes.leaseHeldByOther in Hl. rewrite Hv in Hl.
    rewrite bool_decide_eq_false_2 in Hl by done. cbn [orb get] in Hl. rewrite (proj2 (str_eqb_neq _ _) Hne) in Hl.
    apply negb_false_iff in Hl. unfold Volumes.leaseExpired in Hl. cbn [get] in Hl. rewrite He in Hl.
    apply negb_true_iff, Z.ltb_ge in Hl. done.
  - destruct Hh as (Hin & Hm & Hmin). exists (Some a). split_and!; try done.
    destruct (logs_apply (λ ms, ms = [_]) "system:scheduler" _ w eq_refl _ _ Hrun) as (ms & Hs & ->). exact Hs.
Qed.

(** A volume on [n1], where two assignments run; the lease of [n2] ran out at 50 s. *)
Definition leased_volume (exp : Z) : option Volume.t :=
  Some (Volume.mk (sample_meta "v1") "proj" "e1" "data" "n1" VOLUME_STATUS_ACTIVE
    (Some (VolumeLease.mk "n2" "a9" (Some (Timestamp.mk exp 0)))) None 0).

Definition two_holders : Store.t :=
  Store.PutAssignments
    [Some (sample_assignment "a2" "n1" "e1" "r1" "" ASSIGNMENT_DESIRED_RUN INSTANCE_STATE_HEALTHY);
     Some (sample_assignment "a1" "n1" "e1" "r1" "" ASSIGNMENT_DESIRED_RUN INSTANCE_STATE_HEALTHY)]
  (Store.PutVolume (leased_volume 50)
  (Store.PutNode (Some (sample_node "n1" NODE_STATUS_ALIVE 4000 4096)) Store.New)).

Notation renew_at now :=
  (Volumes.renewLease (RO := canonical_range) (TL := wellknown_times) (E := quiet_env) now (leased_volume 50)
    (World.mk two_holders 0 [])).

Lemma lease_fencing_witness :
  renew_at (49 * 10 ^ 9)%Z = Ret (World.mk two_holders 0 [], inl ())
  ∧ ∃ w', renew_at (50 * 10 ^ 9)%Z = Ret (w', inl ()) ∧ ∃ a : option Assignment.t, GetId a = "a1"
      ∧ World.sent w' = [Command_PutVolumeLease (Some (PutVolumeLease.mk "v1"
          (Some (VolumeLease.mk "n1" (GetId a) (Some (Timestamp.mk 110 0))))))].
Proof.
  split; [vm_compute; reflexivity|].
  destruct (renew_at (50 * 10 ^ 9)%Z) as [[w' r]|] eqn:E1; [|vm_compute in E1; discriminate].
  assert (r = inl () ∧ length (World.sent w') = 1) as [-> Hl] by (vm_compute in E1; injection E1 as <- <-; done).
  exists w'. split; [reflexivity|].
  destruct (lease_fencing canonical_range wellknown_times quiet_env _ _ _ w' _ E1)
    as [-> |(_ & _ & a & Hin & _ & Hmin & Hs)]; [discriminate|]. exists a. split; [|exact Hs].
  assert (∀ a : option Assignment.t, a ∈ Store.ListAssignments (RO := canonical_range) "e1" two_holders → GetId a = "a1" ∨ GetId a = "a2") as Hids
    by (apply Forall_forall; vm_compute; repeat constructor; auto).
  destruct (Hids a Hin) as [Hi|Hi]; [exact Hi|exfalso].
  assert (∃ b, b ∈ Store.ListAssignments (RO := canonical_range) "e1" two_holders
    ∧ Volumes.may_hold (leased_volume 50) b = true ∧ GetId b = "a1") as (b & Hb & Hbm & Hbi)
    by (eexists; split; [vm_compute; left|split; reflexivity]).
  specialize (Hmin b Hb Hbm). rewrite Hi, Hbi in Hmin. discriminate Hmin.
Defined.
