(* ===== verification/Vips.v ===== *)
(** Service addresses (internal/daemon/scheduler/vips.go): every environment that
    exposes a port gets a cluster-unique virtual IP. *)
From stdpp Require Import pretty.
From S2P Require Import Prelude Api Watch State StateInv StoreProps Fsm FsmProps FsmSteps Samples Platform Placement.
From S2P Require Import Leader Orchestrator Control OrchestratorProps Scheduler SchedulerProps.

Module Vips.

Definition vipOctet0 : Z := 10.
Definition vipOctet1 : Z := 97.

(** [for i := i0; i < i0 + n; i++ { if f(i) returns, return }] *)
Fixpoint first_some {A} (f : Z → option A) (n : nat) (i : Z) : option A :=
  match n with
  | 0 => None
  | S n => match f i with Some x => Some x | None => first_some f n (i + 1) end
  end.

Definition vip (a b : Z) : string :=
  pretty vipOctet0 +:+ "." +:+ pretty vipOctet1 +:+ "." +:+ pretty a +:+ "." +:+ pretty b.

(** The address 10.97.a.b when it is free. *)
Definition vip_at (used : gset string) (a b : Z) : option string :=
  let ip := vip a b in if bool_decide (ip ∈ used) then None else Some ip.

(** The lowest free address, [None] when the pool is exhausted. *)
Definition nextFreeVIP (used : gset string) : option string :=
  first_some (λ a, first_some (vip_at used a) 253 2) 256 0.

Section vips.
Context {RO : RangeOrder} {TL : TimestampLib} {E : Env}.

Definition setVIP (envID vip : string) : M () :=
  Sched.sapply (Command_PutServiceVip (Some (PutServiceVIP.mk envID vip))).

Definition has_ports (env : option Environment.t) : bool :=
  (0 <? length (env ⇝ Environment.Service ⇝ ServiceSpec.Ports))%nat.

Definition needed_envs (st : Store.t) : gset string :=
  list_to_set (GetId <$> List.filter has_ports (Store.ListEnvironments "" "" st)).

(** Keep or free the current addresses; the kept ones are in use. *)
Fixpoint free_vips (needed : gset string) (l : list (string * string)) (used : gset string) : M (gset string) :=
  match l with
  | [] => mret used
  | (envID, vip) :: l =>
    if bool_decide (envID ∈ needed) then free_vips needed l ({[vip]} ∪ used)
    else setVIP envID "";; free_vips needed l used
  end.

Fixpoint alloc_vips (current : gmap string string) (l : list string) (used : gset string) : M () :=
  match l with
  | [] => mret ()
  | envID :: l =>
    if bool_decide (is_Some (current !! envID)) then alloc_vips current l used
    else match nextFreeVIP used with
    | None => alloc_vips current l used
    | Some vip => setVIP envID vip;; alloc_vips current l ({[vip]} ∪ used)
    end
  end.

Definition reconcileVIPs : M () :=
  st ← read;
  let needed := needed_envs st in
  let current := Store.ListServiceVIPs st in
  used ← free_vips needed (range current) ∅;
  alloc_vips current (range_keys needed) used.

End vips.
End Vips.

(** * The pool *)

Lemma first_some_spec {A} (f : Z → option A) n i :
  match Vips.first_some f n i with
  | Some x => ∃ j, (i ≤ j < i + Z.of_nat n)%Z ∧ f j = Some x ∧ ∀ k, (i ≤ k < j)%Z → f k = None
  | None => ∀ j, (i ≤ j < i + Z.of_nat n)%Z → f j = None
  end.
Proof.
  revert i. induction n as [|n IH]; intros i; cbn [Vips.first_some]; [lia|].
  destruct (f i) eqn:Hi.
  { exists i. split; [lia|]. split; [done|]. lia. }
  specialize (IH (i + 1)%Z). destruct (Vips.first_some f n (i + 1)) as [x|].
  - destruct IH as (j & Hj & Hf & Hlow). exists j. split; [lia|]. split; [done|]. intros k Hk.
    destruct (decide (k = i)) as [->|]; [done|]. apply Hlow. lia.
  - intros j Hj. destruct (decide (j = i)) as [->|]; [done|]. apply IH. lia.
Qed.

(** The addresses of the pool. *)
Definition in_pool (ip : string) : Prop := ∃ a b, (0 ≤ a < 256)%Z ∧ (2 ≤ b < 255)%Z ∧ ip = Vips.vip a b.

Lemma nextFreeVIP_spec used :
  match Vips.nextFreeVIP used with
  | Some ip => in_pool ip ∧ ip ∉ used ∧ ip ≠ ""
  | None => ∀ ip, in_pool ip → ip ∈ used
  end.
Proof.
  assert (∀ a b, Vips.vip_at used a b = None ↔ Vips.vip a b ∈ used) as Hat.
  { intros a b. unfold Vips.vip_at. cbv zeta. by destruct (bool_decide_reflect (Vips.vip a b ∈ used)). }
  unfold Vips.nextFreeVIP. pose proof (first_some_spec (λ a, Vips.first_some (Vips.vip_at used a) 253 2) 256 0) as H.
  destruct (Vips.first_some _ 256 0) as [ip|].
  - destruct H as (a & Ha & Hrow & _). pose proof (first_some_spec (Vips.vip_at used a) 253 2) as H. rewrite Hrow in H.
    destruct H as (b & Hb & Hf & _). assert (Vips.vip a b ∉ used) as Hn by (rewrite <- Hat, Hf; done).
    unfold Vips.vip_at in Hf. rewrite bool_decide_eq_false_2 in Hf by done. injection Hf as <-.
    split; [exists a, b; split_and!; lia || done|]. done.
  - intros ip (a & b & Ha & Hb & ->). specialize (H a ltac:(lia)). cbv beta in H.
    pose proof (first_some_spec (Vips.vip_at used a) 253 2) as H'. rewrite H in H'. apply Hat, H'. lia.
Qed.

(** * The loops, in a quiet environment *)

Notation vips w := (Store.serviceVIPs (World.store w)).

Section quiet.
Context {RO : RangeOrder} {ROk : RangeOrderOk RO} {TL : TimestampLib} {E : Env} {Q : Quiet E}.
Context (Hids : Inj (=) (=) ids_New).

Lemma quiet_setVIP e ip w :
  fresh_requests w → ∃ w', Vips.setVIP e ip w = Ret (w', inl ()) ∧ fresh_requests w'
    ∧ vips w' = if ip =? "" then delete e (vips w) else <[e := ip]> (vips w).
Proof.
  intros Hw. destruct (quiet_apply Hids "system:scheduler" (Command_PutServiceVip (Some (PutServiceVIP.mk e ip)))
    (Store.SetServiceVIP e ip) w) as (s1 & (ring & ids & ->) & Ha & Hf); [|done|].
  { intros cmd s Hc. unfold FSM.apply. by rewrite Hc. }
  eexists. split; [exact Ha|]. split; [done|]. cbn [World.store]. unfold Store.SetServiceVIP, Store.touch.
  destruct (ip =? ""); by get_set.
Qed.

Lemma free_vips_run needed l used w :
  fresh_requests w →
  ∃ w' used', Vips.free_vips needed l used w = Ret (w', inl used') ∧ fresh_requests w'
    ∧ (∀ ip, ip ∈ used' ↔ ip ∈ used ∨ ∃ e, (e, ip) ∈ l ∧ e ∈ needed)
    ∧ ∀ e, vips w' !! e = if bool_decide (e ∈ needed ∨ e ∉ l.*1) then vips w !! e else None.
Proof.
  revert used w. induction l as [|[e ip] l IH]; intros used w Hw; cbn [Vips.free_vips].
  { exists w, used. split_and!; [done|done| |].
    - intros ip. split; [by left|]. by intros [?|(e & ?%elem_of_nil & _)].
    - intros e. rewrite bool_decide_eq_true_2; [done|]. right. apply not_elem_of_nil. }
  destruct (bool_decide_reflect (e ∈ needed)) as [He|He].
  - destruct (IH ({[ip]} ∪ used) w Hw) as (w' & used' & Hrun & Hf & Hu & Hv). exists w', used'. split; [done|]. split; [done|].
    split.
    + intros x. rewrite Hu. set_solver.
    + intros x. rewrite Hv. cbn [fmap list_fmap fst].
      rewrite (bool_decide_ext _ (x ∈ needed ∨ x ∉ e :: l.*1)); [done|]. rewrite not_elem_of_cons.
      destruct (decide (x = e)) as [->|]; tauto.
  - destruct (quiet_setVIP e "" w Hw) as (w1 & Hrun1 & Hf1 & Hv1).
    destruct (IH used w1 Hf1) as (w' & used' & Hrun & Hf & Hu & Hv). exists w', used'.
    rewrite (bind_run _ _ _ _ _ Hrun1). split; [done|]. split; [done|]. split.
    + intros x. rewrite Hu. set_solver.
    + intros x. rewrite Hv, Hv1. change ("" =? "") with true. cbv iota. cbn [fmap list_fmap fst].
      destruct (decide (x = e)) as [->|Hne].
      * rewrite lookup_delete_eq. rewrite (bool_decide_eq_false_2 (e ∈ needed ∨ e ∉ e :: l.*1)) by (rewrite not_elem_of_cons; tauto).
        by destruct (bool_decide _).
      * rewrite lookup_delete_ne by done. rewrite (bool_decide_ext _ (x ∈ needed ∨ x ∉ e :: l.*1)); [done|]. rewrite not_elem_of_cons. tauto.
Qed.

(** While allocating: the used addresses are those held, each by one environment. *)
Definition exact_use (V : gmap string string) (used : gset string) : Prop :=
  (∀ ip, ip ∈ used ↔ ∃ e, V !! e = Some ip) ∧ (∀ e1 e2 ip, V !! e1 = Some ip → V !! e2 = Some ip → e1 = e2).

Lemma exact_use_insert V used e ip :
  exact_use V used → V !! e = None → ip ∉ used → exact_use (<[e := ip]> V) ({[ip]} ∪ used).
Proof.
  intros [Hu Hi] He Hip. split.
  - intros x. rewrite elem_of_union, elem_of_singleton, Hu. split.
    + intros [->|[e' He']]; [exists e; apply lookup_insert_eq|]. exists e'.
      rewrite lookup_insert_ne; [done|]. intros ->. congruence.
    + intros [e' [[-> ->]|[Hne He']]%lookup_insert_Some]; [by left|]. right. eauto.
  - intros e1 e2 x [[<- <-]|[Hn1 H1]]%lookup_insert_Some [[<- H2]|[Hn2 H2]]%lookup_insert_Some; try done.
    + destruct Hip. apply Hu. eauto.
    + destruct Hip. subst x. apply Hu. eauto.
    + by eapply Hi.
Qed.

Lemma alloc_vips_run current l used w :
  fresh_requests w → NoDup l → exact_use (vips w) used → (∀ e, e ∈ l → current !! e = None → vips w !! e = None) →
  ∃ w' used', Vips.alloc_vips current l used w = Ret (w', inl ()) ∧ exact_use (vips w') used'
    ∧ (∀ e ip, vips w !! e = Some ip → vips w' !! e = Some ip)
    ∧ (∀ e ip, vips w' !! e = Some ip → vips w !! e = Some ip ∨ (e ∈ l ∧ in_pool ip))
    ∧ ∀ e, e ∈ l → current !! e = None → is_Some (vips w' !! e) ∨ ∀ ip, in_pool ip → ip ∈ used'.
Proof.
  revert used w. induction l as [|e l IH]; intros used w Hw Hnd Hex Hnone; cbn [Vips.alloc_vips].
  { exists w, used. split_and!; try done; [by auto|by intros e ?%elem_of_nil]. }
  apply NoDup_cons in Hnd as [Hel Hnd].
  destruct (bool_decide_reflect (is_Some (current !! e))) as [Hc|Hc].
  { destruct (IH used w Hw Hnd Hex) as (w' & used' & Hrun & Hex' & H1 & H2 & H3); [by set_solver|].
    exists w', used'. split_and!; try done.
    - intros x ip Hx. destruct (H2 x ip Hx) as [?|[? ?]]; [by left|]. right. set_solver.
    - intros x [->|Hx]%elem_of_cons Hcx; [|by auto]. by rewrite Hcx in Hc; destruct Hc. }
  apply eq_None_not_Some in Hc. pose proof (nextFreeVIP_spec used) as Hnext.
  destruct (Vips.nextFreeVIP used) as [ip|] eqn:Hfree.
  - destruct Hnext as (Hpool & Hnew & Hne). destruct (quiet_setVIP e ip w Hw) as (w1 & Hrun1 & Hf1 & Hv1).
    rewrite (proj2 (str_eqb_neq _ _) Hne) in Hv1. pose proof (Hnone e (list_elem_of_here _ _) Hc) as He.
    destruct (IH ({[ip]} ∪ used) w1 Hf1 Hnd) as (w' & used' & Hrun & Hex' & H1 & H2 & H3).
    { rewrite Hv1. by apply exact_use_insert. }
    { intros x Hx Hcx. rewrite Hv1, lookup_insert_ne by set_solver. apply Hnone; [set_solver|done]. }
    exists w', used'. rewrite (bind_run _ _ _ _ _ Hrun1). rewrite Hv1 in H1, H2. split_and!; try done.
    + intros x y Hx. apply H1. rewrite lookup_insert_ne; [done|]. intros ->. congruence.
    + intros x y Hx. destruct (H2 x y Hx) as [[[<- <-]|[_ ?]]%lookup_insert_Some|[? ?]]; [right; split; [left|done]|by left|].
      right. split; [by right|done].
    + intros x [->|Hx]%elem_of_cons Hcx; [|by auto]. left. exists ip. apply H1, lookup_insert_eq.
  - destruct (IH used w Hw Hnd Hex) as (w' & used' & Hrun & Hex' & H1 & H2 & H3); [by set_solver|].
    exists w', used'. split_and!; try done.
    + intros x y Hx. destruct (H2 x y Hx) as [?|[? ?]]; [by left|]. right. set_solver.
    + intros x [->|Hx]%elem_of_cons Hcx; [|by auto]. right. intros ip Hip. apply Hex'.
      apply Hnext, Hex in Hip as [e' He']. eauto.
Qed.
End quiet.

Definition needs_vip {RO : RangeOrder} (st : Store.t) (e : string) : Prop :=
  ∃ env, env ∈ Store.ListEnvironments "" "" st ∧ Vips.has_ports env = true ∧ GetId env = e.

(** C35: service addresses are allocated exactly.  When its proposals commit, a pass
    over states where no two environments share an address ends in such a state; the
    environments that hold one are those exposing a port; an address once held is
    kept; new ones come from the pool; and an environment goes without only when the
    whole pool is held. *)
Theorem vip_allocation (RO : RangeOrder) (ROk : RangeOrderOk RO) (TL : TimestampLib) (E : Env) (Q : Quiet E)
    (Hids : Inj (=) (=) ids_New) (w : World.t) :
  fresh_requests w →
  (∀ e1 e2 ip, vips w !! e1 = Some ip → vips w !! e2 = Some ip → e1 = e2) →
  let needs := needs_vip (World.store w) in
  ∃ w', Vips.reconcileVIPs w = Ret (w', inl ())
    ∧ (∀ e1 e2 ip, vips w' !! e1 = Some ip → vips w' !! e2 = Some ip → e1 = e2)
    ∧ (∀ e ip, vips w' !! e = Some ip → needs e ∧ (vips w !! e = Some ip ∨ in_pool ip))
    ∧ (∀ e ip, needs e → vips w !! e = Some ip → vips w' !! e = Some ip)
    ∧ ∀ e, needs e → is_Some (vips w' !! e) ∨ ∀ ip, in_pool ip → ∃ e', vips w' !! e' = Some ip.
Proof.
  intros Hw Hinj needs. unfold Vips.reconcileVIPs. erewrite bind_run by reflexivity. cbv zeta. unfold Store.ListServiceVIPs.
  set (needed := Vips.needed_envs (World.store w)).
  assert (∀ e, e ∈ needed ↔ needs e) as Hneed.
  { intros e. unfold needed, Vips.needed_envs, needs, needs_vip. rewrite elem_of_list_to_set, list_elem_of_fmap. split.
    - intros (env & -> & [? ?]%elem_of_Filter). eauto.
    - intros (env & ? & ? & <-). exists env. by rewrite elem_of_Filter. }
  destruct (free_vips_run Hids needed (range (vips w)) ∅ w Hw) as (w1 & used & Hrun1 & Hf1 & Hu & Hv).
  assert (∀ e, vips w1 !! e = if bool_decide (e ∈ needed) then vips w !! e else None) as Hv1.
  { intros e. rewrite Hv. destruct (bool_decide_reflect (e ∈ needed)); [by rewrite bool_decide_eq_true_2 by auto|].
    case_bool_decide as Hd; [|done]. destruct Hd as [?|Hd]; [done|]. apply eq_None_not_Some. intros [ip Hip]. apply Hd.
    apply list_elem_of_fmap. exists (e, ip). by rewrite elem_of_range. }
  assert (exact_use (vips w1) used) as Hex.
  { split.
    - intros ip. rewrite Hu. split.
      + intros [?%elem_of_empty|(e & He%elem_of_range & Hn)]; [done|]. exists e. by rewrite Hv1, bool_decide_eq_true_2.
      + intros [e He]. right. exists e. rewrite Hv1 in He. case_bool_decide; [|done]. by rewrite elem_of_range.
    - intros e1 e2 ip H1 H2. rewrite Hv1 in H1, H2. repeat case_bool_decide; try done. by eapply Hinj. }
  destruct (alloc_vips_run Hids (vips w) (range_keys needed) used w1 Hf1) as (w' & used' & Hrun & [Hu' Hi'] & H1 & H2 & H3).
  { unfold range_keys. apply NoDup_fst_range. }
  { done. }
  { intros e _ He. rewrite Hv1, He. by case_bool_decide. }
  exists w'. rewrite (bind_run _ _ _ _ _ Hrun1). split; [done|]. split; [done|]. split_and!.
  - intros e ip He. destruct (H2 e ip He) as [Ho|[Hk Hp]].
    + rewrite Hv1 in Ho. case_bool_decide as Hn; [|done]. split; [by apply Hneed|by left].
    + split; [by apply Hneed, elem_of_range_keys|by right].
  - intros e ip Hn He. apply H1. rewrite Hv1, bool_decide_eq_true_2; [done|by apply Hneed].
  - intros e Hn%Hneed. destruct (vips w !! e) as [ip|] eqn:He.
    + left. exists ip. apply H1. by rewrite Hv1, bool_decide_eq_true_2.
    + destruct (H3 e) as [?|Hall]; [by apply elem_of_range_keys|done|by left|]. right. intros ip Hip. by apply Hu', Hall.
Qed.

(** ** Witnesses *)

(** [e1] holds an address without a port, [e2] has a port and no address. *)
Definition with_port : option ServiceSpec.t :=
  Some ((sample_spec false 1 100 100) <| ServiceSpec.Ports := [None] |>).

Definition portless : Store.t :=
  Store.SetServiceVIP "e1" "10.97.0.2"
  (Store.PutEnvironment (Some ((sample_env "e2" "" (sample_spec false 1 100 100)) <| Environment.Service := with_port |>))
  (Store.PutEnvironment (Some (sample_env "e1" "" (sample_spec false 1 100 100))) Store.New)).

Lemma portless_vips e1 e2 ip :
  Store.serviceVIPs portless !! e1 = Some ip → Store.serviceVIPs portless !! e2 = Some ip → e1 = e2.
Proof.
  assert (Store.serviceVIPs portless = {["e1" := "10.97.0.2"]}) as -> by (vm_compute; reflexivity).
  by intros [<- <-]%lookup_singleton_Some [<- _]%lookup_singleton_Some.
Qed.

Lemma portless_fresh (E : Env) : (∀ n, ids_New n ≠ "") → fresh_requests (World.mk portless 0 []).
Proof.
  intros Hne n _. split; [apply Hne|]. cbn [World.store].
  assert (Store.appliedSet portless = ∅) as -> by (vm_compute; reflexivity). apply not_elem_of_empty.
Qed.

Lemma vip_allocation_witness :
  ∃ w', Vips.reconcileVIPs (RO := canonical_range) (TL := wellknown_times) (E := quiet_env) (World.mk portless 0 [])
        = Ret (w', inl ())
    ∧ vips w' !! "e1" = None ∧ is_Some (vips w' !! "e2").
Proof.
  destruct (vip_allocation canonical_range canonical_range_ok wellknown_times quiet_env quiet_env_ok quiet_ids_inj
    (World.mk portless 0 []) (portless_fresh quiet_env ltac:(discriminate)) portless_vips)
    as (w' & Hrun & Hinj & Honly & _ & Hall).
  exists w'. split; [exact Hrun|].
  assert (∀ e, needs_vip (RO := canonical_range) portless e ↔ e = "e2") as Hneeds.
  { intros e. split.
    - intros (env & Hin & Hp & <-).
      assert (Forall (λ env, Vips.has_ports env = true → GetId env = "e2")
        (Store.ListEnvironments (RO := canonical_range) "" "" portless)) as HF
        by (vm_compute; repeat (constructor; [by intros|]); constructor).
      rewrite Forall_forall in HF. exact (HF env Hin Hp).
    - intros ->. eexists. split; [vm_compute; right; left|]. split; vm_compute; reflexivity. }
  split.
  - destruct (vips w' !! "e1") as [ip|] eqn:He; [|reflexivity]. destruct (Honly _ _ He) as [Hn _].
    apply Hneeds in Hn. discriminate Hn.
  - destruct (Hall "e2") as [H|H]; [by apply Hneeds|exact H|].
    destruct (H "10.97.0.2") as [e He]; [exists 0%Z, 2%Z; split; [lia|]; split; [lia|vm_compute; reflexivity]|].
    destruct (Honly _ _ He) as [->%Hneeds _]. by eexists.
Defined.

(** A failed release of an address is swallowed, and the address is given to
    another environment while the first still holds it. *)
Theorem failed_free_shares_vip :
  ∃ (E : Env) (w w' : World.t),
    Vips.reconcileVIPs (RO := canonical_range) (TL := wellknown_times) w = Ret (w', inl ())
    ∧ (∀ e1 e2 ip, vips w !! e1 = Some ip → vips w !! e2 = Some ip → e1 = e2)
    ∧ vips w' !! "e1" = Some "10.97.0.2" ∧ vips w' !! "e2" = Some "10.97.0.2".
Proof.
  exists flaky_env, (World.mk portless 0 []).
  destruct (Vips.reconcileVIPs (RO := canonical_range) (TL := wellknown_times) (E := flaky_env) (World.mk portless 0 []))
    as [[w' r]|] eqn:E1; [|vm_compute in E1; discriminate].
  assert (r = inl () ∧ vips w' !! "e1" = Some "10.97.0.2" ∧ vips w' !! "e2" = Some "10.97.0.2") as (-> & H1 & H2)
    by (vm_compute in E1; injection E1 as <- <-; split_and!; vm_compute; reflexivity).
  exists w'. split; [reflexivity|]. split; [exact portless_vips|]. by split.
Qed.
