(* ===== verification/Jobs.v ===== *)
(** One-shot jobs (internal/daemon/scheduler/jobs.go): placing a job as an assignment,
    observing its outcome, and retrying it with exponential backoff. *)
From stdpp Require Import pretty.
From S2P Require Import Prelude Api Watch State StateInv StoreProps Fsm FsmProps FsmSteps Samples Platform Placement.
From S2P Require Import Leader Orchestrator Control OrchestratorProps Scheduler SchedulerProps.

Module Jobs.

Definition jobRetryBase : Z := (5 * second)%Z.
Definition jobRetryMax : Z := (300 * second)%Z.

(** The doubling loop; [n] iterations are left. *)
Fixpoint backoff_loop (n : nat) (d : Z) : Z :=
  match n with
  | 0 => d
  | S n => let d := i64 (d * 2) in if (jobRetryMax <=? d)%Z then jobRetryMax else backoff_loop n d
  end.

(** [for i := uint32(1); i < attempt; i++]: attempt - 1 iterations. *)
Definition jobBackoff (attempt : Z) : Z := backoff_loop (Z.to_nat (attempt - 1)) jobRetryBase.

Section jobs.
Context {RO : RangeOrder} {TL : TimestampLib} {E : Env}.

Definition jobAssignment (st : Store.t) (job : option Job.t) : option (option Assignment.t) :=
  List.find (λ a, a ⇝ Assignment.JobId =? GetId job) (Store.ListAssignments (job ⇝ Job.EnvironmentId) st).

Definition jobRelease (st : Store.t) (job : option Job.t) (env : option Environment.t) : option (option Release.t) :=
  if negb (job ⇝ Job.ReleaseId =? "") then Store.Release (job ⇝ Job.ReleaseId) st
  else if negb (env ⇝ Environment.ActiveReleaseId =? "") then Store.Release (env ⇝ Environment.ActiveReleaseId) st
  else None.

Definition putJob (job : Job.t) : M () :=
  meta ← deref (Job.Meta job);
  now ← Now;
  let job := job <| Job.Meta := Some (meta <| Meta.UpdatedAt := Some (timestamppb_New now) |>) |> in
  Sched.sapply (Command_PutJob (Some (PutJob.mk (Some job)))).

Definition deleteAssignment (a : option Assignment.t) : M () :=
  Sched.sapply (Command_DeleteAssignments (Some (DeleteAssignments.mk [GetId a]))).

Definition finishJob (job : Job.t) (status : JobStatus) (code : Z) (msg : string) : M () :=
  now ← Now;
  let job := job <| Job.Status := status |> in
  let job := job <| Job.ExitCode := code |> in
  let job := job <| Job.Error := msg |> in
  let job := job <| Job.FinishedAt := Some (timestamppb_New now) |> in
  putJob job.

(** Still backing off? *)
Definition backing_off (job : Job.t) : M bool :=
  match Job.Status job, Job.FinishedAt job with
  | JOB_STATUS_RETRYING, Some fin =>
    now ← Now;
    mret (now <? AsTime (Some fin) + jobBackoff (Job.Attempt job))%Z
  | _, _ => mret false
  end.

(** The job marked RUNNING. *)
Definition started (job : Job.t) (node rel : string) (attempt : Z) (now : option Timestamp.t) : Job.t :=
  let job := job <| Job.Status := JOB_STATUS_RUNNING |> in
  let job := job <| Job.NodeId := node |> in
  let job := job <| Job.ReleaseId := rel |> in
  let job := job <| Job.Attempt := attempt |> in
  let job := job <| Job.Error := "" |> in
  let job := job <| Job.FinishedAt := None |> in
  match Job.StartedAt job with
  | None => job <| Job.StartedAt := now |>
  | Some _ => job
  end.

Definition place_error_text (err : option place_error) : string :=
  match err with Some e => place_error_string e | None => "<nil>" end.

Definition placeJob (job : Job.t) : M () :=
  wait ← backing_off job;
  if wait : bool then mret ()
  else
    st ← read;
    match Store.Environment (Job.EnvironmentId job) st with
    | None => finishJob job JOB_STATUS_FAILED 0 "environment not found"
    | Some env =>
      match jobRelease st (Some job) env with
      | None => mret ()
      | Some rel =>
        let '(nodes, err) := Place st rel (GetId env) 1 ∅ in
        match err, nodes with
        | None, node :: _ =>
          now ← Now;
          id ← New;
          let ts := Some (timestamppb_New now) in
          let attempt := u32 (Job.Attempt job + 1) in
          Sched.sapply (putAssignments [Some (Assignment.mk (Some (Meta.mk id ts ts)) node (Job.ProjectId job)
            (Job.AppId job) (GetId env) (GetId rel) "" ASSIGNMENT_DESIRED_RUN (rel ⇝ Release.ConfigHash) ∅ None
            (GetId (Some job)))]);;
          putJob (started job node (GetId rel) attempt ts)
        | _, _ =>
          Sched.emitEvent env "job.no_capacity" "warning"
            ("cannot place job " +:+ GetId (Some job) +:+ ": " +:+ place_error_text err)
        end
      end
    end.

Definition jobSucceeded (job : Job.t) (a : option Assignment.t) : M () :=
  deleteAssignment a;;
  finishJob job JOB_STATUS_SUCCEEDED 0 "".

Definition jobAttemptFailed (job : Job.t) (code : Z) (msg : string) : M () :=
  now ← Now;
  let job := job <| Job.ExitCode := code |> in
  let job := job <| Job.Error := msg |> in
  let job := job <| Job.FinishedAt := Some (timestamppb_New now) |> in
  let job := job <| Job.Status :=
    if (Job.Attempt job <=? Job.MaxRetries job)%Z then JOB_STATUS_RETRYING else JOB_STATUS_FAILED |> in
  putJob job.

Definition jobAttemptFailedWith (job : Job.t) (a : option Assignment.t) (code : Z) (msg : string) : M () :=
  deleteAssignment a;;
  jobAttemptFailed job code msg.

Definition observeJob (job : Job.t) : M () :=
  st ← read;
  match jobAssignment st (Some job) with
  | None => jobAttemptFailed job (-1) "job assignment lost"
  | Some a =>
    let obs := a ⇝ Assignment.Observed in
    match obs ⇝ AssignmentObserved.State with
    | INSTANCE_STATE_STOPPED =>
      if (obs ⇝ AssignmentObserved.ExitCode =? 0)%Z then jobSucceeded job a
      else jobAttemptFailedWith job a (obs ⇝ AssignmentObserved.ExitCode) (obs ⇝ AssignmentObserved.Message)
    | INSTANCE_STATE_FAILED =>
      jobAttemptFailedWith job a (obs ⇝ AssignmentObserved.ExitCode) (obs ⇝ AssignmentObserved.Message)
    | _ => mret ()
    end
  end.

Definition reapJobAssignment (job : option Job.t) : M () :=
  st ← read;
  match jobAssignment st job with
  | None => mret ()
  | Some a => deleteAssignment a
  end.

Definition reconcileJob (job : option Job.t) : M () :=
  match job, job ⇝ Job.Status with
  | Some j, JOB_STATUS_QUEUED | Some j, JOB_STATUS_RETRYING => placeJob j
  | Some j, JOB_STATUS_RUNNING => observeJob j
  | _, _ => reapJobAssignment job
  end.

Definition reconcileJobs : M () :=
  st ← read;
  for_each (Store.ListJobs "" "" st) reconcileJob.

End jobs.
End Jobs.

(** * Backoff *)

Lemma backoff_loop_spec n d :
  (0 < d < Jobs.jobRetryMax)%Z → Jobs.backoff_loop n d = Z.min Jobs.jobRetryMax (d * 2 ^ Z.of_nat n).
Proof.
  revert d. induction n as [|n IH]; intros d Hd; cbn [Jobs.backoff_loop]; [rewrite Z.pow_0_r; lia|].
  assert (i64 (d * 2) = d * 2)%Z as ->.
  { apply i64_small. unfold in_i64. change Jobs.jobRetryMax with 300000000000%Z in Hd. lia. }
  rewrite Nat2Z.inj_succ, Z.pow_succ_r by lia. pose proof (Z.pow_pos_nonneg 2 (Z.of_nat n) ltac:(lia) ltac:(lia)) as Hp.
  cbv zeta. destruct (Z.leb_spec Jobs.jobRetryMax (d * 2)).
  - rewrite Z.min_l; [done|]. nia.
  - rewrite IH by lia. f_equal. lia.
Qed.

(** The retry delay is five seconds doubled per failed attempt, at most five
    minutes, for every attempt number; the doubling loop never overflows. *)
Theorem job_backoff_spec (attempt : Z) :
  Jobs.jobBackoff attempt = Z.min (300 * 10 ^ 9) (5 * 10 ^ 9 * 2 ^ Z.max 0 (attempt - 1))
  ∧ (5 * 10 ^ 9 ≤ Jobs.jobBackoff attempt ≤ 300 * 10 ^ 9)%Z
  ∧ (∀ attempt', (attempt ≤ attempt')%Z → (Jobs.jobBackoff attempt ≤ Jobs.jobBackoff attempt')%Z).
Proof.
  assert (∀ a, Jobs.jobBackoff a = Z.min (300 * 10 ^ 9) (5 * 10 ^ 9 * 2 ^ Z.max 0 (a - 1))) as Hb.
  { intros a. unfold Jobs.jobBackoff. rewrite backoff_loop_spec by done. f_equal. f_equal. f_equal. lia. }
  assert (∀ k, (0 ≤ k → 1 ≤ 2 ^ k)%Z) as Hp by (intros k Hk; pose proof (Z.pow_pos_nonneg 2 k); lia).
  split; [done|]. split.
  - rewrite Hb. specialize (Hp (Z.max 0 (attempt - 1)) ltac:(lia)). lia.
  - intros a Ha. rewrite !Hb. pose proof (Z.pow_le_mono_r 2 (Z.max 0 (attempt - 1)) (Z.max 0 (a - 1)) ltac:(lia) ltac:(lia)). lia.
Qed.

(** * Retries *)

(** The attempts a job may have made in each status. *)
Definition job_ok (j : Job.t) : Prop :=
  (0 ≤ Job.Attempt j)%Z ∧ (Job.MaxRetries j < 2 ^ 32 - 1)%Z
  ∧ match Job.Status j with
    | JOB_STATUS_QUEUED | JOB_STATUS_RETRYING => (Job.Attempt j ≤ Job.MaxRetries j)%Z
    | _ => (Job.Attempt j ≤ Job.MaxRetries j + 1)%Z
    end.

(** How far a job is. *)
Definition job_rank (j : Job.t) : Z :=
  match Job.Status j with
  | JOB_STATUS_QUEUED | JOB_STATUS_RETRYING => 2 * Job.Attempt j
  | JOB_STATUS_RUNNING => 2 * Job.Attempt j - 1
  | _ => 2 * Job.MaxRetries j + 2
  end.

Section retries.
Context {RO : RangeOrder} {ROk : RangeOrderOk RO} {TL : TimestampLib} {E : Env}.
Variable j : Job.t.
Hypothesis Hok : job_ok j.

(** A step of the job. *)
Definition job_step (j' : Job.t) : Prop :=
  GetId (Some j') = GetId (Some j) ∧ Job.MaxRetries j' = Job.MaxRetries j
  ∧ job_ok j' ∧ (job_rank j < job_rank j')%Z.

Definition job_allowed (st : Store.t) (m : Mutation) : Prop :=
  match m with
  | Command_PutJob x => ∃ j', x ⇝ PutJob.Job = Some j' ∧ job_step j'
  | Command_PutAssignments x =>
    ∃ a, x ⇝ PutAssignments.Assignments = [Some a] ∧ Assignment.JobId a = GetId (Some j)
      ∧ Assignment.Desired a = ASSIGNMENT_DESIRED_RUN ∧ (Job.Attempt j ≤ Job.MaxRetries j)%Z
  | Command_DeleteAssignments x =>
    ∃ a, x ⇝ DeleteAssignments.AssignmentIds = [GetId a] ∧ a ⇝ Assignment.JobId = GetId (Some j)
      ∧ a ∈ Store.ListAssignments (Job.EnvironmentId j) st
  | Command_AppendEvents _ => True
  | _ => False
  end.

Variable st : Store.t.
Notation ok m w := (emits_at (job_allowed st) m w).

(** Only the meta of [j'] changes when it is written. *)
Lemma ok_putJob j' w :
  Job.Meta j' = Job.Meta j → Job.MaxRetries j' = Job.MaxRetries j → job_ok j' → (job_rank j < job_rank j')%Z →
  ok (Jobs.putJob j') w.
Proof.
  intros Hm Hr Hj Hk. apply logs_bind_silent; [constructor|apply silent_deref|]. intros w1 meta _ Hmeta.
  apply logs_bind_silent; [constructor|apply silent_tick|]. intros w2 now _ _. apply emits_apply.
  cbn [job_allowed get PutJob.Job]. eexists. split; [done|]. split; [|done].
  destruct (Job.Meta j') as [mt|] eqn:E1; [|discriminate]. injection Hmeta as _ <-.
  assert (∀ x : Job.t, GetId (Some x) = Job.Meta x ⇝ Meta.Id) as Hid by done. by rewrite !Hid, <- Hm.
Qed.

Lemma ok_finishJob status code msg w :
  (job_rank j < 2 * Job.MaxRetries j + 2)%Z → status = JOB_STATUS_FAILED ∨ status = JOB_STATUS_SUCCEEDED →
  ok (Jobs.finishJob j status code msg) w.
Proof.
  intros Hlt Hs. apply logs_bind_silent; [constructor|apply silent_tick|]. intros w1 now _ _. apply ok_putJob; [done|done| |].
  - destruct Hok as (H1 & H2 & H3). unfold job_ok. cbn. destruct Hs as [-> | ->]; split_and!; try done;
      destruct (Job.Status j); lia.
  - unfold job_rank at 2. cbn. by destruct Hs as [-> | ->].
Qed.

Lemma ok_failed code msg w : Job.Status j = JOB_STATUS_RUNNING → ok (Jobs.jobAttemptFailed j code msg) w.
Proof.
  intros Hs. destruct Hok as (H1 & H2 & H3). rewrite Hs in H3.
  apply logs_bind_silent; [constructor|apply silent_tick|]. intros w1 now _ _. cbv zeta.
  apply ok_putJob; [done|done| |]; unfold job_ok, job_rank; cbn; rewrite ?Hs;
    destruct (Z.leb_spec (Job.Attempt j) (Job.MaxRetries j)); cbn; lia.
Qed.

Lemma ok_delete a w :
  a ⇝ Assignment.JobId = GetId (Some j) → a ∈ Store.ListAssignments (Job.EnvironmentId j) st → ok (Jobs.deleteAssignment a) w.
Proof. intros H1 H2. apply emits_apply. cbn. by exists a. Qed.

Lemma jobAssignment_spec a :
  Jobs.jobAssignment st (Some j) = Some a →
  a ⇝ Assignment.JobId = GetId (Some j) ∧ a ∈ Store.ListAssignments (Job.EnvironmentId j) st.
Proof.
  unfold Jobs.jobAssignment. intros [H1 H2]%find_some. apply str_eqb_eq in H2. by rewrite list_elem_of_In.
Qed.

Lemma ok_observe w : Job.Status j = JOB_STATUS_RUNNING → World.store w = st → ok (Jobs.observeJob j) w.
Proof.
  intros Hs Hst. apply logs_bind_read. rewrite Hst.
  destruct (Jobs.jobAssignment st (Some j)) as [a|] eqn:Ha; [|by apply ok_failed].
  apply jobAssignment_spec in Ha as [Ha1 Ha2]. cbv zeta.
  assert (∀ code msg w, ok (Jobs.jobAttemptFailedWith j a code msg) w) as Hf.
  { intros code msg w1. apply emits_bind; [by apply ok_delete|]. intros w2 _ _. by apply ok_failed. }
  destruct (_ ⇝ AssignmentObserved.State); try (by apply emits_silent, silent_ret); try (by apply Hf).
  destruct (_ =? 0)%Z; [|by apply Hf]. apply emits_bind; [by apply ok_delete|]. intros w2 _ _. apply ok_finishJob; [|by right].
  destruct Hok as (H1 & H2 & H3). rewrite Hs in H3. unfold job_rank. rewrite Hs. lia.
Qed.

Lemma ok_placeJob w :
  Job.Status j = JOB_STATUS_QUEUED ∨ Job.Status j = JOB_STATUS_RETRYING → ok (Jobs.placeJob j) w.
Proof.
  intros Hs. assert (Job.Attempt j ≤ Job.MaxRetries j)%Z as Ha.
  { destruct Hok as (_ & _ & H3). by destruct Hs as [Hs|Hs]; rewrite Hs in H3. }
  assert (job_rank j = 2 * Job.Attempt j)%Z as Hr by (unfold job_rank; by destruct Hs as [-> | ->]).
  apply logs_bind_silent; [constructor| |].
  { unfold Jobs.backing_off. destruct (Job.Status j), (Job.FinishedAt j); solve_silent. }
  intros w1 wait _ _. destruct wait; [apply emits_silent, silent_ret|].
  apply logs_bind_silent; [constructor|apply silent_read|]. intros w2 st2 _ _.
  destruct (Store.Environment _ _) as [env|]; [|apply ok_finishJob; [lia|by left]].
  destruct (Jobs.jobRelease _ _ _) as [rel|]; [|apply emits_silent, silent_ret].
  destruct (Place _ _ _ _ _) as [nodes err].
  assert (∀ env k sv msg w, ok (Sched.emitEvent env k sv msg) w) as Hev by (intros; by apply emits_event).
  destruct err; [by apply Hev|]. destruct nodes as [|node nodes]; [by apply Hev|].
  apply logs_bind_silent; [constructor|apply silent_tick|]. intros w3 now _ _.
  apply logs_bind_silent; [constructor|apply silent_tick|]. intros w4 id _ _. cbv zeta. apply emits_bind.
  - apply emits_apply. cbn. eexists. by split_and!.
  - intros w5 _ _. destruct Hok as (H1 & H2 & _).
    assert (u32 (Job.Attempt j + 1) = Job.Attempt j + 1)%Z as -> by (apply u32_small; unfold in_u32; lia).
    assert (∀ x, Job.Status x = JOB_STATUS_RUNNING → job_rank x = 2 * Job.Attempt x - 1)%Z as HR
      by (intros x Hx; unfold job_rank; by rewrite Hx).
    apply ok_putJob; unfold Jobs.started; destruct (Job.StartedAt _); try done; rewrite ?HR by done; unfold job_ok; cbn; lia.
Qed.

Lemma ok_reconcileJob w : World.store w = st → ok (Jobs.reconcileJob (Some j)) w.
Proof.
  intros Hst.
  assert (ok (Jobs.reapJobAssignment (Some j)) w) as Hreap.
  { apply logs_bind_read. rewrite Hst. destruct (Jobs.jobAssignment st (Some j)) as [a|] eqn:Ha;
      [|apply emits_silent, silent_ret]. apply jobAssignment_spec in Ha as [? ?]. by apply ok_delete. }
  unfold Jobs.reconcileJob. cbn [get]. destruct (Job.Status j) eqn:Hs; try done.
  - apply ok_placeJob. by left.
  - by apply ok_observe.
  - apply ok_placeJob. by right.
Qed.
End retries.

(** ** The career of a job *)

(** The values of a job that reconciliations write, each of one of the value before, in
    any environment. *)
Inductive career {RO : RangeOrder} {TL : TimestampLib} : Job.t → list Job.t → Prop :=
| career_end j : career j []
| career_step j j' l (E : Env) w w' r ms x :
    Jobs.reconcileJob (Some j) w = Ret (w', r) → World.sent w' = World.sent w ++ ms → Command_PutJob x ∈ ms →
    x ⇝ PutJob.Job = Some j' → career j' l → career j (j' :: l).

Definition is_running (j : Job.t) : bool := match Job.Status j with JOB_STATUS_RUNNING => true | _ => false end.

Lemma job_rank_bounds j : job_ok j → (job_rank j ≤ 2 * Job.MaxRetries j + 2)%Z ∧ (is_running j = true → job_rank j = 2 * Job.Attempt j - 1)%Z.
Proof. intros (H1 & H2 & H3). unfold job_rank, is_running. destruct (Job.Status j); split; intros; try done; lia. Qed.

(** Ranks only grow, and a running one is odd. *)
Lemma career_bounded {RO : RangeOrder} {TL : TimestampLib} j l : career j l → job_ok j →
  (2 * Z.of_nat (length (List.filter is_running l)) ≤ 2 * Job.MaxRetries j + 2 - job_rank j)%Z
  ∧ (Z.of_nat (length l) ≤ 2 * Job.MaxRetries j + 2 - job_rank j)%Z.
Proof.
  induction 1 as [j|j j' l E w w' r ms x Hrun Hsent Hin Hx Hc IH]; intros Hok; [pose proof (job_rank_bounds j Hok); cbn; lia|].
  destruct (ok_reconcileJob j Hok (World.store w) w eq_refl _ _ Hrun) as (ms' & Hms' & Hall).
  rewrite Hsent in Hms'. apply app_inv_head in Hms' as <-. rewrite Forall_forall in Hall. specialize (Hall _ Hin). cbn [job_allowed] in Hall.
  destruct Hall as (j2 & Hx2 & _ & Hmax & Hok' & Hrank). rewrite Hx in Hx2. injection Hx2 as <-.
  destruct (IH Hok') as [IH1 IH2]. rewrite Hmax in IH1, IH2. destruct (job_rank_bounds j' Hok') as [_ Hodd].
  cbn [List.filter length]. destruct (is_running j'); [specialize (Hodd eq_refl); cbn [length]|]; lia.
Qed.

(** C36: retries are bounded.  Of a job whose max_retries is below 2^32 - 1 and whose
    attempt counter is one it may have in its status, a reconciliation writes only later stages (a
    rank that grows, up to 2 max_retries + 2); it starts only assignments of this job,
    while retries remain, and deletes only them.  So however often the job is
    reconciled, and whatever becomes of the other proposals, it is marked as running at
    most max_retries + 1 times, those it has behind it included, and written a bounded
    number of times, each time as a value of which this holds again.  (The count is that
    of the attempts the job records: see an_attempt_that_is_not_recorded.) *)
Theorem job_retries_bounded (RO : RangeOrder) (TL : TimestampLib) (j : Job.t) :
  job_ok j →
  (∀ (E : Env) w w' r, Jobs.reconcileJob (Some j) w = Ret (w', r) →
    ∃ ms, World.sent w' = World.sent w ++ ms
    ∧ (∀ x, Command_PutJob x ∈ ms → ∃ j', x ⇝ PutJob.Job = Some j' ∧ GetId (Some j') = GetId (Some j)
         ∧ Job.MaxRetries j' = Job.MaxRetries j ∧ job_ok j'
         ∧ (job_rank j < job_rank j' ≤ 2 * Job.MaxRetries j + 2)%Z)
    ∧ (∀ x, Command_PutAssignments x ∈ ms → (Job.Attempt j ≤ Job.MaxRetries j)%Z
         ∧ ∃ a, x ⇝ PutAssignments.Assignments = [Some a] ∧ Assignment.JobId a = GetId (Some j))
    ∧ (∀ x, Command_DeleteAssignments x ∈ ms → ∃ a, x ⇝ DeleteAssignments.AssignmentIds = [GetId a]
         ∧ a ⇝ Assignment.JobId = GetId (Some j)
         ∧ a ∈ Store.ListAssignments (Job.EnvironmentId j) (World.store w)))
  ∧ (∀ l, career j l → (Z.of_nat (length (List.filter is_running l)) ≤ Job.MaxRetries j + 1 - Job.Attempt j)%Z
       ∧ (Z.of_nat (length l) ≤ 2 * Job.MaxRetries j + 3)%Z).
Proof.
  intros Hok. split.
  - intros E w w' r Hrun. destruct (ok_reconcileJob j Hok (World.store w) w eq_refl _ _ Hrun) as (ms & Hs & Hms).
    rewrite Forall_forall in Hms. exists ms. split; [done|]. split_and!; intros x Hx; specialize (Hms _ Hx); cbn in Hms.
    + destruct Hms as (j' & ? & ? & Hr & Hj & Hk). exists j'. split_and!; try done. rewrite <- Hr. by apply job_rank_bounds.
    + destruct Hms as (a & ? & ? & ? & ?). eauto.
    + done.
  - intros l Hl. destruct (career_bounded j l Hl Hok) as [H1 H2]. destruct Hok as (Ha & _ & H3). unfold job_rank in *.
    destruct (Job.Status j); lia.
Qed.

(** A job without retries.  Its assignment is proposed and committed, the record of the
    attempt is not: the next pass finds the job queued and starts it again. *)
Definition unrecorded : Env := {|
  fate n := if bool_decide (n = 4 ∨ n = 9)%nat then Failed false else Committed;
  others _ s := s; raft_index n := Z.of_nat n; leads _ := true; ids_New n := "id" +:+ pretty n; clock_Now n := 0%Z
|}.

Definition queued_job : Job.t :=
  Job.mk (sample_meta "job1") "proj" "app" "e1" "r1" "run" "" JOB_STATUS_QUEUED "" 0 0 0 "" None None "u1".

Definition job_cluster : Store.t :=
  Store.PutJob (Some queued_job)
  (Store.PutNode (Some (sample_node "n1" NODE_STATUS_ALIVE 4000 4096))
  (Store.PutRelease (Some (sample_release "r1" "e1" 1 (sample_spec false 1 100 100)))
  (Store.PutEnvironment (Some (sample_env "e1" "r1" (sample_spec false 1 100 100))) Store.New))).

Lemma an_attempt_that_is_not_recorded :
  Job.MaxRetries queued_job = 0%Z
  ∧ match (Jobs.reconcileJobs (RO := canonical_range) (TL := wellknown_times) (E := unrecorded);;
           Jobs.reconcileJobs (RO := canonical_range) (TL := wellknown_times) (E := unrecorded)) (World.mk job_cluster 0 []) with
    | Ret (w, inl _) =>
      (Job.Status <$> (Store.jobs (World.store w) !! "job1" ≫= id)) = Some JOB_STATUS_QUEUED
      ∧ ((λ a, (a ⇝ Assignment.JobId, a ⇝ Assignment.Desired)) <$> Store.ListAssignments (RO := canonical_range) "e1" (World.store w))
        = [("job1", ASSIGNMENT_DESIRED_RUN); ("job1", ASSIGNMENT_DESIRED_RUN)]
    | _ => False
    end.
Proof. vm_compute. split_and!; reflexivity. Qed.

(** ** Witness *)

Definition retrying_job (st : JobStatus) (attempt : Z) : Job.t :=
  Job.mk (sample_meta "job1") "proj" "app" "e1" "r1" "run" "" st "" 0 attempt 1 "" None None "u1".

Definition failed_job_run : option Assignment.t :=
  Some ((sample_assignment "j1" "n1" "e1" "r1" "" ASSIGNMENT_DESIRED_RUN INSTANCE_STATE_FAILED)
    <| Assignment.JobId := "job1" |>).

Definition one_job : Store.t :=
  Store.PutAssignments [failed_job_run] (Store.PutJob (Some (retrying_job JOB_STATUS_RUNNING 2)) Store.New).

Definition job_statuses (ms : list Mutation) : list JobStatus :=
  omap (λ m, match m with Command_PutJob x => (λ j, j ⇝ Job.Status) <$> (x ≫= λ p, Some (PutJob.Job p)) | _ => None end) ms.

Notation job_run := (Jobs.reconcileJob (RO := canonical_range) (TL := wellknown_times) (E := quiet_env)
  (Some (retrying_job JOB_STATUS_RUNNING 2)) (World.mk one_job 0 [])).

(** The second attempt of a job with one retry fails: the job is failed. *)
Lemma job_retries_bounded_witness :
  ∃ w', job_run = Ret (w', inl ()) ∧ job_statuses (World.sent w') = [JOB_STATUS_FAILED]
    ∧ ∀ x, Command_PutAssignments x ∉ World.sent w'.
Proof.
  destruct job_run as [[w' r]|] eqn:E1; [|vm_compute in E1; discriminate].
  assert (r = inl () ∧ job_statuses (World.sent w') = [JOB_STATUS_FAILED]) as [-> Hs]
    by (vm_compute in E1; injection E1 as <- <-; split; vm_compute; reflexivity).
  exists w'. split; [reflexivity|]. split; [exact Hs|].
  assert (job_ok (retrying_job JOB_STATUS_RUNNING 2)) as Hok by (vm_compute; split_and!; congruence).
  destruct (proj1 (job_retries_bounded canonical_range wellknown_times _ Hok) quiet_env _ w' _ E1) as (ms & Hms & _ & H & _).
  cbn [World.sent app] in Hms. rewrite Hms. intros x Hx. destruct (H x Hx) as [Hle _]. vm_compute in Hle. congruence.
Defined.
