(* ===== verification/Cron.v ===== *)
(** Cron schedules (internal/daemon/scheduler/cron.go): firing each schedule's due
    slot once per leader term as a one-shot job.  The schedule parser and its Next
    function are a library's, [CronLib]. *)
From S2P Require Import Prelude Api Watch State StateInv StoreProps Fsm FsmProps FsmSteps Samples Platform Placement.
From S2P Require Import Leader Orchestrator Control OrchestratorProps Scheduler SchedulerProps Jobs.

(** robfig/cron: ParseStandard, and the next activation after a time; times are
    nanoseconds since 1970. *)
Class CronLib := {
  Schedule : Type;
  ParseStandard : string → option Schedule;
  Next : Schedule → Z → Z
}.

(** time.Time{}, January 1 of year 1. *)
Definition zero_time : Z := (- 62135596800 * 10 ^ 9)%Z.

(** Documented: Next is later than its argument, or the zero time when no time
    satisfies the schedule. *)
Class CronLibOk (C : CronLib) := Next_later : ∀ s t, (t < Next s t)%Z ∨ Next s t = zero_time.

Module Cron.

Definition cronJitterWindow : Z := (30 * second)%Z.

(** The firing state of a leader term. *)
Record t := mk {
  cronLast : option (gmap string Z);
  cronEpoch : Z
}.

(** hash/fnv.New32a. *)
Fixpoint fnv32a (h : Z) (s : string) : Z :=
  match s with
  | EmptyString => h
  | String c s => fnv32a (u32 (Z.lxor h (Z.of_N (Ascii.N_of_ascii c)) * 16777619)) s
  end.

Definition nul : string := String (Ascii.ascii_of_nat 0) "".

Definition cronJitter (envID name : string) : Z :=
  (Z.modulo (fnv32a (fnv32a (fnv32a 2166136261 envID) nul) name) (u32 (cronJitterWindow / second)) * second)%Z.

Definition jobTerminal (s : JobStatus) : bool :=
  match s with
  | JOB_STATUS_SUCCEEDED | JOB_STATUS_FAILED | JOB_STATUS_CANCELED => true
  | _ => false
  end.

Section cron.
Context {RO : RangeOrder} {TL : TimestampLib} {C : CronLib} {E : Env}.

Definition resetCron : M t :=
  now ← Now;
  mret (mk (Some ∅) now).

Definition activeCronJobs (st : Store.t) (env : option Environment.t) (cronName : string) : list (option Job.t) :=
  List.filter (λ j, (j ⇝ Job.CronName =? cronName) && negb (jobTerminal (j ⇝ Job.Status)))
    (Store.ListJobs (env ⇝ Environment.ProjectId) (GetId env) st).

Definition cancelCronJob (job : option Job.t) : M () :=
  st ← read;
  match Jobs.jobAssignment st job with
  | Some a =>
    if negb (Sched.is_stop a) then
      a ← with_desired ASSIGNMENT_DESIRED_STOP a;
      Sched.sapply (putAssignments [a])
    else mret ()
  | None => mret ()
  end;;
  job ← deref job;
  now ← Now;
  let job := job <| Job.Status := JOB_STATUS_CANCELED |> in
  let job := job <| Job.FinishedAt := Some (timestamppb_New now) |> in
  Jobs.putJob job.

Definition enqueueCronJob (env : option Environment.t) (spec : option CronSpec.t) : M () :=
  now ← Now;
  id ← New;
  let ts := Some (timestamppb_New now) in
  Sched.sapply (Command_PutJob (Some (PutJob.mk (Some (Job.mk (Some (Meta.mk id ts ts))
    (env ⇝ Environment.ProjectId) (env ⇝ Environment.AppId) (GetId env) (env ⇝ Environment.ActiveReleaseId)
    (spec ⇝ CronSpec.Command) (spec ⇝ CronSpec.Name) JOB_STATUS_QUEUED "" 0 0 (spec ⇝ CronSpec.MaxRetries)
    "" None None ""))))).

Definition fireCron (env : option Environment.t) (spec : option CronSpec.t) : M () :=
  if env ⇝ Environment.ActiveReleaseId =? "" then mret ()
  else
    st ← read;
    let active := activeCronJobs st env (spec ⇝ CronSpec.Name) in
    match spec ⇝ CronSpec.Concurrency with
    | CONCURRENCY_POLICY_ALLOW => enqueueCronJob env spec
    | CONCURRENCY_POLICY_REPLACE => for_each active cancelCronJob;; enqueueCronJob env spec
    | _ => match active with [] => enqueueCronJob env spec | _ => mret () end
    end.

Definition cron_key (env : option Environment.t) (spec : option CronSpec.t) : string :=
  GetId env +:+ nul +:+ spec ⇝ CronSpec.Name.

Definition last_slot (cs : t) (key : string) : option Z := cronLast cs ≫= (!!) key.

(** The slot maybeFireCron fires, if any. *)
Definition due_slot (cs : t) (env : option Environment.t) (spec : option CronSpec.t) (now : Z) : option Z :=
  if (spec ⇝ CronSpec.Name =? "") || (spec ⇝ CronSpec.Schedule =? "") then None
  else match ParseStandard (spec ⇝ CronSpec.Schedule) with
  | None => None
  | Some sched =>
    let last := last_slot cs (cron_key env spec) in
    let baseline := match last with
      | Some l => if (cronEpoch cs <? l)%Z then l else cronEpoch cs
      | None => cronEpoch cs
      end in
    let due := Next sched baseline in
    if (now <? due + cronJitter (GetId env) (spec ⇝ CronSpec.Name))%Z then None
    else match last with
    | Some l => if negb (l <? due)%Z then None else Some due
    | None => Some due
    end
  end.

(** The updated firing state is lost when leadership is: the next term starts from
    resetCron. *)
Definition maybeFireCron (cs : t) (env : option Environment.t) (spec : option CronSpec.t) (now : Z) : M t :=
  match due_slot cs env spec now with
  | None => mret cs
  | Some due =>
    fireCron env spec;;
    mret (mk (Some (<[cron_key env spec := due]> (default ∅ (cronLast cs)))) (cronEpoch cs))
  end.

(** A loop that threads the firing state. *)
Fixpoint for_each_cron {A} (l : list A) (f : t → A → M t) (cs : t) : M t :=
  match l with
  | [] => mret cs
  | x :: l => cs ← f cs x; for_each_cron l f cs
  end.

Definition reconcileCron (cs : t) : M t :=
  cs ← match cronLast cs with None => resetCron | Some _ => mret cs end;
  now ← Now;
  st ← read;
  for_each_cron (Store.ListEnvironments "" "" st) (λ cs env,
    for_each_cron (env ⇝ Environment.Service ⇝ ServiceSpec.Cron) (λ cs spec, maybeFireCron cs env spec now) cs) cs.

End cron.
End Cron.

(** * Firing a schedule *)

(** A proposal that creates a run. *)
Definition is_enqueue (m : Mutation) : bool :=
  match m with
  | Command_PutJob x => match (x ⇝ PutJob.Job) ⇝ Job.Status with JOB_STATUS_QUEUED => true | _ => false end
  | _ => false
  end.

Section fire.
Context {RO : RangeOrder} {ROk : RangeOrderOk RO} {TL : TimestampLib} {C : CronLib} {E : Env}.
Variables (env : option Environment.t) (spec : option CronSpec.t) (st : Store.t).

Notation policy := (spec ⇝ CronSpec.Concurrency).
Notation active := (Cron.activeCronJobs st env (spec ⇝ CronSpec.Name)).

(** What firing a schedule may propose: the new run, unless a run is active and the
    policy forbids overlap; under REPLACE, the cancellation of the active runs. *)
Definition cron_allowed (m : Mutation) : Prop :=
  env ⇝ Environment.ActiveReleaseId ≠ ""
  ∧ match m with
    | Command_PutJob x =>
      ∃ j, x ⇝ PutJob.Job = Some j ∧ Job.CronName j = spec ⇝ CronSpec.Name
        ∧ (Job.Status j = JOB_STATUS_QUEUED ∧ Job.EnvironmentId j = GetId env
             ∧ Job.ReleaseId j = env ⇝ Environment.ActiveReleaseId ∧ Job.MaxRetries j = spec ⇝ CronSpec.MaxRetries
             ∧ (policy ≠ CONCURRENCY_POLICY_ALLOW → policy ≠ CONCURRENCY_POLICY_REPLACE → active = [])
           ∨ Job.Status j = JOB_STATUS_CANCELED ∧ policy = CONCURRENCY_POLICY_REPLACE
             ∧ ∃ j0, j0 ∈ active ∧ GetId (Some j) = GetId j0)
    | Command_PutAssignments x =>
      policy = CONCURRENCY_POLICY_REPLACE
      ∧ ∃ a j0, x ⇝ PutAssignments.Assignments = [Some a] ∧ Assignment.Desired a = ASSIGNMENT_DESIRED_STOP
          ∧ j0 ∈ active ∧ Assignment.JobId a = GetId j0
    | _ => False
    end.

Notation ok m w := (emits_at cron_allowed m w).
Hypothesis Hactive : env ⇝ Environment.ActiveReleaseId ≠ "".

Lemma ok_enqueue w :
  (policy ≠ CONCURRENCY_POLICY_ALLOW → policy ≠ CONCURRENCY_POLICY_REPLACE → active = []) →
  ok (Cron.enqueueCronJob env spec) w.
Proof.
  intros Hp. apply logs_bind_silent; [constructor|apply silent_tick|]. intros w1 now _ _.
  apply logs_bind_silent; [constructor|apply silent_tick|]. intros w2 id _ _. apply emits_apply.
  split; [done|]. cbn. eexists. split; [done|]. split; [done|]. by left.
Qed.

Lemma active_named j : j ∈ active → j ⇝ Job.CronName = spec ⇝ CronSpec.Name.
Proof. intros [_ [H _]%andb_prop]%list_elem_of_In%filter_In. by apply str_eqb_eq in H. Qed.

Lemma ok_cancel j w :
  policy = CONCURRENCY_POLICY_REPLACE → j ∈ active → ok (Cron.cancelCronJob j) w.
Proof.
  intros Hp Hj. unfold Cron.cancelCronJob. apply logs_bind_silent; [constructor|apply silent_read|]. intros w1 st1 _ _.
  apply emits_bind.
  - destruct (Jobs.jobAssignment st1 j) as [a|] eqn:Ha; [|apply emits_silent, silent_ret].
    destruct (negb _); [|apply emits_silent, silent_ret].
    apply logs_bind_silent; [constructor|apply silent_with_desired|]. intros w2 b _ Hb.
    apply bind_inl in Hb as (w3 & a' & Ha' & [_ ->]%ret_inl). destruct a as [a|]; [|discriminate].
    apply ret_inl in Ha' as [_ ->]. apply emits_apply. split; [done|]. split; [done|]. eexists _, j. split; [done|].
    split; [done|]. split; [done|]. apply find_some in Ha as [_ Ha]. by apply str_eqb_eq in Ha.
  - intros w2 [] _. apply logs_bind_silent; [constructor|apply silent_deref|]. intros w3 j' _ Hj'.
    destruct j as [j|]; [|discriminate]. apply ret_inl in Hj' as [_ ->].
    apply logs_bind_silent; [constructor|apply silent_tick|]. intros w4 now _ _. cbv zeta.
    apply logs_bind_silent; [constructor|apply silent_deref|]. intros w5 meta _ Hm. cbn in Hm.
    apply logs_bind_silent; [constructor|apply silent_tick|]. intros w6 now2 _ _. apply emits_apply.
    split; [done|]. cbn. eexists. split; [done|]. split; [by apply active_named in Hj|]. right. split; [done|]. split; [done|].
    exists (Some j). split; [done|]. destruct (Job.Meta j) eqn:Hmeta; [|discriminate]. apply ret_inl in Hm as [_ ->].
    assert (∀ x : Job.t, GetId (Some x) = Job.Meta x ⇝ Meta.Id) as Hid by done. by rewrite !Hid, Hmeta.
Qed.
End fire.

Section pass.
Context {RO : RangeOrder} {ROk : RangeOrderOk RO} {TL : TimestampLib} {C : CronLib} {E : Env}.

Lemma ok_fire env spec w : emits_at (cron_allowed env spec (World.store w)) (Cron.fireCron env spec) w.
Proof.
  unfold Cron.fireCron. destruct (_ =? "") eqn:Hrel; [apply emits_silent, silent_ret|]. apply str_eqb_neq in Hrel.
  apply logs_bind_read. cbv zeta.
  destruct (spec ⇝ CronSpec.Concurrency) eqn:Hp; try (by apply ok_enqueue; [|rewrite Hp]).
  all: try (destruct (Cron.activeCronJobs _ _ _) eqn:Ha; [|apply emits_silent, silent_ret]; by apply ok_enqueue).
  apply emits_bind; [|intros w1 [] _; apply ok_enqueue; [done|by rewrite Hp]].
  apply emits_for_each. intros j w1 Hj. by apply ok_cancel.
Qed.

Lemma budget_enqueue env spec : budget is_enqueue 1 (Cron.enqueueCronJob env spec).
Proof.
  unfold Cron.enqueueCronJob. apply (budget_bind is_enqueue 0 1); [apply budget_tick|]. intros now.
  apply (budget_bind is_enqueue 0 1); [apply budget_tick|]. intros id. apply budget_apply.
Qed.

Lemma budget_cancel j : budget is_enqueue 0 (Cron.cancelCronJob j).
Proof.
  unfold Cron.cancelCronJob. apply (budget_bind is_enqueue 0 0); [apply budget_read|]. intros st.
  apply (budget_bind is_enqueue 0 0).
  - destruct (Jobs.jobAssignment st j) as [a|]; [|apply budget_ret]. destruct (negb _); [|apply budget_ret].
    apply (budget_bind is_enqueue 0 0); [apply budget_silent, silent_with_desired|]. intros b. apply budget_apply.
  - intros []. apply (budget_bind is_enqueue 0 0); [apply budget_deref|]. intros j'.
    apply (budget_bind is_enqueue 0 0); [apply budget_tick|]. intros now. cbv zeta.
    apply (budget_bind is_enqueue 0 0); [apply budget_deref|]. intros m.
    apply (budget_bind is_enqueue 0 0); [apply budget_tick|]. intros now2. apply budget_apply.
Qed.

(** One firing creates at most one run. *)
Lemma budget_fire env spec : budget is_enqueue 1 (Cron.fireCron env spec).
Proof.
  unfold Cron.fireCron. destruct (_ =? ""); [apply budget_ret|].
  apply (budget_bind is_enqueue 0 1); [apply budget_read|]. intros st. cbv zeta.
  destruct (spec ⇝ CronSpec.Concurrency); try (by apply budget_enqueue).
  all: try (destruct (Cron.activeCronJobs _ _ _); [by apply budget_enqueue|apply budget_ret]).
  apply (budget_bind is_enqueue 0 1); [|intros []; by apply budget_enqueue].
  apply budget_for_each, budget_cancel.
Qed.

(** ** What a firing does, in order *)

(** A cancellation that went through stopped the instance of the run, unless it was told
    to, and marked the run as canceled. *)
Definition cancellation (st : Store.t) (j : option Job.t) (ms : list Mutation) : Prop :=
  (∀ a, Jobs.jobAssignment st j = Some a → Sched.is_stop a = false →
     ∃ a', Command_PutAssignments (Some (PutAssignments.mk [Some a'])) ∈ ms
       ∧ Assignment.Desired a' = ASSIGNMENT_DESIRED_STOP ∧ GetId (Some a') = GetId a)
  ∧ ∃ j', Command_PutJob (Some (PutJob.mk (Some j'))) ∈ ms ∧ Job.Status j' = JOB_STATUS_CANCELED ∧ GetId (Some j') = GetId j.

Lemma sent_sapply m w w' r : Sched.sapply m w = Ret (w', r) → World.sent w' = World.sent w ++ [m].
Proof. intros H. destruct (logs_apply (λ l, l = [m]) "system:scheduler" m w eq_refl _ _ H) as (? & Hs & ->). exact Hs. Qed.

Lemma cancel_done j w w' :
  Cron.cancelCronJob j w = Ret (w', inl ()) → ∃ ms, World.sent w' = World.sent w ++ ms ∧ cancellation (World.store w) j ms.
Proof.
  unfold Cron.cancelCronJob. intros (w1 & st & Hr & H)%bind_inl. injection Hr as <- <-.
  apply bind_inl in H as (w2 & [] & Hstop & H).
  assert (∃ l, World.sent w2 = World.sent w ++ l ∧ ∀ a, Jobs.jobAssignment (World.store w) j = Some a → Sched.is_stop a = false →
    ∃ a', Command_PutAssignments (Some (PutAssignments.mk [Some a'])) ∈ l
      ∧ Assignment.Desired a' = ASSIGNMENT_DESIRED_STOP ∧ GetId (Some a') = GetId a) as (l & Hl & Hs).
  { destruct (Jobs.jobAssignment (World.store w) j) as [a|]; [|apply ret_inl in Hstop as [-> _]; exists []; by rewrite app_nil_r].
    destruct (Sched.is_stop a) eqn:Hst; cbn [negb] in Hstop.
    { apply ret_inl in Hstop as [-> _]. exists []. rewrite app_nil_r. split; [done|]. intros a' [= <-]. by rewrite Hst. }
    apply bind_inl in Hstop as (w3 & b & Hb & Hput). pose proof (silent_with_desired _ _ _ _ _ Hb) as [Hsent _].
    apply bind_inl in Hb as (w4 & a' & Ha' & [_ ->]%ret_inl). destruct a as [a|]; [|discriminate]. apply ret_inl in Ha' as [_ ->].
    apply sent_sapply in Hput. eexists. rewrite Hput, Hsent. split; [reflexivity|]. intros ? [= <-] _. eexists. split; [by left|done]. }
  apply bind_inl in H as (w3 & j' & Hd & H). destruct j as [j|]; [|discriminate]. apply ret_inl in Hd as [-> ->].
  apply bind_inl in H as (w4 & now & Hn & H). injection Hn as <- <-. cbv zeta in H. unfold Jobs.putJob in H.
  apply bind_inl in H as (w5 & meta & Hm & H). cbn in Hm. destruct (Job.Meta j) as [meta'|] eqn:Hmeta; [|discriminate].
  apply ret_inl in Hm as [-> ->]. apply bind_inl in H as (w6 & now2 & Hn & H). injection Hn as <- <-. apply sent_sapply in H.
  eexists. rewrite H. cbn [World.sent]. rewrite Hl, <- app_assoc. split; [reflexivity|]. split.
  - intros a Ha Hst. destruct (Hs a Ha Hst) as (a' & Hin & ?). exists a'. split; [apply elem_of_app; by left|done].
  - eexists. split; [apply elem_of_app; right; by left|]. split; [done|].
    assert (∀ x : Job.t, GetId (Some x) = Job.Meta x ⇝ Meta.Id) as Hid by done. by rewrite !Hid, Hmeta.
Qed.

(** The cancellation of a run, from its first step to its last, among some proposals. *)
Definition cancelled_within (w : World.t) (pre : list Mutation) (j : option Job.t) : Prop :=
  ∃ w1 w2, Cron.cancelCronJob j w1 = Ret (w2, inl ())
    ∧ World.sent w `prefix_of` World.sent w1 ∧ World.sent w2 `prefix_of` World.sent w ++ pre.

Lemma for_each_all_done l w w' :
  for_each l Cron.cancelCronJob w = Ret (w', inl ()) →
  World.sent w `prefix_of` World.sent w'
  ∧ ∀ j, j ∈ l → ∃ w1 w2, Cron.cancelCronJob j w1 = Ret (w2, inl ())
      ∧ World.sent w `prefix_of` World.sent w1 ∧ World.sent w2 `prefix_of` World.sent w'.
Proof.
  revert w. induction l as [|j l IH]; intros w H; cbn [for_each] in H.
  { apply ret_inl in H as [-> _]. split; [done|]. by intros j ?%elem_of_nil. }
  apply bind_inl in H as (w1 & [] & Hj & H). destruct (IH w1 H) as [Hp Hall]. destruct (cancel_done _ _ _ Hj) as (ms & Hms & _).
  assert (World.sent w `prefix_of` World.sent w1) as Hw by (rewrite Hms; by apply prefix_app_r).
  split; [by etrans|]. intros i [->|Hi]%elem_of_cons; [by exists w, w1|].
  destruct (Hall i Hi) as (w2 & w3 & ? & ? & ?). exists w2, w3. split_and!; [done|by etrans|done].
Qed.

Lemma no_enqueue_before l pre e post rest :
  length (List.filter is_enqueue l) ≤ 0 → is_enqueue e = true → l ++ rest = pre ++ e :: post → l `prefix_of` pre.
Proof.
  revert pre. induction l as [|m l IH]; intros pre Hl He Heq; [apply prefix_nil|]. cbn in Hl. destruct (is_enqueue m) eqn:Em; [cbn in Hl; lia|].
  destruct pre as [|m' pre]; cbn in Heq; [injection Heq as -> _; congruence|]. injection Heq as <- Heq.
  apply prefix_cons. by apply IH.
Qed.

Lemma fire_replaces env spec w w' r pre e post :
  Cron.fireCron env spec w = Ret (w', r) → World.sent w' = World.sent w ++ pre ++ e :: post → is_enqueue e = true →
  spec ⇝ CronSpec.Concurrency = CONCURRENCY_POLICY_REPLACE →
  ∀ j, j ∈ Cron.activeCronJobs (World.store w) env (spec ⇝ CronSpec.Name) → cancelled_within w pre j.
Proof.
  intros Hr Hsent He Hp j Hj. unfold Cron.fireCron in Hr. destruct (_ =? "").
  { apply (f_equal (λ o, match o with Ret (x, _) => World.sent x | Panic => [] end)) in Hr. cbn in Hr. rewrite <- Hr in Hsent.
    rewrite <- (app_nil_r (World.sent w)) in Hsent at 1. apply app_inv_head in Hsent. by destruct pre. }
  unfold read, mbind at 1, M_bind at 1 in Hr. cbv zeta in Hr. rewrite Hp in Hr. set (act := Cron.activeCronJobs _ _ _) in *.
  pose proof (budget_for_each is_enqueue act Cron.cancelCronJob budget_cancel w) as Hb. unfold mbind, M_bind in Hr.
  destruct (for_each act Cron.cancelCronJob w) as [[w1 [[]|err]]|] eqn:Efor; [| |done].
  - destruct (Hb _ _ Efor) as (l & Hl & Hn). destruct (budget_enqueue env spec w1 _ _ Hr) as (l2 & Hl2 & _).
    rewrite Hl2, Hl, <- app_assoc in Hsent. apply app_inv_head in Hsent.
    pose proof (no_enqueue_before _ _ _ _ _ Hn He Hsent) as Hpre. destruct (for_each_all_done _ _ _ Efor) as [_ Hall].
    destruct (Hall j Hj) as (wa & wb & ? & ? & Hend). exists wa, wb. split_and!; [done..|]. etrans; [exact Hend|]. rewrite Hl. by apply prefix_app.
  - injection Hr as <- <-. destruct (Hb _ _ Efor) as (l & Hl & Hn). rewrite Hl in Hsent. apply app_inv_head in Hsent. subst l.
    rewrite List.filter_app, length_app in Hn. cbn in Hn. rewrite He in Hn. cbn in Hn. lia.
Qed.

(** A firing that goes through, of a schedule that may run, creates a run. *)
Lemma fire_enqueues env spec w w' :
  Cron.fireCron env spec w = Ret (w', inl ()) → env ⇝ Environment.ActiveReleaseId ≠ "" →
  (spec ⇝ CronSpec.Concurrency = CONCURRENCY_POLICY_ALLOW ∨ spec ⇝ CronSpec.Concurrency = CONCURRENCY_POLICY_REPLACE
   ∨ Cron.activeCronJobs (World.store w) env (spec ⇝ CronSpec.Name) = []) →
  ∃ ms e, World.sent w' = World.sent w ++ ms ++ [e] ∧ is_enqueue e = true.
Proof.
  intros Hr Hrel%str_eqb_neq Hp. unfold Cron.fireCron in Hr. rewrite Hrel in Hr.
  unfold read, mbind at 1, M_bind at 1 in Hr. cbv zeta in Hr. set (act := Cron.activeCronJobs _ _ _) in *.
  assert (∀ w1, Cron.enqueueCronJob env spec w1 = Ret (w', inl ()) → ∃ e, World.sent w' = World.sent w1 ++ [e] ∧ is_enqueue e = true) as Henq.
  { intros w1 H. unfold Cron.enqueueCronJob in H. apply bind_inl in H as (w2 & now & Hn & H). injection Hn as <- <-.
    apply bind_inl in H as (w3 & id & Hn & H). injection Hn as <- <-. apply sent_sapply in H. by eexists. }
  destruct (spec ⇝ CronSpec.Concurrency) eqn:Ec; [..|];
    try (destruct Hp as [[=]|[[=]|Hp]]; rewrite Hp in Hr);
    try (destruct (Henq _ Hr) as (e & He & ?); by exists [], e).
  - apply bind_inl in Hr as (w1 & [] & Hf & Hr). destruct (Henq _ Hr) as (e & He & ?).
    destruct (for_each_all_done _ _ _ Hf) as [[l Hl] _]. exists l, e. by rewrite He, Hl, <- app_assoc.
Qed.

(** ** A leader term *)

(** A slot that was fired: when it was due, and what was proposed. *)
Record firing := Firing { fired_key : string; fired_due : Z; fired_log : list Mutation }.

(** The firing states a term goes through, one schedule visit at a time, and the
    firings so far. *)
Inductive term (epoch : Z) : Cron.t → list firing → Prop :=
| term_start : term epoch (Cron.mk (Some ∅) epoch) []
| term_wait cs fs env spec now w w' cs' :
    term epoch cs fs → Cron.due_slot cs env spec now = None →
    Cron.maybeFireCron cs env spec now w = Ret (w', inl cs') → term epoch cs' fs
| term_fire cs fs env spec now due w w' cs' ms :
    term epoch cs fs → Cron.due_slot cs env spec now = Some due →
    Cron.maybeFireCron cs env spec now w = Ret (w', inl cs') →
    World.sent w' = World.sent w ++ ms →
    term epoch cs' (fs ++ [Firing (Cron.cron_key env spec) due ms]).

(** A fired slot lies after the slot fired before it, and after the epoch unless the
    schedule never fires. *)
Lemma due_slot_later (COk : CronLibOk C) cs env spec now due :
  Cron.due_slot cs env spec now = Some due →
  ((Cron.cronEpoch cs < due)%Z ∨ due = zero_time)
  ∧ ∀ l, Cron.last_slot cs (Cron.cron_key env spec) = Some l → (l < due)%Z.
Proof.
  unfold Cron.due_slot. destruct (_ || _); [done|]. destruct (ParseStandard _) as [sched|]; [|done]. cbv zeta.
  set (b := match Cron.last_slot cs _ with Some _ => _ | None => _ end). destruct (_ <? _)%Z; [done|].
  assert (Cron.cronEpoch cs ≤ b)%Z as Hb.
  { unfold b. destruct (Cron.last_slot _ _) as [l|]; [|lia]. destruct (Z.ltb_spec (Cron.cronEpoch cs) l); lia. }
  intros Hd. split.
  - destruct (Next_later sched b) as [Hl|Hz]; destruct (Cron.last_slot _ _) as [l|];
      repeat case_match; simplify_eq; (by right) || (left; lia).
  - intros l Hl. rewrite Hl in Hd. destruct (Z.ltb_spec l (Next sched b)); [|discriminate]. cbn in Hd. by injection Hd as <-.
Qed.

(** The firing state records the latest slot fired for each schedule. *)
Definition recorded (epoch : Z) (cs : Cron.t) (fs : list firing) : Prop :=
  Cron.cronEpoch cs = epoch ∧ Cron.cronLast cs ≠ None
  ∧ ∀ f, f ∈ fs → ∃ l, Cron.last_slot cs (fired_key f) = Some l ∧ (fired_due f ≤ l)%Z.

Lemma term_recorded (COk : CronLibOk C) epoch cs fs :
  term epoch cs fs → recorded epoch cs fs
  ∧ (∀ f, f ∈ fs → ((epoch < fired_due f)%Z ∨ fired_due f = zero_time)
       ∧ length (List.filter is_enqueue (fired_log f)) ≤ 1)
  ∧ StronglySorted (λ f g, fired_key f = fired_key g → (fired_due f < fired_due g)%Z) fs.
Proof.
  induction 1 as [|cs fs env spec now w w' cs' Ht IH Hdue Hrun|cs fs env spec now due w w' cs' ms Ht IH Hdue Hrun Hsent].
  - split_and!; [by split_and!; [| |intros f Hf%elem_of_nil]|by intros f Hf%elem_of_nil|constructor].
  - unfold Cron.maybeFireCron in Hrun. rewrite Hdue in Hrun. by apply ret_inl in Hrun as [_ ->].
  - destruct IH as ((He & Hl & Hrec) & Hfs & Hsort). pose proof (due_slot_later COk _ _ _ _ _ Hdue) as [Hep Hlast].
    unfold Cron.maybeFireCron in Hrun. rewrite Hdue in Hrun. apply bind_inl in Hrun as (w1 & [] & Hfire & [-> ->]%ret_inl).
    destruct (Cron.cronLast cs) as [m|] eqn:Hm; [|done]. unfold Cron.last_slot in Hlast, Hrec. rewrite Hm in Hlast, Hrec. cbn in Hlast, Hrec.
    split_and!.
    + split_and!; [done|done|]. intros f [Hf| ->%list_elem_of_singleton]%elem_of_app.
      * destruct (Hrec f Hf) as (l & Hfl & Hle). unfold Cron.last_slot. cbn.
        destruct (decide (fired_key f = Cron.cron_key env spec)) as [Hk|Hk].
        -- rewrite Hk, lookup_insert_eq. eexists. split; [done|]. rewrite Hk in Hfl. specialize (Hlast l Hfl). lia.
        -- rewrite lookup_insert_ne by done. eauto.
      * exists due. unfold Cron.last_slot. cbn. by rewrite lookup_insert_eq.
    + intros f [Hf| ->%list_elem_of_singleton]%elem_of_app; [by apply Hfs|]. cbn. rewrite <- He. split; [done|].
      destruct (budget_fire env spec w _ _ Hfire) as (ms' & Hms' & Hle). rewrite Hsent in Hms'. by apply app_inv_head in Hms' as ->.
    + apply StronglySorted_app. split; [|split; [done|by repeat constructor]].
      intros f g Hf ->%list_elem_of_singleton Hk. cbn in *. destruct (Hrec f Hf) as (l & Hfl & Hle).
      rewrite Hk in Hfl. specialize (Hlast l Hfl). lia.
Qed.
End pass.


(** A schedule whose Next is the zero time (no date satisfies it) is due at once. *)
Lemma unsatisfiable_cron_fires {RO : RangeOrder} {TL : TimestampLib} {C : CronLib} {E : Env}
    (env : option Environment.t) (spec : option CronSpec.t) (sched : Schedule) (epoch now : Z) :
  spec ⇝ CronSpec.Name ≠ "" → spec ⇝ CronSpec.Schedule ≠ "" →
  ParseStandard (spec ⇝ CronSpec.Schedule) = Some sched → Next sched epoch = zero_time → (0 ≤ now)%Z →
  Cron.due_slot (Cron.mk (Some ∅) epoch) env spec now = Some zero_time.
Proof.
  intros H1%str_eqb_neq H2%str_eqb_neq Hp Hn Hnow. unfold Cron.due_slot. rewrite H1, H2, Hp. cbv zeta. cbn [orb].
  change (Cron.last_slot (Cron.mk (Some ∅) epoch) (Cron.cron_key env spec))
    with ((∅ : gmap string Z) !! Cron.cron_key env spec). rewrite lookup_empty. cbn [Cron.cronEpoch].
  rewrite Hn. destruct (Z.ltb_spec now (zero_time + Cron.cronJitter (GetId env) (spec ⇝ CronSpec.Name))) as [Hlt|]; [|done].
  exfalso. unfold Cron.cronJitter in Hlt. change (u32 (Cron.cronJitterWindow / second)) with 30%Z in Hlt.
  pose proof (Z.mod_pos_bound (Cron.fnv32a (Cron.fnv32a (Cron.fnv32a 2166136261 (GetId env)) Cron.nul) (spec ⇝ CronSpec.Name)) 30 ltac:(lia)).
  change zero_time with (-62135596800000000000)%Z in Hlt. change second with 1000000000%Z in Hlt. lia.
Qed.

(** ** Witness *)

(** Schedules that fire at every multiple of a minute. *)
Definition minutely : CronLib := {|
  Schedule := ();
  ParseStandard s := if s =? "* * * * *" then Some () else None;
  Next _ t := ((t / (60 * second) + 1) * (60 * second))%Z
|}.

Lemma minutely_ok : CronLibOk minutely.
Proof.
  intros s t. left. cbn. change second with 1000000000%Z.
  pose proof (Z.mul_succ_div_gt t (60 * 1000000000) ltac:(lia)). lia.
Qed.

Definition cron_env : option Environment.t := Some (sample_env "e1" "r1" (sample_spec false 1 100 100)).
Definition tick_spec : option CronSpec.t :=
  Some (CronSpec.mk "tick" "* * * * *" "run" CONCURRENCY_POLICY_FORBID 0).

Notation cron_visit cs now w :=
  (Cron.maybeFireCron (RO := canonical_range) (TL := wellknown_times) (C := minutely) (E := quiet_env)
    cs cron_env tick_spec now w).

Notation cs0 := (Cron.mk (Some ∅) (10 * second)%Z).
Notation cs1 := (Cron.mk (Some {[Cron.cron_key cron_env tick_spec := (60 * second)%Z]}) (10 * second)%Z).
Notation cw0 := (World.mk Store.New 0 []).

Definition runs_sent (w : World.t) : list string :=
  omap (λ m, match m with Command_PutJob x => Some ((x ⇝ PutJob.Job) ⇝ Job.CronName) | _ => None end) (World.sent w).

