(* ===== verification/Retention.v ===== *)
(** Release retention (internal/daemon/scheduler/retention.go): the leader's hourly
    pruning of old releases.  Untagging the registry image of a pruned release, whose
    failure is only logged, and deleting old upload tarballs are not modelled. *)
From stdpp Require Import pretty.
From S2P Require Import Prelude Api Watch State StateInv StoreProps Fsm FsmProps FsmSteps Samples Platform Placement.
From S2P Require Import Leader Orchestrator Control OrchestratorProps Scheduler SchedulerProps.

Module Retention.

Definition retentionKeep : nat := 10.

Definition previousReleaseID (rels : list (option Release.t)) (activeID : string) : string :=
  match List.find (λ rel, GetId rel =? activeID) rels with
  | None => ""
  | Some act =>
    match List.find (λ rel, rel ⇝ Release.Version <? act ⇝ Release.Version)%Z rels with
    | Some rel => GetId rel
    | None => ""
    end
  end.

Section retention.
Context {RO : RangeOrder} {TL : TimestampLib} {E : Env}.

Definition rapply (m : Mutation) : M () := Apply "system:retention" m.

(** The ids sweepEnv keeps. *)
Definition keep (st : Store.t) (envID : string) (env : option Environment.t) (rels : list (option Release.t)) : gset string :=
  let kept : gset string := {[env ⇝ Environment.ActiveReleaseId]} in
  let kept := {[previousReleaseID rels (env ⇝ Environment.ActiveReleaseId)]} ∪ kept in
  let kept := list_to_set (GetId <$> take retentionKeep rels) ∪ kept in
  foldl (λ kept d,
    if isTerminalPhase (d ⇝ Deployment.Phase) then kept
    else {[d ⇝ Deployment.ReleaseId; d ⇝ Deployment.PreviousReleaseId]} ∪ kept) kept (Store.ListDeployments envID st).

Definition sweepEnv (envID : string) : M () :=
  st ← read;
  match Store.Environment envID st with
  | None => mret ()
  | Some env =>
    let rels := Store.ListReleases envID st in
    let kept := keep st envID env rels in
    for_each rels (λ rel,
      if bool_decide (GetId rel ∈ kept) then mret ()
      else rapply (Command_DeleteRelease (Some (DeleteByID.mk (GetId rel)))))
  end.

Definition sweep : M () :=
  leader ← IsLeader;
  if negb leader then fail ErrNotLeader
  else
    st ← read;
    let byEnv := foldl (λ m rel, <[rel ⇝ Release.EnvironmentId := true]> m)
      (∅ : gmap string bool) (Store.ListReleases "" st) in
    for_each (range byEnv).*1 sweepEnv.

End retention.
End Retention.

(** * Which releases are kept *)

Section keep.
Context {RO : RangeOrder} {ROk : RangeOrderOk RO} {TL : TimestampLib} {E : Env}.

Lemma elem_of_keep st envID env rels id :
  id ∈ Retention.keep st envID env rels ↔
  id = env ⇝ Environment.ActiveReleaseId
  ∨ id = Retention.previousReleaseID rels (env ⇝ Environment.ActiveReleaseId)
  ∨ id ∈ GetId <$> take Retention.retentionKeep rels
  ∨ ∃ d, d ∈ Store.ListDeployments envID st ∧ isTerminalPhase (d ⇝ Deployment.Phase) = false
      ∧ (id = d ⇝ Deployment.ReleaseId ∨ id = d ⇝ Deployment.PreviousReleaseId).
Proof.
  unfold Retention.keep. cbv zeta. set (f := λ kept d, if isTerminalPhase _ then _ else _).
  assert (∀ l acc, id ∈ foldl f acc l ↔ id ∈ acc ∨ ∃ d, d ∈ l ∧ isTerminalPhase (d ⇝ Deployment.Phase) = false
    ∧ (id = d ⇝ Deployment.ReleaseId ∨ id = d ⇝ Deployment.PreviousReleaseId)) as Hfold.
  { induction l as [|d l IH]; intros acc; cbn [foldl].
    { split; [by left|]. intros [?|(d & []%elem_of_nil & _)]; done. }
    rewrite IH. unfold f. destruct (isTerminalPhase (d ⇝ Deployment.Phase)) eqn:Hd.
    - split; [|intros [?|(e & [->|?]%elem_of_cons & ? & ?)]; [by left|congruence|eauto 6]].
      intros [?|(e & ? & ? & ?)]; [by left|]. right. exists e. by split; [right|].
    - rewrite !elem_of_union, !elem_of_singleton. split.
      + intros [[?|?]|(e & ? & ? & ?)]; [|by left|right; exists e; by split; [right|]]. right. exists d. by split; [left|].
      + intros [?|(e & [->|?]%elem_of_cons & ? & ?)]; [by left; right|by left; left|right; eauto]. }
  rewrite Hfold. rewrite !elem_of_union, !elem_of_singleton, elem_of_list_to_set. tauto.
Qed.

Lemma release_sorted_list envID st : StronglySorted (not_less Store.release_newer) (Store.ListReleases envID st).
Proof. apply release_newer_sorted. Qed.

Lemma elem_of_ListReleases envID st r :
  r ∈ Store.ListReleases envID st ↔
    (envID = "" ∨ r ⇝ Release.EnvironmentId = envID) ∧ ∃ id, Store.releases st !! id = Some r.
Proof.
  unfold Store.ListReleases. rewrite sort_slice_perm, elem_of_Filter, elem_of_range_values.
  rewrite orb_true_iff, !str_eqb_eq. naive_solver.
Qed.

Lemma release_unique envID st r r' :
  wf st → r ∈ Store.ListReleases envID st → r' ∈ Store.ListReleases envID st → GetId r = GetId r' → r = r'.
Proof.
  intros Hwf [_ [i Hi]]%elem_of_ListReleases [_ [j Hj]]%elem_of_ListReleases Heq.
  pose proof (wf_releases _ Hwf _ _ Hi). pose proof (wf_releases _ Hwf _ _ Hj). congruence.
Qed.

(** In a list sorted newest first, the first release below a version is the highest one. *)
Lemma first_below l v rel :
  StronglySorted (not_less Store.release_newer) l →
  rel ∈ l → (rel ⇝ Release.Version < v)%Z →
  ∃ r, List.find (λ rel, rel ⇝ Release.Version <? v)%Z l = Some r ∧ r ∈ l
    ∧ (rel ⇝ Release.Version ≤ r ⇝ Release.Version < v)%Z.
Proof.
  induction l as [|x l IH]; intros Hs Hin Hv; [by apply elem_of_nil in Hin|]. apply StronglySorted_cons in Hs as [Hx Hs]. cbn [List.find].
  destruct (Z.ltb_spec (x ⇝ Release.Version) v) as [Hlt|Hge].
  - exists x. split; [done|]. split; [left|]. apply elem_of_cons in Hin as [->|Hin]; [lia|].
    rewrite Forall_forall in Hx. specialize (Hx rel Hin). unfold not_less, Store.release_newer in Hx.
    destruct (Z.ltb_spec (x ⇝ Release.Version) (rel ⇝ Release.Version)); [discriminate|lia].
  - apply elem_of_cons in Hin as [->|Hin]; [lia|]. destruct (IH Hs Hin Hv) as (r & ? & ? & ?).
    exists r. split_and!; try done; [by right|lia|lia].
Qed.
End keep.

(** * The sweep *)

Section sweep.
Context {RO : RangeOrder} {ROk : RangeOrderOk RO} {TL : TimestampLib} {E : Env}.
Variables (envID : string) (st : Store.t).
Notation rels := (Store.ListReleases envID st).

(** A release that may be pruned. *)
Definition prunable (id : string) : Prop :=
  ∃ env i rel, Store.Environment envID st = Some env ∧ rels !! i = Some rel ∧ GetId rel = id
    ∧ Retention.retentionKeep ≤ i ∧ id ∉ Retention.keep st envID env rels.

Definition prune_ok (m : Mutation) : Prop :=
  ∃ x, m = Command_DeleteRelease x ∧ prunable (x ⇝ DeleteByID.Id).

Lemma sweepEnv_emits w : World.store w = st → emits_at prune_ok (Retention.sweepEnv envID) w.
Proof.
  intros Hst. apply logs_bind_read. rewrite Hst.
  destruct (Store.Environment envID st) as [env|] eqn:Henv; [|apply emits_silent, silent_ret]. cbv zeta.
  apply emits_for_each. intros rel w1 Hrel. case_bool_decide as Hk; [apply emits_silent, silent_ret|].
  apply emits_Apply. eexists. split; [done|]. apply list_elem_of_lookup in Hrel as [i Hi]. exists env, i, rel. split_and!; try done.
  destruct (decide (Retention.retentionKeep ≤ i)) as [?|Hlt]; [done|]. destruct Hk. apply elem_of_keep. do 2 right. left.
  apply list_elem_of_fmap. exists rel. split; [done|]. apply list_elem_of_lookup. exists i. rewrite lookup_take.
  rewrite decide_True by lia. done.
Qed.

(** The rollback window of a pruned release: a kept one at least as new, below the
    active release. *)
Lemma rollback_kept env act rel :
  Store.Environment envID st = Some env → act ∈ rels → GetId act = env ⇝ Environment.ActiveReleaseId →
  (∀ r, r ∈ rels → GetId r = GetId act → r = act) →
  rel ∈ rels → (rel ⇝ Release.Version < act ⇝ Release.Version)%Z →
  ∃ r, r ∈ rels ∧ (rel ⇝ Release.Version ≤ r ⇝ Release.Version < act ⇝ Release.Version)%Z
    ∧ GetId r = Retention.previousReleaseID rels (env ⇝ Environment.ActiveReleaseId)
    ∧ GetId r ∈ Retention.keep st envID env rels.
Proof.
  intros Henv Hact Hid Huniq Hrel Hlt.
  destruct (first_below rels (act ⇝ Release.Version) rel) as (r & Hf & Hr & Hv); [apply release_newer_sorted|done|done|].
  assert (Retention.previousReleaseID rels (env ⇝ Environment.ActiveReleaseId) = GetId r) as Hp.
  { unfold Retention.previousReleaseID. rewrite <- Hid.
    destruct (List.find (λ r0, GetId r0 =? GetId act) rels) as [a|] eqn:Ha.
    - apply find_some in Ha as [Hin%list_elem_of_In Heq%str_eqb_eq]. rewrite (Huniq a Hin Heq). by rewrite Hf.
    - pose proof (find_none _ _ Ha act) as Hn. rewrite <- list_elem_of_In in Hn. specialize (Hn Hact).
      cbn in Hn. by rewrite (proj2 (str_eqb_eq _ _) eq_refl) in Hn. }
  exists r. split_and!; [done|lia|lia|done|]. apply elem_of_keep. right. left. done.
Qed.
End sweep.

(** ** In a quiet environment *)

Section quiet_sweep.
Context {RO : RangeOrder} {ROk : RangeOrderOk RO} {TL : TimestampLib} {E : Env} {Q : Quiet E}.
Context (Hids : Inj (=) (=) ids_New).

Notation delete_release id := (Command_DeleteRelease (Some (DeleteByID.mk id))).

Lemma quiet_prune kept (l : list (option Release.t)) w :
  fresh_requests w →
  ∃ w', for_each l (λ rel, if bool_decide (GetId rel ∈ kept) then mret () else Retention.rapply (delete_release (GetId rel))) w
      = Ret (w', inl ())
    ∧ World.sent w' = World.sent w ++ ((λ rel, delete_release (GetId rel)) <$> filter (λ rel, GetId rel ∉ kept) l)
    ∧ ∀ id, Store.Release id (World.store w')
        = if bool_decide (id ∈ GetId <$> l ∧ id ∉ (kept : gset string)) then None else Store.Release id (World.store w).
Proof.
  revert w. induction l as [|rel l IH]; intros w Hfr; cbn [for_each].
  { exists w. rewrite app_nil_r. split_and!; [done|done|]. intros id. rewrite bool_decide_eq_false_2; [done|].
    intros [Hin _]. by apply elem_of_nil in Hin. }
  case_bool_decide as Hk.
  - destruct (IH w Hfr) as (w' & Hrun & Hsent & Hst). exists w'. rewrite filter_cons_False by (intros ?; done).
    split_and!; [done|done|]. intros id.
    rewrite Hst, (bool_decide_ext (id ∈ GetId <$> l ∧ id ∉ kept) (id ∈ GetId <$> rel :: l ∧ id ∉ kept)); [done|].
    rewrite fmap_cons, elem_of_cons. naive_solver.
  - destruct (quiet_Apply Hids "system:retention" (delete_release (GetId rel)) (Store.DeleteRelease (GetId rel)) w)
      as (s1 & (ring & ids & ->) & Happ & Hfr'); [|done|].
    { intros cmd s Hmut. unfold FSM.apply. by rewrite Hmut. }
    destruct (IH _ Hfr') as (w' & Hrun & Hsent & Hst). exists w'. rewrite filter_cons_True by done. split_and!.
    + assert (Retention.rapply (delete_release (GetId rel)) w = _) as Hr by exact Happ.
      unfold mbind, M_bind. rewrite Hr. exact Hrun.
    + rewrite Hsent. cbn [World.sent]. by rewrite <- app_assoc.
    + intros id. rewrite Hst. cbn [World.store]. unfold Store.Release, Store.DeleteRelease, Store.touch. get_set.
      repeat case_bool_decide; try done.
      * destruct H0. rewrite fmap_cons, elem_of_cons. naive_solver.
      * rewrite fmap_cons, elem_of_cons in H0. destruct (decide (id = GetId rel)) as [->|Hne]; [by rewrite lookup_delete_eq|]. naive_solver.
      * destruct (decide (id = GetId rel)) as [->|Hne]; [|by rewrite lookup_delete_ne].
        destruct H0. split; [left|done].
Qed.
End quiet_sweep.

(** A sweep of an environment proposes only the deletion of releases of it, and
    never of the active one, of any of the ten newest, of one that a deployment still
    in progress deploys or replaces, nor of the rollback target: for a deleted release
    below the active version there is one at least as new, below the active version,
    that is kept. *)
Theorem retention_keeps (RO : RangeOrder) (ROk : RangeOrderOk RO) (TL : TimestampLib) (E : Env)
    (envID : string) (w w' : World.t) (r : () + leader_error) :
  wf (World.store w) → Retention.sweepEnv envID w = Ret (w', r) →
  let rels := Store.ListReleases envID (World.store w) in
  ∃ ms, World.sent w' = World.sent w ++ ms ∧ ∀ m, m ∈ ms →
    ∃ x env i rel, m = Command_DeleteRelease x
      ∧ Store.Environment envID (World.store w) = Some env ∧ rels !! i = Some rel ∧ GetId rel = x ⇝ DeleteByID.Id
      ∧ 10 ≤ i ∧ GetId rel ≠ env ⇝ Environment.ActiveReleaseId
      ∧ (∀ d, d ∈ Store.ListDeployments envID (World.store w) → isTerminalPhase (d ⇝ Deployment.Phase) = false →
           GetId rel ≠ d ⇝ Deployment.ReleaseId ∧ GetId rel ≠ d ⇝ Deployment.PreviousReleaseId)
      ∧ (∀ act, act ∈ rels → GetId act = env ⇝ Environment.ActiveReleaseId →
           (rel ⇝ Release.Version < act ⇝ Release.Version)%Z →
           ∃ prev, prev ∈ rels ∧ (rel ⇝ Release.Version ≤ prev ⇝ Release.Version < act ⇝ Release.Version)%Z
             ∧ ∀ y, Command_DeleteRelease y ∈ ms → y ⇝ DeleteByID.Id ≠ GetId prev).
Proof.
  intros Hwf Hrun rels. destruct (sweepEnv_emits envID (World.store w) w eq_refl _ _ Hrun) as (ms & Hs & Hms).
  rewrite Forall_forall in Hms. exists ms. split; [done|]. intros m Hm.
  destruct (Hms m Hm) as (x & -> & env & i & rel & Henv & Hi & Hid & Hge & Hk). rewrite elem_of_keep, <- Hid in Hk.
  exists x, env, i, rel. split_and!; try done; [tauto| |].
  - intros d Hd Hph. split; intros Heq; apply Hk; do 3 right; eauto.
  - intros act Hact Haid Hlt. destruct (rollback_kept envID (World.store w) env act rel) as (prev & Hp & Hv & _ & Hkp);
      [done|done|done| |by eapply list_elem_of_lookup_2|done|].
    + intros a Ha Hida. by apply (release_unique envID (World.store w)).
    + exists prev. split_and!; [done|lia|lia|]. intros y Hy Heq. 
      destruct (Hms _ Hy) as (y' & [= <-] & env' & j & rel' & Henv' & _ & Hid' & _ & Hnk).
      apply Hnk. rewrite Heq. congruence.
Qed.

(** A sweep completes.  When its proposals commit, a sweep of an environment ends
    normally, having deleted every release of it outside the kept set, in the order of
    the list, and no other release. *)
Theorem sweep_prunes_the_rest (RO : RangeOrder) (ROk : RangeOrderOk RO) (TL : TimestampLib) (E : Env) (Q : Quiet E)
    (envID : string) (env : option Environment.t) (w : World.t) :
  Inj (=) (=) ids_New → fresh_requests w → Store.Environment envID (World.store w) = Some env →
  let rels := Store.ListReleases envID (World.store w) in
  let kept := Retention.keep (World.store w) envID env rels in
  ∃ w', Retention.sweepEnv envID w = Ret (w', inl ())
    ∧ World.sent w' = World.sent w ++ ((λ rel, Command_DeleteRelease (Some (DeleteByID.mk (GetId rel))))
                                         <$> filter (λ rel, GetId rel ∉ kept) rels)
    ∧ ∀ id, Store.Release id (World.store w')
        = if bool_decide (id ∈ GetId <$> rels ∧ id ∉ kept) then None else Store.Release id (World.store w).
Proof.
  intros Hids Hfr Henv rels kept. destruct (quiet_prune Hids kept rels w Hfr) as (w' & Hrun & Hs & Hst).
  exists w'. split; [|done]. unfold Retention.sweepEnv, mbind, M_bind, read. rewrite Henv. exact Hrun.
Qed.

(** ** Witnesses *)

Definition version_id (n : nat) : string := "r" +:+ pretty n.

Definition put_version (s : Store.t) (n : nat) : Store.t :=
  Store.PutRelease (Some (sample_release (version_id n) "e1" (Z.of_nat n) (sample_spec false 1 100 100))) s.

(** Twelve versions; the newest is active, and a deployment of the oldest runs. *)
Definition twelve_versions : Store.t :=
  Store.PutEnvironment (Some (sample_env "e1" (version_id 12) (sample_spec false 1 100 100)))
    (Store.PutDeployment (Some (sample_deployment "d1" "e1" (version_id 1) (version_id 12) DEPLOYMENT_PHASE_STARTING))
      (foldl put_version Store.New (seq 1 12))).

Lemma wf_twelve_versions : wf twelve_versions.
Proof.
  unfold twelve_versions. apply wf_PutEnvironment, wf_PutDeployment.
  apply (foldl_invariant wf); [apply wf_New|]. intros s n _ Hs. by apply wf_PutRelease.
Qed.

Definition pruned (w : World.t) : list string :=
  omap (λ m, match m with Command_DeleteRelease x => Some (x ⇝ DeleteByID.Id) | _ => None end) (World.sent w).

Notation prune_run := (Retention.sweepEnv (RO := canonical_range) (TL := wellknown_times) (E := quiet_env) "e1"
  (World.mk twelve_versions 0 [])).

(** The second version goes. *)
Lemma retention_keeps_witness :
  ∃ w', prune_run = Ret (w', inl ()) ∧ pruned w' = [version_id 2]
    ∧ ∀ m, m ∈ World.sent w' → ∃ x, m = Command_DeleteRelease x ∧ x ⇝ DeleteByID.Id ≠ version_id 12.
Proof.
  destruct prune_run as [[w' r]|] eqn:E1; [|vm_compute in E1; discriminate].
  assert (r = inl () ∧ pruned w' = [version_id 2]) as [-> Hs]
    by (vm_compute in E1; injection E1 as <- <-; split; vm_compute; reflexivity).
  exists w'. split; [reflexivity|]. split; [exact Hs|]. intros m Hm.
  destruct (retention_keeps canonical_range canonical_range_ok wellknown_times quiet_env "e1" (World.mk twelve_versions 0 [])
    w' (inl ()) wf_twelve_versions E1) as (ms & Hms & H). cbn [World.sent app] in Hms. rewrite Hms in Hm.
  destruct (H m Hm) as (x & env & i & rel & Hx & Henv & _ & Hid & _ & Hne & _). exists x. split; [exact Hx|].
  rewrite <- Hid. assert (env ⇝ Environment.ActiveReleaseId = version_id 12) as <-; [|exact Hne].
  vm_compute in Henv. injection Henv as <-. reflexivity.
Defined.

Lemma sweep_prunes_the_rest_witness :
  ∃ w', prune_run = Ret (w', inl ()) ∧ Store.Release (version_id 2) (World.store w') = None
    ∧ Store.Release (version_id 3) (World.store w') = Store.Release (version_id 3) twelve_versions.
Proof.
  destruct (sweep_prunes_the_rest canonical_range canonical_range_ok wellknown_times quiet_env quiet_env_ok "e1"
    (Some (sample_env "e1" (version_id 12) (sample_spec false 1 100 100))) (World.mk twelve_versions 0 []))
    as (w' & Hrun & _ & Hst).
  - exact quiet_ids_inj.
  - intros n _. split; [discriminate|]. cbn [World.store].
    assert (Store.appliedSet twelve_versions = ∅) as -> by (vm_compute; reflexivity). apply not_elem_of_empty.
  - vm_compute. reflexivity.
  - exists w'. split; [exact Hrun|]. rewrite !Hst. split; vm_compute; reflexivity.
Defined.
