(* ===== verification/Requests.v ===== *)
(** The request messages of the public API (api/proto/zattera/v1/api.proto).  A
    handler gets a request that is not nil, so the getters of its fields are the
    record's projections. *)
From S2P Require Import Prelude Api.

Module CreateProjectRequest.
Record t := mk {
  Name : string
}.
End CreateProjectRequest.

Module GetProjectRequest.
Record t := mk {
  ProjectId : string
}.
End GetProjectRequest.

Module DeleteProjectRequest.
Record t := mk {
  ProjectId : string
}.
End DeleteProjectRequest.

Module AddMemberRequest.
Record t := mk {
  ProjectId : string;
  UserEmail : string;
  Role : Role
}.
End AddMemberRequest.

Module RemoveMemberRequest.
Record t := mk {
  ProjectId : string;
  UserId : string
}.
End RemoveMemberRequest.

Module ListMembersRequest.
Record t := mk {
  ProjectId : string
}.
End ListMembersRequest.

Module CreateAppRequest.
Record t := mk {
  ProjectId : string;
  Name : string;
  Build : option BuildConfig.t
}.
End CreateAppRequest.

Module ListAppsRequest.
Record t := mk {
  ProjectId : string
}.
End ListAppsRequest.

Module GetAppRequest.
Record t := mk {
  ProjectId : string;
  AppId : string
}.
End GetAppRequest.

Module DeleteAppRequest.
Record t := mk {
  ProjectId : string;
  AppId : string
}.
End DeleteAppRequest.

Module ApplyAppConfigRequest.
Record t := mk {
  ProjectId : string;
  AppId : string;
  Build : option BuildConfig.t;
  Github : option GitHubConfig.t;
  Environments : gmap string (option ServiceSpec.t);
  IdleTimeouts : gmap string (option Duration.t)
}.
End ApplyAppConfigRequest.

Module SetEnvVarsRequest.
Record t := mk {
  ProjectId : string;
  EnvironmentId : string;
  Set_ : gmap string string;
  Unset : list string
}.
End SetEnvVarsRequest.

Module GetEnvVarsRequest.
Record t := mk {
  ProjectId : string;
  EnvironmentId : string;
  Reveal : bool
}.
End GetEnvVarsRequest.

Module SetReplicasRequest.
Record t := mk {
  ProjectId : string;
  EnvironmentId : string;
  Min : Z;
  Max : Z
}.
End SetReplicasRequest.

Module DeployRequest.
Record t := mk {
  ProjectId : string;
  EnvironmentId : string;
  ImageRef : string;
  BuildId : string
}.
End DeployRequest.

Module RollbackRequest.
Record t := mk {
  ProjectId : string;
  EnvironmentId : string;
  ToReleaseId : string
}.
End RollbackRequest.

Module GetDeploymentRequest.
Record t := mk {
  ProjectId : string;
  DeploymentId : string
}.
End GetDeploymentRequest.

Module ListDeploymentsRequest.
Record t := mk {
  ProjectId : string;
  EnvironmentId : string
}.
End ListDeploymentsRequest.

Module ListReleasesRequest.
Record t := mk {
  ProjectId : string;
  EnvironmentId : string
}.
End ListReleasesRequest.

Module ListInstancesRequest.
Record t := mk {
  ProjectId : string;
  AppId : string;
  EnvironmentId : string
}.
End ListInstancesRequest.

Module RunJobRequest.
Record t := mk {
  ProjectId : string;
  EnvironmentId : string;
  Command : string;
  MaxRetries : Z
}.
End RunJobRequest.

Module GetJobRequest.
Record t := mk {
  ProjectId : string;
  JobId : string
}.
End GetJobRequest.

Module ListJobsRequest.
Record t := mk {
  ProjectId : string;
  EnvironmentId : string;
  CronName : string
}.
End ListJobsRequest.

Module CancelJobRequest.
Record t := mk {
  ProjectId : string;
  JobId : string
}.
End CancelJobRequest.

Module AddDomainRequest.
Record t := mk {
  ProjectId : string;
  EnvironmentId : string;
  Hostname : string;
  PathPrefix : string;
  PortName : string
}.
End AddDomainRequest.

Module ListDomainsRequest.
Record t := mk {
  ProjectId : string
}.
End ListDomainsRequest.

Module RemoveDomainRequest.
Record t := mk {
  ProjectId : string;
  DomainId : string
}.
End RemoveDomainRequest.

Module SetMiddlewareRequest.
Record t := mk {
  ProjectId : string;
  DomainId : string;
  Middleware : option Middleware.t
}.
End SetMiddlewareRequest.

Module GetNodeRequest.
Record t := mk {
  NodeId : string
}.
End GetNodeRequest.

Module CreateJoinTokenRequest.
Record t := mk {
  SingleUse : bool;
  Ttl : option Duration.t;
  Roles : list NodeRole
}.
End CreateJoinTokenRequest.

Module SetNodeLabelsRequest.
Record t := mk {
  NodeId : string;
  Labels : gmap string string;
  Schedulable : bool
}.
End SetNodeLabelsRequest.

Module DrainNodeRequest.
Record t := mk {
  NodeId : string
}.
End DrainNodeRequest.

Module CordonNodeRequest.
Record t := mk {
  NodeId : string
}.
End CordonNodeRequest.

Module UncordonNodeRequest.
Record t := mk {
  NodeId : string
}.
End UncordonNodeRequest.

Module RemoveNodeRequest.
Record t := mk {
  NodeId : string;
  Force : bool
}.
End RemoveNodeRequest.

Module LoginRequest.
Record t := mk {
  Email : string;
  Password : string
}.
End LoginRequest.

Module CreateTokenRequest.
Record t := mk {
  Name : string;
  Ttl : option Duration.t
}.
End CreateTokenRequest.

Module RevokeTokenRequest.
Record t := mk {
  TokenId : string
}.
End RevokeTokenRequest.

Module CreateUserRequest.
Record t := mk {
  Email : string;
  DisplayName : string;
  Password : string;
  OrgRole : Role
}.
End CreateUserRequest.
