(* ===== verification/Rpc.v ===== *)
(** Calls of the public API (internal/daemon/api): who may call what.

    Every call passes the authenticator (interceptors.go), which resolves an identity
    and enforces the tier of the method (policy.go), then, when it is unary, the
    project roles (rbac.go), before its handler runs.  A status is its gRPC code: the
    texts of the messages are not modelled. *)
From stdpp Require Import pretty.
From S2P Require Import Prelude Api Watch State StateInv StoreProps Fsm Samples Platform Leader.

(** * Statuses and proposals (helpers.go) *)

Inductive code :=
| InvalidArgument | NotFound | AlreadyExists | PermissionDenied | FailedPrecondition | Aborted
| Unavailable | Internal | Unauthenticated | Unimplemented.

#[export] Instance code_eq_dec : EqDecision code.
Proof. solve_decision. Defined.

(** Handlers: programs that end with a status other than OK. *)
Notation Handler := (Prog code).

(** No handler modelled here proposes a KV write, whose conflict would be [Aborted]. *)
Definition toStatus (e : leader_error) : code :=
  match e with ErrNotLeader => Unavailable | ErrApply => Internal end.

(** SHA-256 of a token, in hexadecimal. *)
Class TokenLib := HashToken : string → string.

Module Identity.
Record t := mk { UserID : string; NodeID : string; OrgRole : Role }.

Definition IsNode (i : t) : bool := negb (NodeID i =? "").

Definition Actor (i : t) : string :=
  if negb (NodeID i =? "") then "node:" +:+ NodeID i
  else if negb (UserID i =? "") then "user:" +:+ UserID i
  else "anonymous".
End Identity.

(** Identity{} *)
Definition anonymous : Identity.t := Identity.mk "" "" ROLE_UNSPECIFIED.

(** What a handler's context holds of the connection and the call. *)
Module Ctx.
Record t := mk {
  VerifiedChains : list (list (list string));  (* the URIs of each certificate of each chain;
                                                  none without a verified TLS peer *)
  Authorization : list string;                 (* metadata *)
  Caller : option Identity.t
}.
End Ctx.

Definition IdentityFrom (ctx : Ctx.t) : option Identity.t := Ctx.Caller ctx.

Definition withIdentity (ctx : Ctx.t) (id : Identity.t) : Ctx.t :=
  Ctx.mk (Ctx.VerifiedChains ctx) (Ctx.Authorization ctx) (Some id).

(** [id, _ := IdentityFrom(ctx)] *)
Definition caller (ctx : Ctx.t) : Identity.t := default anonymous (IdentityFrom ctx).

Inductive Requirement := reqDenied | reqPublic | reqUser | reqNode | reqAdmin.

#[export] Instance Requirement_eq_dec : EqDecision Requirement.
Proof. solve_decision. Defined.

Definition methodAuth : gmap string Requirement := list_to_map
  [
   ("/zattera.v1.AuthService/Login", reqPublic);
   ("/zattera.v1.AuthService/WhoAmI", reqUser);
   ("/zattera.v1.AuthService/Unseal", reqAdmin);
   ("/zattera.v1.AuthService/CreateToken", reqUser);
   ("/zattera.v1.AuthService/ListTokens", reqUser);
   ("/zattera.v1.AuthService/RevokeToken", reqUser);
   ("/zattera.v1.AuthService/CreateUser", reqAdmin);
   ("/zattera.v1.AuthService/ListUsers", reqAdmin);
   ("/zattera.v1.ProjectService/CreateProject", reqUser);
   ("/zattera.v1.ProjectService/ListProjects", reqUser);
   ("/zattera.v1.ProjectService/GetProject", reqUser);
   ("/zattera.v1.ProjectService/DeleteProject", reqUser);
   ("/zattera.v1.ProjectService/AddMember", reqUser);
   ("/zattera.v1.ProjectService/RemoveMember", reqUser);
   ("/zattera.v1.ProjectService/ListMembers", reqUser);
   ("/zattera.v1.AppService/CreateApp", reqUser);
   ("/zattera.v1.AppService/ListApps", reqUser);
   ("/zattera.v1.AppService/GetApp", reqUser);
   ("/zattera.v1.AppService/DeleteApp", reqUser);
   ("/zattera.v1.AppService/ApplyAppConfig", reqUser);
   ("/zattera.v1.AppService/SetEnvVars", reqUser);
   ("/zattera.v1.AppService/GetEnvVars", reqUser);
   ("/zattera.v1.AppService/SetReplicas", reqUser);
   ("/zattera.v1.DeployService/Deploy", reqUser);
   ("/zattera.v1.DeployService/Rollback", reqUser);
   ("/zattera.v1.DeployService/GetDeployment", reqUser);
   ("/zattera.v1.DeployService/ListDeployments", reqUser);
   ("/zattera.v1.DeployService/ListReleases", reqUser);
   ("/zattera.v1.DeployService/ListInstances", reqUser);
   ("/zattera.v1.DeployService/WatchDeployment", reqUser);
   ("/zattera.v1.DeployService/UploadSource", reqUser);
   ("/zattera.v1.NodeService/ListNodes", reqUser);
   ("/zattera.v1.NodeService/GetNode", reqUser);
   ("/zattera.v1.NodeService/CreateJoinToken", reqAdmin);
   ("/zattera.v1.NodeService/SetNodeLabels", reqAdmin);
   ("/zattera.v1.NodeService/DrainNode", reqAdmin);
   ("/zattera.v1.NodeService/RemoveNode", reqAdmin);
   ("/zattera.v1.NodeService/CordonNode", reqAdmin);
   ("/zattera.v1.NodeService/UncordonNode", reqAdmin);
   ("/zattera.v1.NodeService/UpgradePlan", reqAdmin);
   ("/zattera.v1.NodeService/UpgradeNode", reqAdmin);
   ("/zattera.v1.StateService/Export", reqAdmin);
   ("/zattera.v1.StateService/Apply", reqAdmin);
   ("/zattera.v1.AuditService/QueryAudit", reqAdmin);
   ("/zattera.v1.AuditService/ListEvents", reqUser);
   ("/zattera.v1.DomainService/AddDomain", reqUser);
   ("/zattera.v1.DomainService/RemoveDomain", reqUser);
   ("/zattera.v1.DomainService/ListDomains", reqUser);
   ("/zattera.v1.DomainService/SetMiddleware", reqUser);
   ("/zattera.v1.VolumeService/CreateVolume", reqUser);
   ("/zattera.v1.VolumeService/DeleteVolume", reqUser);
   ("/zattera.v1.VolumeService/ListVolumes", reqUser);
   ("/zattera.v1.VolumeService/SnapshotVolume", reqUser);
   ("/zattera.v1.VolumeService/ListSnapshots", reqUser);
   ("/zattera.v1.VolumeService/RestoreSnapshot", reqUser);
   ("/zattera.v1.VolumeService/ListFiles", reqUser);
   ("/zattera.v1.VolumeService/ReadFile", reqUser);
   ("/zattera.v1.VolumeService/WriteFile", reqUser);
   ("/zattera.v1.JobService/RunJob", reqUser);
   ("/zattera.v1.JobService/GetJob", reqUser);
   ("/zattera.v1.JobService/ListJobs", reqUser);
   ("/zattera.v1.JobService/CancelJob", reqUser);
   ("/zattera.v1.ExecService/Exec", reqUser);
   ("/zattera.v1.ExecService/PortForward", reqUser);
   ("/zattera.v1.ExecService/Top", reqUser);
   ("/zattera.v1.LogService/Query", reqUser);
   ("/zattera.v1.MetricsService/Stats", reqUser);
   ("/zattera.v1.AlertService/PutRule", reqUser);
   ("/zattera.v1.AlertService/DeleteRule", reqUser);
   ("/zattera.v1.AlertService/ListRules", reqUser);
   ("/zattera.v1.AlertService/PutChannel", reqAdmin);
   ("/zattera.v1.AlertService/DeleteChannel", reqAdmin);
   ("/zattera.v1.AlertService/ListChannels", reqAdmin);
   ("/zattera.v1.BackupService/SetBackupConfig", reqAdmin);
   ("/zattera.v1.BackupService/TriggerBackup", reqAdmin);
   ("/zattera.v1.BackupService/ListBackups", reqAdmin);
   ("/zattera.cluster.v1.AgentSyncService/Sync", reqNode);
   ("/zattera.cluster.v1.MeshService/WatchPeers", reqNode);
   ("/zattera.cluster.v1.MeshService/ReportObservedEndpoint", reqNode);
   ("/zattera.cluster.v1.MeshService/PunchStream", reqNode);
   ("/zattera.cluster.v1.MeshService/RequestPunch", reqNode);
   ("/zattera.cluster.v1.RouteService/WatchRoutes", reqNode);
   ("/zattera.cluster.v1.ActivatorService/Activate", reqNode);
   ("/zattera.cluster.v1.JoinService/Join", reqPublic);
   ("/zattera.cluster.v1.KeyService/FetchDataKey", reqNode)].

Definition minRole : gmap string Role := list_to_map
  [
   ("/zattera.v1.ProjectService/GetProject", ROLE_VIEWER);
   ("/zattera.v1.ProjectService/DeleteProject", ROLE_OWNER);
   ("/zattera.v1.ProjectService/ListMembers", ROLE_VIEWER);
   ("/zattera.v1.ProjectService/AddMember", ROLE_ADMIN);
   ("/zattera.v1.ProjectService/RemoveMember", ROLE_ADMIN);
   ("/zattera.v1.AppService/CreateApp", ROLE_DEVELOPER);
   ("/zattera.v1.AppService/ListApps", ROLE_VIEWER);
   ("/zattera.v1.AppService/GetApp", ROLE_VIEWER);
   ("/zattera.v1.AppService/DeleteApp", ROLE_ADMIN);
   ("/zattera.v1.AppService/ApplyAppConfig", ROLE_DEVELOPER);
   ("/zattera.v1.AppService/SetEnvVars", ROLE_DEVELOPER);
   ("/zattera.v1.AppService/GetEnvVars", ROLE_DEVELOPER);
   ("/zattera.v1.AppService/SetReplicas", ROLE_DEVELOPER);
   ("/zattera.v1.DeployService/Deploy", ROLE_DEVELOPER);
   ("/zattera.v1.DeployService/Rollback", ROLE_DEVELOPER);
   ("/zattera.v1.DomainService/AddDomain", ROLE_DEVELOPER);
   ("/zattera.v1.DomainService/RemoveDomain", ROLE_DEVELOPER);
   ("/zattera.v1.DomainService/SetMiddleware", ROLE_DEVELOPER);
   ("/zattera.v1.DomainService/ListDomains", ROLE_VIEWER);
   ("/zattera.v1.JobService/RunJob", ROLE_DEVELOPER);
   ("/zattera.v1.JobService/CancelJob", ROLE_DEVELOPER);
   ("/zattera.v1.JobService/GetJob", ROLE_VIEWER);
   ("/zattera.v1.JobService/ListJobs", ROLE_VIEWER);
   ("/zattera.v1.VolumeService/CreateVolume", ROLE_DEVELOPER);
   ("/zattera.v1.VolumeService/DeleteVolume", ROLE_DEVELOPER);
   ("/zattera.v1.VolumeService/ListVolumes", ROLE_VIEWER);
   ("/zattera.v1.VolumeService/ListFiles", ROLE_VIEWER);
   ("/zattera.v1.VolumeService/ReadFile", ROLE_VIEWER);
   ("/zattera.v1.BackupService/SetBackupConfig", ROLE_ADMIN);
   ("/zattera.v1.BackupService/TriggerBackup", ROLE_ADMIN);
   ("/zattera.v1.BackupService/ListBackups", ROLE_ADMIN)].

(** * Tokens *)

Definition TokenPrefix : string := "zpat_".
Definition LooksLikeToken (s : string) : bool := HasPrefix s TokenPrefix.
Definition nodeURIScheme : string := "zattera://node/".

Definition nodeIDFromPeer (ctx : Ctx.t) : string :=
  match Ctx.VerifiedChains ctx with
  | (leaf :: _) :: _ =>
    match List.find (λ uri, HasPrefix uri nodeURIScheme) leaf with
    | Some uri => TrimPrefix uri nodeURIScheme
    | None => ""
    end
  | _ => ""
  end.

Definition bearerToken (ctx : Ctx.t) : string :=
  match Ctx.Authorization ctx with
  | [] => ""
  | v :: _ =>
    let v := TrimSpace v in
    let v := if HasPrefix (ToLower v) "bearer " then TrimSpace (String.substring 7 (String.length v - 7) v) else v in
    if LooksLikeToken v then v else ""
  end.

Section api.
Context {RO : RangeOrder} {TL : TimestampLib} {T : TokenLib} {E : Env}.

(** The handlers' apply: proposes a command as [actor]. *)
Definition propose (actor : string) (m : Mutation) : Handler () := λ w,
  match Apply actor m w with
  | Ret (w', inl x) => Ret (w', inl x)
  | Ret (w', inr e) => Ret (w', inr (toStatus e))
  | Panic => Panic
  end.

(** ** The authenticator *)

(** [lastUsed]: token id → newest use, not yet flushed. *)
Definition markUsed (tokenID : string) (lastUsed : gmap string Z) : Handler (gmap string Z) :=
  if tokenID =? "" then mret lastUsed
  else now ← Now; mret (<[tokenID := now]> lastUsed).

Definition resolveIdentity (ctx : Ctx.t) (lastUsed : gmap string Z) : Handler (Identity.t * gmap string Z) :=
  let nodeID := nodeIDFromPeer ctx in
  if negb (nodeID =? "") then mret (Identity.mk "" nodeID ROLE_UNSPECIFIED, lastUsed)
  else
    let tok := bearerToken ctx in
    if tok =? "" then mret (anonymous, lastUsed)
    else
      st ← read;
      match Store.TokenByHash (HashToken tok) st with
      | None => fail Unauthenticated
      | Some stored =>
        expired ← match stored ⇝ Token.ExpiresAt with
          | Some exp => now ← Now; mret (AsTime (Some exp) <? now)%Z
          | None => mret false
          end;
        if expired : bool then fail Unauthenticated
        else match Store.User (stored ⇝ Token.UserId) st with
        | None => fail Unauthenticated
        | Some user =>
          lastUsed ← markUsed (GetId stored) lastUsed;
          mret (Identity.mk (GetId user) "" (user ⇝ User.OrgRole), lastUsed)
        end
      end.

Definition is_org_admin (r : Role) : bool :=
  match r with ROLE_OWNER | ROLE_ADMIN => true | _ => false end.

(** The switch of authorize. *)
Definition enforce (ctx : Ctx.t) (lastUsed : gmap string Z) (req : Requirement) : Handler (Ctx.t * gmap string Z) :=
  match req with
  | reqDenied => fail PermissionDenied
  | _ =>
    '(id, lastUsed) ← resolveIdentity ctx lastUsed;
    match req with
    | reqUser => if Identity.UserID id =? "" then fail Unauthenticated else mret (withIdentity ctx id, lastUsed)
    | reqNode => if Identity.NodeID id =? "" then fail PermissionDenied else mret (withIdentity ctx id, lastUsed)
    | reqAdmin =>
      if Identity.UserID id =? "" then fail Unauthenticated
      else if negb (is_org_admin (Identity.OrgRole id)) then fail PermissionDenied
      else mret (withIdentity ctx id, lastUsed)
    | _ => mret (withIdentity ctx id, lastUsed)
    end
  end.

Definition authorize (ctx : Ctx.t) (lastUsed : gmap string Z) (fullMethod : string) :
    Handler (Ctx.t * gmap string Z) :=
  if HasPrefix fullMethod "/grpc.health." then mret (ctx, lastUsed)
  else enforce ctx lastUsed (default reqDenied (methodAuth !! fullMethod)).

(** The batched token uses, proposed by the leader and dropped elsewhere; a failed
    proposal is dropped too. *)
Definition flush (lastUsed : gmap string Z) : Handler (gmap string Z) :=
  leader ← IsLeader;
  if negb leader then mret ∅
  else if bool_decide (lastUsed = ∅) then mret lastUsed
  else
    ignore (propose "system:token-flush"
      (Command_TouchTokens (Some (TouchTokens.mk ((λ t, Some (timestamppb_New t)) <$> lastUsed)))));;
    mret ∅.

(** The services registered on the server, each with its methods; [Some m] reports a
    method without a policy. *)
Definition ValidateMethodTable (info : gmap string (list string)) : option string :=
  List.find (λ full, negb (bool_decide (is_Some (methodAuth !! full))))
    ('(svc, methods) ← range info;
     if HasPrefix svc "grpc.health." || HasPrefix svc "grpc.reflection." then []
     else (λ m, "/" +:+ svc +:+ "/" +:+ m) <$> methods).

(** ** Project roles *)

Definition roleRank (role : Role) : Z :=
  match role with
  | ROLE_OWNER => 4
  | ROLE_ADMIN => 3
  | ROLE_DEVELOPER => 2
  | ROLE_VIEWER => 1
  | _ => 0
  end%Z.

Definition isOrgAdminUser (st : Store.t) (userID : string) : bool :=
  match Store.User userID st with
  | Some u => is_org_admin (u ⇝ User.OrgRole)
  | None => false
  end.

Definition resolveProject (st : Store.t) (idOrName : string) : option (option Project.t) :=
  match Store.Project idOrName st with
  | Some p => Some p
  | None => Store.ProjectByName idOrName st
  end.

(** [pid] is the request's project_id field, if the message has one; the result is
    what the field is rewritten to. *)
Definition check (ctx : Ctx.t) (pid : option string) (required : Role) : Handler (option string) :=
  match IdentityFrom ctx with
  | None => fail Unauthenticated
  | Some id =>
    if Identity.UserID id =? "" then fail Unauthenticated
    else match pid with
    | None => mret None
    | Some raw =>
      if raw =? "" then fail InvalidArgument
      else
        st ← read;
        match resolveProject st raw with
        | None => fail NotFound
        | Some proj =>
          if isOrgAdminUser st (Identity.UserID id) then mret (Some (GetId proj))
          else match Store.ProjectMember (GetId proj) (Identity.UserID id) st with
          | None => fail NotFound
          | Some member =>
            if (roleRank (member ⇝ ProjectMember.Role) <? roleRank required)%Z then fail PermissionDenied
            else mret (Some (GetId proj))
          end
        end
    end
  end.

(** RBAC.UnaryInterceptor *)
Definition rbac {A} (ctx : Ctx.t) (fullMethod : string) (pid : option string)
    (handler : option string → Handler A) : Handler A :=
  match minRole !! fullMethod with
  | None => handler pid
  | Some required => pid ← check ctx pid required; handler pid
  end.

(** A unary call on the leader: the interceptors of daemon.go in order, then the
    handler. *)
Definition unary {A} (ctx : Ctx.t) (lastUsed : gmap string Z) (fullMethod : string) (pid : option string)
    (handler : Ctx.t → option string → Handler A) : Handler A :=
  '(ctx, _) ← authorize ctx lastUsed fullMethod;
  rbac ctx fullMethod pid (handler ctx).

End api.

(** * Who is let through *)

#[global] Opaque methodAuth minRole.

(** A program that reads, and changes nothing. *)
Ltac silent_steps := unfold New, Now, IsLeader; repeat first [solve_silent | case_match].

Section auth.
Context {RO : RangeOrder} {TL : TimestampLib} {T : TokenLib} {E : Env}.

Lemma logs_propose Q actor m w : Q [m] → logs_at Q (propose actor m) w.
Proof.
  intros HQ w' r Hr. unfold propose in Hr. destruct (Apply actor m w) as [[w1 [x|e]]|] eqn:E1; [| |done];
    injection Hr as <- _; apply sent_Apply in E1; by exists [m].
Qed.

Lemma silent_markUsed id lu : silent (markUsed id lu).
Proof. unfold markUsed. case_match; solve_silent. Qed.

(** How the identity of a caller was established. *)
Definition authenticated (ctx : Ctx.t) (st : Store.t) (id : Identity.t) : Prop :=
  (* a node, by its verified certificate *)
  (Identity.NodeID id = nodeIDFromPeer ctx ∧ Identity.NodeID id ≠ "" ∧ Identity.UserID id = "")
  (* nobody *)
  ∨ id = anonymous ∧ nodeIDFromPeer ctx = "" ∧ bearerToken ctx = ""
  (* a stored user, by the hash of a token that has not expired *)
  ∨ ∃ stored user now, LooksLikeToken (bearerToken ctx) = true
      ∧ Store.TokenByHash (HashToken (bearerToken ctx)) st = Some stored
      ∧ (∀ exp, stored ⇝ Token.ExpiresAt = Some exp → (clock_Now now <= AsTime (Some exp))%Z)
      ∧ Store.User (stored ⇝ Token.UserId) st = Some user
      ∧ id = Identity.mk (GetId user) "" (user ⇝ User.OrgRole).

Lemma bearerToken_prefix ctx : bearerToken ctx ≠ "" → LooksLikeToken (bearerToken ctx) = true.
Proof.
  unfold bearerToken. destruct (Ctx.Authorization ctx) as [|v l]; [done|]. cbv zeta.
  destruct (LooksLikeToken _) eqn:Hl; done.
Qed.

Lemma resolveIdentity_spec ctx lu w w' id lu' :
  resolveIdentity ctx lu w = Ret (w', inl (id, lu')) →
  World.sent w' = World.sent w ∧ World.store w' = World.store w ∧ authenticated ctx (World.store w) id.
Proof.
  unfold resolveIdentity. cbv zeta. destruct (nodeIDFromPeer ctx =? "") eqn:Hn; cbn [negb]; cycle 1.
  { apply str_eqb_neq in Hn. intros [-> [= -> ->]]%ret_inl. split_and!; [done|done|]. left. by split_and!. }
  apply str_eqb_eq in Hn. destruct (bearerToken ctx =? "") eqn:Ht.
  { apply str_eqb_eq in Ht. intros [-> [= -> ->]]%ret_inl. split_and!; [done|done|]. right. left. by split_and!. }
  apply str_eqb_neq in Ht. intros (w1 & st & [-> ->]%ret_inl & H)%bind_inl.
  destruct (Store.TokenByHash _ _) as [stored|] eqn:Hs; [|discriminate].
  apply bind_inl in H as (w2 & expired & Hexp & H). destruct expired; [discriminate|].
  destruct (Store.User _ _) as [user|] eqn:Hu; [|discriminate].
  apply bind_inl in H as (w3 & lu1 & Hm & [-> [= -> ->]]%ret_inl). apply silent_markUsed in Hm as [-> ->].
  assert (silent (match stored ⇝ Token.ExpiresAt with
    | Some exp => now ← Now; mret (AsTime (Some exp) <? now)%Z
    | None => mret false
    end : Handler bool)) as Hsil by (destruct (stored ⇝ Token.ExpiresAt); solve_silent).
  destruct (Hsil _ _ _ Hexp) as [-> ->]. split_and!; [done|done|]. do 2 right. exists stored, user.
  destruct (stored ⇝ Token.ExpiresAt) as [exp|] eqn:Hx.
  - apply bind_inl in Hexp as (w4 & now & Hnow & [_ Hlt]%ret_inl). unfold Now, tick_ in Hnow. injection Hnow as <- <-.
    exists (World.tick w). split_and!; try done; [by apply bearerToken_prefix|]. intros ? [= <-].
    symmetry in Hlt. apply Z.ltb_ge in Hlt. lia.
  - exists 0. split_and!; try done. by apply bearerToken_prefix.
Qed.
End auth.

(** What the tier of a method demands of the caller. *)
Definition tier_ok (req : Requirement) (id : Identity.t) : Prop :=
  match req with
  | reqDenied => False
  | reqPublic => True
  | reqUser => Identity.UserID id ≠ ""
  | reqNode => Identity.NodeID id ≠ ""
  | reqAdmin => Identity.UserID id ≠ "" ∧ is_org_admin (Identity.OrgRole id) = true
  end.

Section authorize.
Context {RO : RangeOrder} {TL : TimestampLib} {T : TokenLib} {E : Env}.

Lemma enforce_spec ctx lu req w w' ctx' lu' :
  enforce ctx lu req w = Ret (w', inl (ctx', lu')) →
  ∃ id, ctx' = withIdentity ctx id ∧ authenticated ctx (World.store w) id ∧ tier_ok req id.
Proof.
  intros H. assert (req ≠ reqDenied) as Hd by (intros ->; discriminate H).
  assert (∃ id w1 lu1, resolveIdentity ctx lu w = Ret (w1, inl (id, lu1)) ∧ ctx' = withIdentity ctx id ∧ tier_ok req id)
    as (id & w1 & lu1 & Hr & -> & Hok).
  { destruct req; [done| | | |]; apply bind_inl in H as (w1 & [id lu1] & Hr & H); exists id, w1, lu1; split; try exact Hr.
    - by apply ret_inl in H as [_ [= -> _]].
    - destruct (_ =? "") eqn:He; [discriminate|]. apply ret_inl in H as [_ [= -> _]]. by apply str_eqb_neq in He.
    - destruct (_ =? "") eqn:He; [discriminate|]. apply ret_inl in H as [_ [= -> _]]. by apply str_eqb_neq in He.
    - destruct (_ =? "") eqn:He; [discriminate|]. destruct (is_org_admin _) eqn:Ha; [|discriminate]. cbn [negb] in H.
      apply ret_inl in H as [_ [= -> _]]. apply str_eqb_neq in He. by split_and!. }
  destruct (resolveIdentity_spec _ _ _ _ _ _ Hr) as (_ & _ & Ha). by exists id.
Qed.

Lemma authorize_spec ctx lu method w w' ctx' lu' :
  HasPrefix method "/grpc.health." = false →
  authorize ctx lu method w = Ret (w', inl (ctx', lu')) →
  ∃ id req, ctx' = withIdentity ctx id ∧ authenticated ctx (World.store w) id
    ∧ methodAuth !! method = Some req ∧ tier_ok req id.
Proof.
  intros Hh. unfold authorize. rewrite Hh. destruct (methodAuth !! method) as [req|] eqn:Hreq; intros H.
  - apply enforce_spec in H as (id & H1 & H2 & H3). exists id, req. split; [exact H1|]. split; [exact H2|].
    split; [reflexivity|exact H3].
  - discriminate H.
Qed.

(** The role a project gives a user, org owners and admins having every role. *)
Definition has_role (st : Store.t) (userID pid : string) (required : Role) : Prop :=
  isOrgAdminUser st userID = true
  ∨ ∃ member, Store.ProjectMember pid userID st = Some member
      ∧ (roleRank required <= roleRank (member ⇝ ProjectMember.Role))%Z.

Lemma silent_check ctx pid required : silent (check ctx pid required).
Proof.
  unfold check. destruct (IdentityFrom ctx) as [id|]; [|solve_silent]. destruct (_ =? ""); [solve_silent|].
  destruct pid as [raw|]; [|solve_silent]. destruct (raw =? ""); [solve_silent|].
  apply silent_bind; [apply silent_read|]. intros st. destruct (resolveProject st raw); [|solve_silent].
  destruct (isOrgAdminUser _ _); [solve_silent|]. destruct (Store.ProjectMember _ _ _); [|solve_silent].
  destruct (_ <? _)%Z; solve_silent.
Qed.

Lemma check_spec ctx raw required w w' pid :
  check ctx (Some raw) required w = Ret (w', inl pid) →
  ∃ id proj, Ctx.Caller ctx = Some id ∧ Identity.UserID id ≠ "" ∧ raw ≠ ""
    ∧ resolveProject (World.store w) raw = Some proj ∧ pid = Some (GetId proj)
    ∧ has_role (World.store w) (Identity.UserID id) (GetId proj) required.
Proof.
  unfold check, IdentityFrom. destruct (Ctx.Caller ctx) as [id|]; [|discriminate].
  destruct (Identity.UserID id =? "") eqn:Hu; [discriminate|]. apply str_eqb_neq in Hu.
  destruct (raw =? "") eqn:Hraw; [discriminate|]. apply str_eqb_neq in Hraw.
  intros (w1 & st & [-> ->]%ret_inl & H)%bind_inl. destruct (resolveProject _ raw) as [proj|] eqn:Hp; [|discriminate].
  exists id, proj. destruct (isOrgAdminUser _ _) eqn:Ha.
  { apply ret_inl in H as [_ ->]. split_and!; try done. by left. }
  destruct (Store.ProjectMember _ _ _) as [member|] eqn:Hm; [|discriminate].
  destruct (_ <? _)%Z eqn:Hr; [discriminate|]. apply ret_inl in H as [_ ->]. split_and!; try done. right.
  exists member. split; [done|]. apply Z.ltb_ge in Hr. lia.
Qed.

(** A program that ends normally, or that proposed something, ran its continuation. *)
Lemma bind_silent_run {Err A B} (m : Prog Err A) (k : A → Prog Err B) w w' r :
  silent m → (m ≫= k) w = Ret (w', r) →
  (World.sent w' ≠ World.sent w ∨ ∃ b, r = inl b) →
  ∃ w1 a, m w = Ret (w1, inl a) ∧ k a w1 = Ret (w', r)
    ∧ World.sent w1 = World.sent w ∧ World.store w1 = World.store w.
Proof.
  intros Hm. unfold mbind, M_bind. destruct (m w) as [[w1 [a|e]]|] eqn:E1; [| |done].
  - intros Hk _. destruct (Hm _ _ _ E1) as [Hs Hst]. eauto 7.
  - intros [= <- <-] [Hs|[b Hb]]; [|discriminate]. destruct (Hm _ _ _ E1) as [Hs' _]. congruence.
Qed.

Lemma silent_authorize ctx lu method : silent (authorize ctx lu method).
Proof.
  assert (silent (resolveIdentity ctx lu)) as Hr.
  { unfold resolveIdentity. cbv zeta. destruct (negb _); [solve_silent|]. destruct (_ =? ""); [solve_silent|].
    apply silent_bind; [apply silent_read|]. intros st. destruct (Store.TokenByHash _ _) as [stored|]; [|solve_silent].
    apply silent_bind; [destruct (stored ⇝ Token.ExpiresAt); solve_silent|]. intros expired.
    destruct expired; [solve_silent|]. destruct (Store.User _ _); [|solve_silent].
    apply silent_bind; [apply silent_markUsed|]. intros lu1. solve_silent. }
  assert (∀ req, silent (enforce ctx lu req)) as He.
  { intros req. unfold enforce. destruct req; [solve_silent| | | |]; apply silent_bind; try done;
      intros [id lu1]; repeat (destruct (_ =? "")); repeat (destruct (is_org_admin _)); solve_silent. }
  unfold authorize. destruct (HasPrefix _ _); [solve_silent|apply He].
Qed.

(** What the project roles let through. *)
Definition role_ok (st : Store.t) (id : Identity.t) (required : option Role) (pid pid' : option string) : Prop :=
  match required, pid with
  | Some required, Some raw =>
    Identity.UserID id ≠ "" ∧ ∃ proj, resolveProject st raw = Some proj ∧ pid' = Some (GetId proj)
      ∧ has_role st (Identity.UserID id) (GetId proj) required
  | Some _, None => pid' = None
  | None, _ => pid' = pid
  end.

Lemma rbac_spec {A} ctx id method pid (handler : option string → Handler A) w w' r :
  Ctx.Caller ctx = Some id → rbac ctx method pid handler w = Ret (w', r) →
  (World.sent w' ≠ World.sent w ∨ ∃ a, r = inl a) →
  ∃ pid' w1, handler pid' w1 = Ret (w', r) ∧ World.store w1 = World.store w
    ∧ role_ok (World.store w) id (minRole !! method) pid pid'.
Proof.
  intros Hid. unfold rbac. generalize (minRole !! method). intros [required|] Hrb Hob; cycle 1.
  { exists pid, w. split_and!; done. }
  destruct (bind_silent_run _ _ _ _ _ (silent_check ctx pid required) Hrb Hob) as (w2 & pid' & Hc & Hk & Hs2 & Hst2).
  exists pid', w2. split; [done|]. split; [done|]. destruct pid as [raw|]; cbn [role_ok].
  - destruct (check_spec _ _ _ _ _ _ Hc) as (id' & proj & Hid' & Hu & _ & Hp & -> & Hrole).
    rewrite Hid in Hid'. injection Hid' as <-. split; [done|]. by exists proj.
  - unfold check, IdentityFrom in Hc. rewrite Hid in Hc. destruct (Identity.UserID id =? ""); [discriminate|].
    by apply ret_inl in Hc as [_ ->].
Qed.
End authorize.

(** C9: no call of an API method reaches its handler unauthorized.  When a unary call
    ends normally or has proposed anything, its method is in the policy table, the
    caller was authenticated (by a verified node certificate, or by an unexpired token
    of a stored user) with the tier the table demands, and, for a method with a project
    role whose request names a project, the caller is an org admin or a member of the
    project with at least that role; the handler then got the id of that project. *)
Theorem calls_are_authorized (RO : RangeOrder) (TL : TimestampLib) (T : TokenLib) (E : Env) (A : Type)
    (ctx : Ctx.t) (lu : gmap string Z) (method : string) (pid : option string)
    (handler : Ctx.t → option string → Handler A) (w w' : World.t) (r : A + code) :
  HasPrefix method "/grpc.health." = false →
  unary ctx lu method pid handler w = Ret (w', r) →
  (World.sent w' ≠ World.sent w ∨ ∃ a, r = inl a) →
  ∃ id req pid' w1, authenticated ctx (World.store w) id ∧ methodAuth !! method = Some req ∧ tier_ok req id
    ∧ handler (withIdentity ctx id) pid' w1 = Ret (w', r) ∧ World.store w1 = World.store w
    ∧ role_ok (World.store w) id (minRole !! method) pid pid'.
Proof.
  intros Hh Hrun Hob. destruct (bind_silent_run _ _ _ _ _ (silent_authorize ctx lu method) Hrun Hob)
    as (w1 & [ctx' lu'] & Ha & Hrb & Hs1 & Hst1). rewrite <- Hs1 in Hob.
  destruct (authorize_spec _ _ _ _ _ _ _ Hh Ha) as (id & req & -> & Hid & Hreq & Htier).
  destruct (rbac_spec (withIdentity ctx id) id _ _ _ _ _ _ eq_refl Hrb Hob) as (pid' & w2 & Hk & Hst2 & Hrole).
  rewrite Hst1 in Hst2, Hrole. exists id, req, pid', w2. split; [exact Hid|]. split; [exact Hreq|]. split; [exact Htier|].
  split; [exact Hk|]. split; [exact Hst2|exact Hrole].
Qed.

(** The two tables agree and fail closed: a method with a project role is one that
    demands a user or an admin, so its caller always has a user id; every method of
    the table names its service; and a server whose methods all pass
    ValidateMethodTable can be denied none of them as unlisted. *)
Theorem policy_tables_agree (RO : RangeOrder) (ROk : RangeOrderOk RO) :
  (∀ method role, minRole !! method = Some role →
     methodAuth !! method = Some reqUser ∨ methodAuth !! method = Some reqAdmin)
  ∧ (∀ method, methodAuth !! method ≠ Some reqDenied)
  ∧ (∀ info svc methods m, ValidateMethodTable info = None → info !! svc = Some methods → m ∈ methods →
       HasPrefix svc "grpc.health." = false → HasPrefix svc "grpc.reflection." = false →
       is_Some (methodAuth !! ("/" +:+ svc +:+ "/" +:+ m))).
Proof.
  split_and!.
  - intros method role Hm.
    assert (forallb (λ kv, match methodAuth !! kv.1 with Some reqUser | Some reqAdmin => true | _ => false end)
      (map_to_list minRole) = true) as H by (vm_compute; reflexivity).
    rewrite forallb_forall in H. specialize (H (method, role)). rewrite <- list_elem_of_In, elem_of_map_to_list in H.
    specialize (H Hm). clear Hm. revert H. cbn [fst]. generalize (methodAuth !! method).
    intros [[]|] H; (discriminate H || (by left) || by right).
  - intros method Hm.
    assert (forallb (λ kv, match kv.2 with reqDenied => false | _ => true end) (map_to_list methodAuth) = true) as H
      by (vm_compute; reflexivity).
    rewrite forallb_forall in H. specialize (H (method, reqDenied)). rewrite <- list_elem_of_In, elem_of_map_to_list in H.
    discriminate (H Hm).
  - intros info svc methods m Hv Hinfo Hm Hh Hr. unfold ValidateMethodTable in Hv.
    pose proof (find_none _ _ Hv ("/" +:+ svc +:+ "/" +:+ m)) as Hn. cbv beta in Hn.
    case_bool_decide as Hs; [done|]. discriminate Hn. rewrite <- list_elem_of_In. apply list_elem_of_bind.
    exists (svc, methods). split; [|by apply elem_of_range]. rewrite Hh, Hr. cbn [orb].
    apply list_elem_of_fmap. by exists m.
Qed.

(** ** Witness *)

(** A stand-in for the hash. *)
Definition sample_tokens : TokenLib := λ s, "hash of " +:+ s.

Definition alice : option User.t := Some (User.mk (sample_meta "alice") "alice@example.com" "" "" "org" ROLE_DEVELOPER).
Definition alice_token : option Token.t :=
  Some (Token.mk (sample_meta "t1") "alice" "pat" "hash of zpat_alice" TOKEN_KIND_PERSONAL None None).

Definition member_of (pid : string) (s : Store.t) : Store.t :=
  Store.PutProjectMember (Some (ProjectMember.mk pid "alice" ROLE_DEVELOPER))
    (Store.PutProject (Some (Project.mk (sample_meta pid) "org" ("name of " +:+ pid))) s).

(** Alice is a developer of one project. *)
Definition alice_in (pid : string) : Store.t :=
  member_of pid (Store.PutToken alice_token (Store.PutUser alice Store.New)).

Definition alice_ctx : Ctx.t := Ctx.mk [] ["Bearer zpat_alice"] None.

Notation alice_call method pid st :=
  (unary (RO := canonical_range) (TL := wellknown_times) (T := sample_tokens) (E := quiet_env) alice_ctx ∅ method pid
     (λ c p, mret (Identity.Actor (caller c), p)) (World.mk st 0 [])).

(** Her token opens the deploy method of the project, named by its name, and not of
    another one. *)
Lemma calls_are_authorized_witness :
  (∃ w', alice_call "/zattera.v1.DeployService/Deploy" (Some "name of p1") (alice_in "p1")
         = Ret (w', inl ("user:alice", Some "p1"))
     ∧ has_role (alice_in "p1") "alice" "p1" ROLE_DEVELOPER)
  ∧ ∃ w', alice_call "/zattera.v1.DeployService/Deploy" (Some "p2") (alice_in "p1") = Ret (w', inr NotFound).
Proof.
  split; [|eexists; vm_compute; reflexivity].
  destruct (alice_call "/zattera.v1.DeployService/Deploy" (Some "name of p1") (alice_in "p1")) as [[w' r]|] eqn:E1;
    [|vm_compute in E1; discriminate].
  assert (r = inl ("user:alice", Some "p1")) as -> by (vm_compute in E1; injection E1 as <- <-; reflexivity).
  exists w'. split; [reflexivity|].
  assert (HasPrefix "/zattera.v1.DeployService/Deploy" "/grpc.health." = false) as Hh by reflexivity.
  destruct (calls_are_authorized canonical_range wellknown_times sample_tokens quiet_env _ alice_ctx ∅ _ _ _ _ _ _
    Hh E1 (or_intror (ex_intro _ _ eq_refl))) as (id & req & pid' & w1 & Hid & _ & _ & _ & _ & Hrole).
  assert (minRole !! "/zattera.v1.DeployService/Deploy" = Some ROLE_DEVELOPER) as Hm by (vm_compute; reflexivity).
  rewrite Hm in Hrole.
  destruct Hrole as (Hu & proj & Hp & _ & Hr).
  assert (GetId proj = "p1") as Hg by (vm_compute in Hp; injection Hp as <-; reflexivity). rewrite Hg in Hr.
  assert (Identity.UserID id = "alice") as Hi; [|rewrite Hi in Hr; exact Hr]. clear Hr Hp Hg E1.
  destruct Hid as [(_ & _ & H)|[(-> & _)|(stored & user & now & _ & Hs & _ & Hus & ->)]].
  - exfalso. exact (Hu H).
  - exfalso. exact (Hu eq_refl).
  - vm_compute in Hs. injection Hs as <-. vm_compute in Hus. injection Hus as <-. reflexivity.
Defined.

(** The tables, read by one iteration order: a server that registers the health service
    and one known method starts, and one with an unknown method does not. *)
Lemma policy_tables_agree_witness :
  ValidateMethodTable (RO := canonical_range) {["zattera.v1.DeployService" := ["Deploy"]; "grpc.health.v1.Health" := ["Check"]]} = None
  ∧ ValidateMethodTable (RO := canonical_range) {["zattera.v1.DeployService" := ["Destroy"]]}
    = Some "/zattera.v1.DeployService/Destroy"
  ∧ is_Some (methodAuth !! "/zattera.v1.DeployService/Deploy").
Proof.
  split; [vm_compute; reflexivity|]. split; [vm_compute; reflexivity|].
  assert (ValidateMethodTable (RO := canonical_range) {["zattera.v1.DeployService" := ["Deploy"]]} = None) as Hv
    by (vm_compute; reflexivity).
  refine (proj2 (proj2 (policy_tables_agree canonical_range canonical_range_ok)) _ "zattera.v1.DeployService" ["Deploy"] "Deploy"
    Hv _ _ _ _); [reflexivity|by left|reflexivity|reflexivity].
Defined.
