(* ===== verification/Deploys.v ===== *)
(** The deploy and job services of the API (internal/daemon/api/deploy.go, jobs.go and
    appconfig.ConfigHash): creating releases, deployments, rollbacks and one-shot jobs. *)
From stdpp Require Import pretty.
From S2P Require Import Prelude Api Requests Watch State StateInv StoreProps Fsm FsmProps FsmSteps Samples Platform Placement.
From S2P Require Import Leader Orchestrator Control OrchestratorProps Scheduler SchedulerProps Retention Rpc.

(** Deterministic protobuf encodings, [None] when encoding fails, and SHA-256 in
    hexadecimal. *)
Class ConfigLib := {
  MarshalSpec : option ServiceSpec.t → option string;
  MarshalValue : option EncryptedValue.t → option string;
  sha256_hex : string → string
}.

(** binary.BigEndian.PutUint64 *)
Fixpoint be_bytes (n : nat) (v : Z) (acc : string) : string :=
  match n with
  | 0 => acc
  | S n => be_bytes n (v / 256) (String (Ascii.ascii_of_nat (Z.to_nat (v mod 256))) acc)
  end.

Definition ConfigHash {CL : ConfigLib} (spec : option ServiceSpec.t) (envVarVersion : Z) : string :=
  sha256_hex (default "unmarshalable" (MarshalSpec spec) +:+ be_bytes 8 envVarVersion "").

(** hash/fnv.New64a *)
Fixpoint fnv64a (h : Z) (s : string) : Z :=
  match s with
  | EmptyString => h
  | String c s => fnv64a (u64 (Z.lxor h (Z.of_N (Ascii.N_of_ascii c)) * 1099511628211)) s
  end.

Module Deploys.

Section deploy.
Context {RO : RangeOrder} {TL : TimestampLib} {CL : ConfigLib} {E : Env}.
(** DeployServer.Platforms: nil, or a resolver that never fails. *)
Variable Platforms : option (string → list string).

Definition dapply (ctx : Ctx.t) (m : Mutation) : Handler () := propose (Identity.Actor (caller ctx)) m.

Definition newMeta : Handler (option Meta.t) :=
  id ← New;
  now ← Now;
  let ts := Some (timestamppb_New now) in
  mret (Some (Meta.mk id ts ts)).

Definition resolveEnv (envID : string) : Handler (option Environment.t) :=
  st ← read;
  match Store.Environment envID st with
  | Some env => mret env
  | None => fail NotFound
  end.

Definition deploymentTerminal (p : DeploymentPhase) : bool :=
  match p with
  | DEPLOYMENT_PHASE_SUCCEEDED | DEPLOYMENT_PHASE_FAILED | DEPLOYMENT_PHASE_ROLLED_BACK
  | DEPLOYMENT_PHASE_SUPERSEDED | DEPLOYMENT_PHASE_UNSPECIFIED => true
  | _ => false
  end.

Definition deploymentBlocksNewDeploy (p : DeploymentPhase) : bool :=
  negb (deploymentTerminal p) && negb (bool_decide (p = DEPLOYMENT_PHASE_DRAINING_OLD)).

Definition hasActiveDeployment (st : Store.t) (envID : string) : bool :=
  existsb (λ d, deploymentBlocksNewDeploy (d ⇝ Deployment.Phase)) (Store.ListDeployments envID st).

Definition resolveImage (st : Store.t) (req : DeployRequest.t) : string + code :=
  if negb (DeployRequest.ImageRef req =? "") then inl (DeployRequest.ImageRef req)
  else if negb (DeployRequest.BuildId req =? "") then
    match Store.Build (DeployRequest.BuildId req) st with
    | None => inr NotFound
    | Some b =>
      if negb (bool_decide (b ⇝ Build.Status = BUILD_STATUS_SUCCEEDED)) || (b ⇝ Build.ImageRef =? "")
      then inr FailedPrecondition
      else inl (b ⇝ Build.ImageRef)
    end
  else inr InvalidArgument.

Definition resolvePlatforms (st : Store.t) (req : DeployRequest.t) (imageRef : string) : list string :=
  if negb (DeployRequest.BuildId req =? "")
  then default None (Store.Build (DeployRequest.BuildId req) st) ⇝ Build.Platforms
  else match Platforms with None => [] | Some f => f imageRef end.

(** A fingerprint of the sealed variables, in the order of their names. *)
Definition envVarVersion (st : Store.t) (envID : string) : Z :=
  let vars := Store.EnvVars envID st in
  if bool_decide (vars = ∅) then 0%Z
  else foldl (λ h kv,
      let h := fnv64a h kv.1 in
      match MarshalValue kv.2 with Some b => fnv64a h b | None => h end)
    14695981039346656037%Z (sort_slice (key_less fst) (range vars)).

Definition buildRelease (env : option Environment.t) (imageRef : string) : Handler Release.t :=
  let envID := GetId env in
  let spec := env ⇝ Environment.Service in
  st ← read;
  let hash := ConfigHash spec (envVarVersion st envID) in
  meta ← newMeta;
  mret (Release.mk meta envID (env ⇝ Environment.AppId) (env ⇝ Environment.ProjectId)
    (Store.NextReleaseVersion envID st) imageRef hash spec None "" []).

Definition buildDeployment (env : option Environment.t) (releaseID : string) (rollback : bool) : Handler Deployment.t :=
  meta ← newMeta;
  mret (Deployment.mk meta (GetId env) (env ⇝ Environment.AppId) (env ⇝ Environment.ProjectId) releaseID
    (env ⇝ Environment.ActiveReleaseId) DEPLOYMENT_PHASE_PENDING "" rollback "" None None "").

(** The highest version below the active one. *)
Definition previousRelease (st : Store.t) (env : option Environment.t) : option string :=
  match Store.Release (env ⇝ Environment.ActiveReleaseId) st with
  | None => None
  | Some active =>
    match foldl (λ best r,
        if (active ⇝ Release.Version <=? r ⇝ Release.Version)%Z then best
        else match best with
        | None => Some r
        | Some b => if (b ⇝ Release.Version <? r ⇝ Release.Version)%Z then Some r else best
        end) None (Store.ListReleases (GetId env) st) with
    | None => None
    | Some best => Some (GetId best)
    end
  end.

Definition commit (ctx : Ctx.t) (rel : Release.t) (dep : Deployment.t) : Handler () :=
  dapply ctx (Command_PutRelease (Some (PutRelease.mk (Some rel))));;
  dapply ctx (Command_PutDeployment (Some (PutDeployment.mk (Some dep)))).

Definition Deploy (ctx : Ctx.t) (req : DeployRequest.t) : Handler Deployment.t :=
  env ← resolveEnv (DeployRequest.EnvironmentId req);
  st ← read;
  if hasActiveDeployment st (GetId env) then fail FailedPrecondition
  else match resolveImage st req with
  | inr e => fail e
  | inl imageRef =>
    rel ← buildRelease env imageRef;
    let rel := rel <| Release.Platforms := resolvePlatforms st req imageRef |> in
    dep ← buildDeployment env (GetId (Some rel)) false;
    commit ctx rel dep;;
    mret dep
  end.

Definition rollback_target (st : Store.t) (env : option Environment.t) (req : RollbackRequest.t) : string + code :=
  let target := RollbackRequest.ToReleaseId req in
  if target =? "" then
    match previousRelease st env with
    | None => inr FailedPrecondition
    | Some prev => inl prev
    end
  else match Store.Release target st with
  | Some r => if negb (r ⇝ Release.EnvironmentId =? GetId env) then inr NotFound else inl target
  | None => inr NotFound
  end.

Definition Rollback (ctx : Ctx.t) (req : RollbackRequest.t) : Handler Deployment.t :=
  env ← resolveEnv (RollbackRequest.EnvironmentId req);
  st ← read;
  if hasActiveDeployment st (GetId env) then fail FailedPrecondition
  else match rollback_target st env req with
  | inr e => fail e
  | inl target =>
    dep ← buildDeployment env target true;
    dapply ctx (Command_PutDeployment (Some (PutDeployment.mk (Some dep))));;
    mret dep
  end.

Definition GetDeployment (req : GetDeploymentRequest.t) : Handler (option Deployment.t) :=
  st ← read;
  match Store.Deployment (GetDeploymentRequest.DeploymentId req) st with
  | None => fail NotFound
  | Some d => mret d
  end.

Definition ListDeployments (req : ListDeploymentsRequest.t) : Handler (list (option Deployment.t)) :=
  st ← read; mret (Store.ListDeployments (ListDeploymentsRequest.EnvironmentId req) st).

Definition ListReleases (req : ListReleasesRequest.t) : Handler (list (option Release.t)) :=
  st ← read; mret (Store.ListReleases (ListReleasesRequest.EnvironmentId req) st).

Definition ListInstances (req : ListInstancesRequest.t) : Handler (list (option Assignment.t)) :=
  st ← read;
  mret (List.filter (λ a, (ListInstancesRequest.AppId req =? "") || (a ⇝ Assignment.AppId =? ListInstancesRequest.AppId req))
    (Store.ListAssignments (ListInstancesRequest.EnvironmentId req) st)).

(** ** Jobs *)

Definition RunJob (ctx : Ctx.t) (req : RunJobRequest.t) : Handler Job.t :=
  if TrimSpace (RunJobRequest.Command req) =? "" then fail InvalidArgument
  else
    st ← read;
    match Store.Environment (RunJobRequest.EnvironmentId req) st with
    | None => fail NotFound
    | Some env =>
      if env ⇝ Environment.ActiveReleaseId =? "" then fail FailedPrecondition
      else
        now ← Now;
        id ← New;
        let ts := Some (timestamppb_New now) in
        let job := Job.mk (Some (Meta.mk id ts ts)) (env ⇝ Environment.ProjectId) (env ⇝ Environment.AppId) (GetId env)
          (env ⇝ Environment.ActiveReleaseId) (RunJobRequest.Command req) "" JOB_STATUS_QUEUED "" 0 0
          (RunJobRequest.MaxRetries req) "" None None (Identity.UserID (caller ctx)) in
        dapply ctx (Command_PutJob (Some (PutJob.mk (Some job))));;
        mret job
    end.

(** A job by id, of the project if one is given. *)
Definition find_job (st : Store.t) (jobID projectID : string) : option (option Job.t) :=
  match Store.Job jobID st with
  | Some job => if negb (projectID =? "") && negb (job ⇝ Job.ProjectId =? projectID) then None else Some job
  | None => None
  end.

Definition GetJob (req : GetJobRequest.t) : Handler (option Job.t) :=
  st ← read;
  match find_job st (GetJobRequest.JobId req) (GetJobRequest.ProjectId req) with
  | None => fail NotFound
  | Some job => mret job
  end.

Definition ListJobs (req : ListJobsRequest.t) : Handler (list (option Job.t)) :=
  st ← read;
  mret (List.filter (λ j, (ListJobsRequest.CronName req =? "") || (j ⇝ Job.CronName =? ListJobsRequest.CronName req))
    (Store.ListJobs (ListJobsRequest.ProjectId req) (ListJobsRequest.EnvironmentId req) st)).

Definition jobTerminal (s : JobStatus) : bool :=
  match s with
  | JOB_STATUS_SUCCEEDED | JOB_STATUS_FAILED | JOB_STATUS_CANCELED => true
  | _ => false
  end.

Definition jobAssignment (st : Store.t) (job : option Job.t) : option (option Assignment.t) :=
  List.find (λ a, a ⇝ Assignment.JobId =? GetId job) (Store.ListAssignments (job ⇝ Job.EnvironmentId) st).

Definition CancelJob (ctx : Ctx.t) (req : CancelJobRequest.t) : Handler (option Job.t) :=
  st ← read;
  match find_job st (CancelJobRequest.JobId req) (CancelJobRequest.ProjectId req) with
  | None => fail NotFound
  | Some job =>
    if jobTerminal (job ⇝ Job.Status) then mret job
    else
      match jobAssignment st job with
      | Some a =>
        if negb (bool_decide (a ⇝ Assignment.Desired = ASSIGNMENT_DESIRED_STOP)) then
          a ← deref a;
          dapply ctx (putAssignments [Some (a <| Assignment.Desired := ASSIGNMENT_DESIRED_STOP |>)])
        else mret ()
      | None => mret ()
      end;;
      job ← deref job;
      now ← Now;
      meta ← deref (Job.Meta job);
      let ts := Some (timestamppb_New now) in
      let job := job <| Job.Status := JOB_STATUS_CANCELED |> in
      let job := job <| Job.FinishedAt := ts |> in
      let job := job <| Job.Meta := Some (meta <| Meta.UpdatedAt := ts |>) |> in
      dapply ctx (Command_PutJob (Some (PutJob.mk (Some job))));;
      mret (Some job)
  end.

End deploy.
End Deploys.

(** * The rollback target *)

Section rollback.
Context {RO : RangeOrder} {ROk : RangeOrderOk RO}.

(** On a list sorted newest first, the search for the best release below a version
    ends with the first one. *)
Lemma best_is_first v l :
  StronglySorted (not_less Store.release_newer) l →
  foldl (λ (best : option (option Release.t)) (r : option Release.t),
    if (v <=? r ⇝ Release.Version)%Z then best
    else match best with
    | None => Some r
    | Some b => if (b ⇝ Release.Version <? r ⇝ Release.Version)%Z then Some r else best
    end) None l
  = List.find (λ rel, rel ⇝ Release.Version <? v)%Z l.
Proof.
  intros Hs. set (f := λ best r, if (v <=? _)%Z then _ else _).
  assert (∀ b l, Forall (not_less Store.release_newer b) l → foldl f (Some b) l = Some b) as Hstay.
  { intros b l'. induction l' as [|x l' IH]; intros Hf; [done|]. apply Forall_cons in Hf as [Hx Hl]. cbn [foldl].
    replace (f (Some b) x) with (Some b); [by apply IH|]. unfold f. destruct (_ <=? _)%Z; [done|].
    unfold not_less, Store.release_newer in Hx. by rewrite Hx. }
  induction l as [|x l IH]; [done|]. apply StronglySorted_cons in Hs as [Hx Hs]. cbn [foldl List.find].
  unfold f at 2. destruct (Z.leb_spec v (x ⇝ Release.Version)), (Z.ltb_spec (x ⇝ Release.Version) v); try lia.
  - by apply IH.
  - by apply Hstay.
Qed.

Lemma find_release st envID act rels :
  wf st → rels = Store.ListReleases envID st → act ∈ rels → List.find (λ rel, GetId rel =? GetId act) rels = Some act.
Proof.
  intros Hwf -> Hact. destruct (List.find _ _) as [a|] eqn:Ha.
  - apply find_some in Ha as [Hin%list_elem_of_In Heq%str_eqb_eq]. by rewrite (release_unique envID st a act).
  - pose proof (find_none _ _ Ha act) as Hn. rewrite <- list_elem_of_In in Hn. specialize (Hn Hact). cbv beta in Hn.
    by rewrite (proj2 (str_eqb_eq _ _) eq_refl) in Hn.
Qed.
End rollback.

(** A rollback without a target goes to the release that retention keeps for it:
    the search of the deploy service and the one of the retention sweep agree, so the
    target is never pruned while its successor is active. *)
Theorem rollback_target_kept (RO : RangeOrder) (ROk : RangeOrderOk RO) (st : Store.t)
    (env : option Environment.t) (act : option Release.t) :
  wf st → Store.Environment (GetId env) st = Some env →
  Store.Release (env ⇝ Environment.ActiveReleaseId) st = Some act → act ⇝ Release.EnvironmentId = GetId env →
  let rels := Store.ListReleases (GetId env) st in
  match Deploys.previousRelease st env with
  | Some id => Retention.previousReleaseID rels (env ⇝ Environment.ActiveReleaseId) = id
      ∧ id ∈ Retention.keep st (GetId env) env rels
  | None => ∀ r, r ∈ rels → (act ⇝ Release.Version <= r ⇝ Release.Version)%Z
  end.
Proof.
  intros Hwf Henv Hact Hae rels. unfold Deploys.previousRelease. rewrite Hact.
  pose proof (wf_releases _ Hwf _ _ Hact) as Hid.
  assert (act ∈ rels) as Hin by (apply elem_of_ListReleases; eauto).
  rewrite best_is_first by apply release_newer_sorted. fold rels.
  assert (Retention.previousReleaseID rels (env ⇝ Environment.ActiveReleaseId)
    = match List.find (λ rel, rel ⇝ Release.Version <? act ⇝ Release.Version)%Z rels with Some r => GetId r | None => "" end) as Hp.
  { unfold Retention.previousReleaseID. rewrite <- Hid. by rewrite (find_release st (GetId env) act rels). }
  destruct (List.find _ rels) as [best|] eqn:Hb.
  - split; [done|]. apply elem_of_keep. right. by left.
  - intros r Hr. pose proof (find_none _ _ Hb r) as Hn. rewrite <- list_elem_of_In in Hn. specialize (Hn Hr). cbv beta in Hn.
    apply Z.ltb_ge in Hn. lia.
Qed.

(** * What the deploy service proposes *)

Section deploy_log.
Context {RO : RangeOrder} {TL : TimestampLib} {CL : ConfigLib} {E : Env}.
Variable Platforms : option (string → list string).

Lemma silent_newMeta : silent (Deploys.newMeta).
Proof. unfold Deploys.newMeta. solve_silent. Qed.

(** A pending deployment of an environment. *)
Definition pending (env : option Environment.t) (rel : string) (rollback : bool) (dep : Deployment.t) : Prop :=
  Deployment.EnvironmentId dep = GetId env ∧ Deployment.ProjectId dep = env ⇝ Environment.ProjectId
  ∧ Deployment.ReleaseId dep = rel ∧ Deployment.PreviousReleaseId dep = env ⇝ Environment.ActiveReleaseId
  ∧ Deployment.Phase dep = DEPLOYMENT_PHASE_PENDING ∧ Deployment.IsRollback dep = rollback.

(** The environment's spec, frozen under the next version. *)
Definition frozen (st : Store.t) (env : option Environment.t) (rel : Release.t) : Prop :=
  Release.EnvironmentId rel = GetId env ∧ Release.ProjectId rel = env ⇝ Environment.ProjectId
  ∧ Release.Service rel = env ⇝ Environment.Service ∧ Release.Version rel = Store.NextReleaseVersion (GetId env) st
  ∧ Release.ConfigHash rel = ConfigHash (env ⇝ Environment.Service) (Deploys.envVarVersion st (GetId env)).

Lemma buildDeployment_run env rel rollback w w' dep :
  Deploys.buildDeployment env rel rollback w = Ret (w', inl dep) → pending env rel rollback dep.
Proof. intros (w1 & meta & _ & [_ ->]%ret_inl)%bind_inl. by split_and!. Qed.

Lemma silent_buildDeployment env rel rollback : silent (Deploys.buildDeployment env rel rollback).
Proof. apply silent_bind; [apply silent_newMeta|]. intros. apply silent_ret. Qed.

Lemma buildRelease_run env imageRef w w' rel :
  Deploys.buildRelease env imageRef w = Ret (w', inl rel) →
  frozen (World.store w) env rel ∧ Release.ImageRef rel = imageRef.
Proof.
  intros (w1 & st & [-> ->]%ret_inl & H)%bind_inl. cbv zeta in H.
  apply bind_inl in H as (w2 & meta & _ & [_ ->]%ret_inl). by split_and!.
Qed.

Lemma silent_buildRelease env imageRef : silent (Deploys.buildRelease env imageRef).
Proof.
  apply silent_bind; [apply silent_read|]. intros st. cbv zeta. apply silent_bind; [apply silent_newMeta|].
  intros. apply silent_ret.
Qed.

Definition deploy_log (st : Store.t) (envID : string) (ms : list Mutation) : Prop :=
  ms = [] ∨ ∃ env rel dep, Store.Environment envID st = Some env ∧ Deploys.hasActiveDeployment st (GetId env) = false
    ∧ frozen st env rel ∧ pending env (GetId (Some rel)) false dep
    ∧ (ms = [Command_PutRelease (Some (PutRelease.mk (Some rel)))]
       ∨ ms = [Command_PutRelease (Some (PutRelease.mk (Some rel)));
               Command_PutDeployment (Some (PutDeployment.mk (Some dep)))]).

Lemma Deploy_logs ctx req w :
  logs_at (deploy_log (World.store w) (DeployRequest.EnvironmentId req)) (Deploys.Deploy Platforms ctx req) w.
Proof.
  set (st := World.store w). assert (deploy_log st (DeployRequest.EnvironmentId req) []) as Hnil by by left.
  unfold Deploys.Deploy. apply logs_bind_silent; [done| |].
  { apply silent_bind; [apply silent_read|]. intros. case_match; solve_silent. }
  intros w1 env Hst1 (w1' & st1 & [-> ->]%ret_inl & Henv)%bind_inl. fold st in Henv.
  destruct (Store.Environment _ st) as [env'|] eqn:He; [|discriminate]. apply ret_inl in Henv as [_ ->].
  apply logs_bind_read. rewrite Hst1. fold st.
  destruct (Deploys.hasActiveDeployment st (GetId env')) eqn:Hact; [by apply logs_silent; [|apply silent_fail]|].
  destruct (Deploys.resolveImage st req) as [imageRef|e]; [|by apply logs_silent; [|apply silent_fail]].
  apply logs_bind_silent; [done|apply silent_buildRelease|]. intros w2 rel Hst2 [Hrel _]%buildRelease_run.
  rewrite Hst1 in Hrel. fold st in Hrel. cbv zeta. set (rel' := rel <| Release.Platforms := _ |>).
  assert (frozen st env' rel') as Hfr by (by destruct rel).
  apply logs_bind_silent; [done|apply silent_buildDeployment|]. intros w3 dep _ Hdep%buildDeployment_run.
  assert (∀ ms, ms = [Command_PutRelease (Some (PutRelease.mk (Some rel')))]
    ∨ ms = [Command_PutRelease (Some (PutRelease.mk (Some rel'))); Command_PutDeployment (Some (PutDeployment.mk (Some dep)))] →
    deploy_log st (DeployRequest.EnvironmentId req) ms) as Hlog by (intros ms Hms; right; exists env', rel', dep; by split_and!).
  apply (logs_bind (λ l, l = [Command_PutRelease (Some (PutRelease.mk (Some rel')))] ∨ l = [Command_PutRelease (Some (PutRelease.mk (Some rel'))); Command_PutDeployment (Some (PutDeployment.mk (Some dep)))]) (λ l, l = [])).
  - intros l1 l2 H1 ->. rewrite app_nil_r. by apply Hlog.
  - apply Hlog.
  - unfold Deploys.commit. apply (logs_bind (λ l, l = [Command_PutRelease (Some (PutRelease.mk (Some rel')))])
      (λ l, l = [Command_PutDeployment (Some (PutDeployment.mk (Some dep)))])).
    + intros l1 l2 -> ->. by right.
    + intros l1 ->. by left.
    + by apply logs_propose.
    + intros w4 [] _. by apply logs_propose.
  - intros w4 [] _. by apply logs_silent; [|apply silent_ret].
Qed.

Definition rollback_log (st : Store.t) (envID : string) (ms : list Mutation) : Prop :=
  ms = [] ∨ ∃ env target rel dep, Store.Environment envID st = Some env
    ∧ Deploys.hasActiveDeployment st (GetId env) = false
    ∧ Store.Release target st = Some rel ∧ rel ⇝ Release.EnvironmentId = GetId env
    ∧ pending env target true dep ∧ ms = [Command_PutDeployment (Some (PutDeployment.mk (Some dep)))].

Lemma rollback_target_env (ROk : RangeOrderOk RO) st env req target :
  wf st → GetId env ≠ "" → Deploys.rollback_target st env req = inl target →
  ∃ rel, Store.Release target st = Some rel ∧ rel ⇝ Release.EnvironmentId = GetId env.
Proof.
  intros Hwf Hne. unfold Deploys.rollback_target. cbv zeta. destruct (_ =? "").
  - unfold Deploys.previousRelease. destruct (Store.Release _ st) as [act|]; [|done].
    rewrite best_is_first by apply release_newer_sorted. destruct (List.find _ _) as [r|] eqn:Hf; [|done].
    apply find_some in Hf as [Hin%list_elem_of_In _]. apply elem_of_ListReleases in Hin as [[?|He] [id Hr]]; [done|].
    intros [= <-]. exists r. split; [|done]. unfold Store.Release. by rewrite (wf_releases _ Hwf _ _ Hr).
  - destruct (Store.Release _ st) as [r|] eqn:Hr; [|done]. destruct (r ⇝ Release.EnvironmentId =? GetId env) eqn:He; [|done].
    apply str_eqb_eq in He. intros [= <-]. by exists r.
Qed.

Lemma Rollback_logs (ROk : RangeOrderOk RO) ctx req w :
  wf (World.store w) → RollbackRequest.EnvironmentId req ≠ "" →
  logs_at (rollback_log (World.store w) (RollbackRequest.EnvironmentId req)) (Deploys.Rollback ctx req) w.
Proof.
  intros Hwf Hreq. set (st := World.store w). fold st in Hwf.
  assert (rollback_log st (RollbackRequest.EnvironmentId req) []) as Hnil by by left.
  unfold Deploys.Rollback. apply logs_bind_silent; [done| |].
  { apply silent_bind; [apply silent_read|]. intros. case_match; solve_silent. }
  intros w1 env Hst1 (w1' & st1 & [-> ->]%ret_inl & Henv)%bind_inl. fold st in Henv.
  destruct (Store.Environment _ st) as [env'|] eqn:He; [|discriminate]. apply ret_inl in Henv as [_ ->].
  assert (GetId env' ≠ "") as Hne by (by rewrite (wf_environments _ Hwf _ _ He)).
  apply logs_bind_read. rewrite Hst1. fold st.
  destruct (Deploys.hasActiveDeployment st (GetId env')) eqn:Hact; [by apply logs_silent; [|apply silent_fail]|].
  destruct (Deploys.rollback_target st env' req) as [target|e] eqn:Ht; [|by apply logs_silent; [|apply silent_fail]].
  destruct (rollback_target_env ROk st env' req target Hwf Hne Ht) as (rel & Hrel & Hre).
  apply logs_bind_silent; [done|apply silent_buildDeployment|]. intros w3 dep _ Hdep%buildDeployment_run.
  apply (logs_bind (λ l, l = [Command_PutDeployment (Some (PutDeployment.mk (Some dep)))]) (λ l, l = [])).
  - intros l1 l2 -> ->. right. exists env', target, rel, dep. by split_and!.
  - intros l1 ->. right. exists env', target, rel, dep. by split_and!.
  - by apply logs_propose.
  - intros w4 [] _. by apply logs_silent; [|apply silent_ret].
Qed.
End deploy_log.

(** One deployment at a time, and never across environments.  Deploy proposes
    nothing, or a release and a deployment of the environment it names, when no
    deployment of it that must finish first was in the state read: the environment's
    spec frozen under its next version, and a pending deployment from the active
    release to it.  Rollback proposes at most a pending deployment, of a release of the
    same environment, under the same condition. *)
Theorem deploy_and_rollback_spec (RO : RangeOrder) (ROk : RangeOrderOk RO) (TL : TimestampLib) (CL : ConfigLib) (E : Env)
    (Platforms : option (string → list string)) (ctx : Ctx.t) (w w' : World.t) :
  wf (World.store w) →
  (∀ req r, Deploys.Deploy Platforms ctx req w = Ret (w', r) →
     ∃ ms, World.sent w' = World.sent w ++ ms ∧ deploy_log (World.store w) (DeployRequest.EnvironmentId req) ms)
  ∧ (∀ req r, RollbackRequest.EnvironmentId req ≠ "" → Deploys.Rollback ctx req w = Ret (w', r) →
     ∃ ms, World.sent w' = World.sent w ++ ms ∧ rollback_log (World.store w) (RollbackRequest.EnvironmentId req) ms).
Proof.
  intros Hwf. split.
  - intros req r Hr. exact (Deploy_logs Platforms ctx req w _ _ Hr).
  - intros req r Hne Hr. exact (Rollback_logs ROk ctx req w Hwf Hne _ _ Hr).
Qed.

(** * Witnesses *)

Definition sample_config : ConfigLib := {|
  MarshalSpec s := Some ""; MarshalValue v := Some ""; sha256_hex s := "hash of " +:+ s
|}.

(** An environment of project [proj]. *)
Definition with_env (s : Store.t) : Store.t :=
  Store.PutRelease (Some (sample_release "r1" "e1" 1 (sample_spec false 1 100 100)))
    (Store.PutRelease (Some (sample_release "r2" "e1" 2 (sample_spec false 1 100 100)))
      (Store.PutEnvironment (Some (sample_env "e1" "r2" (sample_spec false 1 100 100))) s)).

Lemma wf_with_env s : wf s → wf (with_env s).
Proof. intros Hs. unfold with_env. auto with store_wf. Qed.

Lemma wf_alice_in pid : wf (alice_in pid).
Proof. unfold alice_in, member_of. auto 10 with store_wf. Qed.

(** The proposals of a run: the project each release, deployment and job is of. *)
Definition projects_sent (w : World.t) : list (string * string) :=
  omap (λ m, match m with
    | Command_PutRelease x => Some ("release", (x ⇝ PutRelease.Release) ⇝ Release.ProjectId)
    | Command_PutDeployment x => Some ("deployment", (x ⇝ PutDeployment.Deployment) ⇝ Deployment.ProjectId)
    | Command_PutJob x => Some ("job", (x ⇝ PutJob.Job) ⇝ Job.ProjectId)
    | _ => None
    end) (World.sent w).

Notation alice_run method pid h st :=
  (unary (RO := canonical_range) (TL := wellknown_times) (T := sample_tokens) (E := quiet_env) alice_ctx ∅ method pid
     h (World.mk st 0 [])).

Notation alice_deploy env :=
  (λ ctx p, Deploys.Deploy (RO := canonical_range) (TL := wellknown_times) (CL := sample_config) (E := quiet_env) None ctx
     (DeployRequest.mk (default "" p) env "image" "")).

Notation alice_job env :=
  (λ ctx p, Deploys.RunJob (RO := canonical_range) (TL := wellknown_times) (E := quiet_env) ctx (RunJobRequest.mk (default "" p) env "command" 0)).

(** The deploy and job services are not confined to the project the caller was
    authorized for.  A developer of one project, with no role in another, deploys an
    image into an environment of the other and runs a command in it: the request names
    its own project, which is all the interceptor checks, and the handlers look the
    environment up by id alone. *)
Theorem deploy_crosses_projects :
  ∃ st, wf st
    ∧ (∀ role, roleRank role ≠ 0%Z → ¬ has_role st "alice" "proj" role)
    ∧ (∃ w' dep, alice_run "/zattera.v1.DeployService/Deploy" (Some "p1") (alice_deploy "e1") st = Ret (w', inl dep)
         ∧ projects_sent w' = [("release", "proj"); ("deployment", "proj")])
    ∧ (∃ w' job, alice_run "/zattera.v1.JobService/RunJob" (Some "p1") (alice_job "e1") st = Ret (w', inl job)
         ∧ projects_sent w' = [("job", "proj")]).
Proof.
  exists (with_env (alice_in "p1")). split; [apply wf_with_env, wf_alice_in|]. split; [|split].
  - intros role Hrole [Ha|(m & Hm & _)]; [vm_compute in Ha; discriminate|vm_compute in Hm; discriminate].
  - destruct (alice_run "/zattera.v1.DeployService/Deploy" (Some "p1") (alice_deploy "e1") (with_env (alice_in "p1")))
      as [[w' [dep|e]]|] eqn:E1; [|vm_compute in E1; discriminate|vm_compute in E1; discriminate].
    exists w', dep. split; [reflexivity|]. vm_compute in E1. injection E1 as <- <-. vm_compute. reflexivity.
  - destruct (alice_run "/zattera.v1.JobService/RunJob" (Some "p1") (alice_job "e1") (with_env (alice_in "p1")))
      as [[w' [job|e]]|] eqn:E1; [|vm_compute in E1; discriminate|vm_compute in E1; discriminate].
    exists w', job. split; [reflexivity|]. vm_compute in E1. injection E1 as <- <-. vm_compute. reflexivity.
Qed.

Notation e1_env := (Some (sample_env "e1" "r2" (sample_spec false 1 100 100))).

Lemma rollback_target_kept_witness :
  Deploys.previousRelease (RO := canonical_range) (with_env Store.New) e1_env = Some "r1"
  ∧ "r1" ∈ Retention.keep (RO := canonical_range) (with_env Store.New) "e1" e1_env
             (Store.ListReleases (RO := canonical_range) "e1" (with_env Store.New)).
Proof.
  assert (Deploys.previousRelease (RO := canonical_range) (with_env Store.New) e1_env = Some "r1") as Hp
    by (vm_compute; reflexivity).
  split; [exact Hp|].
  pose proof (rollback_target_kept canonical_range canonical_range_ok (with_env Store.New) e1_env
    (Some (sample_release "r2" "e1" 2 (sample_spec false 1 100 100)))
    (wf_with_env _ wf_New) ltac:(vm_compute; reflexivity) ltac:(vm_compute; reflexivity) ltac:(vm_compute; reflexivity)) as H.
  cbv zeta in H. rewrite Hp in H. exact (proj2 H).
Defined.

Notation rollback_run :=
  (Deploys.Rollback (RO := canonical_range) (TL := wellknown_times) (E := quiet_env) alice_ctx
     (RollbackRequest.mk "proj" "e1" "") (World.mk (with_env Store.New) 0 [])).

(** A rollback from the second release to the first. *)
Lemma deploy_and_rollback_spec_witness :
  ∃ w' dep, rollback_run = Ret (w', inl dep) ∧ Deployment.ReleaseId dep = "r1"
    ∧ rollback_log (RO := canonical_range) (with_env Store.New) "e1" (World.sent w').
Proof.
  destruct rollback_run as [[w' [dep|e]]|] eqn:E1; [|vm_compute in E1; discriminate|vm_compute in E1; discriminate].
  exists w', dep. split; [reflexivity|].
  assert (Deployment.ReleaseId dep = "r1") as Hd by (vm_compute in E1; injection E1 as <- <-; reflexivity).
  split; [exact Hd|].
  assert (RollbackRequest.EnvironmentId (RollbackRequest.mk "proj" "e1" "") ≠ "") as Hne by discriminate.
  destruct (deploy_and_rollback_spec canonical_range canonical_range_ok wellknown_times sample_config quiet_env None alice_ctx
    (World.mk (with_env Store.New) 0 []) w' (wf_with_env _ wf_New)) as [_ H].
  destruct (H (RollbackRequest.mk "proj" "e1" "") (inl dep) Hne E1) as (ms & Hms & Hlog).
  cbn [World.sent World.store app RollbackRequest.EnvironmentId] in Hms, Hlog. rewrite Hms. exact Hlog.
Defined.
