(* ===== verification/Apps.v ===== *)
(** The project, app and domain services of the API (internal/daemon/api/projects.go,
    apps.go, domains.go). *)
From stdpp Require Import pretty.
From S2P Require Import Prelude Api Requests Watch State StateInv StoreProps Fsm Platform Leader Rpc.
From Stdlib Require Import Ascii.

(** * Names *)

Definition is_alnum (c : ascii) : bool :=
  let n := nat_of_ascii c in ((48 <=? n) && (n <=? 57)) || ((97 <=? n) && (n <=? 122)).

(** The rest of a label after its first character: [[a-z0-9-]{0,n}[a-z0-9]] with the
    last character [last]. *)
Fixpoint label_rest (s : string) : bool :=
  match s with
  | "" => true
  | String c "" => is_alnum c
  | String c s => (is_alnum c || Ascii.eqb c "-") && label_rest s
  end.

(** [^[a-z0-9]([a-z0-9-]{0,max-2}[a-z0-9])?$] *)
Definition label_matches (max : nat) (s : string) : bool :=
  match s with
  | "" => false
  | String c rest => is_alnum c && label_rest rest && (String.length s <=? max)
  end.

(** dnsNameRe *)
Definition validDNSName (name : string) : bool := label_matches 40 name.

(** The handlers' apply as a user. *)
Definition user_apply {RO : RangeOrder} {TL : TimestampLib} {E : Env} (ctx : Ctx.t) (m : Mutation) : Handler () :=
  propose ("user:" +:+ Identity.UserID (caller ctx)) m.

Definition fresh_meta {TL : TimestampLib} {E : Env} : Handler (option Meta.t) :=
  id ← New;
  now ← Now;
  let ts := Some (timestamppb_New now) in
  mret (Some (Meta.mk id ts ts)).

(** [for _, x := range l] with an apply of a deletion. *)
Definition delete_each {RO : RangeOrder} {TL : TimestampLib} {E : Env} {A} `{withMeta A} (ctx : Ctx.t)
    (del : option DeleteByID.t → Mutation) (l : list (option A)) : Handler () :=
  for_each l (λ x, user_apply ctx (del (Some (DeleteByID.mk (GetId x))))).

Module Projects.

Section projects.
Context {RO : RangeOrder} {TL : TimestampLib} {E : Env}.

Definition need_user (ctx : Ctx.t) : Handler Identity.t :=
  match IdentityFrom ctx with
  | Some id => if Identity.UserID id =? "" then fail Unauthenticated else mret id
  | None => fail Unauthenticated
  end.

Definition CreateProject (ctx : Ctx.t) (req : CreateProjectRequest.t) : Handler Project.t :=
  id ← need_user ctx;
  if negb (validDNSName (CreateProjectRequest.Name req)) then fail InvalidArgument
  else
    st ← read;
    match Store.ProjectByName (CreateProjectRequest.Name req) st with
    | Some _ => fail AlreadyExists
    | None =>
      now ← Now;
      pid ← New;
      let ts := Some (timestamppb_New now) in
      let proj := Project.mk (Some (Meta.mk pid ts ts)) (GetId (Store.Org st)) (CreateProjectRequest.Name req) in
      user_apply ctx (Command_PutProject (Some (PutProject.mk (Some proj))));;
      user_apply ctx (Command_PutProjectMember (Some (PutProjectMember.mk
        (Some (ProjectMember.mk (GetId (Some proj)) (Identity.UserID id) ROLE_OWNER)))));;
      mret proj
    end.

Definition ListProjects (ctx : Ctx.t) : Handler (list (option Project.t)) :=
  id ← need_user ctx;
  st ← read;
  if isOrgAdminUser st (Identity.UserID id) then mret (Store.ListProjects st)
  else mret (omap (λ m, Store.Project (m ⇝ ProjectMember.ProjectId) st)
               (Store.ListMembershipsOfUser (Identity.UserID id) st)).

Definition GetProject (req : GetProjectRequest.t) : Handler (option Project.t) :=
  st ← read;
  match Store.Project (GetProjectRequest.ProjectId req) st with
  | Some p => mret p
  | None => fail NotFound
  end.

Definition DeleteProject (ctx : Ctx.t) (req : DeleteProjectRequest.t) : Handler () :=
  let pid := DeleteProjectRequest.ProjectId req in
  st ← read;
  match Store.Project pid st with
  | None => fail NotFound
  | Some _ =>
    delete_each ctx Command_DeleteEnvironment (Store.ListEnvironments pid "" st);;
    st ← read;
    delete_each ctx Command_DeleteApp (Store.ListApps pid st);;
    st ← read;
    delete_each ctx Command_DeleteDomain (Store.ListDomains pid st);;
    st ← read;
    delete_each ctx Command_DeleteVolume (Store.ListVolumes pid st);;
    user_apply ctx (Command_DeleteProject (Some (DeleteByID.mk pid)))
  end.

Definition AddMember (ctx : Ctx.t) (req : AddMemberRequest.t) : Handler ProjectMember.t :=
  st ← read;
  match Store.UserByEmail (AddMemberRequest.UserEmail req) st with
  | None => fail NotFound
  | Some user =>
    let role := match AddMemberRequest.Role req with ROLE_UNSPECIFIED => ROLE_DEVELOPER | r => r end in
    let member := ProjectMember.mk (AddMemberRequest.ProjectId req) (GetId user) role in
    user_apply ctx (Command_PutProjectMember (Some (PutProjectMember.mk (Some member))));;
    mret member
  end.

Definition RemoveMember (ctx : Ctx.t) (req : RemoveMemberRequest.t) : Handler () :=
  st ← read;
  match Store.ProjectMember (RemoveMemberRequest.ProjectId req) (RemoveMemberRequest.UserId req) st with
  | None => fail NotFound
  | Some _ =>
    user_apply ctx (Command_DeleteProjectMember (Some (DeleteProjectMember.mk
      (RemoveMemberRequest.ProjectId req) (RemoveMemberRequest.UserId req))))
  end.

Definition ListMembers (req : ListMembersRequest.t) : Handler (list (option ProjectMember.t)) :=
  st ← read; mret (Store.ListProjectMembers (ListMembersRequest.ProjectId req) st).

End projects.
End Projects.

(** The sealing of values with the cluster key (internal/daemon/secrets, over the
    crypto library): whether the key is available, and sealing, which draws a nonce and
    can fail, and opening. *)
Class VaultLib := {
  Unsealed : nat → bool;
  Seal : nat → string → option (option EncryptedValue.t);
  Open : option EncryptedValue.t → option string
}.

Module Apps.

Definition seconds (n : Z) : option Duration.t := Some (Duration.mk n 0).

(** One replica, an HTTP port on 8080 and default health checks. *)
Definition defaultServiceSpec : ServiceSpec.t :=
  ServiceSpec.mk (Some (ReplicaRange.mk 1 1)) None None
    [Some (PortSpec.mk "http" 8080 PROTOCOL_HTTP 0)]
    (Some (HealthCheck.mk HEALTH_CHECK_TYPE_UNSPECIFIED "" 0 "" (seconds 10) (seconds 5) (seconds 60) 3))
    false 0 false [] [] (seconds 10) "" ∅ None.

Definition envTypeForName (name : string) : EnvironmentType :=
  if name =? "production" then ENVIRONMENT_TYPE_PRODUCTION
  else if name =? "staging" then ENVIRONMENT_TYPE_STAGING
  else ENVIRONMENT_TYPE_PREVIEW.

Section apps.
Context {RO : RangeOrder} {TL : TimestampLib} {V : VaultLib} {E : Env}.

(** An app by id or name within a project. *)
Definition resolveApp (st : Store.t) (projectID appIDorName : string) : option (option App.t) :=
  match Store.App appIDorName st with
  | Some a => if a ⇝ App.ProjectId =? projectID then Some a else Store.AppByName projectID appIDorName st
  | None => Store.AppByName projectID appIDorName st
  end.

(** An environment by id, of the project. *)
Definition resolveEnv (st : Store.t) (projectID envID : string) : option (option Environment.t) :=
  match Store.Environment envID st with
  | Some env => if negb (env ⇝ Environment.ProjectId =? projectID) then None else Some env
  | None => None
  end.

Definition put_environment (env : Environment.t) : Mutation :=
  Command_PutEnvironment (Some (PutEnvironment.mk (Some env))).

Definition CreateApp (ctx : Ctx.t) (req : CreateAppRequest.t) : Handler App.t :=
  let pid := CreateAppRequest.ProjectId req in
  if negb (validDNSName (CreateAppRequest.Name req)) then fail InvalidArgument
  else
    st ← read;
    match Store.AppByName pid (CreateAppRequest.Name req) st with
    | Some _ => fail AlreadyExists
    | None =>
      now ← Now;
      id ← New;
      let ts := Some (timestamppb_New now) in
      let app := App.mk (Some (Meta.mk id ts ts)) pid (CreateAppRequest.Name req) (CreateAppRequest.Build req) None in
      user_apply ctx (Command_PutApp (Some (PutApp.mk (Some app))));;
      for_each [("production", ENVIRONMENT_TYPE_PRODUCTION); ("staging", ENVIRONMENT_TYPE_STAGING)] (λ e,
        envID ← New;
        user_apply ctx (put_environment (Environment.mk (Some (Meta.mk envID ts ts)) (GetId (Some app)) pid e.1 e.2
          (Some defaultServiceSpec) "" 0 0 None 0 None)));;
      mret app
    end.

Definition ListApps (req : ListAppsRequest.t) : Handler (list (option App.t)) :=
  st ← read; mret (Store.ListApps (ListAppsRequest.ProjectId req) st).

Definition GetApp (req : GetAppRequest.t) : Handler (option App.t * list (option Environment.t)) :=
  st ← read;
  match resolveApp st (GetAppRequest.ProjectId req) (GetAppRequest.AppId req) with
  | None => fail NotFound
  | Some app => mret (app, Store.ListEnvironments (GetAppRequest.ProjectId req) (GetId app) st)
  end.

Definition DeleteApp (ctx : Ctx.t) (req : DeleteAppRequest.t) : Handler () :=
  st ← read;
  match resolveApp st (DeleteAppRequest.ProjectId req) (DeleteAppRequest.AppId req) with
  | None => fail NotFound
  | Some app =>
    delete_each ctx Command_DeleteEnvironment (Store.ListEnvironments (DeleteAppRequest.ProjectId req) (GetId app) st);;
    user_apply ctx (Command_DeleteApp (Some (DeleteByID.mk (GetId app))))
  end.

(** The app with its new build and GitHub settings, stamped. *)
Definition updated_app (req : ApplyAppConfigRequest.t) (app : option App.t) : Handler App.t :=
  app ← deref app;
  meta ← deref (App.Meta app);
  now ← Now;
  let app := match ApplyAppConfigRequest.Build req with Some b => app <| App.Build := Some b |> | None => app end in
  let app := match ApplyAppConfigRequest.Github req with Some g => app <| App.Github := Some g |> | None => app end in
  mret (app <| App.Meta := Some (meta <| Meta.UpdatedAt := Some (timestamppb_New now) |>) |>).

(** The environment a configuration entry is for: the stored one with the new spec, or a
    new one. *)
Definition configured_env (req : ApplyAppConfigRequest.t) (app : option App.t) (name : string)
    (spec : option ServiceSpec.t) : Handler Environment.t :=
  st ← read;
  match Store.EnvironmentByName (GetId app) name st with
  | Some env =>
    env ← deref env;
    meta ← deref (Environment.Meta env);
    now ← Now;
    let env := env <| Environment.Service := spec |> in
    mret (env <| Environment.Meta := Some (meta <| Meta.UpdatedAt := Some (timestamppb_New now) |>) |>)
  | None =>
    meta ← fresh_meta;
    mret (Environment.mk meta (GetId app) (ApplyAppConfigRequest.ProjectId req) name (envTypeForName name) spec
      "" 0 0 None 0 None)
  end.

(** Idle timeout and the seed of a scale-to-zero environment. *)
Definition seeded (req : ApplyAppConfigRequest.t) (name : string) (spec : option ServiceSpec.t) (env : Environment.t) :
    Environment.t :=
  let env := match ApplyAppConfigRequest.IdleTimeouts req !! name with
    | Some idle => env <| Environment.IdleTimeout := idle |>
    | None => env
    end in
  if spec ⇝ ServiceSpec.ScaleToZero && (Environment.EffectiveReplicas env =? 0)%Z then
    let min := spec ⇝ ServiceSpec.Replicas ⇝ ReplicaRange.Min in
    env <| Environment.EffectiveReplicas := if (0 <? min)%Z then min else 1%Z |>
  else env.

Definition apply_env_config (ctx : Ctx.t) (req : ApplyAppConfigRequest.t) (app : option App.t)
    (entry : string * option ServiceSpec.t) : Handler () :=
  let '(name, spec) := entry in
  if negb (validDNSName name) then fail InvalidArgument
  else if spec ⇝ ServiceSpec.ScaleToZero && spec ⇝ ServiceSpec.Stateful then fail InvalidArgument
  else
    env ← configured_env req app name spec;
    user_apply ctx (put_environment (seeded req name spec env)).

Definition ApplyAppConfig (ctx : Ctx.t) (req : ApplyAppConfigRequest.t) :
    Handler (option App.t * list (option Environment.t)) :=
  st ← read;
  match resolveApp st (ApplyAppConfigRequest.ProjectId req) (ApplyAppConfigRequest.AppId req) with
  | None => fail NotFound
  | Some app =>
    app ← match ApplyAppConfigRequest.Build req, ApplyAppConfigRequest.Github req with
      | None, None => mret app
      | _, _ =>
        app ← updated_app req app;
        user_apply ctx (Command_PutApp (Some (PutApp.mk (Some app))));;
        mret (Some app)
      end;
    for_each (range (ApplyAppConfigRequest.Environments req)) (apply_env_config ctx req app);;
    st ← read;
    mret (default None (Store.App (GetId app) st),
          Store.ListEnvironments (ApplyAppConfigRequest.ProjectId req) (GetId app) st)
  end.

(** Each value sealed, in iteration order; the first failure ends the loop. *)
Fixpoint seal_each (l : list (string * string)) (acc : gmap string (option EncryptedValue.t)) :
    Handler (gmap string (option EncryptedValue.t)) :=
  match l with
  | [] => mret acc
  | (k, v) :: l =>
    sealed ← tick_ (λ n, Seal n v);
    match sealed with
    | None => fail Internal
    | Some x => seal_each l (<[k := x]> acc)
    end
  end.

Definition SetEnvVars (ctx : Ctx.t) (req : SetEnvVarsRequest.t) : Handler () :=
  st ← read;
  match resolveEnv st (SetEnvVarsRequest.ProjectId req) (SetEnvVarsRequest.EnvironmentId req) with
  | None => fail NotFound
  | Some env =>
    sealed ← if bool_decide (SetEnvVarsRequest.Set_ req = ∅) then mret false
             else unsealed ← tick_ Unsealed; mret (negb unsealed);
    if sealed : bool then fail FailedPrecondition
    else
      set_ ← seal_each (range (SetEnvVarsRequest.Set_ req)) ∅;
      user_apply ctx (Command_SetEnvVars (Some (SetEnvVars.mk (GetId env) set_ (SetEnvVarsRequest.Unset req))))
  end.

(** The names, with the opened values when they are to be revealed. *)
Fixpoint open_each (reveal : bool) (l : list (string * option EncryptedValue.t)) (out : gmap string string) :
    Handler (gmap string string) :=
  match l with
  | [] => mret out
  | (k, v) :: l =>
    if negb reveal then open_each reveal l (<[k := ""]> out)
    else
      unsealed ← tick_ Unsealed;
      if negb unsealed then fail FailedPrecondition
      else match Open v with
      | None => fail Internal
      | Some pt => open_each reveal l (<[k := pt]> out)
      end
  end.

Definition GetEnvVars (req : GetEnvVarsRequest.t) : Handler (gmap string string) :=
  st ← read;
  match resolveEnv st (GetEnvVarsRequest.ProjectId req) (GetEnvVarsRequest.EnvironmentId req) with
  | None => fail NotFound
  | Some env => open_each (GetEnvVarsRequest.Reveal req) (range (Store.EnvVars (GetId env) st)) ∅
  end.

Definition SetReplicas (ctx : Ctx.t) (req : SetReplicasRequest.t) : Handler Environment.t :=
  st ← read;
  match resolveEnv st (SetReplicasRequest.ProjectId req) (SetReplicasRequest.EnvironmentId req) with
  | None => fail NotFound
  | Some env =>
    if (0 <? SetReplicasRequest.Max req)%Z && (SetReplicasRequest.Max req <? SetReplicasRequest.Min req)%Z
    then fail InvalidArgument
    else
      env ← deref env;
      meta ← deref (Environment.Meta env);
      now ← Now;
      let spec := default defaultServiceSpec (Environment.Service env) in
      let spec := spec <| ServiceSpec.Replicas :=
        Some (ReplicaRange.mk (SetReplicasRequest.Min req) (SetReplicasRequest.Max req)) |> in
      let env := env <| Environment.Service := Some spec |> in
      let env := env <| Environment.Meta := Some (meta <| Meta.UpdatedAt := Some (timestamppb_New now) |>) |> in
      user_apply ctx (put_environment env);;
      mret env
  end.

End apps.
End Apps.

Module Domains.

(** strings.TrimRight(p, "/") *)
Fixpoint trim_slashes (s : string) : string :=
  match s with
  | "" => ""
  | String c s' =>
    let r := trim_slashes s' in
    if Ascii.eqb c "/" then (if r =? "" then "" else String c r) else String c r
  end.

Definition normalizeHostname (h : string) : string := ToLower (TrimSuffix (TrimSpace h) ".").

Definition normalizePathPrefix (p : string) : string :=
  let p := TrimSpace p in
  if (p =? "") || (p =? "/") then ""
  else
    let p := if negb (HasPrefix p "/") then "/" +:+ p else p in
    trim_slashes p.

Definition validHostname (h : string) : bool :=
  if (h =? "") || (253 <? String.length h)%nat then false
  else forallb (label_matches 63) (Split h ".").

Definition HasSuffix (s suffix : string) : bool :=
  (String.length suffix <=? String.length s)%nat
  && (String.substring (String.length s - String.length suffix) (String.length suffix) s =? suffix).

Section domains.
Context {RO : RangeOrder} {TL : TimestampLib} {E : Env}.
(** The reserved suffix, lowercased by NewDomainServer. *)
Variable clusterDomain : string.

Definition dapply (ctx : Ctx.t) (m : Mutation) : Handler () := propose (Identity.Actor (caller ctx)) m.

Definition put (ctx : Ctx.t) (dom : Domain.t) : Handler () :=
  dapply ctx (Command_PutDomain (Some (PutDomain.mk (Some dom)))).

Definition collidesWithClusterDomain (host : string) : bool :=
  if clusterDomain =? "" then false
  else (host =? clusterDomain) || HasSuffix host ("." +:+ clusterDomain).

Definition AddDomain (ctx : Ctx.t) (req : AddDomainRequest.t) : Handler Domain.t :=
  let pid := AddDomainRequest.ProjectId req in
  st ← read;
  match Store.Environment (AddDomainRequest.EnvironmentId req) st with
  | None => fail NotFound
  | Some env =>
    if negb (env ⇝ Environment.ProjectId =? pid) then fail NotFound
    else
      let host := normalizeHostname (AddDomainRequest.Hostname req) in
      if negb (validHostname host) then fail InvalidArgument
      else if collidesWithClusterDomain host then fail InvalidArgument
      else
        let prefix := normalizePathPrefix (AddDomainRequest.PathPrefix req) in
        match Store.DomainByRoute host prefix st with
        | Some _ => fail AlreadyExists
        | None =>
          if existsb (λ other, negb (other ⇝ Domain.ProjectId =? pid)) (Store.DomainsByHostname host st)
          then fail PermissionDenied
          else
            meta ← fresh_meta;
            let dom := Domain.mk meta pid (env ⇝ Environment.AppId) (GetId env) host prefix None CERT_STATUS_PENDING
              false (AddDomainRequest.PortName req) in
            put ctx dom;;
            mret dom
        end
  end.

Definition ListDomains (req : ListDomainsRequest.t) : Handler (list (option Domain.t)) :=
  st ← read; mret (Store.ListDomains (ListDomainsRequest.ProjectId req) st).

(** A domain by id, of the project. *)
Definition find_domain (st : Store.t) (id projectID : string) : option (option Domain.t) :=
  match Store.Domain id st with
  | Some dom => if negb (dom ⇝ Domain.ProjectId =? projectID) then None else Some dom
  | None => None
  end.

Definition RemoveDomain (ctx : Ctx.t) (req : RemoveDomainRequest.t) : Handler () :=
  st ← read;
  match find_domain st (RemoveDomainRequest.DomainId req) (RemoveDomainRequest.ProjectId req) with
  | None => fail NotFound
  | Some dom => dapply ctx (Command_DeleteDomain (Some (DeleteByID.mk (GetId dom))))
  end.

Definition SetMiddleware (ctx : Ctx.t) (req : SetMiddlewareRequest.t) : Handler Domain.t :=
  st ← read;
  match find_domain st (SetMiddlewareRequest.DomainId req) (SetMiddlewareRequest.ProjectId req) with
  | None => fail NotFound
  | Some dom =>
    dom ← deref dom;
    let dom := dom <| Domain.Middleware := SetMiddlewareRequest.Middleware req |> in
    put ctx dom;;
    mret dom
  end.

(** The certificate of a hostname covers all its routes. *)
Definition SetCertStatus (ctx : Ctx.t) (hostname : string) (cs : CertStatus) : Handler () :=
  st ← read;
  for_each (Store.DomainsByHostname (normalizeHostname hostname) st) (λ dom,
    if bool_decide (dom ⇝ Domain.CertStatus = cs) then mret ()
    else
      dom ← deref dom;
      ignore (put ctx (dom <| Domain.CertStatus := cs |>))).

End domains.
End Domains.
