(* ===== verification/Isolation.v ===== *)
(** Project isolation: what the project, app and domain services of the API change, and
    that they leave every other project alone. *)
From stdpp Require Import pretty.
From S2P Require Import Prelude Api Requests Watch State StateInv StoreProps Fsm FsmProps FsmSteps Samples Platform Placement.
From S2P Require Import Leader Orchestrator Control OrchestratorProps Scheduler SchedulerProps Retention Rpc Deploys Apps.

(** * One project's part of the state *)

Section part.
Context {A : Type} (project : option A → string) (q : string).
Implicit Type m : gmap string (option A).

(** An entry of a collection, if it belongs to project [q]. *)
Definition part (o : option (option A)) : option (option A) :=
  o ≫= λ x, if project x =? q then Some x else None.

Lemma part_insert m id x i :
  project x ≠ q → part (m !! id) = None → part (<[id := x]> m !! i) = part (m !! i).
Proof.
  intros Hx Hid. destruct (decide (i = id)) as [->|Hne]; [|by rewrite lookup_insert_ne].
  rewrite lookup_insert_eq, Hid. cbn. by rewrite (proj2 (str_eqb_neq _ _) Hx).
Qed.

Lemma part_delete m id i : part (m !! id) = None → part (delete id m !! i) = part (m !! i).
Proof.
  intros Hid. destruct (decide (i = id)) as [->|Hne]; [|by rewrite lookup_delete_ne]. by rewrite lookup_delete_eq, Hid.
Qed.

Lemma part_other m id x : m !! id = Some x → project x ≠ q → part (m !! id) = None.
Proof. intros -> Hx. cbn. by rewrite (proj2 (str_eqb_neq _ _) Hx). Qed.

Lemma part_new m id : m !! id = None → part (m !! id) = None.
Proof. by intros ->. Qed.
End part.

Notation of_app := (part (λ x, x ⇝ App.ProjectId)).
Notation of_env := (part (λ x, x ⇝ Environment.ProjectId)).
Notation of_domain := (part (λ x, x ⇝ Domain.ProjectId)).
Notation of_volume := (part (λ x, x ⇝ Volume.ProjectId)).

(** Nothing of project [q] differs. *)
Record unchanged (q : string) (s s' : Store.t) : Prop := Unchanged {
  un_project : Store.projects s' !! q = Store.projects s !! q;
  un_members : Store.projectMembers s' !! q = Store.projectMembers s !! q;
  un_apps : ∀ id, of_app q (Store.apps s' !! id) = of_app q (Store.apps s !! id);
  un_envs : ∀ id, of_env q (Store.environments s' !! id) = of_env q (Store.environments s !! id);
  un_vars : ∀ id, of_env q (Store.environments s !! id) ≠ None → Store.EnvVars id s' = Store.EnvVars id s;
  un_domains : ∀ id, of_domain q (Store.domains s' !! id) = of_domain q (Store.domains s !! id);
  un_volumes : ∀ id, of_volume q (Store.volumes s' !! id) = of_volume q (Store.volumes s !! id);
  un_rest : (Store.releases s', Store.deployments s', Store.builds s', Store.jobs s', Store.assignments s')
    = (Store.releases s, Store.deployments s, Store.builds s, Store.jobs s, Store.assignments s)
}.

#[export] Instance unchanged_refl q : Reflexive (unchanged q).
Proof. by intros s. Qed.

#[export] Instance unchanged_trans q : Transitive (unchanged q).
Proof.
  intros s1 s2 s3 [] []. constructor; try congruence.
  intros id Hid. rewrite un_vars1; [by apply un_vars0|]. by rewrite un_envs0.
Qed.

#[export] Instance unchanged_preorder q : PreOrder (unchanged q).
Proof. split; apply _. Qed.

(** Unfolds an operation whose effect on the collections is plain. *)
Ltac plain := intros; unfold Store.touch, Store.EnvVars; get_set.

Lemma unchanged_marked q s s' : marked s s' → unchanged q s s'.
Proof. intros (ring & ids & ->). by constructor. Qed.

Section operations.
Context (q : string) (s : Store.t).

Lemma un_PutProject x : GetId x ≠ q → unchanged q s (Store.PutProject x s).
Proof. intros Hx. unfold Store.PutProject. constructor; plain; try done. by rewrite lookup_insert_ne. Qed.

Lemma un_DeleteProject id : id ≠ q → unchanged q s (Store.DeleteProject id s).
Proof.
  intros Hx. unfold Store.DeleteProject. destruct (Store.projects s !! id); [|done].
  constructor; plain; try done; by rewrite lookup_delete_ne.
Qed.

Lemma un_PutProjectMember m : m ⇝ ProjectMember.ProjectId ≠ q → unchanged q s (Store.PutProjectMember m s).
Proof. intros Hx. unfold Store.PutProjectMember. constructor; plain; try done. by rewrite lookup_insert_ne. Qed.

Lemma un_DeleteProjectMember pid u : pid ≠ q → unchanged q s (Store.DeleteProjectMember pid u s).
Proof.
  intros Hx. unfold Store.DeleteProjectMember. destruct (Store.projectMembers s !! pid) as [byUser|]; [|done].
  destruct (byUser !! u); [|done]. constructor; plain; try done. by rewrite lookup_insert_ne.
Qed.

Lemma un_PutApp x :
  x ⇝ App.ProjectId ≠ q → of_app q (Store.apps s !! GetId x) = None → unchanged q s (Store.PutApp x s).
Proof. intros Hx Hid. unfold Store.PutApp. constructor; plain; try done. by apply part_insert. Qed.

Lemma un_DeleteApp id : of_app q (Store.apps s !! id) = None → unchanged q s (Store.DeleteApp id s).
Proof.
  intros Hid. unfold Store.DeleteApp. destruct (Store.apps s !! id) eqn:Hx; [|done].
  constructor; plain; try done. apply part_delete. by rewrite Hx.
Qed.

Lemma un_PutEnvironment x :
  x ⇝ Environment.ProjectId ≠ q → of_env q (Store.environments s !! GetId x) = None →
  unchanged q s (Store.PutEnvironment x s).
Proof. intros Hx Hid. unfold Store.PutEnvironment. constructor; plain; try done. by apply part_insert. Qed.

Lemma un_DeleteEnvironment id : of_env q (Store.environments s !! id) = None → unchanged q s (Store.DeleteEnvironment id s).
Proof.
  intros Hid. unfold Store.DeleteEnvironment. destruct (Store.environments s !! id) eqn:Hx; [|done].
  constructor; plain; try done.
  - apply part_delete. by rewrite Hx.
  - rewrite lookup_delete_ne; [done|]. intros <-. by rewrite Hx in H.
Qed.

Lemma un_SetEnvVars {RO : RangeOrder} id set_ unset :
  of_env q (Store.environments s !! id) = None → unchanged q s (Store.SetEnvVars id set_ unset s).
Proof.
  intros Hid. unfold Store.SetEnvVars. constructor; plain; try done.
  rewrite lookup_insert_ne; [done|]. by intros <-.
Qed.

Lemma un_PutDomain x :
  x ⇝ Domain.ProjectId ≠ q → of_domain q (Store.domains s !! GetId x) = None → unchanged q s (Store.PutDomain x s).
Proof.
  intros Hx Hid. unfold Store.PutDomain, Store.indexDomain, Store.unindexDomain.
  destruct (Store.domains s !! GetId x) as [prev|] eqn:Hp.
  1: destruct (Store.domainsByHostname s !! _); [case_bool_decide|].
  all: constructor; plain; try done; apply part_insert; by rewrite ?Hp.
Qed.

Lemma un_DeleteDomain id : of_domain q (Store.domains s !! id) = None → unchanged q s (Store.DeleteDomain id s).
Proof.
  intros Hid. unfold Store.DeleteDomain, Store.unindexDomain. destruct (Store.domains s !! id) eqn:Hx; [|done].
  destruct (Store.domainsByHostname s !! _); [case_bool_decide|].
  all: constructor; plain; try done; apply part_delete; by rewrite Hx.
Qed.

Lemma un_DeleteVolume id : of_volume q (Store.volumes s !! id) = None → unchanged q s (Store.DeleteVolume id s).
Proof.
  intros Hid. unfold Store.DeleteVolume. destruct (Store.volumes s !! id) eqn:Hx; [|done].
  constructor; plain; try done. apply part_delete. by rewrite Hx.
Qed.
End operations.

(** * Running in a quiet environment *)

Section isolation.
Context {RO : RangeOrder} {ROk : RangeOrderOk RO} {TL : TimestampLib} {E : Env} {Q : Quiet E}.
Context (Hids : Inj (=) (=) ids_New).
Variable q : string.

(** Ids to come are not in use. *)
Record tidy (n0 : nat) (s : Store.t) : Prop := {
  td_apps : ∀ n, n0 ≤ n → Store.apps s !! ids_New n = None;
  td_envs : ∀ n, n0 ≤ n → Store.environments s !! ids_New n = None;
  td_domains : ∀ n, n0 ≤ n → Store.domains s !! ids_New n = None;
  td_project : ∀ n, n0 ≤ n → ids_New n ≠ q
}.

(** An id that is none of those to come. *)
Definition known (n0 : nat) (id : string) : Prop := ∀ n, n0 ≤ n → ids_New n ≠ id.

Lemma known_new n0 k : k < n0 → known n0 (ids_New k).
Proof. intros Hk n Hn Heq. apply (inj ids_New) in Heq. lia. Qed.

Lemma known_weaken n0 n1 id : n0 ≤ n1 → known n0 id → known n1 id.
Proof. intros Hle Hk n Hn. apply Hk. lia. Qed.

Lemma tidy_weaken n0 n1 s : n0 ≤ n1 → tidy n0 s → tidy n1 s.
Proof. intros Hle [H1 H2 H3 H4]. constructor; intros n Hn; [apply H1|apply H2|apply H3|apply H4]; lia. Qed.

Lemma tidy_frame n0 s s' :
  Store.apps s' = Store.apps s → Store.environments s' = Store.environments s → Store.domains s' = Store.domains s →
  tidy n0 s → tidy n0 s'.
Proof. intros E1 E2 E3 []. by constructor; rewrite ?E1, ?E2, ?E3. Qed.

Lemma tidy_marked n0 s s' : marked s s' → tidy n0 s → tidy n0 s'.
Proof. intros (ring & ids & ->). by apply tidy_frame. Qed.

Lemma known_app n0 s id a : tidy n0 s → Store.apps s !! id = Some a → known n0 id.
Proof. intros Ht Ha n Hn <-. by rewrite (td_apps _ _ Ht n Hn) in Ha. Qed.

(** An environment of project [q] is of an app of it. *)
Definition scoped (s : Store.t) : Prop :=
  ∀ id e, Store.environments s !! id = Some e → e ⇝ Environment.ProjectId = q →
    of_app q (Store.apps s !! (e ⇝ Environment.AppId)) ≠ None.

Lemma scoped_unchanged s s' : unchanged q s s' → scoped s → scoped s'.
Proof.
  intros Hu Hs id e He Hq. rewrite (un_apps _ _ _ Hu). apply (Hs id); [|done].
  pose proof (un_envs _ _ _ Hu id) as Hp. rewrite He in Hp. cbn in Hp. rewrite (proj2 (str_eqb_eq _ _) Hq) in Hp.
  destruct (Store.environments s !! id) as [e'|]; [|done]. cbn in Hp. destruct (_ =? q); congruence.
Qed.

Lemma known_env n0 s id e : tidy n0 s → Store.environments s !! id = Some e → known n0 id.
Proof. intros Ht He n Hn <-. by rewrite (td_envs _ _ Ht n Hn) in He. Qed.

Lemma known_domain n0 s id d : tidy n0 s → Store.domains s !! id = Some d → known n0 id.
Proof. intros Ht Hd n Hn <-. by rewrite (td_domains _ _ Ht n Hn) in Hd. Qed.

Lemma tidy_PutApp n0 s x : tidy n0 s → known n0 (GetId x) → tidy n0 (Store.PutApp x s).
Proof.
  intros [H1 H2 H3 H4] Hk. unfold Store.PutApp. constructor; plain; eauto.
  rewrite lookup_insert_ne; [by apply H1|]. intros Heq. by apply (Hk n).
Qed.

Lemma tidy_DeleteApp n0 s id : tidy n0 s → tidy n0 (Store.DeleteApp id s).
Proof.
  intros [H1 H2 H3 H4]. unfold Store.DeleteApp. destruct (Store.apps s !! id); [|by constructor].
  constructor; plain; eauto. apply lookup_delete_None. right. by apply H1.
Qed.

Lemma tidy_PutEnvironment n0 s x : tidy n0 s → known n0 (GetId x) → tidy n0 (Store.PutEnvironment x s).
Proof.
  intros [H1 H2 H3 H4] Hk. unfold Store.PutEnvironment. constructor; plain; eauto.
  rewrite lookup_insert_ne; [by apply H2|]. intros Heq. by apply (Hk n).
Qed.

Lemma tidy_DeleteEnvironment n0 s id : tidy n0 s → tidy n0 (Store.DeleteEnvironment id s).
Proof.
  intros [H1 H2 H3 H4]. unfold Store.DeleteEnvironment. destruct (Store.environments s !! id); [|by constructor].
  constructor; plain; eauto. apply lookup_delete_None. right. by apply H2.
Qed.

Lemma tidy_PutDomain n0 s x : tidy n0 s → known n0 (GetId x) → tidy n0 (Store.PutDomain x s).
Proof.
  intros [H1 H2 H3 H4] Hk. unfold Store.PutDomain, Store.indexDomain, Store.unindexDomain.
  destruct (Store.domains s !! GetId x) as [prev|].
  1: destruct (Store.domainsByHostname s !! _); [case_bool_decide|].
  all: constructor; plain; eauto; rewrite lookup_insert_ne; [by apply H3|]; intros Heq; by apply (Hk n).
Qed.

Lemma tidy_DeleteDomain n0 s id : tidy n0 s → tidy n0 (Store.DeleteDomain id s).
Proof.
  intros [H1 H2 H3 H4]. unfold Store.DeleteDomain, Store.unindexDomain. destruct (Store.domains s !! id); [|by constructor].
  destruct (Store.domainsByHostname s !! _); [case_bool_decide|].
  all: constructor; plain; eauto; apply lookup_delete_None; right; by apply H3.
Qed.

(** Closes the step of an operation that touches none of the three collections. *)
Ltac tidy_rest :=
  intros Ht;
  unfold Store.PutProject, Store.DeleteProject, Store.PutProjectMember, Store.DeleteProjectMember, Store.SetEnvVars,
    Store.DeleteVolume, Store.touch;
  repeat case_match; try done; (eapply tidy_frame; [..|exact Ht]; by get_set).

Lemma tidy_PutProject n0 s x : tidy n0 s → tidy n0 (Store.PutProject x s).
Proof. tidy_rest. Qed.

Lemma tidy_DeleteProject n0 s id : tidy n0 s → tidy n0 (Store.DeleteProject id s).
Proof. tidy_rest. Qed.

Lemma tidy_PutProjectMember n0 s x : tidy n0 s → tidy n0 (Store.PutProjectMember x s).
Proof. tidy_rest. Qed.

Lemma tidy_DeleteProjectMember n0 s pid u : tidy n0 s → tidy n0 (Store.DeleteProjectMember pid u s).
Proof. tidy_rest. Qed.

Lemma tidy_SetEnvVars n0 s id set_ unset : tidy n0 s → tidy n0 (Store.SetEnvVars id set_ unset s).
Proof. tidy_rest. Qed.

Lemma tidy_DeleteVolume n0 s id : tidy n0 s → tidy n0 (Store.DeleteVolume id s).
Proof. tidy_rest. Qed.

(** ** The logic *)

Record calm (w : World.t) : Prop := {
  calm_wf : wf (World.store w);
  calm_fresh : fresh_requests w;
  calm_tidy : tidy (World.tick w) (World.store w)
}.

(** From a world that goes from [w] to [w']: project [q] is as it was, and the world is
    calm. *)
Record later (w w' : World.t) : Prop := {
  lt_unchanged : unchanged q (World.store w) (World.store w');
  lt_tick : World.tick w ≤ World.tick w';
  lt_calm : calm w'
}.

Lemma later_refl w : calm w → later w w.
Proof. by constructor. Qed.

Lemma later_trans w1 w2 w3 : later w1 w2 → later w2 w3 → later w1 w3.
Proof. intros [] []. constructor; [by etrans|lia|done]. Qed.

(** However [m] ends. *)
Definition isolated {A} (m : Handler A) (w : World.t) : Prop := ∀ w' r, m w = Ret (w', r) → later w w'.

Lemma iso_ret {A} (a : A) w : calm w → isolated (mret a) w.
Proof. intros Hw w' r [= <- _]. by apply later_refl. Qed.

Lemma iso_fail {A} (e : code) w : calm w → isolated (fail (A := A) e) w.
Proof. intros Hw w' r [= <- _]. by apply later_refl. Qed.

Lemma iso_tick {A} (f : nat → A) w : calm w → isolated (tick_ f) w.
Proof.
  intros [H1 H2 H3] w' r [= <- _]. constructor; [done|cbn; lia|]. constructor; cbn [World.store World.tick]; [done| |].
  - intros n Hn. apply H2. cbn in Hn. lia.
  - eapply tidy_weaken; [|exact H3]. lia.
Qed.

Lemma iso_bind {A B} (m : Handler A) (k : A → Handler B) w :
  isolated m w → (∀ w' a, m w = Ret (w', inl a) → later w w' → isolated (k a) w') → isolated (m ≫= k) w.
Proof.
  intros Hm Hk w' r. unfold mbind, M_bind. destruct (m w) as [[w1 [a|e]]|] eqn:E1; [| |done].
  - intros Hr. pose proof (Hm _ _ E1) as Hl. eapply later_trans; [exact Hl|]. by eapply Hk.
  - intros [= <- _]. by apply (Hm _ _ E1).
Qed.

Lemma iso_read {B} (k : Store.t → Handler B) w : isolated (k (World.store w)) w → isolated (read ≫= k) w.
Proof. intros Hk w' r. apply Hk. Qed.

(** A tick, by its number. *)
Lemma iso_tick_bind {A B} (f : nat → A) (k : A → Handler B) w :
  calm w →
  (∀ w', World.store w' = World.store w → World.tick w' = S (World.tick w) → later w w' → isolated (k (f (World.tick w))) w') →
  isolated (tick_ f ≫= k) w.
Proof. intros Hc Hk. apply iso_bind; [by apply iso_tick|]. intros w' a [= <- <-] Hl. by apply Hk. Qed.

Lemma iso_deref {A B} (p : option A) (k : A → Handler B) w :
  (∀ a, p = Some a → isolated (k a) w) → isolated (deref p ≫= k) w.
Proof. intros Hk. destruct p as [a|]; [by apply Hk|]. by intros w' r. Qed.

Lemma iso_ignore {A} (m : Handler A) w : isolated m w → isolated (ignore m) w.
Proof.
  intros Hm w' r. unfold ignore. destruct (m w) as [[w1 o]|] eqn:E1; [|done]. intros [= <- _]. by eapply Hm.
Qed.

Lemma iso_for_each {A} (l : list A) (f : A → Handler ()) w :
  calm w → (∀ x w', x ∈ l → later w w' → isolated (f x) w') → isolated (for_each l f) w.
Proof.
  intros Hc Hf.
  assert (∀ l' w0, (∀ x, x ∈ l' → x ∈ l) → later w w0 → isolated (for_each l' f) w0) as H
    by (induction l' as [|x l' IH]; intros w0 Hl Hw0; cbn [for_each];
        [by apply iso_ret, (lt_calm _ _ Hw0)
        |apply iso_bind; [apply Hf; [apply Hl; left|done]|]; intros w' [] _ Hw'; apply IH; [|by eapply later_trans];
         intros y Hy; apply Hl; by right]).
  apply H; [done|by apply later_refl].
Qed.

(** A proposal commits, and acts as [f] on the store. *)
Lemma iso_propose actor m (f : Store.t → Store.t) w :
  (∀ cmd s, Command.Mut cmd = Some m → FSM.apply cmd s = FSM.done_ (f s)) → calm w →
  (∀ s, marked (World.store w) s → tidy (World.tick w) s → unchanged q s (f s) ∧ tidy (World.tick w) (f s)) →
  isolated (propose actor m) w.
Proof.
  intros Hf [Hwf Hfr Ht] Hu w' r. destruct (quiet_Apply Hids actor m f w Hf Hfr) as (s1 & Hs1 & Happ & Hfr').
  pose proof (keeps_Apply actor m w _ _ Hwf Happ) as Hwf'. unfold propose. rewrite Happ. intros [= <- _].
  destruct (Hu s1 Hs1) as [Hun Ht']; [by eapply tidy_marked|].
  constructor; cbn [World.store World.tick]; [etrans; [by apply unchanged_marked|done]|lia|].
  constructor; [done|done|]. cbn [World.store World.tick]. eapply tidy_weaken; [|exact Ht']. lia.
Qed.
End isolation.

(** The collections of a marked store are the same. *)
Lemma marked_collections s s' :
  marked s s' → Store.apps s' = Store.apps s ∧ Store.environments s' = Store.environments s
    ∧ Store.domains s' = Store.domains s ∧ Store.volumes s' = Store.volumes s.
Proof. by intros (ring & ids & ->). Qed.
(** * The handlers *)

Section handlers.
Context {RO : RangeOrder} {ROk : RangeOrderOk RO} {TL : TimestampLib} {V : VaultLib} {E : Env} {Q : Quiet E}.
Context (Hids : Inj (=) (=) ids_New).
Variables (q : string) (ctx : Ctx.t).
Notation isolated := (isolated q).
Notation calm := (calm q).
Notation later := (later q).

(** ** One proposal *)

Ltac proposal f :=
  apply (iso_propose Hids q _ _ f); [intros cmd s Hcmd; unfold FSM.apply; by rewrite Hcmd|done|];
  intros s Hs Ht; destruct (marked_collections _ _ Hs) as (Ea & Ee & Ed & Ev).

Lemma iso_put_env x w :
  calm w → Environment.ProjectId x ≠ q → of_env q (Store.environments (World.store w) !! GetId (Some x)) = None →
  known (World.tick w) (GetId (Some x)) → isolated (user_apply ctx (Apps.put_environment x)) w.
Proof.
  intros Hc Hx Hid Hk. proposal (Store.PutEnvironment (Some x)).
  split; [apply un_PutEnvironment; [done|by rewrite Ee]|by apply tidy_PutEnvironment].
Qed.

Lemma iso_put_app x w :
  calm w → App.ProjectId x ≠ q → of_app q (Store.apps (World.store w) !! GetId (Some x)) = None →
  known (World.tick w) (GetId (Some x)) → isolated (user_apply ctx (Command_PutApp (Some (PutApp.mk (Some x))))) w.
Proof.
  intros Hc Hx Hid Hk. proposal (Store.PutApp (Some x)).
  split; [apply un_PutApp; [done|by rewrite Ea]|by apply tidy_PutApp].
Qed.

Lemma iso_put_domain x w :
  calm w → Domain.ProjectId x ≠ q → of_domain q (Store.domains (World.store w) !! GetId (Some x)) = None →
  known (World.tick w) (GetId (Some x)) → isolated (Domains.put ctx x) w.
Proof.
  intros Hc Hx Hid Hk. proposal (Store.PutDomain (Some x)).
  split; [apply un_PutDomain; [done|by rewrite Ed]|by apply tidy_PutDomain].
Qed.

Lemma iso_delete_env id w :
  calm w → of_env q (Store.environments (World.store w) !! id) = None →
  isolated (user_apply ctx (Command_DeleteEnvironment (Some (DeleteByID.mk id)))) w.
Proof.
  intros Hc Hid. proposal (Store.DeleteEnvironment id).
  split; [apply un_DeleteEnvironment; by rewrite Ee|by apply tidy_DeleteEnvironment].
Qed.

Lemma iso_delete_app id w :
  calm w → of_app q (Store.apps (World.store w) !! id) = None →
  isolated (user_apply ctx (Command_DeleteApp (Some (DeleteByID.mk id)))) w.
Proof.
  intros Hc Hid. proposal (Store.DeleteApp id). split; [apply un_DeleteApp; by rewrite Ea|by apply tidy_DeleteApp].
Qed.

Lemma iso_delete_domain actor id w :
  calm w → of_domain q (Store.domains (World.store w) !! id) = None →
  isolated (propose actor (Command_DeleteDomain (Some (DeleteByID.mk id)))) w.
Proof.
  intros Hc Hid. proposal (Store.DeleteDomain id).
  split; [apply un_DeleteDomain; by rewrite Ed|by apply tidy_DeleteDomain].
Qed.

Lemma iso_delete_volume id w :
  calm w → of_volume q (Store.volumes (World.store w) !! id) = None →
  isolated (user_apply ctx (Command_DeleteVolume (Some (DeleteByID.mk id)))) w.
Proof.
  intros Hc Hid. proposal (Store.DeleteVolume id).
  split; [apply un_DeleteVolume; by rewrite Ev|by apply tidy_DeleteVolume].
Qed.

Lemma iso_set_env_vars id set_ unset w :
  calm w → of_env q (Store.environments (World.store w) !! id) = None →
  isolated (user_apply ctx (Command_SetEnvVars (Some (SetEnvVars.mk id set_ unset)))) w.
Proof.
  intros Hc Hid. proposal (Store.SetEnvVars id set_ unset).
  split; [apply un_SetEnvVars; by rewrite Ee|by apply tidy_SetEnvVars].
Qed.

Lemma iso_put_project x w :
  calm w → GetId (Some x) ≠ q → isolated (user_apply ctx (Command_PutProject (Some (PutProject.mk (Some x))))) w.
Proof.
  intros Hc Hx. proposal (Store.PutProject (Some x)). split; [by apply un_PutProject|by apply tidy_PutProject].
Qed.

Lemma iso_delete_project id w :
  calm w → id ≠ q → isolated (user_apply ctx (Command_DeleteProject (Some (DeleteByID.mk id)))) w.
Proof.
  intros Hc Hx. proposal (Store.DeleteProject id). split; [by apply un_DeleteProject|by apply tidy_DeleteProject].
Qed.

Lemma iso_put_member x w :
  calm w → ProjectMember.ProjectId x ≠ q →
  isolated (user_apply ctx (Command_PutProjectMember (Some (PutProjectMember.mk (Some x))))) w.
Proof.
  intros Hc Hx. proposal (Store.PutProjectMember (Some x)). split; [by apply un_PutProjectMember|by apply tidy_PutProjectMember].
Qed.

Lemma iso_delete_member pid u w :
  calm w → pid ≠ q → isolated (user_apply ctx (Command_DeleteProjectMember (Some (DeleteProjectMember.mk pid u)))) w.
Proof.
  intros Hc Hx. proposal (Store.DeleteProjectMember pid u). split; [by apply un_DeleteProjectMember|by apply tidy_DeleteProjectMember].
Qed.

(** ** Loops of deletions *)

Lemma iso_delete_each {A} `{withMeta A} del (l : list (option A)) (ok : Store.t → string → Prop) w :
  calm w → (∀ x, x ∈ l → ok (World.store w) (GetId x)) →
  (∀ s s' id, unchanged q s s' → ok s id → ok s' id) →
  (∀ id w, calm w → ok (World.store w) id → isolated (user_apply ctx (del (Some (DeleteByID.mk id)))) w) →
  isolated (delete_each ctx del l) w.
Proof.
  intros Hc Hl Hok Hdel. apply iso_for_each; [done|]. intros x w' Hx Hw'. apply Hdel; [apply Hw'|].
  eapply Hok; [apply Hw'|by apply Hl].
Qed.
End handlers.
Lemma part_later {A} `{withMeta A} (project : option A → string) q (x : option A) (m m' : gmap string (option A)) :
  (∀ id, part project q (m' !! id) = part project q (m !! id)) → m !! GetId x = Some x → project x ≠ q →
  part project q (m' !! GetId x) = None.
Proof. intros Hm Hx Hq. rewrite Hm. by eapply part_other. Qed.

(** * What the services look up *)

Section lookups.
Context {RO : RangeOrder} {ROk : RangeOrderOk RO}.

Lemma stored {A} `{withMeta A} (m : gmap string (option A)) id x : keyed m → m !! id = Some x → m !! GetId x = Some x.
Proof. intros Hk Hx. by rewrite (Hk _ _ Hx). Qed.

(** What a list sorted by id holds. *)
Lemma elem_of_listed {A} `{withMeta A} (p : option A → bool) (m : gmap string (option A)) x :
  keyed m → x ∈ Store.sortByID (List.filter p (range_values m)) → m !! GetId x = Some x ∧ p x = true.
Proof.
  intros Hk. unfold Store.sortByID. rewrite elem_of_sort_slice, elem_of_Filter, elem_of_range_values.
  intros [[id Hx] Hp]. split; [by eapply stored|done].
Qed.

Lemma found {A} `{withMeta A} (p : option A → bool) (m : gmap string (option A)) x :
  keyed m → List.find p (range_values m) = Some x → m !! GetId x = Some x ∧ p x = true.
Proof.
  intros Hk [Hx Hp]%find_some. rewrite <- list_elem_of_In, elem_of_range_values in Hx. destruct Hx as [id Hx].
  split; [by eapply stored|done].
Qed.

Lemma resolveApp_spec st pid name a :
  wf st → Apps.resolveApp st pid name = Some a → Store.apps st !! GetId a = Some a ∧ a ⇝ App.ProjectId = pid.
Proof.
  intros Hwf. assert (Store.AppByName pid name st = Some a → Store.apps st !! GetId a = Some a ∧ a ⇝ App.ProjectId = pid)
    as Hby. { intros [Ha [Hp _]%andb_true_iff]%found; [|apply Hwf]. by apply str_eqb_eq in Hp. }
  unfold Apps.resolveApp. destruct (Store.App name st) as [b|] eqn:Hb; [|done].
  destruct (_ =? pid) eqn:Hp; [|done]. intros [= ->]. apply str_eqb_eq in Hp. split; [|done].
  eapply stored; [apply Hwf|exact Hb].
Qed.

Lemma resolveEnv_spec st pid id e :
  wf st → Apps.resolveEnv st pid id = Some e →
  Store.environments st !! GetId e = Some e ∧ e ⇝ Environment.ProjectId = pid.
Proof.
  intros Hwf. unfold Apps.resolveEnv. destruct (Store.Environment id st) as [b|] eqn:Hb; [|done].
  destruct (_ =? pid) eqn:Hp; [|done]. intros [= ->]. apply str_eqb_eq in Hp. split; [|done].
  eapply stored; [apply Hwf|exact Hb].
Qed.

Lemma find_domain_spec st id pid d :
  wf st → Domains.find_domain st id pid = Some d →
  Store.domains st !! GetId d = Some d ∧ d ⇝ Domain.ProjectId = pid.
Proof.
  intros Hwf. unfold Domains.find_domain. destruct (Store.Domain id st) as [b|] eqn:Hb; [|done].
  destruct (_ =? pid) eqn:Hp; [|done]. intros [= ->]. apply str_eqb_eq in Hp. split; [|done].
  eapply stored; [apply Hwf|exact Hb].
Qed.
End lookups.

(** * The handlers of another project *)

Section other_project.
Context {RO : RangeOrder} {ROk : RangeOrderOk RO} {TL : TimestampLib} {V : VaultLib} {E : Env} {Q : Quiet E}.
Context (Hids : Inj (=) (=) ids_New).
Variables (q : string) (ctx : Ctx.t).
Notation isolated := (isolated q).
Notation calm := (calm q).
Notation later := (later q).

(** The environments, apps, domains or volumes of another project are deleted. *)
Lemma iso_delete_envs pid aid w w0 :
  calm w0 → calm w → later w0 w → pid ≠ q → pid ≠ "" →
  isolated (delete_each ctx Command_DeleteEnvironment (Store.ListEnvironments pid aid (World.store w0))) w.
Proof.
  intros H0 Hc Hl Hpid Hne. apply (iso_delete_each q ctx _ _ (λ s id, of_env q (Store.environments s !! id) = None)).
  - done.
  - intros x [Hx Hp]%elem_of_listed; [|apply H0]. eapply part_later; [apply Hl|exact Hx|].
    destruct (negb (aid =? "") && _); [done|]. destruct (pid =? "") eqn:He; [by apply str_eqb_eq in He|].
    cbn in Hp. destruct (_ =? pid) eqn:Hq; [|done]. apply str_eqb_eq in Hq. congruence.
  - intros s s' id Hu. by rewrite (un_envs _ _ _ Hu).
  - intros id w' Hw'. by apply iso_delete_env.
Qed.

(** What a list restricted to a named project holds. *)
Lemma of_pid pid r : pid ≠ "" → (pid =? "") || (r =? pid) = true → r = pid.
Proof. intros Hne [H|H]%orb_true_iff; apply str_eqb_eq in H; congruence. Qed.

Lemma iso_delete_apps pid w w0 :
  calm w0 → calm w → later w0 w → pid ≠ q → pid ≠ "" →
  isolated (delete_each ctx Command_DeleteApp (Store.ListApps pid (World.store w0))) w.
Proof.
  intros H0 Hc Hl Hpid Hne. apply (iso_delete_each q ctx _ _ (λ s id, of_app q (Store.apps s !! id) = None)); [done| | |].
  - intros x [Hx Hp%of_pid]%elem_of_listed; [|done|apply H0]. eapply part_later; [apply Hl|exact Hx|congruence].
  - intros s s' id Hu. by rewrite (un_apps _ _ _ Hu).
  - intros id w' Hw'. by apply iso_delete_app.
Qed.

Lemma iso_delete_domains pid w w0 :
  calm w0 → calm w → later w0 w → pid ≠ q → pid ≠ "" →
  isolated (delete_each ctx Command_DeleteDomain (Store.ListDomains pid (World.store w0))) w.
Proof.
  intros H0 Hc Hl Hpid Hne.
  apply (iso_delete_each q ctx _ _ (λ s id, of_domain q (Store.domains s !! id) = None)); [done| | |].
  - intros x [Hx Hp%of_pid]%elem_of_listed; [|done|apply H0]. eapply part_later; [apply Hl|exact Hx|congruence].
  - intros s s' id Hu. by rewrite (un_domains _ _ _ Hu).
  - intros id w' Hw'. by apply iso_delete_domain.
Qed.

Lemma iso_delete_volumes pid w w0 :
  calm w0 → calm w → later w0 w → pid ≠ q → pid ≠ "" →
  isolated (delete_each ctx Command_DeleteVolume (Store.ListVolumes pid (World.store w0))) w.
Proof.
  intros H0 Hc Hl Hpid Hne.
  apply (iso_delete_each q ctx _ _ (λ s id, of_volume q (Store.volumes s !! id) = None)); [done| | |].
  - intros x [Hx Hp%of_pid]%elem_of_listed; [|done|apply H0]. eapply part_later; [apply Hl|exact Hx|congruence].
  - intros s s' id Hu. by rewrite (un_volumes _ _ _ Hu).
  - intros id w' Hw'. by apply iso_delete_volume.
Qed.

(** ** Projects *)

Lemma iso_need_user w : calm w → isolated (Projects.need_user ctx) w.
Proof.
  intros Hc. unfold Projects.need_user. destruct (IdentityFrom ctx); [|by apply iso_fail].
  destruct (_ =? ""); [by apply iso_fail|by apply iso_ret].
Qed.

Lemma iso_CreateProject req w : calm w → isolated (Projects.CreateProject ctx req) w.
Proof.
  intros Hc. unfold Projects.CreateProject. apply iso_bind; [by apply iso_need_user|]. intros w1 id _ [_ _ Hc1].
  destruct (negb _); [by apply iso_fail|]. apply iso_read. destruct (Store.ProjectByName _ _); [by apply iso_fail|].
  apply iso_tick_bind; [done|]. intros w2 _ _ [_ _ Hc2]. apply iso_tick_bind; [done|]. intros w3 _ _ [_ _ Hc3].
  assert (ids_New (World.tick w2) ≠ q) as Hne by (apply Hc2; lia).
  apply iso_bind; [by apply iso_put_project|]. intros w4 [] _ [_ _ Hc4].
  apply iso_bind; [by apply iso_put_member|]. intros w5 [] _ [_ _ Hc5]. by apply iso_ret.
Qed.

Lemma iso_DeleteProject req w :
  calm w → DeleteProjectRequest.ProjectId req ≠ q → DeleteProjectRequest.ProjectId req ≠ "" →
  isolated (Projects.DeleteProject ctx req) w.
Proof.
  intros Hc Hq Hne. unfold Projects.DeleteProject. apply iso_read. destruct (Store.Project _ _); [|by apply iso_fail].
  apply iso_bind; [by apply iso_delete_envs|]. intros w1 [] _ Hl1. pose proof (lt_calm _ _ _ Hl1) as Hc1. apply iso_read.
  apply iso_bind; [by apply iso_delete_apps|]. intros w2 [] _ Hl2. pose proof (lt_calm _ _ _ Hl2) as Hc2. apply iso_read.
  apply iso_bind; [by apply iso_delete_domains|]. intros w3 [] _ Hl3. pose proof (lt_calm _ _ _ Hl3) as Hc3.
  apply iso_read. apply iso_bind; [by apply iso_delete_volumes|]. intros w4 [] _ Hl4.
  apply iso_delete_project; [done|apply Hl4|done].
Qed.

Lemma iso_AddMember req w : calm w → AddMemberRequest.ProjectId req ≠ q → isolated (Projects.AddMember ctx req) w.
Proof.
  intros Hc Hq. unfold Projects.AddMember. apply iso_read. destruct (Store.UserByEmail _ _); [|by apply iso_fail].
  apply iso_bind; [by apply iso_put_member|]. intros w1 [] _ [_ _ Hc1]. by apply iso_ret.
Qed.

Lemma iso_RemoveMember req w :
  calm w → RemoveMemberRequest.ProjectId req ≠ q → isolated (Projects.RemoveMember ctx req) w.
Proof.
  intros Hc Hq. unfold Projects.RemoveMember. apply iso_read. destruct (Store.ProjectMember _ _ _); [|by apply iso_fail].
  by apply iso_delete_member.
Qed.

(** ** Apps *)

Lemma iso_DeleteApp req w :
  calm w → DeleteAppRequest.ProjectId req ≠ q → DeleteAppRequest.ProjectId req ≠ "" →
  isolated (Apps.DeleteApp ctx req) w.
Proof.
  intros Hc Hq Hne. unfold Apps.DeleteApp. apply iso_read. destruct (Apps.resolveApp _ _ _) as [app|] eqn:Ha; [|by apply iso_fail].
  destruct (resolveApp_spec _ _ _ _ (calm_wf _ _ Hc) Ha) as [Hin Hp].
  apply iso_bind; [by apply iso_delete_envs|]. intros w1 [] _ Hl1.
  apply iso_delete_app; [done|apply Hl1|]. eapply part_later; [apply Hl1|exact Hin|congruence].
Qed.

Lemma iso_SetEnvVars req w :
  calm w → SetEnvVarsRequest.ProjectId req ≠ q → isolated (Apps.SetEnvVars ctx req) w.
Proof.
  intros Hc Hq. unfold Apps.SetEnvVars. apply iso_read. destruct (Apps.resolveEnv _ _ _) as [env|] eqn:He; [|by apply iso_fail].
  destruct (resolveEnv_spec _ _ _ _ (calm_wf _ _ Hc) He) as [Hin Hp].
  assert (∀ l acc w', calm w' → isolated (Apps.seal_each l acc) w') as Hseal.
  { induction l as [|[k v] l IH]; intros acc w' Hw'; cbn [Apps.seal_each]; [by apply iso_ret|].
    apply iso_tick_bind; [done|]. intros w2 _ _ [_ _ Hc2]. destruct (Seal _ _); [by apply IH|by apply iso_fail]. }
  apply iso_bind.
  { case_bool_decide; [by apply iso_ret|]. apply iso_tick_bind; [done|]. intros w2 _ _ [_ _ Hc2]. by apply iso_ret. }
  intros w1 sealed _ Hl1. destruct sealed; [apply iso_fail, Hl1|].
  apply iso_bind; [apply Hseal, Hl1|]. intros w2 set_ _ Hl2. apply iso_set_env_vars; [done|apply Hl2|].
  eapply part_later; [intros id|exact Hin|congruence]. by rewrite (un_envs _ _ _ (lt_unchanged _ _ _ Hl2)), (un_envs _ _ _ (lt_unchanged _ _ _ Hl1)).
Qed.

Lemma env_id e meta : Environment.Meta e = Some meta → GetId (Some e) = Meta.Id meta.
Proof. intros Hm. unfold GetId. cbn. unfold GetMeta, Environment_withMeta. by rewrite Hm. Qed.

Lemma env_new m e : Environment.Meta e = m → GetId (Some e) = m ⇝ Meta.Id.
Proof. by intros <-. Qed.

(** A stored environment of another project is written back, changed. *)
Lemma iso_rewrite_env e x w :
  calm w → Store.environments (World.store w) !! GetId e = Some e → e ⇝ Environment.ProjectId ≠ q →
  GetId (Some x) = GetId e → Environment.ProjectId x = e ⇝ Environment.ProjectId →
  isolated (user_apply ctx (Apps.put_environment x)) w.
Proof.
  intros Hc Hin Hq Hid Hp. apply iso_put_env; [done|done|congruence| |]; rewrite Hid.
  - by eapply part_other.
  - eapply known_env; [apply Hc|exact Hin].
Qed.

Lemma iso_SetReplicas req w :
  calm w → SetReplicasRequest.ProjectId req ≠ q → isolated (Apps.SetReplicas ctx req) w.
Proof.
  intros Hc Hq. unfold Apps.SetReplicas. apply iso_read. destruct (Apps.resolveEnv _ _ _) as [env|] eqn:He; [|by apply iso_fail].
  destruct (resolveEnv_spec _ _ _ _ (calm_wf _ _ Hc) He) as [Hin Hp]. destruct (_ && _); [by apply iso_fail|].
  apply iso_deref. intros e ->. apply iso_deref. intros meta Hm. apply iso_tick_bind; [done|]. intros w1 Hs1 _ [_ _ Hc1].
  rewrite <- Hs1 in Hin. apply iso_bind; [|intros w2 [] _ [_ _ Hc2]; by apply iso_ret].
  eapply iso_rewrite_env; [done|exact Hin|congruence| |done]. by rewrite (env_id e meta Hm).
Qed.

Lemma iso_CreateApp req w : calm w → CreateAppRequest.ProjectId req ≠ q → isolated (Apps.CreateApp ctx req) w.
Proof.
  intros Hc Hq. unfold Apps.CreateApp. destruct (negb _); [by apply iso_fail|]. apply iso_read.
  destruct (Store.AppByName _ _ _); [by apply iso_fail|].
  apply iso_tick_bind; [done|]. intros w1 _ _ [_ _ Hc1]. apply iso_tick_bind; [done|]. intros w2 Hs2 Ht2 [_ _ Hc2].
  apply iso_bind.
  { apply iso_put_app; [done|done|done| |].
    - apply part_new. rewrite Hs2. apply (td_apps _ _ _ (calm_tidy _ _ Hc1)). cbn. lia.
    - apply known_new; [done|]. rewrite Ht2. lia. }
  intros w3 [] _ [_ _ Hc3]. apply iso_bind; [|intros w4 [] _ [_ _ Hc4]; by apply iso_ret].
  apply iso_for_each; [done|]. intros [name ty] w4 _ [_ _ Hc4]. apply iso_tick_bind; [done|]. intros w5 Hs5 Ht5 [_ _ Hc5].
  apply iso_put_env; [done|done|done| |].
  - apply part_new. rewrite Hs5. apply (td_envs _ _ _ (calm_tidy _ _ Hc4)). cbn. lia.
  - apply known_new; [done|]. rewrite Ht5. lia.
Qed.

Lemma iso_fresh_meta w : calm w → isolated fresh_meta w.
Proof.
  intros Hc. unfold fresh_meta. apply iso_tick_bind; [done|]. intros w1 _ _ [_ _ Hc1].
  apply iso_tick_bind; [done|]. intros w2 _ _ [_ _ Hc2]. by apply iso_ret.
Qed.

(** A new object's id. *)
Lemma fresh_meta_spec w w' m :
  fresh_meta w = Ret (w', inl m) →
  World.store w' = World.store w ∧ World.tick w' = S (S (World.tick w)) ∧ m ⇝ Meta.Id = ids_New (World.tick w).
Proof. by intros [= <- <-]. Qed.

(** The environment of a configuration entry is another project's, old or new. *)
Lemma iso_apply_env_config req app entry w :
  calm w → scoped q (World.store w) → ApplyAppConfigRequest.ProjectId req ≠ q →
  of_app q (Store.apps (World.store w) !! GetId app) = None → isolated (Apps.apply_env_config ctx req app entry) w.
Proof.
  intros Hc Hs Hq Ha. unfold Apps.apply_env_config. destruct entry as [name spec].
  destruct (negb _); [by apply iso_fail|]. destruct (_ && _); [by apply iso_fail|]. unfold Apps.configured_env.
  assert (∀ e sp, GetId (Some (Apps.seeded req name sp e)) = GetId (Some e)
    ∧ Environment.ProjectId (Apps.seeded req name sp e) = Environment.ProjectId e) as Hseed.
  { intros e sp. unfold Apps.seeded. by repeat case_match. }
  apply iso_bind.
  - apply iso_read. destruct (Store.EnvironmentByName _ _ _) as [env|].
    + apply iso_deref. intros e _. apply iso_deref. intros meta _. apply iso_tick_bind; [done|].
      intros w1 _ _ [_ _ Hc1]. by apply iso_ret.
    + apply iso_bind; [by apply iso_fresh_meta|]. intros w1 m _ [_ _ Hc1]. by apply iso_ret.
  - intros w' env Hrun [_ _ Hc']. apply bind_inl in Hrun as (w1 & st & [-> ->]%ret_inl & Hrun).
    destruct (Store.EnvironmentByName _ _ _) as [old|] eqn:Hold.
    + apply found in Hold as [Hin [Happ _]%andb_true_iff]; [|apply Hc]. apply str_eqb_eq in Happ.
      assert (old ⇝ Environment.ProjectId ≠ q) as Hold.
      { intros Heq. apply (Hs _ _ Hin Heq). by rewrite Happ. }
      destruct old as [e|]; [|done]. apply bind_inl in Hrun as (w1 & ? & [-> ->]%ret_inl & Hrun).
      destruct (Environment.Meta e) as [meta|] eqn:Hm; [|done].
      apply bind_inl in Hrun as (w1 & ? & [-> ->]%ret_inl & Hrun).
      injection Hrun as <- <-. eapply iso_rewrite_env; [done|exact Hin|done| |].
      * by rewrite (proj1 (Hseed _ _)), (env_id e meta Hm).
      * by rewrite (proj2 (Hseed _ _)).
    + apply bind_inl in Hrun as (w1 & m & (Hs1 & Ht1 & Hm)%fresh_meta_spec & [-> ->]%ret_inl).
      apply iso_put_env; [done|done| | |].
      * by rewrite (proj2 (Hseed _ _)).
      * rewrite (proj1 (Hseed _ _)), (env_new m) by done. rewrite Hm. apply part_new. rewrite Hs1. apply (td_envs _ _ _ (calm_tidy _ _ Hc)). lia.
      * rewrite (proj1 (Hseed _ _)), (env_new m) by done. rewrite Hm. apply known_new; [done|]. rewrite Ht1. lia.
Qed.

Lemma iso_updated_app req app w : calm w → isolated (Apps.updated_app req app) w.
Proof.
  intros Hc. unfold Apps.updated_app. apply iso_deref. intros a _. apply iso_deref. intros meta _.
  apply iso_tick_bind; [done|]. intros w1 _ _ [_ _ Hc1]. by apply iso_ret.
Qed.

Lemma updated_app_spec req app w w' a :
  Apps.updated_app req app w = Ret (w', inl a) →
  World.store w' = World.store w ∧ World.tick w ≤ World.tick w' ∧ GetId (Some a) = GetId app
  ∧ App.ProjectId a = app ⇝ App.ProjectId.
Proof.
  unfold Apps.updated_app. destruct app as [b|]; [|done]. intros (w1 & ? & [-> ->]%ret_inl & H)%bind_inl.
  destruct (App.Meta b) as [meta|] eqn:Hm; [|done]. apply bind_inl in H as (w1 & ? & [-> ->]%ret_inl & H).
  injection H as <- <-. cbn [World.store World.tick]. split_and!; [done|lia| |].
  - unfold GetId. cbn [get]. unfold GetMeta, App_withMeta. rewrite Hm. by repeat case_match.
  - by repeat case_match.
Qed.

Lemma iso_ApplyAppConfig req w :
  calm w → scoped q (World.store w) → ApplyAppConfigRequest.ProjectId req ≠ q →
  isolated (Apps.ApplyAppConfig ctx req) w.
Proof.
  intros Hc Hs Hq. unfold Apps.ApplyAppConfig. apply iso_read.
  destruct (Apps.resolveApp _ _ _) as [app|] eqn:Ha; [|by apply iso_fail].
  destruct (resolveApp_spec _ _ _ _ (calm_wf _ _ Hc) Ha) as [Hin Hp].
  set (store_app := app ← Apps.updated_app req app;
      user_apply ctx (Command_PutApp (Some (PutApp.mk (Some app))));; mret (Some app)).
  assert (isolated store_app w) as Hup.
  { apply iso_bind; [by apply iso_updated_app|]. intros w1 a (Hs1 & Ht1 & Hida & Hpa)%updated_app_spec [_ _ Hc1].
    apply iso_bind; [|intros w2 [] _ [_ _ Hc2]; by apply iso_ret].
    apply iso_put_app; [done|done|congruence| |]; rewrite Hida.
    - rewrite Hs1. eapply part_other; [exact Hin|congruence].
    - eapply known_app; [apply Hc1|]. rewrite Hs1. exact Hin. }
  assert (∀ w' app', store_app w = Ret (w', inl app') → GetId app' = GetId app) as Hid.
  { intros w' app' (w1 & a & (_ & _ & Hida & _)%updated_app_spec & (w2 & [] & _ & [_ ->]%ret_inl)%bind_inl)%bind_inl.
    exact Hida. }
  apply iso_bind; [by repeat case_match; try apply iso_ret|].
  intros w1 app' Hrun Hl1. assert (GetId app' = GetId app) as Happ.
  { by repeat case_match; [eapply Hid..|apply ret_inl in Hrun as [_ ->]]. }
  apply iso_bind.
  - apply iso_for_each; [apply Hl1|]. intros entry w2 _ Hl2. pose proof (later_trans _ _ _ _ Hl1 Hl2) as Hl.
    apply iso_apply_env_config; [apply Hl|eapply scoped_unchanged; [apply Hl|done]|done|].
    rewrite Happ. eapply part_later; [apply Hl|exact Hin|congruence].
  - intros w2 [] _ [_ _ Hc2]. apply iso_read. by apply iso_ret.
Qed.

(** ** Domains *)

Variable clusterDomain : string.

Lemma iso_AddDomain req w :
  calm w → AddDomainRequest.ProjectId req ≠ q → isolated (Domains.AddDomain clusterDomain ctx req) w.
Proof.
  intros Hc Hq. unfold Domains.AddDomain. apply iso_read.
  destruct (Store.Environment _ _) as [env|]; [|by apply iso_fail]. destruct (negb _); [by apply iso_fail|].
  destruct (negb _); [by apply iso_fail|]. destruct (Domains.collidesWithClusterDomain _ _); [by apply iso_fail|].
  destruct (Store.DomainByRoute _ _ _); [by apply iso_fail|]. destruct (existsb _ _); [by apply iso_fail|].
  apply iso_bind; [by apply iso_fresh_meta|]. intros w1 m (Hs1 & Ht1 & Hm)%fresh_meta_spec [_ _ Hc1].
  apply iso_bind; [|intros w2 [] _ [_ _ Hc2]; by apply iso_ret].
  assert (∀ d, Domain.Meta d = m → GetId (Some d) = ids_New (World.tick w)) as Hid by (intros d <-; exact Hm).
  apply iso_put_domain; [done|done|done| |]; rewrite Hid by done.
  - apply part_new. rewrite Hs1. apply (td_domains _ _ _ (calm_tidy _ _ Hc)). lia.
  - apply known_new; [done|]. rewrite Ht1. lia.
Qed.

Lemma iso_RemoveDomain req w :
  calm w → RemoveDomainRequest.ProjectId req ≠ q → isolated (Domains.RemoveDomain ctx req) w.
Proof.
  intros Hc Hq. unfold Domains.RemoveDomain. apply iso_read.
  destruct (Domains.find_domain _ _ _) as [d|] eqn:Hd; [|by apply iso_fail].
  destruct (find_domain_spec _ _ _ _ (calm_wf _ _ Hc) Hd) as [Hin Hp].
  apply iso_delete_domain; [done|done|]. eapply part_other; [exact Hin|congruence].
Qed.

Lemma iso_SetMiddleware req w :
  calm w → SetMiddlewareRequest.ProjectId req ≠ q → isolated (Domains.SetMiddleware ctx req) w.
Proof.
  intros Hc Hq. unfold Domains.SetMiddleware. apply iso_read.
  destruct (Domains.find_domain _ _ _) as [d|] eqn:Hd; [|by apply iso_fail].
  destruct (find_domain_spec _ _ _ _ (calm_wf _ _ Hc) Hd) as [Hin Hp].
  apply iso_deref. intros dom ->. apply iso_bind; [|intros w2 [] _ [_ _ Hc2]; by apply iso_ret].
  rewrite <- Hp in Hq. apply iso_put_domain; [done|done|exact Hq| |].
  - eapply part_other; [exact Hin|exact Hq].
  - eapply known_domain; [apply Hc|exact Hin].
Qed.
End other_project.

(** * Calls *)

(** The changing calls of the project, app and domain services. *)
Inductive call :=
| CallCreateProject (req : CreateProjectRequest.t)
| CallDeleteProject (req : DeleteProjectRequest.t)
| CallAddMember (req : AddMemberRequest.t)
| CallRemoveMember (req : RemoveMemberRequest.t)
| CallCreateApp (req : CreateAppRequest.t)
| CallDeleteApp (req : DeleteAppRequest.t)
| CallApplyAppConfig (req : ApplyAppConfigRequest.t)
| CallSetEnvVars (req : SetEnvVarsRequest.t)
| CallSetReplicas (req : SetReplicasRequest.t)
| CallAddDomain (req : AddDomainRequest.t)
| CallRemoveDomain (req : RemoveDomainRequest.t)
| CallSetMiddleware (req : SetMiddlewareRequest.t).

Definition call_method (c : call) : string :=
  match c with
  | CallCreateProject _ => "/zattera.v1.ProjectService/CreateProject"
  | CallDeleteProject _ => "/zattera.v1.ProjectService/DeleteProject"
  | CallAddMember _ => "/zattera.v1.ProjectService/AddMember"
  | CallRemoveMember _ => "/zattera.v1.ProjectService/RemoveMember"
  | CallCreateApp _ => "/zattera.v1.AppService/CreateApp"
  | CallDeleteApp _ => "/zattera.v1.AppService/DeleteApp"
  | CallApplyAppConfig _ => "/zattera.v1.AppService/ApplyAppConfig"
  | CallSetEnvVars _ => "/zattera.v1.AppService/SetEnvVars"
  | CallSetReplicas _ => "/zattera.v1.AppService/SetReplicas"
  | CallAddDomain _ => "/zattera.v1.DomainService/AddDomain"
  | CallRemoveDomain _ => "/zattera.v1.DomainService/RemoveDomain"
  | CallSetMiddleware _ => "/zattera.v1.DomainService/SetMiddleware"
  end.

(** The project_id field of the request, if it has one. *)
Definition call_project (c : call) : option string :=
  match c with
  | CallCreateProject _ => None
  | CallDeleteProject req => Some (DeleteProjectRequest.ProjectId req)
  | CallAddMember req => Some (AddMemberRequest.ProjectId req)
  | CallRemoveMember req => Some (RemoveMemberRequest.ProjectId req)
  | CallCreateApp req => Some (CreateAppRequest.ProjectId req)
  | CallDeleteApp req => Some (DeleteAppRequest.ProjectId req)
  | CallApplyAppConfig req => Some (ApplyAppConfigRequest.ProjectId req)
  | CallSetEnvVars req => Some (SetEnvVarsRequest.ProjectId req)
  | CallSetReplicas req => Some (SetReplicasRequest.ProjectId req)
  | CallAddDomain req => Some (AddDomainRequest.ProjectId req)
  | CallRemoveDomain req => Some (RemoveDomainRequest.ProjectId req)
  | CallSetMiddleware req => Some (SetMiddlewareRequest.ProjectId req)
  end.

(** The request with its project_id field rewritten. *)
Definition call_at (p : string) (c : call) : call :=
  match c with
  | CallCreateProject req => CallCreateProject req
  | CallDeleteProject _ => CallDeleteProject (DeleteProjectRequest.mk p)
  | CallAddMember (AddMemberRequest.mk _ e r) => CallAddMember (AddMemberRequest.mk p e r)
  | CallRemoveMember (RemoveMemberRequest.mk _ u) => CallRemoveMember (RemoveMemberRequest.mk p u)
  | CallCreateApp (CreateAppRequest.mk _ n b) => CallCreateApp (CreateAppRequest.mk p n b)
  | CallDeleteApp (DeleteAppRequest.mk _ a) => CallDeleteApp (DeleteAppRequest.mk p a)
  | CallApplyAppConfig (ApplyAppConfigRequest.mk _ a b g e i) => CallApplyAppConfig (ApplyAppConfigRequest.mk p a b g e i)
  | CallSetEnvVars (SetEnvVarsRequest.mk _ e s u) => CallSetEnvVars (SetEnvVarsRequest.mk p e s u)
  | CallSetReplicas (SetReplicasRequest.mk _ e mi ma) => CallSetReplicas (SetReplicasRequest.mk p e mi ma)
  | CallAddDomain (AddDomainRequest.mk _ e h pp po) => CallAddDomain (AddDomainRequest.mk p e h pp po)
  | CallRemoveDomain (RemoveDomainRequest.mk _ d) => CallRemoveDomain (RemoveDomainRequest.mk p d)
  | CallSetMiddleware (SetMiddlewareRequest.mk _ d m) => CallSetMiddleware (SetMiddlewareRequest.mk p d m)
  end.

Section calls.
Context {RO : RangeOrder} {TL : TimestampLib} {V : VaultLib} {E : Env} (clusterDomain : string).

(** The handler the call is for, with its reply dropped. *)
Definition handle (ctx : Ctx.t) (c : call) : Handler () :=
  match c with
  | CallCreateProject req => _ ← Projects.CreateProject ctx req; mret ()
  | CallDeleteProject req => Projects.DeleteProject ctx req
  | CallAddMember req => _ ← Projects.AddMember ctx req; mret ()
  | CallRemoveMember req => Projects.RemoveMember ctx req
  | CallCreateApp req => _ ← Apps.CreateApp ctx req; mret ()
  | CallDeleteApp req => Apps.DeleteApp ctx req
  | CallApplyAppConfig req => _ ← Apps.ApplyAppConfig ctx req; mret ()
  | CallSetEnvVars req => Apps.SetEnvVars ctx req
  | CallSetReplicas req => _ ← Apps.SetReplicas ctx req; mret ()
  | CallAddDomain req => _ ← Domains.AddDomain clusterDomain ctx req; mret ()
  | CallRemoveDomain req => Domains.RemoveDomain ctx req
  | CallSetMiddleware req => _ ← Domains.SetMiddleware ctx req; mret ()
  end.

(** The whole call: the interceptors, then the handler of the rewritten request. *)
Definition serve {T : TokenLib} (ctx : Ctx.t) (lu : gmap string Z) (c : call) : Handler () :=
  unary ctx lu (call_method c) (call_project c)
    (λ ctx pid, handle ctx (match pid with Some p => call_at p c | None => c end)).
End calls.

Section serve.
Context {RO : RangeOrder} {ROk : RangeOrderOk RO} {TL : TimestampLib} {V : VaultLib} {T : TokenLib} {E : Env} {Q : Quiet E}.
Context (Hids : Inj (=) (=) ids_New).
Variables (q : string) (clusterDomain : string).
Notation isolated := (isolated q).
Notation calm := (calm q).

Lemma iso_drop {A} (m : Handler A) w : isolated m w → isolated (_ ← m; mret ()) w.
Proof. intros Hm. apply iso_bind; [done|]. intros w' a _ [_ _ Hc]. by apply iso_ret. Qed.

(** A call on another project leaves [q] alone. *)
Lemma iso_handle ctx c w :
  calm w → scoped q (World.store w) → (∀ p, call_project c = Some p → p ≠ q ∧ p ≠ "") →
  isolated (handle clusterDomain ctx c) w.
Proof.
  intros Hc Hs Hp.
  destruct c; cbn [handle]; try apply iso_drop; try destruct (Hp _ eq_refl) as [Hq Hne];
    [apply iso_CreateProject|apply iso_DeleteProject|apply iso_AddMember|apply iso_RemoveMember|apply iso_CreateApp
    |apply iso_DeleteApp|apply iso_ApplyAppConfig|apply iso_SetEnvVars|apply iso_SetReplicas|apply iso_AddDomain
    |apply iso_RemoveDomain|apply iso_SetMiddleware]; done.
Qed.

Lemma iso_resolveIdentity tctx lu w : calm w → isolated (resolveIdentity tctx lu) w.
Proof.
  intros Hc. unfold resolveIdentity. cbv zeta. do 2 (destruct (_ =? ""); cbn [negb]; try by apply iso_ret).
  apply iso_read; destruct (Store.TokenByHash _ _) as [t|]; [|by apply iso_fail].
  apply iso_bind.
  { destruct (t ⇝ Token.ExpiresAt); [|by apply iso_ret]. apply iso_tick_bind; [done|]. intros w1 _ _ [_ _ Hc1]. by apply iso_ret. }
  intros w1 expired _ [_ _ Hc1]. destruct expired; [by apply iso_fail|]. destruct (Store.User _ _); [|by apply iso_fail].
  apply iso_bind; [|intros w2 lu2 _ [_ _ Hc2]; by apply iso_ret]. unfold markUsed. destruct (_ =? ""); [by apply iso_ret|].
  apply iso_tick_bind; [done|]. intros w2 _ _ [_ _ Hc2]. by apply iso_ret.
Qed.

Lemma iso_authorize tctx lu m w : calm w → isolated (authorize tctx lu m) w.
Proof.
  intros Hc. unfold authorize. destruct (HasPrefix _ _); [by apply iso_ret|]. generalize (default reqDenied (methodAuth !! m)).
  intros req. destruct req; [by apply iso_fail| | | |]; (apply iso_bind; [by apply iso_resolveIdentity|]);
    intros w1 [id lu1] _ [_ _ Hc1]; repeat case_match; (by apply iso_ret) || by apply iso_fail.
Qed.

Lemma iso_check tctx pid required w : calm w → isolated (check tctx pid required) w.
Proof.
  intros Hc. unfold check. destruct (IdentityFrom tctx) as [id|]; [|by apply iso_fail].
  destruct (_ =? ""); [by apply iso_fail|]. destruct pid as [raw|]; [|by apply iso_ret].
  destruct (raw =? ""); [by apply iso_fail|]. apply iso_read. destruct (resolveProject _ raw); [|by apply iso_fail].
  destruct (isOrgAdminUser _ _); [by apply iso_ret|]. destruct (Store.ProjectMember _ _ _); [|by apply iso_fail].
  destruct (_ <? _)%Z; (by apply iso_ret) || by apply iso_fail.
Qed.

(** A project found is stored, so its id is not empty. *)
Lemma resolveProject_id st raw proj :
  wf st → Store.projects st !! "" = None → resolveProject st raw = Some proj → GetId proj ≠ "".
Proof.
  intros Hwf He Hp Heq. assert (Store.projects st !! GetId proj = Some proj) as Hin; [|rewrite Heq in Hin; congruence].
  unfold resolveProject in Hp. destruct (Store.Project raw st) as [p|] eqn:Hraw.
  - injection Hp as ->. eapply stored; [apply Hwf|exact Hraw].
  - eapply found in Hp as [Hin _]; [done|apply Hwf].
Qed.

Lemma call_at_project p c : call_project c ≠ None → call_method (call_at p c) = call_method c ∧ call_project (call_at p c) = Some p.
Proof. by destruct c as [| [] | [] | [] | [] | [] | [] | [] | [] | [] | [] | []]. Qed.

(** Every call that names a project demands a role of it. *)
Lemma call_has_role c : call_project c ≠ None → is_Some (minRole !! call_method c).
Proof.
  assert (∀ m, match minRole !! m with Some _ => true | None => false end = true → is_Some (minRole !! m)) as H.
  { intros m. generalize (minRole !! m). intros [r|]; [by exists r|discriminate]. }
  destruct c; cbn [call_method call_project]; [done|intros _; apply H; vm_compute; reflexivity..].
Qed.

(** Whoever is authenticated lacks, in [q], the role the method demands. *)
Definition outsider (ctx : Ctx.t) (method : string) (st : Store.t) : Prop :=
  ∀ id role, authenticated ctx st id → minRole !! method = Some role → ¬ has_role st (Identity.UserID id) q role.

Lemma iso_rbac ctx id c w :
  calm w → scoped q (World.store w) → Store.projects (World.store w) !! "" = None →
  Ctx.Caller ctx = Some id →
  (∀ role, minRole !! call_method c = Some role → ¬ has_role (World.store w) (Identity.UserID id) q role) →
  isolated (rbac ctx (call_method c) (call_project c)
    (λ pid, handle clusterDomain ctx (match pid with Some p => call_at p c | None => c end))) w.
Proof.
  intros Hc Hs He Hid Hout. pose proof (call_has_role c) as Hrole. revert Hout Hrole. unfold rbac.
  generalize (minRole !! call_method c). intros [required|] Hout Hrole; cycle 1.
  { destruct (call_project c) eqn:Hp; [by destruct Hrole|]. apply iso_handle; [done|done|]. by rewrite Hp. }
  apply iso_bind; [by apply iso_check|]. intros w1 pid Hrun Hl1.
  destruct (silent_check _ _ _ _ _ _ Hrun) as [_ Hst].
  assert (scoped q (World.store w1)) as Hs1 by (by rewrite Hst).
  destruct (call_project c) as [raw|] eqn:Hp.
  - destruct (check_spec _ _ _ _ _ _ Hrun) as (id' & proj & Hid' & _ & _ & Hproj & -> & Hhas).
    rewrite Hid in Hid'. injection Hid' as <-. apply iso_handle; [apply Hl1|done|].
    rewrite (proj2 (call_at_project _ c (ltac:(by rewrite Hp)))). intros p [= <-]. split.
    + intros Heq. apply (Hout required); [done|]. by rewrite <- Heq.
    + eapply resolveProject_id; [apply Hc|done|exact Hproj].
  - unfold check, IdentityFrom in Hrun. rewrite Hid in Hrun. destruct (_ =? ""); [discriminate|].
    apply ret_inl in Hrun as [_ ->]. apply iso_handle; [apply Hl1|done|]. by rewrite Hp.
Qed.

Lemma iso_serve ctx lu c w :
  calm w → scoped q (World.store w) → Store.projects (World.store w) !! "" = None →
  outsider ctx (call_method c) (World.store w) → isolated (serve clusterDomain ctx lu c) w.
Proof.
  intros Hc Hs He Hout. unfold serve, unary. apply iso_bind; [by apply iso_authorize|].
  intros w1 [ctx' lu1] Hrun Hl1. destruct (silent_authorize _ _ _ _ _ _ Hrun) as [_ Hst].
  assert (HasPrefix (call_method c) "/grpc.health." = false) as Hh by (by destruct c).
  destruct (authorize_spec _ _ _ _ _ _ _ Hh Hrun) as (id & req & -> & Hid & _).
  apply (iso_rbac _ id); [apply Hl1|by rewrite Hst|by rewrite Hst|done|].
  intros role Hm. rewrite Hst. by apply Hout.
Qed.
End serve.

(** C10: projects are isolated from each other.  In a quiet environment, whatever
    changing call of the project, app and domain services a caller makes (through the
    interceptors, whatever project the request names, with an id or a name of an
    object of any project) and however it ends, a project in which the caller lacks
    the role the method demands is as it was: the project itself, its members, apps,
    environments with their variables, domains and volumes, and no release,
    deployment, build, job or instance of any project is touched.  The store is one
    the handlers leave (well formed, no object of an id still to be drawn, each
    environment of the project in an app of it, no project with an empty id). *)
Theorem project_isolation (RO : RangeOrder) (ROk : RangeOrderOk RO) (TL : TimestampLib) (V : VaultLib) (T : TokenLib)
    (E : Env) (Q : Quiet E) (Hids : Inj (=) (=) ids_New) (q clusterDomain : string) (ctx : Ctx.t) (lu : gmap string Z)
    (c : call) (w w' : World.t) (r : () + code) :
  calm q w → scoped q (World.store w) → Store.projects (World.store w) !! "" = None →
  outsider q ctx (call_method c) (World.store w) →
  serve clusterDomain ctx lu c w = Ret (w', r) →
  unchanged q (World.store w) (World.store w').
Proof.
  intros Hc Hs He Hout Hrun. apply lt_unchanged. exact (iso_serve Hids q clusterDomain ctx lu c w Hc Hs He Hout w' r Hrun).
Qed.

(** ** Witness *)

(** A vault that seals nothing. *)
Definition no_vault : VaultLib := {| Unsealed _ := false; Seal _ _ := None; Open _ := None |}.

(** Alice develops in project [p1]; project [proj] has an app with an environment. *)
Definition two_projects : Store.t :=
  Store.PutApp (Some (App.mk (sample_meta "app") "proj" "web" None None)) (with_env (alice_in "p1")).

Lemma calm_two_projects : calm (E := quiet_env) "proj" (World.mk two_projects 0 []).
Proof.
  split.
  - unfold two_projects. apply wf_PutApp, wf_with_env, wf_alice_in.
  - intros n _. split; [done|]. cbn. apply not_elem_of_empty.
  - constructor; intros n _; [| | |done].
    + cbn. rewrite lookup_insert_ne by discriminate. apply lookup_empty.
    + cbn. rewrite lookup_insert_ne by discriminate. apply lookup_empty.
    + apply lookup_empty.
Qed.

Lemma scoped_two_projects : scoped "proj" two_projects.
Proof.
  intros id e He _. change (Store.environments two_projects)
    with (<["e1" := Some (sample_env "e1" "r2" (sample_spec false 1 100 100))]> (∅ : gmap string (option Environment.t))) in He.
  apply lookup_insert_Some in He as [[_ <-]|[_ He]]; [|by rewrite lookup_empty in He]. vm_compute. discriminate.
Qed.

(** Her only identity is her own, which has no role in [proj]. *)
Lemma outsider_alice method :
  outsider (T := sample_tokens) (E := quiet_env) "proj" alice_ctx method two_projects.
Proof.
  intros id role Hid _. assert (Identity.UserID id = "alice" ∨ Identity.UserID id = "") as Hu.
  { destruct Hid as [(_ & _ & H)|[(-> & _)|(stored & user & now & _ & Hs & _ & Hus & ->)]]; [by right|by right|left].
    vm_compute in Hs. injection Hs as <-. vm_compute in Hus. by injection Hus as <-. }
  intros [Ha|(m & Hm & _)]; destruct Hu as [Hu|Hu]; rewrite Hu in *; vm_compute in *; discriminate.
Qed.

Notation alice_serve c :=
  (serve (RO := canonical_range) (TL := wellknown_times) (V := no_vault) (T := sample_tokens) (E := quiet_env) "" alice_ctx ∅ c
     (World.mk two_projects 0 [])).

(** She creates an app in her project, and scales the environment of the other one:
    the first works, the second finds nothing, and [proj] is as it was. *)
Lemma project_isolation_witness :
  (∃ w', alice_serve (CallCreateApp (CreateAppRequest.mk "p1" "shop" None)) = Ret (w', inl ())
     ∧ unchanged "proj" two_projects (World.store w')
     ∧ Store.AppByName (RO := canonical_range) "p1" "shop" (World.store w') ≠ None)
  ∧ ∃ w', alice_serve (CallSetReplicas (SetReplicasRequest.mk "p1" "e1" 5 5)) = Ret (w', inr NotFound)
     ∧ unchanged "proj" two_projects (World.store w').
Proof.
  split.
  - destruct (alice_serve (CallCreateApp (CreateAppRequest.mk "p1" "shop" None))) as [[w' r]|] eqn:E1;
      [|vm_compute in E1; discriminate].
    assert (r = inl () ∧ Store.AppByName (RO := canonical_range) "p1" "shop" (World.store w') ≠ None) as [-> Happ]
      by (vm_compute in E1; injection E1 as <- <-; split; [reflexivity|vm_compute; discriminate]).
    exists w'. split; [reflexivity|]. split; [|exact Happ].
    exact (project_isolation canonical_range canonical_range_ok wellknown_times no_vault sample_tokens quiet_env quiet_env_ok
      quiet_ids_inj "proj" "" alice_ctx ∅ _ _ w' _ calm_two_projects scoped_two_projects eq_refl (outsider_alice _) E1).
  - destruct (alice_serve (CallSetReplicas (SetReplicasRequest.mk "p1" "e1" 5 5))) as [[w' r]|] eqn:E1;
      [|vm_compute in E1; discriminate].
    assert (r = inr NotFound) as -> by (vm_compute in E1; injection E1 as <- <-; reflexivity).
    exists w'. split; [reflexivity|].
    exact (project_isolation canonical_range canonical_range_ok wellknown_times no_vault sample_tokens quiet_env quiet_env_ok
      quiet_ids_inj "proj" "" alice_ctx ∅ _ _ w' _ calm_two_projects scoped_two_projects eq_refl (outsider_alice _) E1).
Defined.
