(* ===== verification/Net.v ===== *)
(** The parts of Go's net and strings packages that the network code uses: host and
    port splitting, IP addresses and CIDR blocks.  A byte of an address is a [Z]. *)
From stdpp Require Import pretty.
From S2P Require Import Prelude Api Watch State Platform.
From Stdlib Require Import Ascii.

(** * strings *)

(** strings.IndexByte *)
Fixpoint IndexByte (s : string) (c : ascii) : option nat :=
  match s with
  | "" => None
  | String d s => if Ascii.eqb d c then Some 0 else S <$> IndexByte s c
  end.

(** strings.LastIndexByte *)
Fixpoint LastIndexByte (s : string) (c : ascii) : option nat :=
  match s with
  | "" => None
  | String d s =>
    match LastIndexByte s c with
    | Some i => Some (S i)
    | None => if Ascii.eqb d c then Some 0 else None
    end
  end.

(** s[i:j] *)
Definition slice (s : string) (i j : nat) : string := String.substring i (j - i) s.

(** s[i:] *)
Definition slice_from (s : string) (i : nat) : string := slice s i (String.length s).

(** strings.EqualFold, on ASCII. *)
Definition EqualFold (s t : string) : bool := ToLower s =? ToLower t.

(** * net.SplitHostPort: the host and the port, [None] on an error. *)

Definition SplitHostPort (hostport : string) : option (string * string) :=
  match LastIndexByte hostport ":" with
  | None => None
  | Some i =>
    let unexpected j k :=
      bool_decide (IndexByte (slice_from hostport j) "[" ≠ None) || bool_decide (IndexByte (slice_from hostport k) "]" ≠ None) in
    if HasPrefix hostport "[" then
      match IndexByte hostport "]" with
      | None => None
      | Some e =>
        if negb (S e =? i)%nat then None
        else if unexpected 1 (S e) then None
        else Some (slice hostport 1 e, slice_from hostport (S i))
      end
    else
      let host := slice hostport 0 i in
      if bool_decide (IndexByte host ":" ≠ None) then None
      else if unexpected 0 0 then None
      else Some (host, slice_from hostport (S i))
  end.

(** * netip.ParseAddr *)

(** A decimal field without leading zeros, at most 255. *)
Fixpoint octet_digits (s : string) (first : bool) (acc : Z) : option Z :=
  match s with
  | "" => if first then None else Some acc
  | String c s =>
    let d := (Z.of_N (N_of_ascii c) - 48)%Z in
    if ((d <? 0) || (9 <? d))%Z then None
    else if negb first && (acc =? 0)%Z then None
    else
      let acc := (acc * 10 + d)%Z in
      if (255 <? acc)%Z then None else octet_digits s false acc
  end.

Definition octet (s : string) : option Z := octet_digits s true 0.

(** parseIPv4Fields: four fields. *)
Definition parseIPv4 (s : string) : option (list Z) :=
  match Split s "." with
  | [a; b; c; d] =>
    match octet a, octet b, octet c, octet d with
    | Some a, Some b, Some c, Some d => Some [a; b; c; d]
    | _, _, _, _ => None
    end
  | _ => None
  end.

Definition hex_digit (c : ascii) : option Z :=
  let n := Z.of_N (N_of_ascii c) in
  if ((48 <=? n) && (n <=? 57))%Z then Some (n - 48)%Z
  else if ((97 <=? n) && (n <=? 102))%Z then Some (n - 87)%Z
  else if ((65 <=? n) && (n <=? 70))%Z then Some (n - 55)%Z
  else None.

(** The hexadecimal digits at the front: how many, their value, and what follows. *)
Fixpoint hex_group (s : string) (off : nat) (acc : Z) : nat * Z * string :=
  match s with
  | "" => (off, acc, "")
  | String c s' =>
    match hex_digit c with
    | None => (off, acc, s)
    | Some d => hex_group s' (S off) (acc * 16 + d)%Z
    end
  end.

(** The loop over at most [groups] groups: the bytes, the place of the ellipsis, and the
    rest of the text. *)
Fixpoint ipv6_groups (groups : nat) (s : string) (ip : list Z) (ellipsis : option nat) :
    option (list Z * option nat * string) :=
  match groups with
  | 0 => Some (ip, ellipsis, s)
  | S groups =>
    let '(off, acc, rest) := hex_group s 0 0 in
    if ((off =? 0) || (4 <? off))%nat then None
    else if HasPrefix rest "." then
      let i := length ip in
      if bool_decide (ellipsis = None) && negb (i =? 12)%nat then None
      else if (16 <? i + 4)%nat then None
      else match parseIPv4 s with
      | None => None
      | Some v4 => Some (ip ++ v4, ellipsis, "")
      end
    else
      let ip := ip ++ [(acc / 256)%Z; (acc mod 256)%Z] in
      match rest with
      | "" => Some (ip, ellipsis, "")
      | String c rest =>
        if negb (Ascii.eqb c ":") then None
        else match rest with
        | "" => None
        | String d rest' =>
          if Ascii.eqb d ":" then
            if bool_decide (ellipsis ≠ None) then None
            else if rest' =? "" then Some (ip, Some (length ip), "")
            else ipv6_groups groups rest' ip (Some (length ip))
          else ipv6_groups groups rest ip ellipsis
        end
      end
  end.

Definition ipv6_bytes (s : string) : option (list Z) :=
  let '(ellipsis, s) := if HasPrefix s "::" then (Some 0, slice_from s 2) else (None, s) in
  if bool_decide (ellipsis = Some 0) && (s =? "") then Some (replicate 16 0%Z)
  else match ipv6_groups 8 s [] ellipsis with
  | None => None
  | Some (ip, ellipsis, rest) =>
    if negb (rest =? "") then None
    else if (length ip <? 16)%nat then
      match ellipsis with
      | None => None
      | Some e => Some (take e ip ++ replicate (16 - length ip) 0%Z ++ drop e ip)
      end
    else if bool_decide (ellipsis ≠ None) then None
    else Some ip
  end.

(** An address: its 4 or 16 bytes, and its zone. *)
Definition parseIPv6 (s : string) : option (list Z * string) :=
  let '(s, zone, found) := Cut s "%" in
  if found && (zone =? "") then None
  else (λ ip, (ip, zone)) <$> ipv6_bytes s.

(** The first of [. : %] decides. *)
Fixpoint addr_kind (s : string) : option ascii :=
  match s with
  | "" => None
  | String c s => if Ascii.eqb c "." || Ascii.eqb c ":" || Ascii.eqb c "%" then Some c else addr_kind s
  end.

Definition ParseAddr (s : string) : option (list Z * string) :=
  match addr_kind s with
  | Some c =>
    if Ascii.eqb c "." then (λ ip, (ip, "")) <$> parseIPv4 s
    else if Ascii.eqb c ":" then parseIPv6 s
    else None
  | None => None
  end.

(** * net.IP, net.IPNet *)

Definition v4InV6Prefix : list Z := replicate 10 0%Z ++ [255; 255]%Z.

(** Addr.As16 *)
Definition As16 (ip : list Z) : list Z := if (length ip =? 4)%nat then v4InV6Prefix ++ ip else ip.

(** IP.To4 *)
Definition To4 (ip : list Z) : option (list Z) :=
  if (length ip =? 4)%nat then Some ip
  else if (length ip =? 16)%nat && bool_decide (take 12 ip = v4InV6Prefix) then Some (drop 12 ip)
  else None.

Definition ParseIP (s : string) : option (list Z) :=
  match ParseAddr s with
  | Some (ip, zone) => if zone =? "" then Some (As16 ip) else None
  | None => None
  end.

(** One byte of a mask with [ones] bits set from the top. *)
Definition mask_byte (ones : Z) : Z := (256 - 2 ^ (8 - Z.max 0 (Z.min 8 ones)))%Z.

Definition CIDRMask (ones : Z) (bytes : nat) : list Z :=
  (λ i, mask_byte (ones - 8 * Z.of_nat i)) <$> seq 0 bytes.

Module IPNet.
Record t := mk { IP : list Z; Mask : list Z }.

Definition networkNumberAndMask (n : t) : option (list Z * list Z) :=
  let ip := default (IP n) (To4 (IP n)) in
  let m := Mask n in
  if (length ip =? 4)%nat then
    if (length m =? 4)%nat then Some (ip, m) else if (length m =? 16)%nat then Some (ip, drop 12 m) else None
  else if (length ip =? 16)%nat && (length m =? 16)%nat then Some (ip, m)
  else None.

Definition Contains (n : t) (ip : list Z) : bool :=
  match networkNumberAndMask n with
  | None => false
  | Some (nn, m) =>
    let ip := default ip (To4 ip) in
    if negb (length ip =? length nn)%nat then false
    else bool_decide (zip_with Z.land nn m = zip_with Z.land ip m)
  end.
End IPNet.

(** The decimal mask length, as dtoi reads it. *)
Fixpoint mask_digits (s : string) (acc : Z) : option Z :=
  match s with
  | "" => Some acc
  | String c s =>
    let d := (Z.of_N (N_of_ascii c) - 48)%Z in
    if ((d <? 0) || (9 <? d))%Z then None
    else
      let acc := (acc * 10 + d)%Z in
      if (16777215 <=? acc)%Z then None else mask_digits s acc
  end.

(** The network of a CIDR block; the address itself is dropped by every caller. *)
Definition ParseCIDR (s : string) : option IPNet.t :=
  let '(addr, mask, found) := Cut s "/" in
  if negb found then None
  else match ParseAddr addr with
  | None => None
  | Some (ip, zone) =>
    if negb (zone =? "") then None
    else match (if mask =? "" then None else mask_digits mask 0) with
    | None => None
    | Some m =>
      if (8 * Z.of_nat (length ip) <? m)%Z then None
      else
        let mask := CIDRMask m (length ip) in
        Some (IPNet.mk (zip_with Z.land ip mask) mask)
    end
  end.

(** * Examples *)

Example parse_subnet : ParseCIDR "10.201.5.7/24" = Some (IPNet.mk [10; 201; 5; 0]%Z [255; 255; 255; 0]%Z).
Proof. vm_compute. reflexivity. Qed.

Example parse_v6 : ParseIP "fe80::1:2" = Some ([254; 128] ++ replicate 10 0 ++ [0; 1; 0; 2])%Z.
Proof. vm_compute. reflexivity. Qed.

Example parse_mapped : ParseIP "::ffff:10.0.0.1" = ParseIP "10.0.0.1".
Proof. vm_compute. reflexivity. Qed.

Example split_v6 : SplitHostPort "[::1]:8080" = Some ("::1", "8080").
Proof. vm_compute. reflexivity. Qed.

Example split_bare : SplitHostPort "example.com" = None.
Proof. vm_compute. reflexivity. Qed.
