(* ===== verification/Networks.v ===== *)
(** Bridge networks (internal/daemon/scheduler/networks.go and the subnet pool of
    internal/daemon/agent/networks.go): every (project, environment, node) that runs a
    replica gets a cluster-unique /24. *)
From stdpp Require Import pretty.
From S2P Require Import Prelude Api Watch State StateInv StoreProps Fsm FsmProps FsmSteps Samples Platform Placement.
From S2P Require Import Leader Orchestrator Control OrchestratorProps Scheduler SchedulerProps Vips Net.

Module Networks.

Definition subnetOctet0 : Z := 10.
Definition subnetOctet1 : Z := 201.
Definition subnetSlots : nat := 256.

(** X of a "10.201.X.0/24" CIDR. *)
Definition subnetIndex (cidr : string) : option Z :=
  match ParseCIDR cidr with
  | None => None
  | Some ipnet =>
    match To4 (IPNet.IP ipnet) with
    | Some [a; b; c; _] => if ((a =? subnetOctet0) && (b =? subnetOctet1))%Z then Some c else None
    | _ => None
    end
  end.

Definition subnet (x : Z) : string := pretty subnetOctet0 +:+ "." +:+ pretty subnetOctet1 +:+ "." +:+ pretty x +:+ ".0/24".

(** The lowest free subnet, [None] when the pool is exhausted. *)
Definition NextFreeSubnet (used : list string) : option string :=
  let taken : gset Z := list_to_set (omap subnetIndex used) in
  Vips.first_some (λ x, if bool_decide (x ∈ taken) then None else Some (subnet x)) subnetSlots 0.

Definition GatewayIP (cidr : string) : option string :=
  match ParseCIDR cidr with
  | None => None
  | Some ipnet =>
    match To4 (IPNet.IP ipnet) with
    | Some [a; b; c; _] => Some (pretty a +:+ "." +:+ pretty b +:+ "." +:+ pretty c +:+ ".1")
    | _ => None
    end
  end.

Definition shortN (s : string) (n : nat) : string := if (n <? String.length s)%nat then slice s 0 n else s.

(** executor.go's short *)
Definition short (id : string) : string := shortN id 8.

Definition NetworkName (projectID envID : string) : string :=
  ToLower ("zt-" +:+ short projectID +:+ "-" +:+ shortN envID 12).

Module netTuple.
Record t := mk { project : string; env : string; node : string }.

Definition key (t : t) : string := project t +:+ "/" +:+ env t +:+ "/" +:+ node t.
End netTuple.

Section networks.
Context {RO : RangeOrder} {TL : TimestampLib} {E : Env}.

Definition setAllocation (t : netTuple.t) (subnet : string) : M () :=
  Sched.sapply (Command_PutNetworkAllocation (Some (PutNetworkAllocation.mk
    (netTuple.project t) (netTuple.env t) (netTuple.node t) subnet))).

(** The tuple a running assignment needs a network for. *)
Definition tuple_of (a : option Assignment.t) : option netTuple.t :=
  if negb (bool_decide (a ⇝ Assignment.Desired = ASSIGNMENT_DESIRED_RUN)) || (a ⇝ Assignment.NodeId =? "") then None
  else Some (netTuple.mk (a ⇝ Assignment.ProjectId) (a ⇝ Assignment.EnvironmentId) (a ⇝ Assignment.NodeId)).

Definition needed_tuples (st : Store.t) : gmap string netTuple.t :=
  foldl (λ m t, <[netTuple.key t := t]> m) ∅ (omap tuple_of (Store.ListAssignments "" st)).

(** Keep or free each allocation: the keys kept, and their subnets. *)
Fixpoint free_allocations (needed : gmap string netTuple.t) (l : list (option NetworkAllocation.t))
    (have : gset string) (used : list string) : M (gset string * list string) :=
  match l with
  | [] => mret (have, used)
  | na :: l =>
    let t := netTuple.mk (na ⇝ NetworkAllocation.ProjectId) (na ⇝ NetworkAllocation.EnvironmentId)
      (na ⇝ NetworkAllocation.NodeId) in
    if bool_decide (is_Some (needed !! netTuple.key t)) then
      let cidr := na ⇝ NetworkAllocation.SubnetCidr in
      free_allocations needed l ({[netTuple.key t]} ∪ have) (if cidr =? "" then used else used ++ [cidr])
    else setAllocation t "";; free_allocations needed l have used
  end.

Fixpoint allocate (have : gset string) (l : list (string * netTuple.t)) (used : list string) : M () :=
  match l with
  | [] => mret ()
  | (key, t) :: l =>
    if bool_decide (key ∈ have) then allocate have l used
    else match NextFreeSubnet used with
    | None => allocate have l used
    | Some subnet => setAllocation t subnet;; allocate have l (used ++ [subnet])
    end
  end.

Definition reconcileNetworks : M () :=
  st ← read;
  let needed := needed_tuples st in
  '(have, used) ← free_allocations needed (Store.ListNetworkAllocations st) ∅ [];
  allocate have (range needed) used.

End networks.
End Networks.

(** * The pool *)

Definition in_subnets (s : string) : Prop := ∃ x, (0 ≤ x < 256)%Z ∧ s = Networks.subnet x.

Lemma subnetIndex_subnet x : (0 ≤ x < 256)%Z → Networks.subnetIndex (Networks.subnet x) = Some x.
Proof.
  intros Hx. assert (Forall (λ n, Networks.subnetIndex (Networks.subnet (Z.of_nat n)) = Some (Z.of_nat n)) (seq 0 256)) as H.
  { apply Forall_forall. intros n Hn.
    assert (forallb (λ n, bool_decide (Networks.subnetIndex (Networks.subnet (Z.of_nat n)) = Some (Z.of_nat n))) (seq 0 256) = true)
      as Hall by (vm_compute; reflexivity).
    rewrite forallb_forall in Hall. rewrite list_elem_of_In in Hn. by apply Hall, bool_decide_eq_true in Hn. }
  rewrite Forall_forall in H. specialize (H (Z.to_nat x)). rewrite Z2Nat.id in H by lia. apply H, elem_of_seq. lia.
Qed.

Lemma NextFreeSubnet_spec used :
  match Networks.NextFreeSubnet used with
  | Some s => in_subnets s ∧ s ∉ used ∧ s ≠ ""
  | None => ∀ x, (0 ≤ x < 256)%Z → ∃ s, s ∈ used ∧ Networks.subnetIndex s = Some x
  end.
Proof.
  unfold Networks.NextFreeSubnet. cbv zeta. set (taken := list_to_set _ : gset Z).
  assert (∀ x, x ∈ taken ↔ ∃ s, s ∈ used ∧ Networks.subnetIndex s = Some x) as Ht.
  { intros x. unfold taken. by rewrite elem_of_list_to_set, list_elem_of_omap. }
  set (f := λ x, if bool_decide (x ∈ taken) then None else _).
  pose proof (first_some_spec f Networks.subnetSlots 0) as H. destruct (Vips.first_some f _ _) as [s|].
  - destruct H as (x & Hx & Hf & _). unfold f in Hf. case_bool_decide as Hn; [done|]. injection Hf as <-.
    split; [exists x; split; [unfold Networks.subnetSlots in Hx; lia|done]|]. split; [|done].
    intros Hin. apply Hn, Ht. exists (Networks.subnet x). split; [done|]. apply subnetIndex_subnet. unfold Networks.subnetSlots in Hx. lia.
  - intros x Hx. specialize (H x). unfold f in H. apply Ht. case_bool_decide; [done|].
    unfold Networks.subnetSlots in H. discriminate H. lia.
Qed.

(** * The loops, in a quiet environment *)

(** The subnets held, by allocation key. *)
Notation subnets w := (get NetworkAllocation.SubnetCidr <$> Store.networkAllocs (World.store w)).

(** The tuple of an allocation. *)
Definition alloc_tuple (na : option NetworkAllocation.t) : Networks.netTuple.t :=
  Networks.netTuple.mk (na ⇝ NetworkAllocation.ProjectId) (na ⇝ NetworkAllocation.EnvironmentId) (na ⇝ NetworkAllocation.NodeId).

Section quiet.
Context {RO : RangeOrder} {ROk : RangeOrderOk RO} {TL : TimestampLib} {E : Env} {Q : Quiet E}.
Context (Hids : Inj (=) (=) ids_New).

Lemma quiet_setAllocation t s w :
  fresh_requests w → ∃ w', Networks.setAllocation t s w = Ret (w', inl ()) ∧ fresh_requests w'
    ∧ subnets w' = if s =? "" then delete (Networks.netTuple.key t) (subnets w) else <[Networks.netTuple.key t := s]> (subnets w).
Proof.
  intros Hw. destruct t as [p e n].
  destruct (quiet_apply Hids "system:scheduler" (Command_PutNetworkAllocation (Some (PutNetworkAllocation.mk p e n s)))
    (Store.SetNetworkAllocation p e n s) w) as (s1 & (ring & ids & ->) & Ha & Hf); [|done|].
  { intros cmd st Hc. unfold FSM.apply. by rewrite Hc. }
  eexists. split; [exact Ha|]. split; [done|]. cbn [World.store]. unfold Store.SetNetworkAllocation, Store.touch.
  destruct (s =? ""); get_set; [by rewrite fmap_delete|by rewrite fmap_insert].
Qed.

Lemma free_allocations_run needed l have used w :
  fresh_requests w → (∀ na, na ∈ l → na ⇝ NetworkAllocation.SubnetCidr ≠ "") →
  ∃ w' have' used', Networks.free_allocations needed l have used w = Ret (w', inl (have', used')) ∧ fresh_requests w'
    ∧ (∀ s, s ∈ used' ↔ s ∈ used ∨ ∃ na, na ∈ l ∧ s = na ⇝ NetworkAllocation.SubnetCidr
         ∧ is_Some (needed !! Networks.netTuple.key (alloc_tuple na)))
    ∧ (∀ k, k ∈ have' ↔ k ∈ have ∨ is_Some (needed !! k) ∧ ∃ na, na ∈ l ∧ Networks.netTuple.key (alloc_tuple na) = k)
    ∧ ∀ k, subnets w' !! k = if bool_decide (is_Some (needed !! k) ∨ k ∉ Networks.netTuple.key ∘ alloc_tuple <$> l)
                             then subnets w !! k else None.
Proof.
  revert have used w. induction l as [|na l IH]; intros have used w Hw Hne; cbn [Networks.free_allocations].
  { exists w, have, used. split_and!; [done|done| | |].
    - intros s. split; [by left|]. by intros [?|(na & ?%elem_of_nil & _)].
    - intros k. split; [by left|]. by intros [?|(_ & na & ?%elem_of_nil & _)].
    - intros k. rewrite bool_decide_eq_true_2; [done|]. right. apply not_elem_of_nil. }
  assert (∀ na, na ∈ l → na ⇝ NetworkAllocation.SubnetCidr ≠ "") as Hne' by (intros x Hx; apply Hne; by right).
  fold (alloc_tuple na). set (key := Networks.netTuple.key (alloc_tuple na)).
  destruct (bool_decide_reflect (is_Some (needed !! key))) as [Hn|Hn].
  - rewrite (proj2 (str_eqb_neq _ _) (Hne na (list_elem_of_here _ _))).
    destruct (IH ({[key]} ∪ have) (used ++ [na ⇝ NetworkAllocation.SubnetCidr]) w Hw Hne')
      as (w' & have' & used' & Hrun & Hf & Hu & Hh & Hv).
    exists w', have', used'. split; [done|]. split; [done|]. split_and!.
    + intros s. rewrite Hu, elem_of_app, list_elem_of_singleton. setoid_rewrite elem_of_cons. naive_solver.
    + intros k. rewrite Hh, elem_of_union, elem_of_singleton. setoid_rewrite elem_of_cons. naive_solver.
    + intros k. rewrite Hv. cbn [fmap list_fmap]. change ((Networks.netTuple.key ∘ alloc_tuple) na) with key.
      rewrite (bool_decide_ext _ (is_Some (needed !! k) ∨ k ∉ key :: (Networks.netTuple.key ∘ alloc_tuple <$> l))); [done|].
      rewrite not_elem_of_cons. destruct (decide (k = key)) as [->|]; tauto.
  - destruct (quiet_setAllocation (alloc_tuple na) "" w Hw) as (w1 & Hrun1 & Hf1 & Hv1).
    destruct (IH have used w1 Hf1 Hne') as (w' & have' & used' & Hrun & Hf & Hu & Hh & Hv). exists w', have', used'.
    rewrite (bind_run _ _ _ _ _ Hrun1). split; [done|]. split; [done|]. split_and!.
    + intros s. rewrite Hu. setoid_rewrite elem_of_cons. naive_solver.
    + intros k. rewrite Hh. setoid_rewrite elem_of_cons. naive_solver.
    + intros k. rewrite Hv, Hv1. change ("" =? "") with true. cbv iota. cbn [fmap list_fmap].
      change ((Networks.netTuple.key ∘ alloc_tuple) na) with key. fold key.
      destruct (decide (k = key)) as [->|Hk].
      * rewrite lookup_delete_eq. rewrite (bool_decide_eq_false_2 (is_Some (needed !! key) ∨ key ∉ key :: _)) by (rewrite not_elem_of_cons; tauto).
        by destruct (bool_decide _).
      * rewrite lookup_delete_ne by done.
        rewrite (bool_decide_ext _ (is_Some (needed !! k) ∨ k ∉ key :: (Networks.netTuple.key ∘ alloc_tuple <$> l))); [done|].
        rewrite not_elem_of_cons. tauto.
Qed.

Lemma allocate_run have l used w :
  fresh_requests w → NoDup l.*1 → (∀ k t, (k, t) ∈ l → Networks.netTuple.key t = k) →
  exact_use (subnets w) (list_to_set used) → (∀ k, k ∈ l.*1 → k ∉ have → subnets w !! k = None) →
  ∃ w' used', Networks.allocate have l used w = Ret (w', inl ()) ∧ exact_use (subnets w') (list_to_set used')
    ∧ (∀ k s, subnets w !! k = Some s → subnets w' !! k = Some s)
    ∧ (∀ k s, subnets w' !! k = Some s → subnets w !! k = Some s ∨ (k ∈ l.*1 ∧ in_subnets s))
    ∧ ∀ k, k ∈ l.*1 → k ∉ have → is_Some (subnets w' !! k)
        ∨ ∀ x, (0 ≤ x < 256)%Z → ∃ s, s ∈ used' ∧ Networks.subnetIndex s = Some x.
Proof.
  revert used w. induction l as [|[k t] l IH]; intros used w Hw Hnd Hkey Hex Hnone; cbn [Networks.allocate].
  { exists w, used. split_and!; try done; [by auto|by intros k ?%elem_of_nil]. }
  cbn [fmap list_fmap fst] in Hnd, Hnone |- *. apply NoDup_cons in Hnd as [Hkl Hnd].
  assert (∀ k t, (k, t) ∈ l → Networks.netTuple.key t = k) as Hkey' by (intros x y Hx; apply Hkey; by right).
  pose proof (Hkey k t (list_elem_of_here _ _)) as Hk.
  destruct (bool_decide_reflect (k ∈ have)) as [Hc|Hc].
  { destruct (IH used w Hw Hnd Hkey' Hex) as (w' & used' & Hrun & Hex' & H1 & H2 & H3).
    { intros x Hx. apply Hnone. by right. }
    exists w', used'. split_and!; try done.
    - intros x s Hx. destruct (H2 x s Hx) as [?|[? ?]]; [by left|]. right. split; [by right|done].
    - intros x [->|Hx]%elem_of_cons Hcx; [done|by auto]. }
  pose proof (NextFreeSubnet_spec used) as Hnext. destruct (Networks.NextFreeSubnet used) as [s|] eqn:Hfree.
  - destruct Hnext as (Hpool & Hnew & Hne). destruct (quiet_setAllocation t s w Hw) as (w1 & Hrun1 & Hf1 & Hv1).
    rewrite (proj2 (str_eqb_neq _ _) Hne), Hk in Hv1. pose proof (Hnone k (list_elem_of_here _ _) Hc) as He.
    destruct (IH (used ++ [s]) w1 Hf1 Hnd Hkey') as (w' & used' & Hrun & Hex' & H1 & H2 & H3).
    { rewrite Hv1. replace (list_to_set (used ++ [s])) with ({[s]} ∪ list_to_set used : gset string);
        [|apply leibniz_equiv; rewrite list_to_set_app; cbn; set_solver].
      apply exact_use_insert; [done|done|]. by rewrite elem_of_list_to_set. }
    { intros x Hx Hcx. rewrite Hv1, lookup_insert_ne by (intros ->; done). apply Hnone; [by right|done]. }
    exists w', used'. rewrite (bind_run _ _ _ _ _ Hrun1). rewrite Hv1 in H1, H2. split_and!; try done.
    + intros x y Hx. apply H1. rewrite lookup_insert_ne; [done|]. intros ->. rewrite He in Hx. done.
    + intros x y Hx. destruct (H2 x y Hx) as [[[<- <-]|[_ ?]]%lookup_insert_Some|[? ?]]; [right; split; [left|done]|by left|].
      right. split; [by right|done].
    + intros x [->|Hx]%elem_of_cons Hcx; [|by auto]. left. exists s. apply H1, lookup_insert_eq.
  - destruct (IH used w Hw Hnd Hkey' Hex) as (w' & used' & Hrun & Hex' & H1 & H2 & H3).
    { intros x Hx. apply Hnone. by right. }
    exists w', used'. split_and!; try done.
    + intros x y Hx. destruct (H2 x y Hx) as [?|[? ?]]; [by left|]. right. split; [by right|done].
    + intros x [->|Hx]%elem_of_cons Hcx; [|by auto]. right. intros n Hn. destruct (Hnext n Hn) as (s & Hs & Hi).
      exists s. split; [|done]. apply (elem_of_list_to_set (C := gset string)), Hex'.
      apply (elem_of_list_to_set (C := gset string)) in Hs. apply Hex in Hs as [e He]. eauto.
Qed.
End quiet.

(** A running replica needs a network. *)
Definition needs_network (st : Store.t) (k : string) : Prop :=
  ∃ a id, Store.assignments st !! id = Some a ∧ a ⇝ Assignment.Desired = ASSIGNMENT_DESIRED_RUN
    ∧ a ⇝ Assignment.NodeId ≠ ""
    ∧ k = Store.networkAllocKey (a ⇝ Assignment.ProjectId) (a ⇝ Assignment.EnvironmentId) (a ⇝ Assignment.NodeId).

Section needed.
Context {RO : RangeOrder} {ROk : RangeOrderOk RO}.

Lemma tuple_of_spec a t :
  Networks.tuple_of a = Some t ↔ a ⇝ Assignment.Desired = ASSIGNMENT_DESIRED_RUN ∧ a ⇝ Assignment.NodeId ≠ ""
    ∧ t = Networks.netTuple.mk (a ⇝ Assignment.ProjectId) (a ⇝ Assignment.EnvironmentId) (a ⇝ Assignment.NodeId).
Proof.
  unfold Networks.tuple_of. destruct (bool_decide_reflect (a ⇝ Assignment.Desired = ASSIGNMENT_DESIRED_RUN)); cbn; [|naive_solver].
  destruct (a ⇝ Assignment.NodeId =? "") eqn:He; [apply str_eqb_eq in He|apply str_eqb_neq in He]; naive_solver.
Qed.

Lemma needed_fold l (m : gmap string Networks.netTuple.t) :
  (∀ k t, m !! k = Some t → Networks.netTuple.key t = k) →
  let m' := foldl (λ m t, <[Networks.netTuple.key t := t]> m) m l in
  (∀ k t, m' !! k = Some t → Networks.netTuple.key t = k)
  ∧ ∀ k, is_Some (m' !! k) ↔ is_Some (m !! k) ∨ k ∈ Networks.netTuple.key <$> l.
Proof.
  revert m. induction l as [|t l IH]; intros m Hm; cbn [foldl].
  { split; [done|]. intros k. rewrite elem_of_nil. tauto. }
  destruct (IH (<[Networks.netTuple.key t := t]> m)) as [H1 H2].
  { intros k x [[<- <-]|[_ ?]]%lookup_insert_Some; [done|by apply Hm]. }
  split; [done|]. intros k. rewrite H2, fmap_cons, elem_of_cons. destruct (decide (k = Networks.netTuple.key t)) as [->|Hne].
  - rewrite lookup_insert_eq. split; [|by left]. intros _. right. by left.
  - rewrite lookup_insert_ne by done. tauto.
Qed.

Lemma needed_tuples_spec st :
  (∀ k t, Networks.needed_tuples st !! k = Some t → Networks.netTuple.key t = k)
  ∧ ∀ k, is_Some (Networks.needed_tuples st !! k) ↔ needs_network st k.
Proof.
  destruct (needed_fold (omap Networks.tuple_of (Store.ListAssignments "" st)) ∅) as [H1 H2]; [done|].
  split; [done|]. intros k. unfold Networks.needed_tuples. rewrite H2, list_elem_of_fmap. setoid_rewrite list_elem_of_omap.
  setoid_rewrite elem_of_ListAssignments. setoid_rewrite tuple_of_spec. rewrite lookup_empty. unfold needs_network. split.
  - intros [[? ?]|(t & -> & a & [_ [id Ha]] & Hd & Hn & ->)]; [done|]. by exists a, id.
  - intros (a & id & Ha & Hd & Hn & ->). right. eexists. split; [|exists a; split; [eauto|by split_and!]]. reflexivity.
Qed.
End needed.

(** Subnets are allocated exactly.  When its proposals commit, a pass over states
    where no two bridge networks share a subnet ends in such a state; the networks that
    hold one are those of a project, environment and node with a running replica; a
    subnet once held is kept; new ones come from the pool; and a network goes without
    only when every index of the pool is taken. *)
Theorem subnet_allocation (RO : RangeOrder) (ROk : RangeOrderOk RO) (TL : TimestampLib) (E : Env) (Q : Quiet E)
    (Hids : Inj (=) (=) ids_New) (w : World.t) :
  fresh_requests w → wf (World.store w) →
  (∀ k s, subnets w !! k = Some s → s ≠ "") →
  (∀ k1 k2 s, subnets w !! k1 = Some s → subnets w !! k2 = Some s → k1 = k2) →
  let needs := needs_network (World.store w) in
  ∃ w', Networks.reconcileNetworks w = Ret (w', inl ())
    ∧ (∀ k1 k2 s, subnets w' !! k1 = Some s → subnets w' !! k2 = Some s → k1 = k2)
    ∧ (∀ k s, subnets w' !! k = Some s → needs k ∧ (subnets w !! k = Some s ∨ in_subnets s))
    ∧ (∀ k s, needs k → subnets w !! k = Some s → subnets w' !! k = Some s)
    ∧ ∀ k, needs k → is_Some (subnets w' !! k)
        ∨ ∀ x, (0 ≤ x < 256)%Z → ∃ k' s, subnets w' !! k' = Some s ∧ Networks.subnetIndex s = Some x.
Proof.
  intros Hw Hwf Hne Hinj needs. unfold Networks.reconcileNetworks. erewrite bind_run by reflexivity. cbv zeta.
  destruct (needed_tuples_spec (World.store w)) as [Hkeys Hneed]. set (needed := Networks.needed_tuples (World.store w)) in *.
  set (l := Store.ListNetworkAllocations (World.store w)).
  assert (∀ na, na ∈ l ↔ ∃ k, Store.networkAllocs (World.store w) !! k = Some na) as Hl.
  { intros na. unfold l, Store.ListNetworkAllocations. by rewrite sort_slice_perm, elem_of_range_values. }
  assert (∀ k na, Store.networkAllocs (World.store w) !! k = Some na → Networks.netTuple.key (alloc_tuple na) = k) as Hak
    by apply Hwf.
  destruct (free_allocations_run Hids needed l ∅ [] w Hw) as (w1 & have & used & Hrun1 & Hf1 & Hu & Hh & Hv).
  { intros na [k Hk]%Hl. apply (Hne k). by rewrite lookup_fmap, Hk. }
  assert (∀ k, subnets w1 !! k = if bool_decide (is_Some (needed !! k)) then subnets w !! k else None) as Hv1.
  { intros k. rewrite Hv. destruct (bool_decide_reflect (is_Some (needed !! k))); [by rewrite bool_decide_eq_true_2 by auto|].
    case_bool_decide as Hd; [|done]. destruct Hd as [?|Hd]; [done|]. apply eq_None_not_Some. intros [s Hs].
    rewrite lookup_fmap in Hs. destruct (Store.networkAllocs (World.store w) !! k) as [na|] eqn:Hk; [|done]. apply Hd. apply list_elem_of_fmap. exists na.
    split; [symmetry; by apply Hak|]. apply Hl. by exists k. }
  assert (∀ k s, subnets w1 !! k = Some s → is_Some (needed !! k) ∧ subnets w !! k = Some s) as Hv2.
  { intros k s Hk. rewrite Hv1 in Hk. by case_bool_decide. }
  assert (exact_use (subnets w1) (list_to_set used)) as Hex.
  { split.
    - intros s. rewrite elem_of_list_to_set, Hu. split.
      + intros [?%elem_of_nil|(na & [k Hk]%Hl & -> & Hn)]; [done|]. exists k. rewrite (Hak _ _ Hk) in Hn.
        rewrite Hv1, bool_decide_eq_true_2 by done. by rewrite lookup_fmap, Hk.
      + intros [k [Hn Hk]%Hv2]. right. rewrite lookup_fmap in Hk. destruct (Store.networkAllocs (World.store w) !! k) as [na|] eqn:Hna; [|done].
        injection Hk as <-. exists na. split; [apply Hl; by exists k|]. split; [done|]. by rewrite (Hak _ _ Hna).
    - intros k1 k2 s [_ H1]%Hv2 [_ H2]%Hv2. by eapply Hinj. }
  destruct (allocate_run Hids have (range needed) used w1 Hf1) as (w' & used' & Hrun & [Hu' Hi'] & H1 & H2 & H3).
  { apply NoDup_fst_range. }
  { intros k t Hk%elem_of_range. by apply Hkeys. }
  { done. }
  { intros k Hk Hnh. apply eq_None_not_Some. intros [s Hs].
    apply Hv2 in Hs as [Hn Hs]. rewrite lookup_fmap in Hs. destruct (Store.networkAllocs (World.store w) !! k) as [na|] eqn:Hna; [|done].
    apply Hnh, Hh. right. split; [done|]. exists na. split; [apply Hl; by exists k|by apply Hak]. }
  assert (∀ k, k ∈ (range needed).*1 ↔ is_Some (needed !! k)) as Hrange.
  { intros k. rewrite list_elem_of_fmap. split.
    - intros ([? t] & -> & Ht%elem_of_range). by exists t.
    - intros [t Ht]. exists (k, t). by rewrite elem_of_range. }
  exists w'. rewrite (bind_run _ _ _ _ _ Hrun1). split; [done|]. split; [done|]. split_and!.
  - intros k s Hs. destruct (H2 k s Hs) as [[Hn Ho]%Hv2|[Hk Hp]].
    + split; [by apply Hneed|by left].
    + split; [by apply Hneed, Hrange|by right].
  - intros k s Hn%Hneed Hs. apply H1. by rewrite Hv1, bool_decide_eq_true_2.
  - intros k Hn%Hneed. destruct (decide (k ∈ have)) as [Hk|Hk].
    + apply Hh in Hk as [?%elem_of_empty|(_ & na & [k' Hk]%Hl & <-)]; [done|]. rewrite (Hak _ _ Hk) in Hn |- *. left.
      exists (na ⇝ NetworkAllocation.SubnetCidr). apply H1. rewrite Hv1, bool_decide_eq_true_2 by done. by rewrite lookup_fmap, Hk.
    + destruct (H3 k) as [?|Hall]; [by apply Hrange|done|by left|]. right. intros x Hx.
      destruct (Hall x Hx) as (s & Hs & Hi). apply (elem_of_list_to_set (C := gset string)), Hu' in Hs as [k' Hk']. eauto.
Qed.

(** The resolver of a network binds the first address of its subnet. *)
Lemma gateway_of_subnet x : (0 ≤ x < 256)%Z → Networks.GatewayIP (Networks.subnet x) = Some ("10.201." +:+ pretty x +:+ ".1").
Proof.
  intros Hx.
  assert (forallb (λ n, bool_decide (Networks.GatewayIP (Networks.subnet (Z.of_nat n)) = Some ("10.201." +:+ pretty (Z.of_nat n) +:+ ".1")))
    (seq 0 256) = true) as Hall by (vm_compute; reflexivity).
  rewrite forallb_forall in Hall. specialize (Hall (Z.to_nat x)). rewrite Z2Nat.id in Hall by lia.
  apply bool_decide_eq_true in Hall; [done|]. apply list_elem_of_In, elem_of_seq. lia.
Qed.

(** ** Witness *)

(** A replica runs on [n1]; another environment still holds a subnet there. *)
Definition stale_network : Store.t := Store.SetNetworkAllocation "proj" "e9" "n1" "10.201.0.0/24" two_nodes.

Lemma stale_subnets : get NetworkAllocation.SubnetCidr <$> Store.networkAllocs stale_network = {["proj/e9/n1" := "10.201.0.0/24"]}.
Proof. vm_compute. reflexivity. Qed.

Lemma subnet_allocation_witness :
  ∃ w', Networks.reconcileNetworks (RO := canonical_range) (TL := wellknown_times) (E := quiet_env) (World.mk stale_network 0 [])
        = Ret (w', inl ())
    ∧ subnets w' !! "proj/e9/n1" = None ∧ is_Some (subnets w' !! "proj/e1/n1").
Proof.
  assert (@fresh_requests quiet_env (World.mk stale_network 0 [])) as Hf.
  { intros n _. split; [discriminate|]. assert (Store.appliedSet stale_network = ∅) as Ha by (vm_compute; reflexivity).
    cbn [World.store]. rewrite Ha. apply not_elem_of_empty. }
  assert (wf stale_network) as Hwf by (unfold stale_network; apply wf_SetNetworkAllocation, wf_two_nodes).
  destruct (subnet_allocation canonical_range canonical_range_ok wellknown_times quiet_env quiet_env_ok quiet_ids_inj
    (World.mk stale_network 0 []) Hf Hwf) as (w' & Hrun & Hinj & Honly & _ & Hall).
  { intros k s Hk. cbn [World.store] in Hk. rewrite stale_subnets in Hk. apply lookup_singleton_Some in Hk as [_ <-]. discriminate. }
  { intros k1 k2 s H1 H2. cbn [World.store] in H1, H2. rewrite stale_subnets in H1, H2.
    apply lookup_singleton_Some in H1 as [<- _]. by apply lookup_singleton_Some in H2 as [<- _]. }
  assert (∀ k, needs_network stale_network k → k = "proj/e1/n1") as Hone.
  { intros k (a & id & Ha & _ & _ & ->). change (Store.assignments stale_network)
      with ({["a1" := Some (sample_assignment "a1" "n1" "e1" "r1" "" ASSIGNMENT_DESIRED_RUN INSTANCE_STATE_HEALTHY)]} : gmap string (option Assignment.t)) in Ha.
    apply lookup_singleton_Some in Ha as [_ <-]. reflexivity. }
  exists w'. split; [exact Hrun|]. split.
  - destruct (subnets w' !! "proj/e9/n1") as [s|] eqn:Hs; [|reflexivity]. destruct (Honly _ _ Hs) as [Hn _].
    apply Hone in Hn. discriminate Hn.
  - destruct (Hall "proj/e1/n1") as [H|H]; [|exact H|].
    + exists (Some (sample_assignment "a1" "n1" "e1" "r1" "" ASSIGNMENT_DESIRED_RUN INSTANCE_STATE_HEALTHY)), "a1".
      split; [reflexivity|]. split; [reflexivity|]. split; [discriminate|reflexivity].
    + destruct (H 0%Z ltac:(lia)) as (k' & s & Hs & _). destruct (Honly _ _ Hs) as [->%Hone _]. by exists s.
Defined.
