(* ===== verification/F64.v ===== *)
(** Go's float64: IEEE 754 double precision, by the specification floats of the
    Standard Library, which compute on integers. *)
From S2P Require Import Prelude.
From Stdlib Require Import SpecFloat.

Definition f64 : Type := spec_float.

Module F64.

Definition prec : Z := 53.
Definition emax : Z := 1024.

Definition zero_ : f64 := S754_zero false.
Definition add : f64 → f64 → f64 := SFadd prec emax.
Definition sub : f64 → f64 → f64 := SFsub prec emax.
Definition mul : f64 → f64 → f64 := SFmul prec emax.
Definition div : f64 → f64 → f64 := SFdiv prec emax.
Definition ltb : f64 → f64 → bool := SFltb.
Definition leb : f64 → f64 → bool := SFleb.

(** [float64(n)] *)
Definition ofZ (n : Z) : f64 := binary_normalize prec emax n 0 false.

(** The integer [m * 2^e] rounds to upwards, and whether it is one. *)
Definition ceil_pos (m : positive) (e : Z) : Z :=
  if (0 <=? e)%Z then (Zpos m * 2 ^ e)%Z
  else (- ((- Zpos m) / 2 ^ (- e)))%Z.

Definition floor_pos (m : positive) (e : Z) : Z :=
  if (0 <=? e)%Z then (Zpos m * 2 ^ e)%Z else (Zpos m / 2 ^ (- e))%Z.

(** math.Ceil, up to the sign of a zero. *)
Definition Ceil (x : f64) : f64 :=
  match x with
  | S754_finite false m e => if (0 <=? e)%Z then x else ofZ (ceil_pos m e)
  | S754_finite true m e => if (0 <=? e)%Z then x else ofZ (- floor_pos m e)
  | _ => x
  end.

(** [int(x)]: truncation; what it gives for a value with no int64 depends on the
    processor. *)
Class FloatConv := int_of_other : f64 → Z.

Definition toInt {FC : FloatConv} (x : f64) : Z :=
  match x with
  | S754_zero _ => 0
  | S754_finite s m e =>
    let n := if s then (- floor_pos m e)%Z else floor_pos m e in
    if ((- 2 ^ 63 <=? n) && (n <? 2 ^ 63))%Z then n else int_of_other x
  | _ => int_of_other x
  end.

End F64.

#[export] Instance zero_f64 : Zero f64 := F64.zero_.

(** 0.1 + 0.2 is not 0.3. *)
Example f64_tenths :
  F64.add (F64.div (F64.ofZ 1) (F64.ofZ 10)) (F64.div (F64.ofZ 2) (F64.ofZ 10)) ≠ F64.div (F64.ofZ 3) (F64.ofZ 10).
Proof. vm_compute. discriminate. Qed.

Example f64_ceil : F64.Ceil (F64.div (F64.ofZ 7) (F64.ofZ 2)) = F64.ofZ 4.
Proof. vm_compute. reflexivity. Qed.
