(* ===== verification/Routes.v ===== *)
(** The route table (internal/daemon/scheduler/routes.go): what every control node
    builds from its replicated state and streams to the proxies, and its delivery to
    the subscribers.  A snapshot is built from one state: the reads of a build, each
    under the store's lock, are not interleaved with commands here.  The debounce and
    the tick of Run are not modelled. *)
From stdpp Require Import pretty.
From S2P Require Import Prelude Api Watch State StateInv StateEquiv StoreProps Fsm Samples Platform Leader Orchestrator Control.
From S2P Require Import Scheduler SchedulerProps.

(** * Messages (api/proto/zattera/cluster/v1/routes.proto)

    The elements of the repeated fields are never nil, as [build] makes them. *)

Module Endpoint.
Record t := mk {
  AssignmentId : string;
  NodeId : string;
  Addr : string;
  Healthy : bool;
  LocalHintNodeIdMatches : bool
}.
End Endpoint.

Module HTTPRoute.
Record t := mk {
  Hostname : string;
  PathPrefix : string;
  ProjectId : string;
  AppId : string;
  EnvironmentId : string;
  AppName : string;
  EnvironmentName : string;
  Middleware : option Middleware.t;
  Endpoints : list Endpoint.t;
  ScaleToZero : bool;
  MaxConcurrency : Z;
  RouteGeneration : Z;
  RateLimit : option RateLimit.t
}.
End HTTPRoute.

Module L4Route.
Record t := mk {
  PublicPort : Z;
  Protocol : string;
  EnvironmentId : string;
  Endpoints : list Endpoint.t
}.
End L4Route.

Module InternalPort.
Record t := mk {
  Name : string;
  Port : Z;
  Protocol : string;
  Endpoints : list Endpoint.t
}.
End InternalPort.

Module InternalService.
Record t := mk {
  Fqdn : string;
  ProjectId : string;
  EnvironmentId : string;
  Vip : string;
  Ports : list InternalPort.t
}.
End InternalService.

Module RouteSnapshot.
Record t := mk {
  Version : Z;
  HttpRoutes : list HTTPRoute.t;
  L4Routes : list L4Route.t;
  InternalServices : list InternalService.t;
  CertHosts : list string
}.
End RouteSnapshot.

Module Routes.

(** The first HTTP (or unspecified) port, else the first one, else "http". *)
Definition httpPortName (spec : option ServiceSpec.t) : string :=
  let ports := spec ⇝ ServiceSpec.Ports in
  match List.find (λ p, bool_decide (p ⇝ PortSpec.Protocol = PROTOCOL_HTTP)
      || bool_decide (p ⇝ PortSpec.Protocol = PROTOCOL_UNSPECIFIED)) ports with
  | Some p => p ⇝ PortSpec.Name
  | None => match ports with p :: _ => p ⇝ PortSpec.Name | [] => "http" end
  end.

Definition projectName (st : Store.t) (projectID : string) : string :=
  match Store.Project projectID st with
  | Some p => p ⇝ Project.Name
  | None => projectID
  end.

Section build.
Context {RO : RangeOrder}.

Definition sortedKeys (m : gset string) : list string := sort_slice (key_less id) (range_keys m).

(** The endpoint an assignment gives for a port, if it is a healthy replica of the
    active release on a node that can be reached. *)
Definition endpoint (st : Store.t) (active portName : string) (a : option Assignment.t) : option Endpoint.t :=
  if negb (a ⇝ Assignment.ReleaseId =? active) || negb (bool_decide (a ⇝ Assignment.Desired = ASSIGNMENT_DESIRED_RUN)) then None
  else if negb (bool_decide (a ⇝ Assignment.Observed ⇝ AssignmentObserved.State = INSTANCE_STATE_HEALTHY)) then None
  else
    let port := default 0%Z (a ⇝ Assignment.MeshPortBindings !! portName) in
    if (port =? 0)%Z then None
    else match Store.Node (a ⇝ Assignment.NodeId) st with
    | None => None
    | Some n =>
      if bool_decide (n ⇝ Node.Status = NODE_STATUS_DOWN) || bool_decide (n ⇝ Node.Status = NODE_STATUS_DRAINED) then None
      else
        let host := if negb (n ⇝ Node.MeshIp =? "") then n ⇝ Node.MeshIp else "127.0.0.1" in
        Some (Endpoint.mk (GetId a) (a ⇝ Assignment.NodeId) (host +:+ ":" +:+ pretty port) true false)
    end.

Definition endpoints (st : Store.t) (env : option Environment.t) (portName : string) : list Endpoint.t :=
  let active := env ⇝ Environment.ActiveReleaseId in
  if active =? "" then []
  else sort_slice (key_less Endpoint.AssignmentId)
    (omap (endpoint st active portName) (Store.ListAssignments (GetId env) st)).

(** The cluster app domain. *)
Variable domain : string.

Definition http_route (st : Store.t) (env : option Environment.t) (app : option App.t)
    (host prefix : string) (mw : option Middleware.t) (portName : string) : HTTPRoute.t :=
  let spec := env ⇝ Environment.Service in
  HTTPRoute.mk host prefix (env ⇝ Environment.ProjectId) (env ⇝ Environment.AppId) (GetId env) (app ⇝ App.Name)
    (env ⇝ Environment.Name) mw (endpoints st env portName) (spec ⇝ ServiceSpec.ScaleToZero)
    (spec ⇝ ServiceSpec.MaxConcurrency) (env ⇝ Environment.RouteGeneration) (spec ⇝ ServiceSpec.RateLimit).

Definition implicit_host (env : option Environment.t) (app : option App.t) : string :=
  app ⇝ App.Name +:+ "-" +:+ env ⇝ Environment.Name +:+ "." +:+ domain.

(** Explicit domains, then the implicit cluster subdomain. *)
Definition env_http (st : Store.t) (env : option Environment.t) (app : option App.t) : list HTTPRoute.t :=
  let httpPort := httpPortName (env ⇝ Environment.Service) in
  omap (λ dom,
    if negb (dom ⇝ Domain.EnvironmentId =? GetId env) then None
    else
      let portName := if dom ⇝ Domain.PortName =? "" then httpPort else dom ⇝ Domain.PortName in
      Some (http_route st env app (dom ⇝ Domain.Hostname) (dom ⇝ Domain.PathPrefix) (dom ⇝ Domain.Middleware) portName))
    (Store.ListDomains (env ⇝ Environment.ProjectId) st)
  ++ (if domain =? "" then [] else [http_route st env app (implicit_host env app) "" None httpPort]).

Definition env_l4 (st : Store.t) (env : option Environment.t) : list L4Route.t :=
  omap (λ port,
    if (port ⇝ PortSpec.PublicL4Port =? 0)%Z then None
    else Some (L4Route.mk (port ⇝ PortSpec.PublicL4Port) "tcp" (GetId env) (endpoints st env (port ⇝ PortSpec.Name))))
    (env ⇝ Environment.Service ⇝ ServiceSpec.Ports).

Definition env_internal (st : Store.t) (env : option Environment.t) (app : option App.t) : list InternalService.t :=
  match Store.ServiceVIP (GetId env) st with
  | None => []
  | Some vip =>
    let ports := (λ port, InternalPort.mk (port ⇝ PortSpec.Name) (port ⇝ PortSpec.ContainerPort) "tcp"
        (endpoints st env (port ⇝ PortSpec.Name))) <$> env ⇝ Environment.Service ⇝ ServiceSpec.Ports in
    [InternalService.mk
       (app ⇝ App.Name +:+ "." +:+ env ⇝ Environment.Name +:+ "." +:+ projectName st (env ⇝ Environment.ProjectId) +:+ ".internal.")
       (env ⇝ Environment.ProjectId) (GetId env) vip ports]
  end.

(** The environments with their apps; one without its app is skipped. *)
Definition routed (st : Store.t) : list (option Environment.t * option App.t) :=
  omap (λ env, (λ app, (env, app)) <$> Store.App (env ⇝ Environment.AppId) st) (Store.ListEnvironments "" "" st).

Definition build (st : Store.t) : RouteSnapshot.t :=
  let http := '(env, app) ← routed st; env_http st env app in
  RouteSnapshot.mk (Store.Version st) http
    ('(env, app) ← routed st; env_l4 st env)
    ('(env, app) ← routed st; env_internal st env app)
    (sortedKeys (list_to_set (HTTPRoute.Hostname <$> http))).

End build.
End Routes.

(** * What a snapshot says *)

(** An endpoint of a port is a healthy replica of the release on a node that is there. *)
Definition serving (st : Store.t) (envID active portName : string) (ep : Endpoint.t) : Prop :=
  ∃ a n port,
    Store.assignments st !! Endpoint.AssignmentId ep = Some a
    ∧ (envID = "" ∨ a ⇝ Assignment.EnvironmentId = envID)
    ∧ a ⇝ Assignment.ReleaseId = active ∧ a ⇝ Assignment.Desired = ASSIGNMENT_DESIRED_RUN
    ∧ a ⇝ Assignment.Observed ⇝ AssignmentObserved.State = INSTANCE_STATE_HEALTHY
    ∧ Store.nodes st !! (a ⇝ Assignment.NodeId) = Some n
    ∧ n ⇝ Node.Status ≠ NODE_STATUS_DOWN ∧ n ⇝ Node.Status ≠ NODE_STATUS_DRAINED
    ∧ a ⇝ Assignment.MeshPortBindings !! portName = Some port ∧ port ≠ 0%Z
    ∧ ep = Endpoint.mk (GetId a) (a ⇝ Assignment.NodeId)
        ((if n ⇝ Node.MeshIp =? "" then "127.0.0.1" else n ⇝ Node.MeshIp) +:+ ":" +:+ pretty port) true false.

(** The endpoints of an environment's port: just the ones serving its active release,
    each once, in the order of their ids. *)
Definition serves (st : Store.t) (env : option Environment.t) (portName : string) (eps : list Endpoint.t) : Prop :=
  let active := env ⇝ Environment.ActiveReleaseId in
  (∀ ep, ep ∈ eps ↔ active ≠ "" ∧ serving st (GetId env) active portName ep)
  ∧ NoDup (Endpoint.AssignmentId <$> eps)
  ∧ StronglySorted (not_less (key_less Endpoint.AssignmentId)) eps.

Section build_spec.
Context {RO : RangeOrder} {ROk : RangeOrderOk RO}.

Lemma endpoint_spec st envID active portName a ep :
  wf st → Store.assignments st !! GetId a = Some a → (envID = "" ∨ a ⇝ Assignment.EnvironmentId = envID) →
  Routes.endpoint st active portName a = Some ep ↔ Endpoint.AssignmentId ep = GetId a ∧ serving st envID active portName ep.
Proof.
  intros Hwf Ha He. unfold Routes.endpoint, serving, Store.Node. split.
  - destruct (_ =? active) eqn:Hr; [|done]. destruct (bool_decide (a ⇝ Assignment.Desired = _)) eqn:Hd; [|done].
    cbn [negb orb]. destruct (bool_decide (_ = INSTANCE_STATE_HEALTHY)) eqn:Hs; [|done]. cbn [negb].
    destruct (_ !! portName) as [port|] eqn:Hp; [|done]. cbn [from_option id]. destruct (port =? 0)%Z eqn:Hz; [done|].
    destruct (Store.nodes st !! _) as [n|] eqn:Hn; [|done].
    destruct (bool_decide (_ = NODE_STATUS_DOWN)) eqn:H1; [done|]. destruct (bool_decide (_ = NODE_STATUS_DRAINED)) eqn:H2; [done|].
    intros [= <-]. split; [done|]. exists a, n, port. apply bool_decide_eq_true in Hd, Hs. apply bool_decide_eq_false in H1, H2.
    apply str_eqb_eq in Hr. apply Z.eqb_neq in Hz. split_and!; try done. by destruct (_ =? "").
  - intros (Hid & a' & n & port & Ha' & _ & <- & Hd & Hs & Hn & H1 & H2 & Hp & Hz & ->). cbn in Hid.
    cbn [Endpoint.AssignmentId] in Ha'. rewrite Hid, Ha in Ha'. injection Ha' as <-.
    rewrite (proj2 (str_eqb_eq _ _) eq_refl), Hd, Hs, Hp, Hn. cbn [from_option id].
    rewrite (proj2 (Z.eqb_neq _ _) Hz). rewrite !bool_decide_eq_true_2 by done. rewrite !bool_decide_eq_false_2 by done.
    cbn. by destruct (_ =? "").
Qed.
(** A partial image whose keys are the keys of the originals. *)
Lemma sublist_omap_key {A B} (f : A → option B) (kA : A → string) (kB : B → string) l :
  (∀ x y, x ∈ l → f x = Some y → kB y = kA x) → kB <$> omap f l `sublist_of` kA <$> l.
Proof.
  induction l as [|x l IH]; intros Hk; [done|]. cbn. destruct (f x) as [y|] eqn:Hy.
  - cbn. rewrite (Hk x y) by (done || by left). apply sublist_skip, IH. intros x' y' Hx'. apply Hk. by right.
  - apply sublist_cons, IH. intros x' y' Hx'. apply Hk. by right.
Qed.

Lemma endpoint_id st active portName a ep :
  Routes.endpoint st active portName a = Some ep → Endpoint.AssignmentId ep = GetId a.
Proof. unfold Routes.endpoint. intros H. repeat (case_match; try done); by injection H as <-. Qed.

Lemma NoDup_assignments envID st : wf st → NoDup (GetId <$> Store.ListAssignments envID st).
Proof.
  intros Hwf. unfold Store.ListAssignments, Store.sortByID. rewrite sort_slice_perm.
  apply NoDup_fmap_filter, NoDup_ids_range; [done|apply Hwf].
Qed.

Lemma NoDup_endpoints st envID active portName :
  wf st → NoDup (Endpoint.AssignmentId <$> omap (Routes.endpoint st active portName) (Store.ListAssignments envID st)).
Proof.
  intros Hwf. eapply sublist_NoDup; [by apply NoDup_assignments|].
  apply (sublist_omap_key _ GetId). intros x y _. apply endpoint_id.
Qed.

Lemma endpoints_serves st env portName : wf st → serves st env portName (Routes.endpoints st env portName).
Proof.
  intros Hwf. unfold serves, Routes.endpoints. destruct (_ =? "") eqn:Hact.
  { apply str_eqb_eq in Hact. split_and!; [|constructor..]. intros ep. split; [by intros ?%elem_of_nil|by intros [? _]]. }
  apply str_eqb_neq in Hact. split_and!.
  - intros ep. rewrite sort_slice_perm, list_elem_of_omap. split.
    + intros (a & [He [id Ha]]%elem_of_ListAssignments & Hep). split; [done|].
      eapply endpoint_spec; [done| |done|exact Hep]. by rewrite (wf_assignments _ Hwf _ _ Ha).
    + intros [_ Hs]. pose proof Hs as (a & n & port & Ha & He & _ & _ & _ & _ & _ & _ & _ & _ & Hep).
      assert (GetId a = Endpoint.AssignmentId ep) as Hid by apply (wf_assignments _ Hwf _ _ Ha).
      exists a. split; [apply elem_of_ListAssignments; eauto|].
      apply (endpoint_spec st (GetId env)); [done|by rewrite Hid|done|]. by rewrite Hid.
  - rewrite sort_slice_perm. by apply NoDup_endpoints.
  - apply sort_key_sorted.
Qed.
End build_spec.

(** * Every control node builds the same snapshot *)

Section agree.
Context (RO1 RO2 : RangeOrder) (RO1k : RangeOrderOk RO1) (RO2k : RangeOrderOk RO2).
Context (st1 st2 : Store.t) (Hwf : wf st1) (Heq : st1 ≡ st2).

Lemma ListAssignments_agree x : Store.ListAssignments (RO := RO1) x st1 = Store.ListAssignments (RO := RO2) x st2.
Proof.
  unfold Store.ListAssignments. rewrite <- (eqv_assignments _ _ Heq). apply sortByID_filter_orders; [done..|apply Hwf].
Qed.

Lemma ListDomains_agree x : Store.ListDomains (RO := RO1) x st1 = Store.ListDomains (RO := RO2) x st2.
Proof.
  unfold Store.ListDomains. rewrite <- (eqv_domains _ _ Heq). apply sortByID_filter_orders; [done..|apply Hwf].
Qed.

Lemma endpoints_agree env port :
  Routes.endpoints (RO := RO1) st1 env port = Routes.endpoints (RO := RO2) st2 env port.
Proof.
  unfold Routes.endpoints. destruct (_ =? ""); [done|]. rewrite ListAssignments_agree. do 2 f_equal. unfold Routes.endpoint, Store.Node.
  by rewrite (eqv_nodes _ _ Heq).
Qed.

Lemma routed_agree : Routes.routed (RO := RO1) st1 = Routes.routed (RO := RO2) st2.
Proof.
  unfold Routes.routed, Store.App. rewrite (eqv_apps _ _ Heq). f_equal. unfold Store.ListEnvironments.
  rewrite <- (eqv_environments _ _ Heq). apply sortByID_filter_orders; [done..|apply Hwf].
Qed.

Lemma env_http_agree domain env app :
  Routes.env_http (RO := RO1) domain st1 env app = Routes.env_http (RO := RO2) domain st2 env app.
Proof.
  assert (∀ host prefix mw port, Routes.http_route (RO := RO1) st1 env app host prefix mw port
    = Routes.http_route (RO := RO2) st2 env app host prefix mw port) as H.
  { intros host prefix mw port. unfold Routes.http_route. by rewrite endpoints_agree. }
  unfold Routes.env_http. rewrite ListDomains_agree. f_equal; [|by rewrite H].
  apply list_omap_ext, Forall_Forall2_diag, Forall_forall. intros dom _. destruct (negb _); [done|]. by rewrite H.
Qed.

Lemma env_l4_agree env : Routes.env_l4 (RO := RO1) st1 env = Routes.env_l4 (RO := RO2) st2 env.
Proof.
  unfold Routes.env_l4. apply list_omap_ext, Forall_Forall2_diag, Forall_forall. intros port _. by rewrite endpoints_agree.
Qed.

Lemma env_internal_agree env app : Routes.env_internal (RO := RO1) st1 env app = Routes.env_internal (RO := RO2) st2 env app.
Proof.
  unfold Routes.env_internal, Store.ServiceVIP, Routes.projectName, Store.Project.
  rewrite (eqv_serviceVIPs _ _ Heq), (eqv_projects _ _ Heq). destruct (_ !! GetId env); [|done]. do 2 f_equal.
  apply list_fmap_ext. intros i port _. by rewrite endpoints_agree.
Qed.

Lemma sortedKeys_agree m : Routes.sortedKeys (RO := RO1) m = Routes.sortedKeys (RO := RO2) m.
Proof.
  unfold Routes.sortedKeys, range_keys. apply sort_key_unique.
  - by rewrite !range_perm.
  - rewrite list_fmap_id. apply NoDup_fst_range.
Qed.

Lemma bind_agree {A B} (f g : A → list B) (l : list A) : (∀ x, f x = g x) → l ≫= f = l ≫= g.
Proof. intros H. by apply list_bind_ext. Qed.
End agree.

(** Every control node builds the same route table.  From equivalent well-formed
    states, whatever the order each node iterates over its maps in, the snapshots are
    equal, version apart: replicas that applied the same log count it alike, a
    restored one starts anew. *)
Theorem routes_agree (RO1 RO2 : RangeOrder) (RO1k : RangeOrderOk RO1) (RO2k : RangeOrderOk RO2)
    (domain : string) (st1 st2 : Store.t) :
  wf st1 → st1 ≡ st2 →
  let snap1 := Routes.build (RO := RO1) domain st1 in
  let snap2 := Routes.build (RO := RO2) domain st2 in
  RouteSnapshot.HttpRoutes snap1 = RouteSnapshot.HttpRoutes snap2
  ∧ RouteSnapshot.L4Routes snap1 = RouteSnapshot.L4Routes snap2
  ∧ RouteSnapshot.InternalServices snap1 = RouteSnapshot.InternalServices snap2
  ∧ RouteSnapshot.CertHosts snap1 = RouteSnapshot.CertHosts snap2.
Proof.
  intros Hwf Heq snap1 snap2.
  assert (RouteSnapshot.HttpRoutes snap1 = RouteSnapshot.HttpRoutes snap2) as Hhttp.
  { cbn. rewrite (routed_agree RO1 RO2 _ _ st1 st2) by done. apply bind_agree. intros [env app]. by apply env_http_agree. }
  split_and!; [done| | |].
  - cbn. rewrite (routed_agree RO1 RO2 _ _ st1 st2) by done. apply bind_agree. intros [env app]. by apply env_l4_agree.
  - cbn. rewrite (routed_agree RO1 RO2 _ _ st1 st2) by done. apply bind_agree. intros [env app]. by apply env_internal_agree.
  - unfold snap1, snap2, Routes.build in *. cbn in Hhttp |- *. rewrite Hhttp. by apply sortedKeys_agree.
Qed.

(** * What the routes are *)

(** An environment of the state, with its app. *)
Definition linked (st : Store.t) (env : option Environment.t) (app : option App.t) : Prop :=
  (∃ id, Store.environments st !! id = Some env) ∧ Store.apps st !! (env ⇝ Environment.AppId) = Some app.

(** What a route says of its environment. *)
Definition of_environment (st : Store.t) (env : option Environment.t) (app : option App.t) (port : string)
    (r : HTTPRoute.t) : Prop :=
  HTTPRoute.EnvironmentId r = GetId env ∧ HTTPRoute.ProjectId r = env ⇝ Environment.ProjectId
  ∧ HTTPRoute.AppId r = env ⇝ Environment.AppId ∧ HTTPRoute.AppName r = app ⇝ App.Name
  ∧ HTTPRoute.ScaleToZero r = env ⇝ Environment.Service ⇝ ServiceSpec.ScaleToZero
  ∧ HTTPRoute.MaxConcurrency r = env ⇝ Environment.Service ⇝ ServiceSpec.MaxConcurrency
  ∧ serves st env port (HTTPRoute.Endpoints r).

(** The port a domain routes to. *)
Definition domain_port (env : option Environment.t) (d : option Domain.t) : string :=
  if d ⇝ Domain.PortName =? "" then Routes.httpPortName (env ⇝ Environment.Service) else d ⇝ Domain.PortName.

Section reflect.
Context {RO : RangeOrder} {ROk : RangeOrderOk RO}.

Lemma elem_of_ListDomains pid st d :
  d ∈ Store.ListDomains pid st ↔ (pid = "" ∨ d ⇝ Domain.ProjectId = pid) ∧ ∃ id, Store.domains st !! id = Some d.
Proof.
  unfold Store.ListDomains, Store.sortByID. rewrite sort_slice_perm, elem_of_Filter, elem_of_range_values.
  rewrite orb_true_iff, !str_eqb_eq. naive_solver.
Qed.

Lemma elem_of_all_environments st env :
  env ∈ Store.ListEnvironments "" "" st ↔ ∃ id, Store.environments st !! id = Some env.
Proof.
  unfold Store.ListEnvironments, Store.sortByID. rewrite sort_slice_perm, elem_of_Filter, elem_of_range_values. naive_solver.
Qed.

Lemma elem_of_routed st env app : (env, app) ∈ Routes.routed st ↔ linked st env app.
Proof.
  unfold Routes.routed, linked, Store.App. rewrite list_elem_of_omap. split.
  - intros (e & He%elem_of_all_environments & (a & Ha & [= -> ->])%fmap_Some). by split.
  - intros [He Ha]. exists env. split; [by apply elem_of_all_environments|]. by rewrite Ha.
Qed.

Lemma elem_of_built {A} (f : option Environment.t → option App.t → list A) st x :
  x ∈ ('(env, app) ← Routes.routed st; f env app) ↔ ∃ env app, linked st env app ∧ x ∈ f env app.
Proof.
  rewrite list_elem_of_bind. split.
  - intros ([env app] & Hx & Hin%elem_of_routed). eauto.
  - intros (env & app & Hin%elem_of_routed & Hx). by exists (env, app).
Qed.

Lemma elem_of_env_http domain st env app r :
  r ∈ Routes.env_http domain st env app ↔
    (∃ d, d ∈ Store.ListDomains (env ⇝ Environment.ProjectId) st ∧ d ⇝ Domain.EnvironmentId = GetId env
       ∧ r = Routes.http_route st env app (d ⇝ Domain.Hostname) (d ⇝ Domain.PathPrefix) (d ⇝ Domain.Middleware) (domain_port env d))
    ∨ domain ≠ "" ∧ r = Routes.http_route st env app (Routes.implicit_host domain env app) "" None
        (Routes.httpPortName (env ⇝ Environment.Service)).
Proof.
  unfold Routes.env_http. rewrite elem_of_app, list_elem_of_omap. split.
  - intros [(d & Hd & Hr)|Hr].
    + left. exists d. destruct (_ =? GetId env) eqn:He; [|done]. injection Hr as <-. by apply str_eqb_eq in He.
    + right. destruct (domain =? "") eqn:Hdom; [by apply elem_of_nil in Hr|]. apply str_eqb_neq in Hdom.
      by apply list_elem_of_singleton in Hr.
  - intros [(d & Hd & He & ->)|[Hdom ->]].
    + left. exists d. split; [done|]. by rewrite (proj2 (str_eqb_eq _ _) He).
    + right. rewrite (proj2 (str_eqb_neq _ _) Hdom). by left.
Qed.

Lemma http_route_of st env app host prefix mw port :
  wf st → of_environment st env app port (Routes.http_route st env app host prefix mw port).
Proof. intros Hwf. unfold of_environment. split_and!; try done. by apply endpoints_serves. Qed.

Lemma elem_of_sortedKeys m k : k ∈ Routes.sortedKeys m ↔ k ∈ m.
Proof. unfold Routes.sortedKeys. by rewrite sort_slice_perm, elem_of_range_keys. Qed.
End reflect.

(** What the state asks to be routed for an environment: the domains of the environment,
    which are its project's, and when the cluster has an app domain the implicit
    subdomain. *)
Definition http_source (domain : string) (st : Store.t) (env : option Environment.t) (app : option App.t)
    (host prefix : string) (mw : option Middleware.t) (port : string) : Prop :=
  (∃ d id, Store.domains st !! id = Some d ∧ d ⇝ Domain.EnvironmentId = GetId env
     ∧ (env ⇝ Environment.ProjectId = "" ∨ d ⇝ Domain.ProjectId = env ⇝ Environment.ProjectId)
     ∧ host = d ⇝ Domain.Hostname ∧ prefix = d ⇝ Domain.PathPrefix ∧ mw = d ⇝ Domain.Middleware ∧ port = domain_port env d)
  ∨ domain ≠ "" ∧ host = Routes.implicit_host domain env app ∧ prefix = "" ∧ mw = None
     ∧ port = Routes.httpPortName (env ⇝ Environment.Service).

Definition http_route_is (st : Store.t) (env : option Environment.t) (app : option App.t)
    (host prefix : string) (mw : option Middleware.t) (port : string) (r : HTTPRoute.t) : Prop :=
  HTTPRoute.Hostname r = host ∧ HTTPRoute.PathPrefix r = prefix ∧ HTTPRoute.Middleware r = mw
  ∧ HTTPRoute.EnvironmentName r = env ⇝ Environment.Name
  ∧ HTTPRoute.RateLimit r = env ⇝ Environment.Service ⇝ ServiceSpec.RateLimit
  ∧ of_environment st env app port r.

Definition l4_route_is (st : Store.t) (env : option Environment.t) (port : option PortSpec.t) (r : L4Route.t) : Prop :=
  L4Route.PublicPort r = port ⇝ PortSpec.PublicL4Port ∧ L4Route.EnvironmentId r = GetId env
  ∧ serves st env (port ⇝ PortSpec.Name) (L4Route.Endpoints r).

(** The internal service of an environment has a port for each of the spec's, in order. *)
Definition internal_service_is (st : Store.t) (env : option Environment.t) (app : option App.t) (vip : string)
    (s : InternalService.t) : Prop :=
  InternalService.Fqdn s = app ⇝ App.Name +:+ "." +:+ env ⇝ Environment.Name +:+ "."
    +:+ Routes.projectName st (env ⇝ Environment.ProjectId) +:+ ".internal."
  ∧ InternalService.ProjectId s = env ⇝ Environment.ProjectId ∧ InternalService.EnvironmentId s = GetId env
  ∧ InternalService.Vip s = vip
  ∧ Forall2 (λ port p, InternalPort.Name p = port ⇝ PortSpec.Name ∧ InternalPort.Port p = port ⇝ PortSpec.ContainerPort
      ∧ serves st env (port ⇝ PortSpec.Name) (InternalPort.Endpoints p))
      (env ⇝ Environment.Service ⇝ ServiceSpec.Ports) (InternalService.Ports s).

Section exact.
Context {RO : RangeOrder} {ROk : RangeOrderOk RO}.

Lemma http_routes_exact domain st r :
  r ∈ RouteSnapshot.HttpRoutes (Routes.build domain st) ↔ ∃ env app host prefix mw port, linked st env app
    ∧ http_source domain st env app host prefix mw port ∧ r = Routes.http_route st env app host prefix mw port.
Proof.
  cbn [Routes.build RouteSnapshot.HttpRoutes]. rewrite (elem_of_built (Routes.env_http domain st)). split.
  - intros (env & app & Hl & [(d & [Hp [id Hd]]%elem_of_ListDomains & He & ->)|[Hdom ->]]%elem_of_env_http);
      eexists env, app, _, _, _, _; (split; [exact Hl|]); (split; [|reflexivity]).
    + left. by exists d, id.
    + by right.
  - intros (env & app & host & prefix & mw & port & Hl & Hsrc & ->). exists env, app. split; [done|]. apply elem_of_env_http.
    destruct Hsrc as [(d & id & Hd & He & Hp & -> & -> & -> & ->)|(Hdom & -> & -> & -> & ->)]; [left|by right].
    exists d. split; [apply elem_of_ListDomains; eauto|done].
Qed.

Lemma l4_routes_exact domain st r :
  r ∈ RouteSnapshot.L4Routes (Routes.build domain st) ↔ ∃ env app port, linked st env app
    ∧ port ∈ env ⇝ Environment.Service ⇝ ServiceSpec.Ports ∧ port ⇝ PortSpec.PublicL4Port ≠ 0%Z
    ∧ r = L4Route.mk (port ⇝ PortSpec.PublicL4Port) "tcp" (GetId env) (Routes.endpoints st env (port ⇝ PortSpec.Name)).
Proof.
  cbn [Routes.build RouteSnapshot.L4Routes]. rewrite (elem_of_built (λ env _, Routes.env_l4 st env)). unfold Routes.env_l4.
  setoid_rewrite list_elem_of_omap. split.
  - intros (env & app & Hl & port & Hp & Hr). exists env, app, port. destruct (Z.eqb_spec (port ⇝ PortSpec.PublicL4Port) 0); [done|].
    by injection Hr as <-.
  - intros (env & app & port & Hl & Hp & Hz & ->). exists env, app. split; [done|]. exists port. split; [done|].
    by rewrite (proj2 (Z.eqb_neq _ _) Hz).
Qed.

Lemma internal_services_exact domain st s :
  wf st → s ∈ RouteSnapshot.InternalServices (Routes.build domain st) → ∃ env app vip, linked st env app
    ∧ Store.serviceVIPs st !! GetId env = Some vip ∧ internal_service_is st env app vip s.
Proof.
  intros Hwf (env & app & Hl & Hs)%(elem_of_built (Routes.env_internal st)). exists env, app.
  unfold Routes.env_internal, Store.ServiceVIP in Hs. destruct (Store.serviceVIPs st !! GetId env) as [vip|]; [|by apply elem_of_nil in Hs].
  exists vip. split; [done|]. split; [done|]. apply list_elem_of_singleton in Hs as ->. split_and!; try done. cbn.
  apply Forall2_fmap_r, Forall_Forall2_diag, Forall_forall. intros port _. split_and!; try done. by apply endpoints_serves.
Qed.

Lemma internal_service_there domain st env app vip :
  wf st → linked st env app → Store.serviceVIPs st !! GetId env = Some vip →
  ∃ s, s ∈ RouteSnapshot.InternalServices (Routes.build domain st) ∧ internal_service_is st env app vip s.
Proof.
  intros Hwf Hl Hv. eexists. split.
  - apply (elem_of_built (Routes.env_internal st)). exists env, app. split; [done|].
    unfold Routes.env_internal, Store.ServiceVIP. rewrite Hv. by apply list_elem_of_singleton.
  - split_and!; try done. cbn. apply Forall2_fmap_r, Forall_Forall2_diag, Forall_forall. intros port _. split_and!; try done.
    by apply endpoints_serves.
Qed.
End exact.

(** C12: the route table says what the state says, in both directions.  There is an HTTP
    route for just the hostnames and path prefixes that the state asks for: each domain
    of an environment that has its app, kept under the environment's project, with its
    middleware; and, when the cluster has an app domain, the implicit subdomain of each
    such environment, without middleware.  There is a public port for just the ports of
    those environments' specs that ask for one, and an internal service, with its name
    and a port for each of the spec's in order, for just the environments that have an
    address.  The endpoints of all of them are the healthy running instances of the
    environment's active release that publish the port, on nodes that are neither down
    nor drained, each once, in the order of their ids; and certificates may be issued
    for just the routed hostnames. *)
Theorem routes_reflect_state (RO : RangeOrder) (ROk : RangeOrderOk RO) (domain : string) (st : Store.t) :
  wf st →
  let snap := Routes.build domain st in
  (∀ r, r ∈ RouteSnapshot.HttpRoutes snap → ∃ env app host prefix mw port, linked st env app
     ∧ http_source domain st env app host prefix mw port ∧ http_route_is st env app host prefix mw port r)
  ∧ (∀ env app host prefix mw port, linked st env app → http_source domain st env app host prefix mw port →
     ∃ r, r ∈ RouteSnapshot.HttpRoutes snap ∧ http_route_is st env app host prefix mw port r)
  ∧ (∀ r, r ∈ RouteSnapshot.L4Routes snap → ∃ env app port, linked st env app
     ∧ port ∈ env ⇝ Environment.Service ⇝ ServiceSpec.Ports ∧ port ⇝ PortSpec.PublicL4Port ≠ 0%Z ∧ l4_route_is st env port r)
  ∧ (∀ env app port, linked st env app → port ∈ env ⇝ Environment.Service ⇝ ServiceSpec.Ports →
     port ⇝ PortSpec.PublicL4Port ≠ 0%Z → ∃ r, r ∈ RouteSnapshot.L4Routes snap ∧ l4_route_is st env port r)
  ∧ (∀ s, s ∈ RouteSnapshot.InternalServices snap → ∃ env app vip, linked st env app
     ∧ Store.serviceVIPs st !! GetId env = Some vip ∧ internal_service_is st env app vip s)
  ∧ (∀ env app vip, linked st env app → Store.serviceVIPs st !! GetId env = Some vip →
     ∃ s, s ∈ RouteSnapshot.InternalServices snap ∧ internal_service_is st env app vip s)
  ∧ (∀ h, h ∈ RouteSnapshot.CertHosts snap ↔ ∃ r, r ∈ RouteSnapshot.HttpRoutes snap ∧ HTTPRoute.Hostname r = h).
Proof.
  intros Hwf snap.
  assert (∀ env app host prefix mw port,
    http_route_is st env app host prefix mw port (Routes.http_route st env app host prefix mw port)) as Hhttp.
  { intros. split_and!; try done. by apply http_route_of. }
  split_and!.
  - intros r (env & app & host & prefix & mw & port & Hl & Hs & ->)%http_routes_exact. by exists env, app, host, prefix, mw, port.
  - intros env app host prefix mw port Hl Hs. eexists. split; [|apply Hhttp]. apply http_routes_exact.
    by exists env, app, host, prefix, mw, port.
  - intros r (env & app & port & Hl & Hp & Hz & ->)%l4_routes_exact. exists env, app, port. split; [done|]. split; [done|]. split; [done|].
    split_and!; [done|done|by apply endpoints_serves].
  - intros env app port Hl Hp Hz. eexists. split; [apply l4_routes_exact; by exists env, app, port|].
    split_and!; [done|done|by apply endpoints_serves].
  - intros s. by apply internal_services_exact.
  - intros env app vip. by apply internal_service_there.
  - intros h. cbn [snap Routes.build RouteSnapshot.CertHosts RouteSnapshot.HttpRoutes]. rewrite elem_of_sortedKeys, elem_of_list_to_set, list_elem_of_fmap.
    naive_solver.
Qed.

(** * Delivery to a subscriber

    pushLatest on a channel of capacity one, with a consumer that receives at any
    moment; the builder's lock lets one push run at a time. *)

Module Delivery.

Inductive pc := Offer | Full | Done.

Record t := mk { chan : option RouteSnapshot.t; at_ : pc; received : list RouteSnapshot.t }.

Inductive step (snap : RouteSnapshot.t) : t → t → Prop :=
| step_send got : step snap (mk None Offer got) (mk (Some snap) Done got)
| step_full old got : step snap (mk (Some old) Offer got) (mk (Some old) Full got)
| step_drop old got : step snap (mk (Some old) Full got) (mk None Offer got)
| step_give_up got : step snap (mk None Full got) (mk None Done got)
| step_receive v p got : step snap (mk (Some v) p got) (mk None p (v :: got)).

(** What a push can come to. *)
Definition delivered (snap : RouteSnapshot.t) (old : option RouteSnapshot.t) (s : t) : Prop :=
  chan s = Some snap ∨ snap ∈ received s ∨ (∃ v, old = Some v ∧ chan s = None ∧ received s = [v]).

Definition inv (snap : RouteSnapshot.t) (old : option RouteSnapshot.t) (s : t) : Prop :=
  match at_ s with
  | Offer => (chan s = old ∨ chan s = None) ∧ received s = []
      ∨ ∃ v, old = Some v ∧ chan s = None ∧ received s = [v]
  | Full => ∃ v, old = Some v ∧ (chan s = Some v ∧ received s = [] ∨ chan s = None ∧ received s = [v])
  | Done => delivered snap old s
  end.

Lemma push_inv_step snap old s s' : step snap s s' → inv snap old s → inv snap old s'.
Proof.
  intros Hs. destruct Hs as [got|o got|o got|got|v [] got]; unfold inv, delivered; cbn [at_ chan received].
  - by left.
  - intros [[[<-|?] ->]|(v & _ & ? & _)]; [|done..]. exists o. split; [done|]. by left.
  - intros (v & -> & [[[= ->] ->]|[? _]]); [|done]. left. by split; [right|].
  - intros (v & -> & [[? _]|[_ ->]]); [done|]. right. right. by exists v.
  - intros [[[<-|?] ->]|(u & _ & ? & _)]; [|done..]. right. by exists v.
  - intros (u & -> & [[[= ->] ->]|[? _]]); [|done]. exists u. split; [done|]. by right.
  - intros [[= ->]|[Hin|(u & _ & ? & _)]]; [right; left; by left|right; left; by right|done].
Qed.

(** However the consumer interleaves, when a push is done the snapshot is queued or
    received, unless the consumer took the stale one between the two selects. *)
Lemma push_delivers snap old s :
  rtc (step snap) (mk old Offer []) s → at_ s = Done → delivered snap old s.
Proof.
  intros Hr. assert (inv snap old s) as Hi.
  { remember (mk old Offer []) as s0 eqn:Hs0. assert (inv snap old s0) as H0 by (subst; left; by split; [left|]). clear Hs0.
    induction Hr as [|x y z Hxy _ IH]; [done|]. apply IH. by eapply push_inv_step. }
  intros Hd. unfold inv in Hi. by rewrite Hd in Hi.
Qed.

(** In that case the newest snapshot is dropped, not the stale one. *)
Lemma push_loses_the_latest snap stale :
  rtc (step snap) (mk (Some stale) Offer []) (mk None Done [stale]).
Proof.
  eapply rtc_l; [apply step_full|]. eapply rtc_l; [apply step_receive|]. eapply rtc_l; [apply step_give_up|]. reflexivity.
Qed.
End Delivery.

(** * Witnesses *)

Definition web_spec : ServiceSpec.t :=
  ServiceSpec.mk (Some (ReplicaRange.mk 1 1)) None None [Some (PortSpec.mk "http" 8080 PROTOCOL_HTTP 0)] None
    false 0 false [] [] None "" ∅ None.

Definition web_replica (id node : string) (state : InstanceState) : option Assignment.t :=
  Some (Assignment.mk (sample_meta id) node "proj" "app" "e1" "r1" "" ASSIGNMENT_DESIRED_RUN "cfg" {["http" := 31000%Z]}
    (Some (AssignmentObserved.mk state "" 0 0 "" None ∅)) "").

(** App [app] of project [proj], with environment [e1] behind shop.example. *)
Definition web_store : Store.t :=
  Store.PutAssignments [web_replica "a1" "n1" INSTANCE_STATE_HEALTHY; web_replica "a2" "n1" INSTANCE_STATE_RUNNING]
  (Store.PutDomain (Some (Domain.mk (sample_meta "d1") "proj" "app" "e1" "shop.example" "" None CERT_STATUS_PENDING false ""))
  (Store.PutNode (Some (sample_node "n1" NODE_STATUS_ALIVE 4000 4096))
  (Store.PutApp (Some (App.mk (sample_meta "app") "proj" "web" None None))
  (Store.PutProject (Some (Project.mk (sample_meta "proj") "org" "shop"))
  (Store.SetServiceVIP "e1" "10.97.0.1"
  (Store.PutEnvironment (Some (sample_env "e1" "r1" web_spec)) Store.New)))))).

Lemma wf_web_store : wf web_store.
Proof. unfold web_store. auto 20 with store_wf. Qed.

Lemma routes_agree_witness :
  RouteSnapshot.HttpRoutes (Routes.build (RO := canonical_range) "zt.dev" web_store)
  = RouteSnapshot.HttpRoutes (Routes.build (RO := reversed_range) "zt.dev" web_store)
  ∧ ((λ r, (HTTPRoute.Hostname r, Endpoint.Addr <$> HTTPRoute.Endpoints r))
       <$> RouteSnapshot.HttpRoutes (Routes.build (RO := canonical_range) "zt.dev" web_store))
    = [("shop.example", ["127.0.0.1:31000"]); ("web-e1.zt.dev", ["127.0.0.1:31000"])].
Proof.
  split; [|vm_compute; reflexivity].
  exact (proj1 (routes_agree canonical_range reversed_range _ _ "zt.dev" web_store web_store wf_web_store (reflexivity _))).
Defined.

(** The one endpoint of the route of shop.example is the healthy instance, and the
    environment is found at its address. *)
Lemma routes_reflect_state_witness :
  let snap := Routes.build (RO := canonical_range) "" web_store in
  (∃ r, r ∈ RouteSnapshot.HttpRoutes snap ∧ HTTPRoute.Hostname r = "shop.example"
    ∧ ∀ ep, ep ∈ HTTPRoute.Endpoints r → serving web_store "e1" "r1" "http" ep)
  ∧ ∃ s, s ∈ RouteSnapshot.InternalServices snap ∧ InternalService.Fqdn s = "web.e1.shop.internal."
      ∧ InternalService.Vip s = "10.97.0.1" ∧ length (InternalService.Ports s) = 1.
Proof.
  destruct (routes_reflect_state canonical_range canonical_range_ok "" web_store wf_web_store) as (_ & Hhttp & _ & _ & _ & Hint & _).
  assert (linked web_store (Some (sample_env "e1" "r1" web_spec)) (Some (App.mk (sample_meta "app") "proj" "web" None None))) as Hl
    by (split; [exists "e1"|]; vm_compute; reflexivity).
  split.
  - destruct (Hhttp _ _ "shop.example" "" None "http" Hl) as (r & Hr & Hh & _ & _ & _ & _ & Hof).
    { left. exists (Some (Domain.mk (sample_meta "d1") "proj" "app" "e1" "shop.example" "" None CERT_STATUS_PENDING false "")), "d1".
      split_and!; [vm_compute; reflexivity|reflexivity|right; reflexivity|reflexivity..]. }
    exists r. split; [exact Hr|]. split; [exact Hh|]. intros ep Hep. destruct Hof as (_ & _ & _ & _ & _ & _ & Hs & _).
    exact (proj2 (proj1 (Hs ep) Hep)).
  - destruct (Hint _ _ "10.97.0.1" Hl) as (s & Hs & Hf & _ & _ & Hv & Hp); [vm_compute; reflexivity|].
    exists s. split; [exact Hs|]. split; [exact Hf|]. split; [exact Hv|]. symmetry. exact (Forall2_length _ _ _ Hp).
Defined.
