(* ===== verification/Proxy.v ===== *)
(** The ingress proxy (internal/daemon/proxy): from a request and the current route
    snapshot to the endpoint it is sent to, or the refusal.  Sending it, streaming the
    reply, cookies and compression are net/http's; passwords are compared by bcrypt, a
    parameter.  Header names and hostnames are compared on ASCII. *)
From stdpp Require Import pretty.
From S2P Require Import Prelude Api Watch State StateInv StoreProps Samples Platform Leader Orchestrator Cron Net F64 Routes.
From Stdlib Require Import Ascii.

(** bcrypt.CompareHashAndPassword succeeds. *)
Class BcryptLib := CompareHashAndPassword : string → string → bool.

(** What the proxy reads of an http.Request. *)
Module Request.
Record t := mk {
  Host : string;
  Path : string;                        (* URL.Path *)
  RequestURI : string;                  (* URL.RequestURI() *)
  TLS : bool;
  RemoteAddr : string;
  Sticky : option string;               (* the value of the affinity cookie *)
  BasicAuth : option (string * string)  (* the user and password of the header *)
}.
End Request.

Module Proxy.

(** * The balancer (lb.go) *)

(** In-flight counters by address; one that is not there is zero. *)
Definition load (inflight : gmap string Z) (addr : string) : Z := default 0%Z (inflight !! addr).

Definition acquire (addr : string) (inflight : gmap string Z) : gmap string Z :=
  <[addr := (load inflight addr + 1)%Z]> inflight.

(** What [acquire] returns. *)
Definition release (addr : string) (inflight : gmap string Z) : gmap string Z :=
  <[addr := (load inflight addr - 1)%Z]> inflight.

Definition available (inflight : gmap string Z) (maxConc : Z) (e : Endpoint.t) : bool :=
  if negb (Endpoint.Healthy e) then false
  else if (0 <? maxConc)%Z && (maxConc <=? load inflight (Endpoint.Addr e))%Z then false
  else true.

(** [rnd k n] is the k-th draw, from [0, n); a draw out of range panics. *)
Definition pick (node : string) (inflight : gmap string Z) (eps : list Endpoint.t) (rnd : nat → nat → nat)
    (maxConc : Z) : outcome (option Endpoint.t) :=
  let avail := List.filter (available inflight maxConc) eps in
  match avail with
  | [] => Ret None
  | [e] => Ret (Some e)
  | _ =>
    let i := rnd 0 (length avail) in
    let j := rnd 1 (length avail - 1) in
    let j := if (i <=? j)%nat then S j else j in
    match avail !! i, avail !! j with
    | Some a, Some c =>
      let la := load inflight (Endpoint.Addr a) in
      let lc := load inflight (Endpoint.Addr c) in
      if negb (la =? lc)%Z then Ret (Some (if (la <? lc)%Z then a else c))
      else if (Endpoint.NodeId a =? node) && negb (Endpoint.NodeId c =? node) then Ret (Some a)
      else if (Endpoint.NodeId c =? node) && negb (Endpoint.NodeId a =? node) then Ret (Some c)
      else Ret (Some a)
    | _, _ => Panic
    end
  end.

Definition anyHealthy (eps : list Endpoint.t) : bool := existsb Endpoint.Healthy eps.

(** * Sticky sessions (sticky.go) *)

(** strconv.FormatUint in base 36; seven digits hold 32 bits. *)
Fixpoint base36 (digits : nat) (n : Z) (acc : string) : string :=
  match digits with
  | 0 => acc
  | S digits =>
    let d := (n mod 36)%Z in
    let c := ascii_of_nat (Z.to_nat (if (d <? 10)%Z then d + 48 else d + 87)) in
    let acc := String c acc in
    if (n / 36 =? 0)%Z then acc else base36 digits (n / 36) acc
  end.

Definition stickyID (ep : Endpoint.t) : string :=
  let key := if Endpoint.AssignmentId ep =? "" then Endpoint.Addr ep else Endpoint.AssignmentId ep in
  base36 7 (Cron.fnv32a 2166136261 key) "".

Definition healthyByStickyID (eps : list Endpoint.t) (id : string) : option Endpoint.t :=
  if id =? "" then None
  else List.find (λ e, Endpoint.Healthy e && (stickyID e =? id)) eps.

(** * Rate limiting (ratelimit.go) *)

Module bucket.
Record t := mk { tokens : f64; last : Z }.
End bucket.

Definition maxRateLimitKeys : nat := Z.to_nat 32768.
Definition rateLimitIdle : Z := (120 * second)%Z.

(** time.Duration.Seconds *)
Definition Seconds (d : Z) : f64 :=
  F64.add (F64.ofZ (d ÷ second)) (F64.div (F64.ofZ (Z.rem d second)) (F64.ofZ 1000000000)).

(** Idle buckets first; when all are in use, the first eighth of them that the
    iteration meets. *)
Definition evictLocked {RO : RangeOrder} (now : Z) (buckets : gmap string bucket.t) : gmap string bucket.t :=
  let buckets := filter (λ kb, ¬ (rateLimitIdle ≤ now - bucket.last kb.2)%Z) buckets in
  if (maxRateLimitKeys <=? size buckets)%nat
  then foldl (λ m k, delete k m) buckets (take (maxRateLimitKeys / 8) (range buckets).*1)
  else buckets.

Definition allow {RO : RangeOrder} (now : Z) (key : string) (rps burst : f64) (buckets : gmap string bucket.t) :
    gmap string bucket.t * bool :=
  if F64.leb rps F64.zero_ then (buckets, true)
  else
    let burst := if F64.leb burst F64.zero_ then rps else burst in
    let '(buckets, tokens) := match buckets !! key with
      | None => (if (maxRateLimitKeys <=? size buckets)%nat then evictLocked now buckets else buckets, burst)
      | Some b =>
        let elapsed := (now - bucket.last b)%Z in
        (buckets, if (0 <? elapsed)%Z then
           let tokens := F64.add (bucket.tokens b) (F64.mul (Seconds elapsed) rps) in
           if F64.ltb burst tokens then burst else tokens
         else bucket.tokens b)
      end in
    if F64.ltb tokens (F64.ofZ 1) then (<[key := bucket.mk tokens now]> buckets, false)
    else (<[key := bucket.mk (F64.sub tokens (F64.ofZ 1)) now]> buckets, true).

Definition clientIP (remoteAddr : string) : string :=
  match SplitHostPort remoteAddr with Some (host, _) => host | None => remoteAddr end.

(** * Middleware (middleware.go) *)

Definition checkBasicAuth {B : BcryptLib} (r : Request.t) (ba : option BasicAuth.t) : bool :=
  match ba with
  | None => true
  | Some ba =>
    if BasicAuth.Username ba =? "" then true
    else match Request.BasicAuth r with
    | None => false
    | Some (u, p) =>
      if negb (u =? BasicAuth.Username ba) then false
      else CompareHashAndPassword (BasicAuth.PasswordHash ba) p
    end
  end.

(** Entries that are neither a block nor an address are dropped. *)
Definition parseCIDRs (l : list string) : list IPNet.t :=
  omap (λ s,
    match ParseCIDR s with
    | Some n => Some n
    | None =>
      match ParseIP s with
      | Some ip =>
        let bytes := match To4 ip with None => 16 | Some _ => 4 end in
        Some (IPNet.mk ip (CIDRMask (8 * Z.of_nat bytes) bytes))
      | None => None
      end
    end) l.

Definition allowedIP (remoteAddr : string) (cidrs : list IPNet.t) : bool :=
  match cidrs with
  | [] => true
  | _ =>
    match ParseIP (clientIP remoteAddr) with
    | None => false
    | Some ip => existsb (λ c, IPNet.Contains c ip) cidrs
    end
  end.

(** * The route of a request (l7.go) *)

Definition stripPort (host : string) : string :=
  match SplitHostPort host with Some (h, _) => h | None => host end.

Definition redirectHTTPS (route : HTTPRoute.t) : bool :=
  match HTTPRoute.Middleware route with
  | None => true
  | Some mw => Middleware.RedirectHttps mw
  end.

(** Exact host, then the longest matching path prefix. *)
Definition matchHTTP (snap : RouteSnapshot.t) (r : Request.t) : option HTTPRoute.t :=
  let host := ToLower (stripPort (Request.Host r)) in
  foldl (λ best rt,
    if negb (EqualFold (HTTPRoute.Hostname rt) host) then best
    else if negb (HasPrefix (Request.Path r) (HTTPRoute.PathPrefix rt)) then best
    else match best with
    | None => Some rt
    | Some b =>
      if (String.length (HTTPRoute.PathPrefix b) <? String.length (HTTPRoute.PathPrefix rt))%nat then Some rt else best
    end) None (RouteSnapshot.HttpRoutes snap).

(** The parsed allowlist of a route, cached per snapshot version. *)
Module Cidrs.
Record t := mk { ver : Z; cache : gmap string (list IPNet.t) }.

Definition cidrs (snap : RouteSnapshot.t) (route : HTTPRoute.t) (s : t) : t * list IPNet.t :=
  let list := HTTPRoute.Middleware route ⇝ Middleware.IpAllowlist in
  match list with
  | [] => (s, [])
  | _ =>
    let key := HTTPRoute.Hostname route +:+ "|" +:+ HTTPRoute.PathPrefix route in
    let s := if negb (RouteSnapshot.Version snap =? ver s)%Z then mk (RouteSnapshot.Version snap) ∅ else s in
    match cache s !! key with
    | Some c => (s, c)
    | None => let c := parseCIDRs list in (mk (ver s) (<[key := c]> (cache s)), c)
    end
  end.
End Cidrs.

(** The state a request meets. *)
Module L7.
Record t := mk {
  node : string;
  DisableHTTPSRedirect : bool;
  activator : bool;                     (* configured *)
  inflight : gmap string Z;
  buckets : gmap string bucket.t;
  cidrs : Cidrs.t
}.
End L7.

(** Where a request goes. *)
Inductive decision :=
| NoRoute
| RedirectTo (target : string)
| Forbidden
| RateLimited
| NotAuthorized
| Hold (route : HTTPRoute.t) (cold : bool)  (* parked until the environment has capacity *)
| BadGateway
| Forward (route : HTTPRoute.t) (ep : Endpoint.t) (cookie : string).

Definition selectEndpoint (s : L7.t) (rnd : nat → nat → nat) (route : HTTPRoute.t) (r : Request.t) :
    outcome (option (Endpoint.t * string)) :=
  let sticky := HTTPRoute.Middleware route ⇝ Middleware.StickySessions in
  let pinned := if sticky then
      match Request.Sticky r with
      | Some ck => healthyByStickyID (HTTPRoute.Endpoints route) ck
      | None => None
      end
    else None in
  match pinned with
  | Some e => Ret (Some (e, ""))
  | None =>
    obind (pick (L7.node s) (L7.inflight s) (HTTPRoute.Endpoints route) rnd (HTTPRoute.MaxConcurrency route)) (λ ep,
    match ep with
    | None => Ret None
    | Some ep => Ret (Some (ep, if sticky then stickyID ep else ""))
    end)
  end.

(** ServeHTTP up to the choice of the endpoint. *)
Definition ServeHTTP {RO : RangeOrder} {B : BcryptLib} (now : Z) (rnd : nat → nat → nat) (snap : RouteSnapshot.t)
    (r : Request.t) (s : L7.t) : outcome (L7.t * decision) :=
  match matchHTTP snap r with
  | None => Ret (s, NoRoute)
  | Some route =>
    if negb (Request.TLS r) && negb (L7.DisableHTTPSRedirect s) && redirectHTTPS route then
      Ret (s, RedirectTo ("https://" +:+ stripPort (Request.Host r) +:+ Request.RequestURI r))
    else
      let mw := HTTPRoute.Middleware route in
      let '(cs, cidrs) := Cidrs.cidrs snap route (L7.cidrs s) in
      let s := L7.mk (L7.node s) (L7.DisableHTTPSRedirect s) (L7.activator s) (L7.inflight s) (L7.buckets s) cs in
      if negb (allowedIP (Request.RemoteAddr r) cidrs) then Ret (s, Forbidden)
      else
        let rl := HTTPRoute.RateLimit route in
        let '(buckets, ok) :=
          if (0 <? rl ⇝ RateLimit.RequestsPerSecond)%Z then
            allow now (HTTPRoute.EnvironmentId route +:+ "|" +:+ clientIP (Request.RemoteAddr r))
              (F64.ofZ (rl ⇝ RateLimit.RequestsPerSecond)) (F64.ofZ (rl ⇝ RateLimit.Burst)) (L7.buckets s)
          else (L7.buckets s, true) in
        let s := L7.mk (L7.node s) (L7.DisableHTTPSRedirect s) (L7.activator s) (L7.inflight s) buckets (L7.cidrs s) in
        if negb ok then Ret (s, RateLimited)
        else if negb (checkBasicAuth r (mw ⇝ Middleware.BasicAuth)) then Ret (s, NotAuthorized)
        else
          obind (selectEndpoint s rnd route r) (λ sel,
          match sel with
          | Some (ep, cookie) => Ret (s, Forward route ep cookie)
          | None =>
            let cold := HTTPRoute.ScaleToZero route && negb (anyHealthy (HTTPRoute.Endpoints route)) in
            let full := (0 <? HTTPRoute.MaxConcurrency route)%Z && anyHealthy (HTTPRoute.Endpoints route) in
            if L7.activator s && (cold || full) then Ret (s, Hold route cold) else Ret (s, BadGateway)
          end)
  end.

(** A parked request that was woken chooses again, in the snapshot of that moment. *)
Definition resume (rnd : nat → nat → nat) (snap : RouteSnapshot.t) (r : Request.t) (s : L7.t) : outcome decision :=
  match matchHTTP snap r with
  | None => Ret NoRoute
  | Some route =>
    obind (selectEndpoint s rnd route r) (λ sel,
    match sel with
    | Some (ep, cookie) => Ret (Forward route ep cookie)
    | None => Ret BadGateway
    end)
  end.

(** When a parked request may go on. *)
Definition ready (rnd : nat → nat → nat) (snap : RouteSnapshot.t) (r : Request.t) (cold : bool) (s : L7.t) : outcome bool :=
  let rt := matchHTTP snap r in
  let eps := match rt with Some rt => HTTPRoute.Endpoints rt | None => [] end in
  let maxConc := match rt with Some rt => HTTPRoute.MaxConcurrency rt | None => 0%Z end in
  if cold then Ret (anyHealthy eps)
  else obind (pick (L7.node s) (L7.inflight s) eps rnd maxConc) (λ ep, Ret (bool_decide (is_Some ep))).

End Proxy.
