(* ===== verification/ProxyProps.v ===== *)
(** Theorems of the ingress proxy (Proxy.v): the route of a request, the balancer's
    choice, the allowlist cache, the bound of the rate limiter's table, and, with the
    route table of Routes.v, where a forwarded request arrives. *)
From stdpp Require Import pretty.
From S2P Require Import Prelude Api Watch State StateInv StoreProps Samples Platform Leader Orchestrator Cron Net F64 Routes Proxy.
From Stdlib Require Import Ascii.
Import Proxy.

(** * The route *)

(** Host and path of a route are the request's. *)
Definition routable (r : Request.t) (rt : HTTPRoute.t) : bool :=
  EqualFold (HTTPRoute.Hostname rt) (ToLower (stripPort (Request.Host r)))
  && HasPrefix (Request.Path r) (HTTPRoute.PathPrefix rt).

Definition prefix_length (rt : HTTPRoute.t) : nat := String.length (HTTPRoute.PathPrefix rt).

(** [rt] is the first of the routes with the longest prefix of those that match. *)
Definition first_longest (r : Request.t) (rts : list HTTPRoute.t) (rt : HTTPRoute.t) : Prop :=
  ∃ before after, rts = before ++ rt :: after ∧ routable r rt = true
    ∧ (∀ x, x ∈ before → routable r x = true → prefix_length x < prefix_length rt)
    ∧ (∀ x, x ∈ after → routable r x = true → prefix_length x ≤ prefix_length rt).

Definition best_of (r : Request.t) (rts : list HTTPRoute.t) (best : option HTTPRoute.t) : Prop :=
  match best with
  | None => ∀ rt, rt ∈ rts → routable r rt = false
  | Some rt => first_longest r rts rt
  end.

Lemma best_of_snoc r rts rt best :
  best_of r rts best →
  best_of r (rts ++ [rt])
    (if negb (routable r rt) then best
     else match best with
     | None => Some rt
     | Some b => if (prefix_length b <? prefix_length rt)%nat then Some rt else best
     end).
Proof.
  intros H. destruct (routable r rt) eqn:Hrt; cbn [negb].
  - destruct best as [b|].
    + destruct H as (before & after & -> & Hb & Hbef & Haft). destruct (Nat.ltb_spec (prefix_length b) (prefix_length rt)).
      * exists (before ++ b :: after), []. split; [done|]. split; [done|]. split; [|by intros x ?%elem_of_nil].
        intros x [Hx|[->|Hx]%elem_of_cons]%elem_of_app Hr; [specialize (Hbef x Hx Hr)| |specialize (Haft x Hx Hr)]; lia.
      * exists before, (after ++ [rt]). split; [by rewrite <- app_assoc|]. split_and!; [done..|].
        intros x [Hx| ->%list_elem_of_singleton]%elem_of_app Hr; [by apply Haft|lia].
    + exists rts, []. split_and!; [done..| |by intros x ?%elem_of_nil]. intros x Hx. by rewrite (H x Hx).
  - destruct best as [b|].
    + destruct H as (before & after & -> & Hb & Hbef & Haft). exists before, (after ++ [rt]). rewrite <- app_assoc.
      split_and!; [done..|]. intros x [Hx| ->%list_elem_of_singleton]%elem_of_app Hr; [by apply Haft|congruence].
    + intros x [Hx| ->%list_elem_of_singleton]%elem_of_app; auto.
Qed.

Lemma matchHTTP_best snap r : best_of r (RouteSnapshot.HttpRoutes snap) (matchHTTP snap r).
Proof.
  unfold matchHTTP. generalize (RouteSnapshot.HttpRoutes snap) as rts. intros rts.
  induction rts as [|rt rts IH] using rev_ind; [by intros x ?%elem_of_nil|].
  rewrite foldl_app. cbn [foldl]. eapply eq_ind; [apply (best_of_snoc _ _ rt _ IH)|]. unfold routable.
  destruct (EqualFold (HTTPRoute.Hostname rt) _); [|done]. by destruct (HasPrefix _ _).
Qed.

(** Two requests that match routes of one host and prefix match the same route. *)
Lemma matchHTTP_same snap r1 r2 rt1 rt2 :
  matchHTTP snap r1 = Some rt1 → matchHTTP snap r2 = Some rt2 →
  HTTPRoute.Hostname rt1 = HTTPRoute.Hostname rt2 → HTTPRoute.PathPrefix rt1 = HTTPRoute.PathPrefix rt2 → rt1 = rt2.
Proof.
  intros H1 H2 Hh Hp. pose proof (matchHTTP_best snap r1) as B1. pose proof (matchHTTP_best snap r2) as B2.
  rewrite H1 in B1. rewrite H2 in B2.
  destruct B1 as (b1 & a1 & E1 & M1 & L1 & _), B2 as (b2 & a2 & E2 & M2 & L2 & _).
  assert (routable r1 rt2 = true) as X1 by (unfold routable in *; by rewrite <- Hh, <- Hp).
  assert (routable r2 rt1 = true) as X2 by (unfold routable in *; by rewrite Hh, Hp).
  assert (prefix_length rt1 = prefix_length rt2) as Hl by (unfold prefix_length; by rewrite Hp).
  assert (rt1 ∉ b2) as N2 by (intros Hin; specialize (L2 _ Hin X2); lia).
  assert (rt2 ∉ b1) as N1 by (intros Hin; specialize (L1 _ Hin X1); lia).
  rewrite E1 in E2. clear -E2 N1 N2. revert b2 E2 N2. induction b1 as [|x b1 IH]; intros [|y b2] E2 N2; cbn in E2.
  - congruence.
  - injection E2 as -> _. by destruct N2; left.
  - injection E2 as <- _. by destruct N1; left.
  - injection E2 as <- E2. apply (IH (λ H, N1 (list_elem_of_further _ _ _ H)) b2 E2). intros H. by apply N2; right.
Qed.

(** * The balancer *)

(** The draws are in their ranges, as math/rand/v2.IntN's are. *)
Definition draws (rnd : nat → nat → nat) : Prop := ∀ k n, 0 < n → rnd k n < n.

Lemma lookup_lt_some {A} (l : list A) i : i < length l → ∃ x, l !! i = Some x ∧ x ∈ l.
Proof. intros H. destruct (lookup_lt_is_Some_2 l i H) as [x Hx]. exists x. split; [done|]. by eapply list_elem_of_lookup_2. Qed.

Lemma elem_of_available inflight maxConc eps e :
  e ∈ List.filter (available inflight maxConc) eps ↔
    e ∈ eps ∧ Endpoint.Healthy e = true ∧ (maxConc = 0 ∨ load inflight (Endpoint.Addr e) < maxConc ∨ maxConc < 0)%Z.
Proof.
  rewrite !list_elem_of_In, filter_In. unfold available. destruct (Endpoint.Healthy e); cbn [negb].
  - destruct (Z.ltb_spec 0 maxConc), (Z.leb_spec maxConc (load inflight (Endpoint.Addr e))); cbn [andb]; split;
      intros (? & ?); split_and?; try done; try lia.
  - naive_solver.
Qed.

(** The choice is one of the endpoints that can take the request, [None] only when
    there is none, and of the two that were drawn the one with fewer in flight. *)
Lemma pick_spec node inflight eps rnd maxConc :
  draws rnd → ∃ res, pick node inflight eps rnd maxConc = Ret res
  ∧ match res with
    | None => List.filter (available inflight maxConc) eps = []
    | Some e => e ∈ List.filter (available inflight maxConc) eps
        ∧ (length (List.filter (available inflight maxConc) eps) = 1
           ∨ ∃ i j f, i ≠ j ∧ List.filter (available inflight maxConc) eps !! i = Some e
               ∧ List.filter (available inflight maxConc) eps !! j = Some f
               ∧ (load inflight (Endpoint.Addr e) ≤ load inflight (Endpoint.Addr f))%Z
               ∧ (load inflight (Endpoint.Addr e) = load inflight (Endpoint.Addr f) → Endpoint.NodeId f = node →
                  Endpoint.NodeId e = node))
    end.
Proof.
  intros Hd. unfold pick. generalize (List.filter (available inflight maxConc) eps) as av. intros [|e [|f av]].
  - by exists None.
  - exists (Some e). split; [done|]. split; [by left|]. by left.
  - remember (e :: f :: av) as l eqn:El. assert (2 ≤ length l) as Hl by (subst; cbn; lia). clear El.
    pose proof (Hd 0 (length l) ltac:(lia)) as Hi. pose proof (Hd 1 (length l - 1) ltac:(lia)) as Hj.
    set (i := rnd 0 (length l)) in *. set (j0 := rnd 1 (length l - 1)) in *.
    set (j := if (i <=? j0)%nat then S j0 else j0).
    assert (i ≠ j ∧ j < length l) as [Hij Hjl] by (unfold j; destruct (Nat.leb_spec i j0); lia).
    destruct (lookup_lt_some l i Hi) as (a & Ha & Hain), (lookup_lt_some l j Hjl) as (c & Hc & Hcin).
    rewrite Ha, Hc. assert (j ≠ i) as Hji by done.
    destruct (Z.eqb_spec (load inflight (Endpoint.Addr a)) (load inflight (Endpoint.Addr c))) as [El|El]; cbn [negb].
    + destruct ((Endpoint.NodeId a =? node) && negb (Endpoint.NodeId c =? node)) eqn:N1.
      { exists (Some a). split; [done|]. split; [done|]. right. exists i, j, c. apply andb_true_iff in N1 as [N1%str_eqb_eq _].
        split_and!; [done..|lia|done]. }
      destruct ((Endpoint.NodeId c =? node) && negb (Endpoint.NodeId a =? node)) eqn:N2.
      { exists (Some c). split; [done|]. split; [done|]. right. exists j, i, a. apply andb_true_iff in N2 as [N2%str_eqb_eq _].
        split_and!; [done..|lia|done]. }
      exists (Some a). split; [done|]. split; [done|]. right. exists i, j, c. split_and!; [done..|lia|].
      intros _ Hn. destruct (Endpoint.NodeId a =? node) eqn:N3; [by apply str_eqb_eq in N3|].
      rewrite (proj2 (str_eqb_eq _ _) Hn) in N2. done.
    + destruct (Z.ltb_spec (load inflight (Endpoint.Addr a)) (load inflight (Endpoint.Addr c))).
      * exists (Some a). split; [done|]. split; [done|]. right. exists i, j, c. split_and!; [done..|lia|lia].
      * exists (Some c). split; [done|]. split; [done|]. right. exists j, i, a. split_and!; [done..|lia|lia].
Qed.

(** The choice for a route: the endpoint the cookie pins, else the balancer's. *)
Definition pinned (r : Request.t) (route : HTTPRoute.t) (ep : Endpoint.t) : Prop :=
  HTTPRoute.Middleware route ⇝ Middleware.StickySessions = true ∧ Request.Sticky r = Some (stickyID ep)
  ∧ ep ∈ HTTPRoute.Endpoints route ∧ Endpoint.Healthy ep = true.

Lemma healthyByStickyID_spec eps id e :
  healthyByStickyID eps id = Some e → e ∈ eps ∧ Endpoint.Healthy e = true ∧ stickyID e = id.
Proof.
  unfold healthyByStickyID. destruct (id =? ""); [done|]. intros [Hin H]%find_some.
  apply andb_true_iff in H as [Hh Hs%str_eqb_eq]. by rewrite list_elem_of_In.
Qed.

Lemma selectEndpoint_spec s rnd route r :
  draws rnd → ∃ res, selectEndpoint s rnd route r = Ret res
  ∧ let avail := List.filter (available (L7.inflight s) (HTTPRoute.MaxConcurrency route)) (HTTPRoute.Endpoints route) in
    match res with
    | None => avail = []
    | Some (ep, cookie) => pinned r route ep ∨ ep ∈ avail
    end.
Proof.
  intros Hd. unfold selectEndpoint.
  set (pin := if HTTPRoute.Middleware route ⇝ Middleware.StickySessions then _ else _).
  destruct pin as [e|] eqn:Hp.
  - eexists. split; [done|]. left. unfold pin in Hp. destruct (_ ⇝ Middleware.StickySessions) eqn:Hs; [|done].
    destruct (Request.Sticky r) as [ck|] eqn:Hck; [|done]. apply healthyByStickyID_spec in Hp as (Hin & Hh & <-). done.
  - destruct (pick_spec (L7.node s) (L7.inflight s) (HTTPRoute.Endpoints route) rnd (HTTPRoute.MaxConcurrency route) Hd)
      as ([e|] & -> & Hpick); cbn [obind]; (eexists; split; [done|]); [right; apply Hpick|done].
Qed.

(** * The allowlist cache *)

Definition no_bar (host : string) : bool := forallb (λ c, negb (Ascii.eqb c "|"%char)) (String.list_ascii_of_string host).

(** Hostnames have no bar: the separator of the cache's keys. *)
Definition plain_hosts (snap : RouteSnapshot.t) : Prop :=
  ∀ rt, rt ∈ RouteSnapshot.HttpRoutes snap → no_bar (HTTPRoute.Hostname rt) = true.

Definition route_key (rt : HTTPRoute.t) : string := HTTPRoute.Hostname rt +:+ "|" +:+ HTTPRoute.PathPrefix rt.

Lemma bar_key_inj h1 h2 p1 p2 :
  no_bar h1 = true → no_bar h2 = true → h1 +:+ "|" +:+ p1 = h2 +:+ "|" +:+ p2 → h1 = h2 ∧ p1 = p2.
Proof.
  revert h2. induction h1 as [|c h1 IH]; intros [|d h2] H1 H2 H; cbn in H.
  - by injection H.
  - injection H as <- _. by vm_compute in H2.
  - injection H as -> _. by vm_compute in H1.
  - injection H as <- H. apply andb_true_iff in H1 as [_ H1], H2 as [_ H2]. destruct (IH h2 H1 H2 H) as [-> ->]. done.
Qed.

Definition allowlist (rt : HTTPRoute.t) : list IPNet.t := parseCIDRs (HTTPRoute.Middleware rt ⇝ Middleware.IpAllowlist).

(** What the cache holds for this version is the allowlist of a route that is matched. *)
Definition cache_ok (snap : RouteSnapshot.t) (c : Cidrs.t) : Prop :=
  Cidrs.ver c = RouteSnapshot.Version snap →
  ∀ r rt l, matchHTTP snap r = Some rt → Cidrs.cache c !! route_key rt = Some l → l = allowlist rt.

Lemma matched_in snap r rt : matchHTTP snap r = Some rt → rt ∈ RouteSnapshot.HttpRoutes snap ∧ routable r rt = true.
Proof.
  intros H. pose proof (matchHTTP_best snap r) as B. rewrite H in B. destruct B as (b & a & -> & M & _).
  split; [|done]. apply elem_of_app. by right; left.
Qed.

Lemma cidrs_spec snap r route c :
  plain_hosts snap → cache_ok snap c → matchHTTP snap r = Some route →
  ∃ c', Cidrs.cidrs snap route c = (c', allowlist route) ∧ cache_ok snap c'.
Proof.
  intros Hplain Hc Hm. unfold Cidrs.cidrs.
  destruct (HTTPRoute.Middleware route ⇝ Middleware.IpAllowlist) as [|a l] eqn:Hl.
  { exists c. split; [|done]. unfold allowlist. by rewrite Hl. }
  set (c1 := if negb _ then _ else _).
  assert (cache_ok snap c1 ∧ Cidrs.ver c1 = RouteSnapshot.Version snap) as [Hc1 Hv].
  { unfold c1. destruct (Z.eqb_spec (RouteSnapshot.Version snap) (Cidrs.ver c)); [done|]. cbn. split; [|done].
    intros _ r' rt l'. cbn. by rewrite lookup_empty. }
  clearbody c1. change (HTTPRoute.Hostname route +:+ "|" +:+ HTTPRoute.PathPrefix route) with (route_key route).
  destruct (Cidrs.cache c1 !! route_key route) as [l'|] eqn:Hk.
  - exists c1. by rewrite (Hc1 Hv r route l' Hm Hk).
  - eexists. unfold allowlist. rewrite Hl. split; [done|]. intros _ r' rt l' Hm' Hk'. cbn in Hk'.
    destruct (decide (route_key rt = route_key route)) as [Heq|Hne].
    + pose proof (matched_in _ _ _ Hm) as [Hin _]. pose proof (matched_in _ _ _ Hm') as [Hin' _].
      destruct (bar_key_inj _ _ _ _ (Hplain _ Hin') (Hplain _ Hin) Heq) as [Hh Hp].
      rewrite (matchHTTP_same _ _ _ _ _ Hm' Hm Hh Hp) in Hk' |- *. rewrite lookup_insert_eq in Hk'. injection Hk' as <-. unfold allowlist. by rewrite Hl.
    + rewrite lookup_insert_ne in Hk' by done. by apply (Hc1 Hv r').
Qed.

(** * A request *)

Definition available_to (s : L7.t) (route : HTTPRoute.t) (ep : Endpoint.t) : Prop :=
  ep ∈ List.filter (available (L7.inflight s) (HTTPRoute.MaxConcurrency route)) (HTTPRoute.Endpoints route).

(** The checks a forwarded request has passed. *)
Definition passes {B : BcryptLib} (s : L7.t) (route : HTTPRoute.t) (r : Request.t) : Prop :=
  (Request.TLS r = true ∨ L7.DisableHTTPSRedirect s = true ∨ redirectHTTPS route = false)
  ∧ allowedIP (Request.RemoteAddr r) (allowlist route) = true
  ∧ checkBasicAuth r (HTTPRoute.Middleware route ⇝ Middleware.BasicAuth) = true.

(** The route the request is served by: of the snapshot's routes of the request's host
    whose path prefix covers its path, the first of the longest prefix. *)
Definition chosen (snap : RouteSnapshot.t) (r : Request.t) (route : HTTPRoute.t) : Prop :=
  first_longest r (RouteSnapshot.HttpRoutes snap) route.

Lemma matchHTTP_chosen snap r route : matchHTTP snap r = Some route → chosen snap r route.
Proof. intros H. pose proof (matchHTTP_best snap r) as B. by rewrite H in B. Qed.

(** What each decision says of the request. *)
Definition justified {B : BcryptLib} (snap : RouteSnapshot.t) (s : L7.t) (r : Request.t) (d : decision) : Prop :=
  match d with
  | NoRoute => ∀ rt, rt ∈ RouteSnapshot.HttpRoutes snap → routable r rt = false
  | RedirectTo target => ∃ route, chosen snap r route ∧ redirectHTTPS route = true ∧ L7.DisableHTTPSRedirect s = false
      ∧ Request.TLS r = false ∧ target = "https://" +:+ stripPort (Request.Host r) +:+ Request.RequestURI r
  | Forbidden => ∃ route, chosen snap r route ∧ allowedIP (Request.RemoteAddr r) (allowlist route) = false
  | RateLimited => ∃ route, chosen snap r route ∧ (0 < HTTPRoute.RateLimit route ⇝ RateLimit.RequestsPerSecond)%Z
      ∧ allowedIP (Request.RemoteAddr r) (allowlist route) = true
  | NotAuthorized => ∃ route, chosen snap r route
      ∧ checkBasicAuth r (HTTPRoute.Middleware route ⇝ Middleware.BasicAuth) = false
  | Hold route cold => chosen snap r route ∧ passes s route r ∧ (∀ ep, ¬ available_to s route ep)
      ∧ (if cold then HTTPRoute.ScaleToZero route = true ∧ anyHealthy (HTTPRoute.Endpoints route) = false
         else (0 < HTTPRoute.MaxConcurrency route)%Z ∧ anyHealthy (HTTPRoute.Endpoints route) = true)
  | BadGateway => ∃ route, chosen snap r route ∧ passes s route r ∧ ∀ ep, ¬ available_to s route ep
  | Forward route ep cookie => chosen snap r route ∧ passes s route r
      ∧ (pinned r route ep ∨ available_to s route ep)
  end.

Lemma ServeHTTP_spec {RO : RangeOrder} {B : BcryptLib} now rnd snap r s :
  draws rnd → plain_hosts snap → cache_ok snap (L7.cidrs s) →
  ∃ s' d, ServeHTTP now rnd snap r s = Ret (s', d) ∧ cache_ok snap (L7.cidrs s') ∧ justified snap s r d.
Proof.
  intros Hd Hplain Hc. unfold ServeHTTP. pose proof (matchHTTP_best snap r) as Hbest.
  destruct (matchHTTP snap r) as [route|] eqn:Hm; [clear Hbest|by exists s, NoRoute].
  pose proof (matchHTTP_chosen snap r route Hm) as Hch.
  destruct (negb (Request.TLS r) && negb (L7.DisableHTTPSRedirect s) && redirectHTTPS route) eqn:Hredir.
  { eexists s, _. split; [done|]. split; [done|]. exists route. split; [by apply matchHTTP_chosen|].
    destruct (redirectHTTPS route), (L7.DisableHTTPSRedirect s), (Request.TLS r); done. }
  destruct (cidrs_spec snap r route (L7.cidrs s) Hplain Hc Hm) as (c' & -> & Hc').
  destruct (allowedIP _ (allowlist route)) eqn:Hal; cbn [negb]; [|eexists _, Forbidden; split; [done|]; split; [done|]; by exists route].
  set (lim := if (0 <? _)%Z then _ else _). destruct lim as [buckets ok] eqn:Hlim.
  destruct ok; cbn [negb]; [clear Hlim|].
  2:{ eexists _, RateLimited. split; [done|]. split; [done|]. exists route. split_and!; try done. unfold lim in Hlim.
      destruct (Z.ltb_spec 0 (HTTPRoute.RateLimit route ⇝ RateLimit.RequestsPerSecond)); done. }
  destruct (checkBasicAuth r _) eqn:Hba; cbn [negb]; [|eexists _, NotAuthorized; split; [done|]; split; [done|]; by exists route].
  assert (passes s route r) as Hpass.
  { split_and!; [|done..]. destruct (Request.TLS r), (L7.DisableHTTPSRedirect s), (redirectHTTPS route); auto. }
  set (s1 := L7.mk _ _ _ _ _ _).
  destruct (selectEndpoint_spec s1 rnd route r Hd) as ([[ep cookie]|] & -> & Hsel); cbn [obind].
  { eexists s1, (Forward route ep cookie). split; [done|]. split; [done|]. done. }
  assert (∀ ep, ¬ available_to s route ep) as Hnone by (intros ep; unfold available_to; cbn in Hsel; rewrite Hsel; by intros ?%elem_of_nil).
  destruct (L7.activator s1 && _) eqn:Hhold; [|exists s1, BadGateway; split; [done|]; split; [done|]; by exists route].
  eexists s1, (Hold route _). split; [done|]. split; [done|]. split_and!; [done..|].
  apply andb_true_iff in Hhold as [_ Hhold]. destruct (HTTPRoute.ScaleToZero route && _) eqn:Hcold.
  - apply andb_true_iff in Hcold as [? ?%negb_true_iff]. done.
  - cbn [orb] in Hhold. apply andb_true_iff in Hhold as [?%Z.ltb_lt ?]. done.
Qed.

Lemma chosen_is_endpoint s route r ep :
  pinned r route ep ∨ available_to s route ep → ep ∈ HTTPRoute.Endpoints route.
Proof. intros [(_ & _ & H & _)|H%elem_of_available]; [done|apply H]. Qed.


(** * The rate limiter's table *)

Lemma size_delete_all {A} (ks : list string) (m : gmap string A) :
  NoDup ks → (∀ k, k ∈ ks → is_Some (m !! k)) → size (foldl (λ m k, delete k m) m ks) = size m - length ks.
Proof.
  revert m. induction ks as [|k ks IH]; intros m Hnd Hin; cbn; [lia|]. apply NoDup_cons in Hnd as [Hk Hnd].
  destruct (Hin k ltac:(by left)) as [x Hx]. rewrite IH; [|done|].
  - rewrite map_size_delete_Some by eauto. lia.
  - intros k' Hk'. rewrite lookup_delete_ne by (intros ->; done). apply Hin. by right.
Qed.

Lemma an_eighth : 0 < maxRateLimitKeys / 8 ≤ maxRateLimitKeys.
Proof.
  assert ((0 <? maxRateLimitKeys / 8)%nat && (maxRateLimitKeys / 8 <=? maxRateLimitKeys)%nat = true) as H by (vm_compute; reflexivity).
  apply andb_true_iff in H as [?%Nat.ltb_lt ?%Nat.leb_le]. done.
Qed.

Lemma evict_makes_room {RO : RangeOrder} {ROk : RangeOrderOk RO} now buckets :
  size buckets ≤ maxRateLimitKeys → size (evictLocked now buckets) < maxRateLimitKeys.
Proof.
  intros Hs. unfold evictLocked. set (b := filter _ buckets).
  assert (size b ≤ size buckets) as Hb by (apply map_size_filter).
  destruct (Nat.leb_spec maxRateLimitKeys (size b)); [|done].
  pose proof an_eighth. rewrite size_delete_all.
  - rewrite length_take, length_fmap, range_perm, length_map_to_list. lia.
  - eapply sublist_NoDup; [|apply sublist_take]. rewrite range_perm. apply NoDup_fst_map_to_list.
  - intros k Hk. apply elem_of_take in Hk as (i & Hk & _). apply list_elem_of_lookup_2 in Hk.
    rewrite range_perm in Hk. apply list_elem_of_fmap in Hk as ([k' x] & -> & Hk%elem_of_map_to_list). by exists x.
Qed.

(** The rate limiter's memory is bounded.  Whatever the clients, a table of at most
    32768 buckets stays one; below that no client's bucket is lost or altered by
    another's request; and a client is let through just when its bucket, full when it
    is new, has a token. *)
Theorem rate_limit_table_bounded {RO : RangeOrder} {ROk : RangeOrderOk RO} (now : Z) (key : string) (rps burst : f64)
    (buckets : gmap string bucket.t) :
  size buckets ≤ maxRateLimitKeys →
  let res := allow now key rps burst buckets in
  size res.1 ≤ maxRateLimitKeys
  ∧ (size buckets < maxRateLimitKeys ∨ is_Some (buckets !! key) → ∀ k, k ≠ key → res.1 !! k = buckets !! k)
  ∧ (F64.leb rps F64.zero_ = false → buckets !! key = None →
     res.2 = negb (F64.ltb (if F64.leb burst F64.zero_ then rps else burst) (F64.ofZ 1))).
Proof.
  intros Hs res. unfold res, allow. destruct (F64.leb rps F64.zero_); [done|].
  set (bst := if F64.leb burst F64.zero_ then rps else burst).
  assert (∀ b x, size b < maxRateLimitKeys ∨ size b ≤ maxRateLimitKeys ∧ is_Some ((b : gmap string bucket.t) !! key) →
    size (<[key := x]> b) ≤ maxRateLimitKeys) as Hins.
  { intros b x [Hb|[Hb Hk]]; [|by rewrite map_size_insert_Some]. rewrite map_size_insert. destruct (b !! key); unfold id; lia. }
  destruct (buckets !! key) as [b|] eqn:Hk.
  - set (tok := if (0 <? _)%Z then _ else _).
    assert (∀ x, size (<[key := x]> buckets) ≤ maxRateLimitKeys) by (intros x; apply Hins; right; eauto).
    destruct (F64.ltb tok _); cbn; (split_and!; [done| |done]); intros _ k Hne; by rewrite lookup_insert_ne.
  - set (b := if (_ <=? _)%nat then _ else _).
    assert (size b < maxRateLimitKeys ∧ (size buckets < maxRateLimitKeys → b = buckets)) as [Hb Hsame].
    { unfold b. destruct (Nat.leb_spec maxRateLimitKeys (size buckets)); [|done]. split; [by apply evict_makes_room|lia]. }
    destruct (F64.ltb bst _); cbn; (split_and!; [by apply Hins; left| |done]);
      intros [Hlt|[? ?]] k Hne; try done; by rewrite lookup_insert_ne, Hsame.
Qed.

(** * Witnesses *)

(** A request for shop.example that met the HTTPS listener. *)
Definition shop_request : Request.t :=
  Request.mk "Shop.example:443" "/cart" "/cart" true "203.0.113.7:55000" None None.

Definition fresh_proxy : L7.t := L7.mk "n1" false true ∅ ∅ (Cidrs.mk 0 ∅).


(** A client of the table that no one else is in. *)
Lemma rate_limit_table_bounded_witness :
  size (∅ : gmap string bucket.t) ≤ maxRateLimitKeys
  ∧ (allow (RO := canonical_range) 0 "e1|203.0.113.7" (F64.ofZ 5) (F64.ofZ 10) ∅).2 = true.
Proof.
  assert (size (∅ : gmap string bucket.t) ≤ maxRateLimitKeys) as Hs by (rewrite map_size_empty; lia). split; [exact Hs|].
  rewrite (proj2 (proj2 (@rate_limit_table_bounded canonical_range canonical_range_ok 0 "e1|203.0.113.7" (F64.ofZ 5) (F64.ofZ 10) ∅ Hs)));
    vm_compute; reflexivity.
Defined.

(** An allowlist none of whose entries parses admits every address. *)
Lemma bad_allowlist_admits_all ip l : (∀ s, s ∈ l → parseCIDRs [s] = []) → allowedIP ip (parseCIDRs l) = true.
Proof.
  intros H. assert (parseCIDRs l = []) as ->; [|done]. induction l as [|s l IH]; [done|].
  change (parseCIDRs (s :: l)) with (parseCIDRs ([s] ++ l)). unfold parseCIDRs in *. rewrite omap_app.
  rewrite (H s) by (by left). apply IH. intros s' Hs'. apply H. by right.
Qed.

Lemma bad_allowlist_admits_all_witness : allowedIP "198.51.100.1:80" (parseCIDRs ["10.0.0.0/33"; "office"]) = true.
Proof.
  apply bad_allowlist_admits_all. intros s [->|[->|[]%elem_of_nil]%elem_of_cons]%elem_of_cons; vm_compute; reflexivity.
Defined.

(** * Two projects with an app of one name

    Names of apps are unique in a project, and the cluster subdomain does not name the
    project: of two such environments the one whose id is greater is never reached. *)

Definition twin_app (id project : string) : option App.t := Some (App.mk (sample_meta id) project "web" None None).

Definition twin_env (id app project : string) : option Environment.t :=
  Some (Environment.mk (sample_meta id) app project "production" ENVIRONMENT_TYPE_PRODUCTION (Some web_spec) "r1" 7 0 None 0 None).

Definition twins : Store.t :=
  Store.PutEnvironment (twin_env "e1" "app1" "shop") (Store.PutEnvironment (twin_env "e2" "app2" "bank")
  (Store.PutApp (twin_app "app1" "shop") (Store.PutApp (twin_app "app2" "bank") Store.New))).

Lemma twin_subdomains :
  let snap := Routes.build (RO := canonical_range) "zt.dev" twins in
  (HTTPRoute.ProjectId <$> RouteSnapshot.HttpRoutes snap) = ["shop"; "bank"]
  ∧ (HTTPRoute.Hostname <$> RouteSnapshot.HttpRoutes snap) = ["web-production.zt.dev"; "web-production.zt.dev"]
  ∧ (HTTPRoute.ProjectId <$> matchHTTP snap (Request.mk "web-production.zt.dev" "/" "/" true "" None None)) = Some "shop".
Proof. vm_compute. done. Qed.
