(* ===== verification/Follow.v ===== *)
(** Loops over a map that act on another map key by key: how the nodes' daemons make
    what they run follow what the control plane wants. *)
From S2P Require Import Prelude.

Section keyed.
Context {K : Type} `{Countable K}.

(** The last value of a key wins, as when a map is filled in a loop. *)
Definition insert_all {A B} (key : A → K) (val : A → B) (l : list A) (m : gmap K B) : gmap K B :=
  foldl (λ m x, <[key x := val x]> m) m l.

Lemma insert_all_lookup {A B} (key : A → K) (val : A → B) l m k :
  insert_all key val l m !! k =
    match List.find (λ x, bool_decide (key x = k)) (reverse l) with Some x => Some (val x) | None => m !! k end.
Proof.
  unfold insert_all. induction l as [|x l IH] using rev_ind; [done|]. rewrite foldl_app, reverse_app. cbn.
  case_bool_decide as E; [subst; by rewrite lookup_insert_eq|]. by rewrite lookup_insert_ne.
Qed.

Lemma insert_all_Some {A B} (key : A → K) (val : A → B) l m k y :
  insert_all key val l m !! k = Some y → (∃ x, x ∈ l ∧ key x = k ∧ y = val x) ∨ m !! k = Some y ∧ k ∉ key <$> l.
Proof.
  rewrite insert_all_lookup. destruct (List.find _ _) as [x|] eqn:E.
  - apply find_some in E as [Hin Hk%bool_decide_eq_true]. intros [= <-]. left. exists x. rewrite <- list_elem_of_In, elem_of_reverse in Hin. done.
  - intros Hm. right. split; [done|]. intros (x & -> & Hx)%list_elem_of_fmap.
    assert (In x (reverse l)) as Hin by (by rewrite <- list_elem_of_In, elem_of_reverse).
    by apply (find_none _ _ E x), bool_decide_eq_false in Hin.
Qed.

Lemma insert_all_is_Some {A B} (key : A → K) (val : A → B) l m k :
  is_Some (insert_all key val l m !! k) ↔ k ∈ key <$> l ∨ is_Some (m !! k).
Proof.
  split.
  - intros [y [(x & Hx & <- & _)|[Hm _]]%insert_all_Some]; [left; apply list_elem_of_fmap; eauto|right; eauto].
  - rewrite insert_all_lookup. destruct (List.find _ _) as [x|] eqn:E; [by eexists|].
    intros [(x & -> & Hx)%list_elem_of_fmap|?]; [|done].
    assert (In x (reverse l)) as Hin by (by rewrite <- list_elem_of_In, elem_of_reverse).
    by apply (find_none _ _ E x), bool_decide_eq_false in Hin.
Qed.

(** A loop over the entries of [w] whose step at a key changes only that key of [m], in
    any order. *)
Lemma foldl_pointwise {A B} (f : K → A → option B → option B) (step : gmap K B → K * A → gmap K B)
    (w : gmap K A) l (m : gmap K B) k :
  l ≡ₚ map_to_list w →
  (∀ m k a, step m (k, a) !! k = f k a (m !! k)) → (∀ m k a j, j ≠ k → step m (k, a) !! j = m !! j) →
  foldl step m l !! k = match w !! k with Some a => f k a (m !! k) | None => m !! k end.
Proof.
  intros Hl Hat Hoff. assert (NoDup l.*1) as Hnd by (rewrite Hl; apply NoDup_fst_map_to_list).
  assert (∀ l m, NoDup l.*1 → foldl step m l !! k
    = match list_find (λ x, x.1 = k) l with Some (_, x) => f k x.2 (m !! k) | None => m !! k end) as Hfold.
  { clear m l Hl Hnd. induction l as [|[j a] l IH]; intros m Hnd; cbn; [done|]. apply NoDup_cons in Hnd as [Hj Hnd].
    rewrite IH by done. destruct (decide (j = k)) as [->|Hne].
    - assert (list_find (λ x, x.1 = k) l = None) as ->.
      { apply list_find_None, Forall_forall. intros x Hx <-. apply Hj. apply list_elem_of_fmap. by exists x. }
      by rewrite Hat.
    - destruct (list_find _ l) as [[i x]|]; cbn; by rewrite Hoff. }
  rewrite Hfold by done. destruct (list_find _ _) as [[i [j a]]|] eqn:E.
  - apply list_find_Some in E as (Hi & <- & _). apply list_elem_of_lookup_2 in Hi. rewrite Hl in Hi.
    apply elem_of_map_to_list in Hi. cbn in *. by rewrite Hi.
  - apply list_find_None in E. rewrite Forall_forall in E. destruct (w !! k) as [a|] eqn:Hw; [|done].
    destruct (E (k, a)); [by rewrite Hl, elem_of_map_to_list|done].
Qed.
End keyed.

Lemma foldl_range_pointwise {RO : RangeOrder} {ROk : RangeOrderOk RO} {A B} (f : string → A → option B → option B)
    (step : gmap string B → string * A → gmap string B) (w : gmap string A) (m : gmap string B) k :
  (∀ m k a, step m (k, a) !! k = f k a (m !! k)) → (∀ m k a j, j ≠ k → step m (k, a) !! j = m !! j) →
  foldl step m (range w) !! k = match w !! k with Some a => f k a (m !! k) | None => m !! k end.
Proof. apply foldl_pointwise, range_perm. Qed.
