(* ===== verification/AgentSync.v ===== *)
(** The control side of an agent's stream (internal/daemon/api/agentsync.go): the set of
    assignments a node is sent, with what it needs to run them, and the way back of
    what it observes.  The goroutines of a stream are its operations, called in any
    order; what they read of the state they read at once.  Values of a map that was
    decoded from the wire are never nil. *)
From stdpp Require Import pretty.
From S2P Require Import Prelude Api Watch State StateInv StateEquiv StoreProps Fsm Samples Platform Leader Orchestrator Control.
From S2P Require Import Rpc Apps Follow.

(** * Messages (api/proto/zattera/cluster/v1/agent.proto) *)

Module AssignmentRuntime.
Record t := mk {
  ImageRef : string;
  Spec : option ServiceSpec.t;
  Env : gmap string string;
  SubnetCidr : string;
  VolumeLease : option VolumeLease.t
}.
End AssignmentRuntime.

Module AssignmentSet.
Record t := mk {
  Version : Z;
  Assignments : list (option Assignment.t);
  Runtime : gmap string AssignmentRuntime.t
}.
End AssignmentSet.

Module AgentHello.
Record t := mk { NodeId : string; BinaryVersion : string; AssignmentVersion : Z }.
End AgentHello.

Module AgentSync.

Section runtime.
Context {RO : RangeOrder} {V : VaultLib}.

(** The service a container runs: of a one-shot job the command, and no probes.  The
    clone of a nil spec is nil, and setting its command panics. *)
Definition runtime_spec (st : Store.t) (a : option Assignment.t) (rel : option Release.t) : outcome (option ServiceSpec.t) :=
  let spec := rel ⇝ Release.Service in
  let jobID := a ⇝ Assignment.JobId in
  if jobID =? "" then Ret spec
  else match Store.Job jobID st with
  | None => Ret spec
  | Some job =>
    if job ⇝ Job.Command =? "" then Ret spec
    else match spec with
    | None => Panic
    | Some spec =>
      Ret (Some (spec <| ServiceSpec.Command := job ⇝ Job.Command |> <| ServiceSpec.Healthcheck := None |>))
    end
  end.

(** The lease of the first volume of a stateful service. *)
Definition runtime_lease (st : Store.t) (a : option Assignment.t) (spec : option ServiceSpec.t) : option VolumeLease.t :=
  if spec ⇝ ServiceSpec.Stateful then
    match spec ⇝ ServiceSpec.Volumes with
    | [] => None
    | vol :: _ =>
      match Store.VolumeByName (a ⇝ Assignment.ProjectId) (a ⇝ Assignment.EnvironmentId) (vol ⇝ VolumeMount.VolumeName) st with
      | Some v => v ⇝ Volume.Lease
      | None => None
      end
    end
  else None.

Definition injectPlatformEnv (st : Store.t) (a : option Assignment.t) (rel : option Release.t) (env : gmap string string) :
    gmap string string :=
  let env := match rel ⇝ Release.Service ⇝ ServiceSpec.Ports with
    | p :: _ =>
      if (0 <? p ⇝ PortSpec.ContainerPort)%Z then
        match env !! "PORT" with
        | None => <["PORT" := pretty (p ⇝ PortSpec.ContainerPort)]> env
        | Some _ => env
        end
      else env
    | [] => env
    end in
  let env := match Store.Environment (a ⇝ Assignment.EnvironmentId) st with
    | Some envRec => if envRec ⇝ Environment.Name =? "" then env else <["ZATTERA_ENV" := envRec ⇝ Environment.Name]> env
    | None => env
    end in
  match Store.App (a ⇝ Assignment.AppId) st with
  | Some app => if app ⇝ App.Name =? "" then env else <["ZATTERA_APP" := app ⇝ App.Name]> env
  | None => env
  end.

(** [None] when the release is unknown.  Variables that cannot be opened are left out. *)
Definition buildRuntime (unsealed : bool) (st : Store.t) (a : option Assignment.t) : outcome (option AssignmentRuntime.t) :=
  match Store.Release (a ⇝ Assignment.ReleaseId) st with
  | None => Ret None
  | Some rel =>
    spec ← runtime_spec st a rel;
    let subnet := default "" (Store.NetworkAllocation (a ⇝ Assignment.ProjectId) (a ⇝ Assignment.EnvironmentId)
      (a ⇝ Assignment.NodeId) st) in
    let env := if unsealed then omap Open (Store.EnvVars (a ⇝ Assignment.EnvironmentId) st) else ∅ in
    Ret (Some (AssignmentRuntime.mk (rel ⇝ Release.ImageRef) spec (injectPlatformEnv st a rel env) subnet
      (runtime_lease st a spec)))
  end.

Definition add_runtime (unsealed : bool) (st : Store.t) (m : gmap string AssignmentRuntime.t) (a : option Assignment.t) :
    outcome (gmap string AssignmentRuntime.t) :=
  rt ← buildRuntime unsealed st a;
  match rt with
  | Some rt => Ret (<[GetId a := rt]> m)
  | None => Ret m
  end.

(** The message a node is sent. *)
Definition sendAssignments (unsealed : bool) (nodeID : string) (st : Store.t) : outcome AssignmentSet.t :=
  let assignments := Store.ListAssignmentsByNode nodeID st in
  runtime ← ofoldl (add_runtime unsealed st) ∅ assignments;
  Ret (AssignmentSet.mk (Store.Version st) assignments runtime).

(** Whether a stream that opens is sent the set at once. *)
Definition sends_first (st : Store.t) (knownVersion : Z) : bool := negb (Store.Version st =? knownVersion)%Z.

End runtime.

(** * Reports *)

(** The latest report of each assignment since the last flush. *)
Notation buffer := (gmap string AssignmentObserved.t).

(** A report without port bindings keeps the buffered ones. *)
Definition coalesce (prev : option AssignmentObserved.t) (o : AssignmentObserved.t) : AssignmentObserved.t :=
  match prev with
  | Some prev =>
    if bool_decide (AssignmentObserved.MeshPortBindings o = ∅)
       && negb (bool_decide (AssignmentObserved.MeshPortBindings prev = ∅))
    then o <| AssignmentObserved.MeshPortBindings := AssignmentObserved.MeshPortBindings prev |>
    else o
  | None => o
  end.

Section reports.
Context {RO : RangeOrder}.

Definition add (observed : gmap string AssignmentObserved.t) (b : buffer) : buffer :=
  foldl (λ b '(id, o), <[id := coalesce (b !! id) o]> b) b (range observed).

Definition drain (b : buffer) : buffer * buffer := (b, ∅).

Context {TL : TimestampLib} {E : Env}.

(** applyAnywhere of one batch.  A batch that is not committed is lost: the failure is
    logged. *)
Definition flushStatus (nodeID : string) (b : buffer) : M buffer :=
  let '(observed, b) := drain b in
  if bool_decide (observed = ∅) then mret b
  else
    ignore (Apply ("node:" +:+ nodeID)
      (Command_SetAssignmentsObserved (Some (SetAssignmentsObserved.mk nodeID (Some <$> observed)))));;
    mret b.

(** The identity of the node: its certificate's, or over loopback its claim. *)
Definition resolveNodeID (ctx : Ctx.t) (hello : AgentHello.t) : string + code :=
  let claimed := AgentHello.NodeId hello in
  match IdentityFrom ctx with
  | Some id =>
    if negb (Identity.NodeID id =? "") then
      if negb (claimed =? "") && negb (claimed =? Identity.NodeID id) then inr PermissionDenied
      else inl (Identity.NodeID id)
    else if claimed =? "" then inr InvalidArgument else inl claimed
  | None => if claimed =? "" then inr InvalidArgument else inl claimed
  end.

(** The version a node reports, written only when it changed. *)
Definition recordNodeVersion (nodeID reported : string) : M () :=
  if reported =? "" then mret ()
  else
    st ← read;
    match Store.Node nodeID st with
    | None => mret ()
    | Some node =>
      if node ⇝ Node.BinaryVersion =? reported then mret ()
      else
        node ← deref node;
        ignore (Apply "system:agent-sync"
          (Command_PutNode (Some (PutNode.mk (Some (node <| Node.BinaryVersion := reported |>))))))
    end.

End reports.
End AgentSync.

(** * The way back: a flush against the reports one by one *)

Section flush.
Context {RO : RangeOrder} {ROk : RangeOrderOk RO}.
Import AgentSync.
Notation AO := AssignmentObserved.t.

Lemma add_lookup observed b id :
  add observed b !! id = match observed !! id with Some o => Some (coalesce (b !! id) o) | None => b !! id end.
Proof.
  unfold add. rewrite (foldl_range_pointwise (λ id o prev, Some (coalesce prev o))
    (λ b '(id, o), <[id := coalesce (b !! id) o]> b)); [done|intros; by rewrite lookup_insert_eq|intros; by rewrite lookup_insert_ne].
Qed.

(** What the buffer holds after some batches. *)
Definition buffered (batches : list (gmap string AO)) : buffer := foldl (λ b m, add m b) ∅ batches.

(** The reports of one assignment in them. *)
Definition reports (id : string) (batches : list (gmap string AO)) : list AO := omap (.!! id) batches.

Lemma buffered_lookup id batches :
  buffered batches !! id = foldl (λ p o, Some (coalesce p o)) None (reports id batches).
Proof.
  unfold buffered, reports. induction batches as [|m batches IH] using rev_ind; [done|].
  rewrite foldl_app, omap_app, foldl_app, <- IH. cbn. rewrite add_lookup. by destruct (m !! id).
Qed.

(** The last bindings reported. *)
Definition bindings (os : list AO) (m : gmap string Z) : gmap string Z :=
  foldl (λ m o, if bool_decide (AssignmentObserved.MeshPortBindings o = ∅) then m else AssignmentObserved.MeshPortBindings o) m os.

Lemma bindings_from os m : bindings os m = if bool_decide (bindings os ∅ = ∅) then m else bindings os ∅.
Proof.
  unfold bindings. induction os as [|o os IH] using rev_ind; [done|]. rewrite !foldl_app. cbn.
  destruct (bool_decide (AssignmentObserved.MeshPortBindings o = ∅)) eqn:E; [exact IH|]. by rewrite E.
Qed.

(** Coalescing keeps the last report, with the last bindings. *)
Lemma coalesced_spec os o :
  foldl (λ p o, Some (coalesce p o)) None (os ++ [o])
  = Some (o <| AssignmentObserved.MeshPortBindings := bindings (os ++ [o]) ∅ |>).
Proof.
  revert o. induction os as [|o' os IH] using rev_ind; intros o.
  - cbn. destruct o as [? ? ? ? ? ? mpb]. unfold bindings. cbn. by case_bool_decide; subst.
  - rewrite foldl_app, IH. cbn -[bindings]. f_equal. unfold coalesce. cbn -[bindings].
    assert (bindings ((os ++ [o']) ++ [o]) ∅
      = if bool_decide (AssignmentObserved.MeshPortBindings o = ∅) then bindings (os ++ [o']) ∅ else AssignmentObserved.MeshPortBindings o)
      as -> by (unfold bindings; rewrite foldl_app; done).
    destruct o as [? ? ? ? ? ? mpb]. cbn -[bindings]. case_bool_decide as Hm; cbn -[bindings]; [|done].
    case_bool_decide as Hb; cbn -[bindings]; [|done]. by rewrite Hb, Hm.
Qed.

(** An assignment as routing and scheduling read it: the copy of the bindings inside the
    report is not read. *)
Definition without_copy (a : Assignment.t) : Assignment.t :=
  a <| Assignment.Observed ::= fmap (λ o, o <| AssignmentObserved.MeshPortBindings := ∅ |>) |>.

Lemma without_copy_set a x y :
  without_copy (a <| Assignment.Observed := x |> <| Assignment.MeshPortBindings := y |>)
  = a <| Assignment.Observed := (λ o, o <| AssignmentObserved.MeshPortBindings := ∅ |>) <$> x |>
      <| Assignment.MeshPortBindings := y |>.
Proof. by destruct a. Qed.

Definition observe_all (a : Assignment.t) (os : list AO) : Assignment.t :=
  foldl (λ a o, Store.observe_assignment a (Some o)) a os.

(** A RUNNING report may follow only RUNNING ones in a batch. *)
Definition calm (os : list AO) : Prop :=
  Forall (λ o, AssignmentObserved.State o = INSTANCE_STATE_RUNNING) os
  ∨ ∃ os' o, os = os' ++ [o] ∧ AssignmentObserved.State o ≠ INSTANCE_STATE_RUNNING.

Lemma observe_all_snoc a os o : observe_all a (os ++ [o]) = Store.observe_assignment (observe_all a os) (Some o).
Proof. unfold observe_all. by rewrite foldl_app. Qed.

Lemma observe_assignment_eq (a : Assignment.t) (o : AO) :
  Store.observe_assignment a (Some o)
  = a <| Assignment.Observed := Store.merge_observed (Assignment.Observed a) (Some o) |>
      <| Assignment.MeshPortBindings :=
        if bool_decide (AssignmentObserved.MeshPortBindings o = ∅) then Assignment.MeshPortBindings a
        else AssignmentObserved.MeshPortBindings o |>.
Proof. unfold Store.observe_assignment. cbn. destruct a. by case_bool_decide. Qed.

(** The fields reports do not touch, and the bindings. *)
Lemma observe_all_shape a os :
  observe_all a os = a <| Assignment.Observed := Assignment.Observed (observe_all a os) |>
                       <| Assignment.MeshPortBindings := bindings os (Assignment.MeshPortBindings a) |>.
Proof.
  induction os as [|o os IH] using rev_ind; [by destruct a|]. rewrite observe_all_snoc, observe_assignment_eq.
  assert (bindings (os ++ [o]) (Assignment.MeshPortBindings a)
    = if bool_decide (AssignmentObserved.MeshPortBindings o = ∅) then bindings os (Assignment.MeshPortBindings a)
      else AssignmentObserved.MeshPortBindings o) as -> by (unfold bindings; by rewrite foldl_app).
  set (x := observe_all a os) in *. clearbody x. destruct a, x. unfold set in *. cbn -[bindings] in IH |- *.
  injection IH as -> -> -> -> -> -> -> -> -> -> ->. done.
Qed.

(** The state a RUNNING report would keep. *)
Definition kept_state (o : option AO) : option InstanceState :=
  let st := o ⇝ AssignmentObserved.State in
  if decide (st = INSTANCE_STATE_HEALTHY ∨ st = INSTANCE_STATE_UNHEALTHY) then Some st else None.

Lemma merge_running_eq cur o :
  AssignmentObserved.State o = INSTANCE_STATE_RUNNING →
  Store.merge_observed cur (Some o) = Some (match kept_state cur with Some st => o <| AssignmentObserved.State := st |> | None => o end).
Proof. intros Ho. unfold Store.merge_observed, kept_state. cbn. rewrite Ho. rewrite decide_True by done. by case_decide. Qed.

Lemma kept_running a os :
  Forall (λ o, AssignmentObserved.State o = INSTANCE_STATE_RUNNING) os →
  kept_state (Assignment.Observed (observe_all a os)) = kept_state (Assignment.Observed a).
Proof.
  induction os as [|o os IH] using rev_ind; intros H; [done|]. apply Forall_app in H as [H Ho]. apply Forall_cons in Ho as [Ho _].
  rewrite observe_all_snoc, observe_assignment_eq. cbn. rewrite merge_running_eq by done. rewrite (IH H).
  unfold kept_state at 1. destruct (kept_state (Assignment.Observed a)) as [st|] eqn:E; cbn.
  - unfold kept_state in E. case_decide as Hst; [|done]. injection E as <-. by rewrite decide_True.
  - rewrite Ho. by rewrite decide_False by (intros [|]; done).
Qed.

(** One coalesced report leaves what the reports one by one leave. *)
Lemma coalesced_report a os :
  calm os →
  match foldl (λ p o, Some (coalesce p o)) None os with
  | Some c => without_copy (Store.observe_assignment a (Some c)) = without_copy (observe_all a os)
  | None => os = []
  end.
Proof.
  destruct os as [|o os _] using rev_ind; [done|]. intros Hc. rewrite coalesced_spec.
  set (c := o <| AssignmentObserved.MeshPortBindings := _ |>).
  rewrite (observe_all_shape a (os ++ [o])), observe_assignment_eq.
  assert ((λ o, o <| AssignmentObserved.MeshPortBindings := ∅ |>) <$> Store.merge_observed (Assignment.Observed a) (Some c)
    = (λ o, o <| AssignmentObserved.MeshPortBindings := ∅ |>) <$> Assignment.Observed (observe_all a (os ++ [o]))) as Hobs.
  { rewrite observe_all_snoc, observe_assignment_eq. cbn [Assignment.Observed set].
    destruct (decide (AssignmentObserved.State o = INSTANCE_STATE_RUNNING)) as [Hr|Hr].
    - assert (Forall (λ o, AssignmentObserved.State o = INSTANCE_STATE_RUNNING) os) as Hall.
      { destruct Hc as [Hall|(os' & o' & [-> [= ->]]%app_inj_tail & Hne)]; [by apply Forall_app in Hall as [? _]|done]. }
      transitivity ((λ o, o <| AssignmentObserved.MeshPortBindings := ∅ |>) <$> Store.merge_observed (Assignment.Observed (observe_all a os)) (Some o)).
      + rewrite !merge_running_eq by done. rewrite (kept_running _ _ Hall). unfold c. destruct o. by destruct (kept_state _).
      + done.
    - unfold Store.merge_observed. cbn. rewrite !decide_False by done. unfold c. by destruct o. }
  rewrite !without_copy_set, Hobs. f_equal.
  unfold c. cbn -[bindings]. symmetry. rewrite bindings_from. by destruct a.
Qed.

Lemma SetAssignmentObserved_total node m s :
  (∀ id, Store.assignments s !! id ≠ Some None) →
  ∃ s', Store.SetAssignmentObserved node m s = Ret s' ∧ ∀ id, Store.assignments s' !! id ≠ Some None.
Proof.
  intros Hs. unfold Store.SetAssignmentObserved.
  apply (ofoldl_total (λ s, ∀ id, Store.assignments s !! id ≠ Some None)); [|done].
  intros s1 [id obs] Hs1 _. rewrite setObserved_eq. unfold observed_upd.
  destruct (Store.assignments s1 !! id) as [[a|]|] eqn:Ha; [|by destruct (Hs1 id)|eauto].
  cbn. destruct (_ =? node); cbn; eexists; (split; [done|]); [|done].
  intros id'. unfold Store.touch. get_set. destruct (decide (id' = id)) as [->|Hne]; [by rewrite lookup_insert_eq|by rewrite lookup_insert_ne].
Qed.

Lemma SetAssignmentObserved_lookup node m s s' id :
  Store.SetAssignmentObserved node (Some <$> m) s = Ret s' →
  Store.assignments s' !! id = reported node (Some <$> m) id <$> Store.assignments s !! id.
Proof.
  unfold Store.SetAssignmentObserved. intros Hs.
  rewrite <- (list_to_map_range (Some <$> m)). eapply setObserved_loop; [apply NoDup_fst_range|done].
Qed.

(** What the state holds of an assignment when every batch is applied by itself. *)
Definition one_by_one (node : string) (batches : list (gmap string AO)) (s : Store.t) : outcome Store.t :=
  ofoldl (λ s m, Store.SetAssignmentObserved node (Some <$> m) s) s batches.

Definition all_reported (node : string) (os : list AO) (a : option Assignment.t) : option Assignment.t :=
  match a with
  | Some a' => if Assignment.NodeId a' =? node then Some (observe_all a' os) else a
  | None => a
  end.

Lemma one_by_one_lookup node batches s s' id :
  one_by_one node batches s = Ret s' →
  Store.assignments s' !! id = all_reported node (reports id batches) <$> Store.assignments s !! id.
Proof.
  unfold one_by_one, reports. revert s. induction batches as [|m batches IH]; intros s.
  - intros [= ->]. destruct (Store.assignments s' !! id) as [[a|]|]; [|done..]. cbn. by case_match.
  - rewrite ofoldl_cons. destruct (Store.SetAssignmentObserved _ _ s) as [s1|] eqn:E; [|done]. intros Hl.
    rewrite (IH s1 Hl), (SetAssignmentObserved_lookup _ _ _ _ _ E), <- option_fmap_compose. apply option_fmap_ext. intros a.
    unfold compose, reported. rewrite lookup_fmap. cbn [omap list_omap]. destruct (m !! id) as [o|]; cbn [fmap option_fmap option_map]; [|done].
    destruct a as [a|]; [|done]. cbn. destruct (Assignment.NodeId a =? node) eqn:Hn.
    + cbn. rewrite observe_assignment_eq at 1. cbn. by rewrite Hn.
    + cbn. by rewrite Hn.
Qed.
End flush.

(** Batching loses no report that matters.  For every node, state and sequence of
    batches in which a coarse RUNNING report follows only RUNNING ones of the same
    assignment, one flush of the buffer leaves in every assignment what the batches
    leave when they are applied one by one: state, container, message, exit code, and
    the port bindings that routing needs although later reports lack them. *)
Theorem flush_equals_reports (RO : RangeOrder) (ROk : RangeOrderOk RO) (node : string)
    (batches : list (gmap string AssignmentObserved.t)) (s : Store.t) :
  (∀ id, Store.assignments s !! id ≠ Some None) → (∀ id, calm (reports id batches)) →
  ∃ s1 s2, Store.SetAssignmentObserved node (Some <$> buffered batches) s = Ret s1
    ∧ one_by_one node batches s = Ret s2
    ∧ ∀ id, fmap without_copy <$> Store.assignments s1 !! id = fmap without_copy <$> Store.assignments s2 !! id.
Proof.
  intros Hs Hc. destruct (SetAssignmentObserved_total node (Some <$> buffered batches) s Hs) as (s1 & H1 & _).
  destruct (ofoldl_total (λ s, ∀ id, Store.assignments s !! id ≠ Some None)
    (λ s m, Store.SetAssignmentObserved node (Some <$> m) s) batches s) as (s2 & H2 & _); [|done|].
  { intros s' m Hs' _. by apply SetAssignmentObserved_total. }
  exists s1, s2. split_and!; [done..|]. intros id.
  rewrite (SetAssignmentObserved_lookup _ _ _ _ id H1), (one_by_one_lookup _ _ _ _ id H2), <- !option_fmap_compose.
  apply option_fmap_ext. intros a. unfold compose, reported. rewrite lookup_fmap, buffered_lookup.
  destruct a as [a|]; [|by destruct (foldl _ _ _)]. pose proof (coalesced_report a _ (Hc id)) as Hr. cbn.
  destruct (foldl _ None (reports id batches)) as [c|]; cbn; destruct (_ =? node); cbn; try done; [by rewrite Hr|by rewrite Hr].
Qed.

(** When the health manager's HEALTHY and the coarse RUNNING of the liveness poll meet in
    one batch, HEALTHY is lost: applied one by one the second would not have replaced
    it. *)
Lemma batching_loses_health a h r :
  AssignmentObserved.State h = INSTANCE_STATE_HEALTHY → AssignmentObserved.State r = INSTANCE_STATE_RUNNING →
  kept_state (Assignment.Observed a) = None →
  ∃ c, foldl (λ p o, Some (AgentSync.coalesce p o)) None [h; r] = Some c
    ∧ Assignment.Observed (Store.observe_assignment a (Some c)) ⇝ AssignmentObserved.State = INSTANCE_STATE_RUNNING
    ∧ Assignment.Observed (observe_all a [h; r]) ⇝ AssignmentObserved.State = INSTANCE_STATE_HEALTHY.
Proof.
  intros Hh Hr Ha. eexists. split; [apply (coalesced_spec [h] r)|]. split.
  - rewrite observe_assignment_eq. cbn -[bindings]. rewrite merge_running_eq by done. by rewrite Ha.
  - change [h; r] with ([h] ++ [r]). rewrite observe_all_snoc, observe_assignment_eq. cbn. rewrite merge_running_eq by done.
    rewrite observe_assignment_eq. cbn. unfold Store.merge_observed. cbn. rewrite Hh.
    rewrite decide_False by done. unfold kept_state. cbn. rewrite Hh. rewrite decide_True by (by left). cbn. done.
Qed.

(** * The set a node is sent *)

Section sent.
Context {RO : RangeOrder} {ROk : RangeOrderOk RO} {V : VaultLib}.
Import AgentSync.

(** What an assignment's runtime says of the state. *)
Definition runtime_of (unsealed : bool) (st : Store.t) (a : option Assignment.t) (rel : option Release.t)
    (rt : AssignmentRuntime.t) : Prop :=
  AssignmentRuntime.ImageRef rt = rel ⇝ Release.ImageRef
  ∧ (a ⇝ Assignment.JobId = "" → AssignmentRuntime.Spec rt = rel ⇝ Release.Service)
  ∧ AssignmentRuntime.Spec rt ⇝ ServiceSpec.Stateful = rel ⇝ Release.Service ⇝ ServiceSpec.Stateful
  ∧ AssignmentRuntime.Spec rt ⇝ ServiceSpec.Volumes = rel ⇝ Release.Service ⇝ ServiceSpec.Volumes
  ∧ (∀ l, AssignmentRuntime.VolumeLease rt = Some l →
       AssignmentRuntime.Spec rt ⇝ ServiceSpec.Stateful = true
       ∧ ∃ v vm rest, AssignmentRuntime.Spec rt ⇝ ServiceSpec.Volumes = vm :: rest
         ∧ Store.VolumeByName (a ⇝ Assignment.ProjectId) (a ⇝ Assignment.EnvironmentId) (vm ⇝ VolumeMount.VolumeName) st = Some v
         ∧ v ⇝ Volume.Lease = Some l)
  ∧ (∀ subnet, Store.NetworkAllocation (a ⇝ Assignment.ProjectId) (a ⇝ Assignment.EnvironmentId) (a ⇝ Assignment.NodeId) st = Some subnet →
       AssignmentRuntime.SubnetCidr rt = subnet)
  ∧ (∀ k v, k ≠ "ZATTERA_ENV" → k ≠ "ZATTERA_APP" → unsealed = true →
       Store.EnvVars (a ⇝ Assignment.EnvironmentId) st !! k ≫= Open = Some v → AssignmentRuntime.Env rt !! k = Some v)
  ∧ (∀ app, Store.apps st !! (a ⇝ Assignment.AppId) = Some app → app ⇝ App.Name ≠ "" →
       AssignmentRuntime.Env rt !! "ZATTERA_APP" = Some (app ⇝ App.Name))
  ∧ (∀ env, Store.environments st !! (a ⇝ Assignment.EnvironmentId) = Some env → env ⇝ Environment.Name ≠ "" →
       AssignmentRuntime.Env rt !! "ZATTERA_ENV" = Some (env ⇝ Environment.Name)).

(** A command of a job never replaces a service that is not there. *)
Definition services_set (st : Store.t) : Prop := ∀ id rel, Store.releases st !! id = Some rel → rel ⇝ Release.Service ≠ None.

Lemma runtime_spec_ok st a rel :
  rel ⇝ Release.Service ≠ None → ∃ spec, runtime_spec st a rel = Ret spec
    ∧ (a ⇝ Assignment.JobId = "" → spec = rel ⇝ Release.Service)
    ∧ spec ⇝ ServiceSpec.Stateful = rel ⇝ Release.Service ⇝ ServiceSpec.Stateful
    ∧ spec ⇝ ServiceSpec.Volumes = rel ⇝ Release.Service ⇝ ServiceSpec.Volumes.
Proof.
  intros Hs. unfold runtime_spec. destruct (_ =? "") eqn:Hj; [by eexists|]. apply str_eqb_neq in Hj.
  destruct (Store.Job _ st) as [job|]; [|by eexists]. destruct (job ⇝ Job.Command =? ""); [by eexists|].
  destruct (rel ⇝ Release.Service) as [spec|]; [|done]. eexists. split; [done|]. by destruct spec.
Qed.

Lemma injected st a rel env :
  (∀ k v, k ≠ "ZATTERA_ENV" → k ≠ "ZATTERA_APP" → env !! k = Some v → injectPlatformEnv st a rel env !! k = Some v)
  ∧ (∀ app, Store.apps st !! (a ⇝ Assignment.AppId) = Some app → app ⇝ App.Name ≠ "" →
       injectPlatformEnv st a rel env !! "ZATTERA_APP" = Some (app ⇝ App.Name))
  ∧ (∀ e, Store.environments st !! (a ⇝ Assignment.EnvironmentId) = Some e → e ⇝ Environment.Name ≠ "" →
       injectPlatformEnv st a rel env !! "ZATTERA_ENV" = Some (e ⇝ Environment.Name)).
Proof.
  unfold injectPlatformEnv, Store.Environment, Store.App. set (env1 := match rel ⇝ _ ⇝ _ with [] => _ | _ => _ end).
  assert (∀ k v, env !! k = Some v → env1 !! k = Some v) as H1.
  { intros k v Hk. unfold env1. destruct (_ ⇝ ServiceSpec.Ports) as [|p ps]; [done|]. destruct (0 <? _)%Z; [|done].
    destruct (env !! "PORT") eqn:Hp; [done|]. rewrite lookup_insert_ne; [done|]. intros <-. congruence. }
  clearbody env1. split_and!.
  - intros k v Hn1 Hn2 Hk%H1. destruct (Store.environments st !! _) as [e|]; [destruct (e ⇝ _ =? "")|];
      (destruct (Store.apps st !! _) as [app|]; [destruct (app ⇝ _ =? "")|]); by rewrite ?lookup_insert_ne by done.
  - intros app -> Hn. apply str_eqb_neq in Hn. rewrite Hn. by rewrite lookup_insert_eq.
  - intros e -> Hn. apply str_eqb_neq in Hn. rewrite Hn.
    destruct (Store.apps st !! _) as [app|]; [destruct (app ⇝ _ =? "")|]; rewrite ?lookup_insert_ne by done; by rewrite lookup_insert_eq.
Qed.

Lemma buildRuntime_spec unsealed st a :
  services_set st →
  match Store.releases st !! (a ⇝ Assignment.ReleaseId) with
  | None => buildRuntime unsealed st a = Ret None
  | Some rel => ∃ rt, buildRuntime unsealed st a = Ret (Some rt) ∧ runtime_of unsealed st a rel rt
  end.
Proof.
  intros Hs. unfold buildRuntime, Store.Release. destruct (Store.releases st !! _) as [rel|] eqn:Hr; [|done].
  destruct (runtime_spec_ok st a rel (Hs _ _ Hr)) as (spec & -> & Hspec & Hst & Hvol). eexists. split; [reflexivity|].
  destruct (injected st a rel (if unsealed then omap Open (Store.EnvVars (a ⇝ Assignment.EnvironmentId) st) else ∅)) as (I1 & I2 & I3).
  unfold runtime_of. cbn. split_and!; [done..| | |by intros subnet ->| |done|done].
  - exact Hvol.
  - unfold runtime_lease. intros l. destruct (_ ⇝ ServiceSpec.Stateful); [|done]. destruct (_ ⇝ ServiceSpec.Volumes) as [|vm rest]; [done|].
    destruct (Store.VolumeByName _ _ _ st) as [v|] eqn:Hv; [|done]. intros Hl. split; [done|]. by exists v, vm, rest.
  - intros k v H1 H2 -> Hk. apply I1; [done..|]. by rewrite lookup_omap.
Qed.

(** What the runtimes say of an assignment. *)
Definition has_runtime (unsealed : bool) (st : Store.t) (m : gmap string AssignmentRuntime.t) (a : option Assignment.t) : Prop :=
  match Store.releases st !! (a ⇝ Assignment.ReleaseId), m !! GetId a with
  | Some rel, Some rt => runtime_of unsealed st a rel rt
  | None, None => True
  | _, _ => False
  end.

Lemma add_runtime_spec unsealed st m a :
  services_set st → m !! GetId a = None →
  ∃ m', add_runtime unsealed st m a = Ret m' ∧ (∀ k, k ≠ GetId a → m' !! k = m !! k) ∧ has_runtime unsealed st m' a.
Proof.
  intros Hs Hm. pose proof (buildRuntime_spec unsealed st a Hs) as Hb. unfold add_runtime, has_runtime.
  destruct (Store.releases st !! _) as [rel|].
  - destruct Hb as (rt & -> & Hrt). eexists. split; [reflexivity|]. split; [intros; by apply lookup_insert_ne|].
    by rewrite lookup_insert_eq.
  - rewrite Hb. exists m. split_and!; [done..|]. by rewrite Hm.
Qed.

Lemma add_runtimes unsealed st l m :
  services_set st → NoDup (GetId <$> l) → (∀ a, a ∈ l → m !! GetId a = None) →
  ∃ m', ofoldl (add_runtime unsealed st) m l = Ret m'
    ∧ (∀ k, k ∉ GetId <$> l → m' !! k = m !! k) ∧ ∀ a, a ∈ l → has_runtime unsealed st m' a.
Proof.
  intros Hs. revert m. induction l as [|a l IH]; intros m Hnd Hm.
  { exists m. split_and!; [done..|]. by intros a ?%elem_of_nil. }
  rewrite fmap_cons in Hnd. apply NoDup_cons in Hnd as [Ha Hnd]. rewrite ofoldl_cons.
  destruct (add_runtime_spec unsealed st m a Hs) as (m1 & -> & Hoff & Hat); [by apply Hm; left|].
  destruct (IH m1 Hnd) as (m' & Hm' & Hother & Hin).
  { intros b Hb. rewrite Hoff; [apply Hm; by right|]. intros Heq. apply Ha. rewrite <- Heq. apply list_elem_of_fmap. eauto. }
  exists m'. split; [exact Hm'|]. split.
  - intros k Hk. rewrite fmap_cons, not_elem_of_cons in Hk. destruct Hk as [Hk1 Hk2]. rewrite Hother by done. by apply Hoff.
  - intros b [->|Hb]%elem_of_cons; [|by apply Hin]. unfold has_runtime. by rewrite Hother.
Qed.
End sent.

Lemma sent_set {RO : RangeOrder} {ROk : RangeOrderOk RO} {V : VaultLib} (unsealed : bool) (node : string)
    (st : Store.t) :
  wf st → services_set st →
  ∃ set, AgentSync.sendAssignments unsealed node st = Ret set
    ∧ (∀ a, a ∈ AssignmentSet.Assignments set ↔ a ⇝ Assignment.NodeId = node ∧ ∃ id, Store.assignments st !! id = Some a)
    ∧ NoDup (GetId <$> AssignmentSet.Assignments set)
    ∧ StronglySorted (not_less (key_less GetId)) (AssignmentSet.Assignments set)
    ∧ ∀ a, a ∈ AssignmentSet.Assignments set → has_runtime unsealed st (AssignmentSet.Runtime set) a.
Proof.
  intros Hwf Hs. unfold AgentSync.sendAssignments. rewrite (ListAssignmentsByNode_eq _ _ Hwf).
  set (l := Store.sortByID _).
  assert (NoDup (GetId <$> l)) as Hnd.
  { unfold l, Store.sortByID. rewrite sort_slice_perm. apply NoDup_fmap_filter, NoDup_ids_range; [done|apply Hwf]. }
  destruct (add_runtimes unsealed st l ∅ Hs Hnd) as (m & -> & _ & Hin); [intros; apply lookup_empty|].
  eexists. split; [reflexivity|]. cbn. split_and!; [|done|apply sort_key_sorted|done].
  intros a. unfold l, Store.sortByID. rewrite sort_slice_perm, elem_of_Filter, elem_of_range_values, str_eqb_eq. tauto.
Qed.

Lemma sent_runtimes {RO : RangeOrder} {ROk : RangeOrderOk RO} {V : VaultLib} unsealed node st set :
  wf st → services_set st → AgentSync.sendAssignments unsealed node st = Ret set →
  NoDup (GetId <$> AssignmentSet.Assignments set)
  ∧ ∀ a, a ∈ AssignmentSet.Assignments set → has_runtime unsealed st (AssignmentSet.Runtime set) a.
Proof.
  intros Hwf Hs Hset. destruct (sent_set unsealed node st Hwf Hs) as (set' & Hset' & _ & Hnd & _ & Hrt).
  rewrite Hset in Hset'. by injection Hset' as <-.
Qed.

(** A node is sent its assignments, with what the state says of them.  A well-formed
    state whose releases have services yields a set that holds just the node's
    assignments, each once and in the order of their ids; an assignment has a runtime
    just when its release is known, and then the release's image and service (of a job,
    its command), the node's subnet for the environment, the lease of the service's
    first volume, and the environment's variables, which PORT respects and the
    identity of the platform overrides. *)
Theorem agent_set_reflects_state (RO : RangeOrder) (ROk : RangeOrderOk RO) (V : VaultLib) (unsealed : bool) (node : string)
    (st : Store.t) :
  wf st → services_set st →
  ∃ set, AgentSync.sendAssignments unsealed node st = Ret set
    ∧ (∀ a, a ∈ AssignmentSet.Assignments set ↔ a ⇝ Assignment.NodeId = node ∧ ∃ id, Store.assignments st !! id = Some a)
    ∧ NoDup (GetId <$> AssignmentSet.Assignments set)
    ∧ StronglySorted (not_less (key_less GetId)) (AssignmentSet.Assignments set)
    ∧ ∀ a, a ∈ AssignmentSet.Assignments set → has_runtime unsealed st (AssignmentSet.Runtime set) a.
Proof. by apply sent_set. Qed.

(** * Witnesses *)

Definition seen (state : InstanceState) (ports : gmap string Z) : AssignmentObserved.t :=
  AssignmentObserved.mk state "c1" 0 0 "" None ports.

Definition reported_instance : option Assignment.t :=
  Some (Assignment.mk (sample_meta "a1") "n1" "proj" "app" "e1" "r1" "" ASSIGNMENT_DESIRED_RUN "cfg" ∅ None "").

(** RUNNING with its ports, then HEALTHY without them. *)
Definition coming_up : list (gmap string AssignmentObserved.t) :=
  [{["a1" := seen INSTANCE_STATE_RUNNING {["http" := 31000%Z]}]}; {["a1" := seen INSTANCE_STATE_HEALTHY ∅]}].

Lemma flush_equals_reports_witness :
  ∃ s1 s2, Store.SetAssignmentObserved (RO := canonical_range) "n1" (Some <$> buffered (RO := canonical_range) coming_up)
      (Store.PutAssignments [reported_instance] Store.New) = Ret s1
    ∧ one_by_one (RO := canonical_range) "n1" coming_up (Store.PutAssignments [reported_instance] Store.New) = Ret s2
    ∧ fmap without_copy <$> Store.assignments s1 !! "a1" = fmap without_copy <$> Store.assignments s2 !! "a1".
Proof.
  destruct (flush_equals_reports canonical_range canonical_range_ok "n1" coming_up
    (Store.PutAssignments [reported_instance] Store.New)) as (s1 & s2 & H1 & H2 & H).
  - intros id. change (Store.assignments (Store.PutAssignments [reported_instance] Store.New))
      with (<["a1" := reported_instance]> (∅ : gmap string (option Assignment.t))).
    intros [[_ H]|[_ H]]%lookup_insert_Some; [discriminate H|by rewrite lookup_empty in H].
  - intros id. unfold calm, coming_up, reports. cbn. destruct (decide (id = "a1")) as [->|Hne].
    + right. exists [seen INSTANCE_STATE_RUNNING {["http" := 31000%Z]}], (seen INSTANCE_STATE_HEALTHY ∅).
      split; [vm_compute; reflexivity|discriminate].
    + left. rewrite !lookup_singleton_ne by (intros <-; by apply Hne). constructor.
  - exists s1, s2. split; [exact H1|]. split; [exact H2|]. apply H.
Defined.

(** Node n1 with one instance of a release. *)
Definition one_instance (rel : option Release.t) (vol : option Volume.t) : Store.t :=
  Store.PutAssignments [reported_instance] (Store.PutVolume vol (Store.PutRelease rel Store.New)).

Definition stateful_spec : ServiceSpec.t :=
  ServiceSpec.mk None None None [] None false 0 true [Some (VolumeMount.mk "data" "/data")] [] None "" ∅ None.

Definition leased_data : option Volume.t :=
  Some (Volume.mk (sample_meta "v1") "proj" "e1" "data" "n1" VOLUME_STATUS_ACTIVE (Some (VolumeLease.mk "n1" "a1" None)) None 0).

Definition stateful_store : Store.t := one_instance (Some (sample_release "r1" "e1" 1 stateful_spec)) leased_data.

Lemma wf_stateful_store : wf stateful_store.
Proof. unfold stateful_store, one_instance. auto 20 with store_wf. Qed.

Lemma services_stateful_store : services_set stateful_store.
Proof.
  intros id rel. change (Store.releases stateful_store)
    with (<["r1" := Some (sample_release "r1" "e1" 1 stateful_spec)]> (∅ : gmap string (option Release.t))).
  intros [[_ <-]|[_ H]]%lookup_insert_Some; [discriminate|by rewrite lookup_empty in H].
Qed.

(** Nothing can be opened. *)
Definition sealed_vault : VaultLib := Build_VaultLib (λ _, false) (λ _ _, None) (λ _, None).

Lemma agent_set_reflects_state_witness :
  ∃ set, AgentSync.sendAssignments (RO := canonical_range) (V := sealed_vault) false "n1" stateful_store = Ret set
    ∧ reported_instance ∈ AssignmentSet.Assignments set
    ∧ has_runtime (RO := canonical_range) (V := sealed_vault) false stateful_store (AssignmentSet.Runtime set) reported_instance.
Proof.
  destruct (agent_set_reflects_state canonical_range canonical_range_ok sealed_vault false "n1" stateful_store
    wf_stateful_store services_stateful_store) as (set & Hset & Hin & _ & _ & Hrt).
  assert (reported_instance ∈ AssignmentSet.Assignments set) as Ha.
  { apply Hin. split; [reflexivity|]. exists "a1". vm_compute. reflexivity. }
  exists set. split; [exact Hset|]. split; [exact Ha|]. apply Hrt, Ha.
Defined.
