(* ===== verification/Health.v ===== *)
(** Health probes of instances (internal/daemon/agent/health.go): the schedule, the
    state machine of one instance, and the choice of what to probe.  The probes
    themselves (HTTP, TCP, exec) are I/O; durations are nanoseconds. *)
From stdpp Require Import pretty.
From S2P Require Import Prelude Api Watch State Platform Orchestrator Net.
From Stdlib Require Import Ascii.

(** * The container engine's data (internal/daemon/runtime/types.go) *)

Module PortBinding.
Record t := mk {
  Name : string;
  ContainerPort : Z;
  Protocol : string;
  HostIP : string;
  HostPort : Z
}.
End PortBinding.

(** What is read of an inspected container. *)
Module ContainerState.
Record t := mk {
  Running : bool;
  Restarting : bool;
  ExitCode : Z;
  Ports : list PortBinding.t;
  IPAddress : string
}.
End ContainerState.

Module Health.

Definition defaultProbeInterval : Z := (10 * second)%Z.
Definition defaultProbeTimeout : Z := (5 * second)%Z.
Definition defaultProbeGrace : Z := (60 * second)%Z.
Definition defaultProbeThreshold : Z := 3.

Module HealthConfig.
Record t := mk { Interval : Z; Timeout : Z; Grace : Z; Threshold : Z }.
End HealthConfig.

Section health.
Context {TL : TimestampLib}.

Definition resolveHealthConfig (hc : option HealthCheck.t) : HealthConfig.t :=
  let dur d def := if (0 <? AsDuration d)%Z then AsDuration d else def in
  match hc with
  | None => HealthConfig.mk defaultProbeInterval defaultProbeTimeout defaultProbeGrace defaultProbeThreshold
  | Some hc =>
    HealthConfig.mk (dur (HealthCheck.Interval hc) defaultProbeInterval) (dur (HealthCheck.Timeout hc) defaultProbeTimeout)
      (dur (HealthCheck.GracePeriod hc) defaultProbeGrace)
      (if (0 <? HealthCheck.UnhealthyThreshold hc)%Z then HealthCheck.UnhealthyThreshold hc else defaultProbeThreshold)
  end.
End health.

(** * The state machine of one instance *)

Module healthSM.
Record t := mk { cfg : HealthConfig.t; state : InstanceState; passedOnce : bool; fails : Z }.
End healthSM.

Definition newHealthSM (cfg : HealthConfig.t) : healthSM.t := healthSM.mk cfg INSTANCE_STATE_RUNNING false 0.

(** One probe result: the machine, its state and whether it is to be reported. *)
Definition observe (s : healthSM.t) (pass : bool) (elapsed : Z) : healthSM.t * InstanceState * bool :=
  let cfg := healthSM.cfg s in
  if pass then
    if negb (bool_decide (healthSM.state s = INSTANCE_STATE_HEALTHY))
    then (healthSM.mk cfg INSTANCE_STATE_HEALTHY true 0, INSTANCE_STATE_HEALTHY, true)
    else (healthSM.mk cfg (healthSM.state s) true 0, healthSM.state s, false)
  else
    let s := healthSM.mk cfg (healthSM.state s) (healthSM.passedOnce s) (healthSM.fails s + 1) in
    if bool_decide (healthSM.state s = INSTANCE_STATE_HEALTHY) then
      if (HealthConfig.Threshold cfg <=? healthSM.fails s)%Z
      then (healthSM.mk cfg INSTANCE_STATE_UNHEALTHY (healthSM.passedOnce s) (healthSM.fails s), INSTANCE_STATE_UNHEALTHY, true)
      else (s, healthSM.state s, false)
    else if negb (healthSM.passedOnce s) then
      if (HealthConfig.Grace cfg <=? elapsed)%Z && (HealthConfig.Threshold cfg <=? healthSM.fails s)%Z
      then (healthSM.mk cfg INSTANCE_STATE_UNHEALTHY (healthSM.passedOnce s) (healthSM.fails s), INSTANCE_STATE_UNHEALTHY, true)
      else (s, healthSM.state s, false)
    else (s, healthSM.state s, false).

(** * What is probed *)

Inductive Probe :=
| httpProbe (url : string)
| tcpProbe (addr : string)
| execProbe (containerID command : string).

Definition healthPort (hc : option HealthCheck.t) (spec : option ServiceSpec.t) : Z :=
  if (0 <? hc ⇝ HealthCheck.Port)%Z then hc ⇝ HealthCheck.Port
  else match spec ⇝ ServiceSpec.Ports with
  | p :: _ => p ⇝ PortSpec.ContainerPort
  | [] => 0%Z
  end.

(** net.JoinHostPort *)
Definition JoinHostPort (host port : string) : string :=
  match IndexByte host ":" with
  | Some _ => "[" +:+ host +:+ "]:" +:+ port
  | None => host +:+ ":" +:+ port
  end.

Definition probeTarget (useHostPort : bool) (containerPort : Z) (st : ContainerState.t) (hostIP : string) : option string :=
  if useHostPort then
    match List.find (λ b, (PortBinding.ContainerPort b =? containerPort)%Z && negb (PortBinding.HostPort b =? 0)%Z)
        (ContainerState.Ports st) with
    | Some b =>
      let host := PortBinding.HostIP b in
      let host := if (host =? "") || (host =? "0.0.0.0") then hostIP else host in
      Some (JoinHostPort host (pretty (PortBinding.HostPort b)))
    | None => None
    end
  else if (ContainerState.IPAddress st =? "") || (containerPort =? 0)%Z then None
  else Some (JoinHostPort (ContainerState.IPAddress st) (pretty containerPort)).

(** The kind of a probe: by default HTTP for a service with ports. *)
Definition probe_type (hc : HealthCheck.t) (spec : option ServiceSpec.t) : HealthCheckType :=
  if bool_decide (HealthCheck.Type_ hc = HEALTH_CHECK_TYPE_UNSPECIFIED) then
    match spec ⇝ ServiceSpec.Ports with [] => HEALTH_CHECK_TYPE_TCP | _ => HEALTH_CHECK_TYPE_HTTP end
  else HealthCheck.Type_ hc.

(** [inspected] is the answer of the engine, asked for every kind but exec. *)
Definition buildProbe (useHostPort : bool) (hostIP : string) (hc : HealthCheck.t) (spec : option ServiceSpec.t)
    (containerID : string) (inspected : option ContainerState.t) : option Probe :=
  let typ := probe_type hc spec in
  if bool_decide (typ = HEALTH_CHECK_TYPE_EXEC) then Some (execProbe containerID (HealthCheck.Command hc))
  else match inspected with
  | None => None
  | Some st =>
    match probeTarget useHostPort (healthPort (Some hc) spec) st hostIP with
    | None => None
    | Some addr =>
      if bool_decide (typ = HEALTH_CHECK_TYPE_HTTP) then
        let path := if HealthCheck.Path hc =? "" then "/healthz" else HealthCheck.Path hc in
        let path := if HasPrefix path "/" then path else "/" +:+ path in
        Some (httpProbe ("http://" +:+ addr +:+ path))
      else Some (tcpProbe addr)
    end
  end.

End Health.

(** * The verdict of a history *)

Section verdict.
Import Health.

(** Probe results with the time since the start, oldest first. *)
Notation history := (list (bool * Z)).

Definition run (cfg : HealthConfig.t) (h : history) : healthSM.t :=
  foldl (λ s '(pass, elapsed), (observe s pass elapsed).1.1) (newHealthSM cfg) h.

(** Failures since the last pass. *)
Definition trailing (h : history) : Z := foldl (λ n '(pass, _), if pass : bool then 0 else n + 1)%Z 0%Z h.

Definition passed (h : history) : bool := existsb fst h.

(** Some failure came after the grace period and after enough others. *)
Definition gave_up (cfg : HealthConfig.t) (h : history) : Prop :=
  ∃ h1 elapsed h2, h = h1 ++ (false, elapsed) :: h2 ∧ (HealthConfig.Grace cfg ≤ elapsed)%Z
    ∧ (HealthConfig.Threshold cfg ≤ Z.of_nat (length h1) + 1)%Z.

Lemma trailing_unpassed h : passed h = false → trailing h = Z.of_nat (length h).
Proof.
  unfold passed, trailing. induction h as [|[p e] h IH] using rev_ind; [done|].
  rewrite existsb_app, foldl_app, length_app. cbn. rewrite !orb_false_iff. intros (H & -> & _). rewrite IH by done. lia.
Qed.

Lemma gave_up_snoc cfg h p e :
  gave_up cfg (h ++ [(p, e)]) ↔ gave_up cfg h
    ∨ p = false ∧ (HealthConfig.Grace cfg ≤ e)%Z ∧ (HealthConfig.Threshold cfg ≤ Z.of_nat (length h) + 1)%Z.
Proof.
  split.
  - intros (h1 & e' & h2 & Heq & Hg & Ht). destruct h2 as [|x h2 _] using rev_ind.
    + apply app_inj_tail in Heq as [<- [= -> ->]]. by right.
    + rewrite app_comm_cons, app_assoc in Heq. apply app_inj_tail in Heq as [-> _]. left. by exists h1, e', h2.
  - intros [(h1 & e' & h2 & -> & Hg & Ht)|(-> & Hg & Ht)].
    + exists h1, e', (h2 ++ [(p, e)]). by rewrite <- app_assoc.
    + by exists h, e, [].
Qed.

Lemma run_cfg cfg h : healthSM.cfg (run cfg h) = cfg.
Proof.
  unfold run. induction h as [|[p e] h IH] using rev_ind; [done|]. rewrite foldl_app. cbn. unfold observe.
  by repeat case_match; simplify_eq/=.
Qed.

Lemma gave_up_exists cfg h :
  passed h = false →
  gave_up cfg h ↔ existsb (λ '(i, (_, e)), (HealthConfig.Grace cfg <=? e)%Z && (HealthConfig.Threshold cfg <=? Z.of_nat i + 1)%Z)
    (zip (seq 0 (length h)) h) = true.
Proof.
  induction h as [|[p e] h IH] using rev_ind; intros Hp.
  { split; [|done]. by intros ([|] & ? & ? & ? & _). }
  unfold passed in Hp. rewrite existsb_app in Hp. cbn in Hp. rewrite !orb_false_iff in Hp. destruct Hp as (Hp & -> & _).
  rewrite gave_up_snoc, (IH Hp), length_app. cbn. rewrite seq_app, zip_with_app by (by rewrite length_seq).
  rewrite existsb_app, orb_true_iff. cbn. rewrite orb_false_r, andb_true_iff, !Z.leb_le. tauto.
Qed.

#[local] Ltac verdicts :=
  split_and!; try done; split; intros; repeat (destruct_and? || destruct_or?); simplify_eq; try done; try lia;
  try (split_and?; try done; try lia); try tauto; try (left; split; (done || lia)); try (right; split; (done || tauto || lia));
  try (intros [?|(_ & ? & ?)]; [tauto|lia]).

(** What the fields of the machine mean, and its state. *)
Lemma run_spec cfg h :
  (0 < HealthConfig.Threshold cfg)%Z →
  healthSM.passedOnce (run cfg h) = passed h ∧ healthSM.fails (run cfg h) = trailing h
  ∧ (healthSM.state (run cfg h) = INSTANCE_STATE_HEALTHY ↔ passed h = true ∧ (trailing h < HealthConfig.Threshold cfg)%Z)
  ∧ (healthSM.state (run cfg h) = INSTANCE_STATE_UNHEALTHY ↔
       (passed h = true ∧ (HealthConfig.Threshold cfg ≤ trailing h)%Z) ∨ (passed h = false ∧ gave_up cfg h))
  ∧ (healthSM.state (run cfg h) = INSTANCE_STATE_RUNNING ↔ passed h = false ∧ ¬ gave_up cfg h).
Proof.
  intros Ht. induction h as [|[p e] h IH] using rev_ind.
  { assert (¬ gave_up cfg []) as Hn by (intros (h1 & e & h2 & Heq & _); by destruct h1).
    revert Hn. cbn. generalize (gave_up cfg []) as G. intros G Hn. verdicts. }
  destruct IH as (Hp & Hf & H). revert H.
  assert (run cfg (h ++ [(p, e)]) = (observe (run cfg h) p e).1.1) as -> by (unfold run; by rewrite foldl_app).
  assert (trailing (h ++ [(p, e)]) = if p then 0 else trailing h + 1)%Z as -> by (unfold trailing; by rewrite foldl_app).
  assert (passed (h ++ [(p, e)]) = passed h || p) as -> by (unfold passed; rewrite existsb_app; cbn; by rewrite orb_false_r).
  rewrite gave_up_snoc. pose proof (trailing_unpassed h) as Hlen.
  unfold observe. rewrite run_cfg, Hp, Hf. generalize (gave_up cfg h) as G. intros G (Hh & Hu & Hr).
  destruct p.
  - rewrite orb_true_r. case_bool_decide as Hst; cbn; rewrite ?Hst; verdicts.
  - rewrite orb_false_r. cbn [healthSM.state healthSM.passedOnce healthSM.fails]. case_bool_decide as Hst.
    + apply Hh in Hst as Hps. destruct Hps as [Hps Htr]. rewrite Hps.
      destruct (Z.leb_spec (HealthConfig.Threshold cfg) (trailing h + 1)); cbn; rewrite ?Hst; verdicts.
    + destruct (passed h) eqn:Hps; cbn.
      * assert (HealthConfig.Threshold cfg ≤ trailing h)%Z by (destruct (Z.lt_ge_cases (trailing h) (HealthConfig.Threshold cfg)); [by destruct Hst; apply Hh|done]).
        rewrite Hh, Hu, Hr. verdicts.
      * specialize (Hlen eq_refl).
        destruct (Z.leb_spec (HealthConfig.Grace cfg) e), (Z.leb_spec (HealthConfig.Threshold cfg) (trailing h + 1)); cbn;
          rewrite ?Hh, ?Hu, ?Hr; verdicts.
Qed.
End verdict.

(** The verdict on an instance is a function of its probes.  For every schedule and
    history of results the machine says HEALTHY just when a probe has passed and fewer
    failures than the threshold followed the last pass; UNHEALTHY just when the
    threshold was reached after a pass, or, without any pass, by a failure after the
    grace period; and RUNNING otherwise.  No single failure below the threshold takes an
    instance out, and none does during the grace period of one that has not passed. *)
Theorem health_verdict (cfg : Health.HealthConfig.t) (h : list (bool * Z)) :
  (0 < Health.HealthConfig.Threshold cfg)%Z →
  Health.healthSM.state (run cfg h) =
    if passed h then if (trailing h <? Health.HealthConfig.Threshold cfg)%Z then INSTANCE_STATE_HEALTHY else INSTANCE_STATE_UNHEALTHY
    else if existsb (λ '(i, (_, e)), (Health.HealthConfig.Grace cfg <=? e)%Z && (Health.HealthConfig.Threshold cfg <=? Z.of_nat i + 1)%Z)
      (zip (seq 0 (length h)) h) then INSTANCE_STATE_UNHEALTHY else INSTANCE_STATE_RUNNING.
Proof.
  intros Ht. destruct (run_spec cfg h Ht) as (_ & _ & Hh & Hu & Hr). destruct (passed h) eqn:Hp.
  - destruct (Z.ltb_spec (trailing h) (Health.HealthConfig.Threshold cfg)); [by apply Hh|by apply Hu; left].
  - destruct (existsb _ _) eqn:He.
    + apply Hu. right. split; [done|]. by apply gave_up_exists.
    + apply Hr. split; [done|]. intros Hg%gave_up_exists; [congruence|done].
Qed.

(** A report follows a change only, but for an instance that never passed: it is reported
    UNHEALTHY again at every further failure. *)
Lemma unhealthy_repeats cfg n :
  Health.HealthConfig.Threshold cfg = 1%Z → (Health.HealthConfig.Grace cfg ≤ 0)%Z →
  Health.observe (run cfg (replicate (S n) (false, 0%Z))) false 0
  = (run cfg (replicate (S (S n)) (false, 0%Z)), INSTANCE_STATE_UNHEALTHY, true).
Proof.
  intros Ht Hg. assert (∀ m, run cfg (replicate m (false, 0%Z))
    = Health.healthSM.mk cfg (if decide (m = 0) then INSTANCE_STATE_RUNNING else INSTANCE_STATE_UNHEALTHY) false (Z.of_nat m)) as H.
  { induction m as [|m IH]; [done|]. rewrite replicate_S_end. unfold run in *. rewrite foldl_app, IH. unfold Health.observe. cbn.
    rewrite Ht, (proj2 (Z.leb_le _ _) Hg). destruct m as [|m]; [done|]. rewrite !decide_False by done.
    rewrite bool_decide_eq_false_2 by done. cbn [andb].
    destruct (Z.leb_spec 1 (Z.of_nat (S m) + 1)); [|lia]. cbn [fst]. f_equal; lia. }
  rewrite (H (S n)), (H (S (S n))). unfold Health.observe. cbn [Health.healthSM.cfg Health.healthSM.state Health.healthSM.passedOnce Health.healthSM.fails negb].
  rewrite Ht, (proj2 (Z.leb_le _ _) Hg). rewrite !decide_False by done. rewrite bool_decide_eq_false_2 by done. cbn [andb].
  destruct (Z.leb_spec 1 (Z.of_nat (S n) + 1)); [|lia]. do 3 f_equal; lia.
Qed.

Lemma health_verdict_witness :
  Health.healthSM.state (run (Health.resolveHealthConfig (TL := wellknown_times) None)
    [(false, 10000000000%Z); (true, 20000000000%Z); (false, 30000000000%Z)]) = INSTANCE_STATE_HEALTHY.
Proof.
  rewrite health_verdict; vm_compute; reflexivity.
Defined.
