(* ===== verification/Executor.v ===== *)
(** The executor of a node (internal/daemon/agent/executor.go, with the health manager
    of health.go): it makes the containers of the node follow the set of assignments
    it was sent.  The container engine is a parameter: what it answers is any function
    of the number of calls so far.  A program records its calls and its reports. *)
From stdpp Require Import pretty.
From S2P Require Import Prelude Api Watch State StateInv StoreProps Fsm Samples Platform Leader Orchestrator Control Rpc Apps.
From S2P Require Import Follow Net Networks Health AgentSync.
Import Health.

(** * The container engine (internal/daemon/runtime/types.go) *)

Module Mount.
Record t := mk { VolumeName : string; HostPath : string; Target : string; ReadOnly : bool }.
End Mount.

Inductive RestartPolicy := RestartNever | RestartOnFailure | RestartUnlessStopped.

(** The fields of a service container. *)
Module ContainerSpec.
Record t := mk {
  Name : string;
  Image : string;
  Command : list string;
  Entrypoint : list string;
  Env : list string;
  Labels : gmap string string;
  Ports : list PortBinding.t;
  Mounts : list Mount.t;
  CPUMillis : Z;
  MemoryMB : Z;
  Restart : RestartPolicy;
  StopGrace : Z;
  Network : string;
  DNS : list string
}.
End ContainerSpec.

Module ContainerInfo.
Record t := mk { ID : string; Labels : gmap string string }.
End ContainerInfo.

Definition ManagedLabel : string := "dev.zattera/managed".
Definition LabelAssignmentID : string := "dev.zattera/assignment-id".
Definition LabelEnvironmentID : string := "dev.zattera/environment-id".
Definition LabelAppID : string := "dev.zattera/app-id".
Definition LabelProjectID : string := "dev.zattera/project-id".
Definition LabelRole : string := "dev.zattera/role".

Inductive call :=
| ListContainers (labels : gmap string string)
| EnsureImage (ref : string)
| EnsureVolume (name : string) (labels : gmap string string)
| EnsureNetwork (name subnet : string) (labels : gmap string string)
| CreateContainer (spec : ContainerSpec.t)
| StartContainer (id : string)
| StopContainer (id : string) (timeout : Z)
| RemoveContainer (id : string) (force : bool)
| InspectContainer (id : string).

(** What the engine answers to the n-th call; an error is its text. *)
Class ContainerRuntime := {
  listed : nat → list ContainerInfo.t + string;
  done_ok : nat → option string;               (* calls without a result *)
  networked : nat → (string * string) + string;  (* the name and gateway *)
  created : nat → string + string;             (* the container id *)
  inspected : nat → option ContainerState.t;
  clock : nat → Z
}.

(** * Programs of the agent *)

Inductive event :=
| Called (c : call)
| Reported (observed : gmap string AssignmentObserved.t).

(** The probe that watches an instance; none for a service without a health check. *)
Module Monitor.
Record t := mk { probe : Probe; cfg : HealthConfig.t }.
End Monitor.

Module Manager.
Record t := mk {
  monitors : gmap string (option Monitor.t);
  warned : gset string
}.
End Manager.

Module Executor.
Record t := mk {
  failCount : gmap string Z;
  failHash : gmap string string;
  health : Manager.t
}.
End Executor.

(** Of the configuration: the node's id and address, and the platform probes. *)
Module ExecutorConfig.
Record t := mk { NodeID : string; HostIP : string; useHostPort : bool }.
End ExecutorConfig.

Module Host.
Record t := mk { exec : Executor.t; tick : nat; log : list event }.
End Host.

Definition Act (A : Type) : Type := Host.t → Host.t * A.

#[export] Instance Act_ret : MRet Act := λ A a h, (h, a).
#[export] Instance Act_bind : MBind Act := λ A B k m h, let '(h, a) := m h in k a h.

(** A call, answered by the number of calls before it. *)
Definition do_call {A} (c : call) (answer : nat → A) : Act A := λ h,
  (Host.mk (Host.exec h) (S (Host.tick h)) (Host.log h ++ [Called c]), answer (Host.tick h)).

Definition get : Act Executor.t := λ h, (h, Host.exec h).
Definition put (e : Executor.t) : Act () := λ h, (Host.mk e (Host.tick h) (Host.log h), ()).

Fixpoint each {A} (l : list A) (f : A → Act ()) : Act () :=
  match l with
  | [] => mret ()
  | x :: l => f x;; each l f
  end.

Module Exec.

Definition labelConfigHash : string := "dev.zattera/config-hash".
Definition labelReleaseID : string := "dev.zattera/release-id".
Definition maxAttempts : Z := 3.
Definition defaultStopGrace : Z := (10 * second)%Z.

Module ownedContainer.
Record t := mk { id : string; assignID : string; labels : gmap string string }.
End ownedContainer.

Definition short (id : string) : string := Networks.short id.

Definition containerName (a : option Assignment.t) : string :=
  let id := GetId a in
  let id := if (8 <? String.length id)%nat then slice id 0 8 else id in
  "zt-" +:+ short (a ⇝ Assignment.AppId) +:+ "-" +:+ short (a ⇝ Assignment.EnvironmentId) +:+ "-" +:+ id.

Definition volumeName (envID vol : string) : string := "zt-" +:+ short envID +:+ "-" +:+ vol.

(** The reason for which a stateful instance may not start; [""] when it may. *)
Definition leaseWithholds (assignmentID nodeID : string) (rt : option AssignmentRuntime.t) : string :=
  let spec := rt ⇝ AssignmentRuntime.Spec in
  if negb (spec ⇝ ServiceSpec.Stateful) || (length (spec ⇝ ServiceSpec.Volumes) =? 0)%nat then ""
  else match rt ⇝ AssignmentRuntime.VolumeLease with
  | None => "waiting for volume lease"
  | Some lease =>
    if negb (VolumeLease.NodeId lease =? nodeID) then "volume leased to another node (" +:+ VolumeLease.NodeId lease +:+ ")"
    else if negb (VolumeLease.AssignmentId lease =? assignmentID) then "volume leased to another instance"
    else ""
  end.

Definition protocol (p : Protocol) : string := if bool_decide (p = PROTOCOL_UDP) then "udp" else "tcp".

Definition labels (a : option Assignment.t) (roleKey : string) : gmap string string :=
  let l := list_to_map [(ManagedLabel, "true"); (LabelAssignmentID, GetId a); (LabelEnvironmentID, a ⇝ Assignment.EnvironmentId);
    (LabelAppID, a ⇝ Assignment.AppId); (LabelProjectID, a ⇝ Assignment.ProjectId); (labelConfigHash, a ⇝ Assignment.ConfigHash);
    (labelReleaseID, a ⇝ Assignment.ReleaseId)] in
  if roleKey =? "" then l else <[roleKey := "service"]> l.

(** Inspected host ports by the name of the port: the last port of a number names it. *)
Definition namedPortBindings (inspected : list PortBinding.t) (ports : list (option PortSpec.t)) : gmap string Z :=
  let nameByPort : gmap Z string := foldl (λ m p, <[p ⇝ PortSpec.ContainerPort := p ⇝ PortSpec.Name]> m) ∅ ports in
  foldl (λ out b,
    if (PortBinding.HostPort b =? 0)%Z then out
    else
      let name := default "" (nameByPort !! PortBinding.ContainerPort b) in
      if name =? "" then out else <[name := PortBinding.HostPort b]> out) ∅ inspected.

Definition observe (state : InstanceState) (containerID msg : string) (now : option Timestamp.t) : AssignmentObserved.t :=
  AssignmentObserved.mk state containerID 0 0 msg now ∅.

Section executor.
Context {RO : RangeOrder} {TL : TimestampLib} {CR : ContainerRuntime}.
Variable cfg : ExecutorConfig.t.

(** Reading the clock is an interaction, but no call. *)
Definition now : Act (option Timestamp.t) := λ h,
  (Host.mk (Host.exec h) (S (Host.tick h)) (Host.log h), Some (timestamppb_New (clock (Host.tick h)))).

Definition emit (observed : gmap string AssignmentObserved.t) : Act () := λ h,
  (Host.mk (Host.exec h) (Host.tick h) (Host.log h ++ [Reported observed]), ()).

Definition envList (env : gmap string string) : list string :=
  sort_slice str_ltb ((λ '(k, v), k +:+ "=" +:+ v) <$> range env).

Definition sortedKeys (m : gmap string (option Assignment.t)) : list string := sort_slice str_ltb (range m).*1.

(** The listed containers by assignment; one without an assignment is not touched. *)
Definition owned (infos : list ContainerInfo.t) : gmap string ownedContainer.t :=
  foldl (λ out c,
    let aid := default "" (ContainerInfo.Labels c !! LabelAssignmentID) in
    if aid =? "" then out
    else <[aid := ownedContainer.mk (ContainerInfo.ID c) aid (ContainerInfo.Labels c)]> out) ∅ infos.

Definition service_labels : gmap string string := {[ManagedLabel := "true"; LabelRole := "service"]}.

Definition listOwned : Act (option (gmap string ownedContainer.t)) :=
  infos ← do_call (ListContainers service_labels) listed;
  match infos with
  | inr _ => mret None
  | inl infos => mret (Some (owned infos))
  end.

Definition desiredByID (set : AssignmentSet.t) : gmap string (option Assignment.t) :=
  foldl (λ out a,
    if negb (a ⇝ Assignment.NodeId =? "") && negb (ExecutorConfig.NodeID cfg =? "")
       && negb (a ⇝ Assignment.NodeId =? ExecutorConfig.NodeID cfg) then out
    else <[GetId a := a]> out) ∅ (AssignmentSet.Assignments set).

(** * Starting an instance *)

Definition fail_ (id hash msg : string) : Act AssignmentObserved.t :=
  e ← get;
  put (Executor.mk (<[id := (default 0%Z (Executor.failCount e !! id) + 1)%Z]> (Executor.failCount e))
    (<[id := hash]> (Executor.failHash e)) (Executor.health e));;
  t ← now;
  mret (observe INSTANCE_STATE_FAILED "" msg t).

(** The volumes a container mounts, or an error. *)
Fixpoint ensure_mounts (a : option Assignment.t) (vols : list (option VolumeMount.t)) (mounts : list Mount.t) :
    Act (list Mount.t + string) :=
  match vols with
  | [] => mret (inl mounts)
  | vm :: vols =>
    let volName := volumeName (a ⇝ Assignment.EnvironmentId) (vm ⇝ VolumeMount.VolumeName) in
    err ← do_call (EnsureVolume volName (labels a "")) done_ok;
    match err with
    | Some err => mret (inr ("ensure volume " +:+ volName +:+ ": " +:+ err))
    | None => ensure_mounts a vols (mounts ++ [Mount.mk volName "" (vm ⇝ VolumeMount.MountPath) false])
    end
  end.

Definition ensure_network (a : option Assignment.t) (rt : option AssignmentRuntime.t) : Act ((string * list string) + string) :=
  let subnet := rt ⇝ AssignmentRuntime.SubnetCidr in
  if subnet =? "" then mret (inl ("", []))
  else
    let name := Networks.NetworkName (a ⇝ Assignment.ProjectId) (a ⇝ Assignment.EnvironmentId) in
    info ← do_call (EnsureNetwork name subnet (labels a "")) networked;
    match info with
    | inr err => mret (inr ("ensure network " +:+ name +:+ ": " +:+ err))
    | inl (network, gateway) =>
      let gw := if gateway =? "" then default "" (Networks.GatewayIP subnet) else gateway in
      mret (inl (network, if gw =? "" then [] else [gw]))
    end.

Definition containerSpec (a : option Assignment.t) (rt : option AssignmentRuntime.t) : Act (ContainerSpec.t + string) :=
  let spec := rt ⇝ AssignmentRuntime.Spec in
  mounts ← ensure_mounts a (spec ⇝ ServiceSpec.Volumes) [];
  match mounts with
  | inr err => mret (inr err)
  | inl mounts =>
    let ports := (λ p, PortBinding.mk (p ⇝ PortSpec.Name) (p ⇝ PortSpec.ContainerPort) (protocol (p ⇝ PortSpec.Protocol))
      (ExecutorConfig.HostIP cfg) 0) <$> spec ⇝ ServiceSpec.Ports in
    net ← ensure_network a rt;
    match net with
    | inr err => mret (inr err)
    | inl (network, dns) =>
      let c := TrimSpace (spec ⇝ ServiceSpec.Command) in
      let job := negb (a ⇝ Assignment.JobId =? "") in
      let shell := ["/bin/sh"; "-c"; c] in
      let entrypoint := if (c =? "") || negb job then [] else shell in
      let command := if (c =? "") || job then [] else shell in
      let g := AsDuration (spec ⇝ ServiceSpec.StopGrace) in
      let stopGrace := if (0 <? g)%Z then g else defaultStopGrace in
      mret (inl (ContainerSpec.mk (containerName a) (rt ⇝ AssignmentRuntime.ImageRef) command entrypoint
        (envList (default ∅ (AssignmentRuntime.Env <$> rt))) (labels a LabelRole) ports mounts
        (spec ⇝ ServiceSpec.Resources ⇝ ResourceLimits.CpuMillis) (spec ⇝ ServiceSpec.Resources ⇝ ResourceLimits.MemoryMb)
        (if job then RestartNever else RestartUnlessStopped) stopGrace network dns))
    end
  end.

(** The counter starts anew when the configuration changed. *)
Definition reset_failures (id hash : string) : Act () :=
  e ← get;
  let h := default "" (Executor.failHash e !! id) in
  if negb (h =? "") && negb (h =? hash)
  then put (Executor.mk (delete id (Executor.failCount e)) (delete id (Executor.failHash e)) (Executor.health e))
  else mret ().

(** Create and start; [None] for a parked assignment. *)
Definition bringUp (a : option Assignment.t) (rt : option AssignmentRuntime.t) : Act (option AssignmentObserved.t) :=
  let id := GetId a in
  let hash := a ⇝ Assignment.ConfigHash in
  let failed msg := o ← fail_ id hash msg; mret (Some o) in
  reset_failures id hash;;
  e ← get;
  if (maxAttempts <=? default 0 (Executor.failCount e !! id))%Z then mret None
  else match rt with
  | None => failed "no runtime payload (image/spec) for assignment"
  | Some _ =>
    let reason := leaseWithholds id (ExecutorConfig.NodeID cfg) rt in
    if negb (reason =? "") then t ← now; mret (Some (observe INSTANCE_STATE_PENDING "" reason t))
    else
      t ← now;
      emit {[id := observe INSTANCE_STATE_PULLING "" "" t]};;
      err ← do_call (EnsureImage (rt ⇝ AssignmentRuntime.ImageRef)) done_ok;
      match err with
      | Some err => failed ("pull " +:+ rt ⇝ AssignmentRuntime.ImageRef +:+ ": " +:+ err)
      | None =>
        spec ← containerSpec a rt;
        match spec with
        | inr err => failed err
        | inl spec =>
          cid ← do_call (CreateContainer spec) created;
          match cid with
          | inr err => failed ("create: " +:+ err)
          | inl cid =>
            t ← now;
            emit {[id := observe INSTANCE_STATE_STARTING cid "" t]};;
            err ← do_call (StartContainer cid) done_ok;
            match err with
            | Some err =>
              _ ← do_call (RemoveContainer cid true) done_ok;
              failed ("start: " +:+ err)
            | None =>
              e ← get;
              put (Executor.mk (delete id (Executor.failCount e)) (delete id (Executor.failHash e)) (Executor.health e));;
              t ← now;
              let obs := observe INSTANCE_STATE_RUNNING cid "" t in
              st ← do_call (InspectContainer cid) inspected;
              mret (Some (match st with
                | Some st => obs <| AssignmentObserved.MeshPortBindings :=
                    namedPortBindings (ContainerState.Ports st) (rt ⇝ AssignmentRuntime.Spec ⇝ ServiceSpec.Ports) |>
                | None => obs
                end))
            end
          end
        end
      end
  end.

Definition stopAndRemove (c : ownedContainer.t) : Act () :=
  _ ← do_call (StopContainer (ownedContainer.id c) 0) done_ok;
  _ ← do_call (RemoveContainer (ownedContainer.id c) true) done_ok;
  mret ().

(** * The health manager (health.go) *)

Definition with_health (f : Manager.t → Manager.t) : Act () :=
  e ← get; put (Executor.mk (Executor.failCount e) (Executor.failHash e) (f (Executor.health e))).

Definition Remove (assignID : string) : Act () :=
  with_health (λ m, Manager.mk (delete assignID (Manager.monitors m)) (Manager.warned m ∖ {[assignID]})).

Definition Reconcile (live : gset string) : Act () :=
  with_health (λ m, Manager.mk (filter (λ kv, kv.1 ∈ live) (Manager.monitors m)) (Manager.warned m ∩ live)).

Definition Ensure (a : option Assignment.t) (spec : option ServiceSpec.t) (containerID : string) : Act () :=
  let id := GetId a in
  e ← get;
  match Manager.monitors (Executor.health e) !! id with
  | Some _ => mret ()
  | None =>
    match spec ⇝ ServiceSpec.Healthcheck with
    | None =>
      with_health (λ m, Manager.mk (<[id := None]> (Manager.monitors m)) (Manager.warned m));;
      t ← now;
      emit {[id := AssignmentObserved.mk INSTANCE_STATE_HEALTHY containerID 0 0 "" t ∅]}
    | Some hc =>
      st ← (if bool_decide (probe_type hc spec = HEALTH_CHECK_TYPE_EXEC) then mret None
            else do_call (InspectContainer containerID) inspected);
      match buildProbe (ExecutorConfig.useHostPort cfg) (ExecutorConfig.HostIP cfg) hc spec containerID st with
      | None => with_health (λ m, Manager.mk (Manager.monitors m) (Manager.warned m ∪ {[id]}))
      | Some probe =>
        with_health (λ m, Manager.mk (<[id := Some (Monitor.mk probe (resolveHealthConfig (Some hc)))]> (Manager.monitors m))
          (Manager.warned m ∖ {[id]}))
      end
    end
  end.

(** * A pass *)

(** A container the assignment does not want, and one that it keeps. *)
Definition unwanted (desired : gmap string (option Assignment.t)) (c : ownedContainer.t) : bool :=
  match desired !! ownedContainer.assignID c with
  | None => true
  | Some a => negb (bool_decide (a ⇝ Assignment.Desired = ASSIGNMENT_DESIRED_RUN))
      || negb (default "" (ownedContainer.labels c !! labelConfigHash) =? a ⇝ Assignment.ConfigHash)
  end.

Definition toRemove (desired : gmap string (option Assignment.t)) (current : gmap string ownedContainer.t) : list ownedContainer.t :=
  sort_slice (key_less ownedContainer.assignID) (List.filter (unwanted desired) (range_values current)).

Definition adopted (desired : gmap string (option Assignment.t)) (current : gmap string ownedContainer.t) :
    gmap string ownedContainer.t := filter (λ kc, unwanted desired kc.2 = false) current.

(** The containers of stopped assignments are reported, each at its own time. *)
Fixpoint stopped_reports (desired : gmap string (option Assignment.t)) (l : list (string * ownedContainer.t))
    (observed : gmap string AssignmentObserved.t) : Act (gmap string AssignmentObserved.t) :=
  match l with
  | [] => mret observed
  | (id, c) :: l =>
    match desired !! id with
    | Some a =>
      if bool_decide (a ⇝ Assignment.Desired = ASSIGNMENT_DESIRED_RUN) then stopped_reports desired l observed
      else
        t ← now;
        stopped_reports desired l (<[id := observe INSTANCE_STATE_STOPPED (ownedContainer.id c) "" t]> observed)
    | None => stopped_reports desired l observed
    end
  end.

(** Starts what has no container; what is observed and what is live after it. *)
Fixpoint run_pass (desired : gmap string (option Assignment.t)) (runtimes : gmap string AssignmentRuntime.t)
    (kept : gmap string ownedContainer.t) (ids : list string) (observed : gmap string AssignmentObserved.t)
    (live : gmap string string) : Act (gmap string AssignmentObserved.t * gmap string string) :=
  match ids with
  | [] => mret (observed, live)
  | id :: ids =>
    let a := default None (desired !! id) in
    if negb (bool_decide (a ⇝ Assignment.Desired = ASSIGNMENT_DESIRED_RUN)) || bool_decide (is_Some (kept !! id))
    then run_pass desired runtimes kept ids observed live
    else
      obs ← bringUp a (runtimes !! id);
      match obs with
      | None => run_pass desired runtimes kept ids observed live
      | Some obs =>
        run_pass desired runtimes kept ids (<[id := obs]> observed)
          (if bool_decide (AssignmentObserved.State obs = INSTANCE_STATE_RUNNING)
           then <[id := AssignmentObserved.ContainerId obs]> live else live)
      end
  end.

Definition reconcile (set : option AssignmentSet.t) : Act () :=
  match set with
  | None => mret ()
  | Some set =>
    let desired := desiredByID set in
    let runtimes := AssignmentSet.Runtime set in
    current ← listOwned;
    match current with
    | None => mret ()
    | Some current =>
      observed ← stopped_reports desired (range current) ∅;
      each (toRemove desired current) (λ c, stopAndRemove c;; Remove (ownedContainer.assignID c));;
      let kept := adopted desired current in
      '(observed, live) ← run_pass desired runtimes kept (sortedKeys desired) observed (ownedContainer.id <$> kept);
      (if bool_decide (observed = ∅) then mret () else emit observed);;
      Reconcile (dom live);;
      each (range live) (λ '(id, cid), Ensure (default None (desired !! id)) ((runtimes !! id) ⇝ AssignmentRuntime.Spec) cid)
    end
  end.

(** The conversion to 32 bits. *)
Definition int32 (z : Z) : Z := ((z + 2 ^ 31) mod 2 ^ 32 - 2 ^ 31)%Z.

(** The state of one container, reported between pushes. *)
Definition liveness (runtimes : gmap string AssignmentRuntime.t) (id cid : string) (st : ContainerState.t) (t : option Timestamp.t) :
    AssignmentObserved.t :=
  if ContainerState.Restarting st then
    (observe INSTANCE_STATE_FAILED cid ("crash-looping: last exit code " +:+ pretty (ContainerState.ExitCode st)) t)
      <| AssignmentObserved.ExitCode := int32 (ContainerState.ExitCode st) |>
  else if ContainerState.Running st then
    (observe INSTANCE_STATE_RUNNING cid "" t)
      <| AssignmentObserved.MeshPortBindings :=
        namedPortBindings (ContainerState.Ports st) ((runtimes !! id) ⇝ AssignmentRuntime.Spec ⇝ ServiceSpec.Ports) |>
  else if negb (ContainerState.ExitCode st =? 0)%Z then
    (observe INSTANCE_STATE_FAILED cid ("exited with code " +:+ pretty (ContainerState.ExitCode st)) t)
      <| AssignmentObserved.ExitCode := int32 (ContainerState.ExitCode st) |>
  else observe INSTANCE_STATE_STOPPED cid "" t.

Fixpoint poll_each (runtimes : gmap string AssignmentRuntime.t) (l : list (string * ownedContainer.t))
    (observed : gmap string AssignmentObserved.t) : Act (gmap string AssignmentObserved.t) :=
  match l with
  | [] => mret observed
  | (id, c) :: l =>
    st ← do_call (InspectContainer (ownedContainer.id c)) inspected;
    match st with
    | None => poll_each runtimes l observed
    | Some st =>
      t ← now;
      poll_each runtimes l (<[id := liveness runtimes id (ownedContainer.id c) st t]> observed)
    end
  end.

Definition pollLiveness (set : option AssignmentSet.t) : Act () :=
  current ← listOwned;
  match current with
  | None => mret ()
  | Some current =>
    observed ← poll_each (default ∅ (AssignmentSet.Runtime <$> set)) (range current) ∅;
    if bool_decide (observed = ∅) then mret () else emit observed
  end.

(** What the loop does when a set was submitted, and at each tick. *)
Definition on_signal (latest : option AssignmentSet.t) : Act () := reconcile latest.
Definition on_tick (latest : option AssignmentSet.t) : Act () := reconcile latest;; pollLiveness latest.

End executor.
End Exec.
