(* ===== verification/ExecutorProps.v ===== *)
(** Theorems of the executor (Executor.v): what a pass may do to the containers of a
    node, the fencing of stateful instances from the state of the cluster down to the
    container, and the retries of a start. *)
From stdpp Require Import pretty.
From S2P Require Import Prelude Api Watch State StateInv StoreProps Fsm Samples Platform Leader Orchestrator Control Rpc Apps.
From S2P Require Import Follow Net Networks F64 Routes Health AgentSync Executor.
Import Exec.

(** * What a program does *)

(** Every event of the program satisfies [P], and its result [Q]. *)
Definition does {A} (P : event → Prop) (Q : A → Prop) (m : Act A) : Prop :=
  ∀ h, (∃ evs, Host.log (m h).1 = Host.log h ++ evs ∧ Forall P evs) ∧ Q (m h).2.

Section does.
Context (P : event → Prop).

Lemma does_ret {A} (Q : A → Prop) a : Q a → does P Q (mret a : Act A).
Proof. intros H h. split; [|done]. exists []. by rewrite app_nil_r. Qed.

Lemma does_bind {A B} (Q : A → Prop) (R : B → Prop) (m : Act A) (k : A → Act B) :
  does P Q m → (∀ a, Q a → does P R (k a)) → does P R (m ≫= k).
Proof.
  intros Hm Hk h. unfold mbind, Act_bind. destruct (Hm h) as [(e1 & H1 & P1) Hq]. destruct (m h) as [h1 a]. cbn in *.
  destruct (Hk a Hq h1) as [(e2 & H2 & P2) Hr]. split; [|done]. exists (e1 ++ e2). rewrite H2, H1, app_assoc.
  split; [done|]. by apply Forall_app.
Qed.

(** When the result does not matter. *)
Lemma does_then {A B} (R : B → Prop) (m : Act A) (k : A → Act B) :
  does P (λ _, True) m → (∀ a, does P R (k a)) → does P R (m ≫= k).
Proof. intros Hm Hk. eapply does_bind; [exact Hm|]. intros a _. apply Hk. Qed.

Lemma does_weaken {A} (Q Q' : A → Prop) (m : Act A) : (∀ a, Q a → Q' a) → does P Q m → does P Q' m.
Proof. intros HQ H h. destruct (H h). split; [done|]. by apply HQ. Qed.

Lemma does_events {A} (P' : event → Prop) (Q : A → Prop) (m : Act A) : does P' Q m → (∀ e, P' e → P e) → does P Q m.
Proof.
  intros H HP h. destruct (H h) as [(evs & Hl & Hf) Hq]. split; [|done]. exists evs. split; [done|]. by eapply Forall_impl.
Qed.

Lemma does_call {A} c (answer : nat → A) (Q : A → Prop) : P (Called c) → (∀ n, Q (answer n)) → does P Q (do_call c answer).
Proof. intros Hc HQ h. split; [|apply HQ]. exists [Called c]. split; [done|]. by constructor. Qed.

Lemma does_emit obs : P (Reported obs) → does P (λ _, True) (emit obs).
Proof. intros Hr h. split; [|done]. exists [Reported obs]. split; [done|]. by constructor. Qed.

Lemma does_silent {A} (m : Act A) : (∀ h, Host.log (m h).1 = Host.log h) → does P (λ _, True) m.
Proof. intros Hm h. split; [|done]. exists []. by rewrite Hm, app_nil_r. Qed.

Lemma does_each {A} (l : list A) (f : A → Act ()) : (∀ x, x ∈ l → does P (λ _, True) (f x)) → does P (λ _, True) (each l f).
Proof.
  induction l as [|x l IH]; intros H; [by apply does_ret|]. cbn. apply does_then; [apply H; by left|].
  intros _. apply IH. intros y Hy. apply H. by right.
Qed.
End does.

Create HintDb agent.
#[export] Hint Resolve does_ret does_emit : agent.

Section pass.
Context {RO : RangeOrder} {ROk : RangeOrderOk RO} {TL : TimestampLib} {CR : ContainerRuntime}.
Context (cfg : ExecutorConfig.t).

Lemma does_now P : does P (λ _, True) now.
Proof. by apply does_silent. Qed.

Lemma does_get P : does P (λ _, True) get.
Proof. by apply does_silent. Qed.

Lemma does_put P e : does P (λ _, True) (put e).
Proof. by apply does_silent. Qed.

Lemma does_with_health P f : does P (λ _, True) (with_health f).
Proof. by apply does_silent. Qed.

(** The calls of the executor that need a reason. *)
Definition harmless (e : event) : Prop :=
  match e with
  | Called (CreateContainer _) | Called (StartContainer _) | Called (StopContainer _ _) | Called (RemoveContainer _ _) => False
  | _ => True
  end.

(** A container that was created in answer to a call. *)
Definition was_created (cid : string) : Prop := ∃ n, created n = inl cid.

(** The reason to create a container. *)
Definition may_create (a : option Assignment.t) (rt : option AssignmentRuntime.t) (spec : ContainerSpec.t) : Prop :=
  ∃ rt', rt = Some rt' ∧ leaseWithholds (GetId a) (ExecutorConfig.NodeID cfg) rt = ""
  ∧ ContainerSpec.Labels spec = labels a LabelRole ∧ ContainerSpec.Image spec = AssignmentRuntime.ImageRef rt'
  ∧ ContainerSpec.Name spec = containerName a.

(** What starting an assignment may do. *)
Definition starts (a : option Assignment.t) (rt : option AssignmentRuntime.t) (e : event) : Prop :=
  match e with
  | Called (CreateContainer spec) => may_create a rt spec
  | Called (StartContainer cid) | Called (RemoveContainer cid _) => was_created cid
  | Called (StopContainer _ _) => False
  | _ => True
  end.

Ltac agent_step :=
  first [ apply does_now | apply does_get | apply does_put | apply does_with_health | by apply does_emit
        | by apply does_ret | by apply does_call
        | (apply does_then; [|intros ?]) ].

Lemma fail_does P id hash msg : does P (λ _, True) (fail_ id hash msg).
Proof. unfold fail_. repeat agent_step. Qed.

Lemma failed_does P id hash msg : does P (λ _, True) (o ← fail_ id hash msg; mret (Some o)).
Proof. apply does_then; [apply fail_does|]. intros o. by apply does_ret. Qed.

Lemma ensure_mounts_does P a vols mounts : (∀ n l, P (Called (EnsureVolume n l))) → does P (λ _, True) (ensure_mounts a vols mounts).
Proof.
  intros HP. revert mounts. induction vols as [|vm vols IH]; intros mounts; cbn; [agent_step|].
  apply does_then; [by apply does_call|]. intros [err|]; [agent_step|apply IH].
Qed.

Lemma ensure_network_does P a rt : (∀ n s l, P (Called (EnsureNetwork n s l))) → does P (λ _, True) (ensure_network a rt).
Proof.
  intros HP. unfold ensure_network. destruct (_ =? ""); [agent_step|]. apply does_then; [by apply does_call|].
  intros [[network gw]|err]; agent_step.
Qed.

Lemma containerSpec_does P a rt :
  (∀ n l, P (Called (EnsureVolume n l))) → (∀ n s l, P (Called (EnsureNetwork n s l))) →
  does P (λ res, match res with
    | inl spec => ContainerSpec.Labels spec = labels a LabelRole ∧ ContainerSpec.Image spec = rt ⇝ AssignmentRuntime.ImageRef
        ∧ ContainerSpec.Name spec = containerName a
    | inr _ => True
    end) (containerSpec cfg a rt).
Proof.
  intros HV HN. unfold containerSpec. apply does_then; [by apply ensure_mounts_does|]. intros [mounts|err]; [|by apply does_ret].
  apply does_then; [by apply ensure_network_does|]. intros [[network dns]|err]; by apply does_ret.
Qed.

Lemma bringUp_does a rt : does (starts a rt) (λ _, True) (bringUp cfg a rt).
Proof.
  unfold bringUp. apply does_then.
  { unfold reset_failures. apply does_then; [apply does_get|]. intros e. by case_match; repeat agent_step. }
  intros _. apply does_then; [apply does_get|]. intros e. destruct (_ <=? _)%Z; [agent_step|].
  destruct rt as [rt|]; [|apply failed_does].
  destruct (_ =? "") eqn:Hlease; cbn [negb]; [apply str_eqb_eq in Hlease|repeat agent_step].
  apply does_then; [agent_step|]. intros t. apply does_then; [agent_step|]. intros _.
  apply does_then; [agent_step|]. intros [err|]; [apply failed_does|].
  eapply does_bind; [by apply containerSpec_does|]. intros [spec|err] Hspec; [|apply failed_does].
  eapply (does_bind _ (λ res, match res with inl cid => was_created cid | inr _ => True end)).
  { apply does_call; [by exists rt|]. intros n. destruct (created n) eqn:Hn; [by exists n|done]. }
  intros [cid|err] Hcid; [|apply failed_does].
  apply does_then; [agent_step|]. intros t2. apply does_then; [agent_step|]. intros _.
  apply does_then; [agent_step|]. intros [err|].
  - apply does_then; [agent_step|]. intros _. apply failed_does.
  - repeat agent_step.
Qed.

(** * A pass *)

Lemma owned_spec infos aid c :
  owned infos !! aid = Some c →
  ∃ info, info ∈ infos ∧ aid ≠ "" ∧ ContainerInfo.Labels info !! LabelAssignmentID = Some aid
    ∧ c = ownedContainer.mk (ContainerInfo.ID info) aid (ContainerInfo.Labels info).
Proof.
  unfold owned. induction infos as [|info infos IH] using rev_ind; [done|].
  rewrite foldl_app. cbn. destruct (default "" _ =? "") eqn:He.
  - intros (i & Hi & ?)%IH. exists i. split; [apply elem_of_app; by left|done].
  - apply str_eqb_neq in He. intros [[<- <-]|[_ (i & Hi & ?)%IH]]%lookup_insert_Some.
    + exists info. split; [apply elem_of_app; right; by left|]. split; [done|]. split; [|done].
      by destruct (ContainerInfo.Labels info !! LabelAssignmentID).
    + exists i. split; [apply elem_of_app; by left|done].
Qed.

(** The events of the stopping half of a pass, and those of the starting half, by what
    the engine listed. *)
Definition stopping (set : AssignmentSet.t) (infos : list ContainerInfo.t) (e : event) : Prop :=
  match e with
  | Called (StopContainer cid _) | Called (RemoveContainer cid _) =>
    ∃ c, owned infos !! ownedContainer.assignID c = Some c ∧ ownedContainer.id c = cid ∧ unwanted (desiredByID cfg set) c = true
  | Called (CreateContainer _) | Called (StartContainer _) => False
  | _ => True
  end.

Definition starting (set : AssignmentSet.t) (infos : list ContainerInfo.t) (e : event) : Prop :=
  match e with
  | Called (CreateContainer spec) =>
    ∃ id a, desiredByID cfg set !! id = Some a ∧ a ⇝ Assignment.Desired = ASSIGNMENT_DESIRED_RUN
      ∧ adopted (desiredByID cfg set) (owned infos) !! id = None
      ∧ may_create a (AssignmentSet.Runtime set !! id) spec
  | Called (StartContainer cid) | Called (RemoveContainer cid _) => was_created cid
  | Called (StopContainer _ _) => False
  | _ => True
  end.

Lemma stopped_reports_does P desired l obs : does P (λ _, True) (stopped_reports desired l obs).
Proof.
  revert obs. induction l as [|[id c] l IH]; intros obs; cbn; [by apply does_ret|].
  destruct (desired !! id); [case_bool_decide|]; [done| |done]. apply does_then; [apply does_now|]. intros t. apply IH.
Qed.

Lemma run_pass_does set infos ids obs live :
  (∀ id, id ∈ ids → is_Some (desiredByID cfg set !! id)) →
  does (starting set infos) (λ _, True)
    (run_pass cfg (desiredByID cfg set) (AssignmentSet.Runtime set) (adopted (desiredByID cfg set) (owned infos)) ids obs live).
Proof.
  revert obs live. induction ids as [|id ids IH]; intros obs live Hids; cbn; [by apply does_ret|].
  destruct (Hids id ltac:(by left)) as [a Ha]. rewrite Ha. change (default None (Some a)) with a.
  assert (∀ id, id ∈ ids → is_Some (desiredByID cfg set !! id)) as Hids' by (intros; apply Hids; by right).
  destruct (negb _ || _) eqn:Hskip; [by apply IH|]. apply orb_false_iff in Hskip as [Hrun%negb_false_iff%bool_decide_eq_true Hkept%bool_decide_eq_false].
  apply does_then.
  - eapply does_events; [apply bringUp_does|]. intros [c|o]; [|done]. destruct c; try done. intros Hc. exists id, a.
    split_and!; try done. by apply eq_None_not_Some.
  - intros [o|]; by apply IH.
Qed.

Lemma Ensure_does P a spec cid :
  (∀ id, P (Called (InspectContainer id))) → (∀ o, P (Reported o)) → does P (λ _, True) (Ensure cfg a spec cid).
Proof.
  intros HI HR. unfold Ensure. apply does_then; [apply does_get|]. intros e. destruct (_ !! GetId a); [by apply does_ret|].
  destruct (spec ⇝ ServiceSpec.Healthcheck) as [hc|].
  - apply does_then; [destruct (bool_decide _); [by apply does_ret|by apply does_call]|]. intros st.
    destruct (Health.buildProbe _ _ _ _ _ _); apply does_with_health.
  - apply does_then; [apply does_with_health|]. intros _. apply does_then; [apply does_now|]. intros t. by apply does_emit.
Qed.

Lemma elem_of_toRemove desired current c :
  c ∈ toRemove desired current ↔ unwanted desired c = true ∧ ∃ id, current !! id = Some c.
Proof.
  unfold toRemove. rewrite sort_slice_perm, list_elem_of_In, filter_In, <- list_elem_of_In, elem_of_range_values. tauto.
Qed.

Lemma elem_of_desired_ids desired id : id ∈ sortedKeys desired ↔ is_Some (desired !! id).
Proof.
  unfold sortedKeys. rewrite sort_slice_perm, list_elem_of_fmap. split.
  - intros ([k a] & -> & Hk%elem_of_range). by exists a.
  - intros [a Ha]. exists (id, a). split; [done|]. by apply elem_of_range.
Qed.

Lemma removals set infos l h :
  (∀ c, c ∈ l → owned infos !! ownedContainer.assignID c = Some c ∧ unwanted (desiredByID cfg set) c = true) →
  ∃ evs, Host.log (each l (λ c, stopAndRemove c;; Remove (ownedContainer.assignID c)) h).1 = Host.log h ++ evs
    ∧ Forall (stopping set infos) evs
    ∧ ∀ c, c ∈ l → Called (RemoveContainer (ownedContainer.id c) true) ∈ evs.
Proof.
  revert h. induction l as [|c l IH]; intros h Hl.
  { exists []. split_and!; [by rewrite app_nil_r|done|]. by intros c ?%elem_of_nil. }
  cbn [each]. unfold mbind at 1, Act_bind at 1.
  set (m := stopAndRemove c;; Remove (ownedContainer.assignID c)).
  assert (Host.log (m h).1 = Host.log h ++ [Called (StopContainer (ownedContainer.id c) 0); Called (RemoveContainer (ownedContainer.id c) true)])
    as Hm by (unfold m, stopAndRemove, Remove, with_health, mbind, Act_bind, do_call, get, put; cbn; by rewrite <- app_assoc).
  destruct (m h) as [h1 u]. cbn in Hm.
  destruct (IH h1) as (evs & Hlog & Hev & Hin); [intros; apply Hl; by right|]. rewrite Hm, <- app_assoc in Hlog.
  eexists. split; [exact Hlog|]. destruct (Hl c ltac:(by left)) as [Hown Hunw]. split.
  - apply Forall_app. split; [|done]. repeat constructor; by exists c.
  - intros c' [->|Hc']%elem_of_cons; apply elem_of_app; [left; right; by left|right; by apply Hin].
Qed.

Lemma listOwned_run h :
  listOwned h = (Host.mk (Host.exec h) (S (Host.tick h)) (Host.log h ++ [Called (ListContainers service_labels)]),
                 match listed (Host.tick h) with inl infos => Some (owned infos) | inr _ => None end).
Proof. unfold listOwned, mbind, Act_bind, do_call. by destruct (listed (Host.tick h)). Qed.

Lemma adopted_None desired current id :
  adopted desired current !! id = None ↔ ∀ c, current !! id = Some c → unwanted desired c = true.
Proof.
  unfold adopted. rewrite map_lookup_filter_None. split.
  - intros [->|H] c Hc; [done|]. specialize (H c Hc). cbn in H. by destruct (unwanted desired c).
  - intros H. destruct (current !! id) as [c|] eqn:Hc; [|by left]. right. intros x [= <-]. cbn. by rewrite (H c eq_refl).
Qed.
End pass.

Lemma reconcile_log {RO : RangeOrder} {ROk : RangeOrderOk RO} {TL : TimestampLib} {CR : ContainerRuntime}
    (cfg : ExecutorConfig.t) (set : AssignmentSet.t) (h : Host.t) :
  let h' := (reconcile cfg (Some set) h).1 in
  match listed (Host.tick h) with
  | inr _ => Host.log h' = Host.log h ++ [Called (ListContainers service_labels)]
  | inl infos => ∃ evs1 evs2,
      Host.log h' = Host.log h ++ [Called (ListContainers service_labels)] ++ evs1 ++ evs2
      ∧ Forall (stopping cfg set infos) evs1 ∧ Forall (starting cfg set infos) evs2
      ∧ ∀ id c, owned infos !! id = Some c → unwanted (desiredByID cfg set) c = true →
          Called (RemoveContainer (ownedContainer.id c) true) ∈ evs1
  end.
Proof.
  intros h'. pose proof (listOwned_run h) as Hown.
  destruct (listed (Host.tick h)) as [infos|err]; unfold h', reconcile; unfold mbind at 1, Act_bind at 1; rewrite Hown; [|reflexivity].
  set (h1 := Host.mk (Host.exec h) (S (Host.tick h)) _).
  unfold mbind at 1, Act_bind at 1.
  destruct (stopped_reports_does (stopping cfg set infos) (desiredByID cfg set) (range (owned infos)) ∅ h1) as [(e0 & H0 & F0) _].
  destruct (stopped_reports _ _ _ h1) as [h2 observed]. cbn in H0. unfold mbind at 1, Act_bind at 1.
  destruct (removals cfg set infos (toRemove (desiredByID cfg set) (owned infos)) h2) as (e1 & H1 & F1 & Hrem).
  { intros c [Hu [id Hc]]%elem_of_toRemove. split; [|done].
    destruct (owned_spec _ _ _ Hc) as (info & _ & _ & _ & ->). exact Hc. }
  destruct (each (toRemove _ _) _ h2) as [h3 u]. cbn in H1.
  eassert (does (starting cfg set infos) (λ _, True) _) as Hrest; [|destruct (Hrest h3) as [(e2 & H2 & F2) _]; exists (e0 ++ e1), e2; split; [rewrite H2, H1, H0; cbn; by rewrite <- !app_assoc|]].
  { apply does_then; [apply run_pass_does; intros id; by rewrite elem_of_desired_ids|]. intros [obs live].
    apply does_then; [destruct (bool_decide _); [by apply does_ret|by apply does_emit]|]. intros _.
    apply does_then; [apply does_with_health|]. intros _. apply does_each. intros [id cid] _. by apply Ensure_does. }
  split; [by apply Forall_app|]. split; [done|]. intros id c Hc Hu. apply elem_of_app. right. apply Hrem, elem_of_toRemove. eauto.
Qed.


(** A pass does to the node's containers just what the set asks for.  It stops and
    removes a container only if the engine listed it as a service container of ours and
    its assignment is gone, is not to run, or has another configuration, and it removes
    every such container; it creates one only for an assignment of this node that is to
    run and has no container it keeps, with the image of its runtime and its own labels,
    and, if a lease fences the service, only with the lease; it starts, and after a
    failed start removes, only what it created; and everything is stopped before
    anything is started.  When the engine cannot list, it does nothing. *)
Theorem pass_is_justified (RO : RangeOrder) (ROk : RangeOrderOk RO) (TL : TimestampLib) (CR : ContainerRuntime)
    (cfg : ExecutorConfig.t) (set : AssignmentSet.t) (h : Host.t) :
  let h' := (reconcile cfg (Some set) h).1 in
  match listed (Host.tick h) with
  | inr _ => Host.log h' = Host.log h ++ [Called (ListContainers service_labels)]
  | inl infos => ∃ evs1 evs2,
      Host.log h' = Host.log h ++ [Called (ListContainers service_labels)] ++ evs1 ++ evs2
      ∧ Forall (stopping cfg set infos) evs1 ∧ Forall (starting cfg set infos) evs2
      ∧ ∀ id c, owned infos !! id = Some c → unwanted (desiredByID cfg set) c = true →
          Called (RemoveContainer (ownedContainer.id c) true) ∈ evs1
  end.
Proof. apply reconcile_log. Qed.

(** * Fencing, from the state to the container *)

Lemma withheld_unless_leased id node rt :
  leaseWithholds id node (Some rt) = "" →
  AssignmentRuntime.Spec rt ⇝ ServiceSpec.Stateful = true → AssignmentRuntime.Spec rt ⇝ ServiceSpec.Volumes ≠ [] →
  ∃ l, AssignmentRuntime.VolumeLease rt = Some l ∧ VolumeLease.NodeId l = node ∧ VolumeLease.AssignmentId l = id.
Proof.
  unfold leaseWithholds. cbn [get]. change (Some rt ⇝ AssignmentRuntime.Spec) with (AssignmentRuntime.Spec rt).
  change (Some rt ⇝ AssignmentRuntime.VolumeLease) with (AssignmentRuntime.VolumeLease rt).
  intros H Hs Hv. rewrite Hs in H. destruct (_ ⇝ ServiceSpec.Volumes) as [|v vs]; [done|]. cbn [negb orb length Nat.eqb] in H.
  destruct (AssignmentRuntime.VolumeLease rt) as [l|]; [|done]. exists l. split; [done|].
  destruct (VolumeLease.NodeId l =? node) eqn:Hn; [|done]. destruct (VolumeLease.AssignmentId l =? id) eqn:Hi; [|done].
  by apply str_eqb_eq in Hn, Hi.
Qed.

(** A pass of a node that was sent the assignments of a state starts an instance of a
    stateful release, whose first volume is the given one. *)
Definition starts_writer {RO : RangeOrder} {TL : TimestampLib} {CR : ContainerRuntime} {V : VaultLib} (unsealed : bool)
    (st : Store.t) (cfg : ExecutorConfig.t) (h : Host.t) (a : option Assignment.t) (volume : string) : Prop :=
  ∃ set spec rel vm rest, AgentSync.sendAssignments unsealed (ExecutorConfig.NodeID cfg) st = Ret set
    ∧ (Called (CreateContainer spec) ∈ Host.log (reconcile cfg (Some set) h).1 ∧ Called (CreateContainer spec) ∉ Host.log h)
    ∧ ContainerSpec.Labels spec = labels a LabelRole ∧ a ∈ AssignmentSet.Assignments set
    ∧ Store.releases st !! (a ⇝ Assignment.ReleaseId) = Some rel
    ∧ rel ⇝ Release.Service ⇝ ServiceSpec.Stateful = true
    ∧ rel ⇝ Release.Service ⇝ ServiceSpec.Volumes = vm :: rest ∧ vm ⇝ VolumeMount.VolumeName = volume.

Lemma NoDup_key_inj {A} (key : A → string) l x y : NoDup (key <$> l) → x ∈ l → y ∈ l → key x = key y → x = y.
Proof.
  induction l as [|z l IH]; [by intros _ ?%elem_of_nil|]. rewrite fmap_cons. intros [Hz Hnd]%NoDup_cons.
  intros [->|Hx]%elem_of_cons [->|Hy]%elem_of_cons Hk; [done| | |by apply IH];
    destruct Hz; apply list_elem_of_fmap; eauto.
Qed.

Lemma labels_id a1 a2 : labels a1 LabelRole = labels a2 LabelRole → GetId a1 = GetId a2.
Proof.
  intros H. assert (∀ a, labels a LabelRole !! LabelAssignmentID = Some (GetId a)) as Hl by (intros a; vm_compute; reflexivity).
  pose proof (Hl a1) as H1. rewrite H, Hl in H1. by injection H1.
Qed.

Section fencing.
Context {RO : RangeOrder} {ROk : RangeOrderOk RO} {TL : TimestampLib} {CR : ContainerRuntime} {V : VaultLib}.

Lemma desiredByID_spec cfg set id a :
  desiredByID cfg set !! id = Some a → a ∈ AssignmentSet.Assignments set ∧ GetId a = id.
Proof.
  unfold desiredByID. generalize (AssignmentSet.Assignments set) as l. intros l. induction l as [|b l IH] using rev_ind; [done|].
  rewrite foldl_app. cbn. destruct (_ && _).
  - intros [? ?]%IH. split; [apply elem_of_app; by left|done].
  - intros [[<- <-]|[_ [? ?]%IH]]%lookup_insert_Some; (split; [apply elem_of_app|done]); [right; by left|by left].
Qed.

Lemma writer_is_leased unsealed st cfg h a volume :
  wf st → services_set st → starts_writer unsealed st cfg h a volume →
  ∃ v l, Store.VolumeByName (a ⇝ Assignment.ProjectId) (a ⇝ Assignment.EnvironmentId) volume st = Some v
    ∧ v ⇝ Volume.Lease = Some l ∧ VolumeLease.NodeId l = ExecutorConfig.NodeID cfg ∧ VolumeLease.AssignmentId l = GetId a.
Proof.
  intros Hwf Hsv (set & spec & rel & vm & rest & Hset & [Hin Hnew] & Hlab & Ha & Hrel & Hst & Hvol & Hname).
  destruct (sent_runtimes unsealed (ExecutorConfig.NodeID cfg) st set Hwf Hsv Hset) as (Hnd & Hrt).
  pose proof (reconcile_log cfg set h) as Hp.
  assert (∃ infos, starting cfg set infos (Called (CreateContainer spec))) as (infos & id & a' & Ha' & _ & _ & rt & Hr & Hlease & Hlab' & _).
  { destruct (listed (Host.tick h)) as [infos|err].
    - destruct Hp as (e1 & e2 & Hlog & F1 & F2 & _). rewrite Hlog, !elem_of_app in Hin.
      destruct Hin as [?|[?%list_elem_of_singleton|[Hin|Hin]]]; [done|done| |].
      + rewrite Forall_forall in F1. destruct (F1 _ Hin).
      + rewrite Forall_forall in F2. exists infos. by apply F2.
    - rewrite Hp, elem_of_app in Hin. by destruct Hin as [?|?%list_elem_of_singleton]. }
  apply desiredByID_spec in Ha' as [Hin' Hid]. rewrite Hlab in Hlab'. apply labels_id in Hlab'.
  assert (a' = a) as -> by (by apply (NoDup_key_inj GetId (AssignmentSet.Assignments set))).
  specialize (Hrt a Ha). unfold has_runtime in Hrt. rewrite Hrel, Hid, Hr in Hrt.
  destruct Hrt as (_ & _ & Hs & Hv & Hl & _). rewrite Hr in Hlease.
  destruct (withheld_unless_leased _ _ _ Hlease) as (l & Hlv & Hn & Hai); [by rewrite Hs|by rewrite Hv, Hvol|].
  destruct (Hl l Hlv) as (_ & v & vm' & rest' & Hvol' & Hfind & Hvl). rewrite Hv, Hvol in Hvol'. injection Hvol' as <- <-.
  rewrite Hname in Hfind. by exists v, l.
Qed.
End fencing.

(** C34: from one state of the cluster a stateful service has at most one writer.  When
    nodes were sent their assignments from the same state, an instance of a stateful
    release with volumes is started only where the lease of the volume that the release
    names first names both the node and the instance; so if two nodes, whatever their
    engines do, start instances of stateful releases of one environment that name the
    same volume first, it is the same instance on the same node.  (The lease of the
    first volume is the only one a runtime carries: releases that name their volumes in
    different orders do not exclude each other, see volumes_in_another_order.) *)
Theorem one_writer_per_state (RO : RangeOrder) (ROk : RangeOrderOk RO) (TL : TimestampLib) (CR1 CR2 : ContainerRuntime)
    (V : VaultLib) (unsealed1 unsealed2 : bool) (st : Store.t) (cfg1 cfg2 : ExecutorConfig.t) (h1 h2 : Host.t)
    (a1 a2 : option Assignment.t) (volume : string) :
  wf st → services_set st →
  a1 ⇝ Assignment.ProjectId = a2 ⇝ Assignment.ProjectId → a1 ⇝ Assignment.EnvironmentId = a2 ⇝ Assignment.EnvironmentId →
  starts_writer (CR := CR1) unsealed1 st cfg1 h1 a1 volume → starts_writer (CR := CR2) unsealed2 st cfg2 h2 a2 volume →
  GetId a1 = GetId a2 ∧ ExecutorConfig.NodeID cfg1 = ExecutorConfig.NodeID cfg2
  ∧ ∃ v l, Store.VolumeByName (a1 ⇝ Assignment.ProjectId) (a1 ⇝ Assignment.EnvironmentId) volume st = Some v
      ∧ v ⇝ Volume.Lease = Some l ∧ VolumeLease.NodeId l = ExecutorConfig.NodeID cfg1 ∧ VolumeLease.AssignmentId l = GetId a1.
Proof.
  intros Hwf Hsv Hp He H1 H2.
  destruct (writer_is_leased _ _ _ _ _ _ Hwf Hsv H1) as (v1 & l1 & F1 & L1 & N1 & I1).
  destruct (writer_is_leased _ _ _ _ _ _ Hwf Hsv H2) as (v2 & l2 & F2 & L2 & N2 & I2).
  rewrite <- Hp, <- He, F1 in F2. injection F2 as <-. rewrite L1 in L2. injection L2 as <-.
  split_and!; [congruence..|]. by exists v1, l1.
Qed.

(** * Retries *)

Section retries.
Context {RO : RangeOrder} {ROk : RangeOrderOk RO} {TL : TimestampLib} {CR : ContainerRuntime}.

(** What bringUp does to the counters. *)
Definition reset_e (id hash : string) (e : Executor.t) : Executor.t :=
  let h := default "" (Executor.failHash e !! id) in
  if negb (h =? "") && negb (h =? hash)
  then Executor.mk (delete id (Executor.failCount e)) (delete id (Executor.failHash e)) (Executor.health e) else e.

Definition attempts (e : Executor.t) (id : string) : Z := default 0%Z (Executor.failCount e !! id).

Definition failed_e (id hash : string) (e : Executor.t) : Executor.t :=
  Executor.mk (<[id := (attempts e id + 1)%Z]> (Executor.failCount e)) (<[id := hash]> (Executor.failHash e)) (Executor.health e).

Definition cleared_e (id : string) (e : Executor.t) : Executor.t :=
  Executor.mk (delete id (Executor.failCount e)) (delete id (Executor.failHash e)) (Executor.health e).

(** The program leaves an executor and a result that satisfy [R]. *)
Definition ends {A} (R : Executor.t → A → Prop) (m : Act A) (h : Host.t) : Prop := R (Host.exec (m h).1) (m h).2.

Definition keeps {A} (m : Act A) : Prop := ∀ h, Host.exec (m h).1 = Host.exec h.

Lemma ends_bind {A B} (R : Executor.t → B → Prop) (m : Act A) (k : A → Act B) h :
  keeps m → (∀ a h1, Host.exec h1 = Host.exec h → ends R (k a) h1) → ends R (m ≫= k) h.
Proof.
  intros Hm Hk. unfold ends, mbind, Act_bind. specialize (Hm h). destruct (m h) as [h1 a]. by apply Hk.
Qed.

Lemma ends_step {A B} (R : Executor.t → B → Prop) (m : Act A) (k : A → Act B) h h1 a :
  m h = (h1, a) → ends R (k a) h1 → ends R (m ≫= k) h.
Proof. intros Hm. unfold ends, mbind, Act_bind. by rewrite Hm. Qed.

Lemma kept_bind {A B} (m : Act A) (k : A → Act B) : keeps m → (∀ a, keeps (k a)) → keeps (m ≫= k).
Proof.
  intros Hm Hk h. unfold mbind, Act_bind. specialize (Hm h). destruct (m h) as [h1 a]. cbn in Hm. by rewrite Hk.
Qed.

Lemma keeps_mounts a vols mounts : keeps (ensure_mounts a vols mounts).
Proof.
  revert mounts. induction vols as [|vm vols IH]; intros mounts; [done|]. cbn. apply kept_bind; [done|]. intros [err|]; [done|apply IH].
Qed.

Lemma keeps_containerSpec cfg a rt : keeps (containerSpec cfg a rt).
Proof.
  unfold containerSpec. apply kept_bind; [apply keeps_mounts|]. intros [mounts|err]; [|done].
  apply kept_bind; [|by intros [[network dns]|err]]. unfold ensure_network. destruct (_ =? ""); [done|].
  apply kept_bind; [done|]. by intros [[network gw]|err].
Qed.

(** The ways bringUp ends. *)
Definition outcome_of (id hash : string) (e : Executor.t) (e' : Executor.t) (o : option AssignmentObserved.t) : Prop :=
  match o with
  | None => (maxAttempts ≤ attempts e id)%Z ∧ e' = e
  | Some obs => (attempts e id < maxAttempts)%Z
      ∧ (AssignmentObserved.State obs = INSTANCE_STATE_FAILED ∧ e' = failed_e id hash e
         ∨ AssignmentObserved.State obs = INSTANCE_STATE_RUNNING ∧ e' = cleared_e id e
         ∨ AssignmentObserved.State obs = INSTANCE_STATE_PENDING ∧ e' = e)
  end.

Lemma ends_failed id hash msg e h :
  Host.exec h = e → (attempts e id < maxAttempts)%Z →
  ends (outcome_of id hash e) (o ← fail_ id hash msg; mret (Some o)) h.
Proof. intros <- Ha. unfold ends. cbn. split; [done|]. by left. Qed.

Lemma bringUp_counts cfg a rt h :
  let id := GetId a in
  let hash := a ⇝ Assignment.ConfigHash in
  ends (outcome_of id hash (reset_e id hash (Host.exec h))) (bringUp cfg a rt) h.
Proof.
  intros id hash. unfold bringUp.
  assert (∀ h, reset_failures id hash h = (Host.mk (reset_e id hash (Host.exec h)) (Host.tick h) (Host.log h), ())) as Hreset.
  { intros [e t l]. unfold reset_failures, reset_e, mbind, Act_bind, get. cbn. by destruct (negb _ && negb _). }
  eapply ends_step; [apply Hreset|]. eapply ends_step; [reflexivity|].
  set (e := reset_e id hash (Host.exec h)). set (h1 := Host.mk e (Host.tick h) (Host.log h)).
  change (Host.exec h1) with e. change (default 0%Z (Executor.failCount e !! GetId a)) with (attempts e id).
  assert (Host.exec h1 = e) as He by done. clearbody h1 e.
  destruct (Z.leb_spec maxAttempts (attempts e id)) as [Hp|Hp]; [exact (conj Hp He)|].
  destruct rt as [rt|]; [|by apply ends_failed].
  destruct (negb _); [exact (conj Hp (or_intror (or_intror (conj eq_refl He))))|].
  apply ends_bind; [done|]. intros t h2 H2. apply ends_bind; [done|]. intros _ h3 H3.
  apply ends_bind; [done|]. intros [err|] h4 H4; [by apply ends_failed; [congruence|]|].
  apply ends_bind; [apply keeps_containerSpec|]. intros [spec|err] h5 H5; [|by apply ends_failed; [congruence|]].
  apply ends_bind; [done|]. intros [cid|err] h6 H6; [|by apply ends_failed; [congruence|]].
  apply ends_bind; [done|]. intros t2 h7 H7. apply ends_bind; [done|]. intros _ h8 H8.
  apply ends_bind; [done|]. intros [err|] h9 H9.
  - apply ends_bind; [done|]. intros _ h10 H10. by apply ends_failed; [congruence|].
  - assert (Host.exec h9 = e) as He9 by congruence. destruct h9 as [e9 t9 l9]. cbn in He9. rewrite He9. unfold ends. cbn. split; [done|]. right. left.
    split; [|done]. by destruct (inspected _).
Qed.
End retries.

(** Starting an assignment again and again. *)
Fixpoint tries {RO : RangeOrder} {TL : TimestampLib} {CR : ContainerRuntime} (cfg : ExecutorConfig.t) (a : option Assignment.t)
    (rt : option AssignmentRuntime.t) (n : nat) (h : Host.t) : list (option AssignmentObserved.t) :=
  match n with
  | 0 => []
  | S n => let '(h', o) := bringUp cfg a rt h in o :: tries cfg a rt n h'
  end.

Definition failed (o : option AssignmentObserved.t) : bool :=
  match o with Some obs => bool_decide (AssignmentObserved.State obs = INSTANCE_STATE_FAILED) | None => false end.

Section tries.
Context {RO : RangeOrder} {ROk : RangeOrderOk RO} {TL : TimestampLib} {CR : ContainerRuntime}.
Context (cfg : ExecutorConfig.t) (a : option Assignment.t) (rt : option AssignmentRuntime.t).
Notation id := (GetId a).
Notation hash := (a ⇝ Assignment.ConfigHash).

Lemma attempts_reset i h e : (∀ id, 0 ≤ attempts e id)%Z → (0 ≤ attempts (reset_e i h e) i ≤ attempts e i)%Z.
Proof.
  intros H0. pose proof (H0 i). unfold reset_e. destruct (_ && _); [|lia]. unfold attempts in *. cbn. rewrite lookup_delete_eq. cbn. lia.
Qed.

Lemma attempts_nonneg i h e : (∀ id, 0 ≤ attempts e id)%Z → ∀ id, (0 ≤ attempts (reset_e i h e) id)%Z.
Proof.
  intros H0 j. specialize (H0 j). unfold reset_e. destruct (_ && _); [|done]. unfold attempts in *. cbn.
  destruct (decide (j = i)) as [->|]; [by rewrite lookup_delete_eq|by rewrite lookup_delete_ne].
Qed.

(** Failing again, the counter is not reset. *)
Lemma reset_failed e : reset_e id hash (failed_e id hash e) = failed_e id hash e.
Proof.
  unfold reset_e, failed_e. cbn. rewrite lookup_insert_eq. cbn. rewrite (proj2 (str_eqb_eq hash hash) eq_refl). by rewrite andb_false_r.
Qed.

Lemma reset_reset e : reset_e id hash (reset_e id hash e) = reset_e id hash e.
Proof.
  unfold reset_e at 2 3. destruct (negb _ && negb _) eqn:E; [|unfold reset_e; by rewrite E].
  unfold reset_e. cbn. by rewrite lookup_delete_eq.
Qed.

Lemma tries_bounded n h :
  (∀ id, 0 ≤ attempts (Host.exec h) id)%Z →
  (∀ o obs, o ∈ tries cfg a rt n h → o = Some obs → AssignmentObserved.State obs ≠ INSTANCE_STATE_RUNNING) →
  (Z.of_nat (length (List.filter failed (tries cfg a rt n h))) ≤ Z.max 0 (maxAttempts - attempts (reset_e id hash (Host.exec h)) id))%Z.
Proof.
  revert h. induction n as [|n IH]; intros h H0 Hdown; cbn [tries]; [cbn; lia|].
  pose proof (bringUp_counts cfg a rt h) as Hc. unfold ends in Hc. cbn [tries] in Hdown.
  destruct (bringUp cfg a rt h) as [h1 o] eqn:Hb. cbn [fst snd] in Hc.
  assert (∀ o obs, o ∈ tries cfg a rt n h1 → o = Some obs → AssignmentObserved.State obs ≠ INSTANCE_STATE_RUNNING) as Hdown1
    by (intros o' obs Ho'; apply Hdown; by right).
  pose proof (attempts_nonneg id hash _ H0) as Hr0. destruct o as [obs|]; cbn [List.filter failed].
  - destruct Hc as [Hlt [[Hst He]|[[Hst He]|[Hst He]]]].
    + rewrite bool_decide_eq_true_2 by done. specialize (IH h1). rewrite He, reset_failed in IH.
      assert (attempts (failed_e id hash (reset_e id hash (Host.exec h))) id = attempts (reset_e id hash (Host.exec h)) id + 1)%Z as Ha
        by (unfold attempts at 1, failed_e; cbn; by rewrite lookup_insert_eq).
      rewrite Ha in IH. cbn [length]. rewrite Nat2Z.inj_succ.
      assert (∀ j, 0 ≤ attempts (failed_e id hash (reset_e id hash (Host.exec h))) j)%Z as Hf.
      { intros j. destruct (decide (j = id)) as [->|Hne]; [rewrite Ha; specialize (Hr0 id); lia|].
        unfold attempts, failed_e. cbn. rewrite lookup_insert_ne by done. apply Hr0. }
      specialize (IH Hf Hdown1). lia.
    + by destruct (Hdown (Some obs) obs ltac:(by left) eq_refl).
    + rewrite bool_decide_eq_false_2 by congruence. specialize (IH h1). rewrite He, reset_reset in IH. by apply IH.
  - destruct Hc as [Hge He]. specialize (IH h1). rewrite He, reset_reset in IH. by apply IH.
Qed.

Lemma parked h :
  default "" (Executor.failHash (Host.exec h) !! id) = hash → (maxAttempts ≤ attempts (Host.exec h) id)%Z → bringUp cfg a rt h = (h, None).
Proof.
  intros Hh Hm. unfold bringUp, reset_failures, mbind, Act_bind, get. destruct h as [e t l]. cbn in *.
  rewrite Hh, (proj2 (str_eqb_eq hash hash) eq_refl), andb_false_r. cbn. unfold attempts in Hm.
  by rewrite (proj2 (Z.leb_le _ _) Hm).
Qed.

Lemma bringUp_others h i : i ≠ id → attempts (Host.exec (bringUp cfg a rt h).1) i = attempts (Host.exec h) i.
Proof.
  intros Hi. pose proof (bringUp_counts cfg a rt h) as Hc. unfold ends in Hc. destruct (bringUp cfg a rt h) as [h1 o]. cbn in Hc |- *.
  assert (attempts (reset_e id hash (Host.exec h)) i = attempts (Host.exec h) i) as Hr.
  { unfold reset_e. destruct (_ && _); [|done]. unfold attempts. cbn. by rewrite lookup_delete_ne. }
  rewrite <- Hr. destruct o as [obs|].
  - destruct Hc as [_ [[_ ->]|[[_ ->]|[_ ->]]]]; [| |done]; unfold attempts; cbn; by rewrite ?lookup_insert_ne, ?lookup_delete_ne by done.
  - by destruct Hc as [_ ->].
Qed.
End tries.

(** A start that fails is tried three times.  For every engine, as long as an
    assignment with one configuration does not come up, at most three attempts are made,
    however often the executor's loop comes around; afterwards an attempt makes no call
    and no report; and no attempt touches the counters of another assignment. *)
Theorem retries_then_parks (RO : RangeOrder) (ROk : RangeOrderOk RO) (TL : TimestampLib) (CR : ContainerRuntime)
    (cfg : ExecutorConfig.t) (a : option Assignment.t) (rt : option AssignmentRuntime.t) (h : Host.t) (n : nat) :
  (∀ id, 0 ≤ attempts (Host.exec h) id)%Z →
  (∀ o obs, o ∈ tries cfg a rt n h → o = Some obs → AssignmentObserved.State obs ≠ INSTANCE_STATE_RUNNING) →
  (Z.of_nat (length (List.filter failed (tries cfg a rt n h))) ≤ maxAttempts)%Z
  ∧ ((maxAttempts ≤ attempts (Host.exec h) (GetId a))%Z →
     Executor.failHash (Host.exec h) !! GetId a = Some (a ⇝ Assignment.ConfigHash) →
     bringUp cfg a rt h = (h, None))
  ∧ ∀ id, id ≠ GetId a → attempts (Host.exec (bringUp cfg a rt h).1) id = attempts (Host.exec h) id.
Proof.
  intros H0 Hdown. split_and!.
  - pose proof (tries_bounded cfg a rt n h H0 Hdown) as Hb. pose proof (attempts_reset (GetId a) (a ⇝ Assignment.ConfigHash) (Host.exec h) H0). unfold maxAttempts in *. lia.
  - intros Hmax Hlast. apply parked; [|done]. by rewrite Hlast.
  - intros id Hid. by apply bringUp_others.
Qed.

(** * A tick whose reports meet in one batch *)

Module Lost.

Definition cfg : ExecutorConfig.t := ExecutorConfig.mk "n1" "10.90.0.1" false.

(** The instance as the scheduler created it: it has a service without health checks. *)
Definition instance : option Assignment.t :=
  Some (Assignment.mk (sample_meta "a1") "n1" "proj" "app" "e1" "r1" "" ASSIGNMENT_DESIRED_RUN "cfg" ∅ None "").

Definition set : AssignmentSet.t :=
  AssignmentSet.mk 7 [instance] {["a1" := AssignmentRuntime.mk "img" (Some web_spec) ∅ "" None]}.

Definition up : ContainerState.t := ContainerState.mk true false 0 [PortBinding.mk "" 8080 "tcp" "10.90.0.1" 31000] "172.18.0.2".

(** An engine where everything succeeds: the container is listed once it is there. *)
#[local] Instance engine : ContainerRuntime := {
  listed n := match n with 0 => inl [] | S _ => inl [ContainerInfo.mk "c1" (labels instance LabelRole)] end;
  done_ok _ := None;
  networked _ := inl ("", "");
  created _ := inl "c1";
  inspected _ := Some up;
  clock _ := 0%Z
}.

Definition reports_of (l : list event) : list (gmap string AssignmentObserved.t) :=
  omap (λ e, match e with Reported o => Some o | Called _ => None end) l.

Notation tick h := (on_tick (RO := canonical_range) (TL := wellknown_times) cfg (Some set) h).

Definition start : Host.t := Host.mk (Executor.mk ∅ ∅ (Manager.mk ∅ ∅)) 0 [].

Definition first : Host.t := (tick start).1.

(** The store that has the instance, and after the first flush. *)
Definition st0 : Store.t := Store.PutAssignments [instance] Store.New.

Definition flushed (batches : list (gmap string AssignmentObserved.t)) (s : Store.t) : outcome Store.t :=
  Store.SetAssignmentObserved (RO := canonical_range) "n1" (Some <$> buffered (RO := canonical_range) batches) s.

(** Every later tick reports the same. *)
Definition later : list event :=
  [Called (ListContainers service_labels); Called (ListContainers service_labels); Called (InspectContainer "c1");
   Reported {["a1" := AssignmentObserved.mk INSTANCE_STATE_RUNNING "c1" 0 0 "" (Some (Timestamp.mk 0 0)) {["http" := 31000%Z]}]}].

Lemma first_eq : first = Host.mk (Host.exec first) 12 (Host.log first).
Proof. vm_compute. reflexivity. Qed.

Lemma later_tick t l :
  tick (Host.mk (Host.exec first) (S t) l) = (Host.mk (Host.exec first) (S (4 + t)) (l ++ later), ()).
Proof.
  transitivity (Host.mk (Host.exec first) (S (4 + t)) (foldl (λ l e, l ++ [e]) l later), ()); [vm_compute; reflexivity|].
  do 2 f_equal. generalize later as evs. intros evs. revert l. induction evs as [|e evs IH]; intros l; cbn; [by rewrite app_nil_r|].
  by rewrite IH, <- app_assoc.
Qed.

#[local] Opaque first.

(** The first tick, whose reports are flushed together, and [n] more, each flushed. *)
Fixpoint after (n : nat) : outcome (Store.t * Host.t) :=
  match n with
  | 0 => obind (flushed (reports_of (Host.log first)) st0) (λ s, Ret (s, first))
  | S n => obind (after n) (λ '(s, h),
      let h' := (tick h).1 in
      obind (flushed (reports_of (drop (length (Host.log h)) (Host.log h'))) s) (λ s, Ret (s, h')))
  end.

(** Its node says the instance runs, and that is all the store knows. *)
Definition only_running (s : Store.t) (a : Assignment.t) : Prop :=
  Store.assignments s !! "a1" = Some (Some a) ∧ Assignment.NodeId a = "n1"
  ∧ Assignment.Observed a ⇝ AssignmentObserved.State = INSTANCE_STATE_RUNNING.

Lemma first_report :
  ∃ a, reported "n1" (Some <$> buffered (RO := canonical_range) (reports_of (Host.log first))) "a1" instance = Some a
    ∧ Assignment.NodeId a = "n1" ∧ Assignment.Observed a ⇝ AssignmentObserved.State = INSTANCE_STATE_RUNNING.
Proof. Transparent first. vm_compute. eexists. split; [reflexivity|]. split; reflexivity. Qed.

#[local] Opaque first.

Lemma flush_later s a :
  (∀ id, Store.assignments s !! id ≠ Some None) → only_running s a →
  ∃ s' a', flushed (reports_of later) s = Ret s' ∧ (∀ id, Store.assignments s' !! id ≠ Some None) ∧ only_running s' a'.
Proof.
  intros Hs (Ha & Hn & Hst). unfold flushed.
  destruct (SetAssignmentObserved_total (RO := canonical_range) "n1" (Some <$> buffered (RO := canonical_range) (reports_of later)) s Hs) as (s' & H' & Hs').
  pose proof (SetAssignmentObserved_lookup (RO := canonical_range) _ _ _ _ "a1" H') as Hl. rewrite Ha in Hl. unfold reported in Hl.
  rewrite lookup_fmap, buffered_lookup in Hl. cbn in Hl. rewrite Hn in Hl. cbn in Hl.
  eexists s', _. split; [exact H'|]. split; [done|]. split; [exact Hl|].
  rewrite observe_assignment_eq. split; [exact Hn|]. cbn. rewrite merge_running_eq by done. unfold kept_state. rewrite Hst.
  by rewrite decide_False by (intros [|]; done).
Qed.

Lemma after_spec n :
  ∃ s t l a, after n = Ret (s, Host.mk (Host.exec first) (S t) l) ∧ (∀ id, Store.assignments s !! id ≠ Some None) ∧ only_running s a.
Proof.
  induction n as [|n (s & t & l & a & Hn & Hs & Ha)].
  - assert (∀ id, Store.assignments st0 !! id ≠ Some None) as H0.
    { intros id. unfold st0. change (Store.assignments (Store.PutAssignments [instance] Store.New))
        with (<["a1" := instance]> (∅ : gmap string (option Assignment.t))).
      intros [[_ ?]|[_ ?]]%lookup_insert_Some; done. }
    destruct (SetAssignmentObserved_total (RO := canonical_range) "n1" (Some <$> buffered (RO := canonical_range) (reports_of (Host.log first))) st0 H0) as (s & Hs & Hnn).
    pose proof (SetAssignmentObserved_lookup (RO := canonical_range) _ _ _ _ "a1" Hs) as Hl.
    destruct first_report as (a & Hr & Hn & Hst). change (Store.assignments st0 !! "a1") with (Some instance) in Hl.
    cbn [fmap option_fmap option_map] in Hl. rewrite Hr in Hl.
    exists s, 11, (Host.log first), a. cbn [after]. unfold flushed. rewrite Hs. cbn [obind].
    split; [exact (f_equal (λ h, Ret (s, h)) first_eq)|]. split; [exact Hnn|]. exact (conj Hl (conj Hn Hst)).
  - destruct (flush_later s a Hs Ha) as (s' & a' & Hf & Hs' & Ha'). exists s', (4 + t), (l ++ later), a'.
    cbn [after]. rewrite Hn. cbn [obind]. rewrite later_tick. cbn [fst Host.log].
    rewrite drop_app_length, Hf. done.
Qed.
End Lost.

(** Batching can lose a health report for good.  An instance without health checks
    comes up on a tick of the executor's loop: the node reports it RUNNING, HEALTHY, and
    RUNNING again from the liveness poll of the same tick.  If these reports reach the
    store in one flush, it learns RUNNING; no later tick says HEALTHY again, so however
    many follow, the instance never gets an endpoint in the route table. *)
Theorem batched_health_is_lost (n : nat) :
  Exists (λ o, AssignmentObserved.State <$> o !! "a1" = Some INSTANCE_STATE_HEALTHY) (Lost.reports_of (Host.log Lost.first))
  ∧ ∃ s h a, Lost.after n = Ret (s, h) ∧ Store.assignments s !! "a1" = Some (Some a)
    ∧ Assignment.Observed a ⇝ AssignmentObserved.State = INSTANCE_STATE_RUNNING
    ∧ Routes.endpoint s "r1" "http" (Some a) = None.
Proof.
  split.
  - apply Exists_exists. vm_compute. eexists. split; [right; right; right; by left|reflexivity].
  - destruct (Lost.after_spec n) as (s & t & l & a & Hn & _ & Ha & _ & Hst). exists s, (Host.mk (Host.exec Lost.first) (S t) l), a. split; [exact Hn|].
    split_and!; [done..|]. unfold Routes.endpoint. destruct (_ || _); [done|].
    rewrite bool_decide_eq_false_2; [done|]. cbn. rewrite Hst. done.
Qed.

(** The fence does not read when the lease expires: a node that holds an old set starts
    its instance after the lease was given to another. *)
Lemma expiry_is_not_read id node rt l t :
  AssignmentRuntime.VolumeLease rt = Some l →
  leaseWithholds id node (Some rt) = leaseWithholds id node (Some (AssignmentRuntime.mk (AssignmentRuntime.ImageRef rt)
    (AssignmentRuntime.Spec rt) (AssignmentRuntime.Env rt) (AssignmentRuntime.SubnetCidr rt)
    (Some (VolumeLease.mk (VolumeLease.NodeId l) (VolumeLease.AssignmentId l) t)))).
Proof. intros Hl. unfold leaseWithholds. cbn. by rewrite Hl. Qed.

(** * Witnesses *)

Lemma pass_is_justified_witness :
  ∃ evs1 evs2, Host.log (reconcile (RO := canonical_range) (TL := wellknown_times) (CR := Lost.engine) Lost.cfg (Some Lost.set) Lost.start).1
      = [] ++ [Called (ListContainers service_labels)] ++ evs1 ++ evs2
    ∧ Forall (starting (CR := Lost.engine) Lost.cfg Lost.set []) evs2.
Proof.
  destruct (pass_is_justified canonical_range canonical_range_ok wellknown_times Lost.engine Lost.cfg Lost.set Lost.start)
    as (evs1 & evs2 & Hlog & _ & Hs & _).
  exists evs1, evs2. split; [exact Hlog|exact Hs].
Defined.

(** An engine where nothing can be pulled. *)
Definition broken_engine : ContainerRuntime :=
  Build_ContainerRuntime (λ _, inl []) (λ _, Some "no such image") (λ _, inr "") (λ _, inr "") (λ _, None) (λ _, 0%Z).

Lemma retries_then_parks_witness :
  (Z.of_nat (length (List.filter failed (tries (RO := canonical_range) (TL := wellknown_times) (CR := broken_engine) Lost.cfg
    Lost.instance (AssignmentSet.Runtime Lost.set !! "a1") 9 Lost.start))) ≤ 3)%Z.
Proof.
  refine (proj1 (retries_then_parks canonical_range canonical_range_ok wellknown_times broken_engine Lost.cfg
    Lost.instance (AssignmentSet.Runtime Lost.set !! "a1") Lost.start 9 _ _)).
  - intros id. vm_compute. discriminate.
  - intros o obs Hin ->. assert (forallb (λ o, match o with
      | Some obs => negb (bool_decide (AssignmentObserved.State obs = INSTANCE_STATE_RUNNING)) | None => true end)
      (tries (RO := canonical_range) (TL := wellknown_times) (CR := broken_engine) Lost.cfg
        Lost.instance (AssignmentSet.Runtime Lost.set !! "a1") 9 Lost.start) = true) as H by (vm_compute; reflexivity).
    apply list_elem_of_In in Hin. apply (proj1 (forallb_forall _ _) H) in Hin. cbn in Hin.
    by apply negb_true_iff, bool_decide_eq_false in Hin.
Defined.

Definition first_create (l : list event) : option ContainerSpec.t :=
  head (omap (λ e, match e with Called (CreateContainer s) => Some s | _ => None end) l).

Lemma first_create_in l s : first_create l = Some s → Called (CreateContainer s) ∈ l.
Proof.
  unfold first_create. intros H. assert (s ∈ omap (λ e, match e with Called (CreateContainer s) => Some s | _ => None end) l) as Hin.
  { destruct (omap _ l); [done|]. injection H as <-. by left. }
  apply list_elem_of_omap in Hin as (e & He & Hs). destruct e as [[]|]; try done. by injection Hs as <-.
Qed.

Lemma stateful_writer :
  starts_writer (RO := canonical_range) (TL := wellknown_times) (CR := Lost.engine) (V := sealed_vault) false
    stateful_store Lost.cfg Lost.start reported_instance "data".
Proof.
  destruct (AgentSync.sendAssignments (RO := canonical_range) (V := sealed_vault) false "n1" stateful_store) as [set|] eqn:Hs;
    [|vm_compute in Hs; discriminate Hs].
  destruct (first_create (Host.log (reconcile (RO := canonical_range) (TL := wellknown_times) (CR := Lost.engine) Lost.cfg
    (Some set) Lost.start).1)) as [spec|] eqn:Hspec; [|vm_compute in Hs; injection Hs as <-; vm_compute in Hspec; discriminate Hspec].
  exists set, spec, (Some (sample_release "r1" "e1" 1 stateful_spec)), (Some (VolumeMount.mk "data" "/data")), [].
  split; [exact Hs|]. split; [split; [by apply first_create_in|by intros ?%elem_of_nil]|].
  vm_compute in Hs. injection Hs as <-. split; [vm_compute in Hspec; injection Hspec as <-; vm_compute; reflexivity|].
  clear Hspec.
  split; [left|]. split; [vm_compute; reflexivity|]. vm_compute. repeat split.
Qed.

Lemma one_writer_per_state_witness :
  ∃ v l, Store.VolumeByName (RO := canonical_range) "proj" "e1" "data" stateful_store = Some v ∧ v ⇝ Volume.Lease = Some l
    ∧ VolumeLease.NodeId l = "n1" ∧ VolumeLease.AssignmentId l = "a1".
Proof.
  exact (proj2 (proj2 (one_writer_per_state canonical_range canonical_range_ok wellknown_times Lost.engine Lost.engine sealed_vault
    false false stateful_store Lost.cfg Lost.cfg Lost.start Lost.start reported_instance reported_instance "data"
    wf_stateful_store services_stateful_store eq_refl eq_refl stateful_writer stateful_writer))).
Defined.

(** * Another order of volumes

    Two stateful releases of an environment mount the same two volumes in different
    orders.  Each instance holds the lease of the volume its release names first, so the
    node starts both, and both mount both volumes. *)

Definition ordered_spec (volumes : list string) : ServiceSpec.t :=
  ServiceSpec.mk None None None [] None false 0 true ((λ v, Some (VolumeMount.mk v ("/" +:+ v))) <$> volumes) [] None "" ∅ None.

Definition leased_volume (id name assignment : string) : option Volume.t :=
  Some (Volume.mk (sample_meta id) "proj" "e1" name "n1" VOLUME_STATUS_ACTIVE (Some (VolumeLease.mk "n1" assignment None)) None 0).

Definition two_orders : Store.t :=
  Store.PutAssignments
    [Some (sample_assignment "a1" "n1" "e1" "r1" "" ASSIGNMENT_DESIRED_RUN INSTANCE_STATE_PENDING);
     Some (sample_assignment "a2" "n1" "e1" "r2" "" ASSIGNMENT_DESIRED_RUN INSTANCE_STATE_PENDING)]
  (Store.PutVolume (leased_volume "v1" "data" "a1") (Store.PutVolume (leased_volume "v2" "logs" "a2")
  (Store.PutRelease (Some (sample_release "r1" "e1" 1 (ordered_spec ["data"; "logs"])))
  (Store.PutRelease (Some (sample_release "r2" "e1" 2 (ordered_spec ["logs"; "data"]))) Store.New)))).

Lemma volumes_in_another_order :
  match AgentSync.sendAssignments (RO := canonical_range) (V := sealed_vault) false "n1" two_orders with
  | Ret set =>
    ((λ a, (GetId a, leaseWithholds (GetId a) "n1" (AssignmentSet.Runtime set !! GetId a),
       (λ v, v ⇝ VolumeMount.VolumeName) <$> (AssignmentSet.Runtime set !! GetId a) ⇝ AssignmentRuntime.Spec ⇝ ServiceSpec.Volumes))
     <$> AssignmentSet.Assignments set)
    = [("a1", "", ["data"; "logs"]); ("a2", "", ["logs"; "data"])]
  | Panic => False
  end.
Proof. vm_compute. reflexivity. Qed.
