(* ===== verification/Text.v ===== *)
(** Facts on the text functions of the models: suffixes, labels, folding and the joining
    of hosts and ports. *)
From S2P Require Import Prelude Platform Net Apps Health.
From Stdlib Require Import Ascii.

Lemma string_nil_app t : "" +:+ t = t.
Proof. done. Qed.

Lemma string_cons_app c s t : String c s +:+ t = String c (s +:+ t).
Proof. done. Qed.

Lemma substring_app_l s t : String.substring 0 (String.length s) (s +:+ t) = s.
Proof. induction s as [|c s IH]; [by destruct t|]. rewrite string_cons_app. cbn. by rewrite IH. Qed.

Lemma substring_all t : String.substring 0 (String.length t) t = t.
Proof. induction t as [|c t IH]; [done|]. cbn. by rewrite IH. Qed.

Lemma substring_app_r s t : String.substring (String.length s) (String.length t) (s +:+ t) = t.
Proof. induction s as [|c s IH]; [apply substring_all|exact IH]. Qed.

Lemma length_string_app s t : String.length (s +:+ t) = (String.length s + String.length t)%nat.
Proof. induction s as [|c s IH]; [done|]. rewrite string_cons_app. cbn. by rewrite IH. Qed.

Lemma TrimSuffix_app s t : TrimSuffix (s +:+ t) t = s.
Proof.
  unfold TrimSuffix. rewrite length_string_app. replace (String.length s + String.length t - String.length t) with (String.length s) by lia.
  rewrite substring_app_r, substring_app_l, (proj2 (str_eqb_eq _ _) eq_refl), andb_true_r.
  by rewrite (proj2 (Nat.leb_le _ _)) by lia.
Qed.

Lemma HasSuffix_app s t : Domains.HasSuffix (s +:+ t) t = true.
Proof.
  unfold Domains.HasSuffix. rewrite length_string_app. replace (String.length s + String.length t - String.length t) with (String.length s) by lia.
  rewrite substring_app_r, (proj2 (str_eqb_eq _ _) eq_refl), andb_true_r. apply Nat.leb_le. lia.
Qed.

Lemma substring_split k s : (k ≤ String.length s)%nat → String.substring 0 k s +:+ String.substring k (String.length s - k) s = s.
Proof.
  revert s. induction k as [|k IH]; intros s Hk.
  - rewrite Nat.sub_0_r. assert (String.substring 0 0 s = "") as -> by (by destruct s).
    apply substring_all.
  - destruct s as [|c s]; [cbn in Hk; lia|]. cbn. rewrite string_cons_app. f_equal. apply IH. cbn in Hk. lia.
Qed.

Lemma HasSuffix_true s t : Domains.HasSuffix s t = true → ∃ p, s = p +:+ t.
Proof.
  unfold Domains.HasSuffix. intros [Hlen%Nat.leb_le Hs%str_eqb_eq]%andb_true_iff.
  exists (String.substring 0 (String.length s - String.length t) s).
  pose proof (substring_split (String.length s - String.length t) s ltac:(lia)) as H.
  replace (String.length s - (String.length s - String.length t)) with (String.length t) in H by lia. by rewrite Hs in H.
Qed.

Lemma Split_not_nil s c : Split s c ≠ [].
Proof. destruct s as [|d s]; [done|]. cbn. destruct (Ascii.eqb d c); [done|]. by destruct (Split s c). Qed.

Lemma Split_app s t c : Split (s +:+ String c t) c = Split s c ++ Split t c.
Proof.
  induction s as [|d s IH]; [rewrite string_nil_app; cbn; by rewrite Ascii.eqb_refl|]. rewrite ?string_cons_app. cbn. destruct (Ascii.eqb d c); [by rewrite IH|].
  rewrite IH. pose proof (Split_not_nil s c). by destruct (Split s c).
Qed.

Lemma Split_single s c x : Split s c = [x] → x = s.
Proof.
  revert x. induction s as [|d s IH]; intros x; cbn; [by intros [= <-]|]. destruct (Ascii.eqb d c).
  { intros [= _ H]. by destruct (Split_not_nil s c). }
  destruct (Split s c) as [|y l] eqn:E; [by destruct (Split_not_nil s c)|]. intros [= <- ->]. by rewrite (IH y).
Qed.

Lemma ToLower_app s t : ToLower (s +:+ t) = ToLower s +:+ ToLower t.
Proof. induction s as [|c s IH]; [done|]. rewrite string_cons_app. cbn. by rewrite IH. Qed.

Lemma ascii_lower_idemp c : ascii_lower (ascii_lower c) = ascii_lower c.
Proof. destruct c as [b0 b1 b2 b3 b4 b5 b6 b7]. destruct b0, b1, b2, b3, b4, b5, b6, b7; vm_compute; reflexivity. Qed.

Lemma ToLower_idemp s : ToLower (ToLower s) = ToLower s.
Proof. induction s as [|c s IH]; [done|]. cbn. by rewrite ascii_lower_idemp, IH. Qed.

Lemma ascii_lower_dot c : ascii_lower c = "."%char → c = "."%char.
Proof. destruct c as [b0 b1 b2 b3 b4 b5 b6 b7]. destruct b0, b1, b2, b3, b4, b5, b6, b7; vm_compute; intros H; try discriminate H; reflexivity. Qed.

Lemma string_app_assoc s t u : s +:+ (t +:+ u) = (s +:+ t) +:+ u.
Proof. induction s as [|c s IH]; [done|]. rewrite !string_cons_app. by rewrite IH. Qed.

Lemma IndexByte_app s c t : IndexByte s c = None → IndexByte (s +:+ String c t) c = Some (String.length s).
Proof.
  induction s as [|d s IH]; [rewrite string_nil_app; cbn; by rewrite Ascii.eqb_refl|]. rewrite ?string_cons_app. cbn. destruct (Ascii.eqb d c); [done|].
  destruct (IndexByte s c); [done|]. intros _. by rewrite IH.
Qed.

Lemma Split_no_dot s : IndexByte s "." = None → Split (ToLower s) "." = [ToLower s].
Proof.
  induction s as [|d s IH]; [done|]. cbn. destruct (Ascii.eqb_spec d "."); [done|]. destruct (IndexByte s "."); [done|]. intros _.
  destruct (Ascii.eqb_spec (ascii_lower d) "."); [by apply ascii_lower_dot in e|]. by rewrite IH.
Qed.

(** Hosts without a colon are joined to their ports without ambiguity. *)
Lemma JoinHostPort_inj h1 h2 p1 p2 :
  IndexByte h1 ":" = None → IndexByte h2 ":" = None → Health.JoinHostPort h1 p1 = Health.JoinHostPort h2 p2 → h1 = h2 ∧ p1 = p2.
Proof.
  unfold Health.JoinHostPort. intros H1 H2. rewrite H1, H2. change (":" +:+ p1) with (String ":" p1). change (":" +:+ p2) with (String ":" p2).
  intros H. pose proof (IndexByte_app h1 ":" p1 H1) as L. rewrite H, (IndexByte_app h2 ":" p2 H2) in L. injection L as L.
  assert (h1 = h2) as ->.
  { rewrite <- (substring_app_l h1 (String ":" p1)), <- (substring_app_l h2 (String ":" p2)). by rewrite H, L. }
  split; [done|]. clear -H. induction h2 as [|c h2 IH]; [by injection H|]. rewrite !string_cons_app in H. injection H as H. by apply IH.
Qed.
