(* ===== verification/Dns.v ===== *)
(** Internal names (internal/daemon/intdns/resolver.go, with NetworkScopes of
    internal/daemon/agent/netscope.go): the resolver of each bridge network of a node
    answers `.internal` names with the address of a service of the network's own
    environment, and forwards the others.  The DNS library is a parameter: its messages,
    and what an upstream answers.  A reply that the resolver makes records the request
    it was set from and the fields the code sets. *)
From S2P Require Import Prelude Api Watch State StateInv StoreProps Fsm Samples Platform Leader Orchestrator Control Rpc Apps.
From S2P Require Import Follow Net Networks Scheduler SchedulerProps Routes Health Text AgentSync.
From Stdlib Require Import Ascii.

Module Question.
Record t := mk { Name : string; Qtype : Z }.
End Question.

(** The A record of a reply; the address is nil when the text is not an address. *)
Module RR.
Record t := mk { Name : string; Ttl : Z; A : option (list Z) }.
End RR.

Class DnsLib := {
  Msg : Type;
  Questions : Msg → list Question.t
}.

Module NetworkScope.
Record t := mk { Gateway : string; ProjectID : string; EnvID : string }.
End NetworkScope.

Module Dns.

Definition internalTTL : Z := 5.
Definition internalZone : string := "internal".

(** Return codes and types of the protocol. *)
Definition RcodeSuccess : Z := 0.
Definition RcodeFormatError : Z := 1.
Definition RcodeServerFailure : Z := 2.
Definition RcodeNameError : Z := 3.
Definition TypeA : Z := 1.
Definition TypeANY : Z := 255.

Module Reply.
Record t {D : DnsLib} := mk {
  to : Msg;
  Authoritative : bool;
  RecursionAvailable : bool;
  Rcode : Z;
  Answer : list RR.t
}.
Arguments mk {D}.
End Reply.

Inductive reply {D : DnsLib} :=
| Made (m : Reply.t)
| Relayed (m : Msg).

Definition isInternalName (name : string) : bool :=
  (name =? internalZone) || Domains.HasSuffix name ("." +:+ internalZone).

Definition firstLabel (fqdn : string) : string :=
  match IndexByte fqdn "." with
  | Some i => ToLower (slice fqdn 0 i)
  | None => ToLower fqdn
  end.

Definition in_scope (scope : NetworkScope.t) (s : InternalService.t) : bool :=
  (InternalService.ProjectId s =? NetworkScope.ProjectID scope) && (InternalService.EnvironmentId s =? NetworkScope.EnvID scope).

(** `<svc>.internal` is a service of the scope; a full name is the first service of that
    name, if it is of the scope. *)
Definition findService (snap : RouteSnapshot.t) (scope : NetworkScope.t) (name : string) : option InternalService.t :=
  match Split name "." with
  | [svc; _] =>
    List.find (λ s, in_scope scope s && (firstLabel (InternalService.Fqdn s) =? svc)) (RouteSnapshot.InternalServices snap)
  | _ =>
    match List.find (λ s, EqualFold (InternalService.Fqdn s) (name +:+ ".")) (RouteSnapshot.InternalServices snap) with
    | Some s => if in_scope scope s then Some s else None
    | None => None
    end
  end.

Section resolver.
Context {D : DnsLib}.

Definition answerInternal (snap : RouteSnapshot.t) (scope : NetworkScope.t) (req : Msg) (q : Question.t) (name : string) :
    Reply.t :=
  let made := Reply.mk req true false in
  match findService snap scope name with
  | None => made RcodeNameError []
  | Some svc =>
    if InternalService.Vip svc =? "" then made RcodeNameError []
    else if negb (Question.Qtype q =? TypeA)%Z && negb (Question.Qtype q =? TypeANY)%Z then made RcodeSuccess []
    else made RcodeSuccess [RR.mk (Question.Name q) internalTTL (ParseIP (InternalService.Vip svc))]
  end.

(** What an upstream answers, [None] on an error or without an answer. *)
Variable exchange : Msg → string → option Msg.

Fixpoint forward (upstreams : list string) (req : Msg) : reply :=
  match upstreams with
  | [] => Made (Reply.mk req false false RcodeServerFailure [])
  | up :: upstreams =>
    match exchange req up with
    | Some resp => Relayed resp
    | None => forward upstreams req
    end
  end.

(** The name a question asks for. *)
Definition asked (q : Question.t) : string := ToLower (TrimSuffix (Question.Name q) ".").

Definition Answer (upstreams : list string) (snap : RouteSnapshot.t) (scope : NetworkScope.t) (req : Msg) : reply :=
  match Questions req with
  | [q] =>
    let name := asked q in
    if isInternalName name then Made (answerInternal snap scope req q name)
    else forward upstreams req
  | _ => Made (Reply.mk req true false RcodeFormatError [])
  end.

End resolver.

(** * The servers of a node *)

(** A server answers for the scope it was started with; a socket that could not be bound
    is only logged. *)
Module boundServer.
Record t := mk { scope : NetworkScope.t; udp : bool; tcp : bool }.
End boundServer.

Section servers.
Context {RO : RangeOrder}.

(** Whether the kernel lets a socket bind an address of the node now. *)
Variable bind : bool → string → bool.

Definition startServer (scope : NetworkScope.t) : boundServer.t :=
  boundServer.mk scope (bind true (NetworkScope.Gateway scope)) (bind false (NetworkScope.Gateway scope)).

Definition wanted (scopes : list NetworkScope.t) : gmap string NetworkScope.t :=
  insert_all NetworkScope.Gateway (λ s, s) scopes ∅.

Definition start_missing (servers : gmap string boundServer.t) (ws : string * NetworkScope.t) : gmap string boundServer.t :=
  match servers !! ws.1 with
  | Some _ => servers
  | None => <[ws.1 := startServer ws.2]> servers
  end.

Definition stop_unwanted (want : gmap string NetworkScope.t) (servers : gmap string boundServer.t)
    (ws : string * boundServer.t) : gmap string boundServer.t :=
  match want !! ws.1 with Some _ => servers | None => delete ws.1 servers end.

Definition Reconcile (scopes : list NetworkScope.t) (servers : gmap string boundServer.t) : gmap string boundServer.t :=
  let want := wanted scopes in
  let servers := foldl start_missing servers (range want) in
  foldl (stop_unwanted want) servers (range servers).

Definition Close (servers : gmap string boundServer.t) : gmap string boundServer.t :=
  foldl (λ m (gb : string * boundServer.t), delete gb.1 m) servers (range servers).

(** The scopes of the node's networks, from the set of assignments it runs. *)
Definition byGateway (set : AssignmentSet.t) : gmap string NetworkScope.t :=
  foldl (λ m a,
    let subnet := (AssignmentSet.Runtime set !! GetId a) ⇝ AssignmentRuntime.SubnetCidr in
    if subnet =? "" then m
    else match Networks.GatewayIP subnet with
    | None => m
    | Some gw => <[gw := NetworkScope.mk gw (a ⇝ Assignment.ProjectId) (a ⇝ Assignment.EnvironmentId)]> m
    end) ∅ (AssignmentSet.Assignments set).

Definition NetworkScopes (set : option AssignmentSet.t) : list NetworkScope.t :=
  match set with
  | None => []
  | Some set => (range (byGateway set)).*2
  end.

End servers.
End Dns.

Lemma firstLabel_app s t : IndexByte s "." = None → Dns.firstLabel (s +:+ String "." t) = ToLower s.
Proof.
  intros H. unfold Dns.firstLabel. rewrite IndexByte_app by done. unfold slice. by rewrite Nat.sub_0_r, substring_app_l.
Qed.

(** * What a name resolves to *)

Section lookup.
Import Dns.

(** The service a name stands for: in short by its first label, or in full. *)
Definition stands_for (name : string) (s : InternalService.t) : Prop :=
  name = firstLabel (InternalService.Fqdn s) +:+ ".internal" ∨ name +:+ "." = ToLower (InternalService.Fqdn s).

Lemma in_scope_spec scope s :
  in_scope scope s = true ↔ InternalService.ProjectId s = NetworkScope.ProjectID scope
    ∧ InternalService.EnvironmentId s = NetworkScope.EnvID scope.
Proof. unfold in_scope. by rewrite andb_true_iff, !str_eqb_eq. Qed.

Lemma two_labels name svc zone :
  isInternalName name = true → Split name "." = [svc; zone] → name = svc +:+ ".internal".
Proof.
  unfold isInternalName. intros [->%str_eqb_eq|[p ->]%HasSuffix_true]%orb_true_iff Hs; [done|].
  change ("." +:+ internalZone) with (String "." "internal") in Hs |- *. rewrite Split_app in Hs.
  change (Split "internal" ".") with ["internal"] in Hs. destruct (Split p ".") as [|x [|y l]] eqn:E; [by apply Split_not_nil in E| |].
  - injection Hs as -> _. apply Split_single in E as ->. done.
  - injection Hs as _ _ H. by destruct l.
Qed.

Lemma findService_spec snap scope n s :
  let name := ToLower n in
  isInternalName name = true → findService snap scope name = Some s →
  s ∈ RouteSnapshot.InternalServices snap ∧ in_scope scope s = true ∧ stands_for name s.
Proof.
  intros name Hint. unfold findService, stands_for.
  assert (match List.find (λ s, EqualFold (InternalService.Fqdn s) (name +:+ ".")) (RouteSnapshot.InternalServices snap) with
    | Some s => if in_scope scope s then Some s else None | None => None end = Some s →
    s ∈ RouteSnapshot.InternalServices snap ∧ in_scope scope s = true ∧
    (name = firstLabel (InternalService.Fqdn s) +:+ ".internal" ∨ name +:+ "." = ToLower (InternalService.Fqdn s))) as Hfull.
  { destruct (List.find _ _) as [s'|] eqn:E; [|done]. apply find_some in E as [Hin Hf]. destruct (in_scope scope s') eqn:Hs; [|done].
    intros [= <-]. split; [by apply list_elem_of_In|]. split; [done|]. right. unfold EqualFold in Hf. apply str_eqb_eq in Hf.
    rewrite Hf, ToLower_app. unfold name. by rewrite ToLower_idemp. }
  destruct (Split name ".") as [|svc [|zone [|? ?]]] eqn:E; try exact Hfull. intros Hf. apply find_some in Hf as [Hin [Hs Hl%str_eqb_eq]%andb_true_iff].
  split; [by apply list_elem_of_In|]. split; [done|]. left. rewrite Hl. by eapply two_labels.
Qed.

(** A name of at least three labels is looked up in full. *)
Lemma findService_full snap scope s n :
  let name := ToLower n in
  (3 ≤ length (Split name "."))%nat → s ∈ RouteSnapshot.InternalServices snap → in_scope scope s = true →
  ToLower (InternalService.Fqdn s) = name +:+ "." →
  (∀ s', s' ∈ RouteSnapshot.InternalServices snap → ToLower (InternalService.Fqdn s') = name +:+ "." → s' = s) →
  findService snap scope name = Some s.
Proof.
  intros name Hlen Hin Hsc Hf Huniq. unfold findService.
  assert (List.find (λ s, EqualFold (InternalService.Fqdn s) (name +:+ ".")) (RouteSnapshot.InternalServices snap) = Some s) as E.
  { assert (ToLower (name +:+ ".") = name +:+ ".") as Hlow by (rewrite ToLower_app; unfold name; by rewrite ToLower_idemp).
    destruct (List.find _ _) as [s'|] eqn:E.
    - apply find_some in E as [Hin' Hf'%str_eqb_eq]. rewrite Hlow in Hf'. f_equal. apply Huniq; [by apply list_elem_of_In|done].
    - apply (find_none _ _) with (x := s) in E; [|by apply list_elem_of_In]. unfold EqualFold in E. rewrite Hlow, Hf in E.
      by apply str_eqb_neq in E. }
  rewrite E, Hsc. destruct (Split name ".") as [|? [|? [|? ?]]]; cbn in Hlen; by try lia.
Qed.

Lemma findService_short snap scope s label :
  IndexByte label "." = None → s ∈ RouteSnapshot.InternalServices snap → in_scope scope s = true →
  firstLabel (InternalService.Fqdn s) = ToLower label →
  (∀ s', s' ∈ RouteSnapshot.InternalServices snap → in_scope scope s' = true → s' = s) →
  findService snap scope (ToLower label +:+ ".internal") = Some s.
Proof.
  intros Hdot Hin Hsc Hl Huniq. unfold findService. change ".internal" with (String "." "internal").
  assert (Split (ToLower label +:+ String "." "internal") "." = [ToLower label; "internal"]) as -> by (rewrite Split_app, Split_no_dot; done).
  destruct (List.find _ _) as [s'|] eqn:E.
  - apply find_some in E as [Hin' [Hs' _]%andb_true_iff]. f_equal. apply Huniq; [by apply list_elem_of_In|done].
  - apply (find_none _ _) with (x := s) in E; [|by apply list_elem_of_In]. rewrite Hsc, Hl in E. by apply str_eqb_neq in E.
Qed.
End lookup.

Section scoped.
Context {RO : RangeOrder} {ROk : RangeOrderOk RO} {D : DnsLib}.
Import Dns.

Lemma elem_of_internal domain st s :
  s ∈ RouteSnapshot.InternalServices (Routes.build domain st) ↔
  ∃ env app, linked st env app ∧ s ∈ Routes.env_internal st env app.
Proof. apply (elem_of_built (Routes.env_internal st)). Qed.

(** The service of an environment that has an address. *)
Definition service_of (st : Store.t) (env : option Environment.t) (app : option App.t) (vip : string) (s : InternalService.t) : Prop :=
  Store.serviceVIPs st !! GetId env = Some vip ∧ InternalService.Vip s = vip
  ∧ InternalService.EnvironmentId s = GetId env ∧ InternalService.ProjectId s = env ⇝ Environment.ProjectId
  ∧ InternalService.Fqdn s = app ⇝ App.Name +:+ "." +:+ env ⇝ Environment.Name +:+ "."
      +:+ Routes.projectName st (env ⇝ Environment.ProjectId) +:+ ".internal.".

Lemma env_internal_spec st env app s : s ∈ Routes.env_internal st env app → ∃ vip, service_of st env app vip s.
Proof.
  unfold Routes.env_internal, Store.ServiceVIP, service_of. destruct (Store.serviceVIPs st !! GetId env) as [vip|] eqn:Hv; [|by intros ?%elem_of_nil].
  intros ->%list_elem_of_singleton. by exists vip.
Qed.

Lemma env_internal_some st env app vip :
  Store.serviceVIPs st !! GetId env = Some vip → ∃ s, Routes.env_internal st env app = [s] ∧ service_of st env app vip s.
Proof. intros Hv. unfold Routes.env_internal, Store.ServiceVIP, service_of. rewrite Hv. by eexists. Qed.

(** An environment has one app, so there is at most one service in a scope. *)
Lemma one_service_per_scope domain st scope s1 s2 :
  wf st → s1 ∈ RouteSnapshot.InternalServices (Routes.build domain st) →
  s2 ∈ RouteSnapshot.InternalServices (Routes.build domain st) →
  in_scope scope s1 = true → in_scope scope s2 = true → s1 = s2.
Proof.
  intros Hwf (env1 & app1 & [[i1 He1] Ha1] & H1)%elem_of_internal (env2 & app2 & [[i2 He2] Ha2] & H2)%elem_of_internal.
  intros [_ S1]%in_scope_spec [_ S2]%in_scope_spec. pose proof H1 as (v1 & _ & _ & E1 & _)%env_internal_spec.
  pose proof H2 as (v2 & _ & _ & E2 & _)%env_internal_spec.
  pose proof (wf_environments _ Hwf _ _ He1) as K1. pose proof (wf_environments _ Hwf _ _ He2) as K2.
  assert (env1 = env2) as <-. { cut (Some env1 = Some env2); [by intros [= ->]|]. rewrite <- He1, <- He2. f_equal. congruence. }
  assert (app1 = app2) as <- by congruence. unfold Routes.env_internal in H1, H2. destruct (Store.ServiceVIP _ st); [|by apply elem_of_nil in H1].
  apply list_elem_of_singleton in H1 as ->. by apply list_elem_of_singleton in H2 as ->.
Qed.

(** The reply to a question of an internal name. *)
Definition resolved (req : Msg) (q : Question.t) (vip : string) : Reply.t :=
  Reply.mk req true false RcodeSuccess
    (if (Question.Qtype q =? TypeA)%Z || (Question.Qtype q =? TypeANY)%Z
     then [RR.mk (Question.Name q) internalTTL (ParseIP vip)] else []).

Lemma answerInternal_found snap scope req q name s :
  findService snap scope name = Some s → InternalService.Vip s ≠ "" →
  answerInternal snap scope req q name = resolved req q (InternalService.Vip s).
Proof.
  intros Hf Hv. unfold answerInternal, resolved. rewrite Hf, (proj2 (str_eqb_neq _ _) Hv).
  by destruct (Question.Qtype q =? TypeA)%Z, (Question.Qtype q =? TypeANY)%Z.
Qed.

Lemma answerInternal_none snap scope req q name :
  (∀ s, findService snap scope name = Some s → InternalService.Vip s = "") →
  answerInternal snap scope req q name = Reply.mk req true false RcodeNameError [].
Proof.
  unfold answerInternal. intros H. destruct (findService snap scope name) as [s|] eqn:E; [|done]. by rewrite (H s eq_refl).
Qed.

(** The labels of a name in full. *)
Lemma three_labels a e p : (3 ≤ length (Split (ToLower (a +:+ "." +:+ e +:+ "." +:+ p +:+ ".internal")) "."))%nat.
Proof.
  rewrite !ToLower_app. set (rest := ToLower p +:+ ToLower ".internal").
  change (ToLower a +:+ ToLower "." +:+ ToLower e +:+ ToLower "." +:+ rest)
    with (ToLower a +:+ String "." (ToLower e +:+ String "." rest)).
  rewrite !Split_app, !length_app. pose proof (Split_not_nil rest "."). pose proof (Split_not_nil (ToLower a) "."). pose proof (Split_not_nil (ToLower e) ".").
  destruct (Split (ToLower a) "."), (Split (ToLower e) "."), (Split rest "."); cbn; try done. lia.
Qed.
End scoped.

(** C13: names resolve inside their own network.  On a snapshot of a well-formed state,
    the resolver of a network answers every name under `.internal` itself, with
    authority and never from an upstream.  It gives an address only if the name stands,
    in short or in full, for the service of an app of the network's own project, in an
    environment of the name of the network's own environment, and then that service's
    address; otherwise the name does not exist, so a name of another project or of
    another environment never resolves.  The service of the network's own environment is
    found by its app's name, and in full when no other service has that name.  (Of the
    services of the project's other apps, which the documentation says are found too,
    nothing is promised here: see siblings_are_not_found.) *)
Theorem names_resolve_in_scope (RO : RangeOrder) (ROk : RangeOrderOk RO) (D : DnsLib) (domain : string) (st : Store.t)
    (scope : NetworkScope.t) (req : Msg) (q : Question.t) (exchange : Msg → string → option Msg) (upstreams : list string) :
  wf st → Questions req = [q] → Dns.isInternalName (Dns.asked q) = true →
  let snap := Routes.build domain st in
  let reply := Dns.Answer exchange upstreams snap scope req in
  (reply = Dns.Made (Dns.Reply.mk req true false Dns.RcodeNameError [])
   ∨ ∃ env app vip s, linked st env app ∧ service_of st env app vip s ∧ vip ≠ ""
       ∧ env ⇝ Environment.ProjectId = NetworkScope.ProjectID scope
       ∧ (∀ own id, Store.environments st !! id = Some own → GetId own = NetworkScope.EnvID scope →
            env ⇝ Environment.Name = own ⇝ Environment.Name)
       ∧ stands_for (Dns.asked q) s ∧ reply = Dns.Made (resolved req q vip))
  ∧ ∀ env app vip, linked st env app → GetId env = NetworkScope.EnvID scope →
      env ⇝ Environment.ProjectId = NetworkScope.ProjectID scope →
      Store.serviceVIPs st !! GetId env = Some vip → vip ≠ "" →
      (Dns.asked q = ToLower (app ⇝ App.Name) +:+ ".internal" → IndexByte (app ⇝ App.Name) "." = None →
         reply = Dns.Made (resolved req q vip))
      ∧ (let name := ToLower (app ⇝ App.Name +:+ "." +:+ env ⇝ Environment.Name +:+ "."
           +:+ Routes.projectName st (env ⇝ Environment.ProjectId) +:+ ".internal") in
         Dns.asked q = name →
         (∀ s, s ∈ RouteSnapshot.InternalServices snap → ToLower (InternalService.Fqdn s) = name +:+ "." →
            Dns.in_scope scope s = true) →
         reply = Dns.Made (resolved req q vip)).
Proof.
  intros Hwf Hq Hint snap reply. assert (reply = Dns.Made (Dns.answerInternal snap scope req q (Dns.asked q))) as Hr.
  { unfold reply, Dns.Answer. by rewrite Hq, Hint. }
  clearbody reply. subst reply. split.
  - destruct (Dns.findService snap scope (Dns.asked q)) as [s|] eqn:Hf; [|left; by rewrite answerInternal_none by congruence].
    destruct (decide (InternalService.Vip s = "")) as [Hv|Hv]; [left; rewrite answerInternal_none by congruence; done|]. right.
    pose proof Hf as (Hin & Hsc & Hn)%findService_spec; [|done]. apply elem_of_internal in Hin as (env & app & Hl & Hs).
    apply env_internal_spec in Hs as (vip & Hs). pose proof Hs as (_ & <- & He & Hp & _). apply in_scope_spec in Hsc as [Hsp Hse].
    exists env, app, (InternalService.Vip s), s. rewrite <- Hp. split_and!; try done.
    + intros own id Ho Hown. destruct Hl as [[i Hi] _]. pose proof (wf_environments _ Hwf _ _ Ho) as K1.
      pose proof (wf_environments _ Hwf _ _ Hi) as K2. assert (Some env = Some own) as [= ->]; [|done]. rewrite <- Hi, <- Ho. f_equal. congruence.
    + by rewrite (answerInternal_found _ _ _ _ _ s).
  - intros env app vip Hl He Hp Hv Hne. destruct (env_internal_some st env app vip Hv) as (s & Hs & Hof).
    assert (s ∈ RouteSnapshot.InternalServices snap) as Hin.
    { apply elem_of_internal. exists env, app. split; [done|]. rewrite Hs. by left. }
    pose proof Hof as (_ & Hvip & E & P & Hfq). assert (Dns.in_scope scope s = true) as Hsc by (apply in_scope_spec; split; congruence).
    assert (∀ s', s' ∈ RouteSnapshot.InternalServices snap → Dns.in_scope scope s' = true → s' = s) as Huniq.
    { intros s' Hin' Hsc'. by eapply one_service_per_scope. }
    rewrite <- Hvip. split.
    + intros Ha Hdot. rewrite (answerInternal_found _ _ _ _ _ s); [done| |congruence]. rewrite Ha. apply findService_short; try done.
      rewrite Hfq. by apply firstLabel_app.
    + intros name Ha Hall. rewrite (answerInternal_found _ _ _ _ _ s); [done| |congruence]. rewrite Ha.
      assert (ToLower (InternalService.Fqdn s) = name +:+ ".") as Hfold.
      { unfold name. rewrite Hfq, <- (ToLower_app _ "."). f_equal. by rewrite <- !string_app_assoc. }
      apply findService_full; [apply three_labels|done..|]. intros s' Hin' Hf'. apply Huniq; [done|]. by apply Hall.
Qed.

(** * Servers follow the networks, not their scopes *)

Section servers_spec.
Context {RO : RangeOrder} {ROk : RangeOrderOk RO}.
Import Dns.

Lemma Reconcile_lookup bind scopes servers gw :
  Reconcile bind scopes servers !! gw =
    match wanted scopes !! gw with
    | Some s => Some (default (startServer bind s) (servers !! gw))
    | None => None
    end.
Proof.
  unfold Reconcile. set (s1 := foldl _ servers (range (wanted scopes))).
  assert (s1 !! gw = match wanted scopes !! gw with Some s => Some (default (startServer bind s) (servers !! gw)) | None => servers !! gw end) as H1.
  { unfold s1. apply (foldl_range_pointwise (λ _ s o, Some (default (startServer bind s) o))).
    - intros m k a. unfold start_missing. cbn. destruct (m !! k) eqn:E; [by rewrite E|]. by rewrite lookup_insert_eq.
    - intros m k a j Hne. unfold start_missing. cbn. destruct (m !! k); [done|]. by rewrite lookup_insert_ne. }
  rewrite (foldl_range_pointwise (λ k _ o, match wanted scopes !! k with Some _ => o | None => None end)).
  - rewrite H1. destruct (wanted scopes !! gw); [done|]. by destruct (servers !! gw).
  - intros m k a. unfold stop_unwanted. cbn. destruct (wanted scopes !! k); [done|]. by rewrite lookup_delete_eq.
  - intros m k a j Hne. unfold stop_unwanted. cbn. destruct (wanted scopes !! k); [done|]. by rewrite lookup_delete_ne.
Qed.

Lemma Close_lookup servers gw : Close servers !! gw = None.
Proof.
  unfold Close. rewrite (foldl_range_pointwise (λ _ _ _, None)); [by destruct (servers !! gw)|..].
  - intros. by rewrite lookup_delete_eq.
  - intros. by rewrite lookup_delete_ne.
Qed.

Lemma wanted_is_Some scopes gw : is_Some (wanted scopes !! gw) ↔ ∃ s, s ∈ scopes ∧ NetworkScope.Gateway s = gw.
Proof.
  unfold wanted. rewrite insert_all_is_Some, list_elem_of_fmap, lookup_empty. split.
  - intros [(s & -> & Hs)|[? [=]]]. by exists s.
  - intros (s & Hs & <-). left. by exists s.
Qed.
End servers_spec.

Section scopes.
Context {RO : RangeOrder} {ROk : RangeOrderOk RO}.
Import Dns.

(** A gateway of the set is one of an assignment's network. *)
Lemma byGateway_spec set gw s :
  byGateway set !! gw = Some s →
  NetworkScope.Gateway s = gw
  ∧ ∃ a, a ∈ AssignmentSet.Assignments set ∧ NetworkScope.ProjectID s = a ⇝ Assignment.ProjectId
      ∧ NetworkScope.EnvID s = a ⇝ Assignment.EnvironmentId
      ∧ Networks.GatewayIP ((AssignmentSet.Runtime set !! GetId a) ⇝ AssignmentRuntime.SubnetCidr) = Some gw.
Proof.
  unfold byGateway. induction (AssignmentSet.Assignments set) as [|a l IH] using rev_ind; [cbn; by rewrite lookup_empty|].
  rewrite foldl_app. cbn [foldl]. set (m := foldl _ ∅ l) in *. clearbody m. set (subnet := (AssignmentSet.Runtime set !! GetId a) ⇝ _).
  assert (m !! gw = Some s → NetworkScope.Gateway s = gw ∧ ∃ b, b ∈ l ++ [a] ∧ NetworkScope.ProjectID s = b ⇝ Assignment.ProjectId
      ∧ NetworkScope.EnvID s = b ⇝ Assignment.EnvironmentId
      ∧ Networks.GatewayIP ((AssignmentSet.Runtime set !! GetId b) ⇝ AssignmentRuntime.SubnetCidr) = Some gw) as Hm.
  { intros (Hg & b & Hb & ?)%IH. split; [done|]. exists b. split; [|done]. apply elem_of_app. by left. }
  destruct (subnet =? ""); [done|]. destruct (Networks.GatewayIP subnet) as [g|] eqn:Hg; [|done].
  intros [[<- <-]|[_ ?]]%lookup_insert_Some; [|by apply Hm]. split; [done|]. exists a.
  split_and!; [apply elem_of_app; right; by left|done..].
Qed.

Lemma wanted_scopes set gw : wanted (NetworkScopes (Some set)) !! gw = byGateway set !! gw.
Proof.
  apply option_eq. intros s. unfold NetworkScopes. split.
  - intros [(s' & Hs & <- & ->)|[H _]]%insert_all_Some; [|by rewrite lookup_empty in H].
    apply list_elem_of_fmap in Hs as ([k s''] & -> & Hk%elem_of_range). cbn. by destruct (byGateway_spec _ _ _ Hk) as [-> _].
  - intros Hs. destruct (byGateway_spec _ _ _ Hs) as [Hg _].
    assert (is_Some (wanted (range (byGateway set)).*2 !! gw)) as [s' Hs'].
    { apply wanted_is_Some. exists s. split; [|done]. apply list_elem_of_fmap. exists (gw, s). by rewrite elem_of_range. }
    rewrite Hs'. f_equal. apply insert_all_Some in Hs' as [(x & Hx & Hk & ->)|[H _]]; [|by rewrite lookup_empty in H].
    apply list_elem_of_fmap in Hx as ([k s''] & -> & Hx%elem_of_range). cbn in *. destruct (byGateway_spec _ _ _ Hx) as [Hg' _].
    assert (k = gw) as -> by congruence. congruence.
Qed.

(** The servers after some passes over sets of the node. *)
Definition passes (l : list ((bool → string → bool) * AssignmentSet.t)) (servers : gmap string boundServer.t) :=
  foldl (λ servers p, Reconcile p.1 (NetworkScopes (Some p.2)) servers) servers l.

Lemma passes_keep l servers gw bs :
  servers !! gw = Some bs → Forall (λ p, is_Some (byGateway p.2 !! gw)) l → passes l servers !! gw = Some bs.
Proof.
  unfold passes. induction l as [|p l IH] using rev_ind; intros Hs Hl; [done|]. apply Forall_app in Hl as [Hl Hp].
  apply Forall_cons in Hp as [[s Hp] _]. rewrite foldl_app. cbn [foldl]. rewrite Reconcile_lookup, wanted_scopes, Hp. by rewrite IH.
Qed.
End scopes.

(** Servers follow the networks of a node, but not what the networks belong to.
    After a pass there is a server on just the gateways of the assignments' networks.  A
    server that was started for a gateway stays, with the scope of its first pass, and
    with the sockets that could be bound in it, as long as every later pass wants the
    gateway, whatever environment the passes want it for. *)
Theorem servers_keep_first_scope (RO : RangeOrder) (ROk : RangeOrderOk RO) (bind : bool → string → bool)
    (set : AssignmentSet.t) (servers : gmap string Dns.boundServer.t) (gw : string) (s : NetworkScope.t)
    (later : list ((bool → string → bool) * AssignmentSet.t)) :
  (∀ g, is_Some (Dns.Reconcile bind (Dns.NetworkScopes (Some set)) servers !! g) ↔ is_Some (Dns.byGateway set !! g))
  ∧ (servers !! gw = None → Dns.byGateway set !! gw = Some s → Forall (λ p, is_Some (Dns.byGateway p.2 !! gw)) later →
     passes ((bind, set) :: later) servers !! gw = Some (Dns.boundServer.mk s (bind true gw) (bind false gw))).
Proof.
  split.
  - intros g. rewrite Reconcile_lookup, wanted_scopes. destruct (Dns.byGateway set !! g); [|done]. by split; eexists.
  - intros Hnone Hs Hl. unfold passes. cbn [foldl fst snd]. apply passes_keep; [|done]. rewrite Reconcile_lookup, wanted_scopes, Hs, Hnone.
    cbn. unfold Dns.startServer. by destruct (byGateway_spec _ _ _ Hs) as [-> _].
Qed.

(** * Witnesses *)

Definition plain_dns : DnsLib := {| Msg := list Question.t; Questions := λ m, m |}.

Definition web_network : NetworkScope.t := NetworkScope.mk "10.201.0.1" "proj" "e1".

Notation ask snap scope name := (Dns.Answer (D := plain_dns) (λ _ _, None) [] snap scope [Question.mk name Dns.TypeA]).

(** In the network of its own environment the app is found, by its short name. *)
Lemma names_resolve_in_scope_witness :
  ask (Routes.build (RO := canonical_range) "zt.dev" web_store) web_network "web.internal."
  = Dns.Made (resolved (D := plain_dns) [Question.mk "web.internal." Dns.TypeA] (Question.mk "web.internal." Dns.TypeA) "10.97.0.1").
Proof.
  refine (proj1 (proj2 (names_resolve_in_scope canonical_range canonical_range_ok plain_dns "zt.dev" web_store web_network
    [Question.mk "web.internal." Dns.TypeA] (Question.mk "web.internal." Dns.TypeA) (λ _ _, None) [] wf_web_store eq_refl eq_refl)
    (Some (sample_env "e1" "r1" web_spec)) (Some (App.mk (sample_meta "app") "proj" "web" None None)) "10.97.0.1" _ _ _ _ _) _ _).
  - split; [exists "e1"|]; vm_compute; reflexivity.
  - reflexivity.
  - reflexivity.
  - vm_compute. reflexivity.
  - discriminate.
  - reflexivity.
  - reflexivity.
Defined.

(** A network of the node, of one environment. *)
Definition on_network (env cidr : string) : AssignmentSet.t :=
  AssignmentSet.mk 1 [Some (sample_assignment "a1" "n1" env "r1" "" ASSIGNMENT_DESIRED_RUN INSTANCE_STATE_HEALTHY)]
    {["a1" := AssignmentRuntime.mk "web:1" None ∅ cidr None]}.

(** The subnet of e9 is freed and goes to e1: its containers still ask as e9's. *)
Lemma servers_keep_first_scope_witness :
  Dns.byGateway (on_network "e1" "10.201.0.0/24") !! "10.201.0.1" = Some web_network
  ∧ passes (RO := canonical_range) [(λ _ _, true, on_network "e9" "10.201.0.0/24"); (λ _ _, true, on_network "e1" "10.201.0.0/24")] ∅
      !! "10.201.0.1" = Some (Dns.boundServer.mk (NetworkScope.mk "10.201.0.1" "proj" "e9") true true).
Proof.
  split; [vm_compute; reflexivity|].
  refine (proj2 (servers_keep_first_scope canonical_range canonical_range_ok (λ _ _, true) (on_network "e9" "10.201.0.0/24") ∅
    "10.201.0.1" (NetworkScope.mk "10.201.0.1" "proj" "e9") [(λ _ _, true, on_network "e1" "10.201.0.0/24")]) _ _ _).
  - reflexivity.
  - vm_compute. reflexivity.
  - constructor; [|constructor]. exists web_network. vm_compute. reflexivity.
Defined.

(** So e1 does not find itself on its own network. *)
Lemma stale_scope_hides_the_app :
  ask (Routes.build (RO := canonical_range) "zt.dev" web_store) (NetworkScope.mk "10.201.0.1" "proj" "e9") "web.internal."
  = Dns.Made (Dns.Reply.mk (D := plain_dns) [Question.mk "web.internal." Dns.TypeA] true false Dns.RcodeNameError []).
Proof. vm_compute. reflexivity. Qed.

(** * Siblings

    The project has a second app in an environment of the same name, with an address:
    the documentation's db.internal.  An environment is of one app, and a scope names one
    environment, so neither form of the sibling's name is found. *)

Definition db_env : option Environment.t :=
  Some (Environment.mk (sample_meta "e2") "db" "proj" "e1" ENVIRONMENT_TYPE_PRODUCTION (Some web_spec) "r2" 7 0 None 0 None).

Definition sibling_store : Store.t :=
  Store.SetServiceVIP "e2" "10.97.0.2" (Store.PutEnvironment db_env
    (Store.PutApp (Some (App.mk (sample_meta "db") "proj" "db" None None)) web_store)).

Lemma siblings_are_not_found :
  let snap := Routes.build (RO := canonical_range) "zt.dev" sibling_store in
  (InternalService.Fqdn <$> RouteSnapshot.InternalServices snap) = ["web.e1.shop.internal."; "db.e1.shop.internal."]
  ∧ forallb (λ name, match ask snap web_network name with
      | Dns.Made r => (Dns.Reply.Rcode r =? Dns.RcodeNameError)%Z
      | Dns.Relayed _ => false
      end) ["db.internal."; "db.e1.shop.internal."] = true.
Proof. vm_compute. split; reflexivity. Qed.
