(* ===== verification/Listeners.v ===== *)
(** The listeners of a node: the internal addresses of services
    (internal/daemon/intdns/vipproxy.go) and the public TCP ports
    (internal/daemon/proxy/l4.go).  Both follow the route snapshots: what is wanted and
    missing is opened, what is there gets the new endpoints, what is not wanted is
    closed.  What the host answers to a pass is a parameter; the effects of a pass on
    the host are recorded in their order.  A connection's bytes are not modelled. *)
From stdpp Require Import pretty.
From S2P Require Import Prelude Api Watch State StateInv StoreProps Fsm Samples Platform Leader Orchestrator Control.
From S2P Require Import Follow Net Networks Scheduler SchedulerProps Routes Proxy ProxyProps Health Text Vips.
From Stdlib Require Import Ascii.

(** * Service addresses (vipproxy.go) *)

Module VIP.

(** What the host answers in a pass, by address. *)
Module host.
Record t := mk { ensured : bool; added : string → bool; listened : string → bool }.
End host.

Inductive effect :=
| EnsureDummy
| AddAddr (cidr : string)
| Listen (addr : string)
| CloseListener (addr : string)
| DelAddr (cidr : string).

(** A listener is its current endpoints; [inflight] counters are created at their first
    use. *)
Record t := mk {
  started : bool;
  inflight : gmap string Z;
  addrs : gset string;
  listeners : gmap string (list Endpoint.t)
}.

Definition init : t := mk false ∅ ∅ ∅.

Definition wantAddr (snap : RouteSnapshot.t) : gset string :=
  list_to_set (omap (λ s, if InternalService.Vip s =? "" then None else Some (InternalService.Vip s))
    (RouteSnapshot.InternalServices snap)).

(** The key of a port that gets a listener. *)
Definition port_key (vip : string) (p : InternalPort.t) : option string :=
  if (InternalPort.Port p =? 0)%Z then None
  else if EqualFold (InternalPort.Protocol p) "udp" then None
  else Some (Health.JoinHostPort vip (pretty (InternalPort.Port p))).

(** The listeners of a service, in the order of its ports. *)
Definition service_ports (s : InternalService.t) : list (string * list Endpoint.t) :=
  let vip := InternalService.Vip s in
  if vip =? "" then []
  else omap (λ p, (λ key, (key, InternalPort.Endpoints p)) <$> port_key vip p) (InternalService.Ports s).

Definition wantLis (snap : RouteSnapshot.t) : gmap string (list Endpoint.t) :=
  insert_all fst snd (RouteSnapshot.InternalServices snap ≫= service_ports) ∅.

Section reconcile.
Context {RO : RangeOrder}.
Variable h : host.t.

Notation prog := (t * list effect)%type.

Definition ensure (want : gset string) (p : prog) : prog :=
  let '(v, log) := p in
  if negb (bool_decide (want = ∅)) && negb (started v) then
    (mk (host.ensured h) (inflight v) (addrs v) (listeners v), log ++ [EnsureDummy])
  else p.

Definition add_addr (p : prog) (vip : string) : prog :=
  let '(v, log) := p in
  if bool_decide (vip ∈ addrs v) then p
  else
    (if host.added h vip then mk (started v) (inflight v) ({[vip]} ∪ addrs v) (listeners v) else v,
     log ++ [AddAddr (vip +:+ "/32")]).

Definition open_listener (p : prog) (want : string * list Endpoint.t) : prog :=
  let '(v, log) := p in
  let '(key, eps) := want in
  match listeners v !! key with
  | Some _ => (mk (started v) (inflight v) (addrs v) (<[key := eps]> (listeners v)), log)
  | None =>
    (if host.listened h key then mk (started v) (inflight v) (addrs v) (<[key := eps]> (listeners v)) else v,
     log ++ [Listen key])
  end.

Definition close_listener (want : gmap string (list Endpoint.t)) (p : prog) (l : string * list Endpoint.t) : prog :=
  let '(v, log) := p in
  match want !! l.1 with
  | Some _ => p
  | None => (mk (started v) (inflight v) (addrs v) (delete l.1 (listeners v)), log ++ [CloseListener l.1])
  end.

Definition del_addr (want : gset string) (p : prog) (vip : string) : prog :=
  let '(v, log) := p in
  if bool_decide (vip ∈ want) then p
  else (mk (started v) (inflight v) (addrs v ∖ {[vip]}) (listeners v), log ++ [DelAddr (vip +:+ "/32")]).

Definition Reconcile (snap : RouteSnapshot.t) (v : t) : prog :=
  let wantA := wantAddr snap in
  let wantL := wantLis snap in
  let p := ensure wantA (v, []) in
  let p := foldl add_addr p (range_keys wantA) in
  let p := foldl open_listener p (range wantL) in
  let p := foldl (close_listener wantL) p (range (listeners p.1)) in
  foldl (del_addr wantA) p (range_keys (addrs p.1)).

Definition Close (v : t) : prog :=
  let p := foldl (close_listener ∅) (v, []) (range (listeners v)) in
  foldl (del_addr ∅) p (range_keys (addrs v)).

End reconcile.

(** ** Connections *)

(** The counter of an address is created when it is asked for. *)
Definition counter (inflight : gmap string Z) (addr : string) : gmap string Z :=
  match inflight !! addr with Some _ => inflight | None => <[addr := 0%Z]> inflight end.

Definition load (inflight : gmap string Z) (addr : string) : gmap string Z * Z :=
  let inflight := counter inflight addr in (inflight, default 0%Z (inflight !! addr)).

Definition add_counter (d : Z) (inflight : gmap string Z) (addr : string) : gmap string Z :=
  let inflight := counter inflight addr in <[addr := (default 0%Z (inflight !! addr) + d)%Z]> inflight.

Definition acquire : gmap string Z → string → gmap string Z := add_counter 1.
Definition release : gmap string Z → string → gmap string Z := add_counter (-1).

(** Two draws of different healthy endpoints; a draw out of range panics. *)
Definition pick (inflight : gmap string Z) (eps : list Endpoint.t) (rnd : nat → nat → nat) :
    outcome (gmap string Z * option Endpoint.t) :=
  let healthy := List.filter Endpoint.Healthy eps in
  match healthy with
  | [] => Ret (inflight, None)
  | [e] => Ret (inflight, Some e)
  | _ =>
    let i := rnd 0 (length healthy) in
    let j := rnd 1 (length healthy - 1) in
    let j := if (i <=? j)%nat then S j else j in
    match healthy !! j, healthy !! i with
    | Some b, Some a =>
      let '(inflight, lb) := load inflight (Endpoint.Addr b) in
      let '(inflight, la) := load inflight (Endpoint.Addr a) in
      Ret (inflight, Some (if (lb <? la)%Z then b else a))
    | _, _ => Panic
    end
  end.

(** A connection that was accepted: the backend it is spliced to, if one was picked and
    could be dialed.  The counters when the splice is over. *)
Definition handle (dial : string → bool) (inflight : gmap string Z) (eps : list Endpoint.t) (rnd : nat → nat → nat) :
    outcome (gmap string Z * option Endpoint.t) :=
  obind (pick inflight eps rnd) (λ '(inflight, ep),
    match ep with
    | None => Ret (inflight, None)
    | Some ep =>
      let inflight := acquire inflight (Endpoint.Addr ep) in
      Ret (release inflight (Endpoint.Addr ep), if dial (Endpoint.Addr ep) then Some ep else None)
    end).

End VIP.

(** * Public TCP ports (l4.go) *)

(** The order in which a Go loop visits a map of ports. *)
Class PortOrder := port_range : ∀ {A : Type}, gmap Z A → list (Z * A).
Class PortOrderOk (PO : PortOrder) := port_range_perm : ∀ {A : Type} (m : gmap Z A), port_range m ≡ₚ map_to_list m.

Module L4.

(** A listener is its current route. *)
Notation t := (gmap Z L4Route.t).

Definition want (snap : RouteSnapshot.t) : t :=
  insert_all L4Route.PublicPort (λ r, r)
    (List.filter (λ r, negb (L4Route.PublicPort r =? 0)%Z) (RouteSnapshot.L4Routes snap)) ∅.

Section reconcile.
Context {PO : PortOrder}.
(** Whether the host lets a port be listened on in a pass. *)
Variable listen : Z → bool.

Definition open_listener (l : t) (w : Z * L4Route.t) : t :=
  match l !! w.1 with
  | Some _ => <[w.1 := w.2]> l
  | None => if listen w.1 then <[w.1 := w.2]> l else l
  end.

Definition close_unwanted (want : t) (l : t) (w : Z * L4Route.t) : t :=
  match want !! w.1 with Some _ => l | None => delete w.1 l end.

Definition reconcile (snap : RouteSnapshot.t) (l : t) : t :=
  let l := foldl open_listener l (port_range (want snap)) in
  foldl (close_unwanted (want snap)) l (port_range l).

Definition closeAll (l : t) : t := foldl (λ l (w : Z * L4Route.t), delete w.1 l) l (port_range l).

End reconcile.

(** A connection on a port: the shared balancer picks the backend. *)
Definition handle (node : string) (dial : string → bool) (inflight : gmap string Z) (route : L4Route.t)
    (rnd : nat → nat → nat) : outcome (gmap string Z * option Endpoint.t) :=
  obind (Proxy.pick node inflight (L4Route.Endpoints route) rnd 0) (λ ep,
    match ep with
    | None => Ret (inflight, None)
    | Some ep =>
      let inflight := Proxy.acquire (Endpoint.Addr ep) inflight in
      Ret (Proxy.release (Endpoint.Addr ep) inflight, if dial (Endpoint.Addr ep) then Some ep else None)
    end).
End L4.

(** * What a pass does *)

Section vip_spec.
Context {RO : RangeOrder} {ROk : RangeOrderOk RO}.
Import VIP.
Implicit Types v : VIP.t.

(** Loops: the state they leave, and their calls. *)
Lemma add_addrs_spec h l v log :
  NoDup l → ∃ a,
    foldl (add_addr h) (v, log) l
    = (mk (started v) (inflight v) (list_to_set (List.filter (host.added h) l) ∪ addrs v) (listeners v),
       log ++ ((λ vip, AddAddr (vip +:+ "/32")) <$> a))
    ∧ NoDup a ∧ ∀ vip, vip ∈ a ↔ vip ∈ l ∧ vip ∉ addrs v.
Proof.
  revert v log. induction l as [|vip l IH]; intros v log Hnd; cbn [foldl].
  { exists []. rewrite app_nil_r. destruct v. cbn. split; [f_equal; f_equal; set_solver|]. split; [constructor|]. intros; set_solver. }
  apply NoDup_cons in Hnd as [Hv Hnd]. unfold add_addr at 2. case_bool_decide as Hin.
  - destruct (IH v log Hnd) as (a & -> & Ha & Hain). exists a. split; [|split; [done|intros x; rewrite Hain, elem_of_cons; set_solver]].
    do 2 f_equal. apply set_eq. cbn. intros x. destruct (host.added h vip); cbn; set_solver.
  - set (v1 := if host.added h vip then _ else v).
    assert (addrs v1 = (if host.added h vip then {[vip]} else ∅) ∪ addrs v ∧ started v1 = started v ∧ inflight v1 = inflight v
      ∧ listeners v1 = listeners v) as (A1 & A2 & A3 & A4).
    { unfold v1. destruct (host.added h vip); [done|]. split_and!; try done. set_solver. }
    clearbody v1. destruct (IH v1 (log ++ [AddAddr (vip +:+ "/32")]) Hnd) as (a & -> & Ha & Hain).
    exists (vip :: a). split; [|split].
    + rewrite A1, A2, A3, A4, fmap_cons, <- app_assoc. do 2 f_equal. apply set_eq. cbn. intros x. destruct (host.added h vip); cbn; set_solver.
    + apply NoDup_cons. split; [|done]. rewrite Hain. by intros [? _].
    + intros x. rewrite !elem_of_cons, Hain, A1. destruct (decide (x = vip)) as [->|Hne]; [tauto|]. destruct (host.added h vip); set_solver.
Qed.

Lemma open_listeners_spec h l v log :
  NoDup l.*1 → ∃ o ls,
    foldl (open_listener h) (v, log) l = (mk (started v) (inflight v) (addrs v) ls, log ++ (Listen <$> o))
    ∧ NoDup o ∧ (∀ k, k ∈ o ↔ k ∈ l.*1 ∧ listeners v !! k = None)
    ∧ ls = foldl (λ m w, match m !! w.1 with
                     | Some _ => <[w.1 := w.2]> m
                     | None => if host.listened h w.1 then <[w.1 := w.2]> m else m end) (listeners v) l.
Proof.
  revert v log. induction l as [|[k eps] l IH]; intros v log Hnd; cbn [foldl].
  { exists [], (listeners v). rewrite app_nil_r. destruct v. split_and!; [done|constructor|intros; cbn; set_solver|done]. }
  apply NoDup_cons in Hnd as [Hk Hnd]. unfold open_listener at 2. cbn [fst snd].
  destruct (listeners v !! k) as [old|] eqn:Hl.
  - set (v1 := mk _ _ _ _). destruct (IH v1 log Hnd) as (o & ls & -> & Ho & Hin & Hls). exists o, ls. split_and!; try done.
    intros x. rewrite Hin. cbn. rewrite elem_of_cons. destruct (decide (x = k)) as [->|Hne].
    + rewrite lookup_insert_eq, Hl. split; [by intros [? ?]|by intros [_ ?]].
    + rewrite lookup_insert_ne by done. tauto.
  - set (v1 := if host.listened h k then _ else v).
    assert (started v1 = started v ∧ inflight v1 = inflight v ∧ addrs v1 = addrs v
      ∧ listeners v1 = if host.listened h k then <[k := eps]> (listeners v) else listeners v) as (A1 & A2 & A3 & A4)
      by (unfold v1; by destruct (host.listened h k)).
    clearbody v1. destruct (IH v1 (log ++ [Listen k]) Hnd) as (o & ls & -> & Ho & Hin & Hls). exists (k :: o), ls. split_and!.
    + by rewrite A1, A2, A3, fmap_cons, <- app_assoc.
    + apply NoDup_cons. split; [|done]. rewrite Hin. by intros [? _].
    + intros x. rewrite fmap_cons, !elem_of_cons, Hin, A4. cbn [fst]. destruct (decide (x = k)) as [->|Hne]; [tauto|].
      destruct (host.listened h k); [rewrite lookup_insert_ne by done|]; tauto.
    + by rewrite Hls, A4.
Qed.

Lemma close_listeners_spec want l v log :
  NoDup l.*1 → ∃ c,
    foldl (close_listener want) (v, log) l
    = (mk (started v) (inflight v) (addrs v) (foldl (λ m w, match want !! w.1 with Some _ => m | None => delete w.1 m end) (listeners v) l),
       log ++ (CloseListener <$> c))
    ∧ NoDup c ∧ (∀ k, k ∈ c ↔ k ∈ l.*1 ∧ want !! k = None).
Proof.
  revert v log. induction l as [|[k eps] l IH]; intros v log Hnd; cbn [foldl].
  { exists []. rewrite app_nil_r. destruct v. split_and!; [done|constructor|intros; cbn; set_solver]. }
  apply NoDup_cons in Hnd as [Hk Hnd]. unfold close_listener at 2. cbn [fst snd]. destruct (want !! k) as [w|] eqn:Hw.
  - destruct (IH v log Hnd) as (c & -> & Hc & Hin). exists c. split_and!; try done. intros x. rewrite Hin. cbn. rewrite elem_of_cons.
    split; [tauto|]. intros [[->|?] Hx]; [congruence|done].
  - destruct (IH (mk (started v) (inflight v) (addrs v) (delete k (listeners v))) (log ++ [CloseListener k]) Hnd) as (c & -> & Hc & Hin).
    exists (k :: c). split_and!.
    + by rewrite fmap_cons, <- app_assoc.
    + apply NoDup_cons. split; [|done]. rewrite Hin. by intros [? _].
    + intros x. cbn. rewrite !elem_of_cons, Hin. split; [intros [->|?]; tauto|tauto].
Qed.

Lemma del_addrs_spec want l v log :
  NoDup l → ∃ d,
    foldl (del_addr want) (v, log) l
    = (mk (started v) (inflight v) (addrs v ∖ (list_to_set l ∖ want)) (listeners v), log ++ ((λ vip, DelAddr (vip +:+ "/32")) <$> d))
    ∧ NoDup d ∧ ∀ vip, vip ∈ d ↔ vip ∈ l ∧ vip ∉ want.
Proof.
  revert v log. induction l as [|vip l IH]; intros v log Hnd; cbn [foldl].
  { exists []. rewrite app_nil_r. destruct v. cbn. split; [do 2 f_equal; set_solver|]. split; [constructor|]. intros; set_solver. }
  apply NoDup_cons in Hnd as [Hv Hnd]. unfold del_addr at 2. case_bool_decide as Hin.
  - destruct (IH v log Hnd) as (d & -> & Hd & Hdin). exists d. split; [|split; [done|intros x; rewrite Hdin, elem_of_cons; set_solver]].
    do 2 f_equal. cbn. set_solver.
  - destruct (IH (mk (started v) (inflight v) (addrs v ∖ {[vip]}) (listeners v)) (log ++ [DelAddr (vip +:+ "/32")]) Hnd) as (d & -> & Hd & Hdin).
    exists (vip :: d). split; [|split].
    + rewrite fmap_cons, <- app_assoc. do 2 f_equal. cbn. set_solver.
    + apply NoDup_cons. split; [|done]. rewrite Hdin. by intros [? _].
    + intros x. rewrite !elem_of_cons, Hdin. destruct (decide (x = vip)) as [->|]; [tauto|]. set_solver.
Qed.

(** The listeners and addresses a pass leaves. *)
Definition listening (h : host.t) (snap : RouteSnapshot.t) (old : gmap string (list Endpoint.t)) (k : string) : option (list Endpoint.t) :=
  match wantLis snap !! k with
  | Some eps => if bool_decide (is_Some (old !! k)) || host.listened h k then Some eps else None
  | None => None
  end.

(** The calls a pass makes. *)
Definition calls (h : host.t) (snap : RouteSnapshot.t) (v : VIP.t) (log : list effect) : Prop :=
  ∃ a o c d,
    log = (if negb (bool_decide (wantAddr snap = ∅)) && negb (started v) then [EnsureDummy] else [])
      ++ ((λ vip, AddAddr (vip +:+ "/32")) <$> a) ++ (Listen <$> o) ++ (CloseListener <$> c)
      ++ ((λ vip, DelAddr (vip +:+ "/32")) <$> d)
    ∧ NoDup a ∧ NoDup o ∧ NoDup c ∧ NoDup d
    ∧ (∀ vip, vip ∈ a ↔ vip ∈ wantAddr snap ∧ vip ∉ addrs v)
    ∧ (∀ k, k ∈ o ↔ is_Some (wantLis snap !! k) ∧ listeners v !! k = None)
    ∧ (∀ k, k ∈ c ↔ is_Some (listeners v !! k) ∧ wantLis snap !! k = None)
    ∧ (∀ vip, vip ∈ d ↔ vip ∈ addrs v ∧ vip ∉ wantAddr snap).

Lemma elem_of_range_fst {A} (m : gmap string A) k : k ∈ (range m).*1 ↔ is_Some (m !! k).
Proof.
  rewrite list_elem_of_fmap. split.
  - intros ([k' x] & -> & Hx%elem_of_range). by exists x.
  - intros [x Hx]. exists (k, x). by rewrite elem_of_range.
Qed.

Lemma Reconcile_spec h snap v :
  let '(v', log) := Reconcile h snap v in
  inflight v' = inflight v
  ∧ (∀ k, listeners v' !! k = listening h snap (listeners v) k)
  ∧ (∀ vip, vip ∈ addrs v' ↔ vip ∈ wantAddr snap ∧ (vip ∈ addrs v ∨ host.added h vip = true))
  ∧ calls h snap v log.
Proof.
  unfold Reconcile. set (first := if negb (bool_decide (wantAddr snap = ∅)) && negb (started v) then [EnsureDummy] else []).
  assert (∃ b, ensure h (wantAddr snap) (v, []) = (mk b (inflight v) (addrs v) (listeners v), first)) as [b ->].
  { unfold ensure, first. destruct (_ && _); [by exists (host.ensured h)|]. exists (started v). by destruct v. }
  set (v0 := mk b _ _ _).
  assert (NoDup (range_keys (wantAddr snap))) as Ha by apply NoDup_fst_range.
  destruct (add_addrs_spec h (range_keys (wantAddr snap)) v0 first Ha) as (a & -> & Hna & Hina).
  set (v1 := mk _ _ _ _). set (log1 := first ++ _).
  destruct (open_listeners_spec h (range (wantLis snap)) v1 log1 (NoDup_fst_range _)) as (o & ls & -> & Hno & Hino & Hls).
  cbn [fst listeners]. set (v2 := mk (started v1) _ _ _). set (log2 := log1 ++ _).
  destruct (close_listeners_spec (wantLis snap) (range ls) v2 log2 (NoDup_fst_range _)) as (c & -> & Hnc & Hinc).
  cbn [fst addrs started inflight listeners]. set (v3 := mk (started v2) _ _ _). set (log3 := log2 ++ _).
  assert (NoDup (range_keys (addrs v2))) as Hd by apply NoDup_fst_range.
  destruct (del_addrs_spec (wantAddr snap) (range_keys (addrs v2)) v3 log3 Hd) as (d & -> & Hnd & Hind).
  assert (∀ k, ls !! k = match wantLis snap !! k with
    | Some eps => if bool_decide (is_Some (listeners v !! k)) || host.listened h k then Some eps else listeners v !! k
    | None => listeners v !! k end) as Hl.
  { intros k. rewrite Hls. cbn [listeners v1].
    rewrite (foldl_range_pointwise (λ k eps old, if bool_decide (is_Some old) || host.listened h k then Some eps else old)); [done|..].
    - intros m j x. cbn. destruct (m !! j) as [y|] eqn:E; cbn; [by rewrite lookup_insert_eq|].
      destruct (host.listened h j); [by rewrite lookup_insert_eq|done].
    - intros m j x i Hne. cbn. destruct (m !! j); [by rewrite lookup_insert_ne|]. destruct (host.listened h j); [by rewrite lookup_insert_ne|done]. }
  split_and!.
  - done.
  - intros k. cbn [listeners v3 v2]. rewrite (foldl_range_pointwise (λ k _ old, match wantLis snap !! k with Some _ => old | None => None end)).
    + rewrite Hl. unfold listening. destruct (wantLis snap !! k) as [eps|]; [|by destruct (listeners v !! k)].
      destruct (bool_decide (is_Some (listeners v !! k))) eqn:E; [done|]. apply bool_decide_eq_false, eq_None_not_Some in E as ->.
      by destruct (host.listened h k).
    + intros m j x. cbn. destruct (wantLis snap !! j); [done|]. by rewrite lookup_delete_eq.
    + intros m j x i Hne. cbn. destruct (wantLis snap !! j); [done|]. by rewrite lookup_delete_ne.
  - intros vip. cbn [addrs v3 v2 v1 v0]. rewrite elem_of_difference, elem_of_difference, elem_of_union, !elem_of_list_to_set, elem_of_Filter, elem_of_range_keys.
    rewrite elem_of_range_keys, elem_of_union, elem_of_list_to_set, elem_of_Filter, elem_of_range_keys. destruct (decide (vip ∈ wantAddr snap)); tauto.
  - exists a, o, c, d. split; [unfold log3, log2, log1; by rewrite <- !app_assoc|]. split_and!; try done.
    + intros vip. by rewrite Hina, elem_of_range_keys.
    + intros k. by rewrite Hino, elem_of_range_fst.
    + intros k. rewrite Hinc, elem_of_range_fst, Hl. split.
      * intros [Hs Hw]. by rewrite Hw in Hs.
      * intros [Hs Hw]. by rewrite Hw.
    + intros vip. rewrite Hind, elem_of_range_keys. cbn [addrs v2 v1 v0]. rewrite elem_of_union, elem_of_list_to_set, elem_of_Filter, elem_of_range_keys. tauto.
Qed.
End vip_spec.

(** What the snapshot wants: the abstract state of the proxy. *)
Definition follows (snap : RouteSnapshot.t) (v : VIP.t) : Prop :=
  VIP.addrs v = VIP.wantAddr snap ∧ VIP.listeners v = VIP.wantLis snap.

(** A host that grants every address and listener. *)
Definition willing (h : VIP.host.t) : Prop := ∀ x, VIP.host.added h x = true ∧ VIP.host.listened h x = true.

(** C14: the internal proxy refines the snapshots it is sent.  Whatever it did before and
    whatever the host grants, a pass ensures the interface, adds the wanted addresses
    that are not there, opens the wanted listeners that are not there, closes the ones
    that are not wanted and only then deletes the addresses that are not wanted, each
    once and nothing else; a listener it has gets the snapshot's endpoints; what the
    host refuses is not recorded, so the next pass asks again.  On a host that grants
    everything the state is the snapshot's, and a pass over it makes no call but, if
    the interface could not be set up, to set it up. *)
Theorem vip_proxy_refines_snapshots (RO : RangeOrder) (ROk : RangeOrderOk RO) (h : VIP.host.t) (snap : RouteSnapshot.t)
    (v : VIP.t) :
  let '(v', log) := VIP.Reconcile h snap v in
  calls h snap v log
  ∧ (∀ k, VIP.listeners v' !! k = listening h snap (VIP.listeners v) k)
  ∧ (∀ vip, vip ∈ VIP.addrs v' ↔ vip ∈ VIP.wantAddr snap ∧ (vip ∈ VIP.addrs v ∨ VIP.host.added h vip = true))
  ∧ (willing h → follows snap v')
  ∧ (follows snap v → follows snap v' ∧ Forall (λ e, e = VIP.EnsureDummy) log).
Proof.
  pose proof (Reconcile_spec h snap v) as Hr. destruct (VIP.Reconcile h snap v) as [v' log].
  destruct Hr as (_ & Hl & Ha & Hc). split_and!; try done.
  - intros Hw. split.
    + apply set_eq. intros vip. rewrite Ha. destruct (Hw vip) as [-> _]. tauto.
    + apply map_eq. intros k. rewrite Hl. unfold listening. destruct (Hw k) as [_ ->]. rewrite orb_true_r. by destruct (VIP.wantLis snap !! k).
  - intros [Fa Fl]. split; [split|].
    + apply set_eq. intros vip. rewrite Ha, Fa. tauto.
    + apply map_eq. intros k. rewrite Hl. unfold listening. rewrite Fl. destruct (VIP.wantLis snap !! k) eqn:E; [|done].
      by rewrite bool_decide_eq_true_2.
    + destruct Hc as (a & o & c & d & -> & _ & _ & _ & _ & Hina & Hino & Hinc & Hind).
      assert (a = []) as -> by (apply elem_of_nil_inv; intros x; rewrite Hina, Fa; tauto).
      assert (o = []) as -> by (apply elem_of_nil_inv; intros x; rewrite Hino, Fl; intros [[? ?] ?]; congruence).
      assert (c = []) as -> by (apply elem_of_nil_inv; intros x; rewrite Hinc, Fl; intros [[? ?] ?]; congruence).
      assert (d = []) as -> by (apply elem_of_nil_inv; intros x; rewrite Hind, Fa; tauto).
      rewrite app_nil_r. destruct (_ && _); repeat constructor.
Qed.

(** * Connections *)

Lemma VIP_load_counter inflight addr a : Proxy.load (VIP.counter inflight addr) a = Proxy.load inflight a.
Proof.
  unfold VIP.counter, Proxy.load. destruct (inflight !! addr) eqn:E; [done|]. destruct (decide (addr = a)) as [->|Hne].
  - by rewrite lookup_insert_eq, E.
  - by rewrite lookup_insert_ne.
Qed.

Lemma load_add_counter d inflight addr a :
  Proxy.load (VIP.add_counter d inflight addr) a = (Proxy.load inflight a + if decide (a = addr) then d else 0)%Z.
Proof.
  unfold VIP.add_counter. rewrite <- (VIP_load_counter inflight addr a). unfold Proxy.load. destruct (decide (a = addr)) as [->|Hne].
  - by rewrite lookup_insert_eq.
  - rewrite lookup_insert_ne by done. lia.
Qed.

Section connections.
Notation load := Proxy.load.

(** One of the healthy endpoints, the less loaded of two when there are two. *)
Lemma VIP_pick_spec inflight eps rnd :
  draws rnd → ∃ inflight' res, VIP.pick inflight eps rnd = Ret (inflight', res) ∧ (∀ a, load inflight' a = load inflight a)
  ∧ match res with
    | None => List.filter Endpoint.Healthy eps = []
    | Some e => e ∈ eps ∧ Endpoint.Healthy e = true
        ∧ (length (List.filter Endpoint.Healthy eps) = 1
           ∨ ∃ i j f, i ≠ j ∧ List.filter Endpoint.Healthy eps !! i = Some e ∧ List.filter Endpoint.Healthy eps !! j = Some f
               ∧ (load inflight (Endpoint.Addr e) ≤ load inflight (Endpoint.Addr f))%Z)
    end.
Proof.
  intros Hd. unfold VIP.pick. assert (∀ e, e ∈ List.filter Endpoint.Healthy eps → e ∈ eps ∧ Endpoint.Healthy e = true) as Hf.
  { intros e [He Hh]%list_elem_of_In%filter_In. split; [by apply list_elem_of_In|done]. }
  revert Hf. generalize (List.filter Endpoint.Healthy eps) as l. intros [|e [|f l]] Hf.
  - by exists inflight, None.
  - exists inflight, (Some e). split_and!; try done; [apply Hf; by left..|]. by left.
  - remember (e :: f :: l) as av eqn:El. assert (2 ≤ length av) as Hl by (subst; cbn; lia). clear El.
    pose proof (Hd 0 (length av) ltac:(lia)) as Hi. pose proof (Hd 1 (length av - 1) ltac:(lia)) as Hj.
    set (i := rnd 0 (length av)) in *. set (j0 := rnd 1 (length av - 1)) in *.
    set (j := if (i <=? j0)%nat then S j0 else j0).
    assert (i ≠ j ∧ j < length av) as [Hij Hjl] by (unfold j; destruct (Nat.leb_spec i j0); lia).
    destruct (lookup_lt_some av i Hi) as (a & Ha & Hain), (lookup_lt_some av j Hjl) as (b & Hb & Hbin).
    rewrite Ha, Hb. unfold VIP.load. change (default 0%Z ?o) with (default 0%Z o).
    set (i1 := VIP.counter inflight (Endpoint.Addr b)). set (i2 := VIP.counter i1 (Endpoint.Addr a)).
    assert (∀ x, load i1 x = load inflight x) as H1 by apply VIP_load_counter.
    assert (∀ x, load i2 x = load inflight x) as H2 by (intros x; unfold i2; by rewrite VIP_load_counter).
    change (default 0%Z (i1 !! Endpoint.Addr b)) with (load i1 (Endpoint.Addr b)).
    change (default 0%Z (i2 !! Endpoint.Addr a)) with (load i2 (Endpoint.Addr a)). rewrite H1, H2.
    destruct (Z.ltb_spec (load inflight (Endpoint.Addr b)) (load inflight (Endpoint.Addr a))) as [Hlt|Hge].
    + exists i2, (Some b). split; [done|]. split; [done|]. split; [apply Hf, Hbin|]. split; [apply Hf, Hbin|]. right. exists j, i, a.
      split_and!; [done..|lia].
    + exists i2, (Some a). split; [done|]. split; [done|]. split; [apply Hf, Hain|]. split; [apply Hf, Hain|]. right. by exists i, j, b.
Qed.

Lemma VIP_handle_spec dial inflight eps rnd :
  draws rnd → ∃ inflight' res, VIP.handle dial inflight eps rnd = Ret (inflight', res)
  ∧ (∀ a, load inflight' a = load inflight a)
  ∧ (∀ e, res = Some e → e ∈ eps ∧ Endpoint.Healthy e = true)
  ∧ ((∃ e, e ∈ eps ∧ Endpoint.Healthy e = true) → (∀ a, dial a = true) → is_Some res).
Proof.
  intros Hd. destruct (VIP_pick_spec inflight eps rnd Hd) as (i1 & res & Hp & Hl & Hr). unfold VIP.handle. rewrite Hp. cbn [obind].
  destruct res as [e|].
  - eexists _, _. split; [reflexivity|]. split.
    + intros a. unfold VIP.release, VIP.acquire. rewrite !load_add_counter, Hl. destruct (decide _); lia.
    + split; [|intros _ ->; by eexists]. intros e'. destruct (dial _); [|done]. intros [= <-]. by destruct Hr as (? & ? & _).
  - exists i1, None. split_and!; [done..|]. intros (e & He & Hh). exfalso. apply list_elem_of_In in He.
    assert (In e (List.filter Endpoint.Healthy eps)) as H by (by apply filter_In). by rewrite Hr in H.
Qed.

Lemma L4_handle_spec node dial inflight route rnd :
  draws rnd → ∃ inflight' res, L4.handle node dial inflight route rnd = Ret (inflight', res)
  ∧ (∀ a, load inflight' a = load inflight a)
  ∧ (∀ e, res = Some e → e ∈ L4Route.Endpoints route ∧ Endpoint.Healthy e = true)
  ∧ ((∃ e, e ∈ L4Route.Endpoints route ∧ Endpoint.Healthy e = true) → (∀ a, dial a = true) → is_Some res).
Proof.
  intros Hd. destruct (pick_spec node inflight (L4Route.Endpoints route) rnd 0 Hd) as (res & Hp & Hr). unfold L4.handle. rewrite Hp. cbn [obind].
  assert (∀ e, Proxy.available inflight 0 e = Endpoint.Healthy e) as Hav by (intros e; unfold Proxy.available; by destruct (Endpoint.Healthy e)).
  destruct res as [e|].
  - eexists _, _. split; [reflexivity|]. split.
    + intros a. unfold Proxy.release, Proxy.acquire, load. destruct (decide (Endpoint.Addr e = a)) as [<-|Hne].
      * rewrite !lookup_insert_eq. cbn. lia.
      * by rewrite !lookup_insert_ne by done.
    + split; [|intros _ ->; by eexists]. intros e'. destruct (dial _); [|done]. intros [= <-]. destruct Hr as [Hin _].
      apply list_elem_of_In, filter_In in Hin as [Hin Ha]. rewrite Hav in Ha. split; [by apply list_elem_of_In|done].
  - eexists _, None. split_and!; [done..|]. intros (e & He & Hh). exfalso. apply list_elem_of_In in He.
    assert (In e (List.filter (Proxy.available inflight 0) (L4Route.Endpoints route))) as H by (apply filter_In; by rewrite Hav).
    by rewrite Hr in H.
Qed.
End connections.

(** * Where internal connections go *)

Lemma port_key_spec vip p key :
  VIP.port_key vip p = Some key → key = Health.JoinHostPort vip (pretty (InternalPort.Port p)) ∧ InternalPort.Port p ≠ 0%Z.
Proof.
  unfold VIP.port_key. destruct (Z.eqb_spec (InternalPort.Port p) 0); [done|]. destruct (EqualFold _ _); [done|]. by intros [= <-].
Qed.

Lemma elem_of_service_ports s key eps :
  (key, eps) ∈ VIP.service_ports s ↔
  InternalService.Vip s ≠ "" ∧ ∃ p, p ∈ InternalService.Ports s ∧ VIP.port_key (InternalService.Vip s) p = Some key
    ∧ eps = InternalPort.Endpoints p.
Proof.
  unfold VIP.service_ports. destruct (InternalService.Vip s =? "") eqn:Hv.
  - apply str_eqb_eq in Hv. split; [by intros ?%elem_of_nil|tauto].
  - apply str_eqb_neq in Hv. rewrite list_elem_of_omap. split.
    + intros (p & Hp & (k & Hk & [= -> ->])%fmap_Some). split; [done|]. by exists p.
    + intros (_ & p & Hp & Hk & ->). exists p. by rewrite Hk.
Qed.

Lemma wantLis_spec snap key eps :
  VIP.wantLis snap !! key = Some eps →
  ∃ s p, s ∈ RouteSnapshot.InternalServices snap ∧ InternalService.Vip s ≠ "" ∧ p ∈ InternalService.Ports s
    ∧ VIP.port_key (InternalService.Vip s) p = Some key ∧ eps = InternalPort.Endpoints p.
Proof.
  intros [([k e] & Hin & <- & ->)|[H _]]%insert_all_Some; [|by rewrite lookup_empty in H].
  apply list_elem_of_bind in Hin as (s & [Hv (p & Hp & Hk & ->)]%elem_of_service_ports & Hs). by exists s, p.
Qed.

Lemma wantLis_complete snap s p key :
  s ∈ RouteSnapshot.InternalServices snap → InternalService.Vip s ≠ "" → p ∈ InternalService.Ports s →
  VIP.port_key (InternalService.Vip s) p = Some key → is_Some (VIP.wantLis snap !! key).
Proof.
  intros Hs Hv Hp Hk. apply insert_all_is_Some. left. apply list_elem_of_fmap. exists (key, InternalPort.Endpoints p). split; [done|].
  apply list_elem_of_bind. exists s. split; [|done]. apply elem_of_service_ports. eauto.
Qed.

(** Two environments do not share an address, and addresses have no colon: what
    [vip_allocation] gives. *)
Definition own_addresses (st : Store.t) : Prop :=
  (∀ e1 e2 ip, Store.serviceVIPs st !! e1 = Some ip → Store.serviceVIPs st !! e2 = Some ip → e1 = e2)
  ∧ ∀ e ip, Store.serviceVIPs st !! e = Some ip → IndexByte ip ":" = None.

(** What a port of an environment's service is spliced to. *)
Definition port_of (env : option Environment.t) (n : Z) (name : string) : Prop :=
  ∃ port, port ∈ env ⇝ Environment.Service ⇝ ServiceSpec.Ports ∧ port ⇝ PortSpec.ContainerPort = n ∧ port ⇝ PortSpec.Name = name.

Section internal.
Context {RO : RangeOrder} {ROk : RangeOrderOk RO}.

Lemma wanted_listener domain st key eps :
  wf st → VIP.wantLis (Routes.build domain st) !! key = Some eps →
  ∃ env app vip n name, linked st env app ∧ Store.serviceVIPs st !! GetId env = Some vip ∧ vip ≠ "" ∧ n ≠ 0%Z
    ∧ key = Health.JoinHostPort vip (pretty n) ∧ port_of env n name ∧ serves st env name eps.
Proof.
  intros Hwf (s & p & Hs & Hv & Hp & [-> Hn]%port_key_spec & ->)%wantLis_spec.
  apply (elem_of_built (Routes.env_internal st)) in Hs as (env & app & Hl & Hs).
  unfold Routes.env_internal, Store.ServiceVIP in Hs. destruct (Store.serviceVIPs st !! GetId env) as [vip|] eqn:Hvip; [|by apply elem_of_nil in Hs].
  apply list_elem_of_singleton in Hs as ->. cbn in Hv, Hp, Hn |- *. apply list_elem_of_fmap in Hp as (port & -> & Hport).
  exists env, app, vip, (port ⇝ PortSpec.ContainerPort), (port ⇝ PortSpec.Name). split_and!; try done; [by exists port|by apply endpoints_serves].
Qed.

Lemma linked_unique st env1 app1 env2 app2 :
  wf st → linked st env1 app1 → linked st env2 app2 → GetId env1 = GetId env2 → env1 = env2.
Proof.
  intros Hwf [[i1 H1] _] [[i2 H2] _] He. pose proof (wf_environments _ Hwf _ _ H1). pose proof (wf_environments _ Hwf _ _ H2).
  cut (Some env1 = Some env2); [by intros [= ->]|]. rewrite <- H1, <- H2. f_equal. congruence.
Qed.
End internal.

(** An internal connection reaches the environment whose address it was made to.
    When no two environments share an address, after a pass over the route table, from
    any state and whatever the host granted, a listener on an environment's address and
    a port number has just the instances serving the active release of that
    environment on a port of that number; there is no other listener; on a host that
    grants everything there is one for every numbered port.  A connection to it is
    spliced to one of these instances, to some if there is one that can be dialed, and
    leaves the balancer's counters as they were. *)
Theorem internal_connections_reach_their_environment (RO : RangeOrder) (ROk : RangeOrderOk RO) (domain : string) (st : Store.t)
    (h : VIP.host.t) (v : VIP.t) :
  wf st → own_addresses st →
  let v' := (VIP.Reconcile h (Routes.build domain st) v).1 in
  (∀ key eps, VIP.listeners v' !! key = Some eps → ∃ env app vip (n : Z),
     linked st env app ∧ Store.serviceVIPs st !! GetId env = Some vip ∧ key = Health.JoinHostPort vip (pretty n))
  ∧ ∀ env app vip (n : Z), linked st env app → Store.serviceVIPs st !! GetId env = Some vip →
      (willing h → vip ≠ "" → n ≠ 0%Z → (∃ name, port_of env n name) →
         is_Some (VIP.listeners v' !! Health.JoinHostPort vip (pretty n)))
      ∧ ∀ eps, VIP.listeners v' !! Health.JoinHostPort vip (pretty n) = Some eps →
          ∃ name, port_of env n name ∧ serves st env name eps
            ∧ ∀ dial inflight rnd, draws rnd → ∃ inflight' res, VIP.handle dial inflight eps rnd = Ret (inflight', res)
                ∧ (∀ a, Proxy.load inflight' a = Proxy.load inflight a)
                ∧ (∀ ep, res = Some ep → serving st (GetId env) (env ⇝ Environment.ActiveReleaseId) name ep)
                ∧ (eps ≠ [] → (∀ a, dial a = true) → is_Some res).
Proof.
  intros Hwf [Hinj Hcolon] v'. pose proof (Reconcile_spec h (Routes.build domain st) v) as Hr. unfold v'.
  destruct (VIP.Reconcile h (Routes.build domain st) v) as [v1 log]. cbn [fst]. clear v'. destruct Hr as (_ & Hl & _ & _).
  assert (∀ key eps, VIP.listeners v1 !! key = Some eps → VIP.wantLis (Routes.build domain st) !! key = Some eps) as Hw.
  { intros key eps. rewrite Hl. unfold listening. destruct (VIP.wantLis _ !! key); [|done]. by destruct (_ || _). }
  split.
  - intros key eps (env & app & vip & n & name & Hlk & Hv & _ & _ & -> & _)%Hw%wanted_listener; [|done]. by exists env, app, vip, n.
  - intros env app vip n Hlk Hv. split.
    + intros Hh Hne Hn (name & port & Hport & <- & _). rewrite Hl. unfold listening.
      set (ip := InternalPort.mk (port ⇝ PortSpec.Name) (port ⇝ PortSpec.ContainerPort) "tcp" (Routes.endpoints st env (port ⇝ PortSpec.Name))).
      assert (∃ s, s ∈ RouteSnapshot.InternalServices (Routes.build domain st) ∧ InternalService.Vip s = vip ∧ ip ∈ InternalService.Ports s)
        as (s & Hs & <- & Hp).
      { eexists. split; [apply (elem_of_built (Routes.env_internal st)); exists env, app; split; [done|]|].
        - unfold Routes.env_internal, Store.ServiceVIP. rewrite Hv. by left.
        - split; [done|]. cbn. apply list_elem_of_fmap. by exists port. }
      destruct (wantLis_complete _ s ip (Health.JoinHostPort (InternalService.Vip s) (pretty (port ⇝ PortSpec.ContainerPort))) Hs Hne Hp) as [eps ->].
      { unfold VIP.port_key. cbn. apply Z.eqb_neq in Hn. by rewrite Hn. }
      destruct (Hh (Health.JoinHostPort (InternalService.Vip s) (pretty (port ⇝ PortSpec.ContainerPort)))) as [_ ->]. by rewrite orb_true_r.
    + intros eps (env' & app' & vip' & n' & name & Hlk' & Hv' & _ & _ & Hk & Hport & Hs)%Hw%wanted_listener; [|done].
      apply JoinHostPort_inj in Hk as [<- Hn]; [|by eapply Hcolon..]. apply pretty_Z_inj in Hn as <-.
      assert (env' = env) as -> by (eapply linked_unique; [done..|by eapply Hinj]).
      exists name. split_and!; [done..|]. intros dial inflight rnd Hd.
      destruct (VIP_handle_spec dial inflight eps rnd Hd) as (i' & res & Hh & Hload & Hin & Hsome). exists i', res.
      assert (∀ ep, ep ∈ eps → serving st (GetId env) (env ⇝ Environment.ActiveReleaseId) name ep) as Hserv.
      { intros ep Hep. destruct Hs as [Hs _]. by destruct (proj1 (Hs ep) Hep). }
      split_and!; [done..| |].
      * intros ep Hep. apply Hserv, Hin, Hep.
      * intros Hne Hdial. apply Hsome; [|done]. destruct eps as [|e eps]; [done|]. exists e.
        assert (e ∈ e :: eps) as He by by left. destruct (Hserv _ He) as (a & nd & port & Ha). split; [done|]. by destruct Ha as (_ & _ & _ & _ & _ & _ & _ & _ & _ & _ & ->).
Qed.

(** * Public ports *)

Section l4_spec.
Context {PO : PortOrder} {POk : PortOrderOk PO}.

(** The route a port has: the last one of the snapshot that names it. *)
Definition route_of (snap : RouteSnapshot.t) (port : Z) : option L4Route.t :=
  List.find (λ r, bool_decide (L4Route.PublicPort r = port)) (reverse (RouteSnapshot.L4Routes snap)).

Lemma find_reverse_filter {A} (f g : A → bool) l :
  (∀ x, f x = true → g x = true) → List.find f (reverse (List.filter g l)) = List.find f (reverse l).
Proof.
  intros Hfg. induction l as [|x l IH] using rev_ind; [done|]. rewrite List.filter_app, reverse_snoc. cbn.
  destruct (g x) eqn:E.
  - rewrite reverse_snoc. cbn. by rewrite IH.
  - rewrite app_nil_r, IH. destruct (f x) eqn:Ef; [by rewrite (Hfg _ Ef) in E|done].
Qed.

Lemma want_lookup snap port : port ≠ 0%Z → L4.want snap !! port = route_of snap port.
Proof.
  intros Hp. unfold L4.want, route_of. rewrite insert_all_lookup, find_reverse_filter.
  - destruct (List.find _ _); [done|]. by rewrite lookup_empty.
  - intros r Hr%bool_decide_eq_true. subst. by apply negb_true_iff, Z.eqb_neq.
Qed.

Lemma want_zero snap : L4.want snap !! 0%Z = None.
Proof.
  destruct (L4.want snap !! 0%Z) as [r|] eqn:E; [|done]. apply insert_all_Some in E as [(x & Hx & H0 & _)|[H _]]; [|by rewrite lookup_empty in H].
  apply list_elem_of_In, filter_In in Hx as [_ Hx]. rewrite H0 in Hx. done.
Qed.

Lemma l4_lookup listen snap l port :
  L4.reconcile listen snap l !! port =
    match L4.want snap !! port with
    | Some r => if bool_decide (is_Some (l !! port)) || listen port then Some r else None
    | None => None
    end.
Proof.
  unfold L4.reconcile. set (l1 := foldl _ l _).
  assert (∀ k, l1 !! k = match L4.want snap !! k with
    | Some r => if bool_decide (is_Some (l !! k)) || listen k then Some r else l !! k | None => l !! k end) as H1.
  { intros k. unfold l1.
    rewrite (foldl_pointwise (λ k (r : L4Route.t) (old : option L4Route.t), if bool_decide (is_Some old) || listen k then Some r else old)
      _ (L4.want snap)); [done|apply port_range_perm|..].
    - intros m j r. unfold L4.open_listener. cbn. destruct (m !! j) eqn:E; cbn; [by rewrite lookup_insert_eq|].
      destruct (listen j); [by rewrite lookup_insert_eq|done].
    - intros m j r i Hne. unfold L4.open_listener. cbn. destruct (m !! j); [by rewrite lookup_insert_ne|].
      destruct (listen j); [by rewrite lookup_insert_ne|done]. }
  rewrite (foldl_pointwise (λ k _ old, match L4.want snap !! k with Some _ => old | None => None end) _ l1); [|apply port_range_perm|..].
  - rewrite H1. destruct (L4.want snap !! port) as [r|]; [|by destruct (l !! port)].
    destruct (bool_decide (is_Some (l !! port))) eqn:E; [done|]. apply bool_decide_eq_false, eq_None_not_Some in E as ->.
    by destruct (listen port).
  - intros m j r. unfold L4.close_unwanted. cbn. destruct (L4.want snap !! j); [done|]. by rewrite lookup_delete_eq.
  - intros m j r i Hne. unfold L4.close_unwanted. cbn. destruct (L4.want snap !! j); [done|]. by rewrite lookup_delete_ne.
Qed.

Lemma closeAll_lookup l port : L4.closeAll l !! port = None.
Proof.
  unfold L4.closeAll. rewrite (foldl_pointwise (λ _ _ _, None) _ l); [by destruct (l !! port)|apply port_range_perm|..].
  - intros. by rewrite lookup_delete_eq.
  - intros. by rewrite lookup_delete_ne.
Qed.
End l4_spec.

(** Public TCP ports follow the route table.  After a pass a port is listened on just
    when a route names it and it was open or the host grants it; it has the last route
    that names it, so of two environments that publish one port only one is reachable
    there; that route has the instances serving the active release of its environment
    on the port, and a connection is spliced to one of them, to some if there is one
    that can be dialed, leaving the balancer's counters as they were. *)
Theorem public_ports_follow_routes (RO : RangeOrder) (ROk : RangeOrderOk RO) (PO : PortOrder) (POk : PortOrderOk PO)
    (domain : string) (st : Store.t) (listen : Z → bool) (l : L4.t) :
  wf st →
  let snap := Routes.build domain st in
  let l' := L4.reconcile listen snap l in
  (∀ port, l' !! port = if bool_decide (port ≠ 0%Z) && (bool_decide (is_Some (l !! port)) || listen port) then route_of snap port else None)
  ∧ ∀ port r, l' !! port = Some r → ∃ env app name, linked st env app ∧ L4Route.EnvironmentId r = GetId env
      ∧ (∃ p, p ∈ env ⇝ Environment.Service ⇝ ServiceSpec.Ports ∧ p ⇝ PortSpec.PublicL4Port = port ∧ p ⇝ PortSpec.Name = name)
      ∧ serves st env name (L4Route.Endpoints r)
      ∧ ∀ node dial inflight rnd, draws rnd → ∃ inflight' res, L4.handle node dial inflight r rnd = Ret (inflight', res)
          ∧ (∀ a, Proxy.load inflight' a = Proxy.load inflight a)
          ∧ (∀ ep, res = Some ep → serving st (GetId env) (env ⇝ Environment.ActiveReleaseId) name ep)
          ∧ (L4Route.Endpoints r ≠ [] → (∀ a, dial a = true) → is_Some res).
Proof.
  intros Hwf snap l'. assert (∀ port, l' !! port = if bool_decide (port ≠ 0%Z) && (bool_decide (is_Some (l !! port)) || listen port)
    then route_of snap port else None) as Hl.
  { intros port. unfold l'. rewrite l4_lookup. destruct (decide (port = 0%Z)) as [->|Hne].
    - by rewrite want_zero, (bool_decide_eq_false_2 (0%Z ≠ 0%Z)) by (intros H; by apply H).
    - rewrite (bool_decide_eq_true_2 (port ≠ 0%Z)), want_lookup by done. cbn [andb]. destruct (route_of snap port); [done|]. by destruct (_ || _). }
  split; [exact Hl|]. intros port r Hr. rewrite Hl in Hr. destruct (_ && _); [|done].
  apply find_some in Hr as [Hin Hport%bool_decide_eq_true]. apply list_elem_of_In in Hin. rewrite elem_of_reverse in Hin.
  apply (elem_of_built (λ env _, Routes.env_l4 st env)) in Hin as (env & app & Hlk & (p & Hp & Hr)%list_elem_of_omap).
  destruct (Z.eqb_spec (p ⇝ PortSpec.PublicL4Port) 0); [done|]. injection Hr as <-. cbn in Hport.
  assert (serves st env (p ⇝ PortSpec.Name) (Routes.endpoints st env (p ⇝ PortSpec.Name))) as Hs by by apply endpoints_serves.
  exists env, app, (p ⇝ PortSpec.Name). split; [exact Hlk|]. split; [done|]. split; [by exists p|]. split; [exact Hs|]. intros node dial inflight rnd Hd.
  set (r := L4Route.mk _ _ _ _). destruct (L4_handle_spec node dial inflight r rnd Hd) as (i' & res & Hh & Hload & Hin & Hsome).
  exists i', res. assert (∀ ep, ep ∈ L4Route.Endpoints r → serving st (GetId env) (env ⇝ Environment.ActiveReleaseId) (p ⇝ PortSpec.Name) ep) as Hserv.
  { intros ep Hep. destruct Hs as [Hs _]. by destruct (proj1 (Hs ep) Hep). }
  split_and!; [done..| |].
  - intros ep Hep. apply Hserv, Hin, Hep.
  - intros Hne Hdial. apply Hsome; [|done]. destruct (L4Route.Endpoints r) as [|e eps] eqn:He; [done|]. exists e.
    destruct (Hserv e) as (a & nd & pn & Ha); [by left|]. split; [by left|]. by destruct Ha as (_ & _ & _ & _ & _ & _ & _ & _ & _ & _ & ->).
Qed.

(** * Witnesses *)

Definition canonical_ports : PortOrder := λ A m, map_to_list m.
#[export] Instance canonical_ports_ok : PortOrderOk canonical_ports.
Proof. intros A m. reflexivity. Qed.

Definition granting : VIP.host.t := VIP.host.mk true (λ _, true) (λ _, true).

Notation web_routes := (Routes.build (RO := canonical_range) "zt.dev" web_store).

Lemma vip_proxy_refines_snapshots_witness :
  VIP.addrs (VIP.Reconcile (RO := canonical_range) granting web_routes VIP.init).1 = {["10.97.0.1"]}
  ∧ ∀ k, VIP.listeners (VIP.Reconcile (RO := canonical_range) granting web_routes VIP.init).1 !! k = VIP.wantLis web_routes !! k.
Proof.
  pose proof (vip_proxy_refines_snapshots canonical_range canonical_range_ok granting web_routes VIP.init) as H.
  destruct (VIP.Reconcile granting web_routes VIP.init) as [v' log]. destruct H as (_ & _ & _ & Hf & _).
  destruct Hf as [Ha Hl]; [intros x; split; reflexivity|]. cbn [fst]. split; [|intros k; by rewrite Hl].
  rewrite Ha. vm_compute. reflexivity.
Defined.

Lemma own_addresses_web_store : own_addresses web_store.
Proof.
  assert (∀ e ip, Store.serviceVIPs web_store !! e = Some ip → e = "e1" ∧ ip = "10.97.0.1") as H.
  { intros e ip. change (Store.serviceVIPs web_store) with ({["e1" := "10.97.0.1"]} : gmap string string).
    by intros [<- <-]%lookup_singleton_Some. }
  split.
  - intros e1 e2 ip [-> _]%H [-> _]%H. done.
  - by intros e ip [_ ->]%H.
Qed.

(** web.internal:8080 is answered by the one healthy instance. *)
Lemma internal_connections_reach_their_environment_witness :
  ∃ eps name, VIP.listeners (VIP.Reconcile (RO := canonical_range) granting web_routes VIP.init).1 !! "10.97.0.1:8080" = Some eps
    ∧ serves web_store (Some (sample_env "e1" "r1" web_spec)) name eps.
Proof.
  destruct (internal_connections_reach_their_environment canonical_range canonical_range_ok "zt.dev" web_store granting VIP.init
    wf_web_store own_addresses_web_store) as [_ H].
  destruct (H (Some (sample_env "e1" "r1" web_spec)) (Some (App.mk (sample_meta "app") "proj" "web" None None)) "10.97.0.1" 8080%Z)
    as [Hthere Hserves]; [split; [exists "e1"|]; vm_compute; reflexivity|vm_compute; reflexivity|].
  destruct Hthere as [eps Heps].
  - intros x. split; reflexivity.
  - discriminate.
  - discriminate.
  - exists "http", (Some (PortSpec.mk "http" 8080 PROTOCOL_HTTP 0)). split; [by left|]. split; reflexivity.
  - destruct (Hserves eps Heps) as (name & _ & Hs & _). exists eps, name. split; [exact Heps|exact Hs].
Defined.

(** Two environments publish port 5432. *)
Definition db_env (id : string) : Environment.t :=
  sample_env id "r1" (ServiceSpec.mk (Some (ReplicaRange.mk 1 1)) None None [Some (PortSpec.mk "pg" 5432 PROTOCOL_TCP 5432)] None
    false 0 false [] [] None "" ∅ None).

Definition shared_port_store : Store.t :=
  Store.PutApp (Some (App.mk (sample_meta "app") "proj" "db" None None))
  (Store.PutEnvironment (Some (db_env "e1")) (Store.PutEnvironment (Some (db_env "e2")) Store.New)).

Lemma wf_shared_port_store : wf shared_port_store.
Proof. unfold shared_port_store. auto 20 with store_wf. Qed.

(** The port is the second's; nothing listens for the first. *)
Lemma public_ports_follow_routes_witness :
  L4Route.EnvironmentId <$> L4.reconcile (PO := canonical_ports) (λ _, true)
    (Routes.build (RO := canonical_range) "" shared_port_store) ∅ !! 5432%Z = Some "e2"
  ∧ L4Route.EnvironmentId <$> RouteSnapshot.L4Routes (Routes.build (RO := canonical_range) "" shared_port_store) = ["e1"; "e2"].
Proof.
  split; [|vm_compute; reflexivity].
  rewrite (proj1 (public_ports_follow_routes canonical_range canonical_range_ok canonical_ports canonical_ports_ok "" shared_port_store
    (λ _, true) ∅ wf_shared_port_store)).
  vm_compute. reflexivity.
Defined.
