(* ===== verification/Live.v ===== *)
(** Which nodes are alive: the leader's registry of heartbeats
    (internal/daemon/livestate), the flap guard of the two failure detectors
    (internal/daemon/nodehealth) and the loop that writes a node's status
    (internal/daemon/api/liveness.go).  Times are nanoseconds; no time is the zero time
    of Go, and a difference from it is longer than any deadline. *)
From S2P Require Import Prelude Api Watch State StateInv StoreProps Fsm Samples Platform F64 Leader Orchestrator Control.
From S2P Require Import Scheduler SchedulerProps.

(** * Messages (api/proto/zattera/cluster/v1/agent.proto)

    Values of a decoded map are never nil. *)

Module InstanceSample.
Record t := mk { CpuPercent : f64; MemoryBytes : Z; NetRxBytes : Z; NetTxBytes : Z }.
End InstanceSample.

Module ProxySample.
Record t := mk {
  Inflight : Z;
  Rps : f64;
  ErrorRate : f64;
  LatencyP50Ms : f64;
  LatencyP99Ms : f64;
  LastRequestAt : option Timestamp.t
}.
End ProxySample.

Module Heartbeat.
Record t := mk {
  Time : option Timestamp.t;
  CpuPercent : f64;
  MemoryUsedBytes : Z;
  MemoryTotalBytes : Z;
  DiskUsedBytes : Z;
  DiskTotalBytes : Z;
  Instances : gmap string InstanceSample.t;
  Proxy : gmap string ProxySample.t
}.
End Heartbeat.

(** * The registry (livestate.go) *)

Module Live.

Module node.
Record t := mk { gen : Z; connected : bool; lastHeartbeat : option Z; heartbeat : option Heartbeat.t }.
End node.

Module NodeState.
Record t := mk { NodeID : string; Connected : bool; LastHeartbeat : option Z; Heartbeat : option Heartbeat.t }.
End NodeState.

Notation registry := (gmap string node.t).

Definition new_node : node.t := node.mk 0 false None None.

(** Connect; the generation is what the release function it returns holds. *)
Definition Connect (nodeID : string) (r : registry) : registry * Z :=
  let n := default new_node (r !! nodeID) in
  let gen := u64 (node.gen n + 1) in
  (<[nodeID := node.mk gen true (node.lastHeartbeat n) (node.heartbeat n)]> r, gen).

Definition release (nodeID : string) (gen : Z) (r : registry) : registry :=
  match r !! nodeID with
  | Some cur =>
    if (node.gen cur =? gen)%Z
    then <[nodeID := node.mk (node.gen cur) false (node.lastHeartbeat cur) (node.heartbeat cur)]> r
    else r
  | None => r
  end.

Definition Beat (nodeID : string) (hb : option Heartbeat.t) (now : Z) (r : registry) : registry :=
  let n := default new_node (r !! nodeID) in
  <[nodeID := node.mk (node.gen n) (node.connected n) (Some now)
     (match hb with Some hb => Some hb | None => node.heartbeat n end)]> r.

Definition snapshot (id : string) (n : node.t) : NodeState.t :=
  NodeState.mk id (node.connected n) (node.lastHeartbeat n) (node.heartbeat n).

Definition Get (nodeID : string) (r : registry) : option NodeState.t := snapshot nodeID <$> r !! nodeID.

Definition Snapshot {RO : RangeOrder} (r : registry) : list NodeState.t := (λ '(id, n), snapshot id n) <$> range r.

End Live.

(** * The flap guard (nodehealth.go) *)

Module NodeHealth.

Definition GossipDownStaleThreshold : Z := (10 * second)%Z.

Inductive Verdict := VerdictNoChange | VerdictAlive | VerdictDown.

Module LivenessInputs.
Record t := mk { GossipKnown : bool; GossipAlive : bool; HeartbeatReceived : bool; HeartbeatStaleFor : Z }.
End LivenessInputs.

Definition Decide (i : LivenessInputs.t) : Verdict :=
  let heartbeatFresh := LivenessInputs.HeartbeatReceived i && (LivenessInputs.HeartbeatStaleFor i <=? GossipDownStaleThreshold)%Z in
  if heartbeatFresh || (LivenessInputs.GossipKnown i && LivenessInputs.GossipAlive i) then VerdictAlive
  else if LivenessInputs.GossipKnown i && negb (LivenessInputs.GossipAlive i)
       && (negb (LivenessInputs.HeartbeatReceived i) || (GossipDownStaleThreshold <? LivenessInputs.HeartbeatStaleFor i)%Z)
  then VerdictDown
  else VerdictNoChange.

End NodeHealth.

(** * The loop (liveness.go, eventemit.go) *)

Module Liveness.

Definition heartbeatDeadline : Z := (30 * second)%Z.
Definition leaderGracePeriod : Z := (45 * second)%Z.
Definition heartbeatFlushEvery : Z := (60 * second)%Z.

Definition nodeLabel (n : option Node.t) : string :=
  if n ⇝ Node.Name =? "" then GetId n else n ⇝ Node.Name.

(** The status the signals imply, and whether it is to be written. *)
Definition desiredStatus (i : NodeHealth.LivenessInputs.t) (baselineFresh inGrace : bool) (current : NodeStatus) :
    NodeStatus * bool :=
  match NodeHealth.Decide i with
  | NodeHealth.VerdictAlive => (NODE_STATUS_ALIVE, true)
  | NodeHealth.VerdictDown => (NODE_STATUS_DOWN, true)
  | NodeHealth.VerdictNoChange =>
    if baselineFresh then (NODE_STATUS_ALIVE, true)
    else if inGrace && negb (bool_decide (current = NODE_STATUS_DOWN)) then (current, false)
    else (NODE_STATUS_DOWN, true)
  end.

(** The monitor of a process, and what its gossip detector says during a pass: [leaderSince]
    is set when Run starts, which is when the process does, and never again. *)
Module Monitor.
Record t := mk { localNodeID : string; leaderSince : Z; gossip : option (string → option bool) }.
End Monitor.

(** What a pass decides for a node: the status to write and the heartbeat time with it,
    whether the status changed and whether the time is persisted; [None] to go on. *)
Module write.
Record t := mk { status : NodeStatus; hbAt : option Timestamp.t; changed : bool; flush : bool }.
End write.

Section monitor.
Context {RO : RangeOrder} {TL : TimestampLib} {E : Env}.
Variable m : Monitor.t.
(** live.Get *)
Variable live : string → option Live.NodeState.t.

Definition inputs (now : Z) (id : string) : NodeHealth.LivenessInputs.t :=
  let hb := live id ≫= Live.NodeState.LastHeartbeat in
  let seen := match Monitor.gossip m with Some g => g id | None => None end in
  NodeHealth.LivenessInputs.mk (bool_decide (is_Some seen)) (default false seen)
    (bool_decide (is_Some hb)) (match hb with Some t => (now - t)%Z | None => 0%Z end).

Definition baselineFresh (i : NodeHealth.LivenessInputs.t) : bool :=
  NodeHealth.LivenessInputs.HeartbeatReceived i && (NodeHealth.LivenessInputs.HeartbeatStaleFor i <=? heartbeatDeadline)%Z.

Definition decide_node (now : Z) (lastFlush : gmap string Z) (n : option Node.t) : option write.t :=
  let id := GetId n in
  let st := n ⇝ Node.Status in
  if id =? Monitor.localNodeID m then None
  else if bool_decide (st = NODE_STATUS_DRAINING) || bool_decide (st = NODE_STATUS_DRAINED) then None
  else
    let i := inputs now id in
    let fresh := baselineFresh i in
    let '(desired, act) := desiredStatus i fresh (now - Monitor.leaderSince m <? leaderGracePeriod)%Z st in
    let statusChanged := act && negb (bool_decide (st = desired)) in
    let flushHB := fresh && match lastFlush !! id with Some t => (heartbeatFlushEvery <=? now - t)%Z | None => true end in
    if negb statusChanged && negb flushHB then None
    else
      let desired := if act then desired else st in
      let hbAt := if fresh then timestamppb_New <$> (live id ≫= Live.NodeState.LastHeartbeat) else None in
      Some (write.mk desired hbAt statusChanged flushHB).

Definition emitEvent (actor : string) (ev : Event.t) : M () :=
  ev ← match Event.Meta ev with
    | Some _ => mret ev
    | None =>
      id ← New;
      now ← Now;
      mret (Event.mk (Some (Meta.mk id (Some (timestamppb_New now)) None)) (Event.Kind ev) (Event.Severity ev) (Event.ProjectId ev)
        (Event.AppId ev) (Event.EnvironmentId ev) (Event.NodeId ev) (Event.Message ev) (Event.Fields ev))
    end;
  ignore (Apply actor (Command_AppendEvents (Some (AppendEvents.mk [Some ev])))).

Definition set_status (n : option Node.t) (w : write.t) : Mutation :=
  Command_SetNodeStatus (Some (SetNodeStatus.mk (GetId n) (write.status w) (write.hbAt w) false false)).

(** [err := f()] *)
Definition caught (p : M ()) : M (option leader_error) := λ w,
  match p w with
  | Ret (w', inl _) => Ret (w', inl None)
  | Ret (w', inr e) => Ret (w', inl (Some e))
  | Panic => Panic
  end.

(** The loop; it ends when leadership is lost, other failures are logged. *)
Fixpoint evaluate_each (now : Z) (l : list (option Node.t)) (lastFlush : gmap string Z) : M (gmap string Z) :=
  match l with
  | [] => mret lastFlush
  | n :: l =>
    match decide_node now lastFlush n with
    | None => evaluate_each now l lastFlush
    | Some w =>
      err ← caught (Apply "system:liveness" (set_status n w));
      match err with
      | Some ErrNotLeader => mret lastFlush
      | Some ErrApply => evaluate_each now l lastFlush
      | None =>
        (if write.changed w && bool_decide (write.status w = NODE_STATUS_DOWN)
         then emitEvent "system:liveness" (Event.mk None "node.down" "error" "" "" "" (GetId n)
                ("node " +:+ nodeLabel n +:+ " is down") ∅)
         else mret ());;
        evaluate_each now l (if write.flush w then <[GetId n := now]> lastFlush else lastFlush)
      end
    end
  end.

Definition evaluate (lastFlush : gmap string Z) : M (gmap string Z) :=
  leader ← IsLeader;
  if negb leader then mret lastFlush
  else
    now ← Now;
    st ← read;
    evaluate_each now (Store.ListNodes st) lastFlush.

End monitor.

(** What the detectors say during a pass: gossip, if there is such a detector, and the registry. *)
Module View.
Record t := mk { gossip : option (string → option bool); live : string → option Live.NodeState.t }.
End View.

Section loop.
Context {RO : RangeOrder} {TL : TimestampLib} {E : Env}.
Variable localNodeID : string.

(** Until the ticker fires others go on. *)
Definition wait_tick : M () := λ w,
  Ret (World.mk (others (World.tick w) (World.store w)) (S (World.tick w)) (World.sent w), inl ()).

Definition at_tick (leaderSince : Z) (v : View.t) : Monitor.t := Monitor.mk localNodeID leaderSince (View.gossip v).

(** The ticks of Run. *)
Fixpoint ticks (leaderSince : Z) (views : list View.t) (lastFlush : gmap string Z) : M () :=
  match views with
  | [] => mret ()
  | v :: views =>
    wait_tick;;
    lastFlush ← evaluate (at_tick leaderSince v) (View.live v) lastFlush;
    ticks leaderSince views lastFlush
  end.

Definition Run (views : list View.t) : M () :=
  leaderSince ← Now;
  ticks leaderSince views ∅.

End loop.
End Liveness.

(** * Presence: reconnects against teardowns of old streams *)

Module Presence.

(** A stream opens, the k-th stream to open ends, a heartbeat arrives. *)
Inductive event :=
| Opened (nodeID : string)
| Closed (k : nat)
| Beaten (nodeID : string) (hb : option Heartbeat.t) (now : Z).

(** The registry, and what the release functions so far hold. *)
Notation t := (Live.registry * list (string * Z))%type.

Definition step (s : t) (e : event) : t :=
  let '(r, streams) := s in
  match e with
  | Opened n => let '(r, gen) := Live.Connect n r in (r, streams ++ [(n, gen)])
  | Closed k => match streams !! k with Some (n, gen) => (Live.release n gen r, streams) | None => s end
  | Beaten n hb now => (Live.Beat n hb now r, streams)
  end.

Definition run (evs : list event) : t := foldl step (∅, []) evs.

Definition opened (evs : list event) : list string :=
  omap (λ e, match e with Opened n => Some n | _ => None end) evs.

(** A stream ends after it opened. *)
Definition ordered (evs : list event) : Prop :=
  ∀ pre k post, evs = pre ++ Closed k :: post → k < length (opened pre).

(** The last occurrence. *)
Definition last_of (n : string) (l : list string) (k : nat) : Prop := l !! k = Some n ∧ ∀ j, k < j → l !! j ≠ Some n.

Definition cnt (n : string) (l : list string) : Z := Z.of_nat (length (List.filter (λ x, x =? n) l)).

Lemma cnt_app n l1 l2 : cnt n (l1 ++ l2) = (cnt n l1 + cnt n l2)%Z.
Proof. unfold cnt. rewrite List.filter_app, length_app. lia. Qed.

Lemma cnt_zero n l : cnt n l = 0%Z ↔ n ∉ l.
Proof.
  unfold cnt. induction l as [|x l IH]; [split; [by intros _ ?%elem_of_nil|done]|]. cbn. rewrite elem_of_cons.
  destruct (x =? n) eqn:E; [apply str_eqb_eq in E; subst; cbn; split; [lia|intros H; destruct H; by left]|].
  apply str_eqb_neq in E. rewrite IH. naive_solver.
Qed.

Lemma cnt_length n l : (0 ≤ cnt n l ≤ Z.of_nat (length l))%Z.
Proof. unfold cnt. pose proof (List.filter_length_le (λ x, x =? n) l). lia. Qed.

Lemma cnt_one n : cnt n [n] = 1%Z.
Proof. unfold cnt. cbn. by rewrite (proj2 (str_eqb_eq n n) eq_refl). Qed.

(** The count at an occurrence is the whole count just at the last one. *)
Lemma cnt_last n l k : l !! k = Some n → cnt n (take (S k) l) = cnt n l ↔ last_of n l k.
Proof.
  intros Hk. rewrite <- (take_drop (S k) l) at 2. rewrite cnt_app.
  transitivity (cnt n (drop (S k) l) = 0%Z); [lia|]. rewrite cnt_zero. unfold last_of. split.
  - intros Hn. split; [done|]. intros j Hj Hl. apply Hn. apply list_elem_of_lookup. exists (j - S k). rewrite lookup_drop.
    by replace (S k + (j - S k)) with j by lia.
  - intros [_ Hl] (j & Hj)%list_elem_of_lookup. rewrite lookup_drop in Hj. by apply (Hl (S k + j)); [lia|].
Qed.

Lemma last_of_unique n l k j : last_of n l k → last_of n l j → k = j.
Proof.
  intros [Hk H1] [Hj H2]. destruct (Nat.lt_trichotomy k j) as [?|[?|?]]; [|done|]; [by destruct (H1 j)|by destruct (H2 k)].
Qed.

Lemma last_of_snoc n l m k : last_of n (l ++ [m]) k ↔ (m = n ∧ k = length l) ∨ (m ≠ n ∧ last_of n l k).
Proof.
  unfold last_of. split.
  - intros [Hk Hlast]. destruct (decide (m = n)) as [->|Hne].
    + left. split; [done|]. apply lookup_lt_Some in Hk as Hlt. rewrite length_app in Hlt. cbn in Hlt.
      destruct (decide (k = length l)) as [?|Hne]; [done|]. destruct (Hlast (length l)); [lia|]. by apply list_lookup_middle.
    + right. split; [done|]. assert (k < length l) as Hlt.
      { apply lookup_lt_Some in Hk as Hlt. rewrite length_app in Hlt. cbn in Hlt. destruct (decide (k = length l)) as [->|?]; [|lia].
        rewrite list_lookup_middle in Hk by done. congruence. }
      rewrite lookup_app_l in Hk by done. split; [done|]. intros j Hj Hl. apply (Hlast j Hj). by apply lookup_app_l_Some.
  - intros [[-> ->]|[Hne [Hk Hlast]]].
    + split; [by apply list_lookup_middle|]. intros j Hj. rewrite lookup_ge_None_2; [done|]. rewrite length_app. cbn. lia.
    + split; [by apply lookup_app_l_Some|]. intros j Hj Hl. destruct (decide (j < length l)) as [Hlt|Hge].
      * rewrite lookup_app_l in Hl by done. by apply (Hlast j).
      * apply lookup_lt_Some in Hl as Hlt. rewrite length_app in Hlt. cbn in Hlt. replace j with (length l) in Hl by lia.
        rewrite list_lookup_middle in Hl by done. congruence.
Qed.

Definition inv (evs : list event) (s : t) : Prop :=
  let '(r, streams) := s in
  streams.*1 = opened evs
  ∧ (∀ k n g, streams !! k = Some (n, g) → g = cnt n (take (S k) (opened evs)))
  ∧ (∀ n, Live.node.gen (default Live.new_node (r !! n)) = cnt n (opened evs))
  ∧ (∀ n, Live.node.connected (default Live.new_node (r !! n)) = true ↔ ∃ k, last_of n (opened evs) k ∧ Closed k ∉ evs).

Lemma ordered_closed evs k : ordered evs → Closed k ∈ evs → k < length (opened evs).
Proof.
  intros Hord (pre & post & ->)%list_elem_of_split. pose proof (Hord pre k post eq_refl) as Hk.
  unfold opened in *. rewrite omap_app, length_app. lia.
Qed.

Lemma inv_opened evs r streams n :
  (Z.of_nat (length (opened evs)) + 1 < 2 ^ 64)%Z → (∀ k, Closed k ∈ evs → k < length (opened evs)) →
  inv evs (r, streams) → inv (evs ++ [Opened n]) (step (r, streams) (Opened n)).
Proof.
  intros Hlen Hcl (Hs & Hg & Hn & Hc). assert (opened (evs ++ [Opened n]) = opened evs ++ [n]) as Hop by (unfold opened; by rewrite omap_app).
  cbn [step]. unfold Live.Connect. set (nd := default Live.new_node (r !! n)). set (gen := u64 (Live.node.gen nd + 1)).
  assert (gen = cnt n (opened evs ++ [n])) as Hgen.
  { unfold gen, nd. rewrite Hn, cnt_app, cnt_one. unfold u64. apply Z.mod_small. pose proof (cnt_length n (opened evs)). lia. }
  unfold inv. rewrite Hop. split; [by rewrite fmap_app, Hs|].
  assert (length streams = length (opened evs)) as Hlens by (by rewrite <- Hs, length_fmap).
  split; [|split].
  - intros k m g Hk. destruct (decide (k < length streams)) as [Hlt|Hge].
    + rewrite lookup_app_l in Hk by done. rewrite take_app_le by lia. by apply Hg.
    + apply lookup_lt_Some in Hk as Hlt. rewrite length_app in Hlt. cbn in Hlt. replace k with (length streams) in Hk |- * by lia.
      rewrite list_lookup_middle in Hk by done. injection Hk as <- <-. by rewrite take_ge by (rewrite length_app; cbn; lia).
  - intros m. destruct (decide (m = n)) as [->|Hne]; [by rewrite lookup_insert_eq|].
    rewrite lookup_insert_ne by done. rewrite Hn, cnt_app. assert (cnt m [n] = 0%Z) as ->; [|lia].
    apply cnt_zero. by intros ->%list_elem_of_singleton.
  - intros m. setoid_rewrite last_of_snoc. destruct (decide (m = n)) as [->|Hne].
    + rewrite lookup_insert_eq. cbn. split; [|done]. intros _. exists (length (opened evs)). split; [by left|].
      intros [Hin%Hcl|Hin%list_elem_of_singleton]%elem_of_app; [lia|done].
    + rewrite lookup_insert_ne by done. rewrite Hc. split; intros (k & Hk & Hk'); exists k.
      * split; [right; by split|]. intros [?|?%list_elem_of_singleton]%elem_of_app; done.
      * destruct Hk as [[-> _]|[_ Hk]]; [done|]. split; [done|]. intros Hin. apply Hk', elem_of_app. by left.
Qed.

(** A stream that ends takes presence away just if it was the last one. *)
Lemma open_after_close evs k m :
  (∃ j, last_of m (opened evs) j ∧ Closed j ∉ evs ++ [Closed k])
  ↔ ∃ j, (last_of m (opened evs) j ∧ Closed j ∉ evs) ∧ j ≠ k.
Proof.
  split; intros (j & Hj); exists j; rewrite elem_of_app, list_elem_of_singleton in *.
  - destruct Hj as [Hl Hj]. split; [split; [done|tauto]|]. intros ->. tauto.
  - destruct Hj as [[Hl Hj] Hne]. split; [done|]. intros [?|[= ->]]; done.
Qed.

Lemma inv_closed evs r streams k :
  k < length (opened evs) → inv evs (r, streams) → inv (evs ++ [Closed k]) (step (r, streams) (Closed k)).
Proof.
  intros Hk (Hs & Hg & Hn & Hc). assert (opened (evs ++ [Closed k]) = opened evs) as Hop by (unfold opened; by rewrite omap_app, app_nil_r).
  assert (is_Some (streams !! k)) as [[n g] Hsk] by (apply lookup_lt_is_Some; rewrite <- Hs, length_fmap in Hk; done).
  cbn [step]. rewrite Hsk. assert (opened evs !! k = Some n) as Hok by (by rewrite <- Hs, list_lookup_fmap, Hsk).
  pose proof (Hg _ _ _ Hsk) as ->. unfold inv. rewrite Hop. pose proof (cnt_last n _ _ Hok) as Hlast. pose proof (Hn n) as Hgn.
  assert (∀ m, (m = n → ¬ last_of n (opened evs) k) →
    (∃ j, last_of m (opened evs) j ∧ Closed j ∉ evs) ↔ ∃ j, last_of m (opened evs) j ∧ Closed j ∉ evs ++ [Closed k]) as Hsame.
  { intros m Hm. rewrite open_after_close. split; intros (j & Hj); exists j; [|tauto]. split; [done|]. intros ->.
    destruct Hj as [Hj _]. assert (m = n) as -> by (destruct Hj; congruence). by apply Hm. }
  unfold Live.release. destruct (r !! n) as [nd|] eqn:Hrn; cbn in Hgn.
  - destruct (Z.eqb_spec (Live.node.gen nd) (cnt n (take (S k) (opened evs)))) as [E|E]; (split; [done|]; split; [done|]; split).
    + intros m. destruct (decide (m = n)) as [->|Hne]; [by rewrite lookup_insert_eq|]. by rewrite lookup_insert_ne.
    + intros m. destruct (decide (m = n)) as [->|Hne].
      * rewrite lookup_insert_eq, open_after_close. cbn. split; [done|]. intros (j & [Hj _] & Hne). destruct Hne.
        eapply last_of_unique; [exact Hj|]. apply Hlast. congruence.
      * rewrite lookup_insert_ne by done. rewrite Hc. by apply Hsame.
    + done.
    + intros m. rewrite Hc. apply Hsame. intros -> Hl. apply E. rewrite Hgn. symmetry. by apply Hlast.
  - split; [done|]. split; [done|]. split; [done|]. intros m. rewrite Hc. apply Hsame. intros -> _.
    symmetry in Hgn. apply cnt_zero in Hgn. apply Hgn. by eapply list_elem_of_lookup_2.
Qed.

Lemma inv_beaten evs r streams n hb now :
  inv evs (r, streams) → inv (evs ++ [Beaten n hb now]) (step (r, streams) (Beaten n hb now)).
Proof.
  intros (Hs & Hg & Hn & Hc). assert (opened (evs ++ [Beaten n hb now]) = opened evs) as Hop by (unfold opened; by rewrite omap_app, app_nil_r).
  unfold inv. cbn [step]. rewrite Hop. split; [done|]. split; [done|]. unfold Live.Beat. split.
  - intros m. destruct (decide (m = n)) as [->|Hne]; [rewrite lookup_insert_eq; apply Hn|]. by rewrite lookup_insert_ne.
  - intros m. assert ((∃ j, last_of m (opened evs) j ∧ Closed j ∉ evs ++ [Beaten n hb now]) ↔ ∃ j, last_of m (opened evs) j ∧ Closed j ∉ evs) as ->.
    { split; intros (j & Hj & Hj'); exists j; (split; [done|]).
      - intros Hin. apply Hj', elem_of_app. by left.
      - intros [?|?%list_elem_of_singleton]%elem_of_app; done. }
    destruct (decide (m = n)) as [->|Hne]; [rewrite lookup_insert_eq; apply Hc|]. by rewrite lookup_insert_ne.
Qed.

Lemma run_inv evs : ordered evs → (Z.of_nat (length (opened evs)) < 2 ^ 64)%Z → inv evs (run evs).
Proof.
  induction evs as [|e evs IH] using rev_ind; intros Hord Hlen.
  { split; [done|]. split; [by intros k n g|]. split; intros n; cbn; rewrite lookup_empty; cbn; [done|].
    split; [done|]. intros (k & [Hk _] & _). cbn in Hk. by rewrite lookup_nil in Hk. }
  assert (opened (evs ++ [e]) = opened evs ++ match e with Opened n => [n] | _ => [] end) as Hop by (unfold opened; rewrite omap_app; by destruct e).
  assert (ordered evs) as Hord'. { intros pre k post ->. apply (Hord pre k (post ++ [e])). by rewrite <- app_assoc. }
  rewrite Hop, length_app in Hlen. specialize (IH Hord' ltac:(lia)). unfold run in *. rewrite foldl_app.
  destruct (foldl step (∅, []) evs) as [r streams]. cbn [foldl]. destruct e as [n|k|n hb now].
  - apply inv_opened; [cbn in Hlen; lia|intros k; by apply ordered_closed|done].
  - apply inv_closed; [by apply (Hord evs k [])|done].
  - by apply inv_beaten.
Qed.
End Presence.

(** A node is present just while its latest stream is open.  However streams open,
    end and beat, the old stream of a node that reconnected ending late included, the
    registry shows a node as connected if and only if the last stream it opened has not
    ended. *)
Theorem presence_is_the_latest_stream (evs : list Presence.event) (nodeID : string) :
  Presence.ordered evs → (Z.of_nat (length (Presence.opened evs)) < 2 ^ 64)%Z →
  (∃ s, Live.Get nodeID (Presence.run evs).1 = Some s ∧ Live.NodeState.Connected s = true)
  ↔ ∃ k, Presence.last_of nodeID (Presence.opened evs) k ∧ Presence.Closed k ∉ evs.
Proof.
  intros Hord Hlen. pose proof (Presence.run_inv evs Hord Hlen) as Hinv. destruct (Presence.run evs) as [r streams].
  destruct Hinv as (_ & _ & _ & Hc). cbn [fst]. rewrite <- Hc. unfold Live.Get. destruct (r !! nodeID) as [nd|]; cbn.
  - split; [by intros (s & [= <-] & Hs)|]. intros Hs. by eexists.
  - split; [by intros (s & ? & _)|done].
Qed.

(** * What a pass may write *)

Section justified.
Context (m : Liveness.Monitor.t) (live : string → option Live.NodeState.t) (now : Z).

(** A heartbeat not older than the limit. *)
Definition heard (n : option Node.t) (limit : Z) : Prop :=
  ∃ t, live (GetId n) ≫= Live.NodeState.LastHeartbeat = Some t ∧ (now - t ≤ limit)%Z.

(** What the other detector says. *)
Definition gossiped (n : option Node.t) (alive : bool) : Prop :=
  ∃ g, Liveness.Monitor.gossip m = Some g ∧ g (GetId n) = Some alive.

(** Only other nodes that no administrator drains. *)
Definition judged (n : option Node.t) : Prop :=
  GetId n ≠ Liveness.Monitor.localNodeID m ∧ n ⇝ Node.Status ≠ NODE_STATUS_DRAINING ∧ n ⇝ Node.Status ≠ NODE_STATUS_DRAINED.

(** A node goes down when both detectors say so, or, without an opinion of gossip, when
    it was not heard of for 30 s and the monitor has run for its grace period. *)
Definition down (n : option Node.t) : Prop :=
  ¬ heard n NodeHealth.GossipDownStaleThreshold ∧ ¬ gossiped n true
  ∧ (gossiped n false ∨ ¬ heard n Liveness.heartbeatDeadline ∧ (Liveness.leaderGracePeriod ≤ now - Liveness.Monitor.leaderSince m)%Z).

(** A node comes up when either detector says so. *)
Definition up (n : option Node.t) : Prop := heard n Liveness.heartbeatDeadline ∨ gossiped n true.

(** A status write: of a node that is judged, a justified transition, or the status it
    was read with and a heartbeat heard of. *)
Definition justified (n : option Node.t) (s : SetNodeStatus.t) : Prop :=
  judged n ∧ SetNodeStatus.NodeId s = GetId n ∧ SetNodeStatus.SchedulableSet s = false
  ∧ (SetNodeStatus.Status s = NODE_STATUS_DOWN ∧ n ⇝ Node.Status ≠ NODE_STATUS_DOWN ∧ down n
     ∨ SetNodeStatus.Status s = NODE_STATUS_ALIVE ∧ n ⇝ Node.Status ≠ NODE_STATUS_ALIVE ∧ up n
     ∨ SetNodeStatus.Status s = n ⇝ Node.Status ∧ heard n Liveness.heartbeatDeadline).

Lemma inputs_heard n limit :
  NodeHealth.LivenessInputs.HeartbeatReceived (Liveness.inputs m live now (GetId n))
  && (NodeHealth.LivenessInputs.HeartbeatStaleFor (Liveness.inputs m live now (GetId n)) <=? limit)%Z = true ↔ heard n limit.
Proof.
  unfold heard, Liveness.inputs. cbn. destruct (live (GetId n) ≫= Live.NodeState.LastHeartbeat) as [t|]; cbn.
  - rewrite Z.leb_le. naive_solver.
  - split; [done|]. by intros (? & [=] & _).
Qed.

Lemma inputs_gossip n b :
  NodeHealth.LivenessInputs.GossipKnown (Liveness.inputs m live now (GetId n)) = true
  ∧ NodeHealth.LivenessInputs.GossipAlive (Liveness.inputs m live now (GetId n)) = b ↔ gossiped n b.
Proof.
  unfold gossiped, Liveness.inputs. cbn. destruct (Liveness.Monitor.gossip m) as [g|]; cbn.
  - destruct (g (GetId n)) as [a|] eqn:E; cbn.
    + split; [intros [_ ->]; eauto|]. intros (? & [= <-] & ?). split; [done|congruence].
    + split; [by intros [? _]|]. intros (? & [= <-] & ?). congruence.
  - split; [by intros [? _]|]. by intros (? & [=] & _).
Qed.

(** The guard: down needs both detectors, up needs one. *)
Lemma Decide_spec n :
  match NodeHealth.Decide (Liveness.inputs m live now (GetId n)) with
  | NodeHealth.VerdictAlive => heard n NodeHealth.GossipDownStaleThreshold ∨ gossiped n true
  | NodeHealth.VerdictDown => ¬ heard n NodeHealth.GossipDownStaleThreshold ∧ gossiped n false
  | NodeHealth.VerdictNoChange => ¬ heard n NodeHealth.GossipDownStaleThreshold ∧ ¬ gossiped n true ∧ ¬ gossiped n false
  end.
Proof.
  unfold NodeHealth.Decide. pose proof (inputs_heard n NodeHealth.GossipDownStaleThreshold) as H1.
  pose proof (inputs_gossip n true) as G1. pose proof (inputs_gossip n false) as G2.
  destruct (Liveness.inputs m live now (GetId n)) as [known alive received stale]. cbn in *. rewrite Z.ltb_antisym.
  destruct received, known, alive, (stale <=? NodeHealth.GossipDownStaleThreshold)%Z; cbn in *; intuition congruence.
Qed.

Lemma desiredStatus_spec n st :
  match Liveness.desiredStatus (Liveness.inputs m live now (GetId n)) (Liveness.baselineFresh (Liveness.inputs m live now (GetId n)))
    (now - Liveness.Monitor.leaderSince m <? Liveness.leaderGracePeriod)%Z st with
  | (d, true) => d = NODE_STATUS_DOWN ∧ (st ≠ NODE_STATUS_DOWN → down n) ∨ d = NODE_STATUS_ALIVE ∧ up n
  | (_, false) => True
  end.
Proof.
  pose proof (Decide_spec n) as Hd. pose proof (inputs_heard n Liveness.heartbeatDeadline) as Hb.
  fold (Liveness.baselineFresh (Liveness.inputs m live now (GetId n))) in Hb. unfold Liveness.desiredStatus, down, up.
  destruct (NodeHealth.Decide _).
  - destruct (Liveness.baselineFresh _); [right; split; [done|left; by apply Hb]|].
    destruct (Z.ltb_spec (now - Liveness.Monitor.leaderSince m) Liveness.leaderGracePeriod) as [Hlt|Hge]; cbn [andb].
    + destruct (bool_decide (st = NODE_STATUS_DOWN)) eqn:E; cbn [negb]; [|done]. apply bool_decide_eq_true in E. by left.
    + left. split; [done|]. intros _. split_and!; [tauto..|]. right. split; [|lia]. intros Hh. by apply Hb in Hh.
  - right. split; [done|]. destruct Hd as [(t & Ht & Hle)|?]; [|by right]. left. exists t. split; [done|].
    unfold NodeHealth.GossipDownStaleThreshold, Liveness.heartbeatDeadline, second in *. lia.
  - left. split; [done|]. intros _. destruct Hd as [Hh Hg]. split_and!; [done| |by left].
    destruct Hg as (g & Hg & Hf). intros (g' & Hg' & Ht). congruence.
Qed.

Lemma decide_node_spec {TL : TimestampLib} lastFlush n w :
  Liveness.decide_node m live now lastFlush n = Some w →
  justified n (SetNodeStatus.mk (GetId n) (Liveness.write.status w) (Liveness.write.hbAt w) false false)
  ∧ (Liveness.write.changed w = true → Liveness.write.status w = NODE_STATUS_DOWN → down n).
Proof.
  unfold Liveness.decide_node, justified, judged. destruct (GetId n =? _) eqn:Hid; [done|]. apply str_eqb_neq in Hid.
  destruct (bool_decide (n ⇝ Node.Status = NODE_STATUS_DRAINING)) eqn:H1; [done|].
  destruct (bool_decide (n ⇝ Node.Status = NODE_STATUS_DRAINED)) eqn:H2; [done|]. cbn [orb].
  apply bool_decide_eq_false in H1, H2. pose proof (desiredStatus_spec n (n ⇝ Node.Status)) as Hd.
  pose proof (inputs_heard n Liveness.heartbeatDeadline) as Hb. fold (Liveness.baselineFresh (Liveness.inputs m live now (GetId n))) in Hb.
  destruct (Liveness.desiredStatus _ _ _ _) as [d act]. set (st := n ⇝ Node.Status) in *. clearbody st.
  set (fl := match lastFlush !! _ with Some _ => _ | None => _ end). clearbody fl.
  destruct (act && negb (bool_decide (st = d))) eqn:Hch; cbn [negb andb].
  - apply andb_true_iff in Hch as [-> Hst%negb_true_iff%bool_decide_eq_false]. intros [= <-]. cbn.
    destruct Hd as [[-> Hd]|[-> Hu]]; (split; [|by eauto]); split_and!; try done; [left|right; left]; split_and!; auto.
  - destruct (Liveness.baselineFresh _); cbn [andb]; [|done]. destruct fl; [|done]. intros [= <-]. cbn. split; [|done].
    split_and!; try done. right. right. split; [|by apply Hb]. destruct act; [|done]. apply negb_false_iff, bool_decide_eq_true in Hch. done.
Qed.

(** A proposal of a pass over the nodes it read. *)
Definition liveness_write (nodes : list (option Node.t)) (mut : Mutation) : Prop :=
  (∃ n s, n ∈ nodes ∧ mut = Command_SetNodeStatus (Some s) ∧ justified n s)
  ∨ ∃ n ev, n ∈ nodes ∧ mut = Command_AppendEvents (Some (AppendEvents.mk [Some ev])) ∧ Event.Kind ev = "node.down"
      ∧ Event.NodeId ev = GetId n ∧ judged n ∧ down n.
End justified.

Section pass.
Context {RO : RangeOrder} {TL : TimestampLib} {E : Env}.
Context (m : Liveness.Monitor.t) (live : string → option Live.NodeState.t).

Lemma emits_caught P (p : M ()) w : emits_at P p w → emits_at P (Liveness.caught p) w.
Proof.
  intros Hp w' r. unfold Liveness.caught. destruct (p w) as [[w1 [?|?]]|] eqn:E1; [| |done]; intros [= <- _]; by eapply Hp.
Qed.

Lemma emits_ignored P (p : M ()) w : emits_at P p w → emits_at P (ignore p) w.
Proof. intros Hp w' r. unfold ignore. destruct (p w) as [[w1 ?]|] eqn:E1; [|done]. intros [= <- _]. by eapply Hp. Qed.

Lemma evaluate_each_emits now nodes l lastFlush w :
  (∀ n, n ∈ l → n ∈ nodes) → emits_at (liveness_write m live now nodes) (Liveness.evaluate_each m live now l lastFlush) w.
Proof.
  revert lastFlush w. induction l as [|n l IH]; intros lastFlush w Hin; cbn [Liveness.evaluate_each]; [apply emits_silent, silent_ret|].
  assert (∀ n, n ∈ l → n ∈ nodes) as Hl by (intros x Hx; apply Hin; by right). assert (n ∈ nodes) as Hn by (apply Hin; by left).
  destruct (Liveness.decide_node m live now lastFlush n) as [wr|] eqn:Hd; [|by apply IH].
  destruct (decide_node_spec m live now _ _ _ Hd) as [Hj Hdown].
  apply emits_bind; [apply emits_caught, emits_Apply; left; by exists n, (SetNodeStatus.mk (GetId n) (Liveness.write.status wr) (Liveness.write.hbAt wr) false false)|].
  intros w1 [[]|] _; [apply emits_silent, silent_ret|by apply IH|].
  apply emits_bind; [|intros; by apply IH]. destruct (Liveness.write.changed wr) eqn:Hc; cbn [andb]; [|apply emits_silent, silent_ret].
  destruct (bool_decide _) eqn:Hs; [|apply emits_silent, silent_ret]. apply bool_decide_eq_true in Hs. unfold Liveness.emitEvent. cbn.
  apply emits_bind; [apply emits_silent; solve_silent|]. intros w2 ev Hev. apply emits_ignored, emits_Apply. right. exists n, ev.
  repeat (apply bind_inl in Hev as (? & ? & _ & Hev)). injection Hev as _ <-. cbn. split_and!; try done; [apply Hj|by apply Hdown].
Qed.

Lemma evaluate_emits lastFlush w :
  emits_at (liveness_write m live (clock_Now (S (World.tick w))) (Store.ListNodes (World.store w)))
    (Liveness.evaluate m live lastFlush) w.
Proof.
  unfold Liveness.evaluate, IsLeader, Now. intros w' r. unfold mbind, M_bind, tick_. cbn.
  destruct (leads (World.tick w)); cbn [negb]; [|intros [= <- _]; exists []; by rewrite app_nil_r].
  cbn. intros Hr. exact (evaluate_each_emits _ (Store.ListNodes (World.store w)) _ lastFlush
    (World.mk (World.store w) (S (S (World.tick w))) (World.sent w)) (λ n Hn, Hn) w' r Hr).
Qed.
End pass.

Section loop.
Context {RO : RangeOrder} {TL : TimestampLib} {E : Env} (localNodeID : string).

Definition ticked (w : World.t) : World.t :=
  World.mk (others (World.tick w) (World.store w)) (S (World.tick w)) (World.sent w).

(** The passes of a loop: what the detectors say in each, and the world it begins in. *)
Fixpoint passes (leaderSince : Z) (views : list Liveness.View.t) (lastFlush : gmap string Z) (w : World.t) :
    list (Liveness.View.t * World.t) :=
  match views with
  | [] => []
  | v :: views =>
    (v, ticked w) ::
    match Liveness.evaluate (Liveness.at_tick localNodeID leaderSince v) (Liveness.View.live v) lastFlush (ticked w) with
    | Ret (w', inl lastFlush) => passes leaderSince views lastFlush w'
    | _ => []
    end
  end.

(** A proposal of one of some passes, of a monitor that started at a time. *)
Definition of_a_pass (leaderSince : Z) (ps : list (Liveness.View.t * World.t)) (mut : Mutation) : Prop :=
  ∃ v w, (v, w) ∈ ps
    ∧ liveness_write (Liveness.at_tick localNodeID leaderSince v) (Liveness.View.live v) (clock_Now (S (World.tick w)))
        (Store.ListNodes (World.store w)) mut.

Lemma ticks_emits leaderSince views lastFlush w :
  emits_at (of_a_pass leaderSince (passes leaderSince views lastFlush w)) (Liveness.ticks localNodeID leaderSince views lastFlush) w.
Proof.
  revert lastFlush w. induction views as [|v views IH]; intros lastFlush w; cbn [Liveness.ticks passes]; [apply emits_silent, silent_ret|].
  apply emits_bind.
  { intros w' r. unfold Liveness.wait_tick. intros [= <- _]. exists []. split; [by rewrite app_nil_r|constructor]. }
  intros w1 [] Hw. unfold Liveness.wait_tick in Hw. injection Hw as <-. fold (ticked w). apply emits_bind.
  - eapply emits_at_mono; [|apply evaluate_emits]. intros mut Hm. exists v, (ticked w). split; [by left|done].
  - intros w2 lf Hev. rewrite Hev. eapply emits_at_mono; [|apply IH]. intros mut (v' & w' & Hin & Hm). exists v', w'. split; [by right|done].
Qed.
End loop.

(** C33: the status of a node follows the detectors.  Whatever the detectors say at each
    tick and whatever others do meanwhile, the liveness loop of a process proposes
    nothing but, in a pass over the nodes then in the state, for other nodes that are
    not being drained: to mark a node down of which nothing was heard for 10 s and that
    gossip reports dead, or, if gossip has no opinion, of which nothing was heard for
    30 s, 45 s at the earliest after the loop started, with an event; to mark one alive that was heard
    of or that gossip reports alive; and to persist a heartbeat with the status the pass
    read.  The 45 s count from the start of the process; of the time since an election,
    which the comments of the loop speak of, nothing is promised: see
    new_leader_has_no_grace. *)
Theorem liveness_is_justified {RO : RangeOrder} {TL : TimestampLib} {E : Env} (localNodeID : string)
    (views : list Liveness.View.t) (w : World.t) :
  let leaderSince := clock_Now (World.tick w) in
  emits_at (of_a_pass localNodeID leaderSince
      (passes localNodeID leaderSince views ∅ (World.mk (World.store w) (S (World.tick w)) (World.sent w))))
    (Liveness.Run localNodeID views) w.
Proof.
  intros since. apply emits_bind; [apply emits_silent; solve_silent|]. intros w1 t Hn. unfold Now, tick_ in Hn. cbn in Hn. injection Hn as <- <-.
  apply ticks_emits.
Qed.

(** A follower that has run for a quarter of an hour is elected at 1002 s.  No stream to it
    is open yet, and its first pass as leader, 3 s later, marks a node that is well as down. *)
Definition elected_env : Env := {|
  fate _ := Committed; others _ s := s; raft_index n := Z.of_nat n;
  leads n := bool_decide (5 ≤ n)%nat; ids_New _ := "r";
  clock_Now n := if bool_decide (n = 0)%nat then 0%Z else (1005 * second)%Z
|}.

Lemma new_leader_has_no_grace :
  let n2 := Store.PutNode (Some (sample_node "n2" NODE_STATUS_ALIVE 4000 4096)) Store.New in
  let silent := Liveness.View.mk None (λ _, None) in
  ∃ w', Liveness.Run (RO := canonical_range) (TL := wellknown_times) (E := elected_env) "n1" [silent; silent; silent]
      (World.mk n2 0 []) = Ret (w', inl ())
    ∧ (leads (Env := elected_env) 2, leads (Env := elected_env) 4, leads (Env := elected_env) 6) = (false, false, true)
    ∧ (default None (Store.nodes (World.store w') !! "n2")) ⇝ Node.Status = NODE_STATUS_DOWN.
Proof. eexists. split; [vm_compute; reflexivity|]. split; vm_compute; reflexivity. Qed.

(** The status a pass persists with a heartbeat is the one it read: a drain that begins
    between the two is undone. *)
Definition draining_env : Env := {|
  fate _ := Committed;
  others n s := if (n =? 2)%nat then Store.PutNode (Some (sample_node "n2" NODE_STATUS_DRAINING 4000 4096)) s else s;
  raft_index n := Z.of_nat n; leads _ := true; ids_New n := "r"; clock_Now n := (100 * second)%Z
|}.

Definition heartbeats (id : string) : option Live.NodeState.t :=
  if id =? "n2" then Some (Live.NodeState.mk "n2" true (Some (99 * second)%Z) None) else None.

Definition leader_n1 : Liveness.Monitor.t := Liveness.Monitor.mk "n1" 0 None.

Definition n2_alive : Store.t := Store.PutNode (Some (sample_node "n2" NODE_STATUS_ALIVE 4000 4096)) Store.New.

Lemma flush_undoes_a_drain :
  ∃ w' r, Liveness.evaluate (RO := canonical_range) (TL := wellknown_times) (E := draining_env) leader_n1 heartbeats ∅
      (World.mk n2_alive 0 []) = Ret (w', r)
    ∧ (default None (Store.nodes (World.store w') !! "n2")) ⇝ Node.Status = NODE_STATUS_ALIVE.
Proof. eexists _, _. split; [vm_compute; reflexivity|]. vm_compute. reflexivity. Qed.

(** * Witnesses *)

(** n1 reconnects before its old stream is torn down. *)
Definition reconnecting : list Presence.event := [Presence.Opened "n1"; Presence.Opened "n1"; Presence.Closed 0].

Lemma presence_is_the_latest_stream_witness :
  ∃ s, Live.Get "n1" (Presence.run reconnecting).1 = Some s ∧ Live.NodeState.Connected s = true.
Proof.
  refine (proj2 (presence_is_the_latest_stream reconnecting "n1" _ _) _).
  - intros pre k post H. unfold reconnecting in H.
    destruct pre as [|e1 [|e2 [|e3 pre]]]; try discriminate H; [|by destruct pre].
    injection H as <- <- <- _. cbn. lia.
  - reflexivity.
  - exists 1. split; [split; [reflexivity|]|].
    + intros j Hj. assert (j ≥ 2) by lia. rewrite lookup_ge_None_2; [discriminate|cbn; lia].
    + unfold reconnecting. rewrite !elem_of_cons, elem_of_nil. intros [H|[H|[H|[]]]]; discriminate H.
Defined.
