(* ===== verification/Autoscale.v ===== *)
(** The loops that change how many replicas an environment should have
    (internal/daemon/scheduler/autoscaler.go, scaletozero.go, serverless.go) and the
    handler that wakes a cold environment (internal/daemon/api/activator.go).

    The three loops run on the leader beside the scheduler.  What the nodes report live
    ([LiveView], a function of the number of interactions) is the registry of Live.v; the
    maps a loop keeps for one leader term are passed along.  A map entry that is missing
    is the zero time of Go, which no clock shows. *)
From stdpp Require Import pretty.
From S2P Require Import Prelude Api Watch State StateInv StoreProps Fsm Samples Platform F64 Placement Leader Orchestrator Control Rpc Live.

(** LiveView.Snapshot, by the number of interactions. *)
Class LiveView := live_Snapshot : nat → list Live.NodeState.t.

(** The duration constants of the loops, in nanoseconds. *)
Definition minute : Z := (60 * second)%Z.
Definition scaleDownHold : Z := (5 * minute)%Z.
Definition scaleCooldown : Z := (3 * minute)%Z.
Definition activationDebounce : Z := (10 * second)%Z.

Section scaling.
Context {RO : RangeOrder} {TL : TimestampLib} {FC : F64.FloatConv} {LV : LiveView} {E : Env}.

Definition Snapshot : M (list Live.NodeState.t) := tick_ live_Snapshot.

(** The heartbeats of the nodes that sent one. *)
Definition heartbeats_of (live : list Live.NodeState.t) : list Heartbeat.t := omap Live.NodeState.Heartbeat live.

(** deploymentActive, the same in the three loops. *)
Definition deploymentActive (st : Store.t) (envID : string) : bool :=
  existsb (λ d, negb (isTerminalPhase (d ⇝ Deployment.Phase))) (Store.ListDeployments envID st).

(** [cur.EffectiveReplicas = n; cur.GetMeta().UpdatedAt = timestamppb.New(now)] of a clone *)
Definition rescaled {Err} (cur : option Environment.t) (n now : Z) : Prog Err Environment.t :=
  cur ← deref cur;
  meta ← deref (Environment.Meta cur);
  mret (cur <| Environment.EffectiveReplicas := n |>
            <| Environment.Meta := Some (meta <| Meta.UpdatedAt := Some (timestamppb_New now) |>) |>).

Definition put_environment (env : Environment.t) : Mutation := Command_PutEnvironment (Some (PutEnvironment.mk (Some env))).

(** emitEvent of a loop that proposes as [actor]. *)
Definition scale_event (actor : string) (env : option Environment.t) (kind msg : string) : M () :=
  id ← New;
  now ← Now;
  ignore (apply actor (Command_AppendEvents (Some (AppendEvents.mk [Some
    (Event.mk (Some (Meta.mk id (Some (timestamppb_New now)) None)) kind "info" (env ⇝ Environment.ProjectId)
      (env ⇝ Environment.AppId) (GetId env) "" msg ∅)])))).

(** A loop over environments that threads the maps of the term. *)
Fixpoint for_each_env {A} (l : list (option Environment.t)) (f : A → option Environment.t → M A) (ts : A) : M A :=
  match l with
  | [] => mret ts
  | env :: l => ts ← f ts env; for_each_env l f ts
  end.

(** evaluate, the same in the three loops but for the clock. *)
Definition evaluate_all {A} (f : A → option Environment.t → M A) (ts : A) : M A :=
  leader ← IsLeader;
  if negb leader then fail ErrNotLeader
  else st ← read; for_each_env (Store.ListEnvironments "" "" st) f ts.

End scaling.

(** * The autoscaler (autoscaler.go) *)

Module Autoscaler.
Section autoscaler.
Context {RO : RangeOrder} {TL : TimestampLib} {FC : F64.FloatConv} {LV : LiveView} {E : Env}.

(** 0.8, as the nearest double. *)
Definition downBand : f64 := F64.div (F64.ofZ 8) (F64.ofZ 10).

Record t := mk { lowSince : gmap string Z; lastChange : gmap string Z }.

(** leaderLoop: fresh timers in each term. *)
Definition reset : t := mk ∅ ∅.

Record envObservation := Observed {
  replicas : Z; avgCPU : f64; avgMem : f64; totalRPS : f64; cpuOK : bool; memOK : bool; rpsOK : bool
}.

(** The sums of observe's loops. *)
Record sums := Sums { count : Z; cpuSum : f64; memSum : f64; memN : Z; rps : f64; reporting : bool; seen : gset string }.

Definition runIDs (st : Store.t) (envID : string) : list string :=
  GetId <$> List.filter (λ a, (a ⇝ Assignment.JobId =? "") && is_run a) (Store.ListAssignments envID st).

Definition add_instance (run : list string) (memLimit : f64) (acc : sums) (i : string * InstanceSample.t) : sums :=
  let '(aid, s) := i in
  if negb (bool_decide (aid ∈ run)) || bool_decide (aid ∈ seen acc) then acc
  else
    let limited := F64.ltb F64.zero_ memLimit in
    Sums (count acc + 1) (F64.add (cpuSum acc) (InstanceSample.CpuPercent s))
      (if limited
       then F64.add (memSum acc) (F64.mul (F64.div (F64.ofZ (InstanceSample.MemoryBytes s)) memLimit) (F64.ofZ 100))
       else memSum acc)
      (if limited then memN acc + 1 else memN acc)
      (rps acc) (reporting acc) ({[aid]} ∪ seen acc).

Definition add_node (envID : string) (run : list string) (memLimit : f64) (acc : sums) (hb : Heartbeat.t) : sums :=
  let total := match Heartbeat.Proxy hb !! envID with Some ps => F64.add (rps acc) (ProxySample.Rps ps) | None => rps acc end in
  foldl (add_instance run memLimit) (Sums (count acc) (cpuSum acc) (memSum acc) (memN acc) total true (seen acc))
    (range (Heartbeat.Instances hb)).

Definition observe (st : Store.t) (env : option Environment.t) (live : list Live.NodeState.t) : option envObservation :=
  let envID := GetId env in
  let mb := env ⇝ Environment.Service ⇝ ServiceSpec.Resources ⇝ ResourceLimits.MemoryMb in
  let memLimit := F64.mul (F64.mul (F64.ofZ mb) (F64.ofZ 1024)) (F64.ofZ 1024) in
  let acc := foldl (add_node envID (runIDs st envID) memLimit) (Sums 0 F64.zero_ F64.zero_ 0 F64.zero_ false ∅) (heartbeats_of live) in
  if (count acc =? 0)%Z then None
  else Some (Observed (count acc)
    (F64.div (cpuSum acc) (F64.ofZ (count acc)))
    (if (0 <? memN acc)%Z then F64.div (memSum acc) (F64.ofZ (memN acc)) else F64.zero_)
    (rps acc) true (0 <? memN acc)%Z (reporting acc)).

(** [consider] of scaleTarget *)
Definition consider (band : f64) (n : Z) (observed : f64) (target desired : Z) : Z :=
  let d := F64.toInt (F64.Ceil (F64.div (F64.mul (F64.ofZ n) observed) (F64.mul (F64.ofZ target) band))) in
  if (desired <? d)%Z then d else desired.

Definition consider_rps (band total : f64) (target desired : Z) : Z :=
  let d := F64.toInt (F64.Ceil (F64.div total (F64.mul (F64.ofZ target) band))) in
  if (desired <? d)%Z then d else desired.

Definition clamp (minRep maxRep desired : Z) : Z :=
  let desired := if (desired <? minRep)%Z then minRep else desired in
  if (maxRep <? desired)%Z then maxRep else desired.

Definition scaleTarget (auto : option Autoscale.t) (obs : envObservation) (band : f64) (minRep maxRep : Z) : option Z :=
  let cpu := auto ⇝ Autoscale.TargetCpuPercent in
  let mem := auto ⇝ Autoscale.TargetMemoryPercent in
  let rps := auto ⇝ Autoscale.TargetRpsPerReplica in
  if (0 <? cpu)%Z && negb (cpuOK obs) then None
  else
    let desired := if (0 <? cpu)%Z then consider band (replicas obs) (avgCPU obs) cpu minRep else minRep in
    let desired := if (0 <? mem)%Z && memOK obs then consider band (replicas obs) (avgMem obs) mem desired else desired in
    if (0 <? rps)%Z && negb (rpsOK obs) then None
    else
      let desired := if (0 <? rps)%Z then consider_rps band (totalRPS obs) rps desired else desired in
      Some (clamp minRep maxRep desired).

Definition autoscaleConfigured (auto : option Autoscale.t) : bool :=
  (0 <? auto ⇝ Autoscale.TargetCpuPercent)%Z || (0 <? auto ⇝ Autoscale.TargetMemoryPercent)%Z
  || (0 <? auto ⇝ Autoscale.TargetRpsPerReplica)%Z.

Definition inCooldown (ts : t) (envID : string) (now : Z) : bool :=
  match lastChange ts !! envID with Some last => (now - last <? scaleCooldown)%Z | None => false end.

Definition emitEvent : option Environment.t → string → string → M () := scale_event "system:autoscaler".

(** The timers a lost leadership would lose are not returned: the next term starts from
    [reset]. *)
Definition applyScale (ts : t) (env : option Environment.t) (from to now : Z) : M t :=
  st ← read;
  match Store.Environment (GetId env) st with
  | None => mret ts
  | Some cur =>
    cur ← rescaled cur (u32 to) now;
    apply "system:autoscaler" (put_environment cur);;
    emitEvent env "autoscale.scaled"
      ("autoscaled " +:+ env ⇝ Environment.Name +:+ " from " +:+ pretty from +:+ " to " +:+ pretty to +:+ " replicas");;
    mret (mk (delete (GetId env) (lowSince ts)) (<[GetId env := now]> (lastChange ts)))
  end.

(** The replicas an environment may be scaled to. *)
Definition minRep (env : option Environment.t) : Z :=
  let m := env ⇝ Environment.Service ⇝ ServiceSpec.Replicas ⇝ ReplicaRange.Min in if (m <? 1)%Z then 1 else m.
Definition maxRep (env : option Environment.t) : Z := env ⇝ Environment.Service ⇝ ServiceSpec.Replicas ⇝ ReplicaRange.Max.

(** [effective] of evaluateEnv *)
Definition effective (env : option Environment.t) : Z :=
  if (desiredReplicas env <? 1)%Z then minRep env else desiredReplicas env.

(** The early returns of evaluateEnv. *)
Definition skipped (st : Store.t) (env : option Environment.t) : bool :=
  negb (autoscaleConfigured (env ⇝ Environment.Service ⇝ ServiceSpec.Autoscale)) || (env ⇝ Environment.ActiveReleaseId =? "")
  || (0 <? env ⇝ Environment.Service ⇝ ServiceSpec.MaxConcurrency)%Z
  || deploymentActive st (GetId env)
  || (maxRep env <=? minRep env)%Z.

Definition evaluateEnv (ts : t) (env : option Environment.t) : M t :=
  let envID := GetId env in
  let auto := env ⇝ Environment.Service ⇝ ServiceSpec.Autoscale in
  st ← read;
  if skipped st env then mret ts
  else
    live ← Snapshot;
    match observe st env live with
    | None => mret ts
    | Some obs =>
      match scaleTarget auto obs (F64.ofZ 1) (minRep env) (maxRep env) with
      | None => mret ts
      | Some desired =>
        now ← Now;
        if (effective env <? desired)%Z then
          let ts := mk (delete envID (lowSince ts)) (lastChange ts) in
          if inCooldown ts envID now then mret ts else applyScale ts env (effective env) desired now
        else if (desired <? effective env)%Z then
          match scaleTarget auto obs downBand (minRep env) (maxRep env) with
          | None => mret (mk (delete envID (lowSince ts)) (lastChange ts))
          | Some low =>
            if (effective env <=? low)%Z then mret (mk (delete envID (lowSince ts)) (lastChange ts))
            else
              let since := default now (lowSince ts !! envID) in
              let ts := mk (<[envID := since]> (lowSince ts)) (lastChange ts) in
              if (now - since <? scaleDownHold)%Z then mret ts
              else if inCooldown ts envID now then mret ts
              else applyScale ts env (effective env) desired now
          end
        else mret (mk (delete envID (lowSince ts)) (lastChange ts))
      end
    end.

Definition evaluate (ts : t) : M t := evaluate_all evaluateEnv ts.

End autoscaler.
End Autoscaler.

(** * Scale to zero (scaletozero.go) *)

Module ScaleToZero.
Section scaletozero.
Context {RO : RangeOrder} {TL : TimestampLib} {LV : LiveView} {E : Env}.

(** The zero time of Go. *)
Definition never : Z := (- 62135596800 * 10 ^ 9)%Z.

(** activity: what the proxies report of an environment. *)
Record seen := Seen { lastReq : Z; inflight : Z; haveData : bool }.

Definition add_activity (envID : string) (acc : seen) (hb : Heartbeat.t) : seen :=
  match Heartbeat.Proxy hb !! envID with
  | None => Seen (lastReq acc) (inflight acc) true
  | Some ps =>
    Seen
      (match ProxySample.LastRequestAt ps with
       | Some ts => let at_ := AsTime (Some ts) in if (lastReq acc <? at_)%Z then at_ else lastReq acc
       | None => lastReq acc
       end)
      (u32 (inflight acc + ProxySample.Inflight ps)) true
  end.

Definition activity (envID : string) (live : list Live.NodeState.t) : seen :=
  foldl (add_activity envID) (Seen never 0 false) (heartbeats_of live).

Definition emitEvent : option Environment.t → string → string → M () := scale_event "system:scaletozero".

Definition cool (lastActive : gmap string Z) (env : option Environment.t) (now : Z) : M (gmap string Z) :=
  st ← read;
  match Store.Environment (GetId env) st with
  | None => mret lastActive
  | Some cur =>
    if (cur ⇝ Environment.EffectiveReplicas =? 0)%Z then mret lastActive
    else
      cur ← rescaled cur 0 now;
      apply "system:scaletozero" (put_environment cur);;
      emitEvent env "scaletozero.cooled" ("scaled " +:+ env ⇝ Environment.Name +:+ " to zero after idle");;
      mret (delete (GetId env) lastActive)
  end.

(** The early returns of evaluateEnv that leave the marks alone. *)
Definition skipped (env : option Environment.t) : bool :=
  let spec := env ⇝ Environment.Service in
  negb (spec ⇝ ServiceSpec.ScaleToZero) || spec ⇝ ServiceSpec.Stateful || (env ⇝ Environment.ActiveReleaseId =? "")
  || (0 <? spec ⇝ ServiceSpec.MaxConcurrency)%Z || (AsDuration (env ⇝ Environment.IdleTimeout) <=? 0)%Z.

(** The activity mark after a visit. *)
Definition mark (lastActive : option Z) (act : seen) (now : Z) : Z :=
  let s := default now lastActive in
  if (0 <? inflight act)%Z then now else if (s <? lastReq act)%Z then lastReq act else s.

Definition evaluateEnv (now : Z) (lastActive : gmap string Z) (env : option Environment.t) : M (gmap string Z) :=
  let envID := GetId env in
  st ← read;
  if skipped env then mret lastActive
  else if (env ⇝ Environment.EffectiveReplicas =? 0)%Z || deploymentActive st envID then mret (delete envID lastActive)
  else
    live ← Snapshot;
    let act := activity envID live in
    if negb (haveData act) then mret lastActive
    else
      let s := mark (lastActive !! envID) act now in
      let lastActive := <[envID := s]> lastActive in
      if (now - s <? AsDuration (env ⇝ Environment.IdleTimeout))%Z then mret lastActive
      else cool lastActive env now.

Definition evaluate (lastActive : gmap string Z) : M (gmap string Z) :=
  leader ← IsLeader;
  if negb leader then fail ErrNotLeader
  else
    now ← Now;
    st ← read;
    for_each_env (Store.ListEnvironments "" "" st) (evaluateEnv now) lastActive.

End scaletozero.
End ScaleToZero.

(** * Concurrency scaling (serverless.go) *)

Module Serverless.
Section serverless.
Context {RO : RangeOrder} {TL : TimestampLib} {FC : F64.FloatConv} {LV : LiveView} {E : Env}.

(** The sum is a uint32. *)
Definition add_inflight (envID : string) (total : Z) (hb : Heartbeat.t) : Z :=
  match Heartbeat.Proxy hb !! envID with Some ps => u32 (total + ProxySample.Inflight ps) | None => total end.

Definition totalInflight (envID : string) (live : list Live.NodeState.t) : option Z :=
  match heartbeats_of live with
  | [] => None
  | hbs => Some (foldl (add_inflight envID) 0%Z hbs)
  end.

Definition applyScale (env : option Environment.t) (to : Z) : M () :=
  st ← read;
  match Store.Environment (GetId env) st with
  | None => mret ()
  | Some cur =>
    now ← Now;
    cur ← rescaled cur (u32 to) now;
    apply "system:serverless" (put_environment cur)
  end.

Definition floor_ (spec : option ServiceSpec.t) : Z :=
  let floor := spec ⇝ ServiceSpec.Replicas ⇝ ReplicaRange.Min in
  if spec ⇝ ServiceSpec.ScaleToZero then 0 else if (floor <? 1)%Z then 1 else floor.

Definition maxRep (spec : option ServiceSpec.t) : Z :=
  let m := spec ⇝ ServiceSpec.Replicas ⇝ ReplicaRange.Max in
  if (m <? floor_ spec)%Z then floor_ spec else m.

(** [desired] of evaluateEnv *)
Definition desired (spec : option ServiceSpec.t) (inflight : Z) : Z :=
  let d := F64.toInt (F64.Ceil (F64.div (F64.ofZ inflight) (F64.ofZ (spec ⇝ ServiceSpec.MaxConcurrency)))) in
  let d := if (d <? floor_ spec)%Z then floor_ spec else d in
  if (maxRep spec <? d)%Z then maxRep spec else d.

Definition skipped (st : Store.t) (env : option Environment.t) : bool :=
  (env ⇝ Environment.Service ⇝ ServiceSpec.MaxConcurrency =? 0)%Z || (env ⇝ Environment.ActiveReleaseId =? "")
  || deploymentActive st (GetId env).

Definition evaluateEnv (env : option Environment.t) : M () :=
  let spec := env ⇝ Environment.Service in
  st ← read;
  if skipped st env then mret ()
  else
    live ← Snapshot;
    match totalInflight (GetId env) live with
    | None => mret ()
    | Some inflight =>
      if (desired spec inflight =? desiredReplicas env)%Z then mret () else applyScale env (desired spec inflight)
    end.

Definition evaluate : M () := evaluate_all (λ _, evaluateEnv) ().

End serverless.
End Serverless.

(** * Waking a cold environment (api/activator.go) *)

(** api/proto/zattera/cluster/v1/routes.proto *)
Module ActivateRequest.
Record t := mk { EnvironmentId : string; NodeId : string }.
End ActivateRequest.

Module Activator.
Section activator.
Context {RO : RangeOrder} {TL : TimestampLib} {E : Env}.

(** The number of replicas a wake asks for. *)
Definition target (env : option Environment.t) : Z :=
  let m := env ⇝ Environment.Service ⇝ ServiceSpec.Replicas ⇝ ReplicaRange.Min in if (m <? 1)%Z then 1 else m.

(** A recent wake is still being converged. *)
Definition debounced (lastWake : gmap string Z) (envID : string) (now : Z) : bool :=
  match lastWake !! envID with Some t => (now - t <? activationDebounce)%Z | None => false end.

(** Activate returns whether the wake is accepted, and the map of the wakes. *)
Definition Activate (lastWake : gmap string Z) (req : ActivateRequest.t) : Handler (bool * gmap string Z) :=
  let envID := ActivateRequest.EnvironmentId req in
  st ← read;
  match Store.Environment envID st with
  | None => fail NotFound
  | Some env =>
    if negb (env ⇝ Environment.Service ⇝ ServiceSpec.ScaleToZero) then mret (false, lastWake)
    else if (target env <=? env ⇝ Environment.EffectiveReplicas)%Z then mret (true, lastWake)
    else
      now ← match lastWake !! envID with Some _ => Now | None => mret 0%Z end;
      if debounced lastWake envID now then mret (true, lastWake)
      else
        now ← Now;
        cur ← rescaled env (target env) now;
        propose "system:activator" (put_environment cur);;
        now ← Now;
        mret (true, <[envID := now]> lastWake)
  end.

End activator.
End Activator.
