(* ===== verification/AutoscaleProps.v ===== *)
(** What the loops of Autoscale.v do: the visits of an environment by the autoscaler
    refine a timer, from which its cooldown and hold follow; the scale-to-zero loop cools
    idle environments only; an environment has one owner; and what a concurrent update of
    an environment loses. *)
From stdpp Require Import pretty.
From S2P Require Import Prelude Api Watch State StateInv StoreProps Fsm Samples Platform F64 Placement Leader Orchestrator Control Rpc Live Autoscale.

(** * What the loops propose *)

Definition is_put (m : Mutation) : bool := match m with Command_PutEnvironment _ => true | _ => false end.

(** An event, which changes nothing but the history. *)
Definition is_event (m : Mutation) : Prop := match m with Command_AppendEvents _ => True | _ => False end.

(** The environment a loop writes: the one it read, but for the count of replicas and
    the time of the update. *)
Definition rescaling {TL : TimestampLib} (st : Store.t) (envID : string) (n now : Z) (m : Mutation) : Prop :=
  ∃ cur meta, Store.Environment envID st = Some (Some cur) ∧ Environment.Meta cur = Some meta
    ∧ m = put_environment (cur <| Environment.EffectiveReplicas := n |>
            <| Environment.Meta := Some (meta <| Meta.UpdatedAt := Some (timestamppb_New now) |>) |>).

(** What a visit of an environment appends to the log: nothing, or one rescaling and
    events. *)
Definition visit_log {TL : TimestampLib} (st : Store.t) (envID : string) (n now : Z) (ms : list Mutation) : Prop :=
  ms = [] ∨ ∃ m evs, ms = m :: evs ∧ rescaling st envID n now m ∧ Forall is_event evs.

Section proposals.
Context {RO : RangeOrder} {TL : TimestampLib} {FC : F64.FloatConv} {LV : LiveView} {E : Env}.

Lemma rescaled_run {Err} st envID cur n now w w' (r : _ + Err) :
  Store.Environment envID st = Some cur → rescaled cur n now w = Ret (w', r) →
  w' = w ∧ ∃ e, r = inl e ∧ rescaling st envID n now (put_environment e).
Proof.
  intros Hst. unfold rescaled. destruct cur as [cur|]; [|done]. unfold mbind, M_bind. cbn.
  destruct (Environment.Meta cur) as [meta|] eqn:Hm; cbn; [|done].
  intros [= <- <-]. split; [done|]. eexists. split; [done|]. by exists cur, meta.
Qed.

Lemma rescale_bind {Err A} envID cur n now (k : Environment.t → Prog Err A) w w' r :
  Store.Environment envID (World.store w) = Some cur → (rescaled cur n now ≫= k) w = Ret (w', r) →
  ∃ e, rescaling (World.store w) envID n now (put_environment e) ∧ k e w = Ret (w', r).
Proof.
  intros Hst. unfold mbind at 1, M_bind at 1. destruct (rescaled (Err := Err) cur n now w) as [[w1 r1]|] eqn:E1; [|done].
  destruct (rescaled_run _ _ _ _ _ _ _ _ Hst E1) as (-> & e & -> & He). eauto.
Qed.

Lemma bind_read {Err A} (k : Store.t → Prog Err A) w : (read ≫= k) w = k (World.store w) w.
Proof. done. Qed.

Lemma bind_tick {Err A B} (f : nat → A) (k : A → Prog Err B) w :
  (tick_ f ≫= k) w = k (f (World.tick w)) (World.mk (World.store w) (S (World.tick w)) (World.sent w)).
Proof. done. Qed.

Lemma scale_event_emits actor env kind msg w : emits_at is_event (scale_event actor env kind msg) w.
Proof.
  apply logs_bind_silent; [constructor|apply silent_tick|]. intros w1 id _ _.
  apply logs_bind_silent; [constructor|apply silent_tick|]. intros w2 now _ _.
  apply emits_ignore. by apply emits_apply.
Qed.

(** A rescaling of the environment stored now, proposed, with events after it. *)
Lemma rescale_logs {A} envID cur n now actor (k : M A) w :
  Store.Environment envID (World.store w) = Some cur → (∀ w', emits_at is_event k w') →
  logs_at (λ ms, ∃ m evs, ms = m :: evs ∧ rescaling (World.store w) envID n now m ∧ Forall is_event evs)
    (cur ← rescaled cur n now; apply actor (put_environment cur);; k) w.
Proof.
  intros Hst Hk w' r (e & He & Hr)%(rescale_bind envID); [|done]. revert w' r Hr.
  apply (logs_bind (λ ms, ms = [put_environment e]) (Forall is_event)).
  - intros l1 l2 -> Hl2. eexists _, l2. by split_and!.
  - intros l1 ->. eexists _, []. split_and!; [done|done|constructor].
  - by apply logs_apply.
  - intros w1 [] _. apply Hk.
Qed.

End proposals.

(** * The autoscaler against a timer per environment *)

(** What the autoscaler keeps of one environment, as an automaton: it is fed a signal and
    the time at each visit. *)
Module Timer.
Inductive signal := Frozen | Steady | Above (to : Z) | Low (to : Z).

Record t := mk { low : option Z; last : option Z }.

Definition cooling (now : Z) (x : t) : bool :=
  match last x with Some l => (now - l <? scaleCooldown)%Z | None => false end.

(** The timer after a signal, and the change that is due. *)
Definition due (s : signal) (now : Z) (x : t) : t * option Z :=
  match s with
  | Frozen => (x, None)
  | Steady => (mk None (last x), None)
  | Above to => (mk None (last x), if cooling now x then None else Some to)
  | Low to =>
    let since := default now (low x) in
    (mk (Some since) (last x), if (now - since <? scaleDownHold)%Z || cooling now x then None else Some to)
  end.
End Timer.

Section autoscaler.
Context {RO : RangeOrder} {TL : TimestampLib} {FC : F64.FloatConv} {LV : LiveView} {E : Env}.

(** What an environment asks for, from the state and the live samples: nothing can be
    said, the count fits, the target is higher, or it is lower and so is the target at
    the lower edge of the band. *)
Definition signal_of (st : Store.t) (env : option Environment.t) (live : list Live.NodeState.t) : Timer.signal :=
  let auto := env ⇝ Environment.Service ⇝ ServiceSpec.Autoscale in
  let target band := Autoscaler.observe st env live ≫= λ obs,
    Autoscaler.scaleTarget auto obs band (Autoscaler.minRep env) (Autoscaler.maxRep env) in
  if Autoscaler.skipped st env then Timer.Frozen
  else match target (F64.ofZ 1) with
  | None => Timer.Frozen
  | Some desired =>
    if (Autoscaler.effective env <? desired)%Z then Timer.Above desired
    else if (desired <? Autoscaler.effective env)%Z
         && match target Autoscaler.downBand with Some low => (low <? Autoscaler.effective env)%Z | None => false end
    then Timer.Low desired
    else Timer.Steady
  end.

(** The timer of an environment. *)
Definition timer (ts : Autoscaler.t) (envID : string) : Timer.t :=
  Timer.mk (Autoscaler.lowSince ts !! envID) (Autoscaler.lastChange ts !! envID).

(** The timers of the others are left alone. *)
Definition retimed (ts ts' : Autoscaler.t) (envID : string) (x : Timer.t) : Prop :=
  timer ts' envID = x ∧ ∀ id, id ≠ envID → timer ts' id = timer ts id.

Lemma retimed_delete ts envID : retimed ts (Autoscaler.mk (delete envID (Autoscaler.lowSince ts)) (Autoscaler.lastChange ts)) envID
  (Timer.mk None (Autoscaler.lastChange ts !! envID)).
Proof.
  split; unfold timer; cbn; [by rewrite lookup_delete_eq|]. intros id Hid. by rewrite lookup_delete_ne.
Qed.

Lemma retimed_insert ts envID t : retimed ts (Autoscaler.mk (<[envID := t]> (Autoscaler.lowSince ts)) (Autoscaler.lastChange ts)) envID
  (Timer.mk (Some t) (Autoscaler.lastChange ts !! envID)).
Proof.
  split; unfold timer; cbn; [by rewrite lookup_insert_eq|]. intros id Hid. by rewrite lookup_insert_ne.
Qed.

Lemma retimed_trans ts ts1 ts2 envID x y : retimed ts ts1 envID x → retimed ts1 ts2 envID y → retimed ts ts2 envID y.
Proof. intros [_ H1] [H2 H3]. split; [done|]. intros id Hid. by rewrite H3, H1. Qed.

(** The outcome of a visit that found a change due, or not. *)
Definition visited (ts : Autoscaler.t) (env : option Environment.t) (now : Z) (x : Timer.t) (c : option Z)
    (w w' : World.t) (r : Autoscaler.t + leader_error) : Prop :=
  ∃ ms, World.sent w' = World.sent w ++ ms
    ∧ (ms = [] ∧ (c = None ∨ Store.Environment (GetId env) (World.store w) = None)
         ∧ (∃ ts', r = inl ts' ∧ retimed ts ts' (GetId env) x)
       ∨ ∃ to m evs, c = Some to ∧ ms = m :: evs ∧ rescaling (World.store w) (GetId env) (u32 to) now m ∧ Forall is_event evs
           ∧ ∀ ts', r = inl ts' → retimed ts ts' (GetId env) (Timer.mk None (Some now))).

Lemma applyScale_visited ts ts1 env from to now x w w' r :
  retimed ts ts1 (GetId env) x → Autoscaler.applyScale ts1 env from to now w = Ret (w', r) →
  visited ts env now x (Some to) w w' r.
Proof.
  intros Hts. unfold Autoscaler.applyScale. rewrite bind_read.
  destruct (Store.Environment (GetId env) (World.store w)) as [cur|] eqn:Hst.
  - intros Hr.
    pose proof (λ Hk, rescale_logs (GetId env) cur (u32 to) now "system:autoscaler" _ w Hst Hk w' r Hr) as Hl.
    destruct Hl as (ms & Hms & m & evs & -> & Hm & Hevs).
    { intros w1. apply emits_bind; [apply scale_event_emits|]. intros w2 [] _. apply emits_silent, silent_ret. }
    exists (m :: evs). split; [done|]. right. exists to, m, evs. split_and!; try done. intros ts' ->.
    apply bind_inl in Hr as (w1 & e & _ & Hr). apply bind_inl in Hr as (w2 & [] & _ & Hr).
    apply bind_inl in Hr as (w3 & [] & _ & [_ ->]%ret_inl). destruct Hts as [_ Ho]. split; unfold timer; cbn.
    + by rewrite lookup_delete_eq, lookup_insert_eq.
    + intros id Hid. rewrite lookup_delete_ne, lookup_insert_ne by done. by apply Ho.
  - intros [= <- <-]. exists []. rewrite app_nil_r. split; [done|]. left. split_and!; [done|by right|eauto].
Qed.

(** A visit without a change. *)
Lemma visited_none ts ts' env now x w w' :
  World.sent w' = World.sent w → retimed ts ts' (GetId env) x → visited ts env now x None w w' (inl ts').
Proof. intros Hs Ht. exists []. rewrite app_nil_r. split; [done|]. left. split_and!; [done|by left|eauto]. Qed.

Lemma retimed_same ts envID : retimed ts ts envID (timer ts envID).
Proof. by split. Qed.

Lemma evaluateEnv_visited ts env w w' r :
  Autoscaler.evaluateEnv ts env w = Ret (w', r) →
  let now := clock_Now (S (World.tick w)) in
  let xc := Timer.due (signal_of (World.store w) env (live_Snapshot (World.tick w))) now (timer ts (GetId env)) in
  visited ts env now xc.1 xc.2 w w' r.
Proof.
  unfold Autoscaler.evaluateEnv, signal_of. rewrite bind_read. set (id := GetId env).
  destruct (Autoscaler.skipped _ _).
  { intros [= <- <-]. by apply visited_none, retimed_same. }
  unfold Snapshot. rewrite bind_tick. set (live := live_Snapshot (World.tick w)).
  destruct (Autoscaler.observe (World.store w) env live) as [obs|]; cbn [mbind option_bind]; [|intros [= <- <-]; by apply visited_none, retimed_same].
  destruct (Autoscaler.scaleTarget _ obs (F64.ofZ 1) _ _) as [desired|]; [|intros [= <- <-]; by apply visited_none, retimed_same].
  unfold Now. rewrite bind_tick. cbn [World.store World.tick World.sent]. set (now := clock_Now (S (World.tick w))).
  set (w1 := World.mk _ _ _).
  assert (∀ x c w2 r2, visited ts env now x c w1 w2 r2 → visited ts env now x c w w2 r2) as Hw by done.
  destruct (Autoscaler.effective env <? desired)%Z.
  { cbn. unfold Autoscaler.inCooldown, Timer.cooling. cbn.
    destruct (match Autoscaler.lastChange ts !! id with Some _ => _ | None => _ end).
    - intros [= <- <-]. apply visited_none; [done|apply retimed_delete].
    - intros Hr. apply Hw. eapply applyScale_visited; [apply retimed_delete|exact Hr]. }
  destruct (desired <? Autoscaler.effective env)%Z; cbn [andb].
  2: { intros [= <- <-]. apply visited_none; [done|apply retimed_delete]. }
  destruct (Autoscaler.scaleTarget _ obs Autoscaler.downBand _ _) as [low|].
  2: { intros [= <- <-]. apply visited_none; [done|apply retimed_delete]. }
  rewrite (Z.ltb_antisym (Autoscaler.effective env) low). destruct (Autoscaler.effective env <=? low)%Z; cbn [negb].
  { intros [= <- <-]. apply visited_none; [done|apply retimed_delete]. }
  cbn. unfold Autoscaler.inCooldown, Timer.cooling. cbn. fold id.
  set (since := default now (Autoscaler.lowSince ts !! id)).
  destruct (now - since <? scaleDownHold)%Z; cbn [orb].
  { intros [= <- <-]. apply visited_none; [done|apply retimed_insert]. }
  destruct (match Autoscaler.lastChange ts !! id with Some _ => _ | None => _ end).
  { intros [= <- <-]. apply visited_none; [done|apply retimed_insert]. }
  intros Hr. apply Hw. eapply applyScale_visited; [apply retimed_insert|exact Hr].
Qed.
End autoscaler.

(** ** A leader term of the autoscaler *)

(** A visit of an environment: what it saw, when, and what it proposed. *)
Module Visit.
Record t := mk {
  env : option Environment.t;
  store : Store.t;
  live : list Live.NodeState.t;
  at_ : Z;
  log : list Mutation
}.
End Visit.

Section damped.
Context {RO : RangeOrder} {TL : TimestampLib} {FC : F64.FloatConv} {LV : LiveView} {E : Env}.
Implicit Types (u v : Visit.t) (l vs : list Visit.t).

(** The timers a term goes through, one visit at a time, with everything that other
    loops and the scheduler do in between. *)
Inductive visiting : Autoscaler.t → list Visit.t → Prop :=
| visiting_start : visiting Autoscaler.reset []
| visiting_visit ts vs env w w' ts' ms :
    visiting ts vs → Autoscaler.evaluateEnv ts env w = Ret (w', inl ts') → World.sent w' = World.sent w ++ ms →
    visiting ts' (vs ++ [Visit.mk env (World.store w) (live_Snapshot (World.tick w)) (clock_Now (S (World.tick w))) ms]).

(** The visits of a pass over a list of environments. *)
Fixpoint visits_of (ts : Autoscaler.t) (envs : list (option Environment.t)) (w : World.t) : list Visit.t :=
  match envs with
  | [] => []
  | env :: envs =>
    match Autoscaler.evaluateEnv ts env w with
    | Ret (w', inl ts') =>
      Visit.mk env (World.store w) (live_Snapshot (World.tick w)) (clock_Now (S (World.tick w))) (drop (length (World.sent w)) (World.sent w'))
      :: visits_of ts' envs w'
    | _ => []
    end
  end.

(** The passes of a term: the state each listed the environments of, and its visits. *)
Inductive autoscaling : Autoscaler.t → list (Store.t * list Visit.t) → Prop :=
| autoscaling_start : autoscaling Autoscaler.reset []
| autoscaling_pass ts ps w w' ts' :
    autoscaling ts ps → Autoscaler.evaluate ts w = Ret (w', inl ts') →
    autoscaling ts' (ps ++ [(World.store w, visits_of ts (Store.ListEnvironments "" "" (World.store w))
      (World.mk (World.store w) (S (World.tick w)) (World.sent w)))]).

Definition v_signal v : Timer.signal := signal_of (Visit.store v) (Visit.env v) (Visit.live v).

Definition changed v : Prop := ∃ m, m ∈ Visit.log v ∧ is_put m = true.

(** Nothing spoke against fewer replicas. *)
Definition quiet_visit v : Prop := ¬ changed v ∧ (v_signal v = Timer.Frozen ∨ ∃ to, v_signal v = Timer.Low to).

(** The visits of an environment. *)
Definition of_env (id : string) vs : list Visit.t := List.filter (λ v, GetId (Visit.env v) =? id) vs.

Lemma of_env_app id l vs : of_env id (l ++ vs) = of_env id l ++ of_env id vs.
Proof. apply List.filter_app. Qed.

(** Changes are spaced. *)
Definition spaced l : Prop := StronglySorted (λ u v, changed u → changed v → (Visit.at_ u + scaleCooldown ≤ Visit.at_ v)%Z) l.

(** A change that a low signal causes comes after a stretch of low signals. *)
Definition held l : Prop := ∀ pre v post, l = pre ++ v :: post → changed v → (∃ to, v_signal v = Timer.Low to) →
  ∃ pre' u mid, pre = pre' ++ u :: mid ∧ (Visit.at_ u + scaleDownHold ≤ Visit.at_ v)%Z ∧ Forall quiet_visit (u :: mid).

(** A change writes what the signal asks for. *)
Definition obeys v : Prop := Visit.log v = [] ∨ ∃ m evs to,
  Visit.log v = m :: evs ∧ Forall is_event evs ∧ (v_signal v = Timer.Above to ∨ v_signal v = Timer.Low to)
  ∧ rescaling (Visit.store v) (GetId (Visit.env v)) (u32 to) (Visit.at_ v) m.

(** What a timer knows of the visits. *)
Definition timed (x : Timer.t) l : Prop :=
  spaced l ∧ held l ∧ Forall obeys l
  ∧ (∀ v, v ∈ l → changed v → ∃ t, Timer.last x = Some t ∧ (Visit.at_ v ≤ t)%Z)
  ∧ (∀ t, Timer.low x = Some t → ∃ pre u mid, l = pre ++ u :: mid ∧ Visit.at_ u = t ∧ Forall quiet_visit (u :: mid)).

Lemma held_snoc l v :
  held l → (changed v → (∃ to, v_signal v = Timer.Low to) → ∃ pre u mid,
    l = pre ++ u :: mid ∧ (Visit.at_ u + scaleDownHold ≤ Visit.at_ v)%Z ∧ Forall quiet_visit (u :: mid)) → held (l ++ [v]).
Proof.
  intros Hl Hv pre v' post Heq Hc Hlow. destruct post as [|y post] using rev_ind.
  - apply app_inj_tail in Heq as [<- <-]. by apply Hv.
  - clear IHpost. rewrite app_comm_cons, app_assoc in Heq. apply app_inj_tail in Heq as [-> <-]. by eapply Hl.
Qed.

Lemma spaced_snoc l v :
  spaced l → (changed v → ∀ u, u ∈ l → changed u → (Visit.at_ u + scaleCooldown ≤ Visit.at_ v)%Z) → spaced (l ++ [v]).
Proof.
  intros Hl Hv. apply StronglySorted_app. split; [|split; [done|by repeat constructor]].
  intros u v' Hu ->%list_elem_of_singleton Hcu Hcv. by apply Hv.
Qed.

(** A visit that changes nothing. *)
Lemma timed_unchanged x y l v :
  timed x l → Visit.log v = [] → Timer.last y = Timer.last x →
  (∀ t, Timer.low y = Some t →
    quiet_visit v ∧ (Timer.low x = Some t ∨ Visit.at_ v = t)) →
  timed y (l ++ [v]).
Proof.
  intros (Hs & Hh & Ho & Hlast & Hlow) Hlog Hy Hyl.
  assert (¬ changed v) as Hn by (intros (m & Hm & _); rewrite Hlog in Hm; by apply elem_of_nil in Hm).
  split; [by apply spaced_snoc|]. split; [by apply held_snoc|].
  split; [apply Forall_app_2; [done|]; constructor; [by left|constructor]|]. split.
  - intros u [Hu| ->%list_elem_of_singleton]%elem_of_app Hc; [|done]. rewrite Hy. by apply Hlast.
  - intros t Ht. destruct (Hyl t Ht) as [Hq [Hx|Hv]].
    + destruct (Hlow t Hx) as (pre & u & mid & -> & Hu & Hf). exists pre, u, (mid ++ [v]).
      split; [by rewrite <- app_assoc|]. split; [done|]. rewrite app_comm_cons. apply Forall_app_2; [done|]. by constructor.
    + exists l, v, []. split; [done|]. split; [done|]. by constructor.
Qed.

(** A visit that changes the count when the timer says so. *)
Lemma timed_changed x l v to y :
  timed x l → changed v → obeys v → Timer.due (v_signal v) (Visit.at_ v) x = (y, Some to) →
  timed (Timer.mk None (Some (Visit.at_ v))) (l ++ [v]).
Proof.
  intros (Hs & Hh & Ho & Hlast & Hlow) Hc Hob Hdue.
  assert (∀ z, Timer.last z = Timer.last x → Timer.cooling (Visit.at_ v) z = false →
    ∀ u, u ∈ l → changed u → (Visit.at_ u + scaleCooldown ≤ Visit.at_ v)%Z) as Hcool.
  { intros z Hz Hcl u Hu Hcu. destruct (Hlast u Hu Hcu) as (t & Ht & Hle). unfold Timer.cooling in Hcl.
    rewrite Hz, Ht in Hcl. apply Z.ltb_ge in Hcl. lia. }
  assert (∀ u, u ∈ l → changed u → (Visit.at_ u + scaleCooldown ≤ Visit.at_ v)%Z) as Hsp.
  { destruct (v_signal v) as [| |n|n]; cbn in Hdue; try discriminate.
    - destruct (Timer.cooling (Visit.at_ v) x) eqn:Hcl; [discriminate|]. by eapply Hcool.
    - destruct (_ <? _)%Z; [discriminate|]. destruct (Timer.cooling (Visit.at_ v) x) eqn:Hcl; [discriminate|]. by eapply Hcool. }
  split; [by apply spaced_snoc|]. split.
  { apply held_snoc; [done|]. intros _ [n Hn]. rewrite Hn in Hdue. cbn in Hdue.
    destruct (Z.ltb_spec (Visit.at_ v - default (Visit.at_ v) (Timer.low x)) scaleDownHold) as [|Hge]; [discriminate|].
    destruct (Timer.low x) as [t|] eqn:Hx; cbn in Hge.
    - destruct (Hlow t eq_refl) as (pre & u & mid & -> & <- & Hf). exists pre, u, mid. split; [done|]. split; [lia|done].
    - rewrite Z.sub_diag in Hge. by apply Z.le_ngt in Hge. }
  split; [apply Forall_app_2; [done|]; by constructor|]. split; [|done].
  intros u [Hu| ->%list_elem_of_singleton]%elem_of_app Hcu; [|eexists; split; [done|]; lia].
  exists (Visit.at_ v). split; [done|]. specialize (Hsp u Hu Hcu). unfold scaleCooldown, minute, second in Hsp. lia.
Qed.

(** The timers follow the visits. *)
Lemma visiting_timed ts vs : visiting ts vs → ∀ id, timed (timer ts id) (of_env id vs).
Proof.
  induction 1 as [|ts vs env w w' ts' ms Ht IH Hrun Hsent]; intros id.
  { split; [constructor|]. split; [by intros [|] ? ?|]. split; [constructor|]. split; [by intros v Hv%elem_of_nil|].
    intros t Hx. unfold timer in Hx. cbn in Hx. by rewrite lookup_empty in Hx. }
  pose proof (evaluateEnv_visited _ _ _ _ _ Hrun) as (ms' & Hms & Hvis). rewrite Hsent in Hms. apply app_inv_head in Hms as <-.
  set (v := Visit.mk _ _ _ _ ms). rewrite of_env_app. change (of_env id [v]) with (if GetId env =? id then [v] else []).
  destruct (GetId env =? id) eqn:Hid.
  2: { apply str_eqb_neq in Hid. rewrite app_nil_r. replace (timer ts' id) with (timer ts id); [apply IH|].
       destruct Hvis as [(_ & _ & ts1 & [= <-] & Hr)|(to & m & evs & _ & _ & _ & _ & Hr)]; [|specialize (Hr _ eq_refl)];
         symmetry; apply Hr; congruence. }
  apply str_eqb_eq in Hid as <-. change (signal_of _ env _) with (v_signal v) in Hvis. change (clock_Now _) with (Visit.at_ v) in Hvis.
  destruct Hvis as [(Hlog & _ & ts1 & [= <-] & [Hx _])|(to & m & evs & Hto & Hlog & Hm & Hevs & Hr)].
  - rewrite Hx. apply (timed_unchanged (timer ts (GetId env))); [apply IH|done|by destruct (v_signal v)|].
    assert (¬ changed v) as Hn by (intros (m & Hm & _); cbn in Hm; rewrite Hlog in Hm; by apply elem_of_nil in Hm).
    intros t. destruct (v_signal v) as [| |n|n] eqn:Hs; cbn; [|done|done|].
    + intros Hl. split; [split; [done|by left]|]. by left.
    + intros [= <-]. split; [split; [done|right; by eexists]|]. destruct (Autoscaler.lowSince ts !! GetId env); [by left|by right].
  - destruct (Hr _ eq_refl) as [-> _]. destruct (Timer.due (v_signal v) (Visit.at_ v) (timer ts (GetId env))) as [y c] eqn:Hdue.
    cbn in Hto. subst c. eapply timed_changed; [apply IH| | |exact Hdue].
    + exists m. split; [cbn; rewrite Hlog; by left|]. destruct Hm as (cur & meta & _ & _ & ->). done.
    + right. exists m, evs, to. split_and!; try done. destruct (v_signal v) as [| |n|n]; cbn in Hdue; try done.
      * destruct (Timer.cooling _ _); [done|]. left. congruence.
      * destruct (_ || _); [done|]. right. congruence.
Qed.

Lemma visits_of_pass envs ts w w' ts' :
  for_each_env envs Autoscaler.evaluateEnv ts w = Ret (w', inl ts') →
  Visit.env <$> visits_of ts envs w = envs ∧ ∀ vs, visiting ts vs → visiting ts' (vs ++ visits_of ts envs w).
Proof.
  revert ts w. induction envs as [|env envs IH]; intros ts w Hr; cbn [for_each_env visits_of] in *.
  { apply ret_inl in Hr as [_ ->]. split; [done|]. intros vs. by rewrite app_nil_r. }
  apply bind_inl in Hr as (w1 & ts1 & H1 & Hr). rewrite H1. destruct (IH _ _ Hr) as [He Hv]. cbn [fmap list_fmap Visit.env]. split; [by f_equal|].
  intros vs Hvs. rewrite cons_middle, app_assoc. apply Hv. eapply visiting_visit; [exact Hvs|exact H1|].
  destruct (evaluateEnv_visited _ _ _ _ _ H1) as (ms & Hms & _). by rewrite Hms, drop_app_length.
Qed.

Lemma autoscaling_visits ts ps : autoscaling ts ps → visiting ts (concat ps.*2) ∧
  ∀ st vis, (st, vis) ∈ ps → Visit.env <$> vis = Store.ListEnvironments "" "" st.
Proof.
  induction 1 as [|ts ps w w' ts' _ [IH1 IH2] Hr]; [split; [constructor|by intros ? ? ?%elem_of_nil]|].
  unfold Autoscaler.evaluate, evaluate_all, IsLeader in Hr. apply bind_inl in Hr as (w1 & [] & Hl & Hr); [|discriminate].
  injection Hl as <- _. cbn [negb] in Hr. apply bind_inl in Hr as (w2 & st & Hs & Hr). injection Hs as <- <-. cbn [World.store] in Hr.
  destruct (visits_of_pass _ _ _ _ _ Hr) as [He Hv]. split.
  - rewrite fmap_app, concat_app. cbn. rewrite app_nil_r. by apply Hv.
  - intros st vis [Hin|[= -> ->]%list_elem_of_singleton]%elem_of_app; [by apply IH2|done].
Qed.
End damped.

Lemma clamp_range lo hi d : (lo ≤ hi)%Z → (lo ≤ Autoscaler.clamp lo hi d ≤ hi)%Z.
Proof.
  intros H. unfold Autoscaler.clamp. destruct (Z.ltb_spec d lo).
  - destruct (Z.ltb_spec hi lo); lia.
  - destruct (Z.ltb_spec hi d); lia.
Qed.

(** The signals of the autoscaler: only for a released environment that no deployment
    and no concurrency limit owns, and within its range of replicas. *)
Lemma signal_range {RO : RangeOrder} {FC : F64.FloatConv} st env live to :
  signal_of st env live = Timer.Above to ∨ signal_of st env live = Timer.Low to →
  Autoscaler.skipped st env = false ∧ (Autoscaler.minRep env ≤ to ≤ Autoscaler.maxRep env)%Z
  ∧ (signal_of st env live = Timer.Above to → (Autoscaler.effective env < to)%Z)
  ∧ (signal_of st env live = Timer.Low to → (to < Autoscaler.effective env)%Z).
Proof.
  unfold signal_of. destruct (Autoscaler.skipped st env) eqn:Hs; [naive_solver|]. cbv zeta.
  assert (Autoscaler.minRep env < Autoscaler.maxRep env)%Z as Hroom.
  { unfold Autoscaler.skipped in Hs. apply orb_false_iff in Hs as [_ Hs]. lia. }
  destruct (Autoscaler.observe st env live) as [obs|]; cbn [mbind option_bind]; [|naive_solver].
  destruct (Autoscaler.scaleTarget _ obs (F64.ofZ 1) _ _) as [desired|] eqn:Ht; [|naive_solver].
  assert (Autoscaler.minRep env ≤ desired ≤ Autoscaler.maxRep env)%Z as Hd.
  { unfold Autoscaler.scaleTarget in Ht. repeat (destruct (_ && negb _); [discriminate|]). injection Ht as <-.
    apply clamp_range. lia. }
  intros H. split; [done|].
  destruct (Z.ltb_spec (Autoscaler.effective env) desired) as [|_]; [split_and!; naive_solver|].
  destruct (Z.ltb_spec desired (Autoscaler.effective env)); cbn [andb] in *; [|naive_solver].
  destruct (match Autoscaler.scaleTarget _ _ _ _ _ with Some _ => _ | None => _ end); split_and!; naive_solver.
Qed.

(** C32: the autoscaler is damped.  In a leader term, whatever the nodes report and
    whatever else happens in between, the changes of an environment's count lie at least
    three minutes apart; and a change to fewer replicas comes at the end of at least five
    minutes in which every visit found the load low (or could tell nothing) and changed
    nothing.  Each pass visits the environments that the state lists when it begins.  What
    a visit proposes to change is the environment as it reads it then, but for its count
    and time of update; the count is within the range that the listed environment has, above or
    below its present one as the load is, and the listed environment is released, has a
    range, and is owned by neither a deployment nor a concurrency limit.  (What others commit between
    the reading and the proposal is overwritten, against the comment of applyScale:
    scaling_reverts_a_promotion; a range that changes during a pass counts from the next.) *)
Theorem autoscaler_is_damped (RO : RangeOrder) (ROk : RangeOrderOk RO) (TL : TimestampLib) (FC : F64.FloatConv) (LV : LiveView) (E : Env)
    (ts : Autoscaler.t) (ps : list (Store.t * list Visit.t)) (id : string) :
  autoscaling ts ps →
  spaced (of_env id (concat ps.*2)) ∧ held (of_env id (concat ps.*2))
  ∧ ∀ st vis, (st, vis) ∈ ps → Visit.env <$> vis = Store.ListEnvironments "" "" st
    ∧ ∀ v m, v ∈ of_env id vis → m ∈ Visit.log v → is_event m ∨
      ∃ to, rescaling (Visit.store v) id (u32 to) (Visit.at_ v) m ∧ Autoscaler.skipped (Visit.store v) (Visit.env v) = false
        ∧ (∃ k, Store.environments st !! k = Some (Visit.env v))
        ∧ (Autoscaler.minRep (Visit.env v) ≤ to ≤ Autoscaler.maxRep (Visit.env v))%Z
        ∧ (v_signal v = Timer.Above to ∧ (Autoscaler.effective (Visit.env v) < to)%Z
           ∨ v_signal v = Timer.Low to ∧ (to < Autoscaler.effective (Visit.env v))%Z).
Proof.
  intros Hps. destruct (autoscaling_visits ts ps Hps) as [Ht Hlist]. destruct (visiting_timed ts _ Ht id) as (Hs & Hh & Ho & _). split; [done|]. split; [done|].
  intros st vis Hin. specialize (Hlist _ _ Hin). split; [done|].
  intros v m Hv Hm. rewrite Forall_forall in Ho. pose proof Hv as [Hvis Hid%str_eqb_eq]%list_elem_of_In%filter_In.
  assert (v ∈ of_env id (concat ps.*2)) as Hv'.
  { apply list_elem_of_In, filter_In. split; [|by apply str_eqb_eq]. apply in_concat. exists vis. split; [|done].
    apply list_elem_of_In, list_elem_of_fmap. by exists (st, vis). }
  destruct (Ho v Hv') as [Hl|(m' & evs & to & Hl & Hevs & Hsig & Hr)]; rewrite Hl in Hm; [by apply elem_of_nil in Hm|].
  apply elem_of_cons in Hm as [->|Hm]; [|left; by eapply Forall_forall in Hevs].
  right. exists to. rewrite <- Hid. split; [done|]. destruct (signal_range _ _ _ _ Hsig) as (? & ? & Ha & Hb).
  split_and!; try done; [|lia|lia|].
  - assert (Visit.env v ∈ Store.ListEnvironments "" "" st) as Hlisted by (rewrite <- Hlist; apply list_elem_of_fmap; exists v; split; [done|by apply list_elem_of_In]).
    unfold Store.ListEnvironments, Store.sortByID in Hlisted. rewrite sort_slice_perm, elem_of_Filter, elem_of_range_values in Hlisted. apply Hlisted.
  - destruct Hsig as [Hx|Hx]; [left|right]; auto.
Qed.

(** * Cooling an environment *)

Section idle.
Context {RO : RangeOrder} {TL : TimestampLib} {LV : LiveView} {E : Env}.
Implicit Types (u v : Visit.t) (vs : list Visit.t).

(** The marks a term of the scale-to-zero loop goes through; its clock does not go
    back. *)
Inductive cooling : gmap string Z → list Visit.t → Prop :=
| cooling_start : cooling ∅ []
| cooling_visit la vs now env w w' la' ms :
    cooling la vs → Forall (λ u, (Visit.at_ u ≤ now)%Z) vs →
    ScaleToZero.evaluateEnv now la env w = Ret (w', inl la') → World.sent w' = World.sent w ++ ms →
    cooling la' (vs ++ [Visit.mk env (World.store w) (live_Snapshot (World.tick w)) now ms]).

Definition v_activity v : ScaleToZero.seen := ScaleToZero.activity (GetId (Visit.env v)) (Visit.live v).

(** The loop looks after the environment, which has requests in flight. *)
Definition busy v : Prop := ScaleToZero.skipped (Visit.env v) = false ∧ (0 < ScaleToZero.inflight (v_activity v))%Z.

Definition v_timeout v : Z := AsDuration ((Visit.env v) ⇝ Environment.IdleTimeout).

(** The evidence for cooling an environment at [v], after its visits [pre]. *)
Definition idle (pre : list Visit.t) v : Prop :=
  ScaleToZero.skipped (Visit.env v) = false ∧ deploymentActive (Visit.store v) (GetId (Visit.env v)) = false
  ∧ ScaleToZero.haveData (v_activity v) = true ∧ ScaleToZero.inflight (v_activity v) = 0%Z
  ∧ (ScaleToZero.lastReq (v_activity v) + v_timeout v ≤ Visit.at_ v)%Z
  ∧ (∀ u, u ∈ pre → busy u → (Visit.at_ u + v_timeout v ≤ Visit.at_ v)%Z)
  ∧ ∃ u, u ∈ pre ∧ (Visit.at_ u + v_timeout v ≤ Visit.at_ v)%Z.

(** What a mark knows of the visits. *)
Definition marked_by (mark : option Z) (l : list Visit.t) : Prop :=
  ∀ s, mark = Some s → (∀ u, u ∈ l → busy u → (Visit.at_ u ≤ s)%Z) ∧ ∃ u, u ∈ l ∧ (Visit.at_ u ≤ s)%Z.

Lemma cool_run la env now w w' r :
  ScaleToZero.cool la env now w = Ret (w', r) →
  ∃ ms, World.sent w' = World.sent w ++ ms ∧ visit_log (World.store w) (GetId env) 0 now ms
    ∧ ∀ la', r = inl la' → (la' = la ∨ la' = delete (GetId env) la).
Proof.
  unfold ScaleToZero.cool. rewrite bind_read. destruct (Store.Environment (GetId env) (World.store w)) as [cur|] eqn:Hst.
  2: { intros [= <- <-]. exists []. rewrite app_nil_r. split_and!; [done|by left|]. intros la' [= <-]. by left. }
  destruct (_ =? 0)%Z.
  { intros [= <- <-]. exists []. rewrite app_nil_r. split_and!; [done|by left|]. intros la' [= <-]. by left. }
  intros Hr. pose proof (λ Hk, rescale_logs (GetId env) cur 0 now "system:scaletozero" _ w Hst Hk w' r Hr) as Hl.
  destruct Hl as (ms & Hms & m & evs & Hlog).
  { intros w1. apply emits_bind; [apply scale_event_emits|]. intros w2 [] _. apply emits_silent, silent_ret. }
  exists ms. split; [done|]. split; [right; by exists m, evs|]. intros la' ->.
  apply bind_inl in Hr as (w1 & e & _ & Hr). apply bind_inl in Hr as (w2 & [] & _ & Hr).
  apply bind_inl in Hr as (w3 & [] & _ & [_ ->]%ret_inl). by right.
Qed.

(** One visit: the log, the mark of the environment and those of the others. *)
Lemma evaluateEnv_cooled now la env w w' la' :
  ScaleToZero.evaluateEnv now la env w = Ret (w', inl la') →
  ∃ ms, World.sent w' = World.sent w ++ ms ∧ visit_log (World.store w) (GetId env) 0 now ms
    ∧ (∀ id, id ≠ GetId env → la' !! id = la !! id)
    ∧ let act := ScaleToZero.activity (GetId env) (live_Snapshot (World.tick w)) in
      let s := ScaleToZero.mark (la !! GetId env) act now in
      (ScaleToZero.skipped env = true ∧ la' !! GetId env = la !! GetId env ∨ la' !! GetId env = None
       ∨ ScaleToZero.haveData act = false ∧ la' !! GetId env = la !! GetId env ∨ la' !! GetId env = Some s)
      ∧ (ms ≠ [] → ScaleToZero.skipped env = false ∧ deploymentActive (World.store w) (GetId env) = false
           ∧ ScaleToZero.haveData act = true ∧ (s + AsDuration (env ⇝ Environment.IdleTimeout) ≤ now)%Z).
Proof.
  unfold ScaleToZero.evaluateEnv. rewrite bind_read.
  assert (∀ la1 w0, World.sent w0 = World.sent w → (mret la1 : M _) w0 = Ret (w', inl la') → (∀ id, id ≠ GetId env → la1 !! id = la !! id) →
    ∃ ms, World.sent w' = World.sent w ++ ms ∧ ms = [] ∧ (∀ id, id ≠ GetId env → la' !! id = la !! id) ∧ la' = la1) as Hret.
  { intros la1 w0 H0 [= <- <-] Ho. exists []. rewrite app_nil_r. by split_and!. }
  destruct (ScaleToZero.skipped env).
  { intros (ms & Hms & -> & Ho & ->)%Hret; [|done..]. exists []. split_and!; [done|by left|done|by left|done]. }
  destruct (_ =? 0)%Z; cbn [orb]; [|destruct (deploymentActive (World.store w) (GetId env))].
  1, 2: intros (ms & Hms & -> & Ho & ->)%Hret; [|done|intros id Hid; by rewrite lookup_delete_ne]; exists [];
    rewrite lookup_delete_eq; split_and!; [done|by left|done|by right; left|done].
  unfold Snapshot. rewrite bind_tick. set (act := ScaleToZero.activity _ _). set (w1 := World.mk _ _ _).
  destruct (ScaleToZero.haveData act) eqn:Hd; cbn [negb].
  2: { intros (ms & Hms & -> & Ho & ->)%Hret; [|done..]. exists []. split_and!; [done|by left|done|by right; right; left|done]. }
  set (s := ScaleToZero.mark _ act now). destruct (Z.ltb_spec (now - s) (AsDuration (env ⇝ Environment.IdleTimeout))) as [|Hge].
  { intros [= <- <-]. exists []. rewrite app_nil_r. split_and!; [done|by left| |right; right; right; by rewrite lookup_insert_eq|done].
    intros id Hid. by rewrite lookup_insert_ne. }
  intros (ms & Hms & Hlog & Hla)%cool_run. exists ms. split; [done|]. split; [done|].
  split; [|split; [|intros _; split_and!; try done; lia]].
  - intros id Hid. destruct (Hla _ eq_refl) as [->| ->]; [|rewrite lookup_delete_ne by done]; by rewrite lookup_insert_ne.
  - destruct (Hla _ eq_refl) as [->| ->]; [rewrite lookup_insert_eq; by right; right; right|rewrite lookup_delete_eq; by right; left].
Qed.

Lemma inflight_bounds id live :
  (0 ≤ ScaleToZero.inflight (ScaleToZero.activity id live))%Z
  ∧ (ScaleToZero.haveData (ScaleToZero.activity id live) = false → ScaleToZero.inflight (ScaleToZero.activity id live) = 0%Z).
Proof.
  unfold ScaleToZero.activity.
  apply (foldl_invariant (λ a, (0 ≤ ScaleToZero.inflight a)%Z ∧ (ScaleToZero.haveData a = false → ScaleToZero.inflight a = 0%Z))); [done|].
  intros y hb _ [H1 H2]. unfold ScaleToZero.add_activity. destruct (_ !! _) as [ps|]; cbn; [|done].
  split; [|done]. apply u32_range.
Qed.

(** The marks follow the visits, and an environment is cooled on evidence. *)
Lemma cooling_marked la vs : cooling la vs → ∀ id,
  marked_by (la !! id) (of_env id vs)
  ∧ ∀ pre v post, of_env id vs = pre ++ v :: post → Visit.log v ≠ [] → idle pre v ∧ visit_log (Visit.store v) id 0 (Visit.at_ v) (Visit.log v).
Proof.
  induction 1 as [|la vs now env w w' la' ms Ht IH Hnow Hrun Hsent]; intros id.
  { split; [intros s Hs; by rewrite lookup_empty in Hs|]. by intros [|] ? ?. }
  apply evaluateEnv_cooled in Hrun as (ms' & Hms & Hlog & Ho & Hm & Hc). rewrite Hsent in Hms. apply app_inv_head in Hms as <-.
  set (v := Visit.mk _ _ _ _ ms). rewrite of_env_app. change (of_env id [v]) with (if GetId env =? id then [v] else []).
  destruct (GetId env =? id) eqn:Hid.
  2: { apply str_eqb_neq in Hid. rewrite app_nil_r, Ho by congruence. apply IH. }
  apply str_eqb_eq in Hid as <-. specialize (IH (GetId env)) as [IHm IHc].
  change (ScaleToZero.activity _ _) with (v_activity v) in Hm, Hc. cbv zeta in Hm, Hc.
  assert (∀ u, u ∈ of_env (GetId env) vs → (Visit.at_ u ≤ now)%Z) as Hbefore.
  { intros u [Hu _]%list_elem_of_In%filter_In. rewrite Forall_forall in Hnow. apply Hnow. by apply list_elem_of_In. }
  set (s := ScaleToZero.mark (la !! GetId env) (v_activity v) now) in *.
  assert ((0 < ScaleToZero.inflight (v_activity v))%Z → s = now) as Hbusy.
  { intros Hb. unfold s, ScaleToZero.mark. apply Z.ltb_lt in Hb. by rewrite Hb. }
  assert (s = now ∨ (default now (la !! GetId env) ≤ s ∧ ScaleToZero.lastReq (v_activity v) ≤ s)%Z) as Hs.
  { unfold s, ScaleToZero.mark. destruct (0 <? _)%Z; [by left|]. right.
    destruct (Z.ltb_spec (default now (la !! GetId env)) (ScaleToZero.lastReq (v_activity v))); lia. }
  split.
  - assert (marked_by (la !! GetId env) (of_env (GetId env) vs) →
      (ScaleToZero.skipped env = true ∨ ScaleToZero.haveData (v_activity v) = false) → marked_by (la !! GetId env) (of_env (GetId env) vs ++ [v])) as Hkeep.
    { intros Hk Hn t Ht'. destruct (Hk t Ht') as [H1 (u & Hu & Hut)]. split; [|exists u; split; [apply elem_of_app; by left|done]].
      intros u' [Hu'| ->%list_elem_of_singleton]%elem_of_app Hb; [by apply H1|]. destruct Hb as [Hb1 Hb2]. cbn in Hb1.
      destruct Hn as [Hn|Hn]; [congruence|]. apply (proj2 (inflight_bounds _ _)) in Hn. unfold v_activity in *. lia. }
    destruct Hm as [[Hsk ->]|[->|[[Hd ->]| ->]]]; [by apply Hkeep; [|left]|by intros ? ?|by apply Hkeep; [|right]|].
    intros t [= <-]. destruct Hs as [Hs|[Hs1 Hs2]].
    + rewrite Hs. split; [|exists v; split; [apply elem_of_app; right; by left|done]].
      intros u [Hu| ->%list_elem_of_singleton]%elem_of_app _; [by apply Hbefore|done].
    + split.
      * intros u [Hu| ->%list_elem_of_singleton]%elem_of_app Hb; [|rewrite Hbusy; [done|apply Hb]].
        destruct (la !! GetId env) as [t|] eqn:Hla; cbn in Hs1; [|specialize (Hbefore u Hu); lia].
        destruct (IHm t eq_refl) as [H1 _]. specialize (H1 u Hu Hb). lia.
      * destruct (la !! GetId env) as [t|] eqn:Hla; cbn in Hs1.
        -- destruct (IHm t eq_refl) as [_ (u & Hu & Hut)]. exists u. split; [apply elem_of_app; by left|]. lia.
        -- exists v. split; [apply elem_of_app; right; by left|done].
  - intros pre v' post Heq Hne. destruct post as [|y post] using rev_ind.
    2: { clear IHpost. rewrite app_comm_cons, app_assoc in Heq. apply app_inj_tail in Heq as [Heq _]. by eapply IHc. }
    apply app_inj_tail in Heq as [<- <-]. split; [|exact Hlog]. destruct (Hc Hne) as (Hsk & Hda & Hd & Hle).
    change (AsDuration _) with (v_timeout v) in Hle. assert (Visit.at_ v = now) as Hat by done. unfold idle. rewrite Hat.
    assert (0 < v_timeout v)%Z as Hpos.
    { unfold ScaleToZero.skipped in Hsk. repeat (apply orb_false_iff in Hsk as [? Hsk] || apply orb_false_iff in Hsk as [Hsk ?]).
      unfold v_timeout. cbn. by apply Z.leb_gt. }
    assert (ScaleToZero.inflight (v_activity v) = 0)%Z as Hin.
    { pose proof (proj1 (inflight_bounds (GetId env) (Visit.live v))) as H0. change (ScaleToZero.activity _ _) with (v_activity v) in H0.
      destruct (decide (0 < ScaleToZero.inflight (v_activity v))%Z) as [Hb|]; [|lia]. specialize (Hbusy Hb). lia. }
    destruct Hs as [Hs|[Hs1 Hs2]]; [lia|].
    destruct (la !! GetId env) as [t|] eqn:Hla; cbn in Hs1; [|lia]. destruct (IHm t eq_refl) as [H1 (u & Hu & Hut)].
    split_and!; try done; [lia| |].
    + intros u' Hu' Hb. specialize (H1 u' Hu' Hb). lia.
    + exists u. split; [done|]. lia.
Qed.
End idle.

(** Only idle environments are cooled.  In a leader term, whatever the nodes report
    and whatever else happens in between, the scale-to-zero loop proposes nothing for an
    environment but to set its count to zero, everything else being as stored, and only
    when it is released, scales to zero, is not stateful and no deployment owns it, when
    some node reports and no request is in flight, when the latest request reported, every
    visit of the term that found requests in flight and some visit of the term all lie at
    least the idle timeout back. *)
Theorem cooled_only_when_idle (RO : RangeOrder) (TL : TimestampLib) (LV : LiveView) (E : Env)
    (la : gmap string Z) (vs : list Visit.t) (id : string) (pre post : list Visit.t) (v : Visit.t) :
  cooling la vs → of_env id vs = pre ++ v :: post → Visit.log v ≠ [] →
  idle pre v ∧ visit_log (Visit.store v) id 0 (Visit.at_ v) (Visit.log v).
Proof. intros Ht Hv Hne. destruct (cooling_marked la vs Ht id) as [_ H]. by eapply H. Qed.

(** * Every environment has one owner *)

Section owners.
Context {RO : RangeOrder} {TL : TimestampLib} {FC : F64.FloatConv} {LV : LiveView} {E : Env}.

Lemma Serverless_logs env w :
  logs_at (λ ms, ms = [] ∨ Serverless.skipped (World.store w) env = false ∧ ∃ m now inflight,
      ms = [m] ∧ Serverless.totalInflight (GetId env) (live_Snapshot (World.tick w)) = Some inflight
      ∧ Serverless.desired (env ⇝ Environment.Service) inflight ≠ desiredReplicas env
      ∧ rescaling (World.store w) (GetId env) (u32 (Serverless.desired (env ⇝ Environment.Service) inflight)) now m)
    (Serverless.evaluateEnv env) w.
Proof.
  unfold Serverless.evaluateEnv. apply logs_bind_read.
  destruct (Serverless.skipped _ _); [apply logs_silent; [by left|apply silent_ret]|].
  intros w' r. unfold Snapshot. rewrite bind_tick. destruct (Serverless.totalInflight _ _) as [inflight|] eqn:Hin.
  2: { intros [= <- _]. exists []. rewrite app_nil_r. split; [done|by left]. }
  destruct (Z.eqb_spec (Serverless.desired (env ⇝ Environment.Service) inflight) (desiredReplicas env)) as [|Hne].
  { intros [= <- _]. exists []. rewrite app_nil_r. split; [done|by left]. }
  unfold Serverless.applyScale. rewrite bind_read. cbn [World.store].
  destruct (Store.Environment (GetId env) (World.store w)) as [cur|] eqn:Hst.
  2: { intros [= <- _]. exists []. rewrite app_nil_r. split; [done|by left]. }
  unfold Now. rewrite bind_tick. set (w1 := World.mk _ _ _). set (now := clock_Now _). intros (e & He & Hr)%(rescale_bind (GetId env)); [|done].
  destruct (logs_apply (λ ms, ms = [put_environment e]) "system:serverless" (put_environment e) _ eq_refl w' r Hr) as (ms & Hms & ->).
  exists [put_environment e]. split; [exact Hms|]. right. split; [done|]. exists (put_environment e), now, inflight. by split_and!.
Qed.

Lemma desired_range spec inflight :
  (Serverless.floor_ spec ≤ Serverless.desired spec inflight ≤ Serverless.maxRep spec)%Z
  ∧ (spec ⇝ ServiceSpec.ScaleToZero = false → (1 ≤ Serverless.desired spec inflight)%Z).
Proof.
  assert (Serverless.floor_ spec ≤ Serverless.maxRep spec)%Z as Hfm.
  { unfold Serverless.maxRep. destruct (Z.ltb_spec (spec ⇝ ServiceSpec.Replicas ⇝ ReplicaRange.Max) (Serverless.floor_ spec)); lia. }
  assert (Serverless.floor_ spec ≤ Serverless.desired spec inflight ≤ Serverless.maxRep spec)%Z as Hr.
  { apply (clamp_range _ _ (F64.toInt (F64.Ceil (F64.div (F64.ofZ inflight) (F64.ofZ (spec ⇝ ServiceSpec.MaxConcurrency))))) Hfm). }
  split; [done|]. intros Hs. destruct Hr as [Hr _]. unfold Serverless.floor_ in Hr. rewrite Hs in Hr.
  destruct (Z.ltb_spec (spec ⇝ ServiceSpec.Replicas ⇝ ReplicaRange.Min) 1); lia.
Qed.

(** An environment with a concurrency limit is scaled by the serverless loop only, any
    other by the two others, of which the autoscaler never writes zero and the
    scale-to-zero loop nothing else. *)
Lemma one_owner env w :
  let limited := (0 < env ⇝ Environment.Service ⇝ ServiceSpec.MaxConcurrency)%Z in
  (∀ ts w' r, Autoscaler.evaluateEnv ts env w = Ret (w', r) → World.sent w' ≠ World.sent w → ¬ limited)
  ∧ (∀ now la w' la', ScaleToZero.evaluateEnv now la env w = Ret (w', inl la') → World.sent w' ≠ World.sent w → ¬ limited)
  ∧ (∀ w' r, Serverless.evaluateEnv env w = Ret (w', r) → World.sent w' ≠ World.sent w →
      env ⇝ Environment.Service ⇝ ServiceSpec.MaxConcurrency ≠ 0%Z).
Proof.
  cbv zeta. split_and!.
  - intros ts w' r Hr Hne. pose proof (evaluateEnv_visited _ _ _ _ _ Hr) as (ms & Hms & [(-> & _)|(to & m & evs & Hto & _)]).
    { rewrite Hms, app_nil_r in Hne. done. }
    destruct (signal_of (World.store w) env (live_Snapshot (World.tick w))) eqn:Hs; try done.
    1: destruct (signal_range (World.store w) env (live_Snapshot (World.tick w)) to0 ltac:(by left)) as [Hsk _].
    2: destruct (signal_range (World.store w) env (live_Snapshot (World.tick w)) to0 ltac:(by right)) as [Hsk _].
    all: unfold Autoscaler.skipped in Hsk; repeat (apply orb_false_iff in Hsk as [Hsk ?]); lia.
  - intros now la w' la' Hr Hne. apply evaluateEnv_cooled in Hr as (ms & Hms & _ & _ & _ & Hc).
    destruct Hc as [Hsk _]; [intros ->; by rewrite Hms, app_nil_r in Hne|].
    unfold ScaleToZero.skipped in Hsk. repeat (apply orb_false_iff in Hsk as [Hsk ?]). lia.
  - intros w' r Hr Hne. destruct (Serverless_logs env w w' r Hr) as (ms & Hms & [->|[Hsk _]]).
    { by rewrite Hms, app_nil_r in Hne. }
    unfold Serverless.skipped in Hsk. repeat (apply orb_false_iff in Hsk as [Hsk ?]). lia.
Qed.

(** A wake. *)
Lemma Activate_logs lastWake req w :
  logs_at (λ ms, ms = [] ∨ ∃ env m now, Store.Environment (ActivateRequest.EnvironmentId req) (World.store w) = Some env
      ∧ env ⇝ Environment.Service ⇝ ServiceSpec.ScaleToZero = true ∧ (env ⇝ Environment.EffectiveReplicas < Activator.target env)%Z
      ∧ ms = [m] ∧ rescaling (World.store w) (ActivateRequest.EnvironmentId req) (Activator.target env) now m)
    (Activator.Activate lastWake req) w.
Proof.
  unfold Activator.Activate. cbv zeta. apply logs_bind_read.
  destruct (Store.Environment _ (World.store w)) as [env|] eqn:Hst; [|apply logs_silent; [by left|apply silent_fail]].
  destruct (env ⇝ Environment.Service ⇝ ServiceSpec.ScaleToZero) eqn:Hz; cbn [negb]; [|apply logs_silent; [by left|apply silent_ret]].
  destruct (Z.leb_spec (Activator.target env) (env ⇝ Environment.EffectiveReplicas)) as [|Hlt]; [apply logs_silent; [by left|apply silent_ret]|].
  apply logs_bind_silent; [by left|destruct (lastWake !! _); [apply silent_tick|apply silent_ret]|]. intros w1 now Hw1 _.
  destruct (Activator.debounced _ _ _); [apply logs_silent; [by left|apply silent_ret]|].
  apply logs_bind_silent; [by left|apply silent_tick|]. intros w2 now2 Hw2 _. rewrite Hw1 in Hw2. rewrite <- Hw2 in *.
  intros w' r (e & He & Hr)%(rescale_bind (ActivateRequest.EnvironmentId req)); [|done]. revert w' r Hr.
  apply (logs_bind (λ ms, ms = [put_environment e]) (λ ms, ms = [])).
  - intros l1 l2 -> ->. right. exists env, (put_environment e), now2. by split_and!.
  - intros l1 ->. right. exists env, (put_environment e), now2. by split_and!.
  - by apply logs_propose.
  - intros w4 [] _. apply logs_silent; [done|]. solve_silent.
Qed.
End owners.

(** * A loop rewrites the environment it read

    The loops read an environment again before they write it, "so it never clobbers a
    concurrent field update"; what is committed between that read and the application of
    the command is lost all the same. *)

Section races.

Definition busy_spec : ServiceSpec.t :=
  ServiceSpec.mk (Some (ReplicaRange.mk 1 4)) (Some (Autoscale.mk 50 0 0)) (Some (ResourceLimits.mk 100 100)) [] None
    false 0 false [] [] None "" ∅ None.

Definition busy_env (active : string) : Environment.t := sample_env "e1" active busy_spec.

Definition busy_store : Store.t :=
  Store.PutAssignments [Some (sample_assignment "a1" "n1" "e1" "r1" "" ASSIGNMENT_DESIRED_RUN INSTANCE_STATE_HEALTHY)]
    (Store.PutEnvironment (Some (busy_env "r1")) Store.New).

(** One instance at 90% of a processor. *)
Definition busy_node : LiveView := λ _,
  [Live.NodeState.mk "n1" true (Some 0%Z) (Some (Heartbeat.mk None F64.zero_ 0 0 0 0
     {["a1" := InstanceSample.mk (F64.ofZ 90) 0 0 0]} ∅))].

Definition no_conversion : F64.FloatConv := λ _, 0%Z.

(** An environment where another proposer acts before one proposal. *)
Definition racing (at_ : nat) (r : reply) (f : Store.t → Store.t) : Env := {|
  fate n := if (n =? at_)%nat then r else Committed; others n s := if (n =? at_)%nat then f s else s;
  raft_index n := Z.of_nat n; leads _ := true; ids_New n := "id" +:+ pretty n; clock_Now n := (Z.of_nat n * 10 ^ 9)%Z
|}.

Definition active_of (w : World.t) : string := (default None (Store.environments (World.store w) !! "e1")) ⇝ Environment.ActiveReleaseId.
Definition count_in (w : World.t) : Z := (default None (Store.environments (World.store w) !! "e1")) ⇝ Environment.EffectiveReplicas.

(** A promotion that commits in between is reverted. *)
Lemma scaling_reverts_a_promotion :
  let E := racing 2 Committed (Store.PutEnvironment (Some (busy_env "r2"))) in
  ∃ w' ts, Autoscaler.evaluateEnv (RO := canonical_range) (TL := wellknown_times) (FC := no_conversion) (LV := busy_node) (E := E)
      Autoscaler.reset (Some (busy_env "r1")) (World.mk busy_store 0 []) = Ret (w', inl ts)
    ∧ active_of w' = "r1" ∧ count_in w' = 2%Z.
Proof. eexists _, _. split; [vm_compute; reflexivity|]. split; vm_compute; reflexivity. Qed.

(** A change that is not applied starts the cooldown, and is announced. *)
Lemma failed_scaling_is_announced :
  let E := racing 2 (Failed false) id in
  ∃ w' ts, Autoscaler.evaluateEnv (RO := canonical_range) (TL := wellknown_times) (FC := no_conversion) (LV := busy_node) (E := E)
      Autoscaler.reset (Some (busy_env "r1")) (World.mk busy_store 0 []) = Ret (w', inl ts)
    ∧ count_in w' = 0%Z ∧ Autoscaler.lastChange ts !! "e1" = Some (1 * second)%Z
    ∧ ((λ e, e ⇝ Event.Message) <$> Store.events (World.store w')) = ["autoscaled e1 from 1 to 2 replicas"].
Proof. eexists _, _. split; [vm_compute; reflexivity|]. split_and!; vm_compute; reflexivity. Qed.

(** An environment that scales to zero, with two replicas, idle for a minute. *)
Definition cold_spec : ServiceSpec.t :=
  ServiceSpec.mk (Some (ReplicaRange.mk 2 4)) None (Some (ResourceLimits.mk 100 100)) [] None
    true 0 false [] [] None "" ∅ None.

Definition warm_env (n : Z) : Environment.t :=
  Environment.mk (sample_meta "e1") "app" "proj" "e1" zero (Some cold_spec) "r1" 7 0 None n (Some (Duration.mk 60 0)).

Definition idle_node : LiveView := λ _, [Live.NodeState.mk "n1" true (Some 0%Z) (Some (Heartbeat.mk None F64.zero_ 0 0 0 0 ∅ ∅))].

Definition wake (s : Store.t) : Store.t :=
  match Activator.Activate (RO := canonical_range) (TL := wellknown_times) (E := quiet_env) ∅ (ActivateRequest.mk "e1" "n1") (World.mk s 100 []) with
  | Ret (w, _) => World.store w
  | Panic => s
  end.

(** A request wakes the environment between the read and the write: it is cooled all the
    same. *)
Lemma cooling_undoes_a_wake :
  let st := Store.PutEnvironment (Some (warm_env 1)) Store.New in
  let E := racing 1 Committed wake in
  ∃ w' la, ScaleToZero.evaluateEnv (RO := canonical_range) (TL := wellknown_times) (LV := idle_node) (E := E)
      (61 * second) {["e1" := 0%Z]} (Some (warm_env 1)) (World.mk st 0 []) = Ret (w', inl la)
    ∧ count_in (World.mk (wake st) 0 []) = 2%Z ∧ count_in w' = 0%Z.
Proof. eexists _, _. split; [vm_compute; reflexivity|]. split; vm_compute; reflexivity. Qed.
End races.

(** * Witnesses *)

(** The first pass of a term scales the busy environment up. *)
Notation first_pass := (Autoscaler.evaluate (RO := canonical_range) (TL := wellknown_times) (FC := no_conversion)
  (LV := busy_node) (E := quiet_env) Autoscaler.reset (World.mk busy_store 0 [])).

Notation first_visits := (visits_of (RO := canonical_range) (TL := wellknown_times) (FC := no_conversion)
  (LV := busy_node) (E := quiet_env) Autoscaler.reset (Store.ListEnvironments (RO := canonical_range) "" "" busy_store) (World.mk busy_store 1 [])).

Lemma autoscaler_is_damped_witness :
  ∃ m to, rescaling (TL := wellknown_times) busy_store "e1" (u32 to) (2 * second)%Z m ∧ (1 ≤ to ≤ 4)%Z.
Proof.
  destruct first_pass as [[w' [ts'|]]|] eqn:Hrun; [|vm_compute in Hrun; discriminate Hrun..].
  assert (@autoscaling canonical_range wellknown_times no_conversion busy_node quiet_env ts' ([] ++ [(busy_store, first_visits)])) as Ht
    by exact (autoscaling_pass Autoscaler.reset [] _ w' ts' autoscaling_start Hrun).
  destruct (autoscaler_is_damped canonical_range canonical_range_ok wellknown_times no_conversion busy_node quiet_env ts' _ "e1" Ht) as (_ & _ & H).
  destruct (H busy_store first_visits) as [_ Hv]; [left|]. clear H Ht.
  assert (∃ v m, v ∈ of_env "e1" first_visits ∧ m ∈ Visit.log v ∧ is_put m = true ∧ Visit.store v = busy_store ∧ Visit.at_ v = (2 * second)%Z
    ∧ Autoscaler.minRep (Visit.env v) = 1%Z ∧ Autoscaler.maxRep (Visit.env v) = 4%Z) as (v & m & Hin & Hm & Hput & Hst & Hat & Hmin & Hmax).
  { eexists _, _. split; [vm_compute; left|]. split; [left|]. split_and!; reflexivity. }
  exists m. destruct (Hv v m Hin Hm) as [He|(to & Hr & _ & _ & Hto & _)]; [destruct m; try discriminate Hput; destruct He|].
  exists to. rewrite Hst, Hat in Hr. rewrite Hmin, Hmax in Hto. exact (conj Hr Hto).
Defined.

(** An environment without requests, seen at 0 and at 61 s. *)
Definition warm_store : Store.t := Store.PutEnvironment (Some (warm_env 2)) Store.New.

Notation visit_at now la := (ScaleToZero.evaluateEnv (RO := canonical_range) (TL := wellknown_times) (LV := idle_node)
  (E := quiet_env) now la (Some (warm_env 2)) (World.mk warm_store 0 [])).

Lemma cooled_only_when_idle_witness :
  ∃ m, rescaling (TL := wellknown_times) warm_store "e1" 0 (61 * second) m.
Proof.
  destruct (visit_at 0%Z ∅) as [[w1 [la1|]]|] eqn:H1; [|vm_compute in H1; discriminate H1..].
  assert (la1 = {["e1" := 0%Z]} ∧ World.sent w1 = []) as [-> Hs1] by (vm_compute in H1; injection H1 as <- <-; by split).
  destruct (visit_at (61 * second)%Z {["e1" := 0%Z]}) as [[w2 [la2|]]|] eqn:H2; [|vm_compute in H2; discriminate H2..].
  assert (World.sent w2 ≠ []) as Hs2 by (vm_compute in H2; injection H2 as <- _; discriminate).
  pose (u := Visit.mk (Some (warm_env 2)) warm_store (idle_node 0) 0%Z []).
  pose (v := Visit.mk (Some (warm_env 2)) warm_store (idle_node 0) (61 * second)%Z (World.sent w2)).
  assert (@cooling canonical_range wellknown_times idle_node quiet_env la2 [u; v]) as Ht.
  { refine (cooling_visit _ [u] (61 * second)%Z _ _ w2 la2 (World.sent w2) _ _ H2 eq_refl).
    - exact (cooling_visit ∅ [] 0%Z _ _ w1 _ [] cooling_start (Forall_nil_2 _) H1 Hs1).
    - constructor; [cbn; unfold second; lia|constructor]. }
  destruct (cooled_only_when_idle canonical_range wellknown_times idle_node quiet_env la2 [u; v] "e1" [u] [] v Ht eq_refl Hs2)
    as [_ [Hlog|(m & evs & _ & Hm & _)]]; [by cbn in Hlog|]. exists m. exact Hm.
Defined.
