(* ===== verification/Registry.v ===== *)
(** The embedded image registry (internal/daemon/registry): the content-addressed blobs
    (blobstore.go), the uploads (uploads.go), the manifests with their tags
    (manifests.go) and the reference-counting collector (gc.go).

    Bytes are strings.  SHA-256 and the decoding of JSON are a parameter,
    [RegistryLib].  The files of the blob store are a map from the hexadecimal name to the
    content, the bbolt database a record of its four buckets; a failing disk is not
    modelled.  A transaction of the database is one step, and so is a call of the blob
    store; what a call of the registry does is the sequence of its steps, and other calls
    may run in between ([sweepBlobs] runs after its transaction). *)
From S2P Require Import Prelude Api Watch State Platform Apps Text.
From Stdlib Require Import Ascii.

(** * Wire structs (manifests.go) *)

Module ociPlatform.
Record t := mk { Architecture : string; OS : string; Variant : string }.
End ociPlatform.

Module ociDescriptor.
Record t := mk { MediaType : string; Digest : string; Size : Z; Platform : option ociPlatform.t }.
End ociDescriptor.

Module parsedManifest.
Record t := mk {
  MediaType : string;
  Config : ociDescriptor.t;
  Layers : list ociDescriptor.t;
  Manifests : list ociDescriptor.t
}.
End parsedManifest.

Module childDesc.
Record t := mk { Digest : string; MediaType : string; OS : string; Arch : string; Variant : string }.
End childDesc.

Module manMeta.
Record t := mk { MediaType : string; Index : bool; Edges : list string; Children : list childDesc.t }.
End manMeta.

(** SHA-256 in hexadecimal, json.Unmarshal of a manifest, and the platform in the first
    JSON value of the first MiB of an image configuration. *)
Class RegistryLib := {
  sha256_hex : string → string;
  unmarshalManifest : string → option parsedManifest.t;
  unmarshalPlatform : string → option ociPlatform.t
}.

(** * Digests *)

Definition is_hex (c : ascii) : bool :=
  let n := nat_of_ascii c in
  (48 <=? n) && (n <=? 57) || (97 <=? n) && (n <=? 102) || (65 <=? n) && (n <=? 70).

Fixpoint all_hex (s : string) : bool :=
  match s with "" => true | String c s => is_hex c && all_hex s end.

(** parseDigest: the hexadecimal part, in lower case. *)
Definition parseDigest (dgst : string) : option string :=
  let '(algo, h, ok) := Cut dgst ":" in
  if negb ok || negb (algo =? "sha256") || negb (String.length h =? 64)%nat then None
  else if all_hex h then Some (ToLower h) else None.

Definition digest_of {RL : RegistryLib} (content : string) : string := "sha256:" +:+ sha256_hex content.

Inductive registry_error :=
| ErrBlobUnknown | ErrUploadUnknown | ErrDigestInvalid | ErrDigestMismatch | ErrRangeNotSatisfiable
| ErrManifestUnknown | ErrManifestInvalid | ErrManifestBlobUnkn | ErrManifestChildUnkn.

(** * Blobs (blobstore.go) *)

Module Blobs.
Section blobs.
Context {RL : RegistryLib}.

(** Content by the hexadecimal part of its digest. *)
Notation t := (gmap string string).

Definition Has (dgst : string) (s : t) : bool :=
  match parseDigest dgst with Some h => bool_decide (is_Some (s !! h)) | None => false end.

Definition Stat (dgst : string) (s : t) : Z + registry_error :=
  match parseDigest dgst with
  | None => inr ErrDigestInvalid
  | Some h => match s !! h with Some b => inl (Z.of_nat (String.length b)) | None => inr ErrBlobUnknown end
  end.

Definition Open (dgst : string) (s : t) : string + registry_error :=
  match parseDigest dgst with
  | None => inr ErrDigestInvalid
  | Some h => match s !! h with Some b => inl b | None => inr ErrBlobUnknown end
  end.

(** commit: a blob that is there already is kept. *)
Definition commit (content hexPart : string) (s : t) : t :=
  match s !! hexPart with Some _ => s | None => <[hexPart := content]> s end.

Definition Write (content : string) (s : t) : t := commit content (sha256_hex content) s.

Definition Delete (dgst : string) (s : t) : t :=
  match parseDigest dgst with Some h => delete h s | None => s end.

End blobs.
End Blobs.

(** * Uploads (uploads.go) *)

Module Uploads.

Definition uploadTTL : Z := (24 * 3600 * 10 ^ 9)%Z.

(** The bytes written to the temporary file, which the running hash has seen too. *)
Module Upload.
Record t := mk { Started : Z; data : string }.
End Upload.

Section uploads.
Context {RO : RangeOrder} {RL : RegistryLib}.

Notation sessions := (gmap string Upload.t).

Definition Offset (u : Upload.t) : Z := Z.of_nat (String.length (Upload.data u)).

Definition Start (id : string) (now : Z) (m : sessions) : sessions := <[id := Upload.mk now ""]> m.

(** Append returns the new offset. *)
Definition Append (id data : string) (start : Z) (m : sessions) : sessions * (Z + registry_error) :=
  match m !! id with
  | None => (m, inr ErrUploadUnknown)
  | Some up =>
    if (0 <=? start)%Z && negb (start =? Offset up)%Z then (m, inr ErrRangeNotSatisfiable)
    else
      let up := Upload.mk (Upload.Started up) (Upload.data up +:+ data) in
      (<[id := up]> m, inl (Offset up))
  end.

Definition Finalize (id expected trailing : string) (m : sessions) (s : gmap string string)
    : sessions * gmap string string * (string + registry_error) :=
  match parseDigest expected with
  | None => (m, s, inr ErrDigestInvalid)
  | Some _ =>
    match m !! id with
    | None => (m, s, inr ErrUploadUnknown)
    | Some up =>
      let data := Upload.data up +:+ trailing in
      let got := digest_of data in
      if negb (got =? expected) then (delete id m, s, inr ErrDigestMismatch)
      else
        let hexPart := default "" (parseDigest got) in
        (delete id m, Blobs.commit data hexPart s, inl got)
    end
  end.

Definition Cancel (id : string) (m : sessions) : sessions * option registry_error :=
  match m !! id with None => (m, Some ErrUploadUnknown) | Some _ => (delete id m, None) end.

Definition stale (now : Z) (m : sessions) : list string :=
  fst <$> List.filter (λ iu, (Upload.Started iu.2 <? now - uploadTTL)%Z) (range m).

Definition Reap (now : Z) (m : sessions) : sessions * nat :=
  let ids := stale now m in (foldl (λ m id, delete id m) m ids, length ids).

Definition Ingest (id data expected : string) (now : Z) (m : sessions) (s : gmap string string)
    : sessions * gmap string string * (string + registry_error) :=
  let m := Start id now m in
  match Append id data (-1) m with
  | (m, inr e) => ((Cancel id m).1, s, inr e)
  | (m, inl _) => Finalize id expected "" m s
  end.

End uploads.
End Uploads.

(** * Manifests and the collector (manifests.go, gc.go) *)

Module Manifests.
Section manifests.
Context {RL : RegistryLib}.

Definition MediaTypeOCIManifest : string := "application/vnd.oci.image.manifest.v1+json".
Definition MediaTypeOCIIndex : string := "application/vnd.oci.image.index.v1+json".
Definition MediaTypeDockerList : string := "application/vnd.docker.distribution.manifest.list.v2+json".

Definition nul : string := String "000" "".

(** The buckets of meta.db. *)
Record db := DB {
  tags : gmap string string;          (* repo\x00tag -> digest *)
  repoman : gmap string string;       (* repo\x00digest -> media type *)
  manmeta : gmap string manMeta.t;    (* digest -> node of the graph *)
  refs : gmap string Z                (* digest -> uint64 *)
}.

Definition empty_db : db := DB ∅ ∅ ∅ ∅.

(** A cursor visits the keys in bytewise order. *)
Definition cursor {A} (m : gmap string A) : list (string * A) := sort_slice (key_less fst) (map_to_list m).

(** ** Reference counts *)

Definition refGet (d : db) (digest : string) : Z := default 0%Z (refs d !! digest).
Definition refPut (d : db) (digest : string) (n : Z) : db := DB (tags d) (repoman d) (manmeta d) (<[digest := n]> (refs d)).
Definition refInc (d : db) (digest : string) : db := refPut d digest (u64 (refGet d digest + 1)).

(** removeRepoListings deletes the entries whose key ends in the digest. *)
Definition removeRepoListings (d : db) (digest : string) : db :=
  DB (tags d) (filter (λ kv, negb (Domains.HasSuffix kv.1 (nul +:+ digest)) = true) (repoman d)) (manmeta d) (refs d).

(** refDec: the database and the digests to delete after the transaction.  Each level of
    the cascade removes a node of the graph; [None] is running out of fuel. *)
Fixpoint refDec (fuel : nat) (digest : string) (dt : db * list string) : option (db * list string) :=
  let '(d, toDelete) := dt in
  let c := refGet d digest in
  if (1 <? c)%Z then Some (refPut d digest (c - 1), toDelete)
  else
    let d := DB (tags d) (repoman d) (manmeta d) (delete digest (refs d)) in
    match manmeta d !! digest with
    | None => Some (d, toDelete ++ [digest])
    | Some meta =>
      match fuel with
      | 0 => None
      | S fuel =>
        let d := DB (tags d) (repoman d) (delete digest (manmeta d)) (refs d) in
        let d := removeRepoListings d digest in
        '(d, toDelete) ← foldl (λ o e, o ≫= refDec fuel e) (Some (d, toDelete)) (manMeta.Edges meta);
        Some (d, toDelete ++ [digest])
      end
    end.

(** With the fuel that is enough: the cascade is at most as deep as the graph is large. *)
Definition release (digest : string) (dt : db * list string) : option (db * list string) :=
  refDec (size (manmeta dt.1)) digest dt.

(** setTag: the new target is counted before the old one is released. *)
Definition setTag (repo tag digest : string) (dt : db * list string) : option (db * list string) :=
  let '(d, toDelete) := dt in
  let key := repo +:+ nul +:+ tag in
  match tags d !! key with
  | Some old =>
    if old =? digest then Some dt
    else
      let d := DB (<[key := digest]> (tags d)) (repoman d) (manmeta d) (refs d) in
      let d := refInc d digest in
      if old =? "" then Some (d, toDelete) else release old (d, toDelete)
  | None =>
    let d := DB (<[key := digest]> (tags d)) (repoman d) (manmeta d) (refs d) in
    Some (refInc d digest, toDelete)
  end.

(** ** Pushing *)

Definition isIndexMediaType (mt : string) : bool := (mt =? MediaTypeOCIIndex) || (mt =? MediaTypeDockerList).

(** The media type of a body and whether it is an index. *)
Definition kind_of (contentType : string) (pm : parsedManifest.t) : string * bool :=
  let mediaType := if contentType =? "" then parsedManifest.MediaType pm else contentType in
  let index := isIndexMediaType mediaType || ((mediaType =? "") && negb (bool_decide (parsedManifest.Manifests pm = []))) in
  (if mediaType =? "" then (if index then MediaTypeOCIIndex else MediaTypeOCIManifest) else mediaType, index).

Definition child_of (c : ociDescriptor.t) : childDesc.t :=
  let '(os, arch, variant) := match ociDescriptor.Platform c with
    | Some p => (ociPlatform.OS p, ociPlatform.Architecture p, ociPlatform.Variant p)
    | None => ("", "", "")
    end in
  childDesc.mk (ociDescriptor.Digest c) (ociDescriptor.MediaType c) os arch variant.

(** The node of a body; [None] when it lacks a digest. *)
Definition meta_of (contentType : string) (pm : parsedManifest.t) : option manMeta.t :=
  let '(mediaType, index) := kind_of contentType pm in
  if index then
    let ms := parsedManifest.Manifests pm in
    if bool_decide (ms = []) || existsb (λ c, ociDescriptor.Digest c =? "") ms then None
    else Some (manMeta.mk mediaType true (ociDescriptor.Digest <$> ms) (child_of <$> ms))
  else
    let ds := ociDescriptor.Digest <$> (parsedManifest.Config pm :: parsedManifest.Layers pm) in
    if existsb (λ d, d =? "") ds then None else Some (manMeta.mk mediaType false ds []).

Definition validateChildren (repo : string) (children : list string) (d : db) : bool :=
  forallb (λ c, bool_decide (is_Some (repoman d !! (repo +:+ nul +:+ c)))) children.

(** What is checked before anything is written. *)
Definition validated (repo contentType body : string) (d : db) (s : gmap string string) : manMeta.t + registry_error :=
  match unmarshalManifest body with
  | None => inr ErrManifestInvalid
  | Some pm =>
    match meta_of contentType pm with
    | None => inr ErrManifestInvalid
    | Some meta =>
      if manMeta.Index meta
      then if validateChildren repo (manMeta.Edges meta) d then inl meta else inr ErrManifestChildUnkn
      else if forallb (λ e, Blobs.Has e s) (manMeta.Edges meta) then inl meta else inr ErrManifestBlobUnkn
    end
  end.

(** The transaction of PutManifest. *)
Definition put_tx (repo ref digest : string) (meta : manMeta.t) (d : db) : option (db * list string) :=
  let d := match manmeta d !! digest with
    | Some _ => d
    | None => foldl refInc (DB (tags d) (repoman d) (<[digest := meta]> (manmeta d)) (refs d)) (manMeta.Edges meta)
    end in
  let d := DB (tags d) (<[repo +:+ nul +:+ digest := manMeta.MediaType meta]> (repoman d)) (manmeta d) (refs d) in
  if negb (ref =? "") && bool_decide (parseDigest ref = None) then setTag repo ref digest (d, [])
  else Some (d, []).

Definition sweepBlobs (digests : list string) (s : gmap string string) : gmap string string :=
  foldl (λ s d, Blobs.Delete d s) s digests.

(** PutManifest, with nothing in between its steps. *)
Definition PutManifest (repo ref contentType body : string) (d : db) (s : gmap string string)
    : option (db * gmap string string * (string + registry_error)) :=
  match validated repo contentType body d s with
  | inr e => Some (d, s, inr e)
  | inl meta =>
    let digest := digest_of body in
    let s := Blobs.Write body s in
    '(d, toDelete) ← put_tx repo ref digest meta d;
    Some (d, sweepBlobs toDelete s, inl digest)
  end.

(** ** Removing *)

(** The transaction of UntagAndSweep. *)
Definition untag_tx (repo tag : string) (d : db) : option (db * list string) :=
  let key := repo +:+ nul +:+ tag in
  match tags d !! key with
  | None => Some (d, [])
  | Some old => release old (DB (delete key (tags d)) (repoman d) (manmeta d) (refs d), [])
  end.

Definition UntagAndSweep (repo tag : string) (d : db) (s : gmap string string) : option (db * gmap string string) :=
  '(d, toDelete) ← untag_tx repo tag d;
  Some (d, sweepBlobs toDelete s).

(** The tags of a repository that point at a digest. *)
Definition tagged (repo digest : string) (d : db) : list string :=
  fst <$> List.filter (λ kv, HasPrefix kv.1 (repo +:+ nul) && (kv.2 =? digest)) (cursor (tags d)).

Definition untag_key (digest : string) (o : option (db * list string)) (key : string) : option (db * list string) :=
  '(d, toDelete) ← o;
  release digest (DB (delete key (tags d)) (repoman d) (manmeta d) (refs d), toDelete).

Definition delete_tx (repo digest : string) (d : db) : option (db * list string) :=
  foldl (untag_key digest) (Some (d, [])) (tagged repo digest d).

Definition DeleteManifest (repo digest : string) (d : db) (s : gmap string string)
    : option (db * gmap string string * option registry_error) :=
  match repoman d !! (repo +:+ nul +:+ digest) with
  | None => Some (d, s, Some ErrManifestUnknown)
  | Some _ =>
    '(d, toDelete) ← delete_tx repo digest d;
    Some (d, sweepBlobs toDelete s, None)
  end.

(** ** Reading *)

Definition resolveRef (d : db) (repo ref : string) : string :=
  match parseDigest ref with
  | Some _ => ref
  | None => default "" (tags d !! (repo +:+ nul +:+ ref))
  end.

Definition Resolve (repo ref : string) (d : db) : string + registry_error :=
  let digest := resolveRef d repo ref in
  if (digest =? "") || negb (bool_decide (is_Some (repoman d !! (repo +:+ nul +:+ digest)))) then inr ErrManifestUnknown
  else inl digest.

Definition GetManifest (repo ref : string) (d : db) (s : gmap string string) : string * string * string + registry_error :=
  let digest := resolveRef d repo ref in
  if digest =? "" then inr ErrManifestUnknown
  else match repoman d !! (repo +:+ nul +:+ digest) with
  | None => inr ErrManifestUnknown
  | Some mediaType =>
    match Blobs.Open digest s with
    | inr _ => inr ErrManifestUnknown
    | inl body => inl (body, mediaType, digest)
    end
  end.

Definition platformMatches (want : string) (c : childDesc.t) : bool :=
  match Split want "/" with
  | os :: arch :: rest =>
    if negb (childDesc.OS c =? os) || negb (childDesc.Arch c =? arch) then false
    else match rest with
    | variant :: _ => (childDesc.Variant c =? "") || (childDesc.Variant c =? variant)
    | [] => true
    end
  | _ => false
  end.

Definition ResolveManifest (repo ref platform : string) (d : db) : string * string + registry_error :=
  let digest := resolveRef d repo ref in
  if (digest =? "") || negb (bool_decide (is_Some (repoman d !! (repo +:+ nul +:+ digest)))) then inr ErrManifestUnknown
  else match manmeta d !! digest with
  | None => inr ErrManifestUnknown
  | Some meta =>
    if negb (manMeta.Index meta) || (platform =? "") then inl (digest, manMeta.MediaType meta)
    else match List.find (platformMatches platform) (manMeta.Children meta) with
    | Some c => inl (childDesc.Digest c, childDesc.MediaType c)
    | None => inr ErrManifestUnknown
    end
  end.

Definition platform_string (os arch variant : string) : string :=
  os +:+ "/" +:+ arch +:+ (if variant =? "" then "" else "/" +:+ variant).

Definition configPlatform (digest : string) (s : gmap string string) : option string :=
  match Blobs.Open digest s with
  | inr _ => None
  | inl body =>
    p ← unmarshalPlatform body;
    if (ociPlatform.OS p =? "") || (ociPlatform.Architecture p =? "") then None
    else Some (platform_string (ociPlatform.OS p) (ociPlatform.Architecture p) (ociPlatform.Variant p))
  end.

Definition Platforms (repo ref : string) (d : db) (s : gmap string string) : list string + registry_error :=
  let digest := resolveRef d repo ref in
  if (digest =? "") || negb (bool_decide (is_Some (repoman d !! (repo +:+ nul +:+ digest)))) then inr ErrManifestUnknown
  else match manmeta d !! digest with
  | None => inr ErrManifestUnknown
  | Some meta =>
    if manMeta.Index meta then
      inl (omap (λ c, if (childDesc.OS c =? "") || (childDesc.Arch c =? "") then None
                      else Some (platform_string (childDesc.OS c) (childDesc.Arch c) (childDesc.Variant c))) (manMeta.Children meta))
    else
      inl (match manMeta.Edges meta with
           | [] => []
           | c :: _ => if c =? "" then [] else match configPlatform c s with Some p => [p] | None => [] end
           end)
  end.

(** Tags lists the tags of a repository in the order of the keys. *)
Definition Tags (repo : string) (d : db) : list string :=
  let prefix := repo +:+ nul in
  (λ kv, TrimPrefix kv.1 prefix) <$> List.filter (λ kv, HasPrefix kv.1 prefix) (cursor (tags d)).

End manifests.
End Manifests.
