(* ===== verification/RegistryProps.v ===== *)
(** The registry of Registry.v never loses an image: reference counts are exact in every
    reachable state, so that what the collector deletes is what nothing refers to. *)
From S2P Require Import Prelude Api Watch State Platform Apps Text Registry.
From Stdlib Require Import Ascii.
Import Manifests.

(** * Occurrences *)

Definition occ (x : string) (l : list string) : Z := Z.of_nat (length (List.filter (λ y, y =? x) l)).

Lemma occ_nil x : occ x [] = 0%Z.
Proof. done. Qed.

Lemma occ_cons x y l : occ x (y :: l) = ((if str_eqb y x then 1 else 0) + occ x l)%Z.
Proof. unfold occ. cbn [List.filter]. destruct (y =? x); cbn [length]; lia. Qed.

Lemma occ_app x l k : occ x (l ++ k) = (occ x l + occ x k)%Z.
Proof. unfold occ. rewrite List.filter_app, length_app. lia. Qed.

Lemma occ_perm x l k : l ≡ₚ k → occ x l = occ x k.
Proof. induction 1; rewrite ?occ_cons in *; lia. Qed.

Lemma occ_nonneg x l : (0 ≤ occ x l)%Z.
Proof. unfold occ. lia. Qed.

Lemma occ_pos x l : (0 < occ x l)%Z ↔ x ∈ l.
Proof.
  induction l as [|y l IH].
  { split; [by intros H|]. by intros H%elem_of_nil. }
  rewrite occ_cons, elem_of_cons. pose proof (occ_nonneg x l).
  destruct (y =? x) eqn:E; [apply str_eqb_eq in E as ->|apply str_eqb_neq in E]; split; intros H'.
  - by left.
  - lia.
  - right. apply IH. lia.
  - destruct H' as [->|H']; [done|]. apply IH in H'. lia.
Qed.

Lemma occ_zero x l : occ x l = 0%Z ↔ x ∉ l.
Proof. rewrite <- occ_pos. pose proof (occ_nonneg x l). lia. Qed.

Lemma occ_length x l : (occ x l ≤ Z.of_nat (length l))%Z.
Proof. unfold occ. pose proof (filter_length_le (λ y, y =? x) l). lia. Qed.

(** * What refers to a digest *)

(** The targets of the tags and of the edges of the graph, with repetitions. *)
Definition edges_of (m : gmap string manMeta.t) : list string := (map_to_list m).*2 ≫= manMeta.Edges.
Definition refers (d : db) : list string := (map_to_list (tags d)).*2 ++ edges_of (manmeta d).

(** The counts are exact when the references [P] are still to be released. *)
Definition counted (d : db) (P : list string) : Prop := ∀ x, refGet d x = occ x (refers d ++ P).

Lemma edges_insert m x n : m !! x = None → edges_of (<[x := n]> m) ≡ₚ manMeta.Edges n ++ edges_of m.
Proof. intros H. unfold edges_of. rewrite map_to_list_insert by done. done. Qed.

Lemma edges_delete m x n : m !! x = Some n → edges_of m ≡ₚ manMeta.Edges n ++ edges_of (delete x m).
Proof. intros H. unfold edges_of. rewrite <- (map_to_list_delete m x n) by done. done. Qed.

Lemma elem_of_edges m e : e ∈ edges_of m ↔ ∃ x n, m !! x = Some n ∧ e ∈ manMeta.Edges n.
Proof.
  unfold edges_of. rewrite list_elem_of_bind. split.
  - intros (n & He & ([x n'] & -> & Hn)%list_elem_of_fmap). apply elem_of_map_to_list in Hn. eauto.
  - intros (x & n & Hx & He). exists n. split; [done|]. apply list_elem_of_fmap. exists (x, n). by rewrite elem_of_map_to_list.
Qed.

Lemma elem_of_refers d e : e ∈ refers d ↔ (∃ k, tags d !! k = Some e) ∨ ∃ x n, manmeta d !! x = Some n ∧ e ∈ manMeta.Edges n.
Proof.
  unfold refers. rewrite elem_of_app, elem_of_edges. f_equiv. rewrite list_elem_of_fmap. split.
  - intros ([k v] & -> & Hk). apply elem_of_map_to_list in Hk. eauto.
  - intros [k Hk]. exists (k, e). by rewrite elem_of_map_to_list.
Qed.

(** * The cascade *)

Definition suffixed (k x : string) : Prop := Domains.HasSuffix k (nul +:+ x) = true.

#[local] Instance suffixed_dec k x : Decision (suffixed k x) := decide (_ = true).

(** From [d] to [d'] references were released and the digests [new] torn down. *)
Record collects (d d' : db) (new : list string) : Prop := {
  c_tags : tags d' ⊆ tags d;
  c_manmeta : manmeta d' ⊆ manmeta d;
  c_torn : ∀ x, is_Some (manmeta d !! x) → manmeta d' !! x = None → x ∈ new ∧ ∀ k, suffixed k x → repoman d' !! k = None;
  c_repoman : ∀ k, repoman d' !! k = repoman d !! k
    ∨ repoman d' !! k = None ∧ ∃ x, suffixed k x ∧ is_Some (manmeta d !! x) ∧ manmeta d' !! x = None;
  c_new : ∀ x, x ∈ new → manmeta d' !! x = None ∧ refGet d' x = 0%Z;
  c_zero : ∀ x, refGet d x = 0%Z → refGet d' x = 0%Z;
  c_all : ∀ x, refGet d x ≠ 0%Z → refGet d' x = 0%Z → x ∈ new
}.

Lemma collects_refl d : collects d d [].
Proof.
  constructor; try done; [|by left|by intros x Hx%elem_of_nil].
  intros x [n Hn] ?. congruence.
Qed.

Lemma subseteq_None {A} (m m' : gmap string A) x : m' ⊆ m → m !! x = None → m' !! x = None.
Proof. intros Hs Hx. destruct (m' !! x) as [v|] eqn:E; [|done]. pose proof (lookup_weaken _ _ _ _ E Hs). congruence. Qed.

Lemma collects_trans d d1 d2 n1 n2 : collects d d1 n1 → collects d1 d2 n2 → collects d d2 (n1 ++ n2).
Proof.
  intros H1 H2. pose proof (c_manmeta _ _ _ H1) as M1. pose proof (c_manmeta _ _ _ H2) as M2. constructor.
  - etrans; [apply (c_tags _ _ _ H2)|apply (c_tags _ _ _ H1)].
  - by etrans.
  - intros x Hx Hn. destruct (manmeta d1 !! x) as [n|] eqn:E1.
    + destruct (c_torn _ _ _ H2 x) as [Hin Hk]; [by eexists|done|]. split; [apply elem_of_app; by right|done].
    + destruct (c_torn _ _ _ H1 x Hx E1) as [Hin Hk]. split; [apply elem_of_app; by left|].
      intros k Hs. destruct (c_repoman _ _ _ H2 k) as [->|[-> _]]; [by apply Hk|done].
  - intros k. destruct (c_repoman _ _ _ H2 k) as [->|[-> (x & Hs & [n Hn] & Hx)]].
    + destruct (c_repoman _ _ _ H1 k) as [->|[-> (x & Hs & Hn & Hx)]]; [by left|]. right. split; [done|].
      exists x. split_and!; [done|done|]. by apply (subseteq_None (manmeta d1)).
    + right. split; [done|]. exists x. split_and!; [done| |done]. exists n. by eapply lookup_weaken.
  - intros x [Hx|Hx]%elem_of_app; [|by apply (c_new _ _ _ H2)]. destruct (c_new _ _ _ H1 x Hx) as [Hm Hr].
    split; [by apply (subseteq_None (manmeta d1))|by apply (c_zero _ _ _ H2)].
  - intros x Hx. by apply (c_zero _ _ _ H2), (c_zero _ _ _ H1).
  - intros x Hx H0. destruct (decide (refGet d1 x = 0%Z)) as [E|E]; apply elem_of_app;
      [left; by apply (c_all _ _ _ H1)|right; by apply (c_all _ _ _ H2)].
Qed.

Section cascade.
Context {RL : RegistryLib}.

Lemma removeRepoListings_lookup d x k :
  (suffixed k x → repoman (removeRepoListings d x) !! k = None)
  ∧ (¬ suffixed k x → repoman (removeRepoListings d x) !! k = repoman d !! k).
Proof.
  unfold suffixed. cbn. split; intros Hs.
  - apply map_lookup_filter_None. right. intros v _. cbn. by rewrite Hs.
  - destruct (repoman d !! k) as [v|] eqn:E.
    + apply map_lookup_filter_Some. split; [done|]. cbn. by apply not_true_is_false in Hs as ->.
    + apply map_lookup_filter_None. by left.
Qed.

(** Tearing a node down without its edges. *)
Definition torn (d : db) (x : string) : db :=
  removeRepoListings (DB (tags d) (repoman d) (delete x (manmeta d)) (delete x (refs d))) x.

Lemma refGet_delete d x y : refGet (DB (tags d) (repoman d) (manmeta d) (delete x (refs d))) y = if decide (x = y) then 0%Z else refGet d y.
Proof. unfold refGet. cbn. destruct (decide (x = y)) as [->|Hne]; [by rewrite lookup_delete_eq|by rewrite lookup_delete_ne]. Qed.

Lemma refGet_put d x n y : refGet (refPut d x n) y = if decide (x = y) then n else refGet d y.
Proof. unfold refGet. cbn. destruct (decide (x = y)) as [->|Hne]; [by rewrite lookup_insert_eq|by rewrite lookup_insert_ne]. Qed.

Lemma torn_collects d x : manmeta d !! x ≠ None → collects d (torn d x) [x].
Proof.
  intros Hx. assert (∀ y, refGet (torn d x) y = if decide (x = y) then 0%Z else refGet d y) as Hr by (intros y; apply refGet_delete).
  constructor; cbn [torn removeRepoListings tags manmeta].
  - done.
  - apply delete_subseteq.
  - intros y Hy Hn. destruct (decide (x = y)) as [->|Hne]; [|rewrite lookup_delete_ne in Hn by done; destruct Hy; congruence].
    split; [by left|]. intros k. apply removeRepoListings_lookup.
  - intros k. destruct (decide (suffixed k x)) as [Hs|Hs].
    + right. split; [by apply removeRepoListings_lookup|]. exists x. split_and!; [done|by apply not_eq_None_Some|]. apply lookup_delete_eq.
    + left. by apply (removeRepoListings_lookup (DB (tags d) (repoman d) (delete x (manmeta d)) (delete x (refs d))) x k).
  - intros y ->%list_elem_of_singleton. split; [apply lookup_delete_eq|]. rewrite Hr. by rewrite decide_True.
  - intros y Hy. rewrite Hr. by destruct (decide (x = y)).
  - intros y Hy. rewrite Hr. destruct (decide (x = y)) as [->|]; [by left|done].
Qed.

(** A digest that is no node of the graph. *)
Lemma leaf_collects d x : manmeta d !! x = None → collects d (DB (tags d) (repoman d) (manmeta d) (delete x (refs d))) [x].
Proof.
  intros Hx. constructor; cbn [tags manmeta repoman]; try done.
  - intros y [n Hn] ?. congruence.
  - by left.
  - intros y ->%list_elem_of_singleton. split; [done|]. rewrite refGet_delete. by rewrite decide_True.
  - intros y Hy. rewrite refGet_delete. by destruct (decide (x = y)).
  - intros y Hy. rewrite refGet_delete. destruct (decide (x = y)) as [->|]; [by left|done].
Qed.

(** One reference of several is released. *)
Lemma dec_collects d x : (1 < refGet d x)%Z → collects d (refPut d x (refGet d x - 1)) [].
Proof.
  intros Hx. constructor; cbn [tags manmeta repoman refPut]; try done.
  - intros y [n Hn] ?. congruence.
  - by left.
  - by intros y Hy%elem_of_nil.
  - intros y Hy. rewrite refGet_put. destruct (decide (x = y)) as [->|]; [lia|done].
  - intros y Hy. rewrite refGet_put. destruct (decide (x = y)) as [->|]; [lia|done].
Qed.

(** ** The cascade ends *)

Lemma refDec_shrinks fuel x d td d' td' : refDec fuel x (d, td) = Some (d', td') → manmeta d' ⊆ manmeta d.
Proof.
  revert x d td d' td'. induction fuel as [|fuel IH]; intros x d td d' td'; cbn -[removeRepoListings].
  - destruct (1 <? _)%Z; [by intros [= <- _]|]. destruct (manmeta d !! x); [done|]. by intros [= <- _].
  - destruct (1 <? _)%Z; [by intros [= <- _]|]. destruct (manmeta d !! x) as [n|]; [|by intros [= <- _]].
    set (d1 := removeRepoListings _ x). intros ([d2 td2] & Hf & [= <- _])%bind_Some.
    assert (∀ es d0 td0, foldl (λ o e, o ≫= refDec fuel e) (Some (d0, td0)) es = Some (d2, td2) → manmeta d2 ⊆ manmeta d0) as Hes.
    { induction es as [|e es IHe]; intros d0 td0; cbn [foldl]; [by intros [= -> _]|]. cbn [mbind option_bind].
      destruct (refDec fuel e (d0, td0)) as [[d3 td3]|] eqn:E3; [|intros Hn; exfalso; revert Hn; clear; induction es; [done|by cbn]].
      intros H. etrans; [by eapply IHe|by eapply IH]. }
    etrans; [by eapply Hes|]. apply delete_subseteq.
Qed.

Lemma release_all_None fuel (es : list string) : foldl (λ (o : option (db * list string)) e, o ≫= refDec fuel e) None es = None.
Proof. by induction es. Qed.

Lemma refDec_total fuel x d td : size (manmeta d) ≤ fuel → is_Some (refDec fuel x (d, td)).
Proof.
  revert x d td. induction fuel as [|fuel IH]; intros x d td Hs; cbn -[removeRepoListings].
  - destruct (1 <? _)%Z; [by eexists|]. assert (manmeta d = ∅) as -> by (apply map_size_empty_inv; lia).
    rewrite lookup_empty. by eexists.
  - destruct (1 <? _)%Z; [by eexists|]. destruct (manmeta d !! x) as [n|] eqn:E; [|by eexists].
    set (d1 := removeRepoListings _ x). assert (size (manmeta d1) ≤ fuel) as Hd1.
    { cbn. rewrite map_size_delete_Some by (by eexists). lia. }
    clearbody d1. assert (is_Some (foldl (λ o e, o ≫= refDec fuel e) (Some (d1, td)) (manMeta.Edges n))) as [[d2 td2] H2].
    { clear E Hs. revert d1 td Hd1. induction (manMeta.Edges n) as [|e es IHe]; intros d1 td Hd1; cbn [foldl]; [by eexists|].
      destruct (IH e d1 td Hd1) as [[d3 td3] H3]. cbn [mbind option_bind]. rewrite H3. apply IHe.
      apply refDec_shrinks in H3. apply map_subseteq_size in H3. lia. }
    cbn in H2 |- *. rewrite H2. by eexists.
Qed.

Lemma release_total x dt : is_Some (release x dt).
Proof. destruct dt as [d td]. by apply refDec_total. Qed.

(** ** The cascade keeps the counts *)

Lemma counted_torn d x n P :
  counted d (x :: P) → (refGet d x ≤ 1)%Z → manmeta d !! x = Some n → counted (torn d x) (manMeta.Edges n ++ P).
Proof.
  intros Hc Hx Hn y. change (refGet (torn d x) y) with (refGet (DB (tags d) (repoman d) (manmeta d) (delete x (refs d))) y).
  rewrite refGet_delete. pose proof (Hc x) as Hcx. rewrite occ_app, occ_cons in Hcx. unfold str_eqb in Hcx.
  rewrite bool_decide_eq_true_2 in Hcx by done. pose proof (occ_nonneg x (refers d)). pose proof (occ_nonneg x P).
  assert (∀ z, occ z (refers (torn d x) ++ manMeta.Edges n ++ P) = occ z (refers d ++ P)) as Hz.
  { intros z. apply occ_perm. unfold refers. cbn [torn removeRepoListings tags manmeta]. rewrite (edges_delete (manmeta d) x n) by done.
    rewrite <- !app_assoc. f_equiv. rewrite (Permutation_app_comm (edges_of _)), <- app_assoc, (Permutation_app_comm P), app_assoc.
    by rewrite <- app_assoc. }
  rewrite Hz. destruct (decide (x = y)) as [<-|Hne].
  - rewrite occ_app. lia.
  - rewrite Hc, !occ_app, occ_cons. unfold str_eqb. rewrite bool_decide_eq_false_2 by done. lia.
Qed.

Lemma counted_leaf d x P :
  counted d (x :: P) → (refGet d x ≤ 1)%Z → counted (DB (tags d) (repoman d) (manmeta d) (delete x (refs d))) P.
Proof.
  intros Hc Hx y. rewrite refGet_delete. change (refers (DB _ _ _ _)) with (refers d).
  pose proof (Hc x) as Hcx. pose proof (Hc y) as Hcy. rewrite occ_app, occ_cons in Hcx, Hcy. unfold str_eqb in Hcx, Hcy.
  rewrite bool_decide_eq_true_2 in Hcx by done. pose proof (occ_nonneg x (refers d)). pose proof (occ_nonneg x P).
  rewrite occ_app. destruct (decide (x = y)) as [<-|Hne]; [lia|]. rewrite bool_decide_eq_false_2 in Hcy by done. lia.
Qed.

Lemma counted_dec d x P : counted d (x :: P) → counted (refPut d x (refGet d x - 1)) P.
Proof.
  intros Hc y. rewrite refGet_put. change (refers (refPut _ _ _)) with (refers d).
  pose proof (Hc x) as Hcx. pose proof (Hc y) as Hcy. rewrite occ_app, occ_cons in Hcx, Hcy. unfold str_eqb in Hcx, Hcy.
  rewrite bool_decide_eq_true_2 in Hcx by done. rewrite occ_app. destruct (decide (x = y)) as [<-|Hne]; [lia|].
  rewrite bool_decide_eq_false_2 in Hcy by done. lia.
Qed.

(** The digests torn down are the released one and edges of the graph. *)
Definition within (x : string) (d : db) (new : list string) : Prop := ∀ y, y ∈ new → y = x ∨ y ∈ edges_of (manmeta d).

Lemma refDec_spec fuel x d td d' td' P :
  counted d (x :: P) → refDec fuel x (d, td) = Some (d', td') →
  counted d' P ∧ ∃ new, td' = td ++ new ∧ collects d d' new ∧ within x d new.
Proof.
  revert x d td d' td' P. induction fuel as [|fuel IH]; intros x d td d' td' P Hc; cbn -[removeRepoListings];
    (destruct (Z.ltb_spec 1 (refGet d x)) as [Hx|Hx];
      [intros [= <- <-]; split; [by apply counted_dec|]; exists []; rewrite app_nil_r; split_and!;
        [done|by apply dec_collects|by intros y Hy%elem_of_nil]|]);
    (destruct (manmeta d !! x) as [n|] eqn:E;
      [|intros [= <- <-]; split; [by apply counted_leaf|]; exists [x]; split_and!; [done|by apply leaf_collects|];
        intros y ->%list_elem_of_singleton; by left]); [done|].
  change (removeRepoListings _ x) with (torn d x). intros ([d2 td2] & Hf & [= <- <-])%bind_Some.
  assert (∀ es d0 td0, counted d0 (es ++ P) → foldl (λ o e, o ≫= refDec fuel e) (Some (d0, td0)) es = Some (d2, td2) →
    counted d2 P ∧ ∃ new, td2 = td0 ++ new ∧ collects d0 d2 new ∧ ∀ y, y ∈ new → y ∈ es ∨ y ∈ edges_of (manmeta d0)) as Hes.
  { induction es as [|e es IHe]; intros d0 td0 Hc0; cbn [foldl app].
    - intros [= -> ->]. split; [done|]. exists []. rewrite app_nil_r. split_and!; [done|apply collects_refl|by intros y Hy%elem_of_nil].
    - cbn [mbind option_bind]. destruct (refDec fuel e (d0, td0)) as [[d3 td3]|] eqn:E3; [|by rewrite release_all_None].
      intros H. destruct (IH _ _ _ _ _ _ Hc0 E3) as (Hc3 & n1 & -> & Hcol1 & Hw1).
      destruct (IHe _ _ Hc3 H) as (Hc2 & n2 & -> & Hcol2 & Hw2). split; [done|]. exists (n1 ++ n2).
      split; [by rewrite app_assoc|]. split; [by eapply collects_trans|].
      intros y [Hy|Hy]%elem_of_app.
      + destruct (Hw1 y Hy) as [->|?]; [left; by left|by right].
      + destruct (Hw2 y Hy) as [?|(z & m & Hz & Hym)%elem_of_edges]; [left; by right|]. right. apply elem_of_edges.
        exists z, m. split; [|done]. eapply lookup_weaken; [done|apply (c_manmeta _ _ _ Hcol1)]. }
  destruct (Hes _ _ _ (counted_torn _ _ _ _ Hc Hx E) Hf) as (Hc2 & new & -> & Hcol & Hw). split; [done|].
  exists (new ++ [x]). split; [by rewrite app_assoc|].
  assert (collects d d2 ([x] ++ new)) as Hall by (eapply collects_trans; [apply torn_collects; congruence|exact Hcol]).
  split.
  - destruct Hall as [h1 h2 h3 h4 h5 h6 h7]. assert (∀ y, y ∈ new ++ [x] ↔ y ∈ [x] ++ new) as Heq by (intros y; rewrite !elem_of_app; tauto).
    constructor; try done; [intros y Hy Hn; rewrite Heq; by apply h3|intros y; rewrite Heq; apply h5|intros y; rewrite Heq; apply h7].
  - intros y [Hy|Hy]%elem_of_app; [|left; by apply list_elem_of_singleton in Hy].
    right. destruct (Hw y Hy) as [Hye|(z & m & Hz & Hym)%elem_of_edges]; apply elem_of_edges; [by exists x, n|].
    cbn [torn removeRepoListings manmeta] in Hz. apply lookup_delete_Some in Hz as [_ Hz]. by exists z, m.
Qed.

Lemma release_spec x d td d' td' P :
  counted d (x :: P) → release x (d, td) = Some (d', td') →
  counted d' P ∧ ∃ new, td' = td ++ new ∧ collects d d' new ∧ within x d new.
Proof. apply refDec_spec. Qed.
End cascade.

(** * The transactions *)

Section transactions.
Context {RL : RegistryLib}.

(** Counting the references of a new node. *)
Lemma refInc_all es d :
  (∀ x, (0 ≤ refGet d x)%Z) → (∀ x, refGet d x + occ x es < 2 ^ 64)%Z →
  let d' := foldl refInc d es in
  tags d' = tags d ∧ repoman d' = repoman d ∧ manmeta d' = manmeta d ∧ ∀ x, refGet d' x = (refGet d x + occ x es)%Z.
Proof.
  revert d. induction es as [|e es IH]; intros d Hpos Hb; [split_and!; try done; intros x; rewrite occ_nil; cbn [foldl]; lia|].
  cbn [foldl]. assert (∀ x, refGet (refInc d e) x = (refGet d x + (if str_eqb e x then 1 else 0))%Z) as He.
  { intros x. unfold refInc. rewrite refGet_put. unfold str_eqb. destruct (decide (e = x)) as [<-|Hne].
    - rewrite bool_decide_eq_true_2 by done. apply u64_small. specialize (Hb e). specialize (Hpos e). rewrite occ_cons in Hb.
      unfold str_eqb in Hb. rewrite bool_decide_eq_true_2 in Hb by done. pose proof (occ_nonneg e es). lia.
    - rewrite bool_decide_eq_false_2 by done. rewrite Z.add_0_r. done. }
  destruct (IH (refInc d e)) as (H1 & H2 & H3 & H4).
  - intros x. rewrite He. specialize (Hpos x). destruct (str_eqb e x); lia.
  - intros x. rewrite He. specialize (Hb x). rewrite occ_cons in Hb. lia.
  - split_and!; [by rewrite H1|by rewrite H2|by rewrite H3|]. intros x. rewrite H4, He, occ_cons. lia.
Qed.

Lemma counted_nonneg d P x : counted d P → (0 ≤ refGet d x)%Z.
Proof. intros H. rewrite H. apply occ_nonneg. Qed.

(** Room for [n] more references. *)
Definition room (d : db) (n : nat) : Prop := (Z.of_nat (length (refers d)) + Z.of_nat n < 2 ^ 64)%Z.

Lemma room_occ d n x es : room d n → length es ≤ n → (occ x (refers d) + occ x es < 2 ^ 64)%Z.
Proof. unfold room. intros H Hn. pose proof (occ_length x (refers d)). pose proof (occ_length x es). lia. Qed.

(** A tag is moved away from its target. *)
Lemma counted_untag d key old P :
  tags d !! key = Some old → counted d P → counted (DB (delete key (tags d)) (repoman d) (manmeta d) (refs d)) (old :: P).
Proof.
  intros Hk Hc x. change (refGet (DB _ _ _ _) x) with (refGet d x). rewrite Hc. apply occ_perm. unfold refers. cbn.
  rewrite <- (map_to_list_delete (tags d) key old) by done. cbn. rewrite <- app_assoc. by rewrite <- !Permutation_middle, <- app_assoc.
Qed.

Lemma counted_tag d key x P :
  tags d !! key = None → (∀ y, refGet d y + 1 < 2 ^ 64)%Z → counted d P →
  counted (refInc (DB (<[key := x]> (tags d)) (repoman d) (manmeta d) (refs d)) x) P.
Proof.
  intros Hk Hb Hc. destruct (refInc_all [x] (DB (<[key := x]> (tags d)) (repoman d) (manmeta d) (refs d))) as (_ & _ & _ & H4).
  - intros y. by apply (counted_nonneg d P).
  - intros y. rewrite occ_cons, occ_nil. specialize (Hb y). change (refGet (DB _ _ _ _) y) with (refGet d y).
    destruct (str_eqb x y); lia.
  - intros y. cbn [foldl] in H4. rewrite H4. change (refGet (DB _ _ _ _) y) with (refGet d y). rewrite Hc, <- occ_app.
    apply occ_perm. unfold refers. cbn. rewrite map_to_list_insert by done. cbn. rewrite Permutation_app_comm. done.
Qed.

(** The state between the counting of a new target and the release of the old one. *)
Lemma setTag_spec repo tag x d d' new :
  counted d [] → room d 1 → tags d !! (repo +:+ nul +:+ tag) ≠ Some "" → setTag repo tag x (d, []) = Some (d', new) →
  ∃ d1, tags d1 = <[repo +:+ nul +:+ tag := x]> (tags d) ∧ repoman d1 = repoman d ∧ manmeta d1 = manmeta d
    ∧ counted d' [] ∧ collects d1 d' new ∧ ∀ y, y ∈ new → y ∈ refers d.
Proof.
  intros Hc Hr Hne. set (key := repo +:+ nul +:+ tag). assert (∀ y, refGet d y + 1 < 2 ^ 64)%Z as Hb.
  { intros y. rewrite Hc, app_nil_r. pose proof (occ_length y (refers d)). unfold room in Hr. lia. }
  unfold setTag. fold key in Hne |- *. destruct (tags d !! key) as [old|] eqn:Hk.
  - destruct (old =? x) eqn:Hx.
    + apply str_eqb_eq in Hx as ->. intros [= <- <-]. exists d. rewrite insert_id by done.
      split_and!; try done; [apply collects_refl|by intros y Hy%elem_of_nil].
    + set (d1 := refInc (DB (<[key := x]> (tags d)) (repoman d) (manmeta d) (refs d)) x).
      assert (counted d1 [old]) as Hc1.
      { pose proof (counted_tag (DB (delete key (tags d)) (repoman d) (manmeta d) (refs d)) key x [old] (lookup_delete_eq _ _) Hb
          (counted_untag d key old [] Hk Hc)) as H1. cbn [tags] in H1. rewrite insert_delete_eq in H1. exact H1. }
      destruct (old =? "") eqn:He.
      { by apply str_eqb_eq in He as ->. }
      intros H. destruct (release_spec _ _ _ _ _ _ Hc1 H) as (Hc' & n & -> & Hcol & Hw). exists d1.
      split_and!; try done. intros y Hy. apply elem_of_refers. destruct (Hw y Hy) as [->|(z & m & Hz & Hym)%elem_of_edges].
      * left. by exists key.
      * right. by exists z, m.
  - intros [= <- <-]. eexists. split_and!; [| | |by apply counted_tag|apply collects_refl|by intros y Hy%elem_of_nil]; done.
Qed.
End transactions.

(** * Canonical digests *)

(** The laws of SHA-256 in hexadecimal. *)
Class RegistryLibOk (RL : RegistryLib) := sha256_hex_ok : ∀ b,
  String.length (sha256_hex b) = 64 ∧ all_hex (sha256_hex b) = true ∧ ToLower (sha256_hex b) = sha256_hex b.

(** Written in lower case. *)
Definition canonical (x : string) : Prop := ∃ h, parseDigest x = Some h ∧ x = "sha256:" +:+ h.

(** A name without the separator of the keys. *)
Definition plain (repo : string) : Prop := (Cut repo "000").2 = false.

Lemma length_ToLower s : String.length (ToLower s) = String.length s.
Proof. induction s as [|c s IH]; cbn; [done|]. by rewrite IH. Qed.

Lemma parse_length x h : parseDigest x = Some h → String.length h = 64.
Proof.
  unfold parseDigest. destruct (Cut x ":") as [[algo h0] ok]. destruct (_ || _ || _) eqn:E; [done|].
  destruct (all_hex h0); [|done]. intros [= <-]. rewrite length_ToLower.
  apply orb_false_iff in E as [_ E]. apply negb_false_iff, Nat.eqb_eq in E. done.
Qed.

Lemma canonical_length x : canonical x → String.length x = 71.
Proof. intros (h & Hh & ->). rewrite length_string_app, (parse_length _ _ Hh). done. Qed.

Lemma canonical_inj x y : canonical x → canonical y → parseDigest x = parseDigest y → x = y.
Proof. intros (h & Hh & ->) (h' & Hh' & ->) Heq. congruence. Qed.

Lemma canonical_not_empty x : canonical x → x ≠ "".
Proof. by intros (h & _ & ->). Qed.

Lemma digest_canonical {RL : RegistryLib} {RLk : RegistryLibOk RL} b :
  canonical (digest_of b) ∧ parseDigest (digest_of b) = Some (sha256_hex b).
Proof.
  assert (parseDigest (digest_of b) = Some (sha256_hex b)) as H; [|split; [by eexists|done]].
  destruct (sha256_hex_ok b) as (Hl & Hh & Hlow). unfold parseDigest, digest_of.
  assert (Cut ("sha256:" +:+ sha256_hex b) ":" = ("sha256", sha256_hex b, true)) as -> by done.
  by rewrite Hl, Hh, Hlow.
Qed.

Lemma app_inj_length a b x y : String.length x = String.length y → a +:+ x = b +:+ y → a = b ∧ x = y.
Proof.
  intros Hl. revert b. induction a as [|c a IH]; intros b H.
  - destruct b as [|c' b]; [done|]. apply (f_equal String.length) in H. rewrite !length_string_app in H. cbn in H. lia.
  - destruct b as [|c' b].
    + apply (f_equal String.length) in H. rewrite !length_string_app in H. cbn in H. lia.
    + rewrite !string_cons_app in H. injection H as -> H. destruct (IH b H) as [-> ->]. done.
Qed.

Lemma key_inj a b x y : canonical x → canonical y → a +:+ nul +:+ x = b +:+ nul +:+ y → a = b ∧ x = y.
Proof.
  intros Hx%canonical_length Hy%canonical_length H.
  destruct (app_inj_length a b (nul +:+ x) (nul +:+ y)) as [-> Hxy]; [rewrite !length_string_app; lia|done|].
  split; [done|]. unfold nul in Hxy. rewrite !string_cons_app, !string_nil_app in Hxy. by injection Hxy.
Qed.

Lemma suffixed_key repo x y : canonical x → canonical y → suffixed (repo +:+ nul +:+ x) y → x = y.
Proof. intros Hx Hy [p Hp]%HasSuffix_true. by destruct (key_inj _ _ _ _ Hx Hy Hp). Qed.

Lemma tag_key_inj a b x y : plain a → plain b → a +:+ nul +:+ x = b +:+ nul +:+ y → a = b ∧ x = y.
Proof.
  assert (∀ p z, plain p → Cut (p +:+ nul +:+ z) "000" = (p, z, true)) as Hcut.
  { induction p as [|c a' IH]; intros z Hp; [done|]. rewrite string_cons_app. cbn. unfold plain in Hp. cbn in Hp.
    destruct (Ascii.eqb c "000"); [done|]. rewrite IH; [done|]. unfold plain. by destruct (Cut a' "000") as [[??]?]. }
  intros Ha Hb H. pose proof (Hcut a x Ha) as H1. rewrite H, (Hcut b y Hb) in H1. by injection H1.
Qed.

Section blobs.
Context {RL : RegistryLib}.

Lemma Has_lookup x h s : parseDigest x = Some h → Blobs.Has x s = true ↔ is_Some (s !! h).
Proof. intros Hx. unfold Blobs.Has. rewrite Hx. apply bool_decide_eq_true. Qed.

Lemma sweep_lookup new s h :
  sweepBlobs new s !! h = None ∧ (∃ y, y ∈ new ∧ parseDigest y = Some h)
  ∨ sweepBlobs new s !! h = s !! h ∧ ∀ y, y ∈ new → parseDigest y ≠ Some h.
Proof.
  revert s. induction new as [|y new IH]; intros s; [right; split; [done|]; by intros y Hy%elem_of_nil|].
  cbn [sweepBlobs foldl]. destruct (IH (Blobs.Delete y s)) as [[H1 (z & Hz & Hzh)]|[H1 H2]].
  - left. split; [exact H1|]. exists z. split; [by right|done].
  - unfold sweepBlobs in H1. rewrite H1. unfold Blobs.Delete. destruct (parseDigest y) as [h'|] eqn:Hy.
    + destruct (decide (h' = h)) as [->|Hne].
      * left. split; [by rewrite lookup_delete_eq|]. exists y. split; [by left|done].
      * right. split; [by rewrite lookup_delete_ne|]. intros z [->|Hz]%elem_of_cons; [congruence|by apply H2].
    + right. split; [done|]. intros z [->|Hz]%elem_of_cons; [congruence|by apply H2].
Qed.

Lemma sweep_has new s x :
  canonical x → (∀ y, y ∈ new → canonical y) → Blobs.Has x (sweepBlobs new s) = true ↔ Blobs.Has x s = true ∧ x ∉ new.
Proof.
  intros Hx Hc. destruct Hx as (h & Hh & Hxh). rewrite !(Has_lookup x h) by done.
  destruct (sweep_lookup new s h) as [[-> (y & Hy & Hyh)]|[-> Hn]]; split.
  - by intros [? [=]].
  - intros [_ Hnx]. destruct Hnx. replace x with y; [done|]. apply canonical_inj; [by apply Hc|by exists h|congruence].
  - intros Hs. split; [done|]. intros Hin. by apply (Hn x Hin).
  - by intros [Hs _].
Qed.

Lemma commit_lookup b h s h' :
  Blobs.commit b h s !! h' = s !! h' ∨ h' = h ∧ s !! h' = None ∧ Blobs.commit b h s !! h' = Some b.
Proof.
  unfold Blobs.commit. destruct (s !! h) as [b0|] eqn:E; [by left|].
  destruct (decide (h' = h)) as [->|Hne]; [right; by rewrite lookup_insert_eq|left; by rewrite lookup_insert_ne].
Qed.

Lemma commit_has b h s x : Blobs.Has x s = true → Blobs.Has x (Blobs.commit b h s) = true.
Proof.
  unfold Blobs.Has. destruct (parseDigest x) as [h'|]; [|done]. rewrite !bool_decide_eq_true.
  destruct (commit_lookup b h s h') as [->|(_ & _ & ->)]; [done|by eexists].
Qed.

Lemma commit_has_self b h x s : parseDigest x = Some h → Blobs.Has x (Blobs.commit b h s) = true.
Proof.
  intros Hx. apply (Has_lookup _ _ _ Hx). unfold Blobs.commit. destruct (s !! h) eqn:E; [by rewrite E|by rewrite lookup_insert_eq].
Qed.
End blobs.

(** * The invariant *)

Section invariant.
Context {RL : RegistryLib}.

(** The graph is closed, and every node, edge and name stands for a blob. *)
Record linked (d : db) (s : gmap string string) : Prop := {
  l_nodes : ∀ x n, manmeta d !! x = Some n → canonical x ∧ Blobs.Has x s = true
    ∧ ∀ e, e ∈ manMeta.Edges n → canonical e ∧ Blobs.Has e s = true ∧ (manMeta.Index n = true → is_Some (manmeta d !! e));
  l_listed : ∀ k mt, repoman d !! k = Some mt → ∃ repo x, k = repo +:+ nul +:+ x ∧ is_Some (manmeta d !! x);
  l_tags : ∀ k x, tags d !! k = Some x → is_Some (manmeta d !! x)
    ∧ ∃ repo tag, plain repo ∧ k = repo +:+ nul +:+ tag ∧ is_Some (repoman d !! (repo +:+ nul +:+ x));
  l_blobs : ∀ h b, s !! h = Some b → sha256_hex b = h
}.

Lemma linked_canonical d s x : linked d s → x ∈ refers d → canonical x.
Proof.
  intros L [[k Hk]|(y & n & Hy & Hx)]%elem_of_refers.
  - destruct (l_tags _ _ L k x Hk) as [[n Hn] _]. by destruct (l_nodes _ _ L x n Hn).
  - destruct (l_nodes _ _ L y n Hy) as (_ & _ & He). by destruct (He x Hx).
Qed.

Lemma collects_refers d d' new x : collects d d' new → x ∈ refers d' → x ∈ refers d.
Proof.
  intros C. rewrite !elem_of_refers. intros [[k Hk]|(y & n & Hy & Hx)].
  - left. exists k. eapply lookup_weaken; [done|apply (c_tags _ _ _ C)].
  - right. exists y, n. split; [|done]. eapply lookup_weaken; [done|apply (c_manmeta _ _ _ C)].
Qed.

(** Deleting the digests that were torn down keeps it. *)
Lemma linked_swept d d' new s :
  linked d s → counted d' [] → collects d d' new → (∀ y, y ∈ new → canonical y) → linked d' (sweepBlobs new s).
Proof.
  intros L Hc C Hnew.
  assert (∀ x, x ∈ refers d' → x ∉ new) as Hkept.
  { intros x Hx Hn. destruct (c_new _ _ _ C x Hn) as [_ H0]. rewrite Hc, app_nil_r in H0. by apply occ_zero in H0. }
  assert (∀ x, is_Some (manmeta d !! x) → x ∈ refers d' → is_Some (manmeta d' !! x)) as Hnode.
  { intros x Hx Hr. destruct (manmeta d' !! x) as [n|] eqn:E; [by eexists|]. destruct (c_torn _ _ _ C x Hx E) as [Hn _]. by destruct (Hkept x Hr). }
  assert (∀ x, is_Some (manmeta d' !! x) → x ∉ new) as Hnot.
  { intros x [n Hn] Hin. destruct (c_new _ _ _ C x Hin) as [E _]. congruence. }
  constructor.
  - intros x n Hx. pose proof (lookup_weaken _ _ _ _ Hx (c_manmeta _ _ _ C)) as Hxd.
    destruct (l_nodes _ _ L x n Hxd) as (Hcan & Hb & He). split; [done|].
    split; [apply sweep_has; [done|done|]; split; [done|]; apply Hnot; by eexists|].
    intros e Hen. destruct (He e Hen) as (Hce & Hbe & Hie). assert (e ∈ refers d') as Her by (apply elem_of_refers; right; by exists x, n).
    split_and!; [done|apply sweep_has; [done|done|]; split; [done|by apply Hkept]|]. intros Hi. by apply Hnode; [apply Hie|].
  - intros k mt Hk. destruct (c_repoman _ _ _ C k) as [Heq|[Heq _]]; [|congruence]. rewrite Hk in Heq. symmetry in Heq.
    destruct (l_listed _ _ L k mt Heq) as (repo & x & -> & Hx). exists repo, x. split; [done|].
    destruct (manmeta d' !! x) as [n|] eqn:E; [by eexists|]. destruct (c_torn _ _ _ C x Hx E) as [_ Hno].
    rewrite Hno in Hk; [done|]. apply HasSuffix_app.
  - intros k x Hk. pose proof (lookup_weaken _ _ _ _ Hk (c_tags _ _ _ C)) as Hkd.
    destruct (l_tags _ _ L k x Hkd) as [Hx (repo & tag & Hp & -> & Hl)].
    assert (is_Some (manmeta d' !! x)) as Hx' by (apply Hnode; [done|]; apply elem_of_refers; left; by eexists).
    split; [done|]. exists repo, tag. split_and!; [done|done|].
    destruct (c_repoman _ _ _ C (repo +:+ nul +:+ x)) as [->|[_ (y & Hs & [m Hy] & Hy')]]; [done|].
    destruct Hx as [n Hn]. destruct (l_nodes _ _ L x n Hn) as [Hcx _]. destruct (l_nodes _ _ L y m Hy) as [Hcy _].
    apply (suffixed_key _ _ _ Hcx Hcy) in Hs as ->. destruct Hx'. congruence.
  - intros h b Hb. destruct (sweep_lookup new s h) as [[Hn _]|[Hn _]]; [congruence|]. rewrite Hn in Hb. by apply (l_blobs _ _ L).
Qed.

(** Forgetting a tag is part of a collection. *)
Lemma untag_collects d key : collects d (DB (delete key (tags d)) (repoman d) (manmeta d) (refs d)) [].
Proof.
  constructor; cbn [tags manmeta repoman]; try done; [apply delete_subseteq| |by left|by intros x Hx%elem_of_nil].
  intros x [n Hn] ?. congruence.
Qed.

(** One tag is removed and its target released. *)
Lemma untag_spec d td key old d' td' :
  counted d [] → tags d !! key = Some old → release old (DB (delete key (tags d)) (repoman d) (manmeta d) (refs d), td) = Some (d', td') →
  counted d' [] ∧ ∃ new, td' = td ++ new ∧ collects d d' new ∧ ∀ y, y ∈ new → y ∈ refers d.
Proof.
  intros Hc Hk H. destruct (release_spec _ _ _ _ _ [] (counted_untag d key old [] Hk Hc) H) as (Hc' & new & -> & Hcol & Hw).
  split; [done|]. exists new. split; [done|]. split; [exact (collects_trans _ _ _ [] new (untag_collects d key) Hcol)|].
  intros y Hy. apply elem_of_refers. destruct (Hw y Hy) as [->|(z & m & Hz & Hym)%elem_of_edges]; [left; by exists key|right; by exists z, m].
Qed.

(** The release of a digest keeps the tags. *)
Lemma release_tags x d td d' td' : release x (d, td) = Some (d', td') → tags d' = tags d.
Proof.
  unfold release. generalize (size (manmeta (d, td).1)). intros fuel. revert x d td d' td'.
  induction fuel as [|fuel IH]; intros x d td d' td'; cbn -[removeRepoListings];
    (destruct (1 <? _)%Z; [by intros [= <- _]|]); (destruct (manmeta d !! x) as [n|]; [|by intros [= <- _]]); [done|].
  intros ([d2 td2] & Hf & [= <- _])%bind_Some. change (tags d) with (tags (removeRepoListings (DB (tags d) (repoman d) (delete x (manmeta d)) (delete x (refs d))) x)).
  revert Hf. generalize (removeRepoListings (DB (tags d) (repoman d) (delete x (manmeta d)) (delete x (refs d))) x) as d1. revert td.
  induction (manMeta.Edges n) as [|e es IHe]; intros td d1; cbn [foldl]; [by intros [= -> _]|]. cbn [mbind option_bind].
  destruct (refDec fuel e (d1, td)) as [[d3 td3]|] eqn:E3; [|by rewrite release_all_None].
  intros H. rewrite (IHe _ _ H). by eapply IH.
Qed.

Lemma delete_tx_spec keys x d td d' td' :
  counted d [] → NoDup keys → (∀ k, k ∈ keys → tags d !! k = Some x) →
  foldl (untag_key x) (Some (d, td)) keys = Some (d', td') →
  counted d' [] ∧ ∃ new, td' = td ++ new ∧ collects d d' new ∧ ∀ y, y ∈ new → y ∈ refers d.
Proof.
  revert d td. induction keys as [|k keys IH]; intros d td Hc Hnd Hk; cbn [foldl].
  { intros [= -> ->]. split; [done|]. exists []. rewrite app_nil_r. split_and!; [done|apply collects_refl|by intros y Hy%elem_of_nil]. }
  apply NoDup_cons in Hnd as [Hkn Hnd]. cbn [untag_key mbind option_bind].
  destruct (release x _) as [[d1 td1]|] eqn:E1.
  2: { intros H. exfalso. revert H. clear. induction keys; [done|by cbn]. }
  intros H. destruct (untag_spec _ _ _ _ _ _ Hc (Hk k ltac:(by left)) E1) as (Hc1 & n1 & -> & C1 & Hw1).
  destruct (IH d1 (td ++ n1)) as (Hc' & n2 & -> & C2 & Hw2); [done|done| |done|].
  { intros k' Hk'. rewrite (release_tags _ _ _ _ _ E1). cbn. rewrite lookup_delete_ne by (by intros ->). apply Hk. by right. }
  split; [done|]. exists (n1 ++ n2). split; [by rewrite app_assoc|]. split; [by eapply collects_trans|].
  intros y [Hy|Hy]%elem_of_app; [by apply Hw1|]. eapply collects_refers; [exact C1|by apply Hw2].
Qed.

Lemma tagged_spec repo x d :
  NoDup (tagged repo x d) ∧ ∀ k, k ∈ tagged repo x d → tags d !! k = Some x.
Proof.
  assert (cursor (tags d) ≡ₚ map_to_list (tags d)) as Hp by apply sort_slice_perm.
  unfold tagged. split.
  - assert (NoDup (cursor (tags d)).*1) as Hnd by (rewrite Hp; apply NoDup_fst_map_to_list).
    revert Hnd. generalize (cursor (tags d)) as l. clear. induction l as [|kv l IH]; cbn; [constructor|]. intros [Hn Hnd]%NoDup_cons.
    destruct (_ && _); [|by apply IH]. cbn. apply NoDup_cons. split; [|by apply IH].
    intros (kv' & Heq & [Hin _]%list_elem_of_In%filter_In)%list_elem_of_fmap. apply Hn. apply list_elem_of_fmap. exists kv'. split; [done|by apply list_elem_of_In].
  - intros k ([k' v] & -> & [Hin Hb]%list_elem_of_In%filter_In)%list_elem_of_fmap. apply andb_prop in Hb as [_ Hv%str_eqb_eq]. cbn in Hv. subst v.
    apply list_elem_of_In in Hin. rewrite Hp in Hin. by apply elem_of_map_to_list in Hin.
Qed.
End invariant.

(** * Every operation keeps the invariant *)

Section operations.
Context {RL : RegistryLib} {RLk : RegistryLibOk RL}.

(** The digests a body names are written in lower case. *)
Definition lower_case (contentType body : string) : Prop :=
  ∀ pm meta, unmarshalManifest body = Some pm → meta_of contentType pm = Some meta → ∀ e, e ∈ manMeta.Edges meta → canonical e.

(** The references a body adds. *)
Definition references (contentType body : string) : nat :=
  match unmarshalManifest body ≫= meta_of contentType with Some meta => length (manMeta.Edges meta) | None => 0 end.

Lemma linked_ext d d1 s :
  tags d1 = tags d → repoman d1 = repoman d → manmeta d1 = manmeta d → linked d s → linked d1 s.
Proof. intros Ht Hr Hm L. constructor; rewrite ?Ht, ?Hr, ?Hm; apply L. Qed.

Lemma linked_write b s d : linked d s → linked d (Blobs.Write b s).
Proof.
  intros L. constructor; [|apply (l_listed _ _ L)|apply (l_tags _ _ L)|].
  - intros x n Hx. destruct (l_nodes _ _ L x n Hx) as (Hc & Hb & He). split_and!; [done|by apply commit_has|].
    intros e Hen. destruct (He e Hen) as (? & ? & ?). split_and!; [done|by apply commit_has|done].
  - intros h c Hc. unfold Blobs.Write in Hc. destruct (commit_lookup b (sha256_hex b) s h) as [Heq|(-> & _ & Heq)]; rewrite Heq in Hc.
    + by apply (l_blobs _ _ L).
    + by injection Hc as ->.
Qed.

(** A new node whose references are there, and counted. *)
Lemma node_linked d s x meta :
  linked d s → counted d [] → room d (length (manMeta.Edges meta)) → canonical x → Blobs.Has x s = true → manmeta d !! x = None →
  (∀ e, e ∈ manMeta.Edges meta → canonical e ∧ Blobs.Has e s = true ∧ (manMeta.Index meta = true → is_Some (manmeta d !! e))) →
  let d' := foldl refInc (DB (tags d) (repoman d) (<[x := meta]> (manmeta d)) (refs d)) (manMeta.Edges meta) in
  tags d' = tags d ∧ repoman d' = repoman d ∧ manmeta d' = <[x := meta]> (manmeta d)
  ∧ linked d' s ∧ counted d' [] ∧ length (refers d') = (length (manMeta.Edges meta) + length (refers d))%nat.
Proof.
  intros L Hc Hr Hx Hb Hn He. set (d0 := DB (tags d) (repoman d) (<[x := meta]> (manmeta d)) (refs d)). cbv zeta.
  destruct (refInc_all (manMeta.Edges meta) d0) as (H1 & H2 & H3 & H4).
  { intros y. by apply (counted_nonneg d []). }
  { intros y. change (refGet d0 y) with (refGet d y). rewrite Hc, app_nil_r. by eapply room_occ. }
  assert (refers (foldl refInc d0 (manMeta.Edges meta)) ≡ₚ manMeta.Edges meta ++ refers d) as Hp.
  { unfold refers. rewrite H1, H3. cbn. rewrite edges_insert by done. rewrite app_assoc, (Permutation_app_comm _ (manMeta.Edges meta)).
    by rewrite <- app_assoc. }
  split_and!; [done..| | |by rewrite Hp, length_app].
  - apply (linked_ext d0); [done..|]. constructor; cbn [d0 tags repoman manmeta].
    + intros y n Hy. destruct (decide (x = y)) as [<-|Hne].
      * rewrite lookup_insert_eq in Hy. injection Hy as <-. split_and!; [done..|]. intros e Hen. destruct (He e Hen) as (? & ? & Hi).
        split_and!; [done..|]. intros Hix. specialize (Hi Hix). destruct (decide (x = e)) as [<-|]; [rewrite lookup_insert_eq; by eexists|by rewrite lookup_insert_ne].
      * rewrite lookup_insert_ne in Hy by done. destruct (l_nodes _ _ L y n Hy) as (Hcy & Hby & Hey). split_and!; [done..|].
        intros e Hen. destruct (Hey e Hen) as (? & ? & Hi). split_and!; [done..|]. intros Hix. specialize (Hi Hix).
        destruct (decide (x = e)) as [<-|]; [rewrite lookup_insert_eq; by eexists|by rewrite lookup_insert_ne].
    + intros k mt Hk. destruct (l_listed _ _ L k mt Hk) as (repo & y & -> & Hy). exists repo, y. split; [done|].
      destruct (decide (x = y)) as [<-|]; [rewrite lookup_insert_eq; by eexists|by rewrite lookup_insert_ne].
    + intros k y Hk. destruct (l_tags _ _ L k y Hk) as [Hy Hl]. split; [|done].
      destruct (decide (x = y)) as [<-|]; [rewrite lookup_insert_eq; by eexists|by rewrite lookup_insert_ne].
    + apply (l_blobs _ _ L).
  - intros y. rewrite H4. change (refGet d0 y) with (refGet d y). rewrite Hc, !app_nil_r.
    rewrite (occ_perm _ _ _ Hp), occ_app. lia.
Qed.

Lemma listing_linked d s repo x mt :
  linked d s → is_Some (manmeta d !! x) → linked (DB (tags d) (<[repo +:+ nul +:+ x := mt]> (repoman d)) (manmeta d) (refs d)) s.
Proof.
  intros L Hx. constructor; cbn [tags repoman manmeta]; [apply (l_nodes _ _ L)| | |apply (l_blobs _ _ L)].
  - intros k mt' Hk. apply lookup_insert_Some in Hk as [[<- _]|[_ Hk]]; [by exists repo, x|by eapply (l_listed _ _ L)].
  - intros k y Hk. destruct (l_tags _ _ L k y Hk) as [Hy (repo' & tag & Hp & -> & Hl)]. split; [done|]. exists repo', tag.
    split_and!; [done..|]. destruct (decide (repo +:+ nul +:+ x = repo' +:+ nul +:+ y)) as [Heq|]; [rewrite Heq, lookup_insert_eq; by eexists|].
    by rewrite lookup_insert_ne.
Qed.

Lemma tag_linked d d1 s repo tag x :
  linked d s → plain repo → is_Some (manmeta d !! x) → is_Some (repoman d !! (repo +:+ nul +:+ x)) →
  tags d1 = <[repo +:+ nul +:+ tag := x]> (tags d) → repoman d1 = repoman d → manmeta d1 = manmeta d → linked d1 s.
Proof.
  intros L Hp Hx Hl Ht Hr Hm. constructor; rewrite ?Ht, ?Hr, ?Hm; [apply (l_nodes _ _ L)|apply (l_listed _ _ L)| |apply (l_blobs _ _ L)].
  intros k y [[<- <-]|[_ Hk]]%lookup_insert_Some; [|by apply (l_tags _ _ L)]. split; [done|]. by exists repo, tag.
Qed.

(** What a validated body refers to is there. *)
Lemma validated_spec repo ct body d s meta :
  linked d s → validated repo ct body d s = inl meta → lower_case ct body →
  references ct body = length (manMeta.Edges meta)
  ∧ ∀ e, e ∈ manMeta.Edges meta → canonical e ∧ Blobs.Has e s = true ∧ (manMeta.Index meta = true → is_Some (manmeta d !! e)).
Proof.
  intros L. unfold validated, lower_case, references. destruct (unmarshalManifest body) as [pm|]; [|done]. cbn [mbind option_bind].
  destruct (meta_of ct pm) as [m|] eqn:Hm; [|done]. intros H Hlow.
  assert (m = meta) as -> by (destruct (manMeta.Index m); [destruct (validateChildren _ _ _)|destruct (forallb _ _)]; congruence).
  split; [done|]. intros e He. pose proof (Hlow pm meta eq_refl Hm e He) as Hc. split; [done|].
  destruct (manMeta.Index meta).
  - destruct (validateChildren repo (manMeta.Edges meta) d) eqn:Hv; [|done]. unfold validateChildren in Hv. rewrite forallb_forall in Hv.
    specialize (Hv e (proj1 (list_elem_of_In _ _) He)). apply bool_decide_eq_true in Hv as [mt Hmt].
    destruct (l_listed _ _ L _ _ Hmt) as (repo' & x & Hk & [n Hx]). destruct (l_nodes _ _ L x n Hx) as (Hcx & Hbx & _).
    destruct (key_inj _ _ _ _ Hc Hcx Hk) as [_ ->]. split; [done|]. intros _. by eexists.
  - destruct (forallb _ _) eqn:Hv; [|done]. rewrite forallb_forall in Hv. split; [|done]. apply Hv. by apply list_elem_of_In.
Qed.

(** PutManifest after its validation: the node and the listing are there, and the tag. *)
Lemma put_tx_spec d s repo ref x meta d' new :
  linked d s → counted d [] → room d (1 + length (manMeta.Edges meta)) → plain repo → canonical x → Blobs.Has x s = true →
  (∀ e, e ∈ manMeta.Edges meta → canonical e ∧ Blobs.Has e s = true ∧ (manMeta.Index meta = true → is_Some (manmeta d !! e))) →
  put_tx repo ref x meta d = Some (d', new) →
  counted d' [] ∧ linked d' (sweepBlobs new s) ∧ is_Some (manmeta d' !! x)
  ∧ repoman d' !! (repo +:+ nul +:+ x) = Some (manMeta.MediaType meta)
  ∧ (ref ≠ "" → parseDigest ref = None → tags d' !! (repo +:+ nul +:+ ref) = Some x).
Proof.
  intros L Hc Hr Hp Hx Hb He. unfold put_tx.
  set (dm := match manmeta d !! x with Some _ => d | None => _ end).
  assert (linked dm s ∧ counted dm [] ∧ is_Some (manmeta dm !! x) ∧ room dm 1) as (Lm & Hcm & Hxm & Hrm).
  { unfold dm. destruct (manmeta d !! x) as [n|] eqn:Hn; [split_and!; [done|done|by rewrite Hn|unfold room in *; lia]|].
    destruct (node_linked d s x meta L Hc) as (_ & _ & H3 & H4 & H5 & H6); [unfold room in *; lia|done..|].
    split_and!; [done|done|rewrite H3, lookup_insert_eq; by eexists|unfold room in *; rewrite H6; lia]. }
  clearbody dm. set (dl := DB (tags dm) (<[repo +:+ nul +:+ x := manMeta.MediaType meta]> (repoman dm)) (manmeta dm) (refs dm)).
  assert (linked dl s) as Ll by by apply listing_linked. assert (counted dl []) as Hcl by exact Hcm.
  assert (repoman dl !! (repo +:+ nul +:+ x) = Some (manMeta.MediaType meta)) as Hl by (cbn; apply lookup_insert_eq).
  destruct (negb (ref =? "") && bool_decide (parseDigest ref = None)) eqn:Href.
  - intros H. destruct (setTag_spec repo ref x dl d' new Hcl Hrm) as (d1 & T1 & R1 & M1 & Hc' & C & Hw); [|done|].
    { intros He0. destruct (l_tags _ _ Ll _ _ He0) as [[n Hn] _]. destruct (l_nodes _ _ Ll _ _ Hn) as [Hcan _]. by apply canonical_not_empty in Hcan. }
    assert (linked d1 s) as L1 by (eapply tag_linked; [exact Ll|done|exact Hxm|by eexists|done..]).
    assert (linked d' (sweepBlobs new s)) as L'.
    { apply (linked_swept d1); [done|done|done|]. intros y Hy. eapply linked_canonical; [exact Ll|by apply Hw]. }
    assert (tags d' !! (repo +:+ nul +:+ ref) = Some x) as Ht.
    { assert (tags d' = tags d1) as ->; [|rewrite T1; apply lookup_insert_eq]. revert H T1. unfold setTag. destruct (tags dl !! _) as [old|] eqn:Ho.
      - destruct (old =? x) eqn:Hox; [intros [= <- _]; apply str_eqb_eq in Hox as ->; intros ->; by rewrite insert_id|].
        destruct (old =? ""); [intros [= <- _] ->; done|]. intros H%release_tags ->. by rewrite H.
      - intros [= <- _] ->. done. }
    destruct (l_tags _ _ L' _ _ Ht) as [Hx' (repo' & tag & Hp' & Hk & Hl')].
    destruct (tag_key_inj _ _ _ _ Hp Hp' Hk) as [<- <-].
    split_and!; [done|done|done| |done]. destruct (c_repoman _ _ _ C (repo +:+ nul +:+ x)) as [->|[Hn _]]; [by rewrite R1|].
    rewrite Hn in Hl'. by destruct Hl'.
  - intros [= <- <-]. split_and!; [done|exact Ll|exact Hxm|exact Hl|]. intros Hne Hd. apply str_eqb_neq in Hne.
    rewrite Hne, bool_decide_eq_true_2 in Href by done. done.
Qed.

(** ** The states of a registry *)

(** What calls of the registry lead to, each run to its end before the next: uploads,
    pushes of manifests, removals of tags and of manifests.  Repository names have no
    separator in them, digests are in lower case, and the references fit a uint64. *)
Inductive reachable : db → gmap string string → Prop :=
| reachable_new : reachable empty_db ∅
| reachable_upload d s b : reachable d s → reachable d (Blobs.commit b (sha256_hex b) s)
| reachable_put d s repo ref ct body d' s' r :
    reachable d s → plain repo → lower_case ct body → room d (1 + references ct body) →
    PutManifest repo ref ct body d s = Some (d', s', r) → reachable d' s'
| reachable_untag d s repo tag d' s' : reachable d s → UntagAndSweep repo tag d s = Some (d', s') → reachable d' s'
| reachable_delete d s repo x d' s' r : reachable d s → DeleteManifest repo x d s = Some (d', s', r) → reachable d' s'.

Lemma linked_new : linked empty_db ∅ ∧ counted empty_db [].
Proof. split; [constructor; intros ? ? H; cbn in H; by rewrite lookup_empty in H|]. intros x. done. Qed.

Lemma put_spec d s repo ref ct body d' s' r :
  linked d s → counted d [] → plain repo → lower_case ct body → room d (1 + references ct body) →
  PutManifest repo ref ct body d s = Some (d', s', r) → linked d' s' ∧ counted d' []
  ∧ ∀ x, r = inl x → x = digest_of body ∧ ∃ meta, validated repo ct body d s = inl meta ∧ is_Some (manmeta d' !! x)
      ∧ repoman d' !! (repo +:+ nul +:+ x) = Some (manMeta.MediaType meta)
      ∧ (ref ≠ "" → parseDigest ref = None → tags d' !! (repo +:+ nul +:+ ref) = Some x).
Proof.
  intros L Hc Hp Hlow Hr. unfold PutManifest. destruct (validated repo ct body d s) as [meta|e] eqn:Hv; [|by intros [= <- <- <-]].
  destruct (validated_spec _ _ _ _ _ _ L Hv Hlow) as [Hlen He]. intros ([d1 new] & Htx & [= <- <- <-])%bind_Some.
  destruct (digest_canonical body) as [Hcan Hpd].
  destruct (put_tx_spec d (Blobs.Write body s) repo ref (digest_of body) meta d1 new) as (Hc' & L' & Hx & Hl & Ht); try done.
  - by apply linked_write.
  - by rewrite <- Hlen.
  - by apply commit_has_self.
  - intros e Hen. destruct (He e Hen) as (? & ? & ?). split_and!; [done|by apply commit_has|done].
  - split; [done|]. split; [done|]. intros x [= <-]. split; [done|]. by exists meta.
Qed.

Lemma untag_ok d s repo tag d' new :
  linked d s → counted d [] → untag_tx repo tag d = Some (d', new) →
  counted d' [] ∧ collects d d' new ∧ ∀ y, y ∈ new → y ∈ refers d.
Proof.
  intros L Hc. unfold untag_tx. destruct (tags d !! _) as [old|] eqn:Hk.
  - intros H. destruct (untag_spec _ _ _ _ _ _ Hc Hk H) as (Hc' & n & -> & C & Hw). by split_and!.
  - intros [= <- <-]. split_and!; [done|apply collects_refl|by intros y Hy%elem_of_nil].
Qed.

Lemma reachable_linked d s : reachable d s → linked d s ∧ counted d [].
Proof.
  induction 1 as [|d s b H [L Hc]|d s repo ref ct body d' s' r H [L Hc] Hp Hlow Hr Hput|d s repo tag d' s' H [L Hc] Hun|d s repo x d' s' r H [L Hc] Hdel].
  - apply linked_new.
  - split; [by apply linked_write|done].
  - by destruct (put_spec _ _ _ _ _ _ _ _ _ L Hc Hp Hlow Hr Hput) as (? & ? & _).
  - apply bind_Some in Hun as ([d1 new] & Htx & [= <- <-]). destruct (untag_ok _ s _ _ _ _ L Hc Htx) as (Hc' & C & Hw).
    split; [|done]. apply (linked_swept d); [done..|]. intros y Hy. by eapply linked_canonical, Hw.
  - unfold DeleteManifest in Hdel. destruct (repoman d !! _); [|by injection Hdel as <- <- _].
    apply bind_Some in Hdel as ([d1 new] & Htx & [= <- <- _]). destruct (tagged_spec repo x d) as [Hnd Hk].
    destruct (delete_tx_spec _ _ _ _ _ _ Hc Hnd Hk Htx) as (Hc' & n & -> & C & Hw).
    split; [|done]. apply (linked_swept d); [done..|]. intros y Hy. by eapply linked_canonical, Hw.
Qed.

(** What a pull of an image needs: the manifest and everything it refers to. *)
Inductive needs (d : db) : string → string → Prop :=
| needs_self x : needs d x x
| needs_edge x n e y : manmeta d !! x = Some n → e ∈ manMeta.Edges n → needs d e y → needs d x y.

Lemma needs_has d s x y : linked d s → Blobs.Has x s = true → canonical x → needs d x y → Blobs.Has y s = true ∧ canonical y.
Proof.
  intros L Hx Hc H. induction H as [|x n e y Hn He _ IH]; [done|]. destruct (l_nodes _ _ L x n Hn) as (_ & _ & Hen).
  destruct (Hen e He) as (? & ? & _). by apply IH.
Qed.

Lemma open_canonical d s x : linked d s → canonical x → Blobs.Has x s = true → ∃ b, Blobs.Open x s = inl b ∧ digest_of b = x.
Proof.
  intros L (h & Hh & Hx) Hb. apply (Has_lookup x h s Hh) in Hb as [b Hb]. exists b. unfold Blobs.Open. rewrite Hh, Hb. split; [done|].
  unfold digest_of. rewrite (l_blobs _ _ L h b Hb). done.
Qed.
End operations.

(** C23: the registry keeps what its tags need.  In every state that uploads, pushes and
    removals reach from an empty registry, a tag of a repository resolves: its manifest is
    read back, with bytes of its digest, and every manifest and blob that it needs,
    directly or through an index, is stored with bytes of its digest.  The operations are
    those of [reachable]: each runs to its end before the next ([sweep_races_with_push]
    shows a push that a removal overtakes), pushed bodies write their digests in lower case
    ([upper_case_is_not_counted] shows one that does not), repository names are without the
    separator of the keys, and the references fit a uint64. *)
Theorem registry_keeps_images (RL : RegistryLib) (RLk : RegistryLibOk RL) (d : db) (s : gmap string string) (repo tag x : string) :
  reachable d s → plain repo → parseDigest tag = None → tags d !! (repo +:+ nul +:+ tag) = Some x →
  (∃ body mt, GetManifest repo tag d s = inl (body, mt, x) ∧ digest_of body = x)
  ∧ ∀ y, needs d x y → ∃ b, Blobs.Open y s = inl b ∧ digest_of b = y.
Proof.
  intros [L Hc]%reachable_linked Hp Hd Ht. destruct (l_tags _ _ L _ _ Ht) as [[n Hn] (repo' & tag' & Hp' & Hk & [mt Hl])].
  destruct (tag_key_inj _ _ _ _ Hp Hp' Hk) as [<- <-]. destruct (l_nodes _ _ L x n Hn) as (Hcan & Hb & _). split.
  - destruct (open_canonical d s x L Hcan Hb) as (b & Hb' & Hdig). exists b, mt. split; [|done]. unfold GetManifest, resolveRef.
    rewrite Hd, Ht. change (default "" (Some x)) with x. destruct (x =? "") eqn:Hx; [apply str_eqb_eq in Hx; by apply canonical_not_empty in Hcan|].
    by rewrite Hl, Hb'.
  - intros y Hy. destruct (needs_has d s x y L Hb Hcan Hy) as [Hby Hcy]. by apply (open_canonical d s y L).
Qed.

(** C25: the collector is exact.  From a state that uploads, pushes and removals reach, the
    removal of a tag ends, again in such a state, and of the blobs with a digest in lower
    case it deletes exactly those that were referred to, by a tag or an edge of the graph
    of manifests, and no longer are.  The states are those of [reachable]: operations one
    after another, pushed bodies with digests in lower case (for others the collector
    deletes what is still referred to, [upper_case_is_not_counted]), repository names
    without the separator, and room for the references in a uint64. *)
Theorem collector_is_exact (RL : RegistryLib) (RLk : RegistryLibOk RL) (d : db) (s : gmap string string) (repo tag : string) :
  reachable d s → ∃ d' s', UntagAndSweep repo tag d s = Some (d', s') ∧ reachable d' s'
    ∧ ∀ y, canonical y → Blobs.Has y s' = true ↔ Blobs.Has y s = true ∧ (y ∈ refers d → y ∈ refers d').
Proof.
  intros Hreach. pose proof (reachable_linked d s Hreach) as [L Hc].
  assert (∃ d' new, untag_tx repo tag d = Some (d', new)) as (d' & new & Htx).
  { unfold untag_tx. destruct (tags d !! _) as [old|]; [|by eexists _, _].
    destruct (release_total old (DB (delete (repo +:+ nul +:+ tag) (tags d)) (repoman d) (manmeta d) (refs d), [])) as [[d' new] ->]. by exists d', new. }
  exists d', (sweepBlobs new s). assert (UntagAndSweep repo tag d s = Some (d', sweepBlobs new s)) as Hu by (unfold UntagAndSweep; by rewrite Htx).
  split; [done|]. split; [by eapply reachable_untag|]. destruct (untag_ok d s repo tag d' new L Hc Htx) as (Hc' & C & Hw).
  intros y Hy. rewrite sweep_has by (done || (intros z Hz; by eapply linked_canonical, Hw)). split; intros [Hb Hr]; (split; [done|]).
  - intros Hyd. destruct (decide (y ∈ refers d')) as [|Hn]; [done|]. destruct Hr. apply (c_all _ _ _ C).
    + rewrite Hc, app_nil_r. apply occ_pos in Hyd. lia.
    + rewrite Hc', app_nil_r. by apply occ_zero.
  - intros Hin. specialize (Hr (Hw y Hin)). destruct (c_new _ _ _ C y Hin) as [_ H0]. rewrite Hc', app_nil_r in H0. by apply occ_zero in H0.
Qed.

(** What is pushed is pulled.  A manifest that PutManifest accepts under a tag is read
    back under the tag and under its digest, with its bytes and media type, if the store
    held no other bytes of the same digest. *)
Theorem pushed_manifest_is_pulled (RL : RegistryLib) (RLk : RegistryLibOk RL) (d : db) (s : gmap string string)
    (repo ref ct body x : string) (d' : db) (s' : gmap string string) :
  reachable d s → plain repo → lower_case ct body → room d (1 + references ct body) → ref ≠ "" → parseDigest ref = None →
  (∀ b, s !! sha256_hex body = Some b → b = body) →
  PutManifest repo ref ct body d s = Some (d', s', inl x) →
  ∃ mt, (∀ pm, unmarshalManifest body = Some pm → mt = (kind_of ct pm).1)
    ∧ GetManifest repo ref d' s' = inl (body, mt, x) ∧ GetManifest repo x d' s' = inl (body, mt, x).
Proof.
  intros Hreach Hp Hlow Hr Href Hd Hsame Hput. pose proof (reachable_linked d s Hreach) as [L Hc].
  destruct (put_spec _ _ _ _ _ _ _ _ _ L Hc Hp Hlow Hr Hput) as (L' & Hc' & Hx).
  destruct (Hx x eq_refl) as (-> & meta & Hv & [n Hn] & Hl & Ht). specialize (Ht Href Hd).
  destruct (l_nodes _ _ L' _ n Hn) as (Hcan & Hb & _). destruct (digest_canonical body) as [_ Hpd].
  assert (Blobs.Open (digest_of body) s' = inl body) as Hopen.
  { unfold Blobs.Open. rewrite Hpd. apply (Has_lookup _ _ _ Hpd) in Hb as [b Hb]. rewrite Hb. f_equal.
    unfold PutManifest in Hput. rewrite Hv in Hput. apply bind_Some in Hput as ([d1 new] & _ & Hput). injection Hput as <- <-.
    destruct (sweep_lookup new (Blobs.Write body s) (sha256_hex body)) as [[Hs _]|[Hs _]]; [congruence|]. rewrite Hs in Hb.
    unfold Blobs.Write in Hb. destruct (commit_lookup body (sha256_hex body) s (sha256_hex body)) as [Heq|(_ & _ & Heq)]; rewrite Heq in Hb;
      [by apply Hsame|congruence]. }
  assert ((digest_of body =? "") = false) as Hne by (apply str_eqb_neq; by apply canonical_not_empty).
  exists (manMeta.MediaType meta). split_and!.
  - intros pm Hpm. unfold validated in Hv. rewrite Hpm in Hv. unfold meta_of in Hv.
    destruct (kind_of ct pm) as [mt index]. cbn.
    destruct index; [destruct (_ || _) in Hv|destruct (existsb _ _) in Hv]; cbn in Hv; try done; case_match; simplify_eq; done.
  - unfold GetManifest, resolveRef. rewrite Hd, Ht. change (default "" (Some (digest_of body))) with (digest_of body). by rewrite Hne, Hl, Hopen.
  - unfold GetManifest, resolveRef. rewrite Hpd. by rewrite Hne, Hl, Hopen.
Qed.

(** * Where the invariant ends *)

(** A small library: a content is its own name, in hexadecimal and filled up with zeros;
    the bodies [m1], [m2] and [mu] name the configuration [c] and the layer [l]. *)
Definition hex_digit (n : nat) : ascii := ascii_of_nat (if n <? 10 then 48 + n else 87 + n)%nat.

Fixpoint hex_of (s : string) : string :=
  match s with
  | "" => ""
  | String c s => let n := nat_of_ascii c in String (hex_digit (n / 16)) (String (hex_digit (n mod 16)) (hex_of s))
  end.

Fixpoint fill (n : nat) (s : string) : string :=
  match n with
  | 0 => ""
  | S n => match s with "" => String "0" (fill n "") | String c s => String c (fill n s) end
  end.

Definition toy_name (s : string) : string := fill 64 (hex_of s).

Definition upper_hex (s : string) : string :=
  "sha256:" +:+ String.string_of_list_ascii ((λ c, if Ascii.eqb c "c" then "C"%char else c) <$> String.list_ascii_of_string s).

Definition descriptor (digest : string) : ociDescriptor.t := ociDescriptor.mk "" digest 0 None.

Definition toy : RegistryLib := {|
  sha256_hex := toy_name;
  unmarshalManifest body :=
    if (body =? "m1") || (body =? "m2")
    then Some (parsedManifest.mk "" (descriptor ("sha256:" +:+ toy_name "c")) [descriptor ("sha256:" +:+ toy_name "l")] [])
    else if body =? "mu" then Some (parsedManifest.mk "" (descriptor ("sha256:" +:+ toy_name "c")) [descriptor (upper_hex (toy_name "l"))] [])
    else None;
  unmarshalPlatform _ := None
|}.

Definition layers : gmap string string := Blobs.commit "l" (toy_name "l") (Blobs.commit "c" (toy_name "c") ∅).

Notation toy_put tag body d s := (@PutManifest toy "app" tag MediaTypeOCIManifest body d s).

(** The push of [m1] as v1, and the registry after it. *)
Definition first_push : option (db * gmap string string * (string + registry_error)) := toy_put "v1" "m1" empty_db layers.
Definition pushed : option (db * gmap string string) := '(d, s, _) ← first_push; Some (d, s).

(** A push that runs between the transaction of a removal and its sweep finds the blobs,
    which the sweep then deletes. *)
Lemma sweep_races_with_push :
  ('(d0, s0) ← pushed;
   '(d1, new) ← untag_tx "app" "v1" d0;
   '(d2, s2, r) ← toy_put "v2" "m2" d1 s0;
   Some (r, tags d2 !! ("app" +:+ nul +:+ "v2"), Blobs.Has ("sha256:" +:+ toy_name "l") (sweepBlobs new s2)))
  = Some (inl (@digest_of toy "m2"), Some (@digest_of toy "m2"), false).
Proof. vm_compute. reflexivity. Qed.

(** A digest in upper case finds the blob but is counted apart from it: the blob goes with
    its last reference in lower case. *)
Lemma upper_case_is_not_counted :
  ('(d0, s0) ← pushed;
   '(d1, s1, r) ← toy_put "v2" "mu" d0 s0;
   '(d2, s2) ← UntagAndSweep "app" "v1" d1 s1;
   Some (r, tags d2 !! ("app" +:+ nul +:+ "v2"), Blobs.Has ("sha256:" +:+ toy_name "l") s2))
  = Some (inl (@digest_of toy "mu"), Some (@digest_of toy "mu"), false).
Proof. vm_compute. reflexivity. Qed.

(** A manifest without a tag is not removed by its deletion. *)
Lemma untagged_is_not_deleted :
  ('(d0, s0, r) ← toy_put "" "m1" empty_db layers;
   '(d1, s1, e) ← DeleteManifest "app" (@digest_of toy "m1") d0 s0;
   Some (e, GetManifest "app" (@digest_of toy "m1") d1 s1))
  = Some (None, inl ("m1", MediaTypeOCIManifest, @digest_of toy "m1")).
Proof. vm_compute. reflexivity. Qed.

(** * Witnesses *)

Lemma toy_digits s : all_hex (hex_of s) = true ∧ ToLower (hex_of s) = hex_of s.
Proof.
  assert (∀ n, n < 16 → is_hex (hex_digit n) = true ∧ ascii_lower (hex_digit n) = hex_digit n) as Hd.
  { intros n Hn. do 16 (destruct n as [|n]; [by split|]). lia. }
  induction s as [|c s [IH1 IH2]]; [done|]. cbn -[hex_digit Nat.div Nat.modulo nat_of_ascii].
  pose proof (nat_ascii_bounded c) as Hb.
  destruct (Hd (nat_of_ascii c / 16)) as [H1 L1]; [apply Nat.Div0.div_lt_upper_bound; lia|].
  destruct (Hd (nat_of_ascii c mod 16)) as [H2 L2]; [apply Nat.mod_upper_bound; lia|].
  by rewrite H1, H2, IH1, L1, L2, IH2.
Qed.

Lemma toy_ok : RegistryLibOk toy.
Proof.
  intros b. change (@sha256_hex toy b) with (fill 64 (hex_of b)). generalize 64 as n. destruct (toy_digits b) as [H1 H2].
  revert H1 H2. generalize (hex_of b) as s. intros s H1 H2 n. revert s H1 H2. induction n as [|n IH]; intros s H1 H2; [done|].
  destruct s as [|c s]; cbn.
  - destruct (IH "" eq_refl eq_refl) as (-> & -> & ->). done.
  - cbn in H1, H2. apply andb_prop in H1 as [Hc H1]. injection H2 as Hl H2. destruct (IH s H1 H2) as (-> & Ha & ->). by rewrite Hc, Ha, Hl.
Qed.

Lemma reachable_layers : @reachable toy empty_db layers.
Proof. apply (@reachable_upload toy empty_db _ "l"), (@reachable_upload toy empty_db _ "c"), (@reachable_new toy). Qed.

Lemma toy_lower_case : @lower_case toy MediaTypeOCIManifest "m1".
Proof.
  intros pm meta Hpm Hm e He. vm_compute in Hpm. injection Hpm as <-. vm_compute in Hm. injection Hm as <-. cbn in He.
  repeat (apply elem_of_cons in He as [->|He]); [..|by apply elem_of_nil in He]; eexists; (split; [vm_compute; reflexivity|reflexivity]).
Qed.

Lemma toy_room : room empty_db (1 + @references toy MediaTypeOCIManifest "m1").
Proof. vm_compute. reflexivity. Qed.

Lemma first_push_runs : match first_push with Some (d, _, inl x) => tags d !! ("app" +:+ nul +:+ "v1") = Some x | _ => False end.
Proof. vm_compute. reflexivity. Qed.

Lemma plain_app : plain "app".
Proof. reflexivity. Qed.

Lemma first_push_reachable d s r : first_push = Some (d, s, r) → @reachable toy d s.
Proof.
  exact (@reachable_put toy _ _ _ _ _ _ d s r reachable_layers plain_app toy_lower_case toy_room).
Qed.

Lemma registry_keeps_images_witness :
  ∃ d s x, pushed = Some (d, s) ∧ tags d !! ("app" +:+ nul +:+ "v1") = Some x
    ∧ ∃ body mt, GetManifest "app" "v1" d s = inl (body, mt, x) ∧ @digest_of toy body = x.
Proof.
  pose proof first_push_runs as Hx. destruct first_push as [[[d s] [x|]]|] eqn:Hput; [|destruct Hx..].
  assert (pushed = Some (d, s)) as Hp by (unfold pushed; rewrite Hput; reflexivity).
  pose proof (first_push_reachable d s (inl x) Hput) as Hr.
  exists d, s, x. split; [exact Hp|]. split; [exact Hx|].
  exact (proj1 (registry_keeps_images toy toy_ok d s "app" "v1" x Hr plain_app eq_refl Hx)).
Defined.

Lemma collector_is_exact_witness :
  ∃ d s d' s', pushed = Some (d, s) ∧ UntagAndSweep "app" "v1" d s = Some (d', s') ∧ @reachable toy d' s'.
Proof.
  pose proof first_push_runs as Hx. destruct first_push as [[[d s] [x|]]|] eqn:Hput; [|destruct Hx..].
  assert (pushed = Some (d, s)) as Hp by (unfold pushed; rewrite Hput; reflexivity).
  pose proof (first_push_reachable d s (inl x) Hput) as Hr.
  destruct (collector_is_exact toy toy_ok d s "app" "v1" Hr) as (d' & s' & Hu & Hr' & _).
  exists d, s, d', s'. split; [exact Hp|]. split; [exact Hu|exact Hr'].
Defined.

Lemma pushed_manifest_is_pulled_witness :
  ∃ d s x mt, pushed = Some (d, s) ∧ GetManifest "app" "v1" d s = inl ("m1", mt, x) ∧ GetManifest "app" x d s = inl ("m1", mt, x).
Proof.
  pose proof first_push_runs as Hx. destruct first_push as [[[d s] [x|]]|] eqn:Hput; [|destruct Hx..].
  assert (pushed = Some (d, s)) as Hp by (unfold pushed; rewrite Hput; reflexivity).
  destruct (pushed_manifest_is_pulled toy toy_ok empty_db layers "app" "v1" MediaTypeOCIManifest "m1" x d s reachable_layers
    plain_app toy_lower_case toy_room) as (mt & _ & H1 & H2).
  - discriminate.
  - reflexivity.
  - intros b Hb. vm_compute in Hb. discriminate Hb.
  - exact Hput.
  - exists d, s, x, mt. split; [exact Hp|]. split; [exact H1|exact H2].
Defined.
