(* ===== verification/RegistryHttp.v ===== *)
(** The registry over HTTP (internal/daemon/registry/httpapi.go, auth.go) and the fetching
    of blobs and manifests from other control nodes (pullthrough.go), on the state of
    Registry.v.

    A request is what the handlers read of it, a response its status, the code of its
    error and the headers they set.  The texts of errors are not modelled, nor is the
    serving of a part of a blob (http.ServeContent).  A peer is a function from what it is
    asked for to what it answers while the request runs. *)
From stdpp Require Import pretty.
From S2P Require Import Prelude Api Watch State Platform Apps Text Registry.
From Stdlib Require Import Ascii.
Import Manifests.

(** * Fetching from peers (pullthrough.go) *)

Definition maxManifestBytes : nat := 8 * 1024 * 1024.

Module Peer.
Record t := mk {
  blob : string → string → option string;                            (* repository, digest *)
  manifest : string → string → option (string * string * string)     (* body, digest header, content type *)
}.
End Peer.

Module Pull.
Section pull.
Context {RL : RegistryLib}.

(** The peers of a request, and how deep it gets into nested indexes before its time
    (peerTotalTimeout) is over. *)
Variables (peers : list Peer.t) (depth : nat).

(** What the peers send for a blob, in their order; a peer without it or out of reach sends
    nothing. *)
Fixpoint from_peers (answers : list (option string)) (dgst : string) (s : gmap string string) : gmap string string * option registry_error :=
  match answers with
  | [] => (s, Some ErrBlobUnknown)
  | None :: answers => from_peers answers dgst s
  | Some body :: answers =>
    let s := Blobs.Write body s in
    let got := digest_of body in
    if negb (got =? dgst) then from_peers answers dgst (Blobs.Delete got s)
    else (s, None)
  end.

Definition fetchBlobLocked (repo dgst : string) (s : gmap string string) : gmap string string * option registry_error :=
  if Blobs.Has dgst s then (s, None) else from_peers ((λ p, Peer.blob p repo dgst) <$> peers) dgst s.

Definition enabled : bool := negb (bool_decide (length peers = 0)).

(** FetchBlob, for one caller at a time per digest. *)
Definition FetchBlob (repo dgst : string) (s : gmap string string) : gmap string string * option registry_error :=
  if negb enabled then (s, Some ErrBlobUnknown) else fetchBlobLocked repo dgst s.

(** manifestRefs: the child manifests and the blobs of a body. *)
Definition manifestRefs (mediaType body : string) : option (list string * list string) :=
  pm ← unmarshalManifest body;
  let mt := if mediaType =? "" then parsedManifest.MediaType pm else mediaType in
  if isIndexMediaType mt || ((mt =? "") && negb (bool_decide (parsedManifest.Manifests pm = []))) then
    let ds := ociDescriptor.Digest <$> parsedManifest.Manifests pm in
    if existsb (λ d, d =? "") ds then None else Some (ds, [])
  else
    let ds := ociDescriptor.Digest <$> (parsedManifest.Config pm :: parsedManifest.Layers pm) in
    if existsb (λ d, d =? "") ds then None else Some ([], ds).

(** getManifest: the body, the media type and the digest. *)
Definition getManifest (p : Peer.t) (repo ref : string) : option (string * string * string) :=
  '(body, header, mediaType) ← Peer.manifest p repo ref;
  let body := String.substring 0 maxManifestBytes body in
  let digest := if header =? "" then digest_of body else header in
  if negb (digest_of body =? digest) then None else Some (body, mediaType, digest).

(** The state, and whether the fetching goes on; [None] is running out of fuel. *)
Notation fetched := (option (db * gmap string string * bool)).

Definition put (repo ref mediaType body : string) (d : db) (s : gmap string string) : fetched :=
  '(d, s, r) ← PutManifest repo ref mediaType body d s;
  Some (d, s, match r with inl _ => true | inr _ => false end).

(** One child of an index, whose own children [fetch] gets. *)
Definition fetch_child (fetch : string → string → db → gmap string string → fetched) (p : Peer.t) (repo : string) (acc : fetched) (child : string) : fetched :=
  '(d, s, ok) ← acc;
  if negb ok then Some (d, s, false)
  else match GetManifest repo child d s with
  | inl _ => Some (d, s, true)
  | inr _ =>
    match getManifest p repo child with
    | None => Some (d, s, false)
    | Some (cbody, cmt, cdgst) =>
      '(d, s, ok) ← fetch cmt cbody d s;
      if negb ok then Some (d, s, false) else put repo cdgst cmt cbody d s
    end
  end.

Definition fetch_blob (repo : string) (so : gmap string string * bool) (dgst : string) : gmap string string * bool :=
  let '(s, ok) := so in
  if negb ok then (s, false)
  else if Blobs.Has dgst s then (s, true)
  else let '(s, e) := FetchBlob repo dgst s in (s, bool_decide (e = None)).

Fixpoint fetchManifestChildren (depth : nat) (p : Peer.t) (repo mediaType body : string) (d : db) (s : gmap string string) : fetched :=
  match depth with
  | 0 => Some (d, s, false)
  | S depth =>
    match manifestRefs mediaType body with
    | None => Some (d, s, false)
    | Some (children, blobs) =>
      '(d, s, ok) ← foldl (fetch_child (fetchManifestChildren depth p repo) p repo) (Some (d, s, true)) children;
      let '(s, ok) := foldl (fetch_blob repo) (s, ok) blobs in
      Some (d, s, ok)
    end
  end.

(** One peer of FetchManifest. *)
Definition from_peer (repo ref : string) (p : Peer.t) (d : db) (s : gmap string string) : fetched :=
  match getManifest p repo ref with
  | None => Some (d, s, false)
  | Some (body, mediaType, digest) =>
    '(d, s, ok) ← fetchManifestChildren depth p repo mediaType body d s;
    if negb ok then Some (d, s, false)
    else
      '(d, s, ok) ← put repo digest mediaType body d s;
      if negb ok then Some (d, s, false)
      else if negb (HasPrefix ref "sha256:") then put repo ref mediaType body d s
      else Some (d, s, true)
  end.

Fixpoint first_peer (ps : list Peer.t) (repo ref : string) (d : db) (s : gmap string string) : fetched :=
  match ps with
  | [] => Some (d, s, false)
  | p :: ps =>
    '(d, s, ok) ← from_peer repo ref p d s;
    if ok : bool then Some (d, s, true) else first_peer ps repo ref d s
  end.

Definition FetchManifest (repo ref : string) (d : db) (s : gmap string string) : fetched :=
  if negb enabled then Some (d, s, false) else first_peer peers repo ref d s.

End pull.
End Pull.

Module Http.

Module Request.
Record t := mk {
  Method : string;
  Path : string;
  digest : string;          (* the query parameter *)
  ContentRange : string;
  ContentType : string;
  Body : string;
  BasicAuth : option (string * string)
}.
End Request.

Module Response.
Record t := mk {
  Status : Z;
  Code : string;            (* of the OCI error, empty without one *)
  Location : string;
  ContentDigest : string;
  Range : string;
  Type_ : string;
  Body : string
}.
End Response.

(** What the handlers hold. *)
Module Server.
Record t := mk { uploads : gmap string Uploads.Upload.t; blobs : gmap string string; meta : Manifests.db }.
End Server.

Definition writeError (status : Z) (code : string) : Response.t := Response.mk status code "" "" "" "" "".

(** ** Headers *)

Definition rangeHeader (offset : Z) : string := if (offset =? 0)%Z then "0-0" else "0-" +:+ pretty (offset - 1)%Z.

(** strconv.ParseInt of base 10 in 64 bits: an optional sign and digits. *)
Definition ParseInt (s : string) : option Z :=
  let '(neg, s) := match s with
    | String "-" s => (true, s)
    | String "+" s => (false, s)
    | _ => (false, s)
    end in
  match s with
  | "" => None
  | _ =>
    n ← foldl (λ o c, acc ← o; d ← digit c; Some (acc * 10 + d)%Z) (Some 0%Z) (String.list_ascii_of_string s);
    let n := if neg then (- n)%Z else n in
    if ((- 2 ^ 63 <=? n) && (n <? 2 ^ 63))%Z then Some n else None
  end.

(** The start of a Content-Range; -1 without one, [None] for a malformed one. *)
Definition parseContentRangeStart (hdr : string) : option Z :=
  let hdr := TrimSpace (TrimPrefix hdr "bytes ") in
  if hdr =? "" then Some (-1)%Z
  else
    let '(startStr, _, ok) := Cut hdr "-" in
    if negb ok then None
    else match ParseInt (TrimSpace startStr) with
    | Some start => if (start <? 0)%Z then None else Some start
    | None => None
    end.

(** ** Answers *)

Definition writeBlobCreated (name digest : string) : Response.t :=
  Response.mk 201 "" ("/v2/" +:+ name +:+ "/blobs/" +:+ digest) digest "" "" "".

Definition writeUploadAccepted (name id : string) (up : option Uploads.Upload.t) (status : Z) : Response.t :=
  match up with
  | None => writeError 404 "BLOB_UPLOAD_UNKNOWN"
  | Some up => Response.mk status "" ("/v2/" +:+ name +:+ "/blobs/uploads/" +:+ id) "" (rangeHeader (Uploads.Offset up)) "" ""
  end.

Definition writeUploadError (e : registry_error) : Response.t :=
  match e with
  | ErrUploadUnknown => writeError 404 "BLOB_UPLOAD_UNKNOWN"
  | ErrRangeNotSatisfiable => writeError 416 "BLOB_UPLOAD_INVALID"
  | ErrDigestInvalid => writeError 400 "DIGEST_INVALID"
  | ErrDigestMismatch => writeError 400 "DIGEST_INVALID"
  | _ => writeError 500 "UNKNOWN"
  end.

Definition writeManifestError (e : registry_error) : Response.t :=
  match e with
  | ErrManifestUnknown => writeError 404 "MANIFEST_UNKNOWN"
  | ErrManifestChildUnkn => writeError 404 "MANIFEST_UNKNOWN"
  | ErrManifestBlobUnkn => writeError 400 "MANIFEST_BLOB_UNKNOWN"
  | ErrManifestInvalid => writeError 400 "MANIFEST_INVALID"
  | _ => writeError 500 "UNKNOWN"
  end.

Definition writeBlobStatError (e : registry_error) : Response.t :=
  match e with
  | ErrBlobUnknown => writeError 404 "BLOB_UNKNOWN"
  | ErrDigestInvalid => writeError 400 "DIGEST_INVALID"
  | _ => writeError 500 "UNKNOWN"
  end.

(** ** Routes *)

Inductive route :=
| Version
| StartUpload (name : string)
| UploadSession (name id : string)
| Blob (digest : string)
| TagsList (name : string)
| Manifest (name ref : string)
| Unsupported.

(** strings.CutSuffix and a path cut at the first occurrence of a separator. *)
Definition CutSuffix (s suffix : string) : option string :=
  if Domains.HasSuffix s suffix then Some (TrimSuffix s suffix) else None.

Definition cut_at (s sep : string) : option (string * string) :=
  match String.index 0 sep s with
  | Some i => Some (String.substring 0 i s, String.substring (i + String.length sep) (String.length s - (i + String.length sep)) s)
  | None => None
  end.

Definition route_of (path : string) : route :=
  if (path =? "/v2") || (path =? "/v2/") then Version
  else if negb (HasPrefix path "/v2/") then Unsupported
  else
    let rest := TrimPrefix path "/v2/" in
    match CutSuffix rest "/blobs/uploads/" with
    | Some name => StartUpload name
    | None =>
      match cut_at rest "/blobs/uploads/" with
      | Some (name, id) => UploadSession name id
      | None =>
        match cut_at rest "/blobs/" with
        | Some (_, digest) => Blob digest
        | None =>
          match CutSuffix rest "/tags/list" with
          | Some name => TagsList name
          | None => match cut_at rest "/manifests/" with Some (name, ref) => Manifest name ref | None => Unsupported end
          end
        end
      end
    end.

Section serve.
Context {RO : RangeOrder} {RL : RegistryLib}.

(** The Authenticator; [None] disables authentication. *)
Variable auth : option (string → string → bool).

(** The peers, [None] without pull-through, and the depth a fetch gets to; a fresh upload
    id and the clock, for this request. *)
Variables (fetcher : option (list Peer.t)) (depth : nat) (id : string) (now : Z).

Definition authorize (r : Request.t) : bool :=
  match auth with
  | None => true
  | Some a => match Request.BasicAuth r with Some (user, pass) => a user pass | None => false end
  end.

Definition version (r : Request.t) : Response.t :=
  if (Request.Method r =? "GET") || (Request.Method r =? "HEAD")
  then Response.mk 200 "" "" "" "" "application/json" (if Request.Method r =? "GET" then "{}" else "")
  else writeError 405 "UNSUPPORTED".

Definition startUpload (r : Request.t) (name : string) (h : Server.t) : Server.t * Response.t :=
  if negb (Request.Method r =? "POST") then (h, writeError 405 "UNSUPPORTED")
  else if negb (Request.digest r =? "") then
    let '(ups, bs, res) := Uploads.Ingest id (Request.Body r) (Request.digest r) now (Server.uploads h) (Server.blobs h) in
    (Server.mk ups bs (Server.meta h),
     match res with inl digest => writeBlobCreated name digest | inr e => writeUploadError e end)
  else
    let ups := Uploads.Start id now (Server.uploads h) in
    (Server.mk ups (Server.blobs h) (Server.meta h), writeUploadAccepted name id (ups !! id) 202).

Definition uploadSession (r : Request.t) (name up : string) (h : Server.t) : Server.t * Response.t :=
  let m := Request.Method r in
  if m =? "PATCH" then
    match parseContentRangeStart (Request.ContentRange r) with
    | None => (h, writeError 416 "BLOB_UPLOAD_INVALID")
    | Some start =>
      let '(ups, res) := Uploads.Append up (Request.Body r) start (Server.uploads h) in
      (Server.mk ups (Server.blobs h) (Server.meta h),
       match res with inl _ => writeUploadAccepted name up (ups !! up) 202 | inr e => writeUploadError e end)
    end
  else if m =? "PUT" then
    if Request.digest r =? "" then (h, writeError 400 "DIGEST_INVALID")
    else
      let '(ups, bs, res) := Uploads.Finalize up (Request.digest r) (Request.Body r) (Server.uploads h) (Server.blobs h) in
      (Server.mk ups bs (Server.meta h),
       match res with inl digest => writeBlobCreated name digest | inr e => writeUploadError e end)
  else if m =? "GET" then (h, writeUploadAccepted name up (Server.uploads h !! up) 204)
  else if m =? "DELETE" then
    let '(ups, e) := Uploads.Cancel up (Server.uploads h) in
    (Server.mk ups (Server.blobs h) (Server.meta h),
     match e with Some e => writeUploadError e | None => Response.mk 204 "" "" "" "" "" "" end)
  else (h, writeError 405 "UNSUPPORTED").

(** repoFromPath: the repository of a path. *)
Definition repoFromPath (path kind : string) : string :=
  if negb (HasPrefix path "/v2/") then ""
  else match cut_at (TrimPrefix path "/v2/") kind with Some (name, _) => name | None => "" end.

Definition pullBlob (r : Request.t) (dgst : string) (h : Server.t) : Server.t * option registry_error :=
  match fetcher with
  | None => (h, Some ErrBlobUnknown)
  | Some peers =>
    let repo := repoFromPath (Request.Path r) "/blobs/" in
    if repo =? "" then (h, Some ErrBlobUnknown)
    else let '(s, e) := Pull.FetchBlob peers repo dgst (Server.blobs h) in (Server.mk (Server.uploads h) s (Server.meta h), e)
  end.

Definition stat_or_pull (r : Request.t) (dgst : string) (h : Server.t) : Server.t * (Z + registry_error) :=
  match Blobs.Stat dgst (Server.blobs h) with
  | inr ErrBlobUnknown =>
    let '(h, e) := pullBlob r dgst h in
    (h, match e with None => Blobs.Stat dgst (Server.blobs h) | Some _ => inr ErrBlobUnknown end)
  | res => (h, res)
  end.

Definition blob (r : Request.t) (dgst : string) (h : Server.t) : Server.t * Response.t :=
  let found body := Response.mk 200 "" "" dgst "" "application/octet-stream" body in
  if (Request.Method r =? "HEAD") || (Request.Method r =? "GET") then
    let '(h, size) := stat_or_pull r dgst h in
    match size with
    | inr e => (h, writeBlobStatError e)
    | inl _ =>
      if Request.Method r =? "HEAD" then (h, found "")
      else (h, match Blobs.Open dgst (Server.blobs h) with inr e => writeBlobStatError e | inl b => found b end)
    end
  else (h, writeError 405 "UNSUPPORTED").

Definition pullManifest (repo ref : string) (h : Server.t) : option (Server.t * bool) :=
  match fetcher with
  | None => Some (h, false)
  | Some peers =>
    '(d, s, ok) ← Pull.FetchManifest peers depth repo ref (Server.meta h) (Server.blobs h);
    Some (Server.mk (Server.uploads h) s d, ok)
  end.

Definition get_or_pull (name ref : string) (h : Server.t) : option (Server.t * (string * string * string + registry_error)) :=
  match GetManifest name ref (Server.meta h) (Server.blobs h) with
  | inr ErrManifestUnknown =>
    '(h, ok) ← pullManifest name ref h;
    Some (h, if ok : bool then GetManifest name ref (Server.meta h) (Server.blobs h) else inr ErrManifestUnknown)
  | res => Some (h, res)
  end.

(** [None] is running out of fuel. *)
Definition manifest (r : Request.t) (name ref : string) (h : Server.t) : option (Server.t * Response.t) :=
  let m := Request.Method r in
  if (m =? "GET") || (m =? "HEAD") then
    '(h, res) ← get_or_pull name ref h;
    Some (h, match res with
      | inr e => writeManifestError e
      | inl (body, mediaType, digest) => Response.mk 200 "" "" digest "" mediaType (if m =? "GET" then body else "")
      end)
  else if m =? "PUT" then
    '(d, bs, res) ← Manifests.PutManifest name ref (Request.ContentType r)
      (String.substring 0 maxManifestBytes (Request.Body r)) (Server.meta h) (Server.blobs h);
    Some (Server.mk (Server.uploads h) bs d,
      match res with
      | inl digest => Response.mk 201 "" ("/v2/" +:+ name +:+ "/manifests/" +:+ digest) digest "" "" ""
      | inr e => writeManifestError e
      end)
  else if m =? "DELETE" then
    '(d, bs, e) ← Manifests.DeleteManifest name ref (Server.meta h) (Server.blobs h);
    Some (Server.mk (Server.uploads h) bs d, match e with Some e => writeManifestError e | None => Response.mk 202 "" "" "" "" "" "" end)
  else Some (h, writeError 405 "UNSUPPORTED").

(** The answer to a list of tags: its encoding is left to the reader. *)
Definition tagsList (r : Request.t) (name : string) (h : Server.t) : Response.t * list string :=
  if Request.Method r =? "GET" then (Response.mk 200 "" "" "" "" "application/json" "", Manifests.Tags name (Server.meta h))
  else (writeError 405 "UNSUPPORTED", []).

Definition ServeHTTP (r : Request.t) (h : Server.t) : option (Server.t * Response.t) :=
  if negb (authorize r) then Some (h, writeError 401 "UNAUTHORIZED")
  else match route_of (Request.Path r) with
  | Version => Some (h, version r)
  | StartUpload name => Some (startUpload r name h)
  | UploadSession name up => Some (uploadSession r name up h)
  | Blob digest => Some (blob r digest h)
  | TagsList name => Some (h, (tagsList r name h).1)
  | Manifest name ref => manifest r name ref h
  | Unsupported => Some (h, writeError 404 "UNSUPPORTED")
  end.

End serve.
End Http.

(** * Image references (remoteref.go) *)

Module Ref.

(** strings.LastIndexByte *)
Fixpoint LastIndexByte (s : string) (c : ascii) : option nat :=
  match s with
  | "" => None
  | String c' s =>
    match LastIndexByte s c with
    | Some i => Some (S i)
    | None => if Ascii.eqb c' c then Some 0 else None
    end
  end.

(** SplitRepoRef: a path without host, as repository and tag or digest. *)
Definition SplitRepoRef (path : string) : string * string :=
  let '(before, after, found) := Cut path "@" in
  if found then ((Cut before ":").1.1, after)
  else
    match LastIndexByte path ":" with
    | Some i =>
      let tail := String.substring i (String.length path - i) path in
      if (Cut tail "/").2 then (path, "latest")
      else (String.substring 0 i path, String.substring (S i) (String.length path - S i) path)
    | None => (path, "latest")
    end.

Definition dockerHub : string := "registry-1.docker.io".

(** splitRef: an image reference, as host, repository and tag or digest. *)
Definition splitRef (imageRef : string) : string * string * string :=
  let '(host, rest) :=
    let '(first, after, found) := Cut imageRef "/" in
    if found && ((Cut first ".").2 || (Cut first ":").2 || (first =? "localhost")) then (first, after) else (dockerHub, imageRef) in
  let host := if (host =? "docker.io") || (host =? "index.docker.io") then dockerHub else host in
  let '(repo, ref) := SplitRepoRef rest in
  let repo := if (host =? dockerHub) && negb (Cut repo "/").2 then "library/" +:+ repo else repo in
  (host, repo, ref).

End Ref.
