(* ===== verification/RegistryServed.v ===== *)
(** What requests do to the registry of RegistryHttp.v: each is answered, with the effect of
    its route and method and by a run of the operations that RegistryProps.v states the
    invariant for; and two places where fetching and reaping go wrong. *)
From S2P Require Import Prelude Api Watch State Platform Apps Text Registry RegistryProps RegistryHttp.
From Stdlib Require Import Ascii.
Import Manifests.



Section served.
Context {RO : RangeOrder} {RL : RegistryLib} {RLk : RegistryLibOk RL}.
Import Http.

(** ** Runs of the registry's operations *)

(** One operation, and the references it may add. *)
Inductive op :=
| OpBlob (content : string)
| OpPut (repo ref contentType body : string)
| OpDelete (repo digest : string).

Definition cost (o : op) : nat := match o with OpPut _ _ ct body => 1 + references ct body | _ => 0 end.
Definition costs (ops : list op) : nat := sum_list_with cost ops.

(** One operation, from a state to the next. *)
Inductive move : op → db * gmap string string → db * gmap string string → Prop :=
| move_blob d s b : move (OpBlob b) (d, s) (d, Blobs.commit b (sha256_hex b) s)
| move_put d s repo ref ct body d' s' r : plain repo → lower_case ct body →
    PutManifest repo ref ct body d s = Some (d', s', r) → move (OpPut repo ref ct body) (d, s) (d', s')
| move_delete d s repo x d' s' r : DeleteManifest repo x d s = Some (d', s', r) → move (OpDelete repo x) (d, s) (d', s').

Inductive moves : list op → db * gmap string string → db * gmap string string → Prop :=
| moves_nil a : moves [] a a
| moves_cons o ops a b c : move o a b → moves ops b c → moves (o :: ops) a c.

Lemma moves_app ops ops' a b c : moves ops a b → moves ops' b c → moves (ops ++ ops') a c.
Proof. induction 1 as [|o ops a b c' H _ IH]; intros Hc; [done|]. cbn. eapply moves_cons; [exact H|by apply IH]. Qed.

Lemma moves_one o a b : move o a b → moves [o] a b.
Proof. intros H. eapply moves_cons; [exact H|apply moves_nil]. Qed.

(** What a pull into a repository consists of: blobs, and manifests of that repository. *)
Definition pulls (repo : string) (o : op) : Prop :=
  match o with OpBlob _ => True | OpPut repo' _ _ _ => repo' = repo | OpDelete _ _ => False end.

(** ** How many references an operation adds *)

Lemma edges_mono m m' : m' ⊆ m → length (edges_of m') ≤ length (edges_of m).
Proof.
  intros Hs. unfold edges_of. destruct (submseteq_Permutation _ _ (map_to_list_submseteq _ _ Hs)) as [k Hk].
  rewrite Hk, fmap_app, bind_app, length_app. lia.
Qed.

Lemma refers_mono d d' : size (tags d') ≤ size (tags d) → manmeta d' ⊆ manmeta d → length (refers d') ≤ length (refers d).
Proof.
  intros Ht Hm%edges_mono. unfold refers. rewrite !length_app, !length_fmap, !length_map_to_list. lia.
Qed.

Lemma release_refers x d td d' td' : release x (d, td) = Some (d', td') → length (refers d') ≤ length (refers d).
Proof. intros H. apply refers_mono; [by rewrite (release_tags _ _ _ _ _ H)|by apply (refDec_shrinks _ _ _ _ _ _ H)]. Qed.

Lemma tag_refers d key x r : length (refers (DB (<[key := x]> (tags d)) (repoman d) (manmeta d) r)) ≤ S (length (refers d)).
Proof.
  unfold refers. cbn. rewrite !length_app, !length_fmap, !length_map_to_list, map_size_insert. destruct (tags d !! key); unfold id; lia.
Qed.

Lemma setTag_refers repo tag x d td d' td' : setTag repo tag x (d, td) = Some (d', td') → length (refers d') ≤ S (length (refers d)).
Proof.
  unfold setTag. cbv zeta. destruct (tags d !! _) as [old|]; [|intros [= <- _]; apply (tag_refers d)].
  destruct (old =? x); [intros [= <- _]; lia|]. destruct (old =? ""); [intros [= <- _]; apply (tag_refers d)|].
  intros H%release_refers. etrans; [exact H|apply (tag_refers d)].
Qed.

Lemma refInc_keeps es d : tags (foldl refInc d es) = tags d ∧ manmeta (foldl refInc d es) = manmeta d.
Proof. revert d. induction es as [|e es IH]; intros d; [done|]. cbn. destruct (IH (refInc d e)) as [-> ->]. done. Qed.

Lemma put_tx_refers repo ref x meta d d' new :
  put_tx repo ref x meta d = Some (d', new) → length (refers d') ≤ length (refers d) + 1 + length (manMeta.Edges meta).
Proof.
  unfold put_tx. set (dm := match manmeta d !! x with Some _ => d | None => _ end).
  assert (length (refers dm) ≤ length (refers d) + length (manMeta.Edges meta)) as Hm.
  { unfold dm. destruct (manmeta d !! x) eqn:Hx; [lia|]. set (d0 := DB _ _ _ _). destruct (refInc_keeps (manMeta.Edges meta) d0) as [Ht Hmm].
    unfold refers. rewrite Ht, Hmm. cbn. rewrite !length_app, (edges_insert _ _ _ Hx), length_app. lia. }
  clearbody dm. cbv zeta. destruct (_ && _).
  - intros H%setTag_refers. unfold refers in H, Hm |- *. cbn in H. lia.
  - intros [= <- _]. unfold refers in Hm |- *. cbn. lia.
Qed.

Lemma PutManifest_refers repo ref ct body d s d' s' r :
  PutManifest repo ref ct body d s = Some (d', s', r) → length (refers d') ≤ length (refers d) + (1 + references ct body).
Proof.
  unfold PutManifest. destruct (validated repo ct body d s) as [meta|e] eqn:Hv; [|intros [= <- _ _]; apply Nat.le_add_r].
  intros ([d1 new] & Htx%put_tx_refers & [= <- <- <-])%bind_Some. unfold validated in Hv. unfold references.
  destruct (unmarshalManifest body) as [pm|]; [|done]. cbn [mbind option_bind]. destruct (meta_of ct pm) as [m|]; [|done].
  assert (m = meta) as -> by (repeat case_match; congruence). rewrite Nat.add_assoc. exact Htx.
Qed.

Lemma delete_refers d key : length (refers (DB (delete key (tags d)) (repoman d) (manmeta d) (refs d))) ≤ length (refers d).
Proof. apply refers_mono; [cbn; rewrite map_size_delete; destruct (tags d !! key); unfold id; lia|done]. Qed.

Lemma DeleteManifest_refers repo x d s d' s' r : DeleteManifest repo x d s = Some (d', s', r) → length (refers d') ≤ length (refers d).
Proof.
  unfold DeleteManifest. destruct (repoman d !! _); [|intros [= <- _ _]; lia]. intros ([d1 new] & Htx & [= <- _ _])%bind_Some.
  unfold delete_tx in Htx. revert Htx. generalize (@nil string) as td. generalize (tagged repo x d) as keys. intros keys. revert d.
  induction keys as [|k keys IH]; intros d td H; [by injection H as <- _|]. cbn [foldl untag_key mbind option_bind] in H.
  destruct (release x _) as [[d2 td2]|] eqn:Hr.
  - apply IH in H. apply release_refers in Hr. pose proof (delete_refers d k). lia.
  - exfalso. clear -H. induction keys as [|k' keys IH]; [done|]. by apply IH.
Qed.

Lemma move_refers o a b : move o a b → length (refers b.1) ≤ length (refers a.1) + cost o.
Proof. intros [d s b'|d s repo ref ct body d' s' r _ _ H|d s repo x d' s' r H]; cbn; [lia|by apply PutManifest_refers in H|apply DeleteManifest_refers in H; lia]. Qed.

(** Operations keep the invariant as long as a uint64 holds the references. *)
Theorem moves_reachable ops a b : moves ops a b → reachable a.1 a.2 → room a.1 (costs ops) → reachable b.1 b.2.
Proof.
  induction 1 as [|o ops a b c H _ IH]; intros Hr Hroom; [done|]. unfold costs in Hroom. cbn [sum_list_with] in Hroom. apply IH.
  - destruct H as [d s b'|d s repo ref ct body d' s' r Hp Hl H|d s repo x d' s' r H]; cbn in *.
    + by apply reachable_upload.
    + eapply reachable_put; [exact Hr|exact Hp|exact Hl| |exact H]. unfold room in *. cbn in Hroom. lia.
    + by eapply reachable_delete.
  - pose proof (move_refers _ _ _ H). unfold room, costs in *. lia.
Qed.

(** ** Totality *)

Lemma PutManifest_total repo ref ct body d s : is_Some (PutManifest repo ref ct body d s).
Proof.
  unfold PutManifest. destruct (validated _ _ _ _ _); [|done]. cbv zeta.
  match goal with |- is_Some (?m ≫= _) => assert (is_Some m) as [[d' td] ->]; [|done] end.
  unfold put_tx. cbv zeta. destruct (_ && _); [|done]. unfold setTag. cbv zeta. destruct (_ !! _); [|done].
  destruct (_ =? _); [done|]. destruct (_ =? _); [done|]. apply release_total.
Qed.

Lemma DeleteManifest_total repo x d s : is_Some (DeleteManifest repo x d s).
Proof.
  unfold DeleteManifest. destruct (_ !! _); [|done]. unfold delete_tx.
  match goal with |- is_Some (?m ≫= _) => assert (is_Some m) as [[d' td] ->]; [|done] end.
  assert (∀ keys (o : option (db * list string)), is_Some o → is_Some (foldl (untag_key x) o keys)) as Hf; [|by apply Hf].
  induction keys as [|k keys IH]; intros o Ho; [done|]. apply IH. destruct Ho as [[d0 td0] ->]. apply release_total.
Qed.

(** * Fetching from peers *)

(** Peers that send for a digest what it names, and manifests with digests in lower case. *)
Definition honest (peers : list Peer.t) (repo : string) : Prop := ∀ p, p ∈ peers →
  (∀ x b, Peer.blob p repo x = Some b → digest_of b = x)
  ∧ (∀ ref body header ct, Peer.manifest p repo ref = Some (body, header, ct) → lower_case ct (String.substring 0 maxManifestBytes body)).

Section pulls.
Variables (peers : list Peer.t) (repo : string).
Hypotheses (Hhonest : honest peers repo) (Hplain : plain repo).

Lemma FetchBlob_spec x s : let '(s', e) := Pull.FetchBlob peers repo x s in
  (s' = s ∨ ∃ b, digest_of b = x ∧ s' = Blobs.commit b (sha256_hex b) s) ∧ (e = None → Blobs.Has x s' = true) ∧ (e ≠ None → s' = s).
Proof.
  unfold Pull.FetchBlob. destruct (negb _); [by split_and!; [left|..]|]. unfold Pull.fetchBlobLocked.
  destruct (Blobs.Has x s) eqn:Hx; [by split_and!; [left|..]|].
  assert (Forall (λ a, ∀ b, a = Some b → digest_of b = x) ((λ p, Peer.blob p repo x) <$> peers)) as Ha.
  { apply Forall_fmap, Forall_forall. intros p Hp b Hb. by apply (proj1 (Hhonest p Hp)). }
  induction Ha as [|[b|] answers Hb Ha IH]; cbn; [by split_and!; [left|..]| |exact IH].
  rewrite (Hb b eq_refl), (proj2 (str_eqb_eq x x) eq_refl). cbn. split_and!; [right; exists b; split; [by apply Hb|done]| |done].
  intros _. destruct (digest_canonical b) as [_ Hp]. rewrite <- (Hb b eq_refl). by apply commit_has_self.
Qed.

(** The operations that led to a state. *)
Definition led (d : db) (s : gmap string string) (o : option (db * gmap string string * bool)) : Prop :=
  ∃ d' s' ok ops, o = Some (d', s', ok) ∧ moves ops (d, s) (d', s') ∧ Forall (pulls repo) ops.

Lemma led_here d s ok : led d s (Some (d, s, ok)).
Proof. exists d, s, ok, []. split_and!; [done|apply moves_nil|constructor]. Qed.

Lemma led_bind d s o (k : db → gmap string string → bool → option (db * gmap string string * bool)) :
  led d s o → (∀ d' s' ok, led d' s' (k d' s' ok)) → led d s ('(d', s', ok) ← o; k d' s' ok).
Proof.
  intros (d1 & s1 & ok1 & n & -> & M1 & F1) Hk. cbn. destruct (Hk d1 s1 ok1) as (d2 & s2 & ok2 & m & -> & M2 & F2).
  exists d2, s2, ok2, (n ++ m). split_and!; [done|by eapply moves_app|by apply Forall_app].
Qed.

Lemma led_put ref ct body d s : lower_case ct body → led d s (Pull.put repo ref ct body d s).
Proof.
  intros Hl. unfold Pull.put. destruct (PutManifest_total repo ref ct body d s) as [[[d' s'] r] Hr]. rewrite Hr. cbn.
  eexists d', s', _, _. split; [done|]. split; [eapply moves_one, move_put; [exact Hplain|exact Hl|exact Hr]|by repeat constructor].
Qed.

Lemma getManifest_lower p ref body ct x : p ∈ peers → Pull.getManifest p repo ref = Some (body, ct, x) → lower_case ct body.
Proof.
  intros Hp. unfold Pull.getManifest. intros ([[b header] mt] & Hm & H)%bind_Some. cbv zeta in H. destruct (negb _); [done|].
  injection H as <- <- _. by apply (proj2 (Hhonest p Hp) _ _ _ _ Hm).
Qed.

Lemma led_fold {A} (f : option (db * gmap string string * bool) → A → option (db * gmap string string * bool)) l d s o :
  (∀ d s o a, led d s o → led d s (f o a)) → led d s o → led d s (foldl f o l).
Proof. intros Hf. revert o. induction l as [|a l IH]; intros o Ho; [done|]. by apply IH, Hf. Qed.

Lemma FetchBlob_led d x s ok : led d s (let '(s', e) := Pull.FetchBlob peers repo x s in Some (d, s', ok e)).
Proof.
  pose proof (FetchBlob_spec x s) as H. destruct (Pull.FetchBlob peers repo x s) as [s' e]. destruct H as [[->|(b & _ & ->)] _]; [apply led_here|].
  exists d, (Blobs.commit b (sha256_hex b) s), (ok e), [OpBlob b]. split_and!; [done|apply moves_one, move_blob|by repeat constructor].
Qed.

Lemma fetch_blobs_led l d s ok : led d s (let '(s', ok') := foldl (Pull.fetch_blob peers repo) (s, ok) l in Some (d, s', ok')).
Proof.
  revert s ok. induction l as [|x l IH]; intros s ok; [apply led_here|]. cbn [foldl]. unfold Pull.fetch_blob at 2.
  destruct (negb ok); [apply IH|]. destruct (Blobs.Has x s); [apply IH|].
  destruct (FetchBlob_led d x s (λ e, bool_decide (e = None))) as (d1 & s1 & ok1 & ops1 & He & M1 & F1).
  destruct (Pull.FetchBlob peers repo x s) as [s2 e]. injection He as <- <- <-.
  destruct (IH s2 (bool_decide (e = None))) as (d3 & s3 & ok3 & ops3 & He & M3 & F3). rewrite He.
  exists d3, s3, ok3, (ops1 ++ ops3). split_and!; [done|by eapply moves_app|by apply Forall_app].
Qed.

Lemma led_children depth p ct body d s : p ∈ peers → led d s (Pull.fetchManifestChildren peers depth p repo ct body d s).
Proof.
  intros Hp. revert ct body d s. induction depth as [|depth IH]; intros ct body d s; cbn [Pull.fetchManifestChildren]; [apply led_here|].
  destruct (Pull.manifestRefs ct body) as [[children blobs]|]; [|apply led_here]. apply led_bind.
  - apply led_fold; [|apply led_here]. clear d s. intros d s o child Ho. unfold Pull.fetch_child. apply led_bind; [exact Ho|].
    intros d1 s1 ok1. destruct (negb ok1); [apply led_here|]. destruct (GetManifest repo child d1 s1); [apply led_here|].
    destruct (Pull.getManifest p repo child) as [[[cbody cmt] cx]|] eqn:Hg; [|apply led_here].
    apply led_bind; [apply IH|]. intros d2 s2 ok2. destruct (negb ok2); [apply led_here|]. apply led_put. by eapply getManifest_lower.
  - intros d1 s1 ok1. apply fetch_blobs_led.
Qed.

(** A fetch of a manifest ends, and is a run of operations of this registry. *)
Theorem FetchManifest_moves depth ref d s : led d s (Pull.FetchManifest peers depth repo ref d s).
Proof.
  unfold Pull.FetchManifest. destruct (negb _); [apply led_here|].
  assert (∀ ps, ps ⊆ peers → led d s (Pull.first_peer peers depth ps repo ref d s)) as H; [|by apply H].
  intros ps. revert d s. induction ps as [|p ps IH]; intros d s Hps; cbn; [apply led_here|]. apply led_bind.
  - unfold Pull.from_peer. assert (p ∈ peers) as Hp by (apply Hps; left).
    destruct (Pull.getManifest p repo ref) as [[[body mt] x]|] eqn:Hg; [|apply led_here].
    pose proof (getManifest_lower _ _ _ _ _ Hp Hg) as Hl. apply led_bind; [by apply led_children|]. intros d1 s1 ok1.
    destruct (negb ok1); [apply led_here|]. apply led_bind; [by apply led_put|]. intros d2 s2 ok2.
    destruct (negb ok2); [apply led_here|]. destruct (negb _); [by apply led_put|apply led_here].
  - intros d1 s1 ok1. destruct ok1; [apply led_here|]. apply IH. intros q Hq. apply Hps. by right.
Qed.
End pulls.

(** * Serving a request *)

Import Http.

(** Names without the separator, digests in lower case and honest peers. *)
Definition well_named (fetcher : option (list Peer.t)) (r : Request.t) : Prop :=
  let served name := plain name ∧ ∀ peers, fetcher = Some peers → honest peers name in
  match route_of (Request.Path r) with
  | Manifest name _ => served name ∧ lower_case (Request.ContentType r) (String.substring 0 maxManifestBytes (Request.Body r))
  | Blob _ => served (repoFromPath (Request.Path r) "/blobs/")
  | _ => True
  end.

(** The operations of the registry that lead from one state of the server to another. *)
Definition ran (ops : list op) (h h' : Server.t) : Prop :=
  moves ops (Server.meta h, Server.blobs h) (Server.meta h', Server.blobs h').

(** Success of an operation. *)
Definition succeeds {A B} (x : A + B) : Prop := ∃ v, x = inl v.

(** A state that the registry's operations reach from an empty one. *)
Definition sound (h : Server.t) : Prop := reachable (Server.meta h) (Server.blobs h).

Lemma ran_idle h h' : Server.meta h' = Server.meta h → Server.blobs h' = Server.blobs h → ran [] h h'.
Proof. intros Hm Hb. unfold ran. rewrite Hm, Hb. apply moves_nil. Qed.

Lemma server_eta h : Server.mk (Server.uploads h) (Server.blobs h) (Server.meta h) = h.
Proof. by destruct h. Qed.

(** ** What a request may do *)

(** [content], offered for the digest [expected], is created under it, or refused with the
    blobs as they were. *)
Definition offered (content expected : string) (h h' : Server.t) (a : Response.t) : Prop :=
  (Response.Status a = 201%Z ↔ digest_of content = expected)
  ∧ (digest_of content = expected → Server.blobs h' = Blobs.commit content (sha256_hex content) (Server.blobs h)
       ∧ Response.ContentDigest a = expected ∧ Blobs.Has expected (Server.blobs h') = true)
  ∧ (digest_of content ≠ expected → Server.blobs h' = Server.blobs h).

(** Only the upload [up] changes, beside the blobs. *)
Definition only_upload (up : string) (h h' : Server.t) : Prop :=
  Server.meta h' = Server.meta h ∧ ∀ u, u ≠ up → Server.uploads h' !! u = Server.uploads h !! u.

(** The bytes of an answer are those its digest names. *)
Definition genuine (a : Response.t) : Prop :=
  ∃ x, parseDigest (Response.ContentDigest a) = Some x ∧ sha256_hex (Response.Body a) = x.

Definition start_effect (id : string) (now : Z) (r : Request.t) (h h' : Server.t) (a : Response.t) : Prop :=
  if Request.Method r =? "POST" then
    only_upload id h h'
    ∧ if Request.digest r =? ""
      then Response.Status a = 202%Z ∧ Server.blobs h' = Server.blobs h ∧ Server.uploads h' !! id = Some (Uploads.Upload.mk now "")
      else offered (Request.Body r) (Request.digest r) h h' a
  else h' = h.

(** The chunk follows what the upload holds. *)
Definition follows (r : Request.t) (u : Uploads.Upload.t) : Prop :=
  ∃ start, parseContentRangeStart (Request.ContentRange r) = Some start ∧ (start = -1 ∨ start = Uploads.Offset u)%Z.

Definition upload_effect (r : Request.t) (up : string) (h h' : Server.t) (a : Response.t) : Prop :=
  let m := Request.Method r in
  match Server.uploads h !! up with
  | Some u =>
    if m =? "PATCH" then
      only_upload up h h' ∧ Server.blobs h' = Server.blobs h ∧ (Response.Status a = 202%Z ↔ follows r u)
      ∧ (follows r u → Server.uploads h' !! up = Some (Uploads.Upload.mk (Uploads.Upload.Started u) (Uploads.Upload.data u +:+ Request.Body r)))
      ∧ (¬ follows r u → h' = h)
    else if m =? "PUT" then
      only_upload up h h' ∧ offered (Uploads.Upload.data u +:+ Request.Body r) (Request.digest r) h h' a
      ∧ Server.uploads h' !! up = if decide (parseDigest (Request.digest r) = None) then Some u else None
    else if m =? "DELETE" then
      only_upload up h h' ∧ Server.blobs h' = Server.blobs h ∧ Response.Status a = 204%Z ∧ Server.uploads h' !! up = None
    else h' = h
  | None => h' = h ∧ (400 ≤ Response.Status a)%Z
  end.

(** A blob that is here is served as it is; another may be pulled, and then nothing else. *)
Definition blob_effect (fetcher : option (list Peer.t)) (r : Request.t) (x : string) (h h' : Server.t) (a : Response.t) : Prop :=
  let m := Request.Method r in
  if (m =? "HEAD") || (m =? "GET") then
    (Blobs.Has x (Server.blobs h) = true ∨ fetcher = None → h' = h)
    ∧ (h' = h ∨ ∃ b, digest_of b = x ∧ h' = Server.mk (Server.uploads h) (Blobs.commit b (sha256_hex b) (Server.blobs h)) (Server.meta h))
    ∧ (Response.Status a = 200%Z ↔ Blobs.Has x (Server.blobs h') = true)
    ∧ (Response.Status a = 200%Z → Response.ContentDigest a = x
         ∧ (m = "GET" → Blobs.Open x (Server.blobs h') = inl (Response.Body a) ∧ (sound h' → genuine a)))
  else h' = h.

(** A manifest that is here is served as it is; another may be pulled, with what it needs,
    into its own repository.  A manifest is stored under its digest, and its tag, and a
    deletion takes the tags of the digest in its repository. *)
Definition manifest_effect (fetcher : option (list Peer.t)) (r : Request.t) (name ref : string) (ops : list op) (h h' : Server.t) (a : Response.t) : Prop :=
  let m := Request.Method r in
  let body := String.substring 0 maxManifestBytes (Request.Body r) in
  Server.uploads h' = Server.uploads h
  ∧ if (m =? "GET") || (m =? "HEAD") then
      (succeeds (GetManifest name ref (Server.meta h) (Server.blobs h)) ∨ fetcher = None → h' = h ∧ ops = [])
      ∧ Forall (pulls name) ops
      ∧ (Response.Status a = 200%Z → ∃ bytes,
           GetManifest name ref (Server.meta h') (Server.blobs h') = inl (bytes, Response.Type_ a, Response.ContentDigest a)
           ∧ (m = "GET" → Response.Body a = bytes ∧ (sound h' → genuine a)))
      ∧ (succeeds (GetManifest name ref (Server.meta h) (Server.blobs h)) → Response.Status a = 200%Z)
    else if m =? "PUT" then
      ops = [OpPut name ref (Request.ContentType r) body]
      ∧ (Response.Status a = 201%Z ↔ succeeds (validated name (Request.ContentType r) body (Server.meta h) (Server.blobs h)))
      ∧ (Response.Status a = 201%Z → Response.ContentDigest a = digest_of body
           ∧ (ref ≠ "" → parseDigest ref = None → tags (Server.meta h') !! (name +:+ nul +:+ ref) = Some (digest_of body))
           ∧ (sound h → room (Server.meta h) (costs ops) →
                ∃ bytes mt, GetManifest name (digest_of body) (Server.meta h') (Server.blobs h') = inl (bytes, mt, digest_of body) ∧ digest_of bytes = digest_of body))
      ∧ (Response.Status a ≠ 201%Z → h' = h)
    else if m =? "DELETE" then
      ops = [OpDelete name ref]
      ∧ (Response.Status a = 202%Z ↔ is_Some (repoman (Server.meta h) !! (name +:+ nul +:+ ref)))
      ∧ (Response.Status a = 202%Z → ∀ key, tags (Server.meta h') !! key
           = if decide (HasPrefix key (name +:+ nul) = true ∧ tags (Server.meta h) !! key = Some ref) then None else tags (Server.meta h) !! key)
      ∧ (Response.Status a ≠ 202%Z → h' = h)
    else h' = h.

Definition effect (fetcher : option (list Peer.t)) (id : string) (now : Z) (r : Request.t) (ops : list op) (h h' : Server.t) (a : Response.t) : Prop :=
  match route_of (Request.Path r) with
  | StartUpload _ => start_effect id now r h h' a
  | UploadSession _ up => upload_effect r up h h' a
  | Blob x => blob_effect fetcher r x h h' a
  | Manifest name ref => manifest_effect fetcher r name ref ops h h' a
  | Version | TagsList _ | Unsupported => h' = h
  end.

(** ** Uploads *)

Lemma string_app_nil_r s : s +:+ "" = s.
Proof. induction s as [|c s IH]; [done|]. change (String c (s +:+ "") = String c s). by rewrite IH. Qed.

Lemma Finalize_spec up expected trailing ups s ups' s' res :
  Uploads.Finalize up expected trailing ups s = (ups', s', res) →
  match ups !! up with
  | Some u =>
    let b := Uploads.Upload.data u +:+ trailing in
    (∀ u, u ≠ up → ups' !! u = ups !! u)
    ∧ ups' !! up = (if decide (parseDigest expected = None) then Some u else None)
    ∧ ((digest_of b = expected ∧ res = inl expected ∧ s' = Blobs.commit b (sha256_hex b) s)
       ∨ digest_of b ≠ expected ∧ s' = s ∧ res ∈ [inr ErrDigestInvalid; inr ErrDigestMismatch])
  | None => ups' = ups ∧ s' = s ∧ res ∈ [inr ErrDigestInvalid; inr ErrUploadUnknown]
  end.
Proof.
  unfold Uploads.Finalize. destruct (ups !! up) as [u|] eqn:Hu; destruct (parseDigest expected) as [h|] eqn:He.
  2: { intros [= <- <- <-]. split_and!; [done|done|]. right. split_and!; [|done|set_solver].
       intros Hd. destruct (digest_canonical (Uploads.Upload.data u +:+ trailing)) as [_ H]. congruence. }
  2,3: intros [= <- <- <-]; split_and!; [done|done|set_solver].
  set (b := Uploads.Upload.data u +:+ trailing). cbv zeta. destruct (digest_canonical b) as [_ Hb].
  destruct (digest_of b =? expected) eqn:Hd; cbn [negb]; intros [= <- <- <-];
    (split_and!; [intros v Hv; by rewrite lookup_delete_ne|by rewrite lookup_delete_eq|]).
  - apply str_eqb_eq in Hd. left. by rewrite Hb, Hd.
  - apply str_eqb_neq in Hd. right. split_and!; [done|done|set_solver].
Qed.

Lemma offered_answer b expected h h' name (res : string + registry_error) :
  (digest_of b = expected ∧ res = inl expected ∧ Server.blobs h' = Blobs.commit b (sha256_hex b) (Server.blobs h)
   ∨ digest_of b ≠ expected ∧ Server.blobs h' = Server.blobs h ∧ res ∈ [inr ErrDigestInvalid; inr ErrDigestMismatch]) →
  offered b expected h h' (match res with inl digest => writeBlobCreated name digest | inr e => writeUploadError e end).
Proof.
  intros [(He & -> & Hb)|(Hne & Hb & Hr)].
  - split_and!; [done| |done]. intros _. split_and!; [done|done|]. rewrite Hb. apply commit_has_self. rewrite <- He. apply digest_canonical.
  - split_and!; [|done|done]. split; [|done]. rewrite !elem_of_cons in Hr. destruct Hr as [->|[->|[]%elem_of_nil]]; done.
Qed.

Lemma offered_ran b expected h h' a : offered b expected h h' a → Server.meta h' = Server.meta h → ∃ ops, ran ops h h'.
Proof.
  intros (_ & Ht & Hf) Hm. destruct (decide (digest_of b = expected)) as [He|Hne]; [|exists []; apply ran_idle; auto].
  exists [OpBlob b]. unfold ran. rewrite Hm, (proj1 (Ht He)). apply moves_one, move_blob.
Qed.

Lemma startUpload_effect id now r name h :
  let '(h', a) := startUpload id now r name h in start_effect id now r h h' a ∧ ∃ ops, ran ops h h'.
Proof.
  unfold startUpload, start_effect. destruct (Request.Method r =? "POST"); cbn [negb]; [|split; [done|exists []; by apply ran_idle]].
  destruct (Request.digest r =? ""); cbn [negb].
  - split; [|exists []; by apply ran_idle]. unfold only_upload, Uploads.Start. cbn. rewrite lookup_insert_eq. split_and!; try done.
    intros u Hu. by rewrite lookup_insert_ne.
  - unfold Uploads.Ingest, Uploads.Start, Uploads.Append. rewrite lookup_insert_eq. cbn [Uploads.Upload.Started Uploads.Upload.data]. cbn -[Uploads.Finalize].
    destruct (Uploads.Finalize _ _ _ _ _) as [[ups s] res] eqn:Hf. apply Finalize_spec in Hf. rewrite lookup_insert_eq in Hf.
    cbn [Uploads.Upload.data] in Hf. rewrite string_app_nil_r in Hf. destruct Hf as (Ho & _ & Hr).
    assert (offered (Request.Body r) (Request.digest r) h (Server.mk ups s (Server.meta h))
      (match res with inl digest => writeBlobCreated name digest | inr e => writeUploadError e end)) as Hoff.
    { apply offered_answer. destruct Hr as [(? & ? & ?)|(? & ? & ?)]; [left|right]; done. }
    split; [|by eapply offered_ran]. split; [|exact Hoff]. split; [done|]. intros u Hu. cbn. rewrite (Ho u Hu). by rewrite !lookup_insert_ne.
Qed.

Lemma range_start hdr start : parseContentRangeStart hdr = Some start → (start = -1 ∨ 0 ≤ start)%Z.
Proof.
  unfold parseContentRangeStart. cbv zeta. destruct (_ =? ""); [intros [= <-]; by left|]. destruct (Cut _ _) as [[st ?] ok]. destruct (negb ok); [done|].
  destruct (ParseInt _) as [z|]; [|done]. destruct (z <? 0)%Z eqn:Hz; [done|]. intros [= <-]. right. by apply Z.ltb_ge in Hz.
Qed.

Lemma append_effect r name up u h : Server.uploads h !! up = Some u → Request.Method r = "PATCH" →
  let '(h', a) := uploadSession r name up h in upload_effect r up h h' a ∧ ∃ ops, ran ops h h'.
Proof.
  intros Hu Hm. unfold uploadSession, upload_effect. rewrite Hu, Hm. cbn [str_eqb]. cbv zeta. change ("PATCH" =? "PATCH") with true. cbv iota.
  destruct (parseContentRangeStart (Request.ContentRange r)) as [start|] eqn:Hs.
  2: { assert (¬ follows r u) as Hn by (intros (? & ? & _); congruence). split; [|exists []; by apply ran_idle]. by split_and!. }
  unfold Uploads.Append. rewrite Hu. destruct ((0 <=? start)%Z && negb (start =? Uploads.Offset u)%Z) eqn:Hb.
  - apply andb_prop in Hb as [H0%Z.leb_le H1%negb_true_iff%Z.eqb_neq]. rewrite server_eta.
    assert (¬ follows r u) as Hn by (intros (st & Hst & [->| ->]); rewrite Hs in Hst; injection Hst as ->; lia).
    split; [|exists []; by apply ran_idle]. by split_and!.
  - assert (follows r u) as Hf.
    { exists start. split; [done|]. destruct (range_start _ _ Hs) as [->|H0]; [by left|]. right.
      apply andb_false_iff in Hb as [H1%Z.leb_gt|H1%negb_false_iff%Z.eqb_eq]; [lia|done]. }
    split; [|exists []; by apply ran_idle]. unfold only_upload. cbn. rewrite lookup_insert_eq. split_and!; try done.
    intros v Hv. by rewrite lookup_insert_ne.
Qed.

Lemma finalize_effect r name up u h : Server.uploads h !! up = Some u → Request.Method r = "PUT" →
  let '(h', a) := uploadSession r name up h in upload_effect r up h h' a ∧ ∃ ops, ran ops h h'.
Proof.
  intros Hu Hm. unfold uploadSession, upload_effect. rewrite Hu, Hm. cbv zeta. change ("PUT" =? "PATCH") with false. change ("PUT" =? "PUT") with true. cbv iota.
  destruct (digest_canonical (Uploads.Upload.data u +:+ Request.Body r)) as [_ Hpd].
  destruct (Request.digest r =? "") eqn:Hd.
  - apply str_eqb_eq in Hd. rewrite Hd. split; [|exists []; by apply ran_idle]. split; [by split|]. split; [|by rewrite Hu].
    assert (digest_of (Uploads.Upload.data u +:+ Request.Body r) ≠ "") as Hne by (intros H; by rewrite H in Hpd).
    split_and!; [by split|by intros ?|done].
  - destruct (Uploads.Finalize _ _ _ _ _) as [[ups s] res] eqn:Hf. apply Finalize_spec in Hf. rewrite Hu in Hf. destruct Hf as (Ho & Hup & Hr).
    assert (offered (Uploads.Upload.data u +:+ Request.Body r) (Request.digest r) h (Server.mk ups s (Server.meta h))
      (match res with inl digest => writeBlobCreated name digest | inr e => writeUploadError e end)) as Hoff.
    { apply offered_answer. destruct Hr as [(? & ? & ?)|(? & ? & ?)]; [left|right]; done. }
    split; [|by eapply offered_ran]. by split_and!.
Qed.

Lemma unknown_upload_effect r name up h : Server.uploads h !! up = None →
  let '(h', a) := uploadSession r name up h in h' = h ∧ (400 ≤ Response.Status a)%Z.
Proof.
  intros Hu. unfold uploadSession, Uploads.Append, Uploads.Cancel. cbv zeta. rewrite Hu. destruct (_ =? "PATCH"); [destruct (parseContentRangeStart _); by rewrite ?server_eta|].
  destruct (_ =? "PUT").
  { destruct (_ =? ""); [done|]. destruct (Uploads.Finalize _ _ _ _ _) as [[ups s] res] eqn:Hf. apply Finalize_spec in Hf. rewrite Hu in Hf.
    destruct Hf as (-> & -> & Hr). rewrite server_eta. rewrite !elem_of_cons in Hr. by destruct Hr as [->|[->|[]%elem_of_nil]]. }
  destruct (_ =? "GET"); [done|]. destruct (_ =? "DELETE"); by rewrite ?server_eta.
Qed.

Lemma uploadSession_effect r name up h :
  let '(h', a) := uploadSession r name up h in upload_effect r up h h' a ∧ ∃ ops, ran ops h h'.
Proof.
  destruct (Server.uploads h !! up) as [u|] eqn:Hu.
  2: { pose proof (unknown_upload_effect r name up h Hu) as H. destruct (uploadSession _ _ _ _) as [h' a]. unfold upload_effect. rewrite Hu.
       split; [done|]. destruct H as [-> _]. exists []. by apply ran_idle. }
  destruct (decide (Request.Method r = "PATCH")) as [Hp|Hp]; [by eapply append_effect|].
  destruct (decide (Request.Method r = "PUT")) as [Hq|Hq]; [by eapply finalize_effect|].
  unfold uploadSession, upload_effect, Uploads.Cancel. rewrite Hu. cbv zeta. apply str_eqb_neq in Hp, Hq. rewrite Hp, Hq.
  destruct (Request.Method r =? "GET") eqn:Hg.
  { apply str_eqb_eq in Hg. rewrite Hg. change ("GET" =? "DELETE") with false. split; [done|exists []; by apply ran_idle]. }
  destruct (Request.Method r =? "DELETE"); (split; [|exists []; by apply ran_idle]); [|done].
  unfold only_upload. cbn. rewrite lookup_delete_eq. split_and!; try done. intros v Hv. by rewrite lookup_delete_ne.
Qed.

(** ** Blobs *)

Lemma stat_has x s z : Blobs.Stat x s = inl z → Blobs.Has x s = true ∧ ∃ b, Blobs.Open x s = inl b.
Proof. unfold Blobs.Stat, Blobs.Has, Blobs.Open. destruct (parseDigest x); [|done]. destruct (s !! _) as [b|] eqn:E; [|done]. split; [by rewrite bool_decide_true|by exists b]. Qed.

Lemma stat_not x s e : Blobs.Stat x s = inr e → Blobs.Has x s = false ∧ (e = ErrBlobUnknown ∨ e = ErrDigestInvalid).
Proof.
  unfold Blobs.Stat, Blobs.Has. destruct (parseDigest x); [|intros [= <-]; by split; [|right]]. destruct (s !! _) eqn:E; [done|].
  intros [= <-]. split; [|by left]. apply bool_decide_eq_false. by intros [? ?].
Qed.

Lemma open_genuine x h b : sound h → Blobs.Open x (Server.blobs h) = inl b → ∃ y, parseDigest x = Some y ∧ sha256_hex b = y.
Proof.
  intros [L _]%reachable_linked. unfold Blobs.Open. destruct (parseDigest x) as [y|]; [|done]. destruct (_ !! _) eqn:E; [|done].
  intros [= <-]. exists y. split; [done|by apply (l_blobs _ _ L)].
Qed.

(** What is found for a digest, and how. *)
Lemma stat_or_pull_spec fetcher r x h :
  (∀ peers, fetcher = Some peers → honest peers (repoFromPath (Request.Path r) "/blobs/")) →
  let '(h', res) := stat_or_pull fetcher r x h in
  (Blobs.Has x (Server.blobs h) = true ∨ fetcher = None → h' = h)
  ∧ (h' = h ∨ ∃ b, digest_of b = x ∧ h' = Server.mk (Server.uploads h) (Blobs.commit b (sha256_hex b) (Server.blobs h)) (Server.meta h))
  ∧ match res with
    | inl _ => Blobs.Has x (Server.blobs h') = true ∧ ∃ b, Blobs.Open x (Server.blobs h') = inl b
    | inr e => Blobs.Has x (Server.blobs h') = false ∧ (e = ErrBlobUnknown ∨ e = ErrDigestInvalid)
    end.
Proof.
  intros Hf. unfold stat_or_pull. destruct (Blobs.Stat x (Server.blobs h)) as [z|e] eqn:Hs.
  { split_and!; [done|by left|by eapply stat_has|]. by eapply stat_has. }
  destruct (stat_not _ _ _ Hs) as [Hn [->| ->]]; [|by split_and!; [|left|..|right]].
  assert (let '(h', e) := pullBlob fetcher r x h in
    (fetcher = None → h' = h)
    ∧ (h' = h ∨ ∃ b, digest_of b = x ∧ h' = Server.mk (Server.uploads h) (Blobs.commit b (sha256_hex b) (Server.blobs h)) (Server.meta h))
    ∧ (e = None → Blobs.Has x (Server.blobs h') = true) ∧ (e ≠ None → h' = h)) as Hp.
  { unfold pullBlob. destruct fetcher as [peers|]; [|by split_and!; [|left|..]]. cbv zeta. destruct (_ =? ""); [by split_and!; [|left|..]|].
    pose proof (FetchBlob_spec peers _ (Hf peers eq_refl) x (Server.blobs h)) as H. destruct (Pull.FetchBlob _ _ _ _) as [s e].
    destruct H as (Hc & Hh & Hk). split_and!; [done| |done|].
    - destruct Hc as [->|(b & Hb & ->)]; [left; apply server_eta|right; by exists b].
    - intros He. rewrite (Hk He). apply server_eta. }
  destruct (pullBlob _ _ _ _) as [h' e]. destruct Hp as (Hno & Hc & Hh & Hk).
  split; [intros [?|?]; [congruence|by apply Hno]|]. split; [done|]. destruct e as [e|].
  - rewrite (Hk ltac:(done)). by split; [|left].
  - specialize (Hh eq_refl). destruct (Blobs.Stat x (Server.blobs h')) as [z|e] eqn:Hs'; [by eapply stat_has|].
    apply stat_not in Hs' as [? _]. congruence.
Qed.

Lemma blob_effect_holds fetcher r x h :
  (∀ peers, fetcher = Some peers → honest peers (repoFromPath (Request.Path r) "/blobs/")) →
  let '(h', a) := blob fetcher r x h in blob_effect fetcher r x h h' a ∧ ∃ ops, ran ops h h'.
Proof.
  intros Hf. unfold blob, blob_effect. cbv zeta. destruct (_ || _) eqn:Hm; [|split; [done|exists []; by apply ran_idle]].
  pose proof (stat_or_pull_spec fetcher r x h Hf) as H. destruct (stat_or_pull _ _ _ _) as [h' res]. destruct H as (Hsame & Hc & Hres).
  assert (∃ ops, ran ops h h') as Hran.
  { destruct Hc as [->|(b & _ & ->)]; [exists []; by apply ran_idle|exists [OpBlob b]; apply moves_one, move_blob]. }
  destruct res as [z|e].
  - destruct Hres as [Hhas [b Hb]]. destruct (Request.Method r =? "HEAD") eqn:Hh.
    + apply str_eqb_eq in Hh. rewrite Hh. by split_and!.
    + rewrite Hb. split; [|done]. split_and!; [done|done|done|]. intros _. split; [done|]. intros _. split; [done|].
      intros Hs. by eapply open_genuine.
  - destruct Hres as [Hhas He]. split; [|done]. split_and!; [done|done| |]; destruct He as [->| ->]; try done; by split; [|rewrite Hhas].
Qed.

(** ** Manifests *)

Lemma elem_of_tagged repo x d key : key ∈ tagged repo x d ↔ HasPrefix key (repo +:+ nul) = true ∧ tags d !! key = Some x.
Proof.
  assert (cursor (tags d) ≡ₚ map_to_list (tags d)) as Hp by apply sort_slice_perm. unfold tagged. rewrite list_elem_of_fmap. split.
  - intros ([k v] & -> & [Hin Hb]%list_elem_of_In%filter_In). apply andb_prop in Hb as [Hk Hv%str_eqb_eq]. cbn in *. subst v. split; [done|].
    apply list_elem_of_In in Hin. rewrite Hp in Hin. by apply elem_of_map_to_list in Hin.
  - intros [Hk Hx]. exists (key, x). split; [done|]. apply list_elem_of_In, filter_In. split.
    + apply list_elem_of_In. rewrite Hp. by apply elem_of_map_to_list.
    + apply andb_true_intro. split; [exact Hk|by apply str_eqb_eq].
Qed.

Lemma untag_keys_tags x keys d td d' td' : foldl (untag_key x) (Some (d, td)) keys = Some (d', td') →
  ∀ key, tags d' !! key = if decide (key ∈ keys) then None else tags d !! key.
Proof.
  revert d td. induction keys as [|k keys IH]; intros d td; cbn [foldl].
  { intros [= -> ->] key. by rewrite decide_False by (by intros ?%elem_of_nil). }
  cbn [untag_key mbind option_bind]. destruct (release x _) as [[d1 td1]|] eqn:E1.
  2: { intros H. exfalso. revert H. clear. induction keys; [done|by cbn]. }
  intros H key. rewrite (IH _ _ H key), (release_tags _ _ _ _ _ E1). cbn. destruct (decide (key ∈ keys)) as [Hin|Hn].
  - by rewrite decide_True by by right.
  - destruct (decide (key = k)) as [->|Hne]; [by rewrite lookup_delete_eq, decide_True by left|].
    rewrite lookup_delete_ne by done. by rewrite decide_False by (rewrite elem_of_cons; naive_solver).
Qed.

Lemma delete_effect name ref d s d' s' e : DeleteManifest name ref d s = Some (d', s', e) →
  (is_Some (repoman d !! (name +:+ nul +:+ ref)) ∧ e = None
    ∧ ∀ key, tags d' !! key = if decide (HasPrefix key (name +:+ nul) = true ∧ tags d !! key = Some ref) then None else tags d !! key)
  ∨ repoman d !! (name +:+ nul +:+ ref) = None ∧ e = Some ErrManifestUnknown ∧ d' = d ∧ s' = s.
Proof.
  unfold DeleteManifest. destruct (repoman d !! _) eqn:Hl; [|intros [= <- <- <-]; by right].
  intros ([d1 td] & Htx & [= <- <- <-])%bind_Some. left. split_and!; [done|done|]. intros key.
  rewrite (untag_keys_tags _ _ _ _ _ _ Htx key). destruct (decide (key ∈ _)) as [H|H]; rewrite elem_of_tagged in H.
  - by rewrite decide_True.
  - by rewrite decide_False.
Qed.

Lemma setTag_tags repo tag x d td d' td' : setTag repo tag x (d, td) = Some (d', td') → tags d' !! (repo +:+ nul +:+ tag) = Some x.
Proof.
  unfold setTag. destruct (tags d !! _) as [old|] eqn:Ho; [|intros [= <- _]; apply lookup_insert_eq].
  destruct (old =? x) eqn:Hx; [intros [= <- _]; apply str_eqb_eq in Hx; congruence|].
  destruct (old =? ""); [intros [= <- _]; apply lookup_insert_eq|]. intros ->%release_tags. apply lookup_insert_eq.
Qed.

Lemma PutManifest_answers repo ref ct body d s d' s' r : PutManifest repo ref ct body d s = Some (d', s', r) →
  succeeds (validated repo ct body d s) ∧ r = inl (digest_of body)
    ∧ (ref ≠ "" → parseDigest ref = None → tags d' !! (repo +:+ nul +:+ ref) = Some (digest_of body))
  ∨ ∃ e, validated repo ct body d s = inr e ∧ r = inr e ∧ d' = d ∧ s' = s.
Proof.
  unfold PutManifest. destruct (validated repo ct body d s) as [meta|e]; [|intros [= <- <- <-]; right; by eexists].
  intros ([d1 td] & Htx & [= <- <- <-])%bind_Some. left. split_and!; [by exists meta|done|]. intros Hr Hd. revert Htx. unfold put_tx.
  set (dm := match manmeta d !! digest_of body with Some _ => d | None => _ end). clearbody dm. cbv zeta.
  rewrite (proj2 (str_eqb_neq _ _) Hr), bool_decide_true by done. cbn [negb andb]. apply setTag_tags.
Qed.

(** What is read back after a push, in a state that the operations reach. *)
Lemma put_read repo ref ct body d s d' s' : reachable d s → plain repo → lower_case ct body → room d (1 + references ct body) →
  PutManifest repo ref ct body d s = Some (d', s', inl (digest_of body)) →
  ∃ bytes mt, GetManifest repo (digest_of body) d' s' = inl (bytes, mt, digest_of body) ∧ digest_of bytes = digest_of body.
Proof.
  intros [L Hc]%reachable_linked Hp Hlow Hr Hput. destruct (put_spec _ _ _ _ _ _ _ _ _ L Hc Hp Hlow Hr Hput) as (L' & _ & Hx).
  destruct (Hx _ eq_refl) as (_ & meta & _ & [n Hn] & Hl & _). destruct (l_nodes _ _ L' _ n Hn) as (Hcan & Hb & _).
  destruct (open_canonical d' s' _ L' Hcan Hb) as (b & Hb' & Hdig). exists b, (manMeta.MediaType meta). split; [|done].
  unfold GetManifest, resolveRef. destruct (digest_canonical body) as [_ Hpd]. rewrite Hpd.
  destruct (digest_of body =? "") eqn:He; [apply str_eqb_eq in He; by apply canonical_not_empty in Hcan|]. by rewrite Hl, Hb'.
Qed.

Lemma get_open name ref d s b mt x : GetManifest name ref d s = inl (b, mt, x) → Blobs.Open x s = inl b.
Proof. unfold GetManifest. cbv zeta. destruct (_ =? ""); [done|]. destruct (repoman d !! _); [|done]. destruct (Blobs.Open _ s) eqn:E; [|done]. by intros [= <- <- <-]. Qed.

(** A manifest that is read, or fetched. *)
Lemma get_or_pull_spec fetcher depth name ref h :
  plain name → (∀ peers, fetcher = Some peers → honest peers name) →
  ∃ h' res ops, get_or_pull fetcher depth name ref h = Some (h', res) ∧ ran ops h h' ∧ Forall (pulls name) ops
    ∧ Server.uploads h' = Server.uploads h
    ∧ (succeeds (GetManifest name ref (Server.meta h) (Server.blobs h)) ∨ fetcher = None → h' = h ∧ ops = [])
    ∧ (succeeds (GetManifest name ref (Server.meta h) (Server.blobs h)) → succeeds res)
    ∧ ∀ v, res = inl v → GetManifest name ref (Server.meta h') (Server.blobs h') = inl v.
Proof.
  intros Hp Hf. unfold get_or_pull. destruct (GetManifest name ref (Server.meta h) (Server.blobs h)) as [v|e] eqn:Hg.
  { exists h, (inl v), []. split_and!; try done; [by apply ran_idle|]. intros v' Hv. by rewrite Hg. }
  assert (¬ succeeds (@inr (string * string * string) _ e)) as Hno by by intros [? ?].
  assert (e = ErrManifestUnknown ∨ e ≠ ErrManifestUnknown) as [->|Hne] by (destruct e; auto).
  2: { exists h, (inr e), []. split_and!; try done; [by destruct e|by apply ran_idle]. }
  unfold pullManifest. destruct fetcher as [peers|].
  2: { exists h, (inr ErrManifestUnknown), []. split_and!; try done. by apply ran_idle. }
  destruct (FetchManifest_moves peers name (Hf peers eq_refl) Hp depth ref (Server.meta h) (Server.blobs h)) as (d & s & ok & ops & -> & M & F).
  eexists (Server.mk (Server.uploads h) s d), _, ops. split; [cbn; reflexivity|]. split_and!; try done.
  - by intros [?|?].
  - destruct ok; [|done]. intros v Hv. exact Hv.
Qed.

Lemma read_answer name ref r h' a res ops h fetcher :
  (Request.Method r =? "GET") || (Request.Method r =? "HEAD") = true →
  a = (match res with
       | inr e => writeManifestError e
       | inl (body, mediaType, digest) => Response.mk 200 "" "" digest "" mediaType (if Request.Method r =? "GET" then body else "")
       end) →
  Forall (pulls name) ops → Server.uploads h' = Server.uploads h →
  (succeeds (GetManifest name ref (Server.meta h) (Server.blobs h)) ∨ fetcher = None → h' = h ∧ ops = []) →
  (succeeds (GetManifest name ref (Server.meta h) (Server.blobs h)) → succeeds res) →
  (∀ v, res = inl v → GetManifest name ref (Server.meta h') (Server.blobs h') = inl v) →
  manifest_effect fetcher r name ref ops h h' a.
Proof.
  intros Hm -> F Hu Hsame Hsucc Hres. unfold manifest_effect. cbv zeta. split; [done|]. rewrite Hm. split_and!; [done|done| |].
  - destruct res as [[[b mt] x]|e]; [|by destruct e]. intros _. exists b. specialize (Hres _ eq_refl). split; [done|]. intros Hg.
    cbn. rewrite Hg. split; [done|]. intros Hs. apply get_open in Hres. by eapply open_genuine.
  - intros [[[b mt] x] ->]%Hsucc. done.
Qed.

Lemma manifest_effect_holds fetcher depth r name ref h :
  plain name → (∀ peers, fetcher = Some peers → honest peers name) →
  lower_case (Request.ContentType r) (String.substring 0 maxManifestBytes (Request.Body r)) →
  ∃ h' a ops, manifest fetcher depth r name ref h = Some (h', a) ∧ ran ops h h' ∧ manifest_effect fetcher r name ref ops h h' a.
Proof.
  intros Hp Hf Hl. unfold manifest. cbv zeta. destruct (_ || _) eqn:Hm.
  { destruct (get_or_pull_spec fetcher depth name ref h Hp Hf) as (h' & res & ops & -> & M & F & Hu & Hsame & Hsucc & Hres).
    eexists h', _, ops. split; [cbn; reflexivity|]. split; [done|]. by eapply read_answer. }
  unfold manifest_effect. cbv zeta. rewrite Hm. set (body := String.substring 0 maxManifestBytes (Request.Body r)) in *.
  destruct (Request.Method r =? "PUT"); [|destruct (Request.Method r =? "DELETE")].
  - destruct (PutManifest_total name ref (Request.ContentType r) body (Server.meta h) (Server.blobs h)) as [[[d s] res] Hput]. rewrite Hput. cbn.
    eexists _, _, [_]. split; [reflexivity|]. split; [eapply moves_one, move_put; [exact Hp|exact Hl|exact Hput]|]. split; [done|]. split; [done|].
    destruct (PutManifest_answers _ _ _ _ _ _ _ _ _ Hput) as [(Hv & -> & Ht)|(e & Hv & -> & -> & ->)].
    + split_and!; [done| |by intros ?]. intros _. split_and!; [done|exact Ht|]. intros Hs Hr. eapply put_read; [exact Hs|exact Hp|exact Hl| |exact Hput].
      unfold costs in Hr. cbn in Hr. by rewrite Nat.add_0_r in Hr.
    + rewrite Hv, server_eta. split_and!; [|by destruct e|done]. split; [by destruct e|by intros [? ?]].
  - destruct (DeleteManifest_total name ref (Server.meta h) (Server.blobs h)) as [[[d s] e] Hdel]. rewrite Hdel. cbn.
    eexists _, _, [_]. split; [reflexivity|]. split; [eapply moves_one, move_delete, Hdel|]. split; [done|]. split; [done|].
    destruct (delete_effect _ _ _ _ _ _ _ Hdel) as [(Hv & -> & Ht)|(Hn & -> & -> & ->)].
    + by split_and!; [| |intros ?].
    + rewrite server_eta. split_and!; [|done|done]. split; [done|]. rewrite Hn. by intros [? ?].
  - exists h, (writeError 405 "UNSUPPORTED"), []. split_and!; try done. by apply ran_idle.
Qed.

End served.

Import Http.

(** C24: what requests do to the registry, one after another, for repository names without
    the separator of the keys, pushed bodies that write their digests in lower case, and
    peers that send for a digest what it names.  Every request is answered; without
    credentials by a 401 that leaves the registry as it is, otherwise by the effect of its
    route and method.  A chunk is appended when its range follows what its upload holds;
    content is created under a digest just when it has it, and is then stored; no other
    upload changes, nor a manifest.  Reading what is here changes nothing; what is not may
    be fetched, which adds that blob, or blobs and manifests of that repository.  A push is
    answered 201 just when it passes its checks, and is then tagged; a deletion takes just
    the tags of that digest in that repository; neither changes anything when refused.  From
    a state that the registry's operations reach, what is read, also after a push, has the
    bytes its digest names, and the invariant survives while a uint64 holds the
    references. *)
Theorem requests_are_served (RL : RegistryLib) (RLk : RegistryLibOk RL) (auth : option (string → string → bool))
    (fetcher : option (list Peer.t)) (depth : nat) (id : string) (now : Z) (r : Request.t) (h : Server.t) :
  well_named fetcher r →
  ∃ h' a ops, ServeHTTP auth fetcher depth id now r h = Some (h', a)
    ∧ (authorize auth r = false → h' = h ∧ Response.Status a = 401%Z)
    ∧ (authorize auth r = true → effect fetcher id now r ops h h' a)
    ∧ ran ops h h'
    ∧ (sound h → room (Server.meta h) (costs ops) → sound h').
Proof.
  intros Hw. assert (∃ h' a ops, ServeHTTP auth fetcher depth id now r h = Some (h', a)
    ∧ (authorize auth r = false → h' = h ∧ Response.Status a = 401%Z)
    ∧ (authorize auth r = true → effect fetcher id now r ops h h' a) ∧ ran ops h h') as (h' & a & ops & Hs & Ha & He & M).
  - unfold ServeHTTP, effect. unfold well_named in Hw. destruct (authorize auth r); cbn [negb].
    2: { exists h, (writeError 401 "UNAUTHORIZED"), []. split_and!; try done. by apply ran_idle. }
    destruct (route_of (Request.Path r)) as [|name|name up|x|name|name ref|].
    1,5,7: by eexists h, _, []; split_and!; [reflexivity|..|by apply ran_idle].
    + pose proof (startUpload_effect id now r name h) as H. destruct (startUpload _ _ _ _ _) as [h1 a1]. destruct H as [He [ops M]]. by exists h1, a1, ops.
    + pose proof (uploadSession_effect r name up h) as H. destruct (uploadSession _ _ _ _) as [h1 a1]. destruct H as [He [ops M]]. by exists h1, a1, ops.
    + pose proof (blob_effect_holds fetcher r x h (proj2 Hw)) as H. destruct (blob _ _ _ _) as [h1 a1]. destruct H as [He [ops M]]. by exists h1, a1, ops.
    + destruct Hw as [[Hp Hf] Hl]. destruct (manifest_effect_holds fetcher depth r name ref h Hp Hf Hl) as (h1 & a1 & ops & Hm & M & He). by exists h1, a1, ops.
  - exists h', a, ops. split_and!; try done. intros Hr Hroom. exact (moves_reachable ops _ _ M Hr Hroom).
Qed.


(** A peer that answers with the bytes of another blob deletes that blob here: the layer
    [l] of a tagged image goes when a peer sends it for something else. *)
Definition wrong_peer : Peer.t := Peer.mk (λ _ _, Some "l") (λ _ _, None).

Lemma a_wrong_answer_deletes_a_blob :
  ('(d, s) ← pushed;
   let '(s, e) := @Pull.FetchBlob toy [wrong_peer] "app" ("sha256:" +:+ toy_name "x") s in
   Some (bool_decide (is_Some (tags d !! ("app" +:+ nul +:+ "v1"))), e, Blobs.Has ("sha256:" +:+ toy_name "l") s))
  = Some (true, Some ErrBlobUnknown, false).
Proof. vm_compute. reflexivity. Qed.

(** An upload that is still being written is reaped by its age: the bytes that came a
    minute ago do not count. *)
Lemma reap_takes_an_active_upload :
  let m := (Uploads.Append "u" "more" (-1) (Uploads.Start "u" 0 ∅)).1 in
  m !! "u" = Some (Uploads.Upload.mk 0 "more") ∧ (@Uploads.Reap canonical_range (Uploads.uploadTTL + 1) m).1 !! "u" = None.
Proof. vm_compute. split; reflexivity. Qed.

(** A pull of the layer [l] by its digest, which an honest peer has. *)
Definition layer_peer : Peer.t := Peer.mk (λ _ x, if x =? "sha256:" +:+ toy_name "l" then Some "l" else None) (λ _ _, None).

Definition pull_layer : Http.Request.t :=
  Http.Request.mk "GET" ("/v2/app/blobs/sha256:" +:+ toy_name "l") "" "" "" "" None.

Lemma pull_layer_named : @well_named toy (Some [layer_peer]) pull_layer.
Proof.
  vm_compute Http.route_of. split; [reflexivity|]. intros peers [= <-] p ->%list_elem_of_singleton. split; [|done].
  intros x b Hb. cbn in Hb. destruct (x =? _) eqn:Hx in Hb; [|done]. injection Hb as <-. apply str_eqb_eq in Hx as ->. reflexivity.
Qed.

Lemma requests_are_served_witness :
  ∃ h' a ops, @Http.ServeHTTP toy None (Some [layer_peer]) 3 "u" 0 pull_layer (Http.Server.mk ∅ ∅ empty_db) = Some (h', a)
    ∧ Http.Response.Status a = 200%Z ∧ Http.Response.Body a = "l" ∧ Http.Server.blobs h' = {[toy_name "l" := "l"]}
    ∧ @blob_effect toy (Some [layer_peer]) pull_layer ("sha256:" +:+ toy_name "l") (Http.Server.mk ∅ ∅ empty_db) h' a
    ∧ @moves toy ops (empty_db, ∅) (Http.Server.meta h', Http.Server.blobs h').
Proof.
  destruct (requests_are_served toy toy_ok None (Some [layer_peer]) 3 "u" 0 pull_layer (Http.Server.mk ∅ ∅ empty_db) pull_layer_named)
    as (h' & a & ops & Hs & _ & He & M & _).
  specialize (He eq_refl). change (@effect toy (Some [layer_peer]) "u" 0 pull_layer ops (Http.Server.mk ∅ ∅ empty_db) h' a)
    with (@blob_effect toy (Some [layer_peer]) pull_layer ("sha256:" +:+ toy_name "l") (Http.Server.mk ∅ ∅ empty_db) h' a) in He.
  exists h', a, ops. split; [exact Hs|]. revert He M. vm_compute in Hs. injection Hs as <- <-. intros He M.
  split; [reflexivity|]. split; [reflexivity|]. split; [reflexivity|]. split; [exact He|exact M].
Defined.
