(* ===== verification/Bytes.v ===== *)
(** Bytes: the little-endian words and the varints of Go's encoding/binary, and readers
    that take what they need off the front of a list of bytes. *)
From S2P Require Import Prelude.
From Stdlib Require Import Ascii.

(** * Readers *)

(** [None] is an error. *)
Definition reader (A : Type) : Type := list ascii → option (A * list ascii).

Definition rret {A} (a : A) : reader A := λ bs, Some (a, bs).
Definition rbind {A B} (m : reader A) (k : A → reader B) : reader B := λ bs, '(a, bs) ← m bs; k a bs.

Lemma bound_read {A B} (m : reader A) (k : A → reader B) a bs bs' : m bs = Some (a, bs') → rbind m k bs = k a bs'.
Proof. unfold rbind. by intros ->. Qed.

Fixpoint get_bytes (n : nat) : reader (list ascii) :=
  match n with
  | 0 => rret []
  | S n => λ bs, match bs with [] => None | b :: bs => '(l, bs) ← get_bytes n bs; Some (b :: l, bs) end
  end.

Lemma get_bytes_app l bs : get_bytes (length l) (l ++ bs) = Some (l, bs).
Proof. induction l as [|b l IH]; [done|]. cbn [length get_bytes app]. by rewrite IH. Qed.

Lemma get_bytes_spec n bs : get_bytes n bs = if (n <=? length bs)%nat then Some (take n bs, drop n bs) else None.
Proof.
  revert bs. induction n as [|n IH]; intros [|b bs]; cbn [get_bytes]; try done. rewrite IH. cbn [length Nat.leb].
  by destruct (n <=? length bs)%nat.
Qed.

(** * Words *)

Fixpoint put_le (n : nat) (w : Z) : list ascii :=
  match n with 0 => [] | S n => ascii_of_N (Z.to_N (w mod 256)) :: put_le n (w / 256)%Z end.

Fixpoint get_le (n : nat) : reader Z :=
  match n with
  | 0 => rret 0%Z
  | S n => λ bs, match bs with [] => None | b :: bs => '(w, bs) ← get_le n bs; Some (Z.of_N (N_of_ascii b) + 256 * w, bs)%Z end
  end.

Lemma length_put_le n w : length (put_le n w) = n.
Proof. revert w. induction n as [|n IH]; intros w; [done|]. cbn [put_le length]. by rewrite IH. Qed.

Lemma get_put_le n w bs : get_le n (put_le n w ++ bs) = Some ((w mod 256 ^ Z.of_nat n)%Z, bs).
Proof.
  revert w. induction n as [|n IH]; intros w; cbn [put_le get_le app].
  - unfold rret. cbn. by rewrite Z.mod_1_r.
  - rewrite IH. cbn [mbind option_bind]. do 2 f_equal. pose proof (Z.mod_pos_bound w 256 ltac:(done)).
    rewrite N_ascii_embedding by lia. rewrite Z2N.id by lia.
    rewrite Nat2Z.inj_succ, Z.pow_succ_r by lia. rewrite Z.rem_mul_r by lia. lia.
Qed.

Lemma get_put_small n w bs : (0 ≤ w < 256 ^ Z.of_nat n)%Z → get_le n (put_le n w ++ bs) = Some (w, bs).
Proof. intros H. by rewrite get_put_le, Z.mod_small. Qed.

Lemma get_put_i64 w bs : in_i64 w → ∃ u, get_le 8 (put_le 8 w ++ bs) = Some (u, bs) ∧ i64 u = w.
Proof.
  intros [H1 H2]. eexists. split; [apply get_put_le|]. unfold i64. change (256 ^ Z.of_nat 8)%Z with (2 ^ 64)%Z.
  rewrite Zplus_mod_idemp_l, Z.mod_small; lia.
Qed.

(** binary.Write of a slice of words of [n] bytes. *)
Definition put_words (n : nat) (ws : list Z) : list ascii := ws ≫= put_le n.

Fixpoint get_words (n count : nat) : reader (list Z) :=
  match count with
  | 0 => rret []
  | S count => rbind (get_le n) (λ w, rbind (get_words n count) (λ ws, rret (w :: ws)))
  end.

Lemma get_put_words n ws bs : Forall (λ w, 0 ≤ w < 256 ^ Z.of_nat n)%Z ws → get_words n (length ws) (put_words n ws ++ bs) = Some (ws, bs).
Proof.
  induction 1 as [|w ws Hw _ IH]; [done|]. cbn [length get_words]. unfold put_words. rewrite bind_cons, <- app_assoc. unfold rbind at 1.
  rewrite get_put_small by done. cbn [mbind option_bind]. unfold rbind. unfold put_words in IH. rewrite IH. done.
Qed.

Lemma get_put_slots ws bs : Forall in_i64 ws → ∃ us, get_words 8 (length ws) (put_words 8 ws ++ bs) = Some (us, bs) ∧ i64 <$> us = ws.
Proof.
  induction 1 as [|w ws Hw _ (us & IH & Hus)]; [by exists []|]. destruct (get_put_i64 w (put_words 8 ws ++ bs) Hw) as (u & Hu & Hi).
  exists (u :: us). split; [|cbn; by rewrite Hi, Hus]. cbn [length get_words]. unfold put_words. rewrite bind_cons, <- app_assoc. unfold rbind at 1.
  unfold put_words in Hu. rewrite Hu. cbn [mbind option_bind]. unfold rbind. unfold put_words in IH. rewrite IH. done.
Qed.

(** * Varints *)

(** binary.AppendUvarint of a uint64: ten bytes are enough for 64 bits. *)
Fixpoint put_uvarint_from (fuel : nat) (x : Z) : list ascii :=
  match fuel with
  | 0 => []
  | S fuel =>
    if (x <? 0x80)%Z then [ascii_of_N (Z.to_N x)]
    else ascii_of_N (Z.to_N (Z.lor (x mod 256) 0x80)) :: put_uvarint_from fuel (Z.shiftr x 7)
  end.

Definition put_uvarint (x : Z) : list ascii := put_uvarint_from 10 x.

(** binary.ReadUvarint: the [i]-th byte on; an error at the end of the input, and when the
    number does not fit 64 bits. *)
Fixpoint get_uvarint_from (more i : nat) (x : Z) : reader Z :=
  match more with
  | 0 => λ _, None
  | S more => λ bs,
    match bs with
    | [] => None
    | b :: bs =>
      let b := Z.of_N (N_of_ascii b) in
      if (b <? 0x80)%Z then
        if (i =? 9)%nat && (1 <? b)%Z then None
        else Some (Z.lor x (u64 (Z.shiftl b (7 * Z.of_nat i))), bs)
      else get_uvarint_from more (S i) (Z.lor x (u64 (Z.shiftl (Z.land b 0x7f) (7 * Z.of_nat i)))) bs
    end
  end.

Definition get_uvarint : reader Z := get_uvarint_from 10 0 0.

Definition byte_continues (r : Z) : bool :=
  ((0x80 <=? Z.lor r 0x80) && (Z.lor r 0x80 <? 256) && (Z.land (Z.lor r 0x80) 0x7f =? Z.land r 0x7f))%Z.

Lemma bytes_continue : forallb byte_continues (seqZ 0 256) = true.
Proof. vm_compute. reflexivity. Qed.

Lemma continued_byte x :
  (0x80 ≤ Z.lor (x mod 256) 0x80 < 256)%Z ∧ Z.land (Z.lor (x mod 256) 0x80) 0x7f = Z.land x (Z.ones 7).
Proof.
  pose proof (Z.mod_pos_bound x 256 ltac:(done)) as Hr. pose proof bytes_continue as H.
  rewrite forallb_forall in H. specialize (H (x mod 256)%Z). unfold byte_continues in H. rewrite <- list_elem_of_In, elem_of_seqZ in H.
  specialize (H ltac:(lia)). apply andb_true_iff in H as [[H1%Z.leb_le H2%Z.ltb_lt]%andb_true_iff H3%Z.eqb_eq]. split; [lia|]. rewrite H3.
  change 256%Z with (2 ^ 8)%Z. rewrite <- Z.land_ones by lia. apply Z.bits_inj'. intros n Hn. change 0x7f%Z with (Z.ones 7). rewrite !Z.land_spec.
  destruct (decide (n < 7)%Z); [|rewrite (Z.ones_spec_high 7) by lia; by rewrite !andb_false_r].
  rewrite (Z.ones_spec_low 8) by lia. by rewrite andb_true_r.
Qed.

Lemma low_and_high x s : (0 ≤ x)%Z → (0 ≤ s)%Z → Z.lor (Z.shiftl (Z.land x (Z.ones 7)) s) (Z.shiftl (Z.shiftr x 7) (s + 7)) = Z.shiftl x s.
Proof.
  intros Hx Hs. rewrite Z.add_comm, <- (Z.shiftl_shiftl _ 7) by lia. rewrite <- Z.shiftl_lor. f_equal. rewrite <- Z.ldiff_ones_r by lia.
  apply Z.bits_inj'. intros n Hn. rewrite Z.lor_spec, Z.land_spec, Z.ldiff_spec. by destruct (Z.testbit x n), (Z.testbit (Z.ones 7) n).
Qed.

Lemma u64_shift v s k : (0 ≤ v < 2 ^ k)%Z → (0 ≤ s)%Z → (0 ≤ k)%Z → (s + k ≤ 64)%Z → u64 (Z.shiftl v s) = Z.shiftl v s.
Proof.
  intros Hv Hs Hk Hb. unfold u64. apply Z.mod_small. rewrite Z.shiftl_mul_pow2 by lia.
  assert (v * 2 ^ s < 2 ^ k * 2 ^ s)%Z by (apply Z.mul_lt_mono_pos_r; lia). rewrite <- Z.pow_add_r in H by lia.
  assert (2 ^ (k + s) ≤ 2 ^ 64)%Z by (apply Z.pow_le_mono_r; lia). split; [apply Z.mul_nonneg_nonneg; lia|lia].
Qed.

Lemma get_put_uvarint_from m i a x bs :
  (m + i = 10)%nat → (0 ≤ x < 2 ^ (64 - 7 * Z.of_nat i))%Z →
  get_uvarint_from m i a (put_uvarint_from m x ++ bs) = Some (Z.lor a (Z.shiftl x (7 * Z.of_nat i)), bs).
Proof.
  revert i a x. induction m as [|m IH]; intros i a x Hi Hx.
  { replace i with 10%nat in Hx by lia. change (2 ^ (64 - 7 * Z.of_nat 10))%Z with 0%Z in Hx. lia. }
  cbn [put_uvarint_from]. destruct (x <? 0x80)%Z eqn:E; cbn [app get_uvarint_from].
  - apply Z.ltb_lt in E. rewrite N_ascii_embedding by lia. rewrite Z2N.id by lia. rewrite (proj2 (Z.ltb_lt _ _) E).
    assert ((i =? 9)%nat && (1 <? x)%Z = false) as ->.
    { destruct (i =? 9)%nat eqn:E9; [|done]. apply Nat.eqb_eq in E9 as ->. cbn [andb]. change (2 ^ (64 - 7 * Z.of_nat 9))%Z with 2%Z in Hx. lia. }
    rewrite (u64_shift x _ (64 - 7 * Z.of_nat i)) by lia. done.
  - apply Z.ltb_ge in E. destruct (continued_byte x) as [Hb Hl]. rewrite N_ascii_embedding by lia. rewrite Z2N.id by lia.
    rewrite (proj2 (Z.ltb_ge _ 128)) by lia. rewrite Hl.
    assert (i ≤ 8)%nat. { destruct (decide (i ≤ 8)%nat); [done|]. replace i with 9%nat in Hx by lia. change (2 ^ (64 - 7 * Z.of_nat 9))%Z with 2%Z in Hx. lia. }
    rewrite (u64_shift _ _ 7); [|rewrite Z.land_ones by lia; apply Z.mod_pos_bound; done|lia|lia|lia].
    rewrite IH; [|lia|].
    + rewrite <- Z.lor_assoc. replace (7 * Z.of_nat (S i))%Z with (7 * Z.of_nat i + 7)%Z by lia. by rewrite low_and_high by lia.
    + split; [apply Z.shiftr_nonneg; lia|]. rewrite Z.shiftr_div_pow2 by lia. apply Z.div_lt_upper_bound; [lia|].
      rewrite <- Z.pow_add_r by lia. replace (7 + (64 - 7 * Z.of_nat (S i)))%Z with (64 - 7 * Z.of_nat i)%Z by lia. lia.
Qed.

(** A varint is read back. *)
Lemma get_put_uvarint x bs : (0 ≤ x < 2 ^ 64)%Z → get_uvarint (put_uvarint x ++ bs) = Some (x, bs).
Proof.
  intros Hx. unfold get_uvarint, put_uvarint. rewrite get_put_uvarint_from by (change (64 - 7 * Z.of_nat 0)%Z with 64%Z; lia).
  change (7 * Z.of_nat 0)%Z with 0%Z. by rewrite Z.shiftl_0_r, Z.lor_0_l.
Qed.

(** A varint that was cut off is an error. *)
Lemma get_torn_uvarint_from m m' i a x p : p `prefix_of` put_uvarint_from m x → p ≠ put_uvarint_from m x → get_uvarint_from m' i a p = None.
Proof.
  revert m' i a x p. induction m as [|m IH]; intros m' i a x p [q Hq] Hne; cbn [put_uvarint_from] in *.
  { destruct p; [by destruct m'|done]. }
  destruct p as [|b p]; [by destruct m'|]. destruct (x <? 0x80)%Z.
  - injection Hq as <- Hq. destruct p; [done|done].
  - injection Hq as <- Hq. destruct m' as [|m']; [done|]. cbn [get_uvarint_from]. destruct (continued_byte x) as [Hb _].
    rewrite N_ascii_embedding by lia. rewrite Z2N.id by lia. rewrite (proj2 (Z.ltb_ge _ 128)) by lia.
    apply (IH m' (S i) _ (Z.shiftr x 7)); [by exists q|congruence].
Qed.

Lemma get_torn_uvarint x p : p `prefix_of` put_uvarint x → p ≠ put_uvarint x → get_uvarint p = None.
Proof. apply get_torn_uvarint_from. Qed.

Lemma put_uvarint_not_nil x : put_uvarint x ≠ [].
Proof. unfold put_uvarint. cbn [put_uvarint_from]. by destruct (x <? 128)%Z. Qed.

Lemma get_uvarint_length m i a bs x bs' : get_uvarint_from m i a bs = Some (x, bs') → (length bs' < length bs)%nat.
Proof.
  revert i a bs. induction m as [|m IH]; intros i a [|b bs]; cbn [get_uvarint_from]; try done.
  destruct (_ <? 0x80)%Z; [destruct (_ && _); [done|]; intros [= _ <-]; cbn; lia|]. intros H%IH. cbn. lia.
Qed.
