(* ===== verification/Tsdb.v ===== *)
(** The metrics of a node (internal/daemon/tsdb): per series two rings, one of samples
    every 15 seconds for a day, one of averages over 5 minutes for 30 days (ring.go), and
    the flat file they are written to.

    Times are nanoseconds since the epoch.  A float32 is its 32-bit word; the arithmetic
    is that of the specification floats, and a NaN always has the quiet bit only.  A file
    is a list of bytes or missing; a failing disk is not modelled.  The lock makes every
    method one step. *)
From S2P Require Import Prelude F64 Bytes.
From Stdlib Require Import Ascii SpecFloat.

(** * float32 *)

Module F32.

Definition prec : Z := 24.
Definition emax : Z := 128.

(** math.Float32frombits and math.Float32bits. *)
Definition of_bits (w : Z) : spec_float :=
  let s := Z.testbit w 31 in
  let e := (Z.shiftr w 23 mod 256)%Z in
  let m := (w mod 2 ^ 23)%Z in
  if (e =? 255)%Z then (if (m =? 0)%Z then S754_infinity s else S754_nan)
  else if (e =? 0)%Z then
    match m with Zpos p => S754_finite s p (-149) | _ => S754_zero s end
  else S754_finite s (Z.to_pos (m + 2 ^ 23)) (e - 150).

Definition sign_bit (s : bool) : Z := if s then (2 ^ 31)%Z else 0%Z.

Definition to_bits (x : spec_float) : Z :=
  u32 match x with
  | S754_zero s => sign_bit s
  | S754_infinity s => sign_bit s + 255 * 2 ^ 23
  | S754_nan => 255 * 2 ^ 23 + 2 ^ 22
  | S754_finite s m e =>
    if (Zpos m <? 2 ^ 23)%Z then sign_bit s + Zpos m
    else sign_bit s + (e + 150) * 2 ^ 23 + (Zpos m - 2 ^ 23)
  end.

(** The conversions float32(x) and float64(x). *)
Definition round (p em : Z) (x : spec_float) : spec_float :=
  match x with S754_finite s m e => binary_normalize p em (if s then Zneg m else Zpos m) e s | _ => x end.

Definition of_f64 (x : f64) : Z := to_bits (round prec emax x).
Definition to_f64 (w : Z) : f64 := round F64.prec F64.emax (of_bits w).
Definition ofZ (n : Z) : Z := to_bits (binary_normalize prec emax n 0 false).

Definition add (a b : Z) : Z := to_bits (SFadd prec emax (of_bits a) (of_bits b)).
Definition sub (a b : Z) : Z := to_bits (SFsub prec emax (of_bits a) (of_bits b)).
Definition div (a b : Z) : Z := to_bits (SFdiv prec emax (of_bits a) (of_bits b)).

End F32.

Example f32_third : F32.to_f64 (F32.div (F32.ofZ 1) (F32.ofZ 4)) = F64.div (F64.ofZ 1) (F64.ofZ 4).
Proof. vm_compute. reflexivity. Qed.

Example f32_word : F32.of_f64 (F64.div (F64.ofZ (-7)) (F64.ofZ 2)) = 3227516928%Z.
Proof. vm_compute. reflexivity. Qed.

(** * The contract (store.go) *)

Module SeriesKey.
Record t := mk { Metric : string; Scope : string; ScopeID : string }.

#[global] Instance eq_dec : EqDecision t.
Proof. solve_decision. Defined.

#[global] Instance countable : Countable t.
Proof.
  refine (inj_countable' (λ k, (Metric k, Scope k, ScopeID k)) (λ p, mk p.1.1 p.1.2 p.2) _). by intros [].
Defined.
End SeriesKey.

Module Point.
Record t := mk { Time : Z; Value : f64 }.
End Point.

Definition nanos : Z := (10 ^ 9)%Z.
Definition RawStep : Z := (15 * nanos)%Z.
Definition RawRetention : Z := (24 * 3600 * nanos)%Z.
Definition DownStep : Z := (300 * nanos)%Z.
Definition DownRetention : Z := (30 * 24 * 3600 * nanos)%Z.

(** * The rings (ring.go) *)

Module Tsdb.

Definition rawSlots : Z := (RawRetention / RawStep)%Z.
Definition downSlots : Z := (DownRetention / DownStep)%Z.
Definition rawStepSec : Z := (RawStep / nanos)%Z.
Definition downStepSec : Z := (DownStep / nanos)%Z.
Definition gcAge : Z := (48 * 3600 * nanos)%Z.
Definition emptySlot : Z := (-1)%Z.

(** time.Time.Unix *)
Definition Unix (t : Z) : Z := (t / nanos)%Z.

Module ring.
Record t := mk { abs : list Z; val : list Z; cnt : list Z }.
End ring.

Definition newRing (size : Z) (downsampled : bool) : ring.t :=
  let n := Z.to_nat size in
  ring.mk (replicate n emptySlot) (replicate n 0%Z) (if downsampled then replicate n 0%Z else []).

Module series.
Record t := mk { raw : ring.t; down : ring.t; curAbs : Z }.
End series.

Definition newSeries : series.t := series.mk (newRing rawSlots false) (newRing downSlots true) emptySlot.

(** An element of a slice, at an index of its range. *)
Definition at_ (l : list Z) (pos : Z) : Z := default 0%Z (l !! Z.to_nat pos).
Definition set_ (l : list Z) (pos v : Z) : list Z := <[Z.to_nat pos := v]> l.

Definition u16 (z : Z) : Z := (z mod 2 ^ 16)%Z.

(** feedDown, on the ring it changes. *)
Definition feedDown (downAbs v : Z) (d : ring.t) : ring.t :=
  let pos := Z.rem downAbs downSlots in
  if negb (at_ (ring.abs d) pos =? downAbs)%Z then
    ring.mk (set_ (ring.abs d) pos downAbs) (set_ (ring.val d) pos v) (set_ (ring.cnt d) pos 1)
  else
    let c := at_ (ring.cnt d) pos in
    let old := at_ (ring.val d) pos in
    ring.mk (ring.abs d) (set_ (ring.val d) pos (F32.add old (F32.div (F32.sub v old) (F32.ofZ (u16 (c + 1))))))
      (if (c <? 2 ^ 16 - 1)%Z then set_ (ring.cnt d) pos (c + 1)%Z else ring.cnt d).

(** What Record does to the series of its key. *)
Definition sample (unix v : Z) (se : series.t) : series.t :=
  let rawAbs := Z.quot unix rawStepSec in
  if negb (series.curAbs se =? emptySlot)%Z && (rawAbs <? series.curAbs se)%Z then se
  else
    let rpos := Z.rem rawAbs rawSlots in
    let raw := ring.mk (set_ (ring.abs (series.raw se)) rpos rawAbs) (set_ (ring.val (series.raw se)) rpos v) (ring.cnt (series.raw se)) in
    if (series.curAbs se <? rawAbs)%Z
    then series.mk raw (feedDown (Z.quot unix downStepSec) v (series.down se)) rawAbs
    else series.mk raw (series.down se) (series.curAbs se).

Definition Record_ (key : SeriesKey.t) (p : Point.t) (s : gmap SeriesKey.t series.t) : gmap SeriesKey.t series.t :=
  let unix := Unix (Point.Time p) in
  if (unix <? 0)%Z then s
  else <[key := sample unix (F32.of_f64 (Point.Value p)) (default newSeries (s !! key))]> s.

(** The loop of Query over one ring. *)
Definition scan (r : ring.t) (size stepSec fromAbs toAbs : Z) : list Point.t :=
  omap (λ a,
    let pos := Z.rem (Z.rem a size + size) size in
    if (at_ (ring.abs r) pos =? a)%Z then Some (Point.mk (a * stepSec * nanos) (F32.to_f64 (at_ (ring.val r) pos))) else None)
    (seqZ fromAbs (toAbs - fromAbs + 1)).

Definition query_series (se : series.t) (since until step : Z) : list Point.t :=
  let '(stepSec, r, size) :=
    if (DownStep <=? step)%Z then (downStepSec, series.down se, downSlots) else (rawStepSec, series.raw se, rawSlots) in
  let fromAbs := Z.quot (Unix since) stepSec in
  let toAbs := Z.quot (Unix until) stepSec in
  let lo := (toAbs - size + 1)%Z in
  scan r size stepSec (if (fromAbs <? lo)%Z then lo else fromAbs) toAbs.

Definition Query (key : SeriesKey.t) (since until step : Z) (s : gmap SeriesKey.t series.t) : list Point.t :=
  if (until <? since)%Z then []
  else match s !! key with None => [] | Some se => query_series se since until step end.

(** gc: what Flush keeps. *)
Definition fresh (now : Z) (se : series.t) : bool :=
  let cutoff := Z.quot (Unix (now - gcAge)) rawStepSec in
  negb ((series.curAbs se =? emptySlot)%Z || (series.curAbs se <? cutoff)%Z).

Definition gc (now : Z) (s : gmap SeriesKey.t series.t) : gmap SeriesKey.t series.t :=
  filter (λ kv, fresh now kv.2 = true) s.

Section file.

(** The order of [range s.series]. *)
Variable order : gmap SeriesKey.t series.t → list (SeriesKey.t * series.t).

Definition Keys (scope scopeID : string) (s : gmap SeriesKey.t series.t) : list SeriesKey.t :=
  List.filter (λ k,
    negb (negb (scope =? "") && negb (SeriesKey.Scope k =? scope))
    && negb (negb (scopeID =? "") && negb (SeriesKey.ScopeID k =? scopeID))) (fst <$> order s).

(** ** Writing *)

Definition fileMagic : Z := 0x5A545344.
Definition fileVersion : Z := 1.

Definition writeString (str : string) : list ascii :=
  put_le 4 (u32 (Z.of_nat (String.length str))) ++ String.list_ascii_of_string str.

Definition encode_series (kv : SeriesKey.t * series.t) : list ascii :=
  let '(k, se) := kv in
  writeString (SeriesKey.Metric k) ++ writeString (SeriesKey.Scope k) ++ writeString (SeriesKey.ScopeID k)
  ++ put_le 8 (series.curAbs se)
  ++ put_words 8 (ring.abs (series.raw se)) ++ put_words 4 (ring.val (series.raw se))
  ++ put_words 8 (ring.abs (series.down se)) ++ put_words 4 (ring.val (series.down se)) ++ put_words 2 (ring.cnt (series.down se)).

Definition encode (s : gmap SeriesKey.t series.t) : list ascii :=
  put_le 4 fileMagic ++ put_le 4 fileVersion ++ put_le 4 (u32 (Z.of_nat (size s))) ++ (order s ≫= encode_series).

(** ** Reading *)

Definition readString : reader string :=
  rbind (get_le 4) (λ n, if (2 ^ 20 <? n)%Z then λ _, None
                         else rbind (get_bytes (Z.to_nat n)) (λ l, rret (String.string_of_list_ascii l))).

Definition decode_series : reader (SeriesKey.t * series.t) :=
  rbind readString (λ metric, rbind readString (λ scope, rbind readString (λ scopeID,
  rbind (get_le 8) (λ cur,
  rbind (get_words 8 (Z.to_nat rawSlots)) (λ rabs, rbind (get_words 4 (Z.to_nat rawSlots)) (λ rval,
  rbind (get_words 8 (Z.to_nat downSlots)) (λ dabs, rbind (get_words 4 (Z.to_nat downSlots)) (λ dval,
  rbind (get_words 2 (Z.to_nat downSlots)) (λ dcnt,
  rret (SeriesKey.mk metric scope scopeID,
        series.mk (ring.mk (i64 <$> rabs) rval []) (ring.mk (i64 <$> dabs) dval dcnt) (i64 cur))))))))))).

(** The loop of decode; it ends at the latest when the input does. *)
Fixpoint decode_all (fuel : nat) (n : Z) (loaded : gmap SeriesKey.t series.t) : reader (gmap SeriesKey.t series.t) :=
  if (n <=? 0)%Z then rret loaded
  else match fuel with
  | 0 => λ _, None
  | S fuel => rbind decode_series (λ kv, decode_all fuel (n - 1) (<[kv.1 := kv.2]> loaded))
  end.

Definition decode (bs : list ascii) : option (gmap SeriesKey.t series.t) :=
  '(magic, bs) ← get_le 4 bs;
  '(version, bs) ← get_le 4 bs;
  '(n, bs) ← get_le 4 bs;
  if negb (magic =? fileMagic)%Z then None
  else if negb (version =? fileVersion)%Z then None
  else '(loaded, _) ← decode_all (length bs) n ∅ bs; Some loaded.

(** ** The store and its file *)

Definition Open (f : option (list ascii)) : gmap SeriesKey.t series.t :=
  match f with None => ∅ | Some bs => default ∅ (decode bs) end.

Definition Flush (now : Z) (s : gmap SeriesKey.t series.t) : gmap SeriesKey.t series.t * list ascii :=
  let s := gc now s in (s, encode s).

End file.
End Tsdb.
