(* ===== verification/TsdbProps.v ===== *)
(** The rings of Tsdb.v against a store that forgets nothing, their file, and the bound on
    which their averages rest. *)
From S2P Require Import Prelude F64 Bytes Tsdb.
From Stdlib Require Import Ascii SpecFloat.

Import Tsdb.

#[local] Opaque rawSlots downSlots Z.to_nat.

(** * One ring against an unbounded map *)

Section represents.
Context {X : Type} (f : X → Z) (size : Z).
Hypothesis Hsize : (0 < size)%Z.

(** A position holds the greatest slot of its residue class. *)
Record represents (r : ring.t) (m : gmap Z X) : Prop := {
  r_abs : length (ring.abs r) = Z.to_nat size;
  r_val : length (ring.val r) = Z.to_nat size;
  r_keys : ∀ a x, m !! a = Some x → (0 ≤ a)%Z;
  r_pos : ∀ pos, (0 ≤ pos < size)%Z →
    at_ (ring.abs r) pos = emptySlot ∧ (∀ a x, m !! a = Some x → (a mod size)%Z ≠ pos)
    ∨ ∃ x, m !! at_ (ring.abs r) pos = Some x ∧ (at_ (ring.abs r) pos mod size)%Z = pos ∧ at_ (ring.val r) pos = f x
        ∧ ∀ b y, m !! b = Some y → (b mod size)%Z = pos → (b ≤ at_ (ring.abs r) pos)%Z
}.

(** The slot was reused. *)
Definition overwritten (m : gmap Z X) (a : Z) : bool :=
  existsb (λ b, (a <? b) && (b mod size =? a mod size))%Z (map_to_list m).*1.

Definition visible (m : gmap Z X) (a : Z) : option X := if overwritten m a then None else m !! a.

Lemma overwritten_spec m a : overwritten m a = true ↔ ∃ b x, m !! b = Some x ∧ (a < b)%Z ∧ (b mod size = a mod size)%Z.
Proof.
  unfold overwritten. rewrite existsb_exists. split.
  - intros (b & Hb & Hc). apply list_elem_of_In, list_elem_of_fmap in Hb as ([b' x] & -> & Hx). apply elem_of_map_to_list in Hx.
    apply andb_prop in Hc as [H1 H2]. exists b', x. cbn in *. split_and!; [done|lia|lia].
  - intros (b & x & Hb & H1 & H2). exists b. split; [|apply andb_true_intro; lia].
    apply list_elem_of_In, list_elem_of_fmap. exists (b, x). split; [done|]. by apply elem_of_map_to_list.
Qed.

Lemma at_set_eq l pos v : (0 ≤ pos < Z.of_nat (length l))%Z → at_ (set_ l pos v) pos = v.
Proof. intros H. unfold at_, set_. rewrite list_lookup_insert_eq; [done|lia]. Qed.

Lemma at_set_ne l pos pos' v : (0 ≤ pos)%Z → (0 ≤ pos')%Z → pos ≠ pos' → at_ (set_ l pos v) pos' = at_ l pos'.
Proof. intros. unfold at_, set_. rewrite list_lookup_insert_ne; [done|]. intros E. apply Z2Nat.inj in E; lia. Qed.

Lemma represents_lookup r m a : represents r m → (0 ≤ a)%Z →
  (if (at_ (ring.abs r) (a mod size) =? a)%Z then Some (at_ (ring.val r) (a mod size)) else None) = f <$> visible m a.
Proof.
  intros R Ha. pose proof (Z.mod_pos_bound a size Hsize) as Hp.
  destruct (r_pos _ _ R _ Hp) as [[He Hn]|(x & Hx & Hm & Hv & Hmax)].
  - rewrite He. unfold emptySlot. destruct (-1 =? a)%Z eqn:E; [lia|]. unfold visible.
    destruct (overwritten m a); [done|]. destruct (m !! a) as [x|] eqn:Hx; [|done]. by destruct (Hn a x Hx).
  - destruct (at_ (ring.abs r) (a mod size) =? a)%Z eqn:E.
    + apply Z.eqb_eq in E. rewrite E in *. unfold visible. destruct (overwritten m a) eqn:O; [|by rewrite Hx, Hv].
      apply overwritten_spec in O as (b & y & Hb & Hlt & Hmod). specialize (Hmax b y Hb Hmod). lia.
    + apply Z.eqb_neq in E. unfold visible. destruct (overwritten m a) eqn:O; [done|].
      destruct (m !! a) as [y|] eqn:Hy; [|done]. specialize (Hmax a y Hy eq_refl). exfalso.
      apply not_true_iff_false in O. apply O, overwritten_spec. exists (at_ (ring.abs r) (a mod size)), x. split_and!; [done|lia|done].
Qed.

Lemma represents_insert r m a x cnt :
  represents r m → (0 ≤ a)%Z → (∀ b y, m !! b = Some y → (b mod size = a mod size)%Z → (b ≤ a)%Z) →
  represents (ring.mk (set_ (ring.abs r) (a mod size) a) (set_ (ring.val r) (a mod size) (f x)) cnt) (<[a := x]> m).
Proof.
  intros R Ha Hmax. pose proof (Z.mod_pos_bound a size Hsize) as Hp.
  assert (a mod size < Z.of_nat (length (ring.abs r)))%Z as La by (rewrite (r_abs _ _ R); lia).
  assert (a mod size < Z.of_nat (length (ring.val r)))%Z as Lv by (rewrite (r_val _ _ R); lia).
  constructor; cbn [ring.abs ring.val].
  - unfold set_. rewrite length_insert. apply R.
  - unfold set_. rewrite length_insert. apply R.
  - intros b y Hb. destruct (decide (a = b)) as [<-|Hab]; [done|]. rewrite lookup_insert_ne in Hb by done. by apply (r_keys _ _ R b y).
  - intros pos Hpos. destruct (decide (a mod size = pos)%Z) as [<-|Hne].
    + right. exists x. rewrite !at_set_eq by lia. rewrite lookup_insert_eq. split_and!; [done..|].
      intros b y Hb Hbm. destruct (decide (a = b)) as [<-|Hab]; [done|]. rewrite lookup_insert_ne in Hb by done. by apply (Hmax b y).
    + rewrite !at_set_ne by lia. destruct (r_pos _ _ R pos Hpos) as [[He Hn]|(y & Hy & Hm & Hv & Hmx)]; [left|right].
      * split; [done|]. intros b y Hb. destruct (decide (a = b)) as [<-|Hab]; [done|]. rewrite lookup_insert_ne in Hb by done. by apply (Hn b y).
      * exists y. split_and!; [|done|done|].
        -- rewrite lookup_insert_ne; [done|]. intros E. rewrite <- E in Hm. done.
        -- intros b z Hb Hbm. destruct (decide (a = b)) as [<-|Hab]; [done|]. rewrite lookup_insert_ne in Hb by done. by apply (Hmx b z).
Qed.

Lemma represents_new b : represents (newRing size b) ∅.
Proof.
  constructor; cbn [newRing ring.abs ring.val]; try apply length_replicate; [intros a x Ha; by rewrite lookup_empty in Ha|].
  intros pos Hpos. left. split; [|intros a x Ha; by rewrite lookup_empty in Ha].
  unfold at_. rewrite lookup_replicate_2; [done|]. apply Z2Nat.inj_lt; lia.
Qed.

(** The loop of Query, on the map. *)
Lemma scan_visible r m stepSec from to : represents r m → (0 ≤ from)%Z →
  scan r size stepSec from to =
    omap (λ a, (λ x, Point.mk (a * stepSec * nanos) (F32.to_f64 (f x))) <$> visible m a) (seqZ from (to - from + 1)).
Proof.
  intros R Hf. unfold scan. apply list_omap_ext. apply Forall2_same_length_lookup. split; [done|]. intros i a b Ha Hb.
  assert (a = b) as <- by congruence. clear Hb. apply lookup_seqZ in Ha as [-> Hi]. set (a := (from + Z.of_nat i)%Z).
  assert (Z.rem (Z.rem a size + size) size = (a mod size)%Z) as ->.
  { assert (0 ≤ a)%Z as Ha0 by lia. clearbody a. pose proof (Z.mod_pos_bound a size Hsize).
    rewrite (Z.rem_mod_nonneg a size) by lia. rewrite Z.rem_mod_nonneg by lia.
    rewrite Zplus_mod, Z.mod_mod, Z_mod_same_full, Z.add_0_r, Z.mod_mod by lia. done. }
  pose proof (represents_lookup r m a R ltac:(lia)) as H.
  destruct (at_ (ring.abs r) (a mod size) =? a)%Z; destruct (visible m a); simplify_eq/=; try done. by rewrite H.
Qed.

(** What is recent enough was not overwritten. *)
Lemma recent_visible m a x cur : m !! a = Some x → (∀ b y, m !! b = Some y → b ≤ cur)%Z → (cur - a < size)%Z → visible m a = Some x.
Proof.
  intros Hx Hmax Hr. unfold visible. destruct (overwritten m a) eqn:O; [|done]. exfalso.
  apply overwritten_spec in O as (b & y & Hb & Hlt & Hm). specialize (Hmax b y Hb).
  assert ((b - a) mod size = 0)%Z as H0 by (rewrite Zminus_mod, Hm, Z.sub_diag; apply Z.mod_0_l; lia).
  rewrite Z.mod_small in H0; lia.
Qed.
End represents.

(** * The store that forgets nothing

    Per series the last value of every raw slot, and of every slot of five minutes the
    values that its raw slots were opened with, which are averaged one by one. *)

Module Unbounded.
Record t := mk { cur : Z; slots : gmap Z Z; opened : gmap Z (list Z) }.

Definition new : t := mk emptySlot ∅ ∅.

(** The running mean, in float32. *)
Definition mean_step (acc : Z * Z) (v : Z) : Z * Z :=
  (F32.add acc.1 (F32.div (F32.sub v acc.1) (F32.ofZ (acc.2 + 1))), acc.2 + 1)%Z.

Definition mean (l : list Z) : Z := match l with [] => 0%Z | v :: l => (foldl mean_step (v, 1%Z) l).1 end.

Definition sample (unix v : Z) (p : t) : t :=
  let a := (unix / rawStepSec)%Z in
  if (a <? cur p)%Z then p
  else
    let d := (unix / downStepSec)%Z in
    mk a (<[a := v]> (slots p)) (if (cur p <? a)%Z then <[d := default [] (opened p !! d) ++ [v]]> (opened p) else opened p).

Definition Record_ (key : SeriesKey.t) (pt : Point.t) (s : gmap SeriesKey.t t) : gmap SeriesKey.t t :=
  let unix := Unix (Point.Time pt) in
  if (unix <? 0)%Z then s
  else <[key := sample unix (F32.of_f64 (Point.Value pt)) (default new (s !! key))]> s.

(** The slots of an interval, oldest first; a slot is gone once a later one took its place
    in a ring of [size]. *)
Definition read {X} (f : X → Z) (m : gmap Z X) (size stepSec fromAbs toAbs : Z) : list Point.t :=
  omap (λ a, (λ x, Point.mk (a * stepSec * nanos) (F32.to_f64 (f x))) <$> visible size m a) (seqZ fromAbs (toAbs - fromAbs + 1)).

Definition Query (key : SeriesKey.t) (since until step : Z) (s : gmap SeriesKey.t t) : list Point.t :=
  if (until <? since)%Z then []
  else match s !! key with
  | None => []
  | Some p =>
    if (DownStep <=? step)%Z
    then read mean (opened p) downSlots downStepSec
           ((Unix since / downStepSec) `max` (Unix until / downStepSec - downSlots + 1)) (Unix until / downStepSec)
    else read id (slots p) rawSlots rawStepSec
           ((Unix since / rawStepSec) `max` (Unix until / rawStepSec - rawSlots + 1)) (Unix until / rawStepSec)
  end.

Definition fresh (now : Z) (p : t) : bool :=
  negb ((cur p =? emptySlot)%Z || (cur p <? Z.quot (Unix (now - gcAge)) rawStepSec)%Z).

Definition gc (now : Z) (s : gmap SeriesKey.t t) : gmap SeriesKey.t t := filter (λ kv, fresh now kv.2 = true) s.
End Unbounded.

(** * One series *)

Lemma raw_pos : (0 < rawSlots)%Z.
Proof. reflexivity. Qed.

Lemma down_pos : (0 < downSlots)%Z.
Proof. reflexivity. Qed.

Lemma raw_down unix : (unix / downStepSec = unix / rawStepSec / 20)%Z.
Proof. change rawStepSec with 15%Z. rewrite Z.div_div by lia. reflexivity. Qed.

(** The series, and what the averages rest on: a slot is opened at most twenty times. *)
Record simulates (se : series.t) (p : Unbounded.t) : Prop := {
  m_cur : series.curAbs se = Unbounded.cur p;
  m_low : (emptySlot ≤ Unbounded.cur p < 2 ^ 63)%Z;
  m_raw : represents id rawSlots (series.raw se) (Unbounded.slots p);
  m_down : represents Unbounded.mean downSlots (series.down se) (Unbounded.opened p);
  m_newest : ∀ a v, Unbounded.slots p !! a = Some v → (a ≤ Unbounded.cur p)%Z;
  m_opened : ∀ d l, Unbounded.opened p !! d = Some l →
    (d * 20 ≤ Unbounded.cur p ∧ 0 < Z.of_nat (length l) ≤ Unbounded.cur p - d * 20 + 1 ∧ Z.of_nat (length l) ≤ 20)%Z;
  m_cnt : length (ring.cnt (series.down se)) = Z.to_nat downSlots
    ∧ (∀ pos, 0 ≤ pos < downSlots → 0 ≤ at_ (ring.cnt (series.down se)) pos ≤ 20)%Z
    ∧ ∀ pos l, (0 ≤ pos < downSlots)%Z → Unbounded.opened p !! at_ (ring.abs (series.down se)) pos = Some l →
        at_ (ring.cnt (series.down se)) pos = Z.of_nat (length l);
  m_nocnt : ring.cnt (series.raw se) = []
}.

Lemma simulates_new : simulates newSeries Unbounded.new.
Proof.
  split; cbn [newSeries Unbounded.new series.curAbs series.raw series.down Unbounded.cur Unbounded.slots Unbounded.opened].
  - reflexivity.
  - done.
  - apply represents_new, raw_pos.
  - apply represents_new, down_pos.
  - intros a v H. by rewrite lookup_empty in H.
  - intros d l H. by rewrite lookup_empty in H.
  - cbn [newRing ring.cnt ring.abs]. split_and!; [apply length_replicate| |].
    + intros pos Hp. unfold at_. rewrite lookup_replicate_2; [cbn; lia|]. apply Z2Nat.inj_lt; lia.
    + intros pos l Hp H. by rewrite lookup_empty in H.
  - reflexivity.
Qed.

Lemma mean_app l v : l ≠ [] → Unbounded.mean (l ++ [v]) =
  F32.add (Unbounded.mean l) (F32.div (F32.sub v (Unbounded.mean l)) (F32.ofZ (Z.of_nat (length l) + 1))).
Proof.
  destruct l as [|x l]; [done|]. intros _. cbn [Unbounded.mean app]. rewrite foldl_app. cbn [foldl].
  assert (∀ acc, (foldl Unbounded.mean_step acc l).2 = acc.2 + Z.of_nat (length l))%Z as Hc.
  { induction l as [|y l IH]; intros acc; cbn [foldl]; [cbn; lia|]. rewrite IH. cbn. lia. }
  cbn [Unbounded.mean_step fst]. rewrite Hc. cbn [snd length]. do 3 f_equal. lia.
Qed.

(** The newest sample of a series goes into its slot of five minutes. *)
Lemma feedDown_simulates unix v se p :
  simulates se p → (0 ≤ unix)%Z → (unix / rawStepSec < 2 ^ 63)%Z → (Unbounded.cur p < unix / rawStepSec)%Z →
  let d := (unix / downStepSec)%Z in
  let opened' := <[d := default [] (Unbounded.opened p !! d) ++ [v]]> (Unbounded.opened p) in
  let down' := feedDown d v (series.down se) in
  represents Unbounded.mean downSlots down' opened'
  ∧ (∀ d' l, opened' !! d' = Some l → (d' * 20 ≤ unix / rawStepSec ∧ 0 < Z.of_nat (length l) ≤ unix / rawStepSec - d' * 20 + 1 ∧ Z.of_nat (length l) ≤ 20)%Z)
  ∧ length (ring.cnt down') = Z.to_nat downSlots
  ∧ (∀ pos, 0 ≤ pos < downSlots → 0 ≤ at_ (ring.cnt down') pos ≤ 20)%Z
  ∧ ∀ pos l, (0 ≤ pos < downSlots)%Z → opened' !! at_ (ring.abs down') pos = Some l → at_ (ring.cnt down') pos = Z.of_nat (length l).
Proof.
  intros S Hu Hbig Hnew d opened' down'. set (a := (unix / rawStepSec)%Z) in *.
  assert (d = a / 20)%Z as Hda by apply raw_down.
  assert (0 ≤ a)%Z as Ha by (apply Z.div_pos; [done|reflexivity]).
  pose proof (Z.div_mod a 20 ltac:(done)) as H20. pose proof (Z.mod_pos_bound a 20 ltac:(done)) as H20'. rewrite <- Hda in H20.
  assert (0 ≤ d)%Z as Hd by lia. pose proof down_pos as Hpos. pose proof (Z.mod_pos_bound d downSlots Hpos) as Hp.
  pose proof (m_down _ _ S) as R. destruct (m_cnt _ _ S) as (Hcl & Hcb & Hce).
  assert (∀ b y, Unbounded.opened p !! b = Some y → (b ≤ d)%Z) as Hmax.
  { intros b y Hb. destruct (m_opened _ _ S b y Hb) as (H1 & _). lia. }
  set (old := default [] (Unbounded.opened p !! d)).
  assert (Z.of_nat (length old) ≤ a - d * 20 ∧ Z.of_nat (length old) < 20)%Z as Hold.
  { unfold old. destruct (Unbounded.opened p !! d) as [l|] eqn:Hl; cbn; [|lia]. destruct (m_opened _ _ S d l Hl) as (H1 & H2 & H3). lia. }
  (* the position holds this slot just when it was opened before *)
  assert ((at_ (ring.abs (series.down se)) (d mod downSlots) =? d)%Z = bool_decide (is_Some (Unbounded.opened p !! d))) as Heq.
  { destruct (r_pos _ _ _ _ R _ Hp) as [[He Hn]|(x & Hx & Hm & Hv & Hmx)].
    - rewrite He. rewrite bool_decide_eq_false_2 by (intros [x Hx]; by apply (Hn d x Hx)). unfold emptySlot. lia.
    - destruct (Unbounded.opened p !! d) as [l|] eqn:Hl.
      + rewrite bool_decide_eq_true_2 by done. specialize (Hmx d l Hl eq_refl). specialize (Hmax _ _ Hx). lia.
      + rewrite bool_decide_eq_false_2 by (by intros [? ?]). apply Z.eqb_neq. congruence. }
  assert (down' = ring.mk (set_ (ring.abs (series.down se)) (d mod downSlots) d)
                    (set_ (ring.val (series.down se)) (d mod downSlots) (Unbounded.mean (old ++ [v])))
                    (set_ (ring.cnt (series.down se)) (d mod downSlots) (Z.of_nat (length (old ++ [v]))))) as Hdown.
  { unfold down', feedDown. rewrite Z.rem_mod_nonneg by lia. rewrite Heq. unfold old.
    destruct (Unbounded.opened p !! d) as [l|] eqn:Hl.
    - rewrite bool_decide_eq_true_2 by done. change (default [] (Some l)) with l. cbn [negb].
      destruct (r_pos _ _ _ _ R _ Hp) as [[_ Hn]|(x & Hx & _ & Hv & _)]; [by destruct (Hn d l Hl)|].
      rewrite bool_decide_eq_true_2 in Heq by done. apply Z.eqb_eq in Heq. rewrite Heq in Hx. assert (x = l) as -> by congruence.
      assert (at_ (ring.cnt (series.down se)) (d mod downSlots) = Z.of_nat (length l)) as Hcnt by (apply Hce; [done|by rewrite Heq]).
      destruct (m_opened _ _ S d l Hl) as (_ & H1 & H2). rewrite Hcnt, Hv, mean_app by (intros ->; cbn in H1; lia).
      assert (u16 (Z.of_nat (length l) + 1) = Z.of_nat (length l) + 1)%Z as -> by (unfold u16; rewrite Z.mod_small; lia).
      assert ((Z.of_nat (length l) <? 2 ^ 16 - 1)%Z = true) as -> by lia.
      f_equal; [|rewrite length_app; cbn; f_equal; lia].
      unfold set_. symmetry. apply list_insert_id. unfold at_ in Heq.
      destruct (ring.abs (series.down se) !! Z.to_nat (d mod downSlots)) eqn:E; [cbn in Heq; by subst|].
      apply lookup_ge_None in E. rewrite (r_abs _ _ _ _ R) in E. lia.
    - rewrite bool_decide_eq_false_2 by (by intros [? ?]). done. }
  rewrite Hdown. cbn [ring.abs ring.val ring.cnt]. split_and!.
  - apply (represents_insert Unbounded.mean downSlots Hpos); [done|done|]. intros b y Hb _. by apply (Hmax b y).
  - intros d' l Hl. unfold opened' in Hl. destruct (decide (d = d')) as [<-|Hne].
    + rewrite lookup_insert_eq in Hl. injection Hl as <-. rewrite length_app. cbn [length]. fold old. clear Heq Hdown. lia.
    + rewrite lookup_insert_ne in Hl by done. destruct (m_opened _ _ S d' l Hl) as (H1 & H2 & H3). lia.
  - unfold set_. by rewrite length_insert.
  - intros pos Hpp. destruct (decide (d mod downSlots = pos)%Z) as [<-|Hne].
    + rewrite at_set_eq by (rewrite Hcl; lia). rewrite length_app. cbn [length]. lia.
    + rewrite at_set_ne by lia. by apply Hcb.
  - intros pos l Hpp. destruct (decide (d mod downSlots = pos)%Z) as [<-|Hne].
    + rewrite !at_set_eq by (rewrite ?Hcl, ?(r_abs _ _ _ _ R); lia). unfold opened'. rewrite lookup_insert_eq. by intros [= <-].
    + rewrite !at_set_ne by lia. unfold opened'. intros Hl. apply Hce; [done|]. rewrite lookup_insert_ne in Hl; [done|].
      intros E. destruct (r_pos _ _ _ _ R pos Hpp) as [[He _]|(x & Hx & Hm & _)]; [rewrite He in E; unfold emptySlot in E; lia|].
      rewrite <- E in Hm. exact (Hne Hm).
Qed.

Lemma sample_simulates unix v se p :
  simulates se p → (0 ≤ unix)%Z → (unix / rawStepSec < 2 ^ 63)%Z → simulates (sample unix v se) (Unbounded.sample unix v p).
Proof.
  intros S Hu Hbig. unfold sample, Unbounded.sample. rewrite (m_cur _ _ S), !Z.quot_div_nonneg by done. cbv zeta. pose proof (m_low _ _ S) as Hlow.
  set (a := (unix / rawStepSec)%Z) in *. assert (0 ≤ a)%Z as Ha by (apply Z.div_pos; [done|reflexivity]).
  assert (negb (Unbounded.cur p =? emptySlot)%Z && (a <? Unbounded.cur p)%Z = (a <? Unbounded.cur p)%Z) as ->.
  { unfold emptySlot in *. destruct (Unbounded.cur p =? -1)%Z eqn:E; [|done]. cbn. lia. }
  destruct (a <? Unbounded.cur p)%Z eqn:Hold; [done|]. rewrite Z.rem_mod_nonneg by (done || apply raw_pos).
  assert (represents id rawSlots (ring.mk (set_ (ring.abs (series.raw se)) (a mod rawSlots) a) (set_ (ring.val (series.raw se)) (a mod rawSlots) v)
    (ring.cnt (series.raw se))) (<[a := v]> (Unbounded.slots p))) as Hraw.
  { apply (represents_insert id rawSlots raw_pos); [apply S|done|]. intros b y Hb _. pose proof (m_newest _ _ S b y Hb). lia. }
  assert (∀ b y, <[a := v]> (Unbounded.slots p) !! b = Some y → (b ≤ a)%Z) as Hnew.
  { intros b y Hb. destruct (decide (a = b)) as [<-|Hne]; [lia|]. rewrite lookup_insert_ne in Hb by done. pose proof (m_newest _ _ S b y Hb). lia. }
  destruct (Unbounded.cur p <? a)%Z eqn:Hc.
  - apply Z.ltb_lt in Hc. destruct (feedDown_simulates unix v se p S Hu Hbig Hc) as (H1 & H2 & H3 & H4 & H5).
    split; cbn [series.curAbs series.raw series.down Unbounded.cur Unbounded.slots Unbounded.opened ring.cnt].
    + reflexivity.
    + unfold emptySlot. lia.
    + exact Hraw.
    + exact H1.
    + exact Hnew.
    + exact H2.
    + exact (conj H3 (conj H4 H5)).
    + apply S.
  - assert (Unbounded.cur p = a) as E by lia.
    split; cbn [series.curAbs series.raw series.down Unbounded.cur Unbounded.slots Unbounded.opened ring.cnt].
    + exact E.
    + unfold emptySlot. lia.
    + exact Hraw.
    + apply S.
    + exact Hnew.
    + rewrite <- E. apply S.
    + apply S.
    + apply S.
Qed.

(** * The file *)

Lemma read_writeString s bs : (Z.of_nat (String.length s) ≤ 2 ^ 20)%Z → readString (writeString s ++ bs) = Some (s, bs).
Proof.
  intros H. unfold readString, writeString. rewrite <- app_assoc. unfold rbind at 1. rewrite u32_small by (unfold in_u32; lia).
  rewrite get_put_small by (change (256 ^ Z.of_nat 4)%Z with (2 ^ 32)%Z; lia). cbn [mbind option_bind].
  assert ((2 ^ 20 <? Z.of_nat (String.length s))%Z = false) as -> by lia. rewrite Nat2Z.id. unfold rbind.
  assert (String.length s = length (String.list_ascii_of_string s)) as -> by (clear; induction s; cbn; congruence).
  rewrite get_bytes_app. cbn. by rewrite String.string_of_list_ascii_of_string.
Qed.

(** What fits the file. *)
Record storable (se : series.t) : Prop := {
  s_cur : in_i64 (series.curAbs se);
  s_rabs : Forall in_i64 (ring.abs (series.raw se));
  s_rval : Forall in_u32 (ring.val (series.raw se));
  s_rcnt : ring.cnt (series.raw se) = [];
  s_rlen : length (ring.abs (series.raw se)) = Z.to_nat rawSlots ∧ length (ring.val (series.raw se)) = Z.to_nat rawSlots;
  s_dabs : Forall in_i64 (ring.abs (series.down se));
  s_dval : Forall in_u32 (ring.val (series.down se));
  s_dcnt : Forall (λ c, 0 ≤ c < 2 ^ 16)%Z (ring.cnt (series.down se));
  s_dlen : length (ring.abs (series.down se)) = Z.to_nat downSlots ∧ length (ring.val (series.down se)) = Z.to_nat downSlots
    ∧ length (ring.cnt (series.down se)) = Z.to_nat downSlots
}.

Definition short (k : SeriesKey.t) : Prop :=
  (Z.of_nat (String.length (SeriesKey.Metric k)) ≤ 2 ^ 20 ∧ Z.of_nat (String.length (SeriesKey.Scope k)) ≤ 2 ^ 20
   ∧ Z.of_nat (String.length (SeriesKey.ScopeID k)) ≤ 2 ^ 20)%Z.

Lemma decode_encode_series k se bs : short k → storable se → decode_series (encode_series (k, se) ++ bs) = Some ((k, se), bs).
Proof.
  intros (K1 & K2 & K3) [H1 H2 H3 H4 [H5 H6] H7 H8 H9 (H10 & H11 & H12)]. unfold decode_series, encode_series.
  repeat rewrite <- app_assoc. do 3 erewrite bound_read by by apply read_writeString.
  destruct (get_put_i64 (series.curAbs se) (put_words 8 (ring.abs (series.raw se)) ++ put_words 4 (ring.val (series.raw se)) ++
    put_words 8 (ring.abs (series.down se)) ++ put_words 4 (ring.val (series.down se)) ++ put_words 2 (ring.cnt (series.down se)) ++ bs) H1) as (cur & Hc & Hci).
  erewrite bound_read by exact Hc. rewrite <- H5 at 1.
  edestruct (get_put_slots (ring.abs (series.raw se))) as (ra & Hra & Hrai); [done|]. erewrite bound_read by exact Hra.
  rewrite <- H6 at 1. erewrite bound_read by by apply get_put_words. rewrite <- H10 at 1.
  edestruct (get_put_slots (ring.abs (series.down se))) as (da & Hda & Hdai); [done|]. erewrite bound_read by exact Hda.
  rewrite <- H11 at 1. erewrite bound_read by by apply get_put_words. rewrite <- H12.
  erewrite bound_read by by apply get_put_words. unfold rret. rewrite Hci, Hrai, Hdai. do 2 f_equal.
  destruct k, se as [[] [] ?]. cbn in *. by rewrite H4.
Qed.

Lemma decode_all_encode l fuel loaded bs :
  Forall (λ kv, short kv.1 ∧ storable kv.2) l → length l ≤ fuel →
  decode_all fuel (Z.of_nat (length l)) loaded ((l ≫= encode_series) ++ bs) = Some (foldl (λ m kv, <[kv.1 := kv.2]> m) loaded l, bs).
Proof.
  intros Hl. revert fuel loaded. induction Hl as [|[k se] l [Hk Hse] _ IH]; intros fuel loaded Hf; cbn [length] in *.
  - by destruct fuel.
  - destruct fuel as [|fuel]; [lia|]. cbn [decode_all]. assert ((Z.of_nat (S (length l)) <=? 0)%Z = false) as -> by (apply Z.leb_gt; lia).
    rewrite bind_cons, <- app_assoc. erewrite bound_read by by apply decode_encode_series.
    replace (Z.of_nat (S (length l)) - 1)%Z with (Z.of_nat (length l)) by lia. rewrite IH by lia. done.
Qed.

Lemma foldl_insert_lookup (l : list (SeriesKey.t * series.t)) (m : gmap SeriesKey.t series.t) k :
  NoDup l.*1 → foldl (λ m kv, <[kv.1 := kv.2]> m) m l !! k = match (list_to_map l : gmap SeriesKey.t series.t) !! k with Some v => Some v | None => m !! k end.
Proof.
  revert m. induction l as [|[k0 v0] l IH]; intros m Hnd; cbn [foldl fst snd].
  { change (list_to_map [] : gmap SeriesKey.t series.t) with (∅ : gmap SeriesKey.t series.t). by rewrite lookup_empty. }
  apply NoDup_cons in Hnd as [Hn Hnd]. rewrite IH by done. 
  change (list_to_map ((k0, v0) :: l) : gmap SeriesKey.t series.t) with (<[k0 := v0]> (list_to_map l : gmap SeriesKey.t series.t)). destruct (decide (k0 = k)) as [->|Hne].
  - rewrite lookup_insert_eq, lookup_insert_eq. assert ((list_to_map l : gmap SeriesKey.t series.t) !! k = None) as ->; [|done]. by apply not_elem_of_list_to_map_1.
  - by rewrite !lookup_insert_ne by done.
Qed.

(** The order of range s.series. *)
Definition Ordering : Type := gmap SeriesKey.t series.t → list (SeriesKey.t * series.t).
Definition permutes (order : Ordering) : Prop := ∀ m, order m ≡ₚ map_to_list m.

Lemma length_encode_series (l : list (SeriesKey.t * series.t)) : length l ≤ length (l ≫= encode_series).
Proof.
  induction l as [|[k se] l IH]; [done|]. rewrite bind_cons, length_app. cbn [length encode_series]. unfold writeString.
  rewrite !length_app. cbn [put_le length]. lia.
Qed.

Lemma decode_encode (order : Ordering) (s : gmap SeriesKey.t series.t) :
  permutes order → (∀ k se, s !! k = Some se → short k ∧ storable se) → (Z.of_nat (size s) < 2 ^ 32)%Z →
  decode (encode order s) = Some s.
Proof.
  unfold permutes. intros Ho Hs Hn. unfold decode, encode.
  rewrite get_put_small by done. cbn [mbind option_bind]. rewrite get_put_small by done. cbn [mbind option_bind].
  rewrite u32_small by (unfold in_u32; lia). rewrite get_put_small by (change (256 ^ Z.of_nat 4)%Z with (2 ^ 32)%Z; lia). cbn [mbind option_bind].
  rewrite !Z.eqb_refl. cbn [negb]. assert (size s = length (order s)) as -> by (by rewrite Ho, length_map_to_list).
  pose proof (decode_all_encode (order s) (length (order s ≫= encode_series)) ∅ []) as H. rewrite app_nil_r in H. rewrite H.
  - cbn [mbind option_bind]. f_equal. apply map_eq. intros k. rewrite foldl_insert_lookup by (rewrite Ho; apply NoDup_fst_map_to_list).
    rewrite lookup_empty. assert ((list_to_map (order s) : gmap SeriesKey.t series.t) = s) as ->; [|by destruct (s !! k)].
    symmetry. apply list_to_map_flip. symmetry. apply Ho.
  - apply Forall_forall. intros [k se] Hin. rewrite Ho in Hin. apply elem_of_map_to_list in Hin. by apply Hs.
  - apply length_encode_series.
Qed.

(** * The whole store *)

Inductive event :=
| Sampled (key : SeriesKey.t) (p : Point.t)
| Flushed (now : Z)
| Restarted (now : Z).

Definition step (order : Ordering) (s : gmap SeriesKey.t series.t) (e : event) : gmap SeriesKey.t series.t :=
  match e with
  | Sampled key p => Record_ key p s
  | Flushed now => (Flush order now s).1
  | Restarted now => Open (Some (Flush order now s).2)
  end.

Definition spec_step (s : gmap SeriesKey.t Unbounded.t) (e : event) : gmap SeriesKey.t Unbounded.t :=
  match e with
  | Sampled key p => Unbounded.Record_ key p s
  | Flushed now | Restarted now => Unbounded.gc now s
  end.

(** Seconds fit an int64, and names the file. *)
Definition typed (e : event) : Prop :=
  match e with Sampled key p => short key ∧ (Unix (Point.Time p) < 2 ^ 63)%Z | _ => True end.

Definition words (se : series.t) : Prop := Forall in_u32 (ring.val (series.raw se)) ∧ Forall in_u32 (ring.val (series.down se)).

Lemma to_bits_word x : in_u32 (F32.to_bits x).
Proof. apply u32_range. Qed.

Lemma words_new : words newSeries.
Proof. split; apply Forall_replicate; by unfold in_u32. Qed.

Lemma words_sample unix v se : in_u32 v → words se → words (sample unix v se).
Proof.
  intros Hv [W1 W2]. unfold sample. cbv zeta. destruct (_ && _); [done|].
  assert (Forall in_u32 (set_ (ring.val (series.raw se)) (Z.rem (Z.quot unix rawStepSec) rawSlots) v)) as W by by apply Forall_insert.
  destruct (_ <? _)%Z; [|done]. split; [done|]. cbn [series.down]. unfold feedDown. cbv zeta.
  destruct (negb _); cbn [ring.val]; apply Forall_insert; try done. apply to_bits_word.
Qed.

Lemma in_ring {X} (f : X → Z) size r (m : gmap Z X) a :
  (0 < size)%Z → represents f size r m → a ∈ ring.abs r → a = emptySlot ∨ is_Some (m !! a).
Proof.
  intros Hs R [i Hi]%list_elem_of_lookup. assert (i < length (ring.abs r)) as Hl by (by eapply lookup_lt_Some). rewrite (r_abs _ _ _ _ R) in Hl.
  assert (at_ (ring.abs r) (Z.of_nat i) = a) as Ha by (unfold at_; by rewrite Nat2Z.id, Hi).
  destruct (r_pos _ _ _ _ R (Z.of_nat i)) as [[He _]|(x & Hx & _)]; [lia|left; congruence|right; rewrite Ha in Hx; by exists x].
Qed.

Lemma simulates_storable se p : simulates se p → words se → storable se.
Proof.
  intros S [W1 W2]. pose proof (m_low _ _ S) as Hlow. destruct (m_cnt _ _ S) as (C1 & C2 & _). unfold emptySlot in Hlow. constructor.
  - rewrite (m_cur _ _ S). unfold in_i64. lia.
  - apply Forall_forall. intros a Ha. destruct (in_ring _ _ _ _ a raw_pos (m_raw _ _ S) Ha) as [->|[v Hv]]; [unfold in_i64, emptySlot; lia|].
    pose proof (m_newest _ _ S a v Hv). pose proof (r_keys _ _ _ _ (m_raw _ _ S) a v Hv). unfold in_i64. lia.
  - exact W1.
  - apply S.
  - split; apply (m_raw _ _ S).
  - apply Forall_forall. intros d Hd. destruct (in_ring _ _ _ _ d down_pos (m_down _ _ S) Hd) as [->|[l Hl]]; [unfold in_i64, emptySlot; lia|].
    destruct (m_opened _ _ S d l Hl) as (H1 & _). pose proof (r_keys _ _ _ _ (m_down _ _ S) d l Hl). unfold in_i64. lia.
  - exact W2.
  - apply Forall_forall. intros c [i Hi]%list_elem_of_lookup. assert (i < length (ring.cnt (series.down se))) as Hl by (by eapply lookup_lt_Some).
    specialize (C2 (Z.of_nat i)). unfold at_ in C2. rewrite Nat2Z.id, Hi in C2. cbn [default from_option] in C2. unfold id in C2. lia.
  - split_and!; [apply (m_down _ _ S)|apply (m_down _ _ S)|exact C1].
Qed.

(** Key by key. *)
Definition agree (s : gmap SeriesKey.t series.t) (sp : gmap SeriesKey.t Unbounded.t) : Prop :=
  ∀ k, match s !! k, sp !! k with
  | Some se, Some p => simulates se p ∧ words se ∧ short k
  | None, None => True
  | _, _ => False
  end.

Lemma agree_gc now s sp : agree s sp → agree (gc now s) (Unbounded.gc now sp).
Proof.
  intros A k. specialize (A k). unfold gc, Unbounded.gc. rewrite !map_lookup_filter.
  destruct (s !! k) as [se|], (sp !! k) as [p|]; try done. cbn [mbind option_bind snd]. destruct A as (Sm & W).
  assert (fresh now se = Unbounded.fresh now p) as -> by (unfold fresh, Unbounded.fresh; by rewrite (m_cur _ _ Sm)).
  destruct (guard (Unbounded.fresh now p = true)); done.
Qed.

Lemma agree_sample key pt s sp : short key → (Unix (Point.Time pt) < 2 ^ 63)%Z → agree s sp → agree (Record_ key pt s) (Unbounded.Record_ key pt sp).
Proof.
  intros Hk Ht A k. unfold Record_, Unbounded.Record_. cbv zeta. destruct (Unix (Point.Time pt) <? 0)%Z eqn:Hu; [apply A|]. apply Z.ltb_ge in Hu.
  destruct (decide (key = k)) as [<-|Hne]; [|rewrite !lookup_insert_ne by done; apply A]. rewrite !lookup_insert_eq.
  assert (simulates (default newSeries (s !! key)) (default Unbounded.new (sp !! key)) ∧ words (default newSeries (s !! key))) as [Sm W].
  { specialize (A key). destruct (s !! key) as [se|], (sp !! key) as [p|]; [exact (conj (proj1 A) (proj1 (proj2 A)))|destruct A|destruct A|].
    split; [apply simulates_new|apply words_new]. }
  split_and!; [|apply words_sample; [apply to_bits_word|done]|done].
  apply sample_simulates; [done|done|]. apply Z.le_lt_trans with (Unix (Point.Time pt)); [|done].
  apply Z.div_le_upper_bound; [done|]. assert (rawStepSec = 15)%Z as -> by done. lia.
Qed.

Lemma agree_decode order s sp : permutes order → (Z.of_nat (size s) < 2 ^ 32)%Z → agree s sp → decode (encode order s) = Some s.
Proof.
  intros Ho Hn A. apply decode_encode; [done| |done]. intros k se Hse. specialize (A k). rewrite Hse in A.
  destruct (sp !! k) as [p|]; [|done]. destruct A as (Sm & W & Hk). split; [done|]. by apply (simulates_storable _ p).
Qed.

Lemma size_gc now s : size (gc now s) ≤ size s.
Proof. apply map_subseteq_size, map_filter_subseteq. Qed.

(** After any run of samples, flushes and restarts. *)
Lemma run_agrees order es :
  permutes order → Forall typed es → (Z.of_nat (length es) < 2 ^ 32)%Z →
  agree (foldl (step order) ∅ es) (foldl spec_step ∅ es) ∧ size (foldl (step order) ∅ es) ≤ length es.
Proof.
  intros Ho Ht. induction es as [|e es IH] using rev_ind; intros Hn; [split; [intros k; exact I|reflexivity]|].
  rewrite length_app in Hn. cbn [length] in Hn. apply Forall_app in Ht as [Ht [He _]%Forall_cons].
  destruct IH as [A Hsz]; [done|lia|]. rewrite !foldl_app, length_app. cbn [foldl length].
  set (s := foldl (step order) ∅ es) in *. set (sp := foldl spec_step ∅ es) in *. pose proof (size_gc) as Hgc.
  destruct e as [key pt|now|now]; cbn [step spec_step Flush fst snd].
  - destruct He as [Hk Hb]. split; [by apply agree_sample|]. unfold Record_. cbv zeta. destruct (_ <? _)%Z; [lia|].
    rewrite map_size_insert. destruct (s !! key); unfold id; lia.
  - split; [by apply agree_gc|]. specialize (Hgc now s). lia.
  - specialize (Hgc now s). assert (agree (gc now s) (Unbounded.gc now sp)) as A' by by apply agree_gc.
    unfold Open. rewrite (agree_decode order (gc now s) _ Ho ltac:(lia) A'). change (default ∅ (Some (gc now s))) with (gc now s). split; [exact A'|lia].
Qed.

(** The width of the slots that a query reads. *)
Definition slot_width (tstep : Z) : Z := ((if (DownStep <=? tstep)%Z then downStepSec else rawStepSec) * nanos)%Z.

Lemma Unix_slots t d : (0 < d)%Z → (Unix t / d = t / (d * nanos))%Z.
Proof. intros Hd. unfold Unix. rewrite Z.div_div by (done || lia). f_equal. lia. Qed.

Lemma read_bounds {X} (f : X → Z) m size d from to since until pt :
  (0 < d)%Z → (since / (d * nanos) ≤ from)%Z → (to = until / (d * nanos))%Z → pt ∈ Unbounded.read f m size d from to →
  (since - d * nanos < Point.Time pt ≤ until)%Z ∧ (since mod (d * nanos) = 0 → since ≤ Point.Time pt)%Z.
Proof.
  intros Hd Hfrom -> Hin. assert (0 < d * nanos)%Z as Hw by (apply Z.mul_pos_pos; done).
  unfold Unbounded.read in Hin. apply list_elem_of_omap in Hin as (a & Ha%elem_of_seqZ & (x & _ & Hx)%fmap_Some). subst pt. cbn [Point.Time].
  rewrite <- Z.mul_assoc. pose proof (Z.div_mod since (d * nanos) ltac:(lia)). pose proof (Z.mod_pos_bound since (d * nanos) Hw).
  pose proof (Z.mul_div_le until (d * nanos) Hw).
  assert (d * nanos * (since / (d * nanos)) ≤ a * (d * nanos))%Z by (rewrite Z.mul_comm; apply Z.mul_le_mono_nonneg_r; lia).
  assert (a * (d * nanos) ≤ d * nanos * (until / (d * nanos)))%Z by (rewrite (Z.mul_comm (d * nanos)); apply Z.mul_le_mono_nonneg_r; lia). lia.
Qed.

Lemma Query_bounds key since until tstep s pt :
  pt ∈ Unbounded.Query key since until tstep s →
  (since - slot_width tstep < Point.Time pt ≤ until)%Z ∧ (since mod slot_width tstep = 0 → since ≤ Point.Time pt)%Z.
Proof.
  unfold Unbounded.Query, slot_width. destruct (until <? since)%Z; [by intros ?%elem_of_nil|]. destruct (s !! key) as [p|]; [|by intros ?%elem_of_nil].
  destruct (DownStep <=? tstep)%Z; intros Hin; (eapply read_bounds; [| | |exact Hin]); try done; rewrite !Unix_slots by done; try done; lia.
Qed.


(** The metrics survive a restart.  What a flush writes is read back, after any run
    and for any order of the series in the file. *)
Theorem metrics_survive_a_restart (order order' : Ordering) (es : list event) (now : Z) :
  permutes order → permutes order' → Forall typed es → (Z.of_nat (length es) < 2 ^ 32)%Z →
  let s := foldl (step order) ∅ es in
  Open (Some (Flush order' now s).2) = (Flush order' now s).1.
Proof.
  intros Ho Ho' Ht Hn s. destruct (run_agrees order es Ho Ht Hn) as [A Hsz]. cbn [Flush fst snd]. unfold Open.
  pose proof (size_gc now s). rewrite (agree_decode order' (gc now s) _ Ho' ltac:(unfold s in *; lia) (agree_gc now _ _ A)). done.
Qed.

(** An average never divides by zero.  A slot of 5 minutes counts at most 20 samples,
    in a uint16 that would wrap, and divide by zero, only at 65536. *)
Theorem averages_do_not_wrap (order : Ordering) (es : list event) (key : SeriesKey.t) (se : series.t) (pos : Z) :
  permutes order → Forall typed es → (Z.of_nat (length es) < 2 ^ 32)%Z →
  foldl (step order) ∅ es !! key = Some se → (0 ≤ pos < downSlots)%Z →
  (0 ≤ at_ (ring.cnt (series.down se)) pos ≤ 20)%Z ∧ (u16 (at_ (ring.cnt (series.down se)) pos + 1) = at_ (ring.cnt (series.down se)) pos + 1)%Z.
Proof.
  intros Ho Ht Hn Hse Hp. destruct (run_agrees order es Ho Ht Hn) as [A _]. specialize (A key). rewrite Hse in A.
  destruct (foldl spec_step ∅ es !! key) as [p|]; [|done]. destruct A as (Sm & _). destruct (m_cnt _ _ Sm) as (_ & H & _). specialize (H pos Hp).
  split; [done|]. unfold u16. rewrite Z.mod_small; lia.
Qed.

(** What was sampled in the last day of a series is answered. *)
Lemma recent_samples_are_answered (order : Ordering) (es : list event) (key : SeriesKey.t) (since until tstep : Z) p a v :
  permutes order → Forall typed es → (Z.of_nat (length es) < 2 ^ 32)%Z → (0 ≤ since ≤ until)%Z → (tstep < DownStep)%Z →
  foldl spec_step ∅ es !! key = Some p → Unbounded.slots p !! a = Some v → (Unbounded.cur p - a < rawSlots)%Z →
  (Unix since / rawStepSec ≤ a ≤ Unix until / rawStepSec)%Z → (Unix until / rawStepSec - a < rawSlots)%Z →
  Point.mk (a * rawStepSec * nanos) (F32.to_f64 v) ∈ Query key since until tstep (foldl (step order) ∅ es).
Proof.
  intros Ho Ht Hn Hs Hst Hp Ha Hr Hin Hlast. destruct (run_agrees order es Ho Ht Hn) as [A _]. specialize (A key). rewrite Hp in A. unfold Query.
  assert ((until <? since)%Z = false) as -> by lia. destruct (foldl (step order) ∅ es !! key) as [se|]; [|destruct A]. destruct A as (Sm & _).
  assert (0 ≤ Unix since)%Z as H1 by (apply Z.div_pos; [lia|done]). assert (0 ≤ Unix until)%Z as H2 by (apply Z.div_pos; [lia|done]).
  unfold query_series. assert ((DownStep <=? tstep)%Z = false) as -> by lia. rewrite !Z.quot_div_nonneg by done.
  set (from := if (_ <? _)%Z then _ else _). assert (0 ≤ from ≤ a)%Z as Hf.
  { unfold from. pose proof (Z.div_pos (Unix since) rawStepSec H1 eq_refl). destruct (_ <? _)%Z eqn:E; lia. }
  rewrite (scan_visible id rawSlots raw_pos _ _ _ _ _ (m_raw _ _ Sm) (proj1 Hf)). apply list_elem_of_omap. exists a. split.
  - apply elem_of_seqZ. lia.
  - rewrite (recent_visible rawSlots raw_pos _ a v (Unbounded.cur p)); [done|done| |done]. intros b y Hb. by apply (m_newest _ _ Sm b y).
Qed.

(** * Witnesses *)

Definition some_order : Ordering := λ m, map_to_list m.

Lemma some_order_permutes : permutes some_order.
Proof. intros m. reflexivity. Qed.

Definition cpu : SeriesKey.t := SeriesKey.mk "cpu_percent" "node" "n1".

Definition at_second (s : Z) (v : Z) : event := Sampled cpu (Point.mk (s * nanos) (F64.ofZ v)).

(** A slot that is written twice, a restart, a slot that is late, and a sample a day after
    the first, which takes its place. *)
Definition some_day : list event :=
  [at_second 1000000 10; at_second 1000004 20; at_second 1000020 40; Restarted (1000030 * nanos); at_second 1000004 99; at_second 1086400 7].

Lemma some_day_typed : Forall typed some_day.
Proof. repeat constructor; vm_compute; done. Qed.


(** From 999990 s on the average of the slot that began at 999900 s is answered, at that time. *)
Lemma a_point_before_the_query :
  Query cpu (999990 * nanos) (1086410 * nanos) DownStep (foldl (step some_order) ∅ some_day)
    = [Point.mk (999900 * nanos) (F64.ofZ 25); Point.mk (1086300 * nanos) (F64.ofZ 7)].
Proof. vm_compute. reflexivity. Qed.

Definition other_order : Ordering := λ m, reverse (map_to_list m).

Lemma other_order_permutes : permutes other_order.
Proof. intros m. apply reverse_Permutation. Qed.

Lemma metrics_survive_a_restart_witness :
  Open (Some (Flush other_order (1086460 * nanos) (foldl (step some_order) ∅ some_day)).2)
  = (Flush other_order (1086460 * nanos) (foldl (step some_order) ∅ some_day)).1.
Proof.
  exact (metrics_survive_a_restart some_order other_order some_day (1086460 * nanos) some_order_permutes other_order_permutes some_day_typed eq_refl).
Defined.

Lemma averages_do_not_wrap_witness :
  ∃ se, foldl (step some_order) ∅ some_day !! cpu = Some se ∧ (0 ≤ at_ (ring.cnt (series.down se)) 3333 ≤ 20)%Z.
Proof.
  destruct (run_agrees some_order some_day some_order_permutes some_day_typed eq_refl) as [A _]. specialize (A cpu).
  destruct (foldl (step some_order) ∅ some_day !! cpu) as [se|] eqn:E.
  - exists se. split; [reflexivity|]. refine (proj1 (averages_do_not_wrap some_order some_day cpu se 3333 _ _ _ E _)).
    + exact some_order_permutes.
    + exact some_day_typed.
    + reflexivity.
    + vm_compute. split; [discriminate|reflexivity].
  - assert (is_Some (foldl spec_step ∅ some_day !! cpu)) as [p Hp] by (vm_compute; eexists; reflexivity). rewrite Hp in A. destruct A.
Defined.

(** A query that begins before 1970 meets the mark of an empty position, -1, as the slot
    before the epoch: it answers with a sample nobody made. *)
Lemma empty_slots_look_like_1969 :
  Query cpu (-20 * nanos) 0 RawStep (Record_ cpu (Point.mk (1000000 * nanos) (F64.ofZ 10)) ∅) = [Point.mk (-15 * nanos) (F64.ofZ 0)].
Proof. vm_compute. reflexivity. Qed.
