(* ===== verification/AppConfig.v ===== *)
(** The configuration file of an app, zattera.toml (internal/appconfig/appconfig.go): from
    the decoded sections to the messages that ApplyAppConfig takes, with every validation,
    and time.ParseDuration, which reads its durations.

    The TOML decoder is a parameter ([TomlLib]).  A pointer is an [option]; the environments
    of a file are never nil.  Texts of errors are not modelled, an error says which check
    failed and where. *)
From S2P Require Import Prelude Api Watch State Platform F64.
From Stdlib Require Import Ascii.

(** * time.ParseDuration *)

Module GoDuration.

Definition is_digit (c : ascii) : bool := match digit c with Some _ => true | None => false end.

(** leadingInt: the digits at the front; [None] on overflow. *)
Fixpoint leadingInt (x : Z) (s : string) : option (Z * string) :=
  match s with
  | "" => Some (x, s)
  | String c s' =>
    match digit c with
    | None => Some (x, s)
    | Some d =>
      if (2 ^ 63 / 10 <? x)%Z then None
      else let x := (x * 10 + d)%Z in if (2 ^ 63 <? x)%Z then None else leadingInt x s'
    end
  end.

(** leadingFraction: the digits that fit, and the power of ten they are divided by. *)
Fixpoint leadingFraction (x : Z) (scale : f64) (overflow : bool) (s : string) : Z * f64 * string :=
  match s with
  | "" => (x, scale, s)
  | String c s' =>
    match digit c with
    | None => (x, scale, s)
    | Some d =>
      if overflow then leadingFraction x scale true s'
      else if ((2 ^ 63 - 1) / 10 <? x)%Z then leadingFraction x scale true s'
      else
        let y := (x * 10 + d)%Z in
        if (2 ^ 63 <? y)%Z then leadingFraction x scale true s'
        else leadingFraction y (F64.mul scale (F64.ofZ 10)) false s'
    end
  end.

(** The characters of a unit. *)
Fixpoint span_unit (s : string) : string * string :=
  match s with
  | "" => ("", "")
  | String c s' => if Ascii.eqb c "." || is_digit c then ("", s) else let '(u, rest) := span_unit s' in (String c u, rest)
  end.

(** The two spellings of the micro sign in UTF-8. *)
Definition unitMap (u : string) : option Z :=
  if u =? "ns" then Some 1%Z
  else if (u =? "us") || (u =? String "194" (String "181" "s")) || (u =? String "206" (String "188" "s")) then Some (10 ^ 3)%Z
  else if u =? "ms" then Some (10 ^ 6)%Z
  else if u =? "s" then Some (10 ^ 9)%Z
  else if u =? "m" then Some (60 * 10 ^ 9)%Z
  else if u =? "h" then Some (3600 * 10 ^ 9)%Z
  else None.

(** [uint64(float64(f) * (float64(unit) / scale))], below 3.6e12. *)
Definition fraction {FC : F64.FloatConv} (f unit_ : Z) (scale : f64) : Z :=
  u64 (F64.toInt (F64.mul (F64.ofZ f) (F64.div (F64.ofZ unit_) scale))).

(** One number with its unit: its nanoseconds and the rest. *)
Definition component {FC : F64.FloatConv} (s : string) : option (Z * string) :=
  match s with
  | "" => None
  | String c _ =>
    if negb (Ascii.eqb c "." || is_digit c) then None
    else
      '(v, s1) ← leadingInt 0 s;
      let pre := negb (String.length s1 =? String.length s)%nat in
      let '(f, scale, s2, post) := match s1 with
        | String "." s1' =>
          let '(f, scale, s2) := leadingFraction 0 (F64.ofZ 1) false s1' in
          (f, scale, s2, negb (String.length s2 =? String.length s1')%nat)
        | _ => (0%Z, F64.ofZ 1, s1, false)
        end in
      if negb pre && negb post then None
      else
        let '(u, s3) := span_unit s2 in
        if u =? "" then None
        else
          unit_ ← unitMap u;
          if (2 ^ 63 / unit_ <? v)%Z then None
          else
            let v := (v * unit_)%Z in
            if (0 <? f)%Z then
              let v := (v + fraction f unit_ scale)%Z in
              if (2 ^ 63 <? v)%Z then None else Some (v, s3)
            else Some (v, s3)
  end.

(** Every round takes a character at least, so the length of the text is fuel enough. *)
Fixpoint components {FC : F64.FloatConv} (fuel : nat) (d : Z) (s : string) : option Z :=
  match s with
  | "" => Some d
  | _ =>
    match fuel with
    | 0 => None
    | S fuel =>
      '(v, s) ← component s;
      let d := u64 (d + v) in
      if (2 ^ 63 <? d)%Z then None else components fuel d s
    end
  end.

Definition ParseDuration {FC : F64.FloatConv} (s : string) : option Z :=
  let '(neg, s) := match s with
    | String "-" s => (true, s)
    | String "+" s => (false, s)
    | _ => (false, s)
    end in
  if s =? "0" then Some 0%Z
  else if s =? "" then None
  else
    d ← components (String.length s) 0 s;
    if neg : bool then Some (- d)%Z
    else if (2 ^ 63 - 1 <? d)%Z then None else Some d.

End GoDuration.

(** strings.Fields, for ASCII text. *)
Fixpoint Fields_from (word : string) (s : string) : list string :=
  match s with
  | "" => if word =? "" then [] else [word]
  | String c s =>
    if is_space c then (if word =? "" then Fields_from "" s else word :: Fields_from "" s)
    else Fields_from (word +:+ String c "") s
  end.
Definition Fields (s : string) : list string := Fields_from "" s.

(** * The sections of the file *)

Module buildSection.
Record t := mk { Type_ : string; Dockerfile : string; Context : string; Image : string; Args : gmap string string; Platforms : list string }.
End buildSection.

Module githubSection.
Record t := mk { Repo : string; PreviewsEnabled : bool }.
End githubSection.

Module healthcheckSection.
Record t := mk {
  Type_ : string; Path : string; Port : Z; Command : string; Interval : string; Timeout : string; GracePeriod : string;
  UnhealthyThreshold : Z
}.
End healthcheckSection.

Module deploySection.
Record t := mk { Healthcheck : option healthcheckSection.t }.
End deploySection.

Module rateLimitSection.
Record t := mk { RequestsPerSecond : Z; Burst : Z }.
End rateLimitSection.

Module autoscaleSection.
Record t := mk { TargetCPUPercent : Z; TargetMemoryPercent : Z; TargetRPSPerReplica : Z }.
End autoscaleSection.

Module resourceSection.
Record t := mk { CPUMillis : Z; MemoryMB : Z }.
End resourceSection.

Module portSection.
Record t := mk { Name : string; ContainerPort : Z; Protocol : string }.
End portSection.

Module volumeSection.
Record t := mk { Name : string; MountPath : string }.
End volumeSection.

Module cronSection.
Record t := mk { Name : string; Schedule : string; Command : string; Concurrency : string; MaxRetries : Z }.
End cronSection.

Module envSection.
Record t := mk {
  Replicas : option Z;             (* int *)
  MinReplicas : option Z;
  MaxReplicas : option Z;
  Autoscale : option autoscaleSection.t;
  Domains : list string;
  IdleTimeout : string;
  Stateful : bool;
  ScaleToZero : bool;
  MaxConcurrency : Z;
  Command : string;
  StopGrace : string;
  Resources : option resourceSection.t;
  Ports : list portSection.t;
  Volumes : list volumeSection.t;
  Cron : list cronSection.t;
  Placement : gmap string string;
  RateLimit : option rateLimitSection.t
}.
End envSection.

Module file.
Record t := mk {
  App : string;                    (* [app] name *)
  Build : option buildSection.t;
  GitHub : option githubSection.t;
  Deploy : option deploySection.t;
  Env : gmap string envSection.t;
  Cron : list cronSection.t
}.
End file.

Module AppConfig.
Record t := mk {
  Name : string;
  Build : option BuildConfig.t;
  GitHub : option GitHubConfig.t;
  Services : gmap string (option ServiceSpec.t);
  Domains : gmap string (list string);
  IdleTimeouts : gmap string Z
}.
End AppConfig.

(** toml.Decode: the sections and the keys that are in none. *)
Class TomlLib := toml_Decode : string → option (file.t * list string).

Inductive config_error :=
| BadToml | UnknownKeys (keys : list string) | NameRequired
| ImageRequired | ImageOnly | BadPlatform (p : string)
| BadDuration (field : string) | NegativeDuration (field : string)
| NegativeReplicas (env : string) | MinAboveMax (env : string)
| VolumeIncomplete (env : string)
| ScheduleRequired (path : string) (i : nat) | ScheduleFields (path : string) (i : nat)
| RateZero (env : string) | BurstBelowRate (env : string).

Definition result (A : Type) : Type := (A + config_error)%type.
#[export] Instance result_bind : MBind result := λ A B k m, match m with inl a => k a | inr e => inr e end.

Module Config.
Section config.
Context {RO : RangeOrder} {TOML : TomlLib} {FC : F64.FloatConv}.

(** durationpb.New *)
Definition durationpb_New (ns : Z) : option Duration.t := Some (Duration.mk (Z.quot ns (10 ^ 9)) (Z.rem ns (10 ^ 9))).

Definition parseDuration (field raw : string) : result Z :=
  match GoDuration.ParseDuration raw with
  | None => inr (BadDuration field)
  | Some d => if (d <? 0)%Z then inr (NegativeDuration field) else inl d
  end.

Definition buildType (s : string) : BuildType :=
  let s := ToLower s in
  if s =? "nixpacks" then BUILD_TYPE_NIXPACKS
  else if s =? "dockerfile" then BUILD_TYPE_DOCKERFILE
  else if s =? "image" then BUILD_TYPE_IMAGE
  else BUILD_TYPE_UNSPECIFIED.

Fixpoint normalized (ps : list string) : result (list string) :=
  match ps with
  | [] => inl []
  | p :: ps =>
    match Normalize p with
    | None => inr (BadPlatform p)
    | Some n => match normalized ps with inl l => inl (n :: l) | inr e => inr e end
    end
  end.

Definition buildConfig (b : option buildSection.t) : result BuildConfig.t :=
  let bc := BuildConfig.mk BUILD_TYPE_UNSPECIFIED "Dockerfile" "." ∅ [] "" in
  match b with
  | None => inl bc
  | Some b =>
    let type_ := buildType (buildSection.Type_ b) in
    let image := buildSection.Image b in
    if bool_decide (type_ = BUILD_TYPE_IMAGE) && (image =? "") then inr ImageRequired
    else if negb (image =? "") && negb (bool_decide (type_ = BUILD_TYPE_IMAGE)) then inr ImageOnly
    else
      match normalized (buildSection.Platforms b) with
      | inr e => inr e
      | inl ps =>
        inl (BuildConfig.mk type_
          (if buildSection.Dockerfile b =? "" then "Dockerfile" else buildSection.Dockerfile b)
          (if buildSection.Context b =? "" then "." else buildSection.Context b)
          (buildSection.Args b) ps image)
      end
  end.

Definition replicaRange (name : string) (env : envSection.t) : result ReplicaRange.t :=
  let bounds :=
    match envSection.MinReplicas env, envSection.MaxReplicas env with
    | None, None =>
      match envSection.Replicas env with
      | None => inl (1, 1)%Z
      | Some r => if (r <? 0)%Z then inr (NegativeReplicas name) else inl (u32 r, u32 r)
      end
    | mn, mx =>
      let min := default 1%Z mn in
      inl (min, match mx with Some m => m | None => min end)
    end in
  match bounds with
  | inr e => inr e
  | inl (min, max) => if (max <? min)%Z then inr (MinAboveMax name) else inl (ReplicaRange.mk min max)
  end.

Definition protocol (s : string) : Protocol :=
  let s := ToLower s in
  if s =? "tcp" then PROTOCOL_TCP else if s =? "udp" then PROTOCOL_UDP else PROTOCOL_HTTP.

Definition ports (l : list portSection.t) : list (option PortSpec.t) :=
  match l with
  | [] => [Some (PortSpec.mk "http" 8080 PROTOCOL_HTTP 0)]
  | _ => (λ p, Some (PortSpec.mk (if portSection.Name p =? "" then "http" else portSection.Name p)
                       (portSection.ContainerPort p) (protocol (portSection.Protocol p)) 0)) <$> l
  end.

Definition healthType (s : string) : HealthCheckType :=
  let s := ToLower s in
  if s =? "http" then HEALTH_CHECK_TYPE_HTTP
  else if s =? "tcp" then HEALTH_CHECK_TYPE_TCP
  else if s =? "exec" then HEALTH_CHECK_TYPE_EXEC
  else HEALTH_CHECK_TYPE_UNSPECIFIED.

(** An absent duration stays nil. *)
Definition optional_duration (field raw : string) : result (option Duration.t) :=
  if raw =? "" then inl None else match parseDuration field raw with inl d => inl (durationpb_New d) | inr e => inr e end.

Definition healthCheck (d : option deploySection.t) : result (option HealthCheck.t) :=
  match d ≫= deploySection.Healthcheck with
  | None => inl None
  | Some h =>
    i ← optional_duration "deploy.healthcheck.interval" (healthcheckSection.Interval h);
    t ← optional_duration "deploy.healthcheck.timeout" (healthcheckSection.Timeout h);
    g ← optional_duration "deploy.healthcheck.grace_period" (healthcheckSection.GracePeriod h);
    inl (Some (HealthCheck.mk (healthType (healthcheckSection.Type_ h)) (healthcheckSection.Path h) (healthcheckSection.Port h)
      (healthcheckSection.Command h) i t g (healthcheckSection.UnhealthyThreshold h)))
  end.

Definition has_http (ps : list (option PortSpec.t)) : bool :=
  existsb (λ p, bool_decide (p ⇝ PortSpec.Protocol = PROTOCOL_HTTP) || bool_decide (p ⇝ PortSpec.Protocol = PROTOCOL_UNSPECIFIED)) ps.

Definition seconds (n : Z) : option Duration.t := durationpb_New (n * 10 ^ 9).

(** The defaults that are filled in, in place, in a declared health check. *)
Definition filled (hc : HealthCheck.t) : HealthCheck.t :=
  HealthCheck.mk (HealthCheck.Type_ hc)
    (if bool_decide (HealthCheck.Type_ hc = HEALTH_CHECK_TYPE_HTTP) && (HealthCheck.Path hc =? "") then "/healthz" else HealthCheck.Path hc)
    (HealthCheck.Port hc) (HealthCheck.Command hc)
    (match HealthCheck.Interval hc with None => seconds 10 | d => d end)
    (match HealthCheck.Timeout hc with None => seconds 5 | d => d end)
    (match HealthCheck.GracePeriod hc with None => seconds 60 | d => d end)
    (if (HealthCheck.UnhealthyThreshold hc =? 0)%Z then 3%Z else HealthCheck.UnhealthyThreshold hc).

Definition defaultedHealthCheck (hc : option HealthCheck.t) (ps : list (option PortSpec.t)) : option HealthCheck.t :=
  match hc with
  | Some hc => Some (filled hc)
  | None => if has_http ps then Some (filled (HealthCheck.mk HEALTH_CHECK_TYPE_HTTP "/healthz" 0 "" None None None 0)) else None
  end.

Definition concurrency (s : string) : ConcurrencyPolicy :=
  let s := ToLower s in
  if s =? "replace" then CONCURRENCY_POLICY_REPLACE
  else if s =? "allow" then CONCURRENCY_POLICY_ALLOW
  else CONCURRENCY_POLICY_FORBID.

Fixpoint cronSpecs (path : string) (i : nat) (l : list cronSection.t) : result (list (option CronSpec.t)) :=
  match l with
  | [] => inl []
  | c :: l =>
    if cronSection.Schedule c =? "" then inr (ScheduleRequired path i)
    else if negb (length (Fields (cronSection.Schedule c)) =? 5)%nat then inr (ScheduleFields path i)
    else
      rest ← cronSpecs path (S i) l;
      inl (Some (CronSpec.mk (cronSection.Name c) (cronSection.Schedule c) (cronSection.Command c) (concurrency (cronSection.Concurrency c))
        (cronSection.MaxRetries c)) :: rest)
  end.

Fixpoint volumes (name : string) (l : list volumeSection.t) : result (list (option VolumeMount.t)) :=
  match l with
  | [] => inl []
  | v :: l =>
    if (volumeSection.Name v =? "") || (volumeSection.MountPath v =? "") then inr (VolumeIncomplete name)
    else rest ← volumes name l; inl (Some (VolumeMount.mk (volumeSection.Name v) (volumeSection.MountPath v)) :: rest)
  end.

Definition rateLimit (name : string) (rl : option rateLimitSection.t) : result (option RateLimit.t) :=
  match rl with
  | None => inl None
  | Some rl =>
    let rps := rateLimitSection.RequestsPerSecond rl in
    let burst := rateLimitSection.Burst rl in
    if (rps =? 0)%Z then inr (RateZero name)
    else if (burst =? 0)%Z then inl (Some (RateLimit.mk rps rps))
    else if (burst <? rps)%Z then inr (BurstBelowRate name)
    else inl (Some (RateLimit.mk rps burst))
  end.

(** serviceSpec: the spec, the domains and the idle window; zero is none. *)
Definition serviceSpec (name : string) (env : envSection.t) (hc : option HealthCheck.t) (globalCron : list (option CronSpec.t))
    : result (ServiceSpec.t * list string * Z) :=
  repl ← replicaRange name env;
  let ps := ports (envSection.Ports env) in
  vols ← volumes name (envSection.Volumes env);
  cron ← (match envSection.Cron env with [] => inl globalCron | l => cronSpecs ("env." +:+ name +:+ ".cron") 0 l end : result _);
  grace ← (if envSection.StopGrace env =? "" then inl (10 * 10 ^ 9)%Z
           else parseDuration ("env." +:+ name +:+ ".stop_grace") (envSection.StopGrace env) : result Z);
  rl ← rateLimit name (envSection.RateLimit env);
  idle ← (if envSection.IdleTimeout env =? "" then inl 0%Z
          else parseDuration ("env." +:+ name +:+ ".idle_timeout") (envSection.IdleTimeout env) : result Z);
  inl (ServiceSpec.mk (Some repl)
         ((λ a, Autoscale.mk (autoscaleSection.TargetCPUPercent a) (autoscaleSection.TargetMemoryPercent a) (autoscaleSection.TargetRPSPerReplica a)) <$> envSection.Autoscale env)
         ((λ r, ResourceLimits.mk (resourceSection.CPUMillis r) (resourceSection.MemoryMB r)) <$> envSection.Resources env)
         ps (defaultedHealthCheck hc ps) (envSection.ScaleToZero env) (envSection.MaxConcurrency env) (envSection.Stateful env)
         vols cron (durationpb_New grace) (envSection.Command env) (envSection.Placement env) rl,
       envSection.Domains env, idle).

(** The loop of build over the environments.  The declared health check is one object that
    all of them share: each fills in its defaults. *)
Definition build_env (globalCron : list (option CronSpec.t)) (acc : result (AppConfig.t * option HealthCheck.t)) (ne : string * envSection.t)
    : result (AppConfig.t * option HealthCheck.t) :=
  '(cfg, hc) ← acc;
  '(spec, domains, idle) ← serviceSpec ne.1 ne.2 hc globalCron;
  inl (AppConfig.mk (AppConfig.Name cfg) (AppConfig.Build cfg) (AppConfig.GitHub cfg)
         (<[ne.1 := Some spec]> (AppConfig.Services cfg))
         (if bool_decide (domains = []) then AppConfig.Domains cfg else <[ne.1 := domains]> (AppConfig.Domains cfg))
         (if (0 <? idle)%Z then <[ne.1 := idle]> (AppConfig.IdleTimeouts cfg) else AppConfig.IdleTimeouts cfg),
       filled <$> hc).

Definition build (f : file.t) : result AppConfig.t :=
  if file.App f =? "" then inr NameRequired
  else
    bc ← buildConfig (file.Build f);
    let gh := (λ g, GitHubConfig.mk (githubSection.Repo g) 0 "" ∅ (githubSection.PreviewsEnabled g)) <$> file.GitHub f in
    hc ← healthCheck (file.Deploy f);
    globalCron ← cronSpecs "cron" 0 (file.Cron f);
    '(cfg, _) ← foldl (build_env globalCron) (inl (AppConfig.mk (file.App f) (Some bc) gh ∅ ∅ ∅, hc)) (range (file.Env f));
    inl cfg.

Definition Parse_ (data : string) : result AppConfig.t :=
  match toml_Decode data with
  | None => inr BadToml
  | Some (f, undecoded) =>
    if negb (bool_decide (undecoded = [])) then inr (UnknownKeys (sort_slice str_ltb undecoded)) else build f
  end.

End config.
End Config.
