(* ===== verification/AppConfigProps.v ===== *)
(** What the parser of AppConfig.v accepts is well formed, and does not depend on the order
    in which Go visits a map. *)
From S2P Require Import Prelude Api Watch State Platform F64 AppConfig.
From Stdlib Require Import Ascii.

Import Config.

(** * Durations *)

Lemma leadingInt_rest x s v s' : GoDuration.leadingInt x s = Some (v, s') → String.length s' ≤ String.length s.
Proof.
  revert x. induction s as [|c s IH]; intros x; cbn [GoDuration.leadingInt]; [by intros [= <- <-]|].
  destruct (digit c) as [d|]; [|by intros [= <- <-]]. destruct (_ <? x)%Z; [done|]. cbv zeta. destruct (_ <? _)%Z; [done|].
  intros H%IH. cbn. lia.
Qed.

Lemma leadingFraction_rest x scale o s : String.length (GoDuration.leadingFraction x scale o s).2 ≤ String.length s.
Proof.
  revert x scale o. induction s as [|c s IH]; intros x scale o; cbn [GoDuration.leadingFraction]; [done|].
  destruct (digit c) as [d|]; [|done]. cbv zeta.
  repeat (match goal with |- context [if ?b then _ else _] => destruct b end); cbn [String.length]; etrans; try apply IH; lia.
Qed.

Lemma span_unit_rest s : String.length (GoDuration.span_unit s).1 + String.length (GoDuration.span_unit s).2 = String.length s.
Proof.
  induction s as [|c s IH]; cbn [GoDuration.span_unit]; [done|]. destruct (_ || _); [done|].
  destruct (GoDuration.span_unit s) as [u rest]. cbn in *. lia.
Qed.

Section duration.
Context {FC : F64.FloatConv}.

(** A component takes a character at least, and is nanoseconds of a uint64. *)
Lemma component_spec s v s' : GoDuration.component s = Some (v, s') → String.length s' < String.length s.
Proof.
  destruct s as [|c s]; [done|]. unfold GoDuration.component. destruct (negb _); [done|].
  destruct (GoDuration.leadingInt 0 (String c s)) as [[n s1]|] eqn:Hi; [|done]. cbn [mbind option_bind]. pose proof (leadingInt_rest _ _ _ _ Hi) as H1.
  set (pick := match s1 with String "." s1' => _ | _ => _ end). assert (String.length pick.1.2 ≤ String.length s1) as H2.
  { unfold pick. destruct s1 as [|c1 s1]; [done|]. pose proof (leadingFraction_rest 0 (F64.ofZ 1) false s1) as Hl.
    destruct c1 as [[] [] [] [] [] [] [] []]; try done. destruct (GoDuration.leadingFraction _ _ _ s1) as [[f sc] s2]. cbn in *. lia. }
  destruct pick as [[[f scale] s2] post]. cbn in H2. cbv zeta. destruct (_ && _); [done|].
  pose proof (span_unit_rest s2) as H3. destruct (GoDuration.span_unit s2) as [u s3]. cbn in H3.
  destruct (u =? "") eqn:Hu; [done|]. apply str_eqb_neq in Hu. assert (0 < String.length u) as H4 by (destruct u; [done|cbn; lia]).
  destruct (GoDuration.unitMap u) as [w|]; [|done]. cbn [mbind option_bind].
  repeat (match goal with |- context [if ?b then _ else _] => destruct b end); intros H; simplify_eq; lia.
Qed.

(** More rounds than characters change nothing. *)
Lemma components_fuel fuel fuel' d s : String.length s ≤ fuel → String.length s ≤ fuel' → GoDuration.components fuel d s = GoDuration.components fuel' d s.
Proof.
  revert fuel' d s. induction fuel as [|fuel IH]; intros fuel' d s Hf Hf'; (destruct s as [|c s]; [by destruct fuel'|]); cbn [String.length] in *; [lia|].
  destruct fuel' as [|fuel']; [lia|]. cbn [GoDuration.components]. destruct (GoDuration.component (String c s)) as [[v s']|] eqn:Hc; [|done].
  apply component_spec in Hc. cbn [String.length] in Hc. cbn [mbind option_bind]. cbv zeta. destruct (_ <? _)%Z; [done|]. apply IH; lia.
Qed.

Lemma components_bounds fuel d s r : (0 ≤ d ≤ 2 ^ 63)%Z → GoDuration.components fuel d s = Some r → (0 ≤ r ≤ 2 ^ 63)%Z.
Proof.
  revert d s. induction fuel as [|fuel IH]; intros d s Hd; (destruct s as [|c s]; [by intros [= <-]|]); cbn [GoDuration.components]; [done|].
  destruct (GoDuration.component _) as [[v s']|]; [|done]. cbn [mbind option_bind]. cbv zeta. destruct (_ <? _)%Z eqn:E; [done|].
  apply IH. unfold u64 in *. pose proof (Z.mod_pos_bound (d + v) (2 ^ 64) ltac:(done)). lia.
Qed.

(** A duration that parses is an int64. *)
Lemma ParseDuration_bounds s d : GoDuration.ParseDuration s = Some d → in_i64 d.
Proof.
  unfold GoDuration.ParseDuration. set (p := match s with String "-" s0 => _ | _ => _ end). destruct p as [neg t].
  destruct (t =? "0"); [by intros [= <-]|]. destruct (t =? ""); [done|].
  destruct (GoDuration.components _ 0 t) as [r|] eqn:Hr; [|done]. cbn [mbind option_bind]. apply components_bounds in Hr; [|done]. unfold in_i64.
  destruct neg; [intros [= <-]; lia|]. destruct (_ <? r)%Z eqn:E; [done|]. intros [= <-]. lia.
Qed.
End duration.

(** What cannot happen below 2^63 is left to a parameter. *)
#[local] Instance whole_floats : F64.FloatConv := λ _, 0%Z.

Example duration_minutes : GoDuration.ParseDuration "1h15m30.918s" = Some 4530918000000%Z.
Proof. vm_compute. reflexivity. Qed.

Example duration_fraction : GoDuration.ParseDuration "-1.5h" = Some (- 5400000000000)%Z ∧ GoDuration.ParseDuration "1.0000000001s" = Some 1000000000%Z
  ∧ GoDuration.ParseDuration ".5ms" = Some 500000%Z.
Proof. vm_compute. by split_and!. Qed.

Example duration_errors : GoDuration.ParseDuration "15" = None ∧ GoDuration.ParseDuration "1d" = None ∧ GoDuration.ParseDuration "" = None
  ∧ GoDuration.ParseDuration "2562048h" = None ∧ GoDuration.ParseDuration "." = None.
Proof. vm_compute. by split_and!. Qed.

(** * Platforms *)

Lemma known_parts os arch : os ∈ knownOS → arch ∈ knownArch → Normalize (os +:+ "/" +:+ arch) = Some (os +:+ "/" +:+ arch).
Proof.
  unfold knownOS, knownArch. intros Ho Ha.
  assert (os = "linux" ∨ os = "darwin" ∨ os = "windows" ∨ os = "freebsd") as Ho' by set_solver. clear Ho.
  assert (arch = "amd64" ∨ arch = "arm64" ∨ arch = "arm" ∨ arch = "386" ∨ arch = "riscv64" ∨ arch = "ppc64le" ∨ arch = "s390x") as Ha' by set_solver. clear Ha.
  destruct Ho' as [->|[->|[->| ->]]], Ha' as [->|[->|[->|[->|[->|[->| ->]]]]]]; vm_compute; reflexivity.
Qed.

Lemma Normalize_canonical s p : Normalize s = Some p → Normalize p = Some p.
Proof.
  unfold Normalize at 1. destruct (Cut _ _) as [[os arch] ok]. destruct (_ || _); [done|]. cbv zeta.
  set (a := match archAliases !! arch with Some _ => _ | None => _ end). destruct (bool_decide (os ∈ knownOS)) eqn:Ho; [|done].
  destruct (bool_decide (a ∈ knownArch)) eqn:Ha; [|done]. cbn [negb]. intros [= <-].
  apply bool_decide_eq_true in Ho, Ha. by apply known_parts.
Qed.

Lemma normalized_canonical ps l : normalized ps = inl l → Forall (λ p, Normalize p = Some p) l.
Proof.
  revert l. induction ps as [|p ps IH]; intros l; cbn; [by intros [= <-]|]. destruct (Normalize p) as [n|] eqn:Hn; [|done].
  destruct (normalized ps) as [l'|]; [|done]. intros [= <-]. constructor; [by apply Normalize_canonical in Hn|by apply IH].
Qed.

(** * What is accepted *)

(** The numbers of a decoded file are of their types. *)
Record typed_env (e : envSection.t) : Prop := {
  t_min : ∀ z, envSection.MinReplicas e = Some z → in_u32 z;
  t_max : ∀ z, envSection.MaxReplicas e = Some z → in_u32 z;
  t_rate : ∀ r, envSection.RateLimit e = Some r → in_u32 (rateLimitSection.RequestsPerSecond r) ∧ in_u32 (rateLimitSection.Burst r)
}.

Definition typed_file (f : file.t) : Prop :=
  (∀ n e, file.Env f !! n = Some e → typed_env e)
  ∧ ∀ d h, file.Deploy f = Some d → deploySection.Healthcheck d = Some h → (0 ≤ healthcheckSection.UnhealthyThreshold h)%Z.

Definition lasts (d : option Duration.t) : Prop := ∃ ns, (0 ≤ ns)%Z ∧ d = durationpb_New ns.

Record good_check (h : HealthCheck.t) : Prop := {
  g_interval : lasts (HealthCheck.Interval h);
  g_timeout : lasts (HealthCheck.Timeout h);
  g_grace : lasts (HealthCheck.GracePeriod h);
  g_threshold : (0 < HealthCheck.UnhealthyThreshold h)%Z;
  g_path : HealthCheck.Type_ h = HEALTH_CHECK_TYPE_HTTP → HealthCheck.Path h ≠ ""
}.

Record good_service (s : ServiceSpec.t) : Prop := {
  g_replicas : ∃ r, ServiceSpec.Replicas s = Some r ∧ (0 ≤ ReplicaRange.Min r ≤ ReplicaRange.Max r)%Z ∧ in_u32 (ReplicaRange.Max r);
  g_ports : ServiceSpec.Ports s ≠ [] ∧ Forall (λ p, ∃ q, p = Some q ∧ PortSpec.Name q ≠ "") (ServiceSpec.Ports s);
  g_check : match ServiceSpec.Healthcheck s with Some h => good_check h | None => has_http (ServiceSpec.Ports s) = false end;
  g_volumes : Forall (λ v, ∃ m, v = Some m ∧ VolumeMount.VolumeName m ≠ "" ∧ VolumeMount.MountPath m ≠ "") (ServiceSpec.Volumes s);
  g_cron : Forall (λ c, ∃ k, c = Some k ∧ length (Fields (CronSpec.Schedule k)) = 5) (ServiceSpec.Cron s);
  g_stop : lasts (ServiceSpec.StopGrace s);
  g_rate : ∀ r, ServiceSpec.RateLimit s = Some r → (0 < RateLimit.RequestsPerSecond r ≤ RateLimit.Burst r)%Z ∧ in_u32 (RateLimit.Burst r)
}.

Record good_build (b : BuildConfig.t) : Prop := {
  g_image : BuildConfig.Type_ b = BUILD_TYPE_IMAGE ↔ BuildConfig.Image b ≠ "";
  g_dockerfile : BuildConfig.DockerfilePath b ≠ "" ∧ BuildConfig.ContextDir b ≠ "";
  g_platforms : Forall (λ p, Normalize p = Some p) (BuildConfig.Platforms b)
}.

Section accepted.
Context {FC : F64.FloatConv}.

Lemma parseDuration_lasts field raw d : parseDuration field raw = inl d → (0 ≤ d)%Z.
Proof. unfold parseDuration. destruct (GoDuration.ParseDuration raw) as [n|]; [|done]. destruct (n <? 0)%Z eqn:E; [done|]. intros [= <-]. lia. Qed.

Lemma optional_lasts field raw d : optional_duration field raw = inl d → d = None ∨ lasts d.
Proof.
  unfold optional_duration. destruct (raw =? ""); [intros [= <-]; by left|]. destruct (parseDuration field raw) as [n|] eqn:Hn; [|done].
  intros [= <-]. right. exists n. split; [by eapply parseDuration_lasts|done].
Qed.

Lemma or_default (s d : string) : d ≠ "" → (if s =? "" then d else s) ≠ "".
Proof. intros Hd. destruct (s =? "") eqn:E; [done|by apply str_eqb_neq in E]. Qed.

Lemma buildConfig_good b bc : buildConfig b = inl bc → good_build bc.
Proof.
  unfold buildConfig. destruct b as [b|]; cbv zeta; [|intros [= <-]; by constructor].
  destruct (bool_decide (buildType _ = _)) eqn:Ht, (buildSection.Image b =? "") eqn:Hi; cbn [negb andb]; try done;
    (destruct (normalized _) as [ps|] eqn:Hp; [|done]); intros [= <-]; apply normalized_canonical in Hp;
    (constructor; [|split; by apply or_default|done]); cbn [BuildConfig.Type_ BuildConfig.Image].
  - apply bool_decide_eq_true in Ht. apply str_eqb_neq in Hi. done.
  - apply bool_decide_eq_false in Ht. apply str_eqb_eq in Hi. done.
Qed.

Lemma replicaRange_good name e r :
  typed_env e → replicaRange name e = inl r → (0 ≤ ReplicaRange.Min r ≤ ReplicaRange.Max r)%Z ∧ in_u32 (ReplicaRange.Max r).
Proof.
  intros T. unfold replicaRange. cbv zeta. pose proof (t_min _ T) as Tm. pose proof (t_max _ T) as Tx. unfold in_u32 in *.
  destruct (envSection.MinReplicas e) as [mn|], (envSection.MaxReplicas e) as [mx|], (envSection.Replicas e) as [n|]; cbn [default from_option] in *; unfold id;
    try specialize (Tm _ eq_refl); try specialize (Tx _ eq_refl);
    try (destruct (n <? 0)%Z; [done|]); (destruct (_ <? _)%Z eqn:E; [done|]); intros [= <-]; cbn; try lia.
  all: pose proof (u32_range n) as Hu; unfold in_u32 in Hu; lia.
Qed.

Lemma ports_good l : ports l ≠ [] ∧ Forall (λ p, ∃ q, p = Some q ∧ PortSpec.Name q ≠ "") (ports l).
Proof.
  unfold ports. destruct l as [|p l]; [by split; [|repeat constructor; eexists]|]. split; [done|].
  apply Forall_fmap, Forall_forall. intros q _. eexists. split; [done|]. by apply or_default.
Qed.

Lemma filled_good h :
  (HealthCheck.Interval h = None ∨ lasts (HealthCheck.Interval h)) → (HealthCheck.Timeout h = None ∨ lasts (HealthCheck.Timeout h)) →
  (HealthCheck.GracePeriod h = None ∨ lasts (HealthCheck.GracePeriod h)) → (0 ≤ HealthCheck.UnhealthyThreshold h)%Z → good_check (filled h).
Proof.
  assert (∀ n, (0 ≤ n)%Z → lasts (seconds n)) as Hs by (intros n Hn; exists (n * 10 ^ 9)%Z; split; [lia|done]).
  intros Hi Ht Hg Hu. constructor; cbn.
  - destruct Hi as [->|Hl]; [by apply Hs|]. destruct Hl as (ns & H & ->). by exists ns.
  - destruct Ht as [->|Hl]; [by apply Hs|]. destruct Hl as (ns & H & ->). by exists ns.
  - destruct Hg as [->|Hl]; [by apply Hs|]. destruct Hl as (ns & H & ->). by exists ns.
  - destruct (_ =? 0)%Z eqn:E; lia.
  - intros ->. rewrite bool_decide_eq_true_2 by done. cbn [andb]. destruct (_ =? "") eqn:E; [done|by apply str_eqb_neq in E].
Qed.

(** Environments share the declared check: filling it in again changes nothing. *)
Lemma filled_idemp h : filled (filled h) = filled h.
Proof.
  unfold filled. cbn. f_equal.
  - destruct (bool_decide _); [|done]. cbn. by destruct (HealthCheck.Path h =? "") eqn:E; rewrite ?E.
  - by destruct (HealthCheck.Interval h).
  - by destruct (HealthCheck.Timeout h).
  - by destruct (HealthCheck.GracePeriod h).
  - by destruct (HealthCheck.UnhealthyThreshold h =? 0)%Z eqn:E; rewrite ?E.
Qed.

Definition fillable (hc : option HealthCheck.t) : Prop := ∀ h, hc = Some h → good_check (filled h).

Lemma healthCheck_fillable d hc :
  (∀ d' h, d = Some d' → deploySection.Healthcheck d' = Some h → (0 ≤ healthcheckSection.UnhealthyThreshold h)%Z) →
  healthCheck d = inl hc → fillable hc.
Proof.
  intros T. unfold healthCheck. destruct d as [d|]; cbn; [|by intros [= <-]]. destruct (deploySection.Healthcheck d) as [h|] eqn:Hh; [|by intros [= <-]].
  destruct (optional_duration _ (healthcheckSection.Interval h)) as [i|] eqn:Hi; [|done]. cbn.
  destruct (optional_duration _ (healthcheckSection.Timeout h)) as [t|] eqn:Ht; [|done]. cbn.
  destruct (optional_duration _ (healthcheckSection.GracePeriod h)) as [g|] eqn:Hg; [|done]. cbn. intros [= <-] h' [= <-].
  apply filled_good; [by eapply optional_lasts..|by eapply T].
Qed.

Lemma defaulted_good hc ps :
  fillable hc → match defaultedHealthCheck hc ps with Some h => good_check h | None => has_http ps = false end.
Proof.
  intros F. unfold defaultedHealthCheck. destruct hc as [h|]; [by apply F|]. destruct (has_http ps); [|done].
  apply filled_good; cbn; [by left..|done].
Qed.

Lemma cronSpecs_good path i l cs : cronSpecs path i l = inl cs → Forall (λ c, ∃ k, c = Some k ∧ length (Fields (CronSpec.Schedule k)) = 5) cs.
Proof.
  revert i cs. induction l as [|c l IH]; intros i cs; cbn; [by intros [= <-]|]. destruct (_ =? ""); [done|].
  destruct (Nat.eqb _ 5) eqn:E; [|done]. cbn. destruct (cronSpecs path (S i) l) as [rest|] eqn:Hr; [|done]. cbn. intros [= <-].
  constructor; [|by eapply IH]. eexists. split; [done|]. by apply Nat.eqb_eq.
Qed.

Lemma volumes_good name l vs : volumes name l = inl vs → Forall (λ v, ∃ m, v = Some m ∧ VolumeMount.VolumeName m ≠ "" ∧ VolumeMount.MountPath m ≠ "") vs.
Proof.
  revert vs. induction l as [|v l IH]; intros vs; cbn; [by intros [= <-]|]. destruct (volumeSection.Name v =? "") eqn:E1; [done|].
  destruct (volumeSection.MountPath v =? "") eqn:E2; [done|]. cbn. destruct (volumes name l) as [rest|] eqn:Hr; [|done]. cbn. intros [= <-].
  apply str_eqb_neq in E1, E2. constructor; [by eexists|by eapply IH].
Qed.

Lemma rateLimit_good name e r :
  typed_env e → rateLimit name (envSection.RateLimit e) = inl (Some r) → (0 < RateLimit.RequestsPerSecond r ≤ RateLimit.Burst r)%Z ∧ in_u32 (RateLimit.Burst r).
Proof.
  intros T. unfold rateLimit. pose proof (t_rate _ T) as Tr. destruct (envSection.RateLimit e) as [rl|]; [|done].
  destruct (Tr rl eq_refl) as [T1 T2]. unfold in_u32 in *. destruct rl as [rps burst]. cbn [rateLimitSection.RequestsPerSecond rateLimitSection.Burst] in *.
  destruct (rps =? 0)%Z eqn:E1; [done|]. destruct (burst =? 0)%Z eqn:E2.
  - intros H. injection H as <-. cbn. lia.
  - destruct (burst <? rps)%Z eqn:E3; [done|]. intros H. injection H as <-. cbn. lia.
Qed.

Lemma serviceSpec_good name e hc gc spec doms idle :
  typed_env e → fillable hc → Forall (λ c, ∃ k, c = Some k ∧ length (Fields (CronSpec.Schedule k)) = 5) gc →
  serviceSpec name e hc gc = inl (spec, doms, idle) → good_service spec ∧ (0 ≤ idle)%Z ∧ doms = envSection.Domains e.
Proof.
  intros T F Hgc. unfold serviceSpec. destruct (replicaRange name e) as [r|] eqn:Hr; [|done]. cbn [mbind result_bind]. cbv zeta.
  destruct (volumes name _) as [vs|] eqn:Hv; [|done]. cbn [mbind result_bind].
  set (cron := match envSection.Cron e with [] => _ | _ => _ end). destruct cron as [cs|] eqn:Hc; [|done]. cbn [mbind result_bind].
  set (grace := if envSection.StopGrace e =? "" then _ else _). destruct grace as [g|] eqn:Hg; [|done]. cbn [mbind result_bind].
  destruct (rateLimit name _) as [rl|] eqn:Hrl; [|done]. cbn [mbind result_bind].
  set (window := if envSection.IdleTimeout e =? "" then _ else _). destruct window as [w|] eqn:Hw; [|done]. cbn [mbind result_bind].
  intros [= <- <- <-]. split_and!; [|unfold window in Hw; destruct (envSection.IdleTimeout e =? ""); [by injection Hw as <-|by eapply parseDuration_lasts]|done].
  constructor; cbn.
  - exists r. split; [done|]. by eapply replicaRange_good.
  - apply ports_good.
  - by apply defaulted_good.
  - by eapply volumes_good.
  - unfold cron in Hc. destruct (envSection.Cron e); [by injection Hc as <-|by eapply cronSpecs_good].
  - exists g. split; [|done]. unfold grace in Hg. destruct (envSection.StopGrace e =? ""); [by injection Hg as <-|by eapply parseDuration_lasts].
  - intros r' ->. by eapply rateLimit_good.
Qed.

Lemma serviceSpec_filled name e hc gc : serviceSpec name e (filled <$> hc) gc = serviceSpec name e hc gc.
Proof.
  assert (∀ ps, defaultedHealthCheck (filled <$> hc) ps = defaultedHealthCheck hc ps) as H by (intros ps; destruct hc; cbn; [by rewrite filled_idemp|done]).
  unfold serviceSpec. by rewrite H.
Qed.
End accepted.

(** * The loop over the environments *)

Section loop.
Context {FC : F64.FloatConv} (gc : list (option CronSpec.t)).

(** What the environments of a list add to a configuration. *)
Record added (hc : option HealthCheck.t) (l : list (string * envSection.t)) (c c' : AppConfig.t) : Prop := {
  a_rest : AppConfig.Name c' = AppConfig.Name c ∧ AppConfig.Build c' = AppConfig.Build c ∧ AppConfig.GitHub c' = AppConfig.GitHub c;
  a_env : ∀ n e, (n, e) ∈ l → ∃ spec doms idle, serviceSpec n e hc gc = inl (spec, doms, idle)
    ∧ AppConfig.Services c' !! n = Some (Some spec)
    ∧ AppConfig.Domains c' !! n = (if bool_decide (doms = []) then AppConfig.Domains c !! n else Some doms)
    ∧ AppConfig.IdleTimeouts c' !! n = (if (0 <? idle)%Z then Some idle else AppConfig.IdleTimeouts c !! n);
  a_other : ∀ n, n ∉ l.*1 → AppConfig.Services c' !! n = AppConfig.Services c !! n
    ∧ AppConfig.Domains c' !! n = AppConfig.Domains c !! n ∧ AppConfig.IdleTimeouts c' !! n = AppConfig.IdleTimeouts c !! n
}.

Lemma build_env_failed l e : foldl (build_env gc) (inr e) l = inr e.
Proof. induction l as [|x l IH]; [done|exact IH]. Qed.

Lemma build_envs_spec l c hc :
  NoDup l.*1 →
  match foldl (build_env gc) (inl (c, hc)) l with
  | inl (c', _) => added hc l c c'
  | inr e => ∃ n env, (n, env) ∈ l ∧ serviceSpec n env hc gc = inr e
  end.
Proof.
  revert c hc. induction l as [|[n env] l IH]; intros c hc Hnd; cbn [foldl].
  { constructor; [done|by intros n e H%elem_of_nil|done]. }
  apply NoDup_cons in Hnd as [Hn Hnd]. unfold build_env at 2. cbn [mbind result_bind fst snd].
  destruct (serviceSpec n env hc gc) as [[[spec doms] idle]|e] eqn:Hs; cbn [mbind result_bind].
  2:{ rewrite build_env_failed. exists n, env. split; [left|done]. }
  match goal with |- match foldl _ (inl (?c1, _)) _ with _ => _ end => set (c1' := c1); specialize (IH c1' (filled <$> hc) Hnd) end.
  destruct (foldl (build_env gc) (inl (c1', filled <$> hc)) l) as [[c' hc']|e].
  2:{ destruct IH as (m & em & Hm & He). exists m, em. split; [by right|]. by rewrite serviceSpec_filled in He. }
  destruct IH as [Hrest Henv Hother]. constructor.
  - exact Hrest.
  - intros m em [H|H]%elem_of_cons.
    + injection H as -> ->. exists spec, doms, idle. destruct (Hother n Hn) as (-> & -> & ->). split; [done|]. unfold c1'.
      cbn [AppConfig.Services AppConfig.Domains AppConfig.IdleTimeouts]. rewrite lookup_insert_eq. split_and!; [done|..].
      * destruct (bool_decide (doms = [])); [done|by rewrite lookup_insert_eq].
      * destruct (0 <? idle)%Z; [by rewrite lookup_insert_eq|done].
    + assert (n ≠ m) as Hne by (intros ->; apply Hn, list_elem_of_fmap; by exists (m, em)).
      destruct (Henv m em H) as (sp & ds & id_ & H1 & H2 & H3 & H4). rewrite serviceSpec_filled in H1. exists sp, ds, id_. rewrite H3, H4. unfold c1'.
      cbn [AppConfig.Services AppConfig.Domains AppConfig.IdleTimeouts]. split_and!; [done|done|..].
      * destruct (bool_decide (doms = [])); [done|by rewrite lookup_insert_ne].
      * destruct (0 <? idle)%Z; [by rewrite lookup_insert_ne|done].
  - intros m Hm. cbn [fmap list_fmap fst] in Hm. apply not_elem_of_cons in Hm as [Hne Hm]. destruct (Hother m Hm) as (-> & -> & ->). unfold c1'.
    cbn [AppConfig.Services AppConfig.Domains AppConfig.IdleTimeouts]. rewrite lookup_insert_ne by done. split_and!; [done|..].
    + destruct (bool_decide (doms = [])); [done|by rewrite lookup_insert_ne].
    + destruct (0 <? idle)%Z; [by rewrite lookup_insert_ne|done].
Qed.
End loop.

(** * The whole file *)

(** What is checked before the environments. *)
Definition header {FC : F64.FloatConv} (f : file.t) : result (BuildConfig.t * option HealthCheck.t * list (option CronSpec.t)) :=
  if file.App f =? "" then inr NameRequired
  else bc ← buildConfig (file.Build f); hc ← healthCheck (file.Deploy f); gc ← cronSpecs "cron" 0 (file.Cron f); inl (bc, hc, gc).

Definition start (f : file.t) (bc : BuildConfig.t) : AppConfig.t :=
  AppConfig.mk (file.App f) (Some bc)
    ((λ g, GitHubConfig.mk (githubSection.Repo g) 0 "" ∅ (githubSection.PreviewsEnabled g)) <$> file.GitHub f) ∅ ∅ ∅.

Lemma build_spec {FC : F64.FloatConv} (RO : RangeOrder) (ROk : RangeOrderOk RO) f :
  match header f with
  | inr e => build f = inr e
  | inl (bc, hc, gc) =>
    match build f with
    | inl c => added gc hc (range (file.Env f)) (start f bc) c
    | inr e => ∃ n env, file.Env f !! n = Some env ∧ serviceSpec n env hc gc = inr e
    end
  end.
Proof.
  unfold header, build. destruct (file.App f =? ""); [done|]. destruct (buildConfig _) as [bc|e]; [|done]. cbn [mbind result_bind].
  destruct (healthCheck _) as [hc|e]; [|done]. cbn [mbind result_bind]. destruct (cronSpecs _ _ _) as [gc|e]; [|done]. cbn [mbind result_bind].
  fold (start f bc). pose proof (build_envs_spec gc (range (file.Env f)) (start f bc) hc (NoDup_fst_range _)) as H.
  destruct (foldl _ _ _) as [[c hc']|e]; [exact H|]. destruct H as (n & env & Hin & He). exists n, env. split; [by apply elem_of_range|done].
Qed.

Lemma header_good {FC : F64.FloatConv} f bc hc gc : typed_file f → header f = inl (bc, hc, gc) →
  file.App f ≠ "" ∧ good_build bc ∧ fillable hc ∧ Forall (λ c, ∃ k, c = Some k ∧ length (Fields (CronSpec.Schedule k)) = 5) gc.
Proof.
  intros [_ T] H. unfold header in H. destruct (file.App f =? "") eqn:Hn; [done|]. destruct (buildConfig _) as [bc'|] eqn:Hb; [|done]. cbn in H.
  destruct (healthCheck _) as [hc'|] eqn:Hh; [|done]. cbn in H. destruct (cronSpecs _ _ _) as [gc'|] eqn:Hc; [|done]. cbn in H. injection H as <- <- <-.
  apply str_eqb_neq in Hn. split_and!; [done|by eapply buildConfig_good|by eapply healthCheck_fillable|by eapply cronSpecs_good].
Qed.

(** C31: What the parser accepts is well formed.  An accepted file has a name and a build
    whose image and type agree, with canonical platforms; every environment of the file
    becomes a service with 0 <= min <= max replicas, named ports, a complete health check
    where there is an HTTP port, mounts with both names, cron schedules of five fields, a
    stop grace, and a burst of at least the rate; domains and idle windows are only of
    those environments, and an idle window is positive. *)
Theorem accepted_configuration_is_well_formed (FC : F64.FloatConv) (TOML : TomlLib) (RO : RangeOrder) (data : string) (c : AppConfig.t) :
  RangeOrderOk RO → (∀ f keys, toml_Decode data = Some (f, keys) → typed_file f) → Parse_ data = inl c →
  ∃ f, toml_Decode data = Some (f, []) ∧ AppConfig.Name c = file.App f ∧ AppConfig.Name c ≠ ""
    ∧ (∃ bc, AppConfig.Build c = Some bc ∧ good_build bc)
    ∧ dom (AppConfig.Services c) = dom (file.Env f)
    ∧ (∀ n spec, AppConfig.Services c !! n = Some spec → ∃ s, spec = Some s ∧ good_service s)
    ∧ (∀ n ds, AppConfig.Domains c !! n = Some ds → ds ≠ [] ∧ ∃ e, file.Env f !! n = Some e ∧ ds = envSection.Domains e)
    ∧ ∀ n w, AppConfig.IdleTimeouts c !! n = Some w → (0 < w)%Z ∧ n ∈ dom (file.Env f).
Proof.
  intros ROk Ht. unfold Parse_. destruct (toml_Decode data) as [[f keys]|]; [|done]. specialize (Ht f keys eq_refl).
  destruct (bool_decide (keys = [])) eqn:Hk; [|done]. apply bool_decide_eq_true in Hk as ->. cbn [negb]. intros Hb. exists f. split; [done|].
  pose proof (build_spec RO ROk f) as H. destruct (header f) as [[[bc hc] gc]|e] eqn:Hh; [|congruence]. rewrite Hb in H.
  destruct (header_good f bc hc gc Ht Hh) as (Hn & Hbc & Hf & Hgc). destruct H as [(Rn & Rb & _) Henv Hother].
  assert (∀ n, file.Env f !! n = None → n ∉ (range (file.Env f)).*1) as Hnone.
  { intros n Hne ([k e] & -> & Hin)%list_elem_of_fmap. apply elem_of_range in Hin. cbn in Hne. congruence. }
  assert (∀ n e, file.Env f !! n = Some e → ∃ s, AppConfig.Services c !! n = Some (Some s) ∧ good_service s
    ∧ (∀ ds, AppConfig.Domains c !! n = Some ds → ds ≠ [] ∧ ds = envSection.Domains e) ∧ ∀ w, AppConfig.IdleTimeouts c !! n = Some w → (0 < w)%Z) as Hsome.
  { intros n e He. destruct (Henv n e) as (s & ds & w & Hs & H1 & H2 & H3); [by apply elem_of_range|].
    destruct (serviceSpec_good _ _ _ _ _ _ _ (proj1 Ht n e He) Hf Hgc Hs) as (Hg & Hw & ->). exists s. split_and!; [done|done|..].
    - intros ds Hds. rewrite H2 in Hds. case_bool_decide as Hd; [cbn in Hds; by rewrite lookup_empty in Hds|]. injection Hds as <-. done.
    - intros w' Hw'. rewrite H3 in Hw'. destruct (0 <? w)%Z eqn:E; [injection Hw' as <-; lia|cbn in Hw'; by rewrite lookup_empty in Hw']. }
  rewrite Rn, Rb. split; [done|]. split; [exact Hn|]. split; [by exists bc|]. split; [|split_and!].
  - apply set_eq. intros n. rewrite !elem_of_dom. destruct (file.Env f !! n) as [e|] eqn:He.
    + destruct (Hsome n e He) as (s & -> & _). done.
    + destruct (Hother n (Hnone n He)) as (-> & _). cbn. by rewrite lookup_empty.
  - intros n spec Hs. destruct (file.Env f !! n) as [e|] eqn:He.
    + destruct (Hsome n e He) as (s & Hs' & Hg & _). exists s. split; [congruence|done].
    + destruct (Hother n (Hnone n He)) as (H1 & _). rewrite H1 in Hs. cbn in Hs. by rewrite lookup_empty in Hs.
  - intros n ds Hds. destruct (file.Env f !! n) as [e|] eqn:He.
    + destruct (Hsome n e He) as (s & _ & _ & H1 & _). destruct (H1 ds Hds). split; [done|by exists e].
    + destruct (Hother n (Hnone n He)) as (_ & H1 & _). rewrite H1 in Hds. cbn in Hds. by rewrite lookup_empty in Hds.
  - intros n w Hw. destruct (file.Env f !! n) as [e|] eqn:He.
    + destruct (Hsome n e He) as (s & _ & _ & _ & H1). split; [by apply H1|]. apply elem_of_dom. by exists e.
    + destruct (Hother n (Hnone n He)) as (_ & _ & H1). rewrite H1 in Hw. cbn in Hw. by rewrite lookup_empty in Hw.
Qed.

(** The order in which Go visits the environments does not matter: either both
    orders are accepted, with one configuration, or neither is. *)
Theorem configuration_does_not_depend_on_order (FC : F64.FloatConv) (TOML : TomlLib) (RO1 RO2 : RangeOrder) (data : string) :
  RangeOrderOk RO1 → RangeOrderOk RO2 →
  match @Parse_ RO1 TOML FC data, @Parse_ RO2 TOML FC data with inl c1, inl c2 => c1 = c2 | inr _, inr _ => True | _, _ => False end.
Proof.
  intros R1 R2. unfold Parse_. destruct (toml_Decode data) as [[f keys]|]; [|done]. destruct (negb _); [done|].
  pose proof (build_spec RO1 R1 f) as H1. pose proof (build_spec RO2 R2 f) as H2. destruct (header f) as [[[bc hc] gc]|e]; [|by rewrite H1, H2].
  assert (∀ RO, RangeOrderOk RO → ∀ n env e c, file.Env f !! n = Some env → serviceSpec n env hc gc = inr e → added gc hc (@range RO _ (file.Env f)) (start f bc) c → False) as Hno.
  { intros RO R n env e c He Hs A. destruct (a_env _ _ _ _ _ A n env) as (s & ds & w & Hs' & _); [by apply elem_of_range|congruence]. }
  destruct (@build RO1 FC f) as [c1|e1], (@build RO2 FC f) as [c2|e2]; try done.
  - destruct H1 as [(N1 & B1 & G1) E1 O1], H2 as [(N2 & B2 & G2) E2 O2].
    assert (∀ n, AppConfig.Services c1 !! n = AppConfig.Services c2 !! n ∧ AppConfig.Domains c1 !! n = AppConfig.Domains c2 !! n
      ∧ AppConfig.IdleTimeouts c1 !! n = AppConfig.IdleTimeouts c2 !! n) as Heq.
    { intros n. destruct (file.Env f !! n) as [env|] eqn:He.
      - destruct (E1 n env) as (s1 & d1 & w1 & S1 & A1 & A2 & A3); [by apply elem_of_range|].
        destruct (E2 n env) as (s2 & d2 & w2 & S2 & A1' & A2' & A3'); [by apply elem_of_range|]. rewrite A1, A2, A3, A1', A2', A3'.
        rewrite S1 in S2. injection S2 as <- <- <-. done.
      - destruct (O1 n) as (A1 & A2 & A3).
        { intros ([k e] & -> & Hin)%list_elem_of_fmap. apply elem_of_range in Hin. cbn in He. congruence. }
        destruct (O2 n) as (A1' & A2' & A3').
        { intros ([k e] & -> & Hin)%list_elem_of_fmap. apply elem_of_range in Hin. cbn in He. congruence. }
        by rewrite A1, A2, A3, A1', A2', A3'. }
    destruct c1 as [n1 b1 g1 v1 m1 i1], c2 as [n2 b2 g2 v2 m2 i2]. cbn in *. rewrite <- N1 in N2. rewrite <- B1 in B2. rewrite <- G1 in G2. subst. f_equal; apply map_eq; intros n; by destruct (Heq n) as (? & ? & ?).
  - destruct H2 as (n & env & He & Hs). by apply (Hno RO1 R1 n env e2 c1).
  - destruct H1 as (n & env & He & Hs). by apply (Hno RO2 R2 n env e1 c2).
Qed.

(** A number of replicas beyond a uint32 is accepted and cut down to its last 32 bits:
    4294967296 replicas are none. *)
Definition plain_env (replicas : option Z) : envSection.t :=
  envSection.mk replicas None None None [] "" false false 0 "" "" None [] [] [] ∅ None.

Lemma replicas_wrap_around : replicaRange "production" (plain_env (Some (2 ^ 32)%Z)) = inl (ReplicaRange.mk 0 0).
Proof. vm_compute. reflexivity. Qed.

(** * Witnesses *)

Definition web_env : envSection.t :=
  envSection.mk None (Some 2%Z) None (Some (autoscaleSection.mk 70 0 0)) ["web.example.com"] "15m" false true 0 "" "30s"
    (Some (resourceSection.mk 250 256)) [portSection.mk "" 3000 "HTTP"] [volumeSection.mk "data" "/data"]
    [cronSection.mk "nightly" "0 3 * * *" "job" "replace" 2] ∅ (Some (rateLimitSection.mk 20 0)).

Definition web_file : file.t :=
  file.mk "web" (Some (buildSection.mk "Dockerfile" "" "" "" ∅ [" Linux/x86_64"])) None
    (Some (deploySection.mk (Some (healthcheckSection.mk "http" "" 0 "" "1.5s" "" "" 0))))
    (<["production" := web_env]> {["staging" := plain_env (Some 1%Z)]}) [].

#[local] Instance web_toml : TomlLib := λ _, Some (web_file, []).

(** The result of the parser, visiting the environments in one order or the other. *)
Definition parsed : result AppConfig.t := @Parse_ canonical_range web_toml whole_floats "".
Definition parsed_reversed : result AppConfig.t := @Parse_ reversed_range web_toml whole_floats "".

Lemma web_typed f keys : toml_Decode "" = Some (f, keys) → typed_file f.
Proof.
  intros [= <- <-]. split.
  - intros n e He. unfold web_file in He. cbn [file.Env] in He. destruct (decide ("production" = n)) as [<-|Hn].
    + rewrite lookup_insert_eq in He. injection He as <-. constructor; cbn; try done; [by intros z [= <-]|by intros r [= <-]].
    + rewrite lookup_insert_ne in He by done. apply lookup_singleton_Some in He as [_ <-]. constructor; done.
  - intros d h [= <-] [= <-]. done.
Qed.

Lemma parsed_web : match parsed with inl c => AppConfig.Name c = "web" | inr _ => False end.
Proof. vm_compute. reflexivity. Qed.

Lemma parsed_reversed_web : match parsed_reversed with inl c => AppConfig.Name c = "web" | inr _ => False end.
Proof. vm_compute. reflexivity. Qed.

Lemma accepted_configuration_is_well_formed_witness :
  match parsed with inl c => ∃ f, @toml_Decode web_toml "" = Some (f, []) ∧ dom (AppConfig.Services c) = dom (file.Env f) | inr _ => False end.
Proof.
  pose proof parsed_web as H. destruct parsed as [c|e] eqn:Hc; [|destruct H].
  destruct (accepted_configuration_is_well_formed whole_floats web_toml canonical_range "" c canonical_range_ok web_typed Hc)
    as (f & Hf & _ & _ & _ & Hd & _).
  exists f. split; [exact Hf|exact Hd].
Defined.

Lemma configuration_does_not_depend_on_order_witness :
  match parsed, parsed_reversed with inl c, inl c' => c = c' ∧ AppConfig.Name c = "web" | _, _ => False end.
Proof.
  pose proof parsed_web as H1. pose proof parsed_reversed_web as H2.
  pose proof (configuration_does_not_depend_on_order whole_floats web_toml canonical_range reversed_range "" canonical_range_ok reversed_range_ok) as H.
  fold parsed parsed_reversed in H. destruct parsed as [c|e]; [|destruct H1]. destruct parsed_reversed as [c'|e']; [|destruct H2].
  split; [exact H|exact H1].
Defined.
