(* ===== verification/LogStore.v ===== *)
(** The log store of a node (internal/daemon/logstore): per stream a directory with an
    active segment, to which records are appended, and closed segments, compressed and with
    an index (segmented.go, segment.go).

    A directory is a map from file names to bytes.  What changes it is a list of calls of
    the operating system, so that a process can die between two of them, or within a write;
    the kernel keeps what was written (nothing is ever synced, so a machine that loses power
    may lose more).  The calls themselves do not fail.  zstd is a parameter.  Times are
    nanoseconds since the epoch. *)
From S2P Require Import Prelude Platform Net Apps Bytes.
From Stdlib Require Import Ascii.

Module Entry.
Record t := mk { Time : Z; Stderr : bool; Line : string }.
#[global] Instance eq_dec : EqDecision t. Proof. solve_decision. Defined.
End Entry.

(** Time.UnixNano, which wraps around outside the years 1678 to 2262, and Time.IsZero. *)
Definition UnixNano (t : Z) : Z := i64 t.
Definition zeroTime : Z := (-62135596800 * 10 ^ 9)%Z.
Definition IsZero (t : Z) : bool := (t =? zeroTime)%Z.

(** What a file compressed by klauspost/compress holds, and what can be read of one before
    the first error. *)
Class ZstdLib := { zstd_Write : list ascii → list ascii; zstd_Read : list ascii → list ascii }.
Class ZstdLibOk {Z_ : ZstdLib} : Prop := zstd_Read_Write : ∀ bs, zstd_Read (zstd_Write bs) = bs.

Notation dir := (gmap string (list ascii)).

(** * Records (segment.go) *)

Module Segment.

Definition recordHeaderBytes : Z := 8 + 1.

Definition body_len (e : Entry.t) : Z := (recordHeaderBytes + Z.of_nat (String.length (Entry.Line e)))%Z.

Definition body (e : Entry.t) : list ascii :=
  put_le 8 (u64 (UnixNano (Entry.Time e))) ++ [ascii_of_N (if Entry.Stderr e then 1 else 0)] ++ String.list_ascii_of_string (Entry.Line e).

Definition appendRecord (buf : list ascii) (e : Entry.t) : list ascii := buf ++ put_uvarint (u64 (body_len e)) ++ body e.

(** make([]byte, n) panics beyond the address space of a 64-bit machine. *)
Definition maxAlloc : Z := (2 ^ 48)%Z.

(** scanRecords, with the entries it passes to [fn]; each takes a byte at least. *)
Fixpoint scan_from (fuel : nat) (bs : list ascii) : outcome (list Entry.t) :=
  match fuel with
  | 0 => Ret []
  | S fuel =>
    match get_uvarint bs with
    | None => Ret []
    | Some (bodyLen, bs) =>
      if (bodyLen <? recordHeaderBytes)%Z then Ret []
      else if (maxAlloc <? bodyLen)%Z then Panic
      else match get_bytes (Z.to_nat bodyLen) bs with
      | None => Ret []
      | Some (body, bs) =>
        match get_le 8 body with
        | Some (nano, flags :: line) =>
          rest ← scan_from fuel bs;
          Ret (Entry.mk (i64 nano) (N.testbit (N_of_ascii flags) 0) (String.string_of_list_ascii line) :: rest)
        | _ => Ret []
        end
      end
    end
  end.

Definition scanRecords (bs : list ascii) : outcome (list Entry.t) := scan_from (length bs) bs.

End Segment.

(** * Files *)

Module Files.
Import Segment.

Definition activeSegmentName : string := "active.log".

(** fmt's %08d, for a number that is not negative: digits from the last on, eight at least;
    twenty are enough for an int. *)
Definition digit_char (d : Z) : ascii := ascii_of_N (Z.to_N (48 + d)).

Fixpoint dec (fuel width : nat) (n : Z) (acc : string) : string :=
  match fuel with
  | 0 => acc
  | S fuel =>
    let acc := String (digit_char (n mod 10)) acc in
    if (n <? 10)%Z && (width <=? 1)%nat then acc else dec fuel (width - 1) (n / 10) acc
  end.

Definition segFile (seq : Z) (ext : string) : string := "seg-" +:+ dec 20 8 seq "" +:+ ext.

(** fmt.Sscanf of %d: an optional sign and digits, whatever follows; the store writes no
    name with white space. *)
Fixpoint leading_digits (acc : option Z) (s : string) : option Z :=
  match s with
  | "" => acc
  | String c s => match digit c with Some d => leading_digits (Some (default 0 acc * 10 + d)%Z) s | None => acc end
  end.

Definition Sscanf_d (s : string) : option Z :=
  let '(neg, s) := match s with String "-" s => (true, s) | String "+" s => (false, s) | _ => (false, s) end in
  n ← leading_digits None s;
  let n := if neg : bool then (- n)%Z else n in
  if ((- 2 ^ 63 <=? n) && (n <? 2 ^ 63))%Z then Some n else None.

Definition seqFromName (name : string) : Z :=
  if negb (HasPrefix name "seg-") then (-1)%Z
  else
    let rest := TrimPrefix name "seg-" in
    match IndexByte rest "." with
    | None => (-1)%Z
    | Some dot => default (-1)%Z (Sscanf_d (String.substring 0 dot rest))
    end.

(** os.ReadDir: the names in their order. *)
Definition ReadDir (d : dir) : list string := sort_slice str_ltb (map_to_list d).*1.

Definition listSegments (d : dir) : list Z :=
  sort_slice Z.ltb (omap (λ name, let seq := seqFromName name in
    if ((0 <=? seq)%Z && Domains.HasSuffix name ".zst") then Some seq else None) (ReadDir d)).

Definition nextSeq (d : dir) : Z :=
  (foldl (λ m name, let seq := seqFromName name in if (m <? seq)%Z then seq else m) (-1) (ReadDir d) + 1)%Z.

(** ** The index of a segment *)

Definition indexMarkStride : Z := Z.shiftl 64 10.

Definition uvarintLen (v : Z) : Z := Z.of_nat (length (put_uvarint v)).

Definition recordEncodedLen (e : Entry.t) : Z := (uvarintLen (u64 (body_len e)) + body_len e)%Z.

(** The variables of compressSegment's scan. *)
Module Scan.
Record t := mk { minNano : Z; maxNano : Z; marks : list (Z * Z); offset : Z; lastMark : Z; first : bool }.
End Scan.

Definition scan_entry (s : Scan.t) (e : Entry.t) : Scan.t :=
  let nano := UnixNano (Entry.Time e) in
  let mark := (indexMarkStride <=? Scan.offset s - Scan.lastMark s)%Z in
  Scan.mk
    (if Scan.first s || (nano <? Scan.minNano s)%Z then nano else Scan.minNano s)
    (if Scan.first s || (Scan.maxNano s <? nano)%Z then nano else Scan.maxNano s)
    (if mark then Scan.marks s ++ [(Scan.offset s, nano)] else Scan.marks s)
    (Scan.offset s + recordEncodedLen e)
    (if mark then Scan.offset s else Scan.lastMark s) false.

Definition scan_entries (es : list Entry.t) : Scan.t := foldl scan_entry (Scan.mk 0 0 [] 0 (- indexMarkStride) true) es.

Definition index_bytes (s : Scan.t) : list ascii :=
  put_le 8 (u64 (Scan.minNano s)) ++ put_le 8 (u64 (Scan.maxNano s)) ++ put_le 4 (u32 (Z.of_nat (length (Scan.marks s))))
  ++ (Scan.marks s ≫= λ m, put_le 8 (u64 m.1) ++ put_le 8 (u64 m.2)).

Definition readIndexRange (d : dir) (seq : Z) : option (Z * Z) :=
  data ← d !! segFile seq ".idx";
  if (length data <? 16)%nat then None
  else
    '(mn, data) ← get_le 8 data;
    '(mx, _) ← get_le 8 data;
    Some (i64 mn, i64 mx).

(** ** Calls that change a directory *)

Inductive fsop :=
| WriteFile (name : string) (bs : list ascii)
| Extend (name : string) (bs : list ascii)
| Rename (from to : string)
| Remove (name : string).

Definition exec1 (d : dir) (op : fsop) : dir :=
  match op with
  | WriteFile name bs => <[name := bs]> d
  | Extend name bs => <[name := default [] (d !! name) ++ bs]> d
  | Rename from to => match d !! from with Some bs => <[to := bs]> (delete from d) | None => d end
  | Remove name => delete name d
  end.

Definition exec (d : dir) (ops : list fsop) : dir := foldl exec1 d ops.

(** The directory a process leaves that dies while it performs [ops]. *)
Inductive crashed (d : dir) (ops : list fsop) : dir → Prop :=
| crashed_between k : crashed d ops (exec d (take k ops))
| crashed_writing k name bs p : ops !! k = Some (WriteFile name bs) → p `prefix_of` bs → crashed d ops (<[name := p]> (exec d (take k ops)))
| crashed_appending k name bs p : ops !! k = Some (Extend name bs) → p `prefix_of` bs → crashed d ops (exec1 (exec d (take k ops)) (Extend name p)).

End Files.

(** * The store (segmented.go) *)

Module Options.
Record t := mk { MaxSegmentBytes : Z; MaxSegmentAge : Z; RetentionBytes : Z; RetentionAge : Z }.
End Options.

Module Segmented.
Import Segment Files.

Definition defaultMaxSegmentBytes : Z := Z.shiftl 8 20.
Definition defaultMaxSegmentAge : Z := (3600 * 10 ^ 9)%Z.
Definition defaultQueryLimit : Z := 1000.
Definition subscriberBuffer : nat := 256.

(** The defaults that New fills in. *)
Definition defaulted (o : Options.t) : Options.t :=
  Options.mk (if (Options.MaxSegmentBytes o =? 0)%Z then defaultMaxSegmentBytes else Options.MaxSegmentBytes o)
    (if (Options.MaxSegmentAge o =? 0)%Z then defaultMaxSegmentAge else Options.MaxSegmentAge o)
    (Options.RetentionBytes o) (Options.RetentionAge o).

(** A stream: its directory, what a process knows of it, and the channels of its followers
    with what waits in them. *)
Module streamState.
Record t := mk { files : dir; size : Z; opened : Z; nextID : nat; subs : gmap nat (list Entry.t) }.
End streamState.

(** sanitizeStream.  A rune above ASCII is replaced whole, an invalid byte alone. *)
Definition between (lo hi : N) (c : option ascii) : bool :=
  match c with Some c => ((lo <=? N_of_ascii c) && (N_of_ascii c <=? hi))%N | None => false end.

(** The bytes of the rune at the head of a string (utf8.DecodeRune). *)
Definition rune_width (s : string) : nat :=
  let b := λ i, String.get i s in
  let cont := between 0x80 0xBF in
  if between 0xC2 0xDF (b 0) then (if cont (b 1) then 2 else 1)
  else if between 0xE0 0xEF (b 0) then
    let second := if between 0xE0 0xE0 (b 0) then between 0xA0 0xBF (b 1) else if between 0xED 0xED (b 0) then between 0x80 0x9F (b 1) else cont (b 1) in
    if second && cont (b 2) then 3 else 1
  else if between 0xF0 0xF4 (b 0) then
    let second := if between 0xF0 0xF0 (b 0) then between 0x90 0xBF (b 1) else if between 0xF4 0xF4 (b 0) then between 0x80 0x8F (b 1) else cont (b 1) in
    if second && cont (b 2) && cont (b 3) then 4 else 1
  else 1.

Definition safe (c : ascii) : bool :=
  between 97 122 (Some c) || between 65 90 (Some c) || between 48 57 (Some c) || bool_decide (c = ".")%char || bool_decide (c = "-")%char || bool_decide (c = "_")%char.

Fixpoint sanitize_from (skip : nat) (s : string) : string :=
  match s with
  | "" => ""
  | String c s' =>
    match skip with
    | S skip => sanitize_from skip s'
    | 0 => String (if safe c then c else "_"%char) (sanitize_from (rune_width s - 1) s')
    end
  end.

Definition sanitizeStream (id : string) : string :=
  let s := sanitize_from 0 id in if s =? "" then "_" else s.

Section store.
Context {Z_ : ZstdLib}.

(** compressSegment, as what it does to the directory. *)
Definition compressSegment (d : dir) (seq : Z) : outcome (list fsop) :=
  match d !! segFile seq ".raw" with
  | None => Ret []
  | Some raw =>
    let zstTmp := segFile seq ".zst.tmp" in
    let idxTmp := segFile seq ".idx.tmp" in
    es ← scanRecords raw;
    Ret [WriteFile zstTmp []; WriteFile zstTmp (zstd_Write (es ≫= appendRecord [])); WriteFile idxTmp (index_bytes (scan_entries es));
         Rename zstTmp (segFile seq ".zst"); Rename idxTmp (segFile seq ".idx"); Remove (segFile seq ".raw")]
  end.

(** The recovery that open performs, over the names it found. *)
Definition recover1 (d : dir) (name : string) : outcome dir :=
  if Domains.HasSuffix name ".tmp" then Ret (exec1 d (Remove name))
  else if Domains.HasSuffix name ".raw" then
    let seq := seqFromName name in
    if (0 <=? seq)%Z then ops ← compressSegment d seq; Ret (exec d ops) else Ret d
  else Ret d.

Definition open (now : Z) (d : dir) : outcome streamState.t :=
  d ← ofoldl recover1 d (ReadDir d);
  let d := exec1 d (Extend activeSegmentName []) in
  Ret (streamState.mk d (Z.of_nat (length (default [] (d !! activeSegmentName)))) now 0 ∅).

Definition removeSegment (seq : Z) : list fsop := [Remove (segFile seq ".zst"); Remove (segFile seq ".idx")].

Fixpoint over_budget (cap total : Z) (sizes : Z → Z) (segs : list Z) : list Z :=
  match segs with
  | [] => []
  | seq :: segs => if (total <=? cap)%Z then [] else seq :: over_budget cap (total - sizes seq) sizes segs
  end.

Definition enforceRetention (o : Options.t) (now : Z) (d : dir) : list fsop :=
  let aged :=
    if (0 <? Options.RetentionAge o)%Z then
      let cutoff := UnixNano (now - Options.RetentionAge o) in
      List.filter (λ seq, match readIndexRange d seq with Some (_, mx) => (mx <? cutoff)%Z | None => false end) (listSegments d) ≫= removeSegment
    else [] in
  let d := exec d aged in
  let surplus :=
    if (0 <? Options.RetentionBytes o)%Z then
      let segs := listSegments d in
      let sizes := λ seq, Z.of_nat (length (default [] (d !! segFile seq ".zst"))) in
      over_budget (Options.RetentionBytes o) (foldl (λ t seq, (t + sizes seq)%Z) 0%Z segs) sizes segs ≫= removeSegment
    else [] in
  aged ++ surplus.

(** What rotate does to the directory of a stream whose active segment is not empty. *)
Definition rotation (o : Options.t) (now : Z) (d : dir) : outcome (list fsop) :=
  let seq := nextSeq d in
  let rename := Rename activeSegmentName (segFile seq ".raw") in
  ops ← compressSegment (exec1 d rename) seq;
  let ops := rename :: ops ++ [WriteFile activeSegmentName []] in
  Ret (ops ++ enforceRetention o now (exec d ops)).

Definition rotate (o : Options.t) (now : Z) (ss : streamState.t) : outcome streamState.t :=
  if (streamState.size ss =? 0)%Z then Ret (streamState.mk (streamState.files ss) (streamState.size ss) now (streamState.nextID ss) (streamState.subs ss))
  else
    ops ← rotation o now (streamState.files ss);
    Ret (streamState.mk (exec (streamState.files ss) ops) 0 now (streamState.nextID ss) (streamState.subs ss)).

(** The sends to one follower, which takes [drained i] entries off its channel before the
    [i]-th; [None] is a channel that was closed, on which a send panics. *)
Fixpoint notify (drained : nat → nat) (i : nat) (ch : option (list Entry.t)) (entries : list Entry.t) : outcome (option (list Entry.t)) :=
  match entries with
  | [] => Ret ch
  | e :: entries =>
    match ch with
    | None => Panic
    | Some buf =>
      let buf := drop (drained i) buf in
      notify drained (S i) (if (length buf <? subscriberBuffer)%nat then Some (buf ++ [e]) else None) entries
    end
  end.

(** The followers are independent of each other: any order will do. *)
Definition notify_all (drained : nat → nat → nat) (entries : list Entry.t) (subs : gmap nat (list Entry.t)) : outcome (gmap nat (list Entry.t)) :=
  ofoldl (λ acc kv,
    ch ← notify (drained kv.1) 0 (Some kv.2) entries;
    Ret (match ch with Some buf => <[kv.1 := buf]> acc | None => delete kv.1 acc end)) subs (map_to_list subs).

(** Whether the active segment is closed after an append. *)
Definition full (o : Options.t) (now : Z) (ss : streamState.t) : bool :=
  (Options.MaxSegmentBytes o <=? streamState.size ss)%Z || (Options.MaxSegmentAge o <=? now - streamState.opened ss)%Z.

(** Append, on its stream. *)
Definition appendTo (o : Options.t) (drained : nat → nat → nat) (now : Z) (entries : list Entry.t) (ss : streamState.t) : outcome streamState.t :=
  let buf := foldl appendRecord [] entries in
  let ss := streamState.mk (exec1 (streamState.files ss) (Extend activeSegmentName buf)) (streamState.size ss + Z.of_nat (length buf))
              (streamState.opened ss) (streamState.nextID ss) (streamState.subs ss) in
  subs ← notify_all drained entries (streamState.subs ss);
  let ss := streamState.mk (streamState.files ss) (streamState.size ss) (streamState.opened ss) (streamState.nextID ss) subs in
  if full o now ss then rotate o now ss else Ret ss.

(** ** Reading *)

Definition keep (since until : Z) (e : Entry.t) : bool :=
  if negb (IsZero since) && (Entry.Time e <? since)%Z then false
  else if negb (IsZero until) && (until <? Entry.Time e)%Z then false
  else true.

Definition skipped (since until : Z) (rng : option (Z * Z)) : bool :=
  match rng with
  | Some (minNano, maxNano) =>
    (negb (IsZero until) && (UnixNano until <? minNano)%Z) || (negb (IsZero since) && (maxNano <? UnixNano since)%Z)
  | None => false
  end.

(** The closed segments; [None] is an error, of a segment that is gone. *)
Fixpoint read_segments (since until : Z) (d : dir) (segs : list Z) : outcome (option (list Entry.t)) :=
  match segs with
  | [] => Ret (Some [])
  | seq :: segs =>
    if skipped since until (readIndexRange d seq) then read_segments since until d segs
    else match d !! segFile seq ".zst" with
    | None => Ret None
    | Some zst =>
      es ← scanRecords (zstd_Read zst);
      rest ← read_segments since until d segs;
      Ret (option_map (λ r, List.filter (keep since until) es ++ r) rest)
    end
  end.

(** The active segment, up to the size that was noted under the lock. *)
Definition read_active (since until activeSize : Z) (d : dir) : outcome (list Entry.t) :=
  match d !! activeSegmentName with
  | None => Ret []
  | Some bs => es ← scanRecords (take (Z.to_nat activeSize) bs); Ret (List.filter (keep since until) es)
  end.

(** read, of which the lock covers the first step only: the directory it lists and reads
    segments from, and the one it opens the active segment in, may be later ones. *)
Definition read_of (since until activeSize : Z) (listed active : dir) : outcome (option (list Entry.t)) :=
  closed ← read_segments since until listed (listSegments listed);
  match closed with
  | None => Ret None
  | Some closed => rest ← read_active since until activeSize active; Ret (Some (closed ++ rest))
  end.

Definition read (since until : Z) (ss : streamState.t) : outcome (option (list Entry.t)) :=
  read_of since until (streamState.size ss) (streamState.files ss) (streamState.files ss).

(** ** The store *)

Record t := mk { streams : gmap string streamState.t; disk : gmap string dir }.

(** A stream that is known has its directory in its state; one that is not, on the disk. *)
Definition getStream (now : Z) (id : string) (create : bool) (s : t) : outcome (t * option streamState.t) :=
  let name := sanitizeStream id in
  match streams s !! name with
  | Some ss => Ret (s, Some ss)
  | None =>
    match disk s !! name, create with
    | None, false => Ret (s, None)
    | d, _ => ss ← open now (default ∅ d); Ret (mk (<[name := ss]> (streams s)) (delete name (disk s)), Some ss)
    end
  end.

Definition New (now : Z) (disk : gmap string dir) : outcome t :=
  ofoldl (λ s kv, '(s, _) ← getStream now kv.1 true s; Ret s) (mk ∅ disk) (sort_slice (key_less fst) (map_to_list disk)).

Definition Append (o : Options.t) (drained : nat → nat → nat) (now : Z) (stream : string) (entries : list Entry.t) (s : t) : outcome t :=
  if bool_decide (entries = []) then Ret s
  else
    '(s, ss) ← getStream now stream true s;
    match ss with
    | None => Ret s
    | Some ss => ss ← appendTo o drained now entries ss; Ret (mk (<[sanitizeStream stream := ss]> (streams s)) (disk s))
    end.

(** The entries of some streams: an error of one is the error of all. *)
Fixpoint gather (now since until : Z) (ids : list string) (s : t) : outcome (t * option (list Entry.t)) :=
  match ids with
  | [] => Ret (s, Some [])
  | id :: ids =>
    '(s, ss) ← getStream now id false s;
    match ss with
    | None => gather now since until ids s
    | Some ss =>
      es ← read since until ss;
      match es with
      | None => Ret (s, None)
      | Some es => '(s, rest) ← gather now since until ids s; Ret (s, option_map (λ r, es ++ r) rest)
      end
    end
  end.

Definition newest (limit : Z) (all : list Entry.t) : outcome (list Entry.t) :=
  let all := sort_slice (λ a b, (Entry.Time a <? Entry.Time b)%Z) all in
  let n := Z.of_nat (length all) in
  if (limit <? n)%Z then (if (limit <? 0)%Z then Panic else Ret (drop (Z.to_nat (n - limit)) all)) else Ret all.

Definition Query (now : Z) (ids : list string) (since until limit : Z) (s : t) : outcome (t * option (list Entry.t)) :=
  '(s, all) ← gather now since until ids s;
  match all with
  | None => Ret (s, None)
  | Some all => l ← newest (if (limit =? 0)%Z then defaultQueryLimit else limit) all; Ret (s, Some l)
  end.

Definition subscribe (ss : streamState.t) : streamState.t * nat :=
  let id := streamState.nextID ss in
  (streamState.mk (streamState.files ss) (streamState.size ss) (streamState.opened ss) (S id) (<[id := []]> (streamState.subs ss)), id).

Definition unsubscribe (id : nat) (ss : streamState.t) : streamState.t :=
  streamState.mk (streamState.files ss) (streamState.size ss) (streamState.opened ss) (streamState.nextID ss) (delete id (streamState.subs ss)).

Definition DeleteStream (stream : string) (s : t) : t :=
  mk (delete (sanitizeStream stream) (streams s)) (delete (sanitizeStream stream) (disk s)).

End store.
End Segmented.
