(* ===== verification/LogStoreProps.v ===== *)
(** What the log store of LogStore.v keeps and answers. *)
From S2P Require Import Prelude Platform Net Apps Text Bytes LogStore.
From Stdlib Require Import Ascii.

Import Segment Files.

(** * Records *)

(** A record whose time is representable in nanoseconds and that fits the memory. *)
Definition storable (e : Entry.t) : Prop := in_i64 (Entry.Time e) ∧ (body_len e ≤ maxAlloc)%Z.

Definition encode (es : list Entry.t) : list ascii := es ≫= appendRecord [].

Lemma encode_app es es' : encode (es ++ es') = encode es ++ encode es'.
Proof. apply bind_app. Qed.

Lemma encode_cons e es : encode (e :: es) = appendRecord [] e ++ encode es.
Proof. done. Qed.

Lemma foldl_appendRecord buf es : foldl appendRecord buf es = buf ++ encode es.
Proof.
  revert buf. induction es as [|e es IH]; intros buf; cbn [foldl]; [by rewrite app_nil_r|]. rewrite IH, encode_cons. unfold appendRecord.
  by rewrite <- !app_assoc.
Qed.

Lemma length_string_list s : length (String.list_ascii_of_string s) = String.length s.
Proof. induction s as [|c s IH]; [done|]. cbn. by rewrite IH. Qed.

Lemma length_body e : Z.of_nat (length (body e)) = body_len e.
Proof. unfold body, body_len, recordHeaderBytes. rewrite !length_app, length_put_le, length_string_list. cbn [length]. lia. Qed.

Lemma body_len_pos e : (recordHeaderBytes ≤ body_len e)%Z.
Proof. unfold body_len. lia. Qed.

Lemma u64_id z : (0 ≤ z < 2 ^ 64)%Z → u64 z = z.
Proof. apply Z.mod_small. Qed.

Lemma i64_id z : in_i64 z → i64 z = z.
Proof. intros [H1 H2]. unfold i64. rewrite Z.mod_small; lia. Qed.

Lemma i64_u64 z : i64 (u64 z) = i64 z.
Proof. unfold i64, u64. by rewrite Zplus_mod_idemp_l. Qed.

Lemma u64_body_len e : storable e → u64 (body_len e) = body_len e.
Proof. intros [_ H]. pose proof (body_len_pos e). apply u64_id. unfold maxAlloc, recordHeaderBytes in *. lia. Qed.

Lemma read_body e : storable e →
  ∃ flags line, get_le 8 (body e) = Some (u64 (UnixNano (Entry.Time e)), flags :: line)
    ∧ Entry.mk (i64 (u64 (UnixNano (Entry.Time e)))) (N.testbit (N_of_ascii flags) 0) (String.string_of_list_ascii line) = e.
Proof.
  intros [Ht _]. exists (ascii_of_N (if Entry.Stderr e then 1 else 0)), (String.list_ascii_of_string (Entry.Line e)). split.
  - unfold body. rewrite get_put_le. do 3 f_equal. apply Z.mod_small. apply Z.mod_pos_bound. done.
  - rewrite i64_u64, String.string_of_list_ascii_of_string. unfold UnixNano. rewrite !i64_id by (done || by rewrite i64_id).
    destruct e as [t [] l]; done.
Qed.

Lemma scan_fuel fuel fuel' bs : length bs ≤ fuel → length bs ≤ fuel' → scan_from fuel bs = scan_from fuel' bs.
Proof.
  revert fuel' bs. induction fuel as [|fuel IH]; intros fuel' bs H H'.
  { destruct bs; [by destruct fuel'|cbn in H; lia]. }
  destruct fuel' as [|fuel']; [destruct bs; [done|cbn in H'; lia]|]. cbn [scan_from].
  destruct (get_uvarint bs) as [[n bs1]|] eqn:Hu; [|done]. apply get_uvarint_length in Hu. destruct (n <? recordHeaderBytes)%Z; [done|].
  destruct (maxAlloc <? n)%Z; [done|]. rewrite get_bytes_spec. destruct (Z.to_nat n <=? length bs1)%nat eqn:Hn; [|done].
  destruct (get_le 8 _) as [[nano [|flags line]]|]; try done. rewrite (IH fuel'); [done| |]; rewrite length_drop; lia.
Qed.

Lemma scan_record e bs : storable e → scanRecords (appendRecord [] e ++ bs) = (rest ← scanRecords bs; Ret (e :: rest)).
Proof.
  intros He. unfold scanRecords at 1. cbn [appendRecord app]. rewrite u64_body_len by done.
  destruct (length _) as [|fuel] eqn:Hf.
  { rewrite !length_app in Hf. pose proof (put_uvarint_not_nil (body_len e)). destruct (put_uvarint (body_len e)); [done|cbn in Hf; lia]. }
  cbn [scan_from]. rewrite <- app_assoc. destruct (He) as [_ Hl]. pose proof (body_len_pos e) as Hp.
  rewrite get_put_uvarint by (unfold recordHeaderBytes, maxAlloc in *; lia).
  rewrite (proj2 (Z.ltb_ge _ _) Hp), (proj2 (Z.ltb_ge _ _) Hl). rewrite <- length_body, Nat2Z.id, get_bytes_app.
  destruct (read_body e He) as (flags & line & -> & Heq). rewrite Heq.
  rewrite (scan_fuel fuel (length bs)); [done| |done]. revert Hf. rewrite !length_app. pose proof (put_uvarint_not_nil (body_len e)).
  destruct (put_uvarint (body_len e)); [done|]. cbn [length]. lia.
Qed.

Lemma scan_encode es bs : Forall storable es → scanRecords (encode es ++ bs) = (rest ← scanRecords bs; Ret (es ++ rest)).
Proof.
  induction 1 as [|e es He _ IH]; [cbn [app encode mbind list_bind]; by destruct (scanRecords bs)|].
  rewrite encode_cons, <- app_assoc, scan_record, IH by done. by destruct (scanRecords bs).
Qed.

(** Records are read back. *)
Lemma scan_encoded es : Forall storable es → scanRecords (encode es) = Ret es.
Proof. intros H. rewrite <- (app_nil_r (encode es)), scan_encode by done. cbn. by rewrite app_nil_r. Qed.

(** A record that was cut off is ignored. *)
Lemma scan_torn e p : storable e → p `prefix_of` appendRecord [] e → p ≠ appendRecord [] e → scanRecords p = Ret [].
Proof.
  intros He Hp Hne. unfold scanRecords. destruct (length p) as [|fuel]; [done|]. cbn [scan_from]. cbn [appendRecord app] in *.
  rewrite u64_body_len in * by done. destruct (He) as [_ Hl]. pose proof (body_len_pos e) as Hpos.
  destruct Hp as [q Hq]. destruct (decide (length (put_uvarint (body_len e)) ≤ length p)) as [Hle|Hlt].
  - assert (∃ p', p = put_uvarint (body_len e) ++ p' ∧ body e = p' ++ q) as (p' & -> & Hb).
    { exists (drop (length (put_uvarint (body_len e))) p). apply app_eq_inv in Hq as [(k & H1 & H2)|(k & H1 & H2)].
      - rewrite H1, length_app in Hle. assert (k = []) as -> by (destruct k; [done|cbn in Hle; lia]). rewrite app_nil_r in H1. subst p.
        rewrite drop_all, app_nil_r. done.
      - subst p. rewrite drop_app_length. done. }
    rewrite get_put_uvarint by (unfold recordHeaderBytes, maxAlloc in *; lia).
    rewrite (proj2 (Z.ltb_ge _ _) Hpos), (proj2 (Z.ltb_ge _ _) Hl), get_bytes_spec.
    assert ((Z.to_nat (body_len e) <=? length p')%nat = false) as ->; [|done]. apply Nat.leb_gt.
    rewrite <- length_body, Nat2Z.id, Hb, length_app. destruct q; [|cbn; lia]. rewrite app_nil_r in Hb. by rewrite Hb in Hne.
  - rewrite (get_torn_uvarint (body_len e) p); [done| |].
    + apply app_eq_inv in Hq as [(k & H1 & H2)|(k & H1 & H2)]; [by exists k|]. subst p. rewrite length_app in Hlt. lia.
    + intros ->. lia.
Qed.

(** Of a write that was cut off, the complete records are read. *)
Lemma scan_prefix es p : Forall storable es → p `prefix_of` encode es → ∃ k, scanRecords p = Ret (take k es).
Proof.
  intros Hes. revert p. induction Hes as [|e es He Hes IH]; intros p [q Hq].
  { exists 0. destruct p; [done|done]. }
  rewrite encode_cons in Hq. destruct (decide (length (appendRecord [] e) ≤ length p)) as [Hle|Hlt].
  - apply app_eq_inv in Hq as [(k & H1 & H2)|(k & H1 & H2)].
    + rewrite H1, length_app in Hle. assert (k = []) as -> by (destruct k; [done|cbn in Hle; lia]). rewrite app_nil_r in H1. subst p.
      exists 1. rewrite <- (app_nil_r (appendRecord [] e)), scan_record by done. done.
    + subst p. destruct (IH k) as [n Hn]; [by exists q|]. exists (S n). by rewrite scan_record, Hn by done.
  - exists 0. apply (scan_torn e); [done| |intros ->; lia].
    apply app_eq_inv in Hq as [(k & H1 & H2)|(k & H1 & H2)]; [by exists k|]. subst p. rewrite length_app in Hlt. lia.
Qed.

(** * File names *)

Lemma digit_digit_char d : (0 ≤ d < 10)%Z → digit (digit_char d) = Some d ∧ digit_char d ≠ "."%char.
Proof.
  intros H. assert (d ∈ seqZ 0 10) as Hin by (apply elem_of_seqZ; lia). revert d H Hin.
  assert (Forall (λ d, digit (digit_char d) = Some d ∧ digit_char d ≠ "."%char) (seqZ 0 10)) as HF.
  { repeat (constructor; [split; [reflexivity|discriminate]|]). constructor. }
  rewrite Forall_forall in HF. intros d _ Hin. by apply HF.
Qed.

Lemma dec_digits fuel width n acc :
  (0 ≤ n)%Z → (n < 10 ^ Z.of_nat fuel)%Z → width ≤ fuel → 0 < fuel →
  ∃ k, ∀ a, leading_digits (Some a) (dec fuel width n acc) = leading_digits (Some (a * 10 ^ k + n)%Z) acc ∧ (0 ≤ k)%Z.
Proof.
  revert width n acc. induction fuel as [|fuel IH]; intros width n acc Hn Hlt Hw Hf; [lia|]. cbn [dec].
  pose proof (Z.mod_pos_bound n 10 eq_refl) as Hm. destruct (digit_digit_char (n mod 10) Hm) as [Hd _].
  destruct ((n <? 10)%Z && (width <=? 1)%nat) eqn:E.
  - apply andb_true_iff in E as [E%Z.ltb_lt _]. exists 1%Z. intros a. split; [|lia]. cbn [leading_digits]. rewrite Hd. cbn [from_option]. unfold id.
    rewrite Z.mod_small by lia. by rewrite Z.pow_1_r.
  - destruct fuel as [|fuel].
    { exfalso. apply andb_false_iff in E as [E%Z.ltb_ge|E%Nat.leb_gt]; [|lia]. change (10 ^ Z.of_nat 1)%Z with 10%Z in Hlt. lia. }
    assert (n / 10 < 10 ^ Z.of_nat (S fuel))%Z.
    { apply Z.div_lt_upper_bound; [lia|]. rewrite (Nat2Z.inj_succ (S fuel)), Z.pow_succ_r in Hlt by lia. lia. }
    destruct (IH (width - 1) (n / 10)%Z (String (digit_char (n mod 10)) acc)) as [k Hk]; [apply Z.div_pos; lia|done|lia|lia|].
    exists (k + 1)%Z. intros a. destruct (Hk a) as [Hk1 Hk2]. split; [|lia]. rewrite Hk1. cbn [leading_digits]. rewrite Hd. cbn [from_option]. unfold id.
    f_equal. f_equal. rewrite Z.pow_add_r, Z.pow_1_r by lia. pose proof (Z.div_mod n 10 ltac:(done)). lia.
Qed.

Lemma dec_no_dot fuel width n acc : IndexByte acc "." = None → IndexByte (dec fuel width n acc) "." = None.
Proof.
  revert width n acc. induction fuel as [|fuel IH]; intros width n acc H; cbn [dec]; [done|].
  destruct (digit_digit_char (n mod 10) (Z.mod_pos_bound n 10 eq_refl)) as [_ Hd].
  assert (IndexByte (String (digit_char (n mod 10)) acc) "." = None) as H'.
  { cbn [IndexByte]. destruct (Ascii.eqb_spec (digit_char (n mod 10)) "."); [done|]. by rewrite H. }
  destruct (_ && _); [done|]. by apply IH.
Qed.

Lemma dec_head fuel width n acc : 0 < fuel → ∃ d s, (0 ≤ d < 10)%Z ∧ dec fuel width n acc = String (digit_char d) s.
Proof.
  revert width n acc. induction fuel as [|fuel IH]; intros width n acc H; [lia|]. cbn [dec].
  pose proof (Z.mod_pos_bound n 10 eq_refl). destruct (_ && _); [by eexists _, _|]. destruct fuel as [|fuel]; [by eexists _, _|].
  apply IH. lia.
Qed.

Definition in_seq (n : Z) : Prop := (0 ≤ n < 2 ^ 63)%Z.

Lemma Sscanf_dec n : in_seq n → Sscanf_d (dec 20 8 n "") = Some n.
Proof.
  intros [H1 H2]. destruct (dec_digits 20 8 n "") as [k Hk]; [lia|assert (2 ^ 63 < 10 ^ Z.of_nat 20)%Z by done; lia|lia|lia|].
  destruct (Hk 0%Z) as [Hd _]. cbn [leading_digits] in Hd. destruct (dec_head 20 8 n "") as (d & s & Hr & Hs); [lia|]. rewrite Hs in *.
  assert (leading_digits None (String (digit_char d) s) = Some n) as Hl.
  { destruct (digit_digit_char d Hr) as [E _]. cbn [leading_digits] in *. rewrite E in *. cbn [from_option] in *. unfold id in *. by rewrite Hd. }
  assert (digit_char d ≠ "-"%char ∧ digit_char d ≠ "+"%char) as [Hm Hp].
  { destruct (digit_digit_char d Hr) as [E _]. split; intros He; rewrite He in E; discriminate E. }
  unfold Sscanf_d. 
  assert ((match String (digit_char d) s with String "-" s => (true, s) | String "+" s => (false, s) | _ => (false, String (digit_char d) s) end) = (false, String (digit_char d) s)) as Hsign.
  { destruct (digit_char d) as [[] [] [] [] [] [] [] []]; try reflexivity; [by destruct Hp|by destruct Hm]. }
  rewrite Hsign. cbn iota beta. rewrite Hl. cbn [mbind option_bind].
  rewrite (proj2 (Z.leb_le _ _)), (proj2 (Z.ltb_lt _ _)) by lia. done.
Qed.

(** A text up to its first [c] and after it. *)
Lemma seqFromName_segFile n ext : in_seq n → seqFromName (segFile n (String "." ext)) = n.
Proof.
  intros Hn. unfold seqFromName, segFile.
  assert (∀ x, HasPrefix ("seg-" +:+ x) "seg-" = true) as -> by (intros []; done). cbn [negb].
  assert (∀ x, TrimPrefix ("seg-" +:+ x) "seg-" = x) as ->.
  { intros x. unfold TrimPrefix. assert (HasPrefix ("seg-" +:+ x) "seg-" = true) as -> by (by destruct x).
    change ("seg-" +:+ x) with (String "s" (String "e" (String "g" (String "-" x)))). cbn. rewrite ?Nat.sub_0_r. apply substring_all. }
  rewrite IndexByte_app by by apply dec_no_dot. rewrite substring_app_l, Sscanf_dec by done. done.
Qed.

Lemma segFile_inj n m e e' : in_seq n → in_seq m → segFile n (String "." e) = segFile m (String "." e') → n = m ∧ e = e'.
Proof.
  intros Hn Hm H. assert (n = m) as ->.
  { rewrite <- (seqFromName_segFile n e Hn), H. by apply seqFromName_segFile. }
  split; [done|]. unfold segFile in H. rewrite !(string_app_assoc "seg-") in H. revert H. generalize ("seg-" +:+ dec 20 8 m ""). intros s.
  induction s as [|c s IH]; [by intros [= ->]|]. rewrite !string_cons_app. intros [= H]. by apply IH.
Qed.

Lemma segFile_not_active n e : segFile n e ≠ activeSegmentName.
Proof. unfold segFile, activeSegmentName. change "seg-" with (String "s" "eg-"). rewrite string_cons_app. done. Qed.

Example segFile_7 : segFile 7 ".zst" = "seg-00000007.zst".
Proof. vm_compute. reflexivity. Qed.

Example segFile_long : segFile 123456789 ".raw" = "seg-123456789.raw" ∧ seqFromName "seg-123456789.raw" = 123456789%Z ∧ seqFromName "active.log" = (-1)%Z.
Proof. vm_compute. repeat split; reflexivity. Qed.

(** * The contract *)

Module Spec.

(** What a stream promises: closed segments, and one that is written to. *)
Record t := mk { closed : list (list Entry.t); active : list Entry.t; opened : Z }.

Section spec.
Context {Z_ : ZstdLib}.



Definition cost (es : list Entry.t) : Z := Z.of_nat (length (zstd_Write (encode es))).

(** A segment whose entries are all older than the retention. *)
Definition aged (o : Options.t) (now : Z) (es : list Entry.t) : bool :=
  (0 <? Options.RetentionAge o)%Z && (Scan.maxNano (scan_entries es) <? UnixNano (now - Options.RetentionAge o))%Z.

(** The longest tail that fits the budget. *)
Fixpoint fitting (cap : Z) (segs : list (list Entry.t)) : list (list Entry.t) :=
  match segs with
  | [] => []
  | es :: segs' => if (foldr Z.add 0 (cost <$> segs) <=? cap)%Z then segs else fitting cap segs'
  end.

Definition retained (o : Options.t) (now : Z) (segs : list (list Entry.t)) : list (list Entry.t) :=
  let segs := List.filter (λ es, negb (aged o now es)) segs in
  if (0 <? Options.RetentionBytes o)%Z then fitting (Options.RetentionBytes o) segs else segs.

Definition append (o : Options.t) (now : Z) (entries : list Entry.t) (s : t) : t :=
  let act := active s ++ entries in
  let size := Z.of_nat (length (encode act)) in
  if (Options.MaxSegmentBytes o <=? size)%Z || (Options.MaxSegmentAge o <=? now - opened s)%Z then
    if (size =? 0)%Z then mk (closed s) act now else mk (retained o now (closed s ++ [act])) [] now
  else mk (closed s) act (opened s).

Definition reopen (now : Z) (s : t) : t := mk (closed s) (active s) now.

Definition entries (s : t) : list Entry.t := concat (closed s) ++ active s.

End spec.
End Spec.

Lemma HasSuffix_last s t u : String.length t = String.length u → Domains.HasSuffix (s +:+ t) u = (t =? u).
Proof.
  intros H. unfold Domains.HasSuffix. rewrite length_string_app, H.
  replace (String.length s + String.length u - String.length u) with (String.length s) by lia.
  rewrite <- H, substring_app_r. rewrite (proj2 (Nat.leb_le _ _)) by lia. done.
Qed.

(** The extensions of the files of a segment, and what recovery does with each. *)
Definition exts : list string := [".raw"; ".zst"; ".idx"; ".zst.tmp"; ".idx.tmp"].

Lemma segFile_split n e1 e2 : segFile n (e1 +:+ e2) = segFile n e1 +:+ e2.
Proof. unfold segFile. by rewrite !string_app_assoc. Qed.

Lemma segFile_suffix n e u : e ∈ exts → String.length u = 4 → Domains.HasSuffix (segFile n e) u = Domains.HasSuffix e u.
Proof.
  intros He Hu. unfold exts in He. repeat (apply elem_of_cons in He as [->|He]); [..|by apply elem_of_nil in He].
  1-3: unfold segFile; rewrite string_app_assoc, HasSuffix_last by (cbn; lia); unfold Domains.HasSuffix; rewrite Hu; reflexivity.
  - change ".zst.tmp" with (".zst" +:+ ".tmp"). rewrite segFile_split, HasSuffix_last by (cbn; lia). unfold Domains.HasSuffix. rewrite Hu. reflexivity.
  - change ".idx.tmp" with (".idx" +:+ ".tmp"). rewrite segFile_split, HasSuffix_last by (cbn; lia). unfold Domains.HasSuffix. rewrite Hu. reflexivity.
Qed.

Lemma exts_dot e : e ∈ exts → ∃ t, e = String "." t.
Proof. intros He. unfold exts in He. repeat (apply elem_of_cons in He as [->|He]); [by eexists..|by apply elem_of_nil in He]. Qed.

Lemma segFile_eq n m e e' : in_seq n → in_seq m → e ∈ exts → e' ∈ exts → segFile n e = segFile m e' → n = m ∧ e = e'.
Proof.
  intros Hn Hm (t & ->)%exts_dot (t' & ->)%exts_dot H. destruct (segFile_inj n m t t' Hn Hm H) as [-> ->]. done.
Qed.

Lemma seqFromName_ext n e : in_seq n → e ∈ exts → seqFromName (segFile n e) = n.
Proof. intros Hn (t & ->)%exts_dot. by apply seqFromName_segFile. Qed.

Lemma seqFromName_active : seqFromName activeSegmentName = (-1)%Z.
Proof. reflexivity. Qed.

Ltac an_ext := unfold exts; repeat first [left; reflexivity | right].
#[export] Hint Extern 1 (_ ∈ exts) => (unfold exts; repeat first [apply list_elem_of_here | apply list_elem_of_further]) : files.

(** Two file names that are not the same. *)
Ltac names :=
  lazymatch goal with
  | |- ?a = ?b → False => change (a ≠ b); names
  | |- segFile _ _ ≠ activeSegmentName => apply segFile_not_active
  | |- activeSegmentName ≠ segFile _ _ => apply not_eq_sym, segFile_not_active
  | |- segFile ?n ?e ≠ segFile ?m ?e' =>
    let H := fresh in intros H; apply segFile_eq in H as [? ?]; [subst; first [discriminate | congruence | lia]|done|done|auto with files|auto with files]
  end.

Lemma lookup_exec1_remove d f g : exec1 d (Remove g) !! f = if decide (g = f) then None else d !! f.
Proof. cbn [exec1]. destruct (decide (g = f)) as [->|]; [by rewrite lookup_delete_eq|by rewrite lookup_delete_ne]. Qed.

(** * What a directory holds *)

Section store.
Context {Z_ : ZstdLib} {ZOk : ZstdLibOk}.
Import Segmented.

(** A directory holds closed segments with their entries in the order of their numbers, and
    an active segment, unless a rotation was interrupted. *)
Record Holds (d : dir) (segs : list (Z * list Entry.t)) (act : option (list Entry.t)) : Prop := {
  h_sorted : StronglySorted Z.lt segs.*1;
  h_seqs : Forall in_seq segs.*1;
  h_zst n es : (n, es) ∈ segs → d !! segFile n ".zst" = Some (zstd_Write (encode es));
  h_idx n es : (n, es) ∈ segs → d !! segFile n ".idx" = Some (index_bytes (scan_entries es));
  h_act : d !! activeSegmentName = encode <$> act;
  h_names f : is_Some (d !! f) → f = activeSegmentName ∨ ∃ n, in_seq n ∧ (f = segFile n ".idx" ∨ f = segFile n ".zst" ∧ n ∈ segs.*1);
  h_storable : Forall storable (concat segs.*2 ++ default [] act) }.

Lemma h_storable_seg d segs act n es : Holds d segs act → (n, es) ∈ segs → Forall storable es.
Proof.
  intros H Hin. pose proof (h_storable _ _ _ H) as Hs. apply Forall_app in Hs as [Hs _]. rewrite Forall_concat in Hs. rewrite Forall_forall in Hs.
  apply Hs. apply list_elem_of_fmap. by exists (n, es).
Qed.

Lemma h_storable_act d segs act : Holds d segs act → Forall storable (default [] act).
Proof. intros H. pose proof (h_storable _ _ _ H) as Hs. by apply Forall_app in Hs as [_ Hs]. Qed.

Lemma sort_slice_of_sorted (l : list Z) : StronglySorted Z.lt l → sort_slice Z.ltb l = l.
Proof.
  induction 1 as [|x l Hl IH Hx]; [done|]. cbn [sort_slice foldr]. unfold sort_slice in IH. rewrite IH. destruct l as [|y l]; [done|].
  cbn [insert_slice]. apply Forall_cons in Hx as [Hx _]. by rewrite (proj2 (Z.ltb_ge _ _)) by lia.
Qed.

Lemma elem_of_ReadDir d f : f ∈ ReadDir d ↔ is_Some (d !! f).
Proof.
  unfold ReadDir. rewrite sort_slice_perm, list_elem_of_fmap. split.
  - intros ([k v] & -> & H). apply elem_of_map_to_list in H. by exists v.
  - intros [v H]. exists (f, v). split; [done|]. by apply elem_of_map_to_list.
Qed.

Lemma NoDup_ReadDir d : NoDup (ReadDir d).
Proof. unfold ReadDir. rewrite sort_slice_perm. apply NoDup_fst_map_to_list. Qed.

Definition zst_seq (f : string) : option Z :=
  let seq := seqFromName f in if ((0 <=? seq)%Z && Domains.HasSuffix f ".zst") then Some seq else None.

Lemma zst_seq_seg n e : in_seq n → e ∈ exts → zst_seq (segFile n e) = if e =? ".zst" then Some n else None.
Proof.
  intros Hn He. unfold zst_seq. rewrite seqFromName_ext, segFile_suffix by done. destruct Hn. rewrite (proj2 (Z.leb_le _ _)) by lia. cbn [andb].
  unfold exts in He. repeat (apply elem_of_cons in He as [->|He]); [reflexivity..|by apply elem_of_nil in He].
Qed.

Lemma elem_of_zst d segs act n : Holds d segs act → n ∈ omap zst_seq (ReadDir d) ↔ n ∈ segs.*1.
Proof.
  intros H. rewrite list_elem_of_omap. split.
  - intros (f & Hf & Hz). apply elem_of_ReadDir in Hf. destruct (h_names _ _ _ H f Hf) as [->|(m & Hm & [->|[-> Hin]])].
    + done.
    + rewrite zst_seq_seg in Hz by auto with files. done.
    + rewrite zst_seq_seg in Hz by auto with files. cbn in Hz. injection Hz as <-. done.
  - intros Hin. assert (in_seq n) as Hn by (pose proof (h_seqs _ _ _ H) as Hs; rewrite Forall_forall in Hs; by apply Hs).
    apply list_elem_of_fmap in Hin as ([m es] & -> & Hin). exists (segFile m ".zst"). split.
    + apply elem_of_ReadDir. rewrite (h_zst _ _ _ H m es Hin). done.
    + rewrite zst_seq_seg by auto with files. done.
Qed.

Lemma NoDup_omap_inj {A B} (f : A → option B) (l : list A) :
  NoDup l → (∀ x y b, x ∈ l → y ∈ l → f x = Some b → f y = Some b → x = y) → NoDup (omap f l).
Proof.
  induction 1 as [|x l Hx Hl IH]; intros Hinj; [constructor|]. cbn [omap list_omap]. destruct (f x) as [b|] eqn:E.
  - constructor; [|apply IH; intros; eapply Hinj; by eauto using list_elem_of_further]. intros (y & Hy & Hf)%list_elem_of_omap.
    apply Hx. rewrite (Hinj x y b); auto using list_elem_of_here, list_elem_of_further.
  - apply IH. intros; eapply Hinj; by eauto using list_elem_of_further.
Qed.

Lemma listSegments_holds d segs act : Holds d segs act → listSegments d = segs.*1.
Proof.
  intros H. unfold listSegments. fold zst_seq. rewrite <- (sort_slice_of_sorted segs.*1) by apply H.
  apply sort_slice_unique.
  - intros x y E. apply Z.ltb_lt in E. apply Z.ltb_ge. lia.
  - unfold not_less. intros x y z E1%Z.ltb_ge E2%Z.ltb_ge. apply Z.ltb_ge. lia.
  - apply NoDup_Permutation.
    + apply NoDup_omap_inj; [apply NoDup_ReadDir|]. intros f g n Hf Hg Ef Eg. apply elem_of_ReadDir in Hf, Hg.
      destruct (h_names _ _ _ H f Hf) as [->|(m & Hm & [->|[-> _]])]; [done| |]; rewrite zst_seq_seg in Ef by auto with files; [done|].
      destruct (h_names _ _ _ H g Hg) as [->|(m' & Hm' & [->|[-> _]])]; [done| |]; rewrite zst_seq_seg in Eg by auto with files; [done|].
      cbn in Ef, Eg. injection Ef as ->. injection Eg as ->. done.
    + pose proof (h_sorted _ _ _ H) as Hs. clear -Hs. induction Hs as [|x l Hl IH Hx]; constructor; [|done].
      intros Hin. rewrite Forall_forall in Hx. specialize (Hx x Hin). lia.
    + intros n. by apply elem_of_zst with (act := act).
  - unfold not_less. intros x y _ _ E1%Z.ltb_ge E2%Z.ltb_ge. lia.
Qed.

(** Every number below [nextSeq] may be in use, and none from it on. *)
Lemma foldl_seq_spec l m : let r := foldl (λ m name, let seq := seqFromName name in if (m <? seq)%Z then seq else m) m l in
  (m ≤ r)%Z ∧ (∀ f, f ∈ l → seqFromName f ≤ r)%Z ∧ (r = m ∨ ∃ f, f ∈ l ∧ r = seqFromName f).
Proof.
  revert m. induction l as [|f l IH]; intros m r; subst r; cbn [foldl].
  { split; [lia|]. split; [by intros f ?%elem_of_nil|by left]. }
  destruct (IH (if (m <? seqFromName f)%Z then seqFromName f else m)) as (H1 & H2 & H3). clear IH. revert H1 H2 H3. cbn zeta.
  generalize (foldl (λ m name, if (m <? seqFromName name)%Z then seqFromName name else m) (if (m <? seqFromName f)%Z then seqFromName f else m) l).
  intros r H1 H2 H3. destruct (Z.ltb_spec m (seqFromName f)) as [E|E].
  - split; [lia|]. split; [intros g [->|Hg]%elem_of_cons; [lia|by apply H2]|]. right.
    destruct H3 as [->|(g & Hg & ->)]; [exists f; split; [by left|done]|exists g; split; [by right|done]].
  - split; [lia|]. split; [intros g [->|Hg]%elem_of_cons; [lia|by apply H2]|].
    destruct H3 as [->|(g & Hg & ->)]; [by left|right; exists g; split; [by right|done]].
Qed.

Lemma nextSeq_spec d : (0 ≤ nextSeq d)%Z ∧ (∀ f, is_Some (d !! f) → seqFromName f < nextSeq d)%Z
  ∧ ∀ b, (0 ≤ b)%Z → (∀ f, is_Some (d !! f) → seqFromName f < b)%Z → (nextSeq d ≤ b)%Z.
Proof.
  unfold nextSeq. destruct (foldl_seq_spec (ReadDir d) (-1)) as (H1 & H2 & H3). cbn zeta in *. split; [lia|]. split.
  - intros f Hf. specialize (H2 f (proj2 (elem_of_ReadDir d f) Hf)). lia.
  - intros b Hb Hall. destruct H3 as [->|(f & Hf & ->)]; [lia|]. apply elem_of_ReadDir, Hall in Hf. lia.
Qed.

Lemma nextSeq_fresh d e : e ∈ exts → in_seq (nextSeq d) → d !! segFile (nextSeq d) e = None.
Proof.
  intros He Hn. destruct (d !! segFile (nextSeq d) e) eqn:E; [|done]. destruct (nextSeq_spec d) as (_ & H & _).
  specialize (H _ (mk_is_Some _ _ E)). rewrite seqFromName_ext in H by done. lia.
Qed.

(** ** Reading *)

(** The index covers the entries of its segment. *)
Lemma scan_entries_bounds es s :
  in_i64 (Scan.minNano s) → in_i64 (Scan.maxNano s) →
  let r := foldl scan_entry s es in
  in_i64 (Scan.minNano r) ∧ in_i64 (Scan.maxNano r)
  ∧ (Scan.first s = false → Scan.minNano r ≤ Scan.minNano s ∧ Scan.maxNano s ≤ Scan.maxNano r)%Z
  ∧ ∀ e, e ∈ es → (Scan.minNano r ≤ UnixNano (Entry.Time e) ≤ Scan.maxNano r)%Z.
Proof.
  revert s. induction es as [|e es IH]; intros s Hmn Hmx; cbn [foldl].
  { cbn zeta. repeat split; try apply Hmn; try apply Hmx; try lia; by apply elem_of_nil in H. }
  assert (in_i64 (UnixNano (Entry.Time e))) as Hn.
  { unfold UnixNano, i64, in_i64. pose proof (Z.mod_pos_bound (Entry.Time e + 2 ^ 63) (2 ^ 64) ltac:(done)). lia. }
  destruct (IH (scan_entry s e)) as (H1 & H2 & H3 & H4).
  { cbn. destruct (_ || _); done. }
  { cbn. destruct (_ || _); done. }
  cbn zeta. generalize dependent (foldl scan_entry (scan_entry s e) es). intros r H1 H2 H3 H4.
  destruct (H3 eq_refl) as [H5 H6]. cbn [scan_entry Scan.minNano Scan.maxNano] in H5, H6.
  assert (Scan.minNano r ≤ UnixNano (Entry.Time e) ≤ Scan.maxNano r)%Z as He.
  { destruct (Scan.first s); cbn [orb] in *; [lia|].
    destruct (Z.ltb_spec (UnixNano (Entry.Time e)) (Scan.minNano s)), (Z.ltb_spec (Scan.maxNano s) (UnixNano (Entry.Time e))); lia. }
  split; [done|]. split; [done|]. split; [|intros e' [->|Hin]%elem_of_cons; [done|by apply H4]].
  intros Hf. rewrite Hf in H5, H6. cbn [orb] in *.
  destruct (Z.ltb_spec (UnixNano (Entry.Time e)) (Scan.minNano s)), (Z.ltb_spec (Scan.maxNano s) (UnixNano (Entry.Time e))); lia.
Qed.

Lemma scan_entries_i64 es : in_i64 (Scan.minNano (scan_entries es)) ∧ in_i64 (Scan.maxNano (scan_entries es)).
Proof. destruct (scan_entries_bounds es (Scan.mk 0 0 [] 0 (- indexMarkStride) true)) as (H1 & H2 & _); done. Qed.

Lemma in_range es e : e ∈ es → (Scan.minNano (scan_entries es) ≤ UnixNano (Entry.Time e) ≤ Scan.maxNano (scan_entries es))%Z.
Proof. intros He. destruct (scan_entries_bounds es (Scan.mk 0 0 [] 0 (- indexMarkStride) true)) as (_ & _ & _ & H); [done..|]. by apply H. Qed.

(** An index is read back. *)
Lemma readIndexRange_index d n es :
  d !! segFile n ".idx" = Some (index_bytes (scan_entries es)) →
  readIndexRange d n = Some (Scan.minNano (scan_entries es), Scan.maxNano (scan_entries es)).
Proof.
  intros H. unfold readIndexRange. rewrite H. cbn [mbind option_bind]. destruct (scan_entries_i64 es) as [H1 H2]. unfold index_bytes.
  assert (∀ x y z, (length (put_le 8 x ++ put_le 8 y ++ z) <? 16)%nat = false) as ->.
  { intros x y z. apply Nat.ltb_ge. rewrite !length_app, !length_put_le. lia. }
  rewrite get_put_le. cbn [mbind option_bind]. rewrite get_put_le. cbn [mbind option_bind]. change (256 ^ Z.of_nat 8)%Z with (2 ^ 64)%Z.
  assert (∀ z, in_i64 z → i64 (u64 z mod 2 ^ 64) = z) as Hrt.
  { intros z Hz. fold (u64 (u64 z)). by rewrite !i64_u64, i64_id. }
  by rewrite !Hrt.
Qed.

(** A bound of a query that is representable in nanoseconds, or the zero time. *)
Definition bound (t : Z) : Prop := IsZero t = true ∨ in_i64 t.

Lemma skipped_empty since until es :
  bound since → bound until → Forall storable es →
  skipped since until (Some (Scan.minNano (scan_entries es), Scan.maxNano (scan_entries es))) = true → List.filter (keep since until) es = [].
Proof.
  intros Hs Hu Hes Hskip. assert (∀ e, e ∈ es → keep since until e = false) as H.
  { intros e He. pose proof (in_range es e He) as Hr. rewrite Forall_forall in Hes. destruct (Hes e He) as [Ht _].
    unfold UnixNano in Hr. rewrite !i64_id in Hr by done. cbn [skipped] in Hskip. unfold keep.
    apply orb_true_iff in Hskip as [[Hz%negb_true_iff Hlt%Z.ltb_lt]%andb_true_iff|[Hz%negb_true_iff Hlt%Z.ltb_lt]%andb_true_iff]; rewrite Hz; cbn [negb andb].
    - destruct Hu as [Hu|Hu]; [congruence|]. unfold UnixNano in Hlt. rewrite i64_id in Hlt by done.
      rewrite (proj2 (Z.ltb_lt until (Entry.Time e))) by lia. by destruct (_ && _).
    - destruct Hs as [Hs|Hs]; [congruence|]. unfold UnixNano in Hlt. rewrite (i64_id since) in Hlt by done.
      by rewrite (proj2 (Z.ltb_lt (Entry.Time e) since)) by lia. }
  clear -H. induction es as [|e es IH]; [done|]. cbn [List.filter]. rewrite (H e) by left. apply IH. intros e' He'. apply H. by right.
Qed.

Lemma read_segments_holds since until d segs :
  bound since → bound until →
  (∀ n es, (n, es) ∈ segs → d !! segFile n ".zst" = Some (zstd_Write (encode es)) ∧ d !! segFile n ".idx" = Some (index_bytes (scan_entries es)) ∧ Forall storable es) →
  read_segments since until d segs.*1 = Ret (Some (List.filter (keep since until) (concat segs.*2))).
Proof.
  intros Hs Hu. induction segs as [|[n es] segs IH]; intros Hall; [done|]. cbn [fmap list_fmap fst snd read_segments concat].
  destruct (Hall n es) as (Hz & Hi & Hes); [left|]. rewrite (readIndexRange_index d n es Hi), List.filter_app.
  destruct (skipped _ _ _) eqn:Hsk.
  - rewrite (skipped_empty since until es Hs Hu Hes Hsk). apply IH. intros m es' Hin. apply Hall. by right.
  - rewrite Hz, zstd_Read_Write, scan_encoded by done. cbn [mbind outcome_bind obind].
    assert (read_segments since until d segs.*1 = Ret (Some (List.filter (keep since until) (concat segs.*2)))) as IH' by (apply IH; intros m es' Hin; apply Hall; by right).
    unfold fmap in IH'. setoid_rewrite IH'. done.
Qed.

(** What is read: the entries between the bounds, in the order they were written. *)
Lemma read_holds since until d segs act size now next subs :
  bound since → bound until → Holds d segs (Some act) → size = Z.of_nat (length (encode act)) →
  read since until (streamState.mk d size now next subs) = Ret (Some (List.filter (keep since until) (concat segs.*2 ++ act))).
Proof.
  intros Hs Hu H ->. unfold read, read_of. cbn [streamState.size streamState.files]. rewrite (listSegments_holds d segs (Some act)) by done.
  rewrite (read_segments_holds since until d segs); [|done..|].
  - cbn [mbind outcome_bind obind]. unfold read_active. rewrite (h_act _ _ _ H). cbn [fmap option_fmap option_map].
    rewrite Nat2Z.id, firstn_all. pose proof (h_storable_act _ _ _ H) as Ha. cbn in Ha. rewrite scan_encoded by done. cbn [mbind outcome_bind obind].
    by rewrite List.filter_app.
  - intros n es Hin. split; [by apply (h_zst _ _ _ H)|]. split; [by apply (h_idx _ _ _ H)|]. by eapply h_storable_seg.
Qed.

(** ** Rotation *)

#[local] Opaque segFile.

(** A rotation that was interrupted: the active segment has become raw file [seq]; what is
    there of the other files of that number does not matter. *)
Record Interrupted (d : dir) (segs : list (Z * list Entry.t)) (seq : Z) (act : list Entry.t) : Prop := {
  i_sorted : StronglySorted Z.lt segs.*1;
  i_seqs : Forall in_seq segs.*1;
  i_new : in_seq seq ∧ ∀ n, n ∈ segs.*1 → (n < seq)%Z;
  i_zst n es : (n, es) ∈ segs → d !! segFile n ".zst" = Some (zstd_Write (encode es));
  i_idx n es : (n, es) ∈ segs → d !! segFile n ".idx" = Some (index_bytes (scan_entries es));
  i_act : d !! activeSegmentName = None;
  i_raw : d !! segFile seq ".raw" = Some (encode act);
  i_names f : is_Some (d !! f) →
    (∃ n, in_seq n ∧ n ≠ seq ∧ (f = segFile n ".idx" ∨ f = segFile n ".zst" ∧ n ∈ segs.*1)) ∨ ∃ e, e ∈ exts ∧ f = segFile seq e;
  i_storable : Forall storable (concat segs.*2 ++ act) }.

Lemma elem_seq (segs : list (Z * list Entry.t)) n es : (n, es) ∈ segs → n ∈ segs.*1.
Proof. intros H. apply list_elem_of_fmap. by exists (n, es). Qed.

Lemma seq_in_seq (segs : list (Z * list Entry.t)) n : Forall in_seq segs.*1 → n ∈ segs.*1 → in_seq n.
Proof. rewrite Forall_forall. auto. Qed.

(** Files of the number of the rotation may come and go, but for the raw one. *)
Lemma interrupted_other d d' segs seq act :
  Interrupted d segs seq act → d' !! segFile seq ".raw" = d !! segFile seq ".raw" →
  (∀ f, (∀ e, e ∈ exts → f ≠ segFile seq e) → d' !! f = d !! f) → Interrupted d' segs seq act.
Proof.
  intros H Hraw Hother. destruct (i_new _ _ _ _ H) as [Hseq Hlt].
  assert (∀ n e, n ∈ segs.*1 → e ∈ exts → d' !! segFile n e = d !! segFile n e) as Hseg.
  { intros n e Hn He. apply Hother. intros e' He' Heq. apply segFile_eq in Heq as [-> _]; [|exact (seq_in_seq _ _ (i_seqs _ _ _ _ H) Hn)|done..].
    specialize (Hlt _ Hn). lia. }
  split; [exact (i_sorted _ _ _ _ H)|exact (i_seqs _ _ _ _ H)|exact (i_new _ _ _ _ H)|..|exact (i_storable _ _ _ _ H)].
  - intros n es Hin. rewrite Hseg; [by apply (i_zst _ _ _ _ H)|by eapply elem_seq|auto with files].
  - intros n es Hin. rewrite Hseg; [by apply (i_idx _ _ _ _ H)|by eapply elem_seq|auto with files].
  - rewrite Hother; [exact (i_act _ _ _ _ H)|]. intros e He. names.
  - rewrite Hraw. exact (i_raw _ _ _ _ H).
  - intros f Hf. destruct (decide (Exists (λ e, f = segFile seq e) exts)) as [Hex|Hne].
    + right. apply Exists_exists in Hex as (e & He & ->). by exists e.
    + apply (i_names _ _ _ _ H). rewrite <- Hother; [done|]. intros e He ->. apply Hne, Exists_exists. by exists e.
Qed.

(** The calls of compressSegment up to the removal of the raw file. *)
Definition scratch (e : string) : bool := existsb (String.eqb e) [".zst"; ".idx"; ".zst.tmp"; ".idx.tmp"].

Inductive quiet (seq : Z) : fsop → Prop :=
| quiet_write e bs : scratch e = true → quiet seq (WriteFile (segFile seq e) bs)
| quiet_rename e e' : scratch e = true → scratch e' = true → quiet seq (Rename (segFile seq e) (segFile seq e'))
| quiet_remove e : scratch e = true → quiet seq (Remove (segFile seq e)).

Lemma scratch_ext e : scratch e = true → e ∈ exts ∧ e ≠ ".raw".
Proof.
  intros H. unfold scratch in H. apply existsb_exists in H as (x & Hx & ->%String.eqb_eq). cbn in Hx.
  repeat destruct Hx as [<-|Hx]; [split; [auto with files|discriminate]..|done].
Qed.

Lemma quiet_interrupted d segs seq act op : Interrupted d segs seq act → quiet seq op → Interrupted (exec1 d op) segs seq act.
Proof.
  intros H Hq. destruct (i_new _ _ _ _ H) as [Hseq _]. assert (∀ e, scratch e = true → segFile seq e ≠ segFile seq ".raw") as Hne.
  { intros e [He Hr]%scratch_ext Heq. apply segFile_eq in Heq as [_ ->]; auto with files. }
  destruct Hq as [e bs Hs|e e' Hs Hs'|e Hs]; cbn [exec1].
  - apply (interrupted_other d); [done| |]; [by rewrite lookup_insert_ne by auto|]. intros f Hf. rewrite lookup_insert_ne; [done|].
    apply not_eq_sym, Hf. by apply scratch_ext.
  - destruct (d !! segFile seq e) eqn:E; [|done]. apply (interrupted_other d); [done| |].
    + by rewrite lookup_insert_ne, lookup_delete_ne by auto.
    + intros f Hf. rewrite lookup_insert_ne, lookup_delete_ne; [done| |]; apply not_eq_sym, Hf; by apply scratch_ext.
  - apply (interrupted_other d); [done| |]; [by rewrite lookup_delete_ne by auto|]. intros f Hf. rewrite lookup_delete_ne; [done|].
    apply not_eq_sym, Hf. by apply scratch_ext.
Qed.

Lemma quiet_exec d segs seq act ops : Interrupted d segs seq act → Forall (quiet seq) ops → Interrupted (exec d ops) segs seq act.
Proof.
  intros H Hq. revert d H. induction Hq as [|op ops Hop _ IH]; intros d H; [done|]. apply IH. by apply quiet_interrupted.
Qed.

(** What compressSegment does. *)
Definition quiet_ops (seq : Z) (act : list Entry.t) : list fsop :=
  [WriteFile (segFile seq ".zst.tmp") []; WriteFile (segFile seq ".zst.tmp") (zstd_Write (encode act));
   WriteFile (segFile seq ".idx.tmp") (index_bytes (scan_entries act));
   Rename (segFile seq ".zst.tmp") (segFile seq ".zst"); Rename (segFile seq ".idx.tmp") (segFile seq ".idx")].

Definition compress_ops (seq : Z) (act : list Entry.t) : list fsop := quiet_ops seq act ++ [Remove (segFile seq ".raw")].

Lemma quiet_ops_quiet seq act : Forall (quiet seq) (quiet_ops seq act).
Proof. unfold quiet_ops. repeat (constructor; [constructor; reflexivity|]). constructor. Qed.

Lemma compressSegment_raw d seq act :
  d !! segFile seq ".raw" = Some (encode act) → Forall storable act → compressSegment d seq = Ret (compress_ops seq act).
Proof. intros Hr Ha. unfold compressSegment. rewrite Hr, scan_encoded by done. done. Qed.

Lemma exec_compress d seq act : in_seq seq →
  exec d (compress_ops seq act) =
  delete (segFile seq ".raw") (<[segFile seq ".idx" := index_bytes (scan_entries act)]> (delete (segFile seq ".idx.tmp")
    (<[segFile seq ".zst" := zstd_Write (encode act)]> (delete (segFile seq ".zst.tmp")
      (<[segFile seq ".idx.tmp" := index_bytes (scan_entries act)]> (<[segFile seq ".zst.tmp" := zstd_Write (encode act)]> (<[segFile seq ".zst.tmp" := []]> d))))))).
Proof.
  intros Hs. unfold exec, compress_ops, quiet_ops. cbn [app foldl exec1].
  rewrite lookup_insert_ne by names. rewrite lookup_insert_eq.
  rewrite lookup_insert_ne by names. rewrite lookup_delete_ne by names. rewrite lookup_insert_eq. done.
Qed.

Lemma lookup_compress d seq act f : in_seq seq →
  exec d (compress_ops seq act) !! f =
  if decide (f = segFile seq ".zst") then Some (zstd_Write (encode act))
  else if decide (f = segFile seq ".idx") then Some (index_bytes (scan_entries act))
  else if decide (f = segFile seq ".raw" ∨ f = segFile seq ".zst.tmp" ∨ f = segFile seq ".idx.tmp") then None else d !! f.
Proof.
  intros Hs. rewrite exec_compress by done. destruct (decide (f = segFile seq ".zst")) as [->|H1].
  { rewrite lookup_delete_ne by names. rewrite lookup_insert_ne by names. rewrite lookup_delete_ne by names. by rewrite lookup_insert_eq. }
  destruct (decide (f = segFile seq ".idx")) as [->|H2]; [rewrite lookup_delete_ne by names; by rewrite lookup_insert_eq|].
  destruct (decide _) as [Hc|H3]; [destruct Hc as [->|[->| ->]]|].
  - by rewrite lookup_delete_eq.
  - rewrite lookup_delete_ne by names. rewrite lookup_insert_ne by names. rewrite lookup_delete_ne by names. rewrite lookup_insert_ne by names.
    by rewrite lookup_delete_eq.
  - rewrite lookup_delete_ne by names. rewrite lookup_insert_ne by names. by rewrite lookup_delete_eq.
  - rewrite lookup_delete_ne by (intros <-; tauto). rewrite lookup_insert_ne by auto. rewrite lookup_delete_ne by (intros <-; tauto). rewrite lookup_insert_ne by auto.
    rewrite lookup_delete_ne by (intros <-; tauto). rewrite !lookup_insert_ne by (intros <-; tauto). done.
Qed.

Lemma StronglySorted_snoc (l : list Z) x : StronglySorted Z.lt l → (∀ y, y ∈ l → (y < x)%Z) → StronglySorted Z.lt (l ++ [x]).
Proof.
  induction 1 as [|y l Hl IH Hy]; intros Hx; cbn [app]; [by repeat constructor|]. constructor.
  - apply IH. intros z Hz. apply Hx. by right.
  - apply Forall_app. split; [done|]. constructor; [apply Hx; by left|constructor].
Qed.

(** A completed compression closes the segment. *)
Lemma compressed d segs seq act : Interrupted d segs seq act → Holds (exec d (compress_ops seq act)) (segs ++ [(seq, act)]) None.
Proof.
  intros H. destruct (i_new _ _ _ _ H) as [Hseq Hlt]. pose proof (i_seqs _ _ _ _ H) as Hseqs.
  assert (∀ n e, n ∈ segs.*1 → e ∈ exts → exec d (compress_ops seq act) !! segFile n e = d !! segFile n e) as Hold.
  { intros n e Hn He. pose proof (seq_in_seq _ _ Hseqs Hn) as Hns. specialize (Hlt n Hn). rewrite lookup_compress by done.
    assert (∀ e', e' ∈ exts → segFile n e ≠ segFile seq e') as Hne by (intros e' He' Heq; apply segFile_eq in Heq as [-> _]; [lia|done..]).
    rewrite !decide_False; [done|..]; try (apply Hne; auto with files).
    intros [Hc|[Hc|Hc]]; revert Hc; apply Hne; auto with files. }
  split.
  - rewrite fmap_app. apply StronglySorted_snoc; [exact (i_sorted _ _ _ _ H)|done].
  - rewrite fmap_app. apply Forall_app. split; [done|]. by constructor.
  - intros n es [Hin|Hin%list_elem_of_singleton]%elem_of_app.
    + rewrite Hold; [by apply (i_zst _ _ _ _ H)|by eapply elem_seq|auto with files].
    + injection Hin as -> ->. rewrite lookup_compress, decide_True by done. done.
  - intros n es [Hin|Hin%list_elem_of_singleton]%elem_of_app.
    + rewrite Hold; [by apply (i_idx _ _ _ _ H)|by eapply elem_seq|auto with files].
    + injection Hin as -> ->. rewrite lookup_compress by done. rewrite decide_False by names. by rewrite decide_True.
  - rewrite lookup_compress by done. rewrite !decide_False; [exact (i_act _ _ _ _ H)|..]; try names. intros [Hc|[Hc|Hc]]; revert Hc; names.
  - intros f Hf. rewrite lookup_compress in Hf by done. right.
    destruct (decide (f = segFile seq ".zst")) as [->|H1].
    { exists seq. split; [done|]. right. split; [done|]. rewrite fmap_app. apply elem_of_app. right. by left. }
    destruct (decide (f = segFile seq ".idx")) as [->|H2]; [exists seq; split; [done|by left]|].
    destruct (decide _) as [_|H3]; [by destruct Hf|]. destruct (i_names _ _ _ _ H f Hf) as [(n & Hn & _ & [->|[-> Hin]])|(e & He & ->)].
    + exists n. split; [done|by left].
    + exists n. split; [done|]. right. split; [done|]. rewrite fmap_app. apply elem_of_app. by left.
    + exfalso. unfold exts in He. repeat (apply elem_of_cons in He as [->|He]); [tauto..|by apply elem_of_nil in He].
  - pose proof (i_storable _ _ _ _ H) as Hs. rewrite fmap_app, concat_app. cbn [fmap list_fmap concat snd default]. rewrite !app_nil_r. done.
Qed.

(** A directory in which a rotation may have been interrupted: what [open] finds. *)
Definition found (d : dir) (segs : list (Z * list Entry.t)) (seq : Z) (act : list Entry.t) : Prop :=
  Interrupted d segs seq act ∨ Holds d (segs ++ [(seq, act)]) None.

(** ** Recovery *)

Definition benign (seq : Z) (f : string) : Prop :=
  f = activeSegmentName ∨ (∃ n, in_seq n ∧ (f = segFile n ".idx" ∨ f = segFile n ".zst")) ∨ ∃ e, e ∈ exts ∧ f = segFile seq e.

Lemma recover1_kept d n e : in_seq n → e = ".idx" ∨ e = ".zst" → recover1 d (segFile n e) = Ret d.
Proof. intros Hn [-> | ->]; unfold recover1; rewrite !segFile_suffix by auto with files; reflexivity. Qed.

Lemma recover1_found d segs seq act f :
  found d segs seq act → in_seq seq → benign seq f →
  ∃ d', recover1 d f = Ret d' ∧ found d' segs seq act ∧ (f = segFile seq ".raw" → Holds d' (segs ++ [(seq, act)]) None)
    ∧ (Holds d (segs ++ [(seq, act)]) None → Holds d' (segs ++ [(seq, act)]) None).
Proof.
  intros Hf Hseq [->|[(n & Hn & He)|(e & He & ->)]].
  { exists d. split; [reflexivity|]. split; [done|]. split; [intros Hr; by destruct (segFile_not_active seq ".raw")|done]. }
  { exists d. split; [destruct He as [-> | ->]; apply recover1_kept; auto|]. split; [done|]. split; [|done].
    intros Hr. exfalso. destruct He as [-> | ->]; revert Hr; names. }
  assert (∀ g, Holds d (segs ++ [(seq, act)]) None → scratch g = false ∨ g = ".zst.tmp" ∨ g = ".idx.tmp" → g ∈ exts → d !! segFile seq g = None) as Hgone.
  { intros g H Hg Hge. destruct (d !! segFile seq g) eqn:E; [|done]. exfalso. destruct (h_names _ _ _ H _ (mk_is_Some _ _ E)) as [Hc|(m & Hm & [Hc|[Hc _]])].
    - revert Hc. names.
    - apply segFile_eq in Hc as [_ ->]; [|done..|auto with files]. by destruct Hg as [Hg|[Hg|Hg]].
    - apply segFile_eq in Hc as [_ ->]; [|done..|auto with files]. by destruct Hg as [Hg|[Hg|Hg]]. }
  unfold exts in He. apply elem_of_cons in He as [->|He].
  { unfold recover1. rewrite !segFile_suffix by auto with files. cbn [Domains.HasSuffix]. change (Domains.HasSuffix ".raw" ".tmp") with false. change (Domains.HasSuffix ".raw" ".raw") with true. cbn iota.
    rewrite seqFromName_ext by auto with files. rewrite (proj2 (Z.leb_le _ _)) by apply Hseq. destruct Hf as [Hf|Hf].
    - rewrite (compressSegment_raw d seq act); [|exact (i_raw _ _ _ _ Hf)|]; [|pose proof (i_storable _ _ _ _ Hf) as Hs; by apply Forall_app in Hs as [_ Hs]].
      exists (exec d (compress_ops seq act)). pose proof (compressed _ _ _ _ Hf). split; [done|]. split; [by right|]. auto.
    - exists d. unfold compressSegment. rewrite Hgone by (auto with files). split; [done|]. split; [by right|]. auto. }
  apply elem_of_cons in He as [->|He]; [exists d; split; [apply recover1_kept; auto|]; split; [done|]; split; [intros Hr; exfalso; revert Hr; names|done]|].
  apply elem_of_cons in He as [->|He]; [exists d; split; [apply recover1_kept; auto|]; split; [done|]; split; [intros Hr; exfalso; revert Hr; names|done]|].
  assert (scratch e = true ∧ Domains.HasSuffix e ".tmp" = true ∧ e ∈ exts ∧ (e = ".zst.tmp" ∨ e = ".idx.tmp")) as (Hsc & Hsuf & Hext & Htmp).
  { repeat (apply elem_of_cons in He as [->|He]); [repeat split; auto with files..|by apply elem_of_nil in He]. }
  exists (exec1 d (Remove (segFile seq e))). unfold recover1. rewrite segFile_suffix, Hsuf by auto. split; [done|].
  assert (Holds d (segs ++ [(seq, act)]) None → exec1 d (Remove (segFile seq e)) = d) as Hsame.
  { intros H. cbn [exec1]. apply delete_id. apply Hgone; auto. }
  split; [|split].
  - destruct Hf as [Hf|Hf]; [left; apply quiet_interrupted; [done|by constructor]|right; by rewrite Hsame].
  - intros Hr. apply segFile_eq in Hr as [_ ->]; [|done..|auto with files]. by destruct Htmp.
  - intros H. by rewrite Hsame.
Qed.

Lemma recover_list d segs seq act l :
  found d segs seq act → in_seq seq → Forall (benign seq) l →
  ∃ d', ofoldl recover1 d l = Ret d' ∧ found d' segs seq act ∧ (segFile seq ".raw" ∈ l → Holds d' (segs ++ [(seq, act)]) None)
    ∧ (Holds d (segs ++ [(seq, act)]) None → Holds d' (segs ++ [(seq, act)]) None).
Proof.
  intros Hf Hseq Hl. revert d Hf. induction Hl as [|f l Hb _ IH]; intros d Hf.
  { exists d. split; [done|]. split; [done|]. split; [by intros ?%elem_of_nil|done]. }
  rewrite ofoldl_cons. destruct (recover1_found d segs seq act f Hf Hseq Hb) as (d1 & -> & Hf1 & Hr1 & Hk1).
  destruct (IH d1 Hf1) as (d2 & H2 & Hf2 & Hr2 & Hk2). exists d2. split; [exact H2|]. split; [done|]. split; [|auto].
  intros [Heq|Hin]%elem_of_cons; auto.
Qed.

(** An interrupted rotation is completed. *)
Lemma recover_interrupted d segs seq act : Interrupted d segs seq act →
  ∃ d', ofoldl recover1 d (ReadDir d) = Ret d' ∧ Holds d' (segs ++ [(seq, act)]) None.
Proof.
  intros H. destruct (recover_list d segs seq act (ReadDir d)) as (d' & Hd & _ & Hr & _).
  - by left.
  - apply (i_new _ _ _ _ H).
  - apply Forall_forall. intros f Hf%elem_of_ReadDir. destruct (i_names _ _ _ _ H f Hf) as [(n & Hn & _ & Hc)|Hc].
    + right. left. exists n. split; [done|]. tauto.
    + by right; right.
  - exists d'. split; [done|]. apply Hr, elem_of_ReadDir. exists (encode act). exact (i_raw _ _ _ _ H).
Qed.

(** There is nothing to recover otherwise. *)
Lemma recover_holds d segs act : Holds d segs act → ofoldl recover1 d (ReadDir d) = Ret d.
Proof.
  intros H. assert (∀ f, f ∈ ReadDir d → recover1 d f = Ret d) as Hr.
  { intros f Hf%elem_of_ReadDir. destruct (h_names _ _ _ H f Hf) as [->|(n & Hn & [->|[-> _]])]; [reflexivity|apply recover1_kept; auto..]. }
  induction (ReadDir d) as [|f l IH]; [done|]. rewrite ofoldl_cons, (Hr f) by left. apply IH. intros g Hg. apply Hr. by right.
Qed.

Lemma holds_activate d segs act : Holds d segs act → Holds (exec1 d (Extend activeSegmentName [])) segs (Some (default [] act)).
Proof.
  intros H. cbn [exec1]. rewrite app_nil_r. assert (∀ n e, <[activeSegmentName := default [] (d !! activeSegmentName)]> d !! segFile n e = d !! segFile n e) as Hne.
  { intros n e. rewrite lookup_insert_ne; [done|]. names. }
  split; [exact (h_sorted _ _ _ H)|exact (h_seqs _ _ _ H)|..|].
  - intros n es Hin. rewrite Hne. by apply (h_zst _ _ _ H).
  - intros n es Hin. rewrite Hne. by apply (h_idx _ _ _ H).
  - rewrite lookup_insert_eq. rewrite (h_act _ _ _ H). by destruct act.
  - intros f Hf. destruct (decide (f = activeSegmentName)) as [->|Hn]; [by left|]. rewrite lookup_insert_ne in Hf by done. by apply (h_names _ _ _ H).
  - exact (h_storable _ _ _ H).
Qed.

(** What a process knows of a stream agrees with its directory. *)
Definition Knows (ss : streamState.t) (segs : list (Z * list Entry.t)) (act : list Entry.t) : Prop :=
  Holds (streamState.files ss) segs (Some act) ∧ streamState.size ss = Z.of_nat (length (encode act)).

Lemma activated d segs act now : Holds d segs act →
  let d' := exec1 d (Extend activeSegmentName []) in
  Knows (streamState.mk d' (Z.of_nat (length (default [] (d' !! activeSegmentName)))) now 0 ∅) segs (default [] act).
Proof.
  intros H%holds_activate. split; [done|]. cbn [streamState.size]. by rewrite (h_act _ _ _ H).
Qed.

Lemma open_holds now d segs act : Holds d segs act → ∃ ss, open now d = Ret ss ∧ Knows ss segs (default [] act).
Proof. intros H. unfold open. rewrite (recover_holds d segs act H). eexists. split; [reflexivity|]. by apply activated. Qed.

Lemma open_interrupted now d segs seq act : Interrupted d segs seq act → ∃ ss, open now d = Ret ss ∧ Knows ss (segs ++ [(seq, act)]) [].
Proof.
  intros (d' & Hd & H)%recover_interrupted. unfold open. rewrite Hd. eexists. split; [reflexivity|]. by apply (activated d' _ None).
Qed.

Lemma holds_empty : Holds ∅ [] None.
Proof.
  split; [constructor|constructor|by intros n es ?%elem_of_nil..|done| |constructor]. intros f [x Hx]. by rewrite lookup_empty in Hx.
Qed.

(** ** Numbers *)

(** The files of a directory have numbers below [k]. *)
Definition below (k : Z) (d : dir) : Prop := ∀ f, is_Some (d !! f) → (seqFromName f < k)%Z.

Definition op_below (k : Z) (op : fsop) : Prop :=
  match op with WriteFile f _ | Extend f _ | Rename _ f => (seqFromName f < k)%Z | Remove _ => True end.

Lemma below_exec k d ops : below k d → Forall (op_below k) ops → below k (exec d ops).
Proof.
  intros Hd Hops. revert d Hd. induction Hops as [|op ops Hop _ IH]; intros d Hd; [done|]. apply IH. clear IH.
  assert (∀ (m : dir) f bs, below k m → (seqFromName f < k)%Z → below k (<[f := bs]> m)) as Hins.
  { intros m f bs Hm Hf g Hg. destruct (decide (f = g)) as [<-|Hne]; [done|]. rewrite lookup_insert_ne in Hg by done. by apply Hm. }
  assert (∀ (m : dir) f, below k m → below k (delete f m)) as Hdel.
  { intros m f Hm g Hg. apply Hm. destruct (decide (f = g)) as [<-|Hne]; [rewrite lookup_delete_eq in Hg; by destruct Hg|by rewrite lookup_delete_ne in Hg]. }
  destruct op as [f bs|f bs|f g|f]; cbn [exec1]; auto. destruct (d !! f); auto.
Qed.

Lemma below_seg k n e : in_seq n → (n < k)%Z → e ∈ exts → (seqFromName (segFile n e) < k)%Z.
Proof. intros. by rewrite seqFromName_ext. Qed.

Lemma seqFromName_range f : (seqFromName f < 2 ^ 63)%Z.
Proof.
  unfold seqFromName. destruct (negb _); [done|]. destruct (IndexByte _ _); [|done]. unfold Sscanf_d.
  destruct (match String.substring _ _ _ with "" => _ | _ => _ end) as [neg s]. destruct (leading_digits None s); [|done]. cbn [mbind option_bind].
  destruct (_ && _) eqn:E; [|done]. by apply andb_true_iff in E as [_ E%Z.ltb_lt].
Qed.

Lemma below_compress k d seq ops : in_seq seq → (seq < k)%Z → compressSegment d seq = Ret ops → Forall (op_below k) ops.
Proof.
  intros Hn Hk. unfold compressSegment. destruct (d !! _); [|by intros [= <-]]. destruct (scanRecords _); [|done]. intros [= <-].
  repeat (constructor; [first [exact I|apply below_seg; auto with files]|]). constructor.
Qed.

Lemma below_recover k d d' l : below k d → (∀ f, f ∈ l → (seqFromName f < k)%Z) → ofoldl recover1 d l = Ret d' → below k d'.
Proof.
  intros Hd Hl. apply ofoldl_invariant; [|done]. intros s f s' Hs Hf. unfold recover1. destruct (Domains.HasSuffix f ".tmp").
  { intros [= <-]. apply (below_exec k s [Remove f]); [done|]. by repeat constructor. }
  destruct (Domains.HasSuffix f ".raw"); [|by intros [= <-]]. destruct (0 <=? seqFromName f)%Z eqn:H0; [|by intros [= <-]].
  apply Z.leb_le in H0. pose proof (seqFromName_range f). pose proof (Hl f Hf).
  destruct (compressSegment s (seqFromName f)) as [ops|] eqn:E; [|done]. intros [= <-]. apply below_exec; [done|]. eapply below_compress; [| |done]; [done|done].
Qed.

Lemma below_open k d now ss : (0 ≤ k)%Z → below k d → open now d = Ret ss → below k (streamState.files ss).
Proof.
  intros Hk Hd. unfold open. destruct (ofoldl recover1 d (ReadDir d)) as [d'|] eqn:E; [|done]. intros [= <-]. cbn [streamState.files].
  apply (below_exec k d' [Extend activeSegmentName []]); [|repeat constructor; cbn [op_below]; rewrite seqFromName_active; lia].
  eapply below_recover; [done| |done]. intros f Hf%elem_of_ReadDir. by apply Hd.
Qed.

(** ** Writing *)

Lemma holds_extend d segs act entries : Holds d segs (Some act) → Forall storable entries →
  Holds (exec1 d (Extend activeSegmentName (encode entries))) segs (Some (act ++ entries)).
Proof.
  intros H He. cbn [exec1]. rewrite (h_act _ _ _ H). cbn [fmap option_fmap option_map default].
  assert (∀ bs n e, <[activeSegmentName := bs]> d !! segFile n e = d !! segFile n e) as Hne by (intros bs n e; rewrite lookup_insert_ne; [done|names]).
  split; [exact (h_sorted _ _ _ H)|exact (h_seqs _ _ _ H)|..].
  - intros n es Hin. rewrite Hne. by apply (h_zst _ _ _ H).
  - intros n es Hin. rewrite Hne. by apply (h_idx _ _ _ H).
  - rewrite lookup_insert_eq. cbn. by rewrite encode_app.
  - intros f Hf. destruct (decide (f = activeSegmentName)) as [->|Hn]; [by left|]. rewrite lookup_insert_ne in Hf by done. by apply (h_names _ _ _ H).
  - pose proof (h_storable _ _ _ H) as Hs. cbn [default from_option id] in *. rewrite app_assoc. apply Forall_app. done.
Qed.

Lemma holds_fresh d segs : Holds d segs None → Holds (exec1 d (WriteFile activeSegmentName [])) segs (Some []).
Proof.
  intros H. apply holds_activate in H as Hx. cbn [exec1 default] in *. rewrite (h_act _ _ _ H) in Hx. exact Hx.
Qed.

Lemma holds_renamed d segs act : Holds d segs (Some act) → in_seq (nextSeq d) →
  Interrupted (exec1 d (Rename activeSegmentName (segFile (nextSeq d) ".raw"))) segs (nextSeq d) act.
Proof.
  intros H Hn. cbn [exec1]. rewrite (h_act _ _ _ H). cbn [fmap option_fmap option_map]. set (seq := nextSeq d) in *.
  assert (∀ n e, segFile n e ≠ segFile seq ".raw" → <[segFile seq ".raw" := encode act]> (delete activeSegmentName d) !! segFile n e = d !! segFile n e) as Hne.
  { intros n e Hc. rewrite lookup_insert_ne by auto. rewrite lookup_delete_ne by names. done. }
  assert (∀ n, n ∈ segs.*1 → in_seq n ∧ (n < seq)%Z) as Hlt.
  { intros n Hin. pose proof (seq_in_seq _ _ (h_seqs _ _ _ H) Hin) as Hs. split; [done|]. apply list_elem_of_fmap in Hin as ([m es] & -> & Hin).
    destruct (nextSeq_spec d) as (_ & Hall & _). specialize (Hall (segFile m ".zst")). rewrite seqFromName_ext in Hall by auto with files.
    apply Hall. rewrite (h_zst _ _ _ H m es Hin). done. }
  split; [exact (h_sorted _ _ _ H)|exact (h_seqs _ _ _ H)|split; [done|apply Hlt]|..].
  - intros n es Hin. destruct (Hlt n (elem_seq _ _ _ Hin)). rewrite Hne by names. by apply (h_zst _ _ _ H).
  - intros n es Hin. destruct (Hlt n (elem_seq _ _ _ Hin)). rewrite Hne by names. by apply (h_idx _ _ _ H).
  - rewrite lookup_insert_ne by names. by rewrite lookup_delete_eq.
  - by rewrite lookup_insert_eq.
  - intros f Hf. destruct (decide (f = segFile seq ".raw")) as [->|Hn1]; [right; exists ".raw"; auto with files|]. rewrite lookup_insert_ne in Hf by done.
    destruct (decide (f = activeSegmentName)) as [->|Hn2]; [rewrite lookup_delete_eq in Hf; by destruct Hf|]. rewrite lookup_delete_ne in Hf by done.
    left. destruct (h_names _ _ _ H f Hf) as [->|(n & Hns & Hc)]; [done|]. exists n. split; [done|]. split; [|done]. intros ->.
    unfold seq in Hf, Hc. destruct Hc as [->|[-> _]]; rewrite nextSeq_fresh in Hf by auto with files; by destruct Hf.
  - exact (h_storable _ _ _ H).
Qed.

(** ** Retention *)

Lemma holds_remove d segs act n : Holds d segs act → in_seq n → Holds (exec d (removeSegment n)) (List.filter (λ s, negb (s.1 =? n)%Z) segs) act.
Proof.
  intros H Hn. unfold exec, removeSegment. cbn [foldl exec1].
  assert (∀ m e, m ≠ n → in_seq m → e ∈ exts → delete (segFile n ".idx") (delete (segFile n ".zst") d) !! segFile m e = d !! segFile m e) as Hne.
  { intros m e Hm Hs He. rewrite !lookup_delete_ne; [done|..]; intros Hc; apply segFile_eq in Hc as [Hc _]; auto with files. }
  assert (∀ m es, (m, es) ∈ List.filter (λ s, negb (s.1 =? n)%Z) segs ↔ (m, es) ∈ segs ∧ m ≠ n) as Hin.
  { intros m es. rewrite !list_elem_of_In, List.filter_In. cbn. rewrite negb_true_iff, Z.eqb_neq. done. }
  assert (∀ m, m ∈ (List.filter (λ s : Z * list Entry.t, negb (s.1 =? n)%Z) segs).*1 ↔ m ∈ segs.*1 ∧ m ≠ n) as Hin1.
  { intros m. rewrite !list_elem_of_fmap. split.
    - intros ([m' es] & -> & Hi). apply Hin in Hi as [Hi Hm]. split; [|done]. by exists (m', es).
    - intros [([m' es] & -> & Hi) Hm]. exists (m', es). split; [done|]. by apply Hin. }
  pose proof (h_seqs _ _ _ H) as Hseqs.
  split.
  - pose proof (h_sorted _ _ _ H) as Hs. clear -Hs. induction segs as [|[m es] segs IH]; [constructor|]. cbn [fmap list_fmap fst] in Hs.
    apply StronglySorted_cons in Hs as [Hm Hs]. cbn [List.filter fst]. destruct (negb (m =? n)%Z); [|by apply IH]. cbn [fmap list_fmap fst]. constructor; [by apply IH|].
    rewrite Forall_forall in Hm |- *. intros x (y & -> & Hy)%list_elem_of_fmap. apply Hm. rewrite list_elem_of_In, List.filter_In in Hy. destruct Hy as [Hy _].
    apply list_elem_of_fmap. exists y. split; [done|]. by apply list_elem_of_In.
  - rewrite Forall_forall in Hseqs |- *. intros m [Hm _]%Hin1. by apply Hseqs.
  - intros m es [Hi Hm]%Hin. rewrite Hne by (auto with files || exact (seq_in_seq _ _ Hseqs (elem_seq _ _ _ Hi))). by apply (h_zst _ _ _ H).
  - intros m es [Hi Hm]%Hin. rewrite Hne by (auto with files || exact (seq_in_seq _ _ Hseqs (elem_seq _ _ _ Hi))). by apply (h_idx _ _ _ H).
  - rewrite !lookup_delete_ne by names. exact (h_act _ _ _ H).
  - intros f Hf. destruct (decide (f = segFile n ".idx")) as [->|H1]; [rewrite lookup_delete_eq in Hf; by destruct Hf|]. rewrite lookup_delete_ne in Hf by auto.
    destruct (decide (f = segFile n ".zst")) as [->|H2]; [rewrite lookup_delete_eq in Hf; by destruct Hf|]. rewrite lookup_delete_ne in Hf by auto.
    destruct (h_names _ _ _ H f Hf) as [->|(m & Hm & [->|[-> Hc]])]; [by left|right; exists m; split; [done|by left]|].
    right. exists m. split; [done|]. right. split; [done|]. apply Hin1. split; [done|]. by intros ->.
  - pose proof (h_storable _ _ _ H) as Hs. apply Forall_app in Hs as [Hs Ha]. apply Forall_app. split; [|done]. rewrite Forall_concat in Hs |- *.
    rewrite Forall_forall in Hs |- *. intros es ([m es'] & -> & Hi)%list_elem_of_fmap. apply Hs, list_elem_of_fmap. exists (m, es'). split; [done|]. by apply Hin.
Qed.

Lemma holds_remove_all d segs act ns : Holds d segs act → Forall in_seq ns →
  Holds (exec d (ns ≫= removeSegment)) (List.filter (λ s, negb (existsb (Z.eqb s.1) ns)) segs) act.
Proof.
  intros H Hns. revert d segs H. induction Hns as [|n ns Hn _ IH]; intros d segs H.
  - cbn. assert (List.filter (λ _ : Z * list Entry.t, true) segs = segs) as ->; [|done]. clear. induction segs as [|s segs IH]; [done|]. cbn. by rewrite IH.
  - rewrite bind_cons. unfold exec. rewrite foldl_app. specialize (IH _ _ (holds_remove d segs act n H Hn)).
    assert (List.filter (λ s : Z * list Entry.t, negb (existsb (Z.eqb s.1) ns)) (List.filter (λ s, negb (s.1 =? n)%Z) segs)
      = List.filter (λ s, negb (existsb (Z.eqb s.1) (n :: ns))) segs) as <-; [|exact IH].
    clear. induction segs as [|s segs IH]; [done|]. cbn [List.filter existsb]. destruct (s.1 =? n)%Z; cbn [negb orb]; [done|]. cbn [List.filter]. by rewrite IH.
Qed.

Lemma existsb_elem n ns : existsb (Z.eqb n) ns = true ↔ n ∈ ns.
Proof.
  rewrite existsb_exists. split; [intros (x & Hx & ->%Z.eqb_eq); by apply list_elem_of_In|]. intros H. exists n. split; [by apply list_elem_of_In|apply Z.eqb_refl].
Qed.

Lemma filter_negb_filter (P : Z → bool) (segs : list (Z * list Entry.t)) :
  List.filter (λ s, negb (existsb (Z.eqb s.1) (List.filter P segs.*1))) segs = List.filter (λ s, negb (P s.1)) segs.
Proof.
  apply List.filter_ext_in. intros s Hs. f_equal. apply eq_true_iff_eq. rewrite existsb_elem, list_elem_of_In, List.filter_In. split; [by intros [_ ?]|].
  intros HP. split; [|done]. apply list_elem_of_In, list_elem_of_fmap. exists s. split; [done|]. by apply list_elem_of_In.
Qed.

Lemma filter_map_snd (Q : list Entry.t → bool) (segs : list (Z * list Entry.t)) :
  (List.filter (λ s, Q s.2) segs).*2 = List.filter Q segs.*2.
Proof. induction segs as [|s segs IH]; [done|]. cbn [List.filter fmap list_fmap]. destruct (Q s.2); cbn [fmap list_fmap]; [f_equal|]; exact IH. Qed.

Lemma foldl_sum (f : Z → Z) l t : foldl (λ t n, (t + f n)%Z) t l = (t + foldr Z.add 0 (f <$> l))%Z.
Proof. revert t. induction l as [|n l IH]; intros t; cbn [foldl fmap list_fmap foldr]; [lia|]. rewrite IH. unfold fmap. lia. Qed.

Lemma over_budget_fitting cap sizes (segs : list (Z * list Entry.t)) :
  StronglySorted Z.lt segs.*1 → (∀ n es, (n, es) ∈ segs → sizes n = Spec.cost es) →
  (List.filter (λ s, negb (existsb (Z.eqb s.1) (over_budget cap (foldr Z.add 0%Z (sizes <$> segs.*1)) sizes segs.*1))) segs).*2 = Spec.fitting cap segs.*2.
Proof.
  induction segs as [|[n es] segs IH]; intros Hs Hc; [done|]. apply StronglySorted_cons in Hs as [Hn Hs].
  assert (sizes <$> ((n, es) :: segs).*1 = Spec.cost <$> ((n, es) :: segs).*2) as Hsz.
  { clear -Hc. induction ((n, es) :: segs) as [|[m es'] l IH]; [done|]. cbn. f_equal; [apply Hc; by left|]. apply IH. intros. apply Hc. by right. }
  rewrite Hsz. cbn [over_budget fmap list_fmap fst snd Spec.fitting] in *. destruct (foldr Z.add 0%Z _ <=? cap)%Z eqn:E.
  - cbn [existsb negb]. assert (∀ l : list (Z * list Entry.t), List.filter (λ _, true) l = l) as Hid by (induction l as [|s l Hl]; cbn; by rewrite ?Hl). by rewrite Hid.
  - cbn [List.filter existsb fst]. rewrite Z.eqb_refl. cbn [orb negb]. rewrite <- IH; [|done|intros m es' Hin; apply Hc; by right]. f_equal.
    injection Hsz as Hsz1 Hsz2. cbn [foldr]. rewrite <- Hsz2, Hsz1. 
    replace (Spec.cost es + foldr Z.add 0 (list_fmap Z Z sizes (list_fmap _ _ fst segs)) - Spec.cost es)%Z with (foldr Z.add 0%Z (list_fmap Z Z sizes (list_fmap _ _ fst segs))) by lia.
    apply List.filter_ext_in. intros s Hin%list_elem_of_In. cbn [existsb]. rewrite Forall_forall in Hn.
    assert (n < s.1)%Z by (apply Hn, list_elem_of_fmap; by exists s). by rewrite (proj2 (Z.eqb_neq s.1 n)) by lia.
Qed.

Lemma over_budget_sub cap total sizes l n : n ∈ over_budget cap total sizes l → n ∈ l.
Proof.
  revert total. induction l as [|m l IH]; intros total H; cbn [over_budget] in H; [exact H|].
  destruct (total <=? cap)%Z; [by apply elem_of_nil in H|]. apply elem_of_cons in H as [->|H]; [by left|right; by eapply IH].
Qed.

(** Retention leaves what the contract says. *)
Lemma retention_holds o now d segs act : Holds d segs act →
  ∃ segs', Holds (exec d (enforceRetention o now d)) segs' act ∧ segs'.*2 = Spec.retained o now segs.*2.
Proof.
  intros H. unfold enforceRetention, Spec.retained.
  set (aged := if (0 <? Options.RetentionAge o)%Z then _ else []).
  assert (∃ segs1, Holds (exec d aged) segs1 act ∧ segs1.*2 = List.filter (λ es, negb (Spec.aged o now es)) segs.*2) as (segs1 & H1 & Hs1).
  { subst aged. unfold Spec.aged. destruct (0 <? Options.RetentionAge o)%Z; cbn [andb].
    - rewrite (listSegments_holds d segs act) by done. eexists. split.
      + apply holds_remove_all; [done|]. apply Forall_forall. intros n Hn%list_elem_of_In. apply List.filter_In in Hn as [Hn _].
        apply (seq_in_seq _ _ (h_seqs _ _ _ H)). by apply list_elem_of_In.
      + rewrite filter_negb_filter. rewrite <- filter_map_snd. f_equal. apply List.filter_ext_in. intros [n es] Hin%list_elem_of_In. cbn [fst snd].
        by rewrite (readIndexRange_index d n es) by by apply (h_idx _ _ _ H).
    - exists segs. split; [done|]. symmetry. generalize segs.*2. intros l. induction l as [|es l IH]; [done|]. cbn [List.filter negb]. f_equal. exact IH. }
  unfold exec at 1. rewrite foldl_app. fold (exec d aged). fold (exec (exec d aged)). rewrite <- Hs1.
  destruct (0 <? Options.RetentionBytes o)%Z; [|by exists segs1].
  rewrite (listSegments_holds _ segs1 act) by done. set (sizes := λ seq, Z.of_nat (length (default [] (exec d aged !! segFile seq ".zst")))).
  rewrite foldl_sum, Z.add_0_l. eexists. split.
  - apply holds_remove_all; [done|]. apply Forall_forall. intros n Hn. apply (seq_in_seq _ _ (h_seqs _ _ _ H1)). by eapply over_budget_sub.
  - apply over_budget_fitting; [exact (h_sorted _ _ _ H1)|]. intros n es Hin. unfold sizes. by rewrite (h_zst _ _ _ H1 n es Hin).
Qed.

(** ** A rotation *)

Lemma rotation_ops o now d segs act : Holds d segs (Some act) → in_seq (nextSeq d) →
  ∃ d1, d1 = exec1 d (Rename activeSegmentName (segFile (nextSeq d) ".raw")) ∧ Interrupted d1 segs (nextSeq d) act
  ∧ let closing := Rename activeSegmentName (segFile (nextSeq d) ".raw") :: compress_ops (nextSeq d) act ++ [WriteFile activeSegmentName []] in
    rotation o now d = Ret (closing ++ enforceRetention o now (exec d closing)) ∧ Holds (exec d closing) (segs ++ [(nextSeq d, act)]) (Some []).
Proof.
  intros H Hn. eexists. split; [reflexivity|]. pose proof (holds_renamed d segs act H Hn) as Hi. split; [done|]. split.
  - unfold rotation. rewrite (compressSegment_raw _ _ act); [done|exact (i_raw _ _ _ _ Hi)|exact (h_storable_act _ _ _ H)].
  - unfold exec. cbn [foldl]. rewrite foldl_app. cbn [foldl]. apply holds_fresh. by apply compressed.
Qed.

Lemma rotated o now d segs act : Holds d segs (Some act) → in_seq (nextSeq d) →
  ∃ ops segs', rotation o now d = Ret ops ∧ Holds (exec d ops) segs' (Some []) ∧ segs'.*2 = Spec.retained o now (segs.*2 ++ [act]).
Proof.
  intros H Hn. destruct (rotation_ops o now d segs act H Hn) as (d1 & _ & _ & Hr & Hc). cbn zeta in *.
  destruct (retention_holds o now _ _ _ Hc) as (segs' & H' & Hs). eexists _, segs'. split; [exact Hr|]. split.
  - unfold exec. rewrite foldl_app. exact H'.
  - rewrite Hs. by rewrite fmap_app.
Qed.

(** A process that dies in a rotation, where nothing is ever discarded, loses nothing. *)
Lemma crash_in_rotation o now now' d d' segs act ops :
  (Options.RetentionAge o ≤ 0)%Z → (Options.RetentionBytes o ≤ 0)%Z → Holds d segs (Some act) → in_seq (nextSeq d) →
  rotation o now d = Ret ops → crashed d ops d' →
  ∃ ss segs' act', open now' d' = Ret ss ∧ Knows ss segs' act' ∧ concat segs'.*2 ++ act' = concat segs.*2 ++ act.
Proof.
  intros Ha Hb H Hn Hr Hc. destruct (rotation_ops o now d segs act H Hn) as (d1 & Hd1 & Hi & Hr' & Hcl). cbn zeta in *.
  rewrite Hr in Hr'. injection Hr' as Hops. unfold enforceRetention in Hops.
  rewrite (proj2 (Z.ltb_ge _ _) Ha), (proj2 (Z.ltb_ge _ _) Hb) in Hops.
  assert (ops = Rename activeSegmentName (segFile (nextSeq d) ".raw") :: compress_ops (nextSeq d) act ++ [WriteFile activeSegmentName []]) as Hops'.
  { rewrite Hops. cbn [app]. by rewrite ?app_nil_r. }
  clear Hops. rename Hops' into Hops.
  assert (∀ a, concat (segs ++ [(nextSeq d, act)]).*2 ++ default [] a = concat segs.*2 ++ act ++ default [] a) as Hcat.
  { intros a. rewrite fmap_app, concat_app. cbn. by rewrite app_nil_r, <- app_assoc. }
  assert (∀ x, Holds x segs (Some act) → ∃ ss segs' act', open now' x = Ret ss ∧ Knows ss segs' act' ∧ concat segs'.*2 ++ act' = concat segs.*2 ++ act) as Kold.
  { intros x Hx. destruct (open_holds now' x _ _ Hx) as (ss & Ho & Hk). by exists ss, segs, act. }
  assert (∀ x a, Holds x (segs ++ [(nextSeq d, act)]) a → default [] a = [] → ∃ ss segs' act', open now' x = Ret ss ∧ Knows ss segs' act' ∧ concat segs'.*2 ++ act' = concat segs.*2 ++ act) as Knew.
  { intros x a Hx Hna. destruct (open_holds now' x _ _ Hx) as (ss & Ho & Hk). eexists ss, _, _. split; [done|]. split; [exact Hk|]. by rewrite Hcat, Hna, app_nil_r. }
  assert (∀ x, Interrupted x segs (nextSeq d) act → ∃ ss segs' act', open now' x = Ret ss ∧ Knows ss segs' act' ∧ concat segs'.*2 ++ act' = concat segs.*2 ++ act) as Kint.
  { intros x Hx. destruct (open_interrupted now' x _ _ _ Hx) as (ss & Ho & Hk). eexists ss, _, _. split; [done|]. split; [exact Hk|]. etransitivity; [exact (Hcat None)|]. cbn [default from_option]. by rewrite app_nil_r. }
  assert (∀ k, k ≤ 5 → Interrupted (exec d1 (take k (compress_ops (nextSeq d) act))) segs (nextSeq d) act) as Hmid.
  { intros k Hk. apply quiet_exec; [done|]. unfold compress_ops. rewrite take_app_le by (cbn [quiet_ops length]; lia). apply Forall_take, quiet_ops_quiet. }
  assert (∀ k, k ≤ 5 → exec d (take (S k) ops) = exec d1 (take k (compress_ops (nextSeq d) act))) as Hpre.
  { intros k Hk. rewrite Hops. cbn [take]. rewrite take_app_le by (unfold compress_ops; rewrite length_app; cbn [quiet_ops length]; lia). by rewrite Hd1. }
  assert (exec d (take 7 ops) = exec d1 (compress_ops (nextSeq d) act)) as H7 by (rewrite Hops, Hd1; done).
  destruct (Hi) as [_ _ [Hseq _] _ _ _ _ _ _]. 
  destruct Hc as [k|k f bs p Hk Hp|k f bs p Hk Hp].
  - destruct k as [|k]; [by apply Kold|]. destruct (decide (k ≤ 5)) as [Hle|Hgt]; [rewrite Hpre by done; auto|].
    destruct (decide (k = 6)) as [->|Hne].
    + rewrite H7. apply (Knew _ None); [|done]. by apply compressed.
    + assert (take (S k) ops = ops) as -> by (apply take_ge; rewrite Hops; cbn; lia). rewrite Hops. by eapply Knew.
  - assert (k = 7 ∧ f = activeSegmentName ∧ bs = [] ∨ ∃ j e, k = S j ∧ j ≤ 5 ∧ scratch e = true ∧ f = segFile (nextSeq d) e) as [(-> & -> & ->)|(j & e & -> & Hj & He & ->)].
    { rewrite Hops in Hk. do 8 (destruct k as [|k]; [cbn in Hk; first [discriminate Hk|injection Hk as <- <-; first [by left|right; eexists _, _; repeat split; [|reflexivity]; lia]]|]).
      cbn in Hk. by rewrite ?lookup_nil in Hk. }
    + apply (Knew _ (Some [])); [|done]. rewrite H7. destruct Hp as [q Hp]. symmetry in Hp. apply app_eq_nil in Hp as [-> _]. apply holds_fresh. by apply compressed.
    + apply Kint. rewrite Hpre by done. apply (quiet_interrupted _ _ _ _ (WriteFile (segFile (nextSeq d) e) p)); [by apply Hmid|by constructor].
  - exfalso. rewrite Hops in Hk. do 8 (destruct k as [|k]; [cbn in Hk; discriminate Hk|]). cbn in Hk. by rewrite ?lookup_nil in Hk.
Qed.

Lemma below_retention k o now d : Forall (op_below k) (enforceRetention o now d).
Proof.
  assert (∀ l, Forall (op_below k) (l ≫= removeSegment)) as Hrm.
  { induction l as [|n l IH]; [constructor|]. rewrite bind_cons. apply Forall_app. split; [|done]. by repeat constructor. }
  unfold enforceRetention. apply Forall_app. split; destruct (0 <? _)%Z; first [apply Hrm|constructor].
Qed.

Lemma below_rotation k o now d ops : below k d → (k < 2 ^ 63)%Z → rotation o now d = Ret ops → (0 ≤ k)%Z → Forall (op_below (k + 1)) ops.
Proof.
  intros Hd Hk Hr H0. destruct (nextSeq_spec d) as (Hn & _ & Hle). specialize (Hle k H0 Hd). unfold rotation in Hr.
  destruct (compressSegment _ _) as [cs|] eqn:E; [|done]. injection Hr as <-.
  assert (in_seq (nextSeq d)) as Hs by (unfold in_seq; lia).
  constructor; [apply below_seg; [done|lia|auto with files]|]. apply Forall_app. split; [apply Forall_app; split|apply below_retention].
  - eapply below_compress; [done| |done]. lia.
  - constructor; [|constructor]. cbn [op_below]. rewrite seqFromName_active. lia.
Qed.

Lemma below_crashed k d ops d' : below k d → Forall (op_below k) ops → crashed d ops d' → below k d'.
Proof.
  intros Hd Hops Hc.
  destruct Hc as [n|n f bs p Hn _|n f bs p Hn _].
  - apply below_exec; [done|]. by apply Forall_take.
  - apply (below_exec k (exec d (take n ops)) [WriteFile f p]).
    + apply below_exec; [done|]. by apply Forall_take.
    + constructor; [|constructor]. rewrite Forall_forall in Hops. exact (Hops _ (list_elem_of_lookup_2 _ _ _ Hn)).
  - apply (below_exec k (exec d (take n ops)) [Extend f p]).
    + apply below_exec; [done|]. by apply Forall_take.
    + constructor; [|constructor]. rewrite Forall_forall in Hops. exact (Hops _ (list_elem_of_lookup_2 _ _ _ Hn)).
Qed.

(** ** Appending *)

(** One entry at a time never meets a closed channel. *)
Lemma notify_one drained e subs : ∃ subs', notify_all drained [e] subs = Ret subs'.
Proof.
  unfold notify_all. generalize subs at 1. induction (map_to_list subs) as [|kv l IH]; intros acc; [by eexists|].
  rewrite ofoldl_cons. cbn [notify]. cbn [mbind outcome_bind obind]. apply IH.
Qed.

Lemma appendTo_one o drained now e ss segs act k :
  Knows ss segs act → storable e → below k (streamState.files ss) → (0 ≤ k < 2 ^ 63)%Z →
  ∃ ss' segs' act', appendTo o drained now [e] ss = Ret ss' ∧ Knows ss' segs' act' ∧ below (k + 1) (streamState.files ss')
    ∧ Spec.append o now [e] (Spec.mk segs.*2 act (streamState.opened ss)) = Spec.mk segs'.*2 act' (streamState.opened ss').
Proof.
  intros [H Hsz] He Hb Hk. unfold appendTo. rewrite (foldl_appendRecord [] [e]), app_nil_l. cbn [streamState.files streamState.size streamState.opened streamState.nextID streamState.subs].
  destruct (notify_one drained e (streamState.subs ss)) as [subs' ->]. cbn [mbind outcome_bind obind].
  pose proof (holds_extend _ _ _ [e] H ltac:(constructor; [done|constructor])) as H'.
  assert (below k (exec1 (streamState.files ss) (Extend activeSegmentName (encode [e])))) as Hb'.
  { apply (below_exec k _ [Extend activeSegmentName (encode [e])]); [done|]. constructor; [|constructor]. cbn [op_below]. rewrite seqFromName_active. lia. }
  assert (streamState.size ss + Z.of_nat (length (encode [e])) = Z.of_nat (length (encode (act ++ [e]))))%Z as Hsz'.
  { rewrite encode_app, length_app, Hsz. lia. }
  rewrite Hsz'. unfold Spec.append, full. cbn [Spec.active Spec.closed Spec.opened streamState.size streamState.opened].
  set (d := exec1 _ _) in *. destruct (_ || _).
  - unfold rotate. cbn [streamState.size streamState.files streamState.nextID streamState.subs]. destruct (Z.of_nat _ =? 0)%Z eqn:E0.
    + eexists _, segs, (act ++ [e]). split; [reflexivity|]. split; [done|]. split; [|done]. intros f Hf. specialize (Hb' f Hf). lia.
    + destruct (nextSeq_spec d) as (Hn & _ & Hle). specialize (Hle k ltac:(lia) Hb').
      destruct (rotated o now d segs (act ++ [e]) H') as (ops & segs' & Hr & Hh & Hs); [unfold in_seq; lia|]. rewrite Hr. cbn [mbind outcome_bind obind].
      eexists _, segs', []. split; [reflexivity|]. split; [done|]. split; [|by rewrite Hs].
      cbn [streamState.files]. apply below_exec; [intros f Hf; specialize (Hb' f Hf); lia|]. eapply below_rotation; [done| |done|]; lia.
  - eexists _, segs, (act ++ [e]). split; [reflexivity|]. split; [done|]. split; [|done]. intros f Hf. specialize (Hb' f Hf). lia.
Qed.

(** ** Runs *)

Inductive event :=
| EAppend (drained : nat → nat → nat) (now : Z) (e : Entry.t)
| ERestart (now : Z)
| ESubscribe
| EUnsubscribe (id : nat).

Definition perform (o : Options.t) (ss : streamState.t) (ev : event) : outcome streamState.t :=
  match ev with
  | EAppend drained now e => appendTo o drained now [e] ss
  | ERestart now => open now (streamState.files ss)
  | ESubscribe => Ret (subscribe ss).1
  | EUnsubscribe id => Ret (unsubscribe id ss)
  end.

Definition promised (o : Options.t) (s : Spec.t) (ev : event) : Spec.t :=
  match ev with
  | EAppend _ now e => Spec.append o now [e] s
  | ERestart now => Spec.reopen now s
  | _ => s
  end.

Definition admissible (ev : event) : Prop := match ev with EAppend _ _ e => storable e | _ => True end.

(** A run that starts with a stream nobody wrote to. *)
Definition run (o : Options.t) (now : Z) (evs : list event) : outcome streamState.t := ss ← open now ∅; ofoldl (perform o) ss evs.

Definition run_spec (o : Options.t) (now : Z) (evs : list event) : Spec.t := foldl (promised o) (Spec.mk [] [] now) evs.

Lemma opened_open now d ss : open now d = Ret ss → streamState.opened ss = now.
Proof. unfold open. destruct (ofoldl _ _ _); [|done]. by intros [= <-]. Qed.

Lemma perform_promised o ss ev segs act k :
  Knows ss segs act → admissible ev → below k (streamState.files ss) → (0 ≤ k < 2 ^ 63)%Z →
  ∃ ss' segs' act', perform o ss ev = Ret ss' ∧ Knows ss' segs' act' ∧ below (k + 1) (streamState.files ss')
    ∧ promised o (Spec.mk segs.*2 act (streamState.opened ss)) ev = Spec.mk segs'.*2 act' (streamState.opened ss').
Proof.
  intros Hk He Hb Hr. assert (∀ d, below k d → below (k + 1) d) as Hmono by (intros d Hd f Hf; specialize (Hd f Hf); lia).
  destruct ev as [drained now e|now| |id]; cbn [perform promised].
  - by apply appendTo_one.
  - destruct (open_holds now _ _ _ (proj1 Hk)) as (ss' & Ho & Hk'). exists ss', segs, act. split; [done|]. split; [done|].
    split; [apply Hmono; by eapply below_open; [| |done]; [lia|]|]. unfold Spec.reopen. by rewrite (opened_open now _ ss' Ho).
  - eexists _, segs, act. split; [reflexivity|]. split; [done|]. split; [by apply Hmono|done].
  - eexists _, segs, act. split; [reflexivity|]. split; [done|]. split; [by apply Hmono|done].
Qed.

Lemma run_promised o evs ss segs act k :
  Knows ss segs act → Forall admissible evs → below k (streamState.files ss) → (0 ≤ k)%Z → (k + Z.of_nat (length evs) < 2 ^ 63)%Z →
  ∃ ss' segs' act', ofoldl (perform o) ss evs = Ret ss' ∧ Knows ss' segs' act'
    ∧ foldl (promised o) (Spec.mk segs.*2 act (streamState.opened ss)) evs = Spec.mk segs'.*2 act' (streamState.opened ss').
Proof.
  intros Hk Hevs. revert ss segs act k Hk. induction Hevs as [|ev evs He _ IH]; intros ss segs act k Hk Hb H0 Hlen; cbn [length] in Hlen.
  { exists ss, segs, act. done. }
  destruct (perform_promised o ss ev segs act k Hk He Hb ltac:(lia)) as (ss1 & segs1 & act1 & H1 & Hk1 & Hb1 & Hs1).
  destruct (IH ss1 segs1 act1 (k + 1)%Z Hk1 Hb1) as (ss2 & segs2 & act2 & H2 & Hk2 & Hs2); [lia|lia|].
  exists ss2, segs2, act2. rewrite ofoldl_cons, H1. split; [exact H2|]. split; [done|]. cbn [foldl]. rewrite Hs1. exact Hs2.
Qed.

Lemma fresh_stream now : ∃ ss, open now ∅ = Ret ss ∧ Knows ss [] [] ∧ below 0 (streamState.files ss) ∧ streamState.opened ss = now.
Proof.
  destruct (open_holds now ∅ [] None holds_empty) as (ss & Ho & Hk). exists ss. split; [done|]. split; [exact Hk|].
  split; [|by eapply opened_open]. eapply below_open; [| |done]; [done|]. intros f [x Hx]. by rewrite lookup_empty in Hx.
Qed.

(** C29: a stream refines a list of segments.  Whatever is appended, an entry at a time as
    the capture of logs does, of times that nanoseconds represent and sizes that the memory
    holds, whoever follows the stream, and however often the process restarts in good order,
    rotates its files and discards by age and size, it does not panic, and a query, of
    bounds that are open or represented in nanoseconds, with no rotation under way, answers the entries
    between its bounds of what the contract still holds: every entry, in the order in which
    they came, less the segments whose entries are all older than the retention and the
    oldest ones beyond the budget.  (Outside of these limits: a_slow_follower_panics for
    batches, a_far_bound_hides_segments, a_query_misses_a_rotation.) *)
Theorem stream_refines_segments (o : Options.t) (now : Z) (evs : list event) :
  Forall admissible evs → (Z.of_nat (length evs) < 2 ^ 62)%Z →
  ∃ ss, run o now evs = Ret ss ∧
    ∀ since until, bound since → bound until →
      read since until ss = Ret (Some (List.filter (keep since until) (Spec.entries (run_spec o now evs)))).
Proof.
  intros Hevs Hlen. destruct (fresh_stream now) as (ss0 & H0 & Hk0 & Hb0 & Hop). unfold run. rewrite H0. cbn [mbind outcome_bind obind].
  destruct (run_promised o evs ss0 [] [] 0 Hk0 Hevs Hb0) as (ss & segs & act & Hr & Hk & Hs); [done|lia|]. exists ss. split; [done|].
  intros since until Hsi Hun. unfold run_spec. rewrite Hop in Hs. cbn [fmap list_fmap] in Hs. rewrite Hs. unfold Spec.entries. cbn [Spec.closed Spec.active].
  destruct Hk as [Hh Hsz]. destruct ss as [d sz opn nid sub]. by apply read_holds.
Qed.

(** ** Crashes *)

(** What happens to a stream, with the entries that were written to it: a process may also die
    at any moment of a rotation, and start again on what it left. *)
Inductive step (o : Options.t) : streamState.t * list Entry.t → streamState.t * list Entry.t → Prop :=
| step_append drained now e ss ss' all : storable e → appendTo o drained now [e] ss = Ret ss' → step o (ss, all) (ss', all ++ [e])
| step_restart now ss ss' all : open now (streamState.files ss) = Ret ss' → step o (ss, all) (ss', all)
| step_crash now now' e ss d ops ss' all : storable e →
    let written := exec1 (streamState.files ss) (Extend activeSegmentName (appendRecord [] e)) in
    rotation o now written = Ret ops → crashed written ops d → open now' d = Ret ss' → step o (ss, all) (ss', all ++ [e])
| step_subscribe ss all : step o (ss, all) ((subscribe ss).1, all)
| step_unsubscribe id ss all : step o (ss, all) (unsubscribe id ss, all).

Definition sound (k : Z) (x : streamState.t * list Entry.t) : Prop :=
  below k (streamState.files x.1) ∧ ∃ segs act, Knows x.1 segs act ∧ concat segs.*2 ++ act = x.2.

Lemma retained_all o now segs : (Options.RetentionAge o ≤ 0)%Z → (Options.RetentionBytes o ≤ 0)%Z → Spec.retained o now segs = segs.
Proof.
  intros Ha Hb. unfold Spec.retained, Spec.aged. rewrite (proj2 (Z.ltb_ge _ _) Ha), (proj2 (Z.ltb_ge _ _) Hb). cbn [andb negb].
  induction segs as [|es segs IH]; [done|]. cbn. by rewrite IH.
Qed.

Lemma step_sound o k x y : (Options.RetentionAge o ≤ 0)%Z → (Options.RetentionBytes o ≤ 0)%Z → (0 ≤ k < 2 ^ 63)%Z → sound k x → step o x y → sound (k + 1) y.
Proof.
  intros Ha Hb Hk [Hbel (segs & act & Hkn & Hcat)] Hst. assert (∀ d, below k d → below (k + 1) d) as Hmono by (intros d Hd f Hf; specialize (Hd f Hf); lia).
  destruct Hst as [drained now e ss ss' all He Hap|now ss ss' all Ho|now now' e ss d ops ss' all He written Hr Hc Ho|ss all|id ss all]; cbn [fst snd] in *; subst all.
  - destruct (appendTo_one o drained now e ss segs act k Hkn He Hbel Hk) as (ss1 & segs1 & act1 & H1 & Hk1 & Hb1 & Hs1).
    rewrite Hap in H1. injection H1 as <-. split; [done|]. exists segs1, act1. split; [done|]. unfold Spec.append in Hs1. cbn [Spec.active Spec.closed] in Hs1.
    rewrite retained_all in Hs1 by done. destruct (_ || _); [destruct (_ =? 0)%Z|]; injection Hs1 as Hc Hd _; cbn [snd]; rewrite <- Hc, <- Hd; rewrite ?concat_app; cbn [concat]; by rewrite ?app_nil_r, ?app_assoc.
  - destruct (open_holds now _ _ _ (proj1 Hkn)) as (ss1 & H1 & Hk1). rewrite Ho in H1. injection H1 as <-. split; [apply Hmono; by eapply below_open; [| |done]; [lia|]|]. by exists segs, act.
  - destruct Hkn as [H Hsz]. pose proof (holds_extend _ _ _ [e] H ltac:(constructor; [done|constructor])) as H'.
    replace (encode [e]) with (appendRecord [] e) in H' by (unfold encode; cbn [mbind list_bind]; by rewrite app_nil_r). fold written in H'.
    assert (below k written) as Hbw.
    { apply (below_exec k _ [Extend activeSegmentName (appendRecord [] e)]); [done|]. constructor; [|constructor]. cbn [op_below]. rewrite seqFromName_active. lia. }
    destruct (nextSeq_spec written) as (Hn & _ & Hle). specialize (Hle k ltac:(lia) Hbw).
    destruct (crash_in_rotation o now now' written d segs (act ++ [e]) ops Ha Hb H') as (ss1 & segs1 & act1 & H1 & Hk1 & Hc1); [unfold in_seq; lia|done|done|].
    rewrite Ho in H1. injection H1 as <-. split; [|exists segs1, act1; split; [done|]; by rewrite Hc1, app_assoc].
    eapply below_open; [| |done]; [lia|]. eapply below_crashed; [by apply Hmono| |done]. eapply below_rotation; [done|lia|done|lia].
  - split; [by apply Hmono|]. by exists segs, act.
  - split; [by apply Hmono|]. by exists segs, act.
Qed.

Lemma nsteps_sound o n k x y : (Options.RetentionAge o ≤ 0)%Z → (Options.RetentionBytes o ≤ 0)%Z → (0 ≤ k)%Z → (k + Z.of_nat n < 2 ^ 63)%Z →
  nsteps (step o) n x y → sound k x → sound (k + Z.of_nat n) y.
Proof.
  intros Ha Hb H0 Hn Hst. revert k H0 Hn. induction Hst as [x|n x y z Hxy _ IH]; intros k H0 Hn Hs; [by rewrite Z.add_0_r|].
  replace (k + Z.of_nat (S n))%Z with (k + 1 + Z.of_nat n)%Z by lia. apply IH; [lia|lia|]. eapply step_sound; [done..| |exact Hs|exact Hxy]. lia.
Qed.

(** A write that was cut off is ignored, as long as nothing follows it. *)
Lemma torn_write_is_ignored d segs act entries p since until size now next subs :
  Holds d segs (Some act) → Forall storable entries → p `prefix_of` encode entries → bound since → bound until →
  (size = Z.of_nat (length (encode act ++ p))) →
  ∃ k, read since until (streamState.mk (exec1 d (Extend activeSegmentName p)) size now next subs)
    = Ret (Some (List.filter (keep since until) (concat segs.*2 ++ act ++ take k entries))).
Proof.
  intros H He Hp Hsi Hun ->. destruct (scan_prefix entries p He Hp) as [k Hk]. exists k.
  pose proof (h_storable_act _ _ _ H) as Ha. cbn [default from_option id] in Ha.
  assert (∀ n e, exec1 d (Extend activeSegmentName p) !! segFile n e = d !! segFile n e) as Hne by (intros n e; cbn [exec1]; rewrite lookup_insert_ne; [done|names]).
  assert (listSegments (exec1 d (Extend activeSegmentName p)) = segs.*1) as Hl.
  { rewrite <- (listSegments_holds d segs (Some act)) by done. unfold listSegments. apply sort_slice_unique.
    - intros x y E. apply Z.ltb_lt in E. apply Z.ltb_ge. lia.
    - unfold not_less. intros x y z E1%Z.ltb_ge E2%Z.ltb_ge. apply Z.ltb_ge. lia.
    - assert (ReadDir (exec1 d (Extend activeSegmentName p)) ≡ₚ ReadDir d) as ->; [|done]. apply NoDup_Permutation; [apply NoDup_ReadDir..|].
      intros f. rewrite !elem_of_ReadDir. cbn [exec1]. destruct (decide (f = activeSegmentName)) as [->|Hf]; [|by rewrite lookup_insert_ne].
      rewrite lookup_insert_eq, (h_act _ _ _ H). split; intros _; by eexists.
    - unfold not_less. intros x y _ _ E1%Z.ltb_ge E2%Z.ltb_ge. lia. }
  unfold read, read_of. cbn [streamState.size streamState.files]. rewrite Hl, (read_segments_holds since until _ segs); [|done..|].
  - cbn [mbind outcome_bind obind]. unfold read_active. cbn [exec1]. rewrite lookup_insert_eq, (h_act _ _ _ H). cbn [fmap option_fmap option_map default from_option id].
    rewrite Nat2Z.id, firstn_all, scan_encode, Hk by done. cbn [mbind outcome_bind obind]. by rewrite ?List.filter_app.
  - intros n es Hin. rewrite !Hne. split; [by apply (h_zst _ _ _ H)|]. split; [by apply (h_idx _ _ _ H)|]. by eapply h_storable_seg.
Qed.

(** A process that starts on a directory whose active segment ends in a part of a record. *)
Lemma open_torn now d segs act e p since until :
  Holds d segs (Some act) → storable e → p `prefix_of` appendRecord [] e → bound since → bound until →
  ∃ ss tail, open now (exec1 d (Extend activeSegmentName p)) = Ret ss ∧ (tail = [] ∨ tail = [e])
    ∧ read since until ss = Ret (Some (List.filter (keep since until) ((concat segs.*2 ++ act) ++ tail))).
Proof.
  intros H He Hp Hsi Hun. set (d1 := exec1 d (Extend activeSegmentName p)).
  assert (ofoldl recover1 d1 (ReadDir d1) = Ret d1) as Hrec.
  { assert (∀ f, f ∈ ReadDir d1 → recover1 d1 f = Ret d1) as Hr.
    { intros f Hf%elem_of_ReadDir. assert (f = activeSegmentName ∨ is_Some (d !! f)) as [->|Hf'].
      { unfold d1 in Hf. cbn [exec1] in Hf. destruct (decide (f = activeSegmentName)) as [?|Hne]; [by left|]. right. by rewrite lookup_insert_ne in Hf. }
      - reflexivity.
      - destruct (h_names _ _ _ H f Hf') as [->|(n & Hn & [->|[-> _]])]; [reflexivity|apply recover1_kept; auto..]. }
    induction (ReadDir d1) as [|f l IH]; [done|]. rewrite ofoldl_cons, (Hr f) by left. apply IH. intros g Hg. apply Hr. by right. }
  unfold open. rewrite Hrec. cbn [mbind outcome_bind obind].
  assert (exec1 d1 (Extend activeSegmentName []) = d1) as ->.
  { unfold d1. cbn [exec1]. by rewrite lookup_insert_eq, app_nil_r, insert_insert_eq. }
  assert (encode [e] = appendRecord [] e) as Hee by (unfold encode; cbn [mbind list_bind]; by rewrite app_nil_r).
  destruct (torn_write_is_ignored d segs act [e] p since until (Z.of_nat (length (default [] (d1 !! activeSegmentName)))) now 0 ∅)
    as [k Hk]; [done|constructor; [done|constructor]|by rewrite Hee|done..| |].
  { unfold d1. cbn [exec1]. by rewrite lookup_insert_eq, (h_act _ _ _ H). }
  eexists _, (take k [e]). split; [reflexivity|]. split; [destruct k; [by left|right; by destruct k]|]. rewrite <- app_assoc. exact Hk.
Qed.

(** C26: crashes lose nothing that was written.  Of a stream for which no retention is
    configured, to which entries are appended one at a time (of times that nanoseconds
    represent and sizes that the memory holds), while processes restart, also after they died at any moment of a
    rotation, between two calls of the system or in the middle of a write: a query of bounds
    that are open or represented in nanoseconds answers exactly the entries that were
    written, once and in their order; the stream opens again, and takes the next entry
    without a panic.  And if the process dies in the middle of writing one more entry, the
    stream opens again and answers all the others, and that one or not.  (After such an
    append the next one is lost or worse: an_append_after_a_torn_write_is_lost.  What
    retention discards is the subject of stream_refines_segments.) *)
Theorem crashes_lose_nothing (o : Options.t) (now0 : Z) (n : nat) (ss0 ss : streamState.t) (all : list Entry.t) (since until : Z) :
  (Options.RetentionAge o ≤ 0)%Z → (Options.RetentionBytes o ≤ 0)%Z → (Z.of_nat n < 2 ^ 62)%Z →
  open now0 ∅ = Ret ss0 → nsteps (step o) n (ss0, []) (ss, all) → bound since → bound until →
  read since until ss = Ret (Some (List.filter (keep since until) all))
  ∧ (∀ now, ∃ ss', open now (streamState.files ss) = Ret ss')
  ∧ (∀ drained now e, storable e → ∃ ss', appendTo o drained now [e] ss = Ret ss')
  ∧ ∀ now e p, storable e → p `prefix_of` appendRecord [] e →
      ∃ ss' tail, open now (exec1 (streamState.files ss) (Extend activeSegmentName p)) = Ret ss' ∧ (tail = [] ∨ tail = [e])
        ∧ read since until ss' = Ret (Some (List.filter (keep since until) (all ++ tail))).
Proof.
  intros Ha Hb Hn H0 Hst Hsi Hun. destruct (fresh_stream now0) as (ss1 & H1 & Hk1 & Hb1 & _). rewrite H0 in H1. injection H1 as <-.
  destruct (nsteps_sound o n 0 _ _ Ha Hb ltac:(lia) ltac:(lia) Hst) as [Hbel (segs & act & Hk & Hall)].
  { split; [done|]. by exists [], []. }
  cbn [fst snd] in *. subst all. split_and!.
  - destruct Hk as [Hh Hsz]. destruct ss as [d sz opn nid sub]. by apply read_holds.
  - intros now. destruct (open_holds now _ _ _ (proj1 Hk)) as (ss' & Ho & _). by exists ss'.
  - intros drained now e He. destruct (appendTo_one o drained now e ss segs act _ Hk He Hbel) as (ss' & _ & _ & H & _); [lia|]. by exists ss'.
  - intros now e p He Hp. apply open_torn; [apply Hk|done..].
Qed.

End store.

(** * Queries *)

Lemma sort_slice_in_order (l : list Entry.t) :
  StronglySorted (λ a b, (Entry.Time a ≤ Entry.Time b)%Z) l → sort_slice (λ a b, (Entry.Time a <? Entry.Time b)%Z) l = l.
Proof.
  induction 1 as [|x l Hl IH Hx]; [done|]. cbn [sort_slice foldr]. unfold sort_slice in IH. rewrite IH. destruct l as [|y l]; [done|].
  cbn [insert_slice]. apply Forall_cons in Hx as [Hx _]. by rewrite (proj2 (Z.ltb_ge _ _)) by lia.
Qed.

(** Of entries in the order of their times, the newest ones are answered. *)
Lemma newest_in_order limit (l : list Entry.t) :
  (0 ≤ limit)%Z → StronglySorted (λ a b, (Entry.Time a ≤ Entry.Time b)%Z) l →
  Segmented.newest limit l = Ret (drop (length l - Z.to_nat limit) l).
Proof.
  intros Hl Hs. unfold Segmented.newest. rewrite sort_slice_in_order by done. destruct (Z.ltb_spec limit (Z.of_nat (length l))).
  - rewrite (proj2 (Z.ltb_ge _ _)) by lia. by rewrite Z2Nat.inj_sub, Nat2Z.id by lia.
  - by replace (length l - Z.to_nat limit) with 0 by lia.
Qed.

(** * Sizes that overflow, ends that are cut off: concrete runs *)

Definition plain_zstd : ZstdLib := {| zstd_Write := id; zstd_Read := id |}.

Lemma plain_zstd_ok : @ZstdLibOk plain_zstd.
Proof. done. Qed.

Section runs.
Import Segmented.
#[local] Existing Instances plain_zstd plain_zstd_ok.

Definition small : Options.t := Options.mk 30 (3600 * 10 ^ 9) 0 0.
Definition roomy : Options.t := defaulted (Options.mk 0 0 0 0).
Definition line (t : Z) (s : string) : Entry.t := Entry.mk t false s.
Definition nobody : nat → nat → nat := λ _ _, 0.
Definition blank : streamState.t := streamState.mk ∅ 0 0 0 ∅.
Definition result {A} (d : A) (m : outcome A) : A := match m with Ret a => a | Panic => d end.

(** A process died after the length of a record was written.  What is appended to the file
    afterwards is read as the rest of that record: the entry is lost, and the reading goes on
    in the middle of it. *)
Definition torn : dir := {[activeSegmentName := encode [line 1 "a"] ++ [ascii_of_nat 10]]}.

Lemma an_append_after_a_torn_write_is_lost :
  (ss ← open 0 torn; ss ← appendTo roomy nobody 0 [line 2 "hello"] ss; read zeroTime zeroTime ss)
  = Ret (Some [line 1 "a"; Entry.mk 526 false (String (ascii_of_nat 0) "")]).
Proof. vm_compute. reflexivity. Qed.

(** There, eight bytes above ASCII are taken for the length of a record, and every query and
    the next rotation of the stream bring the process down. *)
Lemma an_append_after_a_torn_write_panics :
  (ss ← open 0 torn; ss ← appendTo roomy nobody 0 [line 2 "Тест ok"] ss; read zeroTime zeroTime ss) = Panic.
Proof. vm_compute. reflexivity. Qed.

(** The goroutine that appends sends on a channel it has just closed, when a batch has more
    entries than the channel of a slow follower has room. *)
Lemma a_slow_follower_panics (e : Entry.t) :
  notify (λ _, 0) 0 (Some (repeat e subscriberBuffer)) [e; e] = Panic.
Proof. reflexivity. Qed.

(** A query looks for closed segments in one directory and for the active one in a later: a
    rotation between the two hides all of its entries. *)
Definition before : streamState.t := result blank (ss ← open 0 ∅; appendTo roomy nobody 0 [line 1 "a"] ss).
Definition after : streamState.t := result blank (rotate roomy 0 before).

Lemma a_query_misses_a_rotation :
  read zeroTime zeroTime before = Ret (Some [line 1 "a"]) ∧ read zeroTime zeroTime after = Ret (Some [line 1 "a"])
  ∧ read_of zeroTime zeroTime (streamState.size before) (streamState.files before) (streamState.files after) = Ret (Some []).
Proof. vm_compute. repeat split; reflexivity. Qed.

(** A bound beyond the year 2262 wraps around in nanoseconds, and hides the closed segments. *)
Lemma a_far_bound_hides_segments :
  read zeroTime (10413792000 * 10 ^ 9) before = Ret (Some [line 1 "a"]) ∧ read zeroTime (10413792000 * 10 ^ 9) after = Ret (Some []).
Proof. vm_compute. split; reflexivity. Qed.

(** Two streams whose names differ in characters that are replaced share a directory. *)
Example streams_share_a_directory : sanitizeStream "instance/a" = sanitizeStream "instance_a" ∧ sanitizeStream "é日" = "__" ∧ sanitizeStream "" = "_".
Proof. vm_compute. repeat split; reflexivity. Qed.

(** * Witnesses *)

Definition log : list event :=
  [EAppend nobody 0 (line 1 "a"); ESubscribe; EAppend nobody 0 (line 2 "b"); EAppend nobody 0 (line 3 "c"); ERestart 5; EAppend nobody 6 (line 4 "d")].

Lemma stream_refines_segments_witness :
  ∃ ss, run small 0 log = Ret ss ∧ read 2 zeroTime ss = Ret (Some [line 2 "b"; line 3 "c"; line 4 "d"]).
Proof.
  destruct (stream_refines_segments small 0 log) as (ss & Hr & Hq).
  - repeat (constructor; [first [exact I|split; [split; [discriminate|reflexivity]|discriminate]]|]). constructor.
  - reflexivity.
  - exists ss. split; [exact Hr|]. rewrite Hq; [vm_compute; reflexivity|right; split; [discriminate|reflexivity]|left; reflexivity].
Defined.

Definition w0 : streamState.t := result blank (open 0 ∅).
Definition w1 : streamState.t := result blank (appendTo small nobody 0 [line 1 "a"] w0).
Definition written2 : dir := exec1 (streamState.files w1) (Extend activeSegmentName (appendRecord [] (line 2 "b"))).
Definition ops2 : list fsop := result [] (rotation small 0 written2).
Definition torn2 : dir := <[segFile 0 ".zst.tmp" := take 5 (encode [line 1 "a"; line 2 "b"])]> (exec written2 (take 2 ops2)).
Definition w2 : streamState.t := result blank (open 9 torn2).

Lemma run_crashes : nsteps (step small) 2 (w0, []) (w2, [] ++ [line 1 "a"] ++ [line 2 "b"]).
Proof.
  apply nsteps_l with (y := (w1, [] ++ [line 1 "a"])).
  - apply (step_append small nobody 0); [split; [split; [discriminate|reflexivity]|discriminate]|vm_compute; reflexivity].
  - apply nsteps_once. apply (step_crash small 0 9 (line 2 "b") w1 torn2 ops2 w2); [split; [split; [discriminate|reflexivity]|discriminate]|vm_compute; reflexivity| |vm_compute; reflexivity].
    apply (crashed_writing written2 ops2 2 (segFile 0 ".zst.tmp") (encode [line 1 "a"; line 2 "b"])); [vm_compute; reflexivity|].
    exists (drop 5 (encode [line 1 "a"; line 2 "b"])). vm_compute. reflexivity.
Qed.

Lemma crashes_lose_nothing_witness : read zeroTime zeroTime w2 = Ret (Some [line 1 "a"; line 2 "b"]).
Proof.
  destruct (crashes_lose_nothing small 0 2 w0 w2 ([] ++ [line 1 "a"] ++ [line 2 "b"]) zeroTime zeroTime) as (H & _).
  - discriminate.
  - discriminate.
  - reflexivity.
  - vm_compute. reflexivity.
  - exact run_crashes.
  - left. reflexivity.
  - left. reflexivity.
  - rewrite H. reflexivity.
Defined.

End runs.
