(* ===== verification/Notify.v ===== *)
(** The alert engine of the leader (internal/daemon/notify/engine.go and notify.go), the
    metrics it reads (notifywiring.go) and the wrapper that runs a loop while a node leads
    (internal/daemon/leaderrunner).

    The engine is passed along; a pass is a program that reads the state and the live samples,
    delivers notifications and, when a channel fails, proposes an event.  What a channel answers
    is a parameter ([Senders]), as are fmt's %.1f and %q.  The pass also returns a record of what
    it evaluated and delivered. *)
From S2P Require Import Prelude Api Watch State Platform Net F64 Fsm Leader Cron Live.
From Stdlib Require Import Ascii SpecFloat.

Module Notification.
Record t := mk {
  Rule : string; Firing : bool; Severity : string; Scope : string; Summary : string; At : Z;
  Metric : string; Value : f64; Threshold : f64; Op : string;
  EventKind : string
}.
End Notification.

(** math.Float64frombits. *)
Definition Float64frombits (w : Z) : f64 :=
  let s := Z.testbit w 63 in
  let e := (Z.shiftr w 52 mod 2048)%Z in
  let m := (w mod 2 ^ 52)%Z in
  if (e =? 2047)%Z then (if (m =? 0)%Z then S754_infinity s else S754_nan)
  else if (e =? 0)%Z then match m with Zpos p => S754_finite s p (-1074) | _ => S754_zero s end
  else S754_finite s (Z.to_pos (m + 2 ^ 52)) (e - 1075).

Example bits_of_90 : Float64frombits 0x4056800000000000 = F64.ofZ 90.
Proof. vm_compute. reflexivity. Qed.

(** What a channel answers to a delivery, at some interaction: [None], or the text of an error;
    the formats of fmt. *)
Class Senders := send : nat → option NotificationChannel.t → Notification.t → option string.
Class Formats := { Sprintf_1f : f64 → string; Sprintf_q : string → string }.
Class LiveSamples := live_Samples : nat → list Live.NodeState.t.

(** * The metrics (notifywiring.go) *)

Module Metrics.

Definition pct (used total : Z) : option f64 :=
  if (total =? 0)%Z then None else Some (F64.mul (F64.div (F64.ofZ used) (F64.ofZ total)) (F64.ofZ 100)).

Definition nodeSampleMetric (hb : Heartbeat.t) (metric : string) : option f64 :=
  if metric =? "cpu_percent" then Some (Heartbeat.CpuPercent hb)
  else if metric =? "memory_percent" then pct (Heartbeat.MemoryUsedBytes hb) (Heartbeat.MemoryTotalBytes hb)
  else if metric =? "disk_percent" then pct (Heartbeat.DiskUsedBytes hb) (Heartbeat.DiskTotalBytes hb)
  else None.

Fixpoint nodeMetric (metric nodeID : string) (live : list Live.NodeState.t) : option f64 :=
  match live with
  | [] => None
  | ns :: live =>
    match Live.NodeState.Heartbeat ns with
    | Some hb => if Live.NodeState.NodeID ns =? nodeID then nodeSampleMetric hb metric else nodeMetric metric nodeID live
    | None => nodeMetric metric nodeID live
    end
  end.

(** One sample of the proxies, folded in; [None] for a metric they do not have. *)
Definition proxyMetric (metric : string) (val : f64) (ps : ProxySample.t) : option f64 :=
  let worst x := if F64.ltb val x then x else val in
  if metric =? "error_rate" then Some (worst (ProxySample.ErrorRate ps))
  else if metric =? "rps" then Some (F64.add val (ProxySample.Rps ps))
  else if metric =? "inflight" then Some (F64.add val (F64.ofZ (ProxySample.Inflight ps)))
  else if metric =? "latency_p99_ms" then Some (worst (ProxySample.LatencyP99Ms ps))
  else None.

Fixpoint envMetric_from (metric envID : string) (acc : f64 * bool) (live : list Live.NodeState.t) : option f64 :=
  match live with
  | [] => if acc.2 then Some acc.1 else None
  | ns :: live =>
    match hb ← Live.NodeState.Heartbeat ns; Heartbeat.Proxy hb !! envID with
    | None => envMetric_from metric envID acc live
    | Some ps => match proxyMetric metric acc.1 ps with None => None | Some v => envMetric_from metric envID (v, true) live end
    end
  end.

Definition envMetric (metric envID : string) (live : list Live.NodeState.t) : option f64 := envMetric_from metric envID (F64.zero_, false) live.

Definition clusterMetric (metric : string) (live : list Live.NodeState.t) : option f64 :=
  let vs := omap (λ ns, hb ← Live.NodeState.Heartbeat ns; nodeSampleMetric hb metric) live in
  match vs with
  | [] => None
  | _ =>
    if metric =? "disk_percent" then Some (foldl (λ m v, if F64.ltb m v then v else m) F64.zero_ vs)
    else Some (F64.div (foldl F64.add F64.zero_ vs) (F64.ofZ (Z.of_nat (length vs))))
  end.

Definition parseScope (scope : string) : string * string :=
  match IndexByte scope ":" with
  | Some i => (String.substring 0 i scope, String.substring (S i) (String.length scope - S i) scope)
  | None => (scope, "")
  end.

Definition Value (metric scope : string) (live : list Live.NodeState.t) : option f64 :=
  let '(kind, id) := parseScope scope in
  if kind =? "node" then nodeMetric metric id live
  else if kind =? "env" then envMetric metric id live
  else clusterMetric metric live.

End Metrics.

(** * The engine *)

Definition dedupeWindow : Z := (15 * 60 * 10 ^ 9)%Z.
Definition eventScan : Z := 500.

Definition compare (value : f64) (op : string) (threshold : f64) : bool :=
  if op =? ">" then F64.ltb threshold value
  else if op =? ">=" then F64.leb threshold value
  else if op =? "<" then F64.ltb value threshold
  else if op =? "<=" then F64.leb value threshold
  else false.

Module Engine.
Record t := mk { since : gmap string Z; firing : gmap string Z; seen : gset string }.
End Engine.

(** What a notification is about: a metric rule, by its key, or an event. *)
Inductive subject := RuleKey (key : string) | EventId (id : string).

(** The record of a pass: that the rule of a key was evaluated at some time, with the duration
    its condition must hold and whether it held, and what came of it ([Some true] a firing,
    [Some false] a recovery); that it had no data; that a notification went to a channel, for a rule or an event. *)
Inductive entry :=
| Evaluated (key : string) (now sustained : Z) (cond : bool) (verdict : option bool)
| NoData (key : string)
| Delivered (about : subject) (channel : string) (n : Notification.t) (err : option string).

Section engine.
Context {RO : RangeOrder} {TL : TimestampLib} {E : Env} {SD : Senders} {FM : Formats} {LS : LiveSamples}.

Definition zeroT (o : option Z) : Z := default zero_time o.

(** evalMetric, up to the delivery: the maps and what the rule decided. *)
Definition judge (key : string) (now sustained : Z) (cond : bool) (e : Engine.t) : Engine.t * option bool :=
  let '(Engine.mk since firing seen) := e in
  if cond then
    let since := if (zeroT (since !! key) =? zero_time)%Z then <[key := now]> since else since in
    if (now - zeroT (since !! key) <? sustained)%Z then (Engine.mk since firing seen, None)
    else match firing !! key with
    | Some last =>
      if (now - last <? dedupeWindow)%Z then (Engine.mk since firing seen, None)
      else (Engine.mk since (<[key := now]> firing) seen, Some true)
    | None => (Engine.mk since (<[key := now]> firing) seen, Some true)
    end
  else
    (Engine.mk (delete key since) (delete key firing) seen, match firing !! key with Some _ => Some false | None => None end).

Definition severityFor (mc : option MetricCondition.t) : string :=
  if mc ⇝ MetricCondition.Metric =? "error_rate" then "error" else "warning".

Definition eventScope (ev : option Event.t) : string :=
  if negb (ev ⇝ Event.NodeId =? "") then "node:" +:+ ev ⇝ Event.NodeId
  else if negb (ev ⇝ Event.EnvironmentId =? "") then "env:" +:+ ev ⇝ Event.EnvironmentId
  else "cluster".

Definition indexChannels (chs : list (option NotificationChannel.t)) : gmap string (option NotificationChannel.t) :=
  foldl (λ m c, <[GetId c := c]> m) ∅ chs.

(** raftEventEmitter of "system:alerts". *)
Definition emitEvent (kind severity message : string) : M () :=
  id ← New;
  now ← Now;
  ignore (Apply "system:alerts" (Command_AppendEvents (Some (AppendEvents.mk [Some
    (Event.mk (Some (Meta.mk id (Some (timestamppb_New now)) None)) kind severity "" "" "" "" message ∅)])))).

Definition notify_failed : string := "alert.notify_failed".

Fixpoint deliver (about : subject) (r : option AlertRule.t) (channels : gmap string (option NotificationChannel.t)) (n : Notification.t) (cids : list string) : M (list entry) :=
  match cids with
  | [] => mret []
  | cid :: cids =>
    match channels !! cid with
    | None => deliver about r channels n cids
    | Some ch =>
      err ← tick_ (λ t, send t ch n);
      match err with
      | None => mret ()
      | Some err => emitEvent notify_failed "warning" ("channel " +:+ Sprintf_q (ch ⇝ NotificationChannel.Name) +:+ " (" +:+ ch ⇝ NotificationChannel.Type_
          +:+ ") failed for rule " +:+ Sprintf_q (r ⇝ AlertRule.Name) +:+ ": " +:+ err)
      end;;
      rest ← deliver about r channels n cids;
      mret (Delivered about cid n err :: rest)
    end
  end.

Definition metricKey (r : option AlertRule.t) (mc : option MetricCondition.t) : string := GetId r +:+ "|" +:+ mc ⇝ MetricCondition.Scope.

Definition evalMetric (r : option AlertRule.t) (mc : option MetricCondition.t) (channels : gmap string (option NotificationChannel.t)) (now : Z) (e : Engine.t)
    : M (Engine.t * list entry) :=
  let key := metricKey r mc in
  let metric := mc ⇝ MetricCondition.Metric in
  let scope := mc ⇝ MetricCondition.Scope in
  let op := mc ⇝ MetricCondition.Op in
  let threshold := Float64frombits (mc ⇝ MetricCondition.Threshold) in
  v ← tick_ (λ t, Metrics.Value metric scope (live_Samples t));
  match v with
  | None => mret (e, [NoData key])
  | Some v =>
    let sustained := AsDuration (mc ⇝ MetricCondition.Sustained) in
    let cond := compare v op threshold in
    let '(e, verdict) := judge key now sustained cond e in
    sent ← match verdict with
    | Some true => deliver (RuleKey key) r channels (Notification.mk (r ⇝ AlertRule.Name) true (severityFor mc) scope
        (metric +:+ " is " +:+ Sprintf_1f v +:+ " (" +:+ op +:+ " " +:+ Sprintf_1f threshold +:+ ") for " +:+ scope) now metric v threshold op "")
        (r ⇝ AlertRule.ChannelIds)
    | Some false => deliver (RuleKey key) r channels (Notification.mk (r ⇝ AlertRule.Name) false "info" scope
        (metric +:+ " recovered: " +:+ Sprintf_1f v) now metric v threshold op "") (r ⇝ AlertRule.ChannelIds)
    | None => mret []
    end;
    mret (e, Evaluated key now sustained cond verdict :: sent)
  end.

(** The loop of Tick over the rules. *)
Fixpoint evalMetrics (rules : list (option AlertRule.t)) (channels : gmap string (option NotificationChannel.t)) (now : Z) (e : Engine.t) : M (Engine.t * list entry) :=
  match rules with
  | [] => mret (e, [])
  | r :: rules =>
    let mc := r ⇝ AlertRule.Metric in
    '(e, log) ← (if r ⇝ AlertRule.Disabled || (mc ⇝ MetricCondition.Metric =? "") then mret (e, []) else evalMetric r mc channels now e);
    '(e, rest) ← evalMetrics rules channels now e;
    mret (e, log ++ rest)
  end.

Definition matches (ev : option Event.t) (r : option AlertRule.t) : bool :=
  negb (r ⇝ AlertRule.Disabled || (r ⇝ AlertRule.EventKind =? "") || negb (r ⇝ AlertRule.EventKind =? ev ⇝ Event.Kind)).

Definition event_notification (ev : option Event.t) (now : Z) (r : option AlertRule.t) : Notification.t :=
  let sev := if ev ⇝ Event.Severity =? "" then "warning" else ev ⇝ Event.Severity in
  Notification.mk (r ⇝ AlertRule.Name) true sev (eventScope ev) (ev ⇝ Event.Message) now "" F64.zero_ F64.zero_ "" (ev ⇝ Event.Kind).

Fixpoint alert_rules (ev : option Event.t) (rules : list (option AlertRule.t)) (channels : gmap string (option NotificationChannel.t)) (now : Z) : M (list entry) :=
  match rules with
  | [] => mret []
  | r :: rules =>
    log ← (if matches ev r then deliver (EventId (GetId ev)) r channels (event_notification ev now r) (r ⇝ AlertRule.ChannelIds) else mret []);
    rest ← alert_rules ev rules channels now;
    mret (log ++ rest)
  end.

Fixpoint evalEvents (evs : list (option Event.t)) (rules : list (option AlertRule.t)) (channels : gmap string (option NotificationChannel.t)) (now : Z) (e : Engine.t)
    : M (Engine.t * list entry) :=
  match evs with
  | [] => mret (e, [])
  | ev :: evs =>
    if bool_decide (GetId ev ∈ Engine.seen e) then evalEvents evs rules channels now e
    else
      let e := Engine.mk (Engine.since e) (Engine.firing e) ({[GetId ev]} ∪ Engine.seen e) in
      log ← alert_rules ev rules channels now;
      '(e, rest) ← evalEvents evs rules channels now e;
      mret (e, log ++ rest)
  end.

Definition Reset : M Engine.t :=
  st ← Leader.read;
  mret (Engine.mk ∅ ∅ (list_to_set ((λ ev, GetId ev) <$> Store.ListEvents eventScan st))).

Definition Tick (e : Engine.t) : M (Engine.t * list entry) :=
  now ← Now;
  st ← Leader.read;
  let rules := Store.ListAlertRules st in
  let channels := indexChannels (Store.ListNotificationChannels st) in
  '(e, log) ← evalMetrics rules channels now e;
  st ← Leader.read;
  '(e, rest) ← evalEvents (Store.ListEvents eventScan st) rules channels now e;
  mret (e, log ++ rest).

(** The loop of runAlertEngine, for [n] ticks. *)
Fixpoint ticks (n : nat) (e : Engine.t) : M (Engine.t * list (list entry)) :=
  match n with
  | 0 => mret (e, [])
  | S n =>
    '(e, log) ← Tick e;
    '(e, logs) ← ticks n e;
    mret (e, log :: logs)
  end.

(** One run of the loop, from when the runner starts it to when it ends; Reset is at its
    start.  A run begins in a term of the leader and may outlive it ([LeaderRunner]). *)
Definition runAlertEngine (n : nat) : M (list (list entry)) :=
  e ← Reset;
  '(_, logs) ← ticks n e;
  mret logs.

End engine.

(** * Leadership (leaderrunner.go)

    The loops of a node wait on one channel of raft, which holds the last change of
    leadership until somebody takes it. *)

Module LeaderRunner.

Inductive loop := Waiting | Running (start : nat).

(** Whether the node leads, in which of its terms, the channel, and the loops. *)
Record t := mk { leads : bool; term_ : nat; ch : option bool; loops : gmap nat loop }.

(** Run takes a signal or a tick of its clock while it waits, and starts the loop if the node
    leads; a running loop that takes a signal returns if the node does not lead, and most
    loops also when a pass or a proposal meets a node that does not lead. *)
Inductive step : t → t → Prop :=
| elected s : leads s = false → step s (mk true (S (term_ s)) (Some true) (loops s))
| deposed s : leads s = true → step s (mk false (term_ s) (Some false) (loops s))
| wait_signal s i b : loops s !! i = Some Waiting → ch s = Some b →
    step s (mk (leads s) (term_ s) None (<[i := if leads s then Running (term_ s) else Waiting]> (loops s)))
| wait_tick s i : loops s !! i = Some Waiting →
    step s (mk (leads s) (term_ s) (ch s) (<[i := if leads s then Running (term_ s) else Waiting]> (loops s)))
| run_signal s i k b : loops s !! i = Some (Running k) → ch s = Some b →
    step s (mk (leads s) (term_ s) None (<[i := if leads s then Running k else Waiting]> (loops s)))
| run_fails s i k : loops s !! i = Some (Running k) → leads s = false →
    step s (mk (leads s) (term_ s) (ch s) (<[i := Waiting]> (loops s))).

End LeaderRunner.
