(* ===== verification/NotifyProps.v ===== *)
(** When the alert engine of Notify.v notifies. *)
From stdpp Require Import pretty.
From S2P Require Import Prelude Api Watch State Platform Net F64 StateInv Fsm Samples Leader Cron Live Notify.

(** * One alarm

    What the engine does for one rule and scope, over the passes that had a value. *)

Module sample.
Record t := mk { now : Z; sustained : Z; cond : bool; verdict : option bool }.
End sample.

(** Since when the condition holds, and when a firing was last notified. *)
Module Alarm.
Record t := mk { since : option Z; firing : option Z }.

Definition off : t := mk None None.

Definition next (x : sample.t) (a : t) : t * option bool :=
  if sample.cond x then
    let s := default (sample.now x) (since a) in
    if (sample.now x - s <? sample.sustained x)%Z then (mk (Some s) (firing a), None)
    else match firing a with
    | Some last => if (sample.now x - last <? dedupeWindow)%Z then (mk (Some s) (firing a), None) else (mk (Some s) (Some (sample.now x)), Some true)
    | None => (mk (Some s) (Some (sample.now x)), Some true)
    end
  else (off, match firing a with Some _ => Some false | None => None end).

(** The state after a history, and whether its verdicts are the alarm's. *)
Definition after (h : list sample.t) : t := foldl (λ a x, (next x a).1) off h.

Definition follows (h : list sample.t) : Prop := ∀ i x, h !! i = Some x → sample.verdict x = (next x (after (take i h))).2.
End Alarm.

Lemma after_snoc h x : Alarm.after (h ++ [x]) = (Alarm.next x (Alarm.after h)).1.
Proof. unfold Alarm.after. by rewrite foldl_app. Qed.

Lemma follows_snoc h x : Alarm.follows h → sample.verdict x = (Alarm.next x (Alarm.after h)).2 → Alarm.follows (h ++ [x]).
Proof.
  intros Hh Hx i y Hy. apply lookup_app_Some in Hy as [Hy|[Hi Hy]].
  - rewrite take_app_le by (apply lookup_lt_Some in Hy; lia). by apply Hh.
  - destruct (i - length h) as [|k] eqn:Ek; [|discriminate Hy]. cbn in Hy. injection Hy as <-.
    replace i with (length h) by lia. by rewrite take_app_length.
Qed.

Definition fired (h : list sample.t) (i : nat) : Prop := ∃ x, h !! i = Some x ∧ sample.verdict x = Some true.
Definition holds_from (h : list sample.t) (j i : nat) : Prop := ∀ m x, j ≤ m ≤ i → h !! m = Some x → sample.cond x = true.
(** The condition began to hold at [j]. *)
Definition began (h : list sample.t) (j : nat) : Prop := ∀ x, j ≠ 0 → h !! (j - 1) = Some x → sample.cond x = false.

(** What the state says of the history. *)
Record remembers (h : list sample.t) (a : Alarm.t) : Prop := {
  r_since s : Alarm.since a = Some s → ∃ j x, h !! j = Some x ∧ sample.now x = s ∧ holds_from h j (length h - 1) ∧ began h j;
  r_none : Alarm.since a = None → ∀ x, last h = Some x → sample.cond x = false;
  r_firing t : Alarm.firing a = Some t → ∃ j x, h !! j = Some x ∧ sample.now x = t ∧ fired h j ∧ holds_from h j (length h - 1);
  r_quiet j : Alarm.firing a = None → fired h j → ¬ holds_from h j (length h - 1);
  r_last t j : Alarm.firing a = Some t → fired h j → holds_from h j (length h - 1) → ∃ k x, j ≤ k ∧ h !! k = Some x ∧ sample.now x = t ∧ fired h k;
  r_off : Alarm.since a = None → Alarm.firing a = None }.

Lemma next_cases x a : let '(a', v) := Alarm.next x a in
  (sample.cond x = false ∧ a' = Alarm.off ∧ v = match Alarm.firing a with Some _ => Some false | None => None end)
  ∨ (sample.cond x = true ∧ Alarm.since a' = Some (default (sample.now x) (Alarm.since a))
     ∧ (v = None ∧ Alarm.firing a' = Alarm.firing a
        ∧ ((sample.now x - default (sample.now x) (Alarm.since a) < sample.sustained x)%Z ∨ ∃ t, Alarm.firing a = Some t ∧ (sample.now x - t < dedupeWindow)%Z)
        ∨ v = Some true ∧ Alarm.firing a' = Some (sample.now x) ∧ (sample.sustained x ≤ sample.now x - default (sample.now x) (Alarm.since a))%Z
          ∧ ∀ t, Alarm.firing a = Some t → (dedupeWindow ≤ sample.now x - t)%Z)).
Proof.
  unfold Alarm.next. destruct (sample.cond x); [|left; repeat split; reflexivity].
  destruct (Z.ltb_spec (sample.now x - default (sample.now x) (Alarm.since a)) (sample.sustained x)) as [Hlt|Hge].
  { right. repeat split. left. repeat split. by left. }
  destruct (Alarm.firing a) as [t|] eqn:Ef.
  - destruct (Z.ltb_spec (sample.now x - t) dedupeWindow) as [Hlt|Hge2]; right; repeat split; [left|right]; repeat split; try done.
    + right. by exists t.
    + intros t' Ht'. by injection Ht' as <-.
  - right. repeat split. right. repeat split; done.
Qed.

Lemma lookup_snoc_Some (h : list sample.t) x i y : (h ++ [x]) !! i = Some y ↔ h !! i = Some y ∨ i = length h ∧ y = x.
Proof.
  rewrite lookup_app_Some. split.
  - intros [H|[Hi H]]; [by left|]. right. destruct (i - length h) as [|k] eqn:Ek; [|discriminate H]. cbn in H. injection H as <-. split; [lia|done].
  - intros [H|[-> ->]]; [by left|]. right. split; [lia|]. by rewrite Nat.sub_diag.
Qed.

Lemma fired_snoc h x i : fired (h ++ [x]) i ↔ fired h i ∨ i = length h ∧ sample.verdict x = Some true.
Proof.
  unfold fired. split.
  - intros (y & Hy & Hv). apply lookup_snoc_Some in Hy as [Hy|[-> ->]]; [left; by exists y|by right].
  - intros [(y & Hy & Hv)|[-> Hv]]; [exists y|exists x]; (split; [apply lookup_snoc_Some|done]); [by left|by right].
Qed.

Lemma holds_snoc h x j : j ≤ length h → holds_from (h ++ [x]) j (length (h ++ [x]) - 1) ↔ holds_from h j (length h - 1) ∧ sample.cond x = true.
Proof.
  intros Hj. rewrite length_app. cbn [length]. replace (length h + 1 - 1) with (length h) by lia. split.
  - intros H. split; [|apply (H (length h)); [lia|apply lookup_snoc_Some; by right]]. intros m y Hm Hy. apply (H m); [apply lookup_lt_Some in Hy; lia|].
    apply lookup_snoc_Some. by left.
  - intros [H Hx] m y Hm Hy. apply lookup_snoc_Some in Hy as [Hy|[-> ->]]; [|done]. apply (H m); [|done]. apply lookup_lt_Some in Hy. lia.
Qed.

Lemma fired_lt h i : fired h i → i < length h.
Proof. intros (x & Hx & _). by apply lookup_lt_Some in Hx. Qed.

Lemma began_snoc h x j : j < length h → began h j → began (h ++ [x]) j.
Proof. intros Hj H y Hn Hy. apply lookup_snoc_Some in Hy as [Hy|[He _]]; [by apply H|lia]. Qed.

Lemma remembers_snoc h a x : remembers h a → sample.verdict x = (Alarm.next x a).2 → remembers (h ++ [x]) (Alarm.next x a).1.
Proof.
  intros R Hv. pose proof (next_cases x a) as Hc. destruct (Alarm.next x a) as [a' v] eqn:En. cbn [fst snd] in *. subst v.
  assert (∀ j, holds_from (h ++ [x]) j (length (h ++ [x]) - 1) → j ≤ length h → sample.cond x = true) as Hcond by (intros j H Hj; by apply holds_snoc in H as [_ H]).
  destruct Hc as [(Hx & -> & Hver)|(Hx & Hs & Hc)].
  { split; cbn [Alarm.off Alarm.since Alarm.firing]; try done.
    - intros _ y. rewrite last_snoc. by intros [= <-].
    - intros j _ Hf Hh. apply Hcond in Hh; [congruence|]. apply fired_snoc in Hf as [Hf|[-> _]]; [apply fired_lt in Hf; lia|lia]. }
  assert (∀ j, j ≤ length h → holds_from h j (length h - 1) → holds_from (h ++ [x]) j (length (h ++ [x]) - 1)) as Hext by (intros j Hj H; by apply holds_snoc).
  split.
  - intros s. rewrite Hs. intros [= <-]. destruct (Alarm.since a) as [s0|] eqn:Es; cbn [default from_option].
    + destruct (r_since _ _ R s0 Es) as (j & y & Hy & Ht & Hh & Hb). pose proof (lookup_lt_Some _ _ _ Hy). exists j, y.
      split; [apply lookup_snoc_Some; by left|]. split; [done|]. split; [by apply Hext; [lia|]|by apply began_snoc].
    + exists (length h), x. split; [apply lookup_snoc_Some; by right|]. split; [done|]. split.
      * apply Hext; [lia|]. intros m y Hm Hy. apply lookup_lt_Some in Hy. lia.
      * intros y Hn Hy. apply lookup_snoc_Some in Hy as [Hy|[He _]]; [|lia]. apply (r_none _ _ R Es). rewrite last_lookup. by rewrite Nat.sub_1_r in Hy.
  - rewrite Hs. discriminate.
  - destruct Hc as [(Hver & Hf & _)|(Hver & Hf & _)]; rewrite Hf; intros t Ht.
    + destruct (r_firing _ _ R t Ht) as (j & y & Hy & Hn & Hfi & Hh). pose proof (lookup_lt_Some _ _ _ Hy). exists j, y.
      split; [apply lookup_snoc_Some; by left|]. split; [done|]. split; [apply fired_snoc; by left|by apply Hext; [lia|]].
    + injection Ht as <-. exists (length h), x. split; [apply lookup_snoc_Some; by right|]. split; [done|]. split; [apply fired_snoc; by right|].
      apply Hext; [lia|]. intros m y Hm Hy. apply lookup_lt_Some in Hy. lia.
  - intros j Hf Hfi Hh. destruct Hc as [(Hver & Hf' & _)|(Hver & Hf' & _)]; [|congruence]. apply fired_snoc in Hfi as [Hfi|[_ Hfi]]; [|congruence].
    apply fired_lt in Hfi as Hlt. apply holds_snoc in Hh as [Hh _]; [|lia]. apply (r_quiet _ _ R j); [congruence|done|done].
  - intros t j Ht Hfi Hh. destruct Hc as [(Hver & Hf & _)|(Hver & Hf & _)]; rewrite Hf in Ht.
    + apply fired_snoc in Hfi as [Hfi|[_ Hfi]]; [|congruence]. apply fired_lt in Hfi as Hlt. apply holds_snoc in Hh as [Hh _]; [|lia].
      destruct (r_last _ _ R t j Ht Hfi Hh) as (k & y & Hk & Hy & Hn & Hfk). exists k, y. split; [done|]. split; [apply lookup_snoc_Some; by left|]. split; [done|]. apply fired_snoc. by left.
    + injection Ht as <-. exists (length h), x. split; [apply fired_snoc in Hfi as [Hfi|[-> _]]; [apply fired_lt in Hfi; lia|lia]|].
      split; [apply lookup_snoc_Some; by right|]. split; [done|]. apply fired_snoc. by right.
  - rewrite Hs. discriminate.
Qed.

Lemma remembers_nil : remembers [] Alarm.off.
Proof.
  split; cbn [Alarm.off Alarm.since Alarm.firing]; try done. intros j _ Hf. apply fired_lt in Hf. cbn in Hf. lia.
Qed.

Lemma follows_prefix h h' : Alarm.follows (h ++ h') → Alarm.follows h.
Proof.
  intros H i x Hx. rewrite (H i x); [|by apply lookup_app_l_Some]. by rewrite take_app_le by (apply lookup_lt_Some in Hx; lia).
Qed.

Lemma remembers_after h : Alarm.follows h → remembers h (Alarm.after h).
Proof.
  induction h as [|x h IH] using rev_ind; intros Hf; [apply remembers_nil|]. rewrite after_snoc. apply remembers_snoc.
  - apply IH. by eapply follows_prefix.
  - rewrite (Hf (length h) x); [|apply lookup_snoc_Some; by right]. by rewrite take_app_length.
Qed.

(** The history before its [i]-th sample. *)
Lemma remembers_at h i x : Alarm.follows h → h !! i = Some x → remembers (take i h) (Alarm.after (take i h)) ∧ sample.verdict x = (Alarm.next x (Alarm.after (take i h))).2 ∧ length (take i h) = i.
Proof.
  intros Hf Hx. split; [|split; [by apply Hf|]].
  - apply remembers_after. eapply (follows_prefix _ (drop i h)). by rewrite take_drop.
  - rewrite length_take. apply lookup_lt_Some in Hx. lia.
Qed.

Lemma fired_take h i j : j < i → fired (take i h) j ↔ fired h j.
Proof. intros Hj. unfold fired. by rewrite lookup_take_lt. Qed.

Lemma holds_take h i j : i ≠ 0 → holds_from (take i h) j (i - 1) ↔ holds_from h j (i - 1).
Proof.
  intros Hi. split; intros H m x Hm Hx; apply (H m); try lia; [by rewrite lookup_take_lt by lia|]. by rewrite lookup_take_lt in Hx by lia.
Qed.

(** ** When an alarm fires and recovers

    In a history, and the places in it where passes were without data (a place is the
    number of samples before it). *)

Record alarm_ok (h : list sample.t) (gaps : list nat) : Prop := {
  (** it fires when its condition has held long enough *)
  fires_after_hold i x : h !! i = Some x → sample.verdict x = Some true →
    ∃ j y, j ≤ i ∧ h !! j = Some y ∧ holds_from h j i ∧ (sample.sustained x ≤ sample.now x - sample.now y)%Z;
  (** it does not fire twice within the window, unless the condition cleared in between *)
  fires_are_spaced i k x y : i < k → h !! i = Some x → h !! k = Some y → sample.verdict x = Some true → sample.verdict y = Some true →
    (∀ m, i < m < k → ¬ fired h m) →
    (dedupeWindow ≤ sample.now y - sample.now x)%Z ∨ ∃ m z, i < m < k ∧ h !! m = Some z ∧ sample.cond z = false;
  (** it recovers once after it fired, when the condition cleared *)
  recovers_once k x : h !! k = Some x → sample.verdict x = Some false →
    sample.cond x = false ∧ ∃ i, i < k ∧ fired h i ∧ ∀ m y, i ≤ m < k → h !! m = Some y → sample.cond y = true ∧ sample.verdict y ≠ Some false;
  (** it does fire: where the condition has held long enough without a gap, the last firing
      is recent *)
  does_fire i j x y : h !! i = Some x → h !! j = Some y → j ≤ i → holds_from h j i → began h j → (∀ g, g ∈ gaps → ¬ j < g ≤ i) →
    (sample.sustained x ≤ sample.now x - sample.now y)%Z →
    ∃ m z, j ≤ m ≤ i ∧ h !! m = Some z ∧ sample.verdict z = Some true ∧ (m = i ∨ (sample.now x - sample.now z < dedupeWindow)%Z);
  (** and it does recover *)
  does_recover i x : h !! i = Some x → sample.cond x = false → (∃ j, j < i ∧ fired h j ∧ holds_from h j (i - 1)) → sample.verdict x = Some false }.

Lemma holds_or_clears h i k : holds_from h (S i) (k - 1) ∨ ∃ m z, i < m < k ∧ h !! m = Some z ∧ sample.cond z = false.
Proof.
  destruct (forallb (λ m, match h !! m with Some z => sample.cond z | None => true end) (seq (S i) (k - S i))) eqn:E.
  - left. rewrite forallb_forall in E. intros m z Hm Hz. specialize (E m). rewrite Hz in E. apply E. apply in_seq. lia.
  - right. assert (∃ m, m ∈ seq (S i) (k - S i) ∧ match h !! m with Some z => sample.cond z | None => true end = false) as (m & Hm & Hz).
    { revert E. induction (seq (S i) (k - S i)) as [|m l IH]; cbn [forallb]; [done|]. intros [E|E]%andb_false_iff; [exists m; split; [by left|done]|].
      destruct (IH E) as (m' & Hm' & Hz). exists m'. split; [by right|done]. }
    apply elem_of_seq in Hm. destruct (h !! m) as [z|] eqn:Hmz; [|done]. exists m, z. split; [lia|done].
Qed.

(** The verdicts of a history that follows the alarm. *)
Lemma verdict_spec h i x : Alarm.follows h → h !! i = Some x → ∃ a, a = Alarm.after (take i h) ∧ remembers (take i h) a ∧ length (take i h) = i ∧
  match sample.verdict x with
  | Some false => sample.cond x = false ∧ is_Some (Alarm.firing a)
  | Some true => sample.cond x = true ∧ (sample.sustained x ≤ sample.now x - default (sample.now x) (Alarm.since a))%Z
      ∧ ∀ t, Alarm.firing a = Some t → (dedupeWindow ≤ sample.now x - t)%Z
  | None => sample.cond x = false ∧ Alarm.firing a = None
      ∨ sample.cond x = true ∧ ((sample.now x - default (sample.now x) (Alarm.since a) < sample.sustained x)%Z ∨ ∃ t, Alarm.firing a = Some t ∧ (sample.now x - t < dedupeWindow)%Z)
  end.
Proof.
  intros Hf Hx. destruct (remembers_at h i x Hf Hx) as (R & Hver & Hlen). exists (Alarm.after (take i h)). split; [done|]. split; [done|]. split; [done|].
  pose proof (next_cases x (Alarm.after (take i h))) as Hc. destruct (Alarm.next x _) as [a' v]. cbn [snd] in Hver. rewrite Hver.
  destruct Hc as [(Hcx & _ & ->)|(Hcx & _ & [(-> & _ & Hc)|(-> & _ & Hs & Hd)])]; [|by right|done].
  destruct (Alarm.firing _) eqn:E; [split; [done|by eexists]|by left].
Qed.

Lemma fires_held h i x : Alarm.follows h → h !! i = Some x → sample.verdict x = Some true →
  ∃ j y, j ≤ i ∧ h !! j = Some y ∧ holds_from h j i ∧ (sample.sustained x ≤ sample.now x - sample.now y)%Z.
Proof.
  intros Hf Hx Hv. destruct (verdict_spec h i x Hf Hx) as (a & _ & R & Hlen & Hc). rewrite Hv in Hc. destruct Hc as (Hcx & Hs & _).
  destruct (Alarm.since a) as [s|] eqn:Es; cbn [default from_option] in Hs.
  - destruct (r_since _ _ R s Es) as (j & y & Hy & <- & Hh & _). pose proof (lookup_lt_Some _ _ _ Hy) as Hlt. rewrite Hlen in *.
    rewrite lookup_take_lt in Hy by lia. exists j, y. split; [lia|]. split; [done|]. split; [|done].
    rewrite holds_take in Hh by lia. intros m z Hm Hz. destruct (decide (m = i)) as [->|Hne]; [congruence|]. apply (Hh m); [lia|done].
  - exists i, x. split; [done|]. split; [done|]. split; [|done]. intros m z Hm Hz. replace m with i in Hz by lia. congruence.
Qed.

Lemma fires_spaced h i k x y : Alarm.follows h → i < k → h !! i = Some x → h !! k = Some y → sample.verdict x = Some true → sample.verdict y = Some true →
  (∀ m, i < m < k → ¬ fired h m) →
  (dedupeWindow ≤ sample.now y - sample.now x)%Z ∨ ∃ m z, i < m < k ∧ h !! m = Some z ∧ sample.cond z = false.
Proof.
  intros Hf Hik Hx Hy Hvx Hvy Hno. destruct (verdict_spec h k y Hf Hy) as (a & _ & R & Hlen & Hc). rewrite Hvy in Hc. destruct Hc as (_ & _ & Hd).
  destruct (holds_or_clears h i k) as [Hh|Hc]; [left|by right].
  assert (sample.cond x = true) as Hcx by (destruct (verdict_spec h i x Hf Hx) as (a0 & _ & _ & _ & Hc); rewrite Hvx in Hc; apply Hc).
  assert (holds_from (take k h) i (length (take k h) - 1)) as Hhi.
  { rewrite Hlen, holds_take by lia. intros m z Hm Hz. destruct (decide (m = i)) as [->|Hne]; [congruence|]. apply (Hh m); [lia|done]. }
  assert (fired (take k h) i) as Hfi by (apply fired_take; [done|by exists x]).
  destruct (Alarm.firing a) as [t|] eqn:Ef; [|by destruct (r_quiet _ _ R i Ef Hfi)].
  destruct (r_last _ _ R t i Ef Hfi Hhi) as (m & z & Hm & Hz & Hn & Hfm). apply fired_lt in Hfm as Hmk. rewrite Hlen in Hmk. rewrite fired_take in Hfm by done.
  destruct (decide (m = i)) as [->|Hne]; [|exfalso; apply (Hno m); [lia|done]]. rewrite lookup_take_lt in Hz by done. replace x with z by congruence. rewrite Hn. by apply Hd.
Qed.

Lemma recovers h k x : Alarm.follows h → h !! k = Some x → sample.verdict x = Some false →
  sample.cond x = false ∧ ∃ i, i < k ∧ fired h i ∧ ∀ m y, i ≤ m < k → h !! m = Some y → sample.cond y = true ∧ sample.verdict y ≠ Some false.
Proof.
  intros Hf Hx Hv. destruct (verdict_spec h k x Hf Hx) as (a & _ & R & Hlen & Hc). rewrite Hv in Hc. destruct Hc as [Hcx [t Ef]]. split; [done|].
  destruct (r_firing _ _ R t Ef) as (j & y & Hy & _ & Hfj & Hh). apply fired_lt in Hfj as Hjk. rewrite Hlen in *. rewrite fired_take in Hfj by done.
  exists j. split; [done|]. split; [done|]. intros m z Hm Hz. rewrite holds_take in Hh by lia. assert (sample.cond z = true) as Hcz by (apply (Hh m); [lia|done]). split; [done|].
  intros Hvz. destruct (verdict_spec h m z Hf Hz) as (a0 & _ & _ & _ & Hc). rewrite Hvz in Hc. destruct Hc. congruence.
Qed.

Lemma clears h j m : j ≠ 0 → j - 1 ≤ m → began h j → is_Some (h !! m) → ¬ holds_from h (j - 1) m.
Proof.
  intros Hj Hm Hb [x Hx] Hh. destruct (lookup_lt_is_Some_2 h (j - 1)) as [u Hu]; [apply lookup_lt_Some in Hx; lia|].
  assert (sample.cond u = false) by (apply Hb; done). assert (sample.cond u = true) by (apply (Hh (j - 1)); [lia|done]). congruence.
Qed.

(** The time at which the condition began to hold is remembered. *)
Lemma since_began h i j x y a : remembers (take i h) a → length (take i h) = i → h !! i = Some x → h !! j = Some y → j ≤ i → holds_from h j i → began h j →
  default (sample.now x) (Alarm.since a) = sample.now y.
Proof.
  intros R Hlen Hx Hy Hji Hh Hb. destruct (Alarm.since a) as [s|] eqn:Es; cbn [default from_option].
  - destruct (r_since _ _ R s Es) as (m & z & Hz & <- & Hhm & Hbm). pose proof (lookup_lt_Some _ _ _ Hz) as Hm. rewrite Hlen in *.
    rewrite lookup_take_lt in Hz by done. rewrite holds_take in Hhm by lia. unfold id. assert (began h m) as Hbm'.
    { intros u Hn Hu. apply Hbm; [done|]. rewrite lookup_take_lt by lia. done. }
    destruct (lt_eq_lt_dec m j) as [[Hlt| ->]|Hlt]; [|congruence|].
    + destruct (clears h j (i - 1)); [lia|lia|done|apply lookup_lt_is_Some_2; apply lookup_lt_Some in Hx; lia|]. intros n u Hn. apply Hhm. lia.
    + destruct (clears h m (i - 1)); [lia|lia|done|apply lookup_lt_is_Some_2; apply lookup_lt_Some in Hx; lia|]. intros n u Hn. apply Hh. lia.
  - destruct (decide (j = i)) as [->|Hne]; [congruence|]. destruct (lookup_lt_is_Some_2 h (i - 1)) as [u Hu]; [apply lookup_lt_Some in Hx; lia|].
    assert (sample.cond u = false).
    { apply (r_none _ _ R Es). rewrite last_lookup, Hlen. rewrite <- Nat.sub_1_r, lookup_take_lt by lia. done. }
    assert (sample.cond u = true) by (apply (Hh (i - 1)); [lia|done]). congruence.
Qed.

Lemma must_fire h i j x y : Alarm.follows h → h !! i = Some x → h !! j = Some y → j ≤ i → holds_from h j i → began h j →
  (sample.sustained x ≤ sample.now x - sample.now y)%Z →
  ∃ m z, j ≤ m ≤ i ∧ h !! m = Some z ∧ sample.verdict z = Some true ∧ (m = i ∨ (sample.now x - sample.now z < dedupeWindow)%Z).
Proof.
  intros Hf Hx Hy Hji Hh Hb Hd. destruct (verdict_spec h i x Hf Hx) as (a & _ & R & Hlen & Hc).
  assert (sample.cond x = true) as Hcx by (apply (Hh i); [lia|done]). rewrite (since_began h i j x y a R Hlen) in Hc by done.
  destruct (sample.verdict x) as [[]|] eqn:Hv; [exists i, x; repeat split; [lia|lia|done|done|by left]|destruct Hc; congruence|].
  destruct Hc as [[Hc _]|[_ [Hc|(t & Ht & Hlt)]]]; [congruence|lia|].
  destruct (r_firing _ _ R t Ht) as (m & z & Hz & <- & (z' & Hz' & Hvz) & Hhm). pose proof (lookup_lt_Some _ _ _ Hz) as Hm. rewrite Hlen in *.
  assert (z' = z) as -> by congruence. rewrite lookup_take_lt in Hz by done. rewrite holds_take in Hhm by lia.
  exists m, z. split; [|split; [done|split; [done|by right]]]. split; [|lia]. destruct (decide (j ≤ m)); [done|]. exfalso.
  destruct (clears h j (i - 1)); [lia|lia|done|apply lookup_lt_is_Some_2; apply lookup_lt_Some in Hx; lia|]. intros n' u Hn. apply Hhm. lia.
Qed.

Lemma must_recover h i x : Alarm.follows h → h !! i = Some x → sample.cond x = false → (∃ j, j < i ∧ fired h j ∧ holds_from h j (i - 1)) → sample.verdict x = Some false.
Proof.
  intros Hf Hx Hcx (j & Hji & Hfj & Hh). destruct (verdict_spec h i x Hf Hx) as (a & _ & R & Hlen & Hc).
  destruct (sample.verdict x) as [[]|]; [destruct Hc; congruence|done|]. destruct Hc as [[_ Ef]|[Hc _]]; [|congruence].
  destruct (r_quiet _ _ R j Ef); [by apply fired_take|]. rewrite Hlen. by apply holds_take; [lia|].
Qed.

Lemma alarm_is_ok h gaps : Alarm.follows h → alarm_ok h gaps.
Proof. intros Hf. split; eauto using fires_held, fires_spaced, recovers, must_fire, must_recover. Qed.

(** * The engine *)

Definition subject_sample (κ : string) (en : entry) : option sample.t :=
  match en with
  | Evaluated key now sustained cond verdict => if key =? κ then Some (sample.mk now sustained cond verdict) else None
  | NoData _ | Delivered _ _ _ _ => None
  end.

(** The samples of a rule and scope in a record, and the events it is about. *)
Definition history (κ : string) (log : list entry) : list sample.t := omap (subject_sample κ) log.

(** Where passes were without data. *)
Fixpoint gaps_from (κ : string) (k : nat) (log : list entry) : list nat :=
  match log with
  | [] => []
  | Evaluated key _ _ _ _ :: log => gaps_from κ (if key =? κ then S k else k) log
  | NoData key :: log => (if key =? κ then [k] else []) ++ gaps_from κ k log
  | Delivered _ _ _ _ :: log => gaps_from κ k log
  end.
Definition gaps (κ : string) (log : list entry) : list nat := gaps_from κ 0 log.

Definition alerted (log : list entry) : list string := omap (λ en, match en with Delivered (EventId id) _ _ _ => Some id | _ => None end) log.

Definition view (e : Engine.t) (κ : string) : Alarm.t := Alarm.mk (Engine.since e !! κ) (Engine.firing e !! κ).

(** The engine's maps are, for every rule and scope, the alarm of its history. *)
Record keeps (κ : string) (e : Engine.t) (h : list sample.t) : Prop := {
  k_follows : Alarm.follows h;
  k_view : view e κ = Alarm.after h;
  k_times key s : Engine.since e !! key = Some s → s ≠ zero_time }.

Lemma judge_keeps κ key now sustained cond e e' v h :
  (zero_time < now)%Z → keeps κ e h → judge key now sustained cond e = (e', v) →
  keeps κ e' (h ++ if key =? κ then [sample.mk now sustained cond v] else []) ∧ Engine.seen e' = Engine.seen e.
Proof.
  intros Hn [Hf Hv Ht] Hj. destruct e as [si fi se]. cbn [Engine.since Engine.firing Engine.seen view] in *. unfold view in Hv. cbn [Engine.since Engine.firing] in Hv.
  assert (zeroT (si !! key) = zero_time → si !! key = None) as Hz.
  { destruct (si !! key) as [s|] eqn:E; [|done]. intros Hs. by destruct (Ht key s E). }
  assert (Engine.seen e' = se ∧ (∀ k s, Engine.since e' !! k = Some s → s ≠ zero_time)
    ∧ (∀ k, k ≠ key → view e' k = Alarm.mk (si !! k) (fi !! k)) ∧ Alarm.next (sample.mk now sustained cond v) (Alarm.mk (si !! key) (fi !! key)) = (view e' key, v)) as (Hseen & Hst & Hother & Hnext).
  { cbn [judge] in Hj. unfold Alarm.next. cbn [sample.cond sample.now sample.sustained Alarm.since Alarm.firing]. destruct cond; cycle 1.
    { injection Hj as <- <-. cbn [Engine.seen Engine.since]. unfold view. cbn [Engine.since Engine.firing]. split; [done|]. split; [|split].
      - intros k s Hk. destruct (decide (key = k)) as [<-|Hne]; [by rewrite lookup_delete_eq in Hk|]. rewrite lookup_delete_ne in Hk by done. by eapply Ht.
      - intros k Hk. by rewrite !lookup_delete_ne by done.
      - by rewrite !lookup_delete_eq. }
    set (si' := if (zeroT (si !! key) =? zero_time)%Z then <[key := now]> si else si) in *.
    assert (si' !! key = Some (default now (si !! key)) ∧ (∀ k, k ≠ key → si' !! k = si !! k) ∧ ∀ k s, si' !! k = Some s → s ≠ zero_time) as (Hsi & Hsi' & Hsi'').
    { subst si'. destruct (Z.eqb_spec (zeroT (si !! key)) zero_time) as [Hzt|Hzt].
      - rewrite (Hz Hzt), lookup_insert_eq. split; [done|]. split; [intros k Hk; by rewrite lookup_insert_ne|]. intros k s Hk.
        destruct (decide (key = k)) as [<-|Hne]; [rewrite lookup_insert_eq in Hk; injection Hk as <-; lia|]. rewrite lookup_insert_ne in Hk by done. by eapply Ht.
      - split; [|split; [done|exact Ht]]. destruct (si !! key) as [s|]; [done|]. by destruct Hzt. }
    clearbody si'. rewrite Hsi in Hj. cbn [zeroT default from_option id] in Hj. unfold zeroT in Hj. cbn [default from_option id] in Hj.
    assert (∀ fi', (∀ k, k ≠ key → fi' !! k = fi !! k) → view (Engine.mk si' fi' se) key = Alarm.mk (Some (default now (si !! key))) (fi' !! key)
      ∧ ∀ k, k ≠ key → view (Engine.mk si' fi' se) k = Alarm.mk (si !! k) (fi !! k)) as Hview.
    { intros fi' Hfi. unfold view. cbn [Engine.since Engine.firing]. rewrite Hsi. split; [done|]. intros k Hk. by rewrite Hsi', Hfi. }
    assert (∀ t k, k ≠ key → <[key := t]> fi !! k = fi !! k) as Hins by (intros t k Hk; by rewrite lookup_insert_ne).
    destruct (now - default now (si !! key) <? sustained)%Z.
    { injection Hj as <- <-. destruct (Hview fi) as [H1 H2]; [done|]. rewrite H1. done. }
    destruct (fi !! key) as [last|] eqn:Ef.
    - destruct (now - last <? dedupeWindow)%Z; injection Hj as <- <-.
      + destruct (Hview fi) as [H1 H2]; [done|]. rewrite H1, Ef. done.
      + destruct (Hview (<[key := now]> fi)) as [H1 H2]; [apply Hins|]. rewrite H1, lookup_insert_eq. done.
    - injection Hj as <- <-. destruct (Hview (<[key := now]> fi)) as [H1 H2]; [apply Hins|]. rewrite H1, lookup_insert_eq. done. }
  split; [|done]. destruct (str_eqb_eq key κ) as [Heq1 Heq2]. destruct (key =? κ) eqn:Ek.
  - specialize (Heq1 eq_refl). subst key. rewrite Hv in Hnext. split; [|rewrite after_snoc, Hnext; done|done].
    apply follows_snoc; [done|]. by rewrite Hnext.
  - rewrite app_nil_r. split; [done| |done]. rewrite Hother; [done|]. intros ->. specialize (Heq2 eq_refl). discriminate Heq2.
Qed.

Section engine.
Context {RO : RangeOrder} {TL : TimestampLib} {E : Env} {SD : Senders} {FM : Formats} {LS : LiveSamples}.

(** A program that ends, always and with a value that satisfies [Q]. *)
Definition yields {A} (m : M A) (Q : A → Prop) : Prop := ∀ w, ∃ w' a, m w = Ret (w', inl a) ∧ Q a.

Lemma yields_ret {A} (a : A) (Q : A → Prop) : Q a → yields (mret a) Q.
Proof. intros H w. by exists w, a. Qed.

Lemma yields_bind {A B} (m : M A) (k : A → M B) (P : A → Prop) (Q : B → Prop) :
  yields m P → (∀ a, P a → yields (k a) Q) → yields (m ≫= k) Q.
Proof.
  intros Hm Hk w. destruct (Hm w) as (w1 & a & H1 & Ha). destruct (Hk a Ha w1) as (w2 & b & H2 & Hb). exists w2, b. split; [|done].
  unfold mbind, M_bind. by rewrite H1.
Qed.

Lemma yields_mono {A} (m : M A) (P Q : A → Prop) : yields m P → (∀ a, P a → Q a) → yields m Q.
Proof. intros Hm H w. destruct (Hm w) as (w' & a & H1 & Ha). exists w', a. auto. Qed.

Lemma yields_tick {A} (f : nat → A) (Q : A → Prop) : (∀ n, Q (f n)) → yields (tick_ f) Q.
Proof. intros H w. unfold tick_. eexists _, _. split; [reflexivity|apply H]. Qed.

Lemma yields_read (Q : Store.t → Prop) : (∀ s, Q s) → yields Leader.read Q.
Proof. intros H w. eexists _, _. split; [reflexivity|apply H]. Qed.

Lemma append_events_commits i cmd s m : Command.Mut cmd = Some (Command_AppendEvents m) → ∃ s' r, FSM.ApplyCommand i cmd s = Ret (s', r).
Proof.
  intros Hm. unfold FSM.ApplyCommand, FSM.apply. rewrite Hm. destruct (if _ =? _ then _ else _) as [s1 fresh]. destruct fresh; eexists _, _; reflexivity.
Qed.

Lemma yields_ignore_events actor m (Q : () → Prop) : Q () → yields (ignore (Apply actor (Command_AppendEvents m))) Q.
Proof.
  intros HQ w. unfold ignore, Apply. cbn zeta. destruct (append_events_commits (raft_index (World.tick w))
    (Command.mk (ids_New (World.tick w)) actor (Some (timestamppb_New (clock_Now (World.tick w)))) (Some (Command_AppendEvents m))) (others (World.tick w) (World.store w)) m eq_refl) as (s' & r & ->).
  destruct (fate (World.tick w)) as [|[]|[]]; [destruct (FSM.ApplyResult.Err r)|..]; eexists _, (); (split; [reflexivity|done]).
Qed.

Lemma yields_emitEvent kind severity message : yields (emitEvent kind severity message) (λ _, True).
Proof.
  eapply yields_bind; [by apply (yields_tick _ (λ _, True))|]. intros id _. eapply yields_bind; [by apply (yields_tick _ (λ _, True))|]. intros now _.
  by apply yields_ignore_events.
Qed.

(** ** Deliveries *)

(** What is sent for a notification: one per listed channel that exists. *)
Definition addressed (channels : gmap string (option NotificationChannel.t)) (cids : list string) : list string :=
  omap (λ cid, match channels !! cid with Some _ => Some cid | None => None end) cids.

Definition deliveries (log : list entry) : list (subject * string * Notification.t) :=
  omap (λ en, match en with Delivered about cid n _ => Some (about, cid, n) | _ => None end) log.

(** A record of deliveries about one subject. *)
Definition only (about : subject) (n : Notification.t) (cids : list string) (log : list entry) : Prop :=
  deliveries log = (λ cid, (about, cid, n)) <$> cids ∧ ∀ κ, history κ log = [].

Lemma yields_deliver about r channels n cids : yields (deliver about r channels n cids) (only about n (addressed channels cids)).
Proof.
  induction cids as [|cid cids IH]; [by apply yields_ret|]. cbn [deliver addressed omap list_omap]. destruct (channels !! cid) as [ch|]; [|exact IH].
  eapply yields_bind; [by apply (yields_tick _ (λ _, True))|]. intros err _.
  eapply yields_bind; [destruct err; [apply yields_emitEvent|by apply (yields_ret () (λ _, True))]|]. intros _ _.
  eapply yields_bind; [exact IH|]. intros rest [Hd Hh]. apply yields_ret. split; [|exact Hh]. cbn [deliveries omap list_omap fmap list_fmap]. f_equal. exact Hd.
Qed.

Lemma deliveries_app l l' : deliveries (l ++ l') = deliveries l ++ deliveries l'.
Proof. apply omap_app. Qed.
Lemma history_app κ l l' : history κ (l ++ l') = history κ l ++ history κ l'.
Proof. apply omap_app. Qed.

Lemma alerted_deliveries log : alerted log = omap (λ d, match d.1.1 with EventId id => Some id | _ => None end) (deliveries log).
Proof. induction log as [|[| |[] ch n err] log IH]; cbn; [done|exact IH|exact IH|exact IH|]. f_equal. exact IH. Qed.

(** ** Metric rules *)

Definition metric_pass (e : Engine.t) (P : Engine.t → Prop) (r : Engine.t * list entry) : Prop :=
  Engine.seen r.1 = Engine.seen e ∧ alerted r.2 = [] ∧ P r.1.

Lemma alerted_rule key n cids log : only (RuleKey key) n cids log → alerted log = [].
Proof. intros [Hd _]. rewrite alerted_deliveries, Hd. clear Hd. induction cids as [|c cids IH]; [done|exact IH]. Qed.

Lemma yields_evalMetric κ r mc channels now e h : (zero_time < now)%Z → keeps κ e h →
  yields (evalMetric r mc channels now e) (λ p, keeps κ p.1 (h ++ history κ p.2) ∧ Engine.seen p.1 = Engine.seen e ∧ alerted p.2 = []).
Proof.
  intros Hn Hk. unfold evalMetric. cbn zeta. eapply yields_bind; [by apply (yields_tick _ (λ _, True))|]. intros [v|] _; [|apply yields_ret; cbn; by rewrite app_nil_r].
  destruct (judge _ _ _ _ _) as [e' verdict] eqn:Ej. destruct (judge_keeps κ _ _ _ _ _ _ _ h Hn Hk Ej) as [Hk' Hs].
  apply (yields_bind _ _ (λ log, (∀ κ, history κ log = []) ∧ alerted log = [])).
  - destruct verdict as [[]|]; [..|by apply yields_ret]; (eapply yields_mono; [apply yields_deliver|]); intros log Ho; (split; [apply Ho|by eapply alerted_rule]).
  - intros log [Hh Ha]. apply yields_ret. cbn [fst snd]. split; [|split; [done|exact Ha]]. cbn [history omap list_omap subject_sample].
    destruct (metricKey r mc =? κ); [|change (omap (subject_sample κ) log) with (history κ log)]; [change (omap (subject_sample κ) log) with (history κ log)|]; rewrite Hh; done.
Qed.

Lemma yields_evalMetrics κ rules channels now e h : (zero_time < now)%Z → keeps κ e h →
  yields (evalMetrics rules channels now e) (λ p, keeps κ p.1 (h ++ history κ p.2) ∧ Engine.seen p.1 = Engine.seen e ∧ alerted p.2 = []).
Proof.
  intros Hn. revert e h. induction rules as [|r rules IH]; intros e h Hk; cbn [evalMetrics]; [apply yields_ret; cbn; by rewrite app_nil_r|].
  apply (yields_bind _ _ (λ p, keeps κ p.1 (h ++ history κ p.2) ∧ Engine.seen p.1 = Engine.seen e ∧ alerted p.2 = [])).
  - destruct (_ || _); [apply yields_ret; cbn; by rewrite app_nil_r|by apply yields_evalMetric].
  - intros [e1 log] (Hk1 & Hs1 & Ha1). cbn [fst snd] in *. eapply yields_bind; [by apply IH|]. intros [e2 rest] (Hk2 & Hs2 & Ha2). cbn [fst snd] in *.
    apply yields_ret. cbn [fst snd]. split; [by rewrite history_app, app_assoc|]. split; [congruence|]. unfold alerted in *. rewrite omap_app, Ha1, Ha2. done.
Qed.

(** ** Event rules *)

(** What the rules send for an event, and for the events that were not seen before. *)
Definition rule_sends (ev : option Event.t) (channels : gmap string (option NotificationChannel.t)) (now : Z) (r : option AlertRule.t) : list (subject * string * Notification.t) :=
  if matches ev r then (λ cid, (EventId (GetId ev), cid, event_notification ev now r)) <$> addressed channels (r ⇝ AlertRule.ChannelIds) else [].

Fixpoint event_sends (evs : list (option Event.t)) (rules : list (option AlertRule.t)) (channels : gmap string (option NotificationChannel.t)) (now : Z) (seen : gset string) : list (subject * string * Notification.t) :=
  match evs with
  | [] => []
  | ev :: evs =>
    if bool_decide (GetId ev ∈ seen) then event_sends evs rules channels now seen
    else (rules ≫= rule_sends ev channels now) ++ event_sends evs rules channels now ({[GetId ev]} ∪ seen)
  end.

Lemma yields_alert_rules ev rules channels now :
  yields (alert_rules ev rules channels now) (λ log, deliveries log = (rules ≫= rule_sends ev channels now) ∧ ∀ κ, history κ log = []).
Proof.
  induction rules as [|r rules IH]; cbn [alert_rules]; [by apply yields_ret|].
  apply (yields_bind _ _ (λ log, deliveries log = rule_sends ev channels now r ∧ ∀ κ, history κ log = [])).
  - unfold rule_sends. destruct (matches ev r); [apply yields_deliver|by apply yields_ret].
  - intros log [Hd Hh]. eapply yields_bind; [exact IH|]. intros rest [Hd' Hh']. apply yields_ret.
    split; [by rewrite deliveries_app, Hd, Hd'|]. intros κ. by rewrite history_app, Hh, Hh'.
Qed.

Lemma yields_evalEvents evs rules channels now e :
  yields (evalEvents evs rules channels now e) (λ p, deliveries p.2 = event_sends evs rules channels now (Engine.seen e) ∧ (∀ κ, history κ p.2 = [])
    ∧ Engine.seen p.1 = list_to_set ((λ ev, GetId ev) <$> evs) ∪ Engine.seen e ∧ Engine.since p.1 = Engine.since e ∧ Engine.firing p.1 = Engine.firing e).
Proof.
  revert e. induction evs as [|ev evs IH]; intros e; cbn [evalEvents event_sends]; [apply yields_ret; cbn; by rewrite union_empty_l_L|].
  destruct (bool_decide (GetId ev ∈ Engine.seen e)) eqn:Es.
  - eapply yields_mono; [apply IH|]. intros [e' log] (H1 & H2 & H3 & H4). cbn [fst snd] in *. split; [done|]. split; [done|]. split; [|done]. rewrite H3. apply bool_decide_eq_true in Es. set_solver.
  - eapply yields_bind; [apply yields_alert_rules|]. intros log [Hd Hh]. eapply yields_bind; [apply IH|]. intros [e' rest] (H1 & H2 & H3 & H4 & H5).
    apply yields_ret. cbn [fst snd Engine.seen Engine.since Engine.firing] in *. split; [by rewrite deliveries_app, Hd, H1|].
    split; [intros κ; by rewrite history_app, Hh, H2|]. split; [|done]. rewrite H3. cbn [fmap list_fmap list_to_set]. set_solver.
Qed.

(** An event that was seen is not alerted. *)
Lemma event_sends_unseen evs rules channels now seen id cid n :
  (EventId id, cid, n) ∈ event_sends evs rules channels now seen → id ∉ seen ∧ id ∈ ((λ ev, GetId ev) <$> evs).
Proof.
  revert seen. induction evs as [|ev evs IH]; intros seen; cbn [event_sends]; [by intros ?%elem_of_nil|].
  destruct (bool_decide (GetId ev ∈ seen)) eqn:Es.
  - intros H%IH. split; [apply H|]. cbn. right. apply H.
  - apply bool_decide_eq_false in Es. intros [H|H]%elem_of_app.
    + apply list_elem_of_bind in H as (r & H & _). unfold rule_sends in H. destruct (matches ev r); [|by apply elem_of_nil in H].
      apply list_elem_of_fmap in H as (c & [= -> _ _] & _). split; [done|by left].
    + apply IH in H as [H1 H2]. split; [set_solver|by right].
Qed.

Lemma yields_forall {A I} (m : M A) (Q : I → A → Prop) (i0 : I) : (∀ i, yields m (Q i)) → yields m (λ a, ∀ i, Q i a).
Proof.
  intros H w. destruct (H i0 w) as (w' & a & Hm & _). exists w', a. split; [done|]. intros i. destruct (H i w) as (w2 & b & Hm2 & Hb).
  rewrite Hm in Hm2. by injection Hm2 as <- <-.
Qed.

(** ** A pass and a run *)

Definition clock_ok : Prop := ∀ n, (zero_time < clock_Now n)%Z.

Lemma alerted_sends log evs rules channels now seen id :
  deliveries log = event_sends evs rules channels now seen → id ∈ alerted log → id ∉ seen ∧ id ∈ ((λ ev, GetId ev) <$> evs).
Proof.
  intros Hd Hin. rewrite alerted_deliveries, Hd in Hin. apply list_elem_of_omap in Hin as ([[about cid] n] & Hin & Ha). cbn in Ha.
  destruct about as [|id']; [done|]. injection Ha as ->. by eapply event_sends_unseen.
Qed.

Definition new_events (e : Engine.t) (p : Engine.t * list entry) : Prop :=
  Engine.seen e ⊆ Engine.seen p.1 ∧ ∀ id, id ∈ alerted p.2 → id ∉ Engine.seen e ∧ id ∈ Engine.seen p.1.

Lemma yields_Tick κ e h : clock_ok → keeps κ e h → yields (Tick e) (λ p, keeps κ p.1 (h ++ history κ p.2) ∧ new_events e p).
Proof.
  intros Hc Hk. unfold Tick. eapply yields_bind; [apply (yields_tick _ (λ now, (zero_time < now)%Z)), Hc|]. intros now Hn.
  eapply yields_bind; [by apply (yields_read (λ _, True))|]. intros st _. cbn zeta.
  eapply yields_bind; [by apply (yields_evalMetrics κ _ _ now e h)|]. intros [e1 log] (Hk1 & Hs1 & Ha1). cbn [fst snd] in *.
  eapply yields_bind; [by apply (yields_read (λ _, True))|]. intros st' _.
  eapply yields_bind; [apply yields_evalEvents|]. intros [e2 rest] (Hd & Hh & Hs & Hsi & Hfi). cbn [fst snd] in *.
  apply yields_ret. unfold new_events. cbn [fst snd]. split; [|split].
  - rewrite history_app, Hh, app_nil_r. destruct Hk1 as [Hf Hv Ht]. split; [done| |by rewrite Hsi]. unfold view in *. by rewrite Hsi, Hfi.
  - rewrite Hs, Hs1. set_solver.
  - intros id Hid. unfold alerted in Hid. rewrite omap_app in Hid. fold (alerted log) in Hid. fold (alerted rest) in Hid. rewrite Ha1 in Hid. cbn [app] in Hid.
    destruct (alerted_sends _ _ _ _ _ _ _ Hd Hid) as [H1 H2]. rewrite Hs1 in H1. split; [done|]. rewrite Hs. apply elem_of_union_l. by apply elem_of_list_to_set.
Qed.

(** No event is alerted in two passes, nor one of [seen]. *)
Definition once (seen : gset string) (logs : list (list entry)) : Prop :=
  (∀ i log id, logs !! i = Some log → id ∈ alerted log → id ∉ seen)
  ∧ ∀ i j log log' id, i < j → logs !! i = Some log → logs !! j = Some log' → id ∈ alerted log → id ∉ alerted log'.

Lemma yields_ticks κ n e h : clock_ok → keeps κ e h → yields (ticks n e) (λ p, keeps κ p.1 (h ++ history κ (concat p.2)) ∧ once (Engine.seen e) p.2).
Proof.
  intros Hc. revert e h. induction n as [|n IH]; intros e h Hk; cbn [ticks].
  { apply yields_ret. cbn. rewrite app_nil_r. split; [done|]. split; [by intros i log id Hi; rewrite lookup_nil in Hi|by intros i j log log' id _ Hi; rewrite lookup_nil in Hi]. }
  eapply yields_bind; [by apply (yields_Tick κ e h)|]. intros [e1 log] (Hk1 & Hsub & Hnew). cbn [fst snd] in *.
  eapply yields_bind; [by apply IH|]. intros [e2 logs] (Hk2 & Ho1 & Ho2). cbn [fst snd] in *. apply yields_ret. cbn [fst snd concat].
  split; [by rewrite history_app, app_assoc|]. split.
  - intros [|i] l id Hi Hid; cbn in Hi; [injection Hi as <-; by apply Hnew|]. pose proof (Ho1 i l id Hi Hid). set_solver.
  - intros [|i] [|j] l l' id Hij Hi Hj Hid; cbn in Hi, Hj; [lia| |lia|].
    + injection Hi as <-. intros Hid'. apply Hnew in Hid as [_ Hid]. by apply (Ho1 j l' id Hj Hid').
    + by apply (Ho2 i j l l' id); [lia|done..].
Qed.

Lemma keeps_fresh κ seen : keeps κ (Engine.mk ∅ ∅ seen) [].
Proof. split; [by intros i x Hi; rewrite lookup_nil in Hi|reflexivity|]. intros key s Hk. cbn [Engine.since] in Hk. by rewrite lookup_empty in Hk. Qed.

Lemma ticks_length n e w w' e' logs : ticks n e w = Ret (w', inl (e', logs)) → length logs = n.
Proof.
  revert e w w' e' logs. induction n as [|n IH]; intros e w w' e' logs Hr; cbn [ticks] in Hr; [by injection Hr as _ _ <-|].
  apply bind_inl in Hr as (w1 & [e1 l1] & _ & Hr). apply bind_inl in Hr as (w2 & [e2 l2] & Hr & Hq). injection Hq as _ _ <-. cbn [length]. f_equal. by eapply IH.
Qed.

(** ** What a pass sends *)

(** The notification of a metric rule: a firing or a recovery. *)
Definition describes (r : option AlertRule.t) (fires : bool) (v : f64) (now : Z) (n : Notification.t) : Prop :=
  let mc := r ⇝ AlertRule.Metric in
  Notification.Rule n = r ⇝ AlertRule.Name ∧ Notification.Firing n = fires ∧ Notification.Scope n = mc ⇝ MetricCondition.Scope
  ∧ Notification.Metric n = mc ⇝ MetricCondition.Metric ∧ Notification.Value n = v ∧ Notification.At n = now.

(** What a pass does for a metric rule: nothing if it is disabled or there is no data; else
    it is judged by the metric's value, and a verdict is sent to each of its channels that
    exists. *)
Definition rule_entries (channels : gmap string (option NotificationChannel.t)) (now : Z) (r : option AlertRule.t) (b : list entry) : Prop :=
  let mc := r ⇝ AlertRule.Metric in
  let key := metricKey r mc in
  if r ⇝ AlertRule.Disabled || (mc ⇝ MetricCondition.Metric =? "") then b = []
  else ∃ t, match Metrics.Value (mc ⇝ MetricCondition.Metric) (mc ⇝ MetricCondition.Scope) (live_Samples t) with
    | None => b = [NoData key]
    | Some v => ∃ verdict sends,
        b = Evaluated key now (AsDuration (mc ⇝ MetricCondition.Sustained))
          (compare v (mc ⇝ MetricCondition.Op) (Float64frombits (mc ⇝ MetricCondition.Threshold))) verdict :: sends
        ∧ match verdict with
          | None => sends = []
          | Some fires => ∃ n, describes r fires v now n ∧ only (RuleKey key) n (addressed channels (r ⇝ AlertRule.ChannelIds)) sends
          end
    end.

Lemma yields_rule channels now r e :
  yields (if r ⇝ AlertRule.Disabled || (r ⇝ AlertRule.Metric ⇝ MetricCondition.Metric =? "") then mret (e, [])
    else evalMetric r (r ⇝ AlertRule.Metric) channels now e) (λ p, rule_entries channels now r p.2).
Proof.
  unfold rule_entries. cbv zeta. destruct (_ || _); [by apply yields_ret|]. unfold evalMetric. cbv zeta.
  set (mc := r ⇝ AlertRule.Metric). eapply yields_bind.
  { apply (yields_tick _ (λ v, ∃ t, v = Metrics.Value (mc ⇝ MetricCondition.Metric) (mc ⇝ MetricCondition.Scope) (live_Samples t))). eauto. }
  intros v [t Ht]. destruct v as [v|]; [|apply yields_ret; exists t; by rewrite <- Ht].
  destruct (judge _ _ _ _ _) as [e' verdict]. eapply yields_bind.
  { apply (yields_mono _ (λ sends, match verdict with None => sends = []
      | Some fires => ∃ n, describes r fires v now n ∧ only (RuleKey (metricKey r mc)) n (addressed channels (r ⇝ AlertRule.ChannelIds)) sends end)); [|intros sends H; exact H].
    destruct verdict as [[]|]; [..|by apply yields_ret]; (eapply yields_mono; [apply yields_deliver|]); intros sends Hs; eexists; (split; [|exact Hs]); done. }
  intros sends Hs. apply yields_ret. exists t. rewrite <- Ht. by exists verdict, sends.
Qed.

Lemma yields_rules rules channels now e :
  yields (evalMetrics rules channels now e) (λ p, ∃ bs, p.2 = concat bs ∧ Forall2 (rule_entries channels now) rules bs).
Proof.
  revert e. induction rules as [|r rules IH]; intros e; cbn [evalMetrics]; [apply yields_ret; by exists []|].
  eapply yields_bind; [apply (yields_rule channels now r e)|]. intros [e1 b] Hb. cbn [snd] in Hb.
  eapply yields_bind; [apply IH|]. intros [e2 rest] (bs & Hrest & Hbs). cbn [snd] in Hrest. apply yields_ret. exists (b :: bs). cbn. rewrite Hrest. split; [done|]. by constructor.
Qed.

(** The events of a list that are new: not seen, and each id once. *)
Fixpoint fresh_events (seen : gset string) (evs : list (option Event.t)) : list (option Event.t) :=
  match evs with
  | [] => []
  | ev :: evs => if bool_decide (GetId ev ∈ seen) then fresh_events seen evs else ev :: fresh_events ({[GetId ev]} ∪ seen) evs
  end.

Lemma event_sends_fresh evs rules channels now seen :
  event_sends evs rules channels now seen = (fresh_events seen evs ≫= λ ev, rules ≫= rule_sends ev channels now).
Proof.
  revert seen. induction evs as [|ev evs IH]; intros seen; cbn [event_sends fresh_events]; [done|]. case_bool_decide; [apply IH|].
  rewrite bind_cons. by rewrite IH.
Qed.

Lemma fresh_unseen seen evs ev : ev ∈ fresh_events seen evs → GetId ev ∉ seen.
Proof.
  revert seen. induction evs as [|x evs IH]; intros seen; cbn [fresh_events]; [by intros ?%elem_of_nil|]. case_bool_decide as Hx; [apply IH|].
  intros [->|H%IH]%elem_of_cons; [done|set_solver].
Qed.

(** What a pass sends for the events it reads: of those that were not seen each id once, to
    every rule that asks for the kind, to each of its channels that exists; all are seen
    from then on. *)
Definition event_entries (evs : list (option Event.t)) (rules : list (option AlertRule.t)) (channels : gmap string (option NotificationChannel.t))
    (now : Z) (seen seen' : gset string) (log : list entry) : Prop :=
  (∀ κ, history κ log = []) ∧ seen' = list_to_set ((λ ev, GetId ev) <$> evs) ∪ seen
  ∧ ∃ fr, fr `sublist_of` evs ∧ NoDup ((λ ev, GetId ev) <$> fr) ∧ (∀ ev, ev ∈ fr → GetId ev ∉ seen)
      ∧ (∀ ev, ev ∈ evs → GetId ev ∈ seen ∨ GetId ev ∈ (λ ev, GetId ev) <$> fr)
      ∧ deliveries log = (fr ≫= λ ev, rules ≫= rule_sends ev channels now).

Lemma fresh_events_spec seen evs : let fr := fresh_events seen evs in
  fr `sublist_of` evs ∧ NoDup ((λ ev, GetId ev) <$> fr) ∧ (∀ ev, ev ∈ evs → GetId ev ∈ seen ∨ GetId ev ∈ (λ ev, GetId ev) <$> fr).
Proof.
  revert seen. induction evs as [|x evs IH]; intros seen; cbn [fresh_events]; [split_and!; [done|constructor|by intros ev ?%elem_of_nil]|].
  case_bool_decide as Hx.
  - destruct (IH seen) as (H1 & H2 & H3). split_and!; [by apply sublist_cons|done|]. intros ev [->|Hev]%elem_of_cons; [by left|by apply H3].
  - destruct (IH ({[GetId x]} ∪ seen)) as (H1 & H2 & H3). split_and!; [by apply sublist_skip| |].
    + rewrite fmap_cons. constructor; [|done]. intros (y & Hy & Hin)%list_elem_of_fmap. apply fresh_unseen in Hin. set_solver.
    + intros ev [->|Hev]%elem_of_cons; [right; by left|]. destruct (H3 ev Hev) as [Hs|?]; [|right; by right].
      apply elem_of_union in Hs as [->%elem_of_singleton|?]; [right; by left|by left].
Qed.

(** A pass: the rules, in order, on what the state says when it begins; then the events that
    are there after that. *)
Definition pass_log (w : World.t) (e e' : Engine.t) (bs : list (list entry)) (rest : list entry) : Prop :=
  let now := clock_Now (World.tick w) in
  let rules := Store.ListAlertRules (World.store w) in
  let channels := indexChannels (Store.ListNotificationChannels (World.store w)) in
  Forall2 (rule_entries channels now) rules bs
  ∧ ∃ w1 e1, evalMetrics rules channels now e (World.mk (World.store w) (S (World.tick w)) (World.sent w)) = Ret (w1, inl (e1, concat bs))
      ∧ event_entries (Store.ListEvents eventScan (World.store w1)) rules channels now (Engine.seen e) (Engine.seen e') rest.

Lemma yields_seen rules channels now e : yields (evalMetrics rules channels now e) (λ p, Engine.seen p.1 = Engine.seen e).
Proof.
  revert e. induction rules as [|r rules IH]; intros e; cbn [evalMetrics]; [by apply yields_ret|].
  apply (yields_bind _ _ (λ p, Engine.seen p.1 = Engine.seen e)).
  - destruct (_ || _); [by apply yields_ret|]. unfold evalMetric. cbv zeta.
    eapply yields_bind; [by apply (yields_tick _ (λ _, True))|]. intros [v|] _; [|by apply yields_ret]. unfold judge. destruct e as [si fi se].
    match goal with |- context [let '(e, verdict) := ?j in _] => assert (Engine.seen j.1 = se) as Hj by (repeat case_match; reflexivity); destruct j as [e' verdict] end.
    apply (yields_bind _ _ (λ _, True)); [|intros sends _; apply yields_ret; exact Hj].
    destruct verdict as [[]|]; [..|by apply yields_ret]; by (eapply yields_mono; [apply yields_deliver|]).
  - intros [e1 log] H1. eapply yields_bind; [apply IH|]. intros [e2 rest] H2. cbn [fst] in *. apply yields_ret. cbn [fst]. congruence.
Qed.

Lemma yields_det {A} (m : M A) (Q : A → Prop) w w' a : yields m Q → m w = Ret (w', inl a) → Q a.
Proof. intros H Hm. destruct (H w) as (w2 & b & Hb & HQ). rewrite Hm in Hb. by injection Hb as _ <-. Qed.

Lemma Tick_spec e w : ∃ w' e' bs rest, Tick e w = Ret (w', inl (e', concat bs ++ rest)) ∧ pass_log w e e' bs rest.
Proof.
  unfold Tick, Now, tick_, Leader.read, mbind, M_bind. cbn [World.store World.tick World.sent]. unfold pass_log. cbv zeta.
  set (rules := Store.ListAlertRules _). set (channels := indexChannels _). set (now := clock_Now _). set (w0 := World.mk _ _ _).
  destruct (yields_rules rules channels now e w0) as (w1 & [e1 log] & Hm & bs & Hlog & Hbs). cbn [snd] in Hlog. subst log.
  rewrite Hm. destruct (yields_evalEvents (Store.ListEvents eventScan (World.store w1)) rules channels now e1 w1) as (w2 & [e2 rest] & He & Hd & Hh & Hs & _).
  cbn [fst snd] in *. rewrite He. pose proof (yields_det _ _ _ _ _ (yields_seen rules channels now e) Hm) as Hseen. cbn [fst] in Hseen.
  exists w2, e2, bs, rest. split; [done|]. split; [done|]. exists w1, e1. split; [done|]. rewrite Hseen in *. split; [done|]. split; [done|].
  destruct (fresh_events_spec (Engine.seen e) (Store.ListEvents eventScan (World.store w1))) as (H1 & H2 & H3).
  exists (fresh_events (Engine.seen e) (Store.ListEvents eventScan (World.store w1))). split_and!; [done|done| |done|].
  - intros ev. apply fresh_unseen.
  - by rewrite Hd, event_sends_fresh.
Qed.


(** C28: every event is alerted at most once in a run of the engine's loop, and none of the
    last 500 that were there when the run began.  In each pass, of the last 500 events then
    in the state, each that no pass before has seen is sent, once for its id, to every enabled
    rule of its kind, to just those channels of the rule that exist; and all of them are
    seen from then on.  (A run begins with Reset and ends when the loop does, which may be
    after the leader's term: a_loop_outlives_its_term; an event that 500 others follow
    before the next pass is never read: an_event_is_missed.) *)
Theorem events_are_alerted_once (n : nat) (w : World.t) :
  clock_ok →
  (∃ w' logs, runAlertEngine n w = Ret (w', inl logs)
    ∧ once (list_to_set ((λ ev, GetId ev) <$> Store.ListEvents eventScan (World.store w))) logs)
  ∧ ∀ e w, ∃ w' e' bs rest, Tick e w = Ret (w', inl (e', concat bs ++ rest)) ∧ alerted (concat bs) = [] ∧ pass_log w e e' bs rest.
Proof.
  intros Hc. split.
  - set (e := Engine.mk ∅ ∅ (list_to_set ((λ ev, GetId ev) <$> Store.ListEvents eventScan (World.store w)))).
    destruct (yields_ticks "" n e [] Hc (keeps_fresh "" _) w) as (w' & [e' logs] & Hr & _ & Ho). exists w', logs. split; [|exact Ho].
    unfold runAlertEngine, Reset, Leader.read. unfold mbind, M_bind, mret, M_ret. fold e. rewrite Hr. done.
  - intros e w1. destruct (Tick_spec e w1) as (w' & e' & bs & rest & Ht & Hp). exists w', e', bs, rest. split; [done|]. split; [|done].
    destruct Hp as [Hbs _]. clear Ht. induction Hbs as [|r b rules bs Hb _ IH]; [done|]. cbn [concat]. unfold alerted in *. rewrite omap_app, IH, app_nil_r.
    unfold rule_entries in Hb. cbv zeta in Hb. destruct (_ || _); [by subst b|]. destruct Hb as [t Hb]. destruct (Metrics.Value _ _ _) as [v|]; [|by subst b].
    destruct Hb as (verdict & sends & -> & Hs). cbn [omap list_omap]. destruct verdict as [fires|]; [|by subst sends].
    destruct Hs as (m & _ & Ho). exact (alerted_rule _ _ _ _ Ho).
Qed.

End engine.

(** * Concrete runs *)

Section runs.

Definition every_minute : Env := {|
  fate _ := Committed; others _ s := s; raft_index n := Z.of_nat n; leads _ := true; ids_New n := "id" +:+ pretty n; clock_Now n := (Z.of_nat n * 60 * 10 ^ 9)%Z |}.

Definition always : Senders := λ _ _ _, None.
Definition never : Senders := λ _ _ _, Some "down".
Definition plain_formats : Formats := {| Sprintf_1f _ := "x"; Sprintf_q := id |}.

Definition hot_node (cpu : Z) : list Live.NodeState.t :=
  [Live.NodeState.mk "n1" true (Some 0%Z) (Some (Heartbeat.mk None (F64.ofZ cpu) 0 0 0 0 ∅ ∅))].

Definition rule (id kind : string) (mc : option MetricCondition.t) (chs : list string) : option AlertRule.t :=
  Some (AlertRule.mk (sample_meta id) id "" mc kind chs false).
Definition channel (id : string) : option NotificationChannel.t :=
  Some (NotificationChannel.mk (sample_meta id) id "webhook" "" None None "" None None "").

(** More than 90% for four minutes. *)
Definition hot : option MetricCondition.t := Some (MetricCondition.mk "cpu_percent" "cluster" ">" 0x4056800000000000 (Some (Duration.mk 240 0))).

Definition metric_store : Store.t := Store.PutNotificationChannel (channel "c1") (Store.PutAlertRule (rule "r1" "" hot ["c1"; "gone"]) Store.New).

Definition verdicts {A} (r : outcome (World.t * (list (list entry) + A))) : list (Z * bool * option bool) :=
  match r with
  | Ret (_, inl logs) => (λ s, (sample.now s / (60 * 10 ^ 9), sample.cond s, sample.verdict s)%Z) <$> history "r1|cluster" (concat logs)
  | _ => []
  end.

(** The processor cools down after the fifth pass. *)
Definition cooling : LiveSamples := λ n, hot_node (if (n <? 10)%nat then 95 else 20).

Example a_hot_node :
  verdicts (runAlertEngine (RO := canonical_range) (TL := wellknown_times) (E := every_minute) (SD := always) (FM := plain_formats) (LS := cooling) 6 (World.mk metric_store 0 []))
  = [(0, true, None); (2, true, None); (4, true, Some true); (7, true, None); (9, false, Some false); (12, false, None)]%Z.
Proof. vm_compute. reflexivity. Qed.

(** Two samples with ten minutes without data between them count as a condition that held for
    ten minutes: the rule, of four minutes, fires at the second. *)
Definition gappy : LiveSamples := λ n, if ((n <? 2) || (10 <? n))%nat then hot_node 95 else [].

Lemma a_gap_counts_as_held :
  verdicts (runAlertEngine (RO := canonical_range) (TL := wellknown_times) (E := every_minute) (SD := always) (FM := plain_formats) (LS := gappy) 6 (World.mk metric_store 0 []))
  = [(0, true, None); (10, true, Some true)]%Z.
Proof. vm_compute. reflexivity. Qed.

(** A rule on the event of a failed delivery, with two channels that fail, doubles what it
    sends at every pass. *)
Definition storm_store : Store.t :=
  Store.AppendEvents [Some (Event.mk (sample_meta "ev") notify_failed "warning" "" "" "" "" "boot" ∅)]
    (Store.PutNotificationChannel (channel "c1") (Store.PutNotificationChannel (channel "c2") (Store.PutAlertRule (rule "r1" notify_failed None ["c1"; "c2"]) Store.New))).

Lemma failures_feed_themselves :
  match ticks (RO := canonical_range) (TL := wellknown_times) (E := every_minute) (SD := never) (FM := plain_formats) (LS := λ _, []) 5 (Engine.mk ∅ ∅ ∅) (World.mk storm_store 0 []) with
  | Ret (_, inl (_, logs)) => (λ log, length (deliveries log)) <$> logs = [2; 4; 8; 16; 32]
  | _ => False
  end.
Proof. vm_compute. reflexivity. Qed.

(** A pass looks at the last 500 events: one that more than 499 others followed since the last
    pass is not alerted. *)
Definition busy_store : Store.t :=
  Store.AppendEvents (Some (Event.mk (sample_meta "first") "node.down" "error" "" "" "" "n1" "" ∅)
      :: ((λ i, Some (Event.mk (sample_meta ("noise" +:+ pretty i)) "noise" "info" "" "" "" "" "" ∅)) <$> seq 0 500))
    (Store.PutNotificationChannel (channel "c1") (Store.PutAlertRule (rule "r1" "node.down" None ["c1"]) Store.New)).

Lemma an_event_is_missed :
  match ticks (RO := canonical_range) (TL := wellknown_times) (E := every_minute) (SD := always) (FM := plain_formats) (LS := λ _, []) 2 (Engine.mk ∅ ∅ ∅) (World.mk busy_store 0 []) with
  | Ret (_, inl (_, logs)) => logs = [[]; []]
  | _ => False
  end.
Proof. vm_compute. reflexivity. Qed.

(** * Witnesses *)

Lemma every_minute_ok : clock_ok (E := every_minute).
Proof. intros n. cbn. unfold zero_time. lia. Qed.


Lemma events_are_alerted_once_witness :
  ∃ w' logs, runAlertEngine (RO := canonical_range) (TL := wellknown_times) (E := every_minute) (SD := never) (FM := plain_formats) (LS := λ _, []) 3 (World.mk storm_store 0 []) = Ret (w', inl logs)
    ∧ once {["ev"]} logs.
Proof.
  destruct (events_are_alerted_once (RO := canonical_range) (TL := wellknown_times) (E := every_minute) (SD := never) (FM := plain_formats) (LS := λ _, []) 3 (World.mk storm_store 0 []) every_minute_ok) as [(w' & logs & H & Ho) _].
  exists w', logs. split; [exact H|]. assert (list_to_set ((λ ev, GetId ev) <$> Store.ListEvents eventScan (World.store (World.mk storm_store 0 []))) = ({["ev"]} : gset string)) as <-; [vm_compute; reflexivity|exact Ho].
Defined.

End runs.

(** * Leadership *)

(** A change of leadership reaches one of the loops that wait for it: another runs on from one
    term into the next, with what it remembered of the first. *)
Lemma a_loop_outlives_its_term :
  ∃ s, rtc LeaderRunner.step (LeaderRunner.mk false 0 None {[0 := LeaderRunner.Waiting; 1 := LeaderRunner.Waiting]}) s
    ∧ LeaderRunner.leads s = true ∧ LeaderRunner.term_ s = 2 ∧ LeaderRunner.loops s !! 0 = Some (LeaderRunner.Running 1).
Proof.
  eexists. split.
  - eapply rtc_l; [by apply LeaderRunner.elected|]. cbn [LeaderRunner.leads LeaderRunner.term_ LeaderRunner.ch LeaderRunner.loops].
    eapply rtc_l; [apply (LeaderRunner.wait_tick _ 0); reflexivity|]. cbn [LeaderRunner.leads LeaderRunner.term_ LeaderRunner.ch LeaderRunner.loops].
    eapply rtc_l; [apply (LeaderRunner.wait_signal _ 1 true); reflexivity|]. cbn [LeaderRunner.leads LeaderRunner.term_ LeaderRunner.ch LeaderRunner.loops].
    eapply rtc_l; [by apply LeaderRunner.deposed|]. cbn [LeaderRunner.leads LeaderRunner.term_ LeaderRunner.ch LeaderRunner.loops].
    eapply rtc_l; [apply (LeaderRunner.run_signal _ 1 1 false); reflexivity|]. cbn [LeaderRunner.leads LeaderRunner.term_ LeaderRunner.ch LeaderRunner.loops].
    eapply rtc_l; [by apply LeaderRunner.elected|]. apply rtc_refl.
  - split; [reflexivity|]. split; reflexivity.
Qed.
