(* ===== verification/SnapEngine.v ===== *)
(** The snapshot engine of volumes (internal/daemon/volumes: snapshot.go, crypto.go, store.go):
    a volume's tar is cut into chunks, each stored once under its hash, compressed and
    encrypted; a manifest per snapshot lists them, and a collector deletes the rest.

    An operation is a program of calls of the object store: a tree with a branch per answer.
    Several such programs work on one bucket at the same time, on the nodes of the volumes and
    on the leader ([Bucket]).  SHA-256, AES-GCM, zstd, JSON of manifests and FastCDC are
    parameters. *)
From S2P Require Import Prelude Platform.
From Stdlib Require Import Ascii.

Notation bytes := (list ascii).

Module ChunkRef.
Record t := mk { Hash : string; Size : Z }.
#[global] Instance eq_dec : EqDecision t. Proof. solve_decision. Defined.
End ChunkRef.

Module Manifest.
Record t := mk { Version : Z; Chunks : list ChunkRef.t; TarBytes : Z; CreatedAtUnix : Z }.
#[global] Instance eta : Settable t := λ r, mk (Version r) (Chunks r) (TarBytes r) (CreatedAtUnix r).
#[global] Instance eq_dec : EqDecision t. Proof. solve_decision. Defined.
End Manifest.

Module Options.
Record t := mk { AverageSize : Z; MinSize : Z; MaxSize : Z }.
End Options.

(** [cdc_Chunks] cuts what a reader delivers until its end or its error; it refuses some
    options.  [gcm_Seal] and [gcm_Open] take a key and a nonce. *)
Class SnapLib := {
  sha256_hex : bytes → string;
  gcm_Seal : bytes → bytes → bytes → bytes;
  gcm_Open : bytes → bytes → bytes → option bytes;
  zstd_EncodeAll : bytes → bytes;
  zstd_DecodeAll : bytes → option bytes;
  json_Marshal : Manifest.t → bytes;
  json_Unmarshal : bytes → option Manifest.t;
  cdc_Chunks : Options.t → bytes * bool → option (list bytes * bool)
}.

(** What is documented of them: what one encodes the other decodes (of JSON, when the strings
    are proper text, as hashes are), and chunks put together are what was cut; the chunker
    ends as its reader does. *)
Class SnapLibOk (L : SnapLib) := {
  gcm_Open_Seal : ∀ k n p, gcm_Open k n (gcm_Seal k n p) = Some p;
  zstd_Decode_Encode : ∀ b, zstd_DecodeAll (zstd_EncodeAll b) = Some b;
  json_Unmarshal_Marshal : ∀ m, Forall (λ r, ∃ b, ChunkRef.Hash r = sha256_hex b) (Manifest.Chunks m) →
    json_Unmarshal (json_Marshal m) = Some m;
  cdc_Chunks_concat : ∀ o r chunks ok, cdc_Chunks o r = Some (chunks, ok) → ok = r.2 ∧ (ok = true → concat chunks = r.1)
}.

Inductive volume_error :=
| ErrBackend | ErrNotFound (key : string) | ErrKey | ErrShort | ErrDecrypt | ErrDecompress | ErrManifest | ErrChunking.

(** * The object store (store.go) *)

Module MemStore.
Notation t := (gmap string bytes).
Definition Has (key : string) (m : t) : bool := bool_decide (is_Some (m !! key)).
Definition Get (key : string) (m : t) : bytes + volume_error := match m !! key with Some v => inl v | None => inr (ErrNotFound key) end.
Definition Put (key : string) (data : bytes) (m : t) : t := <[key := data]> m.
Definition List (prefix : string) (m : t) : list string :=
  sort_slice str_ltb (filter (λ k, HasPrefix k prefix) (map_to_list m).*1).
Definition Delete (key : string) (m : t) : t := delete key m.
End MemStore.

(** * Programs *)

(** Calls of an ObjectStore, of the random source, and reports of progress. *)
Inductive prog (A : Type) : Type :=
| Return (r : A + volume_error)
| Has (key : string) (k : bool + volume_error → prog A)
| Get (key : string) (k : bytes + volume_error → prog A)
| Put (key : string) (data : bytes) (k : () + volume_error → prog A)
| List_ (prefix : string) (k : list string + volume_error → prog A)
| Delete (key : string) (k : () + volume_error → prog A)
| Rand (k : bytes → prog A)
| Report (bytesUploaded : Z) (k : prog A).
Arguments Return {A} _.
Arguments Has {A} _ _.
Arguments Get {A} _ _.
Arguments Put {A} _ _ _.
Arguments List_ {A} _ _.
Arguments Delete {A} _ _.
Arguments Rand {A} _.
Arguments Report {A} _ _.

(** An error ends a program, as in [if err != nil { return err }]. *)
Definition throw {A B} (k : A → prog B) (r : A + volume_error) : prog B :=
  match r with inl a => k a | inr e => Return (inr e) end.

#[export] Instance prog_ret : MRet prog := λ A a, Return (inl a).
#[export] Instance prog_bind : MBind prog := λ A B f, fix bind (p : prog A) : prog B :=
  match p with
  | Return r => throw f r
  | Has key k => Has key (λ r, bind (k r))
  | Get key k => Get key (λ r, bind (k r))
  | Put key data k => Put key data (λ r, bind (k r))
  | List_ prefix k => List_ prefix (λ r, bind (k r))
  | Delete key k => Delete key (λ r, bind (k r))
  | Rand k => Rand (λ r, bind (k r))
  | Report n k => Report n (bind k)
  end.

Definition call {A} (r : A + volume_error) : prog A := Return r.
Definition of_option {A} (e : volume_error) (o : option A) : prog A := Return (match o with Some a => inl a | None => inr e end).

(** How the backend answers a call: it may fail, a write then with or without effect. *)
Inductive answer := Fine | Fails (applied : bool).

Notation objects := MemStore.t.

(** One call. *)
Definition serve {A} (a : answer) (nonce : bytes) (p : prog A) (o : objects) : prog A * objects :=
  match p, a with
  | Return r, _ => (Return r, o)
  | Rand k, _ => (k nonce, o)
  | Report _ k, _ => (k, o)
  | Has key k, Fine => (k (inl (MemStore.Has key o)), o)
  | Get key k, Fine => (k (MemStore.Get key o), o)
  | List_ prefix k, Fine => (k (inl (MemStore.List prefix o)), o)
  | Put key data k, Fine => (k (inl ()), MemStore.Put key data o)
  | Delete key k, Fine => (k (inl ()), MemStore.Delete key o)
  | Has _ k, Fails _ => (k (inr ErrBackend), o)
  | Get _ k, Fails _ => (k (inr ErrBackend), o)
  | List_ _ k, Fails _ => (k (inr ErrBackend), o)
  | Put key data k, Fails applied => (k (inr ErrBackend), if applied then MemStore.Put key data o else o)
  | Delete key k, Fails applied => (k (inr ErrBackend), if applied then MemStore.Delete key o else o)
  end.

(** A program on its own, on a backend that does not fail: its result, the objects it leaves,
    and what it reports. *)
Fixpoint run {A} (rand : nat → bytes) (n : nat) (p : prog A) (o : objects) : (A + volume_error) * objects * list Z :=
  match p with
  | Return r => (r, o, [])
  | Has key k => run rand (S n) (k (inl (MemStore.Has key o))) o
  | Get key k => run rand (S n) (k (MemStore.Get key o)) o
  | Put key data k => run rand (S n) (k (inl ())) (MemStore.Put key data o)
  | List_ prefix k => run rand (S n) (k (inl (MemStore.List prefix o))) o
  | Delete key k => run rand (S n) (k (inl ())) (MemStore.Delete key o)
  | Rand k => run rand (S n) (k (rand n)) o
  | Report z k => let '(r, o, zs) := run rand (S n) k o in (r, o, z :: zs)
  end.

(** * The engine (snapshot.go, crypto.go) *)

Module Engine.

Definition chunkPrefix : string := "chunks/".
Definition manifestPrefix : string := "manifests/".
Definition manifestVer : Z := 1.
Definition nonceSize : nat := 12.

Definition defaultAvgChunk : Z := Z.shiftl 1 20.
Definition defaultMinChunk : Z := Z.shiftl 1 18.
Definition defaultMaxChunk : Z := Z.shiftl 1 22.

Record t := mk { key : bytes; opts : Options.t }.

(** NewEngine, its encoder and decoder made without error. *)
Definition NewEngine (key : bytes) (opts : Options.t) : t + volume_error :=
  if negb (length key =? 32)%nat then inr ErrKey
  else
    let avg := if (Options.AverageSize opts =? 0)%Z then defaultAvgChunk else Options.AverageSize opts in
    let mn := if (Options.MinSize opts =? 0)%Z then Z.min defaultMinChunk (Z.quot avg 4 + 1) else Options.MinSize opts in
    let mx := if (Options.MaxSize opts =? 0)%Z then Z.max defaultMaxChunk (avg * 4) else Options.MaxSize opts in
    inl (mk key (Options.mk avg mn mx)).

Section engine.
Context {L : SnapLib}.

Definition seal (key plaintext : bytes) : prog bytes :=
  if negb (length key =? 32)%nat then Return (inr ErrKey)
  else Rand (λ nonce, mret (nonce ++ gcm_Seal key nonce plaintext)).

Definition open (key blob : bytes) : bytes + volume_error :=
  if negb (length key =? 32)%nat then inr ErrKey
  else if (length blob <? nonceSize)%nat then inr ErrShort
  else match gcm_Open key (take nonceSize blob) (drop nonceSize blob) with
  | Some pt => inl pt
  | None => inr ErrDecrypt
  end.

(** The loop of Snapshot over the chunks. *)
Fixpoint upload (e : t) (chunks : list bytes) (ok : bool) (m : Manifest.t) (uploaded : Z) : prog Manifest.t :=
  match chunks with
  | [] => if ok then mret m else Return (inr ErrChunking)
  | data :: chunks =>
    let hash := sha256_hex data in
    let len := Z.of_nat (length data) in
    let m := m <| Manifest.Chunks ::= λ l, l ++ [ChunkRef.mk hash len] |> <| Manifest.TarBytes ::= λ n, (n + len)%Z |> in
    Has (chunkPrefix +:+ hash) (throw (λ has,
    if has : bool then upload e chunks ok m uploaded
    else
      sealed ← seal (key e) (zstd_EncodeAll data);
      Put (chunkPrefix +:+ hash) sealed (throw (λ _,
      Report (uploaded + len) (upload e chunks ok m (uploaded + len)%Z)))))
  end.

Definition putManifest (e : t) (snapshotID : string) (m : Manifest.t) : prog () :=
  sealed ← seal (key e) (zstd_EncodeAll (json_Marshal m));
  Put (manifestPrefix +:+ snapshotID) sealed Return.

(** Snapshot, of what writeDeterministicTar delivers and whether without error. *)
Definition Snapshot (e : t) (tar : bytes * bool) (snapshotID : string) (createdAtUnix : Z) : prog Manifest.t :=
  match cdc_Chunks (opts e) tar with
  | None => Return (inr ErrChunking)
  | Some (chunks, ok) =>
    m ← upload e chunks ok (Manifest.mk manifestVer [] 0 createdAtUnix) 0;
    putManifest e snapshotID m;;
    mret m
  end.

(** What can be read of a sealed object. *)
Definition unpack (e : t) (blob : bytes) : bytes + volume_error :=
  match open (key e) blob with
  | inl comp => match zstd_DecodeAll comp with Some plain => inl plain | None => inr ErrDecompress end
  | inr err => inr err
  end.

Definition readManifestKey (e : t) (key : string) : prog Manifest.t :=
  Get key (throw (λ blob,
  raw ← call (unpack e blob);
  of_option ErrManifest (json_Unmarshal raw))).

Definition getManifest (e : t) (snapshotID : string) : prog Manifest.t := readManifestKey e (manifestPrefix +:+ snapshotID).

(** What streamChunks writes, until it is done or fails. *)
Fixpoint streamChunks (e : t) (refs : list ChunkRef.t) (written : bytes) : prog (bytes * option volume_error) :=
  match refs with
  | [] => mret (written, None)
  | ref :: refs =>
    Get (chunkPrefix +:+ ChunkRef.Hash ref) (λ r,
    match r with
    | inr err => mret (written, Some err)
    | inl blob =>
      match unpack e blob with
      | inr err => mret (written, Some err)
      | inl plain => streamChunks e refs (written ++ plain)
      end
    end)
  end.

(** Restore, up to the stream that extractTar reads. *)
Definition Restore (e : t) (snapshotID : string) : prog (bytes * option volume_error) :=
  m ← getManifest e snapshotID;
  streamChunks e (Manifest.Chunks m) [].

(** The first loop of Prune. *)
Fixpoint collect_live (e : t) (manifestKeys : list string) (live : gset string) : prog (gset string) :=
  match manifestKeys with
  | [] => mret live
  | mkey :: mkeys =>
    m ← readManifestKey e mkey;
    collect_live e mkeys (list_to_set (ChunkRef.Hash <$> Manifest.Chunks m) ∪ live)
  end.

(** ck[len(chunkPrefix):] *)
Definition chunk_hash (ck : string) : string := String.substring (String.length chunkPrefix) (String.length ck - String.length chunkPrefix) ck.

Fixpoint delete_dead (chunkKeys : list string) (live : gset string) (deleted : nat) : prog nat :=
  match chunkKeys with
  | [] => mret deleted
  | ck :: cks =>
    if bool_decide (chunk_hash ck ∈ live) then delete_dead cks live deleted
    else Delete ck (throw (λ _, delete_dead cks live (S deleted)))
  end.

Definition Prune (e : t) : prog nat :=
  List_ manifestPrefix (throw (λ manifestKeys,
  live ← collect_live e manifestKeys ∅;
  List_ chunkPrefix (throw (λ chunkKeys, delete_dead chunkKeys live 0)))).

(** SnapshotDispatcher.Prune: the manifests of the snapshots that are dropped, then the rest. *)
Fixpoint delete_manifests {A} (ids : list string) (p : prog A) : prog A :=
  match ids with
  | [] => p
  | id :: ids => Delete (manifestPrefix +:+ id) (λ _, delete_manifests ids p)
  end.

Definition PruneSnapshots (e : t) (deadSnapshotIDs : list string) : prog nat := delete_manifests deadSnapshotIDs (Prune e).

End engine.
End Engine.

(** * A bucket shared by the operations of a cluster *)

Module Bucket.

Inductive task :=
| Snapshotting (id : string) (tar : bytes * bool) (createdAt : Z) (p : prog Manifest.t)
| Pruning (dead : list string) (p : prog nat)
| Restoring (id : string) (p : prog (bytes * option volume_error)).

Record t := mk { objs : objects; tasks : list task }.

Definition work (a : answer) (nonce : bytes) (k : task) (o : objects) : task * objects :=
  match k with
  | Snapshotting id tar at_ p => let '(p, o) := serve a nonce p o in (Snapshotting id tar at_ p, o)
  | Pruning dead p => let '(p, o) := serve a nonce p o in (Pruning dead p, o)
  | Restoring id p => let '(p, o) := serve a nonce p o in (Restoring id p, o)
  end.

Section bucket.
Context {L : SnapLib} (e : Engine.t).

(** The ids of snapshots are fresh (ids.New). *)
Definition fresh (id : string) (ks : list task) : Prop :=
  Forall (λ k, match k with Snapshotting id' _ _ _ => id' ≠ id | _ => True end) ks.

Inductive step : t → t → Prop :=
| start_snapshot o ks id tar at_ : fresh id ks → step (mk o ks) (mk o (ks ++ [Snapshotting id tar at_ (Engine.Snapshot e tar id at_)]))
| start_prune o ks dead : step (mk o ks) (mk o (ks ++ [Pruning dead (Engine.PruneSnapshots e dead)]))
| start_restore o ks id : step (mk o ks) (mk o (ks ++ [Restoring id (Engine.Restore e id)]))
| working o ks i k a nonce k' o' : ks !! i = Some k → length nonce = Engine.nonceSize → work a nonce k o = (k', o') →
    step (mk o ks) (mk o' (<[i := k']> ks)).

(** Is a snapshot, a collection under way? *)
Definition taking (k : task) : bool :=
  match k with Snapshotting _ _ _ (Return _) => false | Snapshotting _ _ _ _ => true | _ => false end.
Definition collecting (k : task) : bool :=
  match k with Pruning _ (Return _) => false | Pruning _ _ => true | _ => false end.

(** Not both. *)
Definition exclusive (s : t) : Prop := existsb taking (tasks s) && existsb collecting (tasks s) = false.

(** What the operations make of an empty bucket, when no collection runs while a snapshot is
    taken. *)
Inductive reachable : t → Prop :=
| empty_bucket : reachable (mk ∅ [])
| next s s' : reachable s → exclusive s → step s s' → reachable s'.

(** The chunks cut for a snapshot. *)
Definition cut_for (s : t) (id : string) (chunks : list bytes) (ok : bool) : Prop :=
  ∃ tar at_ p, Snapshotting id tar at_ p ∈ tasks s ∧ cdc_Chunks (Engine.opts e) tar = Some (chunks, ok).

(** SHA-256 has no collision among the chunks of the bucket. *)
Definition collision_free (s : t) : Prop := ∀ id c ok id' c' ok' a b,
  cut_for s id c ok → cut_for s id' c' ok' → a ∈ c → b ∈ c' → sha256_hex a = sha256_hex b → a = b.

End bucket.
End Bucket.
