(* ===== verification/SnapEngineProps.v ===== *)
(** The snapshot engine keeps snapshots: what it proves of the operations of SnapEngine.v on
    one bucket, in any interleaving in which no collection runs while a snapshot is taken;
    what the collector deletes; and what goes wrong otherwise. *)
From S2P Require Import Prelude Platform Text SnapEngine.
From Stdlib Require Import Ascii.

Section engine.
Context {L : SnapLib} {LOk : SnapLibOk L} (e : Engine.t).
Hypothesis key_ok : length (Engine.key e) = 32.
(** The chunks that are cut, among which SHA-256 has no collision. *)
Variable P : bytes → Prop.
(** What was cut without error for the snapshot of an id. *)
Variable D : string → list bytes → Prop.
Hypothesis D_cut : ∀ id chunks, D id chunks → Forall P chunks.
Hypothesis no_collision : ∀ a b, P a → P b → sha256_hex a = sha256_hex b → a = b.

Notation ckey h := (Engine.chunkPrefix +:+ h).
Notation mkey id := (Engine.manifestPrefix +:+ id).

Lemma ckey_mkey h id : ckey h ≠ mkey id.
Proof. done. Qed.

Lemma ckey_inj h h' : ckey h = ckey h' → h = h'.
Proof. by intros [=]. Qed.

Lemma mkey_inj i j : mkey i = mkey j → i = j.
Proof. by intros [=]. Qed.

(** * What is stored *)

Definition chunk_ref (data : bytes) : ChunkRef.t := ChunkRef.mk (sha256_hex data) (Z.of_nat (length data)).

(** The manifest of chunks. *)
Definition manifest_for (chunks : list bytes) (at_ : Z) : Manifest.t :=
  Manifest.mk Engine.manifestVer (chunk_ref <$> chunks) (Z.of_nat (length (concat chunks))) at_.

Definition refs (m : Manifest.t) : list string := ChunkRef.Hash <$> Manifest.Chunks m.

Lemma refs_manifest chunks at_ : refs (manifest_for chunks at_) = sha256_hex <$> chunks.
Proof. unfold refs, manifest_for. cbn. rewrite <- list_fmap_compose. done. Qed.

Definition present (o : objects) (h : string) : Prop := is_Some (o !! ckey h).
Definition reads (blob : bytes) (m : Manifest.t) : Prop := ∃ raw, Engine.unpack e blob = inl raw ∧ json_Unmarshal raw = Some m.
Definition all_present (chunks : list bytes) (o : objects) : Prop := Forall (present o) (sha256_hex <$> chunks).

(** A chunk is what its name says, and a manifest lists what was cut for its id, all stored. *)
Record sound (o : objects) : Prop := {
  sound_chunks h blob : o !! ckey h = Some blob → ∃ data, Engine.unpack e blob = inl data ∧ sha256_hex data = h ∧ P data;
  sound_manifests id blob : o !! mkey id = Some blob →
    ∃ chunks at_, D id chunks ∧ reads blob (manifest_for chunks at_) ∧ all_present chunks o
}.

Lemma all_present_mono chunks o o' : (∀ h, present o h → present o' h) → all_present chunks o → all_present chunks o'.
Proof. intros Hp Ha. eapply Forall_impl; [exact Ha|]. done. Qed.

Lemma present_insert o key blob h : present o h → present (<[key := blob]> o) h.
Proof. intros Hh. unfold present. by apply lookup_insert_is_Some'; right. Qed.

Lemma sound_empty : sound ∅.
Proof. split; intros ?? H; by rewrite lookup_empty in H. Qed.

Lemma unpack_sealed nonce data : length nonce = Engine.nonceSize →
  Engine.unpack e (nonce ++ gcm_Seal (Engine.key e) nonce (zstd_EncodeAll data)) = inl data.
Proof.
  intros Hn. unfold Engine.unpack, Engine.open. rewrite key_ok. cbn [negb Nat.eqb].
  rewrite length_app, Hn. replace (_ <? _) with false by (symmetry; apply Nat.ltb_ge; lia).
  rewrite take_app_length' by done. rewrite drop_app_length' by done. rewrite gcm_Open_Seal. by rewrite zstd_Decode_Encode.
Qed.

Lemma reads_sealed nonce m : length nonce = Engine.nonceSize → Forall (λ r, ∃ b, ChunkRef.Hash r = sha256_hex b) (Manifest.Chunks m) →
  reads (nonce ++ gcm_Seal (Engine.key e) nonce (zstd_EncodeAll (json_Marshal m))) m.
Proof. intros Hn Hm. exists (json_Marshal m). split; [by apply unpack_sealed|by apply json_Unmarshal_Marshal]. Qed.

Lemma reads_fun blob m m' : reads blob m → reads blob m' → m = m'.
Proof. intros (raw & H1 & H2) (raw' & H1' & H2'). congruence. Qed.

Lemma sound_put_chunk o data blob : sound o → P data → Engine.unpack e blob = inl data → sound (<[ckey (sha256_hex data) := blob]> o).
Proof.
  intros [Hc Hm] HP Hu. split.
  - intros h b. destruct (decide (sha256_hex data = h)) as [<-|Hne].
    + rewrite lookup_insert, decide_True by done. intros [= <-]. eauto.
    + rewrite lookup_insert_ne by (by intros ?%ckey_inj). apply Hc.
  - intros id b. rewrite lookup_insert_ne by done. intros (chunks & at_ & ? & ? & Ha)%Hm. exists chunks, at_. split_and!; [done..|].
    eapply all_present_mono; [|exact Ha]. intros h. apply present_insert.
Qed.

Lemma sound_put_manifest o id chunks at_ blob : sound o → D id chunks → reads blob (manifest_for chunks at_) → all_present chunks o →
  sound (<[mkey id := blob]> o).
Proof.
  intros [Hc Hm] HD Hr Hf. split.
  - intros h b. rewrite lookup_insert_ne by done. apply Hc.
  - intros id' b. destruct (decide (id = id')) as [<-|Hne].
    + rewrite lookup_insert, decide_True by done. intros [= <-]. exists chunks, at_. split_and!; [done..|].
      eapply all_present_mono; [|exact Hf]. intros h. apply present_insert.
    + rewrite lookup_insert_ne by (by intros ?%mkey_inj). intros (c & a & ? & ? & Ha)%Hm. exists c, a. split_and!; [done..|].
      eapply all_present_mono; [|exact Ha]. intros h. apply present_insert.
Qed.

Lemma sound_delete_manifest o id : sound o → sound (delete (mkey id) o).
Proof.
  intros [Hc Hm]. split.
  - intros h b [_ H]%lookup_delete_Some. by apply Hc in H.
  - intros id' b [_ (c & a & ? & ? & Ha)%Hm]%lookup_delete_Some. exists c, a. split_and!; [done..|].
    eapply all_present_mono; [|exact Ha]. intros h Hh. unfold present. by rewrite lookup_delete_ne.
Qed.

Lemma sound_delete_chunk o h : sound o →
  (∀ id blob, o !! mkey id = Some blob → ∃ m, reads blob m ∧ h ∉ refs m) → sound (delete (ckey h) o).
Proof.
  intros [Hc Hm] Hd. split.
  - intros h' b [_ H]%lookup_delete_Some. by apply Hc in H.
  - intros id' b [_ H]%lookup_delete_Some. destruct (Hm _ _ H) as (c & a & ? & Hr & Ha). destruct (Hd _ _ H) as (m' & Hr' & Hin).
    rewrite (reads_fun _ _ _ Hr' Hr), refs_manifest in Hin. exists c, a. split_and!; [done..|].
    unfold all_present in *. rewrite Forall_forall in Ha |- *.
    intros h' Hh'. unfold present. rewrite lookup_delete_ne; [by apply Ha|]. intros <-%ckey_inj. done.
Qed.

(** * Programs among others

    [sat rely G Q K p]: from any sound bucket in which [K] holds, each call of [p] keeps the
    bucket sound and changes it within [G], whatever the others do meanwhile within [rely], and
    a result [a] satisfies [Q a]. *)

Section sat.
Context {A : Type} (rely G : objects → objects → Prop).

Definition stable (K : objects → Prop) : Prop := ∀ o o', rely o o' → K o → K o'.

Inductive sat (Q : A → objects → Prop) : (objects → Prop) → prog A → Prop :=
| sat_return (K : objects → Prop) r : (∀ a o, r = inl a → K o → Q a o) → sat Q K (Return r)
| sat_call (K : objects → Prop) p :
    (∀ r, p ≠ Return r) →
    (∀ o a nonce p' o', sound o → K o → length nonce = Engine.nonceSize → serve a nonce p o = (p', o') →
      sound o' ∧ G o o' ∧ ∃ K' : objects → Prop, stable K' ∧ K' o' ∧ sat Q K' p') →
    sat Q K p.

Lemma sat_step Q K p o a nonce p' o' : sat Q K p → (∀ r, p ≠ Return r) → sound o → K o → length nonce = Engine.nonceSize →
  serve a nonce p o = (p', o') → sound o' ∧ G o o' ∧ ∃ K', stable K' ∧ K' o' ∧ sat Q K' p'.
Proof. intros Hs Hr. destruct Hs as [K r Hq|K p Hq Hc]; [by destruct (Hr r)|]. apply Hc. Qed.

Lemma sat_result Q K a o : sat Q K (Return (inl a)) → K o → Q a o.
Proof. inversion 1 as [? ? Hq|? ? Hr]; subst; [eauto|]. by destruct (Hr (inl a)). Qed.

Lemma sat_weaken Q (K K' : objects → Prop) p : (∀ o, K o → K' o) → sat Q K' p → sat Q K p.
Proof.
  intros HK Hs. destruct Hs as [K' r Hq|K' p Hr Hc]; [apply sat_return; eauto|]. apply sat_call; [done|]. eauto.
Qed.

Hypothesis G_refl : ∀ o, G o o.

(** A call that only reads: the answers it can get, and what is known after each. *)
Lemma sat_reads Q K p : stable K → (∀ r, p ≠ Return r) →
  (∀ o a nonce p' o', sound o → K o → length nonce = Engine.nonceSize → serve a nonce p o = (p', o') →
    o' = o ∧ ∃ K' : objects → Prop, stable K' ∧ K' o ∧ sat Q K' p') → sat Q K p.
Proof.
  intros HK Hr H. apply sat_call; [done|]. intros o a nonce p' o' Ho Hk Hn Hs. destruct (H _ _ _ _ _ Ho Hk Hn Hs) as [-> ?]. eauto.
Qed.

Lemma sat_error Q K err : sat Q K (Return (inr err)).
Proof. by apply sat_return. Qed.

Lemma sat_Has Q K K' key k : stable K → stable K' → (∀ o, sound o → K o → is_Some (o !! key) → K' o) →
  sat Q K' (k (inl true)) → sat Q K (k (inl false)) → (∀ err, sat Q K (k (inr err))) → sat Q K (Has key k).
Proof.
  intros HK HK' Hi Ht Hf He. apply sat_reads; [done|done|]. intros o a nonce p' o' Ho Hk Hn.
  destruct a; cbn [serve]; intros [= <- <-]; (split; [done|]); [|eauto].
  unfold MemStore.Has. case_bool_decide; [|eauto]. exists K'. eauto.
Qed.

Lemma sat_Get Q K key k : stable K →
  (∀ o blob, sound o → K o → o !! key = Some blob → ∃ K' : objects → Prop, stable K' ∧ K' o ∧ sat Q K' (k (inl blob))) →
  (∀ err, sat Q K (k (inr err))) → sat Q K (Get key k).
Proof.
  intros HK Hb He. apply sat_reads; [done|done|]. intros o a nonce p' o' Ho Hk Hn.
  destruct a; cbn [serve]; intros [= <- <-]; (split; [done|]); [|eauto].
  unfold MemStore.Get. destruct (o !! key) as [blob|] eqn:E; [|eauto]. by apply Hb.
Qed.

Lemma sat_Rand Q K k : stable K → (∀ nonce, length nonce = Engine.nonceSize → sat Q K (k nonce)) → sat Q K (Rand k).
Proof.
  intros HK H. apply sat_reads; [done|done|]. intros o a nonce p' o' Ho Hk Hn Hs.
  assert (p' = k nonce ∧ o' = o) as [-> ->] by (by destruct a; injection Hs as <- <-). split; [done|]. exists K. auto.
Qed.

Lemma sat_Report Q K n p : stable K → sat Q K p → sat Q K (Report n p).
Proof.
  intros HK H. apply sat_reads; [done|done|]. intros o a nonce p' o' Ho Hk Hn Hs.
  assert (p' = p ∧ o' = o) as [-> ->] by (by destruct a; injection Hs as <- <-). split; [done|]. exists K. auto.
Qed.

(** A call that writes: with the effect or without. *)
Lemma sat_Put Q K K' key data k : stable K → stable K' →
  (∀ o, sound o → K o → sound (<[key := data]> o) ∧ G o (<[key := data]> o) ∧ K' (<[key := data]> o)) →
  (∀ o, K' o → K o) →
  sat Q K' (k (inl ())) → (∀ err, sat Q K (k (inr err))) → sat Q K (Put key data k).
Proof.
  intros HK HK' Hp Hw Ht He. apply sat_call; [done|]. intros o a nonce p' o' Ho Hk Hn. destruct (Hp o Ho Hk) as (? & ? & ?).
  destruct a as [|[]]; cbn [serve]; unfold MemStore.Put; intros [= <- <-]; eauto 10.
Qed.

Lemma sat_Delete Q K K' key k : stable K → stable K' →
  (∀ o, sound o → K o → sound (delete key o) ∧ G o (delete key o) ∧ K' (delete key o)) →
  (∀ o, K' o → K o) →
  sat Q K' (k (inl ())) → (∀ err, sat Q K (k (inr err))) → sat Q K (Delete key k).
Proof.
  intros HK HK' Hp Hw Ht He. apply sat_call; [done|]. intros o a nonce p' o' Ho Hk Hn. destruct (Hp o Ho Hk) as (? & ? & ?).
  destruct a as [|[]]; cbn [serve]; unfold MemStore.Delete; intros [= <- <-]; eauto 10.
Qed.

End sat.

(** * A snapshot *)

(** The chunks that are there stay: what a snapshot relies on, and does. *)
Definition chunks_stay (o o' : objects) : Prop := ∀ h, present o h → present o' h.

Lemma all_present_stable chunks : stable chunks_stay (all_present chunks).
Proof. intros o o' Hp. by apply all_present_mono. Qed.

Lemma chunks_stay_refl o : chunks_stay o o.
Proof. by intros h. Qed.

Lemma all_present_snoc chunks data o : all_present (chunks ++ [data]) o ↔ all_present chunks o ∧ present o (sha256_hex data).
Proof. unfold all_present. rewrite fmap_app, Forall_app. cbn. by rewrite Forall_singleton. Qed.

Lemma manifest_snoc chunks data at_ :
  (manifest_for chunks at_) <| Manifest.Chunks ::= λ l, l ++ [ChunkRef.mk (sha256_hex data) (Z.of_nat (length data))] |>
    <| Manifest.TarBytes ::= λ n, (n + Z.of_nat (length data))%Z |> = manifest_for (chunks ++ [data]) at_.
Proof.
  unfold manifest_for, set. cbn. rewrite fmap_app, concat_app, length_app, Nat2Z.inj_add. cbn. rewrite app_nil_r. done.
Qed.

Lemma sat_upload {B} (Q : B → objects → Prop) (f : Manifest.t → prog B) at_ rest ok : ∀ done n,
  Forall P rest →
  (ok = true → sat chunks_stay chunks_stay Q (all_present (done ++ rest)) (f (manifest_for (done ++ rest) at_))) →
  sat chunks_stay chunks_stay Q (all_present done) (Engine.upload e rest ok (manifest_for done at_) n ≫= f).
Proof.
  induction rest as [|data rest IH]; intros done n HP Hf.
  - rewrite app_nil_r in Hf. cbn [Engine.upload]. destruct ok; [by apply Hf|apply sat_error].
  - apply Forall_cons in HP as [Hd HP]. cbn [Engine.upload]. cbv zeta. rewrite manifest_snoc.
    replace (done ++ data :: rest) with ((done ++ [data]) ++ rest) in Hf by (by rewrite <- app_assoc).
    pose proof (λ n, IH (done ++ [data]) n HP Hf) as IHd. cbn [mbind prog_bind].
    eapply sat_Has with (K' := all_present (done ++ [data])); [apply chunks_stay_refl|apply all_present_stable|apply all_present_stable| | | |].
    + intros o _ Ha Hp. by apply all_present_snoc.
    + apply IHd.
    + cbn [throw]. unfold Engine.seal. rewrite key_ok. cbn [negb Nat.eqb mbind prog_bind throw].
      apply sat_Rand; [apply chunks_stay_refl|apply all_present_stable|]. intros nonce Hn. cbn [mret prog_ret throw mbind prog_bind].
      eapply sat_Put with (K' := all_present (done ++ [data])); [apply chunks_stay_refl|apply all_present_stable|apply all_present_stable| | | |].
      * intros o Ho Ha. split; [apply sound_put_chunk; [done|done|by apply unpack_sealed]|]. split; [intros h; apply present_insert|].
        apply all_present_snoc. split; [|unfold present; by rewrite lookup_insert, decide_True].
        eapply all_present_mono; [|exact Ha]. intros h. apply present_insert.
      * intros o Ha. by apply all_present_snoc in Ha as [? _].
      * cbn [throw]. apply sat_Report; [apply chunks_stay_refl|apply all_present_stable|]. apply IHd.
      * intros err. apply sat_error.
    + intros err. apply sat_error.
Qed.

(** The program of Snapshot among others. *)
Lemma sat_Snapshot id tar at_ :
  (∀ chunks ok, cdc_Chunks (Engine.opts e) tar = Some (chunks, ok) → Forall P chunks ∧ (ok = true → D id chunks)) →
  sat chunks_stay chunks_stay
    (λ m _, ∃ chunks, cdc_Chunks (Engine.opts e) tar = Some (chunks, true) ∧ m = manifest_for chunks at_)
    (λ _, True) (Engine.Snapshot e tar id at_).
Proof.
  intros HP. unfold Engine.Snapshot. destruct (cdc_Chunks (Engine.opts e) tar) as [[chunks ok]|] eqn:E; [|apply sat_error].
  destruct (HP _ _ eq_refl) as [HPc HD].
  eapply sat_weaken; [|apply (sat_upload _ _ at_ chunks ok [] 0 HPc)]; [intros; by apply Forall_nil|].
  intros ->. cbn [app]. unfold Engine.putManifest, Engine.seal. rewrite key_ok. cbn [negb Nat.eqb mbind prog_bind].
  apply sat_Rand; [apply chunks_stay_refl|apply all_present_stable|]. intros nonce Hn. cbn [mret prog_ret throw mbind prog_bind].
  eapply sat_Put with (K' := all_present chunks); [apply chunks_stay_refl|apply all_present_stable|apply all_present_stable| |done| |].
  - intros o Ho Ha. split; [|split; [intros h; apply present_insert|]].
    + eapply sound_put_manifest; [done|by apply HD| |done]. apply reads_sealed; [done|].
      unfold manifest_for. cbn. apply Forall_fmap, Forall_forall. intros d _. by exists d.
    + eapply all_present_mono; [|exact Ha]. intros h. apply present_insert.
  - cbn [throw]. apply sat_return. intros m' o [= <-] _. eauto.
  - intros err. apply sat_error.
Qed.

(** * A collection *)

(** No manifest is added or changed, which a collection relies on; it only deletes. *)
Definition manifests_shrink (o o' : objects) : Prop := ∀ id blob, o' !! mkey id = Some blob → o !! mkey id = Some blob.
Definition only_deletes (o o' : objects) : Prop := ∀ k v, o' !! k = Some v → o !! k = Some v.

(** Every manifest is yet to be read or has its chunks in [live]. *)
Definition covered (manifestKeys : list string) (live : gset string) (o : objects) : Prop :=
  ∀ id blob, o !! mkey id = Some blob → mkey id ∈ manifestKeys ∨ ∃ m, reads blob m ∧ ∀ h, h ∈ refs m → h ∈ live.

Lemma covered_stable mks live : stable manifests_shrink (covered mks live).
Proof. intros o o' Hs Hc id blob H%Hs. by apply Hc. Qed.

Lemma only_deletes_refl o : only_deletes o o.
Proof. by intros k v. Qed.

Lemma only_deletes_delete o k : only_deletes o (delete k o).
Proof. by intros k' v [_ ?]%lookup_delete_Some. Qed.

Lemma only_deletes_shrink o o' : only_deletes o o' → manifests_shrink o o'.
Proof. intros H id blob. apply H. Qed.

Lemma sat_collect {B} (Q : B → objects → Prop) (f : gset string → prog B) mks : ∀ live,
  (∀ live, sat manifests_shrink only_deletes Q (covered [] live) (f live)) →
  sat manifests_shrink only_deletes Q (covered mks live) (Engine.collect_live e mks live ≫= f).
Proof.
  induction mks as [|mk mks IH]; intros live Hf; [apply Hf|]. cbn [Engine.collect_live]. unfold Engine.readManifestKey. cbn [mbind prog_bind].
  apply sat_Get; [apply only_deletes_refl|apply covered_stable| |intros err; apply sat_error].
  intros o blob Ho Hc Hb. cbn [throw]. unfold call, of_option. cbn [mbind prog_bind].
  destruct (Engine.unpack e blob) as [raw|err] eqn:Hu; cbn [throw]; [|exists (λ _, True); split_and!; [by intros ?|done|apply sat_error]].
  destruct (json_Unmarshal raw) as [m|] eqn:Hj; cbn [throw]; [|exists (λ _, True); split_and!; [by intros ?|done|apply sat_error]].
  exists (covered mks (list_to_set (refs m) ∪ live)). split_and!; [apply covered_stable| |by apply IH].
  intros id b Hid. destruct (Hc id b Hid) as [[Heq|?]%elem_of_cons|(m' & Hr & Hl)]; [|by left|].
  - right. rewrite Heq, Hb in Hid. injection Hid as <-. exists m. split; [by exists raw|]. intros h Hh. set_solver.
  - right. exists m'. split; [done|]. set_solver.
Qed.

Lemma chunk_hash_ckey h : Engine.chunk_hash (ckey h) = h.
Proof.
  unfold Engine.chunk_hash. rewrite length_string_app. replace (_ - _) with (String.length h) by lia. apply substring_app_r.
Qed.

Lemma sat_delete_dead cks live : ∀ n, Forall (λ ck, ∃ h, ck = ckey h) cks →
  sat manifests_shrink only_deletes (λ _ _, True) (covered [] live) (Engine.delete_dead cks live n).
Proof.
  induction cks as [|ck cks IH]; intros n Hc; [by apply sat_return|]. apply Forall_cons in Hc as [[h ->] Hc]. cbn [Engine.delete_dead].
  rewrite chunk_hash_ckey. case_bool_decide as Hl; [by apply IH|].
  eapply sat_Delete with (K' := covered [] live); [apply only_deletes_refl|apply covered_stable|apply covered_stable| |done|by apply IH|intros err; apply sat_error].
  intros o Ho Hcov. split; [|split; [apply only_deletes_delete|]].
  - apply sound_delete_chunk; [done|]. intros id blob Hb. destruct (Hcov id blob Hb) as [Hx|(m & Hr & Hm)]; [by apply elem_of_nil in Hx|].
    exists m. split; [done|]. by intros ?%Hm.
  - eapply covered_stable; [|exact Hcov]. apply only_deletes_shrink, only_deletes_delete.
Qed.

Lemma elem_of_List p k o : k ∈ MemStore.List p o ↔ is_Some (o !! k) ∧ HasPrefix k p = true.
Proof.
  unfold MemStore.List. rewrite sort_slice_perm, list_elem_of_filter, list_elem_of_fmap. split.
  - intros [Hp ([k' v] & -> & Hv%elem_of_map_to_list)]. split; [by exists v|]. by apply Is_true_true.
  - intros [[v Hv] Hp]. split; [by apply Is_true_true|]. exists (k, v). split; [done|]. by apply elem_of_map_to_list.
Qed.

Lemma HasPrefix_app p s : HasPrefix (p +:+ s) p = true.
Proof. unfold HasPrefix. induction p as [|c p IH]; [by destruct s|]. rewrite string_cons_app. cbn. destruct (ascii_dec c c) as [_|]; [exact IH|congruence]. Qed.

Lemma HasPrefix_split p k : HasPrefix k p = true → ∃ s, k = p +:+ s.
Proof.
  unfold HasPrefix. revert k. induction p as [|c p IH]; intros [|c' k]; cbn; try done; [by exists ""|by eexists|].
  destruct (ascii_dec c c') as [->|]; [|done]. intros (s & ->)%IH. by exists s.
Qed.

Lemma sat_List {A} rely G (Q : A → objects → Prop) K p k : (∀ o, G o o) → stable rely K →
  (∀ o, sound o → K o → ∃ K' : objects → Prop, stable rely K' ∧ K' o ∧ sat rely G Q K' (k (inl (MemStore.List p o)))) →
  (∀ err, sat rely G Q K (k (inr err))) → sat rely G Q K (List_ p k).
Proof.
  intros HG HK H He. apply sat_reads; [done|done|done|]. intros o a nonce p' o' Ho Hk Hn.
  destruct a; cbn [serve]; intros [= <- <-]; (split; [done|]); [by apply H|eauto].
Qed.

Lemma sat_Prune dead : sat manifests_shrink only_deletes (λ _ _, True) (λ _, True) (Engine.PruneSnapshots e dead).
Proof.
  unfold Engine.PruneSnapshots. assert (stable manifests_shrink (λ _ : objects, True)) as Htriv by (by intros ?).
  induction dead as [|id dead IH]; cbn [Engine.delete_manifests].
  - unfold Engine.Prune. apply sat_List; [apply only_deletes_refl|done| |intros err; apply sat_error].
    intros o Ho _. exists (covered (MemStore.List Engine.manifestPrefix o) ∅). split_and!; [apply covered_stable| |].
    { intros i blob Hb. left. apply elem_of_List. split; [by exists blob|]. apply HasPrefix_app. }
    cbn [throw]. apply sat_collect. intros live. apply sat_List; [apply only_deletes_refl|apply covered_stable| |intros err; apply sat_error].
    intros o' Ho' Hc. exists (covered [] live). split_and!; [apply covered_stable|done|]. cbn [throw]. apply sat_delete_dead.
    apply Forall_forall. intros ck [_ (h & ->)%HasPrefix_split]%elem_of_List. by exists h.
  - eapply sat_Delete with (K' := λ _, True); [apply only_deletes_refl|done|done| |done|done|done].
    intros o Ho _. split; [by apply sound_delete_manifest|]. split; [apply only_deletes_delete|done].
Qed.

(** * A restore *)

Lemma unpack_chunk o h blob data : sound o → o !! ckey h = Some blob → P data → sha256_hex data = h → Engine.unpack e blob = inl data.
Proof.
  intros Ho Hb HP <-. destruct (sound_chunks _ Ho _ _ Hb) as (d & Hu & Hs & Hd). by rewrite <- (no_collision d data Hd HP Hs).
Qed.

(** What streams out without error is what was cut. *)
Definition exact (id : string) (r : bytes * option volume_error) : Prop :=
  r.2 = None → ∃ chunks, D id chunks ∧ r.1 = concat chunks.

Lemma sat_stream id chunks : D id chunks → ∀ rest done, chunks = done ++ rest →
  sat (λ _ _, True) eq (λ r _, exact id r) (λ _, True) (Engine.streamChunks e (chunk_ref <$> rest) (concat done)).
Proof.
  intros HD. assert (∀ w err, sat (λ _ _, True) eq (λ r (_ : objects), exact id r) (λ _, True) (Return (inl (w, Some err)))) as Herr.
  { intros w err. apply sat_return. by intros ? ? [= <-] _. }
  induction rest as [|data rest IH]; intros done ->.
  { apply sat_return. intros ? ? [= <-] _ _. exists done. split; [by rewrite app_nil_r in HD|done]. }
  cbn [fmap list_fmap Engine.streamChunks]. apply sat_Get; [done|by intros ?| |intros err; apply Herr].
  intros o blob Ho _ Hb. exists (λ _, True). split; [by intros ?|]. split; [done|].
  rewrite (unpack_chunk o _ blob data Ho Hb); [|apply D_cut, Forall_app in HD as [_ HP]; by apply Forall_cons in HP as [? _]|done].
  replace (concat done ++ data) with (concat (done ++ [data])) by (rewrite concat_app; cbn; by rewrite app_nil_r).
  apply IH. by rewrite <- app_assoc.
Qed.

Lemma sat_Restore id : sat (λ _ _, True) eq (λ r _, exact id r) (λ _, True) (Engine.Restore e id).
Proof.
  unfold Engine.Restore, Engine.getManifest, Engine.readManifestKey. cbn [mbind prog_bind].
  apply sat_Get; [done|by intros ?| |intros err; apply sat_error]. intros o blob Ho _ Hb. exists (λ _, True).
  split; [by intros ?|]. split; [done|]. cbn [throw]. unfold call, of_option. cbn [mbind prog_bind].
  destruct (sound_manifests _ Ho _ _ Hb) as (chunks & at_ & HD & (raw & Hu & Hj) & _).
  rewrite Hu. cbn [throw]. rewrite Hj. cbn [throw]. by apply (sat_stream id chunks HD chunks []).
Qed.

(** On its own, with its manifest and its chunks there, it delivers all. *)
Lemma run_stream rand o : sound o → ∀ rest n w, Forall P rest → all_present rest o →
  run rand n (Engine.streamChunks e (chunk_ref <$> rest) w) o = (inl (w ++ concat rest, None), o, []).
Proof.
  intros Ho. induction rest as [|data rest IH]; intros n w HP Ha; [by rewrite app_nil_r|].
  apply Forall_cons in HP as [Hd HP]. unfold all_present in Ha. cbn [fmap list_fmap] in Ha. apply Forall_cons in Ha as [[blob Hb] Ha].
  cbn [fmap list_fmap Engine.streamChunks run]. unfold MemStore.Get. cbn [chunk_ref ChunkRef.Hash]. rewrite Hb.
  rewrite (unpack_chunk o _ blob data Ho Hb) by done. rewrite IH by done. cbn [concat]. by rewrite app_assoc.
Qed.

Lemma run_Restore rand o id : sound o → is_Some (o !! mkey id) →
  ∃ chunks, D id chunks ∧ run rand 0 (Engine.Restore e id) o = (inl (concat chunks, None), o, []).
Proof.
  intros Ho [blob Hb]. destruct (sound_manifests _ Ho _ _ Hb) as (chunks & at_ & HD & (raw & Hu & Hj) & Ha).
  exists chunks. split; [done|]. unfold Engine.Restore, Engine.getManifest, Engine.readManifestKey. cbn [mbind prog_bind run].
  unfold MemStore.Get. rewrite Hb. cbn [throw]. unfold call, of_option. cbn [mbind prog_bind]. rewrite Hu. cbn [throw]. rewrite Hj. cbn [throw].
  apply (run_stream rand o Ho chunks 1 []); [by eapply D_cut|done].
Qed.

(** * The bucket *)

(** A program under way does as it should from here on; a finished one has a right result. *)
Definition settled {A} (rely G : objects → objects → Prop) (Q : A → Prop) (p : prog A) (o : objects) : Prop :=
  (∀ a, p = Return (inl a) → Q a) ∧
  ((∀ r, p ≠ Return r) → ∃ K : objects → Prop, stable rely K ∧ K o ∧ sat rely G (λ a _, Q a) K p).

Lemma settled_start {A} rely G (Q : A → Prop) p o : sat rely G (λ a _, Q a) (λ _, True) p → settled rely G Q p o.
Proof.
  intros Hs. split; [|intros _; by exists (λ _, True)]. intros a ->. by eapply (sat_result _ _ _ _ _ o Hs).
Qed.

Lemma settled_serve {A} rely G (Q : A → Prop) p o a nonce p' o' : settled rely G Q p o → sound o → length nonce = Engine.nonceSize →
  serve a nonce p o = (p', o') → sound o' ∧ ((∀ r, p ≠ Return r) ∧ G o o' ∨ o' = o) ∧ settled rely G Q p' o'.
Proof.
  intros [Hd Hu] Ho Hn Hs. assert ((∃ r, p = Return r) ∨ (∀ r, p ≠ Return r)) as [[r ->]|Hr].
  { destruct p; [left; by eexists|right; done..]. }
  { assert (p' = Return r ∧ o' = o) as [-> ->] by (by destruct a; injection Hs as <- <-). split; [done|]. split; [by right|]. by split. }
  destruct (Hu Hr) as (K & _ & HK & Hsat). destruct (sat_step _ _ _ _ _ _ _ _ _ _ Hsat Hr Ho HK Hn Hs) as (Ho' & HG & K' & Hst & HK' & Hsat').
  split; [done|]. split; [by left|]. split; [|by exists K']. intros b ->. by eapply (sat_result _ _ _ _ _ o' Hsat').
Qed.

Lemma settled_rely {A} rely G (Q : A → Prop) p o o' : settled rely G Q p o → ((∀ r, p ≠ Return r) → rely o o') → settled rely G Q p o'.
Proof. intros [Hd Hu] Hr. split; [done|]. intros Hp. destruct (Hu Hp) as (K & Hst & HK & ?). exists K. eauto. Qed.

Definition task_settled (o : objects) (k : Bucket.task) : Prop :=
  match k with
  | Bucket.Snapshotting id tar at_ p => settled chunks_stay chunks_stay
      (λ m, ∃ chunks, cdc_Chunks (Engine.opts e) tar = Some (chunks, true) ∧ m = manifest_for chunks at_) p o
  | Bucket.Pruning _ p => settled manifests_shrink only_deletes (λ _, True) p o
  | Bucket.Restoring id p => settled (λ _ _, True) eq (exact id) p o
  end.

Definition admits (s : Bucket.t) : Prop := ∀ id chunks ok, Bucket.cut_for e s id chunks ok → Forall P chunks ∧ (ok = true → D id chunks).

Definition good (s : Bucket.t) : Prop := sound (Bucket.objs s) ∧ Forall (task_settled (Bucket.objs s)) (Bucket.tasks s).

Lemma taking_not_done id tar at_ p : (∀ r, p ≠ Return r) ↔ Bucket.taking (Bucket.Snapshotting id tar at_ p) = true.
Proof. destruct p as [r| | | | | | |]; cbn; split; intros H; try done. by destruct (H r). Qed.

Lemma collecting_not_done dead p : (∀ r, p ≠ Return r) ↔ Bucket.collecting (Bucket.Pruning dead p) = true.
Proof. destruct p as [r| | | | | | |]; cbn; split; intros H; try done. by destruct (H r). Qed.

Lemma exclusive_tasks s k k' : Bucket.exclusive s → k ∈ Bucket.tasks s → k' ∈ Bucket.tasks s →
  Bucket.taking k = true → Bucket.collecting k' = true → False.
Proof.
  intros He Hk Hk' H1 H2. apply andb_false_iff in He as [He|He]; apply not_true_iff_false in He; apply He, existsb_exists;
    [exists k|exists k']; (split; [by apply list_elem_of_In|done]).
Qed.

(** What one task does, the others can rely on. *)
Lemma others_settled s i k o' j l : Bucket.exclusive s →
  Bucket.tasks s !! i = Some k → Bucket.tasks s !! j = Some l → task_settled (Bucket.objs s) l →
  match k with
  | Bucket.Snapshotting _ _ _ p => (∀ r, p ≠ Return r) ∧ chunks_stay (Bucket.objs s) o' ∨ o' = Bucket.objs s
  | Bucket.Pruning _ p => (∀ r, p ≠ Return r) ∧ only_deletes (Bucket.objs s) o' ∨ o' = Bucket.objs s
  | Bucket.Restoring _ _ => o' = Bucket.objs s
  end → task_settled o' l.
Proof.
  intros He Hi Hj Hl Hk. assert (o' = Bucket.objs s → task_settled o' l) as Hsame by (by intros ->).
  apply list_elem_of_lookup_2 in Hi, Hj. destruct k as [id tar at_ p|dead p|id p]; [| |by apply Hsame];
    (destruct Hk as [[Hp Hg]|Hk]; [|by apply Hsame]); destruct l as [id' tar' at' p'|dead' p'|id' p']; cbn [task_settled] in *.
  - by eapply settled_rely.
  - eapply settled_rely; [done|]. intros Hp'. exfalso. eapply exclusive_tasks; [exact He|exact Hi|exact Hj|by apply taking_not_done|by apply collecting_not_done].
  - by eapply settled_rely.
  - eapply settled_rely; [done|]. intros Hp'. exfalso. eapply exclusive_tasks; [exact He|exact Hj|exact Hi|by apply taking_not_done|by apply collecting_not_done].
  - eapply settled_rely; [done|]. intros _. by apply only_deletes_shrink.
  - by eapply settled_rely.
Qed.

Lemma good_working s i k a nonce k' o' : Bucket.exclusive s → good s → Bucket.tasks s !! i = Some k → length nonce = Engine.nonceSize →
  Bucket.work a nonce k (Bucket.objs s) = (k', o') → good (Bucket.mk o' (<[i := k']> (Bucket.tasks s))).
Proof.
  intros He [Ho Ht] Hi Hn Hw. pose proof (proj1 (Forall_lookup _ _) Ht) as Hl. pose proof (Hl _ _ Hi) as Hk.
  assert (sound o' ∧ task_settled o' k' ∧ match k with
    | Bucket.Snapshotting _ _ _ p => (∀ r, p ≠ Return r) ∧ chunks_stay (Bucket.objs s) o' ∨ o' = Bucket.objs s
    | Bucket.Pruning _ p => (∀ r, p ≠ Return r) ∧ only_deletes (Bucket.objs s) o' ∨ o' = Bucket.objs s
    | Bucket.Restoring _ _ => o' = Bucket.objs s
    end) as (Ho' & Hk' & Hd).
  { destruct k as [id tar at_ p|dead p|id p]; cbn [Bucket.work task_settled] in *;
      destruct (serve a nonce p (Bucket.objs s)) as [p' o1] eqn:Hs; injection Hw as <- <-;
      destruct (settled_serve _ _ _ _ _ _ _ _ _ Hk Ho Hn Hs) as (? & Hd & ?); (split; [done|]); (split; [done|]); try exact Hd.
    by destruct Hd as [[_ <-]|]. }
  split; [done|]. cbn [Bucket.objs Bucket.tasks]. apply Forall_lookup. intros j l.
  destruct (decide (i = j)) as [<-|Hne].
  - rewrite list_lookup_insert_eq by (by eapply lookup_lt_Some). by intros [= <-].
  - rewrite list_lookup_insert_ne by done. intros Hj. eapply others_settled; [exact He|exact Hi|exact Hj|by eapply Hl|exact Hd].
Qed.

Lemma admits_step s s' : Bucket.step e s s' → admits s' → admits s.
Proof.
  intros Hs Ha id chunks ok (tar & at_ & p & Hin & Hc). eapply Ha.
  assert (∃ p', Bucket.Snapshotting id tar at_ p' ∈ Bucket.tasks s') as [p' Hin']; [|by exists tar, at_, p'].
  destruct Hs as [o ks id' tar' at' Hf|o ks dead|o ks id'|o ks i k a nonce k' o' Hi Hn Hw]; cbn [Bucket.tasks] in *; try (exists p; apply elem_of_app; by left).
  apply list_elem_of_lookup in Hin as [j Hj]. destruct (decide (i = j)) as [<-|Hne].
  - rewrite Hi in Hj. injection Hj as ->. cbn [Bucket.work] in Hw. destruct (serve a nonce p o) as [p' o1] eqn:Hs. injection Hw as <- <-.
    exists p'. eapply list_elem_of_lookup_2. apply list_lookup_insert_eq. by eapply lookup_lt_Some.
  - exists p. eapply list_elem_of_lookup_2. by rewrite list_lookup_insert_ne.
Qed.

Lemma good_start o ks k : good (Bucket.mk o ks) → task_settled o k → good (Bucket.mk o (ks ++ [k])).
Proof. intros [Ho Ht] Hk. split; [done|]. cbn [Bucket.objs Bucket.tasks] in *. apply Forall_app. split; [done|]. by constructor. Qed.

Lemma good_step s s' : Bucket.exclusive s → Bucket.step e s s' → admits s' → good s → good s'.
Proof.
  intros He Hs Ha Hg. destruct Hs as [o ks id tar at_ Hf|o ks dead|o ks id|o ks i k a nonce k' o' Hi Hn Hw].
  - apply good_start; [done|]. apply settled_start. apply sat_Snapshot. intros chunks ok Hc. apply Ha.
    exists tar, at_, (Engine.Snapshot e tar id at_). split; [|done]. apply elem_of_app. right. by apply list_elem_of_singleton.
  - apply good_start; [done|]. apply settled_start, sat_Prune.
  - apply good_start; [done|]. apply settled_start, sat_Restore.
  - by eapply (good_working (Bucket.mk o ks)).
Qed.

Lemma reachable_good s : Bucket.reachable e s → admits s → good s.
Proof.
  induction 1 as [|s s' Hr IH He Hs]; intros Ha; [split; [apply sound_empty|by constructor]|].
  eapply good_step; [exact He|exact Hs|exact Ha|]. apply IH. by eapply admits_step.
Qed.

(** * The collector on its own *)

Lemma run_collect rand o : sound o → ∀ mks live, Forall (λ mk, ∃ id, mk = mkey id ∧ is_Some (o !! mk)) mks →
  ∃ live', (∀ h, h ∈ live' ↔ h ∈ live ∨ ∃ mk blob m, mk ∈ mks ∧ o !! mk = Some blob ∧ reads blob m ∧ h ∈ refs m) ∧
    ∀ B (f : gset string → prog B) n, ∃ n', run rand n (Engine.collect_live e mks live ≫= f) o = run rand n' (f live') o.
Proof.
  intros Ho. induction mks as [|mk mks IH]; intros live Hm.
  { exists live. split; [|intros B f n; by exists n]. intros h. split; [by left|]. intros [?|(mk & ? & ? & Hx%elem_of_nil & _)]; done. }
  apply Forall_cons in Hm as [(id & -> & blob & Hb) Hm]. destruct (sound_manifests _ Ho _ _ Hb) as (c & a & _ & Hr & _).
  destruct (IH (list_to_set (refs (manifest_for c a)) ∪ live) Hm) as (live' & Hl & Hrun). exists live'. split.
  - intros h. rewrite Hl, elem_of_union, elem_of_list_to_set. split.
    + intros [[Hh|Hh]|(mk & b & m & Hin & ? & ? & ?)]; [right|by left|right].
      * exists (mkey id), blob, (manifest_for c a). split; [by left|done].
      * exists mk, b, m. split; [by right|done].
    + intros [Hh|(mk & b & m & [->|Hin]%elem_of_cons & Hb' & Hr' & Hh)]; [by left; right| |].
      * rewrite Hb in Hb'. injection Hb' as <-. rewrite (reads_fun _ _ _ Hr' Hr) in Hh. by left; left.
      * right. by exists mk, b, m.
  - intros B f n. destruct Hr as (raw & Hu & Hj). destruct (Hrun B f (S n)) as [n' Hn']. exists n'.
    cbn [Engine.collect_live]. unfold Engine.readManifestKey. cbn [mbind prog_bind run]. unfold MemStore.Get. rewrite Hb. cbn [throw].
    unfold call, of_option. cbn [mbind prog_bind]. rewrite Hu. cbn [throw]. rewrite Hj. exact Hn'.
Qed.

Lemma run_delete_dead rand live cks : ∀ n d o, NoDup cks → Forall (λ ck, is_Some (o !! ck)) cks →
  ∃ d' o', run rand n (Engine.delete_dead cks live d) o = (inl d', o', []) ∧ d' + size o' = d + size o ∧
    ∀ k, o' !! k = if bool_decide (k ∈ cks ∧ Engine.chunk_hash k ∉ live) then None else o !! k.
Proof.
  induction cks as [|ck cks IH]; intros n d o Hd Hp.
  { exists d, o. split_and!; [done|lia|]. intros k. rewrite bool_decide_false; [done|]. by intros [?%elem_of_nil _]. }
  apply NoDup_cons in Hd as [Hck Hd]. apply Forall_cons in Hp as [[v Hv] Hp]. cbn [Engine.delete_dead].
  case_bool_decide as Hl.
  - destruct (IH n d o Hd Hp) as (d' & o' & Hr & Hs & Hk). exists d', o'. split_and!; [done|done|]. intros k. rewrite Hk.
    apply (f_equal (λ b : bool, if b then None else o !! k)), bool_decide_ext. rewrite elem_of_cons.
    split; [intros [? ?]; split; [by right|done]|]. intros [[->|?] ?]; [done|by split].
  - cbn [run throw]. unfold MemStore.Delete. destruct (IH (S n) (S d) (delete ck o) Hd) as (d' & o' & Hr & Hs & Hk).
    { apply Forall_forall. intros k Hk. rewrite lookup_delete_ne by (by intros ->). by apply (proj1 (Forall_forall _ _) Hp). }
    exists d', o'. split_and!; [done| |].
    + rewrite map_size_delete_Some in Hs by (by exists v). pose proof (map_size_ne_0_lookup_2 o ck (mk_is_Some _ _ Hv)). lia.
    + intros k. rewrite Hk. destruct (decide (k = ck)) as [->|Hne].
      * rewrite bool_decide_false by (by intros [? _]). rewrite lookup_delete, decide_True by done.
        rewrite bool_decide_true; [done|]. split; [by left|done].
      * rewrite lookup_delete_ne by done.
        apply (f_equal (λ b : bool, if b then None else o !! k)), bool_decide_ext. rewrite elem_of_cons.
        split; [intros [? ?]; split; [by right|done]|]. intros [[->|?] ?]; [done|by split].
Qed.

Lemma run_delete_manifests {A} rand (p : prog A) dead : ∀ n o, sound o →
  ∃ n' o', run rand n (Engine.delete_manifests dead p) o = run rand n' p o' ∧ sound o' ∧
    ∀ k, o' !! k = if bool_decide (k ∈ (λ id, mkey id) <$> dead) then None else o !! k.
Proof.
  induction dead as [|id dead IH]; intros n o Ho; [by exists n, o|].
  destruct (IH (S n) (delete (mkey id) o) (sound_delete_manifest _ _ Ho)) as (n' & o' & Hr & Ho' & Hk).
  exists n', o'. split_and!; [done|done|]. intros k. rewrite Hk. cbn [fmap list_fmap]. destruct (decide (k = mkey id)) as [->|Hne].
  - rewrite lookup_delete, decide_True by done. rewrite (bool_decide_true (_ ∈ _ :: _)) by left. by case_bool_decide.
  - rewrite lookup_delete_ne by done. apply (f_equal (λ b : bool, if b then None else o !! k)), bool_decide_ext.
    rewrite elem_of_cons. tauto.
Qed.

Lemma mkey_dead id (dead : list string) : mkey id ∈ (λ id, mkey id) <$> dead ↔ id ∈ dead.
Proof.
  rewrite list_elem_of_fmap. split; [intros (i & ->%mkey_inj & ?); done|]. intros ?. by exists id.
Qed.

(** What is deleted: the manifests of [dead], and the chunks no other lists. *)
Lemma run_Prune rand dead o : sound o → ∃ n o', run rand 0 (Engine.PruneSnapshots e dead) o = (inl n, o', []) ∧
  (∀ id, o' !! mkey id = if bool_decide (id ∈ dead) then None else o !! mkey id) ∧
  (∀ h, o' !! ckey h = o !! ckey h ∨ o' !! ckey h = None) ∧
  (∀ h, present o' h ↔ ∃ id blob m, o' !! mkey id = Some blob ∧ reads blob m ∧ h ∈ refs m) ∧
  (∀ k, HasPrefix k Engine.chunkPrefix = false → HasPrefix k Engine.manifestPrefix = false → o' !! k = o !! k) ∧
  sound o'.
Proof.
  intros Ho. destruct (run_delete_manifests rand (Engine.Prune e) dead 0 o Ho) as (n1 & o1 & Hr1 & Ho1 & Hk1).
  unfold Engine.PruneSnapshots. rewrite Hr1. unfold Engine.Prune. cbn [run throw].
  destruct (run_collect rand o1 Ho1 (MemStore.List Engine.manifestPrefix o1) ∅) as (live & Hlive & Hrun).
  { apply Forall_forall. intros k [Hk (id & ->)%HasPrefix_split]%elem_of_List. by exists id. }
  destruct (Hrun _ (λ live, List_ Engine.chunkPrefix (throw (λ chunkKeys, Engine.delete_dead chunkKeys live 0))) (S n1)) as [n2 Hr2].
  rewrite Hr2. cbn [run throw].
  destruct (run_delete_dead rand live (MemStore.List Engine.chunkPrefix o1) (S n2) 0 o1) as (d & o2 & Hr3 & _ & Hk2).
  { unfold MemStore.List. rewrite sort_slice_perm. apply NoDup_filter, NoDup_fst_map_to_list. }
  { apply Forall_forall. intros k Hk. by apply elem_of_List in Hk as [? _]. }
  rewrite Hr3. exists d, o2. split; [done|].
  assert (∀ id, o2 !! mkey id = o1 !! mkey id) as Hm.
  { intros id. rewrite Hk2, bool_decide_false; [done|]. by intros [[_ ?]%elem_of_List _]. }
  assert (∀ h, h ∈ live ↔ ∃ id blob m, o2 !! mkey id = Some blob ∧ reads blob m ∧ h ∈ refs m) as Hl.
  { intros h. rewrite Hlive. split.
    - intros [?|(k & blob & m & [_ (id & ->)%HasPrefix_split]%elem_of_List & Hb & ? & ?)]; [set_solver|]. exists id, blob, m. by rewrite Hm.
    - intros (id & blob & m & Hb & ? & ?). rewrite Hm in Hb. right. exists (mkey id), blob, m. split_and!; [|done..].
      apply elem_of_List. split; [by exists blob|apply HasPrefix_app]. }
  assert (∀ h, o2 !! ckey h = if bool_decide (h ∈ live) then o1 !! ckey h else None) as Hc.
  { intros h. rewrite Hk2, chunk_hash_ckey. case_bool_decide as Hx; case_bool_decide as Hy; try done; [by destruct Hx as [_ []]|].
    destruct (o1 !! ckey h) as [v|] eqn:E; [|done]. destruct Hx. split; [|done]. apply elem_of_List. split; [by exists v|apply HasPrefix_app]. }
  assert (∀ h, o1 !! ckey h = o !! ckey h) as Hc1.
  { intros h. rewrite Hk1, bool_decide_false; [done|]. intros (i & Hi & _)%list_elem_of_fmap. done. }
  assert (∀ h, present o2 h ↔ ∃ id blob m, o2 !! mkey id = Some blob ∧ reads blob m ∧ h ∈ refs m) as Hp.
  { intros h. rewrite <- Hl. unfold present. rewrite Hc. case_bool_decide as Hh; [|split; [by intros [? ?]|done]]. split; [done|]. intros _.
    apply Hlive in Hh as [?|(k & blob & m & [_ (id & ->)%HasPrefix_split]%elem_of_List & Hb & Hr & Hin)]; [set_solver|].
    destruct (sound_manifests _ Ho1 _ _ Hb) as (c & a & _ & Hr' & Ha). rewrite (reads_fun _ _ _ Hr Hr'), refs_manifest in Hin.
    by apply (proj1 (Forall_forall _ _) Ha). }
  split_and!; try exact Hp.
  - intros id. rewrite Hm, Hk1. apply (f_equal (λ b : bool, if b then None else o !! mkey id)), bool_decide_ext, mkey_dead.
  - intros h. rewrite Hc, Hc1. case_bool_decide; auto.
  - intros k Hpc Hpm. rewrite Hk2, bool_decide_false by (intros [[_ ?]%elem_of_List _]; congruence).
    rewrite Hk1, bool_decide_false; [done|]. intros (i & -> & _)%list_elem_of_fmap. by rewrite HasPrefix_app in Hpm.
  - split.
    + intros h blob. rewrite Hc. case_bool_decide; [|done]. apply (sound_chunks _ Ho1).
    + intros id blob Hb. pose proof Hb as Hb1. rewrite Hm in Hb1. destruct (sound_manifests _ Ho1 _ _ Hb1) as (c & a & ? & Hr & _).
      exists c, a. split_and!; [done..|]. apply Forall_forall. intros h Hh. apply Hp. exists id, blob, (manifest_for c a).
      by rewrite refs_manifest.
Qed.

(** * A snapshot on its own *)

Lemma run_upload rand at_ rest : (∀ n, length (rand n) = Engine.nonceSize) → ∀ done n up o,
  Forall P rest → sound o → all_present done o →
  ∃ n' o' zs, sound o' ∧ all_present (done ++ rest) o' ∧ (all_present (done ++ rest) o → o' = o ∧ zs = []) ∧
    ∀ B (f : Manifest.t → prog B), run rand n (Engine.upload e rest true (manifest_for done at_) up ≫= f) o =
      let '(r, o2, zs2) := run rand n' (f (manifest_for (done ++ rest) at_)) o' in (r, o2, zs ++ zs2).
Proof.
  intros Hrand. induction rest as [|data rest IH]; intros done n up o HP Ho Ha.
  { exists n, o, []. rewrite !app_nil_r. split_and!; [done..|]. intros B f. cbn [Engine.upload mbind prog_bind mret prog_ret throw].
    by destruct (run rand n (f (manifest_for done at_)) o) as [[r o2] zs2]. }
  apply Forall_cons in HP as [Hd HP]. replace (done ++ data :: rest) with ((done ++ [data]) ++ rest) by (by rewrite <- app_assoc).
  cbn [Engine.upload]. cbv zeta. rewrite manifest_snoc. cbn [mbind prog_bind run]. unfold MemStore.Has.
  case_bool_decide as Hh; cbn [throw].
  - destruct (IH (done ++ [data]) (S n) up o HP Ho) as (n' & o' & zs & Ho' & Ha' & Hn & Hr); [by apply all_present_snoc|].
    exists n', o', zs. split_and!; done.
  - unfold Engine.seal. rewrite key_ok. cbn [negb Nat.eqb mbind prog_bind mret prog_ret throw run]. unfold MemStore.Put.
    set (o1 := <[_ := _]> o).
    destruct (IH (done ++ [data]) (S (S (S (S n)))) (up + Z.of_nat (length data))%Z o1 HP) as (n' & o' & zs & Ho' & Ha' & Hn & Hr).
    { apply sound_put_chunk; [done|done|by apply unpack_sealed]. }
    { apply all_present_snoc. split; [|unfold present, o1; by rewrite lookup_insert, decide_True].
      eapply all_present_mono; [|exact Ha]. intros h. apply present_insert. }
    exists n', o', ((up + Z.of_nat (length data))%Z :: zs). split_and!; [done|done| |].
    + intros Hall. exfalso. apply Hh. unfold all_present in Hall. rewrite !fmap_app, !Forall_app in Hall.
      destruct Hall as [[_ Hx] _]. by apply Forall_cons in Hx as [? _].
    + intros B f. rewrite Hr. by destruct (run rand n' _ o') as [[r o2] zs2].
Qed.

(** It succeeds when no call fails, and uploads nothing when all its chunks are stored. *)
Lemma run_Snapshot rand id tar at_ chunks o : (∀ n, length (rand n) = Engine.nonceSize) →
  cdc_Chunks (Engine.opts e) tar = Some (chunks, true) → D id chunks → sound o →
  ∃ o' blob zs, run rand 0 (Engine.Snapshot e tar id at_) o = (inl (manifest_for chunks at_), <[mkey id := blob]> o', zs) ∧
    sound (<[mkey id := blob]> o') ∧ (all_present chunks o → o' = o ∧ zs = []).
Proof.
  intros Hrand Hc HD Ho. unfold Engine.Snapshot. rewrite Hc.
  destruct (run_upload rand at_ chunks Hrand [] 0 0%Z o) as (n & o' & zs & Ho' & Ha & Hn & Hr); [by eapply D_cut|done|by apply Forall_nil|].
  cbn [app] in *. change (Manifest.mk Engine.manifestVer [] 0 at_) with (manifest_for [] at_). rewrite Hr.
  unfold Engine.putManifest, Engine.seal. rewrite key_ok. cbn [negb Nat.eqb mbind prog_bind mret prog_ret throw run]. unfold MemStore.Put.
  eexists o', _, zs. split; [by rewrite app_nil_r|]. split; [|done].
  eapply sound_put_manifest; [done|done| |done]. apply reads_sealed; [done|].
  unfold manifest_for. cbn. apply Forall_fmap, Forall_forall. intros d _. by exists d.
Qed.
End engine.

Lemma sound_widen {L : SnapLib} e P (D D' : string → list bytes → Prop) o : (∀ id c, D id c → D' id c) → sound e P D o → sound e P D' o.
Proof. intros HD [Hc Hm]. split; [exact Hc|]. intros id blob (c & a & ? & ?)%Hm. exists c, a. split; [by apply HD|done]. Qed.

(** * The ids of snapshots *)

Section bucket.
Context {L : SnapLib} {LOk : SnapLibOk L} (e : Engine.t).
Hypothesis key_ok : length (Engine.key e) = 32.

(** The snapshots have ids of their own. *)
Definition distinct (ks : list Bucket.task) : Prop := ∀ i j id tar at_ p tar' at' p',
  ks !! i = Some (Bucket.Snapshotting id tar at_ p) → ks !! j = Some (Bucket.Snapshotting id tar' at' p') → i = j.

Lemma distinct_app ks k : distinct ks → (∀ id tar at_ p, k = Bucket.Snapshotting id tar at_ p → Bucket.fresh id ks) → distinct (ks ++ [k]).
Proof.
  intros Hd Hf i j id tar at_ p tar' at' p' Hi Hj.
  assert (∀ n x y z, (ks ++ [k]) !! n = Some (Bucket.Snapshotting id x y z) →
    ks !! n = Some (Bucket.Snapshotting id x y z) ∨ n = length ks ∧ Bucket.fresh id ks) as Hcase.
  { intros n x y z [?|[Hn Hk]]%lookup_app_Some; [by left|]. right. apply list_lookup_singleton_Some in Hk as [? Hk]. split; [lia|]. by eapply Hf. }
  assert (∀ n x y z, ks !! n = Some (Bucket.Snapshotting id x y z) → Bucket.fresh id ks → False) as Hfresh.
  { intros n x y z Hn Hfr. apply (proj1 (Forall_lookup _ _) Hfr) in Hn. done. }
  destruct (Hcase _ _ _ _ Hi) as [Hi'|[-> Hfr]], (Hcase _ _ _ _ Hj) as [Hj'|[-> Hfr']]; [by eapply Hd| | |done]; exfalso; eauto.
Qed.

Lemma distinct_work ks i k a nonce o k' o' : distinct ks → ks !! i = Some k → Bucket.work a nonce k o = (k', o') → distinct (<[i := k']> ks).
Proof.
  intros Hd Hi Hw. assert (∀ n id x y z, <[i := k']> ks !! n = Some (Bucket.Snapshotting id x y z) →
    ∃ z', ks !! n = Some (Bucket.Snapshotting id x y z')) as H.
  { intros n id x y z. destruct (decide (i = n)) as [<-|Hne]; [|rewrite list_lookup_insert_ne by done; eauto].
    rewrite list_lookup_insert_eq by (by eapply lookup_lt_Some). intros [= Hk']. subst k'.
    destruct k; cbn [Bucket.work] in Hw; destruct (serve _ _ _ _) as [p1 o1]; injection Hw as; subst; try done. by eexists. }
  intros n m id tar at_ p tar' at' p' [? Hn]%H [? Hm]%H. by eapply Hd.
Qed.

Lemma reachable_distinct s : Bucket.reachable e s → distinct (Bucket.tasks s).
Proof.
  induction 1 as [|s s' Hr IH He Hs]; [by intros i ? ? ? ? ? ? ? ? ?|].
  destruct Hs as [o ks id tar at_ Hf|o ks dead|o ks id|o ks i k a nonce k' o' Hi Hn Hw]; cbn [Bucket.tasks] in *;
    try (apply distinct_app; [done|]; by intros ? ? ? ? [= <- <- <- <-]).
  by eapply distinct_work.
Qed.

Lemma cut_once s id tar at_ p chunks : Bucket.reachable e s → Bucket.Snapshotting id tar at_ p ∈ Bucket.tasks s →
  Bucket.cut_for e s id chunks true → concat chunks = tar.1.
Proof.
  intros Hr [i Hi]%list_elem_of_lookup (tar' & at' & p' & [j Hj]%list_elem_of_lookup & Hc).
  pose proof (reachable_distinct s Hr _ _ _ _ _ _ _ _ _ Hi Hj) as <-. rewrite Hi in Hj. injection Hj as <- _ _.
  by apply (cdc_Chunks_concat _ _ _ _ Hc).
Qed.

(** The chunks of [s], and what was cut for an id without error. *)
Definition some_chunk (s : Bucket.t) (d : bytes) : Prop := ∃ id c ok, Bucket.cut_for e s id c ok ∧ d ∈ c.
Definition whole (s : Bucket.t) (id : string) (c : list bytes) : Prop := Bucket.cut_for e s id c true.

Lemma some_chunk_of s id c ok : Bucket.cut_for e s id c ok → Forall (some_chunk s) c.
Proof. intros Hc. apply Forall_forall. intros d Hd. by exists id, c, ok. Qed.

Lemma no_collision_here s a b : Bucket.collision_free e s → some_chunk s a → some_chunk s b → sha256_hex a = sha256_hex b → a = b.
Proof. intros Hf (id & c & ok & Hc & Ha) (id' & c' & ok' & Hc' & Hb). by apply (Hf id c ok id' c' ok'). Qed.

Lemma reachable_good_here s : Bucket.reachable e s → Bucket.collision_free e s →
  good e (some_chunk s) (whole s) s.
Proof.
  intros Hr Hf. apply reachable_good; [done| | |done|].
  - intros id c. apply some_chunk_of.
  - intros a b. by apply no_collision_here.
  - intros id c ok Hc. split; [by eapply some_chunk_of|by intros ->].
Qed.

(** C18: whatever snapshots, collections and restores of a cluster do to a bucket, in any
    interleaving of their calls and with calls that fail with or without effect, as long as no
    collection runs while a snapshot is taken: a snapshot that was finished can be restored to
    the bytes of its tar, all of them and without an error, for as long as its manifest has not
    been deleted; and a restore that ran among the others and met no error has delivered the
    bytes of the tar that was cut for its snapshot, whole and in order. *)
Theorem snapshots_are_kept s : Bucket.reachable e s → Bucket.collision_free e s →
  (∀ id tar at_ m rand, Bucket.Snapshotting id tar at_ (Return (inl m)) ∈ Bucket.tasks s →
    is_Some (Bucket.objs s !! (Engine.manifestPrefix +:+ id)) →
    run rand 0 (Engine.Restore e id) (Bucket.objs s) = (inl (tar.1, None), Bucket.objs s, [])) ∧
  (∀ id tar at_ p bs, Bucket.Snapshotting id tar at_ p ∈ Bucket.tasks s →
    Bucket.Restoring id (Return (inl (bs, None))) ∈ Bucket.tasks s → bs = tar.1).
Proof.
  intros Hr Hf. destruct (reachable_good_here s Hr Hf) as [Ho Ht]. split.
  - intros id tar at_ m rand Hin Hm.
    destruct (run_Restore e (some_chunk s) (whole s) (λ id c, some_chunk_of s id c true) (λ a b, no_collision_here s a b Hf) rand _ _ Ho Hm)
      as (chunks & Hc & ->).
    by rewrite (cut_once s id tar at_ (Return (inl m)) chunks).
  - intros id tar at_ p bs Hin Hres. destruct (proj1 (Forall_forall _ _) Ht _ Hres) as [Hd _].
    destruct (Hd _ eq_refl eq_refl) as (chunks & Hc & Hbs). cbn in Hbs. subst bs. by eapply cut_once.
Qed.

(** C19: the collector, run on its own on such a bucket with the snapshots [dead] to be dropped,
    ends without an error; of the manifests it deletes those of [dead], of the chunks exactly
    those that no manifest left lists, and nothing else in the bucket changes; whatever other
    snapshot could be restored before can be restored after, to the same bytes. *)
Theorem collector_deletes_the_unreferenced s dead rand : Bucket.reachable e s → Bucket.collision_free e s →
  ∃ n o', run rand 0 (Engine.PruneSnapshots e dead) (Bucket.objs s) = (inl n, o', []) ∧
    (∀ id, o' !! (Engine.manifestPrefix +:+ id) = if bool_decide (id ∈ dead) then None else Bucket.objs s !! (Engine.manifestPrefix +:+ id)) ∧
    (∀ h, present o' h ↔ ∃ id blob m, o' !! (Engine.manifestPrefix +:+ id) = Some blob ∧ reads e blob m ∧ h ∈ refs m) ∧
    (∀ h, present o' h → o' !! (Engine.chunkPrefix +:+ h) = Bucket.objs s !! (Engine.chunkPrefix +:+ h)) ∧
    (∀ k, HasPrefix k Engine.chunkPrefix = false → HasPrefix k Engine.manifestPrefix = false → o' !! k = Bucket.objs s !! k) ∧
    (∀ id, id ∉ dead → is_Some (Bucket.objs s !! (Engine.manifestPrefix +:+ id)) →
      ∃ bs, (run rand 0 (Engine.Restore e id) (Bucket.objs s)).1.1 = inl (bs, None) ∧ (run rand 0 (Engine.Restore e id) o').1.1 = inl (bs, None)).
Proof.
  intros Hr Hf. destruct (reachable_good_here s Hr Hf) as [Ho _].
  destruct (run_Prune e key_ok (some_chunk s) (whole s) (λ id c, some_chunk_of s id c true) (λ a b, no_collision_here s a b Hf) rand dead _ Ho) as (n & o' & Hrun & Hm & Hc & Hp & Hk & Ho').
  exists n, o'. split_and!; try done.
  { intros h Hh. destruct (Hc h) as [?|Hn]; [done|]. unfold present in Hh. rewrite Hn in Hh. by destruct Hh. }
  intros id Hid Hpres. assert (is_Some (o' !! (Engine.manifestPrefix +:+ id))) as Hpres' by (by rewrite Hm, bool_decide_false).
  pose proof (λ o H1 H2, run_Restore e (some_chunk s) (whole s) (λ id c, some_chunk_of s id c true) (λ a b, no_collision_here s a b Hf) rand o id H1 H2) as Hres.
  destruct (Hres _ Ho Hpres) as (c & Hcut & ->), (Hres _ Ho' Hpres') as (c' & Hcut' & ->). exists (concat c). split; [done|].
  destruct Hcut as (tar & at_ & p & Hin & Hcdc). by rewrite (cut_once s id tar at_ p c'), (proj2 (cdc_Chunks_concat _ _ _ _ Hcdc)).
Qed.
End bucket.

(** A snapshot of what is already stored uploads no chunk. *)
Lemma a_repeated_snapshot_uploads_nothing {L : SnapLib} {LOk : SnapLibOk L} e s rand id at_ tar id' at' m : length (Engine.key e) = 32 →
  (∀ n, length (rand n) = Engine.nonceSize) → Bucket.reachable e s → Bucket.collision_free e s →
  Bucket.Snapshotting id tar at_ (Return (inl m)) ∈ Bucket.tasks s → is_Some (Bucket.objs s !! (Engine.manifestPrefix +:+ id)) →
  Bucket.fresh id' (Bucket.tasks s) →
  ∃ m' blob, run rand 0 (Engine.Snapshot e tar id' at') (Bucket.objs s) = (inl m', <[Engine.manifestPrefix +:+ id' := blob]> (Bucket.objs s), [])
    ∧ Manifest.Chunks m' = Manifest.Chunks m.
Proof.
  intros Hkey Hrand Hr Hf Hin Hm Hfresh. destruct (reachable_good_here e Hkey s Hr Hf) as [Ho Ht].
  destruct (proj1 (Forall_forall _ _) Ht _ Hin) as [Hd _]. destruct (Hd _ eq_refl) as (chunks & Hc & ->).
  destruct Hm as [blob Hb]. destruct (sound_manifests _ _ _ _ Ho _ _ Hb) as (c & a & Hcut & _ & Ha).
  assert (c = chunks) as ->.
  { destruct Hcut as (tar' & at2 & p' & [j Hj]%list_elem_of_lookup & Hc'). apply list_elem_of_lookup in Hin as [i Hi].
    pose proof (reachable_distinct e Hkey s Hr _ _ _ _ _ _ _ _ _ Hi Hj) as <-. rewrite Hi in Hj. injection Hj as <- _ _. congruence. }
  assert (sound e (some_chunk e s) (λ _ c, c = chunks ∨ ∃ i, whole e s i c) (Bucket.objs s)) as Ho2.
  { eapply sound_widen; [|exact Ho]. intros i c Hc'. right. by exists i. }
  destruct (run_Snapshot e Hkey (some_chunk e s) _ (λ _ c H, match H with
    | or_introl Heq => eq_ind_r (Forall (some_chunk e s)) (some_chunk_of e s _ _ _ Hcut) Heq
    | or_intror (ex_intro _ i Hc') => some_chunk_of e s i c true Hc' end) rand id' tar at' chunks (Bucket.objs s) Hrand Hc (or_introl eq_refl) Ho2)
    as (o' & b & zs & Hrun & _ & Hn).
  destruct (Hn Ha) as [-> ->]. by exists (manifest_for chunks at'), b.
Qed.

(** * A concrete library, and runs *)

Module Toy.

Fixpoint bits (p : positive) : bytes :=
  match p with xH => [] | xO p => "0"%char :: bits p | xI p => "1"%char :: bits p end.
Fixpoint unbits (l : bytes) : positive :=
  match l with [] => xH | c :: l => if ascii_dec c "0" then xO (unbits l) else xI (unbits l) end.

Lemma unbits_bits p : unbits (bits p) = p.
Proof. by induction p as [p IH|p IH|]; cbn; rewrite ?IH. Qed.

Definition tuple (m : Manifest.t) : Z * list (string * Z) * Z * Z :=
  (Manifest.Version m, (λ r, (ChunkRef.Hash r, ChunkRef.Size r)) <$> Manifest.Chunks m, Manifest.TarBytes m, Manifest.CreatedAtUnix m).
Definition untuple (x : Z * list (string * Z) * Z * Z) : Manifest.t :=
  let '(v, cs, n, at_) := x in Manifest.mk v ((λ p, ChunkRef.mk p.1 p.2) <$> cs) n at_.

Lemma untuple_tuple m : untuple (tuple m) = m.
Proof.
  destruct m as [v cs n at_]. unfold tuple, untuple. cbn. f_equal. rewrite <- list_fmap_compose. rewrite <- (list_fmap_id cs) at 2.
  apply list_fmap_ext. by intros ? [h s] _.
Qed.

(** A chunk ends with a dot. *)
Fixpoint cut (b : bytes) : list bytes :=
  match b with
  | [] => []
  | c :: b => match cut b with [] => [[c]] | x :: l => if ascii_dec c "." then [c] :: x :: l else (c :: x) :: l end
  end.

Lemma concat_cut b : concat (cut b) = b.
Proof.
  induction b as [|c b IH]; [done|]. cbn. rewrite <- IH at 2. destruct (cut b); [done|]. by destruct (ascii_dec c ".").
Qed.

#[global] Instance lib : SnapLib := {|
  sha256_hex := String.string_of_list_ascii;
  gcm_Seal _ _ p := p;
  gcm_Open _ _ c := Some c;
  zstd_EncodeAll b := b;
  zstd_DecodeAll b := Some b;
  json_Marshal m := bits (encode (tuple m));
  json_Unmarshal b := untuple <$> decode (unbits b);
  cdc_Chunks _ r := Some (cut r.1, r.2)
|}.

#[global] Instance lib_ok : SnapLibOk lib.
Proof.
  split; [done|done| |].
  - intros m _. change (untuple <$> decode (unbits (bits (encode (tuple m)))) = Some m).
    rewrite unbits_bits, decode_encode. cbn [fmap option_fmap option_map]. by rewrite untuple_tuple.
  - intros o [b ok] chunks ok' [= <- <-]. split; [done|]. intros _. apply concat_cut.
Qed.

Definition engine : Engine.t := Engine.mk (replicate 32 "k"%char) (Options.mk 0 0 0).
Definition nonce : bytes := replicate 12 "n"%char.
Definition bytes_of (s : string) : bytes := String.list_ascii_of_string s.

(** A run in which every call succeeds: the numbers of the tasks that make the next call. *)
Fixpoint calls (l : list nat) (s : Bucket.t) : Bucket.t :=
  match l with
  | [] => s
  | i :: l =>
    match Bucket.tasks s !! i with
    | None => calls l s
    | Some k => let '(k', o) := Bucket.work Fine nonce k (Bucket.objs s) in calls l (Bucket.mk o (<[i := k']> (Bucket.tasks s)))
    end
  end.

Definition start (k : Bucket.task) (s : Bucket.t) : Bucket.t := Bucket.mk (Bucket.objs s) (Bucket.tasks s ++ [k]).
Definition snapshot (id : string) (tar : string) : Bucket.task :=
  Bucket.Snapshotting id (bytes_of tar, true) 0 (Engine.Snapshot engine (bytes_of tar, true) id 0).
Definition prune (dead : list string) : Bucket.task := Bucket.Pruning dead (Engine.PruneSnapshots engine dead).
Definition restore (id : string) : Bucket.task := Bucket.Restoring id (Engine.Restore engine id).

Lemma calls_steps l s : rtc (Bucket.step engine) s (calls l s).
Proof.
  revert s. induction l as [|i l IH]; intros [o ks]; [apply rtc_refl|]. cbn [calls Bucket.tasks Bucket.objs].
  destruct (ks !! i) as [k|] eqn:Hk; [|apply IH]. destruct (Bucket.work Fine nonce k o) as [k' o'] eqn:Hw.
  eapply rtc_l; [|apply IH]. by apply (Bucket.working _ _ _ i k Fine nonce k' o').
Qed.

(** Such a run stays within what is reachable when it keeps the two kinds of operation apart. *)
Fixpoint apart (l : list nat) (s : Bucket.t) : bool :=
  negb (existsb Bucket.taking (Bucket.tasks s) && existsb Bucket.collecting (Bucket.tasks s)) &&
  match l with [] => true | i :: l => apart l (calls [i] s) end.

Lemma calls_reachable l : ∀ s, Bucket.reachable engine s → apart l s = true → Bucket.reachable engine (calls l s).
Proof.
  induction l as [|i l IH]; intros s Hr Ha; [done|]. cbn [apart] in Ha. apply andb_true_iff in Ha as [He Ha]. apply negb_true_iff in He.
  assert (calls (i :: l) s = calls l (calls [i] s)) as ->.
  { cbn [calls]. destruct (Bucket.tasks s !! i) as [k|]; [|done]. by destruct (Bucket.work Fine nonce k (Bucket.objs s)). }
  apply IH; [|done]. cbn [calls]. destruct (Bucket.tasks s !! i) as [k|] eqn:Hk; [|done].
  destruct (Bucket.work Fine nonce k (Bucket.objs s)) as [k' o'] eqn:Hw. eapply Bucket.next; [exact Hr|exact He|].
  destruct s as [o ks]. by apply (Bucket.working _ _ _ i k Fine nonce k' o').
Qed.

Lemma start_reachable k s : Bucket.reachable engine s → apart [] s = true →
  match k with
  | Bucket.Snapshotting id tar at_ p => Bucket.fresh id (Bucket.tasks s) ∧ p = Engine.Snapshot engine tar id at_
  | Bucket.Pruning dead p => p = Engine.PruneSnapshots engine dead
  | Bucket.Restoring id p => p = Engine.Restore engine id
  end → Bucket.reachable engine (start k s).
Proof.
  intros Hr Ha Hk. cbn [apart] in Ha. rewrite andb_true_r in Ha. apply negb_true_iff in Ha. eapply Bucket.next; [exact Hr|exact Ha|]. unfold start. destruct s as [o ks].
  destruct k as [id tar at_ p|dead p|id p]; cbn [Bucket.tasks Bucket.objs] in *.
  - destruct Hk as [Hf ->]. by apply Bucket.start_snapshot.
  - subst p. apply Bucket.start_prune.
  - subst p. apply Bucket.start_restore.
Qed.

End Toy.

Lemma toy_collision_free s : Bucket.collision_free Toy.engine s.
Proof.
  intros id c ok id' c' ok' a b _ _ _ _ H. cbn in H. rewrite <- (String.list_ascii_of_string_of_list_ascii a), H.
  apply String.list_ascii_of_string_of_list_ascii.
Qed.

(** Two snapshots that share chunks, taken at once, and a restore of the first beside the
    second. *)
Definition shared0 : Bucket.t := Toy.start (Toy.snapshot "b" "z.x.") (Toy.start (Toy.snapshot "a" "x.y.x.") (Bucket.mk ∅ [])).
Definition shared1 : Bucket.t := Toy.calls [0; 0; 1; 0; 0; 1; 1; 0; 0; 0; 0; 1; 0; 0; 0; 0; 0; 0; 0] shared0.
Definition shared2 : Bucket.t := Toy.start (Toy.restore "a") shared1.
Definition shared3 : Bucket.t := Toy.calls [2; 1; 1; 2; 1; 2; 1; 2; 1; 1; 1; 1; 2; 2; 2] shared2.
Lemma shared3_reachable : Bucket.reachable Toy.engine shared3.
Proof.
  apply Toy.calls_reachable; [|by vm_compute]. apply Toy.start_reachable; [|by vm_compute|done].
  apply Toy.calls_reachable; [|by vm_compute]. apply Toy.start_reachable; [|by vm_compute|split; [by repeat constructor|done]].
  apply Toy.start_reachable; [constructor|done|split; [constructor|done]].
Qed.

Definition task_done (k : Bucket.task) : bool :=
  match k with
  | Bucket.Snapshotting _ _ _ (Return (inl _)) | Bucket.Pruning _ (Return (inl _)) | Bucket.Restoring _ (Return (inl (_, None))) => true
  | _ => false
  end.

Example shared3_done : task_done <$> Bucket.tasks shared3 = [true; true; true].
Proof. vm_compute. reflexivity. Qed.

(** A collection that runs while a snapshot is taken deletes the chunks of which the manifest is
    still to come: the snapshot then succeeds, and cannot be restored. *)
Definition raced : Bucket.t :=
  Toy.calls [0; 0; 0; 0; 0; 0; 0; 0] (Toy.calls [1; 1; 1; 1] (Toy.start (Toy.prune []) (Toy.calls [0; 0; 0] (Toy.start (Toy.snapshot "b" "x.w") (Bucket.mk ∅ []))))).

Lemma start_step k s :
  match k with
  | Bucket.Snapshotting id tar at_ p => Bucket.fresh id (Bucket.tasks s) ∧ p = Engine.Snapshot Toy.engine tar id at_
  | Bucket.Pruning dead p => p = Engine.PruneSnapshots Toy.engine dead
  | Bucket.Restoring id p => p = Engine.Restore Toy.engine id
  end → Bucket.step Toy.engine s (Toy.start k s).
Proof.
  destruct s as [o ks]. destruct k as [id tar at_ p|dead p|id p]; unfold Toy.start; cbn [Bucket.tasks Bucket.objs].
  - intros [Hf ->]. by apply Bucket.start_snapshot.
  - intros ->. apply Bucket.start_prune.
  - intros ->. apply Bucket.start_restore.
Qed.

Lemma a_collection_breaks_a_snapshot :
  ∃ s m, rtc (Bucket.step Toy.engine) (Bucket.mk ∅ []) s
    ∧ Bucket.Snapshotting "b" (Toy.bytes_of "x.w", true) 0 (Return (inl m)) ∈ Bucket.tasks s
    ∧ is_Some (Bucket.objs s !! "manifests/b")
    ∧ (run (λ _, Toy.nonce) 0 (Engine.Restore Toy.engine "b") (Bucket.objs s)).1.1 = inl ([], Some (ErrNotFound "chunks/x.")).
Proof.
  exists raced. eexists. split; [|split; [|split]].
  - unfold raced. etransitivity; [|apply Toy.calls_steps]. etransitivity; [|apply Toy.calls_steps].
    etransitivity; [|apply rtc_once; by apply start_step]. etransitivity; [|apply Toy.calls_steps].
    apply rtc_once, start_step. split; [constructor|done].
  - apply list_elem_of_lookup. exists 0. vm_compute. reflexivity.
  - vm_compute. by eexists.
  - vm_compute. reflexivity.
Qed.

Lemma snapshots_are_kept_witness :
  run (λ _, Toy.nonce) 0 (Engine.Restore Toy.engine "a") (Bucket.objs shared3) = (inl (Toy.bytes_of "x.y.x.", None), Bucket.objs shared3, [])
  ∧ (∀ bs, Bucket.Restoring "a" (Return (inl (bs, None))) ∈ Bucket.tasks shared3 → bs = Toy.bytes_of "x.y.x.").
Proof.
  destruct (snapshots_are_kept Toy.engine eq_refl shared3 shared3_reachable (toy_collision_free _)) as [H1 H2]. split.
  - eapply (H1 "a" (Toy.bytes_of "x.y.x.", true) 0%Z); [|vm_compute; by eexists]. apply list_elem_of_lookup. exists 0. vm_compute. reflexivity.
  - intros bs. eapply (H2 "a" (Toy.bytes_of "x.y.x.", true) 0%Z). apply list_elem_of_lookup. exists 0. vm_compute. reflexivity.
Defined.

Lemma collector_deletes_the_unreferenced_witness :
  ∃ n o', run (λ _, Toy.nonce) 0 (Engine.PruneSnapshots Toy.engine ["a"]) (Bucket.objs shared3) = (inl n, o', [])
    ∧ o' !! "manifests/a" = None ∧ is_Some (o' !! "manifests/b")
    ∧ ∃ bs, (run (λ _, Toy.nonce) 0 (Engine.Restore Toy.engine "b") o').1.1 = inl (bs, None).
Proof.
  destruct (collector_deletes_the_unreferenced Toy.engine eq_refl shared3 ["a"] (λ _, Toy.nonce) shared3_reachable (toy_collision_free _))
    as (n & o' & Hr & Hm & _ & _ & _ & Hres).
  exists n, o'. split; [exact Hr|]. split; [exact (Hm "a")|]. split.
  - pose proof (Hm "b") as Hb. rewrite bool_decide_false in Hb by (vm_compute; intros H; by inversion H as [|? ? ? H2]; inversion H2).
    change (o' !! "manifests/b" = Bucket.objs shared3 !! "manifests/b") in Hb. rewrite Hb. vm_compute. by eexists.
  - destruct (Hres "b") as (bs & _ & ?); [by apply not_elem_of_cons; split; [done|apply not_elem_of_nil]|vm_compute; by eexists|by exists bs].
Defined.
