(* ===== verification/SnapFiles.v ===== *)
(** The files of a volume and the tar of a snapshot (internal/daemon/volumes/chunker.go): the
    deterministic walk, the extraction into a directory, and the joining of paths.

    A filesystem is a map from absolute paths, as lists of names, to inodes, the root being no
    entry of it; a path is resolved
    as Linux does, symbolic links included, and what creates or removes an entry sets the
    modification time of its directory.  The process is root, so that it may open, create
    and chown anything.  The bytes of a tar are a parameter. *)
From S2P Require Import Prelude Platform Net SnapEngine.
From Stdlib Require Import Ascii.

Notation path := (list string).

Inductive kind := Dir | File (data : bytes) | Symlink (target : string) | Socket | Special.

Module Attr.
Record t := mk { Mode : Z; Uid : Z; Gid : Z; ModTime : Z }.
#[global] Instance eta : Settable t := λ r, mk (Mode r) (Uid r) (Gid r) (ModTime r).
End Attr.

Notation inode := (Attr.t * kind)%type.
Notation filesystem := (gmap (list string) (Attr.t * kind)).

(** * Paths *)

(** strings.Join of names with "/". *)
Fixpoint join (p : path) : string :=
  match p with [] => "" | [c] => c | c :: p => c +:+ "/" +:+ join p end.

(** filepath.Clean of a path that starts with "/". *)
Definition clean_step (acc : path) (c : string) : path :=
  if (c =? "") || (c =? ".") then acc
  else if c =? ".." then removelast acc
  else acc ++ [c].
Definition Clean (s : string) : path := foldl clean_step [] (Split s "/").

(** filepath.Rel of two clean absolute paths. *)
Fixpoint Rel (base targ : path) : path :=
  match base, targ with
  | b :: base', t :: targ' => if b =? t then Rel base' targ' else ((λ _, "..") <$> base) ++ targ
  | _, _ => ((λ _, "..") <$> base) ++ targ
  end.

(** The checks on rel, whose components are the names: it is ".." or starts with "../". *)
Definition hasDotDotPrefix (rel : path) : bool := match rel with c :: _ => c =? ".." | [] => false end.
Definition isSubpath (base p : path) : bool := negb (hasDotDotPrefix (Rel base p)).

Definition SafeJoin (base : path) (name : string) : option path :=
  let clean := base ++ Clean ("/" +:+ name) in
  if negb (bool_decide (clean = base)) && negb (isSubpath base clean) then None else Some clean.

(** * The filesystem *)

Definition is_dir (fs : filesystem) (p : path) : bool :=
  match p with [] => true | _ => match fs !! p with Some (_, Dir) => true | _ => false end end.

(** What a path names, every symbolic link on it followed, forty of them at most: all of it
    exists but perhaps its last name. *)
Fixpoint walk (links : nat) (fs : filesystem) : path → list string → option path :=
  fix go (cur : path) (names : list string) : option path :=
    match names with
    | [] => Some cur
    | c :: rest =>
      if (c =? "") || (c =? ".") then go cur rest
      else if c =? ".." then go (removelast cur) rest
      else match fs !! (cur ++ [c]) with
      | Some (_, Symlink target) =>
        match links with
        | 0 => None
        | S links => walk links fs (if HasPrefix target "/" then [] else cur) (Split target "/" ++ rest)
        end
      | Some (_, Dir) => go (cur ++ [c]) rest
      | _ => match rest with [] => Some (cur ++ [c]) | _ => None end
      end
    end.
Definition resolve (fs : filesystem) (p : path) : option path := walk 40 fs [] p.

(** The entry a path names, its last name not followed. *)
Definition entry (fs : filesystem) (p : path) : option path :=
  match last p with
  | None => None
  | Some base => parent ← resolve fs (removelast p); if is_dir fs parent then Some (parent ++ [base]) else None
  end.

Definition Stat (fs : filesystem) (p : path) : option kind :=
  p' ← resolve fs p; match p' with [] => Some Dir | _ => snd <$> fs !! p' end.
Definition Lstat (fs : filesystem) (p : path) : option kind := p' ← entry fs p; snd <$> fs !! p'.

Section process.
(** The umask and the time. *)
Variable umask now : Z.

Definition perm (mode : Z) : Z := Z.land (Z.land mode 511) (Z.lnot umask).

Definition touch (fs : filesystem) (dir : path) : filesystem :=
  match dir with [] => fs | _ => alter (λ i : inode, (i.1 <| Attr.ModTime := now |>, i.2)) dir fs end.
Definition create (fs : filesystem) (p : path) (mode : Z) (k : kind) : filesystem :=
  touch (<[p := (Attr.mk mode 0 0 now, k)]> fs) (removelast p).

(** Calls, with what they leave and whether they succeed. *)
Definition mkdir (fs : filesystem) (p : path) (mode : Z) : filesystem * bool :=
  match entry fs p with
  | Some p' => match fs !! p' with None => (create fs p' (perm mode) Dir, true) | Some _ => (fs, false) end
  | None => (fs, false)
  end.

(** os.MkdirAll, of the reversed path. *)
Fixpoint MkdirAll_rev (fs : filesystem) (rp : list string) (mode : Z) : filesystem * bool :=
  match rp with
  | [] => (fs, true)
  | _ :: rparent =>
    match Stat fs (rev rp) with
    | Some Dir => (fs, true)
    | Some _ => (fs, false)
    | None =>
      let '(fs, ok) := MkdirAll_rev fs rparent mode in
      if ok then
        let '(fs, ok) := mkdir fs (rev rp) mode in
        (fs, ok || match Lstat fs (rev rp) with Some Dir => true | _ => false end)
      else (fs, false)
    end
  end.
Definition MkdirAll (fs : filesystem) (p : path) (mode : Z) : filesystem * bool := MkdirAll_rev fs (rev p) mode.

(** os.OpenFile with O_CREATE, O_TRUNC and O_WRONLY, then io.Copy and Close; a FIFO, device or
    socket in the way counts as an error. *)
Definition write_file (fs : filesystem) (p : path) (mode : Z) (data : bytes) : filesystem * bool :=
  match resolve fs p with
  | None | Some [] => (fs, false)
  | Some p' =>
    match fs !! p' with
    | None => (create fs p' (perm mode) (File data), true)
    | Some (a, File _) => (<[p' := (a <| Attr.ModTime := now |>, File data)]> fs, true)
    | Some _ => (fs, false)
    end
  end.

(** Has a directory no entry? *)
Definition empty_dir (fs : filesystem) (p : path) : bool :=
  forallb (λ q, negb (bool_decide (removelast q = p ∧ q ≠ []))) (map_to_list fs).*1.

Definition Remove (fs : filesystem) (p : path) : filesystem :=
  match entry fs p with
  | None => fs
  | Some p' =>
    match fs !! p' with
    | None => fs
    | Some (_, Dir) => if empty_dir fs p' then touch (delete p' fs) (removelast p') else fs
    | Some _ => touch (delete p' fs) (removelast p')
    end
  end.

Definition make_symlink (fs : filesystem) (target : string) (p : path) : filesystem * bool :=
  match entry fs p with
  | Some p' => match fs !! p' with None => (create fs p' 511 (Symlink target), true) | Some _ => (fs, false) end
  | None => (fs, false)
  end.

(** os.Chown and os.Chtimes, their errors ignored. *)
Definition set_attrs (fs : filesystem) (p : path) (uid gid mtime : Z) (times : bool) : filesystem :=
  match resolve fs p with
  | Some p' => alter (λ i : inode, (Attr.mk (Attr.Mode i.1) uid gid (if times then mtime else Attr.ModTime i.1), i.2)) p' fs
  | None => fs
  end.

End process.

(** * Tar *)

Inductive typeflag := TypeReg | TypeDir | TypeSymlink | TypeOther.
#[global] Instance typeflag_eq : EqDecision typeflag. Proof. solve_decision. Defined.

Module Header.
Record t := mk { Name : string; Typeflag : typeflag; Mode : Z; Uid : Z; Gid : Z; ModTime : Z; Linkname : string }.
#[global] Instance eq_dec : EqDecision t. Proof. solve_decision. Defined.
End Header.

Notation member := (Header.t * bytes)%type.

(** How the reading of a tar ends: at its end, with an error, or with one inside a file, of
    which a part was read. *)
Inductive tar_end := TarEOF | TarError | TarPartial (m : member).

(** archive/tar: what a writer emits for members, closed or not, and what a reader finds in
    bytes that end, or break off with an error. *)
Class TarLib := {
  tar_Write : list member → bool → bytes;
  tar_Read : bytes → bool → list member * tar_end
}.

Fixpoint absent (x : ascii) (s : string) : bool := match s with "" => true | String c s => negb (Ascii.eqb c x) && absent x s end.

(** A member that archive/tar writes in the PAX format and reads back as it was: names
    without NUL that fit a record, with a slash at the end just for a directory (a reader
    takes a file of such a name for one); a target of links alone and bytes of files
    alone; the permission, setuid, setgid and sticky bits as mode; owners as Linux has
    them; a time of whole seconds that the header's field holds; a size in 64 bits. *)
Definition tar_ok (m : member) : Prop :=
  let h := m.1 in
  Header.Name h ≠ "" ∧ absent "000" (Header.Name h) = true ∧ (Z.of_nat (String.length (Header.Name h)) ≤ 4096)%Z
  ∧ ((∃ p, Header.Name h = p +:+ "/") ↔ Header.Typeflag h = TypeDir)
  ∧ absent "000" (Header.Linkname h) = true ∧ (Z.of_nat (String.length (Header.Linkname h)) ≤ 4096)%Z
  ∧ (Header.Typeflag h ≠ TypeSymlink → Header.Linkname h = "") ∧ (Header.Typeflag h ≠ TypeReg → m.2 = [])
  ∧ (0 ≤ Header.Mode h < 2 ^ 12)%Z ∧ (0 ≤ Header.Uid h < 2 ^ 32)%Z ∧ (0 ≤ Header.Gid h < 2 ^ 32)%Z
  ∧ (0 ≤ Header.ModTime h < 2 ^ 33 * 10 ^ 9)%Z ∧ (Header.ModTime h mod 10 ^ 9 = 0)%Z
  ∧ (Z.of_nat (length m.2) < 2 ^ 63)%Z.

(** A closed tar of such members is read back as they are. *)
Class TarLibOk (T : TarLib) := tar_Read_Write : ∀ ms, Forall tar_ok ms → tar_Read (tar_Write ms true) true = (ms, TarEOF).

(** Time.Truncate to seconds. *)
Definition Truncate_second (t : Z) : Z := (t - t mod 10 ^ 9)%Z.

(** tar.FileInfoHeader, with what writeDeterministicTar changes; [None] for a socket. *)
Definition header_of (rel : path) (i : inode) : option member :=
  let '(a, k) := i in
  let hdr name flag link := Header.mk name flag (Z.land (Attr.Mode a) 4095) (Attr.Uid a) (Attr.Gid a) (Truncate_second (Attr.ModTime a)) link in
  match k with
  | Dir => Some (hdr (join rel +:+ "/") TypeDir "", [])
  | File data => Some (hdr (join rel) TypeReg "", data)
  | Symlink target => Some (hdr (join rel) TypeSymlink target, [])
  | Special => Some (hdr (join rel) TypeOther "", [])
  | Socket => None
  end.

(** The files of a volume, by their paths in it. *)
Definition sortedEntries (t : filesystem) : list path := sort_slice (λ p q, str_ltb (join p) (join q)) (map_to_list t).*1.

(** The members written before the end, or before the first error. *)
Fixpoint write_members (t : filesystem) (rels : list path) : list member * bool :=
  match rels with
  | [] => ([], true)
  | rel :: rels =>
    match t !! rel ≫= header_of rel with
    | None => ([], false)
    | Some m => let '(ms, ok) := write_members t rels in (m :: ms, ok)
    end
  end.

Definition writeDeterministicTar {T : TarLib} (t : filesystem) : bytes * bool :=
  let '(ms, ok) := write_members t (sortedEntries t) in (tar_Write ms ok, ok).

Section extract.
Context {T : TarLib} (umask now : Z).

Definition restoreAttrs (fs : filesystem) (target : path) (h : Header.t) : filesystem :=
  if bool_decide (Header.Typeflag h = TypeSymlink) then fs
  else set_attrs fs target (Header.Uid h) (Header.Gid h) (Header.ModTime h) (negb (Header.ModTime h =? -62135596800 * 10 ^ 9)%Z).

(** One turn of extractTar's loop. *)
Definition extract_member (dst : path) (fs : filesystem) (m : member) : filesystem * bool :=
  let '(h, data) := m in
  match SafeJoin dst (Header.Name h) with
  | None => (fs, false)
  | Some target =>
    match Header.Typeflag h with
    | TypeDir =>
      let '(fs, ok) := MkdirAll umask now fs target (Header.Mode h) in
      if ok then (restoreAttrs fs target h, true) else (fs, false)
    | TypeReg =>
      let '(fs, ok) := MkdirAll umask now fs (removelast target) 493 in
      if ok then
        let '(fs, ok) := write_file umask now fs target (Header.Mode h) data in
        if ok then (restoreAttrs fs target h, true) else (fs, false)
      else (fs, false)
    | TypeSymlink =>
      let fs := Remove now fs target in
      let '(fs, ok) := make_symlink now fs (Header.Linkname h) target in
      if ok then (restoreAttrs fs target h, true) else (fs, false)
    | TypeOther => (fs, true)
    end
  end.

Fixpoint extract_all (dst : path) (fs : filesystem) (ms : list member) : filesystem * bool :=
  match ms with
  | [] => (fs, true)
  | m :: ms => let '(fs, ok) := extract_member dst fs m in if ok then extract_all dst fs ms else (fs, false)
  end.

(** extractTar, of a stream that ends or breaks off. *)
Definition extractTar (bs : bytes) (whole : bool) (dst : path) (fs : filesystem) : filesystem * bool :=
  let '(ms, fin) := tar_Read bs whole in
  let '(fs, ok) := extract_all dst fs ms in
  if ok then
    match fin with
    | TarEOF => (fs, true)
    | TarError => (fs, false)
    | TarPartial m => ((extract_member dst fs m).1, false)
    end
  else (fs, false).

(** Engine.Restore of a snapshot into a directory, on a backend that does not fail. *)
Definition restore_into {L : SnapLib} (e : Engine.t) (rand : nat → bytes) (id : string) (o : objects) (dst : path) (fs : filesystem) : filesystem * bool :=
  match (run rand 0 (Engine.Restore e id) o).1.1 with
  | inl (bs, None) => extractTar bs true dst fs
  | inl (bs, Some _) => extractTar bs false dst fs
  | inr _ => (fs, false)
  end.

End extract.
