(* ===== verification/SnapFilesProps.v ===== *)
(** A volume that is snapshotted and restored is the volume again: what the walk writes, the
    extraction into an empty directory gives back, nothing outside that directory changing;
    and what it does when the directory is not empty. *)
From S2P Require Import Prelude Platform Net Text SnapEngine SnapEngineProps SnapFiles.
From Stdlib Require Import Ascii.

(** * Names and paths *)

(** A name of a directory entry. *)
Definition plain_name (c : string) : Prop := c ≠ "" ∧ c ≠ "." ∧ c ≠ ".." ∧ absent "/" c = true ∧ absent "000" c = true.

Lemma Split_plain c : absent "/" c = true → Split c "/" = [c].
Proof.
  induction c as [|x c IH]; [done|]. cbn [absent Split]. intros [Hx Hc]%andb_true_iff. apply negb_true_iff in Hx. rewrite Hx.
  by rewrite IH.
Qed.

Lemma join_cons c p : p ≠ [] → join (c :: p) = c +:+ "/" +:+ join p.
Proof. by destruct p. Qed.

Lemma Split_join p : p ≠ [] → Forall plain_name p → Split (join p) "/" = p.
Proof.
  intros Hp Hf. induction Hf as [|c p (_ & _ & _ & Hc & _) Hf IH]; [done|]. destruct (decide (p = [])) as [->|Hne].
  - by apply Split_plain.
  - rewrite join_cons by done. change ("/" +:+ join p) with (String "/" ("" +:+ join p)). rewrite string_nil_app.
    rewrite Split_app, Split_plain, IH by done. done.
Qed.

Lemma clean_plain acc p : Forall plain_name p → foldl clean_step acc p = acc ++ p.
Proof.
  intros Hf. revert acc. induction Hf as [|c p (H1 & H2 & H3 & _) Hf IH]; intros acc; [by rewrite app_nil_r|]. cbn [foldl].
  unfold clean_step at 2. rewrite !(proj2 (str_eqb_neq _ _)) by done. cbn [orb]. rewrite IH. by rewrite <- app_assoc.
Qed.

Lemma Clean_join p : p ≠ [] → Forall plain_name p → Clean ("/" +:+ join p) = p ∧ Clean ("/" +:+ (join p +:+ "/")) = p.
Proof.
  intros Hp Hf. unfold Clean. change ("/" +:+ join p) with (String "/" ("" +:+ join p)). change ("/" +:+ (join p +:+ "/")) with (String "/" ("" +:+ (join p +:+ "/"))).
  rewrite !string_nil_app. cbn [Split]. cbn [Ascii.eqb Bool.eqb]. split.
  - rewrite Split_join by done. cbn [foldl]. change (clean_step [] "") with (@nil string). by rewrite clean_plain.
  - change (join p +:+ "/") with (join p +:+ String "/" ""). rewrite Split_app, Split_join by done. cbn [foldl]. rewrite foldl_app.
    change (clean_step [] "") with (@nil string). by rewrite (clean_plain [] p).
Qed.

Lemma Forall_removelast {A} (Q : A → Prop) l : Forall Q l → Forall Q (removelast l).
Proof. destruct l as [|x l _] using rev_ind; [done|]. rewrite removelast_last. by intros [? _]%Forall_app. Qed.

Lemma clean_proper s : Forall (λ c, c ≠ "..") (Clean s).
Proof.
  unfold Clean. assert (∀ l acc, Forall (λ c, c ≠ "..") acc → Forall (λ c, c ≠ "..") (foldl clean_step acc l)) as H; [|by apply H].
  induction l as [|c l IH]; intros acc Ha; [done|]. cbn [foldl]. apply IH. unfold clean_step.
  destruct (_ || _); [done|]. destruct (c =? "..") eqn:Hc; [by apply Forall_removelast|].
  apply Forall_app. split; [done|]. constructor; [by apply str_eqb_neq|constructor].
Qed.

Lemma Rel_below base p : Rel base (base ++ p) = p.
Proof. induction base as [|b base IH]; [by destruct p|]. cbn. by rewrite (proj2 (str_eqb_eq b b)). Qed.

(** SafeJoin refuses nothing, and what it gives is below the base, whatever the name. *)
Lemma SafeJoin_below base name : SafeJoin base name = Some (base ++ Clean ("/" +:+ name)).
Proof.
  unfold SafeJoin, isSubpath. rewrite Rel_below. pose proof (clean_proper ("/" +:+ name)) as Hp.
  destruct (Clean ("/" +:+ name)) as [|c p]; [rewrite app_nil_r, bool_decide_true by done; done|].
  cbn [hasDotDotPrefix]. apply Forall_cons in Hp as [Hc _]. rewrite (proj2 (str_eqb_neq _ _) Hc). by destruct (bool_decide _).
Qed.

(** * The order of the walk *)

Lemma str_ltb_extend s c t : str_ltb s (s +:+ String c t) = true.
Proof.
  induction s as [|x s IH]; [done|]. rewrite string_cons_app. unfold String.ltb in *. cbn [String.compare].
  unfold Ascii.compare. rewrite N.compare_refl. exact IH.
Qed.

Lemma join_app p q : p ≠ [] → q ≠ [] → join (p ++ q) = join p +:+ String "/" (join q).
Proof.
  intros Hp Hq. induction p as [|c p IH]; [done|]. destruct (decide (p = [])) as [->|Hne].
  - cbn [app]. by rewrite join_cons.
  - cbn [app]. rewrite !join_cons by (by destruct p). rewrite IH by done.
    by rewrite !string_app_assoc.
Qed.

Lemma parent_first p q : p ≠ [] → q ≠ [] → str_ltb (join p) (join (p ++ q)) = true.
Proof. intros Hp Hq. rewrite join_app by done. apply str_ltb_extend. Qed.

(** * A volume *)

(** The files of a volume on Linux: proper names, of paths that a call takes; directories
    above; owners of 32 bits; times from 1970 on that a header holds; sizes in 64 bits; the
    target of a link as a path; and no socket. *)
Record volume (t : filesystem) : Prop := {
  volume_names p : is_Some (t !! p) → p ≠ [] ∧ Forall plain_name p ∧ (Z.of_nat (String.length (join p)) < 4096)%Z;
  volume_parents p q i : t !! (p ++ q) = Some i → p ≠ [] → q ≠ [] → ∃ a, t !! p = Some (a, Dir);
  volume_owners p a k : t !! p = Some (a, k) → (0 ≤ Attr.Uid a < 2 ^ 32)%Z ∧ (0 ≤ Attr.Gid a < 2 ^ 32)%Z;
  volume_times p a k : t !! p = Some (a, k) → (0 ≤ Attr.ModTime a < 2 ^ 33 * 10 ^ 9)%Z;
  volume_sizes p a data : t !! p = Some (a, File data) → (Z.of_nat (length data) < 2 ^ 63)%Z;
  volume_links p a target : t !! p = Some (a, Symlink target) → absent "000" target = true ∧ (Z.of_nat (String.length target) ≤ 4096)%Z;
  volume_sockets p a : t !! p ≠ Some (a, Socket)
}.

Lemma elem_of_sortedEntries t p : p ∈ sortedEntries t ↔ is_Some (t !! p).
Proof.
  unfold sortedEntries. rewrite sort_slice_perm, list_elem_of_fmap. split.
  - intros ([q i] & -> & H%elem_of_map_to_list). by exists i.
  - intros [i Hi]. exists (p, i). split; [done|]. by apply elem_of_map_to_list.
Qed.

Lemma NoDup_sortedEntries t : NoDup (sortedEntries t).
Proof. unfold sortedEntries. rewrite sort_slice_perm. apply NoDup_fst_map_to_list. Qed.

(** In the walk what is above comes before. *)
Lemma above_before t l p rest q : sortedEntries t = l ++ p :: rest → is_Some (t !! q) → str_ltb (join q) (join p) = true → q ∈ l.
Proof.
  intros Hs Hq Hlt. apply elem_of_sortedEntries in Hq. rewrite Hs in Hq. apply elem_of_app in Hq as [?|[->|Hq]%elem_of_cons]; [done| |].
  - by rewrite str_ltb_irrefl in Hlt.
  - exfalso. pose proof (sort_key_sorted join (map_to_list t).*1) as Hss. change (StronglySorted (not_less (key_less join)) (sortedEntries t)) in Hss.
    rewrite Hs in Hss. apply StronglySorted_app in Hss as (_ & _ & Hss). apply StronglySorted_cons in Hss as [Hss _].
    rewrite Forall_forall in Hss. specialize (Hss _ Hq). unfold not_less, key_less in Hss. congruence.
Qed.

Lemma absent_app x s t : absent x (s +:+ t) = absent x s && absent x t.
Proof. induction s as [|c s IH]; [done|]. rewrite string_cons_app. cbn [absent]. by rewrite IH, andb_assoc. Qed.

Lemma join_no_nul p : Forall plain_name p → absent "000" (join p) = true.
Proof.
  induction 1 as [|c p (_ & _ & _ & _ & Hc) Hf IH]; [done|]. destruct (decide (p = [])) as [->|Hne]; [done|].
  rewrite join_cons by done. by rewrite !absent_app, Hc, IH.
Qed.

Lemma join_not_nil p : p ≠ [] → Forall plain_name p → join p ≠ "".
Proof.
  intros Hp Hf. destruct Hf as [|c p (Hc & _) Hf]; [done|]. destruct (decide (p = [])) as [->|Hne]; [done|].
  rewrite join_cons by done. by destruct c.
Qed.

Lemma no_trailing_slash p q : p ≠ [] → Forall plain_name p → join p ≠ q +:+ "/".
Proof.
  intros Hp Hf Hq.
  pose proof (Split_join p Hp Hf) as Hs. rewrite Hq, (Split_app q "" "/") in Hs. rewrite <- Hs in Hf.
  apply Forall_app in Hf as [_ Hf]. by apply Forall_cons in Hf as [(? & _) _].
Qed.

Lemma truncate_second t : (0 ≤ t < 2 ^ 33 * 10 ^ 9)%Z → (0 ≤ Truncate_second t < 2 ^ 33 * 10 ^ 9)%Z ∧ (Truncate_second t mod 10 ^ 9 = 0)%Z.
Proof.
  intros Ht. unfold Truncate_second. pose proof (Z.mod_pos_bound t (10 ^ 9) ltac:(lia)). pose proof (Z.div_mod t (10 ^ 9) ltac:(lia)) as Hd.
  split; [lia|]. replace (t - t mod 10 ^ 9)%Z with (t / 10 ^ 9 * 10 ^ 9)%Z by lia. apply Z.mod_mul. lia.
Qed.

Lemma mode_bits m : (0 ≤ Z.land m 4095 < 2 ^ 12)%Z.
Proof. change 4095%Z with (Z.ones 12). rewrite Z.land_ones by lia. apply Z.mod_pos_bound. lia. Qed.

(** The member written for a file. *)
Lemma member_of t rel i : volume t → t !! rel = Some i → ∃ m, header_of rel i = Some m ∧ tar_ok m.
Proof.
  intros Hv Hi. destruct (volume_names t Hv rel) as (Hne & Hp & Hlen); [by exists i|]. pose proof (join_no_nul rel Hp) as Hnul.
  pose proof (join_not_nil rel Hne Hp). destruct i as [a k]. destruct (volume_owners t Hv rel a k Hi), (truncate_second _ (volume_times t Hv rel a k Hi)).
  pose proof (mode_bits (Attr.Mode a)). pose proof (λ q, no_trailing_slash rel q Hne Hp) as Hsl.
  assert (k ≠ Socket) as Hk by (by intros ->; eapply volume_sockets).
  destruct k as [|data|target| |]; try done; eexists; (split; [reflexivity|]); unfold tar_ok;
    cbn [fst snd Header.Name Header.Typeflag Header.Mode Header.Uid Header.Gid Header.ModTime Header.Linkname];
    rewrite ?absent_app, ?Hnul, ?length_string_app; split_and!; try done; try (cbn; lia); try (by split; [intros [q Hq]; destruct (Hsl q)|]).
  - by destruct (join rel).
  - split; [done|]. by eexists.
  - by eapply volume_sizes.
  - by eapply volume_links.
  - by eapply volume_links.
Qed.

(** The members of a volume, in the order of the walk. *)
Definition members (t : filesystem) (rels : list path) : list member := omap (λ rel, t !! rel ≫= header_of rel) rels.

Lemma write_members_volume t rels : volume t → Forall (λ rel, is_Some (t !! rel)) rels →
  write_members t rels = (members t rels, true) ∧ Forall tar_ok (members t rels).
Proof.
  intros Hv. induction 1 as [|rel rels [i Hi] Hr [IH1 IH2]]; [done|]. unfold members. cbn [write_members omap list_omap].
  rewrite Hi. cbn [mbind option_bind]. destruct (member_of t rel i Hv Hi) as (m & -> & Hm). rewrite IH1. split; [done|]. by constructor.
Qed.

(** * Resolution of paths *)

(** Every part of a path is a directory. *)
Definition dir_path (fs : filesystem) (p : path) : Prop := ∀ q r, p = q ++ r → q ≠ [] → ∃ a, fs !! q = Some (a, Dir).

Lemma dir_path_above fs p q : dir_path fs (p ++ q) → dir_path fs p.
Proof. intros Hd x r -> Hx. apply (Hd x (r ++ q)); [by rewrite app_assoc|done]. Qed.

Lemma dir_path_is_dir fs p : dir_path fs p → is_dir fs p = true.
Proof.
  intros Hd. unfold is_dir. destruct p as [|c p]; [done|]. destruct (Hd (c :: p) []) as [a ->]; [by rewrite app_nil_r|done|done].
Qed.

Lemma dir_path_snoc fs p c : dir_path fs p → (∃ a, fs !! (p ++ [c]) = Some (a, Dir)) → dir_path fs (p ++ [c]).
Proof.
  intros Hd Hc q r Heq Hq. destruct r as [|x r _] using rev_ind.
  - by rewrite app_nil_r in Heq; subst q.
  - rewrite app_assoc in Heq. apply app_inj_tail in Heq as [-> _]. by apply (Hd q r).
Qed.

Lemma walk_eq n fs cur names : walk n fs cur names =
  match names with
  | [] => Some cur
  | c :: rest =>
    if (c =? "") || (c =? ".") then walk n fs cur rest
    else if c =? ".." then walk n fs (removelast cur) rest
    else match fs !! (cur ++ [c]) with
    | Some (_, Symlink target) =>
      match n with
      | 0 => None
      | S n => walk n fs (if HasPrefix target "/" then [] else cur) (Split target "/" ++ rest)
      end
    | Some (_, Dir) => walk n fs (cur ++ [c]) rest
    | _ => match rest with [] => Some (cur ++ [c]) | _ => None end
    end
  end.
Proof. by destruct n, names. Qed.

Lemma walk_name n fs cur c rest : plain_name c → walk n fs cur (c :: rest) =
  match fs !! (cur ++ [c]) with
  | Some (_, Symlink target) =>
    match n with
    | 0 => None
    | S n => walk n fs (if HasPrefix target "/" then [] else cur) (Split target "/" ++ rest)
    end
  | Some (_, Dir) => walk n fs (cur ++ [c]) rest
  | _ => match rest with [] => Some (cur ++ [c]) | _ => None end
  end.
Proof. intros (H1 & H2 & H3 & _). rewrite walk_eq. by rewrite !(proj2 (str_eqb_neq _ _)). Qed.

Lemma walk_dirs n fs names rest : ∀ cur, dir_path fs (cur ++ names) → Forall plain_name names →
  walk n fs cur (names ++ rest) = walk n fs (cur ++ names) rest.
Proof.
  induction names as [|c names IH]; intros cur Hd Hp; [by rewrite app_nil_r|]. apply Forall_cons in Hp as [Hc Hp]. cbn [app].
  rewrite walk_name by done. replace (cur ++ c :: names) with ((cur ++ [c]) ++ names) in * by (by rewrite <- app_assoc).
  destruct (Hd (cur ++ [c]) names) as [a ->]; [done|by destruct cur|]. by apply IH.
Qed.

Lemma resolve_dir fs p : dir_path fs p → Forall plain_name p → resolve fs p = Some p.
Proof.
  intros Hd Hp. unfold resolve. rewrite <- (app_nil_r p) at 1. rewrite walk_dirs by done. by rewrite walk_eq.
Qed.

(** A name in a directory, that is no link. *)
Lemma resolve_in fs p c : dir_path fs p → Forall plain_name p → plain_name c → (∀ a target, fs !! (p ++ [c]) ≠ Some (a, Symlink target)) →
  resolve fs (p ++ [c]) = Some (p ++ [c]).
Proof.
  intros Hd Hp Hc Hl. unfold resolve. rewrite walk_dirs by done. rewrite walk_name by done. cbn [app].
  destruct (fs !! (p ++ [c])) as [[a []]|] eqn:E; try done. by destruct (Hl a target).
Qed.

Lemma entry_in fs p c : dir_path fs p → Forall plain_name p → entry fs (p ++ [c]) = Some (p ++ [c]).
Proof.
  intros Hd Hp. unfold entry. rewrite last_snoc, removelast_last, resolve_dir by done. cbn [mbind option_bind].
  by rewrite dir_path_is_dir.
Qed.

(** * Extraction *)

Section extract.
Context (umask now : Z).

(** The same, but for the modification time of a directory. *)
Definition like (x y : option inode) : Prop :=
  x = y ∨ ∃ a a', x = Some (a, Dir) ∧ y = Some (a', Dir) ∧ Attr.Mode a' = Attr.Mode a ∧ Attr.Uid a' = Attr.Uid a ∧ Attr.Gid a' = Attr.Gid a.

Lemma like_refl x : like x x.
Proof. by left. Qed.

Lemma like_trans x y z : like x y → like y z → like x z.
Proof.
  intros [->|(a & b & -> & -> & ? & ? & ?)]; [done|]. intros [<-|(b' & c & [= <-] & -> & ? & ? & ?)]; [right; by exists a, b|].
  right. exists a, c. split_and!; try done; congruence.
Qed.

Lemma like_dir x y : like x y → (∃ a, x = Some (a, Dir)) → ∃ a, y = Some (a, Dir).
Proof. intros [->|(a & a' & _ & -> & _)]; [done|]. by exists a'. Qed.

Lemma dir_path_like fs fs' p : (∀ q, q ≠ [] → ∀ r, p = q ++ r → like (fs !! q) (fs' !! q)) → dir_path fs p → dir_path fs' p.
Proof. intros Hl Hd q r Hp Hq. eapply like_dir; [by eapply Hl|by eapply Hd]. Qed.

Lemma touch_at fs p q : q ≠ p → touch now fs p !! q = fs !! q.
Proof. intros Hq. unfold touch. destruct p; [done|]. by rewrite lookup_alter_ne. Qed.

Lemma touch_like fs p q : dir_path fs p → like (fs !! q) (touch now fs p !! q).
Proof.
  intros Hd. destruct (decide (q = p)) as [->|Hne]; [|rewrite touch_at by done; apply like_refl].
  unfold touch. destruct p as [|c p]; [apply like_refl|]. rewrite lookup_alter, decide_True by done.
  destruct (Hd (c :: p) []) as [a ->]; [by rewrite app_nil_r|done|]. right. by eexists _, _.
Qed.

Lemma snoc_ne (p : path) c : p ++ [c] ≠ p.
Proof. intros Heq. apply (f_equal length) in Heq. rewrite length_app in Heq. cbn in Heq. lia. Qed.

Lemma create_at fs p c mode k : create now fs (p ++ [c]) mode k !! (p ++ [c]) = Some (Attr.mk mode 0 0 now, k).
Proof.
  unfold create. rewrite removelast_last. rewrite touch_at by apply snoc_ne. by rewrite lookup_insert, decide_True.
Qed.

Lemma dir_path_insert fs p c i : dir_path fs p → dir_path (<[p ++ [c] := i]> fs) p.
Proof.
  intros Hd q r -> Hq. rewrite lookup_insert_ne; [by apply (Hd q r)|].
  intros Heq. apply (f_equal length) in Heq. rewrite !length_app in Heq. cbn in Heq. lia.
Qed.

Lemma create_like fs p c mode k q : dir_path fs p → q ≠ p ++ [c] → like (fs !! q) (create now fs (p ++ [c]) mode k !! q).
Proof.
  intros Hd Hq. unfold create. rewrite removelast_last. eapply like_trans; [|by apply touch_like, dir_path_insert].
  rewrite lookup_insert_ne by done. apply like_refl.
Qed.

(** ** One member *)

(** A mode of permissions alone, none of which the umask takes away. *)
Definition open_mode (mode : Z) : Prop := (0 ≤ mode < 2 ^ 9)%Z ∧ Z.land mode umask = 0%Z.

(** What a restored file keeps: its mode where the umask leaves it, its owner, and but for
    a directory its time, in seconds.  Nothing of the attributes of a link. *)
Definition restored (a : Attr.t) (k : kind) (a' : Attr.t) : Prop :=
  match k with
  | Symlink _ => True
  | _ => (open_mode (Attr.Mode a) → Attr.Mode a' = Attr.Mode a) ∧ Attr.Uid a' = Attr.Uid a ∧ Attr.Gid a' = Attr.Gid a
    ∧ (k ≠ Dir → Attr.ModTime a' = Truncate_second (Attr.ModTime a))
  end.

Lemma perm_open mode : open_mode mode → perm umask mode = mode.
Proof.
  intros [Hm Hu]. unfold perm. assert (Z.land mode 511 = mode) as ->.
  { change 511%Z with (Z.ones 9). rewrite Z.land_ones by lia. by apply Z.mod_small. }
  apply Z.bits_inj'. intros n Hn. rewrite Z.land_spec, Z.lnot_spec by done.
  assert (Z.testbit mode n && Z.testbit umask n = false) as Hb by (by rewrite <- Z.land_spec, Hu, Z.bits_0).
  by destruct (Z.testbit mode n), (Z.testbit umask n).
Qed.

(** A file with its attributes is added at a new name, and changes nothing else. *)
Definition added (fs fs' : filesystem) (target : path) (a : Attr.t) (k : kind) : Prop :=
  (∃ a', fs' !! target = Some (a', k) ∧ restored a k a') ∧ ∀ q, q ≠ target → like (fs !! q) (fs' !! q).

Lemma perm_header mode : perm umask (Z.land mode 4095) = perm umask mode.
Proof. unfold perm. by rewrite <- (Z.land_assoc mode 4095 511). Qed.

Lemma truncate_nonneg t : (0 ≤ t)%Z → (0 ≤ Truncate_second t)%Z.
Proof. intros Ht. unfold Truncate_second. pose proof (Z.mod_le t (10 ^ 9) Ht ltac:(done)). lia. Qed.

Lemma stat_missing fs p c : dir_path fs p → Forall plain_name p → plain_name c → fs !! (p ++ [c]) = None → Stat fs (p ++ [c]) = None.
Proof.
  intros Hd Hp Hc Hn. unfold Stat. rewrite resolve_in; [|done..|intros a target; by rewrite Hn]. cbn [mbind option_bind].
  destruct (p ++ [c]) eqn:E; [by destruct p|]. by rewrite Hn.
Qed.

Lemma stat_dir fs p : dir_path fs p → Forall plain_name p → Stat fs p = Some Dir.
Proof.
  intros Hd Hp. unfold Stat. rewrite resolve_dir by done. cbn [mbind option_bind]. destruct p as [|c p]; [done|].
  by destruct (Hd (c :: p) []) as [a ->]; [rewrite app_nil_r|done|].
Qed.

Lemma MkdirAll_there fs p mode : dir_path fs p → Forall plain_name p → MkdirAll umask now fs p mode = (fs, true).
Proof.
  intros Hd Hp. unfold MkdirAll. destruct p as [|c p _] using rev_ind; [done|]. rewrite rev_app_distr. cbn [rev app MkdirAll_rev].
  rewrite rev_involutive. by rewrite stat_dir.
Qed.

Lemma MkdirAll_new fs p c mode : dir_path fs p → Forall plain_name p → plain_name c → fs !! (p ++ [c]) = None →
  MkdirAll umask now fs (p ++ [c]) mode = (create now fs (p ++ [c]) (perm umask mode) Dir, true).
Proof.
  intros Hd Hp Hc Hn. unfold MkdirAll. rewrite rev_app_distr. cbn [rev app MkdirAll_rev]. rewrite rev_involutive.
  rewrite stat_missing by done. fold (MkdirAll umask now fs p mode). rewrite MkdirAll_there by done.
  unfold mkdir. rewrite entry_in by done. by rewrite Hn.
Qed.

Lemma set_attrs_new fs p c k a uid gid mtime : dir_path fs p → Forall plain_name p → plain_name c →
  fs !! (p ++ [c]) = Some (a, k) → (∀ target, k ≠ Symlink target) →
  let fs' := set_attrs fs (p ++ [c]) uid gid mtime true in
  fs' !! (p ++ [c]) = Some (Attr.mk (Attr.Mode a) uid gid mtime, k) ∧ ∀ q, q ≠ p ++ [c] → fs' !! q = fs !! q.
Proof.
  intros Hd Hp Hc Ha Hk. unfold set_attrs. cbv zeta.
  rewrite resolve_in; [|done..|intros ? target; rewrite Ha; intros [= _ ->]; by eapply Hk]. split.
  - by rewrite lookup_alter, decide_True, Ha.
  - intros q Hq. by rewrite lookup_alter_ne.
Qed.

(** A new directory or file gets its attributes. *)
Lemma attrs_added fs p c a k mode h : dir_path fs p → Forall plain_name p → plain_name c → fs !! (p ++ [c]) = None →
  (∀ target, k ≠ Symlink target) → (0 ≤ Attr.ModTime a)%Z → mode = perm umask (Attr.Mode a) →
  Header.Typeflag h ≠ TypeSymlink → Header.Uid h = Attr.Uid a → Header.Gid h = Attr.Gid a → Header.ModTime h = Truncate_second (Attr.ModTime a) →
  added fs (restoreAttrs (create now fs (p ++ [c]) mode k) (p ++ [c]) h) (p ++ [c]) a k.
Proof.
  intros Hd Hp Hc Hn Hk Ht -> Hf Hu Hg Hm. unfold restoreAttrs. rewrite bool_decide_false by done. rewrite Hu, Hg, Hm.
  pose proof (truncate_nonneg _ Ht). replace (negb _) with true by (symmetry; apply negb_true_iff, Z.eqb_neq; lia).
  set (fs1 := create now fs (p ++ [c]) (perm umask (Attr.Mode a)) k).
  destruct (set_attrs_new fs1 p c k (Attr.mk (perm umask (Attr.Mode a)) 0 0 now) (Attr.Uid a) (Attr.Gid a) (Truncate_second (Attr.ModTime a)))
    as [H1 H2]; [|done|done|apply create_at|done|].
  { eapply dir_path_like; [|exact Hd]. intros q _ r ->. apply create_like; [done|].
    intros Heq. apply (f_equal length) in Heq. rewrite !length_app in Heq. cbn in Heq. lia. }
  split.
  - eexists. split; [exact H1|]. pose proof (perm_open (Attr.Mode a)). by destruct k.
  - intros q Hq. rewrite H2 by done. by apply create_like.
Qed.

Lemma extract_new dst fs par c a k m : Forall plain_name dst → Forall plain_name (par ++ [c]) → dir_path fs (dst ++ par) →
  fs !! (dst ++ par ++ [c]) = None → header_of (par ++ [c]) (a, k) = Some m → (0 ≤ Attr.ModTime a)%Z →
  ∃ fs', extract_member umask now dst fs m = (fs', true) ∧
    match k with Special => fs' = fs | _ => added fs fs' (dst ++ par ++ [c]) a k end.
Proof.
  intros Hdst Hpc Hd Hn Hm Ht. pose proof Hpc as [Hpar Hc]%Forall_app. apply Forall_cons in Hc as [Hc _].
  assert (Forall plain_name (dst ++ par)) as Hp by (by apply Forall_app).
  assert (par ++ [c] ≠ []) as Hne by (by destruct par). destruct (Clean_join (par ++ [c]) Hne Hpc) as [Hc1 Hc2].
  assert (removelast (dst ++ par ++ [c]) = dst ++ par) as Hrm by (by rewrite app_assoc, removelast_last).
  unfold extract_member. destruct k as [|data|target| |]; cbn [header_of] in Hm; try done; injection Hm as <-;
    rewrite SafeJoin_below; cbn [Header.Name Header.Typeflag Header.Mode Header.Linkname]; rewrite ?Hc1, ?Hc2; rewrite ?Hrm.
  - rewrite app_assoc in *. rewrite MkdirAll_new by done. eexists. split; [reflexivity|]. rewrite perm_header. by apply attrs_added.
  - rewrite app_assoc in *. rewrite MkdirAll_there by done. unfold write_file. rewrite resolve_in; [|done..|intros ? target; by rewrite Hn].
    rewrite Hn. destruct ((dst ++ par) ++ [c]) as [|x l] eqn:E; [by destruct (dst ++ par)|]. rewrite <- E in Hn |- *. eexists. split; [reflexivity|].
    rewrite perm_header. by apply attrs_added.
  - rewrite app_assoc in *. unfold Remove. rewrite entry_in by done. rewrite Hn. unfold make_symlink. rewrite entry_in by done. rewrite Hn.
    eexists. split; [reflexivity|]. split; [eexists; split; [apply create_at|done]|]. intros q Hq. by apply create_like.
  - by eexists.
Qed.

(** ** A whole volume *)

(** Below [dst] the files of [t] that are in [l] and nothing else; elsewhere what was. *)
Definition gives_back (t : filesystem) (l : list path) (dst : path) (fs0 fs : filesystem) : Prop :=
  (∀ q, (∀ rel, rel ≠ [] → q ≠ dst ++ rel) → like (fs0 !! q) (fs !! q)) ∧
  (∀ rel, rel ≠ [] → rel ∉ l → fs !! (dst ++ rel) = None) ∧
  (∀ rel a k, rel ∈ l → t !! rel = Some (a, k) →
    match k with Special => fs !! (dst ++ rel) = None | _ => ∃ a', fs !! (dst ++ rel) = Some (a', k) ∧ restored a k a' end).

Lemma restored_like x y a k : like x y → (∃ a', x = Some (a', k) ∧ restored a k a') → ∃ a', y = Some (a', k) ∧ restored a k a'.
Proof.
  intros [->|(b & b' & -> & -> & Hm & Hu & Hg)]; [done|]. intros (a' & [= <- <-] & (? & ? & ? & _)). exists b'.
  split; [done|]. split_and!; [rewrite Hm; done|congruence..|done].
Qed.

(** The directories above a file of the volume are there when its turn comes. *)
Lemma parents_there t l par c rest dst fs0 fs : volume t → sortedEntries t = l ++ (par ++ [c]) :: rest →
  dir_path fs0 dst → gives_back t l dst fs0 fs → dir_path fs (dst ++ par).
Proof.
  intros Hv Hs Hd (Hout & _ & Hin). destruct (proj1 (elem_of_sortedEntries t (par ++ [c]))) as [i Hi].
  { rewrite Hs. apply elem_of_app. right. by left. }
  assert (dir_path fs dst) as Hdst.
  { eapply dir_path_like; [|exact Hd]. intros q _ r ->. apply Hout. intros rel Hrel Heq.
    apply (f_equal length) in Heq. rewrite !length_app in Heq. destruct rel; [done|]. cbn in Heq. lia. }
  intros q r Heq Hq. destruct (app_eq_inv _ _ _ _ Heq) as [(u & -> & Hr)|(u & -> & Hr)].
  - by apply (Hdst q u).
  - destruct (decide (u = [])) as [->|Hu]; [rewrite app_nil_r in *; apply (Hdst dst []); by rewrite ?app_nil_r|].
    subst par. rewrite <- app_assoc in Hi. destruct (volume_parents t Hv u (r ++ [c]) i Hi Hu) as [a Ha]; [by destruct r|].
    assert (u ∈ l) as Hul.
    { eapply above_before; [exact Hs|by exists (a, Dir)|]. rewrite <- app_assoc. apply parent_first; [done|by destruct r]. }
    destruct (Hin u a Dir Hul Ha) as (a' & Ha' & _). by exists a'.
Qed.

Lemma gives_back_step t l rel rest dst fs0 fs : volume t → sortedEntries t = l ++ rel :: rest → Forall plain_name dst →
  dir_path fs0 dst → gives_back t l dst fs0 fs →
  ∃ m fs', t !! rel ≫= header_of rel = Some m ∧ extract_member umask now dst fs m = (fs', true) ∧ gives_back t (l ++ [rel]) dst fs0 fs'.
Proof.
  intros Hv Hs Hdst Hd Hg. destruct (proj1 (elem_of_sortedEntries t rel)) as [[a k] Hi]; [rewrite Hs; apply elem_of_app; right; by left|].
  destruct (volume_names t Hv rel) as (Hne & Hp & _); [by exists (a, k)|]. destruct (member_of t rel (a, k) Hv Hi) as (m & Hm & _).
  assert (rel ∉ l) as Hnot.
  { pose proof (NoDup_sortedEntries t) as Hnd. rewrite Hs in Hnd. apply NoDup_app in Hnd as (_ & Hnd & _). intros Hin. apply (Hnd rel Hin). by left. }
  destruct rel as [|c par _] using rev_ind; [done|]. pose proof (parents_there t l par c rest dst fs0 fs Hv Hs Hd Hg) as Hpar.
  destruct Hg as (Hout & Hnone & Hin).
  destruct (extract_new dst fs par c a k m Hdst Hp Hpar (Hnone _ Hne Hnot) Hm (proj1 (volume_times t Hv _ _ _ Hi))) as (fs' & Hx & Hadd).
  exists m, fs'. split; [by rewrite Hi|]. split; [done|].
  assert (∀ q, q ≠ dst ++ par ++ [c] → like (fs !! q) (fs' !! q)) as Hlike.
  { destruct k; [apply Hadd..|]. subst fs'. intros; apply like_refl. }
  assert (∀ rel, rel ≠ par ++ [c] → dst ++ rel ≠ dst ++ par ++ [c]) as Hinj by (intros rel Hr Heq; by apply app_inv_head in Heq).
  split_and!.
  - intros q Hq. eapply like_trans; [by apply Hout|]. apply Hlike. by apply Hq.
  - intros rel Hr Hn. rewrite elem_of_app, list_elem_of_singleton in Hn.
    destruct (Hlike (dst ++ rel)) as [Heq|(b & b' & Hb & _)]; [by apply Hinj; tauto|rewrite <- Heq; apply Hnone; tauto|].
    rewrite Hnone in Hb by tauto. done.
  - intros rel a2 k2 Hr Ht. apply elem_of_app in Hr as [Hr| ->%list_elem_of_singleton].
    + assert (rel ≠ par ++ [c]) as Hrne by (by intros ->). specialize (Hin rel a2 k2 Hr Ht). specialize (Hlike _ (Hinj _ Hrne)).
      destruct k2; try (by eapply restored_like). rewrite Hin in Hlike. by destruct Hlike as [<-|(b & b' & ? & _)].
    + rewrite Hi in Ht. injection Ht as <- <-. destruct k; try apply Hadd. subst fs'. by apply Hnone.
Qed.

Lemma extract_volume t dst fs0 : volume t → Forall plain_name dst → dir_path fs0 dst → (∀ rel, rel ≠ [] → fs0 !! (dst ++ rel) = None) →
  ∃ fs, extract_all umask now dst fs0 (members t (sortedEntries t)) = (fs, true) ∧ gives_back t (sortedEntries t) dst fs0 fs.
Proof.
  intros Hv Hdst Hd He.
  assert (∀ rest l fs, sortedEntries t = l ++ rest → gives_back t l dst fs0 fs →
    ∃ fs', extract_all umask now dst fs (members t rest) = (fs', true) ∧ gives_back t (l ++ rest) dst fs0 fs') as H.
  { induction rest as [|rel rest IH]; intros l fs Hs Hg; [exists fs; by rewrite app_nil_r|].
    destruct (gives_back_step t l rel rest dst fs0 fs Hv Hs Hdst Hd Hg) as (m & fs1 & Hm & Hx & Hg1).
    destruct (IH (l ++ [rel]) fs1) as (fs' & Hr & Hg'); [by rewrite <- app_assoc|done|]. exists fs'.
    unfold members. cbn [omap list_omap]. rewrite Hm. cbn [extract_all]. rewrite Hx. split; [exact Hr|]. by rewrite <- app_assoc in Hg'. }
  destruct (H (sortedEntries t) [] fs0 eq_refl) as (fs & ? & ?); [|by exists fs]. split_and!.
  - intros; apply like_refl.
  - intros rel Hr _. by apply He.
  - intros rel a k Hr. by apply elem_of_nil in Hr.
Qed.
End extract.

(** * Snapshot and restore *)

(** C20: a volume of directories, files, links, pipes and devices, without sockets and with
    times from 1970 on, of which a snapshot was finished in a shared bucket (in any
    interleaving that keeps collections and snapshots apart), is given back when the
    snapshot is restored, by root, into an empty directory: every directory and file with
    its owner, every file with its bytes and, in whole seconds, its modification time,
    every link with its target, and every mode of permissions that the umask of the daemon
    allows.  Nothing else is in that directory afterwards, no pipe and no device either,
    and nothing outside it changed.  (Modes that the umask restricts, setuid bits, and the
    times of directories and links are not promised: see umask_applies.) *)
Theorem volumes_are_restored {L : SnapLib} {LOk : SnapLibOk L} {T : TarLib} {TOk : TarLibOk T}
    (e : Engine.t) (s : Bucket.t) (t : filesystem) id at_ m rand umask now dst fs :
  length (Engine.key e) = 32 → Bucket.reachable e s → Bucket.collision_free e s →
  volume t → Bucket.Snapshotting id (writeDeterministicTar t) at_ (Return (inl m)) ∈ Bucket.tasks s →
  is_Some (Bucket.objs s !! (Engine.manifestPrefix +:+ id)) →
  Forall plain_name dst → dir_path fs dst → (∀ rel, rel ≠ [] → fs !! (dst ++ rel) = None) →
  ∃ fs', restore_into umask now e rand id (Bucket.objs s) dst fs = (fs', true) ∧ gives_back umask t (sortedEntries t) dst fs fs'.
Proof.
  intros Hkey Hr Hf Hv Hin Hm Hdst Hd He. destruct (reachable_good_here e Hkey s Hr Hf) as [Ho _].
  destruct (run_Restore e (some_chunk e s) (whole e s) (λ id c, some_chunk_of e s id c true) (λ a b, no_collision_here e s a b Hf) rand _ _ Ho Hm)
    as (chunks & Hc & Hrun).
  unfold restore_into. rewrite Hrun, (cut_once e Hkey s id _ at_ _ chunks Hr Hin Hc). cbn [fst].
  unfold writeDeterministicTar. destruct (write_members_volume t (sortedEntries t) Hv) as [Hw Hok].
  { apply Forall_forall. intros rel. by rewrite elem_of_sortedEntries. }
  rewrite Hw. cbn [fst]. unfold extractTar. rewrite tar_Read_Write by done.
  destruct (extract_volume umask now t dst fs Hv Hdst Hd He) as (fs' & Hx & Hg). rewrite Hx. by exists fs'.
Qed.

(** A socket, as databases keep in their data directories, stops every snapshot. *)
Lemma a_socket_stops_snapshots {L : SnapLib} {LOk : SnapLibOk L} {T : TarLib} e t p a id at_ rand o : t !! p = Some (a, Socket) →
  (writeDeterministicTar t).2 = false ∧ ∃ err, (run rand 0 (Engine.Snapshot e (writeDeterministicTar t) id at_) o).1.1 = inr err.
Proof.
  intros Hp. assert (∀ rels, p ∈ rels → (write_members t rels).2 = false) as Hw.
  { induction rels as [|rel rels IH]; [by intros ?%elem_of_nil|]. cbn [write_members].
    destruct (t !! rel ≫= header_of rel) as [m|] eqn:E; [|done]. intros [<-|Hin]%elem_of_cons; [by rewrite Hp in E|].
    specialize (IH Hin). by destruct (write_members t rels). }
  assert ((writeDeterministicTar t).2 = false) as Ht.
  { unfold writeDeterministicTar. specialize (Hw (sortedEntries t)). rewrite elem_of_sortedEntries in Hw. specialize (Hw (mk_is_Some _ _ Hp)).
    by destruct (write_members t (sortedEntries t)). }
  split; [done|]. unfold Engine.Snapshot. destruct (cdc_Chunks (Engine.opts e) (writeDeterministicTar t)) as [[chunks ok]|] eqn:Hc; [|by eexists].
  apply cdc_Chunks_concat in Hc as [-> _]. rewrite Ht. clear Ht. generalize (Manifest.mk Engine.manifestVer [] 0 at_). generalize 0%Z at 1.
  generalize 0%nat. revert o. induction chunks as [|data chunks IH]; intros o n z m; [by eexists|].
  cbn [Engine.upload mbind prog_bind run]. unfold MemStore.Has. case_bool_decide; cbn [throw]; [apply IH|].
  unfold Engine.seal. destruct (negb (length (Engine.key e) =? 32)%nat); cbn [mbind prog_bind mret prog_ret throw run]; [by eexists|].
  match goal with |- context [run rand ?nn _ ?oo] => destruct (IH oo nn (z + Z.of_nat (length data))%Z
    (m <| Manifest.Chunks ::= λ l, l ++ [ChunkRef.mk (sha256_hex data) (Z.of_nat (length data))] |> <| Manifest.TarBytes ::= λ n, (n + Z.of_nat (length data))%Z |>)) as [err Herr] end.
  exists err. rewrite <- Herr. by destruct (run _ _ _ _) as [[? ?] ?].
Qed.

(** * A concrete tar, and runs *)

Module ToyTar.

Definition flag (f : typeflag) : nat := match f with TypeReg => 0 | TypeDir => 1 | TypeSymlink => 2 | TypeOther => 3 end.
Definition unflag (n : nat) : typeflag := match n with 0 => TypeReg | 1 => TypeDir | 2 => TypeSymlink | _ => TypeOther end.

Definition tuple (m : member) : list positive :=
  let h := m.1 in [encode (Header.Name h); encode (flag (Header.Typeflag h)); encode (Header.Mode h); encode (Header.Uid h); encode (Header.Gid h);
    encode (Header.ModTime h); encode (Header.Linkname h); encode (String.string_of_list_ascii m.2)].
Definition untuple (x : list positive) : member :=
  match x with
  | [n; f; m; u; g; t; l; d] =>
    (Header.mk (default "" (decode n)) (unflag (default 0 (decode f))) (default 0%Z (decode m)) (default 0%Z (decode u)) (default 0%Z (decode g))
      (default 0%Z (decode t)) (default "" (decode l)), String.list_ascii_of_string (default "" (decode d)))
  | _ => (Header.mk "" TypeOther 0 0 0 0 "", [])
  end.

Lemma unmember_member m : untuple (tuple m) = m.
Proof.
  destruct m as [[n f md u g t l] d]. unfold tuple, untuple. cbn [fst snd Header.Name Header.Typeflag Header.Mode Header.Uid Header.Gid Header.ModTime Header.Linkname].
  rewrite !decode_encode. unfold default, from_option, id. rewrite String.list_ascii_of_string_of_list_ascii. by destruct f.
Qed.

#[global] Instance tar : TarLib := {|
  tar_Write ms _ := Toy.bits (encode (tuple <$> ms));
  tar_Read b whole := match decode (Toy.unbits b) with Some ms => (untuple <$> ms, if whole : bool then TarEOF else TarError) | None => ([], TarError) end
|}.

#[global] Instance tar_ok : TarLibOk tar.
Proof.
  intros ms _. unfold tar_Read, tar_Write, tar. rewrite Toy.unbits_bits, decode_encode. f_equal.
  rewrite <- list_fmap_compose. rewrite <- (list_fmap_id ms) at 2. apply list_fmap_ext. intros ? m _. apply unmember_member.
Qed.

End ToyTar.

Definition owned (mode : Z) : Attr.t := Attr.mk mode 999 999 (5 * 10 ^ 9 + 1).

(** A directory that its group may write, with a file, and a link to the file. *)
Definition a_volume : filesystem :=
  {[ ["d"] := (owned 509, Dir); ["d"; "f"] := (owned 420, File (Toy.bytes_of "hi")); ["l"] := (owned 511, Symlink "d/f") ]}.

Lemma a_volume_cases p i : a_volume !! p = Some i →
  (p, i) ∈ [(["d"], (owned 509, Dir)); (["d"; "f"], (owned 420, File (Toy.bytes_of "hi"))); (["l"], (owned 511, Symlink "d/f"))].
Proof. intros Hi%elem_of_map_to_list. revert Hi. vm_compute. intros Hi. set_solver. Qed.

Lemma a_volume_ok : volume a_volume.
Proof.
  split.
  - intros p [i Hi%a_volume_cases]. repeat (apply elem_of_cons in Hi as [[= -> _]|Hi]); [..|by apply elem_of_nil in Hi];
      (split_and!; [done|repeat constructor; done|done]).
  - intros p q i Hi%a_volume_cases Hp Hq. exists (owned 509).
    repeat (apply elem_of_cons in Hi as [[= Heq _]|Hi]); [..|by apply elem_of_nil in Hi];
      destruct p as [|x [|y [|z p]]]; try done; destruct q; try done; simplify_eq/=; try done; reflexivity.
  - intros p a k Hi%a_volume_cases. repeat (apply elem_of_cons in Hi as [[= _ -> _]|Hi]); [done..|by apply elem_of_nil in Hi].
  - intros p a k Hi%a_volume_cases. repeat (apply elem_of_cons in Hi as [[= _ -> _]|Hi]); [done..|by apply elem_of_nil in Hi].
  - intros p a data Hi%a_volume_cases. repeat (apply elem_of_cons in Hi as [[= _ _ ?]|Hi]); [by subst data|by apply elem_of_nil in Hi].
  - intros p a target Hi%a_volume_cases. repeat (apply elem_of_cons in Hi as [[= _ _ ?]|Hi]); [by subst target|by apply elem_of_nil in Hi].
  - intros p a Hi%a_volume_cases. repeat (apply elem_of_cons in Hi as [?|Hi]); [done..|by apply elem_of_nil in Hi].
Qed.

Definition volume_task : Bucket.task :=
  Bucket.Snapshotting "v" (writeDeterministicTar a_volume) 0 (Engine.Snapshot Toy.engine (writeDeterministicTar a_volume) "v" 0).

Definition stored : Bucket.t := Toy.calls (replicate 10 0) (Toy.start volume_task (Bucket.mk ∅ [])).

Lemma stored_reachable : Bucket.reachable Toy.engine stored.
Proof.
  apply Toy.calls_reachable; [|by vm_compute]. apply Toy.start_reachable; [constructor|done|split; [constructor|done]].
Qed.

Definition snapshot_done (s : Bucket.t) : option Manifest.t :=
  match Bucket.tasks s with [Bucket.Snapshotting _ _ _ (Return (inl m))] => Some m | _ => None end.

Lemma stored_done : ∃ m, Bucket.Snapshotting "v" (writeDeterministicTar a_volume) 0 (Return (inl m)) ∈ Bucket.tasks stored.
Proof.
  exists (default (Manifest.mk 0 [] 0 0) (snapshot_done stored)). apply list_elem_of_lookup. exists 0. vm_compute. reflexivity.
Qed.

(** The host: a directory for the volume, and a file elsewhere. *)
Definition host : filesystem :=
  {[ ["vol"] := (Attr.mk 493 0 0 0, Dir); ["etc"] := (Attr.mk 493 0 0 0, Dir); ["etc"; "passwd"] := (Attr.mk 420 0 0 0, File (Toy.bytes_of "root")) ]}.

Lemma host_empty rel : rel ≠ [] → host !! (["vol"] ++ rel) = None.
Proof.
  intros Hr. destruct (host !! (["vol"] ++ rel)) as [i|] eqn:E; [|done]. apply elem_of_map_to_list in E. exfalso. revert E. vm_compute. intros E.
  repeat (apply elem_of_cons in E as [?|E]; [simplify_eq/=|]); by apply elem_of_nil in E.
Qed.

Lemma volumes_are_restored_witness :
  ∃ fs', restore_into 18 7 Toy.engine (λ _, Toy.nonce) "v" (Bucket.objs stored) ["vol"] host = (fs', true)
    ∧ gives_back 18 a_volume (sortedEntries a_volume) ["vol"] host fs'.
Proof.
  destruct stored_done as [m Hm].
  eapply (volumes_are_restored Toy.engine stored a_volume "v" 0%Z m); [reflexivity|apply stored_reachable|apply toy_collision_free|apply a_volume_ok|exact Hm| | | |].
  - apply (bool_decide_eq_true_1 (is_Some (Bucket.objs stored !! (Engine.manifestPrefix +:+ "v")))). vm_compute. reflexivity.
  - repeat constructor; done.
  - intros q r Hq Hne. destruct q as [|x [|y q]]; simplify_eq/=. by eexists.
  - apply host_empty.
Defined.

(** The umask takes rights away that the volume had: the directory its group could write. *)
Example umask_applies : (λ i : inode, Attr.Mode i.1) <$> (restore_into 18 7 Toy.engine (λ _, Toy.nonce) "v" (Bucket.objs stored) ["vol"] host).1 !! ["vol"; "d"]
  = Some 493%Z.
Proof. vm_compute. reflexivity. Qed.

(** A link that the service left in its volume, where the snapshot has a directory, is followed:
    the restore, run by the daemon as root, writes outside of the volume. *)
Definition trapped : filesystem := <[["vol"; "etc"] := (Attr.mk 511 999 999 0, Symlink "/etc")]> host.
Definition trap : filesystem :=
  {[ ["etc"] := (owned 493, Dir); ["etc"; "passwd"] := (owned 420, File (Toy.bytes_of "evil")) ]}.

Lemma a_restore_writes_outside_the_volume :
  write_members trap (sortedEntries trap) = (members trap (sortedEntries trap), true)
  ∧ (extract_all 18 7 ["vol"] trapped (members trap (sortedEntries trap))).2 = true
  ∧ snd <$> trapped !! ["etc"; "passwd"] = Some (File (Toy.bytes_of "root"))
  ∧ snd <$> (extract_all 18 7 ["vol"] trapped (members trap (sortedEntries trap))).1 !! ["etc"; "passwd"] = Some (File (Toy.bytes_of "evil")).
Proof. split_and!; vm_compute; reflexivity. Qed.

(** Files made after the snapshot are still there after the restore. *)
Lemma later_files_survive_a_restore :
  let fs := <[["vol"; "wal"] := (owned 420, File (Toy.bytes_of "new"))]> host in
  (restore_into 18 7 Toy.engine (λ _, Toy.nonce) "v" (Bucket.objs stored) ["vol"] fs).2 = true
  ∧ (restore_into 18 7 Toy.engine (λ _, Toy.nonce) "v" (Bucket.objs stored) ["vol"] fs).1 !! ["vol"; "wal"] = fs !! ["vol"; "wal"].
Proof. split; vm_compute; reflexivity. Qed.
