(* ===== verification/VolumeOps.v ===== *)
(** Snapshots of volumes on the leader: the dispatcher that has a node take or restore one
    (internal/daemon/api/volumeops.go), the node's side of it (internal/daemon/agent/volumeops.go),
    the schedule and its retention (internal/daemon/scheduler/snapshots.go), and the volume
    service of the API (internal/daemon/api/volumes.go).

    What a node streams back is a parameter, by the number of the interaction.  The removal of
    the Docker volume of a deleted volume, whose failure is logged, is not modelled. *)
From S2P Require Import Prelude Api Requests Watch State StateInv Platform Fsm Placement Leader Orchestrator Scheduler Cron Rpc Apps Volumes Executor.

Module S3Target.
Record t := mk { Endpoint : string; Bucket : string; Prefix : string; Region : string; AccessKey : string; SecretKey : string; DataKey : string }.
End S3Target.

Module VolumeOpProgress.
Record t := mk { BytesDone : Z; BytesTotal : Z; Phase : string; Error : string; ManifestKey : string }.
End VolumeOpProgress.

Module AgentSnapshotVolumeRequest.
Record t := mk {
  Volume : option Volume.t; Snapshot : option VolumeSnapshot.t; PreHookContainerId : string; PreHookCommand : string;
  S3 : option S3Target.t
}.
End AgentSnapshotVolumeRequest.

Module AgentRestoreVolumeRequest.
Record t := mk { Volume : option Volume.t; ManifestKey : string; S3 : option S3Target.t }.
End AgentRestoreVolumeRequest.

(** A stream of messages, and the error it ends with, if any. *)
Notation stream := (list VolumeOpProgress.t * option string)%type.

(** The nodes, from the leader: whether a node can be dialed and takes the call, and the stream
    that follows, or the text of an error; and the data key of the vault. *)
Class VolumeAgents := {
  SnapshotVolume_call : nat → option Node.t → AgentSnapshotVolumeRequest.t → stream + string;
  RestoreVolume_call : nat → option Node.t → AgentRestoreVolumeRequest.t → stream + string;
  vault_DataKey : nat → string
}.

(** * The dispatcher *)

Module SnapshotDispatcher.
Section dispatcher.
Context {RO : RangeOrder} {TL : TimestampLib} {V : VaultLib} {VA : VolumeAgents} {E : Env}.

(** Errors that raft does not raise are told apart by nobody, and are [ErrApply] too. *)
Definition sys_apply (m : Mutation) : M () := Apply "system:snapshots" m.

Definition putSnapshot (snap : VolumeSnapshot.t) : M () := sys_apply (Command_PutVolumeSnapshot (Some (PutVolumeSnapshot.mk (Some snap)))).

Definition s3Target : M S3Target.t :=
  unsealed ← tick_ Unsealed;
  if negb unsealed then fail ErrApply
  else
    st ← read;
    match Store.GetBackupConfig st with
    | None => fail ErrApply
    | Some bc =>
      if BackupConfig.S3Bucket bc =? "" then fail ErrApply
      else
        match Open (BackupConfig.S3AccessKey bc) with
        | None => fail ErrApply
        | Some ak =>
          match Open (BackupConfig.S3SecretKey bc) with
          | None => fail ErrApply
          | Some sk =>
            key ← tick_ vault_DataKey;
            mret (S3Target.mk (BackupConfig.S3Endpoint bc) (BackupConfig.S3Bucket bc) (BackupConfig.S3Prefix bc) (BackupConfig.S3Region bc) ak sk key)
          end
        end
    end.

(** The loop over the stream of a snapshot: the last message, or an error. *)
Fixpoint last_message (ms : list VolumeOpProgress.t) (fin : option string) (lst : option VolumeOpProgress.t) : option VolumeOpProgress.t + string :=
  match ms with
  | [] => match fin with None => inl lst | Some err => inr err end
  | m :: ms => if negb (VolumeOpProgress.Error m =? "") then inr (VolumeOpProgress.Error m) else last_message ms fin (Some m)
  end.

Definition snapshot_request (volume : option Volume.t) (snap : VolumeSnapshot.t) (target : S3Target.t) : AgentSnapshotVolumeRequest.t :=
  AgentSnapshotVolumeRequest.mk volume (Some snap) "" (volume ⇝ Volume.SnapshotPolicy ⇝ SnapshotPolicy.PreHook) (Some target).

Definition streamSnapshot (node : option Node.t) (volume : option Volume.t) (snap : VolumeSnapshot.t) (target : S3Target.t) :
    M (VolumeOpProgress.t + string) :=
  r ← tick_ (λ n, SnapshotVolume_call n node (snapshot_request volume snap target));
  mret (match r with
  | inr err => inr err
  | inl (ms, fin) =>
    match last_message ms fin None with
    | inr err => inr err
    | inl (Some m) => if VolumeOpProgress.Phase m =? "done" then inl m else inr "snapshot stream ended without a done message"
    | inl None => inr "snapshot stream ended without a done message"
    end
  end).

Definition RunSnapshot (vol : option Volume.t) : M VolumeSnapshot.t :=
  target ← s3Target;
  st ← read;
  match Store.Node (vol ⇝ Volume.NodeId) st with
  | None => fail ErrApply
  | Some node =>
    id ← New;
    now ← Now;
    let snap := VolumeSnapshot.mk (Some (Meta.mk id (Some (timestamppb_New now)) None)) (GetId vol) "" 0 0 SNAPSHOT_STATUS_RUNNING "" in
    putSnapshot snap;;
    r ← streamSnapshot node vol snap target;
    match r with
    | inr err =>
      let snap := snap <| VolumeSnapshot.Status := SNAPSHOT_STATUS_FAILED |> <| VolumeSnapshot.Error := err |> in
      ignore (putSnapshot snap);;
      fail ErrApply
    | inl prog =>
      let snap := snap <| VolumeSnapshot.Status := SNAPSHOT_STATUS_COMPLETE |> <| VolumeSnapshot.ManifestKey := VolumeOpProgress.ManifestKey prog |>
        <| VolumeSnapshot.LogicalSizeBytes := VolumeOpProgress.BytesTotal prog |> <| VolumeSnapshot.UploadedBytes := VolumeOpProgress.BytesDone prog |> in
      putSnapshot snap;;
      mret snap
    end
  end.

(** The loop over the stream of a restore: an error, if any. *)
Fixpoint stream_error (ms : list VolumeOpProgress.t) (fin : option string) : option string :=
  match ms with
  | [] => fin
  | m :: ms => if negb (VolumeOpProgress.Error m =? "") then Some (VolumeOpProgress.Error m) else stream_error ms fin
  end.

Definition Restore (vol : option Volume.t) (manifestKey : string) : M () :=
  target ← s3Target;
  st ← read;
  match Store.Node (vol ⇝ Volume.NodeId) st with
  | None => fail ErrApply
  | Some node =>
    r ← tick_ (λ n, RestoreVolume_call n node (AgentRestoreVolumeRequest.mk vol manifestKey (Some target)));
    match r with
    | inr _ => fail ErrApply
    | inl (ms, fin) => match stream_error ms fin with None => mret () | Some _ => fail ErrApply end
    end
  end.

End dispatcher.
End SnapshotDispatcher.

(** * The node (agent/volumeops.go) *)

Module LocalServer.

(** What it does to the world: a command run in a container, and a message sent. *)
Inductive effect := RunPreHook (containerID command : string) | Send (m : VolumeOpProgress.t).

Definition message (phase err : string) : VolumeOpProgress.t := VolumeOpProgress.mk 0 0 phase err "".
Definition sendOpErr (err : string) : list effect * option string := ([Send (message "error" err)], Some err).

Section local.
(** The container engine: the path of a volume, whether a pre-hook fails, whether a volume can
    be made; the engine for a target; what the snapshot engine reports and answers (the size
    of the tar), and what a restore answers. *)
Variable VolumeHostPath : string → string + string.
Variable runPreHook : string → string → option string.
Variable EnsureVolume : string → option string.
Variable engineFromTarget : option S3Target.t → option string.
Variable engine_Snapshot : string → string → list Z * (Z + string).
Variable engine_Restore : string → string → option string.

Definition SnapshotVolume (req : AgentSnapshotVolumeRequest.t) : list effect * option string :=
  let vol := AgentSnapshotVolumeRequest.Volume req in
  match VolumeHostPath (Exec.volumeName (vol ⇝ Volume.EnvironmentId) (vol ⇝ Volume.Name)) with
  | inr err => sendOpErr ("locate volume " +:+ Exec.volumeName (vol ⇝ Volume.EnvironmentId) (vol ⇝ Volume.Name) +:+ ": " +:+ err)
  | inl hostPath =>
    let cmd := AgentSnapshotVolumeRequest.PreHookCommand req in
    let container := AgentSnapshotVolumeRequest.PreHookContainerId req in
    let hook := negb (cmd =? "") && negb (container =? "") in
    let pre := if hook then [Send (message "hooks" ""); RunPreHook container cmd] else [] in
    match (if hook then runPreHook container cmd else None) with
    | Some err => (pre ++ (sendOpErr err).1, Some err)
    | None =>
      match engineFromTarget (AgentSnapshotVolumeRequest.S3 req) with
      | Some err => (pre ++ (sendOpErr err).1, Some err)
      | None =>
        let snapID := GetId (AgentSnapshotVolumeRequest.Snapshot req) in
        let '(reports, r) := engine_Snapshot hostPath snapID in
        let pre := pre ++ [Send (message "upload" "")] ++ ((λ n, Send (VolumeOpProgress.mk (u64 n) 0 "upload" "" "")) <$> reports) in
        match r with
        | inr err => (pre ++ (sendOpErr err).1, Some err)
        | inl tarBytes => (pre ++ [Send (VolumeOpProgress.mk (u64 tarBytes) (u64 tarBytes) "done" "" snapID)], None)
        end
      end
    end
  end.

Definition RestoreVolume (req : AgentRestoreVolumeRequest.t) : list effect * option string :=
  let vol := AgentRestoreVolumeRequest.Volume req in
  let dockerName := Exec.volumeName (vol ⇝ Volume.EnvironmentId) (vol ⇝ Volume.Name) in
  match EnsureVolume dockerName with
  | Some err => sendOpErr ("ensure volume " +:+ dockerName +:+ ": " +:+ err)
  | None =>
    match VolumeHostPath dockerName with
    | inr err => sendOpErr ("locate volume " +:+ dockerName +:+ ": " +:+ err)
    | inl hostPath =>
      match engineFromTarget (AgentRestoreVolumeRequest.S3 req) with
      | Some err => sendOpErr err
      | None =>
        let pre := [Send (message "download" "")] in
        match engine_Restore (AgentRestoreVolumeRequest.ManifestKey req) hostPath with
        | Some err => (pre ++ (sendOpErr err).1, Some err)
        | None => (pre ++ [Send (message "done" "")], None)
        end
      end
    end
  end.

End local.
End LocalServer.

(** * The schedule (scheduler/snapshots.go) *)

Module SnapshotScheduler.

Definition defaultKeepLast : nat := 7.

(** The slots fired in this term, and what the dispatcher was asked to do: the snapshots begun,
    with their slots, and the snapshots pruned, by volume. *)
Record t := mk { lastFire : gmap string Z; fired : list (string * Z); pruned : list (string * list string) }.

Definition reset (s : t) : t := mk ∅ (fired s) (pruned s).

Section schedule.
Context {RO : RangeOrder} {TL : TimestampLib} {C : CronLib} {E : Env}.

(** apply: only a lost leadership is an error. *)
Definition snap_apply (m : Mutation) : M () := apply "system:snapshots" m.

Definition created (snap : option VolumeSnapshot.t) : Z := AsTime (snap ⇝ VolumeSnapshot.Meta ⇝ Meta.CreatedAt).

Definition baseline (st : Store.t) (v : option Volume.t) : Z :=
  foldl (λ base snap, if (base <? created snap)%Z then created snap else base)
    (AsTime (v ⇝ Volume.Meta ⇝ Meta.CreatedAt)) (Store.ListVolumeSnapshots (GetId v) st).

(** The slot maybeSnapshot fires, if any. *)
Definition due_slot (s : t) (st : Store.t) (v : option Volume.t) (now : Z) : option Z :=
  match ParseStandard (v ⇝ Volume.SnapshotPolicy ⇝ SnapshotPolicy.Schedule) with
  | None => None
  | Some sched =>
    let due := Next sched (baseline st v) in
    if (now <? due)%Z then None
    else if (default zero_time (lastFire s !! GetId v) <? due)%Z then Some due else None
  end.

(** The dispatcher begins the snapshot in the background, and reports no error. *)
Definition maybeSnapshot (s : t) (st : Store.t) (v : option Volume.t) (now : Z) : t :=
  match due_slot s st v now with
  | None => s
  | Some due => mk (<[GetId v := due]> (lastFire s)) (fired s ++ [(GetId v, due)]) (pruned s)
  end.

Definition is_complete (snap : option VolumeSnapshot.t) : bool := bool_decide (snap ⇝ VolumeSnapshot.Status = SNAPSHOT_STATUS_COMPLETE).

(** keep_last of a policy: an int32, 7 unless positive. *)
Definition keep_of (v : option Volume.t) : nat :=
  let keep := v ⇝ Volume.SnapshotPolicy ⇝ SnapshotPolicy.KeepLast in
  if (keep <=? 0)%Z then defaultKeepLast else Z.to_nat keep.

Definition complete_of (st : Store.t) (v : option Volume.t) : list (option VolumeSnapshot.t) :=
  List.filter is_complete (Store.ListVolumeSnapshots (GetId v) st).

(** Newest first. *)
Definition newer (a b : option VolumeSnapshot.t) : bool := (created b <? created a)%Z.

(** The snapshots that are dropped. *)
Definition dead_of (st : Store.t) (v : option Volume.t) : list (option VolumeSnapshot.t) :=
  let complete := complete_of st v in
  if (length complete <=? keep_of v)%nat then [] else drop (keep_of v) (sort_slice newer complete).

Definition enforceKeepLast (s : t) (v : option Volume.t) : M t :=
  st ← read;
  match dead_of st v with
  | [] => mret s
  | dead =>
    for_each dead (λ snap, snap_apply (Command_DeleteVolumeSnapshot (Some (DeleteByID.mk (GetId snap)))));;
    mret (mk (lastFire s) (fired s) (pruned s ++ [(GetId v, GetId <$> dead)]))
  end.

Definition visit (now : Z) (s : t) (v : option Volume.t) : M t :=
  st ← read;
  let s := if negb (v ⇝ Volume.SnapshotPolicy ⇝ SnapshotPolicy.Schedule =? "") then maybeSnapshot s st v now else s in
  enforceKeepLast s v.

(** The loop of evaluate. *)
Fixpoint visit_all (now : Z) (vs : list (option Volume.t)) (s : t) : M t :=
  match vs with
  | [] => mret s
  | v :: vs => s ← visit now s v; visit_all now vs s
  end.

Definition evaluate (s : t) : M t :=
  leader ← IsLeader;
  if negb leader then fail ErrNotLeader
  else
    now ← Now;
    st ← read;
    visit_all now (Store.ListVolumes "" st) s.

End schedule.
End SnapshotScheduler.

(** * The service (api/volumes.go) *)

Module CreateVolumeRequest.
Record t := mk { ProjectId : string; EnvironmentId : string; Name : string; NodeId : string; SnapshotPolicy : option SnapshotPolicy.t }.
End CreateVolumeRequest.

(** SnapshotVolumeRequest, ListSnapshotsRequest and DeleteVolumeRequest. *)
Module VolumeRequest.
Record t := mk { ProjectId : string; VolumeId : string }.
End VolumeRequest.

Module RestoreSnapshotRequest.
Record t := mk { ProjectId : string; VolumeId : string; SnapshotId : string }.
End RestoreSnapshotRequest.

Module VolumeServer.
Section service.
Context {RO : RangeOrder} {TL : TimestampLib} {V : VaultLib} {VA : VolumeAgents} {E : Env}.

Definition vapply (ctx : Ctx.t) (m : Mutation) : Handler () := propose ("user:" +:+ Identity.UserID (caller ctx)) m.

(** The dispatcher's errors as statuses. *)
Definition dispatched {A} (m : M A) : Handler A := λ w,
  match m w with
  | Ret (w', inl a) => Ret (w', inl a)
  | Ret (w', inr err) => Ret (w', inr (toStatus err))
  | Panic => Panic
  end.

(** [if err := m(); err != nil { h } ; k] *)
Definition catch {A B} (m : Handler A) (k : A → Handler B) (h : code → Handler B) : Handler B := λ w,
  match m w with
  | Ret (w', inl a) => k a w'
  | Ret (w', inr err) => h err w'
  | Panic => Panic
  end.

(** A volume by id, of the project. *)
Definition find_volume (st : Store.t) (id projectID : string) : option (option Volume.t) :=
  match Store.Volume id st with
  | Some v => if negb (v ⇝ Volume.ProjectId =? projectID) then None else Some v
  | None => None
  end.

Definition leastUsedVolumeNode (st : Store.t) : string := Volumes.leastUsedVolumeNode st.

Definition CreateVolume (ctx : Ctx.t) (req : CreateVolumeRequest.t) : Handler Volume.t :=
  let pid := CreateVolumeRequest.ProjectId req in
  let envID := CreateVolumeRequest.EnvironmentId req in
  if negb (validDNSName (CreateVolumeRequest.Name req)) then fail InvalidArgument
  else
    st ← read;
    match Store.Environment envID st with
    | None => fail NotFound
    | Some env =>
      if negb (env ⇝ Environment.ProjectId =? pid) then fail NotFound
      else
        match Store.VolumeByName pid envID (CreateVolumeRequest.Name req) st with
        | Some _ => fail AlreadyExists
        | None =>
          let asked := CreateVolumeRequest.NodeId req in
          if negb (asked =? "") && negb (bool_decide (is_Some (Store.Node asked st))) then fail InvalidArgument
          else
            let node := if asked =? "" then leastUsedVolumeNode st else asked in
            if node =? "" then fail FailedPrecondition
            else
              now ← Now;
              id ← New;
              let ts := Some (timestamppb_New now) in
              let v := Volume.mk (Some (Meta.mk id ts ts)) pid envID (CreateVolumeRequest.Name req) node VOLUME_STATUS_ACTIVE None
                (CreateVolumeRequest.SnapshotPolicy req) 0 in
              vapply ctx (Command_PutVolume (Some (PutVolume.mk (Some v))));;
              mret v
        end
    end.

Definition ListVolumes (projectID : string) : Handler (list (option Volume.t)) := st ← read; mret (Store.ListVolumes projectID st).

Definition SnapshotVolume (req : VolumeRequest.t) : Handler VolumeSnapshot.t :=
  st ← read;
  match find_volume st (VolumeRequest.VolumeId req) (VolumeRequest.ProjectId req) with
  | None => fail NotFound
  | Some v => dispatched (SnapshotDispatcher.RunSnapshot v)
  end.

Definition ListSnapshots (req : VolumeRequest.t) : Handler (list (option VolumeSnapshot.t)) :=
  st ← read;
  match find_volume st (VolumeRequest.VolumeId req) (VolumeRequest.ProjectId req) with
  | None => fail NotFound
  | Some _ => mret (Store.ListVolumeSnapshots (VolumeRequest.VolumeId req) st)
  end.

(** volumeMounted, at a time; the clock is read when there is a lease with an expiry. *)
Definition mounted_by_instance (st : Store.t) (v : option Volume.t) : bool :=
  existsb (λ a, (a ⇝ Assignment.JobId =? "") && is_run a && (a ⇝ Assignment.NodeId =? v ⇝ Volume.NodeId))
    (Store.ListAssignments (v ⇝ Volume.EnvironmentId) st).

Definition volumeMounted (v : option Volume.t) : Handler bool :=
  leased ← match v ⇝ Volume.Lease, v ⇝ Volume.Lease ⇝ VolumeLease.ExpiresAt with
  | Some _, Some exp => now ← Now; mret (now <? AsTime (Some exp))%Z
  | _, _ => mret false
  end;
  if leased : bool then mret true
  else
    st ← read;
    mret (mounted_by_instance st v).

(** Re-reads the volume, and writes all of it. *)
Definition setVolumeStatus (ctx : Ctx.t) (v : option Volume.t) (status : VolumeStatus) : Handler () :=
  st ← read;
  match Store.Volume (GetId v) st with
  | None => mret ()
  | Some cur =>
    cur ← deref cur;
    meta ← deref (Volume.Meta cur);
    now ← Now;
    let cur := cur <| Volume.Status := status |> in
    let cur := cur <| Volume.Meta := Some (meta <| Meta.UpdatedAt := Some (timestamppb_New now) |>) |> in
    vapply ctx (Command_PutVolume (Some (PutVolume.mk (Some cur))))
  end.

Definition find_snapshot (st : Store.t) (volumeID snapshotID : string) : option (option VolumeSnapshot.t) :=
  List.find (λ sn, GetId sn =? snapshotID) (Store.ListVolumeSnapshots volumeID st).

Definition RestoreSnapshot (ctx : Ctx.t) (req : RestoreSnapshotRequest.t) : Handler (option Volume.t) :=
  let id := RestoreSnapshotRequest.VolumeId req in
  st ← read;
  match find_volume st id (RestoreSnapshotRequest.ProjectId req) with
  | None => fail NotFound
  | Some v =>
    mounted ← volumeMounted v;
    if mounted : bool then fail FailedPrecondition
    else
      st ← read;
      match find_snapshot st id (RestoreSnapshotRequest.SnapshotId req) with
      | None => fail NotFound
      | Some snap =>
        if negb (bool_decide (snap ⇝ VolumeSnapshot.Status = SNAPSHOT_STATUS_COMPLETE)) then fail NotFound
        else
          setVolumeStatus ctx v VOLUME_STATUS_RESTORING;;
          catch (dispatched (SnapshotDispatcher.Restore v (snap ⇝ VolumeSnapshot.ManifestKey)))
            (λ _, setVolumeStatus ctx v VOLUME_STATUS_ACTIVE;;
              st ← read;
              mret (default None (Store.Volume id st)))
            (λ err, ignore (setVolumeStatus ctx v VOLUME_STATUS_ACTIVE);; fail err)
      end
  end.

Definition DeleteVolume (ctx : Ctx.t) (req : VolumeRequest.t) : Handler () :=
  st ← read;
  match find_volume st (VolumeRequest.VolumeId req) (VolumeRequest.ProjectId req) with
  | None => fail NotFound
  | Some v =>
    mounted ← volumeMounted v;
    if mounted : bool then fail FailedPrecondition
    else vapply ctx (Command_DeleteVolume (Some (DeleteByID.mk (VolumeRequest.VolumeId req))))
  end.

End service.
End VolumeServer.
