(* ===== verification/VolumeOpsProps.v ===== *)
(** Snapshots of volumes: what the retention drops, what the schedule fires, when a restore may
    run, and where the code falls short of its contract. *)
From S2P Require Import Prelude Api Requests Watch State StateInv Samples Platform Fsm Placement Leader Orchestrator Scheduler Cron Rpc Apps Volumes Executor VolumeOps.
Import SnapshotScheduler.

(** * Retention *)

Section retention.
Context {RO : RangeOrder} {TL : TimestampLib} {C : CronLib} {E : Env}.

(** The oldest are dropped, of those that are complete. *)
Lemma dead_of_spec st v :
  ∃ kept, complete_of st v ≡ₚ kept ++ dead_of st v ∧ (dead_of st v ≠ [] → length kept = keep_of v)
    ∧ length kept = Nat.min (keep_of v) (length (complete_of st v))
    ∧ ∀ k d, k ∈ kept → d ∈ dead_of st v → (created d ≤ created k)%Z.
Proof.
  unfold dead_of. cbv zeta. destruct (Nat.leb_spec (length (complete_of st v)) (keep_of v)) as [Hle|Hgt].
  - exists (complete_of st v). rewrite app_nil_r. split_and!; [done|done|lia|]. intros k d _ Hd. by apply elem_of_nil in Hd.
  - set (l := sort_slice newer (complete_of st v)). assert (l ≡ₚ complete_of st v) as Hp by apply sort_slice_perm.
    assert (length l = length (complete_of st v)) as Hl by (by rewrite Hp).
    exists (take (keep_of v) l). rewrite take_drop. split_and!; [by rewrite Hp|intros _; rewrite length_take; lia|rewrite length_take; lia|].
    intros k d Hk Hd. assert (StronglySorted (not_less newer) l) as Hs.
    { apply sort_slice_sorted.
      - intros x y. unfold not_less, newer. rewrite !Z.ltb_ge. lia.
      - intros x y z. unfold not_less, newer. rewrite !Z.ltb_ge. lia. }
    rewrite <- (take_drop (keep_of v) l) in Hs. pose proof (StronglySorted_app_1_elem_of _ _ _ _ _ Hs Hk Hd) as Hn.
    unfold not_less, newer in Hn. by apply Z.ltb_ge in Hn.
Qed.

Lemma complete_of_spec st v snap : snap ∈ complete_of st v ↔
  snap ∈ Store.ListVolumeSnapshots (GetId v) st ∧ snap ⇝ VolumeSnapshot.Status = SNAPSHOT_STATUS_COMPLETE.
Proof. unfold complete_of. rewrite list_elem_of_In, filter_In, <- list_elem_of_In. unfold is_complete. by rewrite bool_decide_eq_true. Qed.

Notation delete_snapshot snap := (Command_DeleteVolumeSnapshot (Some (DeleteByID.mk (GetId snap)))).

(** The proposals of the loop are a beginning of the list, all of it when it ends normally. *)
Lemma delete_each_sent (l : list (option VolumeSnapshot.t)) w w' r : for_each l (λ snap, snap_apply (delete_snapshot snap)) w = Ret (w', r) →
  ∃ n, World.sent w' = World.sent w ++ ((λ snap, delete_snapshot snap) <$> take n l) ∧ (r = inl () → take n l = l).
Proof.
  revert w. induction l as [|x l IH]; intros w; cbn [for_each].
  { intros [= <- <-]. exists 0. by rewrite app_nil_r. }
  unfold mbind, M_bind. destruct (snap_apply (delete_snapshot x) w) as [[w1 [[]|e]]|] eqn:E1; [| |done].
  - intros Hr. pose proof (logs_apply (λ ms, ms = [delete_snapshot x]) "system:snapshots" (delete_snapshot x) w eq_refl _ _ E1) as (ms & Hs & ->).
    destruct (IH w1 Hr) as (n & Hn & Hall). exists (S n). cbn [take fmap list_fmap]. rewrite Hn, Hs, <- app_assoc. split; [done|].
    intros Hi. by rewrite (Hall Hi).
  - intros [= <- <-]. pose proof (logs_apply (λ ms, ms = [delete_snapshot x]) "system:snapshots" (delete_snapshot x) w eq_refl _ _ E1) as (ms & Hs & ->).
    exists 1. cbn [take]. rewrite take_0. by rewrite Hs.
Qed.

(** C22: keeping the last snapshots of a volume, in every environment: of the completed ones,
    as many as the policy says (7 when it says nothing) are kept, and no completed one that is
    dropped is newer than one that is kept; what is proposed is the deletion of dropped ones
    only, so never of a snapshot that is running or failed or of another volume; when the pass
    is not cut short by a loss of leadership, of every one of them, and the node is then told
    to prune exactly those. *)
Theorem keep_last_is_kept (s : t) (v : option Volume.t) (w w' : World.t) (r : t + leader_error) :
  enforceKeepLast s v w = Ret (w', r) →
  ∃ kept dropped done, complete_of (World.store w) v ≡ₚ kept ++ dropped
    ∧ length kept = Nat.min (keep_of v) (length (complete_of (World.store w) v))
    ∧ (∀ k d, k ∈ kept → d ∈ dropped → (created d ≤ created k)%Z)
    ∧ (∀ d, d ∈ dropped → d ∈ Store.ListVolumeSnapshots (GetId v) (World.store w) ∧ d ⇝ VolumeSnapshot.Status = SNAPSHOT_STATUS_COMPLETE)
    ∧ done `prefix_of` dropped ∧ World.sent w' = World.sent w ++ ((λ snap, delete_snapshot snap) <$> done)
    ∧ (∀ s', r = inl s' → done = dropped ∧ lastFire s' = lastFire s ∧ fired s' = fired s
        ∧ pruned s' = pruned s ++ match dropped with [] => [] | _ => [(GetId v, GetId <$> dropped)] end).
Proof.
  intros Hrun. destruct (dead_of_spec (World.store w) v) as (kept & Hp & _ & Hlen & Hord).
  assert (∀ d, d ∈ dead_of (World.store w) v → d ∈ Store.ListVolumeSnapshots (GetId v) (World.store w) ∧ d ⇝ VolumeSnapshot.Status = SNAPSHOT_STATUS_COMPLETE) as Hin.
  { intros d Hd. apply complete_of_spec. rewrite Hp. apply elem_of_app. by right. }
  unfold enforceKeepLast, mbind, M_bind, read in Hrun. destruct (dead_of (World.store w) v) as [|d0 dead] eqn:Hdead.
  - injection Hrun as <- <-. exists kept, [], []. split_and!; try done. { by rewrite app_nil_r. }
    intros s' [= <-]. by rewrite app_nil_r.
  - destruct (for_each (d0 :: dead) _ w) as [[w1 o]|] eqn:Hf; [|done].
    destruct (delete_each_sent _ _ _ _ Hf) as (n & Hs & Hall).
    assert (w' = w1 ∧ (∀ s', r = inl s' → o = inl () ∧ s' = mk (lastFire s) (fired s) (pruned s ++ [(GetId v, GetId <$> d0 :: dead)]))) as [-> Hr].
    { destruct o as [[]|err]; injection Hrun as <- <-; (split; [done|]); [by intros s' [= <-]|done]. }
    exists kept, (d0 :: dead), (take n (d0 :: dead)). split_and!; try done.
    { exists (drop n (d0 :: dead)). by rewrite take_drop. }
    intros s' Hs'. destruct (Hr s' Hs') as [Ho ->]. by rewrite (Hall Ho).
Qed.

(** * The schedule *)

(** The slots fired for a volume. *)
Definition slots (id : string) (s : t) : list Z := snd <$> filter (λ p, p.1 = id) (fired s).

(** They increase, and the last is remembered. *)
Definition in_order (s : t) : Prop := ∀ id, StronglySorted Z.lt (slots id s) ∧ Forall (λ d, d ≤ default zero_time (lastFire s !! id))%Z (slots id s).

Lemma slots_snoc id s i due lf pr : slots id (mk lf (fired s ++ [(i, due)]) pr) = slots id s ++ (if bool_decide (i = id) then [due] else []).
Proof.
  unfold slots. cbn [fired]. rewrite filter_app, fmap_app. f_equal. rewrite filter_cons. cbn [fst].
  by destruct (decide (i = id)); [rewrite bool_decide_true|rewrite bool_decide_false].
Qed.

Lemma maybeSnapshot_in_order s st v now : in_order s → in_order (maybeSnapshot s st v now).
Proof.
  intros Ho. unfold maybeSnapshot. destruct (due_slot s st v now) as [due|] eqn:Hd; [|done].
  assert (default zero_time (lastFire s !! GetId v) < due)%Z as Hlt.
  { unfold due_slot in Hd. destruct (ParseStandard _) as [sched|]; [|done]. destruct (now <? _)%Z; [done|].
    destruct (Z.ltb_spec (default zero_time (lastFire s !! GetId v)) (Next sched (baseline st v))); [by injection Hd as <-|done]. }
  intros id. rewrite slots_snoc. destruct (Ho id) as [Hs Hf]. cbn [lastFire]. case_bool_decide as Hid.
  - subst id. rewrite lookup_insert, decide_True by done. cbn [default from_option]. split.
    + apply StronglySorted_app_2; [|done|by repeat constructor]. intros x y Hx ->%list_elem_of_singleton. rewrite Forall_forall in Hf. specialize (Hf x Hx). lia.
    + apply Forall_app. split; [|by repeat constructor]. eapply Forall_impl; [exact Hf|]. cbn. unfold id in *. lia.
  - rewrite app_nil_r, lookup_insert_ne by done. done.
Qed.

Lemma enforce_keeps_order s v w w' s' : in_order s → enforceKeepLast s v w = Ret (w', inl s') → in_order s'.
Proof.
  intros Ho. unfold enforceKeepLast, mbind, M_bind, read. destruct (dead_of (World.store w) v) as [|d l]; [by intros [= _ <-]|].
  match goal with |- context [for_each ?l ?f w] => destruct (for_each l f w) as [[w1 [[]|]]|] end; [|done..]. by intros [= _ <-].
Qed.

(** In a term of a leader, from its first pass on, the slots fired for a volume increase: no
    slot is fired twice, whatever happens to the snapshots and to the clock. *)
Theorem slots_are_fired_once (s : t) (w w' : World.t) (s' : t) : in_order s → evaluate s w = Ret (w', inl s') → in_order s'.
Proof.
  intros Ho. unfold evaluate. intros (w1 & leader & _ & H)%bind_inl. destruct (negb leader); [done|].
  apply bind_inl in H as (w2 & now & _ & H). apply bind_inl in H as (w3 & st & _ & H). revert s w3 Ho H.
  generalize (Store.ListVolumes "" st). induction l as [|v l IH]; intros s w3 Ho; cbn [visit_all]; [by intros [_ ->]%ret_inl|].
  intros (w4 & s1 & Hv & H)%bind_inl. eapply IH; [|exact H]. unfold visit in Hv. apply bind_inl in Hv as (w5 & st1 & _ & Hv).
  eapply enforce_keeps_order; [|exact Hv]. destruct (negb _); [by apply maybeSnapshot_in_order|done].
Qed.

Lemma in_order_reset : in_order (mk ∅ [] []).
Proof. intros id. split; constructor. Qed.

(** A snapshot that leaves no record, because the cluster is sealed or the node cannot be
    reached by raft, is not tried again: as long as no other is recorded the volume has no
    further slot in this term. *)
Lemma a_lost_snapshot_stops_the_schedule s st v sched due : ParseStandard (v ⇝ Volume.SnapshotPolicy ⇝ SnapshotPolicy.Schedule) = Some sched →
  due = Next sched (baseline st v) → lastFire s !! GetId v = Some due → ∀ now, maybeSnapshot s st v now = s.
Proof.
  intros Hp Hd Hl now. unfold maybeSnapshot, due_slot. rewrite Hp, Hl, <- Hd. cbn [default from_option id]. unfold id. rewrite Z.ltb_irrefl.
  by destruct (now <? due)%Z.
Qed.
End retention.

(** A sealed cluster records nothing. *)
Lemma a_sealed_cluster_records_nothing {RO : RangeOrder} {TL : TimestampLib} {V : VaultLib} {VA : VolumeAgents} {E : Env} vol w :
  Unsealed (World.tick w) = false →
  SnapshotDispatcher.RunSnapshot vol w = Ret (World.mk (World.store w) (S (World.tick w)) (World.sent w), inr ErrApply).
Proof.
  intros Hu. unfold SnapshotDispatcher.RunSnapshot, SnapshotDispatcher.s3Target, mbind, M_bind, tick_. by rewrite Hu.
Qed.

(** * The service *)

Section service.
Context {RO : RangeOrder} {TL : TimestampLib} {V : VaultLib} {VA : VolumeAgents} {E : Env}.
Import VolumeServer.

Definition puts_volume (m : Mutation) : Prop := ∃ x, m = Command_PutVolume x.

Lemma logs_vapply Q ctx m w : Q [m] → logs_at Q (vapply ctx m) w.
Proof. apply logs_propose. Qed.

Lemma silent_volumeMounted v : silent (volumeMounted v).
Proof. unfold volumeMounted. apply silent_bind; [|intros []; solve_silent]. repeat case_match; solve_silent. Qed.

Lemma silent_s3Target : silent (SnapshotDispatcher.s3Target).
Proof. unfold SnapshotDispatcher.s3Target. solve_silent. Qed.

Lemma silent_Restore v key : silent (SnapshotDispatcher.Restore v key).
Proof. unfold SnapshotDispatcher.Restore. apply silent_bind; [apply silent_s3Target|]. intros target. solve_silent. Qed.

Lemma silent_dispatched {A} (m : M A) : silent m → silent (dispatched m).
Proof.
  intros Hm w w' r. unfold dispatched. destruct (m w) as [[w1 [a|e]]|] eqn:E1; [| |done]; intros [= <- <-]; by apply (Hm _ _ _ E1).
Qed.

Lemma emits_setVolumeStatus ctx v status w : emits_at puts_volume (setVolumeStatus ctx v status) w.
Proof.
  unfold setVolumeStatus. apply logs_bind_read. destruct (Store.Volume (GetId v) (World.store w)) as [cur|]; [|apply emits_silent, silent_ret].
  apply emits_bind; [apply emits_silent, silent_deref|]. intros w1 c _. apply emits_bind; [apply emits_silent, silent_deref|]. intros w2 m _.
  apply emits_bind; [apply emits_silent; solve_silent|]. intros w3 now _. apply logs_vapply. repeat constructor. by eexists.
Qed.

Lemma emits_catch {A B} P (m : Handler A) (k : A → Handler B) (h : code → Handler B) w :
  emits_at P m w → (∀ a w, emits_at P (k a) w) → (∀ e w, emits_at P (h e) w) → emits_at P (catch m k h) w.
Proof.
  intros Hm Hk Hh w' r. unfold catch. destruct (m w) as [[w1 [a|e]]|] eqn:E1; [| |done]; intros Hr; destruct (Hm _ _ E1) as (ms1 & H1 & F1).
  - destruct (Hk a w1 _ _ Hr) as (ms2 & H2 & F2). exists (ms1 ++ ms2). rewrite H2, H1, app_assoc. split; [done|]. by apply Forall_app.
  - destruct (Hh e w1 _ _ Hr) as (ms2 & H2 & F2). exists (ms1 ++ ms2). rewrite H2, H1, app_assoc. split; [done|]. by apply Forall_app.
Qed.

(** What volumeMounted has seen when it says no. *)
Definition not_in_use (st : Store.t) (v : option Volume.t) : Prop :=
  mounted_by_instance st v = false ∧
  ∀ exp, v ⇝ Volume.Lease ≠ None → v ⇝ Volume.Lease ⇝ VolumeLease.ExpiresAt = Some exp → ∃ n, (AsTime (Some exp) ≤ clock_Now n)%Z.

Lemma volumeMounted_false v w w' : volumeMounted v w = Ret (w', inl false) → not_in_use (World.store w) v.
Proof.
  unfold volumeMounted. intros (w1 & leased & Hl & H)%bind_inl. destruct leased; [by apply ret_inl in H as [_ ?]|].
  apply bind_inl in H as (w2 & st & Hr & [_ Hm]%ret_inl).
  assert (World.store w1 = World.store w) as Hst.
  { destruct (v ⇝ Volume.Lease) as [l|]; [destruct (VolumeLease.ExpiresAt l) as [exp|] eqn:He; cbn in Hl; rewrite ?He in Hl|]; by (injection Hl as <- || injection Hl as <- _). }
  split; [unfold read in Hr; injection Hr as <- <-; by rewrite <- Hst|].
  intros exp Hne He. destruct (v ⇝ Volume.Lease) as [l|] eqn:Hlease; [|done]. rewrite He in Hl. injection Hl as _ Hl.
  exists (World.tick w). apply Z.ltb_ge. congruence.
Qed.

Lemma find_volume_spec st id pid v : find_volume st id pid = Some v → Store.Volume id st = Some v ∧ v ⇝ Volume.ProjectId = pid.
Proof.
  unfold find_volume. destruct (Store.Volume id st) as [v'|]; [|done]. destruct (v' ⇝ Volume.ProjectId =? pid) eqn:Hp; [|done].
  intros [= <-]. split; [done|]. by apply str_eqb_eq.
Qed.

(** C21: volumes in use are left alone, in every environment.  A call that restores a snapshot
    or deletes a volume has proposed nothing unless the volume is one of the project that the
    request names, no instance of its environment was to run on its node and its lease had run
    out, all in the state the handler read; a restore moreover only for a completed snapshot of
    that volume, and then it writes volumes only; a deletion proposes the one deletion. *)
Theorem volumes_in_use_are_left_alone (ctx : Ctx.t) (w w' : World.t) :
  (∀ req r, RestoreSnapshot ctx req w = Ret (w', r) → World.sent w' ≠ World.sent w →
    ∃ v snap ms, Store.Volume (RestoreSnapshotRequest.VolumeId req) (World.store w) = Some v ∧ v ⇝ Volume.ProjectId = RestoreSnapshotRequest.ProjectId req
      ∧ not_in_use (World.store w) v
      ∧ snap ∈ Store.ListVolumeSnapshots (RestoreSnapshotRequest.VolumeId req) (World.store w)
      ∧ GetId snap = RestoreSnapshotRequest.SnapshotId req ∧ snap ⇝ VolumeSnapshot.Status = SNAPSHOT_STATUS_COMPLETE
      ∧ World.sent w' = World.sent w ++ ms ∧ Forall puts_volume ms) ∧
  (∀ req r, DeleteVolume ctx req w = Ret (w', r) → World.sent w' ≠ World.sent w →
    ∃ v, Store.Volume (VolumeRequest.VolumeId req) (World.store w) = Some v ∧ v ⇝ Volume.ProjectId = VolumeRequest.ProjectId req
      ∧ not_in_use (World.store w) v
      ∧ World.sent w' = World.sent w ++ [Command_DeleteVolume (Some (DeleteByID.mk (VolumeRequest.VolumeId req)))]).
Proof.
  split; intros req r Hrun Hne.
  - unfold RestoreSnapshot in Hrun. cbv zeta in Hrun. unfold mbind at 1, M_bind at 1, read at 1 in Hrun.
    destruct (find_volume (World.store w) _ _) as [v|] eqn:Hv; [|by injection Hrun as <- _]. apply find_volume_spec in Hv as [Hv Hp].
    unfold mbind at 1, M_bind at 1 in Hrun. destruct (volumeMounted v w) as [[w1 [mounted|e]]|] eqn:Hm; [| |done];
      destruct (silent_volumeMounted v _ _ _ Hm) as [Hs1 Hst1]; [|by injection Hrun as <- _].
    destruct mounted; [by injection Hrun as <- _|]. apply volumeMounted_false in Hm.
    unfold mbind at 1, M_bind at 1, read at 1 in Hrun. rewrite Hst1 in Hrun.
    destruct (find_snapshot (World.store w) _ _) as [snap|] eqn:Hsnap; [|by injection Hrun as <- _].
    apply find_some in Hsnap as [Hin%list_elem_of_In Hid%str_eqb_eq]. case_bool_decide as Hc; cbn [negb] in Hrun; [|by injection Hrun as <- _].
    match type of Hrun with ?m w1 = _ => assert (emits_at puts_volume m w1) as He end.
    { apply emits_bind; [apply emits_setVolumeStatus|]. intros w2 [] _. apply emits_catch.
      - apply emits_silent, silent_dispatched, silent_Restore.
      - intros [] w3. apply emits_bind; [apply emits_setVolumeStatus|]. intros w4 [] _. apply emits_silent. solve_silent.
      - intros err w3. apply emits_bind; [apply emits_ignore, emits_setVolumeStatus|]. intros w4 [] _. apply emits_silent, silent_fail. }
    destruct (He _ _ Hrun) as (ms & Hms & Hf). exists v, snap, ms. rewrite Hms, Hs1. by split_and!.
  - unfold DeleteVolume in Hrun. unfold mbind at 1, M_bind at 1, read at 1 in Hrun.
    destruct (find_volume (World.store w) _ _) as [v|] eqn:Hv; [|by injection Hrun as <- _]. apply find_volume_spec in Hv as [Hv Hp].
    unfold mbind at 1, M_bind at 1 in Hrun. destruct (volumeMounted v w) as [[w1 [mounted|e]]|] eqn:Hm; [| |done];
      destruct (silent_volumeMounted v _ _ _ Hm) as [Hs1 Hst1]; [|by injection Hrun as <- _].
    destruct mounted; [by injection Hrun as <- _|]. apply volumeMounted_false in Hm. exists v. split_and!; try done.
    destruct (logs_vapply (λ ms, ms = [Command_DeleteVolume (Some (DeleteByID.mk (VolumeRequest.VolumeId req)))]) ctx _ w1 eq_refl _ _ Hrun) as (ms & Hms & ->).
    by rewrite Hms, Hs1.
Qed.
End service.

(** A lease is granted whatever the status of the volume: a restore does not keep an instance
    from being started on it, once the volume is not mounted any more. *)
Lemma a_restore_does_not_hold_the_volume {RO : RangeOrder} {TL : TimestampLib} {E : Env} now (v : Volume.t) :
  Volumes.renewLease now (Some (v <| Volume.Status := VOLUME_STATUS_RESTORING |>)) = Volumes.renewLease now (Some v).
Proof. reflexivity. Qed.

(** The pre-hook of a policy is never run: the request that the leader makes names no container. *)
Lemma pre_hooks_are_never_run (hp : string → string + string) (hook : string → string → option string) (tgt : option S3Target.t → option string)
    (snapshot : string → string → list Z * (Z + string)) vol snap target c cmd :
  LocalServer.RunPreHook c cmd ∉ (LocalServer.SnapshotVolume hp hook tgt snapshot (SnapshotDispatcher.snapshot_request vol snap target)).1.
Proof.
  unfold LocalServer.SnapshotVolume, SnapshotDispatcher.snapshot_request. cbn [AgentSnapshotVolumeRequest.Volume AgentSnapshotVolumeRequest.PreHookCommand
    AgentSnapshotVolumeRequest.PreHookContainerId AgentSnapshotVolumeRequest.S3 AgentSnapshotVolumeRequest.Snapshot].
  change (negb ("" =? "")) with false. rewrite andb_false_r. set (sent := λ e, ∃ m, e = LocalServer.Send m). intros Hin.
  enough (sent (LocalServer.RunPreHook c cmd)) as [m [=]]. revert Hin. generalize (LocalServer.RunPreHook c cmd). apply Forall_forall.
  destruct (hp _) as [path|err]; [|by repeat econstructor]. destruct (tgt _) as [err|]; [by repeat econstructor|].
  destruct (snapshot path _) as [reports r]. assert (∀ f : Z → VolumeOpProgress.t, Forall sent ((λ n, LocalServer.Send (f n)) <$> reports)) as Hs
    by (intros f; apply Forall_fmap, Forall_true; intros n; by eexists).
  destruct r as [n|err]; cbn [fst app]; (constructor; [by eexists|]); apply Forall_app; split; try apply Hs; by repeat econstructor.
Qed.

(** What the node reports as uploaded is the size of the whole tar. *)
Lemma uploads_are_reported_whole hp hook tgt snapshot req path n reports :
  hp (Exec.volumeName (AgentSnapshotVolumeRequest.Volume req ⇝ Volume.EnvironmentId) (AgentSnapshotVolumeRequest.Volume req ⇝ Volume.Name)) = inl path →
  AgentSnapshotVolumeRequest.PreHookCommand req = "" → tgt (AgentSnapshotVolumeRequest.S3 req) = None →
  snapshot path (GetId (AgentSnapshotVolumeRequest.Snapshot req)) = (reports, inl n) →
  ∃ m, last (LocalServer.SnapshotVolume hp hook tgt snapshot req).1 = Some (LocalServer.Send m)
    ∧ VolumeOpProgress.BytesDone m = u64 n ∧ VolumeOpProgress.BytesTotal m = u64 n ∧ VolumeOpProgress.Phase m = "done".
Proof.
  intros Hp Hh Ht Hs. unfold LocalServer.SnapshotVolume. rewrite Hp, Hh, Ht, Hs. cbn [fst]. exists (VolumeOpProgress.mk (u64 n) (u64 n) "done" "" (GetId (AgentSnapshotVolumeRequest.Snapshot req))). split; [|done]. exact (last_snoc _ (_ :: _)).
Qed.

(** Two environments whose ids begin with the same eight characters, about a second of a
    ULID's clock, share the Docker volumes of their stateful services. *)
Lemma environments_share_a_volume : Exec.volumeName "01J9ZK7M0000000000000000AA" "data" = Exec.volumeName "01J9ZK7M9ZZZZZZZZZZZZZZZZZ" "data".
Proof. reflexivity. Qed.

(** * Witnesses *)

Section samples.
Local Existing Instances canonical_range wellknown_times.

Definition at_second (n : Z) (id : string) : option Meta.t := Some (Meta.mk id (Some (Timestamp.mk n 0)) None).

Definition kept_volume (keep : Z) (lease : option VolumeLease.t) : option Volume.t :=
  Some (Volume.mk (at_second 0 "v1") "p2" "e1" "data" "n1" VOLUME_STATUS_ACTIVE lease (Some (SnapshotPolicy.mk "* * * * *" "" keep)) 0).

Definition snap_of (id : string) (n : Z) (status : SnapshotStatus) : option VolumeSnapshot.t :=
  Some (VolumeSnapshot.mk (at_second n id) "v1" id 1 1 status "").

(** Four snapshots, one of which failed, the newest under the least id. *)
Definition snapshots_store : Store.t :=
  Store.PutVolumeSnapshot (snap_of "a" 40 SNAPSHOT_STATUS_COMPLETE)
  (Store.PutVolumeSnapshot (snap_of "b" 10 SNAPSHOT_STATUS_COMPLETE)
  (Store.PutVolumeSnapshot (snap_of "c" 20 SNAPSHOT_STATUS_COMPLETE)
  (Store.PutVolumeSnapshot (snap_of "d" 5 SNAPSHOT_STATUS_FAILED)
  (Store.PutVolume (kept_volume 1 None)
  (Store.PutNode (Some (sample_node "n1" NODE_STATUS_ALIVE 4000 4096)) Store.New))))).

Notation no_fires := (mk ∅ [] []).
Notation keep_last v := (enforceKeepLast (E := quiet_env) no_fires v (World.mk snapshots_store 0 [])).

Lemma keep_last_is_kept_witness : ∃ w', keep_last (kept_volume 1 None) = Ret (w', inl (mk ∅ [] [("v1", ["c"; "b"])]))
  ∧ ∃ dropped : list (option VolumeSnapshot.t), World.sent w' = (λ snap, Command_DeleteVolumeSnapshot (Some (DeleteByID.mk (GetId snap)))) <$> dropped ∧ (GetId <$> dropped) = ["c"; "b"].
Proof.
  destruct (keep_last (kept_volume 1 None)) as [[w' r]|] eqn:E1; [|vm_compute in E1; discriminate].
  assert (r = inl (mk ∅ [] [("v1", ["c"; "b"])])) as -> by (vm_compute in E1; injection E1 as <- <-; reflexivity).
  exists w'. split; [reflexivity|].
  destruct (keep_last_is_kept (RO := canonical_range) (E := quiet_env) _ _ _ _ _ E1) as (kept & dropped & done' & _ & _ & _ & _ & _ & Hs & Hall).
  destruct (Hall _ eq_refl) as (-> & _ & _ & Hp). exists dropped. split; [exact Hs|]. cbn [pruned app] in Hp.
  destruct dropped as [|d l]; [discriminate Hp|]. by injection Hp as -> ->.
Defined.

Notation pass s n := (evaluate (C := minutely) (E := quiet_env) s (World.mk snapshots_store n [])).

(** The slot after the newest snapshot, at its time; and none later, while nothing is recorded. *)
Lemma slots_are_fired_once_witness :
  (∃ w1, pass no_fires 50 = Ret (w1, inl (mk ∅ [] [("v1", ["c"; "b"])])))
  ∧ ∃ w1 s1, pass no_fires 70 = Ret (w1, inl s1) ∧ fired s1 = [("v1", (60 * second)%Z)] ∧ in_order s1
    ∧ ∃ w2 s2, pass s1 200 = Ret (w2, inl s2) ∧ fired s2 = fired s1.
Proof.
  split; [eexists; vm_compute; reflexivity|].
  destruct (pass no_fires 70) as [[w1 [s1|e]]|] eqn:E1; [|vm_compute in E1; discriminate..].
  exists w1, s1. split; [reflexivity|]. split; [vm_compute in E1; injection E1 as <- <-; vm_compute; reflexivity|].
  split; [exact (slots_are_fired_once (RO := canonical_range) (TL := wellknown_times) (C := minutely) (E := quiet_env) _ _ _ _ in_order_reset E1)|].
  vm_compute in E1. injection E1 as <- <-. do 2 eexists. split; vm_compute; reflexivity.
Defined.

(** A vault that is open, and a node that does what it is asked. *)
Definition open_vault : VaultLib := {| Unsealed _ := true; Seal _ _ := Some None; Open _ := Some "secret" |}.
Definition willing_node : VolumeAgents := {|
  SnapshotVolume_call _ _ req := inl ([VolumeOpProgress.mk 7 9 "done" "" (GetId (AgentSnapshotVolumeRequest.Snapshot req))], None);
  RestoreVolume_call _ _ _ := inl ([VolumeOpProgress.mk 0 0 "done" "" ""], None);
  vault_DataKey _ := "key"
|}.
Local Existing Instances open_vault willing_node.

(** The volume with its snapshots, in a cluster that has a bucket. *)
Definition bucket_store (v : option Volume.t) : Store.t :=
  Store.SetBackupConfig (Some (BackupConfig.mk "s3" "bucket" "" "" None None "" false false)) (Store.PutVolume v snapshots_store).

Notation leased := (Some (VolumeLease.mk "n1" "a1" (Some (Timestamp.mk 100 0)))).
Notation run_delete E st n := (VolumeServer.DeleteVolume (E := E) alice_ctx (VolumeRequest.mk "p2" "v1") (World.mk st n [])).
Notation run_restore E st n := (VolumeServer.RestoreSnapshot (E := E) alice_ctx (RestoreSnapshotRequest.mk "p2" "v1" "a") (World.mk st n [])).

Definition statuses_sent (w : World.t) : list VolumeStatus :=
  omap (λ m, match m with Command_PutVolume x => Some (x ⇝ PutVolume.Volume ⇝ Volume.Status) | _ => None end) (World.sent w).

(** While its lease holds the volume is not touched; then it is restored, or deleted. *)
Lemma volumes_in_use_are_left_alone_witness :
  (∃ w', run_restore quiet_env (bucket_store (kept_volume 1 leased)) 99 = Ret (w', inr FailedPrecondition))
  ∧ (∃ w', run_delete quiet_env (bucket_store (kept_volume 1 leased)) 99 = Ret (w', inr FailedPrecondition))
  ∧ (∃ w' v, run_restore quiet_env (bucket_store (kept_volume 1 leased)) 100 = Ret (w', inl v)
      ∧ statuses_sent w' = [VOLUME_STATUS_RESTORING; VOLUME_STATUS_ACTIVE] ∧ Forall puts_volume (World.sent w'))
  ∧ ∃ w', run_delete quiet_env (bucket_store (kept_volume 1 leased)) 100 = Ret (w', inl ())
      ∧ World.sent w' = [Command_DeleteVolume (Some (DeleteByID.mk "v1"))].
Proof.
  split; [eexists; vm_compute; reflexivity|]. split; [eexists; vm_compute; reflexivity|]. split.
  - destruct (run_restore quiet_env (bucket_store (kept_volume 1 leased)) 100) as [[w' [v|e]]|] eqn:E1; [|vm_compute in E1; discriminate..].
    exists w', v. split; [reflexivity|].
    assert (statuses_sent w' = [VOLUME_STATUS_RESTORING; VOLUME_STATUS_ACTIVE]) as Hs by (vm_compute in E1; injection E1 as <- _; vm_compute; reflexivity).
    split; [exact Hs|]. destruct (proj1 (volumes_in_use_are_left_alone (E := quiet_env) alice_ctx _ w') _ _ E1) as (_ & _ & ms & _ & _ & _ & _ & _ & _ & Hw & Hp).
    { intros Hw. unfold statuses_sent in Hs. rewrite Hw in Hs. discriminate Hs. }
    rewrite Hw. exact Hp.
  - destruct (run_delete quiet_env (bucket_store (kept_volume 1 leased)) 100) as [[w' [[]|e]]|] eqn:E1; [|vm_compute in E1; discriminate..].
    exists w'. split; [reflexivity|].
    assert (length (World.sent w') = 1) as Hl by (vm_compute in E1; injection E1 as <-; vm_compute; reflexivity).
    destruct (proj2 (volumes_in_use_are_left_alone (E := quiet_env) alice_ctx _ w') _ _ E1) as (v & _ & _ & _ & Hw); [|exact Hw].
    intros Hw. rewrite Hw in Hl. discriminate Hl.
Defined.

(** Anybody with a token restores, takes and lists the snapshots of a project whose id they
    know: those methods have no project role.  Alice is no member of [p2]; she may not delete
    the volume there. *)
Lemma strangers_restore_snapshots :
  let st := Store.PutProject (Some (Project.mk (sample_meta "p2") "org" "other"))
    (Store.PutProjectMember (Some (ProjectMember.mk "p1" "alice" ROLE_DEVELOPER)) (Store.PutToken alice_token (Store.PutUser alice (bucket_store (kept_volume 1 None))))) in
  let call (method : string) {A} (h : Ctx.t → Handler A) := unary (T := sample_tokens) (E := quiet_env) alice_ctx ∅ method (Some "p2") (λ c _, h c) (World.mk st 0 []) in
  (∃ w' v, call "/zattera.v1.VolumeService/RestoreSnapshot" (λ c, VolumeServer.RestoreSnapshot (E := quiet_env) c (RestoreSnapshotRequest.mk "p2" "v1" "a")) = Ret (w', inl v)
     ∧ statuses_sent w' = [VOLUME_STATUS_RESTORING; VOLUME_STATUS_ACTIVE])
  ∧ (∃ w' snap, call "/zattera.v1.VolumeService/SnapshotVolume" (λ c, VolumeServer.SnapshotVolume (E := quiet_env) (VolumeRequest.mk "p2" "v1")) = Ret (w', inl snap)
     ∧ VolumeSnapshot.Status snap = SNAPSHOT_STATUS_COMPLETE)
  ∧ ∃ w', call "/zattera.v1.VolumeService/DeleteVolume" (λ c, VolumeServer.DeleteVolume (E := quiet_env) c (VolumeRequest.mk "p2" "v1")) = Ret (w', inr NotFound).
Proof.
  cbv zeta. split; [|split].
  - do 2 eexists. split; vm_compute; reflexivity.
  - do 2 eexists. split; vm_compute; reflexivity.
  - eexists. vm_compute. reflexivity.
Qed.

(** What the snapshots of a volume are listed by: their ids, oldest first. *)
Lemma snapshots_are_listed_by_id : (λ snap, (GetId snap, AsTime (snap ⇝ VolumeSnapshot.Meta ⇝ Meta.CreatedAt) / second)%Z) <$> Store.ListVolumeSnapshots "v1" snapshots_store
  = [("a", 40%Z); ("b", 10%Z); ("c", 20%Z); ("d", 5%Z)].
Proof. vm_compute. reflexivity. Qed.

(** A status write takes the lease with it that was granted since the volume was read. *)
Definition granting_env : Env := {|
  fate _ := Committed; raft_index n := Z.of_nat n; leads _ := true; ids_New _ := "id"; clock_Now n := (Z.of_nat n * 10 ^ 9)%Z;
  others _ s := Store.PutVolume (kept_volume 1 leased) s
|}.

Lemma a_status_write_erases_a_lease :
  (∀ n s v, Store.Volume "v1" (others (Env := granting_env) n s) = Some v → v ⇝ Volume.Lease = leased)
  ∧ ∃ w' v, VolumeServer.setVolumeStatus (E := granting_env) alice_ctx (kept_volume 1 None) VOLUME_STATUS_RESTORING
      (World.mk (bucket_store (kept_volume 1 None)) 0 []) = Ret (w', inl ())
    ∧ Store.Volume "v1" (World.store w') = Some v ∧ v ⇝ Volume.Lease = None.
Proof.
  split; [|do 2 eexists; split; [vm_compute; reflexivity|split; vm_compute; reflexivity]].
  intros n s v. cbn [others granting_env]. unfold Store.Volume, Store.PutVolume. cbn. rewrite lookup_insert, decide_True by done. by intros [= <-].
Qed.
End samples.
